(* ===== verification/_CoqProject ===== *)
-Q . S2P
Prelude.v
Prog.v
Tasks.v
Bytes.v
Utf8.v
Errors.v
Calendar.v
Vocab.v
BTreeSet.v
InputOps.v
HumanInput.v
LoopInput.v
Json.v
Events.v
Control.v
ControlSystem.v
CuaGate.v
Pattern.v
HostsParse.v
Target.v
Resolve.v
Expand.v
Records.v
Registry.v
RegistrySystem.v
RegistryInv.v
RegistryFacts.v
BridgeProtocol.v
GuestCarrier.v
HostBridge.v
GuestRuntime.v
Fs.v
Disk.v
Drive.v
Releases.v
GuestInstall.v
GuestTransfer.v
Webm.v
I420.v
RecordLog.v
Recorder.v
Store.v
BundleCache.v
Bundles.v
BundleFacts.v
BundleServed.v
TransferQueue.v
ViewerAuth.v
ViewerRoutes.v
Viewer.v
ViewerFrames.v
Wire.v
Dispatch.v
IpcServer.v
RecordService.v
Screen.v
SessionLoop.v
Session.v
SessionFiles.v
SessionThread.v
Connect.v
Settings.v
Client.v
McpProxy.v
Listener.v
Server.v
Diagnostics.v
