(* ===== verification/Prelude.v ===== *)
(** * A verification library for rdpilot

    rdpilot gives agents a Windows desktop over RDP.  A daemon
    ([crates/rdpilot-daemon]) keeps the sessions; agents reach it by a command
    line ([crates/rdpilot-cli]), by MCP ([crates/rdpilot-mcp]) or by a Cua
    attachment; people watch and take control with a browser (the viewer).
    Each session has a session loop ([crates/rdpilot]) that writes input to the
    RDP connection, may be recorded, and carries a virtual channel to a bridge
    process on the desktop ([crates/rdpilot-bridge]).  This library models,
    function by function, how requests reach the daemon, how control of a session
    passes between agents and people, what input reaches the remote machine, how
    sessions come and go, what is recorded and shown, how files move, how the
    bridge is fetched, talks and installs itself, and how a host's connection
    settings are found.

    ** The parts and how they fit

    Control and input:
    - [Vocab.v]: the input vocabulary of [crates/rdpilot-vocab/src/input.rs]:
      buttons, keys and their scancodes, mouse and key actions, raw viewer
      input.
    - [InputOps.v]: [crates/rdpilot/src/input.rs], [check_bounds] of
      [session.rs] and the wire batches of [session_loop.rs]: how an action
      becomes operations of the RDP input database.
    - [LoopInput.v]: the input part of [session_loop.rs] ([LoopInput], the
      command arm of [run_loop]), [InputEpoch], and the model of the loop that
      the daemon's fakes use ([LoopInputModel] of [seams.rs]).  The third-party
      input database is the class [InputDatabase]; [InputDatabaseLaws] says
      what the loop relies on, and [ListDatabase] is an instance.
    - [BTreeSet.v], [HumanInput.v]: the set of keys and buttons a human holds,
      and the free functions of [crates/rdpilot-daemon/src/control.rs] on
      viewer events.
    - [Json.v], [Events.v]: JSON values, and the session event log of
      [events.rs]: ring, sinks, call spans, and the tracker of Cua tool calls.
    - [Calendar.v]: the timestamps of [registry.rs] and [control.rs].
    - [Control.v]: [SessionControl] of [control.rs].  [Ctl] is the struct,
      [State] what its mutex protects, and every critical section of that mutex
      is one function [Ctl -> Ctl * answer].  [async] methods are the sequence
      of their critical sections: [take_within] is [take_begin], [take_settle],
      [take_finish], [take_record] and [take_abandon]; [input] is [input_loop]
      over [input_check], with what other tasks do between its sections as the
      arbitrary functions of an [EventEnv].
    - [ControlSystem.v]: all of it together.  [World] is a [Ctl], the loop with
      its queue, and the local state of every task; [step] has one rule per
      critical section, message and dequeued command.
    - [CuaGate.v]: [ipc/cua_gate.rs], which decides what of a Cua attachment's
      traffic passes while a human is in control.

    A session's connection ([crates/rdpilot]):
    - [Connect.v]: [connect.rs] with [rdpsnd_stub.rs]: what the connector is
      given, its channels, the TLS configuration, the order of the handshake.
    - [Screen.v]: [framebuffer.rs], [lifecycle.rs], [screenshot.rs]: the shared
      picture with its status, the lifecycle, and cropping.
    - [SessionLoop.v]: [run_loop] of [session_loop.rs] with [keepalive.rs]: the
      sources in their order, commands, outputs, reactivation.
    - [Session.v]: the calls of [session.rs]: mouse and key actions, epochs,
      pings, the launch of the bridge by typing.  [SessionFiles.v]: uploads and
      downloads.  [SessionThread.v]: the session thread and the close.

    Sessions ([registry.rs], [reconcile.rs], [lifecycle.rs]):
    - [Records.v]: the reconciliation file and [RecordBook], which remembers
      the sessions to log off after a crash.
    - [Registry.v]: [Registry], its entries, and every critical section of its
      mutex: claim, promotion, removal, lookups, the sweep of ended sessions,
      the idle reaper.
    - [RegistrySystem.v]: [open_tracked] with its task and its guard,
      [close_removed], the requests that remove and the end hook as a
      transition system (the field [at_answer] of an attempt is not the code's:
      it remembers what the connector answered); [RegistryInv.v] is its
      invariant, [RegistryFacts.v] what follows.

    Requests ([dispatch.rs], [ipc/], [crates/rdpilot-ipc]):
    - [Errors.v]: [Error] of [crates/rdpilot/src/error.rs], with texts and
      categories.
    - [Prog.v]: programs over operations that other code carries out, as trees
      of requests and answers; [follows] and [obeys] say what a program may ask
      in which order.  [Tasks.v]: tasks that run such programs side by side, an
      operation (a critical section) at a time.
    - [Listener.v]: the socket of [ipc/unix.rs], which decides what daemon
      serves.  [Server.v]: [run] of [server.rs], the two watchers of
      [lifecycle.rs] and the shutdown signal as tasks that run side by side,
      and the connect deadline.  [Diagnostics.v]: [diagnostics.rs].
    - [Wire.v]: requests, responses, wire errors, frames of the IPC stream,
      [connect_or_spawn].
    - [Dispatch.v]: [dispatch_for_ipc], every verb, and [dispatch_connect].
    - [IpcServer.v]: [serve_connection], the relay of a Cua attachment and the
      connection that holds a viewer.

    Clients:
    - [Client.v]: [crates/rdpilot-cli/src]: every verb from its parsed command
      to its exit code, with the round trips, password commands and tables.
    - [McpProxy.v]: [proxy.rs] of [crates/rdpilot-mcp]: attachment, lines and
      frames.

    The viewer ([viewer/]):
    - [ViewerAuth.v]: the addresses it binds and its checks of a request.
      [ViewerRoutes.v]: the route table.  [Viewer.v]: [handle] with every
      reply, over the operations of the viewer facade.  [ViewerFrames.v]: the
      frame cache.

    Files between the machines:
    - [Disk.v], [Drive.v]: a file system with links in which any operation may
      fail, and the redirected drive ([rdpdr_backend.rs]) over it.
    - [TransferQueue.v]: the queue of transfers of a session ([transfer.rs])
      with its worker and callers as a transition system.

    Bundles ([bundle/]):
    - [Releases.v]: tags, channels and checksum files ([cua.rs],
      [bridge_release.rs]).  [BundleCache.v]: the cache and the layout check
      ([cache.rs], [layout.rs]).  [Bundles.v]: [Acquirer::prepare] and the HTTP
      client ([mod.rs], [http.rs]), over the disk of [Fs.v] and a network that
      answers anything.  [BundleFacts.v]: what a connect asks and touches.
      [BundleServed.v]: what a prepared bundle is.

    Recording ([recording/]):
    - [Bytes.v]: machine integers as bytes, and serde_json on one type.
    - [Webm.v]: the file of one video segment, and a reader written from the
      format.  [I420.v]: the colour conversion before the encoder.
    - [RecordLog.v]: the bounded event queue, the frame mailbox, the event file
      and its reader.  [Recorder.v]: the recorder, which joins them.
    - [Store.v]: the recordings root: ids, scan, leftovers, pruning.
    - [RecordService.v]: the recording service ([recording/mod.rs]): start,
      stop, annotate, closes, reap and shutdown, as tasks.

    The bridge:
    - [BridgeProtocol.v]: [crates/rdpilot-bridge-protocol]: messages, manifest
      checks, frames and the incremental decoder.
    - [GuestCarrier.v]: the guest's end of the virtual channel ([windows.rs]).
      [HostBridge.v]: the daemon's end ([crates/rdpilot/src/bridge.rs]): the
      critical sections of [BridgeShared], its methods and the channel processor
      as programs of them, which tasks run side by side.
      [GuestRuntime.v]: the guest's loop ([runtime.rs]).
    - [Fs.v]: a file system in which any operation may fail and leave part of
      its work.  [GuestInstall.v], [GuestTransfer.v]: [install.rs] (where names
      that differ in case may be one file) and [transfer.rs] over it.

    Hosts:
    - [Pattern.v], [HostsParse.v], [Target.v], [Resolve.v], [Expand.v]:
      [crates/rdpilot-config/src/hosts]: patterns, lines and keywords, targets,
      resolution with includes, password commands.
    - [Settings.v]: the paths and the [[recording]] and [[viewer]] tables of
      [crates/rdpilot-config/src].

    This file has fallible code, texts and their std functions, decimal
    numbers, widths, shared tactics and lemmas.

    ** What the theorems show

    - Control ([ControlSystem.v], [Control.v]): in every interleaving the input
      the loop accepts never mixes two controllers
      ([controllers_never_interleave]); a granted lease is alone
      ([granted_lease_is_alone]); a take is granted on a released keyboard
      ([take_grants_released_input]); no transition is lost, so agents wait for
      live tasks only ([agent_admission]).  Per operation: input requests
      account for every event and aim at the current frame, leases expire
      exactly when documented, the last sixteen ends are remembered, and the
      command suggested to the user names the session whatever its name is.
    - The loop ([LoopInput.v]): epochs segment accepted input, commands behave
      as specified on every branch, and the fakes' model refines the loop.
    - The connection: the session loop does what is due and nothing else
      ([loop_does_what_is_due]); observers see whole pictures in order
      ([observers_see_one_write]); a crop takes its rectangle and never panics;
      a launch types exactly its line, which fits the Run dialog; credentials
      meet a server whose certificate was checked as configured
      ([credentials_meet_a_checked_server]); a download
      that succeeds is what the guest vouched for ([download_is_verified]);
      a close joins the thread once.
    - The gate ([CuaGate.v]): an acting call is not forwarded under a human
      lease unless it asks for takeover, the argument never reaches Cua, and
      the calls in flight are counted exactly.
    - Input ([InputOps.v], [HumanInput.v], [Vocab.v]): scroll amounts, bounds of
      every interpolated point, the held set, coalescing, scancodes.
    - The log ([Events.v]): pages are exact, every started call is finished
      once.
    - Sessions ([RegistryFacts.v], [Registry.v], [Records.v]): no session that
      was made is lost or closed twice, records follow sessions, a connect
      answers what it did, work under way can always end, ended sessions stay
      listed for their period, the reaper closes exactly the idle ones, and
      the record book is the map it stands for.
    - Recording: a segment file plays exactly the frames written
      ([segment_reads_back]); whatever the encoder and the disk do, closed
      segments show the captured frames and none is skipped until video stops
      ([segments_show_captured_frames]); queue and mailbox account for
      everything; the event file reads back; pruning deletes only what it may,
      oldest first and no more than the budget asks, and leftovers are ended
      once.  A session log feeds one
      recording, whose end is told once ([recordings_end_once]).
    - Requests: a connect fails closed ([connect_fails_closed]); a session whose
      Connect is not answered is closed ([unanswered_connects_are_closed]);
      every verb asks for its operation once ([verbs_do_what_they_name]); the
      relay of an attachment keeps its protocol ([cua_relay_is_orderly]);
      frames arrive in order.
    - The daemon: as long as no connect of a starting daemon fails, one serves
      ([one_daemon_serves]); it lists what was left behind before it serves,
      ends only after two quiet looks and in one order, and can always end then
      ([daemon_runs_in_order]).  Its diagnostics are replaced whole.
    - Clients: an invocation of the command line asks a checked daemon for what
      it says, leaves nothing behind, and its code and output are those of the
      answer or of the error ([invocations_are_orderly]); lines and frames cross the MCP proxy in order
      ([lines_cross_in_order]).
    - The viewer: it acts for genuine requests only
      ([viewer_acts_for_genuine_requests]), listens on its own addresses, and
      answers ranges exactly.
    - Files: the drive reads and writes below its root only, uploads are
      published whole; transfers run one at a time, in order, and every caller
      can be answered.
    - Bundles: a bundle that is served is whole ([prepared_bundle_is_whole]);
      a connect asks at most twelve times and never when downloads are off, and
      writes in its cache only; a network failure never picks another bridge;
      a channel is its newest release; an accepted archive is well-formed.
    - The bridge: however the channel cuts the stream, the envelopes arrive
      ([carrier_delivers]); what waits is bounded and a dead bridge stays dead;
      an installation that succeeds is the verified one, unless its archive is
      named like the bridge ([install_is_verified]); names in transfers
      stay below their root, and transfers overwrite nothing.
    - Hosts ([Pattern.v] to [Expand.v]): the pattern loop decides the declared
      relation, every value can be written and read back, the first value
      offered wins, includes end, passwords are not shown, and a password
      command cannot be made to run anything else.  Settings that resolve are
      within their bounds ([recording_settings_valid]).

    ** Conventions

    A [u64], [i64] or [usize] is a [Z] (an [N] in files on bytes) with its
    saturation or wrap-around written out; a character is its code point
    ([char], an [N]) and a string a [list] of them ([text]); a byte is an [N];
    byte lengths are computed.  A [Duration] or [Instant] is a [Z] of
    nanoseconds.  A clock, a random id, the answer of another task and whether
    an operation on a file succeeds are arguments.  Third-party code is a
    section variable or a class; its assumed laws are hypotheses of the
    theorems that use them.

    ** Fuel

    Loops that are not structural have fuel.  [glob_loop] has [glob_fuel], the
    product of the lengths plus one of pattern and text: each round lowers
    [glob_measure].  [load_text] has [include_fuel], one more than the deepest
    include nesting, which the code itself checks.  [expand_loop] has the length
    of the command plus one.  [dec_fuel] has the number of binary digits plus
    one.  [push_loop] (frames), [obu_loop], [parse_loop], [read_lines],
    [percent_bytes], [from_utf8_fuel] and [replace_fuel] have the length of
    their input (plus one): each round takes a byte or a character at least.
    [list_pages] has the three pages the code reads.  The rounds of loops that
    end when a peer ends them ([serve_connection], [relay]) are an argument,
    and an answer [None] is a loop that still runs.  So are the passes of the
    session loop and the steps of a reactivation ([run_loop]) and the lines of
    the MCP proxy ([to_cua], [from_cua]).  The rounds of the daemon's loops are
    the steps of a transition system and need none.
    [leb_loop] has nine, the rounds after which the code itself gives up.  Each
    has a theorem or lemma that the fuel is never used up, or is one that
    cannot run out for that reason ([glob_match_correct],
    [include_depth_bounded], [password_command_is_safe], [parse_unsigned_dec],
    [carrier_delivers], [elements_read], [read_lines_spec]).

    ** Limits

    The theorems on the whole system are stated up to the last epoch, which is
    [2^64 - 1] (the counter saturates there), and up to the end of the session:
    a lease that ends because its session ended advances no epoch, and from then
    on the loop accepts nothing.  Those on the registry hold until its
    generation counter wraps ([rg_next] is not zero).  Those on segments hold
    below [2^56 - 1] bytes, what an EBML size can say, and for captures in the
    order of their times.  Those on the recordings root suppose that a manifest
    names its directory ([well_named]), as the recorder writes it.  A critical
    section reads its clocks once, where the code may read them a few times
    within it.  [drive_is_confined] supposes that no link is below the share
    root (the findings say why), and the source of a rename of a directory is
    not modelled.  [prepared_bundle_is_whole] supposes a disk without failures
    for connects that download; other processes in the cache are not modelled.
    [one_daemon_serves] supposes that no connect of a starting daemon fails (the
    findings say why).  In Server.v requests change the registry in any way.
    Wall clocks, timeouts and what other tasks do between two operations of a
    program are answers of its operations.  Messages of the hosts code are constructors that carry the data
    the message shows.  JSON numbers are compared as canonical texts, and
    objects member by member in their order.  Paths are Unix paths on the host
    and parts of a path on the guest.

    Not modelled: sockets, pipes, TLS, processes, timers and the RDP protocol
    below the operations asked of them (system calls and third-party crates);
    image and video encoding; the parsing of the command line and the layering
    of configuration files (third-party); job objects, handles and process lists
    of the guest, its start and cleanup, and Windows access lists (system
    calls); the figures in milliseconds of the recorder, the display of sizes
    and the rate buckets of the viewer (floating point); two installers of the
    same bridge at once; and the fake connector with its sessions and pictures,
    which serve offline tests. *)
From Stdlib Require Export ZArith Lia.
From stdpp Require Export base option strings list gmap sets.

(** ** Scopes and notations *)
Declare Scope rd_scope.
Delimit Scope rd_scope with rd.

(** ** Fallible code: Rust's [Result<A, E>] *)
Inductive result (E A : Type) : Type :=
| Ok (a : A)
| Err (e : E).
Arguments Ok {E A} a.
Arguments Err {E A} e.

Definition rbind {E A B} (m : result E A) (f : A -> result E B) : result E B :=
  match m with Ok a => f a | Err e => Err e end.

Definition map_err {E F A} (f : E -> F) (m : result E A) : result F A :=
  match m with Ok a => Ok a | Err e => Err (f e) end.

Definition ok_or {E A} (e : E) (o : option A) : result E A :=
  match o with Some a => Ok a | None => Err e end.

(** [Option::and_then] *)
Definition and_then {A B} (o : option A) (f : A -> option B) : option B :=
  match o with Some a => f a | None => None end.

Definition err_of {E A} (m : result E A) : option E :=
  match m with Ok _ => None | Err e => Some e end.

Definition is_ok {E A} (m : result E A) : bool :=
  match m with Ok _ => true | Err _ => false end.

Notation "'let?' x ':=' m 'in' k" := (rbind m (fun x => k))
  (at level 10, x pattern, m at level 100, k at level 200) : rd_scope.

Global Instance result_eq_dec {E A} `{EqDecision E, EqDecision A} :
  EqDecision (result E A).
Proof. solve_decision. Defined.

(** ** Text: a Rust [&str] / [String] as its sequence of Unicode scalar values *)
#[global] Abbreviation char := N (only parsing).
#[global] Abbreviation text := (list N) (only parsing).

(** The text of an ASCII literal. *)
Fixpoint txt (s : string) : text :=
  match s with
  | EmptyString => []
  | String a s => Ascii.N_of_ascii a :: txt s
  end.

(** The double quote, which a literal cannot hold. *)
Definition dquote : char := 34%N.

Section Char.
Local Open Scope N_scope.

Definition in_range (lo hi c : char) : bool := (lo <=? c) && (c <=? hi).
Definition is_ascii_upper (c : char) : bool := in_range 65 90 c.
Definition is_ascii_lower (c : char) : bool := in_range 97 122 c.
Definition is_ascii_digit (c : char) : bool := in_range 48 57 c.
Definition is_ascii_alphanumeric (c : char) : bool :=
  is_ascii_upper c || is_ascii_lower c || is_ascii_digit c.

(** [char::is_whitespace]: the Unicode White_Space property. *)
Definition is_whitespace (c : char) : bool :=
  in_range 9 13 c || (c =? 32) || (c =? 133) || (c =? 160) || (c =? 5760)
  || in_range 8192 8202 c || (c =? 8232) || (c =? 8233) || (c =? 8239)
  || (c =? 8287) || (c =? 12288).

(** [char::is_control]: the Unicode general category Cc. *)
Definition is_control (c : char) : bool := in_range 0 31 c || in_range 127 159 c.

(** [char::to_ascii_lowercase] *)
Definition ascii_lower (c : char) : char := if is_ascii_upper c then c + 32 else c.
End Char.

(** [str::to_ascii_lowercase] *)
Definition to_ascii_lowercase (t : text) : text := map ascii_lower t.
(** [str::eq_ignore_ascii_case] *)
Definition eq_ignore_ascii_case (a b : text) : bool :=
  bool_decide (to_ascii_lowercase a = to_ascii_lowercase b).

Fixpoint drop_while {A} (p : A -> bool) (l : list A) : list A :=
  match l with
  | [] => []
  | x :: l' => if p x then drop_while p l' else l
  end.

Fixpoint take_while {A} (p : A -> bool) (l : list A) : list A :=
  match l with
  | [] => []
  | x :: l' => if p x then x :: take_while p l' else []
  end.

Definition trim_start (t : text) : text := drop_while is_whitespace t.
Definition trim_end (t : text) : text := reverse (drop_while is_whitespace (reverse t)).
Definition trim (t : text) : text := trim_end (trim_start t).

Fixpoint strip_prefix (p t : text) : option text :=
  match p, t with
  | [], _ => Some t
  | x :: p', y :: t' => if (x =? y)%N then strip_prefix p' t' else None
  | _ :: _, [] => None
  end.

Definition starts_with (p t : text) : bool := bool_decide (is_Some (strip_prefix p t)).

(** [str::split_once] at a character. *)
Fixpoint split_once_char (c : char) (t : text) : option (text * text) :=
  match t with
  | [] => None
  | x :: t' =>
      if (x =? c)%N then Some ([], t')
      else match split_once_char c t' with
           | Some (a, b) => Some (x :: a, b)
           | None => None
           end
  end.

Definition slash : char := 47%N.
Definition backslash : char := 92%N.

(** [str::replace] of backslashes by slashes. *)
Definition forward (t : text) : text := map (fun c => if (c =? backslash)%N then slash else c) t.

(** [str::split] at a character: at least one part. *)
Fixpoint split_char (c : char) (t : text) : list text :=
  match t with
  | [] => [[]]
  | x :: t =>
      if (x =? c)%N then [] :: split_char c t
      else match split_char c t with
           | [] => [[x]]
           | p :: ps => (x :: p) :: ps
           end
  end.

(** [str::split_once] at a string. *)
Fixpoint split_once (p t : text) : option (text * text) :=
  match strip_prefix p t with
  | Some rest => Some ([], rest)
  | None =>
      match t with
      | [] => None
      | x :: t' =>
          match split_once p t' with
          | Some (a, b) => Some (x :: a, b)
          | None => None
          end
      end
  end.

(** UTF-8 length of a scalar value, and of a text. *)
Definition len_utf8 (c : char) : N :=
  (if c <? 128 then 1 else if c <? 2048 then 2 else if c <? 65536 then 3 else 4)%N.
Definition byte_len (t : text) : N := foldr (fun c n => len_utf8 c + n)%N 0%N t.

(** [str::split_at_checked] at a byte offset: [None] past the end or inside a
    character. *)
Fixpoint split_bytes (n : N) (t : text) : option (text * text) :=
  if (n =? 0)%N then Some ([], t)
  else match t with
       | [] => None
       | c :: t' =>
           if (n <? len_utf8 c)%N then None
           else match split_bytes (n - len_utf8 c)%N t' with
                | Some (a, b) => Some (c :: a, b)
                | None => None
                end
       end.

(** [str::get(lo..hi)] *)
Definition str_get (lo hi : N) (t : text) : option text :=
  if (hi <? lo)%N then None
  else match split_bytes lo t with
       | Some (_, b) => fst <$> split_bytes (hi - lo)%N b
       | None => None
       end.

(** ** Decimal text of unsigned integers *)
Definition digit (d : N) : char := (48 + d)%N.

Fixpoint dec_fuel (fuel : nat) (n : N) (acc : text) : text :=
  match fuel with
  | O => acc
  | S fuel =>
      let acc := digit (n mod 10)%N :: acc in
      if (n <? 10)%N then acc else dec_fuel fuel (n / 10)%N acc
  end.

(** [u64::to_string]; a number has at most as many decimal as binary digits. *)
Definition dec (n : N) : text := dec_fuel (S (N.size_nat n)) n [].

(** [format!("{n:0w$}")] *)
Definition pad0 (w : nat) (t : text) : text := replicate (w - length t) 48%N ++ t.

Fixpoint parse_digits (t : text) (acc : N) : option N :=
  match t with
  | [] => Some acc
  | c :: t' => if is_ascii_digit c then parse_digits t' (acc * 10 + (c - 48))%N else None
  end.

(** [str::parse::<uN>] for a type whose largest value is [max]: an optional
    plus sign, then at least one digit; an overflow is an error. *)
Definition parse_unsigned (max : N) (t : text) : option N :=
  let t := match t with 43%N :: t' => t' | _ => t end in
  match t with
  | [] => None
  | _ :: _ => match parse_digits t 0%N with
              | Some n => if (n <=? max)%N then Some n else None
              | None => None
              end
  end.

Definition u16_max : N := 65535%N.
Definition u64_max : Z := (2 ^ 64 - 1)%Z.

Definition i64_max : Z := (2 ^ 63 - 1)%Z.

(** Saturating [u64]/[usize] arithmetic on mathematical integers. *)
Definition saturating_sub (a b : Z) : Z := Z.max 0 (a - b).
Definition u64_saturating_add (a b : Z) : Z := Z.min u64_max (a + b).

(** ** Shared tactics *)

(** Case analysis on every [match]/[if] scrutinee of the goal, then simplify. *)
Ltac case_all :=
  repeat (case_match; simplify_eq/=).

(** Turn the boolean comparisons of the context into propositions. *)
Ltac bools :=
  repeat match goal with
  | H : (_ && _)%bool = true |- _ => apply andb_true_iff in H as [? ?]
  | H : (_ && _)%bool = false |- _ => apply andb_false_iff in H
  | H : (_ || _)%bool = true |- _ => apply orb_true_iff in H
  | H : (_ || _)%bool = false |- _ => apply orb_false_iff in H as [? ?]
  | H : negb _ = true |- _ => apply negb_true_iff in H
  | H : negb _ = false |- _ => apply negb_false_iff in H
  | H : bool_decide _ = true |- _ => apply bool_decide_eq_true in H
  | H : bool_decide _ = false |- _ => apply bool_decide_eq_false in H
  | H : (_ =? _)%N = true |- _ => apply N.eqb_eq in H
  | H : (_ =? _)%N = false |- _ => apply N.eqb_neq in H
  | H : (_ <? _)%N = true |- _ => apply N.ltb_lt in H
  | H : (_ <? _)%N = false |- _ => apply N.ltb_ge in H
  | H : (_ <=? _)%N = true |- _ => apply N.leb_le in H
  | H : (_ <=? _)%N = false |- _ => apply N.leb_gt in H
  | H : (_ =? _)%Z = true |- _ => apply Z.eqb_eq in H
  | H : (_ =? _)%Z = false |- _ => apply Z.eqb_neq in H
  | H : (_ <? _)%Z = true |- _ => apply Z.ltb_lt in H
  | H : (_ <? _)%Z = false |- _ => apply Z.ltb_ge in H
  | H : (_ <=? _)%Z = true |- _ => apply Z.leb_le in H
  | H : (_ <=? _)%Z = false |- _ => apply Z.leb_gt in H
  | H : (_ =? _)%nat = true |- _ => apply Nat.eqb_eq in H
  | H : (_ =? _)%nat = false |- _ => apply Nat.eqb_neq in H
  | H : (_ <? _)%nat = true |- _ => apply Nat.ltb_lt in H
  | H : (_ <? _)%nat = false |- _ => apply Nat.ltb_ge in H
  | H : (_ <=? _)%nat = true |- _ => apply Nat.leb_le in H
  | H : (_ <=? _)%nat = false |- _ => apply Nat.leb_gt in H
  end.

(** ** Generic lemmas *)

Create HintDb rd.

Lemma rbind_ok {E A B} (m : result E A) (f : A -> result E B) b :
  rbind m f = Ok b <-> exists a, m = Ok a /\ f a = Ok b.
Proof. destruct m; simpl; naive_solver. Qed.

Lemma Ok_inj {E A} (a b : A) : @Ok E A a = Ok b -> a = b.
Proof. congruence. Qed.

Lemma rbind_err {E A B} (m : result E A) (f : A -> result E B) e :
  rbind m f = Err e <-> m = Err e \/ exists a, m = Ok a /\ f a = Err e.
Proof. destruct m; simpl; naive_solver. Qed.

Lemma take_drop_while {A} (p : A -> bool) l : take_while p l ++ drop_while p l = l.
Proof. induction l as [|x l IH]; simpl; [done|]. destruct (p x); simpl; congruence. Qed.

Lemma take_while_Forall {A} (p : A -> bool) l : Forall (fun x => p x = true) (take_while p l).
Proof. induction l as [|x l IH]; simpl; [done|]. destruct (p x) eqn:E; auto. Qed.

Lemma drop_while_head {A} (p : A -> bool) l :
  match drop_while p l with [] => True | x :: _ => p x = false end.
Proof. induction l as [|x l IH]; simpl; [done|]. destruct (p x) eqn:E; auto. Qed.

Lemma strip_prefix_Some p t r : strip_prefix p t = Some r <-> t = p ++ r.
Proof.
  revert t; induction p as [|x p IH]; intros [|y t]; simpl; [naive_solver..|].
  destruct (N.eqb_spec x y) as [->|Hne].
  - rewrite IH. naive_solver.
  - split; [done|]. intros [= ->]. done.
Qed.

Lemma split_once_char_Some c t a b :
  split_once_char c t = Some (a, b) <-> t = a ++ c :: b /\ c ∉ a.
Proof.
  revert a; induction t as [|x t IH]; intros a; simpl.
  { split; [done|]. intros [H _]. by destruct a. }
  destruct (N.eqb_spec x c) as [->|Hne].
  { split.
    - intros [= <- <-]. split; [done|set_solver].
    - intros [H Hni]. destruct a as [|y a]; simplify_eq/=; [done|set_solver]. }
  destruct (split_once_char c t) as [[a' b']|] eqn:E.
  - split.
    + intros [= <- <-]. destruct (proj1 (IH a') eq_refl) as [-> ?]. set_solver.
    + intros [H Hni]. destruct a as [|y a]; simplify_eq/=.
      assert (Some (a', b') = Some (a, b)) as [= -> ->]; [|done].
      apply IH. set_solver.
  - split; [done|]. intros [H Hni]. destruct a as [|y a]; simplify_eq/=.
    assert (None = Some (a, b)) as [=]. apply IH. set_solver.
Qed.

Lemma split_once_char_None c t : split_once_char c t = None <-> c ∉ t.
Proof.
  induction t as [|x t IH]; simpl; [set_solver|].
  destruct (N.eqb_spec x c) as [->|Hne]; [set_solver|].
  destruct (split_once_char c t) as [[a b]|]; set_solver.
Qed.

(** [dec] and [parse_digits] are inverse. *)
Lemma split_char_parts c t part : part ∈ split_char c t -> c ∉ part.
Proof.
  revert part. induction t as [|x t IH]; intros part; cbn [split_char].
  { intros ->%list_elem_of_singleton. by intros ?%elem_of_nil. }
  destruct (N.eqb_spec x c) as [->|Hne].
  - intros [->|Hi]%elem_of_cons; [by intros ?%elem_of_nil|by apply IH].
  - destruct (split_char c t) as [|p ps].
    + intros ->%list_elem_of_singleton. by intros ->%list_elem_of_singleton.
    + intros [->|Hi]%elem_of_cons; [|apply IH; by right].
      intros [->|Hx]%elem_of_cons; [done|]. apply (IH p); [by left|done].
Qed.

Lemma split_char_elem c t part x : part ∈ split_char c t -> x ∈ part -> x ∈ t.
Proof.
  revert part. induction t as [|y t IH]; intros part; cbn [split_char].
  { intros ->%list_elem_of_singleton. by intros ?%elem_of_nil. }
  destruct (y =? c)%N.
  - intros [->|Hi]%elem_of_cons; [by intros ?%elem_of_nil|]. intros Hx. right. by eapply IH.
  - destruct (split_char c t) as [|p ps].
    + intros ->%list_elem_of_singleton. intros ->%list_elem_of_singleton. by left.
    + intros [->|Hi]%elem_of_cons Hx; [|right; apply (IH part); [by right|done]].
      apply elem_of_cons in Hx as [->|Hx]; [by left|]. right. apply (IH p); [by left|done].
Qed.

Lemma forward_no_backslash t : backslash ∉ forward t.
Proof.
  unfold forward. intros (c & Hc & _)%list_elem_of_fmap. destruct (N.eqb_spec c backslash); [done|]. congruence.
Qed.

Lemma parse_digits_acc t acc n :
  parse_digits t acc = Some n <->
  Forall (fun c => is_ascii_digit c = true) t /\
  n = (acc * 10 ^ N.of_nat (length t) + foldl (fun a c => a * 10 + (c - 48)) 0 t)%N.
Proof.
  revert acc. induction t as [|c t IH]; intros acc.
  { simpl. rewrite N.mul_1_r, N.add_0_r. naive_solver. }
  assert (forall l a, foldl (fun a c => a * 10 + (c - 48)) a l
    = (a * 10 ^ N.of_nat (length l) + foldl (fun a c => a * 10 + (c - 48)) 0 l))%N as Hf.
  { clear. induction l as [|x l IH]; intros a; [simpl; lia|].
    cbn [foldl length]. rewrite IH, (IH (0 * 10 + _)%N).
    rewrite Nat2N.inj_succ, N.pow_succ_r'. lia. }
  cbn [parse_digits]. destruct (is_ascii_digit c) eqn:E.
  - rewrite IH. rewrite Forall_cons. cbn [foldl length].
    rewrite (Hf _ (0 * 10 + _)%N), Nat2N.inj_succ, N.pow_succ_r'.
    split; intros [? ->]; (split; [tauto|lia]).
  - split; [done|]. intros [H _]. inversion H; congruence.
Qed.

Lemma dec_fuel_acc fuel n acc : dec_fuel fuel n acc = dec_fuel fuel n [] ++ acc.
Proof.
  revert n acc. induction fuel as [|fuel IH]; intros n acc; [done|].
  cbn [dec_fuel]. destruct (n <? 10)%N; [done|].
  rewrite IH, (IH _ [_]). by rewrite <- app_assoc.
Qed.

Lemma digit_is_digit d : (d < 10)%N -> is_ascii_digit (digit d) = true.
Proof. intros. unfold is_ascii_digit, in_range, digit. apply andb_true_iff. rewrite !N.leb_le. lia. Qed.

Lemma dec_fuel_value fuel n :
  (n < 10 ^ N.of_nat fuel)%N -> (0 < fuel)%nat ->
  dec_fuel fuel n [] <> [] /\
  Forall (fun c => is_ascii_digit c = true) (dec_fuel fuel n []) /\
  foldl (fun a c => a * 10 + (c - 48))%N 0%N (dec_fuel fuel n []) = n.
Proof.
  revert n. induction fuel as [|fuel IH]; intros n Hn Hf; [lia|].
  cbn [dec_fuel].
  assert (n mod 10 < 10)%N as Hm by (apply N.mod_lt; lia).
  destruct (n <? 10)%N eqn:E; bools.
  { split; [done|]. split; [constructor; [by apply digit_is_digit|done]|].
    cbn [foldl]. unfold digit. rewrite N.mod_small by lia. lia. }
  rewrite dec_fuel_acc.
  destruct (IH (n / 10)%N) as (H1 & H2 & H3).
  { apply N.Div0.div_lt_upper_bound. rewrite Nat2N.inj_succ, N.pow_succ_r' in Hn. lia. }
  { destruct fuel; [|lia]. simpl in Hn. lia. }
  split; [by destruct (dec_fuel fuel (n / 10) [])|].
  split.
  { apply Forall_app. split; [done|]. constructor; [by apply digit_is_digit|done]. }
  rewrite foldl_app, H3. cbn [foldl]. unfold digit.
  pose proof (N.Div0.div_mod n 10) as Hdm.
  set (q := (n / 10)%N) in *. set (r := (n mod 10)%N) in *. clearbody q r. clear -Hdm Hm. lia.
Qed.

Lemma dec_fuel_enough n : (n < 10 ^ N.of_nat (S (N.size_nat n)))%N.
Proof.
  assert (n < 2 ^ N.of_nat (N.size_nat n))%N as H.
  { replace (N.of_nat (N.size_nat n)) with (N.size n); [apply N.size_gt|].
    destruct n as [|p]; [done|]. cbn [N.size N.size_nat].
    induction p as [p IH|p IH|]; cbn [Pos.size Pos.size_nat]; lia. }
  eapply N.lt_le_trans; [exact H|].
  transitivity (10 ^ N.of_nat (N.size_nat n))%N; [apply N.pow_le_mono_l; lia|].
  apply N.pow_le_mono_r; lia.
Qed.

Lemma dec_fuel_length w fuel n :
  (n < 10 ^ N.of_nat w)%N -> (0 < w)%nat -> (length (dec_fuel fuel n []) <= w)%nat.
Proof.
  revert fuel n. induction w as [|w IH]; intros [|fuel] n Hn Hw; cbn [dec_fuel]; [lia..|simpl; lia|].
  destruct (n <? 10)%N eqn:E; bools; [simpl; lia|].
  rewrite dec_fuel_acc, length_app. cbn [length].
  rewrite Nat2N.inj_succ, N.pow_succ_r' in Hn.
  assert (0 < w)%nat as Hw' by (destruct w; [simpl in Hn; lia|lia]).
  specialize (IH fuel (n / 10)%N). assert (n / 10 < 10 ^ N.of_nat w)%N as Hd.
  { apply N.Div0.div_lt_upper_bound. lia. }
  specialize (IH Hd Hw'). lia.
Qed.

Lemma pad0_dec_length w n : (n < 10 ^ N.of_nat w)%N -> (0 < w)%nat -> length (pad0 w (dec n)) = w.
Proof.
  intros Hn Hw. unfold pad0. rewrite length_app, length_replicate.
  pose proof (dec_fuel_length w (S (N.size_nat n)) n Hn Hw). unfold dec. lia.
Qed.

Lemma parse_digits_dec n : parse_digits (dec n) 0%N = Some n.
Proof.
  apply parse_digits_acc.
  destruct (dec_fuel_value _ n (dec_fuel_enough n)) as (_ & H2 & H3); [lia|].
  unfold dec. rewrite H3. split; [done|lia].
Qed.

Lemma dec_not_nil n : dec n <> [].
Proof. apply (dec_fuel_value _ n (dec_fuel_enough n)). lia. Qed.

Lemma dec_digits n : Forall (fun c => is_ascii_digit c = true) (dec n).
Proof. apply (dec_fuel_value _ n (dec_fuel_enough n)). lia. Qed.

Lemma parse_unsigned_dec max n : (n <= max)%N -> parse_unsigned max (dec n) = Some n.
Proof.
  intros Hle. unfold parse_unsigned.
  pose proof (dec_not_nil n) as Hn. pose proof (dec_digits n) as Hd.
  pose proof (parse_digits_dec n) as Hp.
  destruct (dec n) as [|c t] eqn:E; [done|].
  assert (c <> 43%N) as Hc.
  { inversion Hd as [|? ? Hx]; subst. intros ->. discriminate Hx. }
  assert (match c with 43%N => t | _ => c :: t end = c :: t) as Hm.
  { repeat case_match; congruence. }
  rewrite Hm, Hp. apply N.leb_le in Hle. by rewrite Hle.
Qed.

Lemma trim_start_id t : (forall c, head t = Some c -> is_whitespace c = false) -> trim_start t = t.
Proof. destruct t as [|c t]; [done|]. intros Hc. unfold trim_start. cbn. by rewrite Hc. Qed.

Lemma trim_end_last t c : is_whitespace c = false -> trim_end (t ++ [c]) = t ++ [c].
Proof.
  intros Hc. unfold trim_end. rewrite reverse_app. change (reverse [c]) with [c]. cbn [app drop_while].
  by rewrite Hc, reverse_cons, reverse_involutive.
Qed.

Lemma trim_plain t : Forall (fun c => is_whitespace c = false) t -> trim t = t.
Proof.
  intros Ht. unfold trim. rewrite trim_start_id.
  - destruct t as [|c t _] using rev_ind; [done|]. apply trim_end_last.
    apply Forall_app in Ht as [_ Hc]. by inversion Hc.
  - intros c Hc. destruct t as [|x t]; [done|]. injection Hc as ->. by inversion Ht.
Qed.

Lemma dec_plain n : Forall (fun c => is_whitespace c = false) (dec n).
Proof.
  eapply Forall_impl; [apply dec_digits|]. intros c Hc. cbn in Hc.
  unfold is_ascii_digit, is_whitespace, in_range in *. bools.
  repeat match goal with |- context [(?a =? ?b)%N] => rewrite (proj2 (N.eqb_neq a b)) by lia end.
  repeat match goal with |- context [(c <=? ?b)%N] => rewrite (proj2 (N.leb_gt c b)) by lia end.
  rewrite (proj2 (N.leb_gt 8192 c)) by lia. by rewrite !andb_false_r.
Qed.

Create Rewrite HintDb rd_rw.
#[export] Hint Rewrite @rbind_ok @rbind_err : rd_rw.
#[export] Hint Resolve take_while_Forall dec_digits : rd.

(** A list of optional results with distinct keys. *)
Lemma NoDup_omap_keyed {A B C} (f : A -> option B) (key : B -> C) (l : list A) :
  NoDup l ->
  (forall x y b b', x ∈ l -> y ∈ l -> f x = Some b -> f y = Some b' -> key b = key b' -> x = y) ->
  NoDup (key <$> omap f l).
Proof.
  intros Hnd. induction Hnd as [|x l Hx Hnd IH]; intros Hinj; [constructor|]. cbn.
  assert (NoDup (key <$> omap f l)) as Htl by (apply IH; intros; eapply Hinj; eauto; by right).
  destruct (f x) as [b|] eqn:E; [|done]. cbn. constructor; [|done].
  intros (b' & Hk & (y & Hy & Hb')%list_elem_of_omap)%list_elem_of_fmap.
  assert (x = y) as <-; [|done]. eapply (Hinj x y b b'); try done; [by left|by right].
Qed.
