(* ===== verification/Prog.v ===== *)
(** * Programs that act on their surroundings

    [prog E A] is code that asks its surroundings for operations of [E], sees
    each answer, and ends with an [A].  It lets a handler be written as the
    code has it, call after call, while what the calls do is said elsewhere:
    [all_ops] speaks of every operation a program can ask for, whatever is
    answered, [all_rets] of every end, [follows] and
    [obeys] of the order of the operations, and [run] plays it against a handler. *)
From S2P Require Import Prelude.

Inductive prog (E : Type -> Type) (A : Type) : Type :=
| Ret (a : A)
| Act (B : Type) (e : E B) (k : B -> prog E A).
Arguments Ret {E A} a.
Arguments Act {E A B} e k.

Fixpoint pbind {E A B} (p : prog E A) (f : A -> prog E B) : prog E B :=
  match p with
  | Ret a => f a
  | Act e k => Act e (fun b => pbind (k b) f)
  end.

(** One operation. *)
Definition act {E : Type -> Type} {A} (e : E A) : prog E A := Act e Ret.

Declare Scope prog_scope.
Delimit Scope prog_scope with prog.
Notation "'let!' x ':=' p 'in' q" := (pbind p (fun x => q))
  (at level 10, x pattern, p at level 100, q at level 200) : prog_scope.
Notation "'do!' p 'in' q" := (pbind p (fun _ => q))
  (at level 10, p at level 100, q at level 200) : prog_scope.

Section Prog.
Context {E : Type -> Type}.

(** Every operation that can be asked for satisfies [P]. *)
Fixpoint all_ops {A} (P : forall B, E B -> Prop) (p : prog E A) : Prop :=
  match p with
  | Ret _ => True
  | Act e k => P _ e /\ forall b, all_ops P (k b)
  end.

(** Every end satisfies [Q]. *)
Fixpoint all_rets {A} (Q : A -> Prop) (p : prog E A) : Prop :=
  match p with
  | Ret a => Q a
  | Act _ k => forall b, all_rets Q (k b)
  end.

Fixpoint run {S A} (h : forall B, E B -> S -> S * B) (p : prog E A) (s : S) : S * A :=
  match p with
  | Ret a => (s, a)
  | Act e k => let '(s, b) := h _ e s in run h (k b) s
  end.

(** In every run, whatever is answered, each operation is one that the
    protocol [d] allows in the state reached so far (its answer gives the next
    state), and every end satisfies [Q] in the last one. *)
Fixpoint follows {A G} (d : forall B, E B -> B -> G -> option G) (Q : G -> A -> Prop) (p : prog E A) (g : G) : Prop :=
  match p with
  | Ret a => Q g a
  | Act e k => forall b, match d _ e b g with Some g => follows d Q (k b) g | None => False end
  end.

(** The same for a protocol given as a relation: the operation, its answer and
    the state before it lead to the state after it. *)
Fixpoint obeys {A G} (d : forall B, E B -> B -> G -> G -> Prop) (Q : G -> A -> Prop) (p : prog E A) (g : G) : Prop :=
  match p with
  | Ret a => Q g a
  | Act e k => forall b, exists g', d _ e b g g' /\ obeys d Q (k b) g'
  end.

Lemma all_ops_bind {A B} P (p : prog E A) (f : A -> prog E B) :
  all_ops P p -> (forall a, all_ops P (f a)) -> all_ops P (pbind p f).
Proof.
  induction p as [a|C e k IH]; cbn; [auto|]. intros [He Hk] Hf. split; [done|]. intros b. by apply IH.
Qed.

Lemma all_ops_bind_rets {A B} P R (p : prog E A) (f : A -> prog E B) :
  all_ops P p -> all_rets R p -> (forall a, R a -> all_ops P (f a)) -> all_ops P (pbind p f).
Proof.
  induction p as [a|C e k IH]; cbn; [auto|]. intros [He Hk] Hr Hf. split; [done|]. intros b. by apply IH.
Qed.

Lemma all_ops_act {A} P (e : E A) : P _ e -> all_ops P (act e).
Proof. by split. Qed.

Lemma all_ops_mono {A} (P P' : forall B, E B -> Prop) (p : prog E A) :
  (forall B e, P B e -> P' B e) -> all_ops P p -> all_ops P' p.
Proof. intros Hm. induction p as [a|C e k IH]; cbn; [done|]. intros [He Hk]. split; [by apply Hm|auto]. Qed.

Lemma all_rets_bind {A B} (R : A -> Prop) Q (p : prog E A) (f : A -> prog E B) :
  all_rets R p -> (forall a, R a -> all_rets Q (f a)) -> all_rets Q (pbind p f).
Proof. induction p as [a|C e k IH]; cbn; [auto|]. intros Hk Hf b. by apply IH. Qed.

Lemma all_rets_any {A B} Q (p : prog E A) (f : A -> prog E B) :
  (forall a, all_rets Q (f a)) -> all_rets Q (pbind p f).
Proof. induction p as [a|C e k IH]; cbn; [auto|]. intros Hf b. by apply IH. Qed.

Lemma all_rets_mono {A} (Q Q' : A -> Prop) (p : prog E A) :
  (forall a, Q a -> Q' a) -> all_rets Q p -> all_rets Q' p.
Proof. intros Hm. induction p as [a|C e k IH]; cbn; auto. Qed.

Lemma follows_bind {A B G} (d : forall B, E B -> B -> G -> option G) Q (p : prog E A) (f : A -> prog E B) g :
  follows d (fun g a => follows d Q (f a) g) p g -> follows d Q (pbind p f) g.
Proof.
  revert g. induction p as [a|C e k IH]; cbn; [auto|]. intros g Hk b. specialize (Hk b).
  destruct (d C e b g); [by apply IH|done].
Qed.

Lemma follows_act {A B G} (d : forall B, E B -> B -> G -> option G) Q (e : E B) (k : B -> prog E A) g :
  (forall b, match d _ e b g with Some g => follows d Q (k b) g | None => False end) -> follows d Q (pbind (act e) k) g.
Proof. done. Qed.

Lemma follows_mono {A G} (d : forall B, E B -> B -> G -> option G) (Q Q' : G -> A -> Prop) (p : prog E A) g :
  (forall g a, Q g a -> Q' g a) -> follows d Q p g -> follows d Q' p g.
Proof.
  intros Hm. revert g. induction p as [a|C e k IH]; cbn; [auto|]. intros g Hk b. specialize (Hk b).
  destruct (d C e b g); [by apply IH|done].
Qed.

(** A protocol that allows what another one does, in the states that [abs]
    makes of its states. *)
Lemma follows_sim {A G H} (abs : G -> H) (d : forall B, E B -> B -> G -> option G) (d' : forall B, E B -> B -> H -> option H)
    (Q : G -> A -> Prop) (Q' : H -> A -> Prop) (p : prog E A) g :
  (forall B e b g g', d B e b g = Some g' -> d' B e b (abs g) = Some (abs g')) ->
  (forall g a, Q g a -> Q' (abs g) a) -> follows d Q p g -> follows d' Q' p (abs g).
Proof.
  intros Hd HQ. revert g. induction p as [a|C e k IH]; cbn; [auto|]. intros g Hk b. specialize (Hk b).
  destruct (d C e b g) as [g'|] eqn:Eg; [|done]. rewrite (Hd _ _ _ _ _ Eg). by apply IH.
Qed.

Lemma follows_rets {A G} (d : forall B, E B -> B -> G -> option G) (Q : G -> A -> Prop) (R : A -> Prop) (p : prog E A) g :
  follows d Q p g -> all_rets R p -> follows d (fun g a => Q g a /\ R a) p g.
Proof.
  revert g. induction p as [a|C e k IH]; cbn; [auto|]. intros g Hk HR b. specialize (Hk b).
  destruct (d C e b g); [by apply IH|done].
Qed.

Lemma obeys_bind {A B G} (d : forall B, E B -> B -> G -> G -> Prop) Q (p : prog E A) (f : A -> prog E B) g :
  obeys d (fun g a => obeys d Q (f a) g) p g -> obeys d Q (pbind p f) g.
Proof.
  revert g. induction p as [a|C e k IH]; cbn; [auto|]. intros g Hk b. destruct (Hk b) as (g' & Hd & Ho).
  exists g'. split; [done|by apply IH].
Qed.

Lemma obeys_mono {A G} (d : forall B, E B -> B -> G -> G -> Prop) (Q Q' : G -> A -> Prop) (p : prog E A) g :
  (forall g a, Q g a -> Q' g a) -> obeys d Q p g -> obeys d Q' p g.
Proof.
  intros Hm. revert g. induction p as [a|C e k IH]; cbn; [auto|]. intros g Hk b. destruct (Hk b) as (g' & Hd & Ho).
  exists g'. split; [done|by apply IH].
Qed.

(** What follows a protocol does so against any surroundings. *)
Lemma run_follows {S A G} (h : forall B, E B -> S -> S * B) (d : forall B, E B -> B -> G -> option G) Q (p : prog E A) s g :
  follows d Q p g -> exists g', Q g' (snd (run h p s)).
Proof.
  revert s g. induction p as [a|C e k IH]; intros s g; cbn; [by exists g|]. intros Hk.
  destruct (h C e s) as [s' b]. specialize (Hk b). destruct (d C e b g); [by eapply IH|done].
Qed.

Lemma run_bind {S A B} (h : forall B, E B -> S -> S * B) (p : prog E A) (f : A -> prog E B) s :
  run h (pbind p f) s = let '(s, a) := run h p s in run h (f a) s.
Proof.
  revert s. induction p as [a|C e k IH]; intros s; cbn; [done|]. destruct (h C e s) as [s' b]. apply IH.
Qed.

(** What every end satisfies, the end of a run does. *)
Lemma run_rets {S A} (h : forall B, E B -> S -> S * B) Q (p : prog E A) s : all_rets Q p -> Q (snd (run h p s)).
Proof.
  revert s. induction p as [a|C e k IH]; intros s; cbn; [done|]. intros Hk. destruct (h C e s) as [s' b]. by apply IH.
Qed.
End Prog.
