(* ===== verification/Tasks.v ===== *)
(** * Tasks that share a state, one critical section at a time

    Programs ([Prog.v]) run side by side: an operation of a program is a
    critical section of the shared state, and between two sections of a task
    any other task, or the surroundings, may move.  The reasoning is by
    ownership: an invariant of the state speaks of a list of tokens, each held
    by one task; a task may spend and gain its own tokens and no others
    ([wp]), so what it proved of them is still true at its next section. *)
From S2P Require Import Prelude Prog.

Section Tasks.
Context {E : Type -> Type} {State Env Call Answer Tok : Type}.
(** A section, with what the surroundings decide in it. *)
Context (exec : Env -> forall B, E B -> State -> State * B).
(** What a call runs, and what else can happen to the state. *)
Context (body : Call -> prog E Answer) (outside : State -> State -> Prop).

Record Task := { tk_call : Call; tk_prog : prog E Answer }.
Definition Pool : Type := State * list Task.

Inductive pool_step : Pool -> Pool -> Prop :=
| PSection env B (e : E B) k c s ts ts' :
    pool_step (s, ts ++ {| tk_call := c; tk_prog := Act e k |} :: ts')
              (fst (exec env B e s), ts ++ {| tk_call := c; tk_prog := k (snd (exec env B e s)) |} :: ts')
| PCall c s ts : pool_step (s, ts) (s, ts ++ [{| tk_call := c; tk_prog := body c |}])
| POutside s s' ts : outside s s' -> pool_step (s, ts) (s', ts).

Definition pool_steps : Pool -> Pool -> Prop := rtc pool_step.

(** A task that has answered. *)
Definition answered (c : Call) (a : Answer) (w : Pool) : Prop :=
  {| tk_call := c; tk_prog := Ret a |} ∈ snd w.
(** No task is under way. *)
Definition quiet (w : Pool) : Prop := forall t, t ∈ snd w -> exists a, tk_prog t = Ret a.

(** One section of the task at place [i], as a function. *)
Definition advance (env : Env) (i : nat) (w : Pool) : Pool :=
  match snd w !! i with
  | Some t => match tk_prog t with
              | Act e k => let '(s, b) := exec env _ e (fst w) in
                           (s, <[i := {| tk_call := tk_call t; tk_prog := k b |}]> (snd w))
              | Ret _ => w
              end
  | None => w
  end.

(** ** Ownership *)
Context (inv : State -> list Tok -> Prop).

Class Owned := {
  owned_perm : forall s T T', T ≡ₚ T' -> inv s T -> inv s T';
  owned_outside : forall s s' T, outside s s' -> inv s T -> inv s' T }.

Fixpoint wp {A} (p : prog E A) (own : list Tok) (Q : A -> list Tok -> Prop) : Prop :=
  match p with
  | Ret a => Q a own
  | Act e k =>
      forall env s rest, inv s (own ++ rest) ->
      exists own', inv (fst (exec env _ e s)) (own' ++ rest) /\ wp (k (snd (exec env _ e s))) own' Q
  end.

Lemma wp_bind {A B} (p : prog E A) (f : A -> prog E B) own Q :
  wp p own (fun a own => wp (f a) own Q) -> wp (pbind p f) own Q.
Proof.
  revert own. induction p as [a|C e k IH]; intros own; cbn; [done|]. intros Hp env s rest Hi.
  destruct (Hp env s rest Hi) as (own' & Hi' & Hw). exists own'. split; [done|]. by apply IH.
Qed.

Lemma wp_mono {A} (p : prog E A) own (Q Q' : A -> list Tok -> Prop) :
  wp p own Q -> (forall a own, Q a own -> Q' a own) -> wp p own Q'.
Proof.
  intros Hp HQ. revert own Hp. induction p as [a|C e k IH]; intros own; cbn; [by auto|]. intros Hp env s rest Hi.
  destruct (Hp env s rest Hi) as (own' & Hi' & Hw). exists own'. split; [done|]. by apply IH.
Qed.

(** Every task proves its postcondition from what it holds. *)
Definition pool_inv (Q : Call -> Answer -> list Tok -> Prop) (w : Pool) : Prop :=
  exists owns : list (list Tok), inv (fst w) (concat owns) /\
    Forall2 (fun t own => wp (tk_prog t) own (Q (tk_call t))) (snd w) owns.

Lemma pool_inv_step `{Owned} Q w w' :
  (forall c, wp (body c) [] (Q c)) -> pool_inv Q w -> pool_step w w' -> pool_inv Q w'.
Proof.
  intros Hb (owns & Hi & Hw) Hs. destruct Hs as [env B e k c s ts ts'|c s ts|s s' ts Ho]; cbn in *.
  - apply Forall2_app_inv_l in Hw as (o1 & o2 & H1 & H2 & ->).
    apply Forall2_cons_inv_l in H2 as (own & o3 & Ht & H3 & ->). cbn in Ht.
    rewrite concat_app in Hi. cbn [concat] in Hi.
    destruct (Ht env s (concat o1 ++ concat o3)) as (own' & Hi' & Hw').
    { eapply owned_perm; [|exact Hi]. by rewrite Permutation_app_swap_app. }
    exists (o1 ++ own' :: o3). split.
    + eapply owned_perm; [|exact Hi']. rewrite concat_app. cbn [concat]. by rewrite Permutation_app_swap_app.
    + apply Forall2_app; [done|]. by constructor.
  - exists (owns ++ [[]]). rewrite concat_app, app_nil_r. split; [done|]. apply Forall2_app; [done|].
    constructor; [apply Hb|constructor].
  - exists owns. split; [by eapply owned_outside|done].
Qed.

Lemma pool_inv_steps `{Owned} Q w w' :
  (forall c, wp (body c) [] (Q c)) -> pool_inv Q w -> pool_steps w w' -> pool_inv Q w'.
Proof. intros Hb Hw Hs. induction Hs as [|w1 w2 w3 H1 _ IH]; [done|]. by apply IH, (pool_inv_step Q w1). Qed.

(** An answer has its postcondition, of tokens the invariant still covers. *)
Lemma pool_inv_answer `{Owned} Q w c a :
  pool_inv Q w -> answered c a w -> exists own rest, Q c a own /\ inv (fst w) (own ++ rest).
Proof.
  intros (owns & Hi & Hw) Ha. unfold answered in Ha. apply list_elem_of_split in Ha as (ts & ts' & E1).
  rewrite E1 in Hw. apply Forall2_app_inv_l in Hw as (o1 & o2 & H1 & H2 & ->).
  apply Forall2_cons_inv_l in H2 as (own & o3 & Ht & H3 & ->). cbn in Ht. exists own, (concat o1 ++ concat o3). split; [done|].
  eapply owned_perm; [|exact Hi]. rewrite concat_app. cbn [concat]. by rewrite Permutation_app_swap_app.
Qed.

(** ** Calls made later *)

(** Run from states of [I], whatever the surroundings decide and other tasks
    do in between, the program ends with [P]. *)
Fixpoint ends_in {A} (I : State -> Prop) (P : A -> Prop) (p : prog E A) : Prop :=
  match p with
  | Ret a => P a
  | Act e k => forall env s, I s -> ends_in I P (k (snd (exec env _ e s)))
  end.

Lemma ends_in_bind {A B} I P (p : prog E A) (f : A -> prog E B) :
  ends_in I (fun a => ends_in I P (f a)) p -> ends_in I P (pbind p f).
Proof. induction p as [a|C e k IH]; cbn; [done|]. intros Hp env s Hs. by apply IH, Hp. Qed.

(** The calls from place [n] on end with their [P]. *)
Definition late_calls (I : State -> Prop) (P : Call -> Answer -> Prop) (n : nat) (w : Pool) : Prop :=
  I (fst w) /\ (n <= length (snd w))%nat /\
  forall i t, (n <= i)%nat -> snd w !! i = Some t -> ends_in I (P (tk_call t)) (tk_prog t).

(** Where [I] is there to stay, it is so for every call made from then on. *)
Lemma pool_later (I : State -> Prop) (P : Call -> Answer -> Prop) w w' :
  (forall env B (e : E B) s, I s -> I (fst (exec env B e s))) -> (forall s s', outside s s' -> I s -> I s') ->
  (forall c, ends_in I (P c) (body c)) -> I (fst w) -> pool_steps w w' ->
  late_calls I P (length (snd w)) w'.
Proof.
  intros Hx Ho Hb Hi Hs.
  assert (Hw : late_calls I P (length (snd w)) w).
  { split_and!; [done|done|]. intros i t Hl Ht%lookup_lt_Some. lia. }
  revert Hw. generalize (length (snd w)) as n. clear Hi.
  induction Hs as [|w1 w2 w3 H1 _ IH]; intros n (Hi & Hn & Hl); [done|]. apply IH. clear IH.
  destruct H1 as [env B e k c s ts ts'|c s ts|s s' ts Hout]; unfold late_calls; cbn in *.
  - split_and!; [by apply Hx|rewrite length_app in *; done|]. intros i t Hni Hit.
    destruct (decide (i = length ts)) as [->|Hne].
    + rewrite lookup_app_r, Nat.sub_diag in Hit by done. injection Hit as <-. cbn.
      specialize (Hl (length ts) {| tk_call := c; tk_prog := Act e k |} Hni). cbn in Hl.
      rewrite lookup_app_r, Nat.sub_diag in Hl by done. by apply Hl.
    + apply (Hl i); [done|]. rewrite <- Hit. destruct (decide (i < length ts)%nat).
      * by rewrite !lookup_app_l.
      * rewrite !lookup_app_r by lia. destruct (i - length ts)%nat eqn:Ei; [lia|done].
  - split_and!; [done|rewrite length_app; cbn; lia|]. intros i t Hni Hit.
    apply lookup_snoc_Some in Hit as [[_ Hit]|[_ <-]]; [by apply (Hl i)|apply Hb].
  - split_and!; [by eapply Ho|done|done].
Qed.

Lemma advance_step env i w : advance env i w = w \/ pool_step w (advance env i w).
Proof.
  unfold advance. destruct w as [s ts]. cbn [fst snd]. destruct (ts !! i) as [[c p]|] eqn:Hi; [|by left].
  cbn. destruct p as [a|B e k]; [by left|]. right. destruct (exec env B e s) as [s' b] eqn:Ee.
  apply list_elem_of_split_length in Hi as (t1 & t2 & -> & ->).
  rewrite insert_app_r_alt, Nat.sub_diag by lia. cbn.
  pose proof (PSection env B e k c s t1 t2) as Hp. by rewrite Ee in Hp.
Qed.

Lemma advance_steps env i w : pool_steps w (advance env i w).
Proof. destruct (advance_step env i w) as [->|H]; [done|]. by apply rtc_once. Qed.
End Tasks.
