(* ===== verification/Bytes.v ===== *)
(** * Bytes: machine integers as bytes, and reading them back

    A [u8] is an [N] below 256, a [Vec<u8>] or [&[u8]] a list of them.
    [to_le_bytes], [to_be_bytes] and their inverses are the functions of the
    standard library on [u16], [u32] and [u64], with the width in bytes as an
    argument; [utf8] is [str::as_bytes].  [Serde] is what the code uses of
    serde_json on one type. *)
From S2P Require Import Prelude.
Open Scope N_scope.

#[global] Abbreviation bytes := (list N) (only parsing).

Definition is_byte (b : N) : Prop := b < 256.

Fixpoint le_bytes (w : nat) (n : N) : bytes :=
  match w with O => [] | S w => n mod 256 :: le_bytes w (n / 256) end.

Fixpoint from_le (l : bytes) : N :=
  match l with [] => 0 | b :: l => b + 256 * from_le l end.

Definition be_bytes (w : nat) (n : N) : bytes := reverse (le_bytes w n).
Definition from_be (l : bytes) : N := from_le (reverse l).

(** [Vec::len] and [slice::len] *)
Definition blen {A} (l : list A) : N := N.of_nat (length l).

(** [&s[..n]] and [&s[n..]] for an index in bounds. *)
Definition btake {A} (n : N) (l : list A) : list A := take (N.to_nat n) l.
Definition bdrop {A} (n : N) (l : list A) : list A := drop (N.to_nat n) l.

(** UTF-8 of one scalar value. *)
Definition utf8_char (c : char) : bytes :=
  if c <? 128 then [c]
  else if c <? 2048 then [192 + c / 64; 128 + c mod 64]
  else if c <? 65536 then [224 + c / 4096; 128 + (c / 64) mod 64; 128 + c mod 64]
  else [240 + c / 262144; 128 + (c / 4096) mod 64; 128 + (c / 64) mod 64; 128 + c mod 64].

Definition utf8 (t : text) : bytes := t ≫= utf8_char.

(** serde_json on a type: [to_vec] and [from_slice].  The error of either is
    the text it shows. *)
Class Serde (A : Type) := {
  to_vec : A -> result text bytes;
  from_slice : bytes -> result text A }.

(** What the framing code relies on: no JSON text is empty. *)
Class SerdeLaws (A : Type) `{Serde A} := {
  from_slice_nil : is_ok (from_slice (A := A) []) = false }.

(** [a] is written, and read back as it was. *)
Definition serde_keeps {A} `{Serde A} (a : A) (payload : bytes) : Prop :=
  to_vec a = Ok payload /\ from_slice payload = Ok a.

(** ** Lemmas *)

Lemma length_le_bytes w n : length (le_bytes w n) = w.
Proof. revert n. induction w as [|w IH]; intros n; [done|]. cbn. by rewrite IH. Qed.

Lemma length_be_bytes w n : length (be_bytes w n) = w.
Proof. unfold be_bytes. by rewrite length_reverse, length_le_bytes. Qed.

Lemma le_bytes_bytes w n : Forall is_byte (le_bytes w n).
Proof.
  revert n. induction w as [|w IH]; intros n; constructor; [|apply IH].
  unfold is_byte. pose proof (N.mod_lt n 256). lia.
Qed.

Lemma be_bytes_bytes w n : Forall is_byte (be_bytes w n).
Proof. apply Forall_reverse, le_bytes_bytes. Qed.

Lemma from_le_bytes w n : n < 256 ^ N.of_nat w -> from_le (le_bytes w n) = n.
Proof.
  revert n. induction w as [|w IH]; intros n Hn; [cbn in *; lia|].
  cbn [le_bytes from_le]. rewrite Nat2N.inj_succ, N.pow_succ_r' in Hn. rewrite IH.
  - pose proof (N.div_mod n 256). lia.
  - apply N.Div0.div_lt_upper_bound. lia.
Qed.

Lemma from_be_bytes w n : n < 256 ^ N.of_nat w -> from_be (be_bytes w n) = n.
Proof. unfold from_be, be_bytes. rewrite reverse_involutive. apply from_le_bytes. Qed.

Lemma from_le_bound l : Forall is_byte l -> from_le l < 256 ^ blen l.
Proof.
  unfold blen. induction 1 as [|b l Hb _ IH]; [cbn; lia|].
  cbn [from_le length]. rewrite Nat2N.inj_succ, N.pow_succ_r'. unfold is_byte in Hb. lia.
Qed.

Lemma blen_app {A} (l k : list A) : blen (l ++ k) = blen l + blen k.
Proof. unfold blen. rewrite length_app. lia. Qed.

Lemma blen_nil {A} (l : list A) : blen l = 0 <-> l = [].
Proof. unfold blen. destruct l; [done|]. cbn. split; [lia|done]. Qed.

Lemma blen_cons {A} (x : A) l : blen (x :: l) = 1 + blen l.
Proof. unfold blen. cbn. lia. Qed.

Lemma btake_bdrop {A} n (l : list A) : btake n l ++ bdrop n l = l.
Proof. apply take_drop. Qed.

Lemma blen_btake {A} n (l : list A) : blen (btake n l) = N.min n (blen l).
Proof. unfold blen, btake. rewrite length_take. lia. Qed.

Lemma blen_bdrop {A} n (l : list A) : blen (bdrop n l) = blen l - n.
Proof. unfold blen, bdrop. rewrite length_drop. lia. Qed.

Lemma btake_app {A} (l k : list A) n : n = blen l -> btake n (l ++ k) = l.
Proof. intros ->. unfold btake, blen. rewrite Nat2N.id. apply take_app_length. Qed.

Lemma bdrop_app {A} (l k : list A) n : n = blen l -> bdrop n (l ++ k) = k.
Proof. intros ->. unfold bdrop, blen. rewrite Nat2N.id. apply drop_app_length. Qed.

Lemma blen_be_bytes w n : blen (be_bytes w n) = N.of_nat w.
Proof. unfold blen. by rewrite length_be_bytes. Qed.

Lemma blen_le_bytes w n : blen (le_bytes w n) = N.of_nat w.
Proof. unfold blen. by rewrite length_le_bytes. Qed.

Lemma blen_empty {A} : blen (@nil A) = 0.
Proof. done. Qed.

Create Rewrite HintDb bytes_rw.
#[export] Hint Rewrite @blen_empty @blen_app @blen_cons @blen_btake @blen_bdrop blen_be_bytes blen_le_bytes
  @length_app length_be_bytes length_le_bytes : bytes_rw.

(** Arithmetic on lengths. *)
Ltac blens := autorewrite with bytes_rw in *; lia.
