(* ===== verification/Utf8.v ===== *)
(** * Reading UTF-8 ([String::from_utf8]) and hexadecimal bytes

    [from_utf8] is the strict decoder of the standard library: no overlong
    form, no surrogate, nothing above the last scalar value.  It is the exact
    inverse of [utf8]. *)
From Stdlib Require Import ZifyN.
From S2P Require Import Prelude Bytes.
Open Scope N_scope.

(** A Unicode scalar value ([char]). *)
Definition is_scalar (c : N) : bool := (c <? 55296) || (57344 <=? c) && (c <? 1114112).

Definition continuation (b : N) : bool := in_range 128 191 b.

(** One character at the front of [bs]. *)
Definition decode_char (bs : bytes) : option (char * bytes) :=
  match bs with
  | [] => None
  | b0 :: r =>
      if b0 <? 128 then Some (b0, r)
      else if in_range 194 223 b0 then
        match r with
        | b1 :: r => if continuation b1 then Some ((b0 - 192) * 64 + (b1 - 128), r) else None
        | _ => None
        end
      else if in_range 224 239 b0 then
        match r with
        | b1 :: b2 :: r =>
            let c := (b0 - 224) * 4096 + (b1 - 128) * 64 + (b2 - 128) in
            if continuation b1 && continuation b2 && (2048 <=? c) && is_scalar c then Some (c, r) else None
        | _ => None
        end
      else if in_range 240 244 b0 then
        match r with
        | b1 :: b2 :: b3 :: r =>
            let c := (b0 - 240) * 262144 + (b1 - 128) * 4096 + (b2 - 128) * 64 + (b3 - 128) in
            if continuation b1 && continuation b2 && continuation b3 && (65536 <=? c) && is_scalar c
            then Some (c, r) else None
        | _ => None
        end
      else None
  end.

Fixpoint from_utf8_fuel (fuel : nat) (bs : bytes) : option text :=
  match bs, fuel with
  | [], _ => Some []
  | _, O => None
  | _, S fuel =>
      match decode_char bs with
      | Some (c, r) => match from_utf8_fuel fuel r with Some t => Some (c :: t) | None => None end
      | None => None
      end
  end.

(** [String::from_utf8]: each character takes a byte at least. *)
Definition from_utf8 (bs : bytes) : option text := from_utf8_fuel (length bs) bs.

(** The value of a hexadecimal digit ([char::to_digit] in base 16). *)
Definition hex_value (c : char) : option N :=
  if in_range 48 57 c then Some (c - 48)
  else if in_range 97 102 c then Some (c - 87)
  else if in_range 65 70 c then Some (c - 55)
  else None.

Fixpoint hex_digits (t : text) (acc : N) : option N :=
  match t with
  | [] => Some acc
  | c :: t => match hex_value c with Some d => hex_digits t (16 * acc + d) | None => None end
  end.

(** [u8::from_str_radix(t, 16)]: a sign [+] is accepted before the digits. *)
Definition u8_from_hex (t : text) : option N :=
  match t with
  | [] => None
  | c :: r =>
      let digits := if (c =? 43) && negb (bool_decide (r = [])) then r else t in
      match hex_digits digits 0 with
      | Some n => if n <=? 255 then Some n else None
      | None => None
      end
  end.

(** ** Lemmas *)

#[local] Ltac Zify.zify_post_hook ::= Z.div_mod_to_equations.

Lemma in_range_spec lo hi c : in_range lo hi c = true <-> lo <= c <= hi.
Proof. unfold in_range. rewrite andb_true_iff, !N.leb_le. lia. Qed.

Lemma in_range_false lo hi c : in_range lo hi c = false <-> ~ (lo <= c <= hi).
Proof. rewrite <- in_range_spec. by destruct (in_range lo hi c). Qed.

Lemma is_scalar_spec c : is_scalar c = true <-> c < 55296 \/ 57344 <= c < 1114112.
Proof. unfold is_scalar. rewrite orb_true_iff, andb_true_iff, !N.ltb_lt, N.leb_le. lia. Qed.

(** Decide the tests of [decode_char] on concrete sums. *)
Ltac range_tests :=
  repeat match goal with
  | |- context [N.ltb ?a ?b] => first
      [ rewrite (proj2 (N.ltb_lt a b)) by lia | rewrite (proj2 (N.ltb_ge a b)) by lia ]
  | |- context [N.leb ?a ?b] => first
      [ rewrite (proj2 (N.leb_le a b)) by lia | rewrite (proj2 (N.leb_gt a b)) by lia ]
  | |- context [in_range ?a ?b ?c] => first
      [ rewrite (proj2 (in_range_spec a b c)) by lia | rewrite (proj2 (in_range_false a b c)) by lia ]
  end.

Lemma decode_char_utf8 c r : is_scalar c = true -> decode_char (utf8_char c ++ r) = Some (c, r).
Proof.
  intros Hs. pose proof (proj1 (is_scalar_spec c) Hs) as Hc. unfold utf8_char, continuation, decode_char.
  destruct (c <? 128) eqn:E1; bools; [cbn; by range_tests|].
  destruct (c <? 2048) eqn:E2; bools.
  { cbn [app]. unfold continuation. range_tests. f_equal. f_equal. lia. }
  destruct (c <? 65536) eqn:E3; bools; cbn [app]; unfold continuation.
  - range_tests. cbn [andb].
    assert ((224 + c / 4096 - 224) * 4096 + (128 + (c / 64) mod 64 - 128) * 64 + (128 + c mod 64 - 128) = c) as -> by lia.
    rewrite Hs. by range_tests.
  - range_tests. cbn [andb].
    assert ((240 + c / 262144 - 240) * 262144 + (128 + (c / 4096) mod 64 - 128) * 4096
      + (128 + (c / 64) mod 64 - 128) * 64 + (128 + c mod 64 - 128) = c) as -> by lia.
    rewrite Hs. by range_tests.
Qed.

Lemma decode_char_sound bs c r :
  decode_char bs = Some (c, r) -> is_scalar c = true /\ bs = utf8_char c ++ r.
Proof.
  unfold decode_char. destruct bs as [|b0 bs]; [done|].
  destruct (b0 <? 128) eqn:E1; bools.
  { intros [= <- <-]. split; [apply is_scalar_spec; lia|]. unfold utf8_char. by range_tests. }
  destruct (in_range 194 223 b0) eqn:E2.
  { apply in_range_spec in E2. destruct bs as [|b1 bs]; [done|]. unfold continuation.
    destruct (in_range 128 191 b1) eqn:C1; [|done]. apply in_range_spec in C1.
    intros [= <- <-]. split; [apply is_scalar_spec; lia|]. unfold utf8_char. range_tests. cbn [app].
    repeat f_equal; lia. }
  destruct (in_range 224 239 b0) eqn:E3.
  { apply in_range_spec in E3. destruct bs as [|b1 [|b2 bs]]; [done..|]. unfold continuation.
    destruct (in_range 128 191 b1) eqn:C1; [|done]. destruct (in_range 128 191 b2) eqn:C2; [|done].
    apply in_range_spec in C1, C2. cbn [andb].
    destruct (_ <=? _) eqn:L; [|done]. destruct (is_scalar _) eqn:Hs; [|done]. bools. cbn [andb].
    intros [= <- <-]. split; [done|]. unfold utf8_char. range_tests. cbn [app]. repeat f_equal; lia. }
  destruct (in_range 240 244 b0) eqn:E4; [|done].
  apply in_range_spec in E4. destruct bs as [|b1 [|b2 [|b3 bs]]]; [done..|]. unfold continuation.
  destruct (in_range 128 191 b1) eqn:C1; [|done]. destruct (in_range 128 191 b2) eqn:C2; [|done].
  destruct (in_range 128 191 b3) eqn:C3; [|done]. apply in_range_spec in C1, C2, C3. cbn [andb].
  destruct (_ <=? _) eqn:L; [|done]. destruct (is_scalar _) eqn:Hs; [|done]. bools. cbn [andb].
  intros [= <- <-]. split; [done|]. unfold utf8_char. range_tests. cbn [app]. repeat f_equal; lia.
Qed.

Lemma utf8_char_length c : (1 <= length (utf8_char c))%nat.
Proof. unfold utf8_char. repeat case_match; simpl; lia. Qed.

Lemma utf8_app a b : utf8 (a ++ b) = utf8 a ++ utf8 b.
Proof. unfold utf8. by rewrite bind_app. Qed.

Lemma from_utf8_fuel_utf8 t fuel :
  Forall (fun c => is_scalar c = true) t -> (length (utf8 t) <= fuel)%nat ->
  from_utf8_fuel fuel (utf8 t) = Some t.
Proof.
  intros Ht. revert fuel. induction Ht as [|c t Hc Ht IH]; intros fuel Hf; [by destruct fuel|].
  unfold utf8 in *. cbn [mbind list_bind] in *. rewrite length_app in Hf.
  pose proof (utf8_char_length c) as Hl. destruct fuel as [|fuel]; [lia|].
  destruct (utf8_char c ++ _) as [|b bs] eqn:E.
  { destruct (utf8_char c); [simpl in Hl; lia|done]. }
  cbn [from_utf8_fuel]. rewrite <- E, decode_char_utf8 by done. by rewrite IH by lia.
Qed.

Lemma from_utf8_utf8 t : Forall (fun c => is_scalar c = true) t -> from_utf8 (utf8 t) = Some t.
Proof. intros. unfold from_utf8. by apply from_utf8_fuel_utf8. Qed.

Lemma from_utf8_fuel_sound fuel bs t :
  from_utf8_fuel fuel bs = Some t -> Forall (fun c => is_scalar c = true) t /\ bs = utf8 t.
Proof.
  revert bs t. induction fuel as [|fuel IH]; intros [|b bs] t; cbn [from_utf8_fuel]; try done.
  1,2: intros [= <-]; by split.
  destruct (decode_char (b :: bs)) as [[c r]|] eqn:E; [|done].
  destruct (from_utf8_fuel fuel r) as [t'|] eqn:E'; [|done]. intros [= <-].
  apply decode_char_sound in E as [Hc ->]. apply IH in E' as [Ht ->].
  split; [by constructor|done].
Qed.

(** What [from_utf8] reads is a valid text, and is its encoding. *)
Lemma from_utf8_sound bs t :
  from_utf8 bs = Some t -> Forall (fun c => is_scalar c = true) t /\ bs = utf8 t.
Proof. apply from_utf8_fuel_sound. Qed.
