(* ===== verification/Errors.v ===== *)
(** * Errors of the SDK ([rdpilot/src/error.rs])

    The variants of [rdpilot::Error] with their texts.  The constructors carry
    the prefix of the type, since other enums of the program have some of the
    same names. *)
From S2P Require Import Prelude.

Inductive Error :=
| ErConnect (m : text)
| ErTls (m : text)
| ErDecode (m : text)
| ErEncode (m : text)
| ErCropOutOfBounds (rect_x rect_y rect_w rect_h image_w image_h : Z)
| ErConfig (m : text)
| ErSession (m : text)
| ErCoordinateOutOfBounds (x y desktop_w desktop_h : Z)
| ErDvc (m : text)
| ErBootstrap (m : text)
| ErBridgeRejected (m : text)
| ErPathTraversal (m : text)
| ErChecksumMismatch (expected actual : text)
| ErStaleInput (sent current : Z).

#[global] Instance Error_eq_dec : EqDecision Error.
Proof. solve_decision. Defined.

(** [Display] of an unsigned number. *)
Definition nat_text (n : Z) : text := dec (Z.to_N n).

(** The [#[error(..)]] texts. *)
Definition error_text (e : Error) : text :=
  match e with
  | ErConnect m => txt "connection or authentication failed: " ++ m
  | ErTls m => txt "TLS or certificate error: " ++ m
  | ErDecode m => txt "framebuffer decode error: " ++ m
  | ErEncode m => txt "image encode error: " ++ m
  | ErCropOutOfBounds x y w h iw ih =>
      txt "crop rectangle (" ++ nat_text x ++ txt "," ++ nat_text y ++ txt " " ++ nat_text w ++ txt "x" ++ nat_text h
      ++ txt ") is out of bounds for a " ++ nat_text iw ++ txt "x" ++ nat_text ih ++ txt " image"
  | ErConfig m => txt "invalid configuration: " ++ m
  | ErSession m => txt "session/transport error: " ++ m
  | ErCoordinateOutOfBounds x y w h =>
      txt "coordinate (" ++ nat_text x ++ txt "," ++ nat_text y ++ txt ") is out of bounds for a "
      ++ nat_text w ++ txt "x" ++ nat_text h ++ txt " desktop"
  | ErDvc m => txt "DVC transport error: " ++ m
  | ErBootstrap m => txt "bridge bootstrap failed: " ++ m
  | ErBridgeRejected m => txt "bridge rejected the request: " ++ m
  | ErPathTraversal m => txt "path rejected: " ++ m
  | ErChecksumMismatch expected actual => txt "checksum mismatch: expected " ++ expected ++ txt ", actual " ++ actual
  | ErStaleInput sent current =>
      txt "input of epoch " ++ nat_text sent ++ txt " was refused: the current input epoch is " ++ nat_text current
  end.

(** [Error::category] *)
Definition category (e : Error) : text :=
  match e with
  | ErConnect _ => txt "connect"
  | ErTls _ => txt "tls"
  | ErDecode _ => txt "decode"
  | ErEncode _ => txt "encode"
  | ErCropOutOfBounds _ _ _ _ _ _ => txt "crop_out_of_bounds"
  | ErConfig _ => txt "config"
  | ErSession _ => txt "session"
  | ErCoordinateOutOfBounds _ _ _ _ => txt "coordinate_out_of_bounds"
  | ErDvc _ => txt "dvc"
  | ErBootstrap _ => txt "bootstrap"
  | ErBridgeRejected _ => txt "bridge_rejected"
  | ErPathTraversal _ => txt "path_traversal"
  | ErChecksumMismatch _ _ => txt "checksum_mismatch"
  | ErStaleInput _ _ => txt "stale_input"
  end.
