(* ===== verification/Calendar.v ===== *)
(** * UTC timestamps
      ([crates/rdpilot-daemon/src/registry.rs], [iso8601_*] and
      [civil_from_days]; [clock_time] of [crates/rdpilot-daemon/src/control.rs])

    A [SystemTime] is its signed distance from the Unix epoch in
    nanoseconds. *)
From S2P Require Import Prelude.
Open Scope Z_scope.

(** ** Definitions *)

(** Howard Hinnant's [civil_from_days]; [Z.div] and [Z.modulo] are
    [div_euclid] and [rem_euclid] for a positive divisor, and every other
    dividend is non-negative. *)
Definition civil_from_days (z : Z) : Z * Z * Z :=
  let z := z + 719468 in
  let era := z / 146097 in
  let doe := z mod 146097 in
  let yoe := (doe - doe / 1460 + doe / 36524 - doe / 146096) / 365 in
  let y := yoe + era * 400 in
  let doy := doe - (365 * yoe + yoe / 4 - yoe / 100) in
  let mp := (5 * doy + 2) / 153 in
  let d := doy - (153 * mp + 2) / 5 + 1 in
  let m := if mp <? 10 then mp + 3 else mp - 9 in
  let y := if m <=? 2 then y + 1 else y in
  (y, m, d).

(** [format!("{n:0w$}")] of a signed integer. *)
Definition fmt_int0 (w : nat) (n : Z) : text :=
  if n <? 0 then 45%N :: pad0 (w - 1) (dec (Z.to_N (- n))) else pad0 w (dec (Z.to_N n)).

Definition iso8601_from_unix_seconds (secs : Z) : text :=
  let days := secs / 86400 in
  let secs_of_day := secs mod 86400 in
  let '(year, month, day) := civil_from_days days in
  let hour := secs_of_day / 3600 in
  let minute := (secs_of_day mod 3600) / 60 in
  let second := secs_of_day mod 60 in
  fmt_int0 4 year ++ txt "-" ++ fmt_int0 2 month ++ txt "-" ++ fmt_int0 2 day
  ++ txt "T" ++ fmt_int0 2 hour ++ txt ":" ++ fmt_int0 2 minute ++ txt ":"
  ++ fmt_int0 2 second ++ txt "Z".

Definition ns_per_s : Z := 1000000000.

(** A time before the epoch degrades to the epoch. *)
Definition iso8601_from_system_time (t : Z) : text :=
  let secs := if t <? 0 then 0 else t / ns_per_s in
  iso8601_from_unix_seconds (if secs <=? i64_max then secs else i64_max).

Definition strip_suffix_char (c : char) (t : text) : option text :=
  match reverse t with
  | x :: r => if (x =? c)%N then Some (reverse r) else None
  | [] => None
  end.

Definition iso8601_millis_from_system_time (t : Z) : text :=
  let since := if t <? 0 then 0 else t in
  let secs := since / ns_per_s in
  let base := iso8601_from_unix_seconds (if secs <=? i64_max then secs else i64_max) in
  let millis := (since mod ns_per_s) / 1000000 in
  match strip_suffix_char 90 base with
  | Some stem => stem ++ txt "." ++ fmt_int0 3 millis ++ txt "Z"
  | None => base
  end.

(** [clock_time]: the [HH:MM:SS UTC] of an ISO-8601 time. *)
Definition clock_time (iso : text) : text :=
  match str_get 11 19 iso with
  | Some hms => hms ++ txt " UTC"
  | None => iso
  end.

(** ** Specification: the Gregorian calendar *)

Definition is_leap (y : Z) : bool :=
  (y mod 4 =? 0) && (negb (y mod 100 =? 0) || (y mod 400 =? 0)).

Definition month_length_of (leap : bool) (m : Z) : Z :=
  if m =? 2 then (if leap then 29 else 28)
  else if existsb (Z.eqb m) [4; 6; 9; 11] then 30 else 31.

Definition month_length (y m : Z) : Z := month_length_of (is_leap y) m.

Definition next_day (date : Z * Z * Z) : Z * Z * Z :=
  let '(y, m, d) := date in
  if d <? month_length y m then (y, m, d + 1)
  else if m <? 12 then (y, m + 1, 1) else (y + 1, 1, 1).

Definition valid_date (date : Z * Z * Z) : bool :=
  let '(y, m, d) := date in
  (1 <=? m) && (m <=? 12) && (1 <=? d) && (d <=? month_length y m).

(** ** Lemmas *)

Lemma is_leap_era y k : is_leap (y + k * 400) = is_leap y.
Proof.
  unfold is_leap.
  replace (y + k * 400) with (y + (k * 100) * 4) at 1 by lia. rewrite Z.mod_add by lia.
  replace (y + k * 400) with (y + (k * 4) * 100) at 1 by lia. rewrite Z.mod_add by lia.
  by rewrite Z.mod_add by lia.
Qed.

(** The algorithm counts years from March: [year_start y] is the first day of
    the year [y] of an era, [yoe] the year of a day, [month_day] the month and
    day of a day of such a year. *)
Definition year_start (y : Z) : Z := 365 * y + y / 4 - y / 100 + y / 400.
Definition yoe (doe : Z) : Z := (doe - doe / 1460 + doe / 36524 - doe / 146096) / 365.
Definition month_day (doy : Z) : Z * Z :=
  let mp := (5 * doy + 2) / 153 in
  (if mp <? 10 then mp + 3 else mp - 9, doy - (153 * mp + 2) / 5 + 1).
Definition carry (m : Z) : Z := if m <=? 2 then 1 else 0.

Lemma yoe_step a : 0 <= a -> yoe a <= yoe (a + 1).
Proof.
  intros Ha. unfold yoe. apply Z.div_le_mono; [lia|].
  replace 146096 with (36524 * 4) by lia. rewrite <- !Z.div_div by lia.
  Z.to_euclidean_division_equations. lia.
Qed.

Lemma yoe_mono a b : 0 <= a <= b -> yoe a <= yoe b.
Proof.
  intros H. replace b with (a + Z.of_nat (Z.to_nat (b - a))) by lia.
  induction (Z.to_nat (b - a)) as [|n IH]; [by rewrite Z.add_0_r|].
  rewrite Nat2Z.inj_succ. replace (a + Z.succ (Z.of_nat n)) with (a + Z.of_nat n + 1) by lia.
  pose proof (yoe_step (a + Z.of_nat n)). lia.
Qed.

(** The 400 years of an era: the year of their first and last day, and their
    length. *)
Lemma year_table :
  forallb (fun k => let y := Z.of_nat k in
    (yoe (year_start y) =? y) && (yoe (year_start (y + 1) - 1) =? y)
    && (year_start (y + 1) =? year_start y + 365 + Z.b2z (is_leap (y + 1)))) (seq 0 400) = true.
Proof. vm_compute. reflexivity. Qed.

(** The days of a year: each is followed by the next one of the calendar. *)
Lemma day_table :
  forallb (fun k => let doy := Z.of_nat k in
    let '(m, d) := month_day doy in let '(m', d') := month_day (doy + 1) in
    (1 <=? m) && (m <=? 12) && (1 <=? d) &&
    forallb (fun leap => (d <? month_length_of leap m) && bool_decide ((m', d') = (m, d + 1)) &&
                           (carry m' =? carry m)
       || (d =? month_length_of leap m) && negb (d <? month_length_of leap m) &&
          bool_decide ((m', d', carry m') =
            if m <? 12 then (m + 1, 1, carry m) else (1, 1, carry m + 1))) [true; false])
    (seq 0 364) = true.
Proof. vm_compute. reflexivity. Qed.

Lemma year_facts y :
  0 <= y < 400 ->
  yoe (year_start y) = y /\ yoe (year_start (y + 1) - 1) = y /\
  year_start (y + 1) = year_start y + 365 + Z.b2z (is_leap (y + 1)).
Proof.
  intros Hy. pose proof year_table as Ht. rewrite forallb_forall in Ht.
  specialize (Ht (Z.to_nat y)). cbv zeta in Ht. rewrite Z2Nat.id in Ht by lia.
  assert (In (Z.to_nat y) (seq 0 400)) as Hin by (apply in_seq; lia).
  apply Ht in Hin. bools. lia.
Qed.

Lemma find_year n doe :
  0 <= doe < year_start (Z.of_nat n) ->
  exists y, 0 <= y < Z.of_nat n /\ year_start y <= doe < year_start (y + 1).
Proof.
  induction n as [|n IH]; intros H; [change (year_start (Z.of_nat 0)) with 0 in H; lia|].
  rewrite Nat2Z.inj_succ in *. destruct (Z.lt_ge_cases doe (year_start (Z.of_nat n))).
  - destruct IH as (y & ? & ?); [lia|]. exists y. lia.
  - exists (Z.of_nat n). unfold Z.succ in *. lia.
Qed.

Lemma yoe_unique y doe :
  0 <= y < 400 -> year_start y <= doe < year_start (y + 1) -> yoe doe = y.
Proof.
  intros Hy Hd. destruct (year_facts y Hy) as (H1 & H2 & _).
  assert (0 <= year_start y) by (unfold year_start; Z.to_euclidean_division_equations; lia).
  pose proof (yoe_mono (year_start y) doe). pose proof (yoe_mono doe (year_start (y + 1) - 1)). lia.
Qed.

(** The date of day [doy] of year [y] of era [k]. *)
Lemma civil_from_parts k y doy :
  0 <= y < 400 -> 0 <= doy < 365 + Z.b2z (is_leap (y + 1)) ->
  civil_from_days (k * 146097 + year_start y + doy - 719468) =
  (y + k * 400 + carry (fst (month_day doy)), fst (month_day doy), snd (month_day doy)).
Proof.
  intros Hy Hd. destruct (year_facts y Hy) as (_ & _ & Hs).
  assert (0 <= year_start y) by (unfold year_start; Z.to_euclidean_division_equations; lia).
  assert (year_start (y + 1) <= 146097) as Hmax.
  { unfold year_start. Z.to_euclidean_division_equations; lia. }
  pose proof (yoe_unique y (year_start y + doy) Hy) as Hyoe.
  unfold civil_from_days.
  replace (k * 146097 + year_start y + doy - 719468 + 719468)
    with (year_start y + doy + k * 146097) by lia.
  assert ((year_start y + doy + k * 146097) / 146097 = k) as ->.
  { rewrite Z.div_add, Z.div_small by lia. lia. }
  assert ((year_start y + doy + k * 146097) mod 146097 = year_start y + doy) as ->.
  { rewrite Z.mod_add, Z.mod_small by lia. lia. }
  cbv zeta. fold (yoe (year_start y + doy)). rewrite Hyoe by lia.
  replace (year_start y + doy - (365 * y + y / 4 - y / 100)) with doy.
  2: { unfold year_start. rewrite (Z.div_small y 400) by lia. lia. }
  unfold month_day, carry. cbn [fst snd]. case_match; f_equal; f_equal; lia.
Qed.

Lemma day_parts z :
  exists k y doy, z = k * 146097 + year_start y + doy - 719468 /\
    0 <= y < 400 /\ 0 <= doy < 365 + Z.b2z (is_leap (y + 1)).
Proof.
  pose proof (Z.mod_pos_bound (z + 719468) 146097). pose proof (Z.div_mod (z + 719468) 146097).
  destruct (find_year 400 ((z + 719468) mod 146097)) as (y & Hy & Hd).
  { change (year_start (Z.of_nat 400)) with 146097. lia. }
  destruct (year_facts y) as (_ & _ & Hs); [lia|].
  exists ((z + 719468) / 146097), y, ((z + 719468) mod 146097 - year_start y). lia.
Qed.

(** The day after the last one of a year is 1 March of the next. *)
Lemma next_year_start k y doy :
  0 <= y < 400 -> doy + 1 = 365 + Z.b2z (is_leap (y + 1)) ->
  civil_from_days (k * 146097 + year_start y + doy - 719468 + 1) =
  (y + 1 + k * 400, fst (month_day 0), snd (month_day 0)).
Proof.
  intros Hy Hd. destruct (year_facts y Hy) as (_ & _ & Hs).
  assert (forall y', 0 <= 365 + Z.b2z (is_leap y') - 1) as Hp
    by (intros y'; destruct (is_leap y'); simpl; lia).
  destruct (Z.eq_dec y 399) as [->|].
  - replace (k * 146097 + year_start 399 + doy - 719468 + 1)
      with ((k + 1) * 146097 + year_start 0 + 0 - 719468).
    2: { change (399 + 1) with 400 in *. change (year_start 400) with 146097 in Hs.
         change (year_start 0) with 0. lia. }
    rewrite civil_from_parts; [|lia|specialize (Hp (0 + 1)); lia].
    cbn [fst snd]. change (carry (fst (month_day 0))) with 0. do 2 f_equal. lia.
  - replace (k * 146097 + year_start y + doy - 719468 + 1)
      with (k * 146097 + year_start (y + 1) + 0 - 719468) by lia.
    rewrite civil_from_parts; [|lia|specialize (Hp (y + 1 + 1)); lia].
    cbn [fst snd]. change (carry (fst (month_day 0))) with 0. do 2 f_equal. lia.
Qed.

Lemma day_facts doy leap :
  0 <= doy < 364 ->
  let '(m, d) := month_day doy in let '(m', d') := month_day (doy + 1) in
  1 <= m <= 12 /\ 1 <= d <= month_length_of leap m /\
  (m', d', carry m') =
    if d <? month_length_of leap m then (m, d + 1, carry m)
    else if m <? 12 then (m + 1, 1, carry m) else (1, 1, carry m + 1).
Proof.
  intros Hd. pose proof day_table as Ht. rewrite forallb_forall in Ht.
  specialize (Ht (Z.to_nat doy)). cbv zeta in Ht. rewrite Z2Nat.id in Ht by lia.
  assert (In (Z.to_nat doy) (seq 0 364)) as Hin by (apply in_seq; lia).
  apply Ht in Hin. destruct (month_day doy) as [m d], (month_day (doy + 1)) as [m' d'].
  apply andb_true_iff in Hin as [Hin Hl]. rewrite forallb_forall in Hl.
  specialize (Hl leap). assert (In leap [true; false]) as Hb by (destruct leap; simpl; auto).
  apply Hl in Hb. bools. destruct Hb as [Hb|Hb]; bools.
  - assert ((d <? month_length_of leap m) = true) as -> by (apply Z.ltb_lt; lia).
    simplify_eq. split; [lia|]. split; [lia|]. congruence.
  - assert ((d <? month_length_of leap m) = false) as -> by (apply Z.ltb_ge; lia).
    split; [lia|]. split; [lia|]. done.
Qed.

Lemma civil_step z :
  valid_date (civil_from_days z) = true /\ civil_from_days (z + 1) = next_day (civil_from_days z).
Proof.
  destruct (day_parts z) as (k & y & doy & -> & Hy & Hd).
  rewrite civil_from_parts by done.
  pose proof (is_leap_era (y + 1) k) as Hleap.
  destruct (Z.lt_ge_cases doy 364) as [Hlt|Hge].
  - replace (k * 146097 + year_start y + doy - 719468 + 1)
      with (k * 146097 + year_start y + (doy + 1) - 719468) by lia.
    rewrite civil_from_parts by (destruct (is_leap (y + 1)); simpl in *; lia).
    pose proof (fun leap => day_facts doy leap) as Hf.
    destruct (month_day doy) as [m d], (month_day (doy + 1)) as [m' d']. cbn [fst snd].
    specialize (Hf (is_leap (y + k * 400 + carry m))) as (Hm & Hr & Hn); [lia|].
    unfold valid_date, next_day, month_length. split.
    + rewrite !andb_true_iff, !Z.leb_le. lia.
    + destruct (d <? _); [|destruct (m <? 12)]; injection Hn as E1 E2 E3;
        rewrite E3, E1, E2; do 2 f_equal; lia.
  - assert (month_day 364 = (2, 28) /\ month_day 365 = (2, 29) /\ month_day 0 = (3, 1)) as (M1 & M2 & M3)
      by (split; [|split]; reflexivity).
    destruct (year_facts y Hy) as (_ & _ & Hs).
    assert (doy = 364 \/ doy = 365 /\ is_leap (y + 1) = true) as [->|[-> Hl]]
      by (destruct (is_leap (y + 1)); simpl in *; lia).
    + rewrite M1. cbn [fst snd]. change (carry 2) with 1.
      replace (y + k * 400 + 1) with (y + 1 + k * 400) by lia.
      unfold valid_date, next_day, month_length. rewrite Hleap.
      destruct (is_leap (y + 1)) eqn:El; (split; [done|]); cbn [Z.b2z] in *.
      * replace (k * 146097 + year_start y + 364 - 719468 + 1)
          with (k * 146097 + year_start y + 365 - 719468) by lia.
        rewrite civil_from_parts, M2 by (rewrite ?El; simpl; lia). cbn [fst snd].
        change (carry 2) with 1. do 2 f_equal. lia.
      * rewrite (next_year_start k y 364), M3 by (rewrite ?El; simpl; lia). done.
    + rewrite M2. cbn [fst snd]. change (carry 2) with 1.
      replace (y + k * 400 + 1) with (y + 1 + k * 400) by lia.
      unfold valid_date, next_day, month_length. rewrite Hleap, Hl. split; [done|].
      rewrite (next_year_start k y 365), M3 by (rewrite ?Hl; simpl; lia). done.
Qed.

Lemma fmt_int0_length w n : 0 <= n < 10 ^ Z.of_nat w -> (0 < w)%nat -> length (fmt_int0 w n) = w.
Proof.
  intros H Hw. unfold fmt_int0. destruct (Z.ltb_spec n 0); [lia|].
  apply pad0_dec_length; [|done]. apply N2Z.inj_lt. rewrite N2Z.inj_pow, Z2N.id, nat_N_Z by lia.
  apply H.
Qed.

Lemma fmt_int0_ascii w n : 0 <= n -> Forall (fun c => c < 128)%N (fmt_int0 w n).
Proof.
  intros H. unfold fmt_int0. destruct (Z.ltb_spec n 0); [lia|]. unfold pad0.
  apply Forall_app. split.
  - apply Forall_replicate. lia.
  - eapply Forall_impl; [apply dec_digits|]. intros c Hc.
    unfold is_ascii_digit, in_range in Hc. simpl in Hc. bools. lia.
Qed.

Lemma split_bytes_ascii a b :
  Forall (fun c => c < 128)%N a -> split_bytes (N.of_nat (length a)) (a ++ b) = Some (a, b).
Proof.
  induction 1 as [|c a Hc Ha IH]; [by destruct b|].
  cbn [length split_bytes app]. rewrite Nat2N.inj_succ.
  destruct (N.eqb_spec (N.succ (N.of_nat (length a))) 0); [lia|].
  unfold len_utf8. apply N.ltb_lt in Hc. rewrite Hc.
  destruct (N.ltb_spec (N.succ (N.of_nat (length a))) 1); [lia|].
  replace (N.succ (N.of_nat (length a)) - 1)%N with (N.of_nat (length a)) by lia.
  by rewrite IH.
Qed.

Lemma clock_time_layout pre hms rest :
  length pre = 11%nat -> length hms = 8%nat ->
  Forall (fun c => c < 128)%N pre -> Forall (fun c => c < 128)%N hms ->
  clock_time (pre ++ hms ++ rest) = hms ++ txt " UTC".
Proof.
  intros Hp Hh Ap Ah. unfold clock_time, str_get.
  pose proof (split_bytes_ascii pre (hms ++ rest) Ap) as H1. rewrite Hp in H1.
  pose proof (split_bytes_ascii hms rest Ah) as H2. rewrite Hh in H2.
  change (19 <? 11)%N with false. cbv iota.
  change (19 - 11)%N with (N.of_nat 8). change 11%N with (N.of_nat 11).
  by rewrite H1, H2.
Qed.

Definition year_of (z : Z) : Z := fst (fst (civil_from_days z)).

Lemma year_mono a b : a <= b -> year_of a <= year_of b.
Proof.
  intros Hab. replace b with (a + Z.of_nat (Z.to_nat (b - a))) by lia.
  induction (Z.to_nat (b - a)) as [|n IH]; [by rewrite Z.add_0_r|].
  rewrite Nat2Z.inj_succ. replace (a + Z.succ (Z.of_nat n)) with (a + Z.of_nat n + 1) by lia.
  etransitivity; [exact IH|]. unfold year_of.
  destruct (civil_step (a + Z.of_nat n)) as [_ ->].
  destruct (civil_from_days (a + Z.of_nat n)) as [[y m] d]. unfold next_day.
  case_match; [done|]. case_match; simpl; lia.
Qed.

Lemma valid_date_bounds y m d : valid_date (y, m, d) = true -> 1 <= m <= 12 /\ 1 <= d <= 31.
Proof.
  unfold valid_date. intros H. bools. repeat (bools; destruct_and?).
  assert (month_length y m <= 31); [|lia].
  unfold month_length, month_length_of. repeat case_match; lia.
Qed.

Lemma fmt_int0_digits w n : 0 <= n -> Forall (fun c => is_ascii_digit c = true) (fmt_int0 w n).
Proof.
  intros H. unfold fmt_int0. destruct (Z.ltb_spec n 0); [lia|]. unfold pad0.
  apply Forall_app. split; [by apply Forall_replicate|apply dec_digits].
Qed.

(** [w] digits. *)
Definition digits (w : nat) (t : text) : Prop := length t = w /\ Forall (fun c => is_ascii_digit c = true) t.

Lemma fmt_int0_is_digits w n : 0 <= n < 10 ^ Z.of_nat w -> (0 < w)%nat -> digits w (fmt_int0 w n).
Proof. intros. split; [by apply fmt_int0_length|apply fmt_int0_digits; lia]. Qed.

(** Up to the year 9999 every field has its width. *)
Lemma iso8601_layout secs :
  0 <= secs < 253402300800 ->
  exists y m d h mi s,
    digits 4 y /\ digits 2 m /\ digits 2 d /\ digits 2 h /\ digits 2 mi /\ digits 2 s /\
    iso8601_from_unix_seconds secs = y ++ txt "-" ++ m ++ txt "-" ++ d ++ txt "T" ++ h ++ txt ":" ++ mi ++ txt ":" ++ s ++ txt "Z".
Proof.
  intros Hs. unfold iso8601_from_unix_seconds.
  assert (0 <= secs / 86400 <= 2932896) as Hd by (Z.to_euclidean_division_equations; lia).
  assert (1970 <= year_of (secs / 86400) <= 9999) as Hy.
  { split; [apply (year_mono 0); lia|]. etransitivity; [apply (year_mono _ 2932896); lia|]. vm_compute. discriminate. }
  destruct (civil_step (secs / 86400)) as [Hv _]. unfold year_of in Hy.
  destruct (civil_from_days (secs / 86400)) as [[y m] d]. apply valid_date_bounds in Hv. cbn [fst] in Hy.
  eexists _, _, _, _, _, _.
  split_and!; [..|reflexivity]; apply fmt_int0_is_digits; try lia; simpl (10 ^ _); Z.to_euclidean_division_equations; lia.
Qed.

(** ** Properties *)

(** [civil_from_days] is the proleptic Gregorian calendar: day 0 is 1970-01-01,
    every day number denotes an existing date, and the following day number is
    always the following date (month lengths and leap years included). *)
Theorem civil_from_days_correct (z : Z) :
  civil_from_days 0 = (1970, 1, 1) /\
  valid_date (civil_from_days z) = true /\
  civil_from_days (z + 1) = next_day (civil_from_days z).
Proof. split; [reflexivity|]. apply civil_step. Qed.

(** The clock time shown in a refusal is the time of day of the lease: for every
    instant up to the year 9999, [clock_time] cuts exactly the hour, minute and
    second out of the ISO-8601 text. *)
Theorem clock_time_of_iso8601 (secs : Z) :
  0 <= secs < 253402300800 ->
  clock_time (iso8601_from_unix_seconds secs) =
    fmt_int0 2 (secs mod 86400 / 3600) ++ txt ":"
    ++ fmt_int0 2 (secs mod 86400 mod 3600 / 60) ++ txt ":"
    ++ fmt_int0 2 (secs mod 86400 mod 60) ++ txt " UTC".
Proof.
  intros Hs. unfold iso8601_from_unix_seconds.
  pose proof (Z.div_mod secs 86400). pose proof (Z.mod_pos_bound secs 86400).
  assert (0 <= secs / 86400 <= 2932896) as Hd by lia.
  assert (1970 <= year_of (secs / 86400) <= 9999) as Hy.
  { split; [apply (year_mono 0); lia|]. etransitivity; [apply (year_mono _ 2932896); lia|].
    vm_compute. discriminate. }
  destruct (civil_step (secs / 86400)) as [Hv _]. unfold year_of in Hy.
  destruct (civil_from_days (secs / 86400)) as [[y m] d]. apply valid_date_bounds in Hv.
  cbn [fst] in Hy.
  assert (0 <= secs mod 86400 / 3600 < 100) as Hh.
  { split; [apply Z.div_pos; lia|]. apply Z.div_lt_upper_bound; lia. }
  pose proof (Z.mod_pos_bound (secs mod 86400) 3600).
  pose proof (Z.mod_pos_bound (secs mod 86400) 60).
  assert (0 <= secs mod 86400 mod 3600 / 60 < 100) as Hm.
  { split; [apply Z.div_pos; lia|]. apply Z.div_lt_upper_bound; lia. }
  set (h := secs mod 86400 / 3600) in *. set (mi := secs mod 86400 mod 3600 / 60) in *.
  set (se := secs mod 86400 mod 60) in *. clearbody h mi se.
  replace (fmt_int0 4 y ++ txt "-" ++ fmt_int0 2 m ++ txt "-" ++ fmt_int0 2 d ++ txt "T"
    ++ fmt_int0 2 h ++ txt ":" ++ fmt_int0 2 mi ++ txt ":" ++ fmt_int0 2 se ++ txt "Z")
    with ((fmt_int0 4 y ++ txt "-" ++ fmt_int0 2 m ++ txt "-" ++ fmt_int0 2 d ++ txt "T")
    ++ (fmt_int0 2 h ++ txt ":" ++ fmt_int0 2 mi ++ txt ":" ++ fmt_int0 2 se) ++ txt "Z")
    by (by rewrite <- !app_assoc).
  rewrite clock_time_layout; [by rewrite <- !app_assoc| | | |].
  - rewrite !length_app, !fmt_int0_length by (simpl; lia). reflexivity.
  - rewrite !length_app, !fmt_int0_length by (simpl; lia). reflexivity.
  - repeat (apply Forall_app; split); (apply fmt_int0_ascii; lia) || (repeat constructor).
  - repeat (apply Forall_app; split); (apply fmt_int0_ascii; lia) || (repeat constructor).
Qed.

Lemma clock_time_of_iso8601_witness :
  iso8601_from_unix_seconds 1700000000 = txt "2023-11-14T22:13:20Z" /\
  clock_time (iso8601_from_unix_seconds 1700000000) = txt "22:13:20 UTC".
Proof.
  split; [vm_compute; reflexivity|].
  etransitivity; [apply (clock_time_of_iso8601 1700000000); lia|]. vm_compute. reflexivity.
Defined.
