(* ===== verification/Vocab.v ===== *)
(** * The input vocabulary ([crates/rdpilot-vocab/src/input.rs])

    Mouse buttons, logical keys, mouse and key actions, the raw events of a
    human viewer, the Set-1 scancode table and the key-name table.
    Coordinates and deltas are integers kept in [Z]; [wf_*] states the width
    of the Rust type. *)
From S2P Require Import Prelude.
Open Scope Z_scope.

(** ** Data *)

Inductive Button := BtnLeft | BtnRight | BtnMiddle.

Inductive Key :=
| Ctrl | Alt | Shift
| KA | KB | KC | KD | KE | KF | KG | KH | KI | KJ | KK | KL | KM
| KN | KO | KP | KQ | KR | KS | KT | KU | KV | KW | KX | KY | KZ
| Digit0 | Digit1 | Digit2 | Digit3 | Digit4
| Digit5 | Digit6 | Digit7 | Digit8 | Digit9
| F1 | F2 | F3 | F4 | F5 | F6 | F7 | F8 | F9 | F10 | F11 | F12
| Enter | Esc | Tab | Space | Backspace | Delete
| KUp | KDown | KLeft | KRight | Home | End_ | PageUp | PageDown | Insert_ | Win.

(** [u8] codes are kept in [N]. *)
Record Set1Scancode := { sc_code : N; sc_extended : bool }.

Inductive MouseAction :=
| Move (x y : Z)
| Click (x y : Z) (button : Button)
| DoubleClick (x y : Z) (button : Button)
| Scroll (x y dy : Z)
| Drag (from_x from_y to_x to_y : Z) (button : Button).

Inductive KeyAction :=
| Type_ (t : text)
| Combo (keys : list Key).

(** Declaration order is the derived [Ord] order. *)
Inductive PointerButton := PbLeft | PbMiddle | PbRight | PbX1 | PbX2.

Inductive RawInput :=
| PointerMove (x y : Z)
| RButton (button : PointerButton) (down : bool)
| Wheel (vertical : bool) (units : Z)
| RKey (code : N) (extended down : bool).

Global Instance Button_eq_dec : EqDecision Button.
Proof. solve_decision. Defined.
Global Instance Key_eq_dec : EqDecision Key.
Proof. solve_decision. Defined.
Global Instance PointerButton_eq_dec : EqDecision PointerButton.
Proof. solve_decision. Defined.
Global Instance Set1Scancode_eq_dec : EqDecision Set1Scancode.
Proof. solve_decision. Defined.
Global Instance RawInput_eq_dec : EqDecision RawInput.
Proof. solve_decision. Defined.

Definition is_u16 (x : Z) : Prop := 0 <= x < 65536.
Definition is_i16 (x : Z) : Prop := -32768 <= x < 32768.
Definition is_u8 (x : N) : Prop := (x < 256)%N.

(** ** Button names *)

(** [Button::CLI_VALUES], without the help lines (help text of clap). *)
Definition CLI_VALUES : list (Button * text) :=
  [(BtnLeft, txt "left"); (BtnRight, txt "right"); (BtnMiddle, txt "middle")].

Definition from_cli_name (name : text) : option Button :=
  fst <$> List.find (fun p => bool_decide (snd p = name)) CLI_VALUES.

(** ** The scancode table *)
Definition set1_scancode (k : Key) : Set1Scancode :=
  let '(extended, code) :=
    match k with
    | Ctrl => (false, 0x1D) | Alt => (false, 0x38) | Shift => (false, 0x2A)
    | KA => (false, 0x1E) | KB => (false, 0x30) | KC => (false, 0x2E)
    | KD => (false, 0x20) | KE => (false, 0x12) | KF => (false, 0x21)
    | KG => (false, 0x22) | KH => (false, 0x23) | KI => (false, 0x17)
    | KJ => (false, 0x24) | KK => (false, 0x25) | KL => (false, 0x26)
    | KM => (false, 0x32) | KN => (false, 0x31) | KO => (false, 0x18)
    | KP => (false, 0x19) | KQ => (false, 0x10) | KR => (false, 0x13)
    | KS => (false, 0x1F) | KT => (false, 0x14) | KU => (false, 0x16)
    | KV => (false, 0x2F) | KW => (false, 0x11) | KX => (false, 0x2D)
    | KY => (false, 0x15) | KZ => (false, 0x2C)
    | Digit0 => (false, 0x0B) | Digit1 => (false, 0x02) | Digit2 => (false, 0x03)
    | Digit3 => (false, 0x04) | Digit4 => (false, 0x05) | Digit5 => (false, 0x06)
    | Digit6 => (false, 0x07) | Digit7 => (false, 0x08) | Digit8 => (false, 0x09)
    | Digit9 => (false, 0x0A)
    | F1 => (false, 0x3B) | F2 => (false, 0x3C) | F3 => (false, 0x3D)
    | F4 => (false, 0x3E) | F5 => (false, 0x3F) | F6 => (false, 0x40)
    | F7 => (false, 0x41) | F8 => (false, 0x42) | F9 => (false, 0x43)
    | F10 => (false, 0x44) | F11 => (false, 0x57) | F12 => (false, 0x58)
    | Enter => (false, 0x1C) | Esc => (false, 0x01) | Tab => (false, 0x0F)
    | Space => (false, 0x39) | Backspace => (false, 0x0E)
    | Delete => (true, 0x53) | KUp => (true, 0x48) | KDown => (true, 0x50)
    | KLeft => (true, 0x4B) | KRight => (true, 0x4D) | Home => (true, 0x47)
    | End_ => (true, 0x4F) | PageUp => (true, 0x49) | PageDown => (true, 0x51)
    | Insert_ => (true, 0x52) | Win => (true, 0x5B)
    end%N in
  {| sc_code := code; sc_extended := extended |}.

(** ** Coordinates *)
Definition coordinates (a : MouseAction) : list (Z * Z) :=
  match a with
  | Move x y | Click x y _ | DoubleClick x y _ | Scroll x y _ => [(x, y)]
  | Drag from_x from_y to_x to_y _ => [(from_x, from_y); (to_x, to_y)]
  end.

(** ** The key-name table *)

(** The arms of the [match] of [parse_key_name], in order. *)
Definition key_names : list (text * Key) :=
  [(txt "ctrl", Ctrl); (txt "alt", Alt); (txt "shift", Shift);
   (txt "a", KA); (txt "b", KB); (txt "c", KC); (txt "d", KD); (txt "e", KE);
   (txt "f", KF); (txt "g", KG); (txt "h", KH); (txt "i", KI); (txt "j", KJ);
   (txt "k", KK); (txt "l", KL); (txt "m", KM); (txt "n", KN); (txt "o", KO);
   (txt "p", KP); (txt "q", KQ); (txt "r", KR); (txt "s", KS); (txt "t", KT);
   (txt "u", KU); (txt "v", KV); (txt "w", KW); (txt "x", KX); (txt "y", KY);
   (txt "z", KZ);
   (txt "digit0", Digit0); (txt "0", Digit0); (txt "digit1", Digit1); (txt "1", Digit1);
   (txt "digit2", Digit2); (txt "2", Digit2); (txt "digit3", Digit3); (txt "3", Digit3);
   (txt "digit4", Digit4); (txt "4", Digit4); (txt "digit5", Digit5); (txt "5", Digit5);
   (txt "digit6", Digit6); (txt "6", Digit6); (txt "digit7", Digit7); (txt "7", Digit7);
   (txt "digit8", Digit8); (txt "8", Digit8); (txt "digit9", Digit9); (txt "9", Digit9);
   (txt "f1", F1); (txt "f2", F2); (txt "f3", F3); (txt "f4", F4); (txt "f5", F5);
   (txt "f6", F6); (txt "f7", F7); (txt "f8", F8); (txt "f9", F9); (txt "f10", F10);
   (txt "f11", F11); (txt "f12", F12);
   (txt "enter", Enter); (txt "esc", Esc); (txt "escape", Esc); (txt "tab", Tab);
   (txt "space", Space); (txt "backspace", Backspace);
   (txt "delete", Delete); (txt "del", Delete);
   (txt "up", KUp); (txt "down", KDown); (txt "left", KLeft); (txt "right", KRight);
   (txt "home", Home); (txt "end", End_);
   (txt "pageup", PageUp); (txt "page-up", PageUp);
   (txt "pagedown", PageDown); (txt "page-down", PageDown);
   (txt "insert", Insert_); (txt "ins", Insert_);
   (txt "win", Win); (txt "windows", Win); (txt "super", Win)].

Section ParseKeyName.
(** [str::to_lowercase], the Unicode case mapping of the standard library. *)
Variable to_lowercase : text -> text.

Definition parse_key_name (name : text) : result text Key :=
  let trimmed := trim name in
  let other := to_lowercase trimmed in
  match List.find (fun p => bool_decide (fst p = other)) key_names with
  | Some (_, k) => Ok k
  | None => Err (txt "unknown key name '" ++ other ++ txt "' (original token: '"
                   ++ trimmed ++ txt "')")
  end.
End ParseKeyName.

(** Every key, in declaration order. *)
Definition all_keys : list Key :=
  [Ctrl; Alt; Shift; KA; KB; KC; KD; KE; KF; KG; KH; KI; KJ; KK; KL; KM; KN; KO; KP;
   KQ; KR; KS; KT; KU; KV; KW; KX; KY; KZ; Digit0; Digit1; Digit2; Digit3; Digit4;
   Digit5; Digit6; Digit7; Digit8; Digit9; F1; F2; F3; F4; F5; F6; F7; F8; F9; F10;
   F11; F12; Enter; Esc; Tab; Space; Backspace; Delete; KUp; KDown; KLeft; KRight;
   Home; End_; PageUp; PageDown; Insert_; Win].

(** ** Lemmas *)

Lemma all_keys_complete k : k ∈ all_keys.
Proof. apply (bool_decide_eq_true_1 _). by destruct k. Qed.

(** Distinct keys have distinct keyboard positions. *)
Lemma set1_scancode_inj k1 k2 : set1_scancode k1 = set1_scancode k2 -> k1 = k2.
Proof.
  assert (forallb (fun a => forallb (fun b =>
    implb (bool_decide (set1_scancode a = set1_scancode b)) (bool_decide (a = b))) all_keys)
    all_keys = true) as H by (vm_compute; reflexivity).
  intros Heq. rewrite forallb_forall in H.
  pose proof (H k1 (proj1 (list_elem_of_In _ _) (all_keys_complete k1))) as H1.
  cbv beta in H1. rewrite forallb_forall in H1.
  pose proof (H1 k2 (proj1 (list_elem_of_In _ _) (all_keys_complete k2))) as H2.
  cbv beta in H2. rewrite (bool_decide_eq_true_2 _ Heq) in H2.
  by apply bool_decide_eq_true_1 in H2.
Qed.

(** A make code has its top bit clear (a break code is the make code with it
    set), and only the twelve navigation, editing and GUI keys are extended. *)
Lemma set1_scancode_range k : (0 < sc_code (set1_scancode k) < 128)%N.
Proof. destruct k; simpl; lia. Qed.

(** The names of the table are pairwise distinct: arm order is irrelevant. *)
Lemma key_names_NoDup : NoDup key_names.*1.
Proof. apply (bool_decide_eq_true_1 _). vm_compute. reflexivity. Qed.

(** Every key has a name. *)
Lemma key_names_surj k : exists n, (n, k) ∈ key_names.
Proof.
  assert (forallb (fun k => existsb (fun p => bool_decide (snd p = k)) key_names) all_keys = true)
    as H by (vm_compute; reflexivity).
  rewrite forallb_forall in H.
  specialize (H k (proj1 (list_elem_of_In _ _) (all_keys_complete k))). cbv beta in H.
  apply existsb_exists in H as ([n k'] & Hin & Hk). bools. simpl in Hk. subst.
  exists n. by apply list_elem_of_In.
Qed.
