(* ===== verification/BTreeSet.v ===== *)
(** * Ordered sets: [std::collections::BTreeSet]

    A [BTreeSet<T>] as the strictly increasing list of its elements, in the
    order of an injective rank (the derived [Ord] of [T]).  Iteration order
    is observable in the program (it is the order of releases), so the model
    keeps it. *)
From S2P Require Import Prelude.
From stdpp Require Import sorting.
Open Scope Z_scope.

Section BTreeSet.
Context {A : Type} (rank : A -> Z).

(** [BTreeSet::insert]: an equal element is kept, not replaced. *)
Fixpoint bt_insert (x : A) (l : list A) : list A :=
  match l with
  | [] => [x]
  | y :: l' =>
      if rank x <? rank y then x :: y :: l'
      else if rank x =? rank y then y :: l'
      else y :: bt_insert x l'
  end.

(** [BTreeSet::remove] *)
Fixpoint bt_remove (x : A) (l : list A) : list A :=
  match l with
  | [] => []
  | y :: l' => if rank x =? rank y then l' else y :: bt_remove x l'
  end.

(** [BTreeSet::contains] *)
Definition bt_mem (x : A) (l : list A) : bool := existsb (fun y => rank x =? rank y) l.

(** The representation invariant. *)
Definition bt_wf (l : list A) : Prop := StronglySorted (fun x y => rank x < rank y) l.

Context `{Hinj : !Inj (=) (=) rank}.

Lemma bt_mem_spec x l : bt_mem x l = true <-> x ∈ l.
Proof.
  unfold bt_mem. rewrite existsb_exists. setoid_rewrite <- list_elem_of_In.
  setoid_rewrite Z.eqb_eq. split.
  - intros (y & ? & ->%(inj rank)). done.
  - eauto.
Qed.

Lemma bt_insert_elem x y l : y ∈ bt_insert x l <-> y = x \/ y ∈ l.
Proof.
  induction l as [|z l IH]; simpl; [set_solver|].
  destruct (Z.ltb_spec (rank x) (rank z)); [set_solver|].
  destruct (Z.eqb_spec (rank x) (rank z)) as [->%(inj rank)|]; set_solver.
Qed.

Lemma bt_remove_elem x y l : bt_wf l -> y ∈ bt_remove x l <-> y ∈ l /\ y <> x.
Proof.
  induction 1 as [|z l Hs IH Hall]; simpl; [set_solver|].
  rewrite Forall_forall in Hall.
  destruct (Z.eqb_spec (rank x) (rank z)) as [->%(inj rank)|Hne].
  - split; [|set_solver]. intros Hy. split; [set_solver|].
    intros ->. specialize (Hall _ Hy). lia.
  - rewrite elem_of_cons, IH. set_solver.
Qed.

Lemma bt_insert_wf x l : bt_wf l -> bt_wf (bt_insert x l).
Proof.
  induction 1 as [|z l Hs IH Hall]; simpl; [repeat constructor|].
  destruct (Z.ltb_spec (rank x) (rank z)).
  { constructor; [by constructor|]. constructor; [done|].
    eapply Forall_impl; [exact Hall|]. simpl; lia. }
  destruct (Z.eqb_spec (rank x) (rank z)); constructor; try done.
  apply Forall_forall. intros y [->|Hy]%bt_insert_elem; [lia|].
  by rewrite Forall_forall in Hall; apply Hall.
Qed.

Lemma bt_remove_wf x l : bt_wf l -> bt_wf (bt_remove x l).
Proof.
  induction 1 as [|z l Hs IH Hall]; simpl; [constructor|].
  destruct (Z.eqb_spec (rank x) (rank z)); [done|]. constructor; [done|].
  apply Forall_forall. intros y Hy. rewrite bt_remove_elem in Hy by done.
  rewrite Forall_forall in Hall. naive_solver.
Qed.

Lemma bt_filter_wf (p : A -> bool) l : bt_wf l -> bt_wf (List.filter p l).
Proof.
  induction 1 as [|z l Hs IH Hall]; simpl; [constructor|].
  destruct (p z); [|done]. constructor; [done|].
  apply Forall_forall. intros y Hy%list_elem_of_In%filter_In.
  rewrite Forall_forall in Hall. apply Hall, list_elem_of_In. tauto.
Qed.

Lemma bt_foldl_remove_wf xs l : bt_wf l -> bt_wf (foldl (fun h b => bt_remove b h) l xs).
Proof. revert l. induction xs as [|x xs IH]; intros l Hl; [done|]. apply IH, bt_remove_wf, Hl. Qed.

Lemma bt_foldl_remove_elem xs l y :
  bt_wf l -> y ∈ foldl (fun h b => bt_remove b h) l xs <-> y ∈ l /\ y ∉ xs.
Proof.
  revert l. induction xs as [|x xs IH]; intros l Hl; simpl; [set_solver|].
  rewrite IH by by apply bt_remove_wf. rewrite bt_remove_elem by done. set_solver.
Qed.
End BTreeSet.

#[export] Hint Resolve bt_insert_wf bt_remove_wf bt_filter_wf bt_foldl_remove_wf : rd.
