(* ===== verification/InputOps.v ===== *)
(** * Translation of actions into IronRDP operations
      ([crates/rdpilot/src/input.rs], the bounds checks of
      [crates/rdpilot/src/session.rs])

    [Operation], [MouseButton] and [Scancode] are the IronRDP types as the
    source constructs them; what IronRDP does with them is not modelled here
    (see LoopInput.v for the interface of its input database). *)
From S2P Require Import Prelude Vocab.
Open Scope Z_scope.

Inductive MouseButton := MbLeft | MbMiddle | MbRight | MbX1 | MbX2.

(** [Scancode::from_u8(extended, code)] *)
Record Scancode := { from_u8_extended : bool; from_u8_code : N }.

Inductive Operation :=
| MouseMove (x y : Z)
| MouseButtonPressed (b : MouseButton)
| MouseButtonReleased (b : MouseButton)
| WheelRotations (is_vertical : bool) (rotation_units : Z)
| KeyPressed (s : Scancode)
| KeyReleased (s : Scancode)
| UnicodeKeyPressed (c : char)
| UnicodeKeyReleased (c : char).

Global Instance MouseButton_eq_dec : EqDecision MouseButton.
Proof. solve_decision. Defined.
Global Instance Scancode_eq_dec : EqDecision Scancode.
Proof. solve_decision. Defined.
Global Instance Operation_eq_dec : EqDecision Operation.
Proof. solve_decision. Defined.

Definition is_modifier (k : Key) : bool :=
  match k with Ctrl | Alt | Shift => true | _ => false end.

Definition scancode (k : Key) : Scancode :=
  let set1 := set1_scancode k in
  {| from_u8_extended := sc_extended set1; from_u8_code := sc_code set1 |}.

Definition mouse_button (b : Button) : MouseButton :=
  match b with BtnLeft => MbLeft | BtnRight => MbRight | BtnMiddle => MbMiddle end.

(** ** Wheel rotation *)
Definition MAX_WHEEL_MAGNITUDE_PER_OPERATION : Z := 240.

(** The [while remaining > 0] loop; [remaining] itself is enough fuel, since
    every round takes at least one unit. *)
Fixpoint wheel_chunks (fuel : nat) (sign remaining : Z) : list Z :=
  match fuel with
  | O => []
  | S fuel =>
      if remaining >? 0 then
        let chunk := Z.min remaining MAX_WHEEL_MAGNITUDE_PER_OPERATION in
        sign * chunk :: wheel_chunks fuel sign (remaining - chunk)
      else []
  end.

Definition wheel_rotation_operations (dy : Z) : list Operation :=
  let sign := if dy <? 0 then -1 else 1 in
  let remaining := Z.abs dy in
  let ops := map (WheelRotations true) (wheel_chunks (Z.to_nat remaining) sign remaining) in
  match ops with
  | [] => [WheelRotations true 0]
  | _ :: _ => ops
  end.

(** ** Mouse actions *)
Definition DRAG_INTERPOLATION_STEPS : Z := 5.

(** [i32] division truncates; the conversion back to [u16] clamps. *)
Definition lerp (from to_ step total : Z) : Z :=
  let value := from + Z.quot ((to_ - from) * step) total in
  if (0 <=? value) && (value <=? 65535) then value
  else if value <? 0 then 0 else 65535.

Definition interpolate (from_x from_y to_x to_y step total : Z) : Z * Z :=
  (lerp from_x to_x step total, lerp from_y to_y step total).

Definition click_batch (x y : Z) (button : Button) : list Operation :=
  let btn := mouse_button button in
  [MouseMove x y; MouseButtonPressed btn; MouseButtonReleased btn].

Definition drag_batches (from_x from_y to_x to_y : Z) (button : Button) : list (list Operation) :=
  let btn := mouse_button button in
  [[MouseMove from_x from_y; MouseButtonPressed btn]]
  ++ map (fun step =>
            let '(x, y) :=
              interpolate from_x from_y to_x to_y (Z.of_nat step) DRAG_INTERPOLATION_STEPS in
            [MouseMove x y])
         (seq 1 (Z.to_nat DRAG_INTERPOLATION_STEPS))
  ++ [[MouseButtonReleased btn]].

Definition mouse_operations (a : MouseAction) : list (list Operation) :=
  match a with
  | Move x y => [[MouseMove x y]]
  | Click x y button => [click_batch x y button]
  | DoubleClick x y button => [click_batch x y button; click_batch x y button]
  | Scroll x y dy => [MouseMove x y :: wheel_rotation_operations dy]
  | Drag from_x from_y to_x to_y button => drag_batches from_x from_y to_x to_y button
  end.

(** ** Keyboard actions *)
Definition combo_operations (keys : list Key) : list Operation :=
  let '(modifiers, others) := List.partition is_modifier keys in
  map (fun k => KeyPressed (scancode k)) modifiers
  ++ map (fun k => KeyPressed (scancode k)) others
  ++ map (fun k => KeyReleased (scancode k)) (rev others)
  ++ map (fun k => KeyReleased (scancode k)) (rev modifiers).

Definition key_operations (a : KeyAction) : list Operation :=
  match a with
  | Type_ t => flat_map (fun c => [UnicodeKeyPressed c; UnicodeKeyReleased c]) t
  | Combo keys => combo_operations keys
  end.

(** ** Raw viewer input *)
Definition pointer_button (b : PointerButton) : MouseButton :=
  match b with
  | PbLeft => MbLeft | PbMiddle => MbMiddle | PbRight => MbRight
  | PbX1 => MbX1 | PbX2 => MbX2
  end.

Definition raw_operation (e : RawInput) : list Operation :=
  match e with
  | PointerMove x y => [MouseMove x y]
  | RButton b down =>
      [if down then MouseButtonPressed (pointer_button b)
       else MouseButtonReleased (pointer_button b)]
  | Wheel vertical units =>
      flat_map (fun op => match op with
                          | WheelRotations _ w => [WheelRotations vertical w]
                          | _ => []
                          end) (wheel_rotation_operations units)
  | RKey code extended down =>
      let s := {| from_u8_extended := extended; from_u8_code := code |} in
      [if down then KeyPressed s else KeyReleased s]
  end.

Definition raw_operations (events : list RawInput) : list Operation :=
  flat_map raw_operation events.

(** ** Bounds checks *)

Inductive BoundsError := CoordinateOutOfBounds (x y w h : Z).

(** The first coordinate outside [(w, h)]. *)
Fixpoint first_out_of_bounds (size : Z * Z) (l : list (Z * Z)) : result BoundsError unit :=
  match l with
  | [] => Ok tt
  | (x, y) :: l' =>
      if (x >=? fst size) || (y >=? snd size)
      then Err (CoordinateOutOfBounds x y (fst size) (snd size))
      else first_out_of_bounds size l'
  end.

(** [Session::check_bounds] *)
Definition check_bounds (desktop_size : Z * Z) (a : MouseAction) : result BoundsError unit :=
  first_out_of_bounds desktop_size (coordinates a).

(** The check of [InputHandle::send]. *)
Definition moves_of (events : list RawInput) : list (Z * Z) :=
  flat_map (fun e => match e with PointerMove x y => [(x, y)] | _ => [] end) events.
Definition check_moves (frame_size : Z * Z) (events : list RawInput) : result BoundsError unit :=
  first_out_of_bounds frame_size (moves_of events).

(** ** The wire batches of one action ([session_loop.rs], [process_fastpath_input]) *)

(** [slice::chunks(n)] for [n > 0]; the length of the slice is enough fuel. *)
Fixpoint chunks_fuel {A} (fuel n : nat) (l : list A) : list (list A) :=
  match fuel with
  | O => []
  | S fuel => match l with
              | [] => []
              | _ :: _ => take n l :: chunks_fuel fuel n (drop n l)
              end
  end.
Definition chunks {A} (n : nat) (l : list A) : list (list A) := chunks_fuel (length l) n l.

Definition FASTPATH_EVENTS : nat := 255.

(** ** Lemmas *)

Lemma chunks_fuel_concat {A} fuel n (l : list A) :
  (0 < n)%nat -> (length l <= fuel)%nat -> concat (chunks_fuel fuel n l) = l.
Proof.
  intros Hn. revert l. induction fuel as [|fuel IH]; intros [|x l] Hl; simpl in *; try done; [lia|].
  rewrite IH; [by rewrite take_drop|]. rewrite length_drop. simpl. lia.
Qed.

Lemma chunks_fuel_size {A} fuel n (l : list A) :
  (0 < n)%nat -> Forall (fun c => 1 <= length c <= n)%nat (chunks_fuel fuel n l).
Proof.
  intros Hn. revert l. induction fuel as [|fuel IH]; intros [|x l]; simpl; try done.
  constructor; [|apply IH]. rewrite length_take. simpl. lia.
Qed.

Lemma first_out_of_bounds_ok size l :
  first_out_of_bounds size l = Ok tt <-> Forall (fun p => fst p < fst size /\ snd p < snd size) l.
Proof.
  induction l as [|[x y] l IH]; simpl; [done|].
  rewrite Forall_cons. simpl.
  destruct (Z.geb_spec x (fst size)), (Z.geb_spec y (snd size)); simpl;
    [split; [done|lia]..|]. rewrite IH. naive_solver lia.
Qed.

Section Wheel.
Lemma wheel_chunks_spec fuel sign remaining :
  (sign = 1 \/ sign = -1) -> 0 <= remaining -> remaining <= Z.of_nat fuel ->
  foldr Z.add 0 (wheel_chunks fuel sign remaining) = sign * remaining /\
  Forall (fun u => 0 < sign * u <= MAX_WHEEL_MAGNITUDE_PER_OPERATION)
         (wheel_chunks fuel sign remaining) /\
  Z.of_nat (length (wheel_chunks fuel sign remaining)) = (remaining + 239) / 240.
Proof.
  intros Hs. revert remaining. induction fuel as [|fuel IH]; intros r Hr Hf.
  { assert (r = 0) as -> by lia. simpl. split; [lia|]. split; [done|]. reflexivity. }
  cbn [wheel_chunks]. unfold MAX_WHEEL_MAGNITUDE_PER_OPERATION in *.
  destruct (Z.gtb_spec r 0).
  - destruct (IH (r - Z.min r 240)) as (H1 & H2 & H3); [lia..|].
    cbn [foldr length]. rewrite H1. split; [nia|].
    split; [constructor; [nia|done]|].
    rewrite Nat2Z.inj_succ, H3.
    destruct (Z.min_spec r 240) as [[? ->]|[? ->]].
    + replace (r - r + 239) with 239 by lia. change (239 / 240) with 0.
      replace (r + 239) with (1 * 240 + (r - 1)) by lia.
      rewrite Z.div_add_l, Z.div_small; lia.
    + replace (r + 239) with (1 * 240 + (r - 240 + 239)) by lia.
      rewrite Z.div_add_l; lia.
  - assert (r = 0) as -> by lia. simpl. split; [lia|]. split; [done|]. reflexivity.
Qed.

Definition units_of (op : Operation) : list Z :=
  match op with WheelRotations _ u => [u] | _ => [] end.

Lemma units_of_map v l : flat_map units_of (map (WheelRotations v) l) = l.
Proof. induction l; simpl; congruence. Qed.
End Wheel.

Lemma lerp_between from to_ step total :
  is_u16 from -> is_u16 to_ -> 0 <= step <= total -> 0 < total ->
  Z.min from to_ <= lerp from to_ step total <= Z.max from to_.
Proof.
  unfold is_u16. intros Hf Ht Hs Htot. unfold lerp.
  assert (Z.min from to_ <= from + Z.quot ((to_ - from) * step) total <= Z.max from to_) as Hv.
  { destruct (Z.le_ge_cases from to_).
    - assert (0 <= Z.quot ((to_ - from) * step) total) by (apply Z.quot_pos; nia).
      assert (Z.quot ((to_ - from) * step) total <= to_ - from).
      { rewrite Z.quot_div_nonneg by nia. apply Z.div_le_upper_bound; nia. }
      lia.
    - replace ((to_ - from) * step) with (- ((from - to_) * step)) by lia.
      rewrite Z.quot_opp_l by lia.
      assert (0 <= Z.quot ((from - to_) * step) total) by (apply Z.quot_pos; nia).
      assert (Z.quot ((from - to_) * step) total <= from - to_).
      { rewrite Z.quot_div_nonneg by nia. apply Z.div_le_upper_bound; nia. }
      lia. }
  assert (((0 <=? from + Z.quot ((to_ - from) * step) total)
    && (from + Z.quot ((to_ - from) * step) total <=? 65535)) = true) as ->; [|done].
  apply andb_true_iff. rewrite !Z.leb_le. lia.
Qed.

Lemma lerp_end from to_ total : is_u16 to_ -> 0 < total -> lerp from to_ total total = to_.
Proof.
  unfold is_u16, lerp. intros. rewrite Z.quot_mul by lia.
  replace (from + (to_ - from)) with to_ by lia.
  assert (((0 <=? to_) && (to_ <=? 65535)) = true) as ->; [|done].
  apply andb_true_iff. rewrite !Z.leb_le. lia.
Qed.

(** The intermediate products of a drag stay in [i32]. *)
Lemma lerp_no_overflow from to_ step :
  is_u16 from -> is_u16 to_ -> 0 <= step <= DRAG_INTERPOLATION_STEPS ->
  - 2 ^ 31 <= (to_ - from) * step < 2 ^ 31.
Proof. unfold is_u16, DRAG_INTERPOLATION_STEPS. intros. nia. Qed.

(** Where a batch moves the pointer. *)
Definition move_targets (ops : list Operation) : list (Z * Z) :=
  flat_map (fun op => match op with MouseMove x y => [(x, y)] | _ => [] end) ops.

Definition wf_mouse (a : MouseAction) : Prop :=
  Forall (fun p => is_u16 (fst p) /\ is_u16 (snd p)) (coordinates a) /\
  match a with Scroll _ _ dy => is_i16 dy | _ => True end.

Lemma drag_moves fx fy tx ty b :
  move_targets (concat (drag_batches fx fy tx ty b)) =
  (fx, fy) :: map (fun s => interpolate fx fy tx ty (Z.of_nat s) DRAG_INTERPOLATION_STEPS) (seq 1 5).
Proof. reflexivity. Qed.

Lemma move_targets_wheel dy : move_targets (wheel_rotation_operations dy) = [].
Proof.
  unfold wheel_rotation_operations.
  set (l := wheel_chunks _ _ _). clearbody l.
  assert (move_targets (map (WheelRotations true) l) = []) as H by (induction l; done).
  destruct (map (WheelRotations true) l); done.
Qed.

(** ** Properties *)

(** A scroll of [dy] units becomes at least one wheel operation; the
    operations together rotate exactly [dy], none is larger than the 240 units
    that survive the 8-bit wire field, all have the sign of [dy], and their
    number is the least possible. *)
Theorem wheel_rotation_operations_spec (dy : Z) (vertical : bool) :
  is_i16 dy ->
  let us := flat_map units_of (raw_operation (Wheel vertical dy)) in
  raw_operation (Wheel vertical dy) = map (WheelRotations vertical) us /\
  foldr Z.add 0 us = dy /\
  Forall (fun u => Z.abs u <= MAX_WHEEL_MAGNITUDE_PER_OPERATION /\ 0 <= u * dy) us /\
  Z.of_nat (length us) = Z.max 1 ((Z.abs dy + 239) / 240).
Proof.
  unfold is_i16. intros Hdy.
  assert (forall l, flat_map (fun op => match op with
     | WheelRotations _ w => [WheelRotations vertical w] | _ => [] end)
     (map (WheelRotations true) l) = map (WheelRotations vertical) l) as Hre.
  { intros l. induction l; simpl; congruence. }
  set (sign := if dy <? 0 then -1 else 1).
  assert ((sign = 1 \/ sign = -1) /\ sign * Z.abs dy = dy) as [Hs Hd].
  { unfold sign. destruct (Z.ltb_spec dy 0); lia. }
  destruct (wheel_chunks_spec (Z.to_nat (Z.abs dy)) sign (Z.abs dy)) as (H1 & H2 & H3); [lia..|].
  cbn [raw_operation]. unfold wheel_rotation_operations. fold sign.
  destruct (wheel_chunks (Z.to_nat (Z.abs dy)) sign (Z.abs dy)) as [|u us] eqn:E.
  - simpl in *. assert (dy = 0) as -> by lia. simpl. split; [done|]. split; [done|].
    split; [|done]. apply Forall_singleton. unfold MAX_WHEEL_MAGNITUDE_PER_OPERATION. lia.
  - cbn [map]. rewrite <- map_cons, Hre. cbv zeta. rewrite units_of_map.
    split; [done|]. rewrite H1. split; [lia|]. split.
    + eapply Forall_impl; [exact H2|]. simpl. intros v Hv.
      destruct Hs as [-> | ->]; nia.
    + rewrite H3. cbn [length] in H3. lia.
Qed.

Lemma wheel_rotation_operations_spec_witness :
  is_i16 (-500) /\
  flat_map units_of (raw_operation (Wheel false (-500))) = [-240; -240; -20] /\
  foldr Z.add 0 (flat_map units_of (raw_operation (Wheel false (-500)))) = -500.
Proof.
  assert (is_i16 (-500)) as H by (unfold is_i16; lia).
  split; [exact H|]. split; [reflexivity|].
  apply (wheel_rotation_operations_spec (-500) false H).
Defined.

(** The bounds check of [Session::send_mouse] looks only at the end points
    of an action, and that is enough: when it passes, every position the
    translated operations move the pointer to (all interpolated drag positions
    included) lies on the desktop, and the last one is the action's target. *)
Theorem check_bounds_covers_every_move (size : Z * Z) (a : MouseAction) :
  wf_mouse a -> check_bounds size a = Ok tt ->
  let moves := move_targets (concat (mouse_operations a)) in
  Forall (fun p => 0 <= fst p < fst size /\ 0 <= snd p < snd size) moves /\
  last moves = last (coordinates a).
Proof.
  intros [Hwf _] Hc. unfold check_bounds in Hc. apply first_out_of_bounds_ok in Hc.
  pose proof (proj2 (Forall_and _ _) (conj Hwf Hc)) as Hb. clear Hwf Hc.
  destruct a as [x y|x y b|x y b|x y dy|fx fy tx ty b]; cbn [coordinates] in *;
    repeat match goal with H : Forall _ (_ :: _) |- _ => apply Forall_cons in H as [? ?] end;
    cbn [fst snd] in *; unfold is_u16 in *.
  1-3: simpl; split; [repeat constructor; simpl; lia|done].
  - cbn [mouse_operations concat]. rewrite app_nil_r. unfold move_targets. simpl.
    fold (move_targets (wheel_rotation_operations dy)). rewrite move_targets_wheel.
    split; [repeat constructor; simpl; lia|done].
  - cbn [mouse_operations]. cbv zeta. rewrite drag_moves. split.
    + constructor; [simpl; lia|]. apply Forall_map, Forall_forall.
      intros s Hs%list_elem_of_In%in_seq. simpl.
      pose proof (lerp_between fx tx (Z.of_nat s) DRAG_INTERPOLATION_STEPS) as Hx.
      pose proof (lerp_between fy ty (Z.of_nat s) DRAG_INTERPOLATION_STEPS) as Hy.
      unfold is_u16, DRAG_INTERPOLATION_STEPS in *. lia.
    + simpl. f_equal. unfold interpolate.
      change (Z.of_nat 5) with DRAG_INTERPOLATION_STEPS.
      rewrite !lerp_end; unfold is_u16, DRAG_INTERPOLATION_STEPS; (done || lia).
Qed.

Lemma check_bounds_covers_every_move_witness :
  check_bounds (1920, 1080) (Drag 100 1000 0 3 BtnLeft) = Ok tt /\
  move_targets (concat (mouse_operations (Drag 100 1000 0 3 BtnLeft)))
    = [(100, 1000); (80, 801); (60, 602); (40, 402); (20, 203); (0, 3)] /\
  last (move_targets (concat (mouse_operations (Drag 100 1000 0 3 BtnLeft)))) = Some (0, 3).
Proof.
  assert (wf_mouse (Drag 100 1000 0 3 BtnLeft)) as Hwf.
  { split; [|exact I]. repeat constructor; simpl; lia. }
  split; [reflexivity|]. split; [reflexivity|].
  apply (check_bounds_covers_every_move (1920, 1080) (Drag 100 1000 0 3 BtnLeft) Hwf).
  reflexivity.
Defined.
