(* ===== verification/HumanInput.v ===== *)
(** * Human input bookkeeping
      (the free functions of [crates/rdpilot-daemon/src/control.rs])

    The keys and buttons a human holder keeps pressed ([Held], [track]), the
    geometry fence ([is_pointer], [geometry_matches],
    [releases_held_button]) and the coalescing of pointer moves. *)
From S2P Require Import Prelude Vocab BTreeSet.
Open Scope Z_scope.

(** ** Definitions *)

Inductive Held :=
| HButton (b : PointerButton)
| HKey (code : N) (extended : bool).

Global Instance Held_eq_dec : EqDecision Held.
Proof. solve_decision. Defined.

(** The derived [Ord]: variants in declaration order, then the fields. *)
Definition button_rank (b : PointerButton) : Z :=
  match b with PbLeft => 0 | PbMiddle => 1 | PbRight => 2 | PbX1 => 3 | PbX2 => 4 end.
Definition held_rank (h : Held) : Z :=
  match h with
  | HButton b => button_rank b
  | HKey code extended => 5 + 2 * Z.of_N code + Z.b2z extended
  end.

Definition held_insert : Held -> list Held -> list Held := bt_insert held_rank.
Definition held_remove : Held -> list Held -> list Held := bt_remove held_rank.
Definition held_contains : Held -> list Held -> bool := bt_mem held_rank.
Definition held_wf : list Held -> Prop := bt_wf held_rank.

(** [Held::release] *)
Definition release (h : Held) : RawInput :=
  match h with
  | HButton b => RButton b false
  | HKey code extended => RKey code extended false
  end.

Definition is_pointer (e : RawInput) : bool :=
  match e with RKey _ _ _ => false | _ => true end.

Definition geometry_matches (e : RawInput) (aimed : Z * Z) (current : option (Z * Z)) : bool :=
  if bool_decide (current = Some aimed) then
    match e with
    | PointerMove x y => (x <? fst aimed) && (y <? snd aimed)
    | _ => true
    end
  else false.

Definition releases_held_button (held : list Held) (e : RawInput) : bool :=
  match e with
  | RButton b false => held_contains (HButton b) held
  | _ => false
  end.

Definition track (held : list Held) (e : RawInput) : list Held :=
  match e with
  | RButton b down => if down then held_insert (HButton b) held else held_remove (HButton b) held
  | RKey code extended down =>
      let key := HKey code extended in
      if down then held_insert key held else held_remove key held
  | PointerMove _ _ | Wheel _ _ => held
  end.

Definition is_move (e : RawInput) : bool :=
  match e with PointerMove _ _ => true | _ => false end.

(** The loop of [coalesce], with [out] as the vector built so far. *)
Definition coalesce_step (out : list RawInput) (e : RawInput) : list RawInput :=
  let out :=
    match last out with
    | Some (PointerMove _ _) => if is_move e then take (length out - 1) out else out
    | _ => out
    end in
  out ++ [e].
Definition coalesce (events : list RawInput) : list RawInput := foldl coalesce_step [] events.

(** ** Specification *)

(** A move survives when no move follows it directly. *)
Fixpoint coalesce_spec (events : list RawInput) : list RawInput :=
  match events with
  | [] => []
  | e :: es =>
      if is_move e && match es with e' :: _ => is_move e' | [] => false end
      then coalesce_spec es
      else e :: coalesce_spec es
  end.

(** No two moves are adjacent. *)
Fixpoint no_adjacent_moves (events : list RawInput) : Prop :=
  match events with
  | e :: (e' :: _) as es => is_move e && is_move e' = false /\ no_adjacent_moves es
  | _ => True
  end.

(** What an event does to the key or button [h]. *)
Definition effect_on (h : Held) (e : RawInput) : option bool :=
  match e with
  | RButton b down => if decide (h = HButton b) then Some down else None
  | RKey code extended down => if decide (h = HKey code extended) then Some down else None
  | _ => None
  end.

(** Whether [h] is down after [events], given whether it was down before. *)
Definition down_after (h : Held) (before : bool) (events : list RawInput) : bool :=
  foldl (fun d e => default d (effect_on h e)) before events.

(** ** Lemmas *)

Global Instance held_rank_inj : Inj (=) (=) held_rank.
Proof.
  intros [b1|c1 e1] [b2|c2 e2]; simpl.
  - by destruct b1, b2.
  - destruct b1, e2; simpl; lia.
  - destruct b2, e1; simpl; lia.
  - destruct e1, e2; simpl; intros; f_equal; lia.
Qed.

Lemma track_wf held e : held_wf held -> held_wf (track held e).
Proof. destruct e as [| ? [] | | ? ? []]; simpl; unfold held_wf; auto with rd typeclass_instances. Qed.

Lemma track_elem held e h :
  held_wf held ->
  h ∈ track held e <-> default (bool_decide (h ∈ held)) (effect_on h e) = true.
Proof.
  intros Hwf. unfold effect_on.
  destruct e as [x y|b d|v u|c x d]; cbn [track];
    [by simpl; rewrite bool_decide_eq_true| |by simpl; rewrite bool_decide_eq_true|];
    destruct d; unfold held_insert, held_remove;
    rewrite ?(bt_insert_elem held_rank), ?(bt_remove_elem held_rank) by done;
    case_decide; simpl; rewrite ?bool_decide_eq_true; intuition congruence.
Qed.

Lemma foldl_track_wf held es : held_wf held -> held_wf (foldl track held es).
Proof. revert held. induction es as [|e es IH]; intros held H; [done|]. apply IH, track_wf, H. Qed.

#[export] Hint Resolve track_wf foldl_track_wf : rd.

Lemma coalesce_step_app out e :
  coalesce_step out e =
  match last out with
  | Some m => if is_move m && is_move e then take (length out - 1) out ++ [e] else out ++ [e]
  | None => [e]
  end.
Proof.
  unfold coalesce_step. destruct (last out) as [[]|] eqn:E; simpl; try done.
  - by case_match.
  - apply last_None in E. by subst.
Qed.

Lemma coalesce_foldl out e es :
  foldl coalesce_step (out ++ [e]) es = out ++ coalesce_spec (e :: es).
Proof.
  revert out e. induction es as [|e' es IH]; intros out e.
  { cbn. by rewrite andb_false_r. }
  cbn [foldl]. rewrite coalesce_step_app, last_snoc.
  change (coalesce_spec (e :: e' :: es)) with
    (if is_move e && is_move e' then coalesce_spec (e' :: es) else e :: coalesce_spec (e' :: es)).
  destruct (is_move e && is_move e').
  - rewrite length_app. cbn [length]. replace (length out + 1 - 1)%nat with (length out) by lia.
    rewrite take_app_length. apply IH.
  - rewrite IH. by rewrite <- app_assoc.
Qed.

Lemma coalesce_eq_spec events : coalesce events = coalesce_spec events.
Proof. destruct events as [|e es]; [done|]. apply (coalesce_foldl [] e es). Qed.

Lemma coalesce_spec_head e es : exists e', head (coalesce_spec (e :: es)) = Some e' /\ is_move e' = is_move e.
Proof.
  revert e. induction es as [|e' es IH]; intros e; [simpl; rewrite andb_false_r; eauto|].
  change (coalesce_spec (e :: e' :: es)) with
    (if is_move e && is_move e' then coalesce_spec (e' :: es) else e :: coalesce_spec (e' :: es)).
  destruct (is_move e) eqn:E1, (is_move e') eqn:E2; cbn [andb]; [|by eexists..].
  destruct (IH e') as (f & Hf & Hm). exists f. by rewrite Hm.
Qed.

Lemma coalesce_spec_no_adjacent events : no_adjacent_moves (coalesce_spec events).
Proof.
  induction events as [|e [|e' es] IH]; [done|simpl; by rewrite andb_false_r|].
  change (coalesce_spec (e :: e' :: es)) with
    (if is_move e && is_move e' then coalesce_spec (e' :: es) else e :: coalesce_spec (e' :: es)).
  destruct (is_move e && is_move e') eqn:E; [done|].
  destruct (coalesce_spec_head e' es) as (f & Hf & Hm).
  destruct (coalesce_spec (e' :: es)) as [|g gs]; [done|]. injection Hf as ->.
  split; [by rewrite Hm|exact IH].
Qed.

Lemma coalesce_spec_sublist events : coalesce_spec events `sublist_of` events.
Proof.
  induction events as [|e es IH]; [constructor|]. cbn [coalesce_spec].
  case_match; [by apply sublist_cons|by apply sublist_skip].
Qed.

Lemma coalesce_spec_filter events :
  List.filter (fun e => negb (is_move e)) (coalesce_spec events)
  = List.filter (fun e => negb (is_move e)) events.
Proof.
  induction events as [|e es IH]; [done|]. cbn [coalesce_spec].
  destruct (is_move e) eqn:E; cbn [andb].
  - case_match; cbn [List.filter]; rewrite ?E; cbn; congruence.
  - cbn [List.filter]. rewrite E. cbn. congruence.
Qed.

Lemma coalesce_spec_last events : last (coalesce_spec events) = last events.
Proof.
  induction events as [|e [|e' es] IH]; [done|simpl; by rewrite andb_false_r|].
  change (coalesce_spec (e :: e' :: es)) with
    (if is_move e && is_move e' then coalesce_spec (e' :: es) else e :: coalesce_spec (e' :: es)).
  destruct (coalesce_spec_head e' es) as (f & Hf & _).
  case_match; [done|]. destruct (coalesce_spec (e' :: es)); [done|].
  by rewrite !last_cons_cons.
Qed.

Lemma track_filter held es :
  foldl track held (List.filter (fun e => negb (is_move e)) es) = foldl track held es.
Proof. revert held. induction es as [|[] es IH]; intros; simpl; auto. Qed.

Lemma track_exact_down held events h :
  held_wf held ->
  h ∈ foldl track held events <-> down_after h (bool_decide (h ∈ held)) events = true.
Proof.
  revert held. induction events as [|e es IH]; intros held Hwf.
  - cbn. by rewrite bool_decide_eq_true.
  - cbn [foldl]. rewrite IH by auto with rd.
    unfold down_after. cbn [foldl].
    assert (bool_decide (h ∈ track held e) = default (bool_decide (h ∈ held)) (effect_on h e)) as ->;
      [|done].
    apply Bool.eq_iff_eq_true. rewrite bool_decide_eq_true. by apply track_elem.
Qed.

(** ** Properties *)

(** Coalescing the events of a request only removes pointer moves that
    another move follows directly: no two moves stay adjacent, every other
    event stays in its place and order, the last event is kept, and so the keys
    and buttons held after the request are the same as without coalescing. *)
Theorem coalesce_correct (events : list RawInput) (held : list Held) :
  let out := coalesce events in
  no_adjacent_moves out /\
  out `sublist_of` events /\
  List.filter (fun e => negb (is_move e)) out = List.filter (fun e => negb (is_move e)) events /\
  last out = last events /\
  foldl track held out = foldl track held events.
Proof.
  cbv zeta. rewrite coalesce_eq_spec.
  split; [apply coalesce_spec_no_adjacent|].
  split; [apply coalesce_spec_sublist|].
  split; [apply coalesce_spec_filter|].
  split; [apply coalesce_spec_last|].
  by rewrite <- track_filter, coalesce_spec_filter, track_filter.
Qed.

(** The set of held keys and buttons that [track] keeps is exact: after any
    sequence of events a key or button is in it if and only if its last event
    pressed it (or it was held before and had no event), and releasing every
    member of the set leaves nothing pressed. *)
Theorem track_exact (held : list Held) (events : list RawInput) :
  held_wf held ->
  let held' := foldl track held events in
  held_wf held' /\
  (forall h, h ∈ held' <-> down_after h (bool_decide (h ∈ held)) events = true) /\
  foldl track held' (map release held') = [].
Proof.
  intros Hwf. cbv zeta.
  split; [auto with rd|]. split; [intros h; by apply track_exact_down|].
  assert (forall l, foldl track l (map release l) = []) as H; [|apply H].
  clear. induction l as [|x l IH]; [done|].
  cbn [map foldl]. 
  assert (track (x :: l) (release x) = l) as ->; [|done].
  destruct x; simpl; unfold held_remove; simpl; by rewrite Z.eqb_refl.
Qed.

Lemma track_exact_witness :
  held_wf [HButton PbLeft] /\
  foldl track [HButton PbLeft] [RKey 30 false true; RButton PbLeft false; RButton PbX1 true]
    = [HButton PbX1; HKey 30 false] /\
  (HKey 30 false ∈ foldl track [HButton PbLeft]
     [RKey 30 false true; RButton PbLeft false; RButton PbX1 true]).
Proof.
  assert (held_wf [HButton PbLeft]) as H by repeat constructor.
  split; [exact H|]. split; [reflexivity|].
  apply (track_exact [HButton PbLeft]
    [RKey 30 false true; RButton PbLeft false; RButton PbX1 true] H). reflexivity.
Defined.
