(* ===== verification/LoopInput.v ===== *)
(** * The session loop's input state
      ([crates/rdpilot/src/input.rs], [InputEpoch]; the input part of
      [crates/rdpilot/src/session_loop.rs]; [LoopInputModel] of
      [crates/rdpilot-daemon/src/seams.rs])

    The IronRDP input database is third-party code: it is the interface
    [InputDatabase], whose law says what the loop relies on, that the database
    tracks presses and releases and that [release_all] leaves nothing pressed.
    [ListDatabase] is a concrete database used by the witnesses. *)
From S2P Require Import Prelude Vocab BTreeSet InputOps HumanInput.
From stdpp Require Import sorting.
Open Scope Z_scope.

(** ** Input epochs: a saturating [u64] counter *)
Definition INITIAL : Z := 0.
Definition next (e : Z) : Z := u64_saturating_add e 1.

(** ** The interface of the input database *)

(** What can be pressed. *)
Inductive Pressed :=
| PButton (b : MouseButton)
| PKey (s : Scancode)
| PUnicode (c : char).

Global Instance Pressed_eq_dec : EqDecision Pressed.
Proof. solve_decision. Defined.

(** The effect of one operation on whether [p] is pressed. *)
Definition op_effect (p : Pressed) (op : Operation) : option bool :=
  match op with
  | MouseButtonPressed b => if decide (p = PButton b) then Some true else None
  | MouseButtonReleased b => if decide (p = PButton b) then Some false else None
  | KeyPressed s => if decide (p = PKey s) then Some true else None
  | KeyReleased s => if decide (p = PKey s) then Some false else None
  | UnicodeKeyPressed c => if decide (p = PUnicode c) then Some true else None
  | UnicodeKeyReleased c => if decide (p = PUnicode c) then Some false else None
  | MouseMove _ _ | WheelRotations _ _ => None
  end.

Definition pressed_after (p : Pressed) (before : bool) (ops : list Operation) : bool :=
  foldl (fun d op => default d (op_effect p op)) before ops.

Class InputDatabase (D E : Type) := {
  db_new : D;
  db_apply : D -> list Operation -> D * list E;
  db_release_all : D -> D * list E;
  db_pressed : D -> Pressed -> bool;
}.

(** The documented behaviour the loop relies on. *)
Class InputDatabaseLaws (D E : Type) `{InputDatabase D E} : Prop := {
  db_pressed_new p : db_pressed db_new p = false;
  db_pressed_apply d ops p :
    db_pressed (fst (db_apply d ops)) p = pressed_after p (db_pressed d p) ops;
  db_pressed_release_all d p : db_pressed (fst (db_release_all d)) p = false;
}.

(** ** The loop's input state *)

Inductive InputError := StaleInput (sent current : Z).

Section LoopInput.
Context {D E : Type} `{InputDatabase D E}.

Record LoopInput := { li_database : D; li_epoch : Z }.

(** [LoopInput::new] *)
Definition li_new : LoopInput := {| li_database := db_new; li_epoch := INITIAL |}.

(** [LoopInput::change_epoch] *)
Definition change_epoch (li : LoopInput) (epoch : Z) : LoopInput * option (list E) :=
  if epoch >? li_epoch li then
    let '(d, releases) := db_release_all (li_database li) in
    ({| li_database := d; li_epoch := epoch |}, Some releases)
  else (li, None).

(** [LoopInput::apply] *)
Definition apply (li : LoopInput) (epoch : Z) (ops : list Operation)
  : LoopInput * result InputError (list E) :=
  if epoch <? li_epoch li then (li, Err (StaleInput epoch (li_epoch li)))
  else
    let '(li, releases) := change_epoch li epoch in
    let events := default [] releases in
    let '(d, evs) := db_apply (li_database li) ops in
    ({| li_database := d; li_epoch := li_epoch li |}, Ok (events ++ evs)).

(** The [LoopCommand]s that concern input.  A bridge request does not touch
    the input state. *)
Inductive LoopCommand :=
| CInput (epoch : Z) (ops : list Operation)
| CSetEpoch (epoch : Z)
| CRequest.

Inductive Reply :=
| RInput (r : result InputError unit)   (** answered at dequeue, before the write *)
| RConfirmed                            (** answered after the releases are written *)
| RCurrent                              (** an epoch that is not newer: answered at once *)
| RNone.

(** The command arm of [run_loop]: the new state, the events it hands to
    [process_fastpath_input] (in wire batches of at most 255) and the reply. *)
Definition loop_command (li : LoopInput) (c : LoopCommand)
  : LoopInput * list (list E) * Reply :=
  match c with
  | CInput epoch ops =>
      let '(li, r) := apply li epoch ops in
      match r with
      | Ok events => (li, chunks FASTPATH_EVENTS events, RInput (Ok tt))
      | Err stale => (li, [], RInput (Err stale))
      end
  | CSetEpoch epoch =>
      let '(li, releases) := change_epoch li epoch in
      match releases with
      | Some evs => (li, chunks FASTPATH_EVENTS evs, RConfirmed)
      | None => (li, [], RCurrent)
      end
  | CRequest => (li, [], RNone)
  end.

(** The loop over a queue of commands, with the accepted input batches. *)
Definition accepted_by (c : LoopCommand) (r : Reply) : list (Z * list Operation) :=
  match c, r with
  | CInput epoch ops, RInput (Ok _) => [(epoch, ops)]
  | _, _ => []
  end.

Fixpoint run_commands (li : LoopInput) (cs : list LoopCommand)
  : LoopInput * list (Z * list Operation) :=
  match cs with
  | [] => (li, [])
  | c :: cs =>
      let '(li', _, r) := loop_command li c in
      let '(li'', acc) := run_commands li' cs in
      (li'', accepted_by c r ++ acc)
  end.
End LoopInput.
Arguments LoopInput D : clear implicits.

(** ** [LoopInputModel] (seams.rs): the loop's input as session fakes keep it *)
Record LoopInputModel := { lm_epoch : Z; lm_held : list Held }.

Definition lm_default : LoopInputModel := {| lm_epoch := INITIAL; lm_held := [] |}.

(** [LoopInputModel::set_epoch] *)
Definition lm_set_epoch (m : LoopInputModel) (epoch : Z) : LoopInputModel * list RawInput :=
  if epoch <=? lm_epoch m then (m, [])
  else ({| lm_epoch := epoch; lm_held := [] |}, map release (lm_held m)).

(** [LoopInputModel::accept] *)
Definition lm_accept (m : LoopInputModel) (epoch : Z) (events : list RawInput)
  : LoopInputModel * result InputError (list RawInput) :=
  if epoch <? lm_epoch m then (m, Err (StaleInput epoch (lm_epoch m)))
  else
    let '(m, releases) := lm_set_epoch m epoch in
    ({| lm_epoch := lm_epoch m; lm_held := foldl track (lm_held m) events |}, Ok releases).

Definition lm_held_count (m : LoopInputModel) : nat := length (lm_held m).

(** ** A concrete database for witnesses *)
Definition list_track (d : list Pressed) (op : Operation) : list Pressed :=
  match op with
  | MouseButtonPressed b => PButton b :: d
  | MouseButtonReleased b => List.filter (fun p => negb (bool_decide (p = PButton b))) d
  | KeyPressed s => PKey s :: d
  | KeyReleased s => List.filter (fun p => negb (bool_decide (p = PKey s))) d
  | UnicodeKeyPressed c => PUnicode c :: d
  | UnicodeKeyReleased c => List.filter (fun p => negb (bool_decide (p = PUnicode c))) d
  | MouseMove _ _ | WheelRotations _ _ => d
  end.

Inductive ListEvent := EvOp (op : Operation) | EvRelease (p : Pressed).

Global Instance ListDatabase : InputDatabase (list Pressed) ListEvent := {
  db_new := [];
  db_apply d ops := (foldl list_track d ops, map EvOp ops);
  db_release_all d := ([], map EvRelease d);
  db_pressed d p := bool_decide (p ∈ d);
}.

Global Instance ListDatabaseLaws : InputDatabaseLaws (list Pressed) ListEvent.
Proof.
  split; [done| |done].
  intros d ops p. cbn. revert d. induction ops as [|op ops IH]; intros d; [done|].
  cbn [foldl]. rewrite IH. unfold pressed_after. cbn [foldl]. f_equal.
  assert (forall q, bool_decide (p ∈ List.filter (fun x => negb (bool_decide (x = q))) d)
    = if decide (p = q) then false else bool_decide (p ∈ d)) as Hf.
  { intros q. apply Bool.eq_iff_eq_true. rewrite bool_decide_eq_true.
    rewrite list_elem_of_In, filter_In, <- list_elem_of_In, negb_true_iff, bool_decide_eq_false.
    destruct (decide (p = q)); rewrite ?bool_decide_eq_true; intuition congruence. }
  assert (forall q, bool_decide (p ∈ q :: d)
    = if decide (p = q) then true else bool_decide (p ∈ d)) as Hc.
  { intros q. apply Bool.eq_iff_eq_true. rewrite bool_decide_eq_true, elem_of_cons.
    destruct (decide (p = q)); rewrite ?bool_decide_eq_true; intuition congruence. }
  destruct op; cbn [list_track op_effect]; rewrite ?Hf, ?Hc; repeat case_match; done.
Qed.

(** ** Lemmas on the loop *)

Lemma pressed_after_app p b l1 l2 :
  pressed_after p b (l1 ++ l2) = pressed_after p (pressed_after p b l1) l2.
Proof. apply foldl_app. Qed.

Lemma next_mono e : e <= u64_max -> e <= next e <= u64_max.
Proof. unfold next, u64_saturating_add. lia. Qed.

Lemma next_lt e : e < u64_max -> e < next e.
Proof. unfold next, u64_saturating_add. lia. Qed.

Section LoopLemmas.
Context {D E : Type} `{InputDatabaseLaws D E}.
Implicit Types (li : LoopInput D) (e : Z).

Lemma change_epoch_epoch li e : li_epoch (fst (change_epoch li e)) = Z.max (li_epoch li) e.
Proof.
  unfold change_epoch. destruct (Z.gtb_spec e (li_epoch li)).
  - destruct (db_release_all _). simpl. lia.
  - simpl. lia.
Qed.

Lemma change_epoch_pressed li e p :
  db_pressed (li_database (fst (change_epoch li e))) p =
  (if e >? li_epoch li then false else db_pressed (li_database li) p).
Proof.
  unfold change_epoch. destruct (Z.gtb_spec e (li_epoch li)); [|done].
  pose proof (db_pressed_release_all (li_database li) p) as Hp.
  destruct (db_release_all (li_database li)). done.
Qed.

Lemma apply_stale li e ops :
  e < li_epoch li -> apply li e ops = (li, Err (StaleInput e (li_epoch li))).
Proof. intros He. unfold apply. apply Z.ltb_lt in He. by rewrite He. Qed.

Lemma apply_accepted li e ops :
  li_epoch li <= e ->
  is_ok (snd (apply li e ops)) = true /\
  li_epoch (fst (apply li e ops)) = e /\
  forall p, db_pressed (li_database (fst (apply li e ops))) p =
    pressed_after p (if e >? li_epoch li then false else db_pressed (li_database li) p) ops.
Proof.
  intros He. unfold apply. apply Z.ltb_ge in He. rewrite He. apply Z.ltb_ge in He.
  pose proof (change_epoch_epoch li e) as H1.
  pose proof (fun p => change_epoch_pressed li e p) as H2.
  destruct (change_epoch li e) as [li1 rel]. simpl in *.
  pose proof (fun p => db_pressed_apply (li_database li1) ops p) as H3.
  destruct (db_apply (li_database li1) ops) as [d evs]. simpl in *.
  split; [done|]. split; [lia|]. intros p. by rewrite H3, H2.
Qed.

(** What the accepted batches [hist] say about a loop state. *)
Definition ops_of (e : Z) (hist : list (Z * list Operation)) : list Operation :=
  concat (map snd (List.filter (fun x => fst x =? e) hist)).

Definition explains (hist : list (Z * list Operation)) (li : LoopInput D) : Prop :=
  StronglySorted Z.le (map fst hist) /\
  Forall (fun x => fst x <= li_epoch li) hist /\
  forall p, db_pressed (li_database li) p = pressed_after p false (ops_of (li_epoch li) hist).

Lemma ops_of_app e h1 h2 : ops_of e (h1 ++ h2) = ops_of e h1 ++ ops_of e h2.
Proof. unfold ops_of. by rewrite List.filter_app, map_app, concat_app. Qed.

Lemma ops_of_fresh e hist : Forall (fun x : Z * list Operation => fst x < e) hist -> ops_of e hist = [].
Proof.
  unfold ops_of. induction 1 as [|x hist Hx Hall IH]; [done|]. simpl.
  destruct (Z.eqb_spec (fst x) e); [lia|done].
Qed.

Lemma sorted_snoc (l : list Z) e :
  StronglySorted Z.le l -> Forall (fun x => x <= e) l -> StronglySorted Z.le (l ++ [e]).
Proof.
  induction 1 as [|x l Hs IH Hall]; intros Hf; simpl; [repeat constructor|].
  inversion_clear Hf. constructor; [by apply IH|]. apply Forall_app. auto.
Qed.

Lemma explains_command hist li c :
  explains hist li ->
  let '(li', _, r) := loop_command li c in
  explains (hist ++ accepted_by c r) li' /\ li_epoch li <= li_epoch li'.
Proof.
  intros (Hs & Hf & Hp). unfold explains. destruct c as [e ops|e|]; cbn [loop_command].
  - destruct (Z.lt_ge_cases e (li_epoch li)) as [He|He].
    { rewrite apply_stale by done. simpl. rewrite app_nil_r. split; [done|lia]. }
    destruct (apply_accepted li e ops He) as (Hok & Hep & Hpr).
    destruct (apply li e ops) as [li' [evs|?]]; [|done]. simpl in *.
    split; [|lia]. rewrite map_app. split.
    { apply sorted_snoc; [done|]. apply Forall_map.
      eapply Forall_impl; [exact Hf|]. simpl. lia. }
    split.
    { apply Forall_app. split; [|constructor; [simpl; lia|done]].
      eapply Forall_impl; [exact Hf|]. simpl. lia. }
    intros p. rewrite Hpr, Hep, ops_of_app, pressed_after_app.
    assert (ops_of e [(e, ops)] = ops) as ->.
    { unfold ops_of. simpl. rewrite Z.eqb_refl. simpl. by rewrite app_nil_r. }
    f_equal. destruct (Z.gtb_spec e (li_epoch li)).
    + rewrite ops_of_fresh; [done|]. eapply Forall_impl; [exact Hf|]. simpl. lia.
    + replace e with (li_epoch li) by lia. apply Hp.
  - pose proof (change_epoch_epoch li e) as H1.
    pose proof (fun p => change_epoch_pressed li e p) as H2.
    destruct (change_epoch li e) as [li' rel]. simpl in *.
    assert (explains hist li' /\ li_epoch li <= li_epoch li') as [(A & B & C) D'].
    { split; [|lia]. split; [done|]. split.
      { eapply Forall_impl; [exact Hf|]. simpl. lia. }
      intros p. rewrite H2, H1. destruct (Z.gtb_spec e (li_epoch li)).
      - rewrite Z.max_r by lia. rewrite ops_of_fresh; [done|].
        eapply Forall_impl; [exact Hf|]. simpl. lia.
      - rewrite Z.max_l by lia. apply Hp. }
    destruct rel; simpl; by rewrite app_nil_r.
  - simpl. rewrite app_nil_r. split; [done|lia].
Qed.

Lemma explains_run cs hist li :
  explains hist li ->
  explains (hist ++ snd (run_commands li cs)) (fst (run_commands li cs)).
Proof.
  revert hist li. induction cs as [|c cs IH]; intros hist li He.
  { simpl. by rewrite app_nil_r. }
  cbn [run_commands]. pose proof (explains_command hist li c He) as Hc.
  destruct (loop_command li c) as [[li1 out] r]. destruct Hc as [Hc _].
  specialize (IH _ _ Hc). destruct (run_commands li1 cs) as [li2 acc].
  simpl in *. by rewrite app_assoc.
Qed.

Lemma explains_new : explains [] li_new.
Proof.
  split; [constructor|]. split; [constructor|]. intros p. simpl.
  by rewrite db_pressed_new.
Qed.
End LoopLemmas.

(** ** The simulation between the loop and the fakes' model *)

Definition held_pressed (h : Held) : Pressed :=
  match h with
  | HButton b => PButton (pointer_button b)
  | HKey code extended => PKey {| from_u8_extended := extended; from_u8_code := code |}
  end.

Global Instance held_pressed_inj : Inj (=) (=) held_pressed.
Proof. intros [[]|] [[]|]; simpl; congruence. Qed.

Lemma held_pressed_or_unicode p : (exists h, p = held_pressed h) \/ exists c, p = PUnicode c.
Proof.
  destruct p as [b|[x c]|c]; [left|left|right; eauto].
  - destruct b; [exists (HButton PbLeft)|exists (HButton PbMiddle)|exists (HButton PbRight)
      |exists (HButton PbX1)|exists (HButton PbX2)]; done.
  - by exists (HKey c x).
Qed.

Lemma pressed_after_wheel p b v us :
  pressed_after p b (map (WheelRotations v) us) = b.
Proof. induction us; [done|]. cbn. exact IHus. Qed.

Lemma raw_wheel_ops v units : exists us, raw_operation (Wheel v units) = map (WheelRotations v) us.
Proof.
  cbn [raw_operation]. generalize (wheel_rotation_operations units). intros l.
  induction l as [|op l [us IH]]; [by exists []|]. cbn [flat_map]. rewrite IH.
  destruct op as [| | |v' u| | | |]; try (by exists us). by exists (u :: us).
Qed.

Definition held_op (h : Held) (down : bool) : Operation :=
  match h, down with
  | HButton b, true => MouseButtonPressed (pointer_button b)
  | HButton b, false => MouseButtonReleased (pointer_button b)
  | HKey c x, true => KeyPressed {| from_u8_extended := x; from_u8_code := c |}
  | HKey c x, false => KeyReleased {| from_u8_extended := x; from_u8_code := c |}
  end.

Lemma op_effect_held h g d :
  op_effect (held_pressed h) (held_op g d) = if decide (h = g) then Some d else None.
Proof.
  assert (op_effect (held_pressed h) (held_op g d)
    = if decide (held_pressed h = held_pressed g) then Some d else None) as ->
    by (by destruct g, d).
  destruct (decide (h = g)) as [->|Hne]; [by rewrite decide_True|].
  rewrite decide_False; [done|]. by intros ?%(inj held_pressed).
Qed.

Lemma pressed_after_one h b g d ops :
  ops = [held_op g d] ->
  pressed_after (held_pressed h) b ops = default b (if decide (h = g) then Some d else None).
Proof. intros ->. unfold pressed_after. cbn [foldl]. by rewrite op_effect_held. Qed.

Lemma pressed_after_raw h b e :
  pressed_after (held_pressed h) b (raw_operation e) = default b (effect_on h e).
Proof.
  destruct e as [x y|pb d|v u|c x d].
  - done.
  - apply (pressed_after_one h b (HButton pb) d). by destruct d.
  - destruct (raw_wheel_ops v u) as [us ->]. by rewrite pressed_after_wheel.
  - apply (pressed_after_one h b (HKey c x) d). by destruct d.
Qed.

Lemma pressed_after_raws h b es :
  pressed_after (held_pressed h) b (raw_operations es) = down_after h b es.
Proof.
  revert b. induction es as [|e es IH]; intros b; [done|].
  unfold raw_operations in *. cbn [flat_map]. rewrite pressed_after_app, IH, pressed_after_raw. done.
Qed.

Lemma pressed_after_raws_unicode c b es : pressed_after (PUnicode c) b (raw_operations es) = b.
Proof.
  revert b. induction es as [|e es IH]; intros b; [done|].
  unfold raw_operations in *. cbn [flat_map]. rewrite pressed_after_app, IH.
  destruct e as [|? []|v u|? ? []]; try done.
  destruct (raw_wheel_ops v u) as [us ->]. apply pressed_after_wheel.
Qed.

Section Simulation.
Context {D E : Type} `{InputDatabaseLaws D E}.

(** The model holds exactly what is pressed in the loop's database. *)
Definition model_sim (li : LoopInput D) (m : LoopInputModel) : Prop :=
  li_epoch li = lm_epoch m /\ held_wf (lm_held m) /\
  (forall h, db_pressed (li_database li) (held_pressed h) = bool_decide (h ∈ lm_held m)) /\
  (forall c, db_pressed (li_database li) (PUnicode c) = false).

End Simulation.

(** ** Properties *)

(** C4: whatever commands reach the session loop, in whatever order, the
    input batches it accepts form one segment per epoch with non-decreasing
    epochs, no batch older than the current epoch is among them, and what is
    pressed at any moment is exactly what the accepted batches of the current
    epoch left pressed: every press of an older epoch is released. *)
Theorem accepted_input_is_segmented {D E} `{InputDatabaseLaws D E} (cs : list LoopCommand) :
  let li := fst (run_commands (D := D) (E := E) li_new cs) in
  let acc := snd (run_commands (D := D) (E := E) li_new cs) in
  StronglySorted Z.le (map fst acc) /\
  Forall (fun x => fst x <= li_epoch li) acc /\
  forall p, db_pressed (li_database li) p = pressed_after p false (ops_of (li_epoch li) acc).
Proof. apply (explains_run cs [] li_new explains_new). Qed.

Lemma accepted_input_is_segmented_witness :
  let cs := [CInput 0 [KeyPressed {| from_u8_extended := false; from_u8_code := 30 |}];
             CSetEpoch 1; CInput 0 [MouseButtonPressed MbLeft];
             CInput 1 [MouseButtonPressed MbRight]] in
  snd (run_commands (D := list Pressed) li_new cs)
    = [(0, [KeyPressed {| from_u8_extended := false; from_u8_code := 30 |}]);
       (1, [MouseButtonPressed MbRight])] /\
  db_pressed (li_database (fst (run_commands (D := list Pressed) li_new cs))) (PButton MbRight)
    = pressed_after (PButton MbRight) false
        (ops_of 1 (snd (run_commands (D := list Pressed) li_new cs))).
Proof.
  split; [reflexivity|].
  exact (proj2 (proj2 (accepted_input_is_segmented (D := list Pressed) (E := ListEvent)
    [CInput 0 [KeyPressed {| from_u8_extended := false; from_u8_code := 30 |}];
     CSetEpoch 1; CInput 0 [MouseButtonPressed MbLeft];
     CInput 1 [MouseButtonPressed MbRight]])) (PButton MbRight)).
Defined.

(** One command at a time.  A batch of an older epoch is refused with both
    epochs named, changes nothing and sends nothing; any other batch is
    accepted, and its events reach the wire in order in batches of 1 to 255;
    an epoch change is confirmed only when it is newer, and then nothing is
    pressed any more. *)
Theorem loop_command_spec {D E} `{InputDatabaseLaws D E} (li : LoopInput D) (e : Z) (ops : list Operation) :
  (e < li_epoch li ->
     loop_command (E := E) li (CInput e ops) = (li, [], RInput (Err (StaleInput e (li_epoch li))))) /\
  (li_epoch li <= e ->
     let '(li', wire, r) := loop_command (E := E) li (CInput e ops) in
     r = RInput (Ok tt) /\ li_epoch li' = e /\
     snd (apply li e ops) = Ok (concat wire) /\
     Forall (fun b => 1 <= length b <= 255)%nat wire) /\
  (let '(li', wire, r) := loop_command (E := E) li (CSetEpoch e) in
   if e >? li_epoch li
   then r = RConfirmed /\ li_epoch li' = e /\ (forall p, db_pressed (li_database li') p = false) /\
        concat wire = snd (db_release_all (li_database li))
   else (li', wire, r) = (li, [], RCurrent)).
Proof.
  split; [|split].
  - intros He. cbn [loop_command]. by rewrite apply_stale.
  - intros He. cbn [loop_command].
    destruct (apply_accepted (E := E) li e ops He) as (Hok & Hep & _).
    destruct (apply li e ops) as [li' [evs|?]]; [|done].
    split; [done|]. split; [done|]. split.
    + simpl. unfold chunks. rewrite chunks_fuel_concat; [done|unfold FASTPATH_EVENTS; lia|lia].
    + apply chunks_fuel_size. unfold FASTPATH_EVENTS; lia.
  - cbn [loop_command].
    pose proof (change_epoch_epoch (E := E) li e) as H1.
    pose proof (fun p => change_epoch_pressed (E := E) li e p) as H2.
    unfold change_epoch in *. destruct (Z.gtb_spec e (li_epoch li)) as [Hgt|Hle]; [|done].
    destruct (db_release_all (li_database li)) as [d evs]. simpl in *.
    split; [done|]. split; [done|]. split; [exact H2|].
    unfold chunks. rewrite chunks_fuel_concat; [done|unfold FASTPATH_EVENTS; lia|lia].
Qed.

Lemma loop_command_spec_witness :
  let li := {| li_database := [PButton MbLeft]; li_epoch := 3 |} in
  loop_command li (CInput 2 [MouseButtonReleased MbLeft]) = (li, [], RInput (Err (StaleInput 2 3))).
Proof.
  apply (loop_command_spec (D := list Pressed) {| li_database := [PButton MbLeft]; li_epoch := 3 |} 2
    [MouseButtonReleased MbLeft]). reflexivity.
Defined.

(** The input model of the daemon's session fakes is a faithful abstraction
    of the session loop: started together, both accept and refuse the same
    viewer events of the same epochs with the same error, the model's held keys
    and buttons stay exactly the pressed ones, and a newer epoch makes the
    model release each of them once. *)
Theorem loop_input_model_refines {D E} `{InputDatabaseLaws D E}
    (li : LoopInput D) (m : LoopInputModel) (e : Z) (events : list RawInput) :
  model_sim li m ->
  let li' := fst (apply (E := E) li e (raw_operations events)) in
  let r := snd (apply (E := E) li e (raw_operations events)) in
  let m' := fst (lm_accept m e events) in
  let r' := snd (lm_accept m e events) in
  model_sim li' m' /\ err_of r = err_of r' /\
  (err_of r' = None ->
     r' = Ok (if e >? lm_epoch m then map release (lm_held m) else [])) /\
  model_sim (li_new (D := D) (E := E)) lm_default.
Proof.
  intros Hsim. cbv zeta.
  assert (model_sim (li_new (D := D) (E := E)) lm_default) as Hnew.
  { split; [done|]. split; [constructor|]. split; intros; apply db_pressed_new. }
  pose proof Hsim as (H1 & H2 & H3 & H4).
  destruct (Z.lt_ge_cases e (li_epoch li)) as [He|He].
  { rewrite apply_stale by done. unfold lm_accept. rewrite <- H1.
    apply Z.ltb_lt in He. rewrite He. done. }
  destruct (apply_accepted (E := E) li e (raw_operations events) He) as (Hok & Hep & Hpr).
  destruct (apply li e (raw_operations events)) as [li' [evs|?]]; [|done]. simpl in *.
  unfold lm_accept. destruct (Z.ltb_spec e (lm_epoch m)); [lia|].
  unfold lm_set_epoch.
  assert (forall held, held_wf held -> forall h,
    down_after h (bool_decide (h ∈ held)) events = bool_decide (h ∈ foldl track held events)) as Hd.
  { intros held Hw h. apply Bool.eq_iff_eq_true. rewrite bool_decide_eq_true.
    symmetry. by apply track_exact_down. }
  destruct (Z.leb_spec e (lm_epoch m)), (Z.gtb_spec e (lm_epoch m)),
    (Z.gtb_spec e (li_epoch li)); try lia; simpl;
    (split; [|split; [done|split; [done|exact Hnew]]]);
    (split; [simpl; lia|]; split; [simpl; apply foldl_track_wf; (done || constructor)|]; split;
     [intros h; rewrite Hpr, pressed_after_raws|intros c; by rewrite Hpr, pressed_after_raws_unicode, ?H4]).
  - rewrite H3. by apply Hd.
  - apply (Hd []). constructor.
Qed.

Lemma loop_input_model_refines_witness :
  model_sim (D := list Pressed) {| li_database := [PButton MbX1]; li_epoch := 1 |}
    {| lm_epoch := 1; lm_held := [HButton PbX1] |} /\
  snd (lm_accept {| lm_epoch := 1; lm_held := [HButton PbX1] |} 2 [RKey 30 false true])
    = Ok [RButton PbX1 false] /\
  model_sim (D := list Pressed)
    (fst (apply {| li_database := [PButton MbX1]; li_epoch := 1 |} 2 (raw_operations [RKey 30 false true])))
    (fst (lm_accept {| lm_epoch := 1; lm_held := [HButton PbX1] |} 2 [RKey 30 false true])).
Proof.
  assert (model_sim (D := list Pressed) {| li_database := [PButton MbX1]; li_epoch := 1 |}
    {| lm_epoch := 1; lm_held := [HButton PbX1] |}) as H.
  { split; [done|]. split; [repeat constructor|]. split.
    - intros h. destruct h as [[]|c x]; reflexivity.
    - intros c. reflexivity. }
  split; [exact H|]. split; [reflexivity|].
  apply (loop_input_model_refines _ _ 2 [RKey 30 false true] H).
Defined.
