(* ===== verification/Json.v ===== *)
(** * JSON values ([serde_json::Value]) as the daemon reads and rewrites them

    A number is kept as its canonical text: the code only compares and copies
    numbers.  An object is a list of its members; keys are unique in a value
    that came from a parser ([json_wf]).  The code never depends on the order
    of members, and the theorems speak of lookups only. *)
From S2P Require Import Prelude.

Inductive Value :=
| JNull
| JBool (b : bool)
| JNumber (n : text)
| JString (s : text)
| JArray (items : list Value)
| JObject (members : list (text * Value)).

Global Instance Value_eq_dec : EqDecision Value.
Proof.
  refine (fix go (v w : Value) : Decision (v = w) :=
    let Hgo : EqDecision Value := go in
    match v, w with
    | JNull, JNull => left _
    | JBool b, JBool c => cast_if (decide (b = c))
    | JNumber n, JNumber m => cast_if (decide (n = m))
    | JString s, JString t => cast_if (decide (s = t))
    | JArray l, JArray k => cast_if (decide (l = k))
    | JObject l, JObject k => cast_if (decide (l = k))
    | _, _ => right _
    end); clear Hgo go; abstract congruence.
Defined.

(** ** Accessors ([Value::as_str], [as_object], [as_bool], [get], ...) *)
Definition as_str (v : Value) : option text :=
  match v with JString s => Some s | _ => None end.
Definition as_bool (v : Value) : option bool :=
  match v with JBool b => Some b | _ => None end.
Definition as_object (v : Value) : option (list (text * Value)) :=
  match v with JObject ms => Some ms | _ => None end.
Definition as_array (v : Value) : option (list Value) :=
  match v with JArray l => Some l | _ => None end.
Definition is_null (v : Value) : bool := match v with JNull => true | _ => false end.
Definition is_string (v : Value) : bool := match v with JString _ => true | _ => false end.
Definition is_number (v : Value) : bool := match v with JNumber _ => true | _ => false end.

(** [Map::get] *)
Fixpoint obj_get (k : text) (ms : list (text * Value)) : option Value :=
  match ms with
  | [] => None
  | (k', v) :: ms' => if decide (k = k') then Some v else obj_get k ms'
  end.

(** [Map::contains_key] *)
Definition contains_key (k : text) (ms : list (text * Value)) : bool :=
  bool_decide (is_Some (obj_get k ms)).

(** [Value::get] with a string index. *)
Definition get (k : text) (v : Value) : option Value := and_then (as_object v) (obj_get k).

(** [Map::remove]: the removed value and the other members. *)
Fixpoint obj_remove (k : text) (ms : list (text * Value)) : option Value * list (text * Value) :=
  match ms with
  | [] => (None, [])
  | (k', v) :: ms' =>
      if decide (k = k') then (Some v, ms')
      else let '(r, ms'') := obj_remove k ms' in (r, (k', v) :: ms'')
  end.

(** [Map::insert] *)
Fixpoint obj_insert (k : text) (v : Value) (ms : list (text * Value)) : list (text * Value) :=
  match ms with
  | [] => [(k, v)]
  | (k', v') :: ms' =>
      if decide (k = k') then (k', v) :: ms' else (k', v') :: obj_insert k v ms'
  end.

(** Change the value under [k], when there is one ([Map::get_mut]). *)
Fixpoint obj_update (k : text) (f : Value -> Value) (ms : list (text * Value)) : list (text * Value) :=
  match ms with
  | [] => []
  | (k', v) :: ms' =>
      if decide (k = k') then (k', f v) :: ms' else (k', v) :: obj_update k f ms'
  end.

Fixpoint json_wf (v : Value) : Prop :=
  match v with
  | JArray l => (fix go l := match l with [] => True | x :: l => json_wf x /\ go l end) l
  | JObject ms =>
      NoDup ms.*1 /\
      (fix go ms := match ms with [] => True | (_, x) :: ms => json_wf x /\ go ms end) ms
  | _ => True
  end.

(** ** Lemmas *)

Lemma obj_get_insert k k' v ms :
  obj_get k' (obj_insert k v ms) = if decide (k' = k) then Some v else obj_get k' ms.
Proof.
  induction ms as [|[k1 v1] ms IH]; cbn [obj_insert obj_get]; [done|].
  destruct (decide (k = k1)) as [->|]; cbn [obj_get].
  - by destruct (decide (k' = k1)).
  - rewrite IH. destruct (decide (k' = k1)), (decide (k' = k)); congruence.
Qed.

Lemma obj_get_update k k' f ms :
  obj_get k' (obj_update k f ms) = if decide (k' = k) then f <$> obj_get k ms else obj_get k' ms.
Proof.
  induction ms as [|[k1 v1] ms IH]; cbn [obj_update obj_get]; [by destruct (decide _)|].
  destruct (decide (k = k1)) as [->|]; cbn [obj_get].
  - by destruct (decide (k' = k1)).
  - rewrite IH. destruct (decide (k' = k1)), (decide (k' = k)); congruence.
Qed.

Lemma obj_remove_fst k ms : fst (obj_remove k ms) = obj_get k ms.
Proof.
  induction ms as [|[k1 v1] ms IH]; cbn [obj_remove obj_get]; [done|].
  destruct (decide (k = k1)); [done|]. by destruct (obj_remove k ms).
Qed.

Lemma obj_get_not_in k ms : obj_get k ms = None <-> k ∉ ms.*1.
Proof.
  induction ms as [|[k1 v1] ms IH]; cbn [obj_get]; [set_solver|].
  destruct (decide (k = k1)) as [->|]; rewrite fmap_cons; set_solver.
Qed.

Lemma obj_get_remove k k' ms :
  NoDup ms.*1 ->
  obj_get k' (snd (obj_remove k ms)) = if decide (k' = k) then None else obj_get k' ms.
Proof.
  induction ms as [|[k1 v1] ms IH]; cbn [obj_remove obj_get]; intros Hnd; [by destruct (decide _)|].
  rewrite fmap_cons in Hnd. apply NoDup_cons in Hnd as [Hni Hnd]. cbn [fst] in Hni.
  destruct (decide (k = k1)) as [->|]; cbn [snd].
  - destruct (decide (k' = k1)) as [->|]; [|done]. by apply obj_get_not_in.
  - specialize (IH Hnd). destruct (obj_remove k ms) as [r ms']. cbn [snd obj_get] in *.
    rewrite IH. destruct (decide (k' = k1)), (decide (k' = k)); congruence.
Qed.
