(* ===== verification/Events.v ===== *)
(** * The per-session event log ([crates/rdpilot-daemon/src/events.rs])

    [SessionEvents] is the log of one session incarnation: a ring of the
    newest 200 events, an optional sink (the recorder, code behind the trait
    [EventSink]) and the watched sequence number.  Instants and wall-clock
    times are integers in nanoseconds; every operation that reads a clock
    takes the reading ([now]) as an argument, and the frame sequence number
    that the frame source answers ([frame_status]).  [CliCall] and
    [CuaCallTracker] pair the starts and ends of calls. *)
From S2P Require Import Prelude Json Calendar.
Open Scope Z_scope.

(** ** Data *)

Definition RING_CAPACITY : nat := 200.
Definition SCHEMA : Z := 1.

(** The controllers and reasons of control events (control.rs). *)
Inductive ControllerRef := Agent | Human (address : text).
Inductive EndReason := HeartbeatLost | IdleTimeout | ViewerStopped | EndSessionEnded | DaemonStopped.

Inductive RecordingTrigger := TrConfig | TrHost | TrConnectFlag | TrCli | TrViewer.
Inductive EventSource := SrcCua | SrcCli | SrcViewer | SrcDaemon.
Inductive StopReason := Requested | StopSessionClosed | StopDaemonStopped | StopWriteError | StopEncoderError.
Inductive CloseReason := Disconnect | IdleReap | ConnectAborted.
Inductive SegmentCloseReason := SegDuration | SegResize | SegStop | SegSizeCap | SegError.
Inductive VideoStopReason := VidSizeCap | VidEncoderError | VidWriteError.
Inductive CallOutcome := OutOk | OutError | OutNoReply.

Inductive EventKind :=
| CallStarted (call : Z) (name : text)
| CallFinished (call : Z) (name : text) (outcome : CallOutcome) (duration_ms : Z)
| CuaAttached (attachment : Z)
| CuaDetached (attachment : Z) (reason : text)
| EvSessionEnded
| RecordingStarted (trigger : RecordingTrigger)
| RecordingStopped (reason : StopReason)
| SessionClosed (reason : CloseReason)
| DesktopResized (width height : Z)
| SegmentStarted (segment video_offset_ms width height : Z)
| SegmentClosed (segment frames bytes duration_ms : Z) (reason : SegmentCloseReason)
| FramesDropped (from_offset_ms to_offset_ms count : Z)
| EventsLost (count : Z)
| VideoStopped (reason : VideoStopReason)
| Annotation (t : text)
| ControlTaken (by_ : ControllerRef)
| ControlTakenOver (from by_ : ControllerRef)
| ControlReleased (from : ControllerRef)
| ControlEnded (from : ControllerRef) (reason : EndReason)
| Unknown.

Global Instance ControllerRef_eq_dec : EqDecision ControllerRef.
Proof. solve_decision. Defined.
Global Instance EndReason_eq_dec : EqDecision EndReason.
Proof. solve_decision. Defined.

(** [StopReason::as_str] *)
Definition stop_reason_str (r : StopReason) : text :=
  match r with
  | Requested => txt "requested"
  | StopSessionClosed => txt "session_closed"
  | StopDaemonStopped => txt "daemon_stopped"
  | StopWriteError => txt "write_error"
  | StopEncoderError => txt "encoder_error"
  end.

(** [RecordingTrigger::as_str] (rdpilot-vocab) *)
Definition trigger_str (t : RecordingTrigger) : text :=
  match t with
  | TrConfig => txt "config"
  | TrHost => txt "host"
  | TrConnectFlag => txt "connect_flag"
  | TrCli => txt "cli"
  | TrViewer => txt "viewer"
  end.

Record LogHeader := {
  lh_schema : Z; lh_log_id : text; lh_session : text; lh_incarnation : Z; lh_started_at : text }.

Record SessionEvent := {
  se_seq : Z; se_at : text; se_offset_ms : Z; se_frame_seq : Z;
  se_source : EventSource; se_kind : EventKind }.

Record SessionClock := { ck_start : Z; ck_start_wall : Z }.

(** [SessionClock::offset_ms]: a duration of [u64::MAX] milliseconds at most. *)
Definition offset_ms (c : SessionClock) (at_ : Z) : Z :=
  Z.min u64_max (saturating_sub at_ (ck_start c) / 1000000).
(** [SessionClock::wall] *)
Definition wall (c : SessionClock) (at_ : Z) : Z := ck_start_wall c + saturating_sub at_ (ck_start c).

(** The trait [EventSink]: the sink's own state, how it takes an event (and
    whether it could) and how it takes the final event. *)
Class EventSink (S : Type) := {
  on_event : S -> LogHeader -> SessionEvent -> S * bool;
  on_detach : S -> LogHeader -> SessionEvent -> S;
}.

Section SessionEvents.
Context {S : Type} `{EventSink S}.

Record Ring := { r_events : list SessionEvent; r_latest : Z; r_sink : option S }.

Record SessionEvents := {
  ev_header : LogHeader;
  ev_clock : SessionClock;
  ev_frame : bool;            (** whether there is a frame source *)
  ev_ring : Ring;
  ev_watch : Z;               (** the value of the [latest] watch channel *)
  ev_next_call : Z }.

(** [SessionEvents::new]; the log id is random. *)
Definition ev_new (log_id session : text) (incarnation : Z) (frame : bool) (now now_wall : Z)
  : SessionEvents :=
  let clock := {| ck_start := now; ck_start_wall := now_wall |} in
  {| ev_header := {| lh_schema := SCHEMA; lh_log_id := log_id; lh_session := session;
                     lh_incarnation := incarnation;
                     lh_started_at := iso8601_millis_from_system_time now_wall |};
     ev_clock := clock; ev_frame := frame;
     ev_ring := {| r_events := []; r_latest := 0; r_sink := None |};
     ev_watch := 0; ev_next_call := 1 |}.

Definition set_ring (ev : SessionEvents) (r : Ring) : SessionEvents :=
  {| ev_header := ev_header ev; ev_clock := ev_clock ev; ev_frame := ev_frame ev;
     ev_ring := r; ev_watch := ev_watch ev; ev_next_call := ev_next_call ev |}.

(** [SessionEvents::next_call]: a wrapping [fetch_add]. *)
Definition next_call (ev : SessionEvents) : SessionEvents * Z :=
  ({| ev_header := ev_header ev; ev_clock := ev_clock ev; ev_frame := ev_frame ev;
      ev_ring := ev_ring ev; ev_watch := ev_watch ev;
      ev_next_call := (ev_next_call ev + 1) mod 2 ^ 64 |}, ev_next_call ev).

(** [SessionEvents::frame_seq] *)
Definition frame_seq (ev : SessionEvents) (frame_status : Z) : Z :=
  if ev_frame ev then frame_status else 0.

(** [SessionEvents::stamp] *)
Definition stamp (ev : SessionEvents) (now seq fseq : Z) (source : EventSource) (kind : EventKind)
  : SessionEvent :=
  {| se_seq := seq; se_at := iso8601_millis_from_system_time (wall (ev_clock ev) now);
     se_offset_ms := offset_ms (ev_clock ev) now; se_frame_seq := fseq;
     se_source := source; se_kind := kind |}.

(** [SessionEvents::record] *)
Definition record (ev : SessionEvents) (now frame_status : Z) (source : EventSource) (kind : EventKind)
  : SessionEvents * Z :=
  let fseq := frame_seq ev frame_status in
  let ring := ev_ring ev in
  let latest := r_latest ring + 1 in
  let event := stamp ev now latest fseq source kind in
  let events := if (length (r_events ring) =? RING_CAPACITY)%nat
                then tl (r_events ring) else r_events ring in
  let sink := match r_sink ring with
              | Some s => Some (fst (on_event s (ev_header ev) event))
              | None => None
              end in
  ({| ev_header := ev_header ev; ev_clock := ev_clock ev; ev_frame := ev_frame ev;
      ev_ring := {| r_events := events ++ [event]; r_latest := latest; r_sink := sink |};
      ev_watch := latest; ev_next_call := ev_next_call ev |}, latest).

(** [SessionEvents::attach_sink] *)
Definition attach_sink (ev : SessionEvents) (now frame_status : Z) (sink : S)
    (source : EventSource) (kind : EventKind) : SessionEvents * result S SessionEvent :=
  let fseq := frame_seq ev frame_status in
  let ring := ev_ring ev in
  match r_sink ring with
  | Some _ => (ev, Err sink)
  | None =>
      let first := stamp ev now 0 fseq source kind in
      let sink := fst (on_event sink (ev_header ev) first) in
      (set_ring ev {| r_events := r_events ring; r_latest := r_latest ring; r_sink := Some sink |},
       Ok first)
  end.

(** [SessionEvents::detach_sink]; the detached sink's last state is the third
    component. *)
Definition detach_sink (ev : SessionEvents) (now frame_status : Z)
    (source : EventSource) (kind : EventKind)
  : SessionEvents * option SessionEvent * option S :=
  let fseq := frame_seq ev frame_status in
  let ring := ev_ring ev in
  match r_sink ring with
  | None => (ev, None, None)
  | Some sink =>
      let last := stamp ev now 0 fseq source kind in
      let sink := on_detach sink (ev_header ev) last in
      (set_ring ev {| r_events := r_events ring; r_latest := r_latest ring; r_sink := None |},
       Some last, Some sink)
  end.

(** [SessionEvents::record_detached] *)
Definition record_detached (ev : SessionEvents) (now frame_status : Z)
    (source : EventSource) (kind : EventKind) : SessionEvents * bool :=
  let fseq := frame_seq ev frame_status in
  let ring := ev_ring ev in
  match r_sink ring with
  | None => (ev, false)
  | Some sink =>
      let event := stamp ev now 0 fseq source kind in
      let '(sink, ok) := on_event sink (ev_header ev) event in
      (set_ring ev {| r_events := r_events ring; r_latest := r_latest ring; r_sink := Some sink |}, ok)
  end.

(** [SessionEvents::call_started] *)
Definition call_started (ev : SessionEvents) (now frame_status : Z) (source : EventSource) (name : text)
  : SessionEvents * Z :=
  let '(ev, call) := next_call ev in
  let '(ev, _) := record ev now frame_status source (CallStarted call name) in
  (ev, call).

(** [SessionEvents::call_finished] *)
Definition call_finished (ev : SessionEvents) (now frame_status : Z) (source : EventSource)
    (call : Z) (name : text) (outcome : CallOutcome) (started : Z) : SessionEvents :=
  let duration_ms := Z.min u64_max (saturating_sub now started / 1000000) in
  fst (record ev now frame_status source (CallFinished call name outcome duration_ms)).

Record EventsPage := { pg_header : LogHeader; pg_oldest : Z; pg_latest : Z; pg_events : list SessionEvent }.

(** [SessionEvents::after] *)
Definition after (ev : SessionEvents) (after_ : Z) : EventsPage :=
  let ring := ev_ring ev in
  {| pg_header := ev_header ev;
     pg_oldest := match head (r_events ring) with Some e => se_seq e | None => r_latest ring + 1 end;
     pg_latest := r_latest ring;
     pg_events := List.filter (fun e => after_ <? se_seq e) (r_events ring) |}.

(** ** [CliCall] *)
Record CliCall := { cc_call : Z; cc_name : text; cc_started : Z; cc_finished : bool }.

Definition cli_start (ev : SessionEvents) (now frame_status : Z) (name : text)
  : SessionEvents * CliCall :=
  let '(ev, call) := call_started ev now frame_status SrcCli name in
  (ev, {| cc_call := call; cc_name := name; cc_started := now; cc_finished := false |}).

Definition cli_end (ev : SessionEvents) (now frame_status : Z) (c : CliCall) (outcome : CallOutcome)
  : SessionEvents * CliCall :=
  if cc_finished c then (ev, c)
  else
    (call_finished ev now frame_status SrcCli (cc_call c) (cc_name c) outcome (cc_started c),
     {| cc_call := cc_call c; cc_name := cc_name c; cc_started := cc_started c; cc_finished := true |}).

(** [Drop for CliCall] *)
Definition cli_drop (ev : SessionEvents) (now frame_status : Z) (c : CliCall) : SessionEvents :=
  fst (cli_end ev now frame_status c OutNoReply).

(** [CliCall::finish] takes the call by value, so its drop follows. *)
Definition cli_finish (ev : SessionEvents) (now frame_status : Z) (c : CliCall) (ok : bool)
  : SessionEvents :=
  let '(ev, c) := cli_end ev now frame_status c (if ok then OutOk else OutError) in
  cli_drop ev now frame_status c.

(** ** [CuaCallTracker] *)
Definition CUA_PENDING_CAP : nat := 64.
Definition INVALID_NAME : text := txt "(invalid name)".

Definition valid_tool_name (name : text) : bool :=
  (1 <=? byte_len name)%N && (byte_len name <=? 64)%N
  && forallb (fun b => is_ascii_alphanumeric b || (b =? 95)%N || (b =? 46)%N || (b =? 45)%N) name.

Record PendingCall := { pc_id : Value; pc_call : Z; pc_name : text; pc_started : Z }.

Record CuaCallTracker := { tr_events : SessionEvents; tr_pending : list PendingCall }.

Definition tracker_new (ev : SessionEvents) : CuaCallTracker := {| tr_events := ev; tr_pending := [] |}.

(** [CuaCallTracker::finish] *)
Definition tracker_finish (ev : SessionEvents) (now fs : Z) (p : PendingCall) (outcome : CallOutcome)
  : SessionEvents :=
  call_finished ev now fs SrcCua (pc_call p) (pc_name p) outcome (pc_started p).

(** [VecDeque::iter().position] and [VecDeque::remove] of the call with [id]. *)
Fixpoint take_pending (id : Value) (l : list PendingCall) : option (PendingCall * list PendingCall) :=
  match l with
  | [] => None
  | p :: l' =>
      if decide (pc_id p = id) then Some (p, l')
      else match take_pending id l' with
           | Some (q, r) => Some (q, p :: r)
           | None => None
           end
  end.

Definition request_name (obj : list (text * Value)) : text :=
  match and_then (and_then (obj_get (txt "params") obj) (get (txt "name"))) as_str with
  | Some n => if valid_tool_name n then n else INVALID_NAME
  | None => INVALID_NAME
  end.

(** [CuaCallTracker::observe_request] *)
Definition observe_request (t : CuaCallTracker) (now fs : Z) (message : Value) : CuaCallTracker :=
  match as_object message with
  | None => t
  | Some obj =>
      if bool_decide (and_then (obj_get (txt "method") obj) as_str = Some (txt "tools/call")) then
        match obj_get (txt "id") obj with
        | Some id =>
            if is_string id || is_number id then
              let name := request_name obj in
              let '(ev, pending) :=
                match take_pending id (tr_pending t) with
                | Some (old, rest) => (tracker_finish (tr_events t) now fs old OutNoReply, rest)
                | None => (tr_events t, tr_pending t)
                end in
              let '(ev, pending) :=
                if (CUA_PENDING_CAP <=? length pending)%nat then
                  match pending with
                  | old :: rest => (tracker_finish ev now fs old OutNoReply, rest)
                  | [] => (ev, pending)
                  end
                else (ev, pending) in
              let '(ev, call) := call_started ev now fs SrcCua name in
              {| tr_events := ev;
                 tr_pending := pending ++ [{| pc_id := id; pc_call := call; pc_name := name;
                                              pc_started := now |}] |}
            else t
        | None => t
        end
      else t
  end.

(** [CuaCallTracker::observe_response] *)
Definition observe_response (t : CuaCallTracker) (now fs : Z) (message : Value) : CuaCallTracker :=
  match as_object message with
  | None => t
  | Some obj =>
      if contains_key (txt "method") obj then t
      else
        match obj_get (txt "id") obj with
        | None => t
        | Some id =>
            let is_error := contains_key (txt "error") obj in
            match (match obj_get (txt "result") obj with
                   | Some r => Some r | None => obj_get (txt "error") obj end) with
            | None => t
            | Some res =>
                match take_pending id (tr_pending t) with
                | None => t
                | Some (p, rest) =>
                    let outcome :=
                      if is_error || bool_decide (and_then (get (txt "isError") res) as_bool = Some true)
                      then OutError else OutOk in
                    {| tr_events := tracker_finish (tr_events t) now fs p outcome;
                       tr_pending := rest |}
                end
            end
        end
  end.

(** [CuaCallTracker::close], also run by [Drop] *)
Definition tracker_close (t : CuaCallTracker) (now fs : Z) : CuaCallTracker :=
  {| tr_events := foldl (fun ev p => tracker_finish ev now fs p OutNoReply) (tr_events t) (tr_pending t);
     tr_pending := [] |}.
End SessionEvents.
Arguments Ring S : clear implicits.
Arguments SessionEvents S : clear implicits.
Arguments CuaCallTracker S : clear implicits.

(** ** Runs of a log *)

Section Runs.
Context {S : Type} `{EventSink S}.

Inductive LogOp :=
| LRecord (now fs : Z) (source : EventSource) (kind : EventKind)
| LAttach (now fs : Z) (sink : S) (source : EventSource) (kind : EventKind)
| LDetach (now fs : Z) (source : EventSource) (kind : EventKind)
| LDetached (now fs : Z) (source : EventSource) (kind : EventKind)
| LNextCall.

Definition log_step (ev : SessionEvents S) (op : LogOp) : SessionEvents S :=
  match op with
  | LRecord now fs src k => fst (record ev now fs src k)
  | LAttach now fs s src k => fst (attach_sink ev now fs s src k)
  | LDetach now fs src k => fst (fst (detach_sink ev now fs src k))
  | LDetached now fs src k => fst (record_detached ev now fs src k)
  | LNextCall => fst (next_call ev)
  end.

(** The events a step puts into the ring. *)
Definition recorded (ev : SessionEvents S) (op : LogOp) : list SessionEvent :=
  match op with
  | LRecord now fs src k =>
      [stamp ev now (r_latest (ev_ring ev) + 1) (frame_seq ev fs) src k]
  | _ => []
  end.

Fixpoint log_run (ev : SessionEvents S) (ops : list LogOp) : SessionEvents S * list SessionEvent :=
  match ops with
  | [] => (ev, [])
  | op :: ops =>
      let '(ev', hist) := log_run (log_step ev op) ops in
      (ev', recorded ev op ++ hist)
  end.

(** The log after the events [hist] were recorded. *)
Definition log_inv (hist : list SessionEvent) (ev : SessionEvents S) : Prop :=
  map se_seq hist = map Z.of_nat (seq 1 (length hist)) /\
  r_events (ev_ring ev) = drop (length hist - RING_CAPACITY) hist /\
  r_latest (ev_ring ev) = Z.of_nat (length hist) /\
  ev_watch ev = r_latest (ev_ring ev).

Lemma log_inv_step hist ev op :
  log_inv hist ev -> log_inv (hist ++ recorded ev op) (log_step ev op).
Proof.
  intros (H1 & H2 & H3 & H4). destruct op as [now fs src k|? ? s ? ?|?|?|]; cbn [recorded log_step].
  2: { rewrite app_nil_r. unfold attach_sink. by destruct (r_sink (ev_ring ev)). }
  2: { rewrite app_nil_r. unfold detach_sink. by destruct (r_sink (ev_ring ev)). }
  2: { rewrite app_nil_r. unfold record_detached. destruct (r_sink (ev_ring ev)); [|done].
       by destruct (on_event _ _ _). }
  2: { by rewrite app_nil_r. }
  unfold log_inv, record. cbn. rewrite H3. split; [|split; [|split; [|done]]].
  - rewrite map_app, H1, length_app, seq_app, map_app. cbn. do 2 f_equal. lia.
  - rewrite H2, length_app. cbn [length].
    rewrite length_drop. unfold RING_CAPACITY in *.
    destruct (Nat.eqb_spec (length hist - (length hist - 200)) 200) as [He|Hne].
    + assert (200 <= length hist)%nat by lia.
      replace (length hist + 1 - 200)%nat with (1 + (length hist - 200))%nat by lia.
      rewrite drop_app_le by lia. f_equal.
      rewrite Nat.add_comm, <- drop_drop. by destruct (drop (length hist - 200) hist).
    + replace (length hist - 200)%nat with 0%nat by lia.
      replace (length hist + 1 - 200)%nat with 0%nat by lia. done.
  - rewrite length_app. cbn. lia.
Qed.

Lemma log_inv_run hist ev ops :
  log_inv hist ev -> log_inv (hist ++ snd (log_run ev ops)) (fst (log_run ev ops)).
Proof.
  revert hist ev. induction ops as [|op ops IH]; intros hist ev Hi; [by rewrite app_nil_r|].
  cbn [log_run]. specialize (IH _ _ (log_inv_step _ _ op Hi)).
  destruct (log_run (log_step ev op) ops) as [ev' h']. cbn [fst snd] in *.
  by rewrite app_assoc.
Qed.

Lemma log_inv_new log_id session inc frame now wall :
  log_inv [] (ev_new log_id session inc frame now wall).
Proof. done. Qed.

Lemma hist_seq hist i e :
  map se_seq hist = map Z.of_nat (seq 1 (length hist)) -> hist !! i = Some e ->
  se_seq e = Z.of_nat i + 1.
Proof.
  intros Hs Hi. assert (map se_seq hist !! i = Some (se_seq e)) as Hl
    by (by rewrite list_lookup_fmap, Hi).
  rewrite Hs, list_lookup_fmap in Hl.
  rewrite lookup_seq_lt in Hl by (by eapply lookup_lt_Some). simpl in Hl.
  injection Hl. lia.
Qed.

(** Filtering by sequence number is dropping a prefix. *)
Lemma filter_seq_drop (l : list SessionEvent) (lo a : Z) :
  (forall i e, l !! i = Some e -> se_seq e = lo + Z.of_nat i) ->
  List.filter (fun e => a <? se_seq e) l = drop (Z.to_nat (a + 1 - lo)) l.
Proof.
  revert lo. induction l as [|e l IH]; intros lo Hl; [by rewrite drop_nil|].
  cbn [List.filter]. rewrite (Hl 0%nat e) by done. rewrite Z.add_0_r.
  assert (forall i x, l !! i = Some x -> se_seq x = lo + 1 + Z.of_nat i) as Hl'.
  { intros i x Hx. rewrite (Hl (Datatypes.S i) x Hx). lia. }
  destruct (Z.ltb_spec a lo).
  - replace (Z.to_nat (a + 1 - lo)) with 0%nat by lia.
    rewrite (IH (lo + 1) Hl'). replace (Z.to_nat (a + 1 - (lo + 1))) with 0%nat by lia. done.
  - rewrite (IH (lo + 1) Hl'). replace (Z.to_nat (a + 1 - lo)) with
      (Datatypes.S (Z.to_nat (a + 1 - (lo + 1)))) by lia. done.
Qed.
End Runs.
Arguments LogOp S : clear implicits.

(** ** The call tracker over a recording sink *)

(** A sink that keeps every event (the shape of the recorder's queue when it
    has room). *)
Global Instance ListSink : EventSink (list SessionEvent) := {
  on_event s _ e := (s ++ [e], true);
  on_detach s _ e := s ++ [e];
}.

Definition sunk (ev : SessionEvents (list SessionEvent)) : list SessionEvent :=
  default [] (r_sink (ev_ring ev)).
Definition started_calls (l : list SessionEvent) : list Z :=
  flat_map (fun e => match se_kind e with CallStarted c _ => [c] | _ => [] end) l.
Definition finished_calls (l : list SessionEvent) : list Z :=
  flat_map (fun e => match se_kind e with CallFinished c _ _ _ => [c] | _ => [] end) l.

Inductive TrackerOp :=
| TRequest (now fs : Z) (message : Value)
| TResponse (now fs : Z) (message : Value)
| TClose (now fs : Z).

Definition tracker_step (t : CuaCallTracker (list SessionEvent)) (op : TrackerOp)
  : CuaCallTracker (list SessionEvent) :=
  match op with
  | TRequest now fs m => observe_request t now fs m
  | TResponse now fs m => observe_response t now fs m
  | TClose now fs => tracker_close t now fs
  end.

Section TrackerInv.
(** What the tracker keeps true of its log, given the first call number. *)
Definition log_calls (c0 : Z) (ev : SessionEvents (list SessionEvent)) (pending : list Z) : Prop :=
  is_Some (r_sink (ev_ring ev)) /\
  (exists n, started_calls (sunk ev) = map (fun i => (c0 + Z.of_nat i) mod 2 ^ 64) (seq 0 n) /\
     ev_next_call ev = (c0 + Z.of_nat n) mod 2 ^ 64) /\
  Permutation (started_calls (sunk ev)) (finished_calls (sunk ev) ++ pending).

Definition tracker_inv (c0 : Z) (t : CuaCallTracker (list SessionEvent)) : Prop :=
  log_calls c0 (tr_events t) (map pc_call (tr_pending t)) /\
  (length (tr_pending t) <= CUA_PENDING_CAP)%nat /\
  NoDup (map pc_id (tr_pending t)).

Lemma record_sunk (ev : SessionEvents (list SessionEvent)) now fs src k :
  is_Some (r_sink (ev_ring ev)) ->
  is_Some (r_sink (ev_ring (fst (record ev now fs src k)))) /\
  ev_next_call (fst (record ev now fs src k)) = ev_next_call ev /\
  exists e, sunk (fst (record ev now fs src k)) = sunk ev ++ [e] /\ se_kind e = k.
Proof.
  intros [s Hs]. unfold record, sunk. cbn. rewrite Hs. cbn.
  split; [done|]. split; [done|]. eexists. by split.
Qed.

Lemma finish_calls c0 ev p pending now fs outcome :
  log_calls c0 ev (pc_call p :: pending) ->
  log_calls c0 (tracker_finish ev now fs p outcome) pending.
Proof.
  intros (Hs & (n & H1 & H2) & Hp). unfold tracker_finish, call_finished.
  match goal with |- log_calls _ (fst (record _ _ _ ?src ?k)) _ =>
    destruct (record_sunk ev now fs src k Hs) as (A & B & e & C & D) end.
  split; [done|]. unfold log_calls, started_calls, finished_calls in *.
  rewrite B, C, !flat_map_app. cbn [flat_map]. rewrite D. rewrite !app_nil_r.
  split; [eauto|]. rewrite Hp, <- app_assoc. done.
Qed.

Lemma start_calls c0 ev pending now fs src name :
  log_calls c0 ev pending ->
  log_calls c0 (fst (call_started ev now fs src name))
    (pending ++ [snd (call_started ev now fs src name)]).
Proof.
  intros (Hs & (n & H1 & H2) & Hp). unfold call_started.
  destruct (next_call ev) as [ev1 call] eqn:En. injection En as <- <-.
  match goal with |- context [record ?ev1 ?now ?fs ?src ?k] =>
    destruct (record_sunk ev1 now fs src k Hs) as (A & B & e & C & D);
    destruct (record ev1 now fs src k) as [ev2 s2] end.
  cbn [fst snd] in *. split; [done|]. unfold started_calls, finished_calls in *.
  rewrite B, C, !flat_map_app. cbn [flat_map]. rewrite D. rewrite !app_nil_r. cbn [ev_next_call].
  change (sunk _) with (sunk ev). split.
  - exists (Datatypes.S n). rewrite H1, H2, seq_S, map_app. split; [done|].
    rewrite Z.add_mod_idemp_l by lia. f_equal. lia.
  - by rewrite Hp, app_assoc.
Qed.

Lemma take_pending_spec id l p rest :
  take_pending id l = Some (p, rest) ->
  pc_id p = id /\ Permutation l (p :: rest).
Proof.
  revert p rest. induction l as [|q l IH]; intros p rest; cbn [take_pending]; [done|].
  destruct (decide (pc_id q = id)) as [<-|].
  - intros [= <- <-]. done.
  - destruct (take_pending id l) as [[x r]|]; [|done]. intros [= <- <-].
    destruct (IH _ _ eq_refl) as (A & B). split; [done|]. rewrite B. apply Permutation_swap.
Qed.

Lemma take_pending_None id l : take_pending id l = None -> id ∉ map pc_id l.
Proof.
  induction l as [|q l IH]; cbn [take_pending map]; [set_solver|].
  destruct (decide (pc_id q = id)); [done|].
  destruct (take_pending id l) as [[? ?]|]; [done|]. intros _. set_solver.
Qed.

Lemma log_calls_perm c0 ev l1 l2 : Permutation l1 l2 -> log_calls c0 ev l1 -> log_calls c0 ev l2.
Proof. intros Hp (A & B & C). split; [done|]. split; [done|]. by rewrite C, Hp. Qed.

(** Taking one pending call out and finishing it keeps the invariant, and its
    id is free afterwards. *)
Lemma take_finish_inv c0 t id p rest now fs outcome :
  tracker_inv c0 t -> take_pending id (tr_pending t) = Some (p, rest) ->
  tracker_inv c0 {| tr_events := tracker_finish (tr_events t) now fs p outcome; tr_pending := rest |} /\
  id ∉ map pc_id rest.
Proof.
  intros (Hc & Hl & Hn) Ht. apply take_pending_spec in Ht as (Hid & Hp).
  assert (NoDup (map pc_id (p :: rest))) as Hnd by (by rewrite <- Hp).
  apply NoDup_cons in Hnd as [Hni Hnd]. rewrite Hid in Hni.
  split; [|done]. split; cbn [tr_events tr_pending].
  - apply finish_calls. eapply log_calls_perm; [|exact Hc].
    rewrite Hp. done.
  - split; [|done]. apply Permutation_length in Hp. simpl in Hp. lia.
Qed.
End TrackerInv.

Section TrackerSteps.
Context (c0 : Z).

(** Evicting the oldest call of a full queue. *)
Lemma evict_inv t now fs :
  tracker_inv c0 t ->
  let '(ev, pending) :=
    if (CUA_PENDING_CAP <=? length (tr_pending t))%nat then
      match tr_pending t with
      | old :: rest => (tracker_finish (tr_events t) now fs old OutNoReply, rest)
      | [] => (tr_events t, tr_pending t)
      end
    else (tr_events t, tr_pending t) in
  tracker_inv c0 {| tr_events := ev; tr_pending := pending |} /\
  (length pending < CUA_PENDING_CAP)%nat /\
  (forall x, x ∈ map pc_id pending -> x ∈ map pc_id (tr_pending t)).
Proof.
  intros Hinv. destruct (Nat.leb_spec CUA_PENDING_CAP (length (tr_pending t))) as [Hle|Hlt].
  - destruct (tr_pending t) as [|old rest] eqn:E; [simpl in Hle; unfold CUA_PENDING_CAP in Hle; lia|].
    destruct (take_finish_inv c0 t (pc_id old) old rest now fs OutNoReply Hinv) as [Hi Hni].
    { rewrite E. cbn [take_pending]. by rewrite decide_True. }
    split; [exact Hi|]. destruct Hinv as (_ & Hl & _). rewrite E in Hl. simpl in Hl.
    split; [lia|]. set_solver.
  - destruct t. split; [exact Hinv|]. split; [exact Hlt|done].
Qed.

Lemma request_inv t now fs m : tracker_inv c0 t -> tracker_inv c0 (observe_request t now fs m).
Proof.
  intros Hinv. unfold observe_request. destruct (as_object m) as [obj|]; [|done].
  case_bool_decide; [|done]. destruct (obj_get (txt "id") obj) as [id|]; [|done].
  destruct (is_string id || is_number id); [|done].
  set (t1 := match take_pending id (tr_pending t) with
    | Some (old, rest) => {| tr_events := tracker_finish (tr_events t) now fs old OutNoReply; tr_pending := rest |}
    | None => t end).
  assert (tracker_inv c0 t1 /\ id ∉ map pc_id (tr_pending t1)) as [Hi1 Hni].
  { unfold t1. destruct (take_pending id (tr_pending t)) as [[old rest]|] eqn:E.
    - by apply (take_finish_inv c0 t id old rest).
    - split; [done|]. by apply take_pending_None. }
  replace (match take_pending id (tr_pending t) with
    | Some (old, rest) => (tracker_finish (tr_events t) now fs old OutNoReply, rest)
    | None => (tr_events t, tr_pending t) end) with (tr_events t1, tr_pending t1)
    by (unfold t1; by destruct (take_pending id (tr_pending t)) as [[? ?]|]).
  clearbody t1. pose proof (evict_inv t1 now fs Hi1) as He.
  destruct (if (CUA_PENDING_CAP <=? length (tr_pending t1))%nat then _ else _) as [ev pending].
  destruct He as ((Hc & Hl & Hn) & Hlt & Hsub). cbn [tr_events tr_pending] in *.
  pose proof (start_calls c0 ev (map pc_call pending) now fs SrcCua (request_name obj) Hc) as Hst.
  destruct (call_started ev now fs SrcCua (request_name obj)) as [ev' call].
  unfold tracker_inv. cbn [tr_events tr_pending fst snd] in *. rewrite !map_app. cbn [map pc_call pc_id].
  split; [exact Hst|]. split; [rewrite length_app; simpl; lia|].
  apply NoDup_app. split; [done|]. split; [set_solver|]. apply NoDup_singleton.
Qed.

Lemma response_inv t now fs m : tracker_inv c0 t -> tracker_inv c0 (observe_response t now fs m).
Proof.
  intros Hinv. unfold observe_response. destruct (as_object m) as [obj|]; [|done].
  case_match; [done|]. destruct (obj_get (txt "id") obj) as [id|]; [|done].
  case_match; [|done].
  destruct (take_pending id (tr_pending t)) as [[p rest]|] eqn:E; [|done].
  by apply (take_finish_inv c0 t id p rest).
Qed.

Lemma close_inv t now fs : tracker_inv c0 t -> tracker_inv c0 (tracker_close t now fs).
Proof.
  intros (Hc & _ & _). unfold tracker_close. split; [|split; [simpl; lia|constructor]].
  cbn [tr_events tr_pending map]. revert Hc. generalize (tr_events t). clear.
  induction (tr_pending t) as [|p l IH]; intros ev Hc; [done|].
  cbn [foldl]. apply IH, finish_calls, Hc.
Qed.

Lemma tracker_run_inv ops t : tracker_inv c0 t -> tracker_inv c0 (foldl tracker_step t ops).
Proof.
  revert t. induction ops as [|[] ops IH]; intros t Ht; [done|..]; apply IH; cbn [tracker_step];
    [by apply request_inv|by apply response_inv|by apply close_inv].
Qed.
End TrackerSteps.

(** ** Properties *)

(** An event log never lies about gaps.  After any use of a new log, its
    recorded events have the sequence numbers 1, 2, 3, ... in order; a page
    holds exactly the newest 200 events after the asked number; [latest] is
    their number; and the reader's test [oldest > after + 1] is exact: when it
    fails the page is complete, when it holds the events between are the ones
    dropped.  Sink traffic and call numbers leave the ring alone. *)
Theorem event_pages_exact {S} `{EventSink S} (log_id session : text) (inc : Z) (frame : bool)
    (now now_wall : Z) (ops : list (LogOp S)) (a : Z) :
  0 <= a ->
  let ev := fst (log_run (ev_new log_id session inc frame now now_wall) ops) in
  let hist := snd (log_run (ev_new log_id session inc frame now now_wall) ops) in
  let page := after ev a in
  map se_seq hist = map Z.of_nat (seq 1 (length hist)) /\
  pg_latest page = Z.of_nat (length hist) /\
  pg_events page =
    List.filter (fun e => a <? se_seq e) (drop (length hist - RING_CAPACITY) hist) /\
  (pg_oldest page <= a + 1 -> pg_events page = List.filter (fun e => a <? se_seq e) hist) /\
  (a + 1 < pg_oldest page <= pg_latest page ->
     pg_events page = drop (length hist - RING_CAPACITY) hist /\
     pg_oldest page = Z.of_nat (length hist - RING_CAPACITY) + 1).
Proof.
  intros Ha. cbv zeta.
  pose proof (log_inv_run [] _ ops (log_inv_new log_id session inc frame now now_wall)) as Hi.
  destruct (log_run _ ops) as [ev hist]. cbn [fst snd app] in *.
  destruct Hi as (H1 & H2 & H3 & _). unfold after. cbn [pg_latest pg_events pg_oldest].
  rewrite H2, H3. set (k := (length hist - RING_CAPACITY)%nat).
  split; [done|]. split; [done|]. split; [done|].
  pose proof (hist_seq hist) as Hseq.
  assert (forall i e, drop k hist !! i = Some e -> se_seq e = Z.of_nat k + 1 + Z.of_nat i) as Hd.
  { intros i e Hx. rewrite lookup_drop in Hx. rewrite (Hseq _ e H1 Hx). lia. }
  assert (forall i e, hist !! i = Some e -> se_seq e = 1 + Z.of_nat i) as Hh.
  { intros i e Hx. rewrite (Hseq _ e H1 Hx). lia. }
  rewrite (filter_seq_drop _ _ a Hd), (filter_seq_drop _ _ a Hh), drop_drop.
  destruct (drop k hist) as [|e0 l] eqn:E; cbn [head].
  - assert (length hist <= k)%nat by (apply (f_equal length) in E; rewrite length_drop in E; simpl in E; lia).
    split; [|lia]. intros _. rewrite !drop_ge; [done|unfold k, RING_CAPACITY in *; lia|simpl; lia].
  - rewrite (Hd 0%nat e0 eq_refl). split; intros Hx.
    + f_equal. lia.
    + replace (Z.to_nat (a + 1 - (Z.of_nat k + 1))) with 0%nat by lia.
      rewrite Nat.add_0_r, E. split; [done|lia].
Qed.

Lemma event_pages_exact_witness :
  let ops := [LRecord 5000000 7 SrcCli EvSessionEnded; LNextCall;
              LRecord 9000000 8 SrcDaemon (EventsLost 2)] in
  let ev := fst (log_run (S := list SessionEvent) (ev_new [] [] 1 true 0 0) ops) in
  map se_seq (pg_events (after ev 1)) = [2] /\ pg_latest (after ev 1) = 2.
Proof.
  split; [reflexivity|].
  apply (event_pages_exact (S := list SessionEvent) [] [] 1 true 0 0
    [LRecord 5000000 7 SrcCli EvSessionEnded; LNextCall;
     LRecord 9000000 8 SrcDaemon (EventsLost 2)] 1). lia.
Defined.

(** C8: every Cua tool call is accounted for exactly once.  Whatever messages
    pass in either direction, the calls recorded as started carry consecutive
    call numbers, and they are the ones recorded as finished plus the ones
    still pending, each once; at most 64 are pending, under distinct request
    ids; and when the attachment closes nothing stays pending, so every started
    call is then finished exactly once. *)
Theorem cua_calls_accounted (ev : SessionEvents (list SessionEvent)) (ops : list TrackerOp) (now fs : Z) :
  r_sink (ev_ring ev) = Some [] -> 0 <= ev_next_call ev < 2 ^ 64 ->
  let t := foldl tracker_step (tracker_new ev) ops in
  let log := sunk (tr_events t) in
  let closed := sunk (tr_events (tracker_close t now fs)) in
  (exists n, started_calls log =
     map (fun i => (ev_next_call ev + Z.of_nat i) mod 2 ^ 64) (seq 0 n)) /\
  Permutation (started_calls log) (finished_calls log ++ map pc_call (tr_pending t)) /\
  (length (tr_pending t) <= 64)%nat /\ NoDup (map pc_id (tr_pending t)) /\
  tr_pending (tracker_close t now fs) = [] /\
  Permutation (started_calls closed) (finished_calls closed).
Proof.
  intros Hs Hc. cbv zeta.
  assert (tracker_inv (ev_next_call ev) (tracker_new ev)) as H0.
  { split; [|split; [simpl; lia|constructor]]. unfold log_calls, tracker_new, sunk. cbn.
    rewrite Hs. split; [done|]. split; [|done]. exists 0%nat. split; [done|].
    rewrite Z.add_0_r, Z.mod_small; lia. }
  pose proof (tracker_run_inv _ ops _ H0) as Hi.
  pose proof (close_inv _ _ now fs Hi) as ((_ & _ & Hp) & _ & _).
  destruct Hi as ((_ & (n & Hn & _) & Hq) & Hl & Hd).
  split; [eauto|]. split; [done|]. split; [done|]. split; [done|]. split; [done|].
  rewrite Hp. cbn [tracker_close tr_pending map]. by rewrite app_nil_r.
Qed.

Lemma cua_calls_accounted_witness :
  let ev := fst (attach_sink (ev_new [] [] 1 false 0 0) 0 0 [] SrcDaemon Unknown) in
  let ev := set_ring ev {| r_events := []; r_latest := 0; r_sink := Some [] |} in
  let req i := JObject [(txt "method", JString (txt "tools/call")); (txt "id", JNumber i)] in
  let ops := [TRequest 0 0 (req [49%N]); TRequest 0 0 (req [50%N]);
              TResponse 0 0 (JObject [(txt "id", JNumber [50%N]); (txt "result", JNull)])] in
  let t := foldl tracker_step (tracker_new ev) ops in
  started_calls (sunk (tr_events t)) = [1; 2] /\ finished_calls (sunk (tr_events t)) = [2] /\
  tr_pending (tracker_close t 0 0) = [].
Proof.
  split; [vm_compute; reflexivity|]. split; [vm_compute; reflexivity|].
  apply (cua_calls_accounted
    (set_ring (fst (attach_sink (ev_new [] [] 1 false 0 0) 0 0 [] SrcDaemon Unknown))
       {| r_events := []; r_latest := 0; r_sink := Some [] |})).
  - reflexivity.
  - cbn. lia.
Defined.
