(* ===== verification/Control.v ===== *)
(** * The control lease of one session
      ([crates/rdpilot-daemon/src/control.rs])

    [Ctl] is [SessionControl]: the mutex-protected [State], the count of
    pending transitions, the session's event log and the lines written to the
    daemon log.  Every critical section of the state mutex is one function on
    [Ctl]; an [async] method is the sequence of its critical sections, with
    what it waits for between them as arguments (see ControlSystem.v for their
    interleavings).  A critical section reads its clocks once ([Clk]).  An
    [IpAddr] is kept as its text. *)
From S2P Require Import Prelude Errors Vocab BTreeSet InputOps HumanInput LoopInput Calendar Events.
Open Scope Z_scope.

(** ** Constants (durations in nanoseconds) *)
Definition seconds (n : Z) : Z := n * 1000000000.
Definition TAKE_BOUND : Z := seconds 10.
Definition HEARTBEAT_TIMEOUT : Z := seconds 5.
Definition DEFAULT_IDLE_TIMEOUT : Z := seconds 300.
Definition INPUT_SEND_TIMEOUT : Z := seconds 2.
Definition EPOCH_CONFIRM_WAIT : Z := seconds 6.
Definition RECENT_ENDS : nat := 16.

(** [epoch_confirm_wait]: the override is a count of milliseconds above zero. *)
Definition epoch_confirm_wait (value : option text) : Z :=
  match and_then value (parse_unsigned (Z.to_N u64_max)) with
  | Some ms => if (0 <? ms)%N then Z.of_N ms * 1000000 else EPOCH_CONFIRM_WAIT
  | None => EPOCH_CONFIRM_WAIT
  end.

(** ** Data *)

Record Loss := { loss_by : option ControllerRef; loss_reason : option text }.

Definition end_reason_str (r : EndReason) : text :=
  match r with
  | HeartbeatLost => txt "heartbeat_lost"
  | IdleTimeout => txt "idle_timeout"
  | ViewerStopped => txt "viewer_stopped"
  | EndSessionEnded => txt "session_ended"
  | DaemonStopped => txt "daemon_stopped"
  end.

Definition source_str (s : EventSource) : text :=
  match s with
  | SrcCua => txt "cua" | SrcCli => txt "cli" | SrcViewer => txt "viewer" | SrcDaemon => txt "daemon"
  end.

Definition describe (c : ControllerRef) : text :=
  match c with
  | Agent => txt "the agent"
  | Human address => txt "human viewer " ++ address
  end.

Definition Loss_by (c : ControllerRef) : Loss := {| loss_by := Some c; loss_reason := None |}.
Definition Loss_reason (r : EndReason) : Loss :=
  {| loss_by := None; loss_reason := Some (end_reason_str r) |}.
Definition Loss_released : Loss := {| loss_by := None; loss_reason := Some (txt "released") |}.

Inductive NotHeld := Lost (loss : Loss) | NhUnknown.
Inductive TakeError := Busy | TakeLost (loss : Loss).

(** [WireController] (rdpilot-ipc) *)
Inductive WireControllerKind := WkAgent | WkHuman.
Record WireController := {
  wc_kind : WireControllerKind; wc_address : option text; wc_since : option text }.
Definition WireController_agent : WireController :=
  {| wc_kind := WkAgent; wc_address := None; wc_since := None |}.

Record Grant := { g_lease : text; g_generation : Z; g_controller : WireController }.

Record Drops := { d_stale : Z; d_geometry : Z; d_generation : Z }.
Record InputReport := { ir_applied : Z; ir_dropped : Drops; ir_lost : option NotHeld }.
Inductive InputUnavailable := Unavailable.

Record Lease := {
  l_id : text; l_address : text; l_since_wall : Z;
  l_granted : bool;  (** [false] while the take waits for agent work in flight *)
  l_last_heartbeat : Z; l_last_input : Z; l_held : list Held }.

Definition lease_controller (l : Lease) : ControllerRef := Human (l_address l).

Record State := {
  st_lease : option Lease; st_epoch : Z; st_inflight : Z;
  st_ended : list (text * Loss); st_human_activity : option (Z * Z) }.

Definition State_default : State :=
  {| st_lease := None; st_epoch := INITIAL; st_inflight := 0; st_ended := [];
     st_human_activity := None |}.

(** The readings of the clocks and of the frame source of one critical
    section. *)
Record Clk := { k_now : Z; k_wall : Z; k_frame : Z }.

(** ** [State] *)

Definition set_lease (st : State) (l : option Lease) : State :=
  {| st_lease := l; st_epoch := st_epoch st; st_inflight := st_inflight st;
     st_ended := st_ended st; st_human_activity := st_human_activity st |}.
Definition set_epoch (st : State) (e : Z) : State :=
  {| st_lease := st_lease st; st_epoch := e; st_inflight := st_inflight st;
     st_ended := st_ended st; st_human_activity := st_human_activity st |}.
Definition set_inflight (st : State) (n : Z) : State :=
  {| st_lease := st_lease st; st_epoch := st_epoch st; st_inflight := n;
     st_ended := st_ended st; st_human_activity := st_human_activity st |}.

(** [State::remember] *)
Definition remember (st : State) (id : text) (loss : Loss) : State :=
  let ended := if (RECENT_ENDS <=? length (st_ended st))%nat then tl (st_ended st) else st_ended st in
  {| st_lease := st_lease st; st_epoch := st_epoch st; st_inflight := st_inflight st;
     st_ended := ended ++ [(id, loss)]; st_human_activity := st_human_activity st |}.

(** [State::loss_of]: the newest remembered end of [id]. *)
Definition loss_of (st : State) (id : text) : NotHeld :=
  match List.find (fun p => bool_decide (fst p = id)) (rev (st_ended st)) with
  | Some (_, loss) => Lost loss
  | None => NhUnknown
  end.

(** [State::touch_human] *)
Definition touch_human (st : State) (k : Clk) : State :=
  {| st_lease := st_lease st; st_epoch := st_epoch st; st_inflight := st_inflight st;
     st_ended := st_ended st; st_human_activity := Some (k_now k, k_wall k) |}.

(** [State::held] *)
Definition st_held (st : State) (id : text) : result NotHeld Lease :=
  match st_lease st with
  | Some l => if bool_decide (l_id l = id) && l_granted l then Ok l else Err (loss_of st id)
  | None => Err (loss_of st id)
  end.

(** ** [SessionControl] *)

Record Transition := { tr_release : list Held; tr_at : Z; tr_epoch : option Z }.

(** [DaemonError] of [seams.rs]. *)
Inductive DaemonError :=
| DuplicateSession (session : text)
| SessionNotFound (session : text)
| StillConnecting (session : text)
| DeSessionEnded (id cause : text)
| Sdk (error : Error)
| ConnectError (message : text)
| IoError (message : text)
| ConfigError (message : text)
| RecordingError (message : text)
| BundleError (message : text)
| HumanControl (session address since : text)
| DeSessionClosed.

Record Refusal := { rf_mcp_message : text }.

(** The session name as a shell argument. *)
Definition plain_name_char (b : char) : bool :=
  is_ascii_alphanumeric b || (b =? 45)%N || (b =? 95)%N || (b =? 46)%N.
Definition quote_char : char := 39%N.
Definition shell_arg (name : text) : text :=
  match name with
  | _ :: _ =>
      if forallb plain_name_char name then name
      else quote_char :: flat_map (fun c => if (c =? quote_char)%N
                                           then [39; 92; 39; 39]%N else [c]) name ++ [quote_char]
  | [] => [quote_char; quote_char]
  end.

Definition cli_refusal (session address since_iso : text) : text :=
  txt "session " ++ [dquote] ++ session ++ [dquote] ++ txt " is controlled by human viewer "
  ++ address ++ txt " since " ++ clock_time since_iso
  ++ txt "; wait and retry, or take over with: rdpilot takeover --session " ++ shell_arg session.

Definition mcp_refusal (session : text) (l : Lease) : text :=
  txt "session " ++ [dquote] ++ session ++ [dquote] ++ txt " is controlled by human viewer "
  ++ l_address l ++ txt " since " ++ clock_time (iso8601_from_system_time (l_since_wall l))
  ++ txt "; wait and retry, or repeat this call with " ++ [dquote] ++ txt "takeover" ++ [dquote]
  ++ txt ": true to take control".

Definition human_wire (l : Lease) : WireController :=
  {| wc_kind := WkHuman; wc_address := Some (l_address l);
     wc_since := Some (iso8601_from_system_time (l_since_wall l)) |}.

(** Why the pending take [id] is no longer the lease. *)
Definition lost_take (st : State) (id : text) : TakeError :=
  match loss_of st id with
  | Lost loss => TakeLost loss
  | NhUnknown => TakeLost (Loss_by Agent)
  end.

(** The text of the daemon log line of a control change. *)
Definition control_line (session : text) (source : EventSource) (kind : EventKind) : text :=
  let line :=
    match kind with
    | ControlTaken b => txt "taken by " ++ describe b
    | ControlTakenOver from b => txt "taken over from " ++ describe from ++ txt " by " ++ describe b
    | ControlReleased from => txt "released by " ++ describe from ++ txt "; the agent controls"
    | ControlEnded from reason =>
        txt "lease of " ++ describe from ++ txt " ended (" ++ end_reason_str reason
        ++ txt "); the agent controls"
    | _ => []
    end in
  txt "rdpilot-daemon: control of session " ++ [dquote] ++ session ++ [dquote] ++ txt ": " ++ line
  ++ txt " (source " ++ source_str source ++ txt ")".

Section SessionControl.
Context {S : Type} `{EventSink S}.

Record Ctl := {
  c_session : text; c_generation : Z; c_has_input : bool; c_confirm_wait : Z;
  c_events : SessionEvents S; c_state : State; c_pending : Z; c_stderr : list text }.

(** [SessionControl::new] *)
Definition ctl_new (session : text) (generation : Z) (events : SessionEvents S) (has_input : bool)
    (confirm_wait : Z) : Ctl :=
  {| c_session := session; c_generation := generation; c_has_input := has_input;
     c_confirm_wait := confirm_wait; c_events := events; c_state := State_default;
     c_pending := 0; c_stderr := [] |}.

Definition set_state (c : Ctl) (st : State) : Ctl :=
  {| c_session := c_session c; c_generation := c_generation c; c_has_input := c_has_input c;
     c_confirm_wait := c_confirm_wait c; c_events := c_events c; c_state := st;
     c_pending := c_pending c; c_stderr := c_stderr c |}.
Definition set_pending (c : Ctl) (n : Z) : Ctl :=
  {| c_session := c_session c; c_generation := c_generation c; c_has_input := c_has_input c;
     c_confirm_wait := c_confirm_wait c; c_events := c_events c; c_state := c_state c;
     c_pending := n; c_stderr := c_stderr c |}.

(** [SessionControl::transition] *)
Definition transition (c : Ctl) (held : list Held) : Ctl * Transition :=
  (set_pending c (c_pending c + 1),
   {| tr_release := held; tr_at := st_epoch (c_state c); tr_epoch := None |}).

(** [Drop for PendingGuard] *)
Definition drop_transition (c : Ctl) : Ctl := set_pending c (c_pending c - 1).

(** [SessionControl::advance] *)
Definition advance (c : Ctl) : Ctl * Transition :=
  let c := set_state c (set_epoch (c_state c) (next (st_epoch (c_state c)))) in
  let '(c, t) := transition c [] in
  (c, {| tr_release := tr_release t; tr_at := tr_at t; tr_epoch := Some (st_epoch (c_state c)) |}).

Definition input_epoch (c : Ctl) : Z := st_epoch (c_state c).
Definition human_active (c : Ctl) : bool := bool_decide (is_Some (st_lease (c_state c))).
Definition human_activity (c : Ctl) : option (Z * Z) := st_human_activity (c_state c).

(** [SessionControl::controller] *)
Definition controller (c : Ctl) : WireController :=
  match st_lease (c_state c) with
  | None => WireController_agent
  | Some l => human_wire l
  end.

(** [SessionControl::record] *)
Definition ctl_record (c : Ctl) (k : Clk) (source : EventSource) (kind : EventKind) : Ctl :=
  {| c_session := c_session c; c_generation := c_generation c; c_has_input := c_has_input c;
     c_confirm_wait := c_confirm_wait c;
     c_events := fst (record (c_events c) (k_now k) (k_frame k) source kind);
     c_state := c_state c; c_pending := c_pending c;
     c_stderr := c_stderr c ++ [control_line (c_session c) source kind] |}.

Definition human_control_error (c : Ctl) (l : Lease) : DaemonError :=
  HumanControl (c_session c) (l_address l) (iso8601_from_system_time (l_since_wall l)).

(** [SessionControl::check_agent] *)
Definition check_agent (c : Ctl) : result DaemonError unit :=
  match st_lease (c_state c) with
  | None => Ok tt
  | Some l => Err (human_control_error c l)
  end.

(** [SessionControl::released] *)
Definition released (c : Ctl) : bool := c_pending c =? 0.

(** One poll of [SessionControl::admit_agent]; [None] is "wait". *)
Definition admit_agent_poll (c : Ctl) : option (result DaemonError Z) :=
  match st_lease (c_state c) with
  | Some l => Some (Err (human_control_error c l))
  | None => if released c then Some (Ok (st_epoch (c_state c))) else None
  end.

(** One poll of [SessionControl::wait_released] and [wait_settled]. *)
Definition wait_released_poll (c : Ctl) : option unit := if released c then Some tt else None.
Definition wait_settled_poll (c : Ctl) : option unit :=
  if st_inflight (c_state c) =? 0 then Some tt else None.

(** [until_signalled]: the first answer among the states seen at the polls. *)
Fixpoint until_signalled {T} (ready : Ctl -> option T) (seen : list Ctl) : option T :=
  match seen with
  | [] => None
  | c :: seen => match ready c with Some a => Some a | None => until_signalled ready seen end
  end.

(** [SessionControl::stale_error] *)
Definition stale_error (c : Ctl) (error : DaemonError) : DaemonError :=
  match error with
  | Sdk (ErStaleInput _ _) =>
      match st_lease (c_state c) with
      | Some l => human_control_error c l
      | None => error
      end
  | _ => error
  end.

(** [SessionControl::end_lease] *)
Definition end_lease (c : Ctl) (l : Lease) : Ctl * Transition :=
  if l_granted l then advance c else transition c [].

(** [SessionControl::agent_takeover_locked] *)
Definition agent_takeover_locked (c : Ctl) (k : Clk) (source : EventSource)
  : Ctl * option Transition :=
  match st_lease (c_state c) with
  | None => (c, None)
  | Some l =>
      let st := set_lease (c_state c) None in
      let st := remember st (l_id l) (Loss_by Agent) in
      let st := touch_human st k in
      let c := set_state c st in
      let c := ctl_record c k source (ControlTakenOver (lease_controller l) Agent) in
      let '(c, t) := end_lease c l in
      (c, Some t)
  end.

(** [SessionControl::admit_cua] *)
Definition admit_cua (c : Ctl) (k : Clk) (count : Z) (takeover : bool)
  : Ctl * result Refusal (option Transition) :=
  let add c := set_state c (set_inflight (c_state c) (st_inflight (c_state c) + count)) in
  match st_lease (c_state c) with
  | None => (add c, Ok None)
  | Some l =>
      if takeover then
        let '(c, t) := agent_takeover_locked c k SrcCua in (add c, Ok t)
      else (c, Err {| rf_mcp_message := mcp_refusal (c_session c) l |})
  end.

(** [SessionControl::cua_finished] *)
Definition cua_finished (c : Ctl) (count : Z) : Ctl :=
  if count =? 0 then c
  else set_state c (set_inflight (c_state c) (saturating_sub (st_inflight (c_state c)) count)).

(** [SessionControl::agent_takeover] *)
Definition agent_takeover (c : Ctl) (k : Clk) (source : EventSource)
  : Ctl * (WireController * option Transition) :=
  let previous := match st_lease (c_state c) with
                  | None => WireController_agent | Some l => human_wire l end in
  let '(c, t) := agent_takeover_locked c k source in
  (c, (previous, t)).

(** [SessionControl::take_human] *)
Definition take_human (c : Ctl) (k : Clk) (reason : EndReason) : Ctl * option Lease :=
  match st_lease (c_state c) with
  | None => (c, None)
  | Some l =>
      let st := set_lease (c_state c) None in
      let st := remember st (l_id l) (Loss_reason reason) in
      let st := touch_human st k in
      let c := set_state c st in
      let c := if l_granted l
               then ctl_record c k SrcDaemon (ControlEnded (lease_controller l) reason)
               else c in
      (c, Some l)
  end.

(** [SessionControl::end_human] *)
Definition end_human (c : Ctl) (k : Clk) (reason : EndReason) : Ctl * option Transition :=
  let '(c, l) := take_human c k reason in
  match l with
  | None => (c, None)
  | Some l => let '(c, t) := end_lease c l in (c, Some t)
  end.

(** [SessionControl::end_human_ended] *)
Definition end_human_ended (c : Ctl) (k : Clk) : Ctl * option Transition :=
  let '(c, l) := take_human c k EndSessionEnded in
  match l with
  | None => (c, None)
  | Some _ => let '(c, t) := transition c [] in (c, Some t)
  end.

(** What [discharge_within] sends for a transition: nothing (confirmed at
    once), an epoch change to confirm, or best-effort releases. *)
Inductive Discharge :=
| DConfirmed
| DSetEpoch (epoch : Z)
| DReleases (events : list RawInput) (epoch : Z).

Definition send_releases (c : Ctl) (release_ : list Held) (epoch : Z) : Discharge :=
  match release_ with
  | [] => DConfirmed
  | _ :: _ => if c_has_input c then DReleases (map release release_) epoch else DConfirmed
  end.

Definition discharge_plan (c : Ctl) (t : Transition) : Discharge :=
  match tr_epoch t with
  | Some e => if c_has_input c then DSetEpoch e else DConfirmed
  | None => send_releases c (tr_release t) (tr_at t)
  end.

(** Whether [discharge_within] answers "confirmed", given the answer of the
    session to the epoch change within the wait. *)
Definition discharge_confirmed (c : Ctl) (t : Transition) (answered : bool) : bool :=
  match discharge_plan c t with
  | DSetEpoch _ => answered
  | DConfirmed | DReleases _ _ => true
  end.

(** ** The human take, section by section *)

(** Up to the first wait: the pending lease replaces the current one. *)
Definition take_begin (c : Ctl) (k : Clk) (id address : text) : Ctl * option Transition :=
  let lease := {| l_id := id; l_address := address; l_since_wall := k_wall k; l_granted := false;
                  l_last_heartbeat := k_now k; l_last_input := k_now k; l_held := [] |} in
  let by_ := lease_controller lease in
  let old := st_lease (c_state c) in
  let c := set_state c (set_lease (c_state c) (Some lease)) in
  match old with
  | Some old =>
      let c := set_state c (remember (c_state c) (l_id old) (Loss_by by_)) in
      if l_granted old then
        let c := ctl_record c k SrcViewer (ControlTakenOver (lease_controller old) by_) in
        let '(c, t) := advance c in (c, Some t)
      else (c, None)
  | None => (c, None)
  end.

Definition is_current (c : Ctl) (id : text) : bool :=
  match st_lease (c_state c) with
  | Some l => bool_decide (l_id l = id)
  | None => false
  end.

(** From the agent, after the wait for in-flight Cua calls and pending
    releases, which [settled] within the bound or not. *)
Definition take_settle (c : Ctl) (id : text) (settled : bool) : Ctl * result TakeError Transition :=
  if is_current c id then
    if settled then let '(c, t) := advance c in (c, Ok t)
    else (set_state c (set_lease (c_state c) None), Err Busy)
  else (c, Err (lost_take (c_state c) id)).

Definition grant_of (c : Ctl) (l : Lease) : Grant :=
  {| g_lease := l_id l; g_generation := c_generation c; g_controller := human_wire l |}.

(** The last section: grant the lease when the change was confirmed. *)
Definition take_finish (c : Ctl) (k : Clk) (id : text) (confirmed : bool)
  : Ctl * result TakeError Grant :=
  match st_lease (c_state c) with
  | Some l =>
      if bool_decide (l_id l = id) then
        if confirmed then
          let granted := {| l_id := l_id l; l_address := l_address l; l_since_wall := k_wall k;
                            l_granted := true; l_last_heartbeat := k_now k;
                            l_last_input := k_now k; l_held := l_held l |} in
          (set_state c (set_lease (c_state c) (Some granted)), Ok (grant_of c granted))
        else (set_state c (set_lease (c_state c) None), Err Busy)
      else (c, Err (lost_take (c_state c) id))
  | None => (c, Err (lost_take (c_state c) id))
  end.

(** After the last section, outside the mutex: a take from the agent is
    recorded (a move was recorded in its first section). *)
Definition take_record (c : Ctl) (k : Clk) (address : text) (from_agent : bool) : Ctl :=
  if from_agent then ctl_record c k SrcViewer (ControlTaken (Human address)) else c.

(** [Drop for PendingTake] while armed: an abandoned take is undone. *)
Definition take_abandon (c : Ctl) (id : text) : Ctl :=
  match st_lease (c_state c) with
  | Some l => if bool_decide (l_id l = id) && negb (l_granted l)
              then set_state c (set_lease (c_state c) None) else c
  | None => c
  end.

(** The waits of a take begun at [started] with [bound]: for the epoch change
    when the lease moved from another tab, and after settling at [now]. *)
Definition take_deadline (started bound : Z) : Z := started + bound.
Definition moved_wait (c : Ctl) (bound : Z) : Z := Z.min (c_confirm_wait c) bound.
Definition settled_wait (c : Ctl) (deadline now : Z) : Z :=
  Z.min (c_confirm_wait c) (saturating_sub deadline now).

(** ** The holder's requests *)

Definition set_lease_of (c : Ctl) (l : Lease) : Ctl :=
  set_state c (set_lease (c_state c) (Some l)).

(** [SessionControl::check_lease] *)
Definition check_lease (c : Ctl) (id : text) : result NotHeld unit :=
  match st_held (c_state c) id with Ok _ => Ok tt | Err e => Err e end.

(** [SessionControl::heartbeat] *)
Definition heartbeat (c : Ctl) (k : Clk) (id : text) : Ctl * result NotHeld unit :=
  match st_held (c_state c) id with
  | Err e => (c, Err e)
  | Ok l =>
      (set_lease_of c {| l_id := l_id l; l_address := l_address l; l_since_wall := l_since_wall l;
                         l_granted := l_granted l; l_last_heartbeat := k_now k;
                         l_last_input := l_last_input l; l_held := l_held l |}, Ok tt)
  end.

(** [SessionControl::blur] *)
Definition blur (c : Ctl) (k : Clk) (id : text) : Ctl * result NotHeld Transition :=
  match st_held (c_state c) id with
  | Err e => (c, Err e)
  | Ok l =>
      let c := set_lease_of c {| l_id := l_id l; l_address := l_address l;
                 l_since_wall := l_since_wall l; l_granted := l_granted l;
                 l_last_heartbeat := k_now k; l_last_input := l_last_input l; l_held := [] |} in
      let '(c, t) := transition c (l_held l) in (c, Ok t)
  end.

(** [SessionControl::release] *)
Definition ctl_release (c : Ctl) (k : Clk) (id : text) : Ctl * result NotHeld Transition :=
  match st_held (c_state c) id with
  | Err e => (c, Err e)
  | Ok l =>
      let st := set_lease (c_state c) None in
      let st := remember st (l_id l) Loss_released in
      let st := touch_human st k in
      let c := ctl_record (set_state c st) k SrcViewer (ControlReleased (lease_controller l)) in
      let '(c, t) := advance c in (c, Ok t)
  end.

(** [SessionControl::expire]: why the lease has expired at [now], if it has. *)
Definition expire_reason (c : Ctl) (now idle_timeout : Z) : option EndReason :=
  match st_lease (c_state c) with
  | Some l =>
      if l_granted l then
        if saturating_sub now (l_last_heartbeat l) >? HEARTBEAT_TIMEOUT then Some HeartbeatLost
        else if saturating_sub now (l_last_input l) >=? idle_timeout then Some IdleTimeout
        else None
      else None
  | None => None
  end.
Definition expire (c : Ctl) (k : Clk) (now idle_timeout : Z) : Ctl * option Transition :=
  match expire_reason c now idle_timeout with
  | Some reason => end_human c k reason
  | None => (c, None)
  end.

(** ** Human input *)

(** The outcome of the check of one event, in its critical section. *)
Inductive EventCheck :=
| CkLost (why : NotHeld)
| CkFenced (buttons : list Held)
| CkPass.

Definition is_held_button (h : Held) : bool := match h with HButton _ => true | _ => false end.

Definition input_check (c : Ctl) (k : Clk) (id : text) (geometry : Z * Z)
    (current : option (Z * Z)) (event : RawInput) : Ctl * EventCheck :=
  match st_held (c_state c) id with
  | Err lost => (c, CkLost lost)
  | Ok l =>
      let off_frame := is_pointer event && negb (geometry_matches event geometry current)
                       && negb (releases_held_button (l_held l) event) in
      if off_frame then
        let buttons := List.filter is_held_button (l_held l) in
        let held := foldl (fun h b => held_remove b h) (l_held l) buttons in
        (set_lease_of c {| l_id := l_id l; l_address := l_address l;
           l_since_wall := l_since_wall l; l_granted := l_granted l;
           l_last_heartbeat := l_last_heartbeat l; l_last_input := l_last_input l;
           l_held := held |}, CkFenced buttons)
      else
        let c := set_lease_of c {| l_id := l_id l; l_address := l_address l;
           l_since_wall := l_since_wall l; l_granted := l_granted l;
           l_last_heartbeat := k_now k; l_last_input := k_now k;
           l_held := track (l_held l) event |} in
        (set_state c (touch_human (c_state c) k), CkPass)
  end.

(** What the session answered to one sent event. *)
Inductive SendOutcome := SentOk | SentStale | SentFailed.

(** The world around one event of a request: what other tasks did to the
    control before its check, the frame size and clocks at the check, the
    answer to its send, and what others did before the next look. *)
Record EventEnv := {
  en_before : Ctl -> Ctl; en_current : option (Z * Z); en_clk : Clk;
  en_outcome : SendOutcome; en_after : Ctl -> Ctl }.

(** One send to the session: what, with which epoch, and whether it is the
    releases of a fence. *)
Record Sent := { s_events : list RawInput; s_at : Z; s_fence : bool }.

Definition add_drop (r : InputReport) (stale geom : Z) (lost : option NotHeld) : InputReport :=
  {| ir_applied := ir_applied r;
     ir_dropped := {| d_stale := d_stale (ir_dropped r) + stale;
                      d_geometry := d_geometry (ir_dropped r) + geom;
                      d_generation := d_generation (ir_dropped r) |};
     ir_lost := match lost with Some _ => lost | None => ir_lost r end |}.

(** The loop of [SessionControl::input] over the coalesced events. *)
Fixpoint input_loop (c : Ctl) (id : text) (geometry : Z * Z) (epoch : option Z)
    (events : list RawInput) (envs : nat -> EventEnv) (n : nat) (report : InputReport)
  : Ctl * result InputUnavailable InputReport * list Sent :=
  match events with
  | [] => (c, Ok report, [])
  | event :: rest =>
      let env := envs n in
      let remaining := Z.of_nat (length rest) in
      let c := en_before env c in
      let at_ := match epoch with Some e => e | None => st_epoch (c_state c) end in
      let '(c, check) := input_check c (en_clk env) id geometry (en_current env) event in
      match check with
      | CkLost lost => (c, Ok (add_drop report (remaining + 1) 0 (Some lost)), [])
      | CkFenced buttons =>
          let sent := match send_releases c buttons at_ with
                      | DReleases evs e => [{| s_events := evs; s_at := e; s_fence := true |}]
                      | _ => [] end in
          let c := en_after env c in
          let '(c, r, l) := input_loop c id geometry (Some at_) rest envs (Datatypes.S n)
                              (add_drop report 0 1 None) in
          (c, r, sent ++ l)
      | CkPass =>
          let sent := {| s_events := [event]; s_at := at_; s_fence := false |} in
          let c := en_after env c in
          match en_outcome env with
          | SentOk =>
              let report := {| ir_applied := ir_applied report + 1;
                               ir_dropped := ir_dropped report; ir_lost := ir_lost report |} in
              let '(c, r, l) := input_loop c id geometry (Some at_) rest envs (Datatypes.S n) report in
              (c, r, sent :: l)
          | SentStale =>
              (c, Ok {| ir_applied := ir_applied report;
                        ir_dropped := {| d_stale := d_stale (ir_dropped report) + (remaining + 1);
                                         d_geometry := d_geometry (ir_dropped report);
                                         d_generation := d_generation (ir_dropped report) |};
                        ir_lost := err_of (check_lease c id) |}, [sent])
          | SentFailed => (c, Err Unavailable, [sent])
          end
      end
  end.

Definition no_drops : Drops := {| d_stale := 0; d_geometry := 0; d_generation := 0 |}.

(** [SessionControl::input] *)
Definition input (c : Ctl) (id : text) (generation : Z) (geometry : Z * Z)
    (events : list RawInput) (envs : nat -> EventEnv)
  : Ctl * result InputUnavailable InputReport * list Sent :=
  let total := Z.of_nat (length events) in
  if negb (generation =? c_generation c) then
    (c, Ok {| ir_applied := 0;
              ir_dropped := {| d_stale := 0; d_geometry := 0; d_generation := total |};
              ir_lost := err_of (check_lease c id) |}, [])
  else if negb (c_has_input c) then (c, Err Unavailable, [])
  else input_loop c id geometry None (coalesce events) envs 0
         {| ir_applied := 0; ir_dropped := no_drops; ir_lost := None |}.
End SessionControl.
Arguments Ctl S : clear implicits.
Arguments EventEnv S : clear implicits.

(** ** Specification *)

(** The events of the sends that are no fence releases. *)
Definition forwarded (sent : list Sent) : list RawInput :=
  concat (map s_events (List.filter (fun s => negb (s_fence s)) sent)).

(** [Ok] report: how many events of the request it counts. *)
Definition counted (r : InputReport) : Z :=
  ir_applied r + d_stale (ir_dropped r) + d_geometry (ir_dropped r).

(** A POSIX shell reading one word of single-quoted and backslash-quoted
    parts, as far as [shell_arg] uses them: [None] where the shell would do
    anything but take the character literally. *)
Fixpoint shell_word (quoted : bool) (t : text) : option text :=
  match t with
  | [] => if quoted then None else Some []
  | c :: t =>
      if quoted then
        if (c =? quote_char)%N then shell_word false t else option_map (cons c) (shell_word true t)
      else if (c =? quote_char)%N then shell_word true t
      else if (c =? 92)%N then
        match t with
        | d :: t => if (d =? 10)%N then None else option_map (cons d) (shell_word false t)
        | [] => None
        end
      else if plain_name_char c then option_map (cons c) (shell_word false t)
      else None
  end.

(** The ends [es], oldest first, remembered one after the other. *)
Definition remember_all (st : State) (es : list (text * Loss)) : State :=
  foldl (fun st e => remember st (fst e) (snd e)) st es.

(** The last [n] of a list. *)
Definition last_n {A} (n : nat) (l : list A) : list A := skipn (length l - n) l.

(** ** Lemmas *)

Lemma shell_word_plain t : forallb plain_name_char t = true -> shell_word false t = Some t.
Proof.
  induction t as [|c t IH]; [done|]. cbn [forallb]. intros [Hc Ht]%andb_true_iff.
  cbn [shell_word].
  destruct (c =? quote_char)%N eqn:E1; [apply N.eqb_eq in E1; subst; by vm_compute in Hc|].
  destruct (c =? 92)%N eqn:E2; [apply N.eqb_eq in E2; subst; by vm_compute in Hc|].
  by rewrite Hc, (IH Ht).
Qed.

Lemma shell_word_quoted t tail :
  shell_word true (flat_map (fun c => if (c =? quote_char)%N then [39; 92; 39; 39]%N else [c]) t
                   ++ quote_char :: tail)
  = option_map (app t) (shell_word false tail).
Proof.
  induction t as [|c t IH]; cbn [flat_map app].
  - cbn [shell_word]. rewrite N.eqb_refl. by destruct (shell_word false tail).
  - destruct (c =? quote_char)%N eqn:E.
    + apply N.eqb_eq in E. subst c. cbn -[flat_map]. rewrite IH.
      by destruct (shell_word false tail).
    + cbn -[flat_map]. rewrite E, IH. by destruct (shell_word false tail).
Qed.

(** The session name printed in a suggested command is one shell word
    that the shell reads back as exactly the name, whatever characters it
    holds (spaces, quotes, dollar signs, newlines, nothing at all). *)
Theorem shell_arg_roundtrip (name : text) : shell_word false (shell_arg name) = Some name.
Proof.
  unfold shell_arg. destruct name as [|c t]; [done|].
  case_match eqn:E; [by apply shell_word_plain|].
  cbn [shell_word]. rewrite N.eqb_refl, shell_word_quoted. cbn. by rewrite app_nil_r.
Qed.

Lemma remember_ended st id loss :
  (length (st_ended st) <= RECENT_ENDS)%nat ->
  st_ended (remember st id loss) = last_n RECENT_ENDS (st_ended st ++ [(id, loss)]).
Proof.
  intros Hlen. cbn [remember st_ended]. unfold last_n. rewrite length_app. cbn [length].
  destruct (RECENT_ENDS <=? length (st_ended st))%nat eqn:E.
  - apply Nat.leb_le in E.
    assert (length (st_ended st) = RECENT_ENDS) as Hl by lia.
    replace (length (st_ended st) + 1 - RECENT_ENDS)%nat with 1%nat by lia.
    destruct (st_ended st) as [|x l]; [by unfold RECENT_ENDS in *|done].
  - apply Nat.leb_gt in E.
    by replace (length (st_ended st) + 1 - RECENT_ENDS)%nat with 0%nat by lia.
Qed.

Lemma last_n_app_long {A} n (l m : list A) : (n <= length m)%nat -> last_n n (l ++ m) = last_n n m.
Proof.
  intros Hn. unfold last_n. rewrite length_app, skipn_app, skipn_all2 by lia.
  rewrite app_nil_l. f_equal. lia.
Qed.

Lemma last_n_short {A} n (l : list A) : (length l <= n)%nat -> last_n n l = l.
Proof. intros Hn. unfold last_n. by replace (length l - n)%nat with 0%nat by lia. Qed.

Lemma last_n_app {A} n (l m : list A) : last_n n (last_n n l ++ m) = last_n n (l ++ m).
Proof.
  destruct (decide (n <= length l)%nat) as [Hn|Hn]; [|by rewrite (last_n_short n l) by lia].
  symmetry. rewrite <- (firstn_skipn (length l - n) l) at 1. rewrite <- app_assoc.
  apply last_n_app_long. unfold last_n. rewrite length_app, length_skipn. lia.
Qed.

Lemma remember_all_ended st es :
  (length (st_ended st) <= RECENT_ENDS)%nat ->
  st_ended (remember_all st es) = last_n RECENT_ENDS (st_ended st ++ es).
Proof.
  revert st. induction es as [|[id loss] es IH]; intros st Hlen.
  - rewrite app_nil_r. unfold last_n. cbn [remember_all foldl].
    by replace (length (st_ended st) - RECENT_ENDS)%nat with 0%nat by lia.
  - change (remember_all st ((id, loss) :: es)) with (remember_all (remember st id loss) es).
    rewrite IH; rewrite remember_ended by done.
    + by rewrite last_n_app, <- app_assoc.
    + unfold last_n. rewrite length_skipn. lia.
Qed.

Lemma find_rev_app {A} (p : A -> bool) l x l' :
  p x = true -> Forall (fun y => p y = false) l' -> List.find p (rev (l ++ x :: l')) = Some x.
Proof.
  intros Hx Hl'. rewrite rev_app_distr. cbn [rev]. rewrite <- app_assoc.
  assert (Forall (fun y => p y = false) (rev l')) as Hr.
  { apply Forall_forall. intros y Hy%list_elem_of_In%in_rev.
    eapply (proj1 (Forall_forall _ _) Hl'), list_elem_of_In, Hy. }
  induction Hr as [|y m Hy _ IH]; cbn; [by rewrite Hx|by rewrite Hy].
Qed.

(** The memory of ended leases is the last 16 ends, and a lease whose
    newest end is among them is told exactly that end (a lease id that is not
    there is told that it is unknown). *)
Theorem recent_ends_remembered (es : list (text * Loss)) (id : text) :
  st_ended (remember_all State_default es) = last_n RECENT_ENDS es /\
  (forall before loss after,
     last_n RECENT_ENDS es = before ++ (id, loss) :: after ->
     id ∉ map fst after ->
     loss_of (remember_all State_default es) id = Lost loss) /\
  (id ∉ map fst (last_n RECENT_ENDS es) -> loss_of (remember_all State_default es) id = NhUnknown).
Proof.
  assert (st_ended (remember_all State_default es) = last_n RECENT_ENDS es) as Hend.
  { by rewrite remember_all_ended by (simpl; unfold RECENT_ENDS; lia). }
  split_and!; [exact Hend| |].
  - intros before loss after Hl Hid. unfold loss_of. rewrite Hend, Hl, find_rev_app; [done| |].
    + by rewrite bool_decide_eq_true.
    + apply Forall_forall. intros [i l] Hin. apply bool_decide_eq_false. intros <-.
      apply Hid, list_elem_of_fmap. by exists (i, l).
  - intros Hid. unfold loss_of. rewrite Hend.
    destruct (List.find _ _) as [[i l]|] eqn:E; [|done].
    apply List.find_some in E as [Hin Hi]. apply bool_decide_eq_true in Hi. simpl in Hi. subst.
    exfalso. apply Hid, list_elem_of_fmap. exists (id, l). split; [done|].
    by apply list_elem_of_In, in_rev.
Qed.

Section Facts.
Context {S : Type} `{EventSink S}.
Implicit Types c : Ctl S.

Lemma held_spec (st : State) id :
  st_held st id =
    match st_lease st with
    | Some l => if bool_decide (l_id l = id) && l_granted l then Ok l else Err (loss_of st id)
    | None => Err (loss_of st id)
    end.
Proof. done. Qed.

Lemma held_Ok (st : State) id l :
  st_held st id = Ok l <-> st_lease st = Some l /\ l_id l = id /\ l_granted l = true.
Proof.
  unfold st_held. destruct (st_lease st) as [l'|]; [|intuition congruence].
  destruct (bool_decide (l_id l' = id) && l_granted l') eqn:E.
  - apply andb_true_iff in E as [E1%bool_decide_eq_true E2]. intuition congruence.
  - split; [done|]. intros ([= ->] & Hid & Hg). apply andb_false_iff in E as [E|E].
    + by apply bool_decide_eq_false in E.
    + congruence.
Qed.

Lemma held_Err (st : State) id e : st_held st id = Err e -> e = loss_of st id.
Proof. unfold st_held. repeat case_match; congruence. Qed.

Lemma loss_of_last st es id loss : st_ended st = es ++ [(id, loss)] -> loss_of st id = Lost loss.
Proof.
  intros E. unfold loss_of. rewrite E, rev_app_distr. cbn. by rewrite bool_decide_eq_true_2.
Qed.

(** What the check of one event leaves of the control. *)
Lemma input_check_held c k id geometry current event :
  let '(c', check) := input_check c k id geometry current event in
  (check = CkLost (loss_of (c_state c) id) /\ c' = c /\
     ~ exists l, st_held (c_state c) id = Ok l) \/
  exists l l', st_held (c_state c) id = Ok l /\ st_lease (c_state c') = Some l' /\
    l_id l' = id /\ l_granted l' = true /\ st_epoch (c_state c') = st_epoch (c_state c) /\
    let on_frame := negb (is_pointer event) || geometry_matches event geometry current
                    || releases_held_button (l_held l) event in
    if on_frame then check = CkPass /\ l_held l' = track (l_held l) event
    else check = CkFenced (List.filter is_held_button (l_held l)) /\
         l_held l' = foldl (fun h b => held_remove b h) (l_held l)
                       (List.filter is_held_button (l_held l)).
Proof.
  unfold input_check. destruct (st_held (c_state c) id) as [l|e] eqn:Hl.
  2: { left. apply held_Err in Hl as He. subst e. split_and!; [done|done|]. intros [l ?]. congruence. }
  pose proof (proj1 (held_Ok _ _ _) Hl) as (Hs & Hid & Hg).
  destruct (is_pointer event), (geometry_matches event geometry current),
    (releases_held_button (l_held l) event) eqn:Er; cbn [negb andb orb]; right;
    eexists l, _; split_and!; try done; cbn; rewrite ?Er; by split.
Qed.

(** An event of a request is checked against the granted lease and the
    current frame: without the lease nothing changes; an event off the
    frame (that is not the release of a held button) releases every button
    the holder held, keeps its keys, and is not tracked; any other event is
    tracked, so the held set stays exactly what is down. *)
Theorem input_check_fences c k id geometry current event :
  (forall l, st_held (c_state c) id = Ok l -> held_wf (l_held l)) ->
  match input_check c k id geometry current event with
  | (c', CkLost why) => c' = c /\ why = loss_of (c_state c) id /\
                        forall l, st_lease (c_state c) = Some l -> l_id l = id -> l_granted l = false
  | (c', CkFenced buttons) =>
      is_pointer event = true /\ geometry_matches event geometry current = false /\
      exists l l', st_held (c_state c) id = Ok l /\ st_held (c_state c') id = Ok l' /\
        held_wf (l_held l') /\
        (forall b, HButton b ∈ buttons <-> HButton b ∈ l_held l) /\
        (forall b, HButton b ∉ l_held l') /\
        (forall code ext, HKey code ext ∈ l_held l' <-> HKey code ext ∈ l_held l)
  | (c', CkPass) =>
      exists l l', st_held (c_state c) id = Ok l /\ st_held (c_state c') id = Ok l' /\
        held_wf (l_held l') /\ l_last_input l' = k_now k /\ l_last_heartbeat l' = k_now k /\
        human_activity c' = Some (k_now k, k_wall k) /\
        forall h, h ∈ l_held l' <-> down_after h (bool_decide (h ∈ l_held l)) [event] = true
  end.
Proof.
  intros Hwf. unfold input_check. destruct (st_held (c_state c) id) as [l|e] eqn:Hl.
  2: { split_and!; [done|by eapply held_Err|]. intros l Hs Hid.
       destruct (l_granted l) eqn:Hg; [|done].
       assert (st_held (c_state c) id = Ok l) by (by apply held_Ok). congruence. }
  specialize (Hwf l eq_refl).
  pose proof (proj1 (held_Ok _ _ _) Hl) as (Hs & Hid & Hg).
  destruct (_ && negb (releases_held_button _ _)) eqn:Eoff.
  - apply andb_true_iff in Eoff as [[Hp Hgm%negb_true_iff]%andb_true_iff _].
    split_and!; [done|done|]. eexists l, _. split_and!; [done|by apply held_Ok|..]; cbn [l_held].
    + by apply (bt_foldl_remove_wf held_rank).
    + intros b. rewrite list_elem_of_In, filter_In, <- list_elem_of_In. cbn. intuition.
    + intros b Hb. apply (bt_foldl_remove_elem held_rank) in Hb as [Hb Hn]; [|done].
      apply Hn. by rewrite list_elem_of_In, filter_In, <- list_elem_of_In.
    + intros code ext. rewrite (bt_foldl_remove_elem held_rank) by done.
      assert (HKey code ext ∉ List.filter is_held_button (l_held l)); [|tauto].
      by rewrite list_elem_of_In, filter_In; intros [_ ?].
  - eexists l, _. split_and!; [done|by apply held_Ok|..]; try done; cbn [l_held].
    + by apply track_wf.
    + intros h. by rewrite track_elem.
Qed.

(** One step of the loop, with its two critical sections named. *)
Lemma input_loop_cons c id geometry epoch event rest envs n report :
  let env := envs n in
  let c1 := en_before env c in
  let at_ := match epoch with Some e => e | None => st_epoch (c_state c1) end in
  let remaining := Z.of_nat (length rest) in
  forall c2 check, input_check c1 (en_clk env) id geometry (en_current env) event = (c2, check) ->
  input_loop c id geometry epoch (event :: rest) envs n report =
    match check with
    | CkLost lost => (c2, Ok (add_drop report (remaining + 1) 0 (Some lost)), [])
    | CkFenced buttons =>
        let sent := match send_releases c2 buttons at_ with
                    | DReleases evs e => [{| s_events := evs; s_at := e; s_fence := true |}]
                    | _ => [] end in
        let '(c, r, l) := input_loop (en_after env c2) id geometry (Some at_) rest envs
                            (Datatypes.S n) (add_drop report 0 1 None) in
        (c, r, sent ++ l)
    | CkPass =>
        let sent := {| s_events := [event]; s_at := at_; s_fence := false |} in
        match en_outcome env with
        | SentOk =>
            let '(c, r, l) := input_loop (en_after env c2) id geometry (Some at_) rest envs
                                (Datatypes.S n)
                                {| ir_applied := ir_applied report + 1;
                                   ir_dropped := ir_dropped report; ir_lost := ir_lost report |} in
            (c, r, sent :: l)
        | SentStale =>
            (en_after env c2,
             Ok {| ir_applied := ir_applied report;
                   ir_dropped := {| d_stale := d_stale (ir_dropped report) + (remaining + 1);
                                    d_geometry := d_geometry (ir_dropped report);
                                    d_generation := d_generation (ir_dropped report) |};
                   ir_lost := err_of (check_lease (en_after env c2) id) |}, [sent])
        | SentFailed => (en_after env c2, Err Unavailable, [sent])
        end
    end.
Proof. cbn zeta. intros c2 check Hck. cbn [input_loop]. by rewrite Hck. Qed.

Lemma send_releases_at c buttons e s :
  s ∈ match send_releases c buttons e with
      | DReleases evs e => [{| s_events := evs; s_at := e; s_fence := true |}]
      | _ => [] end -> s_at s = e /\ s_fence s = true.
Proof.
  unfold send_releases. destruct buttons, (c_has_input c); rewrite ?list_elem_of_singleton;
    set_solver.
Qed.

(** Every send of a request has one epoch, and every forwarded event was on
    the frame of its check, or releases a button. *)
Definition aimed (geometry : Z * Z) (events : list RawInput) (envs : nat -> EventEnv S) (n : nat)
    (s : Sent) : Prop :=
  s_fence s = false ->
  exists i e, s_events s = [e] /\ events !! i = Some e /\
    (is_pointer e = true ->
     geometry_matches e geometry (en_current (envs (n + i)%nat)) = true \/
     exists b, e = RButton b false).

Lemma aimed_cons geometry event rest envs n s :
  aimed geometry rest envs (Datatypes.S n) s -> aimed geometry (event :: rest) envs n s.
Proof.
  intros Ha Hf. destruct (Ha Hf) as (i & e & He & Hi & Hp).
  exists (Datatypes.S i), e. split_and!; [done|done|]. intros Hpe.
  by replace (n + Datatypes.S i)%nat with (Datatypes.S n + i)%nat by lia; auto.
Qed.

Lemma input_check_pass c k id geometry current event c' :
  input_check c k id geometry current event = (c', CkPass) ->
  is_pointer event = true ->
  geometry_matches event geometry current = true \/ exists b, event = RButton b false.
Proof.
  unfold input_check. case_match; [|congruence]. intros Hck Hp. rewrite Hp in Hck.
  destruct (geometry_matches event geometry current); [by left|].
  destruct (releases_held_button _ event) eqn:E; [|cbn in Hck; congruence].
  right. destruct event as [| b [] | |]; try done. by exists b.
Qed.

Lemma input_loop_sends c id geometry epoch events envs n report :
  let '(_, _, sent) := input_loop c id geometry epoch events envs n report in
  exists at_, (forall e, epoch = Some e -> at_ = e) /\
    Forall (fun s => s_at s = at_ /\ aimed geometry events envs n s) sent.
Proof.
  revert c epoch n report. induction events as [|event rest IH]; intros c epoch n report.
  { cbn. exists (default 0 epoch). split; [by intros e ->|constructor]. }
  destruct (input_check (en_before (envs n) c) (en_clk (envs n)) id geometry
              (en_current (envs n)) event) as [c2 check] eqn:Hck.
  erewrite input_loop_cons by done.
  set (at_ := match epoch with Some e => e | None => _ end).
  assert (forall e, epoch = Some e -> at_ = e) as Hat by (by intros e ->).
  assert (forall s, check = CkPass -> s_events s = [event] -> aimed geometry (event :: rest) envs n s)
    as Hhere.
  { intros s -> He _. exists 0%nat, event. rewrite Nat.add_0_r. split_and!; [done|done|].
    eapply input_check_pass, Hck. }
  destruct check as [why|buttons|].
  - exists at_. by split; [|constructor].
  - specialize (IH (en_after (envs n) c2) (Some at_) (Datatypes.S n) (add_drop report 0 1 None)).
    destruct (input_loop _ _ _ _ rest _ _ _) as [[c' r] l]. destruct IH as (a & Ha & Hl).
    specialize (Ha at_ eq_refl) as ->. exists at_. split; [done|]. apply Forall_app. split.
    + apply Forall_forall. intros s [Hs Hf]%send_releases_at. split; [done|]. intros ?. congruence.
    + eapply Forall_impl; [exact Hl|]. intros s [? ?]. split; [done|]. by apply aimed_cons.
  - cbn zeta. destruct (en_outcome (envs n)).
    + specialize (IH (en_after (envs n) c2) (Some at_) (Datatypes.S n)
        {| ir_applied := ir_applied report + 1; ir_dropped := ir_dropped report;
           ir_lost := ir_lost report |}).
      destruct (input_loop _ _ _ _ rest _ _ _) as [[c' r] l]. destruct IH as (a & Ha & Hl).
      specialize (Ha at_ eq_refl) as ->. exists at_. split; [done|]. constructor; [by split; auto|].
      eapply Forall_impl; [exact Hl|]. intros s [? ?]. split; [done|]. by apply aimed_cons.
    + exists at_. split; [done|]. repeat constructor; auto.
    + exists at_. split; [done|]. repeat constructor; auto.
Qed.

Lemma forwarded_app l l' : forwarded (l ++ l') = forwarded l ++ forwarded l'.
Proof. unfold forwarded. by rewrite List.filter_app, map_app, concat_app. Qed.

Lemma forwarded_fence l : Forall (fun s => s_fence s = true) l -> forwarded l = [].
Proof. induction 1 as [|s l Hs _ IH]; [done|]. unfold forwarded. cbn. by rewrite Hs. Qed.

Lemma input_loop_counts c id geometry epoch events envs n report :
  let '(_, res, sent) := input_loop c id geometry epoch events envs n report in
  forwarded sent `sublist_of` events /\
  match res with
  | Ok r =>
      counted r = counted report + Z.of_nat (length events) /\
      d_generation (ir_dropped r) = d_generation (ir_dropped report) /\
      ir_applied report <= ir_applied r /\ d_geometry (ir_dropped report) <= d_geometry (ir_dropped r) /\
      d_stale (ir_dropped report) <= d_stale (ir_dropped r) /\
      (d_stale (ir_dropped r) = d_stale (ir_dropped report) ->
         ir_lost r = ir_lost report /\
         Z.of_nat (length (forwarded sent)) = ir_applied r - ir_applied report)
  | Err _ => True
  end.
Proof.
  revert c epoch n report. induction events as [|event rest IH]; intros c epoch n report.
  { cbn. repeat split; try lia. constructor. }
  destruct (input_check (en_before (envs n) c) (en_clk (envs n)) id geometry
              (en_current (envs n)) event) as [c2 check] eqn:Hck.
  erewrite input_loop_cons by done.
  set (at_ := match epoch with Some e => e | None => _ end).
  assert (forall l, forwarded ({| s_events := [event]; s_at := at_; s_fence := false |} :: l)
          = event :: forwarded l) as Hev by done.
  destruct check as [why|buttons|].
  - split; [constructor; apply sublist_nil_l|]. unfold counted. cbn [length add_drop ir_applied ir_dropped
      d_stale d_geometry d_generation]. lia.
  - cbn zeta. specialize (IH (en_after (envs n) c2) (Some at_) (Datatypes.S n) (add_drop report 0 1 None)).
    destruct (input_loop _ _ _ _ rest _ _ _) as [[c' r] l]. destruct IH as [Hsub IH].
    rewrite forwarded_app, (forwarded_fence (match _ with DConfirmed => _ | _ => _ end)).
    2: { apply Forall_forall. by intros s [_ ?]%send_releases_at. }
    split; [by constructor|]. destruct r as [r|]; [|done].
    unfold counted in *. cbn [length add_drop ir_applied ir_dropped ir_lost
      d_stale d_geometry d_generation app] in *. rewrite Z.add_0_r in IH. intuition lia.
  - cbn zeta. destruct (en_outcome (envs n)).
    + specialize (IH (en_after (envs n) c2) (Some at_) (Datatypes.S n)
        {| ir_applied := ir_applied report + 1; ir_dropped := ir_dropped report;
           ir_lost := ir_lost report |}).
      destruct (input_loop _ _ _ _ rest _ _ _) as [[c' r] l]. destruct IH as [Hsub IH].
      rewrite Hev. split; [by constructor|]. destruct r as [r|]; [|done].
      unfold counted in *. cbn [length ir_applied ir_dropped ir_lost] in *. intuition lia.
    + rewrite Hev. split; [constructor; apply sublist_nil_l|]. unfold counted.
      cbn [length ir_applied ir_dropped d_stale d_geometry d_generation]. lia.
    + rewrite Hev. split; [constructor; apply sublist_nil_l|done].
Qed.

(** A human input request accounts for every event.  With the session's
    generation: the events applied, dropped as stale and dropped off the
    frame are together the coalesced request, whatever other tasks did to
    the lease between the events; with no stale event, exactly the applied
    ones were forwarded and the lease was not lost.  All sends of one request
    carry one epoch, in request order, and each forwarded pointer event was
    on the frame of its own check or releases a button.  With another
    generation nothing is sent and every event counts as such. *)
Theorem input_accounts c id generation geometry events envs :
  let '(_, res, sent) := input c id generation geometry events envs in
  (exists at_, Forall (fun s => s_at s = at_ /\ aimed geometry (coalesce events) envs 0 s) sent) /\
  forwarded sent `sublist_of` coalesce events /\
  match res with
  | Ok r =>
      if decide (generation = c_generation c) then
        counted r = Z.of_nat (length (coalesce events)) /\ d_generation (ir_dropped r) = 0 /\
        0 <= ir_applied r /\ 0 <= d_stale (ir_dropped r) /\ 0 <= d_geometry (ir_dropped r) /\
        (d_stale (ir_dropped r) = 0 ->
           ir_lost r = None /\ Z.of_nat (length (forwarded sent)) = ir_applied r)
      else
        counted r = 0 /\ d_generation (ir_dropped r) = Z.of_nat (length events) /\ sent = [] /\
        ir_lost r = err_of (check_lease c id)
  | Err _ => generation = c_generation c
  end.
Proof.
  unfold input. destruct (generation =? c_generation c) eqn:Eg; cbn [negb].
  - apply Z.eqb_eq in Eg. destruct (c_has_input c); cbn [negb].
    2: { split_and!; [by exists 0; constructor|apply sublist_nil_l|done]. }
    set (r0 := {| ir_applied := 0; ir_dropped := no_drops; ir_lost := None |}).
    pose proof (input_loop_sends c id geometry None (coalesce events) envs 0 r0) as Hs.
    pose proof (input_loop_counts c id geometry None (coalesce events) envs 0 r0) as Hc.
    destruct (input_loop _ _ _ _ _ _ _ _) as [[c' res] sent].
    destruct Hs as (a & _ & Hs), Hc as [Hsub Hc].
    split_and!; [by exists a|done|]. destruct res as [r|]; [|done].
    rewrite decide_True by done. unfold counted, r0 in *.
    cbn [ir_applied ir_dropped ir_lost no_drops d_stale d_geometry d_generation] in Hc.
    rewrite Z.sub_0_r in Hc. intuition lia.
  - apply Z.eqb_neq in Eg. rewrite decide_False by done.
    split_and!; [by exists 0; constructor|apply sublist_nil_l|done..].
Qed.

(** The lease expires exactly when it is granted and its last heartbeat
    is more than five seconds old, or its last input at least the idle
    timeout; a pending take never expires.  The end is remembered with its
    reason, advances the epoch, and leaves the agent in control. *)
Theorem expire_ends c k now idle :
  0 <= now -> 0 < idle ->
  match expire c k now idle with
  | (c', None) =>
      c' = c /\
      forall l, st_lease (c_state c) = Some l -> l_granted l = true ->
        now - l_last_heartbeat l <= HEARTBEAT_TIMEOUT /\ now - l_last_input l < idle
  | (c', Some t) =>
      exists l reason,
        st_lease (c_state c) = Some l /\ l_granted l = true /\
        (reason = HeartbeatLost /\ now - l_last_heartbeat l > HEARTBEAT_TIMEOUT \/
         reason = IdleTimeout /\ now - l_last_heartbeat l <= HEARTBEAT_TIMEOUT /\
           now - l_last_input l >= idle) /\
        st_lease (c_state c') = None /\ loss_of (c_state c') (l_id l) = Lost (Loss_reason reason) /\
        tr_epoch t = Some (next (st_epoch (c_state c))) /\
        st_epoch (c_state c') = next (st_epoch (c_state c)) /\ c_pending c' = c_pending c + 1
  end.
Proof.
  intros Hnow Hidle. unfold expire, expire_reason.
  destruct (st_lease (c_state c)) as [l|] eqn:Hl; [|by split].
  destruct (l_granted l) eqn:Hg; [|by split; [|congruence]].
  assert (forall d t0, 0 <= d -> (saturating_sub now t0 >? d) = (now - t0 >? d)) as Hsat.
  { intros d t0 Hd. unfold saturating_sub. lia. }
  rewrite Hsat by (unfold HEARTBEAT_TIMEOUT, seconds; lia).
  assert ((saturating_sub now (l_last_input l) >=? idle) = (now - l_last_input l >=? idle)) as ->.
  { unfold saturating_sub. lia. }
  destruct (now - l_last_heartbeat l >? HEARTBEAT_TIMEOUT) eqn:E1;
    [|destruct (now - l_last_input l >=? idle) eqn:E2].
  3: { split; [done|]. intros l' [= <-] _. lia. }
  all: unfold end_human, take_human; rewrite Hl, Hg;
    unfold end_lease; rewrite Hg; cbn;
    eexists l, _; split_and!; [done|done|..]; try done.
  1: left; split; [reflexivity|lia].
  2: right; split_and!; [reflexivity|lia..].
  all: eapply loss_of_last; reflexivity.
Qed.
End Facts.

(** ** Concrete runs *)

(** A session taken by a viewer at [10.0.0.5] under the lease [L]. *)
Definition demo_clk (now : Z) : Clk := {| k_now := now; k_wall := now; k_frame := 0 |}.
Definition demo_new : Ctl (list SessionEvent) :=
  ctl_new (txt "win") 3 (ev_new [] (txt "win") 3 true 0 0) true EPOCH_CONFIRM_WAIT.
Definition demo_granted : Ctl (list SessionEvent) :=
  let c := fst (take_begin demo_new (demo_clk 1) (txt "L") (txt "10.0.0.5")) in
  let c := drop_transition (fst (take_settle c (txt "L") true)) in
  fst (take_finish c (demo_clk 2) (txt "L") true).
Definition demo_pressed : Ctl (list SessionEvent) :=
  fst (input_check demo_granted (demo_clk 3) (txt "L") (800, 600) (Some (800, 600)) (RButton PbLeft true)).

Lemma expire_ends_witness :
  is_Some (snd (expire demo_granted (demo_clk 9) (seconds 6) DEFAULT_IDLE_TIMEOUT)) /\
  exists l, st_lease (c_state demo_granted) = Some l /\
    seconds 6 - l_last_heartbeat l > HEARTBEAT_TIMEOUT.
Proof.
  pose proof (expire_ends demo_granted (demo_clk 9) (seconds 6) DEFAULT_IDLE_TIMEOUT) as Hx.
  specialize (Hx ltac:(by vm_compute) ltac:(by vm_compute)).
  split; [vm_compute; eauto|].
  destruct (expire _ _ _ _) as [c' [t|]] eqn:E.
  - destruct Hx as (l & r & Hl & _ & [[_ ?]|(-> & _ & ?)] & _); [by exists l|].
    exfalso. vm_compute in Hl. injection Hl as <-. by vm_compute in H.
  - exfalso. by vm_compute in E.
Defined.

Lemma input_check_fences_witness :
  exists c', input_check demo_pressed (demo_clk 4) (txt "L") (800, 600) (Some (640, 480))
               (PointerMove 1 1) = (c', CkFenced [HButton PbLeft]) /\
             is_Some (st_lease (c_state c')).
Proof.
  pose proof (input_check_fences demo_pressed (demo_clk 4) (txt "L") (800, 600) (Some (640, 480))
                (PointerMove 1 1)) as Hx.
  destruct (input_check _ _ _ _ _ _) as [c' ck] eqn:E.
  assert (ck = CkFenced [HButton PbLeft]) as -> by (vm_compute in E; congruence).
  exists c'. split; [done|].
  destruct Hx as (_ & _ & l & l' & _ & [Hl _]%held_Ok & _); [|by rewrite Hl].
  intros l Hl. vm_compute in Hl. injection Hl as <-.
  change (held_wf [HButton PbLeft]). repeat constructor.
Defined.
