(* ===== verification/ControlSystem.v ===== *)
(** * Control, tasks and session loop together

    [Control.v] has the critical sections of [SessionControl], [LoopInput.v]
    the session loop.  This file is the transition system of everything that
    runs between them: agent calls, Cua attachments, takes, lease ends, the
    senders of input, and the loop that dequeues what they sent.  A [World] is
    the control, the loop with its queue, and the local state of the tasks;
    [step] has one rule per critical section of
    [crates/rdpilot-daemon/src/control.rs] (as its callers in [registry.rs],
    [dispatch.rs] and [ipc/mod.rs] run it), one per message to the loop, and
    one per command the loop takes.  Any task may stop, time out or be
    abandoned at any point, and any admitted sender may send any input.

    A task that may send input holds a token: the epoch it sends with and who
    it is.  Tokens are never taken away, so a task that was admitted long ago
    still sends. *)
From S2P Require Import Prelude Vocab BTreeSet InputOps HumanInput LoopInput Calendar Events Control.
From stdpp Require Import sorting.
Open Scope Z_scope.

(** ** Definitions *)

Inductive Owner := OAgent | OHuman (lease : text).

Global Instance Owner_eq_dec : EqDecision Owner.
Proof. solve_decision. Defined.

(** Where a human take ([take_within]) stands. *)
Inductive Phase :=
| PWaiting            (** from the agent: waits until nothing is in flight *)
| PSettled            (** then until no transition is pending *)
| PReleased
| PMoved (e : Z)      (** from another tab: its epoch change is sent *)
| PMovedConfirmed     (** then waits until no transition is pending *)
| PAdvanced (e : Z)   (** from the agent: its epoch change is sent *)
| PReady (confirmed : bool)
| PDropped.           (** abandoned; the guard of its transition is gone *)

Section System.
Context {S D E : Type} `{EventSink S} `{InputDatabase D E}.

Record World := {
  w_ctl : Ctl S;
  w_bootstrapping : bool;
  w_closed : bool;                            (** the session ended or is closing *)
  w_loop : LoopInput D;
  w_queue : list (Owner * LoopCommand);       (** sent, not yet taken by the loop *)
  w_answered : list Z;                        (** epoch changes the loop answered *)
  w_live : list (option text * Transition);   (** not yet discharged, with their take *)
  w_takes : gmap text Phase;
  w_used : list text;                         (** every lease id handed out *)
  w_tokens : list (Z * Owner);
  w_cua : Z;                                  (** acting Cua calls being served *)
  w_accepted : list (Z * Owner * list Operation) }.

Definition with_ctl (w : World) (c : Ctl S) : World :=
  {| w_ctl := c; w_bootstrapping := w_bootstrapping w; w_closed := w_closed w; w_loop := w_loop w;
     w_queue := w_queue w; w_answered := w_answered w; w_live := w_live w; w_takes := w_takes w;
     w_used := w_used w; w_tokens := w_tokens w; w_cua := w_cua w; w_accepted := w_accepted w |}.
Definition with_live (w : World) (l : list (option text * Transition)) : World :=
  {| w_ctl := w_ctl w; w_bootstrapping := w_bootstrapping w; w_closed := w_closed w;
     w_loop := w_loop w; w_queue := w_queue w; w_answered := w_answered w; w_live := l;
     w_takes := w_takes w; w_used := w_used w; w_tokens := w_tokens w; w_cua := w_cua w;
     w_accepted := w_accepted w |}.
Definition with_takes (w : World) (t : gmap text Phase) : World :=
  {| w_ctl := w_ctl w; w_bootstrapping := w_bootstrapping w; w_closed := w_closed w;
     w_loop := w_loop w; w_queue := w_queue w; w_answered := w_answered w; w_live := w_live w;
     w_takes := t; w_used := w_used w; w_tokens := w_tokens w; w_cua := w_cua w;
     w_accepted := w_accepted w |}.
Definition with_token (w : World) (o : Owner) : World :=
  {| w_ctl := w_ctl w; w_bootstrapping := w_bootstrapping w; w_closed := w_closed w;
     w_loop := w_loop w; w_queue := w_queue w; w_answered := w_answered w; w_live := w_live w;
     w_takes := w_takes w; w_used := w_used w;
     w_tokens := (st_epoch (c_state (w_ctl w)), o) :: w_tokens w; w_cua := w_cua w;
     w_accepted := w_accepted w |}.
Definition with_used (w : World) (id : text) : World :=
  {| w_ctl := w_ctl w; w_bootstrapping := w_bootstrapping w; w_closed := w_closed w;
     w_loop := w_loop w; w_queue := w_queue w; w_answered := w_answered w; w_live := w_live w;
     w_takes := w_takes w; w_used := id :: w_used w; w_tokens := w_tokens w; w_cua := w_cua w;
     w_accepted := w_accepted w |}.
Definition with_cua (w : World) (n : Z) : World :=
  {| w_ctl := w_ctl w; w_bootstrapping := w_bootstrapping w; w_closed := w_closed w;
     w_loop := w_loop w; w_queue := w_queue w; w_answered := w_answered w; w_live := w_live w;
     w_takes := w_takes w; w_used := w_used w; w_tokens := w_tokens w; w_cua := n;
     w_accepted := w_accepted w |}.
Definition with_queue (w : World) (q : list (Owner * LoopCommand)) : World :=
  {| w_ctl := w_ctl w; w_bootstrapping := w_bootstrapping w; w_closed := w_closed w;
     w_loop := w_loop w; w_queue := q; w_answered := w_answered w; w_live := w_live w;
     w_takes := w_takes w; w_used := w_used w; w_tokens := w_tokens w; w_cua := w_cua w;
     w_accepted := w_accepted w |}.
Definition with_flags (w : World) (bootstrapping closed : bool) : World :=
  {| w_ctl := w_ctl w; w_bootstrapping := bootstrapping; w_closed := closed;
     w_loop := w_loop w; w_queue := w_queue w; w_answered := w_answered w; w_live := w_live w;
     w_takes := w_takes w; w_used := w_used w; w_tokens := w_tokens w; w_cua := w_cua w;
     w_accepted := w_accepted w |}.

(** A transition handed out to a task. *)
Definition give (w : World) (owner : option text) (t : option Transition) : World :=
  match t with Some t => with_live w ((owner, t) :: w_live w) | None => w end.

(** The loop takes the first command: input of [o] that it accepts enters
    the history, an epoch change is answered after its releases are
    written. *)
Definition loop_takes (w : World) (o : Owner) (cmd : LoopCommand)
    (rest : list (Owner * LoopCommand)) : World :=
  let '(li, _, reply) := loop_command (w_loop w) cmd in
  {| w_ctl := w_ctl w; w_bootstrapping := w_bootstrapping w; w_closed := w_closed w; w_loop := li;
     w_queue := rest;
     w_answered := match cmd with CSetEpoch e => e :: w_answered w | _ => w_answered w end;
     w_live := w_live w; w_takes := w_takes w; w_used := w_used w; w_tokens := w_tokens w;
     w_cua := w_cua w;
     w_accepted := w_accepted w ++ map (fun x => (fst x, o, snd x)) (accepted_by cmd reply) |}.

Definition init (session : text) (generation : Z) (ev : SessionEvents S) (wait : Z)
    (bootstrapping : bool) : World :=
  {| w_ctl := ctl_new session generation ev true wait; w_bootstrapping := bootstrapping;
     w_closed := false; w_loop := li_new; w_queue := []; w_answered := []; w_live := [];
     w_takes := ∅; w_used := []; w_tokens := []; w_cua := 0; w_accepted := [] |}.

Inductive step (w : World) : World -> Prop :=
(** Agents. *)
| SBootstrap :
    w_bootstrapping w = true -> step w (with_token w OAgent)
| SBootstrapEnd : step w (with_flags w false (w_closed w))
| SAgentAdmit e :
    admit_agent_poll (w_ctl w) = Some (Ok e) -> step w (with_token w OAgent)
| SCuaAdmit k count takeover c t :
    0 <= count -> admit_cua (w_ctl w) k count takeover = (c, Ok t) ->
    step w (give (with_cua (with_ctl w c) (w_cua w + count)) None t)
| SCuaFinished count :
    0 <= count <= w_cua w ->
    step w (with_cua (with_ctl w (cua_finished (w_ctl w) count)) (w_cua w - count))
| SAgentTakeover k source c r t :
    agent_takeover (w_ctl w) k source = (c, (r, t)) -> step w (give (with_ctl w c) None t)
(** Ends of leases. *)
| SEndHuman k reason c t :
    end_human (w_ctl w) k reason = (c, t) -> step w (give (with_ctl w c) None t)
| SClose : step w (with_flags w (w_bootstrapping w) true)
| SEndHumanEnded k c t :
    w_closed w = true -> end_human_ended (w_ctl w) k = (c, t) ->
    step w (give (with_ctl w c) None t)
| SExpire k now idle c t :
    expire (w_ctl w) k now idle = (c, t) -> step w (give (with_ctl w c) None t)
| SRelease k id c t :
    ctl_release (w_ctl w) k id = (c, Ok t) -> step w (give (with_ctl w c) None (Some t))
| SDischarged owner t l1 l2 :
    w_live w = l1 ++ (owner, t) :: l2 -> owner = None ->
    step w (with_live (with_ctl w (drop_transition (w_ctl w))) (l1 ++ l2))
(** The holder. *)
| SHeartbeat k id c r :
    heartbeat (w_ctl w) k id = (c, r) -> step w (with_ctl w c)
| SBlur k id c t :
    blur (w_ctl w) k id = (c, Ok t) ->
    step w (with_token (give (with_ctl w c) None (Some t)) (OHuman id))
| SHumanLost k id geometry current event c why :
    input_check (w_ctl w) k id geometry current event = (c, CkLost why) -> step w (with_ctl w c)
| SHumanFenced k id geometry current event c buttons :
    input_check (w_ctl w) k id geometry current event = (c, CkFenced buttons) ->
    step w (with_token (with_ctl w c) (OHuman id))
| SHumanPass k id geometry current event c :
    input_check (w_ctl w) k id geometry current event = (c, CkPass) ->
    step w (with_token (with_ctl w c) (OHuman id))
(** Messages to the loop. *)
| SSend e o ops :
    (e, o) ∈ w_tokens w -> step w (with_queue w (w_queue w ++ [(o, CInput e ops)]))
| SSendEpoch owner t e :
    (owner, t) ∈ w_live w -> tr_epoch t = Some e ->
    step w (with_queue w (w_queue w ++ [(OAgent, CSetEpoch e)]))
| SSendRequest : step w (with_queue w (w_queue w ++ [(OAgent, CRequest)]))
| SLoop o cmd rest :
    w_closed w = false -> w_queue w = (o, cmd) :: rest -> step w (loop_takes w o cmd rest)
(** Human takes, of a fresh id. *)
| STakeBegin k id address c t :
    id ∉ w_used w -> w_bootstrapping w = false ->
    take_begin (w_ctl w) k id address = (c, t) ->
    step w (with_used (with_takes (give (with_ctl w c) (Some id) t)
              (<[id := match t with
                       | Some t => PMoved (default 0 (tr_epoch t))
                       | None => PWaiting end]> (w_takes w))) id)
| STakeSettled id :
    w_takes w !! id = Some PWaiting -> wait_settled_poll (w_ctl w) = Some tt ->
    step w (with_takes w (<[id := PSettled]> (w_takes w)))
| STakeReleased id :
    w_takes w !! id = Some PSettled -> wait_released_poll (w_ctl w) = Some tt ->
    step w (with_takes w (<[id := PReleased]> (w_takes w)))
| STakeTimeout id c r :
    w_takes w !! id = Some PWaiting \/ w_takes w !! id = Some PSettled ->
    take_settle (w_ctl w) id false = (c, r) ->
    step w (with_takes (with_ctl w c) (delete id (w_takes w)))
| STakeDisplaced id c r :
    w_takes w !! id = Some PReleased -> take_settle (w_ctl w) id true = (c, Err r) ->
    step w (with_takes (with_ctl w c) (delete id (w_takes w)))
| STakeAdvance id c t :
    w_takes w !! id = Some PReleased -> take_settle (w_ctl w) id true = (c, Ok t) ->
    step w (with_takes (give (with_ctl w c) (Some id) (Some t))
              (<[id := PAdvanced (default 0 (tr_epoch t))]> (w_takes w)))
| STakeDischarged id e t confirmed l1 l2 :
    w_takes w !! id = Some (PAdvanced e) -> w_live w = l1 ++ (Some id, t) :: l2 ->
    (confirmed = true -> e ∈ w_answered w) ->
    step w (with_takes (with_live (with_ctl w (drop_transition (w_ctl w))) (l1 ++ l2))
              (<[id := PReady confirmed]> (w_takes w)))
| STakeMovedDischarged id e t confirmed l1 l2 :
    w_takes w !! id = Some (PMoved e) -> w_live w = l1 ++ (Some id, t) :: l2 ->
    (confirmed = true -> e ∈ w_answered w) ->
    step w (with_takes (with_live (with_ctl w (drop_transition (w_ctl w))) (l1 ++ l2))
              (<[id := if confirmed then PMovedConfirmed else PReady false]> (w_takes w)))
| STakeMovedReleased id released_ :
    w_takes w !! id = Some PMovedConfirmed ->
    (released_ = true -> wait_released_poll (w_ctl w) = Some tt) ->
    step w (with_takes w (<[id := PReady released_]> (w_takes w)))
| STakeFinish k id confirmed c r :
    w_takes w !! id = Some (PReady confirmed) ->
    take_finish (w_ctl w) k id confirmed = (c, r) ->
    step w (with_takes (with_ctl w c) (delete id (w_takes w)))
| STakeRecord k address from_agent :
    step w (with_ctl w (take_record (w_ctl w) k address from_agent))
| STakeGuard id e t l1 l2 :
    w_takes w !! id = Some (PAdvanced e) \/ w_takes w !! id = Some (PMoved e) ->
    w_live w = l1 ++ (Some id, t) :: l2 ->
    step w (with_takes (with_live (with_ctl w (drop_transition (w_ctl w))) (l1 ++ l2))
              (<[id := PDropped]> (w_takes w)))
| STakeAbandon id phase :
    w_takes w !! id = Some phase ->
    (forall e, phase <> PAdvanced e /\ phase <> PMoved e) ->
    step w (with_takes (with_ctl w (take_abandon (w_ctl w) id)) (delete id (w_takes w))).

Definition reachable (session : text) (generation : Z) (ev : SessionEvents S) (wait : Z)
    (bootstrapping : bool) : World -> Prop :=
  rtc step (init session generation ev wait bootstrapping).
End System.
Arguments World S D : clear implicits.

(** ** The invariant *)

Section Invariant.
Context {S D E : Type} `{EventSink S} `{InputDatabaseLaws D E}.
Implicit Types (c : Ctl S) (w : World S D).

Definition lease_view c : option (text * bool) :=
  option_map (fun l => (l_id l, l_granted l)) (st_lease (c_state c)).
Definition epoch_of w : Z := st_epoch (c_state (w_ctl w)).
Definition inflight_of w : Z := st_inflight (c_state (w_ctl w)).

(** A take before its epoch change: the agent still owns the epoch. *)
Definition agent_phase (ph : Phase) : bool :=
  match ph with PWaiting | PSettled | PReleased => true | _ => false end.

(** Whose token may be of the current epoch. *)
Definition owner_now w (o : Owner) : Prop :=
  match lease_view (w_ctl w) with
  | None => o = OAgent
  | Some (id, true) => o = OHuman id
  | Some (id, false) =>
      match w_takes w !! id with
      | Some ph => agent_phase ph = true /\ o = OAgent
      | None => False
      end
  end.

(** What holds of the current pending take in its phase. *)
Definition phase_ok w (ph : Phase) : Prop :=
  match ph with
  | PWaiting | PDropped => True
  | PSettled | PReleased => inflight_of w = 0
  | PMoved e | PAdvanced e => e = epoch_of w /\ inflight_of w = 0
  | PMovedConfirmed | PReady true => li_epoch (w_loop w) = epoch_of w /\ inflight_of w = 0
  | PReady false => inflight_of w = 0
  end.

Definition lease_ok w : Prop :=
  match lease_view (w_ctl w) with
  | None => True
  | Some (id, true) =>
      w_takes w !! id = None /\ id ∈ w_used w /\ li_epoch (w_loop w) = epoch_of w /\
      inflight_of w = 0 /\
      (w_closed w = false -> forall e, (e, OHuman id) ∈ w_tokens w -> e = epoch_of w)
  | Some (id, false) =>
      id ∈ w_used w /\ (forall e, (e, OHuman id) ∉ w_tokens w) /\
      exists ph, w_takes w !! id = Some ph /\ phase_ok w ph
  end.

(** One owner per epoch, and one epoch per lease. *)
Definition single (l : list (Z * Owner)) : Prop :=
  (forall e o o', (e, o) ∈ l -> (e, o') ∈ l -> o = o') /\
  (forall e e' id, (e, OHuman id) ∈ l -> (e', OHuman id) ∈ l -> e = e').

Definition history w : list (Z * list Operation) := map (fun x => (fst (fst x), snd x)) (w_accepted w).

Record Inv w : Prop := {
  i_input : c_has_input (w_ctl w) = true;
  i_pending : c_pending (w_ctl w) = Z.of_nat (length (w_live w));
  i_cua : inflight_of w = w_cua w /\ 0 <= w_cua w;
  i_boot : w_bootstrapping w = true -> lease_view (w_ctl w) = None;
  i_tokens : forall e o, (e, o) ∈ w_tokens w -> e <= epoch_of w;
  i_used : forall e id, (e, OHuman id) ∈ w_tokens w -> id ∈ w_used w;
  i_takes : forall id ph, w_takes w !! id = Some ph -> id ∈ w_used w;
  i_queue : forall o e ops, (o, CInput e ops) ∈ w_queue w -> (e, o) ∈ w_tokens w;
  i_queue_epoch : forall o e, (o, CSetEpoch e) ∈ w_queue w -> e <= epoch_of w;
  i_live : forall owner t e, (owner, t) ∈ w_live w -> tr_epoch t = Some e -> e <= epoch_of w;
  i_loop : li_epoch (w_loop w) <= epoch_of w;
  i_answered : forall e, e ∈ w_answered w -> e <= li_epoch (w_loop w);
  i_lease : lease_ok w;
  i_owner : w_closed w = false -> forall o, (epoch_of w, o) ∈ w_tokens w -> owner_now w o;
  i_single : w_closed w = false -> single (w_tokens w);
  i_accepted : forall x, x ∈ map fst (w_accepted w) -> x ∈ w_tokens w;
  i_accepted_single : single (map fst (w_accepted w));
  i_explains : explains (history w) (w_loop w);
}.

Lemma single_sub l l' : (forall x, x ∈ l -> x ∈ l') -> single l' -> single l.
Proof. intros Hs [H1' H2']. split; intros; eauto. Qed.

(** *** Effects of the critical sections *)

Definition same_view c c' : Prop :=
  lease_view c' = lease_view c /\ st_epoch (c_state c') = st_epoch (c_state c) /\
  st_inflight (c_state c') = st_inflight (c_state c) /\ c_pending c' = c_pending c /\
  c_has_input c' = c_has_input c.

(** The lease, if any, is over: the epoch advances when it was granted, and
    the transition is pending. *)
Definition ends c c' (t : option Transition) : Prop :=
  match lease_view c with
  | None => same_view c c' /\ t = None
  | Some (_, granted) =>
      lease_view c' = None /\
      st_epoch (c_state c') = (if granted then next (st_epoch (c_state c)) else st_epoch (c_state c)) /\
      st_inflight (c_state c') = st_inflight (c_state c) /\ c_pending c' = c_pending c + 1 /\
      c_has_input c' = c_has_input c /\
      exists t', t = Some t' /\
        tr_epoch t' = if granted then Some (st_epoch (c_state c')) else None
  end.

Lemma same_view_refl c : same_view c c.
Proof. by repeat split. Qed.

Lemma agent_takeover_locked_ends c k source :
  ends c (fst (agent_takeover_locked c k source)) (snd (agent_takeover_locked c k source)).
Proof.
  unfold ends, lease_view, agent_takeover_locked.
  destruct (st_lease (c_state c)) as [l|] eqn:Hl; [|by repeat split].
  unfold end_lease. cbn. destruct (l_granted l); cbn; repeat split; eauto.
Qed.

Lemma end_human_ends c k reason : ends c (fst (end_human c k reason)) (snd (end_human c k reason)).
Proof.
  unfold ends, lease_view, end_human, take_human.
  destruct (st_lease (c_state c)) as [l|] eqn:Hl; [|by repeat split].
  unfold end_lease. cbn. destruct (l_granted l); cbn; repeat split; eauto.
Qed.

Lemma expire_ends_or_same c k now idle :
  ends c (fst (expire c k now idle)) (snd (expire c k now idle)) \/
  expire c k now idle = (c, None).
Proof. unfold expire. case_match; [left; apply end_human_ends|by right]. Qed.

Lemma release_ends c k id c' t : ctl_release c k id = (c', Ok t) -> ends c c' (Some t).
Proof.
  unfold ctl_release. destruct (st_held (c_state c) id) as [l|] eqn:Hl; [|congruence].
  apply held_Ok in Hl as (Hl & _ & Hg). cbn. intros [= <- <-].
  unfold ends, lease_view. rewrite Hl. cbn. rewrite Hg. repeat split; eauto.
Qed.

Lemma end_human_ended_view c k :
  lease_view (fst (end_human_ended c k)) = None /\
  st_epoch (c_state (fst (end_human_ended c k))) = st_epoch (c_state c) /\
  st_inflight (c_state (fst (end_human_ended c k))) = st_inflight (c_state c) /\
  c_has_input (fst (end_human_ended c k)) = c_has_input c /\
  match snd (end_human_ended c k) with
  | None => c_pending (fst (end_human_ended c k)) = c_pending c
  | Some t => c_pending (fst (end_human_ended c k)) = c_pending c + 1 /\ tr_epoch t = None
  end.
Proof.
  unfold end_human_ended, take_human, lease_view.
  destruct (st_lease (c_state c)) as [l|] eqn:Hl; cbn; [|by rewrite Hl].
  destruct (l_granted l); by cbn.
Qed.

Lemma heartbeat_same c k id : same_view c (fst (heartbeat c k id)).
Proof.
  unfold heartbeat. destruct (st_held (c_state c) id) as [l|] eqn:Hl; [|apply same_view_refl].
  apply held_Ok in Hl as (Hl & _ & _). unfold same_view, lease_view. cbn. by rewrite Hl.
Qed.

Lemma blur_effect c k id c' t :
  blur c k id = (c', Ok t) ->
  lease_view c = Some (id, true) /\ lease_view c' = Some (id, true) /\
  st_epoch (c_state c') = st_epoch (c_state c) /\
  st_inflight (c_state c') = st_inflight (c_state c) /\ c_pending c' = c_pending c + 1 /\
  c_has_input c' = c_has_input c /\ tr_epoch t = None.
Proof.
  unfold blur. destruct (st_held (c_state c) id) as [l|] eqn:Hl; [|congruence].
  apply held_Ok in Hl as (Hl & Hid & Hg). cbn. intros [= <- <-].
  unfold lease_view. rewrite Hl. cbn. by rewrite Hg, Hid.
Qed.

Lemma input_check_view c k id geometry current event :
  same_view c (fst (input_check c k id geometry current event)) /\
  ((forall why, snd (input_check c k id geometry current event) <> CkLost why) ->
   lease_view c = Some (id, true)).
Proof.
  unfold input_check. destruct (st_held (c_state c) id) as [l|why] eqn:Hl.
  2: { split; [apply same_view_refl|]. intros Hn. by destruct (Hn why). }
  apply held_Ok in Hl as (Hl & Hid & Hg).
  assert (lease_view c = Some (id, true)) as Hv by (unfold lease_view; rewrite Hl; cbn; congruence).
  split; [|done]. unfold same_view. rewrite Hv.
  destruct (_ && negb (releases_held_button _ _)); unfold lease_view; cbn; by rewrite Hid, Hg.
Qed.

Lemma take_begin_effect c k id address c' t :
  take_begin c k id address = (c', t) ->
  lease_view c' = Some (id, false) /\ c_has_input c' = c_has_input c /\
  st_inflight (c_state c') = st_inflight (c_state c) /\
  match lease_view c with
  | Some (_, true) =>
      st_epoch (c_state c') = next (st_epoch (c_state c)) /\ c_pending c' = c_pending c + 1 /\
      exists t', t = Some t' /\ tr_epoch t' = Some (st_epoch (c_state c'))
  | _ => st_epoch (c_state c') = st_epoch (c_state c) /\ c_pending c' = c_pending c /\ t = None
  end.
Proof.
  unfold take_begin, lease_view. destruct (st_lease (c_state c)) as [l|]; cbn.
  - destruct (l_granted l); cbn; intros [= <- <-]; cbn; repeat split; eauto.
  - intros [= <- <-]. by repeat split.
Qed.

Lemma is_current_view c id : is_current c id = true <-> exists g, lease_view c = Some (id, g).
Proof.
  unfold is_current, lease_view. destruct (st_lease (c_state c)) as [l|]; cbn.
  - rewrite bool_decide_eq_true. split; [intros <-; eauto|]. intros [g [= ? ?]]. done.
  - split; [done|]. by intros [g ?].
Qed.

(** The sections of a take that only may drop the pending lease. *)
Definition drops c c' : Prop :=
  (same_view c c' \/ lease_view c' = None) /\
  st_epoch (c_state c') = st_epoch (c_state c) /\
  st_inflight (c_state c') = st_inflight (c_state c) /\ c_pending c' = c_pending c /\
  c_has_input c' = c_has_input c.

Lemma take_settle_false c id c' r :
  take_settle c id false = (c', r) ->
  drops c c' /\ (forall g, lease_view c' <> Some (id, g)) /\
  (lease_view c' = None -> lease_view c = None \/ exists g, lease_view c = Some (id, g)).
Proof.
  unfold take_settle. destruct (is_current c id) eqn:Hc; intros [= <- <-].
  - apply is_current_view in Hc. split; [split; [by right|done]|]. split; [done|by right].
  - split; [split; [left; apply same_view_refl|done]|]. split; [|by left]. intros g Hv.
    assert (is_current c id = true) by (apply is_current_view; eauto). congruence.
Qed.

Lemma take_settle_lost c id c' r :
  take_settle c id true = (c', Err r) -> c' = c /\ forall g, lease_view c' <> Some (id, g).
Proof.
  unfold take_settle. destruct (is_current c id) eqn:Hc; [by destruct (advance c)|].
  intros [= <- <-]. split; [done|]. intros g Hv.
  assert (is_current c id = true) by (apply is_current_view; eauto). congruence.
Qed.

Lemma take_settle_advances c id c' t :
  take_settle c id true = (c', Ok t) ->
  (exists g, lease_view c = Some (id, g)) /\ lease_view c' = lease_view c /\
  st_epoch (c_state c') = next (st_epoch (c_state c)) /\ tr_epoch t = Some (st_epoch (c_state c')) /\
  st_inflight (c_state c') = st_inflight (c_state c) /\ c_pending c' = c_pending c + 1 /\
  c_has_input c' = c_has_input c.
Proof.
  unfold take_settle. destruct (is_current c id) eqn:Hc; [|congruence].
  apply is_current_view in Hc. cbn. intros [= <- <-]. by repeat split.
Qed.

Lemma take_finish_effect c k id confirmed c' r :
  take_finish c k id confirmed = (c', r) ->
  st_epoch (c_state c') = st_epoch (c_state c) /\
  st_inflight (c_state c') = st_inflight (c_state c) /\ c_pending c' = c_pending c /\
  c_has_input c' = c_has_input c /\
  if is_current c id
  then lease_view c' = if confirmed then Some (id, true) else None
  else c' = c.
Proof.
  unfold take_finish, is_current, lease_view. destruct (st_lease (c_state c)) as [l|] eqn:Hl.
  - destruct (bool_decide (l_id l = id)) eqn:Hid; [|by intros [= <- <-]].
    apply bool_decide_eq_true in Hid. destruct confirmed; intros [= <- <-]; cbn; by rewrite ?Hid.
  - by intros [= <- <-].
Qed.

Lemma take_abandon_effect c id :
  drops c (take_abandon c id) /\ lease_view (take_abandon c id) <> Some (id, false) /\
  (lease_view (take_abandon c id) = None ->
   lease_view c = None \/ exists g, lease_view c = Some (id, g)).
Proof.
  assert (drops c c) as Hd by (split; [left; apply same_view_refl|done]).
  unfold take_abandon. destruct (st_lease (c_state c)) as [l|] eqn:Hl.
  2: { split_and!; [done|unfold lease_view; by rewrite Hl|auto]. }
  destruct (bool_decide (l_id l = id)) eqn:Hid, (l_granted l) eqn:Hg; cbn [andb negb].
  2: { apply bool_decide_eq_true in Hid. split_and!; [by split; [right|]|done|].
       unfold lease_view. rewrite Hl. cbn. rewrite Hid. eauto. }
  all: split_and!; [done| |auto]; unfold lease_view; rewrite Hl; cbn; rewrite Hg; try congruence.
  apply bool_decide_eq_false in Hid. congruence.
Qed.

(** *** Preservation, move by move *)

Ltac unfold_inv :=
  unfold epoch_of, inflight_of, owner_now, lease_ok, phase_ok, epoch_of, inflight_of, history in *.

Lemma inv_same w c : Inv w -> same_view (w_ctl w) c -> Inv (with_ctl w c).
Proof.
  intros [] (Hv & He & Hi & Hp & Hh). split; unfold_inv; cbn; rewrite ?Hv, ?He, ?Hi, ?Hp, ?Hh; auto.
Qed.

Lemma owner_now_fun w o o' : owner_now w o -> owner_now w o' -> o = o'.
Proof. unfold owner_now. repeat case_match; intuition congruence. Qed.

Lemma inv_ends w c t :
  Inv w -> ends (w_ctl w) c t -> st_epoch (c_state c) < u64_max -> Inv (give (with_ctl w c) None t).
Proof.
  intros HI He Hmax. unfold ends in He.
  destruct (lease_view (w_ctl w)) as [[id g]|] eqn:Hv.
  2: { destruct He as [Hs ->]. by apply inv_same. }
  destruct He as (Hv' & He & Hi & Hp & Hh & t' & -> & Ht).
  assert (st_epoch (c_state (w_ctl w)) <= st_epoch (c_state c) /\
          (g = true -> st_epoch (c_state (w_ctl w)) < st_epoch (c_state c))) as [Hle Hlt].
  { destruct g; [|by rewrite He; split; [lia|]].
    unfold next, u64_saturating_add in *. lia. }
  destruct HI. split; unfold_inv; cbn; rewrite ?Hv', ?Hi, ?Hp, ?Hh; rewrite ?Hv in *; auto; try lia.
  - intros e o Ho. specialize (i_tokens0 _ _ Ho). lia.
  - intros o e Ho. specialize (i_queue_epoch0 _ _ Ho). lia.
  - intros owner t e [[= -> ->]|Hin]%elem_of_cons Hte.
    + destruct g; [|congruence]. rewrite Ht in Hte. injection Hte as <-. lia.
    + specialize (i_live0 _ _ _ Hin Hte). lia.
  - intros Hc o Ho. specialize (i_tokens0 _ _ Ho). destruct g; [lia|].
    rewrite He in Ho. specialize (i_owner0 Hc _ Ho). case_match; tauto.
Qed.

Lemma inv_token w o : Inv w -> owner_now w o -> Inv (with_token w o).
Proof.
  intros HI Ho. pose proof (owner_now_fun w o) as Hfun.
  assert (forall id, o = OHuman id -> lease_view (w_ctl w) = Some (id, true)) as Hgr.
  { intros id ->. unfold owner_now in Ho. repeat case_match; intuition congruence. }
  destruct HI. split; unfold_inv; cbn; auto.
  - intros e o' [[= -> ->]|Hin]%elem_of_cons; [lia|eauto].
  - intros e id [[= -> <-]|Hin]%elem_of_cons; [|eauto].
    specialize (Hgr _ eq_refl). rewrite Hgr in i_lease0. tauto.
  - intros o' e ops Hin. apply elem_of_cons. eauto.
  - destruct (lease_view (w_ctl w)) as [[id []]|] eqn:Hv; [| |done].
    + destruct i_lease0 as (? & ? & ? & ? & Hall). split_and!; auto.
      intros Hc e [[= -> _]|Hin]%elem_of_cons; auto.
    + destruct i_lease0 as (? & Hno & ?). split_and!; auto.
      intros e [[= -> <-]|Hin]%elem_of_cons; [|by eapply Hno].
      specialize (Hgr _ eq_refl). congruence.
  - intros Hc o' [[= ->]|Hin]%elem_of_cons; [exact Ho|exact (i_owner0 Hc _ Hin)].
  - intros Hc. destruct (i_single0 Hc) as [Hs1 Hs2]. split.
    + intros e o1 o2 H1' H2'.
      assert (forall o3, (st_epoch (c_state (w_ctl w)), o3) ∈ w_tokens w -> o = o3) as Ho3.
      { intros o3 Hin. exact (Hfun _ Ho (i_owner0 Hc _ Hin)). }
      apply elem_of_cons in H1' as [E1|H1']; apply elem_of_cons in H2' as [E2|H2'];
        try injection E1 as -> ->; try injection E2; intros; subst; eauto using eq_sym.
    + intros e e' id H1' H2'.
      assert (forall e0, (e0, OHuman id) ∈ w_tokens w -> o = OHuman id ->
                     e0 = st_epoch (c_state (w_ctl w))) as Hat.
      { intros e0 Hin Hid. specialize (Hgr _ Hid). rewrite Hgr in i_lease0.
        destruct i_lease0 as (_ & _ & _ & _ & Hall). by apply Hall. }
      apply elem_of_cons in H1' as [E1|H1']; apply elem_of_cons in H2' as [E2|H2'];
        try injection E1 as -> Hid1; try injection E2; intros; subst; eauto using eq_sym.
  - intros x Hx. apply elem_of_cons. auto.
Qed.

Lemma inv_enqueue w o cmd :
  Inv w ->
  match cmd with
  | CInput e _ => (e, o) ∈ w_tokens w
  | CSetEpoch e => e <= epoch_of w
  | CRequest => True
  end -> Inv (with_queue w (w_queue w ++ [(o, cmd)])).
Proof.
  intros [] Hcmd. split; unfold_inv; cbn; auto.
  - intros o' e ops [Hin|[= -> <-]%list_elem_of_singleton]%elem_of_app; eauto.
  - intros o' e [Hin|[= -> <-]%list_elem_of_singleton]%elem_of_app; eauto.
Qed.

Lemma inv_discharge w l1 x l2 :
  Inv w -> w_live w = l1 ++ x :: l2 ->
  Inv (with_live (with_ctl w (drop_transition (w_ctl w))) (l1 ++ l2)).
Proof.
  intros [] Hl. split; unfold_inv; cbn; auto.
  - rewrite i_pending0, Hl, !length_app. cbn [length]. lia.
  - intros owner t e Hin. apply (i_live0 owner). rewrite Hl. set_solver.
Qed.

Lemma inv_drops w c :
  Inv w -> drops (w_ctl w) c ->
  (forall id, lease_view c = None -> lease_view (w_ctl w) <> Some (id, true)) -> Inv (with_ctl w c).
Proof.
  intros HI ([Hs|Hn] & He & Hi & Hp & Hh) Hg; [by apply inv_same|].
  destruct HI. split; unfold_inv; cbn; rewrite ?Hn, ?He, ?Hi, ?Hp, ?Hh; auto.
  intros Hc o Ho. specialize (i_owner0 Hc o Ho).
  destruct (lease_view (w_ctl w)) as [[id []]|] eqn:Hv; [by destruct (Hg id)| |done].
  case_match; tauto.
Qed.

Lemma inv_phase w id ph0 ph :
  Inv w -> w_takes w !! id = Some ph0 -> agent_phase ph = agent_phase ph0 ->
  (lease_view (w_ctl w) = Some (id, false) -> phase_ok w ph0 -> phase_ok w ph) ->
  Inv (with_takes w (<[id := ph]> (w_takes w))).
Proof.
  intros [] Hph0 Hag Hok. split; auto.
  - cbn. intros id' ph'. destruct (decide (id = id')) as [<-|Hne]; [|by rewrite lookup_insert_ne; eauto].
    intros _. eauto.
  - unfold_inv. cbn. destruct (lease_view (w_ctl w)) as [[id' []]|] eqn:Hv; [| |done].
    + rewrite lookup_insert_ne; [done|]. intros ->. intuition congruence.
    + destruct i_lease0 as (? & ? & ph1 & Hph1 & Hok1). split_and!; auto.
      destruct (decide (id = id')) as [<-|Hne].
      * exists ph. split; [by rewrite lookup_insert_eq|]. apply Hok; [done|]. by simplify_eq.
      * exists ph1. by rewrite lookup_insert_ne.
  - intros Hc o Ho. specialize (i_owner0 Hc o Ho). unfold_inv. cbn.
    destruct (lease_view (w_ctl w)) as [[id' []]|] eqn:Hv; [done| |done].
    destruct (decide (id = id')) as [<-|Hne].
    + rewrite lookup_insert_eq, Hag. by rewrite Hph0 in i_owner0.
    + by rewrite lookup_insert_ne.
Qed.

Lemma inv_forget w id :
  Inv w -> lease_view (w_ctl w) <> Some (id, false) -> Inv (with_takes w (delete id (w_takes w))).
Proof.
  intros [] Hv. split; auto.
  - cbn. intros id' ph'. rewrite lookup_delete_Some. intros [_ ?]. eauto.
  - unfold_inv. cbn. destruct (lease_view (w_ctl w)) as [[id' []]|] eqn:Hv'; [| |done].
    + destruct (decide (id = id')) as [<-|]; [|by rewrite lookup_delete_ne].
      rewrite lookup_delete_eq. tauto.
    + by rewrite lookup_delete_ne by congruence.
  - intros Hc o Ho. specialize (i_owner0 Hc o Ho). unfold_inv. cbn.
    destruct (lease_view (w_ctl w)) as [[id' []]|] eqn:Hv'; [done| |done].
    by rewrite lookup_delete_ne by congruence.
Qed.

Lemma loop_command_epoch (li : LoopInput D) cmd :
  li_epoch (fst (fst (loop_command (E := E) li cmd))) =
    match cmd with
    | CInput e _ | CSetEpoch e => Z.max (li_epoch li) e
    | CRequest => li_epoch li
    end.
Proof.
  destruct cmd as [e ops|e|]; cbn [loop_command]; [| |done].
  - destruct (Z.lt_ge_cases e (li_epoch li)) as [He|He].
    + rewrite apply_stale by done. cbn. lia.
    + destruct (apply_accepted (E := E) li e ops He) as (Hok & Hep & _).
      destruct (LoopInput.apply li e ops) as [li' [evs|?]]; [|done]. cbn in *. lia.
  - pose proof (change_epoch_epoch (E := E) li e) as H3.
    destruct (change_epoch li e) as [li' []]; done.
Qed.

Lemma history_loop w o cmd rest :
  history (loop_takes (E := E) w o cmd rest)
  = history w ++ accepted_by cmd (snd (loop_command (E := E) (w_loop w) cmd)).
Proof.
  unfold history, loop_takes. destruct (loop_command _ cmd) as [[li out] reply]. cbn.
  rewrite map_app, map_map. f_equal. induction (accepted_by cmd reply) as [|[e ops] l IH]; [done|].
  cbn. f_equal. exact IH.
Qed.

Lemma inv_loop w o cmd rest :
  Inv w -> w_closed w = false -> w_queue w = (o, cmd) :: rest -> Inv (loop_takes (E := E) w o cmd rest).
Proof.
  intros HI Hcl Hq. pose proof (history_loop w o cmd rest) as Hh.
  pose proof (loop_command_epoch (w_loop w) cmd) as He.
  assert (match cmd with CInput e _ | CSetEpoch e => e <= epoch_of w | CRequest => True end) as Hce.
  { destruct HI. destruct cmd as [e ops|e|]; [|eapply i_queue_epoch0; rewrite Hq; left|done].
    eapply i_tokens0, i_queue0. rewrite Hq. left. }
  pose proof (explains_command (E := E) (history w) (w_loop w) cmd (i_explains _ HI)) as Hex.
  unfold loop_takes in *. destruct (loop_command (w_loop w) cmd) as [[li out] reply] eqn:Hlc.
  destruct Hex as [Hex Hmono]. cbn in He.
  assert (li_epoch li <= epoch_of w) as Hli.
  { destruct HI. destruct cmd; unfold epoch_of in *; lia. }
  assert (forall x, x ∈ map fst (w_accepted w ++ map (fun x => (fst x, o, snd x)) (accepted_by cmd reply)) ->
                    x ∈ w_tokens w) as Hacc.
  { destruct HI. intros x. rewrite map_app, elem_of_app. intros [Hx|Hx]; [auto|].
    destruct cmd as [e ops|e|]; cbn in Hx; [|by apply not_elem_of_nil in Hx..].
    destruct reply as [[|]| | |]; cbn in Hx; try (by apply not_elem_of_nil in Hx).
    apply list_elem_of_singleton in Hx as ->. eapply i_queue0. rewrite Hq. left. }
  assert (li_epoch (w_loop w) = epoch_of w -> li_epoch li = epoch_of w) as Hst by lia.
  destruct HI. split; try (unfold_inv; cbn; by auto).
  - intros o' e ops Hin. cbn in Hin. eapply i_queue0. rewrite Hq. by right.
  - intros o' e Hin. cbn in Hin. eapply i_queue_epoch0. rewrite Hq. by right.
  - cbn. intros e Hin. destruct cmd as [e' ops|e'|]; try (specialize (i_answered0 e Hin); lia).
    apply elem_of_cons in Hin as [->|Hin]; [lia|]. specialize (i_answered0 e Hin). lia.
  - unfold_inv. cbn. destruct (lease_view (w_ctl w)) as [[id []]|]; [| |done].
    + intuition.
    + destruct i_lease0 as (? & ? & ph & ? & Hph). split_and!; auto. exists ph. split; [done|].
      destruct ph as [| | | | | |[]|]; intuition.
  - cbn. eapply single_sub, i_single0, Hcl. exact Hacc.
  - rewrite Hh. exact Hex.
Qed.

Lemma inv_cua w c n :
  Inv w -> lease_view c = lease_view (w_ctl w) -> st_epoch (c_state c) = epoch_of w ->
  c_pending c = c_pending (w_ctl w) -> c_has_input c = c_has_input (w_ctl w) ->
  st_inflight (c_state c) = n -> 0 <= n ->
  lease_view (w_ctl w) = None \/ (w_cua w = 0 -> n = 0) ->
  Inv (with_cua (with_ctl w c) n).
Proof.
  intros [] Hv He Hp Hh Hi Hn Hor.
  split; unfold_inv; cbn; rewrite ?Hv, ?He, ?Hi, ?Hp, ?Hh; auto.
  rewrite (proj1 i_cua0) in i_lease0.
  destruct (lease_view (w_ctl w)) as [[id []]|]; [| |done]; destruct Hor as [?|Hor]; try done.
  - intuition.
  - destruct i_lease0 as (? & ? & ph & ? & Hph). split_and!; auto. exists ph. split; [done|].
    destruct ph as [| | | | | |[]|]; intuition.
Qed.

Lemma inv_flags w b cl :
  Inv w -> (b = true -> w_bootstrapping w = true) -> (cl = false -> w_closed w = false) ->
  Inv (with_flags w b cl).
Proof.
  intros [] Hb Hc. split; unfold_inv; cbn; auto.
  - destruct (lease_view (w_ctl w)) as [[id []]|]; intuition.
  - intros Hcl o Ho. exact (i_owner0 (Hc Hcl) o Ho).
Qed.

Lemma inv_ended w k :
  Inv w -> w_closed w = true ->
  Inv (give (with_ctl w (fst (end_human_ended (w_ctl w) k))) None (snd (end_human_ended (w_ctl w) k))).
Proof.
  intros [] Hc. destruct (end_human_ended_view (w_ctl w) k) as (Hv & He & Hi & Hh & Ht).
  destruct (end_human_ended (w_ctl w) k) as [c [t|]]; cbn [fst snd] in *.
  - destruct Ht as [Hp Ht]. split; unfold_inv; cbn; rewrite ?Hv, ?He, ?Hi, ?Hp, ?Hh; auto;
      try congruence; [lia|].
    intros owner t' e [[= -> ->]|Hin]%elem_of_cons; [congruence|eauto].
  - split; unfold_inv; cbn; rewrite ?Hv, ?He, ?Hi, ?Ht, ?Hh; auto; congruence.
Qed.

(** An advanced epoch: nobody has a token of it. *)
Lemma fresh_epoch w e o :
  Inv w -> e = next (epoch_of w) -> e < u64_max -> (e, o) ∉ w_tokens w.
Proof.
  intros HI -> Hmax Hin. specialize (i_tokens _ HI _ _ Hin).
  unfold next, u64_saturating_add in *. lia.
Qed.

Lemma next_le e : next e < u64_max -> e < next e.
Proof. unfold next, u64_saturating_add. lia. Qed.

(** A current pending take is in a phase that is right for it; a task that
    still takes an id does not hold it. *)
Lemma current_take w id g ph :
  Inv w -> lease_view (w_ctl w) = Some (id, g) -> w_takes w !! id = Some ph ->
  g = false /\ phase_ok w ph /\ id ∈ w_used w /\ forall e, (e, OHuman id) ∉ w_tokens w.
Proof.
  intros HI Hv Hph. pose proof (i_lease _ HI) as Hl. unfold lease_ok in Hl. rewrite Hv in Hl.
  destruct g; [destruct Hl; congruence|]. destruct Hl as (? & ? & ph' & ? & ?).
  simplify_eq. done.
Qed.

Lemma inv_begin w k id address c t :
  Inv w -> id ∉ w_used w -> w_bootstrapping w = false ->
  take_begin (w_ctl w) k id address = (c, t) -> st_epoch (c_state c) < u64_max ->
  Inv (with_used (with_takes (give (with_ctl w c) (Some id) t)
         (<[id := match t with Some t => PMoved (default 0 (tr_epoch t)) | None => PWaiting end]>
            (w_takes w))) id).
Proof.
  intros HI Hid Hb Hbegin Hmax.
  apply take_begin_effect in Hbegin as (Hv & Hh & Hi & Hbegin).
  pose proof (fun o => fresh_epoch w (st_epoch (c_state c)) o HI) as Hfresh.
  assert (w_takes w !! id = None) as Hnone.
  { destruct (w_takes w !! id) eqn:E1; [|done]. by destruct Hid; eapply i_takes. }
  assert (forall e, (e, OHuman id) ∉ w_tokens w) as Htok.
  { intros e Hin. by apply Hid, (i_used _ HI e). }
  assert (inflight_of w = 0 -> st_inflight (c_state c) = 0) as Hinf by (by rewrite Hi).
  assert (forall A B (x : A) (y : B), (x, y) = (x, y)) as _ by done.
  destruct HI.
  destruct (lease_view (w_ctl w)) as [[id0 []]|] eqn:Hv0.
  1: destruct Hbegin as (He & Hp & t' & -> & Ht).
  2, 3: destruct Hbegin as (He & Hp & ->).
  all: split; unfold_inv; cbn; rewrite ?Hv, ?Hi, ?Hp, ?Hh; rewrite ?Hv0 in *; auto; try lia.
  all: try (by congruence).
  all: try (intros id' ph; destruct (decide (id = id')) as [<-|Hne];
            [by left|rewrite lookup_insert_ne by done; right; eauto]; fail).
  all: try (intros; right; eauto; fail).
  all: try (split; [by left|]; split; [done|]; rewrite lookup_insert_eq; rewrite ?Ht; eexists;
            split; [done|]; cbn; intuition; fail).
  all: try (rewrite He; by auto).
  - intros e o Ho. specialize (i_tokens0 _ _ Ho). pose proof (next_le (epoch_of w)).
    unfold epoch_of in *. rewrite He in *. lia.
  - intros o e Ho. specialize (i_queue_epoch0 _ _ Ho). pose proof (next_le (epoch_of w)).
    unfold epoch_of in *. rewrite He in *. lia.
  - intros owner t e [[= -> ->]|Hin]%elem_of_cons Hte.
    + rewrite Ht in Hte. injection Hte as <-. lia.
    + specialize (i_live0 _ _ _ Hin Hte). pose proof (next_le (epoch_of w)).
      unfold epoch_of in *. rewrite He in *. lia.
  - pose proof (next_le (epoch_of w)). unfold epoch_of in *. rewrite He in *. lia.
  - intros Hc o Ho. by destruct (Hfresh o He Hmax).
  - intros Hc o Ho. rewrite lookup_insert_eq. cbn. rewrite He in Ho.
    specialize (i_owner0 Hc o Ho). case_match; tauto.
  - intros Hc o Ho. rewrite lookup_insert_eq. cbn. rewrite He in Ho.
    specialize (i_owner0 Hc o Ho). done.
Qed.

Lemma inv_advance w id c t :
  Inv w -> w_takes w !! id = Some PReleased -> take_settle (w_ctl w) id true = (c, Ok t) ->
  st_epoch (c_state c) < u64_max ->
  Inv (with_takes (give (with_ctl w c) (Some id) (Some t))
         (<[id := PAdvanced (default 0 (tr_epoch t))]> (w_takes w))).
Proof.
  intros HI Hph Hset Hmax.
  apply take_settle_advances in Hset as ([g Hv] & Hv' & He & Ht & Hi & Hp & Hh).
  destruct (current_take w id g PReleased HI Hv Hph) as (-> & Hinf & Hus & Htok).
  pose proof (fun o => fresh_epoch w (st_epoch (c_state c)) o HI He Hmax) as Hfresh.
  pose proof (next_le (epoch_of w)) as Hlt. unfold epoch_of in Hlt. rewrite <- He in Hlt.
  specialize (Hlt Hmax). destruct HI.
  split; unfold_inv; cbn; rewrite ?Hv', ?Hi, ?Hp, ?Hh, ?Ht; rewrite ?Hv in *; auto; try lia.
  - intros e o Ho. specialize (i_tokens0 _ _ Ho). lia.
  - intros id' ph. destruct (decide (id = id')) as [<-|Hne]; [done|].
    rewrite lookup_insert_ne by done. eauto.
  - intros o e Ho. specialize (i_queue_epoch0 _ _ Ho). lia.
  - intros owner t' e [[= -> ->]|Hin]%elem_of_cons Hte.
    + rewrite Ht in Hte. injection Hte as <-. lia.
    + specialize (i_live0 _ _ _ Hin Hte). lia.
  - split_and!; [done|done|]. rewrite lookup_insert_eq. by eexists.
  - intros Hc o Ho. by destruct (Hfresh o).
Qed.

Lemma inv_finish w k id confirmed c r :
  Inv w -> w_takes w !! id = Some (PReady confirmed) ->
  take_finish (w_ctl w) k id confirmed = (c, r) ->
  Inv (with_takes (with_ctl w c) (delete id (w_takes w))).
Proof.
  intros HI Hph Hfin. apply take_finish_effect in Hfin as (He & Hi & Hp & Hh & Hfin).
  destruct (is_current (w_ctl w) id) eqn:Hcur.
  2: { rewrite Hfin. apply (inv_forget (with_ctl w (w_ctl w)));
         [by apply inv_same, same_view_refl|].
       intros Hv. assert (is_current (w_ctl w) id = true); [|congruence].
       apply is_current_view. by exists false. }
  apply is_current_view in Hcur as [g Hv].
  destruct (current_take w id g _ HI Hv Hph) as (-> & Hok & Hus & Htok).
  destruct HI. split; unfold_inv; cbn; rewrite ?Hfin, ?He, ?Hi, ?Hp, ?Hh; rewrite ?Hv in *; auto.
  - intros Hb. specialize (i_boot0 Hb). congruence.
  - intros id' ph. rewrite lookup_delete_Some. intros [_ ?]. eauto.
  - destruct confirmed; [|done]. rewrite lookup_delete_eq. split_and!; try tauto.
    intros _ e Hin. by destruct (Htok e).
  - intros Hc o Ho. specialize (i_owner0 Hc o Ho). rewrite Hph in i_owner0. by destruct i_owner0.
Qed.

Lemma inv_take_gone w id ph c :
  Inv w -> w_takes w !! id = Some ph -> drops (w_ctl w) c ->
  lease_view c <> Some (id, false) ->
  (lease_view c = None -> lease_view (w_ctl w) = None \/ exists g, lease_view (w_ctl w) = Some (id, g)) ->
  Inv (with_takes (with_ctl w c) (delete id (w_takes w))).
Proof.
  intros HI Hph Hd Hv Hor. apply (inv_forget (with_ctl w c)); [|done].
  apply inv_drops; [done|done|]. intros id' Hn Hg.
  destruct (Hor Hn) as [?|[g Hv']]; [congruence|]. rewrite Hg in Hv'. injection Hv' as -> <-.
  by destruct (current_take w id true ph HI Hg Hph).
Qed.

Lemma admit_cua_Ok c k count takeover c' t :
  admit_cua c k count takeover = (c', Ok t) ->
  exists c1, ends c c1 t /\ lease_view c1 = None /\
    c' = set_state c1 (set_inflight (c_state c1) (st_inflight (c_state c1) + count)).
Proof.
  unfold admit_cua. destruct (st_lease (c_state c)) as [l|] eqn:Hl.
  - destruct takeover; [|congruence]. pose proof (agent_takeover_locked_ends c k SrcCua) as He.
    destruct (agent_takeover_locked c k SrcCua) as [c1 t1]. intros [= <- <-].
    exists c1. split; [exact He|]. split; [|done]. unfold ends in He.
    unfold lease_view at 1 in He. rewrite Hl in He. cbn in He. tauto.
  - intros [= <- <-]. exists c. unfold ends, lease_view. rewrite Hl. cbn.
    split; [split; [apply same_view_refl|done]|done].
Qed.

(** *** Every step *)

Definition one_epoch c c' : Prop :=
  st_epoch (c_state c') = st_epoch (c_state c) \/
  st_epoch (c_state c') = next (st_epoch (c_state c)).

Lemma ends_one_epoch c c' t : ends c c' t -> one_epoch c c'.
Proof.
  unfold ends, one_epoch, same_view. destruct (lease_view c) as [[id []]|]; intuition.
Qed.

Lemma expire_one_epoch c k now idle : one_epoch c (fst (expire c k now idle)).
Proof. destruct (expire_ends_or_same c k now idle) as [He| ->]; [by eapply ends_one_epoch|by left]. Qed.

Lemma give_ctl w owner t : w_ctl (give w owner t) = w_ctl w.
Proof. by destruct t. Qed.

Lemma loop_takes_ctl w o cmd rest : w_ctl (loop_takes (E := E) w o cmd rest) = w_ctl w.
Proof. unfold loop_takes. by destruct (loop_command _ cmd) as [[? ?] ?]. Qed.

(** A step leaves the epoch or advances it once. *)
Lemma step_one_epoch w w' : step (E := E) w w' -> one_epoch (w_ctl w) (w_ctl w').
Proof.
  destruct 1; cbn [with_ctl with_live with_takes with_token with_used with_cua with_queue with_flags
    w_ctl]; rewrite ?give_ctl, ?loop_takes_ctl; cbn [with_ctl with_live with_takes with_token
    with_used with_cua with_queue with_flags w_ctl]; try (by left).
  - apply admit_cua_Ok in H3 as (c1 & He & _ & ->). by apply ends_one_epoch in He.
  - unfold cua_finished. case_match; by left.
  - pose proof (agent_takeover_locked_ends (w_ctl w) k source) as He.
    unfold agent_takeover in H2. destruct (agent_takeover_locked _ _ _). simplify_eq.
    by eapply ends_one_epoch.
  - pose proof (end_human_ends (w_ctl w) k reason) as He. rewrite H2 in He. by eapply ends_one_epoch.
  - pose proof (end_human_ended_view (w_ctl w) k) as He. rewrite H3 in He. left. tauto.
  - pose proof (expire_one_epoch (w_ctl w) k now idle) as He. by rewrite H2 in He.
  - eapply ends_one_epoch, release_ends, H2.
  - pose proof (heartbeat_same (w_ctl w) k id) as He. rewrite H2 in He. left. by apply He.
  - apply blur_effect in H2. left. tauto.
  - pose proof (proj1 (input_check_view (w_ctl w) k id geometry current event)) as He.
    rewrite H2 in He. left. by apply He.
  - pose proof (proj1 (input_check_view (w_ctl w) k id geometry current event)) as He.
    rewrite H2 in He. left. by apply He.
  - pose proof (proj1 (input_check_view (w_ctl w) k id geometry current event)) as He.
    rewrite H2 in He. left. by apply He.
  - apply take_begin_effect in H4 as (_ & _ & _ & He).
    destruct (lease_view (w_ctl w)) as [[x []]|]; unfold one_epoch; tauto.
  - apply take_settle_false in H3 as (Hd & _). left. apply Hd.
  - apply take_settle_lost in H3 as [-> _]. by left.
  - apply take_settle_advances in H3. right. tauto.
  - apply take_finish_effect in H3. left. tauto.
  - left. unfold take_record. by destruct from_agent.
  - left. apply (take_abandon_effect (w_ctl w) id).
Qed.

Lemma owner_agent w : lease_view (w_ctl w) = None -> owner_now w OAgent.
Proof. intros Hv. unfold owner_now. by rewrite Hv. Qed.

Lemma owner_human w id : lease_view (w_ctl w) = Some (id, true) -> owner_now w (OHuman id).
Proof. intros Hv. unfold owner_now. by rewrite Hv. Qed.

Lemma inv_checked w c id k geometry current event check :
  Inv w -> input_check (w_ctl w) k id geometry current event = (c, check) ->
  (forall why, check <> CkLost why) -> Inv (with_token (with_ctl w c) (OHuman id)).
Proof.
  intros HI Hck Hn. pose proof (input_check_view (w_ctl w) k id geometry current event) as [Hs Hv].
  rewrite Hck in Hs, Hv. cbn in Hs, Hv. apply inv_token; [by apply inv_same|].
  apply owner_human. cbn. rewrite (proj1 Hs). by apply Hv.
Qed.

(** An answered epoch change of the current take: the loop is at its epoch. *)
Lemma confirmed_phase w e confirmed :
  Inv w -> (confirmed = true -> e ∈ w_answered w) -> e = epoch_of w /\ inflight_of w = 0 ->
  phase_ok w (PReady confirmed).
Proof.
  intros HI Ha [He Hi]. destruct confirmed; [|done]. split; [|done].
  pose proof (i_answered _ HI _ (Ha eq_refl)). pose proof (i_loop _ HI). lia.
Qed.

Lemma inv_step_agents w w' :
  Inv w -> epoch_of w' < u64_max ->
  (exists k count takeover c t, 0 <= count /\ admit_cua (w_ctl w) k count takeover = (c, Ok t) /\
     w' = give (with_cua (with_ctl w c) (w_cua w + count)) None t) \/
  (exists count, 0 <= count <= w_cua w /\
     w' = with_cua (with_ctl w (cua_finished (w_ctl w) count)) (w_cua w - count)) -> Inv w'.
Proof.
  intros HI Hmax [(k & count & takeover & c & t & Hcount & Hadmit & ->)|(count & Hcount & ->)].
  - apply admit_cua_Ok in Hadmit as (c1 & He & Hv & ->).
    assert (Inv (give (with_ctl w c1) None t)) as HI1.
    { apply inv_ends; [done|done|]. unfold epoch_of in Hmax. by rewrite give_ctl in Hmax. }
    assert (inflight_of (give (with_ctl w c1) None t) = w_cua (give (with_ctl w c1) None t)) as Hc
      by apply HI1.
    assert (st_inflight (c_state c1) = w_cua w) as Hc1 by (by destruct t).
    pose proof (inv_cua (give (with_ctl w c1) None t)
      (set_state c1 (set_inflight (c_state c1) (st_inflight (c_state c1) + count)))
      (w_cua w + count) HI1) as Hx.
    destruct t as [t|]; apply Hx; try done; cbn; try lia; try (by left); destruct HI; lia.
  - destruct (i_cua _ HI) as [Hc Hp]. unfold inflight_of in Hc.
    apply inv_cua; try done; try lia; unfold cua_finished; case_match eqn:E1;
      try done; try (apply Z.eqb_eq in E1); cbn; try lia.
    unfold saturating_sub. lia.
Qed.

Lemma inv_step w w' : Inv w -> epoch_of w' < u64_max -> step (E := E) w w' -> Inv w'.
Proof.
  intros HI Hmax Hstep. destruct Hstep; unfold epoch_of in Hmax; cbn in Hmax; rewrite ?give_ctl in Hmax.
  - apply inv_token; [done|]. by apply owner_agent, HI.
  - by apply inv_flags.
  - apply inv_token; [done|]. apply owner_agent. unfold admit_agent_poll, lease_view in *.
    by destruct (st_lease (c_state (w_ctl w))).
  - eapply inv_step_agents; [exact HI|unfold epoch_of; by rewrite give_ctl|left]. by eauto 10.
  - eapply inv_step_agents; [exact HI|done|right]. by eauto 10.
  - pose proof (agent_takeover_locked_ends (w_ctl w) k source) as He.
    unfold agent_takeover in H2. destruct (agent_takeover_locked _ _ _). simplify_eq.
    by apply inv_ends.
  - pose proof (end_human_ends (w_ctl w) k reason) as He. rewrite H2 in He. by apply inv_ends.
  - by apply inv_flags.
  - pose proof (inv_ended w k HI H2) as He. by rewrite H3 in He.
  - destruct (expire_ends_or_same (w_ctl w) k now idle) as [He|He]; rewrite H2 in He.
    + by apply inv_ends.
    + simplify_eq. apply inv_same; [done|apply same_view_refl].
  - apply inv_ends; [done| |done]. eapply release_ends, H2.
  - by eapply inv_discharge.
  - apply inv_same; [done|]. pose proof (heartbeat_same (w_ctl w) k id) as He. by rewrite H2 in He.
  - apply blur_effect in H2 as (Hv & Hv' & He & Hi & Hp & Hh & Ht).
    apply inv_token; [|by apply owner_human].
    assert (Inv (with_ctl w (set_pending c (c_pending (w_ctl w))))) as HI1.
    { apply inv_same; [done|]. unfold same_view, lease_view in *. cbn. by rewrite Hv', Hv. }
    destruct HI1. split; auto; cbn in *.
    + rewrite Hp, i_pending0. lia.
    + intros owner t' e [[= -> ->]|Hin]%elem_of_cons; [congruence|eauto].
  - pose proof (proj1 (input_check_view (w_ctl w) k id geometry current event)) as He.
    rewrite H2 in He. by apply inv_same.
  - by eapply inv_checked.
  - by eapply inv_checked.
  - by apply inv_enqueue.
  - apply inv_enqueue; [done|]. eapply i_live; eauto.
  - by apply inv_enqueue.
  - by apply inv_loop.
  - eapply inv_begin; try done.
  - eapply inv_phase; try done. intros _ _. unfold phase_ok, wait_settled_poll, inflight_of in *.
    destruct (st_inflight _ =? 0) eqn:E1; [lia|done].
  - by eapply inv_phase.
  - apply take_settle_false in H3 as (Hd & Hv & Hn).
    destruct H2 as [H2|H2]; (eapply inv_take_gone; [done|exact H2|done|apply Hv|done]).
  - apply take_settle_lost in H3 as [-> Hv]. apply (inv_forget (with_ctl w (w_ctl w))); [|apply Hv].
    apply inv_same; [done|apply same_view_refl].
  - by eapply inv_advance.
  - apply (inv_phase (with_live (with_ctl w (drop_transition (w_ctl w))) (l1 ++ l2)) id (PAdvanced e));
      [by eapply inv_discharge|done|by destruct confirmed|].
    intros _ Hok. exact (confirmed_phase w e confirmed HI H4 Hok).
  - apply (inv_phase (with_live (with_ctl w (drop_transition (w_ctl w))) (l1 ++ l2)) id (PMoved e));
      [by eapply inv_discharge|done|by destruct confirmed|].
    intros _ Hok. pose proof (confirmed_phase w e confirmed HI H4 Hok) as Hc. by destruct confirmed.
  - eapply inv_phase; [done|done|by destruct released_|].
    intros _. by destruct released_; cbn; intuition.
  - by eapply inv_finish.
  - apply inv_same; [done|]. unfold take_record. destruct from_agent; [by repeat split|apply same_view_refl].
  - destruct H2 as [H2|H2];
      (eapply (inv_phase (with_live (with_ctl w (drop_transition (w_ctl w))) (l1 ++ l2)));
       [by eapply inv_discharge|exact H2|done|done]).
  - destruct (take_abandon_effect (w_ctl w) id) as (Hd & Hv & Hn). by eapply inv_take_gone.
Qed.

Lemma inv_init session generation ev wait bootstrapping :
  Inv (init (D := D) (E := E) session generation ev wait bootstrapping).
Proof.
  assert (forall A (x : A), x ∉ []) as Hn by (intros; apply not_elem_of_nil).
  split; try done; cbn; try (intros; by edestruct Hn).
  - intros _. split; intros; by edestruct Hn.
  - split; intros; by edestruct Hn.
  - apply explains_new.
Qed.

Lemma inv_reachable session generation ev wait bootstrapping w :
  reachable (E := E) session generation ev wait bootstrapping w -> epoch_of w < u64_max -> Inv w.
Proof.
  unfold reachable. intros Hr. apply rtc_ind_r with (P := fun w => epoch_of w < u64_max -> Inv w) in Hr;
    [exact Hr|intros _; apply inv_init|].
  intros w1 w2 _ Hstep IH Hmax. eapply inv_step; [|exact Hmax|exact Hstep]. apply IH.
  apply step_one_epoch in Hstep. unfold one_epoch, epoch_of, next, u64_saturating_add in *. lia.
Qed.

(** What the history holds for the current epoch is what one sender sent. *)
Definition ops_by (o : Owner) (h : list (Z * Owner * list Operation)) : list Operation :=
  concat (map snd (List.filter (fun x => bool_decide (snd (fst x) = o)) h)).

Lemma ops_of_granted w id :
  Inv w -> w_closed w = false -> lease_view (w_ctl w) = Some (id, true) ->
  ops_of (li_epoch (w_loop w)) (history w) = ops_by (OHuman id) (w_accepted w).
Proof.
  intros HI Hc Hv. pose proof (i_lease _ HI) as Hl. unfold lease_ok in Hl. rewrite Hv in Hl.
  destruct Hl as (_ & _ & Hep & _ & Hown). specialize (Hown Hc). rewrite Hep.
  assert (Forall (fun x => (fst (fst x) =? epoch_of w) = bool_decide (snd (fst x) = OHuman id))
            (w_accepted w)) as Hall.
  { apply Forall_forall. intros [[e o] ops] Hin. cbn.
    assert ((e, o) ∈ w_tokens w) as Ht.
    { apply (i_accepted _ HI). apply list_elem_of_fmap. by exists (e, o, ops). }
    destruct (Z.eqb_spec e (epoch_of w)) as [->|Hne].
    - pose proof (i_owner _ HI Hc o Ht) as Ho. unfold owner_now in Ho. rewrite Hv in Ho.
      by rewrite bool_decide_eq_true_2.
    - rewrite bool_decide_eq_false_2; [done|]. intros ->. apply Hne. eauto. }
  unfold ops_of, ops_by, history. clear - Hall.
  induction Hall as [|[[e o] ops] l Hx _ IH]; [done|]. cbn in *. rewrite Hx.
  case_match; cbn; by rewrite IH.
Qed.
End Invariant.

(** ** Properties *)

Section Properties.
Context {S D E : Type} `{EventSink S} `{InputDatabaseLaws D E}.

(** C1: whatever agents, viewers and sweeps do, and in whatever order their
    critical sections, messages, timeouts and abandonments interleave, the
    input the session loop accepts never mixes two controllers: its epochs
    never go back, input of one epoch has one sender, and between two
    accepted inputs of one human lease lies nothing but input of that
    lease. *)
Theorem controllers_never_interleave session generation ev wait bootstrapping (w : World S D) :
  reachable (E := E) session generation ev wait bootstrapping w -> epoch_of w < u64_max ->
  let h := w_accepted w in
  StronglySorted Z.le (map (fun x => fst (fst x)) h) /\
  (forall i j e o o' a b, h !! i = Some (e, o, a) -> h !! j = Some (e, o', b) -> o = o') /\
  (forall i j k id ei ej ek oj a b c, (i <= j <= k)%nat ->
     h !! i = Some (ei, OHuman id, a) -> h !! j = Some (ej, oj, b) -> h !! k = Some (ek, OHuman id, c) ->
     oj = OHuman id).
Proof.
  intros Hr Hmax h. pose proof (inv_reachable _ _ _ _ _ _ Hr Hmax) as HI.
  pose proof (i_accepted_single _ HI) as [Hs1 Hs2].
  destruct (i_explains _ HI) as (Hsort & _ & _).
  assert (StronglySorted Z.le (map (fun x => fst (fst x)) h)) as Hsorted.
  { unfold history in Hsort. by rewrite map_map in Hsort. }
  assert (forall i e o a, h !! i = Some (e, o, a) -> (e, o) ∈ map fst h) as Hin.
  { intros i e o a Hi. apply list_elem_of_fmap. exists (e, o, a). split; [done|].
    by eapply list_elem_of_lookup_2. }
  split_and!; [done|eauto|].
  intros i j k id ei ej ek oj a b c Hijk Hi Hj Hk.
  assert (ei = ek) as -> by eauto.
  assert (forall m n x y, (m <= n)%nat -> h !! m = Some x -> h !! n = Some y ->
            fst (fst x) <= fst (fst y)) as Hmono.
  { intros m n x y Hmn Hm Hn. destruct (decide (m = n)) as [->|Hne]; [by simplify_eq|].
    apply (StronglySorted_app_1_elem_of Z.le (take n (map (fun x => fst (fst x)) h))
            (drop n (map (fun x => fst (fst x)) h))).
    - by rewrite take_drop.
    - apply list_elem_of_lookup_2 with (i := m). rewrite lookup_take_lt by lia.
      by rewrite list_lookup_fmap, Hm.
    - apply list_elem_of_lookup_2 with (i := 0%nat). rewrite lookup_drop, Nat.add_0_r.
      by rewrite list_lookup_fmap, Hn. }
  pose proof (Hmono i j _ _ ltac:(lia) Hi Hj). pose proof (Hmono j k _ _ ltac:(lia) Hj Hk).
  cbn in *. assert (ej = ek) as -> by lia. eauto.
Qed.

(** C2: while a human lease is granted its holder is alone.  Every other
    sender that was ever admitted is refused as stale and leaves the loop as
    it is; no acting Cua call is being served; and what is pressed on the
    remote machine is exactly what this lease's own input left pressed. *)
Theorem granted_lease_is_alone session generation ev wait bootstrapping (w : World S D) id :
  reachable (E := E) session generation ev wait bootstrapping w -> epoch_of w < u64_max ->
  w_closed w = false -> lease_view (w_ctl w) = Some (id, true) ->
  (forall e o ops, (e, o) ∈ w_tokens w -> o <> OHuman id ->
     loop_command (E := E) (w_loop w) (CInput e ops)
       = (w_loop w, [], RInput (Err (StaleInput e (li_epoch (w_loop w)))))) /\
  w_cua w = 0 /\
  forall p, db_pressed (li_database (w_loop w)) p
            = pressed_after p false (ops_by (OHuman id) (w_accepted w)).
Proof.
  intros Hr Hmax Hc Hv. pose proof (inv_reachable _ _ _ _ _ _ Hr Hmax) as HI.
  pose proof (i_lease _ HI) as Hl. unfold lease_ok in Hl. rewrite Hv in Hl.
  destruct Hl as (_ & _ & Hep & Hi & _). split_and!.
  - intros e o ops Ht Ho. cbn [loop_command]. rewrite apply_stale; [done|].
    pose proof (i_tokens _ HI _ _ Ht) as Hle. destruct (decide (e = epoch_of w)) as [->|Hne]; [|lia].
    pose proof (i_owner _ HI Hc o Ht) as Hown. unfold owner_now in Hown. by rewrite Hv in Hown.
  - rewrite <- (proj1 (i_cua _ HI)). done.
  - intros p. rewrite <- (ops_of_granted w id HI Hc Hv). by apply (i_explains _ HI).
Qed.

(** C3: a take is granted only after the session loop confirmed its epoch
    change: then nothing is pressed on the remote machine, no Cua call is
    being served, and the loop is at the epoch the holder will send with. *)
Theorem take_grants_released_input session generation ev wait bootstrapping (w : World S D)
    k id confirmed c g :
  reachable (E := E) session generation ev wait bootstrapping w -> epoch_of w < u64_max ->
  w_closed w = false -> w_takes w !! id = Some (PReady confirmed) ->
  take_finish (w_ctl w) k id confirmed = (c, Ok g) ->
  g_lease g = id /\ lease_view c = Some (id, true) /\
  li_epoch (w_loop w) = st_epoch (c_state c) /\ w_cua w = 0 /\
  forall p, db_pressed (li_database (w_loop w)) p = false.
Proof.
  intros Hr Hmax Hc Hph Hfin. pose proof (inv_reachable _ _ _ _ _ _ Hr Hmax) as HI.
  assert (confirmed = true /\ g_lease g = id /\ is_current (w_ctl w) id = true) as (-> & Hg & Hcur).
  { unfold take_finish, is_current in *. destruct (st_lease _) as [l|]; [|congruence].
    destruct (bool_decide (l_id l = id)) eqn:Hid; [|congruence].
    destruct confirmed; [|congruence]. apply bool_decide_eq_true in Hid.
    injection Hfin as <- <-. done. }
  apply take_finish_effect in Hfin as (He & Hi & _ & _ & Hv'). rewrite Hcur in Hv'.
  apply is_current_view in Hcur as [g' Hv].
  destruct (current_take w id g' _ HI Hv Hph) as (-> & [Hep Hinf] & _).
  split_and!; [done|done|unfold epoch_of in Hep; congruence|by rewrite <- (proj1 (i_cua _ HI))|].
  intros p. destruct (i_explains _ HI) as (_ & _ & Hp). rewrite Hp, Hep.
  enough (ops_of (epoch_of w) (history w) = []) as -> by done.
  apply ops_of_fresh, Forall_map, Forall_forall. intros [[e o] ops] Hin. cbn.
  assert ((e, o) ∈ w_tokens w) as Ht.
  { apply (i_accepted _ HI). apply list_elem_of_fmap. by exists (e, o, ops). }
  pose proof (i_tokens _ HI _ _ Ht). destruct (decide (e = epoch_of w)) as [->|]; [|lia].
  pose proof (i_owner _ HI Hc o Ht) as Hown. unfold owner_now in Hown. rewrite Hv, Hph in Hown.
  by destruct Hown.
Qed.

(** An agent action is refused while a human holds or takes the lease,
    and otherwise admitted exactly when every transition handed out has been
    discharged or dropped: no transition is ever lost, so an agent waits for
    live tasks only. *)
Theorem agent_admission session generation ev wait bootstrapping (w : World S D) :
  reachable (E := E) session generation ev wait bootstrapping w -> epoch_of w < u64_max ->
  c_pending (w_ctl w) = Z.of_nat (length (w_live w)) /\
  admit_agent_poll (w_ctl w) =
    match st_lease (c_state (w_ctl w)) with
    | Some l => Some (Err (human_control_error (w_ctl w) l))
    | None => match w_live w with [] => Some (Ok (epoch_of w)) | _ :: _ => None end
    end.
Proof.
  intros Hr Hmax. pose proof (i_pending _ (inv_reachable _ _ _ _ _ _ Hr Hmax)) as Hp.
  split; [done|]. unfold admit_agent_poll, released. rewrite Hp.
  destruct (st_lease _); [done|]. destruct (w_live w) as [|x l]; [done|].
  destruct (Z.eqb_spec (Z.of_nat (length (x :: l))) 0) as [E1|E1]; [cbn [length] in E1; lia|done].
Qed.
End Properties.

(** ** A concrete run: an agent acts, a viewer takes control and presses a button *)

Definition DemoWorld : Type := World (list SessionEvent) (list Pressed).

Definition demo_init : DemoWorld :=
  init (E := ListEvent) (txt "win") 3 (ev_new [] (txt "win") 3 true 0 0) EPOCH_CONFIRM_WAIT false.

(** The agent is admitted and presses a button, and the loop accepts it. *)
Definition demo_press : LoopCommand := CInput 0 [MouseButtonPressed MbLeft].
Definition demo_1 : DemoWorld := with_token demo_init OAgent.
Definition demo_2 : DemoWorld := with_queue demo_1 (w_queue demo_1 ++ [(OAgent, demo_press)]).
Definition demo_3 : DemoWorld := loop_takes (E := ListEvent) demo_2 OAgent demo_press [].

(** The take of [L]: marked, settled, advanced, sent, confirmed. *)
Definition demo_begin := take_begin (w_ctl demo_3) (demo_clk 1) (txt "L") (txt "10.0.0.5").
Definition demo_4 : DemoWorld :=
  with_used (with_takes (give (with_ctl demo_3 (fst demo_begin)) (Some (txt "L")) (snd demo_begin))
    (<[txt "L" := match snd demo_begin with
                  | Some t => PMoved (default 0 (tr_epoch t)) | None => PWaiting end]>
       (w_takes demo_3))) (txt "L").
Definition demo_5 : DemoWorld := with_takes demo_4 (<[txt "L" := PSettled]> (w_takes demo_4)).
Definition demo_6 : DemoWorld := with_takes demo_5 (<[txt "L" := PReleased]> (w_takes demo_5)).
Definition demo_t : Transition := {| tr_release := []; tr_at := 1; tr_epoch := Some 1 |}.
Definition demo_7 : DemoWorld :=
  with_takes (give (with_ctl demo_6 (fst (take_settle (w_ctl demo_6) (txt "L") true)))
                (Some (txt "L")) (Some demo_t))
    (<[txt "L" := PAdvanced 1]> (w_takes demo_6)).
Definition demo_8 : DemoWorld := with_queue demo_7 (w_queue demo_7 ++ [(OAgent, CSetEpoch 1)]).
Definition demo_9 : DemoWorld := loop_takes (E := ListEvent) demo_8 OAgent (CSetEpoch 1) [].
Definition demo_10 : DemoWorld :=
  with_takes (with_live (with_ctl demo_9 (drop_transition (w_ctl demo_9))) ([] ++ []))
    (<[txt "L" := PReady true]> (w_takes demo_9)).

(** The take is granted. *)
Definition demo_finish := take_finish (w_ctl demo_10) (demo_clk 2) (txt "L") true.
Definition demo_11 : DemoWorld :=
  with_takes (with_ctl demo_10 (fst demo_finish)) (delete (txt "L") (w_takes demo_10)).

Lemma demo_10_reachable :
  reachable (E := ListEvent) (txt "win") 3 (ev_new [] (txt "win") 3 true 0 0) EPOCH_CONFIRM_WAIT false
    demo_10.
Proof.
  apply rtc_l with (y := demo_1); [apply (SAgentAdmit _ 0); by vm_compute|].
  apply rtc_l with (y := demo_2); [apply SSend; left|].
  apply rtc_l with (y := demo_3); [by apply SLoop; vm_compute|].
  apply rtc_l with (y := demo_4).
  { apply (STakeBegin _ (demo_clk 1) _ (txt "10.0.0.5"));
      [apply not_elem_of_nil|by vm_compute|apply surjective_pairing]. }
  apply rtc_l with (y := demo_5); [by apply STakeSettled; vm_compute|].
  apply rtc_l with (y := demo_6); [by apply STakeReleased; vm_compute|].
  apply rtc_l with (y := demo_7); [by apply (STakeAdvance _ (txt "L")); vm_compute|].
  apply rtc_l with (y := demo_8); [apply (SSendEpoch _ (Some (txt "L")) demo_t 1); [left|done]|].
  apply rtc_l with (y := demo_9); [by apply SLoop; vm_compute|].
  apply rtc_l with (y := demo_10); [|apply rtc_refl].
  apply (STakeDischarged _ (txt "L") 1 demo_t true [] []); [by vm_compute|by vm_compute|left].
Qed.

Lemma demo_11_reachable :
  reachable (E := ListEvent) (txt "win") 3 (ev_new [] (txt "win") 3 true 0 0) EPOCH_CONFIRM_WAIT false
    demo_11.
Proof.
  eapply rtc_r; [apply demo_10_reachable|].
  apply (STakeFinish _ (demo_clk 2) (txt "L") true _ (snd demo_finish));
    [by vm_compute|apply surjective_pairing].
Qed.

Lemma controllers_never_interleave_witness :
  map fst (w_accepted demo_11) = [(0, OAgent)] /\
  StronglySorted Z.le (map (fun x => fst (fst x)) (w_accepted demo_11)).
Proof.
  split; [by vm_compute|].
  exact (proj1 (controllers_never_interleave _ _ _ _ _ demo_11 demo_11_reachable ltac:(by vm_compute))).
Defined.

Lemma granted_lease_is_alone_witness :
  lease_view (w_ctl demo_11) = Some (txt "L", true) /\
  loop_command (E := ListEvent) (w_loop demo_11) demo_press
    = (w_loop demo_11, [], RInput (Err (StaleInput 0 (li_epoch (w_loop demo_11))))).
Proof.
  split; [by vm_compute|].
  apply (proj1 (granted_lease_is_alone _ _ _ _ _ demo_11 (txt "L") demo_11_reachable
           ltac:(by vm_compute) ltac:(by vm_compute) ltac:(by vm_compute)) 0 OAgent); [left|done].
Defined.

Lemma take_grants_released_input_witness :
  db_pressed (li_database (w_loop demo_3)) (PButton MbLeft) = true /\
  db_pressed (li_database (w_loop demo_10)) (PButton MbLeft) = false.
Proof.
  split; [by vm_compute|].
  refine (proj2 (proj2 (proj2 (proj2 (take_grants_released_input _ _ _ _ _ demo_10 (demo_clk 2) (txt "L")
    true (fst demo_finish) {| g_lease := txt "L"; g_generation := 3;
       g_controller := {| wc_kind := WkHuman; wc_address := Some (txt "10.0.0.5");
                          wc_since := Some (iso8601_from_system_time 2) |} |}
    demo_10_reachable _ _ _ _)))) (PButton MbLeft)); by vm_compute.
Defined.

Lemma agent_admission_witness :
  c_pending (w_ctl demo_7) = 1 /\ c_pending (w_ctl demo_10) = Z.of_nat (length (w_live demo_10)).
Proof.
  split; [by vm_compute|].
  exact (proj1 (agent_admission _ _ _ _ _ demo_10 demo_10_reachable ltac:(by vm_compute))).
Defined.
