(* ===== verification/CuaGate.v ===== *)
(** * The control gate of a Cua attachment
      ([crates/rdpilot-daemon/src/ipc/cua_gate.rs])

    A [Gate] keeps the ids of [tools/list] requests and of acting calls that
    wait for an answer; it decides about every message of the caller against
    the session's [Ctl], which it shares with every other task of the session.
    Each function takes the gate and the control and returns both. *)
From S2P Require Import Prelude Vocab BTreeSet InputOps HumanInput LoopInput Calendar Json Events Control.
Open Scope Z_scope.

(** ** Definitions *)

Definition READ_ONLY_CUA_TOOLS : list text :=
  [ txt "check_for_update"; txt "check_permissions"; txt "clipboard_read"; txt "debug_window_info";
    txt "get_accessibility_tree"; txt "get_agent_cursor_state"; txt "get_browser_state";
    txt "get_config"; txt "get_cursor_position"; txt "get_desktop_state";
    txt "get_recording_state"; txt "get_screen_size"; txt "get_session"; txt "get_session_state";
    txt "get_window_state"; txt "list_apps"; txt "list_sessions"; txt "list_windows";
    txt "parse_visual_regions"; txt "screenshot"; txt "verify_state"; txt "zoom" ].

Definition PENDING_CAP : nat := CUA_PENDING_CAP.
Definition BATCH_REFUSED_CODE : text := txt "-32000".
Definition BATCH_REFUSED_MESSAGE : text :=
  txt "batch not forwarded because it contains calls refused under human control; send read-only calls separately".

Definition is_acting (name : text) : bool := negb (bool_decide (name ∈ READ_ONLY_CUA_TOOLS)).

Definition takeover_property : Value :=
  JObject [ (txt "type", JString (txt "boolean")); (txt "default", JBool false);
            (txt "description",
             JString (txt "Take control of this session from a human viewer before acting. Default false.")) ].

Inductive Inbound :=
| Forward (message : Value)
| Answer (request reply : Value)
| DropIt.

Record Call := { cl_acting : bool; cl_takeover : bool; cl_id : option Value }.

Record Gate := { g_lists : list Value; g_acting : list Value }.
Definition gate_new : Gate := {| g_lists := []; g_acting := [] |}.

Definition push_capped (queue : list Value) (id : Value) : list Value :=
  (if (PENDING_CAP <=? length queue)%nat then tl queue else queue) ++ [id].

Definition tools_call : text := txt "tools/call".
Definition tools_list : text := txt "tools/list".

Definition method_of (obj : list (text * Value)) : option text :=
  and_then (obj_get (txt "method") obj) as_str.

(** [object.get("id").filter(|id| !id.is_null())] *)
Definition request_id (obj : list (text * Value)) : option Value :=
  match obj_get (txt "id") obj with
  | Some id => if is_null id then None else Some id
  | None => None
  end.

Definition call_arguments (obj : list (text * Value)) : option (list (text * Value)) :=
  and_then (and_then (and_then (obj_get (txt "params") obj) as_object) (obj_get (txt "arguments"))) as_object.

Definition call_name (obj : list (text * Value)) : text :=
  default [] (and_then (and_then (and_then (obj_get (txt "params") obj) as_object)
                                 (obj_get (txt "name"))) as_str).

(** The message after [args.remove("takeover")] through the mutable borrows. *)
Definition on_object (f : list (text * Value) -> list (text * Value)) (v : Value) : Value :=
  match v with JObject ms => JObject (f ms) | _ => v end.
Definition remove_takeover (obj : list (text * Value)) : list (text * Value) :=
  obj_update (txt "params")
    (on_object (obj_update (txt "arguments") (on_object (fun args => snd (obj_remove (txt "takeover") args)))))
    obj.

(** [CuaGate::inspect] *)
Definition inspect (lists : list Value) (message : Value) : list Value * Value * option Call :=
  match as_object message with
  | None => (lists, message, None)
  | Some obj =>
      match method_of obj with
      | None => (lists, message, None)
      | Some method =>
          let id := request_id obj in
          if bool_decide (method = tools_list) then
            (match id with Some id => push_capped lists id | None => lists end, message, None)
          else if negb (bool_decide (method = tools_call)) then (lists, message, None)
          else
            let removed := and_then (call_arguments obj)
                             (fun args => fst (obj_remove (txt "takeover") args)) in
            let takeover := bool_decide (removed = Some (JBool true)) in
            let acting := is_acting (call_name obj) in
            (lists, JObject (remove_takeover obj),
             Some {| cl_acting := acting; cl_takeover := acting && takeover; cl_id := id |})
      end
  end.

Fixpoint inspect_all (lists : list Value) (items : list Value)
  : list Value * list Value * list Call :=
  match items with
  | [] => (lists, [], [])
  | m :: items =>
      let '(lists, m, call) := inspect lists m in
      let '(lists, items, calls) := inspect_all lists items in
      (lists, m :: items, match call with Some c => c :: calls | None => calls end)
  end.

(** The calls of one message, and the message without its [takeover]s. *)
Definition inspect_message (lists : list Value) (message : Value) : list Value * Value * list Call :=
  match message with
  | JArray items =>
      let '(lists, items, calls) := inspect_all lists items in (lists, JArray items, calls)
  | single =>
      let '(lists, single, call) := inspect lists single in
      (lists, single, match call with Some c => [c] | None => [] end)
  end.

Definition answered (calls : list Call) : list Value :=
  omap cl_id (List.filter cl_acting calls).

(** The index of the first [id], removed ([position] and [remove]). *)
Fixpoint remove_first (id : Value) (q : list Value) : option (list Value) :=
  match q with
  | [] => None
  | x :: q => if decide (x = id) then Some q else cons x <$> remove_first id q
  end.

Definition refused_reply (message : Value) (message_text : text) : option Value :=
  match and_then (as_object message) request_id with
  | None => None
  | Some id =>
      let acting := bool_decide (and_then (get (txt "method") message) as_str = Some tools_call)
        && is_acting (default [] (and_then (and_then (get (txt "params") message) (get (txt "name"))) as_str)) in
      Some (if acting then
        JObject [ (txt "jsonrpc", JString (txt "2.0")); (txt "id", id);
                  (txt "result", JObject
                     [ (txt "content", JArray [ JObject [ (txt "type", JString (txt "text"));
                                                          (txt "text", JString message_text) ] ]);
                       (txt "isError", JBool true) ]) ]
      else
        JObject [ (txt "jsonrpc", JString (txt "2.0")); (txt "id", id);
                  (txt "error", JObject [ (txt "code", JNumber BATCH_REFUSED_CODE);
                                          (txt "message", JString BATCH_REFUSED_MESSAGE) ]) ])
  end.

(** What the caller is told about a refused message. *)
Definition refuse (message : Value) (refusal : Refusal) : Inbound :=
  match message with
  | JArray items =>
      match omap (fun item => refused_reply item (rf_mcp_message refusal)) items with
      | [] => DropIt
      | replies => Answer message (JArray replies)
      end
  | single =>
      match refused_reply single (rf_mcp_message refusal) with
      | Some reply => Answer message reply
      | None => DropIt
      end
  end.

(** [patch_tool]; [entry("properties").or_insert_with] leaves an existing
    member alone. *)
Definition patch_schema (schema : list (text * Value)) : list (text * Value) :=
  let schema := if contains_key (txt "properties") schema then schema
                else obj_insert (txt "properties") (JObject []) schema in
  obj_update (txt "properties") (on_object (obj_insert (txt "takeover") takeover_property)) schema.
Definition patch_tool (tool : Value) : Value :=
  let acting := match and_then (get (txt "name") tool) as_str with
                | Some name => is_acting name | None => false end in
  if acting then on_object (obj_update (txt "inputSchema") (on_object patch_schema)) tool else tool.

Definition on_array (f : Value -> Value) (v : Value) : Value :=
  match v with JArray l => JArray (map f l) | _ => v end.
Definition patch_result (obj : list (text * Value)) : list (text * Value) :=
  obj_update (txt "result") (on_object (obj_update (txt "tools") (on_array patch_tool))) obj.

Section CuaGate.
Context {S : Type} `{EventSink S}.

(** [CuaGate::remember_acting] *)
Definition remember_acting (g : Gate) (c : Ctl S) (id : Value) : Gate * Ctl S :=
  let '(acting, c) := match remove_first id (g_acting g) with
                      | Some acting => (acting, cua_finished c 1)
                      | None => (g_acting g, c) end in
  let '(acting, c) := if (PENDING_CAP <=? length acting)%nat
                      then (tl acting, cua_finished c 1) else (acting, c) in
  ({| g_lists := g_lists g; g_acting := acting ++ [id] |}, c).

Fixpoint remember_all_acting (g : Gate) (c : Ctl S) (ids : list Value) : Gate * Ctl S :=
  match ids with
  | [] => (g, c)
  | id :: ids => let '(g, c) := remember_acting g c id in remember_all_acting g c ids
  end.

(** [CuaGate::inbound] *)
Definition inbound (g : Gate) (c : Ctl S) (k : Clk) (message : Value)
  : Gate * Ctl S * Inbound * option Transition :=
  let '(lists, message, calls) := inspect_message (g_lists g) message in
  let g := {| g_lists := lists; g_acting := g_acting g |} in
  if negb (existsb cl_acting calls) then (g, c, Forward message, None)
  else
    let takeover := existsb cl_takeover calls in
    let ids := answered calls in
    let '(c, admitted) := admit_cua c k (Z.of_nat (length ids)) takeover in
    match admitted with
    | Ok transition =>
        let '(g, c) := remember_all_acting g c ids in (g, c, Forward message, transition)
    | Err refusal => (g, c, refuse message refusal, None)
    end.

(** [CuaGate::response] *)
Definition response (g : Gate) (c : Ctl S) (message : Value) : Gate * Ctl S * Value :=
  match as_object message with
  | None => (g, c, message)
  | Some obj =>
      if contains_key (txt "method") obj
         || negb (contains_key (txt "result") obj || contains_key (txt "error") obj)
      then (g, c, message)
      else
        match obj_get (txt "id") obj with
        | None => (g, c, message)
        | Some id =>
            let '(acting, c) := match remove_first id (g_acting g) with
                                | Some acting => (acting, cua_finished c 1)
                                | None => (g_acting g, c) end in
            match remove_first id (g_lists g) with
            | Some lists => ({| g_lists := lists; g_acting := acting |}, c, JObject (patch_result obj))
            | None => ({| g_lists := g_lists g; g_acting := acting |}, c, message)
            end
        end
  end.

Fixpoint response_all (g : Gate) (c : Ctl S) (items : list Value) : Gate * Ctl S * list Value :=
  match items with
  | [] => (g, c, [])
  | m :: items =>
      let '(g, c, m) := response g c m in
      let '(g, c, items) := response_all g c items in (g, c, m :: items)
  end.

(** [CuaGate::outbound] *)
Definition outbound (g : Gate) (c : Ctl S) (message : Value) : Gate * Ctl S * Value :=
  match message with
  | JArray items => let '(g, c, items) := response_all g c items in (g, c, JArray items)
  | single => response g c single
  end.

(** [Drop for CuaGate] *)
Definition gate_drop (g : Gate) (c : Ctl S) : Ctl S :=
  cua_finished c (Z.of_nat (length (g_acting g))).
End CuaGate.

(** ** Specification *)

(** A call that acts on the guest: a [tools/call] of a tool that is not known
    to be read-only. *)
Definition acting_call (m : Value) : Prop :=
  exists obj, m = JObject obj /\ method_of obj = Some tools_call /\ call_name obj ∉ READ_ONLY_CUA_TOOLS.

(** The JSON-RPC messages of a frame. *)
Definition elements (m : Value) : list Value := match m with JArray items => items | m => [m] end.

(** [m'] is [m] with the [takeover] argument of a tool call removed. *)
Definition stripped (m m' : Value) : Prop :=
  match m with
  | JObject obj =>
      if decide (method_of obj = Some tools_call) then
        exists obj', m' = JObject obj' /\
          (forall k, k <> txt "params" -> obj_get k obj' = obj_get k obj) /\
          call_name obj' = call_name obj /\
          match call_arguments obj, call_arguments obj' with
          | Some args, Some args' =>
              obj_get (txt "takeover") args' = None /\
              forall k, k <> txt "takeover" -> obj_get k args' = obj_get k args
          | None, None => True
          | _, _ => False
          end
      else m' = m
  | _ => m' = m
  end.

(** The call asks to take control: the literal [true], as an argument. *)
Definition asks_takeover (m : Value) : Prop :=
  exists obj args, m = JObject obj /\ call_arguments obj = Some args /\
    obj_get (txt "takeover") args = Some (JBool true).

Definition id_of (m : Value) : option Value := and_then (as_object m) request_id.

(** ** Lemmas *)

#[local] Arguments txt : simpl never.

Lemma json_wf_get k obj v : json_wf (JObject obj) -> obj_get k obj = Some v -> json_wf v.
Proof.
  cbn [json_wf]. intros [_ Hall]. revert Hall.
  induction obj as [|[k1 v1] obj IH]; cbn [obj_get]; [done|]. intros [Hv Hall].
  destruct (decide (k = k1)); [by intros [= <-]|by apply IH].
Qed.

Lemma json_wf_element m x : json_wf m -> x ∈ elements m -> json_wf x.
Proof.
  destruct m as [| | | |items|obj]; cbn [elements]; try (by intros ? ->%list_elem_of_singleton).
  cbn [json_wf]. induction items as [|y items IH]; [by intros _ ?%not_elem_of_nil|].
  intros [Hy Hall] [->|Hin]%elem_of_cons; [done|]. by apply IH.
Qed.

Lemma json_wf_arguments obj args :
  json_wf (JObject obj) -> call_arguments obj = Some args -> NoDup args.*1.
Proof.
  intros Hwf. unfold call_arguments.
  destruct (obj_get (txt "params") obj) as [p|] eqn:Hp; [|done]. cbn.
  destruct p as [| | | | |pm]; cbn; try done.
  destruct (obj_get (txt "arguments") pm) as [a|] eqn:Ha; [|done]. cbn.
  destruct a as [| | | | |am]; cbn; try done. intros [= <-].
  pose proof (json_wf_get _ _ _ Hwf Hp) as Hwp. by destruct (json_wf_get _ _ _ Hwp Ha).
Qed.

Lemma inspect_out lists m :
  snd (fst (inspect lists m)) =
    match m with
    | JObject obj => if bool_decide (method_of obj = Some tools_call)
                     then JObject (remove_takeover obj) else m
    | _ => m
    end.
Proof.
  unfold inspect. destruct m as [| | | | |obj]; cbn [as_object]; try done.
  destruct (method_of obj) as [method|]; [|done].
  destruct (decide (method = tools_list)) as [->|Hl]; [done|].
  rewrite (bool_decide_eq_false_2 _ Hl).
  destruct (decide (method = tools_call)) as [->|Hc].
  - by rewrite (bool_decide_eq_true_2 (tools_call = _)), (bool_decide_eq_true_2 (Some _ = _)).
  - rewrite (bool_decide_eq_false_2 (method = _)), (bool_decide_eq_false_2 (Some _ = _));
      [done|congruence|done].
Qed.

Lemma call_name_remove obj : call_name (remove_takeover obj) = call_name obj.
Proof.
  unfold call_name, remove_takeover. rewrite obj_get_update, decide_True by done.
  destruct (obj_get (txt "params") obj) as [p|]; [|done]. destruct p as [| | | | |pm]; try done.
  cbn. rewrite obj_get_update, decide_False by done. done.
Qed.

Lemma call_arguments_remove obj :
  call_arguments (remove_takeover obj)
  = (fun args => snd (obj_remove (txt "takeover") args)) <$> call_arguments obj.
Proof.
  unfold call_arguments, remove_takeover. rewrite obj_get_update, decide_True by done.
  destruct (obj_get (txt "params") obj) as [p|]; [|done]. destruct p as [| | | | |pm]; try done.
  cbn. rewrite obj_get_update, decide_True by done.
  destruct (obj_get (txt "arguments") pm) as [a|]; [|done]. by destruct a.
Qed.

Lemma inspect_stripped lists m : json_wf m -> stripped m (snd (fst (inspect lists m))).
Proof.
  intros Hwf. rewrite inspect_out. unfold stripped. destruct m as [| | | | |obj]; try done.
  destruct (decide (method_of obj = Some tools_call)) as [Hm|Hm];
    [|by rewrite bool_decide_eq_false_2].
  rewrite bool_decide_eq_true_2 by done. eexists. split; [done|].
  rewrite call_name_remove, call_arguments_remove. split_and!; [|done|].
  - intros k Hk. unfold remove_takeover. by rewrite obj_get_update, decide_False.
  - pose proof (json_wf_arguments obj) as Hargs. destruct (call_arguments obj) as [args|]; [|done].
    cbn. specialize (Hargs args Hwf eq_refl). split.
    + by rewrite obj_get_remove, decide_True.
    + intros k Hk. by rewrite obj_get_remove, decide_False.
Qed.

(** The call [inspect] sees in a message. *)
Lemma inspect_call lists m :
  match snd (inspect lists m) with
  | Some cl =>
      (cl_acting cl = true <-> acting_call m) /\
      (cl_takeover cl = true <-> acting_call m /\ asks_takeover m) /\ cl_id cl = id_of m
  | None => ~ acting_call m
  end.
Proof.
  unfold inspect, acting_call, asks_takeover, id_of.
  destruct m as [| | | | |obj]; cbn [as_object snd]; try (by intros (? & ? & _)).
  destruct (method_of obj) as [method|] eqn:Hm; cbn [snd]; [|intros (? & [= <-] & ? & _); congruence].
  destruct (decide (method = tools_list)) as [->|Hl].
  { rewrite bool_decide_eq_true_2 by done. cbn [snd]. intros (? & [= <-] & Hc & _).
    rewrite Hm in Hc. by vm_compute in Hc. }
  rewrite (bool_decide_eq_false_2 _ Hl).
  destruct (decide (method = tools_call)) as [->|Hc].
  2: { rewrite (bool_decide_eq_false_2 (method = _)) by done. cbn. intros (? & [= <-] & ? & _). congruence. }
  rewrite (bool_decide_eq_true_2 (tools_call = _)) by done. cbn [negb snd cl_acting cl_takeover cl_id].
  assert (is_acting (call_name obj) = true <->
          exists obj0, JObject obj = JObject obj0 /\ method_of obj0 = Some tools_call /\
            call_name obj0 ∉ READ_ONLY_CUA_TOOLS) as Hact.
  { unfold is_acting. rewrite negb_true_iff, bool_decide_eq_false. split; [eauto|].
    by intros (? & [= <-] & _ & ?). }
  split_and!; [done| |done]. rewrite andb_true_iff, Hact, bool_decide_eq_true.
  apply and_iff_compat_l. split.
  - destruct (call_arguments obj) as [args|] eqn:Ha; [|done]. cbn. rewrite obj_remove_fst.
    intros Hr. by exists obj, args.
  - intros (? & args & [= <-] & -> & Hr). cbn. by rewrite obj_remove_fst.
Qed.

Lemma exists_cons {A} (P : A -> Prop) x l :
  (exists y, y ∈ x :: l /\ P y) <-> P x \/ exists y, y ∈ l /\ P y.
Proof.
  split.
  - intros (y & [->|Hy]%elem_of_cons & HP); [by left|right; eauto].
  - intros [HP|(y & Hy & HP)]; [exists x; split; [left|done]|exists y; split; [by right|done]].
Qed.

Lemma exists_one {A} (P : A -> Prop) x : (exists y, y ∈ [x] /\ P y) <-> P x.
Proof.
  rewrite exists_cons. split; [|by left]. intros [HP|(y & Hy & _)]; [done|].
  by apply not_elem_of_nil in Hy.
Qed.

Lemma inspect_all_spec lists items :
  let '(_, items', calls) := inspect_all lists items in
  length items' = length items /\
  ((forall x, x ∈ items -> json_wf x) -> Forall2 stripped items items') /\
  (existsb cl_acting calls = true <-> exists x, x ∈ items /\ acting_call x) /\
  (existsb cl_takeover calls = true <-> exists x, x ∈ items /\ acting_call x /\ asks_takeover x).
Proof.
  revert lists. induction items as [|m items IH]; intros lists.
  { cbn. split_and!; [done|by constructor|split; [done|]|split; [done|]];
      intros (x & Hx & _); by apply not_elem_of_nil in Hx. }
  cbn [inspect_all]. pose proof (inspect_call lists m) as Hc.
  pose proof (inspect_stripped lists m) as Hs.
  destruct (inspect lists m) as [[lists1 m'] call]. cbn [fst snd] in *. specialize (IH lists1).
  destruct (inspect_all lists1 items) as [[lists2 items'] calls].
  destruct IH as (Hlen & Hst & Ha & Ht). split_and!.
  - cbn. by f_equal.
  - intros Hwf. constructor; [apply Hs, Hwf; left|]. apply Hst. intros x Hx. apply Hwf. by right.
  - rewrite exists_cons. destruct call as [cl|]; cbn [existsb];
      rewrite ?orb_true_iff, Ha; [by destruct Hc as [-> _]|tauto].
  - rewrite (exists_cons (fun x => acting_call x /\ asks_takeover x)).
    destruct call as [cl|]; cbn [existsb];
      rewrite ?orb_true_iff, Ht; [by destruct Hc as (_ & -> & _)|tauto].
Qed.

Lemma inspect_message_spec lists m :
  let '(_, m', calls) := inspect_message lists m in
  (json_wf m -> Forall2 stripped (elements m) (elements m')) /\
  (existsb cl_acting calls = true <-> exists x, x ∈ elements m /\ acting_call x) /\
  (existsb cl_takeover calls = true <-> exists x, x ∈ elements m /\ acting_call x /\ asks_takeover x).
Proof.
  assert (forall m : Value, (match m with JArray _ => False | _ => True end) ->
    let '(_, m', call) := inspect lists m in
    let calls := match call with Some c => [c] | None => [] end in
    (json_wf m -> Forall2 stripped (elements m) (elements m')) /\
    (existsb cl_acting calls = true <-> exists x, x ∈ elements m /\ acting_call x) /\
    (existsb cl_takeover calls = true <-> exists x, x ∈ elements m /\ acting_call x /\ asks_takeover x))
    as Hsingle.
  { clear m. intros m Hm. pose proof (inspect_call lists m) as Hc.
    pose proof (inspect_stripped lists m) as Hs. pose proof (inspect_out lists m) as Hout.
    destruct (inspect lists m) as [[lists1 m'] call]. cbn [fst snd] in *.
    assert (elements m = [m]) as -> by by destruct m.
    assert (elements m' = [m']) as ->.
    { subst m'. destruct m as [| | | | |obj]; try done. by destruct (bool_decide _). }
    split; [intros; constructor; auto|].
    rewrite exists_one, (exists_one (fun x => acting_call x /\ asks_takeover x)).
    destruct call as [cl|]; cbn [existsb]; rewrite ?orb_false_r;
      [by destruct Hc as (Ha & Ht & _); rewrite Ha, Ht|].
    split; (split; [done|]); tauto. }
  destruct m as [|b|n|t|items|obj]; unfold inspect_message.
  5: clear Hsingle.
  1: specialize (Hsingle JNull I); destruct (inspect lists JNull) as [[? ?] call].
  2: specialize (Hsingle (JBool b) I); destruct (inspect lists (JBool b)) as [[? ?] call].
  3: specialize (Hsingle (JNumber n) I); destruct (inspect lists (JNumber n)) as [[? ?] call].
  4: specialize (Hsingle (JString t) I); destruct (inspect lists (JString t)) as [[? ?] call].
  6: specialize (Hsingle (JObject obj) I); destruct (inspect lists (JObject obj)) as [[? ?] call].
  1-4, 6: by destruct call.
  pose proof (inspect_all_spec lists items) as Ha.
  destruct (inspect_all lists items) as [[? ?] ?]. destruct Ha as (_ & Hs & Ha & Ht).
  split_and!; [|done|done]. cbn [elements]. intros Hwf. apply Hs. intros x Hx.
  by eapply (json_wf_element (JArray items)).
Qed.

Section GateFacts.
Context {S : Type} `{EventSink S}.
Implicit Types (g : Gate) (c : Ctl S).

Lemma admit_cua_human c k count takeover l :
  st_lease (c_state c) = Some l ->
  let '(c', r) := admit_cua c k count takeover in
  if takeover then st_lease (c_state c') = None /\ exists t, r = Ok (Some t)
  else c' = c /\ exists refusal, r = Err refusal.
Proof.
  intros Hl. unfold admit_cua. rewrite Hl. destruct takeover; [|eauto].
  unfold agent_takeover_locked. rewrite Hl. unfold end_lease. cbn.
  destruct (l_granted l); cbn; eauto.
Qed.

Lemma remember_acting_lease g c id :
  st_lease (c_state (snd (remember_acting g c id))) = st_lease (c_state c).
Proof.
  assert (forall c, st_lease (c_state (cua_finished c 1)) = st_lease (c_state c)) as Hf by done.
  unfold remember_acting. destruct (remove_first id (g_acting g)) as [q|];
    destruct (PENDING_CAP <=? _)%nat; done.
Qed.

Lemma remember_all_lease g c ids :
  st_lease (c_state (snd (remember_all_acting g c ids))) = st_lease (c_state c).
Proof.
  revert g c. induction ids as [|id ids IH]; intros g c; [done|]. cbn [remember_all_acting].
  pose proof (remember_acting_lease g c id) as Hr. destruct (remember_acting g c id) as [g1 c1].
  by rewrite IH.
Qed.

(** *** The ids of acting calls and the calls in flight *)

Definition acting_wf g : Prop := NoDup (g_acting g) /\ (length (g_acting g) <= PENDING_CAP)%nat.

(** [others] calls of other attachments and one per remembered id. *)
Definition accounted g c (others : Z) : Prop :=
  0 <= others /\ st_inflight (c_state c) = others + Z.of_nat (length (g_acting g)).

Lemma remove_first_Some id q q' :
  remove_first id q = Some q' -> NoDup q ->
  length q = Datatypes.S (length q') /\ NoDup q' /\ (id ∉ q') /\ forall x, x ∈ q' -> x ∈ q.
Proof.
  revert q'. induction q as [|x q IH]; intros q'; cbn [remove_first]; [done|].
  intros Hr [Hx Hq]%NoDup_cons. destruct (decide (x = id)) as [->|Hne].
  { injection Hr as <-. split_and!; [done..|]. intros y. by right. }
  destruct (remove_first id q) as [q1|]; [|done]. cbn in Hr. injection Hr as <-.
  destruct (IH q1 eq_refl Hq) as (Hl & Hn & Hi & Hs). split_and!.
  - cbn. by f_equal.
  - constructor; [|done]. intros Hin. by apply Hx, Hs.
  - intros [->|?]%elem_of_cons; done.
  - intros y [->|Hy]%elem_of_cons; [by left|right; auto].
Qed.

Lemma remove_first_None id q : remove_first id q = None -> id ∉ q.
Proof.
  induction q as [|x q IH]; cbn [remove_first]; [intros _; apply not_elem_of_nil|].
  destruct (decide (x = id)); [done|]. destruct (remove_first id q); [done|].
  intros _ [->|?]%elem_of_cons; [done|by apply IH].
Qed.

Lemma finished_inflight c n :
  0 <= n <= st_inflight (c_state c) ->
  st_inflight (c_state (cua_finished c n)) = st_inflight (c_state c) - n.
Proof.
  intros Hn. unfold cua_finished. destruct (Z.eqb_spec n 0); [lia|]. cbn. unfold saturating_sub. lia.
Qed.

(** Remembering one of the calls just admitted: [extra] of them are not
    remembered yet. *)
Lemma remember_acting_accounts g c id others extra :
  acting_wf g -> 0 <= extra -> accounted g c (others + (extra + 1)) -> 0 <= others ->
  acting_wf (fst (remember_acting g c id)) /\
  accounted (fst (remember_acting g c id)) (snd (remember_acting g c id)) (others + extra).
Proof.
  intros [Hnd Hlen] Hx [_ Hi] Ho. unfold remember_acting.
  assert (let '(q, c1) := match remove_first id (g_acting g) with
                          | Some acting => (acting, cua_finished c 1)
                          | None => (g_acting g, c) end in
          NoDup q /\ (length q <= PENDING_CAP)%nat /\ (id ∉ q) /\
          (st_inflight (c_state c1) = others + extra + 1 + Z.of_nat (length q))) as H1.
  { destruct (remove_first id (g_acting g)) as [q|] eqn:Hr.
    - apply remove_first_Some in Hr as (Hl & Hn & Hid & _); [|done].
      rewrite finished_inflight by lia. split_and!; try done; lia.
    - apply remove_first_None in Hr. split_and!; try done; lia. }
  destruct (match remove_first _ _ with Some _ => _ | None => _ end) as [q c1].
  destruct H1 as (Hn & Hl & Hid & Hc). unfold acting_wf, accounted.
  destruct (PENDING_CAP <=? length q)%nat eqn:Hcap; cbn [fst snd g_acting]; rewrite !length_app; cbn [length].
  - apply Nat.leb_le in Hcap. destruct q as [|x q]; [by unfold PENDING_CAP, CUA_PENDING_CAP in *; cbn in *; lia|].
    cbn [tl]. cbn [length] in *. rewrite finished_inflight by lia. apply NoDup_cons in Hn as [_ Hn].
    split; [split; [|lia]|split; lia]. apply NoDup_app. split_and!; [done| |apply NoDup_singleton].
    intros y Hy ->%list_elem_of_singleton. apply Hid. by right.
  - apply Nat.leb_gt in Hcap. split; [split; [|lia]|split; lia].
    apply NoDup_app. split_and!; [done| |apply NoDup_singleton].
    by intros y Hy ->%list_elem_of_singleton.
Qed.

Lemma remember_all_accounts g c ids others :
  acting_wf g -> 0 <= others -> accounted g c (others + Z.of_nat (length ids)) ->
  acting_wf (fst (remember_all_acting g c ids)) /\
  accounted (fst (remember_all_acting g c ids)) (snd (remember_all_acting g c ids)) others.
Proof.
  revert g c. induction ids as [|id ids IH]; intros g c Hwf Ho Ha.
  { cbn in *. by rewrite Z.add_0_r in Ha. }
  cbn [remember_all_acting].
  pose proof (remember_acting_accounts g c id others (Z.of_nat (length ids)) Hwf) as Hr.
  destruct (remember_acting g c id) as [g1 c1]. cbn [fst snd] in Hr.
  destruct Hr as [Hwf1 Ha1]; [lia| |done|by apply IH].
  by replace (others + (Z.of_nat (length ids) + 1)) with (others + Z.of_nat (length (id :: ids)))
    by (cbn [length]; lia).
Qed.

Lemma admit_cua_inflight c k n takeover :
  st_inflight (c_state (fst (admit_cua c k n takeover))) =
    match snd (admit_cua c k n takeover) with
    | Ok _ => st_inflight (c_state c) + n
    | Err _ => st_inflight (c_state c)
    end.
Proof.
  unfold admit_cua, agent_takeover_locked. destruct (st_lease (c_state c)) as [l|]; [|done].
  destruct takeover; [|done]. unfold end_lease. cbn. by destruct (l_granted l).
Qed.

Lemma response_accounts g c m others :
  acting_wf g -> accounted g c others ->
  let '(g', c', _) := response g c m in acting_wf g' /\ accounted g' c' others.
Proof.
  intros Hwf Ha. unfold response. destruct (as_object m) as [obj|]; [|done].
  destruct (_ || _); [done|]. destruct (obj_get (txt "id") obj) as [id|]; [|done].
  assert (let '(q, c1) := match remove_first id (g_acting g) with
                          | Some acting => (acting, cua_finished c 1)
                          | None => (g_acting g, c) end in
          acting_wf {| g_lists := []; g_acting := q |} /\
          accounted {| g_lists := []; g_acting := q |} c1 others) as H1.
  { destruct (remove_first id (g_acting g)) as [q|] eqn:Hr; [|done].
    destruct Hwf as [Hnd Hlen], Ha as [Ho Hi].
    apply remove_first_Some in Hr as (Hl & Hn & _ & _); [|done].
    unfold acting_wf, accounted. cbn [g_acting]. rewrite finished_inflight by lia.
    split; [split; [done|lia]|split; lia]. }
  destruct (match remove_first _ (g_acting g) with Some _ => _ | None => _ end) as [q c1].
  by destruct (remove_first id (g_lists g)).
Qed.

Lemma outbound_accounts g c m others :
  acting_wf g -> accounted g c others ->
  let '(g', c', _) := outbound g c m in acting_wf g' /\ accounted g' c' others.
Proof.
  intros Hwf Ha. unfold outbound. destruct m as [| | | |items|]; try by apply response_accounts.
  assert (let '(g', c', _) := response_all g c items in acting_wf g' /\ accounted g' c' others) as H1.
  { revert g c Hwf Ha. induction items as [|m items IH]; intros g c Hwf Ha; [done|]. cbn [response_all].
    pose proof (response_accounts g c m others Hwf Ha) as Hr.
    destruct (response g c m) as [[g1 c1] m']. destruct Hr as [Hwf1 Ha1]. specialize (IH _ _ Hwf1 Ha1).
    by destruct (response_all g1 c1 items) as [[g2 c2] items']. }
  by destruct (response_all g c items) as [[g2 c2] items'].
Qed.
End GateFacts.

(** ** Properties *)

Section GateProperties.
Context {S : Type} `{EventSink S}.
Implicit Types (g : Gate) (c : Ctl S).

(** Under a human lease no acting call reaches Cua unasked.  A message
    is forwarded only when none of its calls acts (then the control is
    untouched), or when an acting call asks for [takeover]: then the lease
    is over and its transition is handed out first.  Otherwise the message
    is answered or dropped here, and neither the control nor the calls in
    flight change. *)
Theorem human_lease_gates_cua g c k (m : Value) (l : Lease) :
  st_lease (c_state c) = Some l ->
  let '(g', c', out, t) := inbound g c k m in
  match out with
  | Forward _ =>
      ((forall x, x ∈ elements m -> ~ acting_call x) /\ c' = c /\ t = None) \/
      ((exists x, x ∈ elements m /\ acting_call x /\ asks_takeover x) /\
       st_lease (c_state c') = None /\ is_Some t)
  | Answer _ _ | DropIt =>
      (exists x, x ∈ elements m /\ acting_call x) /\
      (forall x, x ∈ elements m -> acting_call x -> ~ asks_takeover x) /\
      c' = c /\ t = None /\ g_acting g' = g_acting g
  end.
Proof.
  intros Hl. unfold inbound. pose proof (inspect_message_spec (g_lists g) m) as Hs.
  destruct (inspect_message (g_lists g) m) as [[lists m'] calls]. destruct Hs as (_ & Ha & Ht).
  destruct (existsb cl_acting calls) eqn:Eact; cbn [negb].
  2: { left. split_and!; [|done|done]. intros x Hx Hax.
       assert (false = true) by (apply Ha; eauto). done. }
  pose proof (admit_cua_human c k (Z.of_nat (length (answered calls))) (existsb cl_takeover calls) l Hl)
    as Hadm.
  destruct (admit_cua c k _ _) as [c1 r]. destruct (existsb cl_takeover calls).
  - destruct Hadm as [Hn [t ->]].
    pose proof (remember_all_lease {| g_lists := lists; g_acting := g_acting g |} c1 (answered calls)) as Hr.
    destruct (remember_all_acting _ c1 _) as [g2 c2]. right. cbn [snd] in Hr.
    split_and!; [by apply Ht|congruence|done].
  - destruct Hadm as [-> [refusal ->]].
    assert ((exists x, x ∈ elements m /\ acting_call x) /\
            forall x, x ∈ elements m -> acting_call x -> ~ asks_takeover x) as [H1 H2].
    { split; [by apply Ha|]. intros x Hx Hax Hat.
      assert (false = true) by (apply Ht; eauto). done. }
    assert (forall mm, match refuse mm refusal with Forward _ => False | _ => True end) as Hrf.
    { intros mm. unfold refuse. repeat case_match; done. }
    specialize (Hrf m'). by destruct (refuse m' refusal).
Qed.

(** The [takeover] argument is between the caller and the daemon:
    whatever the gate decides, the message it forwards, or keeps as the
    request it answered, is the caller's message with [takeover] removed
    from the arguments of every tool call, and otherwise unchanged. *)
Theorem takeover_argument_is_stripped g c k (m : Value) :
  json_wf m ->
  match inbound g c k m with
  | (_, _, Forward m', _) | (_, _, Answer m' _, _) => Forall2 stripped (elements m) (elements m')
  | (_, _, DropIt, _) => True
  end.
Proof.
  intros Hwf. unfold inbound. pose proof (inspect_message_spec (g_lists g) m) as Hs.
  destruct (inspect_message (g_lists g) m) as [[lists m'] calls]. destruct Hs as (Hs & _).
  specialize (Hs Hwf). destruct (negb _); [done|].
  destruct (admit_cua c k _ _) as [c1 [t|refusal]].
  - by destruct (remember_all_acting _ c1 _).
  - assert (match refuse m' refusal with Forward _ => False | Answer mm _ => mm = m' | DropIt => True end)
      as Hrf.
    { unfold refuse. destruct m' as [| | | |items|]; try (by destruct (refused_reply _ _)).
      by destruct (omap _ items). }
    destruct (refuse m' refusal); [done|by subst|done].
Qed.

(** The calls in flight are counted exactly.  Whatever other
    attachments have in flight, every message in either direction keeps the
    count at theirs plus one per acting call this attachment still waits
    for, of which there are at most 64 under distinct ids; and closing the
    attachment takes all of its own away, so a human take never waits for a
    call that nobody answers. *)
Theorem gate_inflight_exact g c k (m : Value) (others : Z) :
  acting_wf g -> accounted g c others ->
  (let '(g', c', _, _) := inbound g c k m in acting_wf g' /\ accounted g' c' others) /\
  (let '(g', c', _) := outbound g c m in acting_wf g' /\ accounted g' c' others) /\
  st_inflight (c_state (gate_drop g c)) = others.
Proof.
  intros Hwf Ha. split_and!.
  - unfold inbound. destruct (inspect_message (g_lists g) m) as [[lists m'] calls].
    assert (acting_wf {| g_lists := lists; g_acting := g_acting g |} /\
            accounted {| g_lists := lists; g_acting := g_acting g |} c others) as [Hwf1 Ha1] by done.
    destruct (negb _); [done|].
    pose proof (admit_cua_inflight c k (Z.of_nat (length (answered calls))) (existsb cl_takeover calls)) as Hi.
    destruct (admit_cua c k _ _) as [c1 [t|refusal]]; cbn [fst snd] in Hi.
    + destruct Ha1 as [Ho Hin]. pose proof (remember_all_accounts _ c1 (answered calls) others Hwf1 Ho) as Hr.
      destruct (remember_all_acting _ c1 _) as [g2 c2]. apply Hr. split; [lia|]. cbn [g_acting] in *. lia.
    + split; [done|]. destruct Ha1 as [Ho Hin]. split; [done|]. cbn [g_acting] in *. lia.
  - by apply outbound_accounts.
  - destruct Ha as [Ho Hi]. unfold gate_drop. rewrite finished_inflight by lia. lia.
Qed.

(** Every tool is advertised as the gate treats it: the result of a
    [tools/list] request gets a [takeover] property in the input schema of
    exactly the tools that act, with every other member of the schema and
    its properties kept; tools known to be read-only are unchanged. *)
Theorem patch_tool_advertises_takeover (tool schema : list (text * Value)) (name : text) :
  obj_get (txt "name") tool = Some (JString name) ->
  obj_get (txt "inputSchema") tool = Some (JObject schema) ->
  (name ∈ READ_ONLY_CUA_TOOLS -> patch_tool (JObject tool) = JObject tool) /\
  (name ∉ READ_ONLY_CUA_TOOLS ->
     exists tool' schema',
       patch_tool (JObject tool) = JObject tool' /\
       (forall k, k <> txt "inputSchema" -> obj_get k tool' = obj_get k tool) /\
       obj_get (txt "inputSchema") tool' = Some (JObject schema') /\
       (forall k, k <> txt "properties" -> obj_get k schema' = obj_get k schema) /\
       match obj_get (txt "properties") schema with
       | Some (JObject props) =>
           exists props', obj_get (txt "properties") schema' = Some (JObject props') /\
             obj_get (txt "takeover") props' = Some takeover_property /\
             forall k, k <> txt "takeover" -> obj_get k props' = obj_get k props
       | Some other => obj_get (txt "properties") schema' = Some other
       | None => obj_get (txt "properties") schema'
                 = Some (JObject [(txt "takeover", takeover_property)])
       end).
Proof.
  intros Hname Hschema. unfold patch_tool, get. cbn [as_object and_then]. rewrite Hname.
  cbn [and_then as_str]. unfold is_acting. split; intros Hro; [by rewrite bool_decide_eq_true_2|].
  rewrite bool_decide_eq_false_2 by done. cbn [negb on_object]. eexists _, (patch_schema schema).
  split; [done|]. split_and!.
  - intros k Hk. by rewrite obj_get_update, decide_False.
  - by rewrite obj_get_update, decide_True, Hschema.
  - intros k Hk. unfold patch_schema. rewrite obj_get_update, decide_False by done.
    case_match; [done|]. by rewrite obj_get_insert, decide_False.
  - unfold patch_schema, contains_key. rewrite obj_get_update, decide_True by done.
    destruct (obj_get (txt "properties") schema) as [p|] eqn:Hp.
    + rewrite bool_decide_eq_true_2, Hp by eauto. cbn [fmap option_fmap option_map on_object].
      destruct p as [| | | | |props]; try done. eexists. split; [done|].
      rewrite obj_get_insert, decide_True by done. split; [done|].
      intros k Hk. by rewrite obj_get_insert, decide_False.
    + rewrite bool_decide_eq_false_2 by (by intros [? ?]).
      by rewrite obj_get_insert, decide_True.
Qed.
End GateProperties.

(** ** Concrete messages *)

Definition demo_call (id : text) (name : text) (args : list (text * Value)) : Value :=
  JObject [ (txt "jsonrpc", JString (txt "2.0")); (txt "id", JNumber id);
            (txt "method", JString tools_call);
            (txt "params", JObject [ (txt "name", JString name); (txt "arguments", JObject args) ]) ].
Definition demo_click : Value := demo_call (txt "7") (txt "click") [(txt "x", JNumber (txt "1"))].
Definition demo_click_takeover : Value :=
  demo_call (txt "8") (txt "click") [(txt "takeover", JBool true); (txt "x", JNumber (txt "1"))].

Lemma human_lease_gates_cua_witness :
  (exists l, st_lease (c_state demo_granted) = Some l) /\
  (forall m', snd (fst (inbound gate_new demo_granted (demo_clk 4) demo_click)) <> Forward m').
Proof.
  destruct (st_lease (c_state demo_granted)) as [l|] eqn:Hl; [|by vm_compute in Hl].
  split; [by exists l|]. intros m'.
  pose proof (human_lease_gates_cua gate_new demo_granted (demo_clk 4) demo_click l Hl) as Hx.
  destruct (inbound _ _ _ _) as [[[g' c'] out] t] eqn:Hin. cbn [fst snd]. intros ->.
  destruct Hx as [(_ & _ & ->)|(_ & _ & [t' ->])]; by vm_compute in Hin.
Defined.

Lemma takeover_argument_is_stripped_witness :
  snd (fst (inbound gate_new demo_granted (demo_clk 4) demo_click_takeover))
    = Forward (demo_call (txt "8") (txt "click") [(txt "x", JNumber (txt "1"))]) /\
  Forall2 stripped (elements demo_click_takeover)
    (elements (demo_call (txt "8") (txt "click") [(txt "x", JNumber (txt "1"))])).
Proof.
  assert (json_wf demo_click_takeover) as Hwf.
  { vm_compute. repeat split; apply (bool_decide_unpack _); by vm_compute. }
  split; [by vm_compute|].
  pose proof (takeover_argument_is_stripped gate_new demo_granted (demo_clk 4) demo_click_takeover Hwf) as Hx.
  destruct (inbound _ _ _ _) as [[[g' c'] out] t] eqn:Hin.
  assert (out = Forward (demo_call (txt "8") (txt "click") [(txt "x", JNumber (txt "1"))])) as ->.
  { assert (snd (fst (g', c', out, t)) = Forward (demo_call (txt "8") (txt "click") [(txt "x", JNumber (txt "1"))]))
      as Hout by (rewrite <- Hin; by vm_compute).
    exact Hout. }
  exact Hx.
Defined.

Lemma gate_inflight_exact_witness :
  let g := fst (fst (fst (inbound gate_new demo_new (demo_clk 4) demo_click))) in
  let c := snd (fst (fst (inbound gate_new demo_new (demo_clk 4) demo_click))) in
  st_inflight (c_state c) = 1 /\ st_inflight (c_state (gate_drop g c)) = 0.
Proof.
  split; [by vm_compute|].
  apply (gate_inflight_exact _ _ (demo_clk 4) demo_click 0).
  - split; [|vm_compute; lia]. apply (bool_decide_unpack _). by vm_compute.
  - by vm_compute.
Defined.

Lemma patch_tool_advertises_takeover_witness :
  (txt "click" ∉ READ_ONLY_CUA_TOOLS) /\
  exists tool', patch_tool (JObject [(txt "name", JString (txt "click")); (txt "inputSchema", JObject [])])
    = JObject tool'.
Proof.
  assert (txt "click" ∉ READ_ONLY_CUA_TOOLS) as Hn by (apply (bool_decide_unpack _); by vm_compute).
  split; [exact Hn|].
  destruct (proj2 (patch_tool_advertises_takeover
    [(txt "name", JString (txt "click")); (txt "inputSchema", JObject [])] [] (txt "click")
    ltac:(by vm_compute) ltac:(by vm_compute)) Hn) as (tool' & _ & Heq & _).
  by exists tool'.
Defined.
