(* ===== verification/Pattern.v ===== *)
(** * Host patterns ([crates/rdpilot-config/src/hosts/pattern.rs])

    [glob_match] is the source's loop over two indices with one remembered
    star; [glob_loop] runs it with fuel, and [glob_fuel] is enough for every
    input.  [Matches] says what a pattern means. *)
From S2P Require Import Prelude.

(** ** Definitions *)
Definition star : char := 42%N.
Definition any : char := 63%N.
Definition bang : char := 33%N.

(** The loop's variables. *)
Record Glob := { gl_pi : nat; gl_ti : nat; gl_star : option nat; gl_mark : nat }.
Definition glob_start : Glob := {| gl_pi := 0; gl_ti := 0; gl_star := None; gl_mark := 0 |}.

(** One round of [while ti < t.len()]: the next state, or [None] for
    [return false]. *)
Definition glob_round (p t : text) (s : Glob) : option Glob :=
  let literal := match p !! gl_pi s, t !! gl_ti s with
                 | Some c, Some x => (c =? any)%N || (negb (c =? star)%N && (c =? x)%N)
                 | _, _ => false end in
  let is_star := match p !! gl_pi s with Some c => (c =? star)%N | None => false end in
  if literal then
    Some {| gl_pi := gl_pi s + 1; gl_ti := gl_ti s + 1; gl_star := gl_star s; gl_mark := gl_mark s |}
  else if is_star then
    Some {| gl_pi := gl_pi s + 1; gl_ti := gl_ti s; gl_star := Some (gl_pi s); gl_mark := gl_ti s |}
  else
    match gl_star s with
    | Some k => Some {| gl_pi := k + 1; gl_ti := gl_mark s + 1; gl_star := gl_star s;
                        gl_mark := gl_mark s + 1 |}
    | None => None
    end.

(** After the loop: skip stars, then the pattern must be used up. *)
Definition glob_end (p : text) (s : Glob) : bool :=
  match drop_while (fun c => (c =? star)%N) (drop (gl_pi s) p) with [] => true | _ :: _ => false end.

(** [None]: out of fuel. *)
Fixpoint glob_loop (fuel : nat) (p t : text) (s : Glob) : option bool :=
  match fuel with
  | O => None
  | S fuel =>
      if (gl_ti s <? length t)%nat then
        match glob_round p t s with
        | Some s => glob_loop fuel p t s
        | None => Some false
        end
      else Some (glob_end p s)
  end.

Definition glob_fuel (p t : text) : nat := (length t + 1) * (length p + 1) + 1.
Definition glob_match (p t : text) : bool := default false (glob_loop (glob_fuel p t) p t glob_start).

(** The loop of [host_line_matches] over the patterns. *)
Fixpoint host_line_loop (patterns : list text) (host : text) (positive : bool) : bool :=
  match patterns with
  | [] => positive
  | pat :: patterns =>
      match strip_prefix [bang] pat with
      | Some neg => if glob_match neg host then false else host_line_loop patterns host positive
      | None => host_line_loop patterns host (if glob_match pat host then true else positive)
      end
  end.
Definition host_line_matches (patterns : list text) (host : text) : bool :=
  host_line_loop patterns (to_ascii_lowercase host) false.

(** ** Specification *)

Inductive Matches : text -> text -> Prop :=
| M_nil : Matches [] []
| M_any p x t : Matches p t -> Matches (any :: p) (x :: t)
| M_char c p t : c <> star -> Matches p t -> Matches (c :: p) (c :: t)
| M_star_empty p t : Matches p t -> Matches (star :: p) t
| M_star_more p x t : Matches (star :: p) t -> Matches (star :: p) (x :: t).

(** ** Lemmas *)

(** A star stands for any prefix of the text. *)
Lemma matches_star p t : Matches (star :: p) t <-> exists k, k <= length t /\ Matches p (drop k t).
Proof.
  split.
  - remember (star :: p) as q eqn:Hq. induction 1 as [| | | |q' x t H IH]; simplify_eq.
    + exists 0. split; [lia|]. by rewrite drop_0.
    + destruct (IH eq_refl) as (k & Hk & Hm). exists (S k). split; [simpl; lia|done].
  - intros (k & Hk & Hm). revert t Hk Hm. induction k as [|k IH]; intros t Hk Hm.
    + rewrite drop_0 in Hm. by apply M_star_empty.
    + destruct t as [|x t]; [simpl in Hk; lia|]. apply M_star_more, IH; [simpl in Hk; lia|done].
Qed.

Lemma matches_literal c p x t :
  c <> star -> Matches (c :: p) (x :: t) <-> (c = any \/ c = x) /\ Matches p t.
Proof.
  intros Hc. split.
  - inversion 1; subst; auto; done.
  - intros [[->| ->] Hm]; by constructor.
Qed.

Lemma matches_literal_nil c p : c <> star -> ~ Matches (c :: p) [].
Proof. intros Hc. inversion 1; subst; done. Qed.

Lemma matches_nil_r p : Matches p [] <-> drop_while (fun c => (c =? star)%N) p = [].
Proof.
  induction p as [|c p IH]; cbn [drop_while]; [by split; [|constructor]|].
  destruct (N.eqb_spec c star) as [->|Hc].
  - rewrite matches_star, <- IH. split.
    + intros (k & Hk & Hm). by destruct k; [|simpl in Hk; lia].
    + intros Hm. by exists 0.
  - split; [|done]. intros Hm. by destruct (matches_literal_nil c p).
Qed.

(** A star-free beginning takes as many characters as it has. *)
Lemma matches_segment seg p t :
  Forall (fun c => c <> star) seg -> Matches (seg ++ p) t ->
  length seg <= length t /\ Matches p (drop (length seg) t).
Proof.
  intros Hseg. revert t. induction Hseg as [|c seg Hc _ IH]; intros t Hm.
  - split; [simpl; lia|]. by rewrite drop_0.
  - destruct t as [|x t]; [by apply matches_literal_nil in Hm|].
    cbn [app] in Hm. apply matches_literal in Hm as [_ Hm]; [|done].
    destruct (IH _ Hm) as [Hl Hm']. split; [simpl; lia|done].
Qed.

(** *** The loop's invariant *)
Section Loop.
Variables p t : text.

(** Where a remembered star still can match: after more of the text. *)
Definition retry (s : Glob) : Prop :=
  exists k j, gl_star s = Some k /\ gl_mark s < j <= length t /\ Matches (drop (k + 1) p) (drop j t).

Definition glob_inv (s : Glob) : Prop :=
  gl_pi s <= length p /\ gl_ti s <= length t /\ gl_mark s <= gl_ti s /\
  (forall k, gl_star s = Some k ->
     k < gl_pi s /\ gl_ti s - gl_mark s = gl_pi s - (k + 1) /\
     exists seg, Forall (fun c => c <> star) seg /\ length seg = gl_pi s - (k + 1) /\
                 drop (k + 1) p = seg ++ drop (gl_pi s) p) /\
  (Matches p t <-> Matches (drop (gl_pi s) p) (drop (gl_ti s) t) \/ retry s).

Lemma glob_inv_start : glob_inv glob_start.
Proof.
  unfold glob_inv, retry. cbn. split_and!; try lia; [done|].
  split; [by left|]. intros [Hm|(k & j & Hk & _)]; done.
Qed.

(** Decreases in every round. *)
Definition glob_measure (s : Glob) : nat :=
  (length t - gl_mark s) * (length p + 1) + (length p - gl_pi s).

Lemma drop_lookup {A} (l : list A) n x : l !! n = Some x -> drop n l = x :: drop (n + 1) l.
Proof. intros Hx. rewrite Nat.add_1_r. by apply drop_S. Qed.

Lemma glob_round_literal s c x :
  glob_inv s -> p !! gl_pi s = Some c -> t !! gl_ti s = Some x -> c <> star -> c = any \/ c = x ->
  glob_inv {| gl_pi := gl_pi s + 1; gl_ti := gl_ti s + 1; gl_star := gl_star s; gl_mark := gl_mark s |}.
Proof.
  intros (Hpi & Hti & Hmark & Hstar & Hm) Hc Hx Hns Hcx.
  pose proof (lookup_lt_Some _ _ _ Hc). pose proof (lookup_lt_Some _ _ _ Hx).
  unfold glob_inv, retry in *. cbn. split_and!; try lia.
  - intros k Hk. destruct (Hstar k Hk) as (? & ? & seg & Hseg & Hlen & Hdrop).
    split_and!; [lia|lia|]. exists (seg ++ [c]). split_and!.
    + by apply Forall_app; split; [|constructor].
    + rewrite length_app. cbn. lia.
    + by rewrite Hdrop, (drop_lookup p _ c Hc), <- app_assoc.
  - rewrite Hm, (drop_lookup p _ c Hc), (drop_lookup t _ x Hx), matches_literal by done. tauto.
Qed.

Lemma glob_round_star s :
  glob_inv s -> gl_ti s < length t -> p !! gl_pi s = Some star ->
  glob_inv {| gl_pi := gl_pi s + 1; gl_ti := gl_ti s; gl_star := Some (gl_pi s); gl_mark := gl_ti s |}.
Proof.
  intros (Hpi & Hti & Hmark & Hstar & Hm) Hlt Hc.
  pose proof (lookup_lt_Some _ _ _ Hc).
  assert (Matches (drop (gl_pi s) p) (drop (gl_ti s) t) <->
          exists j, gl_ti s <= j <= length t /\ Matches (drop (gl_pi s + 1) p) (drop j t)) as Hsp.
  { rewrite (drop_lookup p _ star Hc), matches_star. split.
    - intros (k & Hk & Hmk). rewrite length_drop in Hk. rewrite drop_drop in Hmk.
      exists (gl_ti s + k). split; [lia|done].
    - intros (j & Hj & Hmj). exists (j - gl_ti s). rewrite length_drop, drop_drop.
      split; [lia|]. by replace (gl_ti s + (j - gl_ti s)) with j by lia. }
  unfold glob_inv, retry in *. cbn. split_and!; try lia.
  - intros k [= <-]. split_and!; [lia|lia|]. exists []. split_and!; [done|cbn; lia|done].
  - rewrite Hm, Hsp. split.
    + intros [(j & Hj & Hmj)|(k & j & Hk & Hj & Hmj)].
      * destruct (decide (j = gl_ti s)) as [->|]; [by left|right]. exists (gl_pi s), j.
        split_and!; [done|lia|lia|done].
      * destruct (Hstar k Hk) as (? & ? & seg & Hseg & Hlen & Hdrop). rewrite Hdrop in Hmj.
        apply matches_segment in Hmj as [Hl Hmj]; [|done].
        rewrite length_drop in Hl. rewrite drop_drop, (drop_lookup p _ star Hc) in Hmj.
        apply matches_star in Hmj as (i & Hi & Hmi). rewrite length_drop in Hi. rewrite drop_drop in Hmi.
        right. eexists (gl_pi s), _. split_and!; [done| | |exact Hmi]; lia.
    + intros [Hmj|(k & j & [= <-] & Hj & Hmj)]; left.
      * exists (gl_ti s). split; [lia|done].
      * exists j. split; [lia|done].
Qed.

Lemma glob_round_back s k :
  glob_inv s -> gl_ti s < length t -> gl_star s = Some k ->
  ~ Matches (drop (gl_pi s) p) (drop (gl_ti s) t) ->
  glob_inv {| gl_pi := k + 1; gl_ti := gl_mark s + 1; gl_star := gl_star s; gl_mark := gl_mark s + 1 |}.
Proof.
  intros (Hpi & Hti & Hmark & Hstar & Hm) Hlt Hk Hno.
  destruct (Hstar k Hk) as (Hkp & _ & _).
  unfold glob_inv, retry in *. cbn. split_and!; try lia.
  - intros k' Hk'. simplify_eq. split_and!; [lia|lia|]. exists []. split_and!; [done|cbn; lia|done].
  - rewrite Hm. split.
    + intros [?|(k' & j & Hk' & Hj & Hmj)]; [done|]. simplify_eq.
      destruct (decide (j = gl_mark s + 1)) as [->|]; [by left|right].
      exists k, j. split_and!; [done|lia|lia|done].
    + intros [Hmj|(k' & j & Hk' & Hj & Hmj)]; right.
      * exists k, (gl_mark s + 1). split_and!; [done|lia|lia|done].
      * exists k', j. split_and!; [done|lia|lia|done].
Qed.

Lemma glob_round_spec s :
  glob_inv s -> gl_ti s < length t ->
  match glob_round p t s with
  | Some s' => glob_inv s' /\ glob_measure s' < glob_measure s
  | None => ~ Matches p t
  end.
Proof.
  intros Hinv Hlt. pose proof Hinv as (Hpi & Hti & Hmark & Hstar & Hm).
  destruct (lookup_lt_is_Some_2 t (gl_ti s) Hlt) as [x Hx].
  unfold glob_round. rewrite Hx.
  assert (forall s', gl_mark s' >= gl_mark s -> gl_pi s' = gl_pi s + 1 -> gl_pi s < length p ->
            gl_mark s' <= length t -> glob_measure s' < glob_measure s) as Hless.
  { intros s' H1 H2 H3 H4. unfold glob_measure. nia. }
  destruct (p !! gl_pi s) as [c|] eqn:Hc.
  1: pose proof (lookup_lt_Some _ _ _ Hc) as Hlp;
     destruct (N.eqb_spec c any) as [->|Hany]; cbn [orb].
  - split; [|apply Hless; cbn; lia]. eapply glob_round_literal; eauto; done.
  - destruct (N.eqb_spec c star) as [->|Hns]; cbn [negb andb].
    + split; [|apply Hless; cbn; lia]. by apply glob_round_star.
    + destruct (N.eqb_spec c x) as [->|Hcx].
      { split; [|apply Hless; cbn; lia]. eapply glob_round_literal; eauto. }
      assert (~ Matches (drop (gl_pi s) p) (drop (gl_ti s) t)) as Hno.
      { rewrite (drop_lookup p _ c Hc), (drop_lookup t _ x Hx), matches_literal by done. tauto. }
      destruct (gl_star s) as [k|] eqn:Hk.
      * rewrite <- Hk. split; [by apply glob_round_back|].
        destruct (Hstar k eq_refl) as (Hkp & Hd & _). unfold glob_measure. cbn. nia.
      * rewrite Hm. intros [?|(k & j & ? & _)]; [done|congruence].
  - assert (drop (gl_pi s) p = []) as Hnil by (apply drop_ge; by apply lookup_ge_None).
    assert (~ Matches (drop (gl_pi s) p) (drop (gl_ti s) t)) as Hno.
    { rewrite Hnil, (drop_lookup t _ x Hx). by inversion 1. }
    destruct (gl_star s) as [k|] eqn:Hk.
    + rewrite <- Hk. split; [by apply glob_round_back|].
      destruct (Hstar k eq_refl) as (Hkp & Hd & _). unfold glob_measure. cbn. nia.
    + rewrite Hm. intros [?|(k & j & ? & _)]; [done|congruence].
Qed.

Lemma glob_end_spec s : glob_inv s -> length t <= gl_ti s -> glob_end p s = true <-> Matches p t.
Proof.
  intros (Hpi & Hti & Hmark & Hstar & Hm) Hge.
  rewrite Hm, (drop_ge t) by done. unfold glob_end. rewrite matches_nil_r.
  destruct (drop_while _ (drop (gl_pi s) p)) as [|c l]; [by split; [left|]|].
  split; [done|]. intros [?|(k & j & Hk & Hj & Hmj)]; [done|].
  destruct (Hstar k Hk) as (? & ? & seg & Hseg & Hlen & Hdrop). rewrite Hdrop in Hmj.
  apply matches_segment in Hmj as [Hl _]; [|done]. rewrite length_drop in Hl. lia.
Qed.

Lemma glob_loop_spec fuel s :
  glob_inv s -> glob_measure s < fuel -> exists b, glob_loop fuel p t s = Some b /\ (b = true <-> Matches p t).
Proof.
  revert s. induction fuel as [|fuel IH]; intros s Hinv Hf; [lia|]. cbn [glob_loop].
  destruct (Nat.ltb_spec (gl_ti s) (length t)) as [Hlt|Hge].
  - pose proof (glob_round_spec s Hinv Hlt) as Hr. destruct (glob_round p t s) as [s'|].
    + destruct Hr as [Hinv' Hless]. apply IH; [done|lia].
    + exists false. split; [done|]. by split.
  - exists (glob_end p s). split; [done|]. by apply glob_end_spec.
Qed.
End Loop.

Lemma glob_match_spec p t :
  glob_loop (glob_fuel p t) p t glob_start = Some (glob_match p t) /\
  (glob_match p t = true <-> Matches p t).
Proof.
  destruct (glob_loop_spec p t (glob_fuel p t) glob_start (glob_inv_start p t)) as (b & Hb & Hm).
  { unfold glob_measure, glob_fuel. cbn. nia. }
  unfold glob_match. by rewrite Hb.
Qed.

(** ** Properties *)

(** C9: the pattern loop always ends, within the fuel it is given, and answers
    exactly whether the text is an instance of the pattern: [*] any run of
    characters, [?] any one character, everything else itself. *)
Theorem glob_match_correct (p t : text) :
  glob_loop (glob_fuel p t) p t glob_start = Some (glob_match p t) /\
  (glob_match p t = true <-> Matches p t).
Proof. apply glob_match_spec. Qed.

(** A [Host] line applies to exactly the hosts that, in lower case, match
    one of its positive patterns and none of its negated ones; so a line of
    negated patterns never applies, and the order of the patterns is
    irrelevant. *)
Theorem host_line_matches_correct (patterns : list text) (host : text) :
  host_line_matches patterns host = true <->
  (exists p, p ∈ patterns /\ head p <> Some bang /\ Matches p (to_ascii_lowercase host)) /\
  (forall p, bang :: p ∈ patterns -> ~ Matches p (to_ascii_lowercase host)).
Proof.
  unfold host_line_matches. generalize (to_ascii_lowercase host) as h. clear host. intros h.
  enough (forall positive, host_line_loop patterns h positive = true <->
    (positive = true \/ exists p, p ∈ patterns /\ head p <> Some bang /\ Matches p h) /\
    (forall p, bang :: p ∈ patterns -> ~ Matches p h)) as Hall.
  { rewrite Hall. intuition done. }
  induction patterns as [|pat patterns IH]; intros positive; cbn [host_line_loop].
  { split.
    - intros ->. split; [by left|]. by intros p ?%not_elem_of_nil.
    - intros [[?|(p & Hp & _)] _]; [done|]. by apply not_elem_of_nil in Hp. }
  destruct (strip_prefix [bang] pat) as [neg|] eqn:Hneg.
  - apply strip_prefix_Some in Hneg as ->. cbn [app].
    destruct (glob_match neg h) eqn:Hg.
    + apply glob_match_spec in Hg. split; [done|]. intros [_ Hn]. by destruct (Hn neg); [left|].
    + assert (~ Matches neg h) as Hno by (rewrite <- (proj2 (glob_match_spec neg h)); congruence).
      rewrite IH. setoid_rewrite elem_of_cons. split.
      * intros [Hp Hn]. split.
        { destruct Hp as [?|(p1 & Hp1 & ?)]; [by left|right]. exists p1. auto. }
        intros p [[= ->]|Hp2]; auto.
      * intros [Hp Hn]. split; [|by intros p Hp'; apply Hn; right].
        destruct Hp as [?|(p1 & [->|Hp1] & Hd & ?)]; [by left|by destruct Hd|right]. by exists p1.
  - assert (head pat <> Some bang) as Hhd.
    { destruct pat as [|c pat]; [done|]. cbn. intros [= ->]. by vm_compute in Hneg. }
    rewrite IH. setoid_rewrite elem_of_cons.
    pose proof (proj2 (glob_match_spec pat h)) as Hg.
    destruct (glob_match pat h).
    + assert (Matches pat h) by (by apply Hg). split.
      * intros [_ Hn]. split; [right; exists pat; auto|]. intros p [Heq|Hp]; [|auto]. by subst pat.
      * intros [_ Hn]. split; [by left|auto].
    + assert (~ Matches pat h) by (rewrite <- Hg; done). split.
      * intros [Hp Hn]. split; [|intros p [Heq|Hp']; [by subst pat|auto]].
        destruct Hp as [?|(p1 & Hp1 & ?)]; [by left|right]. exists p1. auto.
      * intros [Hp Hn]. split; [|auto].
        destruct Hp as [?|(p1 & [->|Hp1] & ? & ?)]; [by left|done|right]. by exists p1.
Qed.
