(* ===== verification/HostsParse.v ===== *)
(** * Hosts file lines and keywords
      ([crates/rdpilot-config/src/hosts/parse.rs], [keywords.rs] and the error
      type of [mod.rs])

    Lexing of one line, the keyword table, and the validation of a value.  A
    [HostsError] of the source is a message; here it is a constructor that
    carries exactly the data its message shows. *)
From S2P Require Import Prelude.

(** ** Definitions *)

Definition equals : char := 61%N.
Definition hash : char := 35%N.
Definition backslash : char := 92%N.
Definition blank : char := 32%N.

Inductive HostsError :=
(* parse.rs *)
| UnterminatedQuote
(* keywords.rs *)
| NeedsValue (keyword : text)
| BadPort (keyword : text)
| BadYesNo (keyword : text)
| BadCuaVersion (keyword value : text)
(* target.rs *)
| EmptyTarget
| UnsupportedScheme (scheme : text)
| InvalidUrl (message : text)
| NoUrlHost
| BadPercentEncoding
| UrlHasPath (redacted : text)
| UrlHasQuery (redacted : text)
| UrlHasFragment (redacted : text)
(* resolve.rs *)
| HostNeedsPattern
| MatchNotSupported
| UnknownKeyword (word : text)
| IncludeNeedsPath
| ExpectsOneValue (keyword : text) (quote_hint : bool)
| InvalidInclude (message : text)
| IncludeCycle (file : text)
| IncludeTooDeep (file : text)
| CannotRead (file message : text)
| CannotStat (file message : text)
| PasswordReadable (file : text)
| ExpectedKeywordValue
| NotWithOption (word : text)
| HostNameUnknownToken (token : char)
| HostNameTrailing
| AtLine (label : text) (line : nat) (e : HostsError)
| AtOption (n : nat) (e : HostsError)
(* expand.rs *)
| TokenRefused (target : text) (token : char) (problem : text)
| PasswordCommandError (target message : text).

(** [split_line] *)
Definition is_separator (c : char) : bool := is_whitespace c || (c =? equals)%N.
Definition split_line (line : text) : option (text * text) :=
  let line := trim_start line in
  match line with
  | [] => None
  | c :: _ =>
      if (c =? hash)%N then None
      else
        let keyword := take_while (fun c => negb (is_separator c)) line in
        let rest := trim_start (drop_while (fun c => negb (is_separator c)) line) in
        let rest := match strip_prefix [equals] rest with
                    | Some after => trim_start after
                    | None => rest
                    end in
        Some (keyword, trim_end rest)
  end.

(** [words]: the loop with the words so far, the current word, and its flags. *)
Definition is_escapable (c : char) : bool := (c =? dquote)%N || (c =? backslash)%N.
Fixpoint words_loop (t : text) (out : list text) (cur : text) (in_word in_quote : bool)
  : result HostsError (list text) :=
  match t with
  | [] =>
      if in_quote then Err UnterminatedQuote
      else Ok (if in_word then out ++ [cur] else out)
  | c :: t' =>
      if in_quote then
        match t' with
        | d :: t'' =>
            if (c =? backslash)%N && is_escapable d then words_loop t'' out (cur ++ [d]) in_word true
            else if (c =? dquote)%N then words_loop t' out cur in_word false
            else words_loop t' out (cur ++ [c]) in_word true
        | [] =>
            if (c =? dquote)%N then words_loop t' out cur in_word false
            else words_loop t' out (cur ++ [c]) in_word true
        end
      else if (c =? dquote)%N then words_loop t' out cur true true
      else if is_whitespace c then
        if in_word then words_loop t' (out ++ [cur]) [] false false
        else words_loop t' out cur in_word false
      else if (c =? hash)%N && negb in_word then Ok out
      else words_loop t' out (cur ++ [c]) true false
  end.
Definition words (rest : text) : result HostsError (list text) := words_loop rest [] [] false false.

(** [command_value] *)
Fixpoint command_loop (body out : text) : option text :=
  match body with
  | [] => None
  | c :: body' =>
      match body' with
      | d :: body'' =>
          if (c =? backslash)%N && is_escapable d then command_loop body'' (out ++ [d])
          else if (c =? dquote)%N then None
          else command_loop body' (out ++ [c])
      | [] => if (c =? dquote)%N then Some out else command_loop body' (out ++ [c])
      end
  end.
Definition command_value (rest : text) : text :=
  match strip_prefix [dquote] rest with
  | None => rest
  | Some body => default rest (command_loop body [])
  end.

(** ** Keywords *)
Inductive Kind := KText | KPort | KYesNo | KCommand | KInclude | KCuaVersion.
Inductive Slot :=
| SlHostName | SlPort | SlUser | SlDomain | SlCredential | SlAcceptInvalidCerts
| SlCuaEnabled | SlCuaVersion | SlCuaAutoDownload | SlInclude.

Global Instance Kind_eq_dec : EqDecision Kind.
Proof. solve_decision. Defined.
Global Instance Slot_eq_dec : EqDecision Slot.
Proof. solve_decision. Defined.

Record Keyword := { kw_name : text; kw_kind : Kind; kw_slot : Slot; kw_secret : bool }.

Global Instance Keyword_eq_dec : EqDecision Keyword.
Proof. solve_decision. Defined.

Definition mk_keyword (name : text) (kind : Kind) (slot : Slot) (secret : bool) : Keyword :=
  {| kw_name := name; kw_kind := kind; kw_slot := slot; kw_secret := secret |}.

Definition KEYWORDS : list Keyword :=
  [ mk_keyword (txt "HostName") KText SlHostName false;
    mk_keyword (txt "Port") KPort SlPort false;
    mk_keyword (txt "User") KText SlUser false;
    mk_keyword (txt "Domain") KText SlDomain false;
    mk_keyword (txt "Password") KText SlCredential true;
    mk_keyword (txt "PasswordCommand") KCommand SlCredential false;
    mk_keyword (txt "AcceptInvalidCerts") KYesNo SlAcceptInvalidCerts false;
    mk_keyword (txt "CuaEnabled") KYesNo SlCuaEnabled false;
    mk_keyword (txt "CuaVersion") KCuaVersion SlCuaVersion false;
    mk_keyword (txt "CuaAutoDownload") KYesNo SlCuaAutoDownload false;
    mk_keyword (txt "Include") KInclude SlInclude false ].

Definition PORT : nat := 1.
Definition USER : nat := 2.
Definition DOMAIN : nat := 3.
Definition PASSWORD : nat := 4.

Definition lookup_keyword (name : text) : option Keyword :=
  List.find (fun k => eq_ignore_ascii_case (kw_name k) name) KEYWORDS.

(** [index_of]: rows are told apart by address; no two rows of the table are
    equal. *)
Fixpoint position {A} (p : A -> bool) (l : list A) : option nat :=
  match l with
  | [] => None
  | x :: l => if p x then Some 0 else S <$> position p l
  end.
Definition index_of (kw : Keyword) : option nat := position (fun k => bool_decide (k = kw)) KEYWORDS.

Definition cua_version_char (b : char) : bool :=
  is_ascii_alphanumeric b || (b =? 46)%N || (b =? 95)%N || (b =? 45)%N.
Definition validate_cua_version (value : text) : bool :=
  negb (bool_decide (value = [])) && (byte_len value <=? 128)%N && forallb cua_version_char value.

Definition yes : text := txt "yes".
Definition no : text := txt "no".

Definition validate (kw : Keyword) (value : text) : result HostsError text :=
  match kw_kind kw with
  | KText | KCommand | KInclude =>
      match value with [] => Err (NeedsValue (kw_name kw)) | _ :: _ => Ok value end
  | KPort =>
      match parse_unsigned u16_max value with
      | Some p => if (p =? 0)%N then Err (BadPort (kw_name kw)) else Ok (dec p)
      | None => Err (BadPort (kw_name kw))
      end
  | KYesNo =>
      let v := to_ascii_lowercase value in
      if bool_decide (v = yes) then Ok yes
      else if bool_decide (v = no) then Ok no
      else Err (BadYesNo (kw_name kw))
  | KCuaVersion =>
      if validate_cua_version value then Ok value else Err (BadCuaVersion (kw_name kw) value)
  end.

(** ** Specification *)

(** A value written so that it is read back as one word. *)
Definition quote (w : text) : text :=
  [dquote] ++ flat_map (fun c => if is_escapable c then [backslash; c] else [c]) w ++ [dquote].

Fixpoint print_words (ws : list text) : text :=
  match ws with
  | [] => []
  | [w] => quote w
  | w :: ws => quote w ++ blank :: print_words ws
  end.

(** ** Lemmas *)

Lemma words_quoted w tail out cur :
  words_loop (flat_map (fun c => if is_escapable c then [backslash; c] else [c]) w ++ dquote :: tail)
    out cur true true
  = words_loop tail out (cur ++ w) true false.
Proof.
  revert cur. induction w as [|c w IH]; intros cur.
  - rewrite app_nil_r. cbn [flat_map app words_loop]. by destruct tail.
  - cbn [flat_map]. destruct (is_escapable c) eqn:He; cbn [app words_loop].
    + rewrite He. cbn [andb]. rewrite N.eqb_refl, IH. by rewrite <- app_assoc.
    + unfold is_escapable in He. apply orb_false_iff in He as [Hq Hb].
      assert (forall x : text, exists d x', flat_map (fun c => if is_escapable c then [backslash; c] else [c]) w
                ++ dquote :: x = d :: x') as Hne.
      { intros x. destruct (flat_map _ w); eauto. }
      specialize (IH (cur ++ [c])). rewrite <- app_assoc in IH.
      destruct (Hne tail) as (d & x' & Hd). rewrite Hd in *.
      by rewrite Hb, Hq.
Qed.

Lemma words_quote_step w tail out :
  words_loop (quote w ++ tail) out [] false false = words_loop tail out w true false.
Proof.
  unfold quote. rewrite <- !app_assoc. cbn [app words_loop]. by rewrite words_quoted.
Qed.

Lemma words_print ws out : words_loop (print_words ws) out [] false false = Ok (out ++ ws).
Proof.
  revert out. induction ws as [|w ws IH]; intros out; [by rewrite app_nil_r|].
  destruct ws as [|w' ws].
  - cbn [print_words]. by rewrite <- (app_nil_r (quote w)), words_quote_step.
  - change (print_words (w :: w' :: ws)) with (quote w ++ blank :: print_words (w' :: ws)).
    rewrite words_quote_step. cbn [words_loop]. cbn -[print_words]. rewrite IH. by rewrite <- app_assoc.
Qed.

Lemma command_quoted w out :
  command_loop (flat_map (fun c => if is_escapable c then [backslash; c] else [c]) w ++ [dquote]) out
  = Some (out ++ w).
Proof.
  revert out. induction w as [|c w IH]; intros out; [by rewrite app_nil_r|].
  cbn [flat_map]. destruct (is_escapable c) eqn:He; cbn [app command_loop].
  - rewrite He. cbn [andb]. rewrite N.eqb_refl, IH. by rewrite <- app_assoc.
  - unfold is_escapable in He. apply orb_false_iff in He as [Hq Hb].
    specialize (IH (out ++ [c])). rewrite <- app_assoc in IH.
    destruct (flat_map _ w ++ [dquote]) as [|d x'] eqn:Hd; [by destruct (flat_map _ w)|].
    by rewrite Hb, Hq.
Qed.

Lemma take_while_app {A} (p : A -> bool) l x m :
  Forall (fun y => p y = true) l -> p x = false -> take_while p (l ++ x :: m) = l.
Proof. induction 1 as [|y l Hy _ IH]; cbn; intros Hx; [by rewrite Hx|]. by rewrite Hy, IH. Qed.

Lemma drop_while_app {A} (p : A -> bool) l x m :
  Forall (fun y => p y = true) l -> p x = false -> drop_while p (l ++ x :: m) = x :: m.
Proof. induction 1 as [|y l Hy _ IH]; cbn; intros Hx; [by rewrite Hx|]. by rewrite Hy, IH. Qed.

Lemma lookup_keyword_Some name kw :
  lookup_keyword name = Some kw -> kw ∈ KEYWORDS /\ eq_ignore_ascii_case (kw_name kw) name = true.
Proof. intros [Hin Heq]%List.find_some. split; [by apply list_elem_of_In|done]. Qed.

Lemma keyword_table_ok kw :
  kw ∈ KEYWORDS ->
  lookup_keyword (kw_name kw) = Some kw /\
  lookup_keyword (to_ascii_lowercase (kw_name kw)) = Some kw /\ is_Some (index_of kw).
Proof.
  assert (Forall (fun kw => lookup_keyword (kw_name kw) = Some kw /\
    lookup_keyword (to_ascii_lowercase (kw_name kw)) = Some kw /\ is_Some (index_of kw)) KEYWORDS) as Hall
    by (apply (bool_decide_unpack _); by vm_compute).
  rewrite Forall_forall in Hall. apply Hall.
Qed.

Lemma parse_unsigned_max max t n : parse_unsigned max t = Some n -> (n <= max)%N.
Proof.
  unfold parse_unsigned. intros Hn. case_match; try done; try (by destruct t).
  all: repeat case_match; simplify_eq; by bools.
Qed.

(** ** Properties *)

(** Every value can be written.  A keyword followed by the quoted form of
    any value (with blanks, quotes, backslashes, [#] or nothing in it) is read
    back as that keyword and exactly that value, as one word and as a command;
    and a line of several quoted words is read back as those words. *)
Theorem quoted_values_roundtrip (indent keyword value : text) (ws : list text) :
  Forall (fun c => is_whitespace c = true) indent ->
  keyword <> [] -> head keyword <> Some hash -> Forall (fun c => is_separator c = false) keyword ->
  split_line (indent ++ keyword ++ blank :: quote value) = Some (keyword, quote value) /\
  split_line (indent ++ keyword ++ equals :: quote value) = Some (keyword, quote value) /\
  words (quote value) = Ok [value] /\ command_value (quote value) = value /\
  words (print_words ws) = Ok ws.
Proof.
  intros Hin Hne Hhash Hkw.
  assert (forall sep, is_separator sep = true ->
    split_line (indent ++ keyword ++ sep :: quote value) =
      Some (keyword, trim_end (match strip_prefix [equals] (trim_start (sep :: quote value)) with
                               | Some after => trim_start after
                               | None => trim_start (sep :: quote value) end))) as Hsplit.
  { intros sep Hsep. unfold split_line.
    assert (trim_start (indent ++ keyword ++ sep :: quote value) = keyword ++ sep :: quote value) as ->.
    { destruct keyword as [|c kw]; [done|]. unfold trim_start. cbn [app].
      rewrite drop_while_app; [done|done|]. inversion_clear Hkw as [|? ? Hc _].
      unfold is_separator in Hc. by apply orb_false_iff in Hc as [? _]. }
    destruct keyword as [|c kw] eqn:Hk; [done|]. cbn [app]. cbn [head] in Hhash.
    destruct (N.eqb_spec c hash) as [->|_]; [done|].
    change (c :: kw ++ sep :: quote value) with ((c :: kw) ++ sep :: quote value).
    assert (Forall (fun y => negb (is_separator y) = true) (c :: kw)) as Hkw'.
    { eapply Forall_impl; [exact Hkw|]. by intros y ->. }
    rewrite take_while_app, drop_while_app; rewrite ?Hsep; done. }
  assert (trim_start (quote value) = quote value) as Hts by (by apply trim_start_id; intros c [= <-]).
  assert (trim_end (quote value) = quote value) as Hte.
  { unfold quote. rewrite app_assoc. by apply trim_end_last. }
  split_and!.
  - rewrite Hsplit by done.
    assert (trim_start (blank :: quote value) = quote value) as -> by (by rewrite <- Hts).
    assert (strip_prefix [equals] (quote value) = None) as -> by done. by rewrite Hte.
  - rewrite Hsplit by done.
    assert (trim_start (equals :: quote value) = equals :: quote value) as -> by done.
    assert (strip_prefix [equals] (equals :: quote value) = Some (quote value)) as -> by done.
    by rewrite Hts, Hte.
  - unfold words. by rewrite <- (app_nil_r (quote value)), words_quote_step.
  - unfold command_value. assert (strip_prefix [dquote] (quote value) = Some (tail (quote value))) as -> by done.
    unfold quote. cbn [app tail]. by rewrite command_quoted.
  - unfold words. by rewrite words_print.
Qed.

Lemma quoted_values_roundtrip_witness :
  split_line (txt "  Password " ++ quote (txt "a # b")) = Some (txt "Password", quote (txt "a # b")).
Proof.
  apply (quoted_values_roundtrip (txt "  ") (txt "Password") (txt "a # b") []).
  - repeat constructor.
  - discriminate.
  - discriminate.
  - repeat constructor.
Defined.

(** The keyword table is unambiguous and validation is a normal form.  A
    word names at most one keyword, in any letter case; an accepted value is
    accepted again unchanged; an accepted port is the decimal text of a number
    from 1 to 65535, an accepted switch is [yes] or [no], any other accepted
    value is the value as written and not empty; and a Cua version that is
    accepted is at most 128 bytes of letters, digits, dots, underscores and
    dashes. *)
Theorem validated_values_are_normal (kw : Keyword) (value v : text) :
  kw ∈ KEYWORDS -> validate kw value = Ok v ->
  lookup_keyword (kw_name kw) = Some kw /\ lookup_keyword (to_ascii_lowercase (kw_name kw)) = Some kw /\
  is_Some (index_of kw) /\ validate kw v = Ok v /\
  match kw_kind kw with
  | KPort => exists n, (1 <= n <= u16_max)%N /\ v = dec n /\ parse_unsigned u16_max v = Some n
  | KYesNo => v = yes \/ v = no
  | KCuaVersion => v = value /\ (byte_len v <= 128)%N /\ v <> [] /\ Forall (fun c => cua_version_char c = true) v
  | KText | KCommand | KInclude => v = value /\ v <> []
  end.
Proof.
  intros Hin Hv.
  assert (lookup_keyword (kw_name kw) = Some kw /\
          lookup_keyword (to_ascii_lowercase (kw_name kw)) = Some kw /\ is_Some (index_of kw)) as (H1 & H2 & H3).
  { by apply keyword_table_ok. }
  split_and!; [done|done|done|..]; unfold validate in *; destruct (kw_kind kw).
  - by destruct value; simplify_eq.
  - destruct (parse_unsigned u16_max value) as [n|] eqn:Hn; [|done].
    destruct (N.eqb_spec n 0); [done|]. injection Hv as <-.
    pose proof (parse_unsigned_max _ _ _ Hn).
    rewrite parse_unsigned_dec by done. by rewrite (proj2 (N.eqb_neq n 0)).
  - repeat case_match; simplify_eq; done.
  - by destruct value; simplify_eq.
  - by destruct value; simplify_eq.
  - destruct (validate_cua_version value) eqn:Hok; [|done]. injection Hv as <-. by rewrite Hok.
  - destruct value; simplify_eq; done.
  - destruct (parse_unsigned u16_max value) as [n|] eqn:Hn; [|done].
    destruct (N.eqb_spec n 0); [done|]. injection Hv as <-.
    pose proof (parse_unsigned_max _ _ _ Hn).
    exists n. split_and!; [lia|done|done|]. by apply parse_unsigned_dec.
  - repeat case_match; simplify_eq; auto.
  - destruct value; simplify_eq; done.
  - destruct value; simplify_eq; done.
  - destruct (validate_cua_version value) eqn:Hok; [|done]. injection Hv as <-.
    unfold validate_cua_version in Hok. bools. split_and!; [done|done|done|].
    apply Forall_forall. intros c Hc%list_elem_of_In. by eapply forallb_forall.
Qed.

Lemma validated_values_are_normal_witness :
  validate (mk_keyword (txt "Port") KPort SlPort false) (txt "+0443") = Ok (txt "443") /\
  validate (mk_keyword (txt "Port") KPort SlPort false) (txt "443") = Ok (txt "443").
Proof.
  split; [by vm_compute|].
  apply (validated_values_are_normal (mk_keyword (txt "Port") KPort SlPort false) (txt "+0443") (txt "443")).
  - right. left.
  - by vm_compute.
Defined.
