(* ===== verification/Resolve.v ===== *)
(** * Host resolution ([crates/rdpilot-config/src/hosts/resolve.rs])

    URL components, then [-o] options, then the hosts file with its includes,
    then the built-in default: the first value obtained for a slot wins.  The
    file system and the [glob] crate are the section's variables; paths are
    Unix path texts, joined and ordered as [std::path] does. *)
From Stdlib Require Import Sorting.Sorted.
From S2P Require Import Prelude Pattern HostsParse Target.
Open Scope rd_scope.

(** ** Definitions *)

Inductive Source :=
| SrcUrl
| SrcOption (n : nat)
| SrcFile (path : text) (line : nat)
| SrcDefault.

Record Setting := { se_kw : Keyword; se_value : text; se_source : Source }.

(** [Setting::display_value] *)
Definition display_value (s : Setting) : text :=
  if kw_secret (se_kw s) then txt "<redacted>" else se_value s.

Record Row := { row_keyword : text; row_value : text; row_source : text }.

Record HostsInput := {
  hi_target : text; hi_options : list text; hi_file : option text;
  hi_config_dir : option text; hi_home : option text }.

Record ResolvedHost := { rh_target : Target; rh_host_name : text; rh_settings : list Setting }.

Inductive Origin := OFile (path : text) | ODefault.

Definition newline : char := 10%N.
Definition BUILT_IN_DEFAULT : text :=
  txt "Host *" ++ newline :: txt "  CuaEnabled yes" ++ newline :: txt "  CuaVersion latest-dev"
  ++ newline :: txt "  CuaAutoDownload yes" ++ [newline].
Definition MAX_INCLUDE_DEPTH : nat := 16.
Definition DEFAULT_PORT : N := 3389%N.

(** ** [std]: lines and paths *)

(** [str::lines] *)
Definition strip_cr (l : text) : text :=
  match reverse l with 13%N :: r => reverse r | _ => l end.
Fixpoint lines_loop (t cur : text) : list text :=
  match t with
  | [] => match cur with [] => [] | _ :: _ => [cur] end
  | c :: t => if (c =? newline)%N then strip_cr cur :: lines_loop t [] else lines_loop t (cur ++ [c])
  end.
Definition lines (t : text) : list text := lines_loop t [].

Definition slash : char := 47%N.
Definition is_absolute (p : text) : bool :=
  match p with c :: _ => (c =? slash)%N | [] => false end.

(** [Path::join] *)
Definition path_join (base tail : text) : text :=
  if is_absolute tail then tail
  else match last base with
       | None => tail
       | Some c => if (c =? slash)%N then base ++ tail else base ++ slash :: tail
       end.

(** [Path::components], as far as their order goes: the root first, then a
    leading [.], [..] and names. *)
Fixpoint split_slash (t cur : text) : list text :=
  match t with
  | [] => [cur]
  | c :: t => if (c =? slash)%N then cur :: split_slash t [] else split_slash t (cur ++ [c])
  end.
Definition component_rank (c : text) : N :=
  if bool_decide (c = txt ".") then 1 else if bool_decide (c = txt "..") then 2 else 3.
Definition components (p : text) : list (N * text) :=
  let parts := List.filter (fun c => negb (bool_decide (c = []))) (split_slash p []) in
  let kept := match parts with
              | first :: rest =>
                  (if bool_decide (first = txt ".") && is_absolute p then [] else [first])
                  ++ List.filter (fun c => negb (bool_decide (c = txt "."))) rest
              | [] => [] end in
  (if is_absolute p then [(0%N, [])] else []) ++ map (fun c => (component_rank c, c)) kept.

Fixpoint text_leb (a b : text) : bool :=
  match a, b with
  | [], _ => true
  | _ :: _, [] => false
  | x :: a, y :: b => (x <? y)%N || ((x =? y)%N && text_leb a b)
  end.
(** Names compare by their UTF-8 bytes, which is the order of the characters. *)
Fixpoint components_leb (a b : list (N * text)) : bool :=
  match a, b with
  | [], _ => true
  | _ :: _, [] => false
  | (r, x) :: a, (s, y) :: b =>
      if (r =? s)%N && bool_decide (x = y) then components_leb a b
      else (r <? s)%N || ((r =? s)%N && text_leb x y)
  end.
Definition path_leb (p q : text) : bool := components_leb (components p) (components q).

(** Stable insertion sort ([slice::sort], [sort_by_key]). *)
Fixpoint insert_by {A} (leb : A -> A -> bool) (x : A) (l : list A) : list A :=
  match l with
  | [] => [x]
  | y :: l' => if leb x y then x :: l else y :: insert_by leb x l'
  end.
Definition sort_by {A} (leb : A -> A -> bool) (l : list A) : list A := foldr (insert_by leb) [] l.

(** ** The collector *)

(** [Collector::offer] *)
Definition offer (settings : list Setting) (s : Setting) : list Setting :=
  if existsb (fun t => bool_decide (kw_slot (se_kw t) = kw_slot (se_kw s))) settings then settings
  else settings ++ [s].

Definition origin_label (o : Origin) : text :=
  match o with OFile p => p | ODefault => txt "built-in default" end.
Definition origin_source (o : Origin) (line : nat) : Source :=
  match o with OFile p => SrcFile p line | ODefault => SrcDefault end.

Inductive ReadError := NotFound (message : text) | ReadFailed (message : text).
Definition read_message (e : ReadError) : text :=
  match e with NotFound m => m | ReadFailed m => m end.

Section Resolve.
Variable url_parse : text -> result text Url.
Variable percent_decode : text -> option text.
(** [glob::glob], without the entries that are errors. *)
Variable glob_paths : text -> result text (list text).
Variable is_file : text -> bool.
Variable canonicalize : text -> option text.
Variable read_to_string : text -> result ReadError text.
(** The permission bits of a file. *)
Variable file_mode : text -> result text Z.

Section Collector.
Variable name : text.
Variables config_dir home : option text.

(** The pattern of an [Include], as a full path. *)
Definition include_path (pat : text) : text :=
  let expanded := match strip_prefix (txt "~/") pat, home with
                  | Some tail, Some home => path_join home tail
                  | _, _ => pat end in
  match config_dir with
  | Some dir => if is_absolute expanded then expanded else path_join dir expanded
  | None => expanded
  end.

Definition canonical (file : text) : text := default file (canonicalize file).

Section Load.
(** [load_text] one level deeper. *)
Variable load : text -> Origin -> list text -> list Setting -> result HostsError (list Setting).

(** The loop of [include] over the matched files. *)
Fixpoint include_files (files stack : list text) (settings : list Setting)
  : result HostsError (list Setting) :=
  match files with
  | [] => Ok settings
  | file :: files =>
      let canon := canonical file in
      if bool_decide (canon ∈ stack) then Err (IncludeCycle file)
      else if (MAX_INCLUDE_DEPTH <=? length stack)%nat then Err (IncludeTooDeep file)
      else
        let? contents := map_err (fun e => CannotRead file (read_message e)) (read_to_string file) in
        let? settings := load contents (OFile file) (stack ++ [canon]) settings in
        include_files files stack settings
  end.

(** [Collector::include] *)
Definition include (pat : text) (stack : list text) (settings : list Setting)
  : result HostsError (list Setting) :=
  let? matches := map_err InvalidInclude (glob_paths (include_path pat)) in
  include_files (sort_by path_leb (List.filter is_file matches)) stack settings.

Fixpoint include_all (at_ : HostsError -> HostsError) (pats stack : list text)
    (settings : list Setting) : result HostsError (list Setting) :=
  match pats with
  | [] => Ok settings
  | pat :: pats =>
      let? settings := map_err at_ (include pat stack settings) in
      include_all at_ pats stack settings
  end.

(** One line of [load_text]. *)
Definition load_line (line : text) (number : nat) (origin : Origin) (stack : list text)
    (active : bool) (settings : list Setting) : result HostsError (bool * list Setting) :=
  let at_ := AtLine (origin_label origin) number in
  match split_line line with
  | None => Ok (active, settings)
  | Some (word, rest) =>
      if eq_ignore_ascii_case word (txt "Host") then
        let? pats := map_err at_ (words rest) in
        match pats with
        | [] => Err (at_ HostNeedsPattern)
        | _ :: _ => Ok (host_line_matches pats name, settings)
        end
      else if eq_ignore_ascii_case word (txt "Match") then Err (at_ MatchNotSupported)
      else
        match lookup_keyword word with
        | None => Err (at_ (UnknownKeyword word))
        | Some kw =>
            let put value := {| se_kw := kw; se_value := value; se_source := origin_source origin number |} in
            match kw_kind kw with
            | KInclude =>
                let? pats := map_err at_ (words rest) in
                match pats with
                | [] => Err (at_ IncludeNeedsPath)
                | _ :: _ =>
                    if active then
                      let? settings := include_all at_ pats stack settings in Ok (active, settings)
                    else Ok (active, settings)
                end
            | KCommand =>
                let? value := map_err at_ (validate kw (command_value rest)) in
                Ok (active, if active then offer settings (put value) else settings)
            | _ =>
                let? ws := map_err at_ (words rest) in
                match ws with
                | [w] =>
                    let? value := map_err at_ (validate kw w) in
                    Ok (active, if active then offer settings (put value) else settings)
                | _ => Err (at_ (ExpectsOneValue (kw_name kw) true))
                end
            end
        end
  end.

Fixpoint load_lines (ls : list text) (number : nat) (origin : Origin) (stack : list text)
    (active : bool) (settings : list Setting) : result HostsError (list Setting) :=
  match ls with
  | [] => Ok settings
  | line :: ls =>
      let? r := load_line line number origin stack active settings in
      load_lines ls (S number) origin stack (fst r) (snd r)
  end.
End Load.

(** [Collector::load_text]; the fuel is the nesting that is left, and
    [include_files] refuses before it runs out. *)
Fixpoint load_text (fuel : nat) (contents : text) (origin : Origin) (stack : list text)
    (settings : list Setting) : result HostsError (list Setting) :=
  match fuel with
  | O => Err (IncludeTooDeep [])
  | S fuel => load_lines (load_text fuel) (lines contents) 1 origin stack true settings
  end.
Definition include_fuel : nat := S MAX_INCLUDE_DEPTH.

(** [Collector::load_file] *)
Definition load_file (path : text) (must_exist : bool) (settings : list Setting)
  : result HostsError (list Setting) :=
  match read_to_string path with
  | Ok contents => load_text include_fuel contents (OFile path) [canonical path] settings
  | Err (NotFound m) => if must_exist then Err (CannotRead path m) else Ok settings
  | Err (ReadFailed m) => Err (CannotRead path m)
  end.
End Collector.

(** ** [resolve_host] *)

Definition url_offer (idx : nat) (value : option text) (settings : list Setting) : list Setting :=
  match KEYWORDS !! idx, value with
  | Some kw, Some v => offer settings {| se_kw := kw; se_value := v; se_source := SrcUrl |}
  | _, _ => settings
  end.
Definition url_settings (t : Target) (settings : list Setting) : list Setting :=
  match t with
  | TAlias _ => settings
  | TUrl u =>
      url_offer PORT (dec <$> ut_port u)
        (url_offer PASSWORD (ut_password u)
           (url_offer DOMAIN (ut_domain u) (url_offer USER (ut_user u) settings)))
  end.

(** One [-o] option. *)
Definition option_setting (n : nat) (opt : text) : result HostsError Setting :=
  let at_ := AtOption n in
  let? wr := ok_or (at_ ExpectedKeywordValue) (split_line opt) in
  let '(word, rest) := wr in
  let refused := if bool_decide (to_ascii_lowercase word ∈ [txt "host"; txt "match"; txt "include"])
                 then Err (at_ (NotWithOption word)) else Err (at_ (UnknownKeyword word)) in
  let? kw := match lookup_keyword word with
             | Some kw => if bool_decide (kw_kind kw = KInclude) then refused else Ok kw
             | None => refused
             end in
  let? value := if bool_decide (kw_kind kw = KCommand) then Ok (command_value rest)
                else
                  let? ws := map_err at_ (words rest) in
                  match ws with
                  | [w] => Ok w
                  | _ => Err (at_ (ExpectsOneValue (kw_name kw) false))
                  end in
  let? value := map_err at_ (validate kw value) in
  Ok {| se_kw := kw; se_value := value; se_source := SrcOption n |}.

Fixpoint option_settings (n : nat) (opts : list text) (settings : list Setting)
  : result HostsError (list Setting) :=
  match opts with
  | [] => Ok settings
  | opt :: opts =>
      let? s := option_setting n opt in
      option_settings (S n) opts (offer settings s)
  end.

(** [expand_host_name] *)
Definition percent : char := 37%N.
Fixpoint expand_host_name_loop (value name out : text) : result HostsError text :=
  match value with
  | [] => Ok out
  | c :: value' =>
      if negb (c =? percent)%N then expand_host_name_loop value' name (out ++ [c])
      else
        match value' with
        | t :: value'' =>
            if (t =? 104)%N then expand_host_name_loop value'' name (out ++ name)
            else if (t =? percent)%N then expand_host_name_loop value'' name (out ++ [percent])
            else Err (HostNameUnknownToken t)
        | [] => Err HostNameTrailing
        end
  end.
Definition expand_host_name (value name : text) : result HostsError text :=
  expand_host_name_loop value name [].

(** [ResolvedHost::find] *)
Definition find_setting (name : text) (settings : list Setting) : option Setting :=
  List.find (fun s => bool_decide (kw_name (se_kw s) = name)) settings.

(** [check_permissions] on Unix *)
Definition check_permissions (settings : list Setting) : result HostsError unit :=
  match find_setting (txt "Password") settings with
  | Some s =>
      match se_source s with
      | SrcFile path _ =>
          let? mode := map_err (CannotStat path) (file_mode path) in
          if (Z.land mode 36 =? 0)%Z then Ok tt else Err (PasswordReadable path)
      | _ => Ok tt
      end
  | None => Ok tt
  end.

Definition index_leb (a b : Setting) : bool :=
  (default (length KEYWORDS) (index_of (se_kw a)) <=? default (length KEYWORDS) (index_of (se_kw b)))%nat.

(** The settings before they are sorted. *)
Definition collect (input : HostsInput) (target : Target) : result HostsError (list Setting) :=
  let name := target_name target in
  let? settings := option_settings 1 (hi_options input) (url_settings target []) in
  let? settings :=
    match hi_file input with
    | Some file => load_file name (hi_config_dir input) (hi_home input) file true settings
    | None =>
        match hi_config_dir input with
        | Some dir => load_file name (hi_config_dir input) (hi_home input)
                        (path_join dir (txt "hosts")) false settings
        | None => Ok settings
        end
    end in
  load_text name (hi_config_dir input) (hi_home input) include_fuel BUILT_IN_DEFAULT ODefault [] settings.

Definition resolve_host (input : HostsInput) : result HostsError ResolvedHost :=
  let? target := target_parse url_parse percent_decode (hi_target input) in
  let? settings := collect input target in
  let? host_name := match find_setting (txt "HostName") settings with
                    | Some s => expand_host_name (se_value s) (target_name target)
                    | None => Ok (target_name target)
                    end in
  let resolved := sort_by index_leb settings in
  let? _ := check_permissions resolved in
  Ok {| rh_target := target; rh_host_name := host_name; rh_settings := resolved |}.
End Resolve.

(** ** Accessors of [ResolvedHost] *)
Definition rh_find (name : string) (h : ResolvedHost) : option Setting :=
  find_setting (txt name) (rh_settings h).
Definition rh_value (name : string) (h : ResolvedHost) : option text := se_value <$> rh_find name h.
Definition rh_address (h : ResolvedHost) : text := rh_host_name h.
Definition rh_port (h : ResolvedHost) : option N := and_then (rh_value "Port" h) (parse_unsigned u16_max).
Definition rh_user : ResolvedHost -> option text := rh_value "User".
Definition rh_domain : ResolvedHost -> option text := rh_value "Domain".
Definition rh_password : ResolvedHost -> option text := rh_value "Password".
Definition rh_password_command : ResolvedHost -> option text := rh_value "PasswordCommand".
Definition accept_invalid_certs (h : ResolvedHost) : bool :=
  bool_decide (rh_value "AcceptInvalidCerts" h = Some yes).
Definition cua_enabled (h : ResolvedHost) : bool := negb (bool_decide (rh_value "CuaEnabled" h = Some no)).
Definition cua_version (h : ResolvedHost) : text := default (txt "latest-dev") (rh_value "CuaVersion" h).
Definition cua_auto_download (h : ResolvedHost) : bool :=
  negb (bool_decide (rh_value "CuaAutoDownload" h = Some no)).

Definition show_source (s : Source) : text :=
  match s with
  | SrcUrl => txt "url"
  | SrcOption n => txt "-o #" ++ dec (N.of_nat n)
  | SrcFile path line => path ++ txt ":" ++ dec (N.of_nat line)
  | SrcDefault => txt "built-in default"
  end.

(** [ResolvedHost::rows] *)
Definition row_leb (a b : Row) : bool :=
  let key r := default (length KEYWORDS) (and_then (lookup_keyword (row_keyword r)) index_of) in
  (key a <=? key b)%nat.
Definition rows (h : ResolvedHost) : list Row :=
  sort_by row_leb
    ((match rh_find "HostName" h with Some _ => [] | None =>
        [{| row_keyword := txt "HostName"; row_value := rh_host_name h; row_source := txt "target name" |}] end)
     ++ (match rh_find "Port" h with Some _ => [] | None =>
           [{| row_keyword := txt "Port"; row_value := dec DEFAULT_PORT;
                  row_source := txt "not set; rdpilot default" |}] end)
     ++ map (fun s => {| row_keyword := kw_name (se_kw s); row_value := display_value s;
                         row_source := show_source (se_source s) |}) (rh_settings h)).

(** ** Specification *)

Definition of_slot (slot : Slot) (l : list Setting) : option Setting :=
  List.find (fun s => bool_decide (kw_slot (se_kw s) = slot)) l.

(** The settings of the built-in default. *)
Definition builtin : list Setting :=
  [ {| se_kw := mk_keyword (txt "CuaEnabled") KYesNo SlCuaEnabled false; se_value := yes;
       se_source := SrcDefault |};
    {| se_kw := mk_keyword (txt "CuaVersion") KCuaVersion SlCuaVersion false;
       se_value := txt "latest-dev"; se_source := SrcDefault |};
    {| se_kw := mk_keyword (txt "CuaAutoDownload") KYesNo SlCuaAutoDownload false; se_value := yes;
       se_source := SrcDefault |} ].

Definition url_layer (t : Target) : list Setting :=
  match t with
  | TAlias _ => []
  | TUrl u =>
      omap (fun x => (fun v => {| se_kw := fst x; se_value := v; se_source := SrcUrl |}) <$> snd x)
        [ (mk_keyword (txt "User") KText SlUser false, ut_user u);
          (mk_keyword (txt "Domain") KText SlDomain false, ut_domain u);
          (mk_keyword (txt "Password") KText SlCredential true, ut_password u);
          (mk_keyword (txt "Port") KPort SlPort false, dec <$> ut_port u) ]
  end.

(** *** What a hosts file says

    Read off the format, without the reader's loops: the lines of a text, the
    line a setting is in force at, the files an [Include] names. *)

(** Lines end with a newline, the last one perhaps without; a carriage return
    before the newline goes with it. *)
Inductive LinesOf : text -> list text -> Prop :=
| LinesOf_none : LinesOf [] []
| LinesOf_last l : l <> [] -> newline ∉ l -> LinesOf l [l]
| LinesOf_line l t ls :
    newline ∉ l -> LinesOf t ls -> LinesOf (l ++ newline :: t) (strip_cr l :: ls).

(** A keyword with its value, on a line or in an option. *)
Inductive value_of (kw : Keyword) (rest : text) : text -> Prop :=
| value_of_command v :
    kw_kind kw = KCommand -> validate kw (command_value rest) = Ok v -> value_of kw rest v
| value_of_word w v :
    kw_kind kw <> KCommand -> kw_kind kw <> KInclude -> words rest = Ok [w] ->
    validate kw w = Ok v -> value_of kw rest v.

(** The [n]-th option [opt] sets [s]. *)
Definition option_sets (n : nat) (opt : text) (s : Setting) : Prop :=
  exists word rest,
    split_line opt = Some (word, rest) /\ lookup_keyword word = Some (se_kw s) /\
    value_of (se_kw s) rest (se_value s) /\ se_source s = SrcOption n.

(** The patterns of a [Host] line. *)
Definition host_patterns (line : text) : option (list text) :=
  match split_line line with
  | Some (word, rest) =>
      if eq_ignore_ascii_case word (txt "Host") then
        match words rest with Ok pats => Some pats | Err _ => None end
      else None
  | None => None
  end.

Section Reads.
Variable glob_paths : text -> result text (list text).
Variable is_file : text -> bool.
Variable read_to_string : text -> result ReadError text.
Variable name : text.
Variables config_dir home : option text.

(** Patterns name the host: one of them matches it and no negated one does. *)
Definition names_host (pats : list text) : Prop :=
  (exists p, p ∈ pats /\ head p <> Some bang /\ Matches p (to_ascii_lowercase name)) /\
  (forall p, bang :: p ∈ pats -> ~ Matches p (to_ascii_lowercase name)).

(** After the lines [before], settings are in force when the last [Host] line
    names the host, or when there is none. *)
Definition in_force (before : list text) : Prop :=
  match last (omap host_patterns before) with Some pats => names_host pats | None => True end.

(** The path that an [Include] pattern stands for: [~/] is the home directory,
    and what is relative lies in the configuration directory. *)
Definition include_names (pat full : text) : Prop :=
  exists expanded,
    ((exists tail dir, pat = txt "~/" ++ tail /\ home = Some dir /\ expanded = path_join dir tail) \/
     ((home = None \/ forall tail, pat <> txt "~/" ++ tail) /\ expanded = pat)) /\
    full = match config_dir with Some dir => path_join dir expanded | None => expanded end.

(** The settings that the file [path] with these contents offers, in order. *)
Inductive reads : text -> text -> list Setting -> Prop :=
| reads_text path contents ls os :
    LinesOf contents ls -> reads_lines path [] ls os -> reads path contents os
with reads_lines : text -> list text -> list text -> list Setting -> Prop :=
| reads_end path before : reads_lines path before [] []
| reads_more path before line ls os os' :
    reads_line path before line os -> reads_lines path (before ++ [line]) ls os' ->
    reads_lines path before (line :: ls) (os ++ os')
with reads_line : text -> list text -> text -> list Setting -> Prop :=
| reads_not_in_force path before line : ~ in_force before -> reads_line path before line []
| reads_silent path before line :
    split_line line = None \/ is_Some (host_patterns line) -> reads_line path before line []
| reads_value path before line word rest kw v :
    in_force before -> split_line line = Some (word, rest) -> lookup_keyword word = Some kw ->
    value_of kw rest v ->
    reads_line path before line
      [{| se_kw := kw; se_value := v; se_source := SrcFile path (S (length before)) |}]
| reads_include path before line word rest kw pats os :
    in_force before -> split_line line = Some (word, rest) -> lookup_keyword word = Some kw ->
    kw_kind kw = KInclude -> words rest = Ok pats -> reads_includes pats os ->
    reads_line path before line os
with reads_includes : list text -> list Setting -> Prop :=
| reads_no_pattern : reads_includes [] []
| reads_pattern pat pats full matches files os os' :
    include_names pat full -> glob_paths full = Ok matches ->
    Permutation files (List.filter is_file matches) -> Sorted (fun p q => path_leb p q = true) files ->
    reads_files files os -> reads_includes pats os' -> reads_includes (pat :: pats) (os ++ os')
with reads_files : list text -> list Setting -> Prop :=
| reads_no_file : reads_files [] []
| reads_file file files contents os os' :
    read_to_string file = Ok contents -> reads file contents os -> reads_files files os' ->
    reads_files (file :: files) (os ++ os').

(** The hosts file of an invocation: the one that is named, which must be
    there, or the one of the configuration directory, which need not. *)
Definition hosts_file_reads (file : option text) (os : list Setting) : Prop :=
  match file with
  | Some path => exists contents, read_to_string path = Ok contents /\ reads path contents os
  | None =>
      match config_dir with
      | Some dir =>
          let path := path_join dir (txt "hosts") in
          (exists contents, read_to_string path = Ok contents /\ reads path contents os) \/
          ((exists m, read_to_string path = Err (NotFound m)) /\ os = [])
      | None => os = []
      end
  end.
End Reads.

(** The secret values of the settings blanked. *)
Definition hide (s : Setting) : Setting :=
  {| se_kw := se_kw s; se_value := if kw_secret (se_kw s) then [] else se_value s;
     se_source := se_source s |}.

(** ** Lemmas *)

(** *** Offers *)

Lemma offer_find slot settings s :
  of_slot slot (offer settings s) =
    match of_slot slot settings with
    | Some t => Some t
    | None => if bool_decide (kw_slot (se_kw s) = slot) then Some s else None
    end.
Proof.
  unfold offer, of_slot. destruct (existsb _ settings) eqn:Hex.
  - destruct (List.find _ settings) eqn:Hf; [done|]. case_bool_decide as Hs; [|done].
    apply existsb_exists in Hex as (t & Hin & Ht). pose proof (List.find_none _ _ Hf t Hin) as Hn.
    cbn in Hn. bools. congruence.
  - clear Hex. induction settings as [|t settings IH]; cbn; [done|].
    destruct (bool_decide (kw_slot (se_kw t) = slot)); [done|exact IH].
Qed.

Lemma foldl_offer_find slot settings os :
  of_slot slot (foldl offer settings os) =
    match of_slot slot settings with Some t => Some t | None => of_slot slot os end.
Proof.
  revert settings. induction os as [|o os IH]; intros settings; cbn [foldl].
  { by destruct (of_slot slot settings). }
  rewrite IH, offer_find. destruct (of_slot slot settings); [done|].
  unfold of_slot at 2. cbn [List.find]. by case_bool_decide.
Qed.

Definition slots (l : list Setting) : list Slot := map (fun s => kw_slot (se_kw s)) l.

Lemma offer_slots settings s : NoDup (slots settings) -> NoDup (slots (offer settings s)).
Proof.
  unfold offer. destruct (existsb _ settings) eqn:Hex; [done|]. intros Hn.
  unfold slots. rewrite map_app. apply NoDup_app. split_and!; [done| |apply NoDup_singleton].
  intros slot Hin ->%list_elem_of_singleton. apply not_true_iff_false in Hex. apply Hex.
  apply list_elem_of_fmap in Hin as (t & Ht & Hin). apply existsb_exists. exists t.
  split; [by apply list_elem_of_In|]. by apply bool_decide_eq_true.
Qed.

Lemma foldl_offer_slots settings os :
  NoDup (slots settings) -> NoDup (slots (foldl offer settings os)).
Proof. revert settings. induction os; intros settings Hn; [done|]. by apply IHos, offer_slots. Qed.

Lemma of_slot_Some slot l s : of_slot slot l = Some s -> s ∈ l /\ kw_slot (se_kw s) = slot.
Proof. intros [Hin Hs]%List.find_some. split; [by apply list_elem_of_In|by bools]. Qed.

Lemma of_slot_in l s : NoDup (slots l) -> s ∈ l -> of_slot (kw_slot (se_kw s)) l = Some s.
Proof.
  induction l as [|t l IH]; [by intros _ ?%not_elem_of_nil|].
  cbn [slots map]. intros [Hni Hn]%NoDup_cons [->|Hin]%elem_of_cons; unfold of_slot; cbn [List.find].
  - by rewrite bool_decide_eq_true_2.
  - rewrite bool_decide_eq_false_2; [by apply IH|]. intros Heq. apply Hni. rewrite Heq.
    apply list_elem_of_fmap. by exists s.
Qed.

Lemma of_slot_perm slot l l' : NoDup (slots l) -> Permutation l l' -> of_slot slot l = of_slot slot l'.
Proof.
  intros Hn Hp.
  assert (NoDup (slots l')) as Hn' by (unfold slots in *; by rewrite <- Hp).
  destruct (of_slot slot l) as [s|] eqn:Hs.
  - apply of_slot_Some in Hs as [Hin <-]. symmetry. apply of_slot_in; [done|]. by rewrite <- Hp.
  - destruct (of_slot slot l') as [s|] eqn:Hs'; [|done].
    apply of_slot_Some in Hs' as [Hin <-]. rewrite <- Hp in Hin.
    by rewrite (of_slot_in l s Hn Hin) in Hs.
Qed.

Lemma insert_by_perm {A} (leb : A -> A -> bool) x l : Permutation (insert_by leb x l) (x :: l).
Proof.
  induction l as [|y l IH]; cbn; [done|]. case_match; [done|]. rewrite IH. by apply Permutation_swap.
Qed.

Lemma sort_by_perm {A} (leb : A -> A -> bool) l : Permutation (sort_by leb l) l.
Proof. induction l as [|x l IH]; cbn; [done|]. by rewrite insert_by_perm, IH. Qed.

(** *** Lines and paths *)

Lemma lines_loop_of t cur : newline ∉ cur -> LinesOf (cur ++ t) (lines_loop t cur).
Proof.
  revert cur. induction t as [|c t IH]; intros cur Hc; cbn [lines_loop].
  - rewrite app_nil_r. destruct cur; [constructor|]. by constructor.
  - destruct (N.eqb_spec c newline) as [->|Hn].
    + constructor; [done|]. apply (IH []). apply not_elem_of_nil.
    + replace (cur ++ c :: t) with ((cur ++ [c]) ++ t) by (by rewrite <- app_assoc).
      apply IH. rewrite elem_of_app, list_elem_of_singleton. intros [?|?]; [done|congruence].
Qed.

Lemma lines_of t : LinesOf t (lines t).
Proof. apply (lines_loop_of t []), not_elem_of_nil. Qed.

Lemma text_leb_total a b : text_leb a b = true \/ text_leb b a = true.
Proof.
  revert b. induction a as [|x a IH]; intros [|y b]; cbn; [by left..|by right|].
  destruct (N.ltb_spec x y), (N.ltb_spec y x), (N.eqb_spec x y), (N.eqb_spec y x);
    cbn; try (by left); try (by right); try lia. apply IH.
Qed.

Lemma path_leb_total p q : path_leb p q = true \/ path_leb q p = true.
Proof.
  unfold path_leb. generalize (components p) as a, (components q) as b. clear p q.
  induction a as [|[r x] a IH]; intros [|[s y] b]; cbn; [by left..|by right|].
  destruct (decide (x = y)) as [->|Hxy].
  - destruct (N.ltb_spec r s), (N.ltb_spec s r), (N.eqb_spec r s), (N.eqb_spec s r);
      rewrite ?bool_decide_eq_true_2 by done; cbn; try (by left); try (by right); try lia. apply IH.
  - rewrite !bool_decide_eq_false_2 by congruence. rewrite !andb_false_r.
    destruct (N.ltb_spec r s), (N.ltb_spec s r), (N.eqb_spec r s), (N.eqb_spec s r);
      cbn; try (by left); try (by right); try lia. apply text_leb_total.
Qed.

Lemma insert_by_sorted {A} (leb : A -> A -> bool) x l :
  (forall a b, leb a b = true \/ leb b a = true) ->
  Sorted (fun a b => leb a b = true) l -> Sorted (fun a b => leb a b = true) (insert_by leb x l).
Proof.
  intros Ht. induction 1 as [|y l Hl IH Hy]; cbn [insert_by]; [by repeat constructor|].
  destruct (leb x y) eqn:Hxy; [by repeat constructor|].
  assert (leb y x = true) as Hyx by (destruct (Ht x y); [congruence|done]).
  constructor; [done|]. destruct Hy as [|z l Hz]; cbn [insert_by]; [by constructor|].
  destruct (leb x z); by constructor.
Qed.

Lemma sort_by_sorted {A} (leb : A -> A -> bool) l :
  (forall a b, leb a b = true \/ leb b a = true) -> Sorted (fun a b => leb a b = true) (sort_by leb l).
Proof. intros Ht. induction l; cbn; [constructor|]. by apply insert_by_sorted. Qed.

Lemma include_path_names config_dir home pat :
  include_names config_dir home pat (include_path config_dir home pat).
Proof.
  unfold include_path.
  assert (forall e dir, path_join dir e = if is_absolute e then e else path_join dir e) as Hj.
  { intros e dir. destruct (is_absolute e) eqn:Ha; [|done]. unfold path_join. by rewrite Ha. }
  destruct (strip_prefix (txt "~/") pat) as [tail|] eqn:Hp; [destruct home as [dir|]|].
  - apply strip_prefix_Some in Hp. eexists. split; [left; by exists tail, dir|].
    destruct config_dir; [symmetry; apply Hj|done].
  - exists pat. split; [right; by split; [left|]|]. destruct config_dir; [symmetry; apply Hj|done].
  - exists pat. split; [|destruct config_dir; [symmetry; apply Hj|done]]. right. split; [|done]. right.
    intros tail ->. assert (strip_prefix (txt "~/") (txt "~/" ++ tail) = Some tail) by done. congruence.
Qed.

(** *** What is loaded is what the files say *)

Section Loading.
Variable glob_paths : text -> result text (list text).
Variable is_file : text -> bool.
Variable canonicalize : text -> option text.
Variable read_to_string : text -> result ReadError text.
Variable name : text.
Variables config_dir home : option text.

Notation include_files_ := (include_files canonicalize read_to_string).
Notation include_all_ := (include_all glob_paths is_file canonicalize read_to_string config_dir home).
Notation load_line_ := (load_line glob_paths is_file canonicalize read_to_string name config_dir home).
Notation load_lines_ := (load_lines glob_paths is_file canonicalize read_to_string name config_dir home).
Notation load_text_ := (load_text glob_paths is_file canonicalize read_to_string name config_dir home).
Notation reads_ := (reads glob_paths is_file read_to_string name config_dir home).
Notation reads_lines_ := (reads_lines glob_paths is_file read_to_string name config_dir home).
Notation reads_line_ := (reads_line glob_paths is_file read_to_string name config_dir home).
Notation reads_includes_ := (reads_includes glob_paths is_file read_to_string name config_dir home).
Notation reads_files_ := (reads_files glob_paths is_file read_to_string name config_dir home).
Notation in_force_ := (in_force name).

Lemma in_force_host before line pats :
  host_patterns line = Some pats -> in_force_ (before ++ [line]) <-> host_line_matches pats name = true.
Proof.
  intros Hp. unfold in_force. rewrite omap_app. cbn [omap list_omap]. rewrite Hp, last_snoc.
  symmetry. apply host_line_matches_correct.
Qed.

Lemma in_force_other before line :
  host_patterns line = None -> in_force_ (before ++ [line]) <-> in_force_ before.
Proof. intros Hp. unfold in_force. rewrite omap_app. cbn [omap list_omap]. by rewrite Hp, app_nil_r. Qed.

Section Step.
Variable load : text -> Origin -> list text -> list Setting -> result HostsError (list Setting).
Hypothesis load_reads : forall contents path stack s s',
  load contents (OFile path) stack s = Ok s' ->
  exists os, reads_ path contents os /\ s' = foldl offer s os.

Lemma include_files_reads files stack s s' :
  include_files_ load files stack s = Ok s' -> exists os, reads_files_ files os /\ s' = foldl offer s os.
Proof.
  revert s. induction files as [|file files IH]; intros s; cbn [include_files].
  { intros [= ->]. exists []. by split; [constructor|]. }
  case_bool_decide; [done|]. destruct (MAX_INCLUDE_DEPTH <=? _)%nat; [done|].
  destruct (read_to_string file) as [contents|e] eqn:Hr; cbn [map_err rbind]; [|done].
  intros (s1 & (os & Hos & ->)%load_reads & (os' & Hos' & ->)%IH)%rbind_ok.
  exists (os ++ os'). rewrite foldl_app. split; [by econstructor|done].
Qed.

Lemma include_all_reads at_ pats stack s s' :
  include_all_ load at_ pats stack s = Ok s' -> exists os, reads_includes_ pats os /\ s' = foldl offer s os.
Proof.
  revert s. induction pats as [|pat pats IH]; intros s; cbn [include_all].
  { intros [= ->]. exists []. by split; [constructor|]. }
  unfold include. destruct (glob_paths _) as [matches|e] eqn:Hg; cbn [map_err rbind]; [|done].
  destruct (include_files_ load _ stack s) as [s1|e] eqn:Hf; cbn [map_err rbind]; [|done].
  apply include_files_reads in Hf as (os & Hos & ->). intros (os' & Hos' & ->)%IH.
  exists (os ++ os'). rewrite foldl_app. split; [|done].
  econstructor; [apply include_path_names|done|apply sort_by_perm|apply sort_by_sorted, path_leb_total|done|done].
Qed.

Lemma load_line_reads path before line stack active s active' s' :
  (active = true <-> in_force_ before) ->
  load_line_ load line (S (length before)) (OFile path) stack active s = Ok (active', s') ->
  (active' = true <-> in_force_ (before ++ [line])) /\
  exists os, reads_line_ path before line os /\ s' = foldl offer s os.
Proof.
  intros Ha. unfold load_line. destruct (split_line line) as [[word rest]|] eqn:Hs.
  2: { intros [= <- <-]. rewrite in_force_other by (unfold host_patterns; by rewrite Hs).
       split; [done|]. exists []. split; [|done]. apply reads_silent. by left. }
  destruct (eq_ignore_ascii_case word (txt "Host")) eqn:Hh.
  { destruct (words rest) as [pats|e] eqn:Hw; cbn [map_err rbind]; [|done].
    assert (host_patterns line = Some pats) as Hp by (unfold host_patterns; by rewrite Hs, Hh, Hw).
    destruct pats as [|p ps]; [done|]. intros [= <- <-]. rewrite (in_force_host _ _ _ Hp).
    split; [done|]. exists []. split; [|done]. apply reads_silent. right. by eexists. }
  assert (host_patterns line = None) as Hp by (unfold host_patterns; by rewrite Hs, Hh).
  rewrite (in_force_other _ _ Hp). destruct (eq_ignore_ascii_case word (txt "Match")); [done|].
  destruct (lookup_keyword word) as [kw|] eqn:Hk; [|done].
  assert (forall v, value_of kw rest v ->
    Ok (E := HostsError) (active, if active then offer s {| se_kw := kw; se_value := v;
      se_source := SrcFile path (S (length before)) |} else s) = Ok (active', s') ->
    (active' = true <-> in_force_ before) /\
    exists os, reads_line_ path before line os /\ s' = foldl offer s os) as Hput.
  { intros v Hv [= <- <-]. split; [done|]. destruct active.
    - eexists [_]. split; [|done]. eapply reads_value; [by apply Ha|done..].
    - exists []. split; [|done]. apply reads_not_in_force. by rewrite <- Ha. }
  destruct (decide (kw_kind kw = KInclude)) as [Hi|Hi].
  { rewrite Hi. destruct (words rest) as [[|p ps]|e] eqn:Hw; cbn [map_err rbind]; [done| |done].
    destruct active.
    - intros (s1 & (os & Hos & ->)%include_all_reads & [= <- <-])%rbind_ok. split; [done|].
      exists os. split; [|done]. eapply reads_include; [by apply Ha|done..].
    - intros [= <- <-]. split; [done|]. exists []. split; [|done]. apply reads_not_in_force. by rewrite <- Ha. }
  destruct (decide (kw_kind kw = KCommand)) as [Hc|Hc].
  { rewrite Hc. destruct (validate kw _) as [v|] eqn:Hv; cbn [map_err rbind]; [|done].
    apply Hput. by apply value_of_command. }
  destruct (words rest) as [[|w [|w' ws]]|e] eqn:Hw; cbn [map_err rbind];
    [by destruct (kw_kind kw)| |by destruct (kw_kind kw)..].
  destruct (validate kw w) as [v|] eqn:Hv; cbn [map_err rbind]; [|by destruct (kw_kind kw)].
  intros He. apply (Hput v); [by eapply value_of_word|]. by destruct (kw_kind kw).
Qed.

Lemma load_lines_reads ls path before stack active s s' :
  (active = true <-> in_force_ before) ->
  load_lines_ load ls (S (length before)) (OFile path) stack active s = Ok s' ->
  exists os, reads_lines_ path before ls os /\ s' = foldl offer s os.
Proof.
  revert before active s. induction ls as [|line ls IH]; intros before active s Ha; cbn [load_lines].
  { intros [= ->]. exists []. by split; [constructor|]. }
  intros ([a s1] & Hl & Hr)%rbind_ok. apply load_line_reads in Hl as (Ha' & os & Hos & ->); [|done].
  cbn [fst snd] in Hr. replace (S (S (length before))) with (S (length (before ++ [line]))) in Hr
    by (rewrite length_app; cbn; lia).
  apply IH in Hr as (os' & Hos' & ->); [|done].
  exists (os ++ os'). rewrite foldl_app. split; [by constructor|done].
Qed.
End Step.

Lemma load_text_reads fuel contents path stack s s' :
  load_text_ fuel contents (OFile path) stack s = Ok s' ->
  exists os, reads_ path contents os /\ s' = foldl offer s os.
Proof.
  revert contents path stack s s'. induction fuel as [|fuel IH]; intros contents path stack s s'; cbn [load_text]; [done|].
  intros (os & Hos & ->)%(load_lines_reads _ IH _ _ []); [|done].
  exists os. split; [|done]. econstructor; [apply lines_of|done].
Qed.

(** *** The fuel is never used up *)

Definition same_deeper (load load' : text -> Origin -> list text -> list Setting -> result HostsError (list Setting))
    (stack : list text) : Prop :=
  length stack < MAX_INCLUDE_DEPTH ->
  forall contents origin canon s, load contents origin (stack ++ [canon]) s = load' contents origin (stack ++ [canon]) s.

Lemma include_files_same load load' files stack s :
  same_deeper load load' stack -> include_files_ load files stack s = include_files_ load' files stack s.
Proof.
  intros Hs. revert s. induction files as [|file files IH]; intros s; [done|]. cbn [include_files].
  case_bool_decide; [done|]. destruct (Nat.leb_spec MAX_INCLUDE_DEPTH (length stack)); [done|].
  destruct (map_err _ (read_to_string file)) as [contents|e]; [|done]. cbn [rbind].
  rewrite Hs by done. destruct (load' _ _ _ _); [|done]. apply IH.
Qed.

Lemma load_lines_same load load' ls number origin stack active s :
  same_deeper load load' stack ->
  load_lines_ load ls number origin stack active s = load_lines_ load' ls number origin stack active s.
Proof.
  intros Hs.
  assert (forall at_ pats s,
    include_all glob_paths is_file canonicalize read_to_string config_dir home load at_ pats stack s =
    include_all glob_paths is_file canonicalize read_to_string config_dir home load' at_ pats stack s) as Hall.
  { intros at_ pats. induction pats as [|pat pats IH]; intros s0; [done|]. cbn [include_all].
    unfold include. destruct (map_err _ (glob_paths _)) as [matches|e]; [|done]. cbn [rbind].
    rewrite (include_files_same load load') by done.
    destruct (map_err at_ _); [|done]. apply IH. }
  revert number active s. induction ls as [|line ls IH]; intros number active s; [done|].
  cbn [load_lines].
  assert (load_line_ load line number origin stack active s
          = load_line_ load' line number origin stack active s) as ->.
  { unfold load_line. destruct (split_line line) as [[word rest]|]; [|done].
    destruct (eq_ignore_ascii_case word (txt "Host")); [done|].
    destruct (eq_ignore_ascii_case word (txt "Match")); [done|].
    destruct (lookup_keyword word) as [kw|]; [|done]. destruct (kw_kind kw); try done.
    destruct (map_err _ (words rest)) as [[|p ps]|e]; cbn [rbind]; try done.
    destruct active; [|done]. by rewrite Hall. }
  destruct (load_line_ _ _ _ _ _ _ _) as [[a s']|e]; [|done]. apply IH.
Qed.

Lemma load_text_same n m contents origin stack s :
  length stack <= MAX_INCLUDE_DEPTH -> MAX_INCLUDE_DEPTH < n + length stack ->
  MAX_INCLUDE_DEPTH < m + length stack ->
  load_text_ n contents origin stack s = load_text_ m contents origin stack s.
Proof.
  revert m contents origin stack s. induction n as [|n IH]; intros m contents origin stack s Hst Hn Hm; [lia|].
  destruct m as [|m]; [lia|]. cbn [load_text]. apply load_lines_same. intros Hlt ct og canon s'.
  apply IH; rewrite length_app; cbn [length]; lia.
Qed.
End Loading.

Lemma star_matches_all name : host_line_matches [[star]] name = true.
Proof.
  unfold host_line_matches. cbn [host_line_loop].
  assert (strip_prefix [bang] [star] = None) as -> by done.
  assert (glob_match [star] (to_ascii_lowercase name) = true) as -> by
    (apply glob_match_spec; induction (to_ascii_lowercase name); [do 2 constructor|by apply M_star_more]).
  done.
Qed.

Section ResolveFacts.
Variable url_parse : text -> result text Url.
Variable percent_decode : text -> option text.
Variable glob_paths : text -> result text (list text).
Variable is_file : text -> bool.
Variable canonicalize : text -> option text.
Variable read_to_string : text -> result ReadError text.
Variable file_mode : text -> result text Z.

Notation load_text_ := (load_text glob_paths is_file canonicalize read_to_string).
Notation load_file_ := (load_file glob_paths is_file canonicalize read_to_string).
Notation collect_ := (collect glob_paths is_file canonicalize read_to_string).
Notation resolve_host_ :=
  (resolve_host url_parse percent_decode glob_paths is_file canonicalize read_to_string file_mode).

Lemma load_builtin name config_dir home s :
  load_text_ name config_dir home include_fuel BUILT_IN_DEFAULT ODefault [] s
  = Ok (foldl offer s builtin).
Proof.
  unfold include_fuel. cbn [load_text].
  assert (lines BUILT_IN_DEFAULT = [txt "Host *"; txt "  CuaEnabled yes"; txt "  CuaVersion latest-dev";
            txt "  CuaAutoDownload yes"]) as -> by (by vm_compute).
  generalize (load_text_ name config_dir home MAX_INCLUDE_DEPTH) as load. intros load.
  cbn [load_lines].
  assert (load_line glob_paths is_file canonicalize read_to_string name config_dir home load
            (txt "Host *") 1 ODefault [] true s = Ok (true, s)) as ->.
  { unfold load_line. assert (split_line (txt "Host *") = Some (txt "Host", [star])) as -> by (by vm_compute).
    assert (eq_ignore_ascii_case (txt "Host") (txt "Host") = true) as -> by (by vm_compute).
    assert (words [star] = Ok [[star]]) as -> by (by vm_compute).
    cbn [map_err rbind]. by rewrite star_matches_all. }
  reflexivity.
Qed.

Lemma load_file_reads name config_dir home path must_exist s s' :
  load_file_ name config_dir home path must_exist s = Ok s' ->
  exists os, s' = foldl offer s os /\
    ((exists contents, read_to_string path = Ok contents /\
       reads glob_paths is_file read_to_string name config_dir home path contents os) \/
     (must_exist = false /\ (exists m, read_to_string path = Err (NotFound m)) /\ os = [])).
Proof.
  unfold load_file. destruct (read_to_string path) as [contents|[m|m]]; [| |done].
  - intros (os & Hos & ->)%load_text_reads. exists os. split; [done|]. left. by exists contents.
  - destruct must_exist; [done|]. intros [= ->]. exists []. split; [done|]. right. eauto.
Qed.

(** The settings of the options, in order. *)
Fixpoint option_layer (n : nat) (opts : list text) : result HostsError (list Setting) :=
  match opts with
  | [] => Ok []
  | opt :: opts =>
      let? s := option_setting n opt in
      let? l := option_layer (S n) opts in Ok (s :: l)
  end.

Lemma option_settings_layer n opts settings :
  option_settings n opts settings = let? l := option_layer n opts in Ok (foldl offer settings l).
Proof.
  revert n settings. induction opts as [|opt opts IH]; intros n settings; [done|].
  cbn [option_settings option_layer]. destruct (option_setting n opt) as [s|e]; [|done]. cbn [rbind].
  rewrite IH. by destruct (option_layer (S n) opts).
Qed.

Lemma option_setting_sets n opt s : option_setting n opt = Ok s -> option_sets n opt s.
Proof.
  unfold option_setting, option_sets. destruct (split_line opt) as [[word rest]|]; [|done]. cbn [ok_or rbind].
  intros (kw & Hkw & (v & Hv & (v' & Hv' & [= <-])%rbind_ok)%rbind_ok)%rbind_ok. exists word, rest. cbn [se_kw se_value se_source].
  destruct (lookup_keyword word) as [kw'|]; [|by destruct (bool_decide (_ ∈ _))].
  destruct (bool_decide (kw_kind kw' = KInclude)) eqn:Hi; [by destruct (bool_decide (_ ∈ _))|].
  injection Hkw as ->. apply bool_decide_eq_false in Hi. split_and!; [done|done| |done].
  assert (validate kw v = Ok v') as Hval by (destruct (validate kw v); cbn [map_err] in Hv'; congruence).
  case_bool_decide as Hc; [injection Hv as <-; by constructor|].
  destruct (words rest) as [[|w [|w' ws]]|e] eqn:Hw; try done. injection Hv as <-. by econstructor.
Qed.

Lemma option_layer_sets n opts l :
  option_layer n opts = Ok l -> Forall2 (fun x s => option_sets (fst x) (snd x) s) (zip (seq n (length opts)) opts) l.
Proof.
  revert n l. induction opts as [|opt opts IH]; intros n l; cbn [option_layer]; [intros [= <-]; constructor|].
  intros (s & Hs%option_setting_sets & (l' & Hl%IH & [= <-])%rbind_ok)%rbind_ok. by constructor.
Qed.

Lemma url_settings_layer t : url_settings t [] = foldl offer [] (url_layer t).
Proof. destruct t as [a|[sc us dm pw ho po]]; [done|]. destruct us, dm, pw, po; reflexivity. Qed.

(** What [collect] offers, layer by layer. *)
Lemma collect_layers input target settings :
  collect_ input target = Ok settings ->
  exists opts file,
    option_layer 1 (hi_options input) = Ok opts /\
    hosts_file_reads glob_paths is_file read_to_string (target_name target) (hi_config_dir input)
      (hi_home input) (hi_file input) file /\
    settings = foldl offer [] (url_layer target ++ opts ++ file ++ builtin).
Proof.
  unfold collect. rewrite option_settings_layer, url_settings_layer.
  destruct (option_layer 1 (hi_options input)) as [opts|e]; [|done]. cbn [rbind].
  intros (s1 & Hs1 & Hs)%rbind_ok. rewrite load_builtin in Hs. injection Hs as <-. exists opts.
  enough (exists file, s1 = foldl offer (foldl offer (foldl offer [] (url_layer target)) opts) file /\
    hosts_file_reads glob_paths is_file read_to_string (target_name target) (hi_config_dir input)
      (hi_home input) (hi_file input) file) as (file & -> & Hf).
  { exists file. split_and!; [done|exact Hf|]. by rewrite !foldl_app. }
  unfold hosts_file_reads. destruct (hi_file input) as [path|]; [|destruct (hi_config_dir input) as [dir|] eqn:Hd].
  - apply load_file_reads in Hs1 as (file & -> & [Hf|[? _]]); [|done]. by exists file.
  - apply load_file_reads in Hs1 as (file & -> & Hf). exists file. split; [done|].
    destruct Hf as [Hf|(_ & Hf & ->)]; [by left|by right].
  - exists []. split; [by injection Hs1 as <-|done].
Qed.

(** The parts of a successful resolution. *)
Lemma resolve_host_Ok input h :
  resolve_host_ input = Ok h ->
  exists settings,
    target_parse url_parse percent_decode (hi_target input) = Ok (rh_target h) /\
    collect_ input (rh_target h) = Ok settings /\
    rh_settings h = sort_by index_leb settings /\
    check_permissions file_mode (rh_settings h) = Ok tt /\
    match find_setting (txt "HostName") settings with
    | Some s => expand_host_name (se_value s) (target_name (rh_target h)) = Ok (rh_host_name h)
    | None => rh_host_name h = target_name (rh_target h)
    end.
Proof.
  unfold resolve_host. destruct (target_parse _ _ _) as [target|]; [|done]. cbn [rbind].
  destruct (collect_ input target) as [settings|] eqn:Hc; [|done]. cbn [rbind].
  destruct (match find_setting _ settings with Some _ => _ | None => _ end) as [hn|] eqn:Hh; [|done].
  cbn [rbind]. destruct (check_permissions _ _) as [[]|] eqn:Hp; [|done]. cbn [rbind]. intros [= <-].
  exists settings. cbn. split_and!; try done. destruct (find_setting _ settings); [done|congruence].
Qed.

(** C7: the first value obtained for a setting wins, in the documented order.
    A successful resolution has for every slot exactly the first value offered
    by the URL, then by the [-o] options in their order, then by the hosts
    file, then by the built-in default.  The hosts file offers, line after
    line, the values of the lines that are in force for the host (before the
    first [Host] line, or where the last one has a pattern that matches and no
    negated one that does), an [Include] standing for the lines of its files
    in path order; the file may be missing only when no option named it.  No slot
    has two values ([Password] and [PasswordCommand] share one), and the three
    Cua settings always have one. *)
Theorem first_value_wins (input : HostsInput) (h : ResolvedHost) :
  resolve_host_ input = Ok h ->
  exists opts file,
    let all := url_layer (rh_target h) ++ opts ++ file ++ builtin in
    Forall2 (fun x s => option_sets (fst x) (snd x) s)
      (zip (seq 1 (length (hi_options input))) (hi_options input)) opts /\
    hosts_file_reads glob_paths is_file read_to_string (target_name (rh_target h)) (hi_config_dir input)
      (hi_home input) (hi_file input) file /\
    (forall slot, of_slot slot (rh_settings h) = of_slot slot all) /\
    NoDup (slots (rh_settings h)) /\
    (forall slot, slot ∈ [SlCuaEnabled; SlCuaVersion; SlCuaAutoDownload] ->
       is_Some (of_slot slot (rh_settings h))).
Proof.
  intros (settings & _ & Hc & Hset & _)%resolve_host_Ok.
  apply collect_layers in Hc as (opts & file & Hopts & Hfile & ->).
  exists opts, file. cbn zeta.
  assert (NoDup (slots (foldl offer [] (url_layer (rh_target h) ++ opts ++ file ++ builtin)))) as Hnd
    by (apply foldl_offer_slots; constructor).
  assert (forall slot, of_slot slot (rh_settings h)
    = of_slot slot (url_layer (rh_target h) ++ opts ++ file ++ builtin)) as Hfind.
  { intros slot. rewrite Hset. rewrite <- (of_slot_perm slot _ _ Hnd (symmetry (sort_by_perm _ _))).
    by rewrite foldl_offer_find. }
  split_and!; [by apply option_layer_sets|done|done| |].
  - rewrite Hset. unfold slots. by rewrite sort_by_perm.
  - intros slot Hslot. rewrite Hfind. unfold of_slot.
    destruct (List.find _ _) as [s|] eqn:Hf; [done|]. exfalso.
    assert (exists b, b ∈ builtin /\ kw_slot (se_kw b) = slot) as (b & Hb & Hbs).
    { revert slot Hslot Hf. intros slot Hslot _. unfold builtin.
      rewrite !elem_of_cons in Hslot. destruct Hslot as [->|[->|[->|Hn]]]; [| | |by apply not_elem_of_nil in Hn].
      - eexists. split; [left|done].
      - eexists. split; [right; left|done].
      - eexists. split; [do 2 right; left|done]. }
    pose proof (List.find_none _ _ Hf b) as Hn. cbn in Hn.
    assert (bool_decide (kw_slot (se_kw b) = slot) = false); [|by bools].
    apply Hn, list_elem_of_In, elem_of_app. right. apply elem_of_app. right.
    apply elem_of_app. by right.
Qed.

Lemma row_of_hidden s :
  {| row_keyword := kw_name (se_kw s); row_value := display_value s; row_source := show_source (se_source s) |}
  = {| row_keyword := kw_name (se_kw (hide s)); row_value := display_value (hide s);
       row_source := show_source (se_source (hide s)) |}.
Proof. unfold display_value, hide. cbn. by destruct (kw_secret (se_kw s)). Qed.

Lemma find_hidden name l :
  find_setting name (map hide l) = hide <$> find_setting name l.
Proof.
  unfold find_setting. induction l as [|s l IH]; [done|]. cbn [map List.find].
  change (kw_name (se_kw (hide s))) with (kw_name (se_kw s)). by case_bool_decide.
Qed.

(** C11: a password never shows, and never comes from a file others can read.
    The rows that are printed depend on the settings without their secret
    values only; and when a literal password from a file wins, that file's
    mode gives neither the group nor others read access. *)
Theorem passwords_stay_private (input : HostsInput) (h : ResolvedHost) :
  resolve_host_ input = Ok h ->
  (forall s path line, rh_find "Password" h = Some s -> se_source s = SrcFile path line ->
     exists mode, file_mode path = Ok mode /\ Z.land mode 36 = 0%Z) /\
  (forall h', map hide (rh_settings h') = map hide (rh_settings h) -> rh_host_name h' = rh_host_name h ->
     rows h' = rows h).
Proof.
  intros (settings & _ & _ & _ & Hperm & _)%resolve_host_Ok. split.
  - intros s path line Hs Hsrc. unfold check_permissions in Hperm. unfold rh_find in Hs.
    rewrite Hs, Hsrc in Hperm. destruct (file_mode path) as [mode|e]; [|done]. cbn [map_err rbind] in Hperm.
    exists mode. split; [done|]. destruct (Z.eqb_spec (Z.land mode 36) 0); [done|congruence].
  - intros h' Hhide Hname. unfold rows, rh_find.
    assert (forall name, (match find_setting name (rh_settings h') with Some _ => true | None => false end)
            = match find_setting name (rh_settings h) with Some _ => true | None => false end) as Hfind.
    { intros name. pose proof (find_hidden name (rh_settings h')) as H1. rewrite Hhide, find_hidden in H1.
      by destruct (find_setting name (rh_settings h')), (find_setting name (rh_settings h)). }
    assert (forall l, map (fun s => {| row_keyword := kw_name (se_kw s); row_value := display_value s;
                                       row_source := show_source (se_source s) |}) l
            = map (fun s => {| row_keyword := kw_name (se_kw s); row_value := display_value s;
                               row_source := show_source (se_source s) |}) (map hide l)) as Hrows.
    { intros l. rewrite map_map. apply map_ext. intros s. apply row_of_hidden. }
    rewrite Hrows, Hhide, <- Hrows, Hname.
    pose proof (Hfind (txt "HostName")) as H1. pose proof (Hfind (txt "Port")) as H2.
    by destruct (find_setting (txt "HostName") (rh_settings h')), (find_setting (txt "HostName") (rh_settings h)),
      (find_setting (txt "Port") (rh_settings h')), (find_setting (txt "Port") (rh_settings h)).
Qed.

(** C10: reading always ends, whatever files include each other: the nesting
    check answers before the reader's fuel is used up, so no amount of extra
    fuel changes any result. *)
Theorem include_depth_bounded name config_dir home fuel contents origin (stack : list text) settings :
  length stack <= MAX_INCLUDE_DEPTH -> MAX_INCLUDE_DEPTH < fuel + length stack ->
  load_text_ name config_dir home fuel contents origin stack settings
  = load_text_ name config_dir home include_fuel contents origin stack settings.
Proof. intros Hs Hf. apply load_text_same; [done|done|unfold include_fuel; lia]. Qed.
End ResolveFacts.

(** ** A concrete file system: a hosts file that a second file includes again *)

Definition demo_hosts : text :=
  txt "Host web*" ++ newline :: txt "  User bob" ++ newline :: txt "  Password s3cret" ++ newline
  :: txt "Host *" ++ newline :: txt "  User nobody" ++ [newline].
Definition demo_read (path : text) : result ReadError text :=
  if bool_decide (path = txt "/c/hosts") then Ok demo_hosts
  else if bool_decide (path = txt "/c/loop") then Ok (txt "Include loop" ++ [newline])
  else Err (NotFound (txt "no such file")).
Definition demo_glob (pattern : text) : result text (list text) := Ok [pattern].
Definition demo_input : HostsInput :=
  {| hi_target := txt "web1"; hi_options := [txt "Port=3390"]; hi_file := None;
     hi_config_dir := Some (txt "/c"); hi_home := None |}.
Definition demo_resolve (mode : Z) (input : HostsInput) : result HostsError ResolvedHost :=
  resolve_host demo_url_parse Some demo_glob (fun _ => true) Some demo_read (fun _ => Ok mode) input.
Definition demo_host : ResolvedHost :=
  match demo_resolve 384 demo_input with
  | Ok h => h
  | Err _ => {| rh_target := TAlias []; rh_host_name := []; rh_settings := [] |}
  end.

Lemma demo_host_resolved : demo_resolve 384 demo_input = Ok demo_host.
Proof. by vm_compute. Qed.

Lemma first_value_wins_witness :
  option_map se_value (of_slot SlUser (rh_settings demo_host)) = Some (txt "bob") /\
  is_Some (of_slot SlCuaVersion (rh_settings demo_host)).
Proof.
  split; [by vm_compute|].
  pose proof (first_value_wins demo_url_parse Some demo_glob (fun _ => true) Some demo_read
                (fun _ => Ok 384%Z) demo_input demo_host demo_host_resolved) as Hx.
  destruct Hx as (opts & file & _ & _ & _ & _ & Hcua). apply Hcua. right. left.
Defined.

Lemma passwords_stay_private_witness :
  demo_resolve 420 demo_input = Err (PasswordReadable (txt "/c/hosts")) /\
  exists mode, Ok 384%Z = Ok (E := text) mode /\ Z.land mode 36 = 0%Z.
Proof.
  split; [by vm_compute|].
  destruct (rh_find "Password" demo_host) as [s|] eqn:Hs; [|by vm_compute in Hs].
  apply (proj1 (passwords_stay_private demo_url_parse Some demo_glob (fun _ => true) Some demo_read
    (fun _ => Ok 384%Z) demo_input demo_host demo_host_resolved) s (txt "/c/hosts") 3 Hs).
  vm_compute in Hs. by injection Hs as <-.
Defined.

Lemma include_depth_bounded_witness :
  load_text demo_glob (fun _ => true) Some demo_read (txt "web1") (Some (txt "/c")) None 99
    (txt "Include loop") (OFile (txt "/c/loop")) [txt "/c/loop"] []
  = Err (AtLine (txt "/c/loop") 1 (IncludeCycle (txt "/c/loop"))).
Proof.
  rewrite (include_depth_bounded demo_glob (fun _ => true) Some demo_read); [by vm_compute|..];
    unfold MAX_INCLUDE_DEPTH; cbn [length]; lia.
Defined.

(** A keyword that is not separated from its value is reported as a whole,
    value included. *)
Lemma unknown_keyword_shows_value :
  load_text demo_glob (fun _ => true) Some demo_read (txt "web1") None None include_fuel
    (txt "Password:hunter2") (OFile (txt "/c/hosts")) [txt "/c/hosts"] []
  = Err (AtLine (txt "/c/hosts") 1 (UnknownKeyword (txt "Password:hunter2"))).
Proof. by vm_compute. Qed.
