(* ===== verification/Expand.v ===== *)
(** * [PasswordCommand] expansion ([crates/rdpilot-config/src/hosts/expand.rs])

    The loop consumes at least one character of the command in every round, so
    [expand_fuel], the length of the command plus one, is enough. *)
From S2P Require Import Prelude HostsParse Target Resolve.
Open Scope rd_scope.

(** ** Definitions *)

(** Quotes, the backquote and the metacharacters of a shell. *)
Definition FORBIDDEN : text := txt "'" ++ [dquote] ++ txt "`\$;&|<>(){}[]*?!#~%^=".
Definition dash : char := 45%N.

(** [check_token] *)
Definition check_token (token : char) (value target : text) : result HostsError unit :=
  match value with
  | [] => Err (TokenRefused target token (txt "is empty"))
  | c :: _ =>
      if (c =? dash)%N then Err (TokenRefused target token (txt "starts with '-'"))
      else if existsb (fun c => is_whitespace c || is_control c || bool_decide (c ∈ FORBIDDEN)) value
      then Err (TokenRefused target token
                  (txt "contains a character that is not allowed in a shell command"))
      else Ok tt
  end.

Definition dollar_brace : text := txt "${".
Definition close_brace : char := 125%N.

Section Expand.
Variable env : text -> option text.
Variable host : ResolvedHost.

Definition expand_label : text := show_target (rh_target host).
Definition expand_err {A} (msg : text) : result HostsError A :=
  Err (PasswordCommandError expand_label msg).

(** The value of [%t]. *)
Definition token_value (t : char) : result HostsError text :=
  if (t =? percent)%N then Ok [percent]
  else if (t =? 104)%N then Ok (rh_address host)
  else if (t =? 110)%N then Ok (target_name (rh_target host))
  else if (t =? 114)%N then
    match rh_user host with
    | Some u => Ok u
    | None => expand_err (txt "%r used but no User is set")
    end
  else if (t =? 112)%N then Ok (dec (default DEFAULT_PORT (rh_port host)))
  else expand_err (txt "unknown token %" ++ [t]).

Fixpoint expand_loop (fuel : nat) (rest out : text) : result HostsError text :=
  match fuel with
  | O => expand_err (txt "out of fuel")
  | S fuel =>
      match rest with
      | [] => Ok out
      | c :: rest1 =>
          match strip_prefix dollar_brace rest with
          | Some after =>
              match split_once_char close_brace after with
              | None => expand_err (txt "unterminated ${")
              | Some (name, rest2) =>
                  match env name with
                  | None => expand_err (txt "environment variable " ++ name ++ txt " is not set")
                  | Some value => expand_loop fuel rest2 (out ++ value)
                  end
              end
          | None =>
              if negb (c =? percent)%N then expand_loop fuel rest1 (out ++ [c])
              else
                match rest1 with
                | [] => expand_err (txt "trailing % (write %% for a literal %)")
                | t :: rest2 =>
                    let? value := token_value t in
                    let? _ := if negb (t =? percent)%N then check_token t value expand_label else Ok tt in
                    expand_loop fuel rest2 (out ++ value)
                end
          end
      end
  end.
Definition expand_fuel (command : text) : nat := S (length command).

(** [expand_password_command] *)
Definition expand_password_command : result HostsError text :=
  match rh_password_command host with
  | None => expand_err (txt "no PasswordCommand is configured")
  | Some command => expand_loop (expand_fuel command) command []
  end.
End Expand.

(** ** Specification *)

(** The characters POSIX says a shell may treat specially (XCU 2.2): vertical
    bar, ampersand, semicolon, angle and round brackets, dollar, backquote,
    backslash, both quotes, space, tab, newline, star, question mark, square
    bracket, hash, tilde, equals, percent. *)
Definition posix_special : list char :=
  [124; 38; 59; 60; 62; 40; 41; 36; 96; 92; 34; 39; 32; 9; 10; 42; 63; 91; 35; 126; 61; 37]%N.

(** A value a shell command line can hold as it is. *)
Definition shell_safe (v : text) : Prop :=
  v <> [] /\ head v <> Some dash /\
  Forall (fun c => is_whitespace c = false /\ is_control c = false /\ c ∉ posix_special) v.

(** The parts of a command as the user wrote it. *)
Inductive Piece := PcLiteral (c : char) | PcPercent | PcToken (t : char) (v : text) | PcEnv (name v : text).

Definition written (p : Piece) : text :=
  match p with
  | PcLiteral c => [c]
  | PcPercent => [percent; percent]
  | PcToken t _ => [percent; t]
  | PcEnv name _ => dollar_brace ++ name ++ [close_brace]
  end.
Definition expanded (p : Piece) : text :=
  match p with
  | PcLiteral c => [c]
  | PcPercent => [percent]
  | PcToken _ v => v
  | PcEnv _ v => v
  end.
Definition piece_ok (env : text -> option text) (host : ResolvedHost) (p : Piece) : Prop :=
  match p with
  | PcLiteral c => c <> percent
  | PcPercent => True
  | PcToken t v => t <> percent /\ token_value host t = Ok v /\ shell_safe v
  | PcEnv name v => env name = Some v
  end.

(** ** Lemmas *)

Lemma special_forbidden c : is_whitespace c = false -> c ∉ FORBIDDEN -> c ∉ posix_special.
Proof.
  intros Hw Hf Hin.
  assert (Forall (fun c => is_whitespace c = true \/ c ∈ FORBIDDEN) posix_special) as Hall
    by (apply (bool_decide_unpack _); by vm_compute).
  rewrite Forall_forall in Hall. destruct (Hall c Hin); [congruence|done].
Qed.

Lemma check_token_safe t v target : check_token t v target = Ok tt -> shell_safe v.
Proof.
  unfold check_token, shell_safe. destruct v as [|c v]; [done|].
  destruct (N.eqb_spec c dash) as [|Hc]; [done|].
  destruct (existsb _ (c :: v)) eqn:Hex; [done|]. intros _. split_and!; [done|cbn; congruence|].
  apply Forall_forall. intros x Hx.
  assert (is_whitespace x || is_control x || bool_decide (x ∈ FORBIDDEN) = false) as Hf.
  { apply not_true_iff_false. intros Ht. apply not_true_iff_false in Hex. apply Hex.
    apply existsb_exists. exists x. split; [by apply list_elem_of_In|done]. }
  apply orb_false_iff in Hf as [Hf Hn]. apply orb_false_iff in Hf as [Hw Hc'].
  apply bool_decide_eq_false in Hn. split_and!; [done|done|by apply special_forbidden].
Qed.

Lemma expand_loop_pieces env host fuel rest out res :
  expand_loop env host fuel rest out = Ok res ->
  exists ps, rest = concat (map written ps) /\ res = out ++ concat (map expanded ps) /\
             Forall (piece_ok env host) ps.
Proof.
  revert rest out. induction fuel as [|fuel IH]; intros rest out; cbn [expand_loop]; [done|].
  destruct rest as [|c rest1]; [intros [= <-]; exists []; by rewrite app_nil_r|].
  destruct (strip_prefix dollar_brace (c :: rest1)) as [after|] eqn:Hd.
  { apply strip_prefix_Some in Hd. destruct (split_once_char close_brace after) as [[name rest2]|] eqn:Hs; [|done].
    apply split_once_char_Some in Hs as [-> _]. destruct (env name) as [v|] eqn:He; [|done].
    intros (ps & -> & -> & Hok)%IH. exists (PcEnv name v :: ps). split_and!.
    - rewrite Hd. cbn [map concat written]. by rewrite <- !app_assoc.
    - cbn. by rewrite <- app_assoc.
    - by constructor. }
  destruct (N.eqb_spec c percent) as [->|Hc]; cbn [negb].
  2: { intros (ps & -> & -> & Hok)%IH. exists (PcLiteral c :: ps). split_and!; [done| |by constructor].
       cbn. by rewrite <- app_assoc. }
  destruct rest1 as [|t rest2]; [done|].
  destruct (token_value host t) as [v|e] eqn:Hv; [|done]. cbn [rbind].
  destruct (N.eqb_spec t percent) as [->|Ht]; cbn [negb].
  - cbn [rbind]. intros (ps & -> & -> & Hok)%IH. exists (PcPercent :: ps).
    assert (v = [percent]) as -> by (unfold token_value in Hv; rewrite N.eqb_refl in Hv; congruence).
    split_and!; [done|by rewrite <- app_assoc|by constructor].
  - destruct (check_token t v _) as [[]|e] eqn:Hck; [|done]. cbn [rbind].
    intros (ps & -> & -> & Hok)%IH. exists (PcToken t v :: ps).
    split_and!; [done|by cbn; rewrite <- app_assoc|]. constructor; [|done].
    split_and!; [done|done|by eapply check_token_safe].
Qed.

Lemma split_once_char_length c t a b : split_once_char c t = Some (a, b) -> (length b < length t)%nat.
Proof. intros [-> _]%split_once_char_Some. rewrite length_app. cbn. lia. Qed.

Lemma strip_prefix_length p t r : strip_prefix p t = Some r -> (length r <= length t)%nat.
Proof. intros ->%strip_prefix_Some. rewrite length_app. lia. Qed.

Lemma expand_loop_fuel env host n m rest out :
  (length rest < n)%nat -> (length rest < m)%nat ->
  expand_loop env host n rest out = expand_loop env host m rest out.
Proof.
  revert m rest out. induction n as [|n IH]; intros m rest out Hn Hm; [lia|].
  destruct m as [|m]; [lia|]. cbn [expand_loop].
  destruct rest as [|c rest1]; [done|]. cbn [length] in *.
  destruct (strip_prefix dollar_brace (c :: rest1)) as [after|] eqn:Hd.
  { apply strip_prefix_length in Hd. cbn [length] in Hd.
    destruct (split_once_char close_brace after) as [[name rest2]|] eqn:Hs; [|done].
    apply split_once_char_length in Hs. destruct (env name); [|done]. apply IH; lia. }
  destruct (negb (c =? percent)%N); [apply IH; lia|].
  destruct rest1 as [|t rest2]; [done|]. cbn [length] in *.
  destruct (token_value host t) as [v|e]; [|done]. cbn [rbind].
  destruct (if negb (t =? percent)%N then _ else _); [|done]. cbn [rbind]. apply IH; lia.
Qed.

(** ** Properties *)

(** C12: a password command cannot be made to run anything else.  The expanded
    command is the command as written, piece by piece: only [%%], [%x] and
    [${VAR}] are replaced, and every value put in for [%h], [%n], [%r] or [%p],
    wherever it came from, is not empty, does not start with a dash, and has no
    blank, control character or shell metacharacter; and expansion ends for
    every command (no amount of extra fuel changes the result). *)
Theorem password_command_is_safe (env : text -> option text) (host : ResolvedHost) (command : text) (extra : nat) :
  rh_password_command host = Some command ->
  expand_password_command env host = expand_loop env host (expand_fuel command + extra) command [] /\
  forall out, expand_password_command env host = Ok out ->
    exists pieces, command = concat (map written pieces) /\ out = concat (map expanded pieces) /\
                   Forall (piece_ok env host) pieces.
Proof.
  intros Hc. unfold expand_password_command. rewrite Hc. split.
  - apply expand_loop_fuel; unfold expand_fuel; lia.
  - intros out (ps & Hw & He & Hok)%expand_loop_pieces. by exists ps.
Qed.

Definition demo_command_host (target : text) : ResolvedHost :=
  {| rh_target := TAlias target; rh_host_name := target;
     rh_settings := [ {| se_kw := mk_keyword (txt "PasswordCommand") KCommand SlCredential false;
                         se_value := txt "pass rdp/%h"; se_source := SrcFile (txt "/c/hosts") 1 |} ] |}.

Lemma password_command_is_safe_witness :
  expand_password_command (fun _ => None) (demo_command_host (txt "web1")) = Ok (txt "pass rdp/web1") /\
  is_ok (expand_password_command (fun _ => None) (demo_command_host (txt "x;reboot"))) = false /\
  exists pieces, txt "pass rdp/web1" = concat (map expanded pieces) /\
    Forall (piece_ok (fun _ => None) (demo_command_host (txt "web1"))) pieces.
Proof.
  assert (expand_password_command (fun _ => None) (demo_command_host (txt "web1")) = Ok (txt "pass rdp/web1"))
    as He by (by vm_compute).
  split_and!; [exact He|by vm_compute|].
  destruct (proj2 (password_command_is_safe (fun _ => None) (demo_command_host (txt "web1"))
    (txt "pass rdp/%h") 0 ltac:(by vm_compute)) _ He) as (ps & _ & Hv & Hok).
  by exists ps.
Defined.
