(* ===== verification/Records.v ===== *)
(** * Reconciliation records ([crates/rdpilot-daemon/src/reconcile.rs])

    A file with one record per session that may still be open, so that a
    daemon started after a crash can show what its predecessor left behind.
    [ReconciliationSink] is the trait of [seams.rs], [JsonReconciliationSink]
    its implementation on a file, and [Book] is [RecordBook], which knows the
    generation that owns each record.

    The file is what a reader finds in it: [None] when it is absent or cannot
    be read or parsed (the code treats the three alike), else the records in
    their order.  Every write is told whether it succeeded.  A write replaces
    the file by a rename, so a failed one leaves it as it was. *)
From S2P Require Import Prelude.
Open Scope Z_scope.

(** ** Records and sinks *)

Record ReconciliationRecord := {
  rr_id : text; rr_host : text; rr_connected_since : text }.

#[global] Instance ReconciliationRecord_eq_dec : EqDecision ReconciliationRecord.
Proof. solve_decision. Defined.

(** The trait [ReconciliationSink].  The first argument of a method says
    whether its write succeeds; only [remove_records] reports it. *)
Class ReconciliationSink (D : Type) := {
  record_open : bool -> text -> text -> text -> D -> D;
  record_closed : bool -> text -> D -> D;
  remove_records : bool -> list text -> D -> D * bool }.

(** What the record book relies on. *)
Class SinkLaws (D : Type) `{ReconciliationSink D} := {
  sink_lookup : D -> text -> option ReconciliationRecord;
  sink_lookup_open id host since d j :
    sink_lookup (record_open true id host since d) j =
    if decide (j = id)
    then Some {| rr_id := id; rr_host := host; rr_connected_since := since |}
    else sink_lookup d j;
  sink_lookup_closed id d j :
    sink_lookup (record_closed true id d) j = if decide (j = id) then None else sink_lookup d j;
  sink_lookup_removed ok ids d j :
    sink_lookup (fst (remove_records ok ids d)) j =
    if snd (remove_records ok ids d) && bool_decide (j ∈ ids) then None else sink_lookup d j }.

(** ** The sink on a file *)

Definition Disk := option (list ReconciliationRecord).

(** [load_records] *)
Definition load_records (d : Disk) : list ReconciliationRecord := default [] d.

(** [save_records] *)
Definition save_records (ok : bool) (records : list ReconciliationRecord) (d : Disk) : Disk * bool :=
  if ok then (Some records, true) else (d, false).

(** The first record of [id] changed in place; [None] when there is none. *)
Fixpoint update_record (id host since : text) (records : list ReconciliationRecord)
  : option (list ReconciliationRecord) :=
  match records with
  | [] => None
  | r :: rest =>
      if bool_decide (rr_id r = id)
      then Some ({| rr_id := rr_id r; rr_host := host; rr_connected_since := since |} :: rest)
      else match update_record id host since rest with
           | Some rest => Some (r :: rest)
           | None => None
           end
  end.

Definition json_record_open (ok : bool) (id host since : text) (d : Disk) : Disk :=
  let records := load_records d in
  let records :=
    match update_record id host since records with
    | Some records => records
    | None => records ++ [{| rr_id := id; rr_host := host; rr_connected_since := since |}]
    end in
  fst (save_records ok records d).

Definition json_record_closed (ok : bool) (id : text) (d : Disk) : Disk :=
  let records := List.filter (fun r => negb (bool_decide (rr_id r = id))) (load_records d) in
  fst (save_records ok records d).

Definition json_remove_records (ok : bool) (ids : list text) (d : Disk) : Disk * bool :=
  let records :=
    List.filter (fun r => negb (existsb (fun id => bool_decide (id = rr_id r)) ids)) (load_records d) in
  save_records ok records d.

#[global] Instance JsonReconciliationSink : ReconciliationSink Disk := {
  record_open := json_record_open;
  record_closed := json_record_closed;
  remove_records := json_remove_records }.

(** [scan_orphans] *)
Definition scan_orphans (d : Disk) : list ReconciliationRecord := load_records d.

(** ** The record book *)

Section RecordBook.
Context {D : Type} `{ReconciliationSink D}.

(** [RecordBook] with its [BookState] *)
Record Book := { bk_open : gmap text Z; bk_pending : gset text; bk_sink : D }.

Definition book_new (d : D) : Book := {| bk_open := ∅; bk_pending := ∅; bk_sink := d |}.

(** [RecordBook::flush_pending] *)
Definition flush_pending (ok : bool) (b : Book) : Book :=
  if bool_decide (bk_pending b = ∅) then b
  else
    let '(d, removed) := remove_records ok (elements (bk_pending b)) (bk_sink b) in
    {| bk_open := bk_open b; bk_pending := if removed then ∅ else bk_pending b; bk_sink := d |}.

(** Whether the writes of one operation succeed: its own, and the flush. *)
Record Io := { io_write : bool; io_flush : bool }.

(** [RecordBook::opened] *)
Definition opened (io : Io) (id : text) (generation : Z) (host since : text) (b : Book) : Book :=
  match bk_open b !! id with
  | Some owner =>
      if generation <=? owner then b
      else flush_pending (io_flush io)
             {| bk_open := <[id := generation]> (bk_open b);
                bk_pending := bk_pending b ∖ {[id]};
                bk_sink := record_open (io_write io) id host since (bk_sink b) |}
  | None =>
      flush_pending (io_flush io)
        {| bk_open := <[id := generation]> (bk_open b);
           bk_pending := bk_pending b ∖ {[id]};
           bk_sink := record_open (io_write io) id host since (bk_sink b) |}
  end.

(** [RecordBook::closed] *)
Definition closed (io : Io) (id : text) (generation : Z) (b : Book) : Book * bool :=
  if bool_decide (bk_open b !! id = Some generation) then
    (flush_pending (io_flush io)
       {| bk_open := delete id (bk_open b); bk_pending := bk_pending b;
          bk_sink := record_closed (io_write io) id (bk_sink b) |}, true)
  else (b, false).

(** [RecordBook::closed_orphan] *)
Definition closed_orphan (io : Io) (id : text) (b : Book) : Book :=
  match bk_open b !! id with
  | Some _ => b
  | None =>
      flush_pending (io_flush io)
        {| bk_open := bk_open b; bk_pending := {[id]} ∪ bk_pending b; bk_sink := bk_sink b |}
  end.

(** [RecordBook::purge_seeded] *)
Definition purge_seeded (io : Io) (ids : list text) (b : Book) : Book :=
  let unowned := List.filter (fun id => negb (bool_decide (is_Some (bk_open b !! id)))) ids in
  flush_pending (io_flush io)
    {| bk_open := bk_open b; bk_pending := list_to_set unowned ∪ bk_pending b;
       bk_sink := bk_sink b |}.

(** One operation of the book, with the answer of [closed]. *)
Inductive BookOp :=
| OpOpened (id : text) (generation : Z) (host since : text)
| OpClosed (id : text) (generation : Z)
| OpClosedOrphan (id : text)
| OpPurgeSeeded (ids : list text).

Definition book_op (io : Io) (op : BookOp) (b : Book) : Book * bool :=
  match op with
  | OpOpened id g host since => (opened io id g host since b, true)
  | OpClosed id g => closed io id g b
  | OpClosedOrphan id => (closed_orphan io id b, true)
  | OpPurgeSeeded ids => (purge_seeded io ids b, true)
  end.

Fixpoint book_run (ops : list (Io * BookOp)) (b : Book) : Book * list bool :=
  match ops with
  | [] => (b, [])
  | (io, op) :: ops =>
      let '(b, r) := book_op io op b in
      let '(b, rs) := book_run ops b in (b, r :: rs)
  end.
End RecordBook.
Arguments Book : clear implicits.

(** ** What the book promises

    Each id has at most one record, with the generation that owns it, or
    none when the record was left by an earlier daemon. *)
Definition Owned := text -> option (option Z * ReconciliationRecord).

Definition owner (a : Owned) (id : text) : option Z := and_then (a id) fst.

Definition owned_set (a : Owned) (id : text) (v : option (option Z * ReconciliationRecord)) : Owned :=
  fun j => if decide (j = id) then v else a j.

Definition owned_drop (a : Owned) (id : text) : Owned :=
  match owner a id with Some _ => a | None => owned_set a id None end.

Definition owned_op (op : BookOp) (a : Owned) : Owned * bool :=
  match op with
  | OpOpened id g host since =>
      let own := owned_set a id
        (Some (Some g, {| rr_id := id; rr_host := host; rr_connected_since := since |})) in
      (match owner a id with Some o => if g <=? o then a else own | None => own end, true)
  | OpClosed id g =>
      if bool_decide (owner a id = Some g) then (owned_set a id None, true) else (a, false)
  | OpClosedOrphan id => (owned_drop a id, true)
  | OpPurgeSeeded ids => (foldl owned_drop a ids, true)
  end.

Fixpoint owned_run (ops : list BookOp) (a : Owned) : Owned * list bool :=
  match ops with
  | [] => (a, [])
  | op :: ops =>
      let '(a, r) := owned_op op a in
      let '(a, rs) := owned_run ops a in (a, r :: rs)
  end.

Section BookProperties.
Context {D : Type} `{SinkLaws D}.
Implicit Types (b : Book D) (a : Owned).

(** The book [b] implements [a]: who owns what is the same, and the sink
    holds exactly the records of [a], but for those still to be removed. *)
Definition implements (b : Book D) (a : Owned) : Prop :=
  forall id, bk_open b !! id = owner a id /\
    (id ∈ bk_pending b -> a id = None) /\
    (id ∉ bk_pending b -> sink_lookup (bk_sink b) id = snd <$> a id).

(** Before its flush, an operation leaves the sink with records that [a] does
    not have, all of them pending. *)
Lemma flush_implements ok b a : implements b a -> implements (flush_pending ok b) a.
Proof.
  intros Hi. unfold flush_pending. case_bool_decide as Hp; [done|].
  pose proof (fun j => sink_lookup_removed ok (elements (bk_pending b)) (bk_sink b) j) as Hr.
  destruct (remove_records ok (elements (bk_pending b)) (bk_sink b)) as [d done_]; cbn [fst snd] in *.
  intros id. destruct (Hi id) as (Ho & Hn & Hy). cbn. split; [done|].
  rewrite (Hr id). destruct done_; cbn [andb].
  - split; [set_solver|]. intros _. case_bool_decide as Hin.
    + rewrite elem_of_elements in Hin. by rewrite (Hn Hin).
    + apply Hy. by rewrite elem_of_elements in Hin.
  - split; done.
Qed.

Lemma opened_implements io id g host since b a :
  io_write io = true -> implements b a ->
  implements (opened io id g host since b) (fst (owned_op (OpOpened id g host since) a)).
Proof.
  intros Hw Hi. unfold opened, owned_op; cbn [fst]. rewrite (proj1 (Hi id)), Hw.
  assert (implements
    {| bk_open := <[id := g]> (bk_open b); bk_pending := bk_pending b ∖ {[id]};
       bk_sink := record_open true id host since (bk_sink b) |}
    (owned_set a id (Some (Some g, {| rr_id := id; rr_host := host; rr_connected_since := since |})))).
  { intros j. destruct (Hi j) as (Ho & Hn & Hy). unfold owner, owned_set in *. cbn.
    rewrite sink_lookup_open. destruct (decide (j = id)) as [->|Hne].
    - rewrite lookup_insert_eq. split_and!; [done|set_solver|done].
    - rewrite lookup_insert_ne by done. split_and!; [done|set_solver|].
      intros Hj. apply Hy. set_solver. }
  destruct (owner a id) as [o|]; [destruct (g <=? o)|]; eauto using flush_implements.
Qed.

Lemma closed_implements io id g b a :
  io_write io = true -> implements b a ->
  implements (fst (closed io id g b)) (fst (owned_op (OpClosed id g) a)) /\
  snd (closed io id g b) = snd (owned_op (OpClosed id g) a).
Proof.
  intros Hw Hi. unfold closed, owned_op. rewrite (proj1 (Hi id)), Hw.
  case_bool_decide as Hg; cbn; [|done]. split; [|done]. apply flush_implements.
  intros j. destruct (Hi j) as (Ho & Hn & Hy). unfold owner, owned_set in *. cbn.
  rewrite sink_lookup_closed. destruct (decide (j = id)) as [->|Hne].
  - rewrite lookup_delete_eq. done.
  - rewrite lookup_delete_ne by done. done.
Qed.

Lemma owned_drop_lookup a id j :
  owned_drop a id j = if decide (j = id /\ owner a id = None) then None else a j.
Proof.
  unfold owned_drop. destruct (owner a id) eqn:E; unfold owned_set;
    repeat case_decide; naive_solver.
Qed.

Lemma owner_owned_drop a id j : owner (owned_drop a id) j = owner a j.
Proof.
  unfold owner at 1. rewrite owned_drop_lookup. case_decide as Hd; [|done].
  destruct Hd as [-> Ho]. by rewrite Ho.
Qed.

Lemma owned_drops_lookup ids a j :
  foldl owned_drop a ids j = if decide (j ∈ ids /\ owner a j = None) then None else a j.
Proof.
  revert a. induction ids as [|i ids IH]; intros a; cbn [foldl].
  - case_decide; [set_solver|done].
  - rewrite IH, owner_owned_drop, owned_drop_lookup.
    repeat case_decide; try done; set_solver.
Qed.

Lemma purge_implements io ids b a :
  implements b a ->
  implements (purge_seeded io ids b) (fst (owned_op (OpPurgeSeeded ids) a)).
Proof.
  intros Hi. apply flush_implements. intros j. destruct (Hi j) as (Ho & Hn & Hy).
  assert (Hj : j ∈ List.filter (fun id => negb (bool_decide (is_Some (bk_open b !! id)))) ids <->
               j ∈ ids /\ owner a j = None).
  { rewrite list_elem_of_In, filter_In, <- list_elem_of_In, negb_true_iff, bool_decide_eq_false.
    rewrite Ho, <- eq_None_not_Some. done. }
  cbn [bk_open bk_pending bk_sink owned_op fst]. unfold owner at 1.
  rewrite owned_drops_lookup, elem_of_union, elem_of_list_to_set, Hj.
  rewrite Ho. unfold owner at 1. case_decide as Hd.
  - split_and!; [destruct Hd as [_ Hd]; exact Hd|done|naive_solver].
  - split_and!; [done|naive_solver|]. intros Hnj. apply Hy. naive_solver.
Qed.

Lemma closed_orphan_implements io id b a :
  implements b a ->
  implements (closed_orphan io id b) (fst (owned_op (OpClosedOrphan id) a)).
Proof.
  intros Hi. pose proof (purge_implements io [id] b a Hi) as Hp.
  unfold closed_orphan, purge_seeded in *. cbn [owned_op fst foldl List.filter] in *.
  destruct (Hi id) as [Ho _]. destruct (bk_open b !! id) as [o|] eqn:E.
  - unfold owned_drop. by rewrite <- Ho.
  - rewrite bool_decide_eq_false_2 in Hp by (by intros [? ?]). cbn in Hp.
    by rewrite union_empty_r_L in Hp.
Qed.

Lemma book_op_implements io op b a :
  io_write io = true -> implements b a ->
  implements (fst (book_op io op b)) (fst (owned_op op a)) /\
  snd (book_op io op b) = snd (owned_op op a).
Proof.
  intros Hw Hi. destruct op; cbn [book_op fst snd].
  - split; [by apply opened_implements|done].
  - by apply closed_implements.
  - split; [by apply closed_orphan_implements|done].
  - split; [by apply purge_implements|done].
Qed.

Lemma book_new_implements d :
  implements (book_new d) (fun id => pair None <$> sink_lookup d id).
Proof.
  intros id. unfold owner. cbn. rewrite lookup_empty.
  destruct (sink_lookup d id); cbn; split_and!; set_solver.
Qed.

Lemma book_run_implements ops b a :
  Forall (fun p => io_write (fst p) = true) ops -> implements b a ->
  implements (fst (book_run ops b)) (fst (owned_run (map snd ops) a)) /\
  snd (book_run ops b) = snd (owned_run (map snd ops) a).
Proof.
  intros Hio. revert b a. induction Hio as [|[io op] ops Hw _ IH]; intros b a Hi; [done|].
  cbn [book_run map snd owned_run].
  destruct (book_op_implements io op b a Hw Hi) as [Hb Hr].
  destruct (book_op io op b) as [b1 r], (owned_op op a) as [a1 r'].
  destruct (IH b1 a1 Hb) as [Hb2 Hrs].
  destruct (book_run ops b1) as [b2 rs], (owned_run (map snd ops) a1) as [a2 rs'].
  cbn in *. by subst.
Qed.
End BookProperties.

(** ** The file obeys the laws *)

Definition disk_lookup (d : Disk) (id : text) : option ReconciliationRecord :=
  List.find (fun r => bool_decide (rr_id r = id)) (load_records d).

Lemma find_update id host since records j :
  List.find (fun r => bool_decide (rr_id r = j))
    (default (records ++ [{| rr_id := id; rr_host := host; rr_connected_since := since |}])
       (update_record id host since records)) =
  if decide (j = id)
  then Some {| rr_id := id; rr_host := host; rr_connected_since := since |}
  else List.find (fun r => bool_decide (rr_id r = j)) records.
Proof.
  induction records as [|r rest IH]; cbn.
  - case_bool_decide; case_decide; congruence.
  - case_bool_decide as Hr.
    + cbn. rewrite Hr. case_bool_decide; case_decide; congruence.
    + revert IH. destruct (update_record id host since rest); cbn; intros IH;
        case_bool_decide; try exact IH; case_decide; congruence.
Qed.

Lemma find_filter (f : text -> bool) records j :
  List.find (fun r => bool_decide (rr_id r = j)) (List.filter (fun r => negb (f (rr_id r))) records) =
  if f j then None else List.find (fun r => bool_decide (rr_id r = j)) records.
Proof.
  induction records as [|r rest IH]; cbn; [by destruct (f j)|].
  destruct (f (rr_id r)) eqn:Hf; cbn.
  - rewrite IH. case_bool_decide; subst; [by rewrite Hf|done].
  - case_bool_decide; subst; [by rewrite Hf|done].
Qed.

#[global] Program Instance JsonSinkLaws : SinkLaws Disk := {| sink_lookup := disk_lookup |}.
Next Obligation.
  intros id host since d j. unfold disk_lookup, record_open, JsonReconciliationSink, json_record_open.
  cbn. rewrite <- (find_update id host since). by destruct (update_record _ _ _ _).
Qed.
Next Obligation.
  intros id d j. unfold disk_lookup, record_closed, JsonReconciliationSink, json_record_closed.
  cbn [save_records fst load_records default].
  etransitivity; [exact (find_filter (fun i => bool_decide (i = id)) (load_records d) j)|].
  by case_bool_decide; case_decide.
Qed.
Next Obligation.
  intros ok ids d j. unfold disk_lookup. cbn. unfold json_remove_records, save_records.
  destruct ok; cbn; [|done].
  etransitivity;
    [exact (find_filter (fun i => existsb (fun id => bool_decide (id = i)) ids) (load_records d) j)|].
  assert (existsb (fun id => bool_decide (id = j)) ids = bool_decide (j ∈ ids)) as ->; [|done].
  apply eq_true_iff_eq. rewrite existsb_exists, bool_decide_eq_true.
  setoid_rewrite bool_decide_eq_true. setoid_rewrite <- list_elem_of_In. naive_solver.
Qed.

(** ** The record book is right *)

(** C19: the record book keeps what it promises.  Whatever the operations on
    a book over a file, in whatever order generations come and go, as long as
    the writes of opens and closes reach the file (a removal may fail and is
    retried): the owner of each record and the answers of [closed] are those
    of the specification, and the file holds for each id exactly the record
    of the specification, but for records whose removal is still pending,
    which the specification has dropped. *)
Theorem book_refines (ops : list (Io * BookOp)) (d : Disk) :
  Forall (fun p => io_write (fst p) = true) ops ->
  let '(b, answers) := book_run ops (book_new d) in
  let '(a, answers') := owned_run (map snd ops) (fun id => pair None <$> disk_lookup d id) in
  answers = answers' /\
  forall id, bk_open b !! id = owner a id /\
    (id ∈ bk_pending b -> a id = None) /\
    (id ∉ bk_pending b -> disk_lookup (bk_sink b) id = snd <$> a id).
Proof.
  intros Hio. pose proof (book_run_implements ops (book_new d) _ Hio (book_new_implements d)) as [Hi Hr].
  destruct (book_run ops (book_new d)) as [b answers].
  change (sink_lookup d) with (disk_lookup d) in *.
  destruct (owned_run (map snd ops) _) as [a answers']. split; [exact Hr|exact Hi].
Qed.

(** A session of generation 1 is replaced by one of generation 2 under its
    name; a late close of the first does nothing.  The removal of an orphan
    fails once and is done by the next write. *)
Lemma book_refines_witness :
  let ops :=
    [({| io_write := true; io_flush := false |}, OpClosedOrphan (txt "old"));
     ({| io_write := true; io_flush := true |}, OpOpened (txt "a") 1 (txt "h") (txt "t1"));
     ({| io_write := true; io_flush := true |}, OpOpened (txt "a") 2 (txt "h") (txt "t2"));
     ({| io_write := true; io_flush := true |}, OpClosed (txt "a") 1)] in
  let d := Some [{| rr_id := txt "old"; rr_host := txt "h"; rr_connected_since := txt "t0" |}] in
  Forall (fun p => io_write (fst p) = true) ops /\
  bk_sink (fst (book_run ops (book_new d))) =
    Some [{| rr_id := txt "a"; rr_host := txt "h"; rr_connected_since := txt "t2" |}] /\
  snd (owned_run (map snd ops) (fun id => pair None <$> disk_lookup d id)) = [true; true; true; false].
Proof.
  intros ops d. assert (Forall (fun p => io_write (fst p) = true) ops) as Hio.
  { repeat constructor. }
  split; [exact Hio|]. pose proof (book_refines ops d Hio) as Hb.
  split; [by vm_compute|].
  destruct (book_run ops (book_new d)) as [b answers] eqn:Eb.
  destruct (owned_run (map snd ops) _) as [a answers']. destruct Hb as [<- _].
  assert (answers = snd (book_run ops (book_new d))) as -> by (by rewrite Eb). by vm_compute.
Defined.
