(* ===== verification/Registry.v ===== *)
(** * The session registry ([crates/rdpilot-daemon/src/registry.rs], the
      entries of [seams.rs], [crates/rdpilot/src/lifecycle.rs] and the reaper
      of [lifecycle.rs])

    [Registry] is the map behind the registry mutex with the counter of
    generations.  Every critical section of that mutex is one function.  What
    a [Live] entry shares with other tasks by an [Arc] (the session's
    lifecycle, its control, the count of Cua leases, the bootstrap mark) is
    [Shared]; the functions read it through [sh], by the generation of the
    entry, which names one session.  A [Connecting] entry's cancel handle is
    that of its attempt; RegistrySystem.v keeps it with the attempt.

    A [HashMap] has no fixed order: its listings are those of [map_to_list],
    and the theorems speak of membership. *)
From S2P Require Import Prelude Calendar Events Control Records.
Open Scope Z_scope.

(** ** The lifecycle of a session ([rdpilot/src/lifecycle.rs]) *)

Inductive EndCause :=
| ServerEnded (reason : text)
| ClientClosed
| EndError (message : text).

Inductive Lifecycle := LifecycleLive | LifecycleEnded (cause : EndCause).

#[global] Instance EndCause_eq_dec : EqDecision EndCause.
Proof. solve_decision. Defined.
#[global] Instance Lifecycle_eq_dec : EqDecision Lifecycle.
Proof. solve_decision. Defined.

(** [Display for EndCause] *)
Definition end_cause_text (c : EndCause) : text :=
  match c with
  | ServerEnded reason => txt "the server ended the session: " ++ reason
  | ClientClosed => txt "the session was closed"
  | EndError message => txt "the session failed: " ++ message
  end.

(** [LifecycleOwner::end]: the first cause wins. *)
Definition lifecycle_end (cause : EndCause) (l : Lifecycle) : Lifecycle :=
  match l with LifecycleLive => LifecycleEnded cause | LifecycleEnded _ => l end.

(** ** Session ids *)

(** [SessionId::from_str] *)
Definition session_id (s : text) : result text text :=
  match s with [] => Err (txt "session id must not be empty") | _ :: _ => Ok s end.

Definition ADJECTIVES : list text :=
  [txt "brave"; txt "quiet"; txt "swift"; txt "calm"; txt "bold"; txt "clever"; txt "gentle";
   txt "lucky"; txt "quick"; txt "wise"; txt "eager"; txt "sunny"; txt "amber"; txt "civil";
   txt "dapper"; txt "earnest"].
Definition NOUNS : list text :=
  [txt "otter"; txt "falcon"; txt "badger"; txt "heron"; txt "lynx"; txt "raven"; txt "wolf";
   txt "fox"; txt "hawk"; txt "owl"; txt "otter2"; txt "marten"; txt "kestrel"; txt "beetle";
   txt "sparrow"; txt "cricket"].
Definition AUTO_ID_MAX_ATTEMPTS : nat := 32.

(** [generate_auto_id], of the hash it computes (a [u64]). *)
Definition generate_auto_id (seed : Z) : text :=
  nth (Z.to_nat (seed mod Z.of_nat (length ADJECTIVES))) ADJECTIVES [] ++ txt "-" ++
  nth (Z.to_nat (Z.shiftr seed 32 mod Z.of_nat (length NOUNS))) NOUNS [].

(** ** Entries *)

Inductive CancelCause := CancelDisconnect.

(** A [Live] entry, without its [Arc]s. *)
Record LiveEntry := {
  le_generation : Z;
  le_connected_since : Z; le_connected_since_wall : text;
  le_name : option text; le_host : text;
  le_last_activity : Z; le_last_activity_wall : text;
  le_frame : bool;                (** whether it has a frame source *)
  le_ended_seen : option Z }.

Inductive SessionEntry :=
| Connecting (claimed_at attempt : Z)
| Live (l : LiveEntry)
| Orphaned (seeded_at : Z) (host connected_since : text).

Inductive SessionLifecycle :=
| StConnecting | StLive | StReconnecting | StDisconnected | StOrphaned.

Record SessionStatus := {
  ss_id : text; ss_name : option text; ss_host : text; ss_status : SessionLifecycle;
  ss_connected_since : option text; ss_last_activity : option text;
  ss_recording : option text; ss_controller : option WireController }.

(** [ConnectLease]; the bootstrap mark is in [Shared]. *)
Record ConnectLease := { cl_id : text; cl_generation : Z }.

(** [Removal] *)
Inductive Removal := Retention | DaemonExit.
Definition removal_describe (r : Removal) : text :=
  match r with Retention => txt "after the retention period" | DaemonExit => txt "at daemon exit" end.

Definition connect_cancelled : DaemonError :=
  ConnectError (txt "connect cancelled before the session was registered").
Definition cancelled_by (cause : CancelCause) : DaemonError :=
  match cause with CancelDisconnect => ConnectError (txt "connect cancelled by disconnect") end.

Record Registry := { rg_sessions : gmap text SessionEntry; rg_next : Z }.

Definition registry_new : Registry := {| rg_sessions := ∅; rg_next := 1 |}.

Definition set_sessions (r : Registry) (m : gmap text SessionEntry) : Registry :=
  {| rg_sessions := m; rg_next := rg_next r |}.

(** ** Claims *)

(** [Registry::claim].  The counter of generations wraps around. *)
Definition claim (now : Z) (id : text) (r : Registry) : Registry * result DaemonError Z :=
  match rg_sessions r !! id with
  | Some _ => (r, Err (DuplicateSession id))
  | None =>
      let attempt := rg_next r in
      ({| rg_sessions := <[id := Connecting now attempt]> (rg_sessions r);
          rg_next := (rg_next r + 1) mod 2 ^ 64 |}, Ok attempt)
  end.

(** [Registry::claim_with_auto_id]: [seeds] are the hashes drawn, [others] is
    what other tasks do to the registry before each claim. *)
Fixpoint auto_id_loop (n : nat) (now : Z) (seeds : nat -> Z) (others : nat -> Registry -> Registry)
    (r : Registry) : Registry * result DaemonError (text * Z) :=
  match n with
  | O => (r, Err (ConnectError
            (txt "could not mint a unique auto-generated session id after repeated attempts")))
  | Datatypes.S n =>
      let i := (AUTO_ID_MAX_ATTEMPTS - Datatypes.S n)%nat in
      let r := others i r in
      match session_id (generate_auto_id (seeds i)) with
      | Err _ => auto_id_loop n now seeds others r
      | Ok id =>
          match claim now id r with
          | (r, Ok attempt) => (r, Ok (id, attempt))
          | (r, Err _) => auto_id_loop n now seeds others r
          end
      end
  end.
Definition claim_with_auto_id := auto_id_loop AUTO_ID_MAX_ATTEMPTS.

(** [Registry::cancel_connecting] *)
Definition cancel_connecting (lease : ConnectLease) (r : Registry) : Registry * bool :=
  match rg_sessions r !! cl_id lease with
  | Some (Connecting _ attempt) =>
      if attempt =? cl_generation lease
      then (set_sessions r (delete (cl_id lease) (rg_sessions r)), true) else (r, false)
  | _ => (r, false)
  end.

(** The promotion in [Registry::open_tracked]: only the placeholder of this
    attempt becomes the entry [l]. *)
Definition promote (id : text) (l : LiveEntry) (r : Registry) : Registry * bool :=
  match rg_sessions r !! id with
  | Some (Connecting _ current) =>
      if current =? le_generation l
      then (set_sessions r (<[id := Live l]> (rg_sessions r)), true) else (r, false)
  | _ => (r, false)
  end.

Definition new_entry (generation : Z) (name : option text) (host : text) (frame : bool)
    (now wall : Z) : LiveEntry :=
  {| le_generation := generation;
     le_connected_since := now; le_connected_since_wall := iso8601_from_system_time wall;
     le_name := name; le_host := host;
     le_last_activity := now; le_last_activity_wall := iso8601_from_system_time wall;
     le_frame := frame; le_ended_seen := None |}.

(** [Registry::seed_orphan] *)
Definition seed_orphan (now : Z) (id host connected_since : text) (r : Registry) : Registry :=
  set_sessions r (<[id := Orphaned now host connected_since]> (rg_sessions r)).

(** [seed_into] of [reconcile.rs]: the registry, and the ids to purge from
    the records. *)
Fixpoint seed_into (now : Z) (records : list ReconciliationRecord) (r : Registry)
  : Registry * list text :=
  match records with
  | [] => (r, [])
  | record :: records =>
      match session_id (rr_id record) with
      | Ok id =>
          let '(r, seeded) :=
            seed_into now records (seed_orphan now id (rr_host record) (rr_connected_since record) r) in
          (r, id :: seeded)
      | Err _ => seed_into now records r
      end
  end.

(** [Registry::len] and [Registry::is_empty] *)
Definition registry_len (r : Registry) : nat := size (rg_sessions r).
Definition registry_is_empty (r : Registry) : bool := (registry_len r =? 0)%nat.

(** [Registry::touch_generation] *)
Definition touch_generation (id : text) (expected now wall : Z) (r : Registry) : Registry * bool :=
  match rg_sessions r !! id with
  | Some (Live l) =>
      if le_generation l =? expected then
        (set_sessions r (<[id := Live
           {| le_generation := le_generation l;
              le_connected_since := le_connected_since l;
              le_connected_since_wall := le_connected_since_wall l;
              le_name := le_name l; le_host := le_host l;
              le_last_activity := now; le_last_activity_wall := iso8601_from_system_time wall;
              le_frame := le_frame l; le_ended_seen := le_ended_seen l |}]> (rg_sessions r)), true)
      else (r, false)
  | _ => (r, false)
  end.

(** [Registry::close_if_generation], its critical section *)
Definition generation_take (lease : ConnectLease) (r : Registry) : Registry * option LiveEntry :=
  match rg_sessions r !! cl_id lease with
  | Some (Live l) =>
      if le_generation l =? cl_generation lease
      then (set_sessions r (delete (cl_id lease) (rg_sessions r)), Some l) else (r, None)
  | _ => (r, None)
  end.

(** What the critical section of [Registry::close_with] finds. *)
Inductive CloseTake :=
| TkCancelled (attempt : Z)       (** a connect in flight; its cause is sent *)
| TkStillConnecting
| TkLive (l : LiveEntry)
| TkOrphaned
| TkNotFound.

(** [Registry::close_with]; [disconnect] is the reason [Disconnect], the
    other is [IdleReap]. *)
Definition close_take (id : text) (reason : CloseReason) (r : Registry) : Registry * CloseTake :=
  match rg_sessions r !! id with
  | Some (Connecting _ attempt) =>
      match reason with
      | Disconnect => (set_sessions r (delete id (rg_sessions r)), TkCancelled attempt)
      | _ => (r, TkStillConnecting)
      end
  | Some (Live l) => (set_sessions r (delete id (rg_sessions r)), TkLive l)
  | Some (Orphaned _ _ _) => (set_sessions r (delete id (rg_sessions r)), TkOrphaned)
  | None => (r, TkNotFound)
  end.

(** ** What reads the shared objects *)

Section Shared.
Context {S : Type} `{EventSink S}.

Record Shared := {
  sh_lifecycle : Lifecycle; sh_control : Ctl S; sh_cua_leases : Z; sh_bootstrapping : bool }.

(** The objects [Registry::open_tracked] makes for a delivered session. *)
Definition new_shared (l : Lifecycle) (log_id session : text) (generation : Z)
    (frame has_input : bool) (now wall epoch_confirm_wait : Z) (bootstrap : bool) : Shared :=
  {| sh_lifecycle := l;
     sh_control := ctl_new session generation (ev_new log_id session generation frame now wall)
                     has_input epoch_confirm_wait;
     sh_cua_leases := 0; sh_bootstrapping := bootstrap |}.

(** [end_lease_on_close]; with an immediate discharge, also
    [end_lease_of_ended]. *)
Definition end_lease_on_close (k : Clk) (c : Ctl S) : Ctl S :=
  match end_human_ended c k with
  | (c, Some _) => drop_transition c
  | (c, None) => c
  end.

Variable sh : Z -> Shared.

(** [SessionEntry::end_cause] *)
Definition end_cause (e : SessionEntry) : option EndCause :=
  match e with
  | Live l => match sh_lifecycle (sh (le_generation l)) with
              | LifecycleLive => None
              | LifecycleEnded cause => Some cause
              end
  | _ => None
  end.

Definition has_ended (e : SessionEntry) : bool := bool_decide (is_Some (end_cause e)).

(** [lifecycle_status] *)
Definition lifecycle_status (l : Lifecycle) : SessionLifecycle :=
  match l with LifecycleLive => StLive | LifecycleEnded _ => StDisconnected end.

(** [SessionEntry::to_status] *)
Definition to_status (id : text) (e : SessionEntry) : SessionStatus :=
  match e with
  | Connecting _ _ =>
      {| ss_id := id; ss_name := None; ss_host := []; ss_status := StConnecting;
         ss_connected_since := None; ss_last_activity := None; ss_recording := None;
         ss_controller := None |}
  | Live l =>
      let s := sh (le_generation l) in
      let last_activity :=
        match human_activity (sh_control s) with
        | Some (at_, wall) => if le_last_activity l <? at_ then iso8601_from_system_time wall
                              else le_last_activity_wall l
        | None => le_last_activity_wall l
        end in
      {| ss_id := id; ss_name := le_name l; ss_host := le_host l;
         ss_status := lifecycle_status (sh_lifecycle s);
         ss_connected_since := Some (le_connected_since_wall l);
         ss_last_activity := Some last_activity; ss_recording := None;
         ss_controller := Some (controller (sh_control s)) |}
  | Orphaned _ host since =>
      {| ss_id := id; ss_name := None; ss_host := host; ss_status := StOrphaned;
         ss_connected_since := Some since; ss_last_activity := None; ss_recording := None;
         ss_controller := None |}
  end.

(** [Registry::status_of]; [recording_of] is the recording service's answer
    for a log id. *)
Definition status_of (recording_of : text -> option text) (id : text) (e : SessionEntry)
  : SessionStatus :=
  let status := to_status id e in
  match e with
  | Live l =>
      {| ss_id := ss_id status; ss_name := ss_name status; ss_host := ss_host status;
         ss_status := ss_status status; ss_connected_since := ss_connected_since status;
         ss_last_activity := ss_last_activity status;
         ss_recording := recording_of (lh_log_id (ev_header (c_events (sh_control (sh (le_generation l))))));
         ss_controller := ss_controller status |}
  | _ => status
  end.

(** [Registry::list] *)
Definition list_sessions (recording_of : text -> option text) (r : Registry) : list SessionStatus :=
  map (fun p => status_of recording_of (fst p) (snd p)) (map_to_list (rg_sessions r)).

(** [ViewerSession] and [Registry::viewer_sessions] *)
Record ViewerSession := {
  vs_status : SessionStatus; vs_ended : bool; vs_frames : bool; vs_input : bool }.
Definition viewer_session (recording_of : text -> option text) (id : text) (e : SessionEntry)
  : option ViewerSession :=
  match e with
  | Orphaned _ _ _ => None
  | _ =>
      let status := status_of recording_of id e in
      Some {| vs_status := status;
              vs_ended := match ss_status status with StDisconnected => true | _ => false end;
              vs_frames := match e with Live l => le_frame l | _ => false end;
              vs_input := match e with Live l => c_has_input (sh_control (sh (le_generation l)))
                          | _ => false end |}
  end.
Definition viewer_sessions (recording_of : text -> option text) (r : Registry) : list ViewerSession :=
  omap (fun p => viewer_session recording_of (fst p) (snd p)) (map_to_list (rg_sessions r)).

(** [refuse_ended], [not_live] *)
Definition refuse_ended (id : text) (e : option SessionEntry) : result DaemonError unit :=
  match and_then e end_cause with
  | Some cause => Err (DeSessionEnded id (end_cause_text cause))
  | None => Ok tt
  end.
Definition not_live (id : text) (e : option SessionEntry) : DaemonError :=
  match e with Some (Connecting _ _) => StillConnecting id | _ => SessionNotFound id end.

(** The lookup that [Registry::live_session], [Registry::transfer],
    [Registry::takeover] and [Registry::attach_cua] share. *)
Definition live_entry (id : text) (r : Registry) : result DaemonError LiveEntry :=
  let found := rg_sessions r !! id in
  match refuse_ended id found with
  | Err e => Err e
  | Ok _ => match found with Some (Live l) => Ok l | _ => Err (not_live id found) end
  end.

(** [Registry::recording_target_of] *)
Definition recording_target_of (id : text) (start : bool) (r : Registry) : result DaemonError LiveEntry :=
  let found := rg_sessions r !! id in
  match (if start then refuse_ended id found else Ok tt) with
  | Err e => Err e
  | Ok _ => match found with Some (Live l) => Ok l | _ => Err (not_live id found) end
  end.

(** [Registry::control]: the generation whose control it is. *)
Definition control_of (id : text) (r : Registry) : option Z :=
  match rg_sessions r !! id with
  | Some (Live l as e) => if has_ended e then None else Some (le_generation l)
  | _ => None
  end.

(** [Registry::controls] *)
Definition controls (r : Registry) : list Z :=
  omap (fun p => match snd p with Live l => Some (le_generation l) | _ => None end)
       (map_to_list (rg_sessions r)).

(** [ControlRefusal], as far as the registry gives it *)
Inductive ControlRefusal := NoSession | RefusedTake (e : TakeError).

(** [Registry::take_parts] *)
Definition take_parts (id : text) (r : Registry) : result ControlRefusal Z :=
  match rg_sessions r !! id with
  | Some (Live l as e) =>
      let s := sh (le_generation l) in
      if negb (has_ended e) && c_has_input (sh_control s) then
        if sh_bootstrapping s then Err (RefusedTake Busy) else Ok (le_generation l)
      else Err NoSession
  | _ => Err NoSession
  end.

(** [FrameLookup] and [Registry::frame_source]; [EventsLookup] and
    [ViewerRegistry::events] differ in what they look for only. *)
Inductive Lookup (A : Type) := LkFound (a : A) | LkUnavailable | LkClosed.
Arguments LkFound {A} a.
Arguments LkUnavailable {A}.
Arguments LkClosed {A}.
Definition frame_source (id : text) (r : Registry) : Lookup Z :=
  match rg_sessions r !! id with
  | Some (Live l) => if le_frame l then LkFound (le_generation l) else LkUnavailable
  | Some _ => LkUnavailable
  | None => LkClosed
  end.
Definition events_lookup (id : text) (r : Registry) : Lookup Z :=
  match rg_sessions r !! id with
  | Some (Live l) => LkFound (le_generation l)
  | Some _ => LkUnavailable
  | None => LkClosed
  end.

(** [Registry::holds_active] *)
Definition entry_active (e : SessionEntry) : bool :=
  match e with Connecting _ _ => true | Live _ => negb (has_ended e) | Orphaned _ _ _ => false end.
Definition holds_active (r : Registry) : bool :=
  existsb (fun p => entry_active (snd p)) (map_to_list (rg_sessions r)).

(** [Registry::release_name], its critical section *)
Inductive ReleaseTake := RlOrphaned | RlLive (l : LiveEntry) | RlNone.
Definition release_take (id : text) (r : Registry) : Registry * ReleaseTake :=
  match rg_sessions r !! id with
  | Some (Orphaned _ _ _) => (set_sessions r (delete id (rg_sessions r)), RlOrphaned)
  | Some (Live l as e) =>
      if has_ended e then (set_sessions r (delete id (rg_sessions r)), RlLive l) else (r, RlNone)
  | _ => (r, RlNone)
  end.

(** ** The retention sweep and the idle reaper *)

(** [*ended_seen.get_or_insert(now)] for an ended session *)
Definition stamp_ended (now : Z) (e : SessionEntry) : SessionEntry :=
  match e with
  | Live l =>
      if has_ended e then
        Live {| le_generation := le_generation l;
                le_connected_since := le_connected_since l;
                le_connected_since_wall := le_connected_since_wall l;
                le_name := le_name l; le_host := le_host l;
                le_last_activity := le_last_activity l;
                le_last_activity_wall := le_last_activity_wall l;
                le_frame := le_frame l;
                le_ended_seen := Some (default now (le_ended_seen l)) |}
      else e
  | _ => e
  end.

(** Since when a stamped entry is retained; [None] when it is not to go. *)
Definition retained_since (now : Z) (e : SessionEntry) : option Z :=
  match e with
  | Orphaned seeded_at _ _ => Some seeded_at
  | Live l => if has_ended e then Some (default now (le_ended_seen l)) else None
  | Connecting _ _ => None
  end.

Definition is_due (now retention : Z) (e : SessionEntry) : bool :=
  match retained_since now e with
  | Some since => retention <=? saturating_sub now since
  | None => false
  end.

(** The critical section of [Registry::expire_retained]: what stays, and what
    was removed. *)
Definition expire_take (now retention : Z) (r : Registry) : Registry * gmap text SessionEntry :=
  let m := stamp_ended now <$> rg_sessions r in
  (set_sessions r (filter (fun p => is_due now retention (snd p) = false) m),
   filter (fun p => is_due now retention (snd p) = true) m).

(** [Registry::live_idle_durations] *)
Definition idle_of (now : Z) (e : SessionEntry) : option Z :=
  match e with
  | Live l =>
      let s := sh (le_generation l) in
      if negb (has_ended e) && (sh_cua_leases s =? 0) && negb (human_active (sh_control s)) then
        let latest := match human_activity (sh_control s) with
                      | Some (at_, _) => Z.max at_ (le_last_activity l)
                      | None => le_last_activity l end in
        Some (saturating_sub now latest)
      else None
  | _ => None
  end.
Definition live_idle_durations (now : Z) (r : Registry) : list (text * Z) :=
  map_to_list (omap (idle_of now) (rg_sessions r)).

(** [LifecycleConfig] (durations in nanoseconds) *)
Record LifecycleConfig := {
  lc_idle_timeout : Z; lc_empty_grace : Z; lc_reap_interval : Z; lc_retention : Z }.
Definition LifecycleConfig_default : LifecycleConfig :=
  {| lc_idle_timeout := seconds 1800; lc_empty_grace := seconds 30;
     lc_reap_interval := seconds 15; lc_retention := seconds 3600 |}.

(** [env_millis] and [LifecycleConfig::from_env] *)
Definition env_millis (value : option text) : option Z :=
  match and_then value (parse_unsigned (Z.to_N u64_max)) with
  | Some ms => Some (Z.of_N ms * 1000000)
  | None => None
  end.
Definition lifecycle_from_env (idle_timeout empty_grace reap_interval retention : option text)
  : LifecycleConfig :=
  let d := LifecycleConfig_default in
  {| lc_idle_timeout := default (lc_idle_timeout d) (env_millis idle_timeout);
     lc_empty_grace := default (lc_empty_grace d) (env_millis empty_grace);
     lc_reap_interval := default (lc_reap_interval d) (env_millis reap_interval);
     lc_retention := default (lc_retention d) (env_millis retention) |}.

(** The sessions one tick of [idle_reaper] closes, after its sweep. *)
Definition stale_sessions (now : Z) (cfg : LifecycleConfig) (r : Registry) : list text :=
  map fst (List.filter (fun p => lc_idle_timeout cfg <=? snd p) (live_idle_durations now r)).
End Shared.
Arguments Shared : clear implicits.

(** ** What the sweep and the reaper do *)

Section RegistryProperties.
Context {S : Type} `{EventSink S}.
Implicit Types (sh : Z -> Shared S) (r : Registry) (e : SessionEntry).

Lemma stamp_due sh now retention e :
  is_due sh now retention (stamp_ended sh now e) = is_due sh now retention e.
Proof.
  destruct e as [| l |]; try done. unfold is_due, retained_since, stamp_ended.
  destruct (has_ended sh (Live l)) eqn:E; [|by rewrite E].
  unfold has_ended, end_cause in *. cbn in *. by rewrite E.
Qed.

Lemma expire_lookup sh now retention r id :
  rg_sessions (fst (expire_take sh now retention r)) !! id =
    (match rg_sessions r !! id with
     | Some e => if is_due sh now retention e then None else Some (stamp_ended sh now e)
     | None => None
     end) /\
  snd (expire_take sh now retention r) !! id =
    (match rg_sessions r !! id with
     | Some e => if is_due sh now retention e then Some (stamp_ended sh now e) else None
     | None => None
     end).
Proof.
  cbn. rewrite !map_lookup_filter, lookup_fmap. destruct (rg_sessions r !! id) as [e|]; [|done]. cbn.
  rewrite stamp_due. by destruct (is_due sh now retention e).
Qed.

(** Sweeps one after the other, each with its time and with the state of the
    shared objects then. *)
Fixpoint sweeps (retention : Z) (ss : list (Z * (Z -> Shared S))) (r : Registry) : Registry :=
  match ss with
  | [] => r
  | (now, sh) :: ss => sweeps retention ss (fst (expire_take sh now retention r))
  end.

Definition seen_at (l : LiveEntry) (s : option Z) : LiveEntry :=
  {| le_generation := le_generation l;
     le_connected_since := le_connected_since l;
     le_connected_since_wall := le_connected_since_wall l;
     le_name := le_name l; le_host := le_host l;
     le_last_activity := le_last_activity l; le_last_activity_wall := le_last_activity_wall l;
     le_frame := le_frame l; le_ended_seen := s |}.

Lemma sweeps_gone retention ss r id :
  rg_sessions r !! id = None -> rg_sessions (sweeps retention ss r) !! id = None.
Proof.
  revert r. induction ss as [|[now sh] ss IH]; intros r Hr; [done|]. cbn [sweeps]. apply IH.
  rewrite (proj1 (expire_lookup sh now retention r id)). by rewrite Hr.
Qed.

Definition ended_at (sh : Z -> Shared S) (g : Z) : Prop :=
  exists cause, sh_lifecycle (sh g) = LifecycleEnded cause.

Lemma sweep_ended sh now retention r id l :
  rg_sessions r !! id = Some (Live l) -> ended_at sh (le_generation l) ->
  let since := default now (le_ended_seen l) in
  rg_sessions (fst (expire_take sh now retention r)) !! id =
  if retention <=? saturating_sub now since then None else Some (Live (seen_at l (Some since))).
Proof.
  intros Hr [cause Hc] since. rewrite (proj1 (expire_lookup sh now retention r id)), Hr.
  assert (has_ended sh (Live l) = true) as He.
  { unfold has_ended, end_cause. by rewrite Hc. }
  unfold is_due, retained_since, stamp_ended. by rewrite He.
Qed.

Lemma sweeps_seen retention ss r id l s :
  0 < retention ->
  rg_sessions r !! id = Some (Live (seen_at l (Some s))) ->
  Forall (fun p => ended_at (snd p) (le_generation l)) ss ->
  rg_sessions (sweeps retention ss r) !! id =
  if forallb (fun p => fst p - s <? retention) ss then Some (Live (seen_at l (Some s))) else None.
Proof.
  intros Hret. revert r. induction ss as [|[now sh] ss IH]; intros r Hr Hss; [done|].
  inversion_clear Hss as [|? ? Hnow Hss']. cbn [sweeps forallb fst snd] in *.
  pose proof (sweep_ended sh now retention r id _ Hr Hnow) as Hsw.
  change (default now (le_ended_seen (seen_at l (Some s)))) with s in Hsw.
  unfold saturating_sub in Hsw. destruct (Z.ltb_spec (now - s) retention); cbn [andb].
  - rewrite (proj2 (Z.leb_gt _ _)) in Hsw by lia. by apply IH.
  - rewrite (proj2 (Z.leb_le _ _)) in Hsw by lia. by apply sweeps_gone.
Qed.

(** An ended session stays listed for one retention period after the
    sweep that first sees it ended, and no longer.  Of the sweeps that follow
    each other while its entry is not otherwise removed, the first stamps the
    time, and the entry is still there after all of them exactly when none
    came a full period after the first. *)
Theorem ended_session_is_retained (retention t : Z) sh (ss : list (Z * (Z -> Shared S))) r id l :
  0 < retention ->
  rg_sessions r !! id = Some (Live l) -> le_ended_seen l = None ->
  ended_at sh (le_generation l) -> Forall (fun p => ended_at (snd p) (le_generation l)) ss ->
  rg_sessions (sweeps retention ((t, sh) :: ss) r) !! id =
  if forallb (fun p => fst p - t <? retention) ss then Some (Live (seen_at l (Some t))) else None.
Proof.
  intros Hret Hr Hseen Hsh Hss. cbn [sweeps].
  pose proof (sweep_ended sh t retention r id l Hr Hsh) as Hsw.
  rewrite Hseen in Hsw. cbn zeta in Hsw. change (default t None) with t in Hsw.
  unfold saturating_sub in Hsw. rewrite Z.sub_diag, (proj2 (Z.leb_gt _ _)) in Hsw by lia.
  by apply sweeps_seen.
Qed.

Lemma idle_of_spec sh now e d :
  idle_of sh now e = Some d <->
  exists l, e = Live l /\ sh_lifecycle (sh (le_generation l)) = LifecycleLive /\
    sh_cua_leases (sh (le_generation l)) = 0 /\
    st_lease (c_state (sh_control (sh (le_generation l)))) = None /\
    d = saturating_sub now
          (match human_activity (sh_control (sh (le_generation l))) with
           | Some (at_, _) => Z.max at_ (le_last_activity l)
           | None => le_last_activity l end).
Proof.
  unfold idle_of. destruct e as [| l |].
  - split; [done|by intros (? & [=] & _)].
  - unfold has_ended, end_cause, human_active.
    destruct (sh_lifecycle (sh (le_generation l))) eqn:El; cbn.
    2: { split; [done|]. intros (l' & [= <-] & ? & _). congruence. }
    destruct (Z.eqb_spec (sh_cua_leases (sh (le_generation l))) 0) as [Hc|Hc]; cbn.
    2: { split; [done|]. by intros (l' & [= <-] & ? & ? & _). }
    destruct (st_lease (c_state (sh_control (sh (le_generation l))))) eqn:Es.
    + rewrite bool_decide_eq_true_2 by eauto. cbn. split; [done|].
      intros (l' & [= <-] & ? & ? & ? & _). congruence.
    + rewrite bool_decide_eq_false_2 by (by intros [? ?]). cbn. split.
      * intros [= <-]. eauto 10.
      * intros (l' & [= <-] & _ & _ & _ & ->). done.
  - split; [done|by intros (? & [=] & _)].
Qed.

(** A tick of the idle reaper closes exactly the idle sessions: those
    connected and not ended, with no Cua stream attached, with nobody taking
    or holding control, and whose last activity, of an agent and of a human
    viewer, was [idle_timeout] ago or longer.  Connects in flight, orphans
    and ended sessions are never among them. *)
Theorem idle_reaper_exact sh (now : Z) (cfg : LifecycleConfig) r (id : text) :
  0 < lc_idle_timeout cfg ->
  id ∈ stale_sessions sh now cfg r <->
  exists l, rg_sessions r !! id = Some (Live l) /\
    sh_lifecycle (sh (le_generation l)) = LifecycleLive /\
    sh_cua_leases (sh (le_generation l)) = 0 /\
    st_lease (c_state (sh_control (sh (le_generation l)))) = None /\
    le_last_activity l + lc_idle_timeout cfg <= now /\
    forall at_ wall, st_human_activity (c_state (sh_control (sh (le_generation l)))) = Some (at_, wall) ->
      at_ + lc_idle_timeout cfg <= now.
Proof.
  intros Ht. unfold stale_sessions, live_idle_durations.
  rewrite list_elem_of_fmap. setoid_rewrite list_elem_of_In. setoid_rewrite filter_In.
  setoid_rewrite <- list_elem_of_In.
  assert (Hd : forall l d, d = saturating_sub now
      (match human_activity (sh_control (sh (le_generation l))) with
       | Some (at_, _) => Z.max at_ (le_last_activity l) | None => le_last_activity l end) ->
    (lc_idle_timeout cfg <=? d) = true <->
    le_last_activity l + lc_idle_timeout cfg <= now /\
    forall at_ wall, st_human_activity (c_state (sh_control (sh (le_generation l)))) = Some (at_, wall) ->
      at_ + lc_idle_timeout cfg <= now).
  { intros l d ->. rewrite Z.leb_le. unfold saturating_sub, human_activity.
    destruct (st_human_activity _) as [[a w]|].
    - split; [intros ?; split; [lia|intros ? ? [= <- <-]; lia]|].
      intros [? Hw]. specialize (Hw a w eq_refl). lia.
    - split; [intros ?; split; [lia|done]|]. intros [? _]. lia. }
  split.
  - intros ([i d] & -> & Hin & Hle). cbn [fst snd] in *.
    rewrite elem_of_map_to_list, lookup_omap in Hin.
    destruct (rg_sessions r !! i) as [e|] eqn:Ee; [|done]. change (idle_of sh now e = Some d) in Hin.
    apply idle_of_spec in Hin as (l & -> & ? & ? & ? & Hdd).
    exists l. split_and!; try done; by apply (Hd l d Hdd).
  - intros (l & Hl & Hlive & Hc & Hs & Hact).
    eexists (id, _). split; [done|]. rewrite elem_of_map_to_list, lookup_omap, Hl.
    split; [apply idle_of_spec; eauto 10|]. by apply (Hd l _ eq_refl).
Qed.
End RegistryProperties.

Module RegistryDemo.
Definition control : Ctl (list SessionEvent) :=
  ctl_new (txt "a") 1 (ev_new (txt "log") (txt "a") 1 false 0 0) true (seconds 6).
Definition shared (l : Lifecycle) (g : Z) : Shared (list SessionEvent) :=
  {| sh_lifecycle := l; sh_control := control; sh_cua_leases := 0; sh_bootstrapping := false |}.
Definition entry : LiveEntry := new_entry 1 (Some (txt "a")) (txt "host") true 0 0.
Definition registry : Registry := fst (promote (txt "a") entry (fst (claim 0 (txt "a") registry_new))).
End RegistryDemo.

(** Swept at 15 s, 30 s and then, an hour after the first sweep, again. *)
Lemma ended_session_is_retained_witness :
  let ended := RegistryDemo.shared (LifecycleEnded (ServerEnded (txt "bye"))) in
  rg_sessions (sweeps (seconds 3600) [(seconds 15, ended); (seconds 30, ended)]
                 RegistryDemo.registry) !! txt "a" =
    Some (Live (seen_at RegistryDemo.entry (Some (seconds 15)))) /\
  rg_sessions (sweeps (seconds 3600) [(seconds 15, ended); (seconds 30, ended); (seconds 3615, ended)]
                 RegistryDemo.registry) !! txt "a" = None.
Proof.
  intros ended. assert (He : ended_at ended (le_generation RegistryDemo.entry)) by (eexists; reflexivity).
  split.
  - rewrite (ended_session_is_retained (seconds 3600) (seconds 15) ended [(seconds 30, ended)]
               RegistryDemo.registry (txt "a") RegistryDemo.entry);
      [by vm_compute|done|by vm_compute|done|done|by repeat constructor].
  - rewrite (ended_session_is_retained (seconds 3600) (seconds 15) ended
               [(seconds 30, ended); (seconds 3615, ended)]
               RegistryDemo.registry (txt "a") RegistryDemo.entry);
      [by vm_compute|done|by vm_compute|done|done|by repeat constructor].
Defined.

Lemma idle_reaper_exact_witness :
  let live := RegistryDemo.shared LifecycleLive in
  0 < lc_idle_timeout LifecycleConfig_default /\
  txt "a" ∈ stale_sessions live (seconds 1800) LifecycleConfig_default RegistryDemo.registry /\
  txt "a" ∉ stale_sessions live (seconds 1799) LifecycleConfig_default RegistryDemo.registry.
Proof.
  intros live. assert (H0 : 0 < lc_idle_timeout LifecycleConfig_default) by done.
  split_and!; [done| |].
  - apply (idle_reaper_exact live (seconds 1800) LifecycleConfig_default RegistryDemo.registry _ H0).
    exists RegistryDemo.entry. do 4 (split; [vm_compute; reflexivity|]).
    split; [|discriminate]. apply Z.leb_le. vm_compute. reflexivity.
  - intros (l & Hl & _ & _ & _ & Ha & _)%(idle_reaper_exact live _ _ _ _ H0).
    assert (l = RegistryDemo.entry) as ->.
    { assert (Some (Live l) = Some (Live RegistryDemo.entry)) as [= ->]; [|done].
      rewrite <- Hl. vm_compute. reflexivity. }
    apply Z.leb_le in Ha. vm_compute in Ha. discriminate Ha.
Defined.
