(* ===== verification/RegistrySystem.v ===== *)
(** * Connects and closes in the registry, together
      ([crates/rdpilot-daemon/src/registry.rs])

    A transition system of [open_tracked] with its connect task and its
    guard, of every way a session is closed, and of the hook that handles the
    end of a session ([watch_session_end] of [events.rs]).  [step] has one
    rule per critical section or message, so the theorems hold of every
    interleaving.

    An [Attempt] is one call of [open_tracked], under the generation that its
    claim drew, with what only it, its connect task and its session share:
    the placeholder's cancel handle, the channel from the task, the session
    the connector made (if any), its end hook, and the objects of [Shared].
    [at_answer] only remembers the error the connector gave, for the theorems. *)
From S2P Require Import Prelude Calendar Events Control Records Registry.
Open Scope Z_scope.

(** ** The state *)

(** The cancel handle: in the placeholder, used to send a cause, or dropped. *)
Inductive Cancel := CcOpen | CcSent | CcDropped.

(** The connect task: connecting, closing a session nobody takes, or over. *)
Inductive ConnectTask := CtRunning | CtClosing | CtDone.

(** The channel from the connect task. *)
Inductive Wire := WEmpty | WSession | WError (e : DaemonError).

(** The future of [open_tracked]. *)
Inductive Opener :=
| OWaiting                       (** for the connect task *)
| ODropping                      (** [ConnectGuard::drop], past its [cancel_connecting] *)
| OFailing (e : DaemonError)     (** before the [cancel_connecting] of a failure *)
| OHave                          (** a session is delivered *)
| ORecorded                      (** and its record written *)
| ORefused                       (** not promoted *)
| OUnrecorded                    (** not promoted, record removed *)
| OClosing                       (** not promoted, closing the session *)
| OOk                            (** answered with the lease *)
| OErr (e : DaemonError)         (** answered with an error *)
| OGone.                         (** dropped *)

(** The session: none made yet, running, closing, closed. *)
Inductive SessionThread := SNone | SUp | SClosing | SClosed.

(** The end hook: none, watching, past the end, past its record, over. *)
Inductive EndHook := HNone | HWatch | HWoken | HLease | HOff.

#[global] Instance Cancel_eq_dec : EqDecision Cancel.
Proof. solve_decision. Defined.
#[global] Instance SessionThread_eq_dec : EqDecision SessionThread.
Proof. solve_decision. Defined.

(** A running [close_removed]. *)
Inductive ClosePhase :=
| KStart
| KRecord (ended : bool)         (** the hook is dropped *)
| KStop                          (** the record of an ended session is removed *)
| KAwait.                        (** the session's close was polled *)

Record Closer := {
  kl_id : text; kl_generation : Z;
  kl_drop : bool;                (** it runs in a future that may be dropped *)
  kl_phase : ClosePhase }.

Section RegistrySystem.
Context {S D : Type} `{EventSink S} `{ReconciliationSink D}.

Record Attempt := {
  at_id : text; at_name : option text; at_host : text; at_bootstrap : bool;
  at_cancel : Cancel; at_task : ConnectTask; at_wire : Wire; at_open : Opener;
  at_thread : SessionThread; at_hook : EndHook; at_shared : Shared S;
  at_answer : option DaemonError }.

Record World := {
  w_reg : Registry; w_book : Book D; w_att : gmap Z Attempt;
  w_closers : list Closer; w_orphans : list text }.

(** ** Updates *)

Definition set_cancel (v : Cancel) (a : Attempt) : Attempt :=
  {| at_id := at_id a; at_name := at_name a; at_host := at_host a; at_bootstrap := at_bootstrap a;
     at_cancel := v; at_task := at_task a; at_wire := at_wire a; at_open := at_open a;
     at_thread := at_thread a; at_hook := at_hook a; at_shared := at_shared a; at_answer := at_answer a |}.
Definition set_task (v : ConnectTask) (a : Attempt) : Attempt :=
  {| at_id := at_id a; at_name := at_name a; at_host := at_host a; at_bootstrap := at_bootstrap a;
     at_cancel := at_cancel a; at_task := v; at_wire := at_wire a; at_open := at_open a;
     at_thread := at_thread a; at_hook := at_hook a; at_shared := at_shared a; at_answer := at_answer a |}.
Definition set_wire (v : Wire) (a : Attempt) : Attempt :=
  {| at_id := at_id a; at_name := at_name a; at_host := at_host a; at_bootstrap := at_bootstrap a;
     at_cancel := at_cancel a; at_task := at_task a; at_wire := v; at_open := at_open a;
     at_thread := at_thread a; at_hook := at_hook a; at_shared := at_shared a; at_answer := at_answer a |}.
Definition set_open (v : Opener) (a : Attempt) : Attempt :=
  {| at_id := at_id a; at_name := at_name a; at_host := at_host a; at_bootstrap := at_bootstrap a;
     at_cancel := at_cancel a; at_task := at_task a; at_wire := at_wire a; at_open := v;
     at_thread := at_thread a; at_hook := at_hook a; at_shared := at_shared a; at_answer := at_answer a |}.
Definition set_thread (v : SessionThread) (a : Attempt) : Attempt :=
  {| at_id := at_id a; at_name := at_name a; at_host := at_host a; at_bootstrap := at_bootstrap a;
     at_cancel := at_cancel a; at_task := at_task a; at_wire := at_wire a; at_open := at_open a;
     at_thread := v; at_hook := at_hook a; at_shared := at_shared a; at_answer := at_answer a |}.
Definition set_hook (v : EndHook) (a : Attempt) : Attempt :=
  {| at_id := at_id a; at_name := at_name a; at_host := at_host a; at_bootstrap := at_bootstrap a;
     at_cancel := at_cancel a; at_task := at_task a; at_wire := at_wire a; at_open := at_open a;
     at_thread := at_thread a; at_hook := v; at_shared := at_shared a; at_answer := at_answer a |}.
Definition set_shared (v : Shared S) (a : Attempt) : Attempt :=
  {| at_id := at_id a; at_name := at_name a; at_host := at_host a; at_bootstrap := at_bootstrap a;
     at_cancel := at_cancel a; at_task := at_task a; at_wire := at_wire a; at_open := at_open a;
     at_thread := at_thread a; at_hook := at_hook a; at_shared := v; at_answer := at_answer a |}.

Definition set_answer (v : option DaemonError) (a : Attempt) : Attempt :=
  {| at_id := at_id a; at_name := at_name a; at_host := at_host a; at_bootstrap := at_bootstrap a;
     at_cancel := at_cancel a; at_task := at_task a; at_wire := at_wire a; at_open := at_open a;
     at_thread := at_thread a; at_hook := at_hook a; at_shared := at_shared a; at_answer := v |}.

Definition with_lifecycle (l : Lifecycle) (s : Shared S) : Shared S :=
  {| sh_lifecycle := l; sh_control := sh_control s; sh_cua_leases := sh_cua_leases s;
     sh_bootstrapping := sh_bootstrapping s |}.
Definition with_control (c : Ctl S) (s : Shared S) : Shared S :=
  {| sh_lifecycle := sh_lifecycle s; sh_control := c; sh_cua_leases := sh_cua_leases s;
     sh_bootstrapping := sh_bootstrapping s |}.

Definition lifecycle_of (a : Attempt) : Lifecycle := sh_lifecycle (at_shared a).

Definition with_att (g : Z) (a : Attempt) (w : World) : World :=
  {| w_reg := w_reg w; w_book := w_book w; w_att := <[g := a]> (w_att w);
     w_closers := w_closers w; w_orphans := w_orphans w |}.
Definition with_reg (r : Registry) (w : World) : World :=
  {| w_reg := r; w_book := w_book w; w_att := w_att w;
     w_closers := w_closers w; w_orphans := w_orphans w |}.
Definition with_book (b : Book D) (w : World) : World :=
  {| w_reg := w_reg w; w_book := b; w_att := w_att w;
     w_closers := w_closers w; w_orphans := w_orphans w |}.
Definition with_closers (l : list Closer) (w : World) : World :=
  {| w_reg := w_reg w; w_book := w_book w; w_att := w_att w;
     w_closers := l; w_orphans := w_orphans w |}.
Definition with_orphans (l : list text) (w : World) : World :=
  {| w_reg := w_reg w; w_book := w_book w; w_att := w_att w;
     w_closers := w_closers w; w_orphans := l |}.

(** The shared objects of a generation. *)
Definition shared_of (w : World) (g : Z) : Shared S :=
  match w_att w !! g with
  | Some a => at_shared a
  | None => new_shared LifecycleLive [] [] g false false 0 0 0 false
  end.

(** ** [open_tracked] and its connect task *)

Definition new_attempt (id : text) (name : option text) (host : text) (bootstrap : bool) (g : Z)
  : Attempt :=
  {| at_id := id; at_name := name; at_host := host; at_bootstrap := bootstrap;
     at_cancel := CcOpen; at_task := CtRunning; at_wire := WEmpty; at_open := OWaiting;
     at_thread := SNone; at_hook := HNone;
     at_shared := new_shared LifecycleLive [] id g false false 0 0 0 false; at_answer := None |}.

(** Whether the receiver of the channel is still open. *)
Definition receiving (a : Attempt) : bool :=
  match at_open a with OWaiting | ODropping => true | _ => false end.

(** The [close] of a session, up to its first wait. *)
Definition begin_close (a : Attempt) : Attempt :=
  set_thread SClosing (set_shared (with_lifecycle (lifecycle_end ClientClosed (lifecycle_of a))
                                     (at_shared a)) a).

(** The task sees its cancel handle used or dropped. *)
Definition connect_cancel (a : Attempt) : Attempt :=
  let a' := match at_cancel a with
            | CcSent => if receiving a then set_wire (WError (cancelled_by CancelDisconnect)) a else a
            | _ => a end in
  set_task CtDone a'.

(** The connector answers with an error, or with a session. *)
Definition connect_failed (e : DaemonError) (a : Attempt) : Attempt :=
  set_task CtDone (if receiving a then set_wire (WError e) a else a).
Definition connect_ready (a : Attempt) : Attempt :=
  if receiving a then set_task CtDone (set_thread SUp (set_wire WSession a))
  else set_task CtClosing (begin_close a).

(** What the wait of [open_tracked] ends with, other than a session. *)
Definition delivered_error (a : Attempt) : option DaemonError :=
  match at_wire a, at_task a with
  | WError e, _ => Some e
  | WEmpty, CtDone => Some connect_cancelled
  | _, _ => None
  end.

Definition lease_of (g : Z) (a : Attempt) : ConnectLease :=
  {| cl_id := at_id a; cl_generation := g |}.

(** [cancel_connecting] for attempt [g], which drops its cancel handle with
    the placeholder it removes. *)
Definition cancel_own (g : Z) (a : Attempt) (next : Opener) (w : World) : World :=
  let '(r, removed) := cancel_connecting (lease_of g a) (w_reg w) in
  with_att g (set_open next (if removed then set_cancel CcDropped a else a)) (with_reg r w).

(** The rest of [ConnectGuard::drop]. *)
Definition guard_drain (a : Attempt) : Attempt :=
  set_open OGone (match at_wire a with WSession => begin_close (set_wire WEmpty a) | _ => a end).

(** The error of a connect that was not promoted. *)
Definition refused_error (a : Attempt) : DaemonError :=
  match at_cancel a with CcSent => cancelled_by CancelDisconnect | _ => connect_cancelled end.

(** ** Closing *)

Definition new_closer (id : text) (g : Z) (drop : bool) : Closer :=
  {| kl_id := id; kl_generation := g; kl_drop := drop; kl_phase := KStart |}.
Definition set_phase (p : ClosePhase) (k : Closer) : Closer :=
  {| kl_id := kl_id k; kl_generation := kl_generation k; kl_drop := kl_drop k; kl_phase := p |}.

(** The critical section of [close] and [close_idle], with the cause it sends
    to a connect in flight. *)
Definition close_request (id : text) (reason : CloseReason) (w : World) : World :=
  let '(r, take) := close_take id reason (w_reg w) in
  let w := with_reg r w in
  match take with
  | TkCancelled g =>
      match w_att w !! g with Some a => with_att g (set_cancel CcSent a) w | None => w end
  | TkLive l => with_closers (w_closers w ++ [new_closer id (le_generation l) false]) w
  | TkOrphaned => with_orphans (w_orphans w ++ [id]) w
  | TkStillConnecting | TkNotFound => w
  end.

(** The critical section of [release_name]; its close runs in the future of
    the connect that reuses the name, which may be dropped. *)
Definition release_request (id : text) (w : World) : World :=
  let '(r, take) := release_take (shared_of w) id (w_reg w) in
  let w := with_reg r w in
  match take with
  | RlLive l => with_closers (w_closers w ++ [new_closer id (le_generation l) true]) w
  | RlOrphaned => with_orphans (w_orphans w ++ [id]) w
  | RlNone => w
  end.

(** The critical section of [close_if_generation]. *)
Definition generation_request (lease : ConnectLease) (w : World) : World :=
  let '(r, take) := generation_take lease (w_reg w) in
  let w := with_reg r w in
  match take with
  | Some l => with_closers (w_closers w ++ [new_closer (cl_id lease) (le_generation l) false]) w
  | None => w
  end.

(** The critical section of [expire_retained]. *)
Definition expired_closer (p : text * SessionEntry) : option Closer :=
  match snd p with Live l => Some (new_closer (fst p) (le_generation l) false) | _ => None end.
Definition expired_orphan (p : text * SessionEntry) : option text :=
  match snd p with Orphaned _ _ _ => Some (fst p) | _ => None end.
Definition expire_request (now retention : Z) (w : World) : World :=
  let '(r, removed) := expire_take (shared_of w) now retention (w_reg w) in
  let removed := map_to_list removed in
  with_closers (w_closers w ++ omap expired_closer removed)
    (with_orphans (w_orphans w ++ omap expired_orphan removed) (with_reg r w)).

(** The sections of [close_removed].  Dropping the hook does not stop one
    that is past its wait. *)
Definition close_start (a : Attempt) : bool * Attempt :=
  (bool_decide (lifecycle_of a <> LifecycleLive),
   match at_hook a with HWatch => set_hook HOff a | _ => a end).
Definition close_stop (k : Clk) (a : Attempt) : Attempt :=
  let a := begin_close a in
  set_shared (with_control (end_lease_on_close k (sh_control (at_shared a))) (at_shared a)) a.

(** The hook after its wait, and its last section. *)
Definition hook_wake (a : Attempt) : Attempt :=
  match lifecycle_of a with
  | LifecycleEnded ClientClosed => set_hook HOff a
  | LifecycleEnded _ => set_hook HWoken a
  | LifecycleLive => a
  end.
Definition hook_lease (k : Clk) (a : Attempt) : Attempt :=
  set_hook HOff (set_shared (with_control (end_lease_on_close k (sh_control (at_shared a)))
                               (at_shared a)) a).

(** ** The steps *)

Inductive step : World -> World -> Prop :=
(** the claim of a connect, under the name given or a minted id *)
| step_claim w now id name host bootstrap r g :
    id <> [] -> name = None \/ name = Some id ->
    claim now id (w_reg w) = (r, Ok g) ->
    step w (with_att g (new_attempt id name host bootstrap g) (with_reg r w))
(** the connect task *)
| step_connect_cancel w g a :
    w_att w !! g = Some a -> at_task a = CtRunning -> at_cancel a <> CcOpen ->
    step w (with_att g (connect_cancel a) w)
| step_connect_failed w g a e :
    w_att w !! g = Some a -> at_task a = CtRunning ->
    step w (with_att g (connect_failed e (set_answer (Some e) a)) w)
| step_connect_ready w g a :
    w_att w !! g = Some a -> at_task a = CtRunning ->
    step w (with_att g (connect_ready a) w)
| step_connect_closed w g a :
    w_att w !! g = Some a -> at_task a = CtClosing -> at_thread a = SClosed ->
    step w (with_att g (set_task CtDone a) w)
(** the wait of [open_tracked] *)
| step_received w g a log_id frame has_input now wall wait :
    w_att w !! g = Some a -> at_open a = OWaiting -> at_wire a = WSession ->
    step w (with_att g (set_shared (new_shared (lifecycle_of a) log_id (at_id a) g frame has_input
                                      now wall wait (at_bootstrap a))
                          (set_open OHave (set_wire WEmpty a))) w)
| step_received_error w g a e :
    w_att w !! g = Some a -> at_open a = OWaiting -> delivered_error a = Some e ->
    step w (with_att g (set_open (OFailing e) a) w)
| step_failed w g a e :
    w_att w !! g = Some a -> at_open a = OFailing e ->
    step w (cancel_own g a (OErr e) w)
| step_dropped w g a :
    w_att w !! g = Some a -> at_open a = OWaiting ->
    step w (cancel_own g a ODropping w)
| step_drained w g a :
    w_att w !! g = Some a -> at_open a = ODropping ->
    step w (with_att g (guard_drain a) w)
(** the rest of [open_tracked] *)
| step_recorded w g a io wall :
    w_att w !! g = Some a -> at_open a = OHave ->
    step w (with_att g (set_open ORecorded a)
              (with_book (opened io (at_id a) g (at_host a) wall (w_book w)) w))
| step_promoted w g a frame now wall r :
    w_att w !! g = Some a -> at_open a = ORecorded ->
    promote (at_id a) (new_entry g (at_name a) (at_host a) frame now wall) (w_reg w) = (r, true) ->
    step w (with_att g (set_hook HWatch (set_cancel CcDropped (set_open OOk a))) (with_reg r w))
| step_refused w g a frame now wall r :
    w_att w !! g = Some a -> at_open a = ORecorded ->
    promote (at_id a) (new_entry g (at_name a) (at_host a) frame now wall) (w_reg w) = (r, false) ->
    step w (with_att g (set_open ORefused a) w)
| step_refused_record w g a io :
    w_att w !! g = Some a -> at_open a = ORefused ->
    step w (with_att g (set_open OUnrecorded a)
              (with_book (fst (closed io (at_id a) g (w_book w))) w))
| step_refused_close w g a :
    w_att w !! g = Some a -> at_open a = OUnrecorded ->
    step w (with_att g (set_open OClosing (begin_close a)) w)
| step_refused_done w g a :
    w_att w !! g = Some a -> at_open a = OClosing -> at_thread a = SClosed ->
    step w (with_att g (set_open (OErr (refused_error a)) a) w)
| step_refused_dropped w g a :
    w_att w !! g = Some a -> at_open a = OClosing ->
    step w (with_att g (set_open OGone a) w)
(** the session: the server ends it, or its loop fails; its close ends *)
| step_session_ends w g a cause :
    w_att w !! g = Some a -> at_thread a = SUp -> cause <> ClientClosed ->
    step w (with_att g (set_shared (with_lifecycle (lifecycle_end cause (lifecycle_of a))
                                      (at_shared a)) a) w)
| step_session_closed w g a :
    w_att w !! g = Some a -> at_thread a = SClosing ->
    step w (with_att g (set_thread SClosed a) w)
(** the end hook *)
| step_hook_wake w g a :
    w_att w !! g = Some a -> at_hook a = HWatch -> lifecycle_of a <> LifecycleLive ->
    step w (with_att g (hook_wake a) w)
| step_hook_record w g a io :
    w_att w !! g = Some a -> at_hook a = HWoken ->
    step w (with_att g (set_hook HLease a) (with_book (fst (closed io (at_id a) g (w_book w))) w))
| step_hook_lease w g a k :
    w_att w !! g = Some a -> at_hook a = HLease ->
    step w (with_att g (hook_lease k a) w)
(** requests that remove entries *)
| step_close w id reason : step w (close_request id reason w)
| step_release w id : step w (release_request id w)
| step_close_generation w lease : step w (generation_request lease w)
| step_expire w now retention : step w (expire_request now retention w)
(** [close_removed] *)
| step_close_start w l1 k l2 a :
    w_closers w = l1 ++ k :: l2 -> kl_phase k = KStart -> w_att w !! kl_generation k = Some a ->
    step w (with_closers (l1 ++ set_phase (KRecord (fst (close_start a))) k :: l2)
              (with_att (kl_generation k) (snd (close_start a)) w))
| step_close_record w l1 k l2 ended io :
    w_closers w = l1 ++ k :: l2 -> kl_phase k = KRecord ended ->
    step w (with_closers (l1 ++ set_phase KStop k :: l2)
              (if ended then with_book (fst (closed io (kl_id k) (kl_generation k) (w_book w))) w
               else w))
| step_close_stop w l1 k l2 a clk :
    w_closers w = l1 ++ k :: l2 -> kl_phase k = KStop -> w_att w !! kl_generation k = Some a ->
    step w (with_closers (l1 ++ set_phase KAwait k :: l2)
              (with_att (kl_generation k) (close_stop clk a) w))
| step_close_done w l1 k l2 a io :
    w_closers w = l1 ++ k :: l2 -> kl_phase k = KAwait -> w_att w !! kl_generation k = Some a ->
    at_thread a = SClosed ->
    step w (with_closers (l1 ++ l2)
              (with_book (fst (closed io (kl_id k) (kl_generation k) (w_book w))) w))
| step_close_dropped w l1 k l2 :
    w_closers w = l1 ++ k :: l2 -> kl_phase k = KAwait -> kl_drop k = true ->
    step w (with_closers (l1 ++ l2) w)
| step_orphan_record w l1 id l2 io :
    w_orphans w = l1 ++ id :: l2 ->
    step w (with_orphans (l1 ++ l2) (with_book (closed_orphan io id (w_book w)) w))
(** what else changes an entry or the shared objects *)
| step_touch w id expected now wall :
    step w (with_reg (fst (touch_generation id expected now wall (w_reg w))) w)
| step_shared w g a s :
    w_att w !! g = Some a -> sh_lifecycle s = lifecycle_of a ->
    step w (with_att g (set_shared s a) w).

(** The daemon starts with the records its predecessor left in the file. *)
Definition world_init (now : Z) (records : list ReconciliationRecord) (io : Io) (d : D) : World :=
  let '(r, seeded) := seed_into now records registry_new in
  {| w_reg := r; w_book := purge_seeded io seeded (book_new d); w_att := ∅;
     w_closers := []; w_orphans := [] |}.

(** The worlds reached before the counter of generations wraps around. *)
Inductive run (now : Z) (records : list ReconciliationRecord) (io : Io) (d : D) : World -> Prop :=
| run_init : run now records io d (world_init now records io d)
| run_step w w' :
    run now records io d w -> step w w' -> rg_next (w_reg w') <> 0 -> run now records io d w'.
End RegistrySystem.
Arguments Attempt : clear implicits.
Arguments World : clear implicits.
