(* ===== verification/RegistryInv.v ===== *)
(** * No session is lost: the invariant of the registry's transition system

    [Inv] relates the map, the record book, the attempts and the closes in
    progress of RegistrySystem.v.  Every step keeps it, so the properties at
    the end hold in every world that is reached. *)
From S2P Require Import Prelude Calendar Events Control Records Registry RegistrySystem.
Open Scope Z_scope.

(** ** The invariant *)

Section Invariant.
Context {S D : Type} `{EventSink S} `{ReconciliationSink D}.
Implicit Types (w : World S D) (a : Attempt S) (k : Closer) (g : Z).

(** One attempt on its own. *)
Definition opener_ok a : Prop :=
  match at_open a with
  | OWaiting => at_thread a = SNone \/ (at_thread a = SUp /\ at_wire a = WSession)
  | ODropping =>
      at_cancel a <> CcOpen /\
      (at_thread a = SNone \/ (at_thread a = SUp /\ at_wire a = WSession))
  | OFailing _ => at_thread a = SNone
  | OHave | ORecorded => at_thread a = SUp
  | ORefused | OUnrecorded => at_thread a = SUp /\ at_cancel a <> CcOpen
  | OClosing => (at_thread a = SClosing \/ at_thread a = SClosed) /\ at_cancel a <> CcOpen
  | OOk => at_thread a <> SNone /\ at_cancel a = CcDropped
  | OErr e =>
      at_cancel a <> CcOpen /\
      (at_thread a = SNone \/ (at_thread a = SClosed /\ e = refused_error a))
  | OGone => at_thread a <> SUp /\ at_cancel a <> CcOpen
  end.

Definition task_ok a : Prop :=
  match at_task a with
  | CtRunning =>
      at_wire a = WEmpty /\ at_thread a = SNone /\
      (at_open a = OWaiting \/ at_open a = ODropping \/ at_open a = OGone)
  | CtClosing => at_open a = OGone /\ (at_thread a = SClosing \/ at_thread a = SClosed)
  | CtDone => True
  end.

Definition wire_ok a : Prop :=
  match at_wire a with
  | WEmpty => True
  | WSession => at_thread a = SUp /\ (at_open a = OWaiting \/ at_open a = ODropping)
  | WError _ => at_thread a = SNone
  end.

(** Only a close ends a lifecycle as [ClientClosed]. *)
Definition life_ok a : Prop :=
  match at_thread a with
  | SNone => lifecycle_of a = LifecycleLive
  | SUp => lifecycle_of a <> LifecycleEnded ClientClosed
  | SClosing | SClosed => lifecycle_of a <> LifecycleLive
  end.

Definition att_ok a : Prop :=
  opener_ok a /\ task_ok a /\ wire_ok a /\ life_ok a /\ (at_hook a <> HNone <-> at_open a = OOk).

(** The hook of a registered session watches it while it is live. *)
Definition watched a : Prop := lifecycle_of a = LifecycleLive -> at_hook a = HWatch.

Definition entry_generation (e : SessionEntry) : option Z :=
  match e with
  | Connecting _ g => Some g
  | Live l => Some (le_generation l)
  | Orphaned _ _ _ => None
  end.

Definition live_at w (id : text) g : Prop :=
  exists l, rg_sessions (w_reg w) !! id = Some (Live l) /\ le_generation l = g.

Definition entry_ok w (id : text) (e : SessionEntry) : Prop :=
  match e with
  | Connecting _ g => exists a, w_att w !! g = Some a /\ at_id a = id /\ at_cancel a = CcOpen
  | Live l =>
      exists a, w_att w !! le_generation l = Some a /\ at_id a = id /\
        at_open a = OOk /\ at_thread a = SUp /\ watched a
  | Orphaned _ _ _ => True
  end.

Definition closer_ok k a : Prop :=
  match kl_phase k with
  | KStart => at_thread a = SUp /\ (kl_drop k = true -> lifecycle_of a <> LifecycleLive)
  | KRecord ended => at_thread a = SUp /\ (kl_drop k = true -> ended = true)
  | KStop => at_thread a = SUp
  | KAwait => at_thread a = SClosing \/ at_thread a = SClosed
  end.

(** The close has not begun; the close will still remove the record. *)
Definition before_stop k : Prop :=
  match kl_phase k with KAwait => False | _ => True end.
Definition keeps_record k : Prop :=
  match kl_phase k with KStart | KRecord _ => True | KStop | KAwait => kl_drop k = false end.

Definition record_held w g a : Prop :=
  at_open a = ORecorded \/ at_open a = ORefused \/ at_hook a = HWoken \/
  (at_hook a = HWatch /\ live_at w (at_id a) g) \/
  exists k, k ∈ w_closers w /\ kl_generation k = g /\ keeps_record k.

Definition record_due w g a : Prop :=
  (at_hook a = HWatch /\ live_at w (at_id a) g) \/
  (at_open a = ORecorded /\ at_cancel a = CcOpen).

Record Inv w : Prop := {
  i_range : 1 <= rg_next (w_reg w) < 2 ^ 64;
  i_gens : forall g a, w_att w !! g = Some a -> 1 <= g < rg_next (w_reg w);
  i_att : forall g a, w_att w !! g = Some a -> att_ok a;
  i_entry : forall id e, rg_sessions (w_reg w) !! id = Some e -> entry_ok w id e;
  i_open : forall g a, w_att w !! g = Some a -> at_cancel a = CcOpen ->
    exists t, rg_sessions (w_reg w) !! at_id a = Some (Connecting t g);
  i_newest : forall id e g g' a', rg_sessions (w_reg w) !! id = Some e ->
    entry_generation e = Some g -> w_att w !! g' = Some a' -> at_id a' = id -> g' <= g;
  i_closers : forall k, k ∈ w_closers w ->
    exists a, w_att w !! kl_generation k = Some a /\ at_id a = kl_id k /\ at_open a = OOk /\ closer_ok k a;
  i_nodup : NoDup (kl_generation <$> w_closers w);
  i_apart : forall k, k ∈ w_closers w -> ~ live_at w (kl_id k) (kl_generation k);
  i_up : forall g a, w_att w !! g = Some a -> at_open a = OOk -> at_thread a = SUp ->
    live_at w (at_id a) g \/ exists k, k ∈ w_closers w /\ kl_generation k = g /\ before_stop k;
  i_book : forall id g, bk_open (w_book w) !! id = Some g ->
    exists a, w_att w !! g = Some a /\ at_id a = id /\ record_held w g a;
  i_owned : forall g a, w_att w !! g = Some a -> record_due w g a ->
    bk_open (w_book w) !! at_id a = Some g }.

(** *** The attempts alone *)

Lemma inv_att_book w g a a' (b' : Book D) :
  Inv w -> w_att w !! g = Some a ->
  at_id a' = at_id a -> att_ok a' ->
  (at_cancel a' = CcOpen <-> at_cancel a = CcOpen) ->
  (at_open a' = OOk <-> at_open a = OOk) ->
  (at_open a = OOk -> at_thread a' = SUp <-> at_thread a = SUp) ->
  (live_at w (at_id a) g -> watched a -> watched a') ->
  (forall k, at_open a = OOk -> closer_ok k a -> closer_ok k a') ->
  (forall id x, bk_open b' !! id = Some x ->
    (x = g /\ id = at_id a /\ record_held w g a') \/ (x <> g /\ bk_open (w_book w) !! id = Some x)) ->
  (forall x b, w_att w !! x = Some b -> x <> g -> record_due w x b -> bk_open b' !! at_id b = Some x) ->
  (record_due w g a' -> bk_open b' !! at_id a = Some g) ->
  Inv (with_att g a' (with_book b' w)).
Proof.
  intros HI Ha Hid Hok Hc Ho Ht Hw Hk Hb Hd Hdg.
  assert (Hl : forall x b, w_att (with_att g a' (with_book b' w)) !! x = Some b ->
    (x = g /\ b = a') \/ (x <> g /\ w_att w !! x = Some b)).
  { intros x b Hx. cbn in Hx. destruct (decide (x = g)) as [->|Hne].
    - rewrite lookup_insert_eq in Hx. left. split; [done|congruence].
    - rewrite lookup_insert_ne in Hx by done. by right. }
  assert (Hfresh : forall x b, w_att w !! x = Some b -> x <> g ->
    w_att (with_att g a' (with_book b' w)) !! x = Some b) by (intros; cbn; by rewrite lookup_insert_ne).
  assert (Hself : w_att (with_att g a' (with_book b' w)) !! g = Some a')
    by (cbn; by rewrite lookup_insert_eq).
  destruct HI as [Hr Hg Hat He Hop Hn Hcl Hnd Hap Hup Hbk Hown]. split.
  - exact Hr.
  - intros x b Hx. destruct (Hl x b Hx) as [[-> ->]|[_ Hx']]; eauto.
  - intros x b Hx. destruct (Hl x b Hx) as [[-> ->]|[_ Hx']]; eauto.
  - intros id e Hid'. pose proof (He id e Hid') as Hee. destruct e as [t x|l|]; cbn in *; [| |done].
    + destruct Hee as (b & Hb' & Hbid & Hbc). destruct (decide (x = g)) as [->|Hne].
      * assert (b = a) as -> by congruence. exists a'. rewrite lookup_insert_eq.
        split_and!; [done|congruence|by apply Hc].
      * exists b. rewrite lookup_insert_ne by done. done.
    + destruct Hee as (b & Hb' & Hbid & Hbo & Hbt & Hbw).
      destruct (decide (le_generation l = g)) as [Heq|Hne].
      * assert (b = a) as -> by congruence. exists a'. rewrite Heq, lookup_insert_eq.
        split_and!; [done|congruence|by apply Ho|by apply Ht|].
        apply Hw; [|done]. exists l. split; [congruence|done].
      * exists b. rewrite lookup_insert_ne by done. done.
  - intros x b Hx Hbc. destruct (Hl x b Hx) as [[-> ->]|[_ Hx']]; [|eauto].
    rewrite Hid. apply Hop; [done|by apply Hc].
  - intros id e x y b Hse Hge Hy Hbid. destruct (Hl y b Hy) as [[-> ->]|[_ Hy']]; [|eauto].
    eapply Hn; eauto. congruence.
  - intros k Hkin. destruct (Hcl k Hkin) as (b & Hb' & Hbid & Hbo & Hbk').
    destruct (decide (kl_generation k = g)) as [Heq|Hne].
    + assert (b = a) as -> by congruence. exists a'. cbn. rewrite Heq, lookup_insert_eq.
      split_and!; [done|congruence|by apply Ho|by apply Hk].
    + exists b. cbn. rewrite lookup_insert_ne by done. done.
  - exact Hnd.
  - exact Hap.
  - intros x b Hx Hbo Hbt. destruct (Hl x b Hx) as [[-> ->]|[_ Hx']]; [|by apply Hup].
    rewrite Hid. apply Hup; [done|by apply Ho|]. apply Ht; [by apply Ho|done].
  - intros id x Hbx. destruct (Hb id x Hbx) as [(-> & -> & Hr')|[Hne Hbx']]; [by exists a'|].
    destruct (Hbk id x Hbx') as (b & Hb' & Hbid & Hbr).
    exists b. split_and!; [by apply Hfresh|done|exact Hbr].
  - intros x b Hx Hbd. destruct (Hl x b Hx) as [[-> ->]|[Hne Hx']].
    + rewrite Hid. exact (Hdg Hbd).
    + exact (Hd x b Hx' Hne Hbd).
Qed.

Lemma inv_att w g a a' :
  Inv w -> w_att w !! g = Some a ->
  at_id a' = at_id a -> att_ok a' ->
  (at_cancel a' = CcOpen <-> at_cancel a = CcOpen) ->
  (at_open a' = OOk <-> at_open a = OOk) ->
  (at_open a = OOk -> at_thread a' = SUp <-> at_thread a = SUp) ->
  (live_at w (at_id a) g -> watched a -> watched a') ->
  (forall k, at_open a = OOk -> closer_ok k a -> closer_ok k a') ->
  (bk_open (w_book w) !! at_id a = Some g -> record_held w g a -> record_held w g a') ->
  (record_due w g a' -> record_due w g a \/ bk_open (w_book w) !! at_id a = Some g) ->
  Inv (with_att g a' w).
Proof.
  intros HI Ha Hid Hok Hc Ho Ht Hw Hk Hb Hd.
  assert (with_att g a' w = with_att g a' (with_book (w_book w) w)) as -> by done.
  apply (inv_att_book w g a a'); try done.
  - intros id x Hx. destruct (decide (x = g)) as [->|Hne]; [|by right]. left.
    destruct (i_book w HI id g Hx) as (b & Hb' & <- & Hr).
    assert (b = a) as -> by congruence. split_and!; [done|done|by apply Hb].
  - intros x b Hx _. by apply i_owned.
  - intros Hdue. destruct (Hd Hdue); [|done]. by apply i_owned.
Qed.
(** *** The book alone *)

Lemma flush_open ok (b : Book D) : bk_open (flush_pending ok b) = bk_open b.
Proof. unfold flush_pending. case_bool_decide; [done|]. by destruct (remove_records _ _ _). Qed.

Lemma closed_orphan_open io id (b : Book D) : bk_open (closed_orphan io id b) = bk_open b.
Proof. unfold closed_orphan. destruct (bk_open b !! id); [done|]. by rewrite flush_open. Qed.

Lemma closed_open io id g (b : Book D) j :
  bk_open (fst (closed io id g b)) !! j =
  if decide (j = id /\ bk_open b !! id = Some g) then None else bk_open b !! j.
Proof.
  unfold closed. case_bool_decide as Hg; cbn.
  - rewrite flush_open. cbn. destruct (decide (j = id)) as [->|Hne].
    + rewrite lookup_delete_eq. by rewrite decide_True.
    + rewrite lookup_delete_ne by done. rewrite decide_False by naive_solver. done.
  - rewrite decide_False by naive_solver. done.
Qed.

Lemma opened_open io id g host since (b : Book D) :
  bk_open (opened io id g host since b) =
  match bk_open b !! id with
  | Some o => if g <=? o then bk_open b else <[id := g]> (bk_open b)
  | None => <[id := g]> (bk_open b)
  end.
Proof.
  unfold opened. destruct (bk_open b !! id) as [o|] eqn:Eo.
  - destruct (g <=? o); [done|]. by rewrite flush_open.
  - by rewrite flush_open.
Qed.
Lemma inv_with_book w (b : Book D) :
  Inv w ->
  (forall id g, bk_open b !! id = Some g -> bk_open (w_book w) !! id = Some g) ->
  (forall g a, w_att w !! g = Some a -> record_due w g a -> bk_open b !! at_id a = Some g) ->
  Inv (with_book b w).
Proof. intros [] Hb Hd. split; try done. intros id g Hg. by apply i_book0, Hb. Qed.

Lemma inv_closed w io id g :
  Inv w ->
  (forall a, w_att w !! g = Some a -> at_id a = id -> ~ record_due w g a) ->
  Inv (with_book (fst (closed io id g (w_book w))) w).
Proof.
  intros HI Hn. apply inv_with_book; [done| |].
  - intros j x. rewrite closed_open. by case_decide.
  - intros x a Ha Hd. rewrite closed_open. pose proof (i_owned w HI x a Ha Hd) as Ho.
    case_decide as Hc; [|done]. destruct Hc as [Hid Hg]. exfalso.
    assert (x = g) as -> by congruence. by apply (Hn a Ha Hid).
Qed.

(** An attempt whose record is due has an entry, so it is the newest of its
    name. *)
Lemma due_newest w g a g' a' :
  Inv w -> w_att w !! g = Some a -> record_due w g a ->
  w_att w !! g' = Some a' -> at_id a' = at_id a -> g' <= g.
Proof.
  intros HI Ha Hd Ha' Hid. destruct Hd as [[_ (l & Hl & Hg)]|[_ Hc]].
  - eapply (i_newest w HI _ (Live l)); eauto. by cbn; f_equal.
  - destruct (i_open w HI g a Ha Hc) as [t Ht]. eapply (i_newest w HI _ (Connecting t g)); eauto.
Qed.

(** *** The entry of an attempt *)

Definition with_entry (id : text) (e : option SessionEntry) (next : Z) w : World S D :=
  with_reg {| rg_sessions := partial_alter (fun _ => e) id (rg_sessions (w_reg w)); rg_next := next |} w.

Lemma inv_own_entry w g a' (e : option SessionEntry) (next : Z) :
  Inv w ->
  rg_next (w_reg w) <= next < 2 ^ 64 -> 1 <= g < next ->
  (forall a, w_att w !! g = Some a -> at_id a = at_id a' /\ at_open a <> OOk) ->
  att_ok a' ->
  (forall l, rg_sessions (w_reg w) !! at_id a' <> Some (Live l)) ->
  (forall t x, rg_sessions (w_reg w) !! at_id a' = Some (Connecting t x) -> x = g) ->
  match e with
  | None => at_cancel a' <> CcOpen /\ at_open a' <> OOk
  | Some (Connecting _ x) => x = g /\ at_cancel a' = CcOpen /\ at_open a' <> OOk
  | Some (Live l) =>
      le_generation l = g /\ at_cancel a' <> CcOpen /\ at_open a' = OOk /\
      at_thread a' = SUp /\ watched a'
  | Some (Orphaned _ _ _) => False
  end ->
  (e <> None -> forall x b, w_att w !! x = Some b -> at_id b = at_id a' -> x <= g) ->
  (bk_open (w_book w) !! at_id a' = Some g ->
   record_held (with_entry (at_id a') e next w) g a') ->
  (record_due (with_entry (at_id a') e next w) g a' -> bk_open (w_book w) !! at_id a' = Some g) ->
  Inv (with_att g a' (with_entry (at_id a') e next w)).
Proof.
  intros HI Hnext Hg Hold Hok Hnl Hpl He Hnew Hb Hd.
  set (id := at_id a') in *. set (w1 := with_entry id e next w) in *.
  assert (Hm : forall j, rg_sessions (w_reg w1) !! j =
      if decide (j = id) then e else rg_sessions (w_reg w) !! j).
  { intros j. cbn. destruct (decide (j = id)) as [->|Hne];
      [by rewrite lookup_partial_alter_eq|by rewrite lookup_partial_alter_ne]. }
  assert (Hl : forall x b, <[g := a']> (w_att w) !! x = Some b ->
    (x = g /\ b = a') \/ (x <> g /\ w_att w !! x = Some b)).
  { intros x b Hx. destruct (decide (x = g)) as [->|Hne].
    - rewrite lookup_insert_eq in Hx. left. split; [done|congruence].
    - rewrite lookup_insert_ne in Hx by done. by right. }
  assert (Hlive : forall j x, x <> g -> live_at w1 j x <-> live_at w j x).
  { intros j x Hx. unfold live_at. setoid_rewrite Hm. destruct (decide (j = id)) as [->|Hne]; [|done].
    split; intros (l & Hl1 & Hl2).
    - subst e. cbn in He. destruct He as [? _]. congruence.
    - by apply Hnl in Hl1. }
  assert (HOk : forall x b, w_att w !! x = Some b -> at_open b = OOk -> x <> g).
  { intros x b Hx Hbo ->. by apply (Hold b Hx). }
  destruct HI as [Hr Hgs Hat Hen Hop Hn Hcl Hnd Hap Hup Hbk Hown]. split.
  - cbn. lia.
  - intros x b Hx. destruct (Hl x b Hx) as [[-> _]|[_ Hx']]; [done|].
    cbn. pose proof (Hgs x b Hx'). lia.
  - intros x b Hx. destruct (Hl x b Hx) as [[_ ->]|[_ Hx']]; [done|by eapply Hat].
  - intros j f Hj. change (rg_sessions (w_reg w1) !! j = Some f) in Hj. rewrite Hm in Hj.
    destruct (decide (j = id)) as [->|Hne].
    + subst e. destruct f as [t x|l|]; cbn in *; [| |done].
      * destruct He as (-> & Hc & _). exists a'. by rewrite lookup_insert_eq.
      * destruct He as (-> & _ & Ho & Ht & Hw). exists a'. by rewrite lookup_insert_eq.
    + pose proof (Hen j f Hj) as Hf. destruct f as [t x|l|]; cbn in *; [| |done].
      * destruct Hf as (b & Hx & Hbid & Hc). exists b. split_and!; [|done|done].
        rewrite lookup_insert_ne; [done|]. intros <-. apply Hne. rewrite <- Hbid. by apply (Hold b Hx).
      * destruct Hf as (b & Hx & Hbid & Ho & Hrest). exists b.
        rewrite lookup_insert_ne by (intros Heq; exact (HOk _ _ Hx Ho (eq_sym Heq))). done.
  - intros x b Hx Hc. setoid_rewrite Hm. destruct (Hl x b Hx) as [[-> ->]|[Hne Hx']].
    + fold id. rewrite decide_True by done. destruct e as [[t x|l|]|]; cbn in He.
      * destruct He as [-> _]. by exists t.
      * by destruct He as (_ & ? & _).
      * done.
      * by destruct He.
    + destruct (Hop x b Hx' Hc) as [t Ht]. exists t. case_decide as Hid; [|done].
      exfalso. apply Hne. apply (Hpl t). by rewrite <- Hid.
  - intros j f x y b Hj Hf Hy Hbid. change (rg_sessions (w_reg w1) !! j = Some f) in Hj.
    rewrite Hm in Hj. destruct (decide (j = id)) as [->|Hne].
    + subst e. assert (x = g) as ->.
      { destruct f as [t z|l|]; cbn in *; [|by destruct He as [? _]; congruence|done].
        destruct He as [? _]. congruence. }
      destruct (Hl y b Hy) as [[-> _]|[_ Hy']]; [done|]. by eapply Hnew.
    + destruct (Hl y b Hy) as [[-> ->]|[_ Hy']]; [by destruct Hne|]. by eapply Hn.
  - intros k Hk. destruct (Hcl k Hk) as (b & Hx & Hbid & Ho & Hrest). exists b. cbn.
    rewrite lookup_insert_ne by (intros Heq; exact (HOk _ _ Hx Ho (eq_sym Heq))). done.
  - exact Hnd.
  - intros k Hk. destruct (Hcl k Hk) as (b & Hx & _ & Ho & _).
    change (~ live_at w1 (kl_id k) (kl_generation k)). rewrite Hlive; [by apply Hap|by eapply HOk].
  - intros x b Hx Ho Ht. change (live_at w1 (at_id b) x \/
      exists k, k ∈ w_closers w /\ kl_generation k = x /\ before_stop k).
    destruct (Hl x b Hx) as [[-> ->]|[Hne Hx']].
    + left. fold id. unfold live_at. setoid_rewrite Hm. rewrite decide_True by done.
      destruct e as [[t z|l|]|]; cbn in He.
      * by destruct He as (_ & _ & ?).
      * exists l. split; [done|by destruct He].
      * done.
      * by destruct He.
    + rewrite Hlive by done. by apply Hup.
  - intros j x Hx. change (bk_open (w_book w) !! j = Some x) in Hx.
    destruct (Hbk j x Hx) as (b & Hxb & Hbid & Hh). destruct (decide (x = g)) as [->|Hne].
    + exists a'. cbn. rewrite lookup_insert_eq. destruct (Hold b Hxb) as [Hida _].
      assert (j = id) as -> by congruence. split_and!; [done|done|]. by apply Hb.
    + exists b. cbn. rewrite lookup_insert_ne by done. split_and!; [done|done|].
      unfold record_held in *. change (live_at _ (at_id b) x) with (live_at w1 (at_id b) x).
      rewrite Hlive by done. done.
  - intros x b Hx Hdue. destruct (Hl x b Hx) as [[-> ->]|[Hne Hx']]; [by apply Hd|].
    apply (Hown x b Hx'). unfold record_due in *.
    change (live_at _ (at_id b) x) with (live_at w1 (at_id b) x) in Hdue. by rewrite Hlive in Hdue.
Qed.
(** *** Requests that remove entries *)

(** [e] stays an entry of the same session, or a [Live] one moves to a
    closer of [ks]. *)
Definition entry_kept (ks : list Closer) (id : text) (e e' : option SessionEntry) : Prop :=
  match e, e' with
  | Some (Connecting t g), Some (Connecting t' g') => t = t' /\ g = g'
  | Some (Live l), Some (Live l') => le_generation l = le_generation l'
  | Some (Live l), None =>
      exists k, k ∈ ks /\ kl_id k = id /\ kl_generation k = le_generation l /\ kl_phase k = KStart
  | Some (Orphaned _ _ _), (None | Some (Orphaned _ _ _)) => True
  | None, None => True
  | _, _ => False
  end.

Definition closer_from w (m' : gmap text SessionEntry) k : Prop :=
  kl_phase k = KStart /\ m' !! kl_id k = None /\ live_at w (kl_id k) (kl_generation k) /\
  (kl_drop k = true -> sh_lifecycle (shared_of w (kl_generation k)) <> LifecycleLive).

Lemma inv_take w (m' : gmap text SessionEntry) (ks : list Closer) :
  Inv w ->
  (forall id, entry_kept ks id (rg_sessions (w_reg w) !! id) (m' !! id)) ->
  (forall k, k ∈ ks -> closer_from w m' k) ->
  NoDup (kl_generation <$> ks) ->
  Inv (with_closers (w_closers w ++ ks) (with_reg (set_sessions (w_reg w) m') w)).
Proof.
  intros HI Hm Hks Hnd'.
  assert (Hle : forall id g, (exists l, m' !! id = Some (Live l) /\ le_generation l = g) ->
    live_at w id g).
  { intros id g (l & Hl & Hg). specialize (Hm id). rewrite Hl in Hm. unfold live_at.
    destruct (rg_sessions (w_reg w) !! id) as [[| l0 |]|]; cbn in Hm; try done.
    exists l0. split; [done|congruence]. }
  assert (Hlo : forall id g, live_at w id g ->
    (exists l, m' !! id = Some (Live l) /\ le_generation l = g) \/
    exists k, k ∈ ks /\ kl_id k = id /\ kl_generation k = g /\ kl_phase k = KStart).
  { intros id g (l & Hl & Hg). specialize (Hm id). rewrite Hl in Hm. cbn in Hm.
    destruct (m' !! id) as [[| l' |]|]; try done.
    - left. exists l'. split; [done|congruence].
    - right. destruct Hm as (k & ? & ? & ? & ?). exists k. split_and!; congruence || done. }
  assert (Hks' : forall k, k ∈ ks -> exists a, w_att w !! kl_generation k = Some a /\
      at_id a = kl_id k /\ at_open a = OOk /\ closer_ok k a).
  { intros k Hk. destruct (Hks k Hk) as (Hp & _ & (l & Hl & Hg) & Hd).
    destruct (i_entry w HI _ _ Hl) as (a & Ha & Hid & Ho & Ht & _). rewrite Hg in Ha.
    exists a. split_and!; [done|done|done|]. unfold closer_ok. rewrite Hp. split; [done|].
    unfold shared_of in Hd. by rewrite Ha in Hd. }
  assert (Hheld : forall g a, record_held w g a ->
    record_held (with_closers (w_closers w ++ ks) (with_reg (set_sessions (w_reg w) m') w)) g a).
  { intros g a [?|[?|[?|[[Hh Hl]|(k & Hk & Hrest)]]]]; unfold record_held; cbn; auto.
    - destruct (Hlo _ _ Hl) as [?|(k & Hk & _ & Hg & Hp)]; [by do 3 right; left|].
      do 4 right. exists k. split; [set_solver|]. split; [done|]. unfold keeps_record. by rewrite Hp.
    - do 4 right. exists k. split; [set_solver|done]. }
  destruct HI as [Hr Hgs Hat Hen Hop Hn Hcl Hnd Hap Hup Hbk Hown]. split; try done.
  - intros id e He. cbn in He. specialize (Hm id). rewrite He in Hm.
    destruct (rg_sessions (w_reg w) !! id) as [e0|] eqn:E0; [|by destruct e].
    pose proof (Hen id e0 E0) as Hok. destruct e0, e; cbn in *; try done.
    + by destruct Hm as [-> ->].
    + by rewrite <- Hm.
  - intros g a Ha Hc. destruct (Hop g a Ha Hc) as [t Ht]. specialize (Hm (at_id a)).
    rewrite Ht in Hm. exists t. cbn. destruct (m' !! at_id a) as [[]|]; cbn in Hm; try done.
    by destruct Hm as [-> ->].
  - intros id e g x b He Hg Hx Hbid. cbn in He. specialize (Hm id). rewrite He in Hm.
    destruct (rg_sessions (w_reg w) !! id) as [e0|] eqn:E0; [|by destruct e].
    eapply (Hn id e0 g x b); try done.
    destruct e0, e; cbn in *; try done; [by destruct Hm as [-> ->]|congruence].
  - intros k [Hk|Hk]%elem_of_app; [by apply Hcl|by apply Hks'].
  - cbn. rewrite fmap_app. apply NoDup_app. split_and!; [done| |done].
    intros g (k & -> & Hk)%list_elem_of_fmap (k' & Hg & Hk')%list_elem_of_fmap.
    destruct (Hcl k Hk) as (a & Ha & Hid & _). destruct (Hks' k' Hk') as (a' & Ha' & Hid' & _).
    destruct (Hks k' Hk') as (_ & _ & Hl & _). apply (Hap k Hk).
    assert (a = a') as -> by congruence. by rewrite Hg, <- Hid, Hid'.
  - intros k [Hk|Hk]%elem_of_app Hl.
    + by apply (Hap k Hk), Hle.
    + destruct (Hks k Hk) as (_ & Hnone & _). destruct Hl as (l & Hl & _). cbn in Hl. congruence.
  - intros g a Ha Ho Ht. destruct (Hup g a Ha Ho Ht) as [Hl|(k & Hk & Hrest)].
    + destruct (Hlo _ _ Hl) as [?|(k & Hk & _ & Hg & Hp)]; [by left|right].
      exists k. cbn. split; [set_solver|]. split; [done|]. unfold before_stop. by rewrite Hp.
    + right. exists k. cbn. split; [set_solver|done].
  - intros id g Hg. destruct (Hbk id g Hg) as (a & Ha & Hid & Hh). exists a.
    split_and!; [done|done|by apply Hheld].
  - intros g a Ha Hd. apply (Hown g a Ha). destruct Hd as [[? Hl]|?]; [left|by right].
    split; [done|]. by apply Hle.
Qed.

(** *** The closers *)

(** One closer and its attempt change together. *)
Lemma inv_closer w l1 k k' l2 a a' :
  Inv w -> w_closers w = l1 ++ k :: l2 -> w_att w !! kl_generation k = Some a ->
  kl_id k' = kl_id k -> kl_generation k' = kl_generation k ->
  closer_ok k' a' -> at_id a' = at_id a -> att_ok a' -> at_open a' = OOk ->
  (at_thread a' = SUp -> before_stop k') ->
  (at_hook a' = HWatch -> at_hook a = HWatch) ->
  (at_hook a = HWoken -> at_hook a' = HWoken) ->
  (bk_open (w_book w) !! kl_id k = Some (kl_generation k) -> keeps_record k -> keeps_record k') ->
  Inv (with_closers (l1 ++ k' :: l2) (with_att (kl_generation k) a' w)).
Proof.
  intros HI Hc Ha Hkid Hkg Hok' Hid Hat' Ho' Hb' Hhw Hhk Hkeep. set (g := kl_generation k) in *.
  assert (Hkin : k ∈ w_closers w) by (rewrite Hc; set_solver).
  pose proof (i_nodup w HI) as Hnd. rewrite Hc, fmap_app, fmap_cons in Hnd. fold g in Hnd.
  assert (Hother : forall x, x ∈ l1 \/ x ∈ l2 -> x ∈ w_closers w /\ kl_generation x <> g).
  { intros x Hx. split; [rewrite Hc; set_solver|]. intros Hg.
    apply NoDup_app in Hnd as (_ & Hd1 & Hd2). apply NoDup_cons in Hd2 as [Hd2 _].
    destruct Hx as [Hx|Hx].
    - apply (Hd1 g); [|set_solver]. rewrite <- Hg. by apply list_elem_of_fmap_2.
    - apply Hd2. rewrite <- Hg. by apply list_elem_of_fmap_2. }
  assert (Hapart : ~ live_at w (kl_id k) g) by by apply (i_apart w HI).
  destruct (i_closers w HI k Hkin) as (a0 & Ha0 & Hida & Hoa & _). fold g in Ha0.
  assert (a0 = a) as -> by congruence.
  assert (Hcan : at_cancel a' <> CcOpen /\ at_cancel a <> CcOpen).
  { split; [destruct Hat' as (Hop & _)|destruct (i_att w HI g a Ha) as (Hop & _)];
      unfold opener_ok in Hop; rewrite ?Ho', ?Hoa in Hop; by destruct Hop as [_ ->]. }
  assert (Hl : forall x b, <[g := a']> (w_att w) !! x = Some b ->
    (x = g /\ b = a') \/ (x <> g /\ w_att w !! x = Some b)).
  { intros x b Hx. destruct (decide (x = g)) as [->|Hne].
    - rewrite lookup_insert_eq in Hx. left. split; [done|congruence].
    - rewrite lookup_insert_ne in Hx by done. by right. }
  assert (Hmem : forall x, x ∈ l1 ++ k' :: l2 -> x = k' \/ (x ∈ w_closers w /\ kl_generation x <> g)).
  { intros x. rewrite elem_of_app, elem_of_cons. intros [?|[?|?]]; auto. }
  assert (Hmem' : forall x, x ∈ w_closers w -> kl_generation x <> g -> x ∈ l1 ++ k' :: l2).
  { intros x. rewrite Hc. rewrite !elem_of_app, !elem_of_cons. intros [?|[->|?]] ?; auto. done. }
  destruct HI as [Hr Hgs Hat Hen Hop Hn Hcl _ Hap Hup Hbk Hown]. split.
  - done.
  - intros x b Hx. destruct (Hl x b Hx) as [[-> _]|[_ Hx']]; eauto.
  - intros x b Hx. destruct (Hl x b Hx) as [[_ ->]|[_ Hx']]; eauto.
  - intros j e He. pose proof (Hen j e He) as Hee. destruct e as [t x|l|]; cbn in *; [| |done].
    + destruct Hee as (b & Hx & Hbid & Hbc). exists b.
      rewrite lookup_insert_ne; [done|]. intros <-. assert (b = a) as -> by congruence. tauto.
    + destruct Hee as (b & Hx & Hbid & Hrest). exists b.
      rewrite lookup_insert_ne; [done|]. intros Heq. apply Hapart. exists l.
      rewrite <- Hida. assert (b = a) as -> by congruence. by rewrite Hbid.
  - intros x b Hx Hbc. destruct (Hl x b Hx) as [[_ ->]|[_ Hx']]; [tauto|by apply Hop].
  - intros j e x y b He Hg Hy Hbid. destruct (Hl y b Hy) as [[-> ->]|[_ Hy']]; [|by eapply Hn].
    eapply (Hn j e x g a); congruence || done.
  - intros x Hx. cbn. destruct (Hmem x Hx) as [->|[Hx' Hne]].
    + exists a'. rewrite Hkg, lookup_insert_eq. split_and!; congruence || done.
    + rewrite lookup_insert_ne by done. by apply Hcl.
  - cbn. by rewrite fmap_app, fmap_cons, Hkg.
  - intros x Hx. destruct (Hmem x Hx) as [->|[Hx' _]]; [by rewrite Hkid, Hkg|by apply Hap].
  - intros x b Hx Hbo Hbt. destruct (Hl x b Hx) as [[-> ->]|[Hne Hx']].
    + right. exists k'. cbn. split_and!; [set_solver|done|by apply Hb'].
    + destruct (Hup x b Hx' Hbo Hbt) as [?|(y & Hy & Hyg & Hyb)]; [by left|right].
      exists y. cbn. split_and!; [apply Hmem'; congruence|done|done].
  - intros j x Hx. destruct (Hbk j x Hx) as (b & Hxb & Hbid & Hh).
    destruct (decide (x = g)) as [->|Hne].
    + exists a'. cbn. rewrite lookup_insert_eq. assert (b = a) as -> by congruence.
      split_and!; [done|congruence|]. unfold record_held in *. cbn.
      assert (Hj : bk_open (w_book w) !! kl_id k = Some g) by (rewrite <- Hida, Hbid; exact Hx).
      destruct Hh as [?|[?|[?|[[_ Hlv]|(y & Hy & Hyg & Hyk)]]]];
        [congruence|congruence|auto| |].
      * exfalso. apply Hapart. by rewrite <- Hida.
      * do 4 right. exists k'. split_and!; [set_solver|done|]. apply (Hkeep Hj).
        rewrite Hc, elem_of_app, elem_of_cons in Hy. destruct Hy as [Hy|[->|Hy]]; [|done|];
          by destruct (Hother y) as [_ ?]; [auto|].
    + exists b. cbn. rewrite lookup_insert_ne by done. split_and!; [done|done|].
      unfold record_held in *. cbn.
      destruct Hh as [?|[?|[?|[?|(y & Hy & Hyg & Hyk)]]]]; auto.
      do 4 right. exists y. split_and!; [apply Hmem'; congruence|done|done].
  - intros x b Hx Hd. destruct (Hl x b Hx) as [[-> ->]|[Hne Hx']]; [|by apply Hown].
    exfalso. destruct Hd as [[_ Hlv]|[Hd _]]; [|congruence].
    apply Hapart. rewrite <- Hida, <- Hid. exact Hlv.
Qed.

(** A closer leaves. *)
Lemma inv_closer_gone w l1 k l2 :
  Inv w -> w_closers w = l1 ++ k :: l2 -> kl_phase k = KAwait ->
  (keeps_record k -> bk_open (w_book w) !! kl_id k <> Some (kl_generation k)) ->
  Inv (with_closers (l1 ++ l2) w).
Proof.
  intros HI Hc Hp Hk.
  assert (Hkin : k ∈ w_closers w) by (rewrite Hc; set_solver).
  destruct (i_closers w HI k Hkin) as (a & Ha & Hida & Hoa & Hka).
  assert (Hsub : forall x, x ∈ l1 ++ l2 -> x ∈ w_closers w) by (intros x; rewrite Hc; set_solver).
  assert (Hrest : forall x, x ∈ w_closers w -> x = k \/ x ∈ l1 ++ l2).
  { intros x. rewrite Hc, !elem_of_app, elem_of_cons. tauto. }
  destruct HI as [Hr Hgs Hat Hen Hop Hn Hcl Hnd Hap Hup Hbk Hown]. split; try done.
  - intros x Hx. by apply Hcl, Hsub.
  - cbn. rewrite Hc in Hnd. rewrite fmap_app, fmap_cons in Hnd. rewrite fmap_app.
    apply NoDup_app in Hnd as (? & Hd1 & [_ ?]%NoDup_cons). apply NoDup_app.
    split_and!; [done| |done]. intros x Hx Hx2. apply (Hd1 x Hx). by right.
  - intros x Hx. by apply Hap, Hsub.
  - intros x b Hx Hbo Hbt. destruct (Hup x b Hx Hbo Hbt) as [?|(y & Hy & Hyg & Hyb)]; [by left|right].
    destruct (Hrest y Hy) as [->|Hy']; [|by exists y]. unfold before_stop in Hyb. by rewrite Hp in Hyb.
  - intros j x Hx. destruct (Hbk j x Hx) as (b & Hxb & Hbid & Hh). exists b.
    split_and!; [done|done|]. unfold record_held in *. cbn.
    destruct Hh as [?|[?|[?|[?|(y & Hy & Hyg & Hyk)]]]]; auto.
    destruct (Hrest y Hy) as [->|Hy']; [|do 4 right; by exists y].
    exfalso. apply (Hk Hyk). rewrite Hyg, <- Hida. assert (b = a) as -> by congruence.
    rewrite Hbid. exact Hx.
Qed.
(** *** Every step *)

Lemma seed_into_orphans now records r :
  (forall id e, rg_sessions r !! id = Some e -> entry_generation e = None) ->
  let r' := fst (seed_into now records r) in
  rg_next r' = rg_next r /\
  forall id e, rg_sessions r' !! id = Some e -> entry_generation e = None.
Proof.
  revert r. induction records as [|rec records IH]; intros r Hr; [done|]. cbn.
  destruct (session_id (rr_id rec)) as [id|]; [|by apply IH].
  pose proof (IH (seed_orphan now id (rr_host rec) (rr_connected_since rec) r)) as IH1.
  destruct (seed_into now records _) as [r1 seeded]. cbn in *. apply IH1.
  intros j e. destruct (decide (j = id)) as [->|Hne].
  - rewrite lookup_insert_eq. by intros [= <-].
  - rewrite lookup_insert_ne by done. apply Hr.
Qed.

Lemma registry_inv_init now records io (d : D) : Inv (world_init (S := S) now records io d).
Proof.
  unfold world_init. pose proof (seed_into_orphans now records registry_new) as Hs.
  destruct (seed_into now records registry_new) as [r seeded]. cbn in Hs.
  destruct Hs as [Hnext Hs]; [by intros ? ?; rewrite lookup_empty|].
  assert (Hb : bk_open (purge_seeded io seeded (book_new d)) = ∅).
  { unfold purge_seeded. by rewrite flush_open. }
  split; cbn; rewrite ?Hnext, ?Hb; try done.
  - intros id e He. apply Hs in He. by destruct e.
  - intros k Hk. by apply not_elem_of_nil in Hk.
  - constructor.
  - intros k Hk. by apply not_elem_of_nil in Hk.
Qed.

Ltac att_simpl :=
  unfold att_ok, opener_ok, task_ok, wire_ok, life_ok, watched, closer_ok, record_held, record_due,
    connect_cancel, connect_failed, connect_ready, guard_drain, begin_close, hook_wake, hook_lease,
    close_stop, close_start, delivered_error, receiving, refused_error, lifecycle_of in *; cbn in *.

(** [att_ok] of a changed attempt, piece by piece. *)
Ltac att_pieces Hok :=
  destruct Hok as (Hop & Htk & Hwr & Hlf & Hhk);
  refine (conj _ (conj _ (conj _ (conj _ _))));
  [clear Htk Hwr Hlf Hhk; unfold opener_ok in *|clear Hop Hwr Hlf Hhk; unfold task_ok in *
  |clear Hop Htk Hlf Hhk; unfold wire_ok in *|clear Hop Htk Hwr Hhk; unfold life_ok in *
  |clear Hop Htk Hwr Hlf].

Lemma inv_step_claim w now id name host bootstrap r g :
  Inv w -> claim now id (w_reg w) = (r, Ok g) -> rg_next r <> 0 ->
  Inv (with_att g (new_attempt id name host bootstrap g) (with_reg r w)).
Proof.
  intros HI Hcl Hne. unfold claim in Hcl.
  destruct (rg_sessions (w_reg w) !! id) eqn:Eid; [done|]. injection Hcl as <- <-. cbn in Hne.
  pose proof (i_range w HI) as Hr.
  assert (rg_next (w_reg w) + 1 < 2 ^ 64) as Hlt.
  { destruct (decide (rg_next (w_reg w) + 1 = 2 ^ 64)) as [Heq|]; [|lia].
    rewrite Heq, Z.mod_same in Hne by done. done. }
  rewrite Z.mod_small by lia. set (g := rg_next (w_reg w)) in *.
  assert (Hfresh : forall a, w_att w !! g <> Some a).
  { intros a Ha. pose proof (i_gens w HI g a Ha). lia. }
  apply (inv_own_entry w g (new_attempt id name host bootstrap g) (Some (Connecting now g)) (g + 1));
    cbn; try done.
  - lia.
  - lia.
  - intros a Ha. by apply Hfresh in Ha.
  - att_simpl. intuition congruence.
  - intros l. by rewrite Eid.
  - intros t x. by rewrite Eid.
  - intros _ x b Hx _. pose proof (i_gens w HI x b Hx). lia.
  - intros Hb. destruct (i_book w HI _ _ Hb) as (a & Ha & _). by apply Hfresh in Ha.
  - intros [[? _]|[? _]]; done.
Qed.

(** An attempt's placeholder is still there, or nobody finds it. *)
Lemma placeholder_cases w g a :
  Inv w -> w_att w !! g = Some a ->
  (exists t, rg_sessions (w_reg w) !! at_id a = Some (Connecting t g)) \/
  (at_cancel a <> CcOpen /\
   forall t x, rg_sessions (w_reg w) !! at_id a = Some (Connecting t x) -> x <> g).
Proof.
  intros HI Ha. assert (Hno : (forall t, rg_sessions (w_reg w) !! at_id a <> Some (Connecting t g)) ->
    at_cancel a <> CcOpen).
  { intros Hno Hc. destruct (i_open w HI g a Ha Hc) as [t Ht]. by apply (Hno t). }
  destruct (rg_sessions (w_reg w) !! at_id a) as [[t x| |]|] eqn:E;
    [|right; split; [by apply Hno|done]..].
  destruct (decide (x = g)) as [->|Hne]; [left; by exists t|right].
  split; [apply Hno; congruence|congruence].
Qed.

(** [cancel_connecting] for its own attempt. *)
Lemma inv_cancel_own w g a next :
  Inv w -> w_att w !! g = Some a -> at_hook a = HNone -> at_open a <> OOk ->
  at_open a <> ORecorded -> at_open a <> ORefused -> next <> OOk -> next <> ORecorded ->
  (forall c, c <> CcOpen -> (at_cancel a = CcOpen \/ c = at_cancel a) ->
    att_ok (set_open next (set_cancel c a))) ->
  Inv (cancel_own g a next w).
Proof.
  intros HI Ha Hh Ho Hrec Href Hn Hn' Hok. unfold cancel_own, cancel_connecting. cbn.
  assert (Hheld : forall w', w_closers w' = w_closers w -> record_held w g a ->
    record_held w' g (set_open next (set_cancel CcDropped a)) /\ record_held w' g (set_open next a)).
  { intros w' Hc. unfold record_held. cbn. rewrite Hc. intros [?|[?|[?|[[? _]|?]]]]; try congruence.
    split; by do 4 right. }
  assert (Hbk : bk_open (w_book w) !! at_id a = Some g -> record_held w g a).
  { intros Hb. destruct (i_book w HI _ _ Hb) as (b & Hb' & _ & Hr). congruence. }
  destruct (placeholder_cases w g a HI Ha) as [[t Ht]|[Hc Hno]].
  - rewrite Ht, Z.eqb_refl.
    destruct (i_entry w HI _ _ Ht) as (b & Hb & _ & Hc). assert (b = a) as -> by congruence.
    apply (inv_own_entry w g (set_open next (set_cancel CcDropped a)) None (rg_next (w_reg w)));
      cbn; try done.
    + pose proof (i_range w HI). lia.
    + by eapply i_gens.
    + intros b Hb'. assert (b = a) as -> by congruence. done.
    + apply Hok; [done|by left].
    + intros l. congruence.
    + intros t' x. congruence.
    + intros Hb'. by apply Hheld, Hbk.
    + intros [[? _]|[? _]]; cbn in *; congruence.
  - assert ((match rg_sessions (w_reg w) !! at_id a with
      | Some (Connecting _ attempt) =>
          if attempt =? g then (set_sessions (w_reg w) (delete (at_id a) (rg_sessions (w_reg w))), true)
          else (w_reg w, false)
      | _ => (w_reg w, false) end) = (w_reg w, false)) as ->.
    { destruct (rg_sessions (w_reg w) !! at_id a) as [[t x| |]|] eqn:E; try done.
      destruct (Z.eqb_spec x g) as [->|]; [|done]. by destruct (Hno t g eq_refl). }
    assert (with_reg (w_reg w) w = w) as -> by by destruct w.
    apply (inv_att w g a); try done.
    + apply (Hok (at_cancel a) Hc). by right.
    + intros Hb _. by apply Hheld, Hbk.
    + intros [[? _]|[? _]]; cbn in *; congruence.
Qed.
Lemma inv_promoted w g a frame now wall r :
  Inv w -> w_att w !! g = Some a -> at_open a = ORecorded ->
  promote (at_id a) (new_entry g (at_name a) (at_host a) frame now wall) (w_reg w) = (r, true) ->
  Inv (with_att g (set_hook HWatch (set_cancel CcDropped (set_open OOk a))) (with_reg r w)).
Proof.
  intros HI Ha Ho Hp. unfold promote in Hp. cbn in Hp.
  destruct (rg_sessions (w_reg w) !! at_id a) as [[t x| |]|] eqn:E; try done.
  destruct (Z.eqb_spec x g) as [->|]; [|done]. injection Hp as <-.
  destruct (i_entry w HI _ _ E) as (b & Hb & _ & Hc). assert (b = a) as -> by congruence.
  pose proof (i_att w HI g a Ha) as Hok.
  apply (inv_own_entry w g (set_hook HWatch (set_cancel CcDropped (set_open OOk a)))
           (Some (Live (new_entry g (at_name a) (at_host a) frame now wall))) (rg_next (w_reg w)));
    cbn; try done.
  - pose proof (i_range w HI). lia.
  - by eapply i_gens.
  - intros b Hb'. assert (b = a) as -> by congruence. split; [done|congruence].
  - att_simpl. rewrite Ho in *. destruct (at_task a), (at_wire a); intuition congruence.
  - intros l. congruence.
  - intros t' x'. congruence.
  - att_simpl. rewrite Ho in *. intuition congruence.
  - intros _ x b Hx Hid. by eapply (i_newest w HI _ _ g).
  - intros _. unfold record_held. cbn. do 3 right. left. split; [done|]. eexists. cbn.
    rewrite lookup_partial_alter_eq. done.
  - intros _. apply (i_owned w HI g a Ha). by right.
Qed.

Lemma inv_recorded w g a io wall :
  Inv w -> w_att w !! g = Some a -> at_open a = OHave ->
  Inv (with_att g (set_open ORecorded a)
         (with_book (opened io (at_id a) g (at_host a) wall (w_book w)) w)).
Proof.
  intros HI Ha Ho. pose proof (i_att w HI g a Ha) as Hok.
  assert (Hh : at_hook a = HNone).
  { att_simpl. rewrite Ho in *. destruct (at_hook a); intuition congruence. }
  pose proof (opened_open io (at_id a) g (at_host a) wall (w_book w)) as Hop.
  assert (Hcase : bk_open (opened io (at_id a) g (at_host a) wall (w_book w)) =
                    <[at_id a := g]> (bk_open (w_book w)) \/
    exists o, bk_open (w_book w) !! at_id a = Some o /\ g <= o /\
      bk_open (opened io (at_id a) g (at_host a) wall (w_book w)) = bk_open (w_book w)).
  { destruct (bk_open (w_book w) !! at_id a) as [o|]; [|by left].
    destruct (Z.leb_spec g o); [right; by exists o|by left]. }
  apply (inv_att_book w g a); try done; att_simpl; rewrite ?Ho in *.
  - destruct (at_task a), (at_wire a); intuition congruence.
  - intuition congruence.
  - intros id x Hx. destruct (decide (x = g)) as [->|Hne].
    + left. split; [done|]. split; [|by left]. destruct Hcase as [Hi|(o & Hob & Hle & Hi)].
      * rewrite Hi in Hx. destruct (decide (id = at_id a)); [done|].
        rewrite lookup_insert_ne in Hx by done. destruct (i_book w HI id g Hx) as (b & ? & ? & _). congruence.
      * rewrite Hi in Hx. destruct (i_book w HI id g Hx) as (b & ? & ? & _). congruence.
    + right. split; [done|]. destruct Hcase as [Hi|(o & _ & _ & Hi)]; rewrite Hi in Hx; [|done].
      destruct (decide (id = at_id a)) as [->|]; [|by rewrite lookup_insert_ne in Hx].
      rewrite lookup_insert_eq in Hx. congruence.
  - intros x b Hx Hne Hd. pose proof (i_owned w HI x b Hx Hd) as Hown.
    destruct Hcase as [Hi|(o & _ & _ & Hi)]; rewrite Hi; [|done].
    destruct (decide (at_id b = at_id a)) as [Heq|]; [|by rewrite lookup_insert_ne].
    exfalso. pose proof (due_newest w x b g a HI Hx Hd Ha (eq_sym Heq)).
    rewrite Heq in Hown. rewrite Hown in Hop. rewrite (proj2 (Z.leb_le _ _)) in Hop by done.
    rewrite Hop in Hi. apply (f_equal (lookup (at_id a))) in Hi.
    rewrite lookup_insert_eq in Hi. congruence.
  - rewrite Hh. intros [[? _]|[_ Hc]]; [done|]. destruct (i_open w HI g a Ha Hc) as [t Ht].
    destruct Hcase as [Hi|(o & Hob & Hle & Hi)]; rewrite Hi; [by rewrite lookup_insert_eq|].
    destruct (i_book w HI _ o Hob) as (b & Hb & Hid & _).
    pose proof (i_newest w HI _ _ g o b Ht eq_refl Hb Hid). rewrite Hob. f_equal. lia.
Qed.
Lemma inv_orphans w l : Inv w -> Inv (with_orphans l w).
Proof. intros []. by split. Qed.

Lemma inv_map w (m' : gmap text SessionEntry) :
  Inv w -> (forall id, entry_kept [] id (rg_sessions (w_reg w) !! id) (m' !! id)) ->
  Inv (with_reg (set_sessions (w_reg w) m') w).
Proof.
  intros HI Hm.
  assert (with_reg (set_sessions (w_reg w) m') w =
          with_closers (w_closers w ++ []) (with_reg (set_sessions (w_reg w) m') w)) as ->.
  { unfold with_closers. cbn. by rewrite app_nil_r. }
  apply inv_take; [done|done| |constructor]. intros k Hk. by apply not_elem_of_nil in Hk.
Qed.

Lemma entry_kept_refl ks id (e : option SessionEntry) : entry_kept ks id e e.
Proof. by destruct e as [[]|]. Qed.

Lemma inv_take_live w id l drop :
  Inv w -> rg_sessions (w_reg w) !! id = Some (Live l) ->
  (drop = true -> has_ended (shared_of w) (Live l) = true) ->
  Inv (with_closers (w_closers w ++ [new_closer id (le_generation l) drop])
         (with_reg (set_sessions (w_reg w) (delete id (rg_sessions (w_reg w)))) w)).
Proof.
  intros HI Hl Hd. apply inv_take; [done| | |].
  - intros j. destruct (decide (j = id)) as [->|Hne].
    + rewrite lookup_delete_eq, Hl. cbn. eexists. split; [by apply list_elem_of_singleton|done].
    + rewrite lookup_delete_ne by done. apply entry_kept_refl.
  - intros k ->%list_elem_of_singleton. split_and!; cbn; [done|by rewrite lookup_delete_eq|by exists l|].
    intros Hdt. specialize (Hd Hdt). unfold has_ended, end_cause in Hd.
    destruct (sh_lifecycle _); [by rewrite bool_decide_eq_true in Hd; destruct Hd|done].
  - apply NoDup_singleton.
Qed.

Lemma inv_drop_orphan w id at_ host since :
  Inv w -> rg_sessions (w_reg w) !! id = Some (Orphaned at_ host since) ->
  Inv (with_reg (set_sessions (w_reg w) (delete id (rg_sessions (w_reg w)))) w).
Proof.
  intros HI Ho. apply inv_map; [done|]. intros j. destruct (decide (j = id)) as [->|Hne].
  - rewrite lookup_delete_eq, Ho. done.
  - rewrite lookup_delete_ne by done. apply entry_kept_refl.
Qed.

Lemma with_reg_same w : with_reg (w_reg w) w = w.
Proof. by destruct w. Qed.

Lemma inv_close_request w id reason : Inv w -> Inv (close_request id reason w).
Proof.
  intros HI. unfold close_request, close_take.
  destruct (rg_sessions (w_reg w) !! id) as [[t g|l|at_ host since]|] eqn:E.
  - destruct (i_entry w HI _ _ E) as (a & Ha & <- & Hc).
    assert (Hkeep : Inv (with_reg (w_reg w) w)) by by rewrite with_reg_same.
    destruct reason; [|done..]. cbn. rewrite Ha. pose proof (i_att w HI g a Ha) as Hok.
    apply (inv_own_entry w g (set_cancel CcSent a) None (rg_next (w_reg w))); cbn; try done.
    + pose proof (i_range w HI). lia.
    + by eapply i_gens.
    + intros b Hb. assert (b = a) as -> by congruence. split; [done|]. intros Ho.
      att_simpl. rewrite Ho in Hok. intuition congruence.
    + att_pieces Hok; cbn; try done. rewrite Hc in Hop. destruct (at_open a); intuition congruence.
    + intros l. congruence.
    + intros t' x. congruence.
    + split; [done|]. intros Ho. att_simpl. rewrite Ho in Hok. intuition congruence.
    + intros Hb. destruct (i_book w HI _ _ Hb) as (b & Hb' & _ & Hh).
      assert (b = a) as -> by congruence. unfold record_held in *. cbn.
      destruct Hh as [?|[?|[?|[[_ (l & Hl & _)]|?]]]]; [auto..| |auto 6]. congruence.
    + intros [[Hh _]|[_ ?]]; [|done]. cbn in Hh. exfalso.
      att_simpl. rewrite Hh in Hok. destruct (at_open a); intuition congruence.
  - by apply (inv_take_live w id l false).
  - apply inv_orphans. by eapply inv_drop_orphan.
  - by rewrite with_reg_same.
Qed.

Lemma inv_release_request w id : Inv w -> Inv (release_request id w).
Proof.
  intros HI. unfold release_request, release_take.
  destruct (rg_sessions (w_reg w) !! id) as [[t g|l|at_ host since]|] eqn:E;
    [by rewrite with_reg_same| | |by rewrite with_reg_same].
  - destruct (has_ended _ _) eqn:Eh; [|by rewrite with_reg_same]. by apply (inv_take_live w id l true).
  - apply inv_orphans. by eapply inv_drop_orphan.
Qed.

Lemma inv_generation_request w lease : Inv w -> Inv (generation_request lease w).
Proof.
  intros HI. unfold generation_request, generation_take.
  destruct (rg_sessions (w_reg w) !! cl_id lease) as [[t g|l|at_ host since]|] eqn:E;
    [by rewrite with_reg_same| |by rewrite with_reg_same..].
  destruct (_ =? _); [|by rewrite with_reg_same]. by apply (inv_take_live w (cl_id lease) l false).
Qed.

Lemma inv_touch w id expected now wall :
  Inv w -> Inv (with_reg (fst (touch_generation id expected now wall (w_reg w))) w).
Proof.
  intros HI. unfold touch_generation.
  destruct (rg_sessions (w_reg w) !! id) as [[t g|l|at_ host since]|] eqn:E;
    cbn [fst]; [by rewrite with_reg_same| |by rewrite with_reg_same..].
  destruct (_ =? _); cbn [fst]; [|by rewrite with_reg_same]. apply inv_map; [done|].
  intros j. destruct (decide (j = id)) as [->|Hne].
  - rewrite lookup_insert_eq, E. done.
  - rewrite lookup_insert_ne by done. apply entry_kept_refl.
Qed.

Lemma stamp_kept (sh : Z -> Shared S) now id e ks : entry_kept ks id (Some e) (Some (stamp_ended sh now e)).
Proof. destruct e as [| l |]; cbn; [done| |done]. by destruct (has_ended sh (Live l)). Qed.

Lemma inv_expire w now retention : Inv w -> Inv (expire_request now retention w).
Proof.
  intros HI. unfold expire_request.
  pose proof (expire_lookup (shared_of w) now retention (w_reg w)) as Hx.
  destruct (expire_take (shared_of w) now retention (w_reg w)) as [r removed] eqn:Ee.
  assert (Hr : r = set_sessions (w_reg w) (rg_sessions r)).
  { unfold expire_take in Ee. by injection Ee as <- _. }
  cbn [fst snd] in Hx. rewrite Hr. set (ks := omap expired_closer (map_to_list removed)).
  assert (Hks : forall k, k ∈ ks -> exists l, k = new_closer (kl_id k) (le_generation l) false /\
    removed !! kl_id k = Some (Live l)).
  { intros k ([id e] & Hin & Hk)%list_elem_of_omap. rewrite elem_of_map_to_list in Hin.
    unfold expired_closer in Hk. cbn in Hk. destruct e as [|l|]; try done. injection Hk as <-.
    by exists l. }
  assert (Hrem : forall id l, removed !! id = Some (Live l) ->
    rg_sessions r !! id = None /\ live_at w id (le_generation l)).
  { intros id l Hl. destruct (Hx id) as [Hs Hr']. rewrite Hl in Hr'.
    destruct (rg_sessions (w_reg w) !! id) as [e|] eqn:E; [|done].
    destruct (is_due _ _ _ e); [|done]. split; [done|]. injection Hr' as Hr'.
    destruct e as [| l0 |]; cbn in Hr'; try done. exists l0. split; [done|].
    destruct (has_ended _ (Live l0)); by injection Hr' as ->. }
  apply (inv_take (with_orphans _ w)); [by apply inv_orphans| | |].
  - intros id. cbn. destruct (Hx id) as [Hs Hr']. rewrite Hs.
    destruct (rg_sessions (w_reg w) !! id) as [e|] eqn:E; [|done].
    destruct (is_due _ _ _ e) eqn:Ed; [|apply stamp_kept].
    destruct e as [t g|l|]; [done| |done]. cbn.
    exists (new_closer id (le_generation l) false). split; [|done].
    apply list_elem_of_omap. exists (id, stamp_ended (shared_of w) now (Live l)).
    rewrite elem_of_map_to_list. split; [done|].
    unfold expired_closer. cbn. by destruct (has_ended _ (Live l)).
  - intros k Hk. destruct (Hks k Hk) as (l & -> & Hl). destruct (Hrem _ _ Hl) as [Hn Hlv].
    by split_and!.
  - apply NoDup_omap_keyed; [apply NoDup_map_to_list|].
    intros [i e] [j f] k1 k2 Hi Hj H1 H2 Hg. rewrite elem_of_map_to_list in Hi, Hj.
    unfold expired_closer in H1, H2. cbn in H1, H2. destruct e as [|l1|], f as [|l2|]; try done.
    injection H1 as <-. injection H2 as <-. cbn in Hg.
    destruct (Hrem i l1 Hi) as [_ (l1' & Hl1 & Hg1)], (Hrem j l2 Hj) as [_ (l2' & Hl2 & Hg2)].
    destruct (i_entry w HI _ _ Hl1) as (a1 & Ha1 & Hid1 & _).
    destruct (i_entry w HI _ _ Hl2) as (a2 & Ha2 & Hid2 & _).
    assert (a1 = a2) as -> by congruence. assert (i = j) as -> by congruence. congruence.
Qed.
(** A step of an attempt that is not promoted. *)
Lemma hook_none a : att_ok a -> at_open a <> OOk -> at_hook a = HNone.
Proof. intros (_ & _ & _ & _ & Hh) Ho. destruct (at_hook a); tauto || (exfalso; apply Ho, Hh; done). Qed.

Lemma inv_pending w g a a' :
  Inv w -> w_att w !! g = Some a ->
  at_id a' = at_id a -> at_open a <> OOk -> at_open a' <> OOk -> at_cancel a' = at_cancel a ->
  (bk_open (w_book w) !! at_id a = Some g -> at_open a = ORecorded \/ at_open a = ORefused ->
   at_open a' = ORecorded \/ at_open a' = ORefused) ->
  (at_open a' = ORecorded -> at_open a = ORecorded) ->
  att_ok a' -> Inv (with_att g a' w).
Proof.
  intros HI Ha Hid Ho Ho' Hc Hr Hr' Hok. pose proof (hook_none a (i_att w HI g a Ha) Ho) as Hh.
  pose proof (hook_none a' Hok Ho') as Hh'.
  apply (inv_att w g a); try done; rewrite ?Hc; try done.
  - intros (l & Hl & Hg). destruct (i_entry w HI _ _ Hl) as (b & Hb & _ & Hob & _).
    rewrite Hg in Hb. congruence.
  - intros Hbk. unfold record_held. rewrite Hh, Hh', Hid. specialize (Hr Hbk).
    intros [?|[?|[?|[[? _]|?]]]]; try done; [tauto|tauto|auto 6].
  - unfold record_due. rewrite Hh, Hh', Hc. intros [[? _]|[? ?]]; [done|left; right; auto].
Qed.

(** A step of a promoted attempt. *)
Lemma inv_registered w g a a' :
  Inv w -> w_att w !! g = Some a ->
  at_id a' = at_id a -> at_open a = OOk -> at_open a' = OOk -> at_cancel a' = at_cancel a ->
  (at_thread a' = at_thread a \/ (at_thread a = SClosing /\ at_thread a' = SClosed)) ->
  (lifecycle_of a <> LifecycleLive -> lifecycle_of a' <> LifecycleLive) ->
  (lifecycle_of a' = LifecycleLive -> at_hook a = HWatch -> at_hook a' = HWatch) ->
  (at_hook a' = HWatch -> at_hook a = HWatch) ->
  (bk_open (w_book w) !! at_id a = Some g -> record_held w g a -> record_held w g a') ->
  att_ok a' -> Inv (with_att g a' w).
Proof.
  intros HI Ha Hid Ho Ho' Hc Ht Hl Hw Hw' Hr Hok.
  apply (inv_att w g a); try done; rewrite ?Hc; try done.
  - intros _. destruct Ht as [->|[-> ->]]; [done|]. split; discriminate.
  - intros _ Hwa Hll. apply Hw; [done|]. apply Hwa.
    destruct (decide (lifecycle_of a = LifecycleLive)) as [|Hn]; [done|]. by destruct (Hl Hn).
  - intros k _. unfold closer_ok. destruct (kl_phase k), Ht as [->|[-> ->]]; intuition (done || auto).
  - unfold record_due. rewrite Hid, Hc, Ho, Ho'. intros [[? ?]|[? _]]; [left; left; auto|done].
Qed.

(** What an attempt is while its connect task runs. *)
Lemma running_shape a :
  att_ok a -> at_task a = CtRunning ->
  at_wire a = WEmpty /\ at_thread a = SNone /\ at_hook a = HNone /\
  lifecycle_of a = LifecycleLive /\
  (at_open a = OWaiting \/ at_open a = ODropping \/ at_open a = OGone).
Proof.
  intros Hok Ht. pose proof Hok as (_ & Htask & _ & Hlife & _). unfold task_ok in Htask.
  rewrite Ht in Htask. destruct Htask as (Hw & Hth & Ho). unfold life_ok in Hlife.
  rewrite Hth in Hlife. split_and!; try done. apply hook_none; [done|]. intuition congruence.
Qed.

Ltac att_cases a :=
  destruct a as [id0 name0 host0 boot0 cancel0 task0 wire0 open0 thread0 hook0 [lc0 ctl0 n0 b0] answer0];
  att_simpl; subst; cbn in *.

Lemma connect_task_ok a a' :
  att_ok a -> at_task a = CtRunning ->
  a' = connect_cancel a /\ at_cancel a <> CcOpen \/ (exists e, a' = connect_failed e (set_answer (Some e) a)) \/
  a' = connect_ready a -> att_ok a'.
Proof.
  intros Hok Ht Ha'. destruct (running_shape a Hok Ht) as (Hw & Hth & Hh & Hl & Ho).
  destruct Hok as (Hop & _). unfold opener_ok in Hop. rewrite Hth in Hop.
  destruct a as [id0 name0 host0 boot0 cancel0 task0 wire0 open0 thread0 hook0 [lc0 ctl0 n0 b0]].
  unfold lifecycle_of in Hl. cbn in *. subst.
  destruct Ha' as [[-> Hc]|[[e ->]| ->]]; destruct Ho as [->|[->| ->]]; try destruct cancel0;
    unfold connect_cancel, connect_failed, connect_ready, att_ok, opener_ok, task_ok, wire_ok, life_ok;
    cbn in *; intuition (discriminate || congruence).
Qed.

Lemma inv_connect_task w g a a' :
  Inv w -> w_att w !! g = Some a -> at_task a = CtRunning ->
  a' = connect_cancel a /\ at_cancel a <> CcOpen \/ (exists e, a' = connect_failed e (set_answer (Some e) a)) \/
  a' = connect_ready a ->
  Inv (with_att g a' w).
Proof.
  intros HI Ha Ht Ha'. pose proof (i_att w HI g a Ha) as Hok.
  destruct (running_shape a Hok Ht) as (_ & _ & _ & _ & Ho).
  assert (Hf : at_id a' = at_id a /\ at_open a' = at_open a /\ at_cancel a' = at_cancel a).
  { unfold connect_cancel, connect_failed, connect_ready in Ha'.
    destruct Ha' as [[-> _]|[[e ->]| ->]]; [destruct (at_cancel a) eqn:Ec| |];
      try destruct (receiving _); cbn; rewrite ?Ec; repeat split. }
  destruct Hf as (Hid & Ho' & Hc). apply (inv_pending w g a); try done.
  - intuition congruence.
  - intuition congruence.
  - by rewrite Ho'.
  - by rewrite Ho'.
  - by eapply connect_task_ok.
Qed.
Lemma inv_drained w g a :
  Inv w -> w_att w !! g = Some a -> at_open a = ODropping -> Inv (with_att g (guard_drain a) w).
Proof.
  intros HI Ha Ho. pose proof (i_att w HI g a Ha) as Hok.
  assert (Hf : at_id (guard_drain a) = at_id a /\ at_open (guard_drain a) = OGone /\
               at_cancel (guard_drain a) = at_cancel a).
  { unfold guard_drain. by destruct (at_wire a). }
  destruct Hf as (Hid & Ho' & Hc). apply (inv_pending w g a); try done; try congruence.
  - intros _. intuition congruence.
  - assert (Hth : at_thread a = match at_wire a with WSession => SUp | _ => SNone end).
    { destruct Hok as (Hop & _ & Hwr & _). unfold opener_ok, wire_ok in *. rewrite Ho in Hop.
      destruct (at_wire a); intuition congruence. }
    clear Hid Ho' Hc. unfold guard_drain.
    destruct (at_wire a) eqn:Ew; att_pieces Hok; rewrite ?Ho in *; cbn in *;
      rewrite ?Hth, ?Ew in *; try done; try (destruct (at_task a); intuition congruence).
    unfold lifecycle_of. cbn. by destruct (sh_lifecycle (at_shared a)).
Qed.

Lemma inv_refused w g a frame now wall r :
  Inv w -> w_att w !! g = Some a -> at_open a = ORecorded ->
  promote (at_id a) (new_entry g (at_name a) (at_host a) frame now wall) (w_reg w) = (r, false) ->
  Inv (with_att g (set_open ORefused a) w).
Proof.
  intros HI Ha Ho Hp. pose proof (i_att w HI g a Ha) as Hok.
  assert (Hc : at_cancel a <> CcOpen).
  { intros Hc. destruct (i_open w HI g a Ha Hc) as [t Ht]. unfold promote in Hp. cbn in Hp.
    by rewrite Ht, Z.eqb_refl in Hp. }
  apply (inv_pending w g a); try done; att_cases a; try destruct task0, wire0; cbn in *;
    intuition congruence.
Qed.

(** Closing the record of its own attempt leaves none. *)
Lemma closed_not_owned io id g (b : Book D) : bk_open (fst (closed io id g b)) !! id <> Some g.
Proof. rewrite closed_open. case_decide as Hc; [done|]. intros ?. by apply Hc. Qed.

Lemma inv_refused_record w g a io :
  Inv w -> w_att w !! g = Some a -> at_open a = ORefused ->
  Inv (with_att g (set_open OUnrecorded a) (with_book (fst (closed io (at_id a) g (w_book w))) w)).
Proof.
  intros HI Ha Ho. pose proof (i_att w HI g a Ha) as Hok.
  assert (HI' : Inv (with_book (fst (closed io (at_id a) g (w_book w))) w)).
  { apply inv_closed; [done|]. intros b Hb _. assert (b = a) as -> by congruence.
    pose proof (hook_none a Hok ltac:(congruence)) as Hh. unfold record_due. rewrite Hh, Ho.
    intros [[? _]|[? _]]; done. }
  apply (inv_pending _ g a _ HI'); try done.
  - congruence.
  - intros Hb. by apply closed_not_owned in Hb.
  - att_cases a; try destruct task0, wire0; cbn in *; intuition congruence.
Qed.

Lemma inv_session_ends w g a cause :
  Inv w -> w_att w !! g = Some a -> at_thread a = SUp -> cause <> ClientClosed ->
  Inv (with_att g (set_shared (with_lifecycle (lifecycle_end cause (lifecycle_of a)) (at_shared a)) a) w).
Proof.
  intros HI Ha Ht Hc. pose proof (i_att w HI g a Ha) as Hok.
  assert (Hok' : att_ok (set_shared (with_lifecycle (lifecycle_end cause (lifecycle_of a)) (at_shared a)) a)).
  { att_cases a. destruct lc0; cbn; intuition congruence. }
  destruct (at_open a) eqn:Ho; try (apply (inv_pending w g a); cbn; congruence || done || tauto).
  apply (inv_registered w g a); cbn; try done.
  - by left.
  - unfold lifecycle_of. cbn. by destruct (sh_lifecycle (at_shared a)).
Qed.

Lemma inv_session_closed w g a :
  Inv w -> w_att w !! g = Some a -> at_thread a = SClosing -> Inv (with_att g (set_thread SClosed a) w).
Proof.
  intros HI Ha Ht. pose proof (i_att w HI g a Ha) as Hok.
  assert (Hok' : att_ok (set_thread SClosed a)).
  { att_pieces Hok; cbn; rewrite ?Ht in *; [| | | |done].
    - destruct (at_open a); intuition congruence.
    - destruct (at_task a); intuition congruence.
    - destruct (at_wire a); intuition congruence.
    - exact Hlf. }
  destruct (at_open a) eqn:Ho; try (apply (inv_pending w g a); cbn; congruence || done || tauto).
  apply (inv_registered w g a); cbn; try done. by right.
Qed.

Lemma hook_open a : att_ok a -> at_hook a <> HNone -> at_open a = OOk.
Proof. intros (_ & _ & _ & _ & Hh). apply Hh. Qed.

(** The end of a registered session is seen by its hook. *)
Lemma inv_hook_wake w g a :
  Inv w -> w_att w !! g = Some a -> at_hook a = HWatch -> lifecycle_of a <> LifecycleLive ->
  Inv (with_att g (hook_wake a) w).
Proof.
  intros HI Ha Hh Hl. pose proof (i_att w HI g a Ha) as Hok.
  assert (Ho : at_open a = OOk) by (apply hook_open; congruence).
  assert (Hcase : hook_wake a = set_hook HWoken a \/
                  hook_wake a = set_hook HOff a /\ lifecycle_of a = LifecycleEnded ClientClosed).
  { unfold hook_wake. destruct (lifecycle_of a) as [|[| |]]; auto. done. }
  assert (Hlive : lifecycle_of a = LifecycleEnded ClientClosed -> ~ live_at w (at_id a) g).
  { intros Hlc (l & Hl1 & Hg). destruct (i_entry w HI _ _ Hl1) as (b & Hb & _ & _ & Hth & _).
    rewrite Hg in Hb. assert (b = a) as -> by congruence.
    destruct Hok as (_ & _ & _ & Hlife & _). unfold life_ok in Hlife. by rewrite Hth in Hlife. }
  apply (inv_registered w g a); try done.
  - by destruct Hcase as [->|[-> _]].
  - by destruct Hcase as [->|[-> _]].
  - by destruct Hcase as [->|[-> _]].
  - destruct Hcase as [->|[-> _]]; by left.
  - by destruct Hcase as [->|[-> _]].
  - destruct Hcase as [->|[-> _]]; done.
  - intros _. unfold record_held. destruct Hcase as [->|[-> Hlc]]; cbn; [tauto|].
    specialize (Hlive Hlc). rewrite Hh. intuition congruence.
  - destruct Hcase as [->|[-> _]]; att_cases a; intuition congruence.
Qed.

Lemma inv_hook_record w g a io :
  Inv w -> w_att w !! g = Some a -> at_hook a = HWoken ->
  Inv (with_att g (set_hook HLease a) (with_book (fst (closed io (at_id a) g (w_book w))) w)).
Proof.
  intros HI Ha Hh. pose proof (i_att w HI g a Ha) as Hok.
  assert (Ho : at_open a = OOk) by (apply hook_open; congruence).
  assert (HI' : Inv (with_book (fst (closed io (at_id a) g (w_book w))) w)).
  { apply inv_closed; [done|]. intros b Hb _. assert (b = a) as -> by congruence.
    unfold record_due. rewrite Hh, Ho. intros [[? _]|[? _]]; done. }
  apply (inv_registered _ g a _ HI'); try done; cbn.
  - by left.
  - congruence.
  - intros Hb. by apply closed_not_owned in Hb.
  - att_cases a. intuition congruence.
Qed.

Lemma inv_hook_lease w g a clk :
  Inv w -> w_att w !! g = Some a -> at_hook a = HLease -> Inv (with_att g (hook_lease clk a) w).
Proof.
  intros HI Ha Hh. pose proof (i_att w HI g a Ha) as Hok.
  assert (Ho : at_open a = OOk) by (apply hook_open; congruence).
  apply (inv_registered w g a); try done; cbn.
  - by left.
  - congruence.
  - intros _. unfold record_held. cbn. rewrite Hh. intuition congruence.
  - att_cases a. intuition congruence.
Qed.

Lemma inv_shared w g a s :
  Inv w -> w_att w !! g = Some a -> sh_lifecycle s = lifecycle_of a -> Inv (with_att g (set_shared s a) w).
Proof.
  intros HI Ha Hs. pose proof (i_att w HI g a Ha) as Hok.
  assert (Hlc : lifecycle_of (set_shared s a) = lifecycle_of a) by done.
  assert (Hok' : att_ok (set_shared s a)).
  { unfold att_ok, life_ok in *. rewrite Hlc. done. }
  destruct (at_open a) eqn:Ho; try (apply (inv_pending w g a); cbn; congruence || done || tauto).
  apply (inv_registered w g a); cbn; try done; [by left|by rewrite Hlc].
Qed.
(** *** The sections of a close *)

Lemma closer_att w l1 k l2 a :
  Inv w -> w_closers w = l1 ++ k :: l2 -> w_att w !! kl_generation k = Some a ->
  at_open a = OOk /\ at_id a = kl_id k /\ closer_ok k a /\ att_ok a.
Proof.
  intros HI Hc Ha. destruct (i_closers w HI k) as (b & Hb & Hid & Ho & Hk); [rewrite Hc; set_solver|].
  assert (b = a) as -> by congruence. split_and!; try done. by eapply i_att.
Qed.

Lemma inv_close_start w l1 k l2 a :
  Inv w -> w_closers w = l1 ++ k :: l2 -> kl_phase k = KStart -> w_att w !! kl_generation k = Some a ->
  Inv (with_closers (l1 ++ set_phase (KRecord (fst (close_start a))) k :: l2)
         (with_att (kl_generation k) (snd (close_start a)) w)).
Proof.
  intros HI Hc Hp Ha. destruct (closer_att w l1 k l2 a HI Hc Ha) as (Ho & Hid & Hk & Hok).
  unfold closer_ok in Hk. rewrite Hp in Hk. destruct Hk as [Ht Hd].
  assert (Hf : at_id (snd (close_start a)) = at_id a /\ at_open (snd (close_start a)) = at_open a /\
    at_thread (snd (close_start a)) = at_thread a /\ at_hook (snd (close_start a)) <> HWatch /\
    (at_hook a = HWoken -> at_hook (snd (close_start a)) = HWoken)).
  { unfold close_start. cbn. destruct (at_hook a) eqn:Eh; cbn; rewrite ?Eh; done. }
  destruct Hf as (Hid' & Ho' & Ht' & Hh & Hh').
  apply (inv_closer w l1 k _ l2 a); try done; try congruence.
  - split; [exact (eq_trans Ht' Ht)|]. cbn. intros Hdr. by apply bool_decide_eq_true, Hd.
  - unfold close_start. cbn. destruct (at_hook a) eqn:Eh; try done.
    att_pieces Hok; try done; cbn; intuition congruence.
Qed.

Lemma inv_close_record w l1 k l2 ended io :
  Inv w -> w_closers w = l1 ++ k :: l2 -> kl_phase k = KRecord ended ->
  Inv (with_closers (l1 ++ set_phase KStop k :: l2)
         (if ended then with_book (fst (closed io (kl_id k) (kl_generation k) (w_book w))) w else w)).
Proof.
  intros HI Hc Hp.
  destruct (i_closers w HI k) as (a & Ha & Hid & Ho & Hk); [rewrite Hc; set_solver|].
  pose proof (i_att w HI _ a Ha) as Hok.
  assert (Hap : ~ live_at w (kl_id k) (kl_generation k)) by (apply (i_apart w HI); rewrite Hc; set_solver).
  unfold closer_ok in Hk. rewrite Hp in Hk. destruct Hk as [Ht Hd].
  set (w1 := if ended then _ else w).
  assert (Hw1 : Inv w1 /\ w_closers w1 = w_closers w /\ w_att w1 = w_att w /\
    (bk_open (w_book w1) !! kl_id k = Some (kl_generation k) -> ended = false)).
  { unfold w1. destruct ended; [|done]. split_and!; try done.
    - apply inv_closed; [done|]. intros b Hb _. assert (b = a) as -> by congruence.
      unfold record_due. rewrite Hid, Ho. intros [[_ ?]|[? _]]; done.
    - intros Hb. by apply closed_not_owned in Hb. }
  destruct Hw1 as (HI1 & Hc1 & Ha1 & Hb1).
  assert (w_att w1 !! kl_generation k = Some a) as Hka by by rewrite Ha1.
  assert (with_closers (l1 ++ set_phase KStop k :: l2) w1 =
    with_closers (l1 ++ set_phase KStop k :: l2) (with_att (kl_generation k) a w1)) as ->.
  { unfold with_closers, with_att. cbn. by rewrite insert_id. }
  apply (inv_closer w1 l1 k _ l2 a); try done; [congruence|].
  intros Hb _. specialize (Hb1 Hb). cbn. destruct (kl_drop k); [|done].
  rewrite Hd in Hb1; done.
Qed.

Lemma begin_close_ok a clk :
  att_ok a -> at_open a = OOk -> at_thread a = SUp -> att_ok (close_stop clk a).
Proof.
  intros Hok Ho Ht. att_pieces Hok; cbn; rewrite ?Ho, ?Ht in *; try done.
  - by destruct Hop as [_ ?].
  - destruct (at_task a); intuition congruence.
  - destruct (at_wire a); intuition congruence.
  - unfold lifecycle_of. cbn. by destruct (sh_lifecycle (at_shared a)).
Qed.

Lemma inv_close_stop w l1 k l2 a clk :
  Inv w -> w_closers w = l1 ++ k :: l2 -> kl_phase k = KStop -> w_att w !! kl_generation k = Some a ->
  Inv (with_closers (l1 ++ set_phase KAwait k :: l2)
         (with_att (kl_generation k) (close_stop clk a) w)).
Proof.
  intros HI Hc Hp Ha. destruct (closer_att w l1 k l2 a HI Hc Ha) as (Ho & Hid & Hk & Hok).
  unfold closer_ok in Hk. rewrite Hp in Hk.
  apply (inv_closer w l1 k _ l2 a); try done.
  - by left.
  - by apply begin_close_ok.
  - unfold keeps_record. by rewrite Hp.
Qed.

Lemma inv_close_done w l1 k l2 io :
  Inv w -> w_closers w = l1 ++ k :: l2 -> kl_phase k = KAwait ->
  Inv (with_closers (l1 ++ l2) (with_book (fst (closed io (kl_id k) (kl_generation k) (w_book w))) w)).
Proof.
  intros HI Hc Hp.
  destruct (i_closers w HI k) as (a & Ha & Hid & Ho & Hk); [rewrite Hc; set_solver|].
  assert (Hap : ~ live_at w (kl_id k) (kl_generation k)) by (apply (i_apart w HI); rewrite Hc; set_solver).
  apply (inv_closer_gone _ l1 k l2); try done.
  - apply inv_closed; [done|]. intros b Hb _. assert (b = a) as -> by congruence.
    unfold record_due. rewrite Hid, Ho. intros [[_ ?]|[? _]]; done.
  - intros _. apply closed_not_owned.
Qed.

Lemma inv_close_dropped w l1 k l2 :
  Inv w -> w_closers w = l1 ++ k :: l2 -> kl_phase k = KAwait -> kl_drop k = true ->
  Inv (with_closers (l1 ++ l2) w).
Proof.
  intros HI Hc Hp Hd. apply (inv_closer_gone _ l1 k l2); try done.
  unfold keeps_record. rewrite Hp, Hd. discriminate.
Qed.

Lemma inv_orphan_record w l1 l2 io id :
  Inv w -> Inv (with_orphans (l1 ++ l2) (with_book (closed_orphan io id (w_book w)) w)).
Proof.
  intros HI. apply inv_orphans, inv_with_book; [done| |].
  - intros j g. by rewrite closed_orphan_open.
  - intros g a Ha Hd. rewrite closed_orphan_open. by apply i_owned.
Qed.

(** *** The pending steps of [open_tracked] *)

Lemma inv_received w g a s :
  Inv w -> w_att w !! g = Some a -> at_open a = OWaiting -> at_wire a = WSession ->
  sh_lifecycle s = lifecycle_of a ->
  Inv (with_att g (set_shared s (set_open OHave (set_wire WEmpty a))) w).
Proof.
  intros HI Ha Ho Hw Hs. pose proof (i_att w HI g a Ha) as Hok.
  apply (inv_pending w g a); try done; try congruence; cbn; [intuition congruence|].
  assert (Ht : at_thread a = SUp).
  { destruct Hok as (_ & _ & Hwr & _). unfold wire_ok in Hwr. rewrite Hw in Hwr. tauto. }
  att_pieces Hok; cbn; rewrite ?Ho, ?Ht in *; try done.
  - destruct (at_task a); intuition congruence.
  - unfold lifecycle_of. cbn. by rewrite Hs.
  - intuition congruence.
Qed.

Lemma inv_received_error w g a e :
  Inv w -> w_att w !! g = Some a -> at_open a = OWaiting -> delivered_error a = Some e ->
  Inv (with_att g (set_open (OFailing e) a) w).
Proof.
  intros HI Ha Ho He. pose proof (i_att w HI g a Ha) as Hok.
  apply (inv_pending w g a); try done; try congruence; cbn; [intuition congruence|].
  assert (Ht : at_thread a = SNone /\ at_wire a <> WSession /\ at_task a <> CtRunning).
  { destruct Hok as (Hop & Htk & Hwr & _). unfold opener_ok, task_ok, wire_ok, delivered_error in *.
    rewrite Ho in *. destruct (at_wire a), (at_task a); intuition congruence. }
  destruct Ht as (Ht & Hw & Hk). att_pieces Hok; cbn; rewrite ?Ho, ?Ht in *; try done.
  - destruct (at_task a); intuition congruence.
  - destruct (at_wire a); intuition congruence.
  - intuition congruence.
Qed.

Lemma pending_ok a c o :
  att_ok a -> at_open a <> OOk -> o <> OOk ->
  opener_ok (set_open o (set_cancel c a)) ->
  (at_task a = CtRunning -> o = OWaiting \/ o = ODropping \/ o = OGone) ->
  (at_task a = CtClosing -> o = OGone) ->
  (at_wire a = WSession -> o = OWaiting \/ o = ODropping) ->
  att_ok (set_open o (set_cancel c a)).
Proof.
  intros (_ & Htk & Hwr & Hlf & Hhk) Ho Ho' Hop H1 H2 H3. unfold task_ok, wire_ok in *.
  refine (conj Hop (conj _ (conj _ (conj Hlf _)))); unfold task_ok, wire_ok; cbn.
  - destruct (at_task a); intuition congruence.
  - destruct (at_wire a); intuition congruence.
  - intuition congruence.
Qed.

Lemma inv_failed w g a e :
  Inv w -> w_att w !! g = Some a -> at_open a = OFailing e -> Inv (cancel_own g a (OErr e) w).
Proof.
  intros HI Ha Ho. pose proof (i_att w HI g a Ha) as Hok.
  apply inv_cancel_own; try done; try congruence.
  - apply hook_none; [done|congruence].
  - intros c Hc _. pose proof Hok as (Hop & Htk & Hwr & _). unfold opener_ok, task_ok, wire_ok in *.
    rewrite Ho in *. apply pending_ok; try done; try congruence.
    + unfold opener_ok. cbn. auto.
    + intros Et. rewrite Et in Htk. intuition congruence.
    + intros Et. rewrite Et in Htk. intuition congruence.
    + intros Ew. rewrite Ew in Hwr. intuition congruence.
Qed.

Lemma inv_dropped w g a :
  Inv w -> w_att w !! g = Some a -> at_open a = OWaiting -> Inv (cancel_own g a ODropping w).
Proof.
  intros HI Ha Ho. pose proof (i_att w HI g a Ha) as Hok.
  apply inv_cancel_own; try done; try congruence.
  - apply hook_none; [done|congruence].
  - intros c Hc _. pose proof Hok as (Hop & Htk & Hwr & _). unfold opener_ok, task_ok, wire_ok in *.
    rewrite Ho in *. apply pending_ok; try done; try congruence; auto.
    intros Et. rewrite Et in Htk. intuition congruence.
Qed.

(** A close that is not awaited by an entry: of a session refused. *)
Lemma inv_refused_close w g a :
  Inv w -> w_att w !! g = Some a -> at_open a = OUnrecorded ->
  Inv (with_att g (set_open OClosing (begin_close a)) w).
Proof.
  intros HI Ha Ho. pose proof (i_att w HI g a Ha) as Hok.
  apply (inv_pending w g a); try done; try congruence; cbn; [intuition congruence|].
  assert (Ht : at_thread a = SUp).
  { destruct Hok as (Hop & _). unfold opener_ok in Hop. rewrite Ho in Hop. tauto. }
  att_pieces Hok; cbn; rewrite ?Ho, ?Ht in *; try done; try tauto.
  - destruct (at_task a); intuition congruence.
  - destruct (at_wire a); intuition congruence.
  - unfold lifecycle_of. cbn. by destruct (sh_lifecycle (at_shared a)).
  - intuition congruence.
Qed.

Lemma inv_refused_end w g a o :
  Inv w -> w_att w !! g = Some a -> at_open a = OClosing ->
  o = OGone \/ o = OErr (refused_error a) /\ at_thread a = SClosed ->
  Inv (with_att g (set_open o a) w).
Proof.
  intros HI Ha Ho Hcase. pose proof (i_att w HI g a Ha) as Hok.
  assert (Hth : at_thread a = SClosing \/ at_thread a = SClosed).
  { destruct Hok as (Hop & _). unfold opener_ok in Hop. rewrite Ho in Hop. tauto. }
  apply (inv_pending w g a); try done; try congruence; cbn; try (intuition congruence).
  att_pieces Hok; cbn; rewrite ?Ho in *; try done.
  - destruct Hop as [_ Hc]. destruct Hcase as [->|[-> Hts]]; [intuition congruence|].
    split; [done|right; done].
  - destruct (at_task a); intuition congruence.
  - destruct (at_wire a); intuition congruence.
  - intuition congruence.
Qed.

Lemma inv_connect_closed w g a :
  Inv w -> w_att w !! g = Some a -> at_task a = CtClosing -> Inv (with_att g (set_task CtDone a) w).
Proof.
  intros HI Ha Ht. pose proof (i_att w HI g a Ha) as Hok.
  assert (Ho : at_open a = OGone).
  { destruct Hok as (_ & Htk & _). unfold task_ok in Htk. rewrite Ht in Htk. tauto. }
  apply (inv_pending w g a); try done; cbn; try congruence; try (intuition congruence).
  by att_pieces Hok.
Qed.

(** Every step keeps the invariant. *)
Lemma registry_inv_step w w' : Inv w -> step w w' -> rg_next (w_reg w') <> 0 -> Inv w'.
Proof.
  intros HI Hstep Hnext. destruct Hstep.
  - by eapply inv_step_claim.
  - eapply inv_connect_task; eauto.
  - eapply inv_connect_task; eauto.
  - eapply inv_connect_task; eauto.
  - by eapply inv_connect_closed.
  - by eapply inv_received.
  - by eapply inv_received_error.
  - by eapply inv_failed.
  - by eapply inv_dropped.
  - by eapply inv_drained.
  - by eapply inv_recorded.
  - by eapply inv_promoted.
  - by eapply inv_refused.
  - by eapply inv_refused_record.
  - by eapply inv_refused_close.
  - eapply inv_refused_end; eauto.
  - eapply inv_refused_end; eauto.
  - by eapply inv_session_ends.
  - by eapply inv_session_closed.
  - by eapply inv_hook_wake.
  - by eapply inv_hook_record.
  - by eapply inv_hook_lease.
  - by apply inv_close_request.
  - by apply inv_release_request.
  - by apply inv_generation_request.
  - by apply inv_expire.
  - by eapply inv_close_start.
  - by eapply inv_close_record.
  - by eapply inv_close_stop.
  - by eapply inv_close_done.
  - by eapply inv_close_dropped.
  - by eapply inv_orphan_record.
  - by apply inv_touch.
  - by eapply inv_shared.
Qed.

Lemma run_inv now records io (d : D) w : run now records io d w -> Inv w.
Proof.
  induction 1 as [|w w' _ IH Hs Hn]; [apply registry_inv_init|]. by eapply registry_inv_step.
Qed.
End Invariant.
