(* ===== verification/RegistryFacts.v ===== *)
(** * What the registry promises

    The properties of the transition system of RegistrySystem.v: no session
    is lost, a record exists for as long as its session may be running, what
    a connect answers, and that everything under way can come to its end. *)
From S2P Require Import Prelude Calendar Events Control Records Registry RegistrySystem RegistryInv.
Open Scope Z_scope.

Section Settled.
Context {S D : Type} `{EventSink S} `{ReconciliationSink D}.
Implicit Types (w : World S D) (a : Attempt S) (k : Closer) (g : Z).

(** Nothing of an attempt is under way: its tasks are over, and its hook has
    nothing to handle. *)
Definition att_settled a : bool :=
  match at_task a with CtDone => true | _ => false end &&
  match at_open a with OOk | OErr _ | OGone => true | _ => false end &&
  match at_thread a with SClosing => false | _ => true end &&
  match at_hook a with
  | HNone | HOff => true
  | HWatch => bool_decide (lifecycle_of a = LifecycleLive)
  | HWoken | HLease => false
  end.

Definition settled w : Prop :=
  map_Forall (fun _ a => att_settled a = true) (w_att w) /\ w_closers w = [] /\ w_orphans w = [].

#[global] Instance settled_dec w : Decision (settled w).
Proof. unfold settled. apply _. Defined.

(** C13: no session is lost.  In every world that is reached, a session the
    connector made and that is not being closed is in the channel to its
    connect, held by its connect, registered, or in the hands of a close; a
    registered session is never one that was closed; and once everything
    under way is over, each session is registered or closed. *)
Theorem sessions_are_never_lost now records io (d : D) w g a :
  run now records io d w -> w_att w !! g = Some a ->
  (at_thread a = SUp ->
     (receiving a = true /\ at_wire a = WSession) \/
     (at_open a = OHave \/ at_open a = ORecorded \/ at_open a = ORefused \/ at_open a = OUnrecorded) \/
     live_at w (at_id a) g \/
     exists k, k ∈ w_closers w /\ kl_generation k = g /\ before_stop k) /\
  (live_at w (at_id a) g -> at_thread a = SUp) /\
  (settled w ->
     at_thread a = SNone \/ at_thread a = SClosed \/ (at_thread a = SUp /\ live_at w (at_id a) g)).
Proof.
  intros Hrun Ha. pose proof (run_inv _ _ _ _ _ Hrun) as HI.
  pose proof (i_att w HI g a Ha) as (Hop & _ & _ & _ & _). unfold opener_ok in Hop.
  assert (Hup : at_thread a = SUp -> at_open a = OOk ->
    live_at w (at_id a) g \/ exists k, k ∈ w_closers w /\ kl_generation k = g /\ before_stop k).
  { intros Ht Ho. by apply (i_up w HI). }
  split_and!.
  - intros Ht. unfold receiving. rewrite Ht in Hop.
    destruct (at_open a) eqn:Ho; try (intuition congruence); auto.
  - intros (l & Hl & Hg). destruct (i_entry w HI _ _ Hl) as (b & Hb & _ & _ & Ht & _).
    rewrite Hg in Hb. congruence.
  - intros (Hs & Hc & _). specialize (Hs g a Ha). unfold att_settled in Hs.
    rewrite !andb_true_iff in Hs. destruct Hs as [[[_ Ho] Ht] _].
    destruct (at_thread a) eqn:Et; auto; try done. right; right. split; [done|].
    destruct (at_open a) eqn:Eo; try done; try (intuition congruence).
    destruct (Hup eq_refl eq_refl) as [?|(k & Hk & _)]; [done|].
    rewrite Hc in Hk. by apply not_elem_of_nil in Hk.
Qed.

(** A record exists exactly while its session may be running.  In every
    world that is reached the record book holds, under the name of every
    registered session that has not ended, the record of its generation (so
    a daemon started after a crash shows it); and once everything under way
    is over it holds no other record of a connect. *)
Theorem records_follow_sessions now records io (d : D) w :
  run now records io d w ->
  (forall id l, rg_sessions (w_reg w) !! id = Some (Live l) ->
     sh_lifecycle (shared_of w (le_generation l)) = LifecycleLive ->
     bk_open (w_book w) !! id = Some (le_generation l)) /\
  (settled w -> forall id g,
     bk_open (w_book w) !! id = Some g <->
     live_at w id g /\ sh_lifecycle (shared_of w g) = LifecycleLive).
Proof.
  intros Hrun. pose proof (run_inv _ _ _ _ _ Hrun) as HI.
  assert (Hown : forall id l, rg_sessions (w_reg w) !! id = Some (Live l) ->
     sh_lifecycle (shared_of w (le_generation l)) = LifecycleLive ->
     bk_open (w_book w) !! id = Some (le_generation l)).
  { intros id l Hl Hlive. destruct (i_entry w HI _ _ Hl) as (a & Ha & <- & _ & _ & Hw).
    unfold shared_of in Hlive. rewrite Ha in Hlive. apply (i_owned w HI _ a Ha). left.
    split; [by apply Hw|]. by exists l. }
  split; [done|]. intros (Hs & Hc & _) id g. split.
  - intros Hb. destruct (i_book w HI id g Hb) as (a & Ha & <- & Hh).
    specialize (Hs g a Ha). unfold att_settled in Hs. rewrite !andb_true_iff in Hs.
    destruct Hs as [[[_ Ho] _] Hk]. unfold shared_of. rewrite Ha.
    destruct Hh as [Hh|[Hh|[Hh|[[Hh Hl]|(k & Hkin & _)]]]].
    + by rewrite Hh in Ho.
    + by rewrite Hh in Ho.
    + by rewrite Hh in Hk.
    + rewrite Hh in Hk. split; [done|]. by apply bool_decide_eq_true in Hk.
    + rewrite Hc in Hkin. by apply not_elem_of_nil in Hkin.
  - intros [(l & Hl & <-) Hlive]. by apply Hown.
Qed.

(** *** What an error of a connect says *)

(** The error is the connector's own, or a Disconnect was sent. *)
Definition cause_ok a (e : DaemonError) : Prop :=
  at_answer a = Some e \/ (at_cancel a = CcSent /\ e = cancelled_by CancelDisconnect).

Definition told a : Prop :=
  match at_open a with
  | OWaiting =>
      at_cancel a <> CcDropped /\
      match at_wire a with WEmpty => at_task a <> CtDone | WSession => True | WError e => cause_ok a e end
  | OHave | ORecorded => at_cancel a <> CcDropped
  | ORefused | OUnrecorded | OClosing => at_cancel a = CcSent
  | OFailing e => cause_ok a e
  | OErr e =>
      (at_thread a = SNone /\ at_answer a = Some e) \/
      (at_cancel a = CcSent /\ e = cancelled_by CancelDisconnect)
  | ODropping | OOk | OGone => True
  end.

Definition all_told w : Prop := map_Forall (fun _ a => told a) (w_att w).

Lemma told_with g a w : all_told w -> told a -> all_told (with_att g a w).
Proof. intros Hw Ha. by apply map_Forall_insert_2. Qed.

(** Only what [told] reads counts. *)
Lemma told_same g a a' w :
  all_told w -> w_att w !! g = Some a ->
  at_open a' = at_open a -> at_cancel a' = at_cancel a -> at_wire a' = at_wire a -> at_answer a' = at_answer a ->
  (at_task a' = CtDone -> at_task a = CtDone) -> (at_thread a = SNone -> at_thread a' = SNone) ->
  all_told (with_att g a' w).
Proof.
  intros Hw Ha Ho Hc Hr Hn Ht Hth. apply told_with; [done|]. specialize (Hw g a Ha). cbn in Hw.
  unfold told, cause_ok in *. rewrite Ho, Hc, Hr, Hn. destruct (at_open a); try done; [destruct (at_wire a)|]; tauto.
Qed.

Lemma told_cancel_own w g a o :
  Inv w -> all_told w -> w_att w !! g = Some a ->
  match o with OErr e => at_open a = OFailing e | ODropping => True | _ => False end ->
  all_told (cancel_own g a o w).
Proof.
  intros HI Hw Ha Ho. unfold cancel_own.
  destruct (cancel_connecting (lease_of g a) (w_reg w)) as [r removed] eqn:Ec.
  apply (told_with g _ (with_reg r w)); [done|]. destruct o; try done.
  pose proof (Hw g a Ha) as Ht. cbn in Ht. unfold told in *. rewrite Ho in Ht. cbn.
  destruct (i_att w HI g a Ha) as (Hop & _). unfold opener_ok in Hop. rewrite Ho in Hop.
  destruct removed; [|by destruct Ht as [?|?]; [left|right]].
  left. destruct Ht as [Ht|[Hs _]]; [done|]. exfalso. revert Ec. unfold cancel_connecting. cbn.
  destruct (rg_sessions (w_reg w) !! at_id a) as [[t x| |]|] eqn:E; try done.
  destruct (Z.eqb_spec x g) as [->|]; [|done]. intros _.
  destruct (i_entry w HI _ _ E) as (b & Hb & _ & Hc). congruence.
Qed.

(** A Disconnect is sent to a connect whose handle is still in its placeholder. *)
Lemma told_close w id reason : Inv w -> all_told w -> all_told (close_request id reason w).
Proof.
  intros HI Hw. unfold close_request. destruct (close_take id reason (w_reg w)) as [r [g| |l| |]] eqn:Ec; try done.
  destruct (w_att w !! g) as [a|] eqn:Ha; cbn; rewrite Ha; [|done].
  apply (told_with g _ (with_reg r w)); [done|].
  pose proof (Hw g a Ha) as Ht. cbn in Ht. unfold told, cause_ok in *. cbn.
  destruct (at_open a); try done; [|by destruct Ht as [?|[_ ?]]; [left|right]..].
  destruct Ht as [_ Ht]. split; [done|]. destruct (at_wire a); [done..|]. destruct Ht as [?|[_ ?]]; [by left|by right].
Qed.

(** The connect task answers its waiting [open_tracked]. *)
Lemma told_connect_task w g a a' :
  all_told w -> w_att w !! g = Some a ->
  a' = connect_cancel a /\ at_cancel a <> CcOpen \/ (exists e, a' = connect_failed e (set_answer (Some e) a)) \/
  a' = connect_ready a ->
  at_task a = CtRunning -> Inv w -> all_told (with_att g a' w).
Proof.
  intros Hw Ha Hcase Hrun HI. apply told_with; [done|]. pose proof (Hw g a Ha) as Ht. cbn in Ht.
  destruct (i_att w HI g a Ha) as (_ & Htk & _). unfold task_ok in Htk. rewrite Hrun in Htk.
  destruct Htk as (Hwr & _ & Ho). unfold told, cause_ok in *.
  destruct Ho as [Ho|[Ho|Ho]]; rewrite Ho in Ht.
  - destruct Ht as [Hc _]. destruct Hcase as [[-> Hn]|[[e ->]| ->]].
    + unfold connect_cancel. destruct (at_cancel a) eqn:Ec; [done| |done].
      unfold receiving. rewrite Ho. cbn. rewrite Ho. split; [congruence|]. by right.
    + unfold connect_failed, receiving. cbn. rewrite Ho. cbn. rewrite Ho. split; [done|]. by left.
    + unfold connect_ready, receiving. rewrite Ho. cbn. by rewrite Ho.
  - destruct Hcase as [[-> _]|[[e ->]| ->]].
    + unfold connect_cancel, receiving. destruct (at_cancel a); rewrite ?Ho; cbn; by rewrite Ho.
    + unfold connect_failed, receiving. cbn. rewrite Ho. cbn. by rewrite Ho.
    + unfold connect_ready, receiving. rewrite Ho. cbn. by rewrite Ho.
  - destruct Hcase as [[-> _]|[[e ->]| ->]].
    + unfold connect_cancel, receiving. destruct (at_cancel a); rewrite ?Ho; cbn; by rewrite Ho.
    + unfold connect_failed, receiving. cbn. rewrite Ho. cbn. by rewrite Ho.
    + unfold connect_ready, receiving. rewrite Ho. cbn. by rewrite Ho.
Qed.

(** The wait of [open_tracked] ends; what follows goes its way. *)
Lemma told_opener w g a o a' :
  all_told w -> w_att w !! g = Some a -> told (set_open o a) ->
  at_open a' = o -> at_cancel a' = at_cancel a -> at_answer a' = at_answer a ->
  (at_thread a = SNone -> at_thread a' = SNone) -> o <> OWaiting -> all_told (with_att g a' w).
Proof.
  intros Hw Ha Ht Ho Hc Hn Hth Hne. apply told_with; [done|]. unfold told, cause_ok in *. cbn in Ht.
  rewrite Ho, Hc, Hn. destruct o; tauto.
Qed.

(** What keeps the fields that [told] reads. *)
Ltac told_kept Hw := eapply (told_same _ _ _ _ Hw); cbn; done.

Lemma told_step w w' : Inv w -> all_told w -> step w w' -> all_told w'.
Proof.
  intros HI Hw Hs. destruct Hs; try exact Hw.
  all: match goal with Ha : w_att _ !! _ = Some ?a |- _ => pose proof (Hw _ _ Ha) as Ht; cbn in Ht | _ => idtac end.
  - by apply (told_with g _ (with_reg r w)).
  - eapply told_connect_task; eauto.
  - eapply told_connect_task; eauto.
  - eapply told_connect_task; eauto.
  - apply told_with; [done|]. unfold told in *. cbn.
    destruct (i_att w HI g a) as (_ & Htk & _); [done|]. unfold task_ok in Htk.
    match goal with E : at_task a = CtClosing |- _ => rewrite E in Htk end. destruct Htk as [-> _]. done.
  - apply (told_opener w g a OHave); try done. unfold told in *. cbn.
    match goal with E : at_open a = OWaiting |- _ => rewrite E in Ht end. tauto.
  - apply (told_opener w g a (OFailing e)); try done. unfold told in *. cbn.
    match goal with E : at_open a = OWaiting |- _ => rewrite E in Ht end.
    match goal with E : delivered_error a = Some e |- _ => unfold delivered_error in E end.
    destruct (at_wire a), (at_task a); try done; try congruence; try (by destruct Ht).
    all: match goal with E : Some _ = Some _ |- _ => injection E as -> end; by destruct Ht.
  - by apply told_cancel_own.
  - by apply told_cancel_own.
  - apply told_with; [done|]. unfold guard_drain. by destruct (at_wire a).
  - apply (told_opener w g a ORecorded); try done. unfold told in *. cbn.
    by match goal with E : at_open a = OHave |- _ => rewrite E in Ht end.
  - by apply (told_with g _ (with_reg r w)).
  - apply told_with; [done|]. unfold told in *. cbn.
    match goal with E : at_open a = ORecorded |- _ => rewrite E in Ht end.
    destruct (at_cancel a) eqn:Ec; [|done..].
    match goal with Ha : w_att w !! g = Some a, E : promote _ _ _ = _ |- _ =>
      destruct (i_open w HI g a Ha Ec) as [t He]; unfold promote in E; cbn in E;
      by rewrite He, Z.eqb_refl in E end.
  - apply (told_opener w g a OUnrecorded); try done. unfold told in *. cbn.
    by match goal with E : at_open a = ORefused |- _ => rewrite E in Ht end.
  - destruct (i_att w HI g a) as (Hop & _); [done|]. unfold opener_ok in Hop. unfold told in Ht.
    match goal with E : at_open a = OUnrecorded |- _ => rewrite E in Ht, Hop end.
    apply (told_opener w g a OClosing); try done. destruct Hop as [-> _]. done.
  - apply (told_opener w g a (OErr (refused_error a))); try done. unfold told in *. cbn.
    match goal with E : at_open a = OClosing |- _ => rewrite E in Ht end.
    right. unfold refused_error. cbn. by rewrite Ht.
  - by apply told_with.
  - told_kept Hw.
  - eapply (told_same _ _ _ _ Hw); cbn; done || congruence.
  - eapply (told_same _ _ _ _ Hw); [done|unfold hook_wake; by destruct (lifecycle_of a) as [|[| |]]..].
  - apply (told_same g a _ (with_book _ w) Hw); cbn; done.
  - told_kept Hw.
  - by apply told_close.
  - unfold release_request. by destruct (release_take _ _ _) as [r []].
  - unfold generation_request. by destruct (generation_take _ _) as [r []].
  - apply (told_same _ a _ w Hw); try done; unfold close_start; cbn; by destruct (at_hook a).
  - by destruct ended.
  - apply (told_same _ a _ w Hw); try done.
    destruct (closer_att w l1 k l2 a HI) as (_ & _ & Hk & _); [done..|]. unfold closer_ok in Hk.
    match goal with E : kl_phase k = KStop |- _ => rewrite E in Hk end. by rewrite Hk.
  - told_kept Hw.
Qed.

Lemma run_told now records io (d : D) w : run now records io d w -> all_told w.
Proof.
  induction 1 as [|w w' Hr IH Hs Hn].
  - unfold all_told, world_init. by destruct (seed_into now records registry_new).
  - eapply told_step; [by eapply run_inv|done..].
Qed.


(** A Disconnect that was sent stays sent. *)
Definition sent w g : Prop := exists a, w_att w !! g = Some a /\ at_cancel a = CcSent.

Lemma sent_with w w' g x a a' :
  sent w g -> w_att w !! x = Some a -> w_att w' = <[x := a']> (w_att w) ->
  (at_cancel a = CcSent -> at_cancel a' = CcSent) -> sent w' g.
Proof.
  intros (b & Hb & Hs) Ha Hw Hc. unfold sent. rewrite Hw. destruct (decide (x = g)) as [->|Hn].
  - rewrite lookup_insert_eq. exists a'. split; [done|]. apply Hc. congruence.
  - rewrite lookup_insert_ne by done. by exists b.
Qed.

Lemma sent_cancel_own w g x a o :
  Inv w -> sent w g -> w_att w !! x = Some a -> sent (cancel_own x a o w) g.
Proof.
  intros HI Hs Ha. unfold cancel_own.
  destruct (cancel_connecting (lease_of x a) (w_reg w)) as [r removed] eqn:Ec.
  eapply (sent_with w); [done..|]. destruct removed; [|done]. cbn. intros Hc. exfalso.
  revert Ec. unfold cancel_connecting. cbn.
  destruct (rg_sessions (w_reg w) !! at_id a) as [[t y| |]|] eqn:E; try done.
  destruct (Z.eqb_spec y x) as [->|]; [|done]. intros _.
  destruct (i_entry w HI _ _ E) as (b & Hb & _ & Hbc). congruence.
Qed.

Lemma sent_close w g id reason : Inv w -> sent w g -> sent (close_request id reason w) g.
Proof.
  intros HI Hs. unfold close_request. destruct (close_take id reason (w_reg w)) as [r [x| |l| |]]; try done.
  cbn. destruct (w_att w !! x) as [a|] eqn:Ha; [|done]. by eapply (sent_with w).
Qed.

Lemma sent_step w w' g : Inv w -> sent w g -> step w w' -> sent w' g.
Proof.
  intros HI Hs Hst. destruct Hst; try exact Hs;
    try match goal with Ha : w_att w !! _ = Some ?a |- _ =>
      eapply (sent_with w _ _ _ _ _ Hs Ha); [reflexivity|];
      unfold connect_cancel, connect_failed, connect_ready, guard_drain, hook_wake, close_start; cbn; intros Hc end.
  all: try (rewrite ?Hc; repeat case_match; done).
  - destruct Hs as (b & Hb & Hbs). unfold sent. cbn.
    match goal with E : claim _ _ _ = _ |- _ => unfold claim in E; destruct (_ !! id); [done|injection E as <- <-] end.
    exists b. rewrite lookup_insert_ne; [done|]. pose proof (i_gens w HI _ _ Hb). lia.
  - by apply sent_cancel_own.
  - by apply sent_cancel_own.
  - match goal with E : promote _ _ _ = _ |- _ => unfold promote in E; cbn in E end.
    destruct (rg_sessions (w_reg w) !! at_id a) as [[t y| |]|] eqn:E; try done.
    destruct (Z.eqb_spec y g0) as [->|]; [|done].
    destruct (i_entry w HI _ _ E) as (b & Hb & _ & Hbc). congruence.
  - by apply sent_close.
  - unfold release_request. by destruct (release_take _ _ _) as [r []].
  - unfold generation_request. by destruct (generation_take _ _) as [r []].
Qed.

(** What can still come, before the counter of generations wraps around. *)
Definition later : World S D -> World S D -> Prop := rtc (fun w w' => step w w' /\ rg_next (w_reg w') <> 0).

Lemma sent_later w w' g : Inv w -> later w w' -> sent w g -> sent w' g.
Proof.
  intros HI Hl. induction Hl as [|w1 w2 w3 [Hs Hn] _ IH]; [done|]. intros Hg.
  apply IH; [by eapply registry_inv_step|by eapply sent_step].
Qed.


(** C14: what a connect answers.  A connect to which a Disconnect was sent
    never answers with its lease, whatever comes later.  One that
    answers with an error, or whose caller left, has no entry and leaves no
    running session.  The error is the one its connector answered with, or it
    names the Disconnect, and then one was sent; a connect whose session was
    made, or whose connector gave no error, always names it.  And once
    everything under way is over no name is left connecting. *)
Theorem connect_outcome now records io (d : D) w :
  run now records io d w ->
  (forall g a, w_att w !! g = Some a ->
     (at_cancel a = CcSent -> forall w' a', later w w' -> w_att w' !! g = Some a' -> at_open a' <> OOk) /\
     (at_open a = OGone \/ (exists e, at_open a = OErr e) ->
        at_thread a <> SUp /\ ~ live_at w (at_id a) g /\
        forall t, rg_sessions (w_reg w) !! at_id a <> Some (Connecting t g)) /\
     (forall e, at_open a = OErr e ->
        (at_thread a = SNone /\ at_answer a = Some e) \/
        (at_cancel a = CcSent /\ e = cancelled_by CancelDisconnect))) /\
  (settled w -> forall id t g, rg_sessions (w_reg w) !! id <> Some (Connecting t g)).
Proof.
  intros Hrun. pose proof (run_inv _ _ _ _ _ Hrun) as HI. split.
  - intros g a Ha. pose proof (i_att w HI g a Ha) as (Hop & _). unfold opener_ok in Hop. split_and!.
    + intros Hc w' a' Hl Ha' Ho'. destruct (sent_later w w' g HI Hl) as (b & Hb & Hs); [by exists a|].
      assert (b = a') as -> by congruence.
      assert (HI' : Inv w') by (clear -HI Hl; induction Hl as [|x y z [Hs Hn] _ IH]; eauto using registry_inv_step).
      destruct (i_att w' HI' g a' Ha') as (Hop' & _). unfold opener_ok in Hop'. rewrite Ho' in Hop'.
      destruct Hop'. congruence.
    + intros Ho.
      assert (Hf : at_thread a <> SUp /\ at_cancel a <> CcOpen /\ at_open a <> OOk).
      { destruct Ho as [Ho|[e Ho]]; rewrite Ho in Hop |- *; intuition congruence. }
      destruct Hf as (Ht & Hc & Hno). split_and!; [done| |].
      * intros (l & Hl & Hg). destruct (i_entry w HI _ _ Hl) as (b & Hb & _ & Hbo & _).
        rewrite Hg in Hb. congruence.
      * intros t Hl. destruct (i_entry w HI _ _ Hl) as (b & Hb & _ & Hbc). congruence.
    + intros e Ho. rewrite Ho in Hop. pose proof (run_told _ _ _ _ _ Hrun g a Ha) as Ht. cbn in Ht.
      unfold told in Ht. by rewrite Ho in Ht.
  - intros (Hs & _) id t g Hl. destruct (i_entry w HI _ _ Hl) as (a & Ha & _ & Hc).
    pose proof (i_att w HI g a Ha) as (Hop & _). unfold opener_ok in Hop.
    specialize (Hs g a Ha). unfold att_settled in Hs. rewrite !andb_true_iff in Hs.
    destruct Hs as [[[_ Ho] _] _]. destruct (at_open a); intuition congruence.
Qed.
(** *** Everything under way can come to its end *)

Definition rank a : nat :=
  (match at_task a with CtDone => 0 | _ => 1 end +
   match at_open a with
   | OWaiting => 40 | ODropping | OFailing _ => 35 | OHave => 30 | ORecorded => 20
   | ORefused => 15 | OUnrecorded => 10 | OClosing => 5 | OOk | OErr _ | OGone => 0
   end +
   match at_thread a with SClosing => 1 | _ => 0 end +
   match at_hook a with HWatch => 3 | HWoken => 2 | HLease => 1 | _ => 0 end)%nat.

Definition closer_rank k : nat :=
  match kl_phase k with KStart => 30 | KRecord _ => 20 | KStop => 10 | KAwait => 5 end.

Definition total (m : gmap Z (Attempt S)) : nat := map_fold (fun _ a n => rank a + n)%nat 0%nat m.

Definition measure w : nat :=
  (total (w_att w) + list_sum (map closer_rank (w_closers w)) + length (w_orphans w))%nat.

Lemma total_insert (m : gmap Z (Attempt S)) g a a' :
  m !! g = Some a -> (total (<[g := a']> m) + rank a = total m + rank a')%nat.
Proof.
  intros Ha. unfold total.
  rewrite (map_fold_delete_L _ _ g a m), (map_fold_delete_L _ _ g a' (<[g:=a']> m));
    [|intros; lia|by rewrite lookup_insert_eq|intros; lia|done].
  rewrite delete_insert_eq. lia.
Qed.

(** What the end of the work under way leaves as it is: no connect starts,
    and every registered session stays registered. *)
Definition keeps w w' : Prop :=
  rg_next (w_reg w') = rg_next (w_reg w) /\
  dom (w_att w') = dom (w_att w) /\
  forall id g, live_at w id g -> live_at w' id g.

Lemma keeps_refl w : keeps w w.
Proof. by split_and!. Qed.

Lemma keeps_trans w1 w2 w3 : keeps w1 w2 -> keeps w2 w3 -> keeps w1 w3.
Proof. intros (? & ? & ?) (? & ? & ?). split_and!; [congruence|congruence|auto]. Qed.

(** A step of attempt [g]: it lowers the rank and keeps the rest. *)
Definition att_move w g a w' : Prop :=
  exists a', step w w' /\ w_att w' = <[g := a']> (w_att w) /\ (rank a' < rank a)%nat /\
    w_closers w' = w_closers w /\ w_orphans w' = w_orphans w /\
    rg_next (w_reg w') = rg_next (w_reg w) /\ forall id x, live_at w id x -> live_at w' id x.

Lemma att_move_with w g a a' :
  step w (with_att g a' w) -> (rank a' < rank a)%nat -> att_move w g a (with_att g a' w).
Proof. intros Hs Hr. by exists a'. Qed.

Lemma att_move_book w g a a' (b : Book D) :
  step w (with_att g a' (with_book b w)) -> (rank a' < rank a)%nat ->
  att_move w g a (with_att g a' (with_book b w)).
Proof. intros Hs Hr. by exists a'. Qed.

Lemma cancel_own_move w g a o :
  step w (cancel_own g a o w) -> (rank (set_open o a) < rank a)%nat ->
  att_move w g a (cancel_own g a o w).
Proof.
  intros Hs Hr. unfold cancel_own, cancel_connecting in *. cbn in *.
  destruct (rg_sessions (w_reg w) !! at_id a) as [[t x| |]|] eqn:E; try by (eexists; split_and!).
  destruct (x =? g); [|by (eexists; split_and!)].
  eexists. split_and!; try done. intros id y (l & Hl & Hg). exists l. split; [|done]. cbn.
  destruct (decide (id = at_id a)) as [->|]; [congruence|]. by rewrite lookup_delete_ne.
Qed.

Lemma promote_move w g a :
  w_att w !! g = Some a -> at_open a = ORecorded -> at_hook a = HNone ->
  exists w', att_move w g a w'.
Proof.
  intros Ha Ho Hh.
  destruct (promote (at_id a) (new_entry g (at_name a) (at_host a) false 0 0) (w_reg w)) as [r []] eqn:Ep.
  - eexists (with_att g (set_hook HWatch (set_cancel CcDropped (set_open OOk a))) (with_reg r w)).
    eexists. split; [by eapply step_promoted|].
    unfold promote in Ep. cbn in Ep.
    destruct (rg_sessions (w_reg w) !! at_id a) as [[t x| |]|] eqn:E; try done.
    destruct (x =? g); [|done]. injection Ep as <-. split_and!; try done.
    + unfold rank. cbn. rewrite Ho. destruct (at_task a), (at_thread a); lia.
    + intros id y (l & Hl & Hg). exists l. split; [|done]. cbn.
      destruct (decide (id = at_id a)) as [->|]; [congruence|]. by rewrite lookup_insert_ne.
  - eexists. apply att_move_with; [by eapply step_refused|].
    unfold rank. cbn. rewrite Ho, Hh. destruct (at_task a), (at_thread a); lia.
Qed.

Ltac move_att := eexists; apply att_move_with.
Ltac move_book := eexists; apply att_move_book.

(** Its connect task or its session is at work. *)
Lemma task_progress w g a :
  Inv w -> w_att w !! g = Some a -> at_thread a = SClosing \/ at_task a <> CtDone ->
  exists w', att_move w g a w'.
Proof.
  intros HI Ha Hcase. destruct (i_att w HI g a Ha) as (_ & Htk & _). unfold task_ok in Htk.
  destruct (decide (at_thread a = SClosing)) as [Et|Et].
  { move_att; [by eapply step_session_closed|]. unfold rank. cbn. rewrite Et. lia. }
  destruct Hcase as [?|Hk]; [done|]. destruct (at_task a) eqn:Ek; [| |done].
  - move_att; [by apply (step_connect_failed w g a (IoError []))|].
    unfold rank, connect_failed. destruct (receiving _); cbn; rewrite Ek; lia.
  - move_att; [eapply step_connect_closed; try done; tauto|].
    unfold rank. cbn. rewrite Ek. lia.
Qed.

(** Its [open_tracked] is at work. *)
Lemma open_progress w g a :
  Inv w -> w_att w !! g = Some a -> at_thread a <> SClosing -> at_task a = CtDone ->
  match at_open a with OOk | OErr _ | OGone => False | _ => True end ->
  exists w', att_move w g a w'.
Proof.
  intros HI Ha Ht Hk Ho. pose proof (i_att w HI g a Ha) as Hok.
  assert (Hh : at_hook a = HNone) by (apply hook_none; [done|]; intros E; by rewrite E in Ho).
  destruct Hok as (Hop & _). unfold opener_ok in Hop.
  destruct (at_open a) eqn:Eo; try done.
  - destruct (delivered_error a) as [e|] eqn:Ee.
    + move_att; [by eapply step_received_error|]. unfold rank. cbn. rewrite Hk, Hh, Eo.
      destruct (at_thread a); lia.
    + assert (Hw : at_wire a = WSession).
      { unfold delivered_error in Ee. rewrite Hk in Ee. by destruct (at_wire a). }
      move_att; [by apply (step_received w g a [] false false 0 0 0)|].
      unfold rank. cbn. rewrite Hk, Hh, Eo. destruct (at_thread a); lia.
  - move_att; [by apply step_drained|].
    unfold rank, guard_drain. destruct (at_wire a); cbn; rewrite Hk, Hh, Eo; destruct (at_thread a); lia.
  - eexists. apply cancel_own_move; [by eapply step_failed|].
    unfold rank. cbn. rewrite Hk, Hh, Eo. destruct (at_thread a); lia.
  - move_book; [by apply (step_recorded w g a {| io_write := true; io_flush := true |} [])|].
    unfold rank. cbn. rewrite Hk, Hh, Eo. destruct (at_thread a); lia.
  - by apply promote_move.
  - move_book; [by apply (step_refused_record w g a {| io_write := true; io_flush := true |})|].
    unfold rank. cbn. rewrite Hk, Hh, Eo. destruct (at_thread a); lia.
  - move_att; [by apply step_refused_close|].
    unfold rank. cbn. rewrite Hk, Hh, Eo. destruct (at_thread a); lia.
  - destruct Hop as [[?|Hc] _]; [done|]. move_att; [by apply step_refused_done|].
    unfold rank. cbn. rewrite Hk, Hh, Eo. destruct (at_thread a); lia.
Qed.

(** Its hook is at work. *)
Lemma hook_progress w g a :
  w_att w !! g = Some a ->
  match at_hook a with
  | HNone | HOff => False | HWatch => lifecycle_of a <> LifecycleLive | HWoken | HLease => True
  end ->
  exists w', att_move w g a w'.
Proof.
  intros Ha Hh. destruct (at_hook a) eqn:Eh; try done.
  - move_att; [by apply step_hook_wake|]. unfold rank, hook_wake.
    destruct (lifecycle_of a) as [|[| |]]; try done; cbn; rewrite Eh; lia.
  - move_book; [by apply (step_hook_record w g a {| io_write := true; io_flush := true |})|].
    unfold rank. cbn. rewrite Eh. lia.
  - move_att; [by apply (step_hook_lease w g a {| k_now := 0; k_wall := 0; k_frame := 0 |})|].
    unfold rank. cbn. rewrite Eh. lia.
Qed.

(** An attempt that is not settled has a step of its own. *)
Lemma att_progress w g a :
  Inv w -> w_att w !! g = Some a -> att_settled a <> true -> exists w', att_move w g a w'.
Proof.
  intros HI Ha Hns. unfold att_settled in Hns.
  destruct (decide (at_thread a = SClosing)) as [Et|Et]; [apply task_progress; auto|].
  destruct (at_task a) eqn:Ek; try (apply task_progress; [done|done|right; congruence]).
  destruct (at_open a) eqn:Eo; try (apply open_progress; try done; by rewrite Eo).
  all: apply hook_progress; [done|]; destruct (at_thread a), (at_hook a); try done;
    intros Hl; apply Hns; cbn; by apply bool_decide_eq_true.
Qed.

Lemma measure_closer w k k' l g a a' :
  w_closers w = k :: l -> w_att w !! g = Some a ->
  (rank a' + closer_rank k' < rank a + closer_rank k)%nat ->
  (measure (with_closers (k' :: l) (with_att g a' w)) < measure w)%nat.
Proof.
  intros Hc Ha Hr. pose proof (total_insert (w_att w) g a a' Ha). unfold measure.
  cbn [w_att w_closers w_orphans with_closers with_att]. rewrite Hc. cbn [map list_sum foldr]. lia.
Qed.

(** A close under way has a step of its own once the attempts are settled. *)
Lemma closer_progress w k l :
  Inv w -> map_Forall (fun _ a => att_settled a = true) (w_att w) -> w_closers w = k :: l ->
  exists w', step w w' /\ keeps w w' /\ (measure w' < measure w)%nat.
Proof.
  intros HI Hs Hc.
  destruct (i_closers w HI k) as (a & Ha & _ & _ & Hka); [rewrite Hc; set_solver|].
  pose proof (Hs _ a Ha) as Hsa. unfold closer_ok in Hka.
  assert (Hdom : forall a', dom (<[kl_generation k := a']> (w_att w)) = dom (w_att w)).
  { intros a'. apply dom_insert_lookup_L. by rewrite Ha. }
  destruct (kl_phase k) as [|ended| |] eqn:Ep.
  - assert (Hr : (rank (snd (close_start a)) <= rank a)%nat).
    { unfold close_start. cbn. destruct (at_hook a) eqn:Eh; try done. unfold rank. cbn. rewrite Eh. lia. }
    eexists. split; [by apply (step_close_start w [] k l a)|]. split; [by split_and!; cbn|].
    eapply measure_closer; [done|done|]. unfold closer_rank. rewrite Ep. cbn [kl_phase set_phase]. lia.
  - eexists. split; [by apply (step_close_record w [] k l ended {| io_write := true; io_flush := true |})|].
    split; [destruct ended; by split_and!|].
    unfold measure. destruct ended; cbn; rewrite Hc; cbn; unfold closer_rank; rewrite Ep; cbn; lia.
  - assert (Hr : (rank (close_stop {| k_now := 0; k_wall := 0; k_frame := 0 |} a) <= rank a + 1)%nat).
    { unfold rank. cbn. destruct (at_task a), (at_open a), (at_thread a), (at_hook a); lia. }
    eexists. split; [by apply (step_close_stop w [] k l a {| k_now := 0; k_wall := 0; k_frame := 0 |})|].
    split; [by split_and!; cbn|].
    eapply measure_closer; [done|done|]. unfold closer_rank. rewrite Ep. cbn [kl_phase set_phase]. lia.
  - assert (Hcl : at_thread a = SClosed).
    { destruct Hka as [Ht|]; [|done]. unfold att_settled in Hsa. rewrite Ht in Hsa.
      by rewrite !andb_false_r in Hsa. }
    eexists. split; [by apply (step_close_done w [] k l a {| io_write := true; io_flush := true |})|].
    split; [by split_and!|].
    unfold measure. cbn. rewrite Hc. cbn. unfold closer_rank. rewrite Ep. lia.
Qed.

Lemma progress w :
  Inv w -> ~ settled w -> exists w', step w w' /\ keeps w w' /\ (measure w' < measure w)%nat.
Proof.
  intros HI Hns.
  destruct (decide (map_Forall (fun _ a => att_settled a = true) (w_att w))) as [Hs|Hs].
  - destruct (w_closers w) as [|k l] eqn:Hc; [|by eapply closer_progress].
    destruct (w_orphans w) as [|id l] eqn:Ho; [by destruct Hns|].
    eexists. split; [by apply (step_orphan_record w [] id l {| io_write := true; io_flush := true |})|].
    split; [by split_and!|]. unfold measure. cbn. rewrite Ho, Hc. cbn. lia.
  - apply map_not_Forall in Hs as (g & a & Ha & Hna); [|apply _].
    destruct (att_progress w g a HI Ha Hna) as (w' & a' & Hstep & Hatt & Hr & Hc & Ho & Hn & Hl).
    pose proof (total_insert (w_att w) g a a' Ha) as Htot.
    exists w'. split; [done|]. split.
    + split_and!; [done| |done]. rewrite Hatt. apply dom_insert_lookup_L. by rewrite Ha.
    + unfold measure. rewrite Hatt, Hc, Ho. lia.
Qed.

(** C15: nothing gets stuck.  From every world that is reached, whatever is
    under way can come to its end by itself: there are steps, with no new
    connect and no registered session removed, to a world where every
    connect has answered, every close is done, every orphan's record is
    dropped and no end of a session is left to handle. *)
Theorem work_can_finish now records io (d : D) w :
  run now records io d w ->
  exists w', rtc step w w' /\ run now records io d w' /\ settled w' /\ keeps w w'.
Proof.
  intros Hrun. remember (measure w) as n eqn:Hn. revert w Hn Hrun.
  induction (lt_wf n) as [n _ IH]. intros w -> Hrun.
  destruct (decide (settled w)) as [Hs|Hns].
  { exists w. split_and!; [apply rtc_refl|done|done|apply keeps_refl]. }
  pose proof (run_inv _ _ _ _ _ Hrun) as HI.
  destruct (progress w HI Hns) as (w1 & Hstep & Hk & Hm).
  assert (Hrun1 : run now records io d w1).
  { eapply run_step; [done|done|]. destruct Hk as [-> _]. pose proof (i_range w HI). lia. }
  destruct (IH (measure w1) Hm w1 eq_refl Hrun1) as (w2 & Hsteps & Hrun2 & Hset & Hk2).
  exists w2. split_and!; [by eapply rtc_l|done|done|by eapply keeps_trans].
Qed.
End Settled.

(** ** A concrete run

    Session [a] connects and is registered; a Disconnect cancels the connect
    of [b] after its session was made. *)
Module RegistryRun.
Definition W := World (list SessionEvent) Disk.
Definition io : Io := {| io_write := true; io_flush := true |}.
Definition clk : Clk := {| k_now := 0; k_wall := 0; k_frame := 0 |}.
Definition att (w : W) (g : Z) : Attempt (list SessionEvent) :=
  default (new_attempt [] None [] false 0) (w_att w !! g).

Definition do_claim (w : W) (id : text) (g : Z) : W :=
  with_att g (new_attempt id (Some id) (txt "host") false g)
    (with_reg (fst (claim 0 id (w_reg w))) w).
Definition do_ready (w : W) (g : Z) : W := with_att g (connect_ready (att w g)) w.
Definition do_received (w : W) (g : Z) : W :=
  with_att g (set_shared (new_shared (lifecycle_of (att w g)) (txt "log") (at_id (att w g)) g true true
                            0 0 (seconds 6) (at_bootstrap (att w g)))
                (set_open OHave (set_wire WEmpty (att w g)))) w.
Definition do_recorded (w : W) (g : Z) : W :=
  with_att g (set_open ORecorded (att w g))
    (with_book (opened io (at_id (att w g)) g (at_host (att w g)) (txt "t") (w_book w)) w).
Definition do_promoted (w : W) (g : Z) : W :=
  with_att g (set_hook HWatch (set_cancel CcDropped (set_open OOk (att w g))))
    (with_reg (fst (promote (at_id (att w g))
       (new_entry g (at_name (att w g)) (at_host (att w g)) true 0 0) (w_reg w))) w).

Definition w0 : W := world_init 0 [] io None.
Definition w1 := do_claim w0 (txt "a") 1.
Definition w2 := do_ready w1 1.
Definition w3 := do_received w2 1.
Definition w4 := do_recorded w3 1.
Definition w5 := do_promoted w4 1.
Definition w6 := do_claim w5 (txt "b") 2.
Definition w7 := do_ready w6 2.
Definition w8 := close_request (txt "b") Disconnect w7.
Definition w9 := do_received w8 2.
Definition w10 := do_recorded w9 2.
Definition w11 := with_att 2 (set_open ORefused (att w10 2)) w10.
Definition w12 := with_att 2 (set_open OUnrecorded (att w11 2))
  (with_book (fst (closed io (at_id (att w11 2)) 2 (w_book w11))) w11).
Definition w13 := with_att 2 (set_open OClosing (begin_close (att w12 2))) w12.
Definition w14 := with_att 2 (set_thread SClosed (att w13 2)) w13.
Definition w15 := with_att 2 (set_open (OErr (refused_error (att w14 2))) (att w14 2)) w14.

Definition reached := run (S := list SessionEvent) 0 [] io (None : Disk).

Lemma run_more w w' : reached w -> step w w' -> (rg_next (w_reg w') =? 0) = false -> reached w'.
Proof. intros Hr Hs Hn. eapply run_step; [done|done|]. by apply Z.eqb_neq. Qed.

Ltac go H := apply (run_more _ _ H); [|vm_compute; reflexivity].

Lemma reached_5 : reached w5.
Proof.
  assert (H0 : reached w0) by apply run_init.
  assert (H1 : reached w1).
  { go H0. apply (step_claim w0 0 (txt "a") (Some (txt "a")) (txt "host") false
            (fst (claim 0 (txt "a") (w_reg w0))) 1);
      [done|by right|vm_compute; reflexivity]. }
  assert (H2 : reached w2) by (go H1; apply step_connect_ready; vm_compute; reflexivity).
  assert (H3 : reached w3) by (go H2; apply step_received; vm_compute; reflexivity).
  assert (H4 : reached w4) by (go H3; apply step_recorded; vm_compute; reflexivity).
  go H4. apply (step_promoted w4 1 (att w4 1) true 0 0 (fst (promote (at_id (att w4 1))
    (new_entry 1 (at_name (att w4 1)) (at_host (att w4 1)) true 0 0) (w_reg w4))));
    vm_compute; reflexivity.
Qed.

Lemma reached_10 : reached w10.
Proof.
  pose proof reached_5 as H5.
  assert (H6 : reached w6).
  { go H5. apply (step_claim w5 0 (txt "b") (Some (txt "b")) (txt "host") false
            (fst (claim 0 (txt "b") (w_reg w5))) 2);
      [done|by right|vm_compute; reflexivity]. }
  assert (H7 : reached w7) by (go H6; apply step_connect_ready; vm_compute; reflexivity).
  assert (H8 : reached w8) by (go H7; apply step_close).
  assert (H9 : reached w9) by (go H8; apply step_received; vm_compute; reflexivity).
  go H9. apply step_recorded; vm_compute; reflexivity.
Qed.

Lemma reached_15 : reached w15.
Proof.
  pose proof reached_10 as H10.
  assert (H11 : reached w11).
  { go H10. apply (step_refused w10 2 (att w10 2) true 0 0 (w_reg w10)); vm_compute; reflexivity. }
  assert (H12 : reached w12) by (go H11; apply step_refused_record; vm_compute; reflexivity).
  assert (H13 : reached w13) by (go H12; apply step_refused_close; vm_compute; reflexivity).
  assert (H14 : reached w14) by (go H13; apply step_session_closed; vm_compute; reflexivity).
  go H14. apply step_refused_done; vm_compute; reflexivity.
Qed.

Lemma settled_15 : settled w15.
Proof. apply (bool_decide_eq_true_1 (settled w15)). vm_compute. reflexivity. Qed.
End RegistryRun.

Lemma sessions_are_never_lost_witness :
  live_at RegistryRun.w15 (txt "a") 1 /\
  at_thread (RegistryRun.att RegistryRun.w15 2) = SClosed.
Proof.
  assert (Ha : w_att RegistryRun.w15 !! 1 = Some (RegistryRun.att RegistryRun.w15 1))
    by (vm_compute; reflexivity).
  destruct (sessions_are_never_lost _ _ _ _ _ 1 _ RegistryRun.reached_15 Ha) as (_ & _ & Hs).
  specialize (Hs RegistryRun.settled_15). split; [|vm_compute; reflexivity].
  destruct Hs as [Hs|[Hs|[_ Hl]]]; [vm_compute in Hs; discriminate Hs..|exact Hl].
Defined.

Lemma records_follow_sessions_witness :
  bk_open (w_book RegistryRun.w15) !! txt "a" = Some 1 /\
  bk_open (w_book RegistryRun.w15) !! txt "b" = None.
Proof.
  destruct (records_follow_sessions _ _ _ _ _ RegistryRun.reached_15) as [Ho _].
  split; [|vm_compute; reflexivity].
  apply (Ho (txt "a") (new_entry 1 (Some (txt "a")) (txt "host") true 0 0)); vm_compute; reflexivity.
Defined.

Lemma connect_outcome_witness :
  at_cancel (RegistryRun.att RegistryRun.w15 2) = CcSent /\
  at_open (RegistryRun.att RegistryRun.w15 2) <> OOk.
Proof.
  assert (Hb : w_att RegistryRun.w15 !! 2 = Some (RegistryRun.att RegistryRun.w15 2))
    by (vm_compute; reflexivity).
  destruct (connect_outcome _ _ _ _ _ RegistryRun.reached_15) as [Ho _].
  destruct (Ho 2 _ Hb) as (Hn & _ & He).
  assert (Hc : at_cancel (RegistryRun.att RegistryRun.w15 2) = CcSent).
  { destruct (He (cancelled_by CancelDisconnect)) as [[Ht _]|[Hc _]];
      [vm_compute; reflexivity|vm_compute in Ht; discriminate Ht|exact Hc]. }
  split; [exact Hc|]. exact (Hn Hc _ _ (rtc_refl _ _) Hb).
Defined.

Lemma work_can_finish_witness :
  exists w', rtc step RegistryRun.w10 w' /\ settled w' /\ live_at w' (txt "a") 1.
Proof.
  destruct (work_can_finish _ _ _ _ _ RegistryRun.reached_10) as (w' & Hs & _ & Hset & Hk).
  exists w'. split; [exact Hs|]. split; [exact Hset|]. apply Hk.
  exists (new_entry 1 (Some (txt "a")) (txt "host") true 0 0). split; vm_compute; reflexivity.
Defined.
