(* ===== verification/BridgeProtocol.v ===== *)
(** * The bridge protocol ([crates/rdpilot-bridge-protocol/src/lib.rs])

    What the daemon and the bridge in the guest say to each other, and how an
    envelope becomes a frame of the byte stream between them: four bytes of
    length, then the JSON text.  [Decoder] is the incremental decoder both
    sides use.  The JSON text itself is serde's ([Serde Envelope]).

    An [io::Error] is a constructor with the data that its message shows. *)
From S2P Require Import Prelude Bytes Json.
Open Scope N_scope.

(** ** Constants *)
Definition CHANNEL_NAME : text := txt "RDPILOT_CUA_V1".
Definition PROTOCOL_VERSION : N := 2.
Definition BRIDGE_EXE_NAME : text := txt "rdpilot-bridge.exe".
Definition MANIFEST_NAME : text := txt "manifest.json".
Definition CUA_DRIVER_EXE_NAME : text := txt "cua-driver.exe".
Definition MAX_FRAME_BYTES : N := 16 * 1024 * 1024.
Definition QUEUE_DEPTH : N := 32.

(** ** Messages *)
Inductive FileTransferOp := Upload | Download.

Record FileTransferRequest := {
  fq_op : FileTransferOp; fq_remote_path : text; fq_share_name : text }.

Record FileTransferData := { fd_bytes_transferred : N; fd_sha256 : text }.

Record FileTransferResponse := {
  fr_success : bool;
  fr_data : option FileTransferData;
  fr_error : option text;
  fr_error_kind : option text }.

Inductive Message :=
| Hello (bundle_id : text)
| Ready (bundle_id bridge_version : text)
| Ping
| Pong
| Open (attachment_id : N)
| Opened (attachment_id runtime_generation : N)
| Mcp (attachment_id runtime_generation : N) (message : Value)
| Close (attachment_id : N) (reason : text)
| Closed (attachment_id : N) (reason : text)
| FileTransfer (request : FileTransferRequest)
| FileTransferResult (response : FileTransferResponse)
| MsgError (reason : text).

Record Envelope := {
  en_version : N; en_generation : N; en_control_id : N; en_message : Message }.

#[global] Instance FileTransferOp_eq_dec : EqDecision FileTransferOp.
Proof. solve_decision. Defined.
#[global] Instance FileTransferRequest_eq_dec : EqDecision FileTransferRequest.
Proof. solve_decision. Defined.
#[global] Instance FileTransferData_eq_dec : EqDecision FileTransferData.
Proof. solve_decision. Defined.
#[global] Instance FileTransferResponse_eq_dec : EqDecision FileTransferResponse.
Proof. solve_decision. Defined.
#[global] Instance Message_eq_dec : EqDecision Message.
Proof. solve_decision. Defined.
#[global] Instance Envelope_eq_dec : EqDecision Envelope.
Proof. solve_decision. Defined.

(** [Envelope::new] *)
Definition new_envelope (generation control_id : N) (message : Message) : Envelope :=
  {| en_version := PROTOCOL_VERSION; en_generation := generation;
     en_control_id := control_id; en_message := message |}.

(** ** The manifest of a bundle

    [bm_files] is the [BTreeMap]: its entries in the order it yields them. *)
Record BundleManifest := {
  bm_bundle_id : text;
  bm_cua_version : text;
  bm_archive_name : text;
  bm_archive_sha256 : text;
  bm_bridge_sha256 : text;
  bm_files : list (text * text) }.

#[global] Instance BundleManifest_eq_dec : EqDecision BundleManifest.
Proof. solve_decision. Defined.

(** The strings [validate] answers with. *)
Inductive ManifestError :=
| InvalidBundleId (id : text)
| UnsupportedEntryName (name : text)
| InvalidSha256 (hash : text)
| NoCuaDriver
| MustNotContain (name : text).

Definition check_bundle_id (id : text) : result ManifestError unit :=
  let ok := negb (bool_decide (id = []))
    && (byte_len id <=? 128)
    && negb (starts_with (txt ".") id)
    && forallb (fun b => is_ascii_alphanumeric b || (b =? 46) || (b =? 95) || (b =? 45)) id in
  if ok then Ok tt else Err (InvalidBundleId id).

(** [str::ends_with] a character. *)
Definition ends_with_char (c : char) (t : text) : bool :=
  match last t with Some d => d =? c | None => false end.

(** The characters Windows refuses in a name: slash, backslash, colon, star,
    question mark, double quote, less, greater and bar. *)
Definition RESERVED : text := [47; 92; 58; 42; 63; 34; 60; 62; 124].

Definition check_archive_entry_name (name : text) : result ManifestError unit :=
  let bad := bool_decide (name = [])
    || (255 <? byte_len name)
    || bool_decide (name = txt ".")
    || bool_decide (name = txt "..")
    || ends_with_char 46 name
    || ends_with_char 32 name
    || starts_with (txt " ") name
    || existsb (fun c => is_control c || bool_decide (c ∈ RESERVED)) name in
  if bad then Err (UnsupportedEntryName name) else Ok tt.

Definition check_sha256 (hash : text) : result ManifestError unit :=
  if (byte_len hash =? 64) && forallb (fun b => is_ascii_digit b || in_range 97 102 b) hash
  then Ok tt else Err (InvalidSha256 hash).

(** The body of the loop over [files], for one entry. *)
Definition check_file (name hash : text) : result ManifestError unit :=
  rbind (check_archive_entry_name name) (fun _ =>
  rbind (check_sha256 hash) (fun _ =>
  if eq_ignore_ascii_case name BRIDGE_EXE_NAME || eq_ignore_ascii_case name MANIFEST_NAME
  then Err (MustNotContain name) else Ok tt)).

Fixpoint check_files (files : list (text * text)) : result ManifestError unit :=
  match files with
  | [] => Ok tt
  | (name, hash) :: files => rbind (check_file name hash) (fun _ => check_files files)
  end.

(** [BTreeMap::get] *)
Fixpoint files_get (name : text) (files : list (text * text)) : option text :=
  match files with
  | [] => None
  | (n, hash) :: files => if decide (name = n) then Some hash else files_get name files
  end.

(** [BundleManifest::validate] *)
Definition validate (m : BundleManifest) : result ManifestError unit :=
  rbind (check_bundle_id (bm_bundle_id m)) (fun _ =>
  rbind (check_archive_entry_name (bm_archive_name m)) (fun _ =>
  rbind (check_sha256 (bm_archive_sha256 m)) (fun _ =>
  rbind (check_sha256 (bm_bridge_sha256 m)) (fun _ =>
  match files_get CUA_DRIVER_EXE_NAME (bm_files m) with
  | None => Err NoCuaDriver
  | Some _ => check_files (bm_files m)
  end)))).

(** ** Frames *)
Inductive FrameError :=
| FrameTooLarge
| InvalidLength
| PeerSpeaks (version : N)
| Truncated
| SerdeFailed (e : text).

Section Frames.
Context `{Serde Envelope}.

Definition encode (envelope : Envelope) : result FrameError bytes :=
  rbind (map_err SerdeFailed (to_vec envelope)) (fun payload =>
  if MAX_FRAME_BYTES <? blen payload then Err FrameTooLarge
  else Ok (le_bytes 4 (blen payload) ++ payload)).

Record Decoder := { de_buffer : bytes; de_expected : option N }.

Definition decoder_new : Decoder := {| de_buffer := []; de_expected := None |}.

Definition de_target (d : Decoder) : N := default 4 (de_expected d).

(** What a full buffer means: the length of the next frame, or an envelope. *)
Definition complete (expected : option N) (buffer : bytes) : Decoder * result FrameError (list Envelope) :=
  match expected with
  | None =>
      let len := from_le (btake 4 buffer) in
      if (len =? 0) || (MAX_FRAME_BYTES <? len)
      then ({| de_buffer := []; de_expected := None |}, Err InvalidLength)
      else ({| de_buffer := []; de_expected := Some len |}, Ok [])
  | Some _ =>
      match from_slice buffer with
      | Err e => ({| de_buffer := buffer; de_expected := expected |}, Err (SerdeFailed e))
      | Ok envelope =>
          ({| de_buffer := []; de_expected := None |},
           if en_version envelope =? PROTOCOL_VERSION then Ok [envelope]
           else Err (PeerSpeaks (en_version envelope)))
      end
  end.

(** The loop of [Decoder::push].  Every round takes a byte or returns. *)
Fixpoint push_loop (fuel : nat) (d : Decoder) (bs : bytes) (frames : list Envelope)
  : Decoder * result FrameError (list Envelope) :=
  match fuel with
  | O => (d, Ok frames)
  | S fuel =>
      match bs with
      | [] => (d, Ok frames)
      | _ :: _ =>
          let target := de_target d in
          let n := N.min (target - blen (de_buffer d)) (blen bs) in
          let buffer := de_buffer d ++ btake n bs in
          let bs := bdrop n bs in
          if negb (blen buffer =? target)
          then push_loop fuel {| de_buffer := buffer; de_expected := de_expected d |} bs frames
          else match complete (de_expected d) buffer with
               | (d, Err e) => (d, Err e)
               | (d, Ok fs) => push_loop fuel d bs (frames ++ fs)
               end
      end
  end.

Definition push (d : Decoder) (bs : bytes) : Decoder * result FrameError (list Envelope) :=
  push_loop (S (length bs)) d bs [].

Definition finish (d : Decoder) : result FrameError unit :=
  match de_buffer d, de_expected d with
  | [], None => Ok tt
  | _, _ => Err Truncated
  end.

(** A stream of pieces pushed one after the other, up to the first error. *)
Fixpoint push_chunks (d : Decoder) (chunks : list bytes)
  : Decoder * result FrameError (list Envelope) :=
  match chunks with
  | [] => (d, Ok [])
  | c :: chunks =>
      match push d c with
      | (d, Err e) => (d, Err e)
      | (d, Ok fs) =>
          let '(d, r) := push_chunks d chunks in (d, rbind r (fun gs => Ok (fs ++ gs)))
      end
  end.

(** The frames of a list of envelopes, as one stream. *)
Fixpoint encode_all (es : list Envelope) : result FrameError bytes :=
  match es with
  | [] => Ok []
  | e :: es => rbind (encode e) (fun f => rbind (encode_all es) (fun fs => Ok (f ++ fs)))
  end.

(** ** The decoder byte by byte

    A reference for [push]: one byte at a time, with no slices. *)
Definition feed (d : Decoder) (b : N) : Decoder * result FrameError (list Envelope) :=
  if blen (de_buffer d) =? de_target d then complete (de_expected d) (de_buffer d)
  else
    let buffer := de_buffer d ++ [b] in
    if blen buffer =? de_target d then complete (de_expected d) buffer
    else ({| de_buffer := buffer; de_expected := de_expected d |}, Ok []).

Fixpoint feed_all (d : Decoder) (bs : bytes) : Decoder * result FrameError (list Envelope) :=
  match bs with
  | [] => (d, Ok [])
  | b :: bs =>
      match feed d b with
      | (d, Err e) => (d, Err e)
      | (d, Ok fs) => let '(d, r) := feed_all d bs in (d, rbind r (fun gs => Ok (fs ++ gs)))
      end
  end.

(** What holds of a decoder between pushes.  A full buffer is left only by a
    frame that is not JSON; the next push reports it again. *)
Record decoder_ok (d : Decoder) : Prop := {
  ok_length : blen (de_buffer d) <= de_target d;
  ok_expected n : de_expected d = Some n -> 0 < n <= MAX_FRAME_BYTES;
  ok_prefix : de_expected d = None -> blen (de_buffer d) < 4;
  ok_stuck n : de_expected d = Some n -> blen (de_buffer d) = n ->
    is_ok (from_slice (A := Envelope) (de_buffer d)) = false }.

Lemma decoder_new_ok : decoder_ok decoder_new.
Proof. constructor; cbn; try discriminate; blens. Qed.

Lemma complete_ok expected buffer :
  (forall n, expected = Some n -> 0 < n <= MAX_FRAME_BYTES /\ blen buffer = n) ->
  decoder_ok (fst (complete expected buffer)).
Proof.
  intros Hx. unfold complete. destruct expected as [n|].
  - destruct (Hx n eq_refl) as [Hn Hb].
    destruct (from_slice buffer) as [e|e] eqn:E; cbn [fst]; [apply decoder_new_ok|].
    constructor; cbn; [blens|naive_solver..|]. intros m [= <-] _. by rewrite E.
  - destruct ((_ =? 0) || _) eqn:E; cbn [fst]; [apply decoder_new_ok|]. bools.
    constructor; cbn; [blens| |done|]; intros n [= <-]; unfold MAX_FRAME_BYTES in *; blens.
Qed.

Lemma feed_ok d b : decoder_ok d -> decoder_ok (fst (feed d b)).
Proof.
  intros Hd. pose proof (ok_length d Hd) as Hl. pose proof (ok_expected d Hd) as Hx. unfold feed.
  destruct (blen (de_buffer d) =? de_target d) eqn:E; bools.
  { apply complete_ok. intros n Hn. split; [by apply Hx|].
    revert E. unfold de_target. by rewrite Hn. }
  destruct (blen (_ ++ _) =? de_target d) eqn:E2; bools; autorewrite with bytes_rw in E2.
  { apply complete_ok. intros n Hn. split; [by apply Hx|].
    revert E2. unfold de_target. rewrite Hn. cbn. blens. }
  constructor; cbn [fst de_buffer de_expected]; unfold de_target in *; cbn [de_expected]; [blens|done|..].
  - intros Hn. rewrite Hn in *. cbn in *. blens.
  - intros n Hn Hb. rewrite Hn in *. cbn in *. blens.
Qed.

Lemma feed_all_ok d bs : decoder_ok d -> decoder_ok (fst (feed_all d bs)).
Proof.
  revert d. induction bs as [|b bs IH]; intros d Hd; [done|]. cbn [feed_all].
  pose proof (feed_ok d b Hd) as Hf. destruct (feed d b) as [d' [fs|e]]; [|done].
  specialize (IH d' Hf). by destruct (feed_all d' bs).
Qed.

Lemma feed_all_app d a b :
  feed_all d (a ++ b) =
  match feed_all d a with
  | (d, Err e) => (d, Err e)
  | (d, Ok fs) => let '(d, r) := feed_all d b in (d, rbind r (fun gs => Ok (fs ++ gs)))
  end.
Proof.
  revert d. induction a as [|x a IH]; intros d; cbn [app feed_all].
  { destruct (feed_all d b) as [d' [fs|e]]; done. }
  destruct (feed d x) as [d1 [fs|e]]; [|done]. rewrite IH.
  destruct (feed_all d1 a) as [d2 [gs|e]]; cbn; [|done].
  destruct (feed_all d2 b) as [d3 [hs|e]]; cbn; [by rewrite app_assoc|done].
Qed.

(** Bytes that do not fill the buffer are kept. *)
Lemma feed_all_partial d part :
  blen (de_buffer d) + blen part < de_target d ->
  feed_all d part = ({| de_buffer := de_buffer d ++ part; de_expected := de_expected d |}, Ok []).
Proof.
  revert d. induction part as [|b part IH]; intros d Hd.
  { cbn. rewrite app_nil_r. by destruct d. }
  rewrite blen_cons in Hd. cbn [feed_all]. unfold feed.
  destruct (blen (de_buffer d) =? de_target d) eqn:E; bools; [lia|].
  destruct (blen (_ ++ _) =? de_target d) eqn:E2; bools; [blens|].
  rewrite IH; [cbn; by rewrite <- app_assoc|].
  cbn [de_buffer]. unfold de_target in *. cbn [de_expected]. blens.
Qed.

(** Bytes that fill it exactly complete it. *)
Lemma feed_all_full d part :
  blen (de_buffer d) + blen part = de_target d -> part <> [] ->
  feed_all d part = complete (de_expected d) (de_buffer d ++ part).
Proof.
  intros Hd Hp. destruct part as [|b part _] using rev_ind; [done|].
  autorewrite with bytes_rw in Hd.
  rewrite feed_all_app, feed_all_partial by lia. cbn [feed_all]. unfold feed, de_target in *.
  cbn [de_buffer de_expected]. rewrite <- app_assoc.
  destruct (blen (_ ++ part) =? _) eqn:E; bools; [blens|]. clear E.
  destruct (blen (_ ++ part ++ [b]) =? _) eqn:E; bools; [|blens].
  destruct (complete _ _) as [d' [fs|e]]; cbn; [by rewrite app_nil_r|done].
Qed.

(** A push that finds the buffer full takes nothing and reports the frame
    again. *)
Lemma stuck_complete d :
  decoder_ok d -> blen (de_buffer d) = de_target d ->
  exists e, complete (de_expected d) (de_buffer d) = (d, Err e).
Proof.
  intros Hd Hb. pose proof (ok_prefix d Hd) as Hp. unfold de_target in Hb.
  destruct (de_expected d) as [n|] eqn:En; [|specialize (Hp eq_refl); cbn in Hb; lia].
  pose proof (ok_stuck d Hd n En Hb) as Hs. unfold complete.
  destruct (from_slice _) as [a|e]; [done|]. exists (SerdeFailed e). rewrite <- En. by destruct d.
Qed.

(** [push] is [feed_all]. *)
Lemma push_loop_feed fuel d bs frames :
  decoder_ok d -> (length bs < fuel)%nat ->
  push_loop fuel d bs frames =
  (fst (feed_all d bs), rbind (snd (feed_all d bs)) (fun gs => Ok (frames ++ gs))).
Proof.
  revert d bs frames. induction fuel as [|fuel IH]; intros d bs frames Hd Hf; [lia|].
  cbn [push_loop]. destruct bs as [|b bs]; [cbn; by rewrite app_nil_r|].
  set (l := b :: bs) in *. set (n := N.min _ _).
  pose proof (ok_length d Hd) as Hl.
  assert (0 < blen l) as Hpos by (unfold l; blens).
  destruct (decide (blen (de_buffer d) = de_target d)) as [Hb|Hb].
  { assert (n = 0) as -> by (unfold n; lia). unfold btake, bdrop. cbn [N.to_nat take drop].
    rewrite app_nil_r, Hb, N.eqb_refl. cbn [negb].
    destruct (stuck_complete d Hd Hb) as [e He]. rewrite He.
    unfold l. cbn [feed_all]. unfold feed. rewrite Hb, N.eqb_refl, He. done. }
  assert (btake n l <> []) as Hne.
  { intros Hn. apply blen_nil in Hn. unfold n in Hn. blens. }
  assert (length (bdrop n l) < fuel)%nat as Hlen.
  { unfold bdrop. rewrite length_drop. unfold n, blen in *. lia. }
  assert (feed_all d l = feed_all d (btake n l ++ bdrop n l)) as -> by by rewrite btake_bdrop.
  rewrite feed_all_app.
  destruct (blen (_ ++ _) =? _) eqn:E; bools; cbn [negb]; autorewrite with bytes_rw in E.
  - rewrite feed_all_full by (try done; blens).
    pose proof (complete_ok (de_expected d) (de_buffer d ++ btake n l)) as Hc.
    destruct (complete _ _) as [d' [fs|e]]; [|done]. cbn [fst] in Hc.
    rewrite IH; [|apply Hc|done].
    + destruct (feed_all d' _) as [d2 [gs|e]]; cbn; [by rewrite app_assoc|done].
    + intros m Hm. split; [by apply (ok_expected d Hd)|]. unfold de_target in E. rewrite Hm in E. cbn in E. blens.
  - rewrite feed_all_partial by (unfold n in *; blens).
    rewrite IH; [by destruct (feed_all _ _) as [d2 [gs|e]]| |done].
    pose proof (feed_all_ok d (btake n l) Hd) as Hk.
    rewrite feed_all_partial in Hk by (unfold n in *; blens). done.
Qed.

Lemma push_feed d bs : decoder_ok d -> push d bs = feed_all d bs.
Proof.
  intros Hd. unfold push. rewrite push_loop_feed by (done || lia).
  by destruct (feed_all d bs) as [d' [fs|e]].
Qed.

Lemma push_chunks_feed d chunks : decoder_ok d -> push_chunks d chunks = feed_all d (concat chunks).
Proof.
  revert d. induction chunks as [|c chunks IH]; intros d Hd; [done|]. cbn [push_chunks concat].
  rewrite feed_all_app, push_feed by done. pose proof (feed_all_ok d c Hd) as Hk.
  destruct (feed_all d c) as [d' [fs|e]]; [|done]. by rewrite IH.
Qed.

(** The bytes of one frame are one envelope. *)
Lemma feed_frame e frame :
  (forall payload, to_vec e = Ok payload -> from_slice payload = Ok e) ->
  is_ok (from_slice (A := Envelope) []) = false ->
  en_version e = PROTOCOL_VERSION -> encode e = Ok frame ->
  feed_all decoder_new frame = (decoder_new, Ok [e]).
Proof.
  intros Hs Hnil Hv. unfold encode. destruct (to_vec e) as [payload|] eqn:Et; [cbn [map_err rbind]|done].
  specialize (Hs payload eq_refl). destruct (_ <? _) eqn:El; [done|]. bools. intros <-%Ok_inj.
  assert (0 < blen payload) as Hpos.
  { destruct payload; [by rewrite Hs in Hnil|blens]. }
  rewrite feed_all_app, feed_all_full; [|by rewrite blen_le_bytes|by destruct (le_bytes 4 _) eqn:Eb].
  cbn [decoder_new de_buffer de_expected app complete].
  unfold btake. rewrite take_ge by (rewrite length_le_bytes; cbn; lia).
  rewrite from_le_bytes by (unfold MAX_FRAME_BYTES in El; cbn; lia).
  destruct ((_ =? 0) || _) eqn:Ex; bools; [destruct Ex; bools; lia|].
  rewrite feed_all_full; [|unfold de_target; cbn; blens|by destruct payload].
  cbn [de_buffer de_expected app complete]. by rewrite Hs, Hv.
Qed.

(** Any bytes at all, errors included: what the owner does with a decoder that
    it keeps using. *)
Definition push_anyway (d : Decoder) (chunks : list bytes) : Decoder :=
  foldl (fun d c => fst (push d c)) d chunks.

Lemma push_anyway_ok d chunks : decoder_ok d -> decoder_ok (push_anyway d chunks).
Proof.
  revert d. induction chunks as [|c chunks IH]; intros d Hd; [done|].
  apply IH. rewrite push_feed by done. by apply feed_all_ok.
Qed.

End Frames.

(** ** Demonstration: two envelopes and a serde for them *)
Module ProtocolDemo.

Definition hello : Envelope := new_envelope 7 0 (Hello (txt "b1")).
Definition ping : Envelope := new_envelope 7 1 Ping.

#[global] Instance demo_serde : Serde Envelope := {|
  to_vec e := if decide (e = hello) then Ok [104; 105] else
              if decide (e = ping) then Ok [112; 105; 110; 103; 33] else Err (txt "demo");
  from_slice bs := if decide (bs = [104; 105]) then Ok hello else
                   if decide (bs = [112; 105; 110; 103; 33]) then Ok ping else Err (txt "demo") |}.

#[global] Instance demo_laws : SerdeLaws Envelope.
Proof. constructor. by vm_compute. Qed.

Definition hello_frame : bytes := [2; 0; 0; 0; 104; 105].
Definition ping_frame : bytes := [5; 0; 0; 0; 112; 105; 110; 103; 33].

Example hello_encodes : encode hello = Ok hello_frame.
Proof. by vm_compute. Qed.

End ProtocolDemo.

(** ** Properties *)

(** How the stream is cut does not matter: pushing pieces one after the
    other gives what pushing their concatenation at once gives, the same
    envelopes, the same error and the same decoder, whatever the bytes are.
    Between pushes the buffer never exceeds its target, which is at most
    16 MiB, so neither the subtraction of [push] underflows nor can a peer make
    the decoder hold more, even when it is used after errors. *)
Theorem decoding_is_incremental `{Serde Envelope} (before chunks : list bytes) :
  let d := push_anyway decoder_new before in
  push_chunks d chunks = push d (concat chunks) /\
  blen (de_buffer d) <= de_target d <= MAX_FRAME_BYTES.
Proof.
  pose proof (push_anyway_ok _ before decoder_new_ok) as Hd. cbn zeta. split.
  - by rewrite push_chunks_feed, push_feed.
  - split; [apply (ok_length _ Hd)|]. pose proof (ok_expected _ Hd) as Hx. unfold de_target.
    destruct (de_expected _) as [n|]; [by apply Hx|done].
Qed.
