(* ===== verification/GuestCarrier.v ===== *)
(** * The carrier in the guest ([rdpilot-bridge]: [wts_framing.rs], [windows.rs])

    The bridge reads the virtual channel in chunks that Windows prefixes with
    a [CHANNEL_PDU_HEADER]; [PduDecoder] checks and strips it, the frame
    decoder of the protocol takes what is left, and complete envelopes are put
    on a bounded queue.  In the other direction a frame is written in pieces
    of at most 1600 bytes.  The channel and the queue's free space are
    arguments: what each read and each write returned. *)
From S2P Require Import Prelude Bytes Json BridgeProtocol.
Open Scope N_scope.

(** ** [wts_framing.rs] *)

Record PduDecoder := { pd_remaining : option N; pd_total : N }.

Definition pdu_new : PduDecoder := {| pd_remaining := None; pd_total := 0 |}.

(** [PduDecoder::push]; its only error is the invalid header. *)
Definition pdu_push (d : PduDecoder) (chunk : bytes) : PduDecoder * option bytes :=
  if blen chunk <? 8 then (d, None)
  else
    let length := from_le (btake 4 chunk) in
    let flags := from_le (btake 4 (bdrop 4 chunk)) in
    let data := bdrop 8 chunk in
    if negb (N.ldiff flags 19 =? 0) || (length =? 0) || (MAX_FRAME_BYTES + 4 <? length)
    then (d, None)
    else
      let first := negb (N.land flags 1 =? 0) in
      if first && bool_decide (is_Some (pd_remaining d)) then (d, None)
      else
        let d := if first then {| pd_remaining := Some length; pd_total := length |} else d in
        match pd_remaining d with
        | None => (d, None)
        | Some remaining =>
            if negb (length =? pd_total d) || (remaining <? blen data) then (d, None)
            else
              let remaining := remaining - blen data in
              if negb (N.land flags 2 =? 0)
              then if negb (remaining =? 0) then (d, None)
                   else ({| pd_remaining := None; pd_total := pd_total d |}, Some data)
              else if remaining =? 0 then (d, None)
                   else ({| pd_remaining := Some remaining; pd_total := pd_total d |}, Some data)
        end.

(** ** The reading thread of [open_carrier] *)

(** What one read of the channel returned. *)
Inductive ReadResult := ReadData (chunk : bytes) | ReadEnd | ReadTimedOut | ReadFailed.

Section Carrier.
Context `{Serde Envelope}.

Record Reader := {
  rd_pdu : PduDecoder;
  rd_decoder : Decoder;
  rd_sent : list Envelope;   (** put on the queue, oldest first *)
  rd_stop : bool }.

Definition reader_new : Reader :=
  {| rd_pdu := pdu_new; rd_decoder := decoder_new; rd_sent := []; rd_stop := false |}.

(** The [try_send] of each frame with [room] free places: those sent, and
    whether all were. *)
Definition send_frames (room : nat) (frames : list Envelope) : list Envelope * bool :=
  (take room frames, (length frames <=? room)%nat).

(** One round of the loop.  [break] and [return] both set the stop flag. *)
Definition read_round (room : nat) (r : ReadResult) (s : Reader) : Reader :=
  if rd_stop s then s
  else match r with
  | ReadTimedOut => s
  | ReadEnd | ReadFailed =>
      {| rd_pdu := rd_pdu s; rd_decoder := rd_decoder s; rd_sent := rd_sent s; rd_stop := true |}
  | ReadData chunk =>
      match pdu_push (rd_pdu s) chunk with
      | (pdu, None) =>
          {| rd_pdu := pdu; rd_decoder := rd_decoder s; rd_sent := rd_sent s; rd_stop := true |}
      | (pdu, Some data) =>
          match push (rd_decoder s) data with
          | (d, Err _) =>
              {| rd_pdu := pdu; rd_decoder := d; rd_sent := rd_sent s; rd_stop := true |}
          | (d, Ok frames) =>
              let '(sent, all) := send_frames room frames in
              {| rd_pdu := pdu; rd_decoder := d; rd_sent := rd_sent s ++ sent; rd_stop := negb all |}
          end
      end
  end.

Definition read_all (reads : list (nat * ReadResult)) (s : Reader) : Reader :=
  foldl (fun s p => read_round (fst p) (snd p) s) s reads.

(** ** The writing thread *)

(** What one write returned, and whether five seconds had passed before it. *)
Record WriteResult := { wr_late : bool; wr_count : option N }.

(** [slice::chunks_mut] *)
Fixpoint chunks_of (fuel : nat) (n : N) (bs : bytes) : list bytes :=
  match fuel, bs with
  | O, _ | _, [] => []
  | S fuel, _ => btake n bs :: chunks_of fuel n (bdrop n bs)
  end.

Definition WRITE_CHUNK : N := 1600.

(** The pieces of one frame, each with the result of its write: what was
    written whole, and whether the thread goes on. *)
Fixpoint write_chunks (chunks : list bytes) (results : list WriteResult) : list bytes * bool :=
  match chunks, results with
  | [], _ => ([], true)
  | _ :: _, [] => ([], false)
  | c :: chunks, r :: results =>
      if wr_late r then ([], false)
      else if bool_decide (wr_count r = Some (blen c))
      then let '(w, go) := write_chunks chunks results in (c :: w, go)
      else ([], false)
  end.

(** One frame taken from the queue. *)
Definition write_frame (frame : Envelope) (results : list WriteResult) : list bytes * bool :=
  match encode frame with
  | Err _ => ([], false)
  | Ok bs => write_chunks (chunks_of (length bs) WRITE_CHUNK bs) results
  end.

(** ** What Windows delivers *)

(** One chunk of a message of [total] bytes. *)
Definition pdu (total flags : N) (data : bytes) : bytes :=
  le_bytes 4 total ++ le_bytes 4 flags ++ data.

(** The flags FIRST, LAST and SHOW_PROTOCOL. *)
Definition pdu_flags (first last show : bool) : N :=
  (if first then 1 else 0) + (if last then 2 else 0) + (if show then 16 else 0).

(** The chunks of a message cut into [pieces]: the first carries FIRST, the
    last LAST, and all of them may carry SHOW_PROTOCOL. *)
Fixpoint pdus (first show : bool) (total : N) (pieces : list bytes) : list bytes :=
  match pieces with
  | [] => []
  | p :: rest =>
      let last := match rest with [] => true | _ => false end in
      pdu total (pdu_flags first last show) p :: pdus false show total rest
  end.

(** A message as the channel carries it: cut anywhere, into pieces that fit
    the read buffer. *)
Record cut_as (message : bytes) (pieces : list bytes) : Prop := {
  cut_concat : concat pieces = message;
  cut_pieces : Forall (fun p => 0 < blen p <= WRITE_CHUNK) pieces }.

(** ** Lemmas *)

Lemma pdu_push_pdu d total (first last show : bool) data :
  0 < total <= MAX_FRAME_BYTES + 4 ->
  pdu_push d (pdu total (pdu_flags first last show) data) =
  if first && bool_decide (is_Some (pd_remaining d)) then (d, None)
  else
    let d := if first then {| pd_remaining := Some total; pd_total := total |} else d in
    match pd_remaining d with
    | None => (d, None)
    | Some remaining =>
        if negb (total =? pd_total d) || (remaining <? blen data) then (d, None)
        else
          let remaining := remaining - blen data in
          if last
          then if negb (remaining =? 0) then (d, None)
               else ({| pd_remaining := None; pd_total := pd_total d |}, Some data)
          else if remaining =? 0 then (d, None)
               else ({| pd_remaining := Some remaining; pd_total := pd_total d |}, Some data)
    end.
Proof.
  intros Ht. unfold pdu_push, pdu. set (flags := pdu_flags _ _ _).
  assert (flags < 2 ^ 32) as Hf by (by destruct first, last, show).
  assert (blen (le_bytes 4 total ++ le_bytes 4 flags ++ data) <? 8 = false) as ->.
  { apply N.ltb_ge. blens. }
  rewrite btake_app by blens. rewrite bdrop_app by blens. rewrite btake_app by blens.
  rewrite (app_assoc (le_bytes 4 total)), bdrop_app by blens.
  unfold MAX_FRAME_BYTES in *. rewrite !from_le_bytes by (cbn; lia).
  assert ((total =? 0) = false) as -> by (apply N.eqb_neq; lia).
  assert ((16 * 1024 * 1024 + 4 <? total) = false) as -> by (apply N.ltb_ge; lia).
  by destruct first, last, show.
Qed.

(** Chunks pushed one after the other. *)
Fixpoint pdu_all (d : PduDecoder) (chunks : list bytes) : PduDecoder * option (list bytes) :=
  match chunks with
  | [] => (d, Some [])
  | c :: chunks =>
      match pdu_push d c with
      | (d, None) => (d, None)
      | (d, Some data) =>
          let '(d, r) := pdu_all d chunks in (d, cons data <$> r)
      end
  end.

Lemma pdu_all_app d a b :
  pdu_all d (a ++ b) =
  match pdu_all d a with
  | (d, None) => (d, None)
  | (d, Some x) => let '(d, r) := pdu_all d b in (d, app x <$> r)
  end.
Proof.
  revert d. induction a as [|c a IH]; intros d; cbn [app pdu_all].
  { by destruct (pdu_all d b) as [d' [x|]]. }
  destruct (pdu_push d c) as [d1 [x|]]; [|done]. rewrite IH.
  destruct (pdu_all d1 a) as [d2 [y|]]; cbn; [|done].
  by destruct (pdu_all d2 b) as [d3 [z|]].
Qed.

(** Every chunk of a well-formed message is accepted, and the decoder is ready
    for the next message. *)
Lemma pdu_all_pieces (first show : bool) total pieces d :
  0 < total <= MAX_FRAME_BYTES + 4 -> pieces <> [] -> Forall (fun p => 0 < blen p) pieces ->
  (if first then pd_remaining d = None /\ blen (concat pieces) = total
   else pd_remaining d = Some (blen (concat pieces)) /\ pd_total d = total) ->
  pdu_all d (pdus first show total pieces) =
  ({| pd_remaining := None; pd_total := total |}, Some pieces).
Proof.
  intros Ht. revert first d. induction pieces as [|p rest IH]; intros first d Hne Hp Hd; [done|].
  inversion_clear Hp as [|? ? Hp1 Hp2]. cbn [concat] in Hd. rewrite blen_app in Hd.
  assert (pdu_push d (pdu total (pdu_flags first (match rest with [] => true | _ => false end) show) p) =
    ({| pd_remaining := match rest with [] => None | _ => Some (blen (concat rest)) end; pd_total := total |},
     Some p)) as Hpush.
  { rewrite pdu_push_pdu by done.
    assert (exists d', pd_remaining d' = Some (blen p + blen (concat rest)) /\ pd_total d' = total /\
      (if first then {| pd_remaining := Some total; pd_total := total |} else d) = d' /\
      first && bool_decide (is_Some (pd_remaining d)) = false) as (d' & Hr & Hl & -> & ->).
    { destruct first; destruct Hd as [H1 H2]; rewrite H1.
      - eexists. split_and!; [..|done|done]; cbn; [by rewrite H2|done].
      - exists d. by rewrite H1, H2. }
    cbn zeta. rewrite Hr, Hl, N.eqb_refl. cbn [negb orb].
    assert ((blen p + blen (concat rest) <? blen p) = false) as -> by (apply N.ltb_ge; lia).
    replace (blen p + blen (concat rest) - blen p) with (blen (concat rest)) by lia.
    destruct rest as [|q rest']; [done|].
    assert ((blen (concat (q :: rest')) =? 0) = false) as ->; [|done].
    apply N.eqb_neq. inversion_clear Hp2. cbn [concat]. blens. }
  cbn [pdus pdu_all]. rewrite Hpush. destruct rest as [|q rest']; [done|].
  by rewrite IH.
Qed.

Lemma read_all_cons room r reads s :
  read_all ((room, r) :: reads) s = read_all reads (read_round room r s).
Proof. done. Qed.

(** The thread after chunks that both decoders accept. *)
Lemma read_all_accepted s rooms chunks p datas d frames :
  rd_stop s = false -> length rooms = length chunks ->
  pdu_all (rd_pdu s) chunks = (p, Some datas) ->
  push_chunks (rd_decoder s) datas = (d, Ok frames) ->
  Forall (fun room => (length frames <= room)%nat) rooms ->
  read_all (zip rooms (map ReadData chunks)) s =
  {| rd_pdu := p; rd_decoder := d; rd_sent := rd_sent s ++ frames; rd_stop := false |}.
Proof.
  revert s rooms datas frames.
  induction chunks as [|c chunks IH]; intros s [|room rooms] datas frames Hs Hl Hp Hd Hr; try done.
  { cbn in *. simplify_eq. cbn in Hd. simplify_eq. rewrite app_nil_r. by destruct s; simplify_eq/=. }
  cbn [map zip zip_with]. rewrite read_all_cons.
  cbn [pdu_all] in Hp. unfold read_round. rewrite Hs.
  destruct (pdu_push (rd_pdu s) c) as [p1 [data|]]; [|done].
  destruct (pdu_all p1 chunks) as [p2 [ds|]] eqn:Ep; simplify_eq/=.
  destruct (push (rd_decoder s) data) as [d1 [fs|e]]; [|done].
  destruct (push_chunks d1 ds) as [d2 [gs|e]] eqn:Ed; simplify_eq/=.
  inversion_clear Hr as [|? ? Hr1 Hr2]. rewrite length_app in Hr1.
  unfold send_frames. assert ((length fs <=? room)%nat = true) as -> by (apply Nat.leb_le; lia).
  rewrite take_ge by lia. cbn [negb].
  rewrite (IH {| rd_pdu := p1; rd_decoder := d1; rd_sent := rd_sent s ++ fs; rd_stop := false |}
    rooms ds gs eq_refl ltac:(lia) Ep Ed).
  - cbn. by rewrite app_assoc.
  - eapply Forall_impl; [exact Hr2|]. intros x. rewrite length_app. lia.
Qed.

(** Chunks that carry envelopes: each envelope is written as JSON that reads
    back as it, its frame is cut into pieces, and each piece becomes a chunk. *)
Inductive carried : list Envelope -> list bytes -> Prop :=
| carried_nil : carried [] []
| carried_cons e payload frame show pieces es chunks :
    serde_keeps e payload -> en_version e = PROTOCOL_VERSION -> encode e = Ok frame ->
    cut_as frame pieces -> carried es chunks ->
    carried (e :: es) (pdus true show (blen frame) pieces ++ chunks).

Lemma encode_length e frame :
  encode e = Ok frame -> 4 <= blen frame <= MAX_FRAME_BYTES + 4.
Proof.
  unfold encode. destruct (to_vec e) as [payload|]; cbn [map_err rbind]; [|done].
  destruct (_ <? _) eqn:E; [done|]. bools. intros <-%Ok_inj. blens.
Qed.

Lemma carried_pdus es chunks d :
  SerdeLaws Envelope -> carried es chunks -> pd_remaining d = None ->
  exists d' datas, pd_remaining d' = None /\ pdu_all d chunks = (d', Some datas) /\
    feed_all decoder_new (concat datas) = (decoder_new, Ok es).
Proof.
  intros HL Hc. revert d.
  induction Hc as [|e payload frame show pieces es chunks [Hv1 Hv2] Hv He [Hcat Hps] _ IH]; intros d Hd.
  { exists d, []. done. }
  pose proof (encode_length _ _ He) as Hlen.
  destruct (IH {| pd_remaining := None; pd_total := blen frame |} eq_refl) as (d' & datas & Hd' & Hp & Hf).
  exists d', (pieces ++ datas). split; [done|]. split.
  - rewrite pdu_all_app, pdu_all_pieces; [by rewrite Hp|lia| | |].
    + intros ->. cbn in Hcat. subst frame. unfold blen in Hlen. cbn in Hlen. lia.
    + eapply Forall_impl; [exact Hps|]. cbn. lia.
    + by rewrite Hcat.
  - rewrite concat_app, Hcat, feed_all_app, (feed_frame e).
    + by rewrite Hf.
    + intros p Hp'. rewrite Hv1 in Hp'. by simplify_eq.
    + apply from_slice_nil.
    + done.
    + done.
Qed.

(** What the writing thread wrote is a prefix of the frame. *)
Lemma write_chunks_prefix chunks results :
  let '(w, go) := write_chunks chunks results in
  exists rest, chunks = w ++ rest /\ (go = true -> rest = []).
Proof.
  revert results. induction chunks as [|c chunks IH]; intros results; [exists []; done|].
  cbn [write_chunks]. destruct results as [|r results]; [by exists (c :: chunks)|].
  destruct (wr_late r); [by exists (c :: chunks)|]. destruct (bool_decide _); [|by exists (c :: chunks)].
  specialize (IH results). destruct (write_chunks chunks results) as [w go].
  destruct IH as (rest & -> & Hg). by exists rest.
Qed.

Lemma chunks_of_spec fuel n bs :
  0 < n -> (length bs <= fuel)%nat ->
  concat (chunks_of fuel n bs) = bs /\ Forall (fun c => 0 < blen c <= n) (chunks_of fuel n bs).
Proof.
  intros Hn. revert bs. induction fuel as [|fuel IH]; intros bs Hf.
  { destruct bs; [done|cbn in Hf; lia]. }
  destruct bs as [|b bs]; [done|]. set (l := b :: bs) in *.
  change (chunks_of (S fuel) n l) with (btake n l :: chunks_of fuel n (bdrop n l)).
  assert (0 < blen l) as Hl by (unfold l; blens).
  destruct (IH (bdrop n l)) as [Hc Hp].
  { unfold bdrop. rewrite length_drop. unfold blen in Hl. lia. }
  split; [cbn [concat]; by rewrite Hc, btake_bdrop|]. constructor; [blens|done].
Qed.

End Carrier.

(** ** Properties *)

(** C20: whatever way the channel cuts the frames, the reading thread of the
    guest puts exactly the envelopes that were sent on its queue, in their
    order, and is ready for the next one, as long as the queue has room. *)
Theorem carrier_delivers `{Serde Envelope, !SerdeLaws Envelope} es chunks rooms :
  carried es chunks -> length rooms = length chunks ->
  Forall (fun room => (length es <= room)%nat) rooms ->
  let s := read_all (zip rooms (map ReadData chunks)) reader_new in
  rd_sent s = es /\ rd_stop s = false /\ rd_decoder s = decoder_new /\
  pd_remaining (rd_pdu s) = None.
Proof.
  intros Hc Hl Hr.
  destruct (carried_pdus es chunks pdu_new _ Hc eq_refl) as (d' & datas & Hd' & Hp & Hf).
  cbn zeta. erewrite read_all_accepted; [| |done|exact Hp| |exact Hr]; try done.
  rewrite push_chunks_feed by apply decoder_new_ok. exact Hf.
Qed.

Module CarrierDemo.
Import ProtocolDemo.

Definition pieces1 : list bytes := [[2; 0]; [0; 0; 104]; [105]].
Definition pieces2 : list bytes := [ping_frame].
Definition chunks : list bytes :=
  pdus true false 6 pieces1 ++ (pdus true true 9 pieces2 ++ []).

Lemma demo_carried : carried [hello; ping] chunks.
Proof.
  apply (carried_cons hello [104; 105] hello_frame false pieces1).
  - split; by vm_compute.
  - done.
  - by vm_compute.
  - split; [done|]. by repeat (constructor; [by vm_compute|]).
  - apply (carried_cons ping [112; 105; 110; 103; 33] ping_frame true pieces2); [split; by vm_compute|done|by vm_compute| |].
    + split; [done|]. by repeat (constructor; [by vm_compute|]).
    + constructor.
Qed.

End CarrierDemo.

Lemma carrier_delivers_witness :
  let s := read_all (zip [2; 2; 2; 2]%nat (map ReadData CarrierDemo.chunks)) reader_new in
  rd_sent s = [ProtocolDemo.hello; ProtocolDemo.ping] /\ rd_stop s = false /\
  rd_decoder s = decoder_new /\ pd_remaining (rd_pdu s) = None.
Proof.
  apply (carrier_delivers [ProtocolDemo.hello; ProtocolDemo.ping] CarrierDemo.chunks [2; 2; 2; 2]%nat).
  - apply CarrierDemo.demo_carried.
  - reflexivity.
  - repeat constructor.
Defined.
