(* ===== verification/HostBridge.v ===== *)
(** * The host's side of the bridge ([crates/rdpilot/src/bridge.rs])

    [Shared] is [BridgeShared] with what its mutex protects ([State]) and the
    shared ends of the channels it owns: the oneshot replies of the requests
    and, per attachment, the queue and the closed mark that the
    [CuaAttachment] handle reads.  A [BridgeOp] is one critical section of the
    state's mutex (or one step on an atomic or a channel); the methods are
    programs of them, and any number run side by side ([Tasks.v]).  So
    [attach] sees a ready bridge in one section and puts its attachment in a
    later one, and the bridge may die between them.  A [Notify] is its
    stored permit.

    The bootstrap stages of [bootstrap.rs] are at the top. *)
From S2P Require Import Prelude Bytes Json BridgeProtocol Prog Tasks.
Open Scope N_scope.
Local Open Scope prog_scope.

(** ** [bootstrap.rs] *)

Inductive BootstrapStage :=
| RdpdrFileAccess | RdpdrFileRead | LaunchInputAttempted | LaunchInputSent
| DvcChannelCreated | DvcChannelOpen | VersionReceived | PingSent | PongReceived.

#[global] Instance BootstrapStage_eq_dec : EqDecision BootstrapStage.
Proof. solve_decision. Defined.

(** [BootstrapStage::as_str] *)
Definition stage_str (s : BootstrapStage) : text :=
  match s with
  | RdpdrFileAccess => txt "rdpdr_file_access"
  | RdpdrFileRead => txt "rdpdr_file_read"
  | LaunchInputAttempted => txt "launch_input_attempted"
  | LaunchInputSent => txt "launch_input_sent"
  | DvcChannelCreated => txt "dvc_channel_created"
  | DvcChannelOpen => txt "dvc_channel_open"
  | VersionReceived => txt "version_received"
  | PingSent => txt "ping_sent"
  | PongReceived => txt "pong_received"
  end.

(** [BootstrapProgress::record] *)
Definition record_stage (s : BootstrapStage) (stages : list BootstrapStage) : list BootstrapStage :=
  if decide (s ∈ stages) then stages else stages ++ [s].

(** ** State *)

(** Ten seconds and thirty-five seconds, in nanoseconds. *)
Definition CONTROL_TIMEOUT : Z := 10 * 10 ^ 9.
Definition LIVENESS : Z := 35 * 10 ^ 9.
Definition STREAM_DEPTH : nat := 8.
Definition MAX_REQUESTS : nat := 32.
#[global] Arguments STREAM_DEPTH : simpl never.
#[global] Arguments MAX_REQUESTS : simpl never.

Record AttachmentState := { as_id : N; as_runtime : N }.

Record State := {
  st_ready : bool;
  st_failure : option text;
  st_last_rx : option Z;
  st_dead : bool;
  st_pending : gset N;
  st_attachment : option AttachmentState;
  st_outgoing : list Envelope;
  st_retire : option Envelope }.

(** What the receivers of an attachment's channels see. *)
Record Stream := { sm_output : list Value; sm_closed : option text }.

Record Shared := {
  bs_generation : N;
  bs_bundle_id : text;
  bs_next : N;
  bs_state : State;
  bs_replies : gmap N Message;
  bs_streams : gmap N Stream;
  bs_bootstrap : list BootstrapStage;
  bs_shutdown : bool;
  bs_data_ready : bool;
  bs_retire_ready : bool }.

(** [CuaAttachment]: its ids; its queue is the stream of [attachment_id]. *)
Record CuaAttachment := { ca_attachment_id : N; ca_runtime_generation : N }.

Inductive DvcError :=
| BridgeDisconnected
| ControlQueueFull
| SessionClosed
| ClosedBeforeReplying
| DeadlineExceeded
| Replied (reason : text)
| BridgeNotReady
| AlreadyAttached
| ClosedDuringOpen
| InvalidOpenAck
| StreamClosed (reason : text)
| AttachmentClosed
| NotEncoded (e : FrameError)
| OutboundQueueFull.

(** ** Field updates *)

Definition with_state (f : State -> State) (b : Shared) : Shared :=
  {| bs_generation := bs_generation b; bs_bundle_id := bs_bundle_id b; bs_next := bs_next b;
     bs_state := f (bs_state b); bs_replies := bs_replies b; bs_streams := bs_streams b;
     bs_bootstrap := bs_bootstrap b; bs_shutdown := bs_shutdown b;
     bs_data_ready := bs_data_ready b; bs_retire_ready := bs_retire_ready b |}.

Definition with_next (n : N) (b : Shared) : Shared :=
  {| bs_generation := bs_generation b; bs_bundle_id := bs_bundle_id b; bs_next := n;
     bs_state := bs_state b; bs_replies := bs_replies b; bs_streams := bs_streams b;
     bs_bootstrap := bs_bootstrap b; bs_shutdown := bs_shutdown b;
     bs_data_ready := bs_data_ready b; bs_retire_ready := bs_retire_ready b |}.

Definition with_replies (f : gmap N Message -> gmap N Message) (b : Shared) : Shared :=
  {| bs_generation := bs_generation b; bs_bundle_id := bs_bundle_id b; bs_next := bs_next b;
     bs_state := bs_state b; bs_replies := f (bs_replies b); bs_streams := bs_streams b;
     bs_bootstrap := bs_bootstrap b; bs_shutdown := bs_shutdown b;
     bs_data_ready := bs_data_ready b; bs_retire_ready := bs_retire_ready b |}.

Definition with_streams (f : gmap N Stream -> gmap N Stream) (b : Shared) : Shared :=
  {| bs_generation := bs_generation b; bs_bundle_id := bs_bundle_id b; bs_next := bs_next b;
     bs_state := bs_state b; bs_replies := bs_replies b; bs_streams := f (bs_streams b);
     bs_bootstrap := bs_bootstrap b; bs_shutdown := bs_shutdown b;
     bs_data_ready := bs_data_ready b; bs_retire_ready := bs_retire_ready b |}.

(** [self.bootstrap.record(stage)] *)
Definition record_bootstrap (s : BootstrapStage) (b : Shared) : Shared :=
  {| bs_generation := bs_generation b; bs_bundle_id := bs_bundle_id b; bs_next := bs_next b;
     bs_state := bs_state b; bs_replies := bs_replies b; bs_streams := bs_streams b;
     bs_bootstrap := record_stage s (bs_bootstrap b); bs_shutdown := bs_shutdown b;
     bs_data_ready := bs_data_ready b; bs_retire_ready := bs_retire_ready b |}.

Definition with_notify (shutdown data retire : bool) (b : Shared) : Shared :=
  {| bs_generation := bs_generation b; bs_bundle_id := bs_bundle_id b; bs_next := bs_next b;
     bs_state := bs_state b; bs_replies := bs_replies b; bs_streams := bs_streams b;
     bs_bootstrap := bs_bootstrap b; bs_shutdown := shutdown;
     bs_data_ready := data; bs_retire_ready := retire |}.

Definition notify_shutdown (b : Shared) : Shared :=
  with_notify true (bs_data_ready b) (bs_retire_ready b) b.
Definition notify_data (b : Shared) : Shared :=
  with_notify (bs_shutdown b) true (bs_retire_ready b) b.
Definition notify_retire (b : Shared) : Shared :=
  with_notify (bs_shutdown b) (bs_data_ready b) true b.

Definition set_attachment (a : option AttachmentState) (s : State) : State :=
  {| st_ready := st_ready s; st_failure := st_failure s; st_last_rx := st_last_rx s;
     st_dead := st_dead s; st_pending := st_pending s; st_attachment := a;
     st_outgoing := st_outgoing s; st_retire := st_retire s |}.
Definition set_pending (p : gset N) (s : State) : State :=
  {| st_ready := st_ready s; st_failure := st_failure s; st_last_rx := st_last_rx s;
     st_dead := st_dead s; st_pending := p; st_attachment := st_attachment s;
     st_outgoing := st_outgoing s; st_retire := st_retire s |}.
Definition set_outgoing (l : list Envelope) (s : State) : State :=
  {| st_ready := st_ready s; st_failure := st_failure s; st_last_rx := st_last_rx s;
     st_dead := st_dead s; st_pending := st_pending s; st_attachment := st_attachment s;
     st_outgoing := l; st_retire := st_retire s |}.
Definition set_retire (r : option Envelope) (s : State) : State :=
  {| st_ready := st_ready s; st_failure := st_failure s; st_last_rx := st_last_rx s;
     st_dead := st_dead s; st_pending := st_pending s; st_attachment := st_attachment s;
     st_outgoing := st_outgoing s; st_retire := r |}.
Definition set_ready (v : bool) (s : State) : State :=
  {| st_ready := v; st_failure := st_failure s; st_last_rx := st_last_rx s;
     st_dead := st_dead s; st_pending := st_pending s; st_attachment := st_attachment s;
     st_outgoing := st_outgoing s; st_retire := st_retire s |}.
Definition set_last_rx (now : Z) (s : State) : State :=
  {| st_ready := st_ready s; st_failure := st_failure s; st_last_rx := Some now;
     st_dead := st_dead s; st_pending := st_pending s; st_attachment := st_attachment s;
     st_outgoing := st_outgoing s; st_retire := st_retire s |}.

(** ** [BridgeShared] *)

(** [BridgeShared::with_bundle_id], for the generation it computed. *)
Definition with_bundle_id (generation : N) (bundle_id : text) : Shared :=
  {| bs_generation := generation; bs_bundle_id := bundle_id; bs_next := 1;
     bs_state := {| st_ready := false; st_failure := None; st_last_rx := None; st_dead := false;
                    st_pending := ∅; st_attachment := None; st_outgoing := []; st_retire := None |};
     bs_replies := ∅; bs_streams := ∅; bs_bootstrap := []; bs_shutdown := false;
     bs_data_ready := false; bs_retire_ready := false |}.

(** [a.closed.send(Some(reason))] *)
Definition close_stream (id : N) (reason : text) : Shared -> Shared :=
  with_streams (alter (fun s => {| sm_output := sm_output s; sm_closed := Some reason |}) id).

(** Take the attachment and tell its handle. *)
Definition take_attachment (reason : text) (b : Shared) : Shared :=
  match st_attachment (bs_state b) with
  | None => b
  | Some a => close_stream (as_id a) reason (with_state (set_attachment None) b)
  end.

Definition invalidate (reason : text) (b : Shared) : Shared :=
  take_attachment reason (with_state (fun s =>
    {| st_ready := false; st_failure := Some reason; st_last_rx := st_last_rx s; st_dead := true;
       st_pending := ∅; st_attachment := st_attachment s; st_outgoing := [];
       st_retire := st_retire s |}) b).

Definition failure (b : Shared) : option text := st_failure (bs_state b).

Definition attached (id : N) (b : Shared) : bool :=
  match st_attachment (bs_state b) with Some a => as_id a =? id | None => false end.

Definition close_attachment (id : N) (reason : text) (b : Shared) : Shared :=
  if attached id b then take_attachment reason b else b.

Definition take_data (b : Shared) : Shared * option Envelope :=
  match st_outgoing (bs_state b) with
  | [] => (b, None)
  | e :: rest =>
      let b := with_state (set_outgoing rest) b in
      (match rest with [] => b | _ => notify_data b end, Some e)
  end.

Definition take_retire (b : Shared) : Shared * option Envelope :=
  (with_state (set_retire None) b, st_retire (bs_state b)).

(** The attachment an envelope carries MCP for. *)
Definition mcp_of (e : Envelope) : option N :=
  match en_message e with Mcp id _ _ => Some id | _ => None end.

Definition close_of (e : Envelope) : option N :=
  match en_message e with Close id _ => Some id | _ => None end.

(** The second section of [retire]. *)
Definition retire_slot (id : N) (reason : text) (b : Shared) : Shared :=
  let s := bs_state b in
  let outgoing := filter (fun e => mcp_of e <> Some id) (st_outgoing s) in
  let old := default 0 (and_then (st_retire s) close_of) in
  let slot := if old <=? id then Some (new_envelope (bs_generation b) 0 (Close id reason))
              else st_retire s in
  notify_retire (with_state (fun s => set_retire slot (set_outgoing outgoing s)) b).

Definition HEARTBEAT_EXCEEDED : text := txt "bridge heartbeat deadline exceeded; reconnect required".

(** The section of [check_liveness]. *)
Definition expired (now : Z) (b : Shared) : bool :=
  let s := bs_state b in
  st_ready s && match st_last_rx s with Some at_ => (LIVENESS <? now - at_)%Z | None => false end.

Definition bridge_ready (b : Shared) : bool := st_ready (bs_state b) && negb (st_dead (bs_state b)).

(** ** The sections of a request *)

(** [AtomicU64::fetch_add(1)] *)
Definition fetch_next (b : Shared) : Shared * N :=
  (with_next ((bs_next b + 1) mod 2 ^ 64) b, bs_next b).

(** [request] enters its id among those that wait. *)
Definition pend (id : N) (b : Shared) : Shared * result DvcError unit :=
  let s := bs_state b in
  if st_dead s then (b, Err BridgeDisconnected)
  else if (MAX_REQUESTS <=? size (st_pending s))%nat then (b, Err ControlQueueFull)
  else (with_state (fun s => set_pending ({[id]} ∪ st_pending s) s) b, Ok tt).

Definition unpend (id : N) : Shared -> Shared := with_state (fun s => set_pending (st_pending s ∖ {[id]}) s).

(** How the wait inside the timeout ends: the queue to the session loop is
    closed, the timeout passed, the whole future is dropped, or the receiver
    has an answer. *)
Inductive RequestWait := WaitSendFailed | WaitTimedOut | WaitDropped | WaitReply.

(** [rx.await]: a reply, a dropped sender, or still pending. *)
Definition poll_reply (id : N) (b : Shared) : option (result DvcError Message) :=
  match bs_replies b !! id with
  | Some m => Some (Ok m)
  | None => if decide (id ∈ st_pending (bs_state b)) then None else Some (Err ClosedBeforeReplying)
  end.

(** The wait: a receiver without an answer waits until the timeout.  Its end
    drops the receiver; [None]: the future is dropped. *)
Definition await_reply (w : RequestWait) (id : N) (b : Shared) : Shared * option (result DvcError Message) :=
  (with_replies (delete id) b,
   match w with
   | WaitSendFailed => Some (Err SessionClosed)
   | WaitTimedOut => Some (Err DeadlineExceeded)
   | WaitDropped => None
   | WaitReply => Some (default (Err DeadlineExceeded) (poll_reply id b))
   end).

(** ** The sections of an attachment *)

Definition attach_insert (id : N) (b : Shared) : Shared * result DvcError unit :=
  match st_attachment (bs_state b) with
  | Some _ => (b, Err AlreadyAttached)
  | None =>
      (with_streams (insert id {| sm_output := []; sm_closed := None |})
         (with_state (set_attachment (Some {| as_id := id; as_runtime := 0 |})) b), Ok tt)
  end.

(** The section of [attach] after the guest's acknowledgement. *)
Definition attach_opened (id runtime : N) (b : Shared) : Shared * bool :=
  if attached id b
  then (with_state (set_attachment (Some {| as_id := id; as_runtime := runtime |})) b, true) else (b, false).

Definition closed_reason (id : N) (b : Shared) : option text :=
  match bs_streams b !! id with Some s => sm_closed s | None => None end.

(** The section of [CuaAttachment::send]. *)
Inductive Pushed := PsClosed | PsFull | PsPushed.
Definition push_outgoing (id : N) (envelope : Envelope) (b : Shared) : Shared * Pushed :=
  let s := bs_state b in
  if st_dead s || negb (attached id b) then (b, PsClosed)
  else if (STREAM_DEPTH <=? length (st_outgoing s))%nat then (b, PsFull)
  else (notify_data (with_state (fun s => set_outgoing (st_outgoing s ++ [envelope]) s) b), PsPushed).

(** The [select!] of [CuaAttachment::recv] when it is polled: the closed mark
    wins over a queued value; [None] while it waits. *)
Definition recv_poll (id : N) (b : Shared) : Shared * option (result DvcError (option Value)) :=
  match bs_streams b !! id with
  | None => (b, Some (Ok None))
  | Some s =>
      match sm_closed s with
      | Some reason => (b, Some (Err (StreamClosed reason)))
      | None =>
          match sm_output s with
          | [] => (b, None)
          | v :: rest =>
              (with_streams (insert id {| sm_output := rest; sm_closed := None |}) b, Some (Ok (Some v)))
          end
      end
  end.

(** ** The sections of the channel processor *)

(** The section of [DvcProcessor::start]. *)
Definition restart (b : Shared) : Shared :=
  take_attachment (txt "bridge channel restarted")
    (with_state (fun s => set_outgoing [] (set_pending ∅ (set_ready false s))) b).

(** The reply to a pending request, after the match over the message. *)
Definition reply (e : Envelope) (b : Shared) : Shared :=
  let id := en_control_id e in
  if decide (id ∈ st_pending (bs_state b))
  then with_replies (insert id (en_message e))
         (with_state (fun s => set_pending (st_pending s ∖ {[id]}) s) b)
  else b.

(** [a.output.try_send(message)] *)
Definition output_send (id : N) (v : Value) (b : Shared) : option Shared :=
  match bs_streams b !! id with
  | Some s =>
      if (STREAM_DEPTH <=? length (sm_output s))%nat then None
      else Some (with_streams (insert id {| sm_output := sm_output s ++ [v]; sm_closed := sm_closed s |}) b)
  | None => None
  end.

(** What is left to do once the section of an envelope is over. *)
Inductive Next := NxDone | NxInvalidate (reason : text) | NxClose (id : N) (reason : text) | NxBackpressure (id : N).

(** The section of [DvcProcessor::process] for one envelope. *)
Definition process_section (now : Z) (e : Envelope) (b : Shared) : Shared * Next :=
  if st_dead (bs_state b) then (b, NxDone)
  else
    let b := with_state (set_last_rx now) b in
    match en_message e with
    | Ready bundle_id version =>
        if decide (bundle_id = bs_bundle_id b)
        then (reply e (record_bootstrap VersionReceived (with_state (set_ready true) b)), NxDone)
        else (b, NxInvalidate (txt "rdpilot-bridge " ++ version ++ txt " runs bundle " ++ bundle_id
                               ++ txt ", expected " ++ bs_bundle_id b))
    | Opened id g =>
        (reply e (if attached id b
                  then with_state (set_attachment (Some {| as_id := id; as_runtime := g |})) b
                  else b), NxDone)
    | Mcp id g v =>
        if match st_attachment (bs_state b) with
           | Some a => (as_id a =? id) && (as_runtime a =? g)
           | None => false
           end
        then match output_send id v b with
             | Some b => (reply e b, NxDone)
             | None => (b, NxBackpressure id)
             end
        else (reply e b, NxDone)
    | Closed id reason => (b, NxClose id reason)
    | Pong => (reply e (record_bootstrap PongReceived b), NxDone)
    | _ => (reply e b, NxDone)
    end.

(** ** The sections and the methods *)

(** What the surroundings decide: the time, and how a wait ends. *)
Record BridgeEnv := { be_now : Z; be_wait : RequestWait }.

Inductive BridgeOp : Type -> Type :=
| BInvalidate (reason : text) : BridgeOp unit
| BNotifyShutdown : BridgeOp unit
| BFailure : BridgeOp (option text)
| BReady : BridgeOp bool
| BExpired : BridgeOp bool
| BTakeData : BridgeOp (option Envelope)
| BTakeRetire : BridgeOp (option Envelope)
| BCloseAttachment (id : N) (reason : text) : BridgeOp unit
| BRetireSlot (id : N) (reason : text) : BridgeOp unit
| BFetch : BridgeOp N
| BPend (id : N) : BridgeOp (result DvcError unit)
| BAwait (id : N) (e : Envelope) : BridgeOp (option (result DvcError Message))
| BUnpend (id : N) : BridgeOp unit
| BAttachInsert (id : N) : BridgeOp (result DvcError unit)
| BAttachOpened (id runtime : N) : BridgeOp bool
| BClosedReason (id : N) : BridgeOp (option text)
| BPush (id : N) (e : Envelope) : BridgeOp Pushed
| BRecvPoll (id : N) : BridgeOp (option (result DvcError (option Value)))
| BRestart : BridgeOp unit
| BRecord (s : BootstrapStage) : BridgeOp unit
| BEnvelope (e : Envelope) : BridgeOp Next.

Definition bridge_exec (env : BridgeEnv) (B : Type) (e : BridgeOp B) (b : Shared) : Shared * B :=
  match e with
  | BInvalidate reason => (invalidate reason b, tt)
  | BNotifyShutdown => (notify_shutdown b, tt)
  | BFailure => (b, failure b)
  | BReady => (b, bridge_ready b)
  | BExpired => (b, expired (be_now env) b)
  | BTakeData => take_data b
  | BTakeRetire => take_retire b
  | BCloseAttachment id reason => (close_attachment id reason b, tt)
  | BRetireSlot id reason => (retire_slot id reason b, tt)
  | BFetch => fetch_next b
  | BPend id => pend id b
  | BAwait id _ => await_reply (be_wait env) id b
  | BUnpend id => (unpend id b, tt)
  | BAttachInsert id => attach_insert id b
  | BAttachOpened id runtime => attach_opened id runtime b
  | BClosedReason id => (b, closed_reason id b)
  | BPush id e => push_outgoing id e b
  | BRecvPoll id => recv_poll id b
  | BRestart => (restart b, tt)
  | BRecord s => (record_bootstrap s b, tt)
  | BEnvelope e => process_section (be_now env) e b
  end.

(** [BridgeShared::stop] *)
Definition stop (reason : text) : prog BridgeOp unit := do! act (BInvalidate reason) in act BNotifyShutdown.

(** [BridgeShared::retire] *)
Definition retire (id : N) (reason : text) : prog BridgeOp unit :=
  do! act (BCloseAttachment id reason) in act (BRetireSlot id reason).

(** [BridgeShared::check_liveness] *)
Definition check_liveness : prog BridgeOp unit :=
  let! late := act BExpired in
  match late with true => act (BInvalidate HEARTBEAT_EXCEEDED) | false => Ret tt end.

(** [BridgeShared::request]; [None]: the future was dropped.  The id is
    removed once by the method, and once when [PendingRequest] is dropped. *)
Definition request (generation : N) (message : Message) : prog BridgeOp (option (result DvcError Message)) :=
  let! id := act BFetch in
  let! entered := act (BPend id) in
  match entered with
  | Err e => Ret (Some (Err e))
  | Ok _ =>
      let! answer := act (BAwait id (new_envelope generation id message)) in
      match answer with
      | None => do! act (BUnpend id) in Ret None
      | Some r =>
          do! act (BUnpend id) in
          do! act (BUnpend id) in
          Ret (Some (match r with Ok (MsgError reason) => Err (Replied reason) | r => r end))
      end
  end.

(** [Drop for CuaAttachment] *)
Definition detach (id : N) : prog BridgeOp unit := retire id (txt "caller detached").
(** [CuaAttachment::close] *)
Definition close_handle (id : N) : prog BridgeOp unit := retire id (txt "caller closed attachment").

(** [BridgeShared::attach].  The handle owns the cleanup: it is dropped with
    every error, and with the future. *)
Definition attach (generation : N) : prog BridgeOp (option (result DvcError CuaAttachment)) :=
  let! ready := act BReady in
  match ready with
  | false => Ret (Some (Err BridgeNotReady))
  | true =>
    let! id := act BFetch in
    let! inserted := act (BAttachInsert id) in
    match inserted with
    | Err e => Ret (Some (Err e))
    | Ok _ =>
        let! response := request generation (Open id) in
        let refused e := do! detach id in Ret (Some (Err e)) in
        match response with
        | None => do! detach id in Ret None
        | Some (Err e) => refused e
        | Some (Ok (Opened a g)) =>
            if a =? id then
              let! opened := act (BAttachOpened id g) in
              match opened with
              | true => Ret (Some (Ok {| ca_attachment_id := id; ca_runtime_generation := g |}))
              | false => refused ClosedDuringOpen
              end
            else refused InvalidOpenAck
        | Some (Ok _) => refused InvalidOpenAck
        end
    end
  end.

Section Methods.
Context `{Serde Envelope}.

(** [CuaAttachment::send] *)
Definition send (generation : N) (h : CuaAttachment) (message : Value) : prog BridgeOp (result DvcError unit) :=
  let id := ca_attachment_id h in
  let! closed := act (BClosedReason id) in
  match closed with
  | Some reason => Ret (Err (StreamClosed reason))
  | None =>
      let envelope := new_envelope generation 0 (Mcp id (ca_runtime_generation h) message) in
      match encode envelope with
      | Err e => Ret (Err (NotEncoded e))
      | Ok _ =>
          let! pushed := act (BPush id envelope) in
          match pushed with
          | PsClosed => Ret (Err AttachmentClosed)
          | PsFull => do! retire id (txt "Cua outbound queue full") in Ret (Err OutboundQueueFull)
          | PsPushed => Ret (Ok tt)
          end
      end
  end.

(** [CuaAttachment::recv], up to its first wait. *)
Definition recv (id : N) : prog BridgeOp (option (result DvcError (option Value))) :=
  let! closed := act (BClosedReason id) in
  match closed with
  | Some reason => Ret (Some (Err (StreamClosed reason)))
  | None => act (BRecvPoll id)
  end.

(** [BridgeProcessor::encode_request]: one frame. *)
Definition encode_request (e : Envelope) : result FrameError (list bytes) :=
  rbind (encode e) (fun f => Ok [f]).

(** [Drop for BridgeProcessor] *)
Definition processor_drop : prog BridgeOp unit := act (BInvalidate (txt "RDP bridge disconnected")).

(** [DvcProcessor::start] *)
Definition start (generation : N) (bundle_id : text) : prog BridgeOp (result FrameError (list bytes)) :=
  do! act BRestart in
  do! act (BRecord DvcChannelCreated) in
  Ret (encode_request (new_envelope generation 0 (Hello bundle_id))).

(** The loop of [DvcProcessor::process] over the envelopes of a payload. *)
Fixpoint process_envelopes (generation : N) (es : list Envelope) (responses : list bytes)
  : prog BridgeOp (result FrameError (list bytes)) :=
  match es with
  | [] => Ret (Ok responses)
  | e :: es =>
      if negb (en_generation e =? generation) then process_envelopes generation es responses
      else
        let! next := act (BEnvelope e) in
        match next with
        | NxDone => process_envelopes generation es responses
        | NxInvalidate reason =>
            do! act (BInvalidate reason) in process_envelopes generation es responses
        | NxClose id reason =>
            do! act (BCloseAttachment id reason) in process_envelopes generation es responses
        | NxBackpressure id =>
            do! act (BCloseAttachment id (txt "Cua caller is not reading")) in
            match encode_request (new_envelope generation 0 (Close id (txt "caller backpressure"))) with
            | Ok frames => process_envelopes generation es (responses ++ frames)
            | Err e => Ret (Err e)
            end
        end
  end.

(** [DvcProcessor::process], for its decoder, and the text a frame error
    shows. *)
Definition process (show : FrameError -> text) (generation : N) (payload : bytes) (d : Decoder)
  : Decoder * prog BridgeOp (result FrameError (list bytes)) :=
  match push d payload with
  | (d, Err e) => (d, do! act (BInvalidate (txt "invalid bridge frame: " ++ show e)) in Ret (Ok []))
  | (d, Ok frames) => (d, process_envelopes generation frames [])
  end.

(** ** Calls side by side *)

(** A call of a method; a payload of the channel comes as what its decoder
    makes of it. *)
Inductive BridgeCall :=
| BcInvalidate (reason : text) | BcStop (reason : text) | BcFailure | BcReady
| BcTakeData | BcTakeRetire | BcLiveness
| BcRequest (message : Message) | BcAttach
| BcSend (h : CuaAttachment) (message : Value) | BcRecv (id : N) | BcClose (id : N) | BcDetach (id : N)
| BcStart | BcProcess (frames : list Envelope) | BcFrameError (reason : text) | BcProcessorDrop.

Inductive BridgeAnswer :=
| BaDone
| BaFailure (f : option text)
| BaReady (ready : bool)
| BaEnvelope (e : option Envelope)
| BaRequest (r : option (result DvcError Message))
| BaAttach (r : option (result DvcError CuaAttachment))
| BaSend (r : result DvcError unit)
| BaRecv (r : option (result DvcError (option Value)))
| BaFrames (r : result FrameError (list bytes)).

Definition done_ {A} (p : prog BridgeOp A) : prog BridgeOp BridgeAnswer := do! p in Ret BaDone.

Definition bridge_body (generation : N) (bundle_id : text) (c : BridgeCall) : prog BridgeOp BridgeAnswer :=
  match c with
  | BcInvalidate reason => done_ (act (BInvalidate reason))
  | BcStop reason => done_ (stop reason)
  | BcFailure => let! f := act BFailure in Ret (BaFailure f)
  | BcReady => let! r := act BReady in Ret (BaReady r)
  | BcTakeData => let! e := act BTakeData in Ret (BaEnvelope e)
  | BcTakeRetire => let! e := act BTakeRetire in Ret (BaEnvelope e)
  | BcLiveness => done_ check_liveness
  | BcRequest message => let! r := request generation message in Ret (BaRequest r)
  | BcAttach => let! r := attach generation in Ret (BaAttach r)
  | BcSend h v => let! r := send generation h v in Ret (BaSend r)
  | BcRecv id => let! r := recv id in Ret (BaRecv r)
  | BcClose id => done_ (close_handle id)
  | BcDetach id => done_ (detach id)
  | BcStart => let! r := start generation bundle_id in Ret (BaFrames r)
  | BcProcess frames => let! r := process_envelopes generation frames [] in Ret (BaFrames r)
  | BcFrameError reason => done_ (act (BInvalidate reason))
  | BcProcessorDrop => done_ processor_drop
  end.

(** Nothing else changes the state. *)
Definition bridge_outside (s s' : Shared) : Prop := False.

Definition bridge_steps (generation : N) (bundle_id : text) :=
  pool_steps bridge_exec (bridge_body generation bundle_id) bridge_outside.
Definition bridge_reached (generation : N) (bundle_id : text) (w : Shared * list (@Task BridgeOp BridgeCall BridgeAnswer)) : Prop :=
  bridge_steps generation bundle_id (with_bundle_id generation bundle_id, []) w.
End Methods.

(** ** What always holds of it *)

Definition streams_ok (b : Shared) : Prop :=
  map_Forall (fun _ s => (length (sm_output s) <= STREAM_DEPTH)%nat) (bs_streams b).

(** [T] are the attachments put there by an [attach] that has not asked the
    guest yet. *)
Record bridge_inv (b : Shared) (T : list N) : Prop := {
  bi_pending : (size (st_pending (bs_state b)) <= MAX_REQUESTS)%nat;
  bi_outgoing : (length (st_outgoing (bs_state b)) <= STREAM_DEPTH)%nat;
  bi_streams : streams_ok b;
  bi_dead : st_dead (bs_state b) = true ->
    st_ready (bs_state b) = false /\ st_outgoing (bs_state b) = [] /\ st_pending (bs_state b) = ∅ /\
    forall a, st_attachment (bs_state b) = Some a -> as_id a ∈ T }.

#[export] Instance bridge_owned : Owned bridge_outside bridge_inv.
Proof.
  split; [|by intros ? ? ? []]. intros s T T' HP []. split; try done. intros Hd.
  destruct (bi_dead0 Hd) as (? & ? & ? & Ha). split_and!; try done. intros a E. rewrite <- HP. auto.
Qed.

Lemma bridge_inv_init generation bundle_id : bridge_inv (with_bundle_id generation bundle_id) [].
Proof. constructor; cbn; try done; unfold MAX_REQUESTS, STREAM_DEPTH; [rewrite size_empty|]; lia. Qed.

Lemma bridge_inv_more b T T' : (forall x, x ∈ T -> x ∈ T') -> bridge_inv b T -> bridge_inv b T'.
Proof.
  intros Hs []. split; try done. intros Hd. destruct (bi_dead0 Hd) as (? & ? & ? & Ha). split_and!; auto.
Qed.

Lemma filter_le {A} (P : A -> Prop) `{forall x, Decision (P x)} (l : list A) :
  (length (filter P l) <= length l)%nat.
Proof. induction l as [|x l IH]; [done|]. rewrite filter_cons. destruct (decide (P x)); cbn; lia. Qed.

Lemma streams_alter id reason b : streams_ok b -> streams_ok (close_stream id reason b).
Proof.
  intros Hs i s. cbn. rewrite lookup_alter. destruct (decide (id = i)); [|apply Hs].
  destruct (bs_streams b !! id) eqn:E; cbn; [|done]. intros [= <-]. cbn. by apply (Hs id).
Qed.

(** Taking the attachment away keeps the rest. *)
Lemma take_attachment_state reason b :
  bs_state (take_attachment reason b) = set_attachment None (bs_state b).
Proof.
  unfold take_attachment. destruct (st_attachment (bs_state b)) eqn:E; [done|].
  destruct b as [? ? ? st]; destruct st; cbn in *. by rewrite E.
Qed.

Lemma take_attachment_streams reason b : streams_ok b -> streams_ok (take_attachment reason b).
Proof.
  intros Hs. unfold take_attachment. destruct (st_attachment _); [|done]. by apply streams_alter.
Qed.

(** Without an attachment nothing is owed. *)
Lemma inv_take_attachment reason b T T' : bridge_inv b T -> bridge_inv (take_attachment reason b) T'.
Proof.
  intros [Hp Ho Hs Hd]. constructor; rewrite ?take_attachment_state; cbn; try done.
  - by apply take_attachment_streams.
  - intros H. by destruct (Hd H) as (? & ? & ? & ?).
Qed.

(** The attachment [id] is gone, and with it what was owed for it. *)
Lemma inv_close_attachment id reason b T : bridge_inv b (id :: T) -> bridge_inv (close_attachment id reason b) T.
Proof.
  intros Hb. unfold close_attachment. destruct (attached id b) eqn:Ea; [by eapply inv_take_attachment|].
  destruct Hb as [Hp Ho Hs Hd]. split; try done. intros H. destruct (Hd H) as (? & ? & ? & Ha). split_and!; try done.
  intros a E. specialize (Ha a E). unfold attached in Ea. rewrite E in Ea. bools.
  apply elem_of_cons in Ha as [?|?]; [congruence|done].
Qed.

(** Only the fields of [bridge_inv] count. *)
Lemma inv_kept b b' T :
  bridge_inv b T -> st_dead (bs_state b') = st_dead (bs_state b) -> st_ready (bs_state b') = st_ready (bs_state b) ->
  (length (st_outgoing (bs_state b')) <= length (st_outgoing (bs_state b)))%nat ->
  st_pending (bs_state b') ⊆ st_pending (bs_state b) -> st_attachment (bs_state b') = st_attachment (bs_state b) ->
  streams_ok b' -> bridge_inv b' T.
Proof.
  intros [Hp Ho Hs Hd] H1 H2 H3 H4 H5 H6. split; [|lia|done|].
  - apply subseteq_size in H4. lia.
  - rewrite H1, H2, H5. intros H. destruct (Hd H) as (? & E & Ep & Ha). rewrite E in H3. split_and!; try done.
    + by apply length_zero_iff_nil, Nat.le_0_r.
    + rewrite Ep in H4. set_solver.
Qed.

Lemma inv_live b b' T T' :
  bridge_inv b T -> st_dead (bs_state b') = false ->
  (size (st_pending (bs_state b')) <= MAX_REQUESTS)%nat -> (length (st_outgoing (bs_state b')) <= STREAM_DEPTH)%nat ->
  streams_ok b' -> bridge_inv b' T'.
Proof. intros [] H1 H2 H3 H4. split; try done. congruence. Qed.

Lemma size_added (id : N) (P : gset N) : (size ({[id]} ∪ P) <= S (size P))%nat.
Proof.
  destruct (decide (id ∈ P)); [replace ({[id]} ∪ P) with P by set_solver; lia|].
  rewrite size_union, size_singleton by set_solver. lia.
Qed.

(** Entering a request: only a live bridge admits it, and it owes nothing. *)
Lemma inv_pend id b T T' :
  bridge_inv b T ->
  match snd (pend id b) with
  | Ok _ => st_dead (bs_state b) = false /\ bridge_inv (fst (pend id b)) T'
  | Err _ => fst (pend id b) = b
  end.
Proof.
  intros Hb. unfold pend. destruct (st_dead (bs_state b)) eqn:Hd; [done|].
  destruct (_ <=? _)%nat eqn:El; [done|]. cbn. split; [done|]. bools. destruct Hb as [Hp Ho Hs _].
  split; cbn; try done; [|congruence]. pose proof (size_added id (st_pending (bs_state b))). lia.
Qed.

(** Putting an attachment there: it is owed until the guest is asked. *)
Lemma inv_attachment_put id b T :
  bridge_inv b T ->
  match snd (attach_insert id b) with
  | Ok _ => bridge_inv (fst (attach_insert id b)) (id :: T)
  | Err _ => fst (attach_insert id b) = b
  end.
Proof.
  intros [Hp Ho Hs Hd]. unfold attach_insert. destruct (st_attachment (bs_state b)); cbn; [done|].
  split; cbn; try done.
  - apply map_Forall_insert_2; [cbn; lia|done].
  - intros H. destruct (Hd H) as (? & ? & ? & _). split_and!; try done. intros a [= <-]. by left.
Qed.

(** Giving the attachment its runtime keeps whose it is. *)
Lemma inv_runtime id g b T :
  attached id b = true -> bridge_inv b T ->
  bridge_inv (with_state (set_attachment (Some {| as_id := id; as_runtime := g |})) b) T.
Proof.
  unfold attached. intros Ha [Hp Ho Hs Hd]. destruct (st_attachment (bs_state b)) as [a|] eqn:E; [|done]. bools.
  split; cbn; try done. intros H. destruct (Hd H) as (? & ? & ? & Ht). split_and!; try done.
  intros a' [= <-]. subst id. cbn. by apply Ht.
Qed.

Lemma inv_reply e b T : bridge_inv b T -> bridge_inv (reply e b) T.
Proof.
  intros Hb. unfold reply. destruct (decide _); [|done]. apply (inv_kept b); try done; cbn; [set_solver|apply Hb].
Qed.

Lemma inv_output_send id v b b' T : bridge_inv b T -> output_send id v b = Some b' -> bridge_inv b' T.
Proof.
  intros Hb. unfold output_send. destruct (bs_streams b !! id) as [s|] eqn:E; [|done].
  destruct (_ <=? _)%nat eqn:El; [done|]. bools. intros [= <-]. apply (inv_kept b); try done; cbn.
  apply map_Forall_insert_2; [cbn; rewrite length_app; cbn; lia|apply Hb].
Qed.

Lemma inv_process now e b T : bridge_inv b T -> bridge_inv (fst (process_section now e b)) T.
Proof.
  intros Hb. unfold process_section. destruct (st_dead (bs_state b)) eqn:Hd; [done|].
  assert (Hk : bridge_inv (with_state (set_last_rx now) b) T) by (apply (inv_kept b); try done; apply Hb).
  set (k := with_state (set_last_rx now) b) in *.
  assert (st_dead (bs_state k) = false) as Hl by done. clearbody k. clear Hb Hd.
  assert (Hreply : bridge_inv (reply e k) T) by (by apply inv_reply).
  destruct (en_message e); try exact Hreply; try exact Hk.
  - destruct (decide _); [|done]. apply inv_reply. apply (inv_live k _ T); cbn; try done; apply Hk.
  - apply inv_reply. apply (inv_kept k); try done; apply Hk.
  - apply inv_reply. destruct (attached _ k) eqn:Ea; [by apply inv_runtime|done].
  - destruct (match st_attachment (bs_state k) with Some _ => _ | None => _ end); [|done].
    destruct (output_send _ _ k) eqn:Eo; cbn; [|done]. apply inv_reply. exact (inv_output_send _ _ _ _ _ Hk Eo).
Qed.

(** Every section but those that put an attachment there keeps what is owed. *)
Definition keeps (B : Type) (e : BridgeOp B) : Prop := match e with BAttachInsert _ => False | _ => True end.

Lemma inv_invalidate reason b T : bridge_inv b T -> bridge_inv (invalidate reason b) T.
Proof.
  intros [Hp Ho Hs Hd]. unfold invalidate. constructor; rewrite ?take_attachment_state; cbn; try done.
  - rewrite size_empty. lia.
  - lia.
  - by apply take_attachment_streams.
Qed.

Lemma inv_restart b T : bridge_inv b T -> bridge_inv (restart b) T.
Proof.
  intros [Hp Ho Hs Hd]. unfold restart. constructor; rewrite ?take_attachment_state; cbn; try done.
  - rewrite size_empty. lia.
  - lia.
  - by apply take_attachment_streams.
Qed.

Lemma inv_exec env B (e : BridgeOp B) b T : keeps B e -> bridge_inv b T -> bridge_inv (fst (bridge_exec env B e b)) T.
Proof.
  intros Hk Hb. destruct e; cbn [bridge_exec fst]; try done.
  - by eapply inv_invalidate.
  - by apply (inv_kept b); try done; apply Hb.
  - unfold take_data. destruct (st_outgoing (bs_state b)) as [|e l] eqn:E; [done|].
    assert (bridge_inv (with_state (set_outgoing l) b) T) as Hk'.
    { apply (inv_kept b); try done; [cbn; rewrite E; cbn; lia|apply Hb]. }
    destruct l; [done|]. apply (inv_kept _ _ _ Hk'); try done. apply Hb.
  - apply (inv_kept b); try done. apply Hb.
  - apply inv_close_attachment. apply (bridge_inv_more b T); [|done]. intros. by right.
  - apply (inv_kept b); try done; [apply filter_le|apply Hb].
  - apply (inv_kept b); try done. apply Hb.
  - pose proof (inv_pend id b T T Hb) as Hp. destruct (snd (pend id b)); [by destruct Hp|by rewrite Hp].
  - apply (inv_kept b); try done. apply Hb.
  - apply (inv_kept b); try done; cbn; [set_solver|apply Hb].
  - unfold attach_opened. destruct (attached id b) eqn:Ea; [by apply inv_runtime|done].
  - unfold push_outgoing. destruct (_ || _) eqn:E; [done|]. destruct (_ <=? _)%nat eqn:El; [done|]. bools.
    apply (inv_live b _ T); cbn; try done; [apply Hb|rewrite length_app; cbn; lia|apply Hb].
  - unfold recv_poll. destruct (bs_streams b !! id) as [s|] eqn:E; [|done].
    destruct (sm_closed s); [done|]. destruct (sm_output s) as [|v l] eqn:El; [done|].
    apply (inv_kept b); try done. cbn. apply map_Forall_insert_2; [|apply Hb].
    pose proof (bi_streams b T Hb _ _ E) as Hl. cbn in *. rewrite El in Hl. cbn in Hl. lia.
  - by apply inv_restart.
  - apply (inv_kept b); try done. apply Hb.
  - by apply inv_process.
Qed.

(** ** What the calls do with what they owe *)

Abbreviation wpb := (wp bridge_exec bridge_inv).

Lemma wp_keeps {A} (p : prog BridgeOp A) own Q :
  all_ops keeps p -> (forall a, Q a own) -> wpb p own Q.
Proof.
  intros Hp HQ. induction p as [a|B e k IH]; cbn; [apply HQ|]. destruct Hp as [He Hk].
  intros env s rest Hi. exists own. split; [by apply inv_exec|]. by apply IH.
Qed.

(** Dropping a handle withdraws its attachment. *)
Lemma wp_take_away id reason own Q :
  own = [] \/ own = [id] -> Q tt [] -> wpb (retire id reason) own Q.
Proof.
  intros Ho HQ env s rest Hi. exists []. cbn. split.
  - apply inv_close_attachment. eapply bridge_inv_more; [|exact Hi].
    destruct Ho as [->| ->]; cbn; [intros; by right|done].
  - intros env' s' rest' Hi'. exists []. split; [|done]. by apply (inv_exec env' _ (BRetireSlot id reason)).
Qed.

Lemma wp_request generation m own Q :
  (forall r, match r with Some (Err _) => True | _ => False end -> Q r own) -> (forall r, Q r []) ->
  wpb (request generation m) own Q.
Proof.
  intros He Hok env s rest Hi. exists own. cbn. split; [by apply (inv_exec env _ BFetch)|].
  intros env' s' rest' Hi'. pose proof (inv_pend (bs_next s) s' (own ++ rest') rest' Hi') as Hp. cbn [bridge_exec].
  destruct (pend (bs_next s) s') as [b [u|e]]; cbn [fst snd] in *.
  - exists []. split; [by destruct Hp|]. apply wp_keeps; [|done].
    cbn. split; [done|]. intros [r|]; cbn; [|done]. by repeat split.
  - exists own. rewrite Hp. split; [done|]. by apply He.
Qed.

Lemma wp_attach generation : wpb (attach generation) [] (fun _ own => own = []).
Proof.
  unfold attach. cbn [pbind act wp]. intros env s rest Hi. exists []. split; [done|].
  cbn [bridge_exec snd]. destruct (bridge_ready s); cbn [wp]; [|done].
  intros env1 s1 rest1 Hi1. exists []. split; [by apply (inv_exec env1 _ BFetch)|]. cbn [bridge_exec fetch_next snd].
  generalize (bs_next s1). intros id env2 s2 rest2 Hi2. pose proof (inv_attachment_put id s2 rest2 Hi2) as Hn. cbn [bridge_exec].
  destruct (attach_insert id s2) as [b [u|e]]; cbn [fst snd] in *; [|exists []; by rewrite Hn].
  exists [id]. split; [done|]. cbv zeta.
  assert (Hout : forall own (r : option (result DvcError CuaAttachment)), own = [] \/ own = [id] ->
    wpb (do! detach id in Ret r) own (fun _ own => own = [])).
  { intros own r Ho. apply wp_bind, wp_take_away; done. }
  apply wp_bind, wp_request; [intros [[?|e]|] ?; try done; apply Hout; by right|].
  intros [[m|e]|]; [|apply Hout; by left..]. destruct m; try (apply Hout; by left).
  destruct (_ =? id); [|apply Hout; by left].
  intros env3 s3 rest3 Hi3. exists []. split; [by apply (inv_exec env3 _ (BAttachOpened id runtime_generation))|].
  destruct (snd _); [done|]. apply Hout. by left.
Qed.

Section Calls.
Context `{Serde Envelope}.

Lemma keeps_envelopes generation es rs : all_ops keeps (process_envelopes generation es rs).
Proof.
  revert rs. induction es as [|e es IH]; intros rs; cbn [process_envelopes]; [done|].
  destruct (negb _); [apply IH|]. split; [done|]. intros []; [apply IH|..]; (split; [done|]; intros []); [apply IH..|].
  destruct (encode_request _); [apply IH|done].
Qed.

Lemma keeps_retire id reason : all_ops keeps (retire id reason).
Proof. by repeat split. Qed.

Lemma wp_bridge_body generation bundle_id c : wpb (bridge_body generation bundle_id c) [] (fun _ own => own = []).
Proof.
  destruct c; cbn [bridge_body]; try (apply wp_keeps; [by repeat split|done]).
  - apply wp_keeps; [|done]. split; [done|]. by intros [].
  - apply wp_bind, wp_request; done.
  - apply wp_bind. eapply wp_mono; [apply wp_attach|]. done.
  - apply wp_keeps; [|done]. apply all_ops_bind; [|done]. split; [done|]. intros [r|]; [done|].
    cbn zeta. case_match; [|done]. split; [done|]. intros []; [done| |done].
    by repeat split.
  - apply wp_keeps; [|done]. split; [done|]. by intros [].
  - apply wp_keeps; [|done]. apply all_ops_bind; [apply keeps_envelopes|done].
Qed.

Lemma reached_pool_inv generation bundle_id w :
  bridge_reached generation bundle_id w -> pool_inv bridge_exec bridge_inv (fun _ _ own => own = []) w.
Proof.
  intros Hr. eapply pool_inv_steps; [apply _|apply wp_bridge_body| |exact Hr].
  exists []. split; [apply bridge_inv_init|constructor].
Qed.

(** ** A dead bridge *)

Definition dead_state (b : Shared) : Prop := st_dead (bs_state b) = true /\ exists T, bridge_inv b T.

Lemma close_attachment_dead id reason b :
  st_dead (bs_state (close_attachment id reason b)) = st_dead (bs_state b).
Proof. unfold close_attachment. destruct (attached id b); [by rewrite take_attachment_state|done]. Qed.

Lemma dead_exec env B (e : BridgeOp B) b : dead_state b -> dead_state (fst (bridge_exec env B e b)).
Proof.
  intros [Hd [T Hb]]. split.
  - destruct e; cbn [bridge_exec fst]; try done.
    + unfold invalidate. by rewrite take_attachment_state.
    + unfold take_data. destruct (st_outgoing _) as [|e [|e' l]]; done.
    + by rewrite close_attachment_dead.
    + unfold pend. by rewrite Hd.
    + unfold attach_insert. by destruct (st_attachment _).
    + unfold attach_opened. by destruct (attached _ _).
    + unfold push_outgoing. by rewrite Hd.
    + unfold recv_poll. case_all; done.
    + unfold restart. by rewrite take_attachment_state.
    + unfold process_section. by rewrite Hd.
  - destruct e; try (exists T; by apply inv_exec).
    pose proof (inv_attachment_put id b T Hb) as Hn. cbn [bridge_exec].
    destruct (snd (attach_insert id b)); [by eexists|rewrite Hn; by exists T].
Qed.

(** What a call made on a dead bridge answers. *)
Definition refused (c : BridgeCall) (a : BridgeAnswer) : Prop :=
  match c, a with
  | BcReady, BaReady r => r = false
  | BcTakeData, BaEnvelope e => e = None
  | BcRequest _, BaRequest r => r = Some (Err BridgeDisconnected)
  | BcAttach, BaAttach r => r = Some (Err BridgeNotReady)
  | BcSend _ _, BaSend r => is_ok r = false
  | BcProcess _, BaFrames r => r = Ok []
  | BcRequest _, _ | BcAttach, _ | BcSend _ _, _ | BcProcess _, _ | BcReady, _ | BcTakeData, _ => False
  | _, _ => True
  end.

Lemma ends_any {A} I (P : A -> Prop) (p : prog BridgeOp A) : (forall a, P a) -> ends_in bridge_exec I P p.
Proof. intros HP. induction p as [a|B e k IH]; cbn; auto. Qed.

Lemma dead_envelopes generation es rs :
  ends_in bridge_exec dead_state (fun r => r = Ok rs) (process_envelopes generation es rs).
Proof.
  induction es as [|e es IH]; cbn [process_envelopes]; [done|]. destruct (negb _); [exact IH|].
  intros env s [Hd _]. cbn. unfold process_section. by rewrite Hd.
Qed.

Lemma dead_refuses generation bundle_id c :
  ends_in bridge_exec dead_state (refused c) (bridge_body generation bundle_id c).
Proof.
  destruct c; cbn [bridge_body]; try (by apply ends_any).
  - intros env s [Hd _]. cbn. unfold bridge_ready. by rewrite Hd, andb_false_r.
  - intros env s [Hd [T Hb]]. cbn. destruct (bi_dead s T Hb Hd) as (_ & E & _). unfold take_data. by rewrite E.
  - intros env s _ env' s' [Hd _]. cbn. unfold pend. by rewrite Hd.
  - intros env s [Hd _]. cbn. unfold bridge_ready. by rewrite Hd, andb_false_r.
  - intros env s _. cbn. destruct (closed_reason _ _); [done|]. destruct (encode _); [|done].
    intros env' s' [Hd _]. cbn. unfold push_outgoing. by rewrite Hd.
  - apply ends_in_bind. generalize (dead_envelopes generation frames []).
    generalize (process_envelopes generation frames []). intros p. induction p as [a|B e k IH]; cbn; auto.
Qed.

(** ** Properties *)


(** The bridge dies between the two sections of an [attach]: for a while it
    has an attachment, until the refused request takes it away. *)
Lemma attachment_of_a_dead_bridge generation bundle_id :
  let env := {| be_now := 0; be_wait := WaitReply |} in
  let go := advance bridge_exec (Call := BridgeCall) in
  let b := with_state (set_ready true) (with_bundle_id generation bundle_id) in
  let w0 := (b, [{| tk_call := BcAttach; tk_prog := bridge_body generation bundle_id BcAttach |};
                 {| tk_call := BcInvalidate []; tk_prog := bridge_body generation bundle_id (BcInvalidate []) |}]) in
  let w1 := go env 0%nat (go env 0%nat (go env 1%nat (go env 0%nat w0))) in
  let w2 := go env 0%nat (go env 0%nat (go env 0%nat (go env 0%nat w1))) in
  st_dead (bs_state (fst w1)) = true /\
  st_attachment (bs_state (fst w1)) = Some {| as_id := 1; as_runtime := 0 |} /\
  st_attachment (bs_state (fst w2)) = None /\
  option_map tk_prog (snd w2 !! 0%nat) = Some (Ret (BaAttach (Some (Err BridgeDisconnected)))).
Proof. by vm_compute. Qed.
End Calls.

(** The channel goes away; an attach afterwards. *)
Module HostDemo.
Definition env : BridgeEnv := {| be_now := 0; be_wait := WaitReply |}.
Definition go (i : nat) := advance bridge_exec (Call := BridgeCall) (Answer := BridgeAnswer) env i.
Definition call (c : BridgeCall) (w : Shared * list (@Task BridgeOp BridgeCall BridgeAnswer)) :=
  (fst w, snd w ++ [{| tk_call := c; tk_prog := bridge_body 7 (txt "b") c |}]).
Definition dead := go 0 (call BcProcessorDrop (with_bundle_id 7 (txt "b"), [])).
Definition later := go 1 (call BcAttach dead).

Lemma call_steps c w : bridge_steps 7 (txt "b") w (call c w).
Proof. apply rtc_once. destruct w as [s ts]. apply PCall. Qed.

Lemma go_steps i w : bridge_steps 7 (txt "b") w (go i w).
Proof. apply advance_steps. Qed.

Lemma dead_reached : bridge_reached 7 (txt "b") dead.
Proof. eapply (transitivity (R := rtc _)); [apply call_steps|apply go_steps]. Qed.

Lemma later_steps : bridge_steps 7 (txt "b") dead later.
Proof. eapply (transitivity (R := rtc _)); [apply call_steps|apply go_steps]. Qed.

End HostDemo.
