(* ===== verification/GuestRuntime.v ===== *)
(** * The guest's runtime ([crates/rdpilot-bridge/src/runtime.rs])

    [Guest] is the state of [run]: the Hello gate, the one Cua attachment that
    may be active with the queues between [run] and its [child_loop], the
    counters, the file transfer in progress and the bounded queue to the
    carrier.  Each branch of the [select!] is one function.  The process
    itself, the file copy and the clock are arguments: what they answered.

    [track] and [read_json] of the child loop follow. *)
From S2P Require Import Prelude Bytes Json BridgeProtocol.
Open Scope N_scope.

Definition REQUEST_TIMEOUT : Z := 30 * 10 ^ 9.
Definition HEARTBEAT_TIMEOUT : Z := 45 * 10 ^ 9.
Definition MAX_PENDING : nat := 256.
Definition QUEUE : nat := N.to_nat QUEUE_DEPTH.

(** ** State *)

(** [Attachment]: the queues are the two channels with [child_loop]; [ac_done]
    is why that task ended, when it did. *)
Record Active := {
  ac_id : N;
  ac_generation : N;
  ac_input : list Value;
  ac_output : list Value;
  ac_done : option text }.

(** A transfer: its request id and start, and the response once it is done. *)
Record Transfer := {
  tr_id : N; tr_request : FileTransferRequest; tr_start : Z; tr_response : option FileTransferResponse }.

(** [Config], as far as [run] reads it. *)
Record Config := { cf_generation : N; cf_bundle_id : text; cf_version : text }.

Record Guest := {
  gu_ready : bool;
  gu_active : option Active;
  gu_runtime_generation : N;
  gu_last_attachment_id : N;
  gu_last_control : Z;
  gu_transfer : option Transfer;
  gu_outbox : list Envelope }.

(** Why [run] returned. *)
Inductive RunEnd :=
| EndInput
| EndUnsupportedVersion
| EndBundleMismatch (wanted : text)
| EndEmit (e : FrameError)
| EndSaturated
| EndGenerationExhausted
| EndHeartbeat
| EndTransferDeadline.

Definition guest_init (now : Z) : Guest :=
  {| gu_ready := false; gu_active := None; gu_runtime_generation := 0; gu_last_attachment_id := 0;
     gu_last_control := now; gu_transfer := None; gu_outbox := [] |}.

Definition set_guest_ready (g : Guest) : Guest :=
  {| gu_ready := true; gu_active := gu_active g; gu_runtime_generation := gu_runtime_generation g;
     gu_last_attachment_id := gu_last_attachment_id g; gu_last_control := gu_last_control g;
     gu_transfer := gu_transfer g; gu_outbox := gu_outbox g |}.
Definition set_active (a : option Active) (g : Guest) : Guest :=
  {| gu_ready := gu_ready g; gu_active := a; gu_runtime_generation := gu_runtime_generation g;
     gu_last_attachment_id := gu_last_attachment_id g; gu_last_control := gu_last_control g;
     gu_transfer := gu_transfer g; gu_outbox := gu_outbox g |}.
Definition set_counters (generation last : N) (g : Guest) : Guest :=
  {| gu_ready := gu_ready g; gu_active := gu_active g; gu_runtime_generation := generation;
     gu_last_attachment_id := last; gu_last_control := gu_last_control g;
     gu_transfer := gu_transfer g; gu_outbox := gu_outbox g |}.
Definition set_last_control (now : Z) (g : Guest) : Guest :=
  {| gu_ready := gu_ready g; gu_active := gu_active g; gu_runtime_generation := gu_runtime_generation g;
     gu_last_attachment_id := gu_last_attachment_id g; gu_last_control := now;
     gu_transfer := gu_transfer g; gu_outbox := gu_outbox g |}.
Definition set_transfer (t : option Transfer) (g : Guest) : Guest :=
  {| gu_ready := gu_ready g; gu_active := gu_active g; gu_runtime_generation := gu_runtime_generation g;
     gu_last_attachment_id := gu_last_attachment_id g; gu_last_control := gu_last_control g;
     gu_transfer := t; gu_outbox := gu_outbox g |}.
Definition set_outbox (l : list Envelope) (g : Guest) : Guest :=
  {| gu_ready := gu_ready g; gu_active := gu_active g; gu_runtime_generation := gu_runtime_generation g;
     gu_last_attachment_id := gu_last_attachment_id g; gu_last_control := gu_last_control g;
     gu_transfer := gu_transfer g; gu_outbox := l |}.

Section Run.
Context `{Serde Envelope}.
Variable config : Config.

(** [emit] *)
Definition emit (control_id : N) (message : Message) (g : Guest) : result RunEnd Guest :=
  let envelope := new_envelope (cf_generation config) control_id message in
  match encode envelope with
  | Err e => Err (EndEmit e)
  | Ok _ =>
      if (length (gu_outbox g) <? QUEUE)%nat then Ok (set_outbox (gu_outbox g ++ [envelope]) g)
      else Err EndSaturated
  end.

(** [retire]: the child loop is aborted and its queues are gone. *)
Definition guest_retire (g : Guest) : Guest := set_active None g.

(** A failure after the state of [run] changed: that state is dropped with
    [run], so only the reason is kept. *)
Definition emit_error (control_id : N) (reason : text) : Guest -> result RunEnd Guest :=
  emit control_id (MsgError reason).

(** [Message::Open] when ready; [spawned] is what [spawn] answered. *)
Definition on_open (id attachment_id : N) (spawned : result text unit) (g : Guest) : result RunEnd Guest :=
  match gu_active g with
  | Some _ => emit_error id (txt "Cua attachment busy") g
  | None =>
      if attachment_id <=? gu_last_attachment_id g
      then emit_error id (txt "attachment ID must increase within bridge generation") g
      else if gu_runtime_generation g + 1 =? 2 ^ 64 then Err EndGenerationExhausted
      else
        let generation := gu_runtime_generation g + 1 in
        let g := set_counters generation attachment_id g in
        match spawned with
        | Ok _ =>
            emit id (Opened attachment_id generation)
              (set_active (Some {| ac_id := attachment_id; ac_generation := generation;
                                   ac_input := []; ac_output := []; ac_done := None |}) g)
        | Err e => emit_error id (txt "Cua spawn/containment failed: " ++ e) g
        end
  end.

(** [a.input.try_send]: refused when the queue is full or its task ended. *)
Definition input_send (v : Value) (a : Active) : option Active :=
  match ac_done a with
  | Some _ => None
  | None =>
      if (length (ac_input a) <? QUEUE)%nat
      then Some {| ac_id := ac_id a; ac_generation := ac_generation a; ac_input := ac_input a ++ [v];
                   ac_output := ac_output a; ac_done := None |}
      else None
  end.

Definition on_mcp (attachment_id runtime_generation : N) (v : Value) (g : Guest) : result RunEnd Guest :=
  match gu_active g with
  | None => Ok g
  | Some a =>
      if negb (ac_id a =? attachment_id) || negb (ac_generation a =? runtime_generation) then Ok g
      else match input_send v a with
           | Some a => Ok (set_active (Some a) g)
           | None => emit 0 (Closed attachment_id (txt "Cua input queue saturated")) (guest_retire g)
           end
  end.

Definition on_close (id attachment_id : N) (reason : text) (g : Guest) : result RunEnd Guest :=
  match gu_active g with
  | Some a =>
      if ac_id a =? attachment_id
      then emit id (Closed attachment_id reason) (guest_retire g)
      else Ok g
  | None => Ok g
  end.

Definition on_file_transfer (id : N) (now : Z) (request : FileTransferRequest) (g : Guest)
  : result RunEnd Guest :=
  match gu_transfer g with
  | Some _ => emit_error id (txt "file transfer busy") g
  | None => Ok (set_transfer (Some {| tr_id := id; tr_request := request; tr_start := now;
                                      tr_response := None |}) g)
  end.

Definition HELLO_REQUIRED : text := txt "unexpected bridge message or Hello required".

(** The first branch: one envelope from the carrier, at [now]. *)
Definition on_envelope (now : Z) (spawned : result text unit) (e : Envelope) (g : Guest)
  : result RunEnd Guest :=
  if negb (en_generation e =? cf_generation config) then Ok g
  else if negb (en_version e =? PROTOCOL_VERSION) then Err EndUnsupportedVersion
  else
    let g := set_last_control now g in
    let id := en_control_id e in
    match en_message e with
    | Hello bundle_id =>
        if decide (bundle_id = cf_bundle_id config)
        then emit id (Ready (cf_bundle_id config) (cf_version config)) (set_guest_ready g)
        else Err (EndBundleMismatch bundle_id)
    | Ping => if gu_ready g then emit id Pong g else emit_error id HELLO_REQUIRED g
    | Open a => if gu_ready g then on_open id a spawned g else emit_error id HELLO_REQUIRED g
    | Mcp a r v => if gu_ready g then on_mcp a r v g else emit_error id HELLO_REQUIRED g
    | Close a reason => if gu_ready g then on_close id a reason g else emit_error id HELLO_REQUIRED g
    | FileTransfer q =>
        if gu_ready g then on_file_transfer id now q g else emit_error id HELLO_REQUIRED g
    | _ => emit_error id HELLO_REQUIRED g
    end.

(** The second branch: a message of the active child, or its end once its
    output is drained.  [None] while it waits. *)
Definition on_output (g : Guest) : option (result RunEnd Guest) :=
  match gu_active g with
  | None => None
  | Some a =>
      match ac_output a with
      | v :: rest =>
          let a' := {| ac_id := ac_id a; ac_generation := ac_generation a; ac_input := ac_input a;
                       ac_output := rest; ac_done := ac_done a |} in
          Some (emit 0 (Mcp (ac_id a) (ac_generation a) v) (set_active (Some a') g))
      | [] =>
          match ac_done a with
          | Some reason => Some (emit 0 (Closed (ac_id a) reason) (set_active None g))
          | None => None
          end
      end
  end.

(** The third branch: a tick of the 100 ms interval. *)
Definition on_tick (now : Z) (g : Guest) : result RunEnd Guest :=
  if (HEARTBEAT_TIMEOUT <? now - gu_last_control g)%Z then Err EndHeartbeat
  else match gu_transfer g with
  | None => Ok g
  | Some t =>
      if (REQUEST_TIMEOUT <? now - tr_start t)%Z then Err EndTransferDeadline
      else match tr_response t with
      | None => Ok g
      | Some r => emit (tr_id t) (FileTransferResult r) (set_transfer None g)
      end
  end.

End Run.

(** ** The child loop's accounting *)

Section Track.
(** [serde_json::to_string] of a value. *)
Variable to_string : Value -> result text text.

Inductive TrackError := TooManyPending | IdNotWritten (e : text).

(** [track]: requests waiting for an answer, by direction and id. *)
Definition track (pending : gmap (bool * text) Z) (from_child : bool) (message : Value) (at_ : Z)
  : gmap (bool * text) Z * result TrackError unit :=
  match get (txt "id") message with
  | None => (pending, Ok tt)
  | Some id =>
      match to_string id with
      | Err e => (pending, Err (IdNotWritten e))
      | Ok id =>
          if bool_decide (is_Some (get (txt "method") message)) then
            if (MAX_PENDING <=? size pending)%nat then (pending, Err TooManyPending)
            else
              (<[(from_child, id) := at_]> pending,
               if bool_decide (is_Some (pending !! (from_child, id))) then Err TooManyPending else Ok tt)
          else if bool_decide (is_Some (get (txt "result") message))
               || bool_decide (is_Some (get (txt "error") message))
          then (delete (negb from_child, id) pending, Ok tt)
          else (pending, Ok tt)
      end
  end.

(** The deadline check of the 20 ms timer. *)
Definition request_expired (timeout now : Z) (pending : gmap (bool * text) Z) : bool :=
  bool_decide (map_Exists (fun _ at_ => timeout < now - at_)%Z pending).
End Track.

(** [read_json]: the buffer fills come one after the other; an empty one is the
    end of the stream.  The rest of the last fill stays in the reader. *)
Inductive ReadLine :=
| LineValue (v : Value) (rest : list bytes)
| LineEnd
| LineTruncated
| LineTooLong
| LineInvalid (e : text)
| LineWaiting.

Fixpoint position (p : N -> bool) (bs : bytes) : option N :=
  match bs with
  | [] => None
  | b :: bs => if p b then Some 0 else N.succ <$> position p bs
  end.

Fixpoint read_json `{Serde Value} (fills : list bytes) (line : bytes) : ReadLine :=
  match fills with
  | [] => LineWaiting
  | [] :: _ => if decide (line = []) then LineEnd else LineTruncated
  | buf :: fills =>
      let end_ := N.succ <$> position (N.eqb 10) buf in
      let n := default (blen buf) end_ in
      if MAX_FRAME_BYTES <? blen line + n then LineTooLong
      else
        let line := line ++ btake n buf in
        match end_ with
        | Some _ =>
            match from_slice line with
            | Ok v => LineValue v (match bdrop n buf with [] => fills | r => r :: fills end)
            | Err e => LineInvalid e
            end
        | None => read_json fills line
        end
  end.
