(* ===== verification/Fs.v ===== *)
(** * Files: the part of [std::fs] that installers and caches use

    A file system is what a lookup of a path finds; a path is its components
    from the root, and the directories modelled here hold no links.  An
    operation runs in [M]: it sees the file system and what the machine has in
    store for it ([Fault]), and answers a result.  A failing write leaves any
    content, a failing removal of a tree any part of the tree. *)
From S2P Require Import Prelude Bytes.

#[global] Abbreviation path := (list text) (only parsing).

Inductive Node := NFile (content : bytes) | NDir.

#[global] Instance Node_eq_dec : EqDecision Node.
Proof. solve_decision. Defined.

Definition Files := path -> option Node.

Definition under (p q : path) : bool := bool_decide (p `prefix_of` q).

Definition upd (p : path) (n : option Node) (m : Files) : Files :=
  fun q => if decide (q = p) then n else m q.

Definition is_dir (m : Files) (p : path) : bool :=
  match p, m p with
  | [], _ => true
  | _, Some NDir => true
  | _, _ => false
  end.

Definition parent (p : path) : path := take (length p - 1) p.

Inductive IoError :=
| IoFault
| PermissionDenied
| NotFound
| AlreadyExists
| NotADirectory
| IsADirectory
| Other (reason : text).

(** What happens to one operation. *)
Record Fault := { ft_fails : bool; ft_error : IoError; ft_junk : bytes; ft_keeps : path -> bool }.

Record Io := { io_fs : Files; io_faults : list Fault }.

Definition M (A : Type) := Io -> Io * result IoError A.

Definition ret {A} (a : A) : M A := fun s => (s, Ok a).
Definition throw {A} (e : IoError) : M A := fun s => (s, Err e).
Definition bind {A B} (m : M A) (f : A -> M B) : M B := fun s =>
  match m s with (s, Ok a) => f a s | (s, Err e) => (s, Err e) end.
(** Run [m] and see its result, errors included. *)
Definition attempt {A} (m : M A) : M (result IoError A) := fun s =>
  let '(s, r) := m s in (s, Ok r).
Definition lift {E A} (f : E -> IoError) (r : result E A) : M A :=
  match r with Ok a => ret a | Err e => throw (f e) end.
Definition from_option {A} (e : IoError) (o : option A) : M A :=
  match o with Some a => ret a | None => throw e end.

Declare Scope io_scope.
Delimit Scope io_scope with io.
Notation "x <- m ; k" := (bind m (fun x => k))
  (at level 20, m at level 100, k at level 200, right associativity) : io_scope.
Notation "m ;; k" := (bind m (fun _ => k)) (at level 100, k at level 200, right associativity) : io_scope.

(** One operation: [ok] is its effect or its error, [bad] what a fault leaves. *)
Definition io_op {A} (ok : Files -> result IoError (Files * A)) (bad : Fault -> Files -> Files) : M A :=
  fun s =>
  let '(fault, faults) := match io_faults s with
    | f :: fs => (if ft_fails f then Some f else None, fs)
    | [] => (None, [])
    end in
  match fault with
  | Some f => ({| io_fs := bad f (io_fs s); io_faults := faults |}, Err (ft_error f))
  | None =>
      match ok (io_fs s) with
      | Ok (m, a) => ({| io_fs := m; io_faults := faults |}, Ok a)
      | Err e => ({| io_fs := io_fs s; io_faults := faults |}, Err e)
      end
  end.

Definition unchanged (_ : Fault) (m : Files) : Files := m.

(** [fs::read] *)
Definition fs_read (p : path) : M bytes :=
  io_op (fun m => match m p with
    | Some (NFile c) => Ok (m, c)
    | Some NDir => Err IsADirectory
    | None => Err NotFound
    end) unchanged.

(** [Path::exists]: false when it cannot be told. *)
Definition fs_exists (p : path) : M bool := fun s =>
  let '(s, r) := io_op (fun m => Ok (m, bool_decide (is_Some (m p)))) unchanged s in
  (s, Ok (match r with Ok b => b | Err _ => false end)).

(** [Path::is_dir], [Path::is_file]: false when it cannot be told. *)
Definition fs_is_dir (p : path) : M bool := fun s =>
  let '(s, r) := io_op (fun m => Ok (m, is_dir m p)) unchanged s in
  (s, Ok (match r with Ok b => b | Err _ => false end)).
Definition fs_is_file (p : path) : M bool := fun s =>
  let '(s, r) := io_op (fun m => Ok (m, match m p with Some (NFile _) => true | _ => false end)) unchanged s in
  (s, Ok (match r with Ok b => b | Err _ => false end)).

(** [fs::read_dir]: the names that can be read, in the order the system has
    them ([listing]). *)
Definition fs_read_dir (listing : Files -> path -> list text) (p : path) : M (list text) :=
  io_op (fun m => match m p with
    | Some NDir => Ok (m, listing m p)
    | Some (NFile _) => Err NotADirectory
    | None => Err NotFound
    end) unchanged.

(** Where a file may be made: the parent is a directory. *)
Definition check_parent {A} (p : path) (m : Files) (k : result IoError A) : result IoError A :=
  if is_dir m (parent p) then k else Err NotFound.

(** A fault in a write leaves the file as it was or with any content. *)
Definition junk_at (p : path) (f : Fault) (m : Files) : Files :=
  if is_dir m (parent p) then
    match m p with
    | Some NDir => m
    | _ => if ft_keeps f p then m else upd p (Some (NFile (ft_junk f))) m
    end
  else m.

(** [fs::write], and the target of [fs::copy]: created or truncated. *)
Definition fs_write (p : path) (c : bytes) : M unit :=
  io_op (fun m => check_parent p m (match m p with
    | Some NDir => Err IsADirectory
    | _ => Ok (upd p (Some (NFile c)) m, tt)
    end)) (junk_at p).

(** [OpenOptions::create_new], and the bytes written to the file. *)
Definition fs_write_new (p : path) (c : bytes) : M unit :=
  io_op (fun m => check_parent p m (match m p with
    | Some _ => Err AlreadyExists
    | None => Ok (upd p (Some (NFile c)) m, tt)
    end)) (fun f m => match m p with Some _ => m | None => junk_at p f m end).

(** [fs::hard_link]: nobody writes to a linked file, so the link has its bytes. *)
Definition fs_hard_link (a b : path) : M unit :=
  io_op (fun m => match m a with
    | Some (NFile c) => check_parent b m (match m b with
        | Some _ => Err AlreadyExists
        | None => Ok (upd b (Some (NFile c)) m, tt)
        end)
    | Some NDir => Err PermissionDenied
    | None => Err NotFound
    end) unchanged.

(** [flush] and [sync_all] of a file that is open. *)
Definition fs_sync : M unit := io_op (fun m => Ok (m, tt)) unchanged.

(** [write_all] to the end of a file that is open. *)
Definition fs_append (p : path) (c : bytes) : M unit :=
  io_op (fun m => match m p with
    | Some (NFile old) => Ok (upd p (Some (NFile (old ++ c))) m, tt)
    | _ => Ok (m, tt)
    end) (fun f m => match m p with
      | Some (NFile old) => upd p (Some (NFile (old ++ ft_junk f))) m
      | _ => m
      end).

(** [fs::copy] *)
Definition fs_copy (a b : path) : M unit := bind (fs_read a) (fs_write b).

(** [fs::create_dir] *)
Definition fs_create_dir (p : path) : M unit :=
  io_op (fun m => check_parent p m (match m p with
    | Some _ => Err AlreadyExists
    | None => Ok (upd p (Some NDir) m, tt)
    end)) unchanged.

(** [fs::create_dir_all]: every missing ancestor, outermost first. *)
Fixpoint make_dirs (done todo : path) (m : Files) : result IoError Files :=
  match todo with
  | [] => Ok m
  | c :: todo =>
      let p := done ++ [c] in
      match m p with
      | Some (NFile _) => Err NotADirectory
      | Some NDir => make_dirs p todo m
      | None => make_dirs p todo (upd p (Some NDir) m)
      end
  end.
Definition fs_create_dir_all (p : path) : M unit :=
  io_op (fun m => rbind (make_dirs [] p m) (fun m => Ok (m, tt))) unchanged.

(** [fs::remove_file] *)
Definition fs_remove_file (p : path) : M unit :=
  io_op (fun m => match m p with
    | Some (NFile _) => Ok (upd p None m, tt)
    | Some NDir => Err IsADirectory
    | None => Err NotFound
    end) unchanged.

Definition remove_tree (p : path) (m : Files) : Files := fun q => if under p q then None else m q.

(** [fs::remove_dir_all] *)
Definition fs_remove_dir_all (p : path) : M unit :=
  io_op (fun m => match m p with
    | Some NDir => Ok (remove_tree p m, tt)
    | Some (NFile _) => Err NotADirectory
    | None => Err NotFound
    end) (fun f m => match m p with
      | Some NDir => fun q => if under p q && negb (ft_keeps f q) then None else m q
      | _ => m
      end).

(** [fs::rename] of a tree to a path where nothing is, or of a file over a
    file.  (An empty directory in the way is taken as an obstacle, as Windows
    does.) *)
Definition move_tree (a b : path) (m : Files) : Files := fun q =>
  if under b q then m (a ++ drop (length b) q)
  else if under a q then None
  else m q.

Definition fs_rename (a b : path) : M unit :=
  io_op (fun m => match m a with
    | None => Err NotFound
    | Some n => check_parent b m (match n, m b with
        | _, None | NFile _, Some (NFile _) => Ok (move_tree a b m, tt)
        | NDir, Some _ => Err AlreadyExists
        | NFile _, Some NDir => Err IsADirectory
        end)
    end) unchanged.

(** ** Lemmas *)

Lemma bind_ok {A B} (m : M A) (f : A -> M B) s s' b :
  bind m f s = (s', Ok b) <-> exists s1 a, m s = (s1, Ok a) /\ f a s1 = (s', Ok b).
Proof. unfold bind. destruct (m s) as [s1 [a|e]]; naive_solver. Qed.

Lemma attempt_ok {A} (m : M A) s s' r :
  attempt m s = (s', Ok r) -> m s = (s', r).
Proof. unfold attempt. destruct (m s) as [s1 r1]. naive_solver. Qed.

Lemma lift_ok {E A} (f : E -> IoError) (r : result E A) s s' a :
  lift f r s = (s', Ok a) <-> r = Ok a /\ s' = s.
Proof. destruct r; cbn; unfold ret, throw; naive_solver. Qed.

Lemma from_option_ok {A} e (o : option A) s s' a :
  from_option e o s = (s', Ok a) <-> o = Some a /\ s' = s.
Proof. destruct o; cbn; unfold ret, throw; naive_solver. Qed.

Lemma io_op_ok {A} (ok : Files -> result IoError (Files * A)) bad s s' a :
  io_op ok bad s = (s', Ok a) -> ok (io_fs s) = Ok (io_fs s', a).
Proof.
  unfold io_op. destruct (io_faults s) as [|f fs]; [|destruct (ft_fails f)]; cbn; [|done|];
    destruct (ok (io_fs s)) as [[m x]|]; intros; by simplify_eq/=.
Qed.

Lemma fs_read_ok p s s' c :
  fs_read p s = (s', Ok c) -> io_fs s p = Some (NFile c) /\ io_fs s' = io_fs s.
Proof. intros H%io_op_ok. destruct (io_fs s p) as [[]|] eqn:E; naive_solver. Qed.

Lemma fs_write_ok p c s s' u :
  fs_write p c s = (s', Ok u) -> io_fs s' = upd p (Some (NFile c)) (io_fs s).
Proof. intros H%io_op_ok. unfold check_parent in H. case_all; congruence. Qed.

Lemma fs_write_new_ok p c s s' u :
  fs_write_new p c s = (s', Ok u) ->
  io_fs s p = None /\ io_fs s' = upd p (Some (NFile c)) (io_fs s).
Proof. intros H%io_op_ok. unfold check_parent in H. case_all; naive_solver. Qed.

Lemma fs_append_ok p c s s' u :
  fs_append p c s = (s', Ok u) -> forall old, io_fs s p = Some (NFile old) ->
  io_fs s' = upd p (Some (NFile (old ++ c))) (io_fs s).
Proof. intros H%io_op_ok old Hp. rewrite Hp in H. by simplify_eq. Qed.

Lemma fs_copy_ok a b s s' u :
  fs_copy a b s = (s', Ok u) ->
  exists c, io_fs s a = Some (NFile c) /\ io_fs s' = upd b (Some (NFile c)) (io_fs s).
Proof.
  intros (s1 & c & [Hc Hs]%fs_read_ok & Hw%fs_write_ok)%bind_ok. exists c. by rewrite Hw, Hs.
Qed.

Lemma fs_hard_link_ok a b s s' u :
  fs_hard_link a b s = (s', Ok u) ->
  exists c, io_fs s a = Some (NFile c) /\ io_fs s' = upd b (Some (NFile c)) (io_fs s).
Proof. intros H%io_op_ok. unfold check_parent in H. case_all; naive_solver. Qed.

Lemma fs_remove_file_ok p s s' u :
  fs_remove_file p s = (s', Ok u) -> io_fs s' = upd p None (io_fs s).
Proof. intros H%io_op_ok. case_all; congruence. Qed.

Lemma fs_remove_dir_all_ok p s s' u :
  fs_remove_dir_all p s = (s', Ok u) -> io_fs s' = remove_tree p (io_fs s).
Proof. intros H%io_op_ok. case_all; congruence. Qed.

Lemma fs_create_dir_ok p s s' u :
  fs_create_dir p s = (s', Ok u) -> io_fs s p = None /\ io_fs s' = upd p (Some NDir) (io_fs s).
Proof. intros H%io_op_ok. unfold check_parent in H. case_all; naive_solver. Qed.

Lemma fs_rename_ok a b s s' u :
  fs_rename a b s = (s', Ok u) -> io_fs s' = move_tree a b (io_fs s).
Proof. intros H%io_op_ok. unfold check_parent in H. case_all; congruence. Qed.

Lemma fs_rename_err a b s s' e : fs_rename a b s = (s', Err e) -> io_fs s' = io_fs s.
Proof.
  unfold fs_rename, io_op. destruct (io_faults s) as [|f fs]; [|destruct (ft_fails f)]; cbn;
    try (by intros; simplify_eq); destruct (match io_fs s a with Some _ => _ | None => _ end) as [[]|];
    intros; by simplify_eq/=.
Qed.

(** An operation keeps [R] when both its effect and its faults do. *)
Lemma io_op_keeps {A} (R : Files -> Files -> Prop) (ok : Files -> result IoError (Files * A)) bad s :
  (forall m, R m m) ->
  (forall m m' a, ok m = Ok (m', a) -> R m m') -> (forall f m, R m (bad f m)) ->
  R (io_fs s) (io_fs (fst (io_op ok bad s))).
Proof.
  intros Hr Hok Hbad. unfold io_op.
  destruct (io_faults s) as [|f fs]; [|destruct (ft_fails f)]; cbn; try apply Hbad;
    destruct (ok (io_fs s)) as [[m x]|] eqn:E; cbn; eauto.
Qed.

(** ** Where a program writes

    [touches D m]: whatever happens, [m] leaves every path outside [D] as it
    was. *)
Definition touches {A} (D : path -> Prop) (m : M A) : Prop :=
  forall s q, ~ D q -> io_fs (fst (m s)) q = io_fs s q.

Create HintDb touches_db.

Lemma touches_ret {A} D (a : A) : touches D (ret a).
Proof. done. Qed.

Lemma touches_throw {A} D e : touches D (@throw A e).
Proof. done. Qed.

Lemma touches_lift {E A} D (f : E -> IoError) (r : result E A) : touches D (lift f r).
Proof. by destruct r. Qed.

Lemma touches_from_option {A} D e (o : option A) : touches D (from_option e o).
Proof. by destruct o. Qed.

Lemma touches_bind {A B} D (m : M A) (f : A -> M B) :
  touches D m -> (forall a, touches D (f a)) -> touches D (bind m f).
Proof.
  intros Hm Hf s q Hq. specialize (Hm s q Hq). unfold bind.
  destruct (m s) as [s1 [a|e]]; cbn in *; [|done]. by rewrite Hf.
Qed.

Lemma touches_attempt {A} D (m : M A) : touches D m -> touches D (attempt m).
Proof. intros Hm s q Hq. specialize (Hm s q Hq). unfold attempt. by destruct (m s). Qed.

Lemma touches_io_op {A} D (ok : Files -> result IoError (Files * A)) bad :
  (forall m m' a q, ok m = Ok (m', a) -> ~ D q -> m' q = m q) ->
  (forall f m q, ~ D q -> bad f m q = m q) -> touches D (io_op ok bad).
Proof.
  intros Hok Hbad s q Hq. apply (io_op_keeps (fun m m' => m' q = m q)); eauto.
Qed.

Lemma touches_read D p : touches D (fs_read p).
Proof. apply touches_io_op; [|done]. intros. by case_all. Qed.

Lemma touches_exists D p : touches D (fs_exists p).
Proof.
  intros s q Hq. unfold fs_exists.
  assert (touches D (io_op (fun m => Ok (m, bool_decide (is_Some (m p)))) unchanged)) as Ht.
  { apply touches_io_op; [|done]. by intros m m' a k [= <- <-]. }
  specialize (Ht s q Hq). by destruct (io_op _ _ s).
Qed.

Lemma touches_is_dir D p : touches D (fs_is_dir p).
Proof.
  intros s q Hq. unfold fs_is_dir.
  assert (touches D (io_op (fun m => Ok (m, is_dir m p)) unchanged)) as Ht.
  { apply touches_io_op; [|done]. by intros m m' a k [= <- <-]. }
  specialize (Ht s q Hq). by destruct (io_op _ _ s).
Qed.

Lemma touches_is_file D p : touches D (fs_is_file p).
Proof.
  intros s q Hq. unfold fs_is_file.
  assert (touches D (io_op (fun m => Ok (m, match m p with Some (NFile _) => true | _ => false end)) unchanged)) as Ht.
  { apply touches_io_op; [|done]. by intros m m' a k [= <- <-]. }
  specialize (Ht s q Hq). by destruct (io_op _ _ s).
Qed.

Lemma touches_read_dir D listing p : touches D (fs_read_dir listing p).
Proof. apply touches_io_op; [|done]. intros. by case_all. Qed.

Lemma touches_sync D : touches D fs_sync.
Proof. apply touches_io_op; [|done]. by intros m m' a k [= <- <-]. Qed.

Lemma upd_other p n m q : q <> p -> upd p n m q = m q.
Proof. intros. unfold upd. by destruct (decide (q = p)). Qed.

Lemma upd_same p n m : upd p n m p = n.
Proof. unfold upd. by destruct (decide (p = p)). Qed.

Lemma junk_other p f m q : q <> p -> junk_at p f m q = m q.
Proof. intros. unfold junk_at. case_all; by rewrite ?upd_other. Qed.

Lemma touches_write (D : path -> Prop) p c : D p -> touches D (fs_write p c).
Proof.
  intros Hp. apply touches_io_op.
  - intros m m' a q H Hq. unfold check_parent in H. case_all; apply upd_other; naive_solver.
  - intros f m q Hq. apply junk_other. naive_solver.
Qed.

Lemma touches_write_new (D : path -> Prop) p c : D p -> touches D (fs_write_new p c).
Proof.
  intros Hp. apply touches_io_op.
  - intros m m' a q H Hq. unfold check_parent in H. case_all; apply upd_other; naive_solver.
  - intros f m q Hq. case_match; [done|]. apply junk_other. naive_solver.
Qed.

Lemma touches_append (D : path -> Prop) p c : D p -> touches D (fs_append p c).
Proof.
  intros Hp. apply touches_io_op.
  - intros m m' a q H Hq. case_all; try done; apply upd_other; naive_solver.
  - intros f m q Hq. destruct (m p) as [[]|]; try done. apply upd_other. naive_solver.
Qed.

Lemma touches_copy (D : path -> Prop) a p : D p -> touches D (fs_copy a p).
Proof. intros. apply touches_bind; [apply touches_read|]. intros c. by apply touches_write. Qed.

Lemma touches_hard_link (D : path -> Prop) a p : D p -> touches D (fs_hard_link a p).
Proof.
  intros Hp. apply touches_io_op; [|done].
  intros m m' x q H Hq. unfold check_parent in H. case_all; apply upd_other; naive_solver.
Qed.

Lemma touches_create_dir (D : path -> Prop) p : D p -> touches D (fs_create_dir p).
Proof.
  intros Hp. apply touches_io_op; [|done].
  intros m m' a q H Hq. unfold check_parent in H. case_all; apply upd_other; naive_solver.
Qed.

Lemma touches_create_dir_all (D : path -> Prop) p :
  (forall q, q `prefix_of` p -> D q) -> touches D (fs_create_dir_all p).
Proof.
  intros Hp. apply touches_io_op; [|done]. intros m m' a q H Hq.
  destruct (make_dirs [] p m) as [m1|] eqn:E; simplify_eq/=.
  clear -E Hq Hp. revert m E.
  assert (~ q `prefix_of` p) as Hn by (intros ?; by apply Hq, Hp).
  clear Hq Hp. intros m E. change p with ([] ++ p) in Hn. revert m E Hn. generalize (@nil text).
  induction p as [|c p IH]; intros done m E Hn; cbn in E; [congruence|].
  assert (q <> done ++ [c]) as Hne.
  { intros ->. apply Hn. exists p. by rewrite <- app_assoc. }
  assert (~ q `prefix_of` (done ++ [c]) ++ p) as Hn' by (by rewrite <- app_assoc).
  destruct (m (done ++ [c])) as [[]|]; [done|by eapply IH|].
  rewrite (IH _ _ E Hn'). by apply upd_other.
Qed.

Lemma touches_remove_file (D : path -> Prop) p : D p -> touches D (fs_remove_file p).
Proof.
  intros Hp. apply touches_io_op; [|done].
  intros m m' a q H Hq. case_all; apply upd_other; naive_solver.
Qed.

Lemma touches_remove_dir_all (D : path -> Prop) p :
  (forall q, p `prefix_of` q -> D q) -> touches D (fs_remove_dir_all p).
Proof.
  intros Hp. apply touches_io_op.
  - intros m m' a q H Hq. case_all. unfold remove_tree, under.
    rewrite bool_decide_eq_false_2; [done|]. naive_solver.
  - intros f m q Hq. destruct (m p) as [[]|]; [done| |done].
    unfold under. rewrite bool_decide_eq_false_2; [done|]. naive_solver.
Qed.

Lemma touches_rename (D : path -> Prop) a b :
  (forall q, a `prefix_of` q -> D q) -> (forall q, b `prefix_of` q -> D q) -> touches D (fs_rename a b).
Proof.
  intros Ha Hb. apply touches_io_op; [|done].
  assert (forall m q, ~ D q -> move_tree a b m q = m q) as Hm.
  { intros m q Hq. unfold move_tree, under. rewrite !bool_decide_eq_false_2; naive_solver. }
  intros m m' x q H Hq. unfold check_parent in H. case_all; by apply Hm.
Qed.

#[export] Hint Resolve touches_ret touches_throw touches_lift touches_from_option touches_attempt
  touches_read touches_exists touches_write touches_write_new touches_append touches_copy touches_create_dir
  touches_is_dir touches_is_file touches_read_dir touches_sync touches_hard_link
  touches_create_dir_all touches_remove_file touches_remove_dir_all touches_rename : touches_db.

(** Walk through a program. *)
Ltac touch :=
  repeat match goal with
  | |- touches _ (bind _ _) => apply touches_bind; [|intros ?]
  | |- touches _ (attempt _) => apply touches_attempt
  | |- touches _ (if _ then _ else _) => case_match
  | |- touches _ (match _ with _ => _ end) => case_match
  end; eauto with touches_db.
