(* ===== verification/Disk.v ===== *)
(** * The host's file system, with links

    What [std::fs] does on a Unix host: a path is looked up component by
    component from the root, links are followed (at most [MAXSYMLINKS] of
    them), and [..] is the parent of the directory reached.  A [place] is
    where a file is: names from the root, no link and no [..].  The operations
    are in a state monad over the [Host], which also says which of them fail;
    the code that uses them looks at no error, so a failure is [None]. *)
From S2P Require Import Prelude Bytes.

(** ** Paths ([std::path]) *)

(** [Component]: a name or [..]; the separators and [.] are gone. *)
Inductive Component := Name (n : text) | Up.
#[global] Instance Component_eq_dec : EqDecision Component.
Proof. solve_decision. Defined.

(** An absolute path. *)
#[global] Abbreviation PathBuf := (list Component) (only parsing).

Definition component (t : text) : option Component :=
  if bool_decide (t = []) || bool_decide (t = txt ".") then None
  else if bool_decide (t = txt "..") then Some Up
  else Some (Name t).

(** [Path::components] of a text. *)
Definition components (t : text) : list Component := omap component (split_char slash t).

(** [Path::join] of a text that has no root. *)
Definition path_join (p : PathBuf) (t : text) : PathBuf := p ++ components t.

(** [Path::parent] *)
Definition path_parent (p : PathBuf) : option PathBuf :=
  match p with [] => None | _ => Some (take (length p - 1) p) end.

(** [Path::file_name] *)
Definition file_name (p : PathBuf) : option text :=
  match last p with Some (Name n) => Some n | _ => None end.

(** [Path::starts_with] *)
Definition path_starts_with (p q : PathBuf) : bool := bool_decide (q `prefix_of` p).

(** ** Files *)

#[global] Abbreviation place := (list text) (only parsing).

Definition path_of (p : place) : PathBuf := map Name p.

(** A link holds the path that it is written with. *)
Inductive DNode := DFile (content : bytes) | DDir | DLink (absolute : bool) (target : list Component).
#[global] Instance DNode_eq_dec : EqDecision DNode.
Proof. solve_decision. Defined.

(** The instances are spelled out, so that no binder is taken for one. *)
#[global] Abbreviation Disk :=
  (@gmap place (@list_eq_dec text (@list_eq_dec N N.eq_dec))
     (@list_countable text (@list_eq_dec N N.eq_dec) (@list_countable N N.eq_dec N_countable)) DNode) (only parsing).

Definition MAXSYMLINKS : nat := 40.

Definition dir_at (d : Disk) (p : place) : bool :=
  bool_decide (p = []) || match d !! p with Some DDir => true | _ => false end.

Definition up (p : place) : place := take (length p - 1) p.

(** Look [todo] up from the directory [p].  With [make] the last name may be
    missing, as for [O_CREAT].  [links] is how many may still be followed. *)
Fixpoint walk (links : nat) (make : bool) (d : Disk) (p : place) (todo : list Component) : option place :=
  (fix go (p : place) (todo : list Component) : option place :=
    match todo with
    | [] => Some p
    | Up :: todo => go (up p) todo
    | Name n :: todo =>
        let q := p ++ [n] in
        match d !! q with
        | Some DDir => go q todo
        | Some (DFile _) => match todo with [] => Some q | _ => None end
        | Some (DLink absolute target) =>
            match links with
            | O => None
            | S links => walk links make d (if absolute then [] else p) (target ++ todo)
            end
        | None => match todo with [] => if make then Some q else None | _ => None end
        end
    end) p todo.

Definition lookup_path (d : Disk) (p : PathBuf) : option place := walk MAXSYMLINKS false d [] p.

#[global] Arguments walk : simpl never.
#[global] Arguments lookup_path : simpl never.

(** ** The operations *)

(** A fault has the number of bytes that a write wrote before it. *)
Record Host := { h_disk : Disk; h_faults : list (option nat) }.

Definition HostM (A : Type) := Host -> Host * A.

Definition hret {A} (a : A) : HostM A := fun h => (h, a).
Definition hbind {A B} (m : HostM A) (f : A -> HostM B) : HostM B := fun h => let '(h, a) := m h in f a h.

Declare Scope host_scope.
Delimit Scope host_scope with host.
Notation "'do!' x ':=' m 'in' k" := (hbind m (fun x => k))
  (at level 10, x pattern, m at level 100, k at level 200, right associativity) : host_scope.
(** A step that may fail; the rest is skipped then. *)
Definition hthen {A B} (m : HostM (option A)) (f : A -> HostM (option B)) : HostM (option B) :=
  hbind m (fun o => match o with Some a => f a | None => hret None end).
Notation "'try!' x ':=' m 'in' k" := (hthen m (fun x => k))
  (at level 10, x pattern, m at level 100, k at level 200, right associativity) : host_scope.
Open Scope host_scope.

(** One operation: [f] is what it does to the disk and answers, [bad] what is
    left on the disk by a fault. *)
Definition host_op {A : Type} (bad : nat -> Disk -> Disk) (f : Disk -> option (Disk * A)) : HostM (option A) := fun h =>
  let '(fault, faults) := match h_faults h with
    | [] => (None, [])
    | x :: xs => (x, xs)
    end in
  match fault with
  | Some n => ({| h_disk := bad n (h_disk h); h_faults := faults |}, None)
  | None =>
      match f (h_disk h) with
      | Some (d, a) => ({| h_disk := d; h_faults := faults |}, Some a)
      | None => ({| h_disk := h_disk h; h_faults := faults |}, None)
      end
  end.

Definition no_trace (_ : nat) (d : Disk) : Disk := d.

(** An operation that changes nothing. *)
Definition host_see {A : Type} (f : Disk -> option A) : HostM (option A) :=
  host_op no_trace (fun d => (fun a => (d, a)) <$> f d).

Definition file_at (d : Disk) (p : place) : option bytes :=
  match d !! p with Some (DFile c) => Some c | _ => None end.

(** [fs::canonicalize] *)
Definition fs_canonicalize (p : PathBuf) : HostM (option PathBuf) :=
  host_see (fun d => path_of <$> lookup_path d p).

(** [Path::is_dir], [Path::is_file] *)
Definition fs_is_dir (p : PathBuf) : HostM bool :=
  do! o := host_see (fun d => dir_at d <$> lookup_path d p) in hret (default false o).
Definition fs_is_file (p : PathBuf) : HostM bool :=
  do! o := host_see (fun d => (fun q => bool_decide (is_Some (file_at d q))) <$> lookup_path d p) in
  hret (default false o).

(** [File::open], [seek] from the start, and [read_to_end] of at most [len]
    bytes.  The offset is a [u64] that [lseek] takes as an [i64]. *)
Definition fs_read_at (p : PathBuf) (offset len : N) : HostM (option bytes) :=
  host_see (fun d =>
    q ← lookup_path d p; c ← file_at d q;
    if (offset <? 2 ^ 63)%N then Some (btake len (bdrop offset c)) else None).

(** What a file holds after [data] was written at [offset]; a gap is zeros. *)
Definition overwrite (c : bytes) (offset : N) (data : bytes) : bytes :=
  match data with
  | [] => c
  | _ =>
      btake offset c ++ replicate (N.to_nat (offset - blen c)) 0%N ++ data
      ++ bdrop (offset + blen data) c
  end.

Definition write_file (q : place) (offset : N) (data : bytes) (d : Disk) : Disk :=
  match d !! q with
  | Some (DFile c) => <[q := DFile (overwrite c offset data)]> d
  | _ => d
  end.

(** [OpenOptions::write], [seek] and [write_all]. *)
Definition fs_write_at (p : PathBuf) (offset : N) (data : bytes) : HostM (option unit) :=
  host_op
    (fun n d => match lookup_path d p with
      | Some q => if (offset <? 2 ^ 63)%N then write_file q offset (take n data) d else d
      | None => d
      end)
    (fun d =>
      q ← lookup_path d p; _ ← file_at d q;
      if (offset <? 2 ^ 63)%N then Some (write_file q offset data d, tt) else None).

(** [File::create]: made, or truncated, through links. *)
Definition fs_create (p : PathBuf) : HostM (option unit) :=
  host_op no_trace (fun d =>
    q ← walk MAXSYMLINKS true d [] p;
    if dir_at d q then None else Some (<[q := DFile []]> d, tt)).

(** [fs::rename] of what is not a directory: the last names are not followed,
    and what is at the new name is replaced unless it is a directory. *)
Definition entry_place (d : Disk) (p : PathBuf) : option place :=
  parent ← path_parent p; n ← file_name p; q ← lookup_path d parent;
  if dir_at d q then Some (q ++ [n]) else None.

Definition fs_rename (a b : PathBuf) : HostM (option unit) :=
  host_op no_trace (fun d =>
    qa ← entry_place d a; qb ← entry_place d b;
    match d !! qa with
    | None | Some DDir => None
    | Some node =>
        if dir_at d qb then None else Some (<[qb := node]> (delete qa d), tt)
    end).

(** The names in the directory [p]. *)
Definition children (d : Disk) (p : place) : list text :=
  omap (fun '(q, _) => match last q with
      | Some n => if bool_decide (q = p ++ [n]) then Some n else None
      | None => None
      end) (map_to_list d).

(** [fs::read_dir]: the names, in no order that matters. *)
Definition fs_read_dir (p : PathBuf) : HostM (option (list text)) :=
  host_see (fun d => q ← lookup_path d p; if dir_at d q then Some (children d q) else None).

Section Size.
(** The length [metadata] tells for a directory. *)
Variable dir_size : place -> N.

(** [fs::metadata(p).len()] *)
Definition fs_len (p : PathBuf) : HostM (option N) :=
  host_see (fun d =>
    q ← lookup_path d p;
    match file_at d q with
    | Some c => Some (blen c)
    | None => Some (dir_size q)
    end).
End Size.

(** ** Where a look-up leads *)

Definition is_link (n : option DNode) : bool := match n with Some (DLink _ _) => true | _ => false end.

(** No link on the way to [p]. *)
Definition plain (d : Disk) (p : place) : Prop := forall q, q `prefix_of` p -> is_link (d !! q) = false.

(** The directories and the links of a disk; files do not count. *)
Definition shape (d : Disk) (p : place) : option DNode :=
  match d !! p with Some (DFile _) | None => None | n => n end.
Definition same_shape (d d' : Disk) : Prop := forall p, shape d p = shape d' p.

Lemma plain_prefix d p q : plain d p -> q `prefix_of` p -> plain d q.
Proof. intros Hp Hq x Hx. apply Hp. by trans q. Qed.

Lemma up_prefix p : up p `prefix_of` p.
Proof. unfold up. apply prefix_take. Qed.

Lemma up_snoc p n : up (p ++ [n]) = p.
Proof. unfold up. rewrite length_app. cbn. by rewrite Nat.add_sub, take_app_length. Qed.

Lemma prefix_snoc (q p : place) n : q `prefix_of` p ++ [n] -> q = p ++ [n] \/ q `prefix_of` p.
Proof.
  intros [k Hk]. destruct k as [|x k _] using rev_ind; [left; by rewrite Hk, app_nil_r|].
  right. rewrite app_assoc in Hk. apply app_inj_tail in Hk as [-> _]. by exists k.
Qed.

Lemma plain_snoc d p n : plain d p -> is_link (d !! (p ++ [n])) = false -> plain d (p ++ [n]).
Proof. intros Hp Hn q [->|Hq]%prefix_snoc; [done|by apply Hp]. Qed.

(** One component more. *)
Lemma walk_nil links make d p : walk links make d p [] = Some p.
Proof. by destruct links. Qed.
Lemma walk_up links make d p todo : walk links make d p (Up :: todo) = walk links make d (up p) todo.
Proof. by destruct links. Qed.
Lemma walk_name links make d p n todo : walk links make d p (Name n :: todo) =
  match d !! (p ++ [n]) with
  | Some DDir => walk links make d (p ++ [n]) todo
  | Some (DFile _) => match todo with [] => Some (p ++ [n]) | _ => None end
  | Some (DLink absolute target) =>
      match links with
      | O => None
      | S links => walk links make d (if absolute then [] else p) (target ++ todo)
      end
  | None => match todo with [] => if make then Some (p ++ [n]) else None | _ => None end
  end.
Proof. by destruct links. Qed.

Lemma dir_at_shape_eq d p : dir_at d p = bool_decide (p = []) || match shape d p with Some DDir => true | _ => false end.
Proof. unfold dir_at, shape. by destruct (d !! p) as [[]|]. Qed.

Lemma dir_at_snoc d p n : dir_at d (p ++ [n]) = match d !! (p ++ [n]) with Some DDir => true | _ => false end.
Proof. unfold dir_at. rewrite bool_decide_false by by destruct p. done. Qed.

(** Induction along a look-up that succeeds. *)
Lemma walk_cases make d (P : place -> Prop) :
  P [] -> (forall p, P p -> P (up p)) ->
  (forall p n, P p -> d !! (p ++ [n]) = Some DDir -> P (p ++ [n])) ->
  forall links p todo q, P p -> walk links make d p todo = Some q ->
  P q \/ exists p n, P p /\ q = p ++ [n] /\ (is_Some (file_at d q) \/ (make = true /\ d !! q = None)).
Proof.
  intros H0 Hup Hdir. induction links as [links IH] using lt_wf_ind. intros p todo. revert p.
  induction todo as [|[n|] todo IHt]; intros p q Hp.
  - rewrite walk_nil. intros [= <-]. by left.
  - rewrite walk_name. destruct (d !! (p ++ [n])) as [[c| |a t]|] eqn:E.
    + destruct todo; [|done]. intros [= <-]. right. exists p, n. unfold file_at. rewrite E. by eauto.
    + intros Hw. eapply IHt, Hw. by apply Hdir.
    + destruct links as [|links]; [done|]. intros Hw. eapply (IH links), Hw; [lia|]. by destruct a.
    + destruct todo; [|done]. destruct make; [|done]. intros [= <-]. right. exists p, n. by eauto.
  - rewrite walk_up. intros Hw. eapply IHt, Hw. by apply Hup.
Qed.

Lemma walk_plain links make d p todo q :
  d !! [] = None -> plain d p -> walk links make d p todo = Some q -> plain d q.
Proof.
  intros Hroot Hp Hw. destruct (walk_cases make d (plain d)) with links p todo q as [?|(x & n & Hx & -> & Hq)]; try done.
  - intros x Hx. apply prefix_nil_inv in Hx as ->. by rewrite Hroot.
  - intros x Hx. eapply plain_prefix, up_prefix. done.
  - intros x n Hx Hn. apply plain_snoc; [done|]. by rewrite Hn.
  - apply plain_snoc; [done|]. unfold file_at in Hq.
    destruct Hq as [[c Hc]|[_ Hc]]; [|by rewrite Hc]. by destruct (d !! (x ++ [n])) as [[]|].
Qed.

Lemma lookup_plain d p q : d !! [] = None -> lookup_path d p = Some q -> plain d q.
Proof.
  intros Hroot. apply walk_plain; [done|]. intros x Hx. apply prefix_nil_inv in Hx as ->. by rewrite Hroot.
Qed.

(** A path without links leads to the place it names. *)
Lemma walk_path_of links make d p rest q :
  plain d (p ++ rest) -> walk links make d p (path_of rest) = Some q -> q = p ++ rest.
Proof.
  revert p. induction rest as [|n rest IH]; intros p Hp; cbn [path_of map].
  { rewrite walk_nil, app_nil_r. congruence. }
  rewrite walk_name. rewrite (cons_middle n p rest), app_assoc in Hp |- *.
  assert (is_link (d !! (p ++ [n])) = false) as Hn by (apply Hp; by exists rest).
  destruct (d !! (p ++ [n])) as [[]|]; try done; [|by apply IH|].
  all: destruct rest; [|done].
  - intros [= <-]. by rewrite app_nil_r.
  - destruct make; [|done]. intros [= <-]. by rewrite app_nil_r.
Qed.

Lemma lookup_path_of d p q : plain d p -> lookup_path d (path_of p) = Some q -> q = p.
Proof. apply (walk_path_of _ _ d []). Qed.

(** A look-up depends on the shape, and on its end. *)
Lemma walk_shape make d d' links p todo q :
  same_shape d d' -> walk links make d p todo = Some q -> dir_at d q \/ d' !! q = d !! q ->
  walk links make d' p todo = Some q.
Proof.
  intros Hs Hw Hq. revert p todo Hw. induction links as [links IH] using lt_wf_ind. intros p todo. revert p.
  induction todo as [|[n|] todo IHt]; intros p.
  - by rewrite !walk_nil.
  - rewrite !walk_name. specialize (Hs (p ++ [n])). unfold shape in Hs.
    destruct (d !! (p ++ [n])) as [[c| |a t]|] eqn:E.
    + destruct todo; [|done]. intros [= <-]. rewrite dir_at_snoc, E in Hq. by destruct Hq as [| ->].
    + destruct (d' !! (p ++ [n])) as [[]|]; try done. apply IHt.
    + destruct (d' !! (p ++ [n])) as [[]|]; try done. injection Hs as <- <-.
      destruct links as [|links]; [done|]. apply IH. lia.
    + destruct todo; [|done]. destruct make; [|done]. intros [= <-]. rewrite dir_at_snoc, E in Hq.
      by destruct Hq as [| ->].
  - rewrite !walk_up. apply IHt.
Qed.

Lemma dir_at_shape d d' p : same_shape d d' -> dir_at d p -> dir_at d' p.
Proof. intros Hs. by rewrite !dir_at_shape_eq, (Hs p). Qed.

Lemma is_link_shape d d' p : same_shape d d' -> is_link (d !! p) = is_link (d' !! p).
Proof.
  intros Hs. specialize (Hs p). unfold shape in Hs. by destruct (d !! p) as [[]|], (d' !! p) as [[]|].
Qed.

Lemma plain_shape d d' p : same_shape d d' -> plain d p -> plain d' p.
Proof. intros Hs Hp q Hq. rewrite <- (is_link_shape _ _ _ Hs). by apply Hp. Qed.

(** Files come and go without a change of the shape. *)
Lemma shape_insert_file d p c : shape d p = None -> same_shape d (<[p := DFile c]> d).
Proof.
  intros Hp q. unfold shape in *. destruct (decide (q = p)) as [->|Hne].
  - by rewrite lookup_insert_eq.
  - by rewrite lookup_insert_ne.
Qed.

Lemma shape_delete d p : shape d p = None -> same_shape d (delete p d).
Proof.
  intros Hp q. unfold shape in *. destruct (decide (q = p)) as [->|Hne].
  - by rewrite lookup_delete_eq.
  - by rewrite lookup_delete_ne.
Qed.

#[global] Instance same_shape_equiv : Equivalence same_shape.
Proof. split; [by intros d p|intros d d' Hs p; by rewrite (Hs p)|intros d1 d2 d3 H1 H2 p; by rewrite (H1 p)]. Qed.

(** ** What the operations do *)

Lemma host_op_cases {A : Type} (bad : nat -> Disk -> Disk) (f : Disk -> option (Disk * A)) h h' o :
  host_op bad f h = (h', o) ->
  (exists n, h_disk h' = bad n (h_disk h) /\ o = None) \/
  (exists a, f (h_disk h) = Some (h_disk h', a) /\ o = Some a) \/
  (h_disk h' = h_disk h /\ o = None).
Proof.
  unfold host_op. destruct (h_faults h) as [|[n|] xs]; [|intros [= <- <-]; by eauto|];
    (destruct (f (h_disk h)) as [[d a]|] ; intros [= <- <-]; cbn; eauto 10).
Qed.

Lemma host_see_cases {A : Type} (f : Disk -> option A) h h' o :
  host_see f h = (h', o) -> h_disk h' = h_disk h /\ (o = None \/ o = f (h_disk h)).
Proof.
  intros [(n & -> & ->)|[(a & Ha & ->)|[-> ->]]]%host_op_cases; [by eauto| |by eauto].
  destruct (f (h_disk h)); cbn in Ha; simplify_eq; by eauto.
Qed.

Lemma overwrite_nil c offset : overwrite c offset [] = c.
Proof. done. Qed.

(** Writes at the end of what is there append. *)
Lemma overwrite_end c data : overwrite c (blen c) data = c ++ data.
Proof.
  destruct data as [|b data]; [by rewrite app_nil_r|]. unfold overwrite, btake, bdrop, blen.
  rewrite N.sub_diag, Nat2N.id, firstn_all. cbn [replicate N.to_nat app].
  rewrite drop_ge by lia. by rewrite app_nil_r.
Qed.

Lemma shape_at_file d p c : file_at d p = Some c -> shape d p = None.
Proof. unfold file_at, shape. by destruct (d !! p) as [[]|]. Qed.

Lemma write_file_lookup q offset data d p : p <> q -> write_file q offset data d !! p = d !! p.
Proof.
  intros Hne. unfold write_file. destruct (d !! q) as [[]|]; [|done..]. by rewrite lookup_insert_ne.
Qed.

Lemma write_file_shape q offset data d : same_shape d (write_file q offset data d).
Proof.
  unfold write_file. destruct (d !! q) as [[]|] eqn:E; [|done..].
  apply shape_insert_file. unfold shape. by rewrite E.
Qed.

(** A change of the disk that touches no place but [p], and only files. *)
Definition only_files (P : place -> Prop) (d d' : Disk) : Prop :=
  same_shape d d' /\ forall p, ~ P p -> d' !! p = d !! p.

Lemma only_files_refl P d : only_files P d d.
Proof. done. Qed.

Lemma only_files_trans P d1 d2 d3 : only_files P d1 d2 -> only_files P d2 d3 -> only_files P d1 d3.
Proof.
  intros [H1 H2] [H3 H4]. split; [by trans d2|]. intros p Hp. by rewrite H4, H2.
Qed.

Lemma only_files_weaken (P Q : place -> Prop) d d' :
  (forall p, P p -> Q p) -> only_files P d d' -> only_files Q d d'.
Proof. intros HPQ [H1 H2]. split; [done|]. intros p Hp. apply H2. auto. Qed.

Lemma fs_write_at_files d0 p offset data h h' o :
  d0 = h_disk h -> plain d0 p -> fs_write_at (path_of p) offset data h = (h', o) ->
  only_files (eq p) d0 (h_disk h').
Proof.
  intros -> Hp Hw.
  assert (forall data, only_files (eq p) (h_disk h) (write_file p offset data (h_disk h))) as Hf.
  { intros x. split; [apply write_file_shape|]. intros q Hq. apply write_file_lookup. congruence. }
  apply host_op_cases in Hw as [(n & -> & _)|[([] & Ha & _)|[-> _]]]; [| |done].
  - destruct (lookup_path _ _) as [q|] eqn:E; [|done]. apply lookup_path_of in E as ->; [|done].
    by destruct (_ <? _)%N.
  - destruct (lookup_path _ _) as [q|] eqn:E; [|done]. apply lookup_path_of in E as ->; [|done].
    cbn in Ha. destruct (file_at _ _); [|done]. cbn in Ha. destruct (_ <? _)%N; [|done]. by injection Ha as <-.
Qed.

Lemma fs_create_files p h h' o :
  plain (h_disk h) p -> fs_create (path_of p) h = (h', o) -> only_files (eq p) (h_disk h) (h_disk h').
Proof.
  intros Hp Hw. apply host_op_cases in Hw as [(n & -> & _)|[([] & Ha & _)|[-> _]]]; [done| |done].
  destruct (walk _ _ _ _ _) as [q|] eqn:E; [|done]. apply walk_path_of in E as ->; [|done]. cbn in Ha.
  destruct (dir_at _ p) eqn:Ed; [done|]. injection Ha as <-. split.
  - apply shape_insert_file. specialize (Hp p ltac:(done)). rewrite dir_at_shape_eq in Ed. apply orb_false_iff in Ed as [_ Ed].
    unfold shape in *. by destruct (h_disk h !! p) as [[]|].
  - intros q Hq. rewrite lookup_insert_ne; congruence.
Qed.

Lemma path_parent_of p n : path_parent (path_of (p ++ [n])) = Some (path_of p).
Proof.
  unfold path_parent, path_of. rewrite map_app. destruct (map Name p ++ map Name [n]) eqn:E; [by destruct p|].
  rewrite <- E, length_app. cbn. by rewrite Nat.add_sub, take_app_length.
Qed.

Lemma file_name_of p n : file_name (path_of (p ++ [n])) = Some n.
Proof. unfold file_name, path_of. rewrite map_app. cbn. by rewrite last_snoc. Qed.

Lemma path_of_prefix p q : path_starts_with (path_of p) (path_of q) = true -> q `prefix_of` p.
Proof.
  unfold path_starts_with. intros Hp%bool_decide_eq_true. revert p Hp.
  induction q as [|n q IH]; intros p Hp; [apply prefix_nil|].
  destruct p as [|m p]; [by apply prefix_nil_inv in Hp|]. cbn in Hp.
  pose proof (prefix_cons_inv_1 _ _ _ _ Hp) as [= ->]. apply prefix_cons_inv_2 in Hp.
  by apply prefix_cons, IH.
Qed.

Lemma entry_place_of d p q : plain d p -> entry_place d (path_of p) = Some q -> q = p.
Proof.
  destruct p as [|n p _] using rev_ind; [done|]. intros Hp. unfold entry_place.
  rewrite path_parent_of, file_name_of. cbn.
  destruct (lookup_path d (path_of p)) as [x|] eqn:E; [|done]. cbn.
  apply lookup_path_of in E as ->; [|eapply plain_prefix; [done|by eexists]].
  destruct (dir_at d p); congruence.
Qed.

Lemma fs_rename_files a b h h' o :
  plain (h_disk h) a -> plain (h_disk h) b -> fs_rename (path_of a) (path_of b) h = (h', o) ->
  only_files (fun p => p = a \/ p = b) (h_disk h) (h_disk h').
Proof.
  intros Hpa Hpb Hw. apply host_op_cases in Hw as [(n & -> & _)|[([] & Hr & _)|[-> _]]]; [done| |done].
  destruct (entry_place _ (path_of a)) as [qa|] eqn:Ea; [|done]. apply entry_place_of in Ea as ->; [|done].
  destruct (entry_place _ (path_of b)) as [qb|] eqn:Eb; [|done]. apply entry_place_of in Eb as ->; [|done].
  cbn in Hr. pose proof (Hpa a ltac:(done)) as Hla. pose proof (Hpb b ltac:(done)) as Hlb.
  destruct (h_disk h !! a) as [[c| |]|] eqn:Ea; [|done..]. destruct (dir_at (h_disk h) b) eqn:Ed; [done|].
  injection Hr as <-. split.
  - trans (delete a (h_disk h)); [apply shape_delete; unfold shape; by rewrite Ea|]. apply shape_insert_file.
    rewrite dir_at_shape_eq in Ed. apply orb_false_iff in Ed as [_ Ed].
    unfold shape in *. destruct (decide (a = b)) as [->|Hne]; [by rewrite lookup_delete_eq|].
    rewrite lookup_delete_ne by done. by destruct (h_disk h !! b) as [[]|].
  - intros p Hp. rewrite lookup_insert_ne, lookup_delete_ne by naive_solver. done.
Qed.

(** ** What code does on a disk, whatever fails *)

Definition hwp {A : Type} (m : HostM A) (Q : A -> Disk -> Prop) (d : Disk) : Prop :=
  forall h, h_disk h = d -> Q (snd (m h)) (h_disk (fst (m h))).

Section Wp.
Context {A B : Type}.
Implicit Types (d : Disk).

Lemma hwp_ret (a : A) (Q : A -> Disk -> Prop) d : Q a d -> hwp (hret a) Q d.
Proof. by intros HQ h <-. Qed.

Lemma hwp_bind (m : HostM A) (f : A -> HostM B) (Q : B -> Disk -> Prop) d :
  hwp m (fun a d => hwp (f a) Q d) d -> hwp (hbind m f) Q d.
Proof. intros Hm h Hh. specialize (Hm h Hh). unfold hbind. destruct (m h) as [h1 a]. by apply Hm. Qed.

Lemma hwp_then (m : HostM (option A)) (f : A -> HostM (option B)) (Q : option B -> Disk -> Prop) d :
  hwp m (fun o d => match o with Some a => hwp (f a) Q d | None => Q None d end) d -> hwp (hthen m f) Q d.
Proof.
  intros Hm h Hh. specialize (Hm h Hh). unfold hthen, hbind. destruct (m h) as [h1 [a|]]; [by apply Hm|done].
Qed.

Lemma hwp_mono (m : HostM A) (P Q : A -> Disk -> Prop) d :
  (forall a d, P a d -> Q a d) -> hwp m P d -> hwp m Q d.
Proof. intros HPQ Hm h Hh. apply HPQ. by apply Hm. Qed.

Lemma hwp_see (f : Disk -> option A) (Q : option A -> Disk -> Prop) d :
  Q None d -> Q (f d) d -> hwp (host_see f) Q d.
Proof.
  intros HN HS h <-. destruct (host_see f h) as [h' o] eqn:E. cbn. apply host_see_cases in E as [-> [->| ->]]; done.
Qed.
End Wp.

Section WpOps.
Implicit Types (d : Disk).

Lemma hwp_canonicalize (p : PathBuf) (Q : option PathBuf -> Disk -> Prop) d :
  Q None d -> (forall q, lookup_path d p = Some q -> Q (Some (path_of q)) d) -> hwp (fs_canonicalize p) Q d.
Proof. intros HN HS. apply hwp_see; [done|]. destruct (lookup_path d p) eqn:E; cbn; auto. Qed.

Lemma hwp_is_dir (p : PathBuf) (Q : bool -> Disk -> Prop) d : (forall b, Q b d) -> hwp (fs_is_dir p) Q d.
Proof. intros HQ. apply hwp_bind, hwp_see; by apply hwp_ret. Qed.

Lemma hwp_is_file (p : PathBuf) (Q : bool -> Disk -> Prop) d : (forall b, Q b d) -> hwp (fs_is_file p) Q d.
Proof. intros HQ. apply hwp_bind, hwp_see; by apply hwp_ret. Qed.

Lemma hwp_len (dir_size : place -> N) (p : PathBuf) (Q : option N -> Disk -> Prop) d : (forall o, Q o d) -> hwp (fs_len dir_size p) Q d.
Proof. intros HQ. by apply hwp_see. Qed.

(** What a read answers is a part of a file. *)
Lemma hwp_read_at (p : PathBuf) (offset len : N) (Q : option bytes -> Disk -> Prop) d :
  Q None d ->
  (forall q c, lookup_path d p = Some q -> file_at d q = Some c -> Q (Some (btake len (bdrop offset c))) d) ->
  hwp (fs_read_at p offset len) Q d.
Proof.
  intros HN HS. apply hwp_see; [done|]. destruct (lookup_path d p) as [q|] eqn:E; [|done]. cbn.
  destruct (file_at d q) as [c|] eqn:Ec; [|done]. cbn. destruct (_ <? _)%N; [by eapply HS|done].
Qed.

Lemma hwp_read_dir (p : PathBuf) (Q : option (list text) -> Disk -> Prop) d : (forall o, Q o d) -> hwp (fs_read_dir p) Q d.
Proof. intros HQ. by apply hwp_see. Qed.

Lemma hwp_write_at (p : place) (offset : N) (data : bytes) (Q : option unit -> Disk -> Prop) d :
  plain d p -> (forall o d', only_files (eq p) d d' -> Q o d') -> hwp (fs_write_at (path_of p) offset data) Q d.
Proof.
  intros Hp HQ h Hh. destruct (fs_write_at _ _ _ h) as [h' o] eqn:E. apply HQ. by eapply fs_write_at_files.
Qed.

Lemma hwp_create (p : place) (Q : option unit -> Disk -> Prop) d :
  plain d p -> (forall o d', only_files (eq p) d d' -> Q o d') -> hwp (fs_create (path_of p)) Q d.
Proof.
  intros Hp HQ h <-. destruct (fs_create _ h) as [h' o] eqn:E. apply HQ. by eapply fs_create_files.
Qed.

Lemma hwp_rename (a b : place) (Q : option unit -> Disk -> Prop) d :
  plain d a -> plain d b -> (forall o d', only_files (fun p => p = a \/ p = b) d d' -> Q o d') ->
  hwp (fs_rename (path_of a) (path_of b)) Q d.
Proof.
  intros Ha Hb HQ h <-. destruct (fs_rename _ _ h) as [h' o] eqn:E. apply HQ. by eapply fs_rename_files.
Qed.
End WpOps.

(** ** When nothing fails *)

Definition calm (d : Disk) : Host := {| h_disk := d; h_faults := [] |}.

Lemma host_op_calm {A : Type} (bad : nat -> Disk -> Disk) (f : Disk -> option (Disk * A)) d :
  host_op bad f (calm d) = match f d with Some (d', a) => (calm d', Some a) | None => (calm d, None) end.
Proof. unfold host_op, calm. cbn. by destruct (f d) as [[]|]. Qed.

Lemma host_see_calm {A : Type} (f : Disk -> option A) d : host_see f (calm d) = (calm d, f d).
Proof. unfold host_see. rewrite host_op_calm. by destruct (f d). Qed.

(** Directories all the way to [p]. *)
Definition dirs (d : Disk) (p : place) : Prop := forall q, q `prefix_of` p -> dir_at d q.

Lemma dirs_shape d d' p : same_shape d d' -> dirs d p -> dirs d' p.
Proof. intros Hs Hp q Hq. eapply dir_at_shape; [done|by apply Hp]. Qed.

Lemma walk_dirs links make d q p todo :
  dirs d (q ++ p) -> walk links make d q (path_of p ++ todo) = walk links make d (q ++ p) todo.
Proof.
  revert q. induction p as [|n p IH]; intros q Hp; [by rewrite app_nil_r|].
  cbn [path_of map app]. rewrite walk_name. assert (dir_at d (q ++ [n])) as Hn.
  { apply Hp. rewrite (cons_middle n q p). exists p. by rewrite app_assoc. }
  rewrite dir_at_snoc in Hn. destruct (d !! (q ++ [n])) as [[]|]; try done.
  rewrite (cons_middle n q p), app_assoc in Hp |- *. by apply IH.
Qed.

Lemma lookup_dirs d p : dirs d p -> lookup_path d (path_of p) = Some p.
Proof.
  intros Hp. pose proof (walk_dirs MAXSYMLINKS false d [] p [] Hp) as Hw. by rewrite app_nil_r, walk_nil in Hw.
Qed.

Lemma path_of_snoc p n : path_of (p ++ [n]) = path_of p ++ [Name n].
Proof. unfold path_of. by rewrite map_app. Qed.

Lemma lookup_file d p n c :
  dirs d p -> file_at d (p ++ [n]) = Some c -> lookup_path d (path_of (p ++ [n])) = Some (p ++ [n]).
Proof.
  intros Hp Hc. unfold lookup_path. rewrite path_of_snoc. pose proof (walk_dirs MAXSYMLINKS false d [] p [Name n] Hp) as ->.
  rewrite walk_name. unfold file_at in Hc. cbn [app]. by destruct (d !! (p ++ [n])) as [[]|].
Qed.

Lemma entry_place_dirs d p n : dirs d p -> entry_place d (path_of (p ++ [n])) = Some (p ++ [n]).
Proof.
  intros Hp. unfold entry_place. rewrite path_parent_of, file_name_of. cbn. rewrite lookup_dirs by done. cbn.
  by rewrite (Is_true_true_1 _ (Hp p ltac:(done))).
Qed.

Lemma create_calm d p n : dirs d p -> shape d (p ++ [n]) = None ->
  fs_create (path_of (p ++ [n])) (calm d) = (calm (<[p ++ [n] := DFile []]> d), Some tt).
Proof.
  intros Hp Hn. unfold fs_create. rewrite host_op_calm, path_of_snoc.
  pose proof (walk_dirs MAXSYMLINKS true d [] p [Name n] Hp) as ->.
  rewrite walk_name. unfold shape in Hn. cbn [app].
  destruct (d !! (p ++ [n])) as [[]|] eqn:E; try done; cbn; by rewrite dir_at_snoc, E.
Qed.

Lemma canonicalize_calm d p q : lookup_path d p = Some q -> fs_canonicalize p (calm d) = (calm d, Some (path_of q)).
Proof. intros Hq. unfold fs_canonicalize. by rewrite host_see_calm, Hq. Qed.

Lemma len_calm dir_size d p n c : dirs d p -> file_at d (p ++ [n]) = Some c ->
  fs_len dir_size (path_of (p ++ [n])) (calm d) = (calm d, Some (blen c)).
Proof. intros Hp Hc. unfold fs_len. rewrite host_see_calm. erewrite lookup_file by done. cbn. by rewrite Hc. Qed.

(** A write at the end of a file. *)
Lemma append_calm d p n c data : dirs d p -> file_at d (p ++ [n]) = Some c -> (blen c < 2 ^ 63)%N ->
  fs_write_at (path_of (p ++ [n])) (blen c) data (calm d)
  = (calm (<[p ++ [n] := DFile (c ++ data)]> d), Some tt).
Proof.
  intros Hp Hc Hlt. unfold fs_write_at. rewrite host_op_calm. erewrite lookup_file by done. cbn. rewrite Hc. cbn.
  apply N.ltb_lt in Hlt. rewrite Hlt. unfold write_file. unfold file_at in Hc.
  destruct (d !! (p ++ [n])) as [[]|] eqn:E; simplify_eq. by rewrite overwrite_end.
Qed.

Lemma rename_calm d p n p' n' c :
  dirs d p -> dirs d p' -> file_at d (p ++ [n]) = Some c -> dir_at d (p' ++ [n']) = false ->
  fs_rename (path_of (p ++ [n])) (path_of (p' ++ [n'])) (calm d)
  = (calm (<[p' ++ [n'] := DFile c]> (delete (p ++ [n]) d)), Some tt).
Proof.
  intros Hp Hp' Hc Hd. unfold fs_rename. rewrite host_op_calm, !entry_place_dirs by done. cbn.
  unfold file_at in Hc. destruct (d !! (p ++ [n])) as [[]|]; simplify_eq. by rewrite Hd.
Qed.
