(* ===== verification/Drive.v ===== *)
(** * The redirected drive ([crates/rdpilot/src/rdpdr_backend.rs])

    [Drive] is [RdpilotDriveBackend]: what the remote Windows sees as a drive.
    Each request of the RDP drive channel is one function of it, in the monad
    of [Disk.v]; [handle_drive_io_request] chooses between them.  The clock, the
    process id and the third-party encoder of one reply are arguments. *)
From stdpp Require Import lexico sorting.
From S2P Require Import Prelude Bytes HostBridge Disk.
Open Scope host_scope.

(** ** Requests and replies: the data of [ironrdp_rdpdr::pdu::efs] *)

Record IoRequest := { io_device : N; io_file_id : N; io_completion : N }.

Inductive NtStatus := SUCCESS | NO_SUCH_FILE | ACCESS_DENIED | UNSUCCESSFUL | NO_MORE_FILES | NOT_SUPPORTED.

Inductive CreateDisposition :=
| FILE_SUPERSEDE | FILE_OPEN | FILE_CREATE | FILE_OPEN_IF | FILE_OVERWRITE | FILE_OVERWRITE_IF
| OtherDisposition (n : N).

Inductive InfoLevel :=
| FILE_BASIC_INFORMATION | FILE_STANDARD_INFORMATION | FILE_ATTRIBUTE_TAG_INFORMATION
| FILE_BOTH_DIRECTORY_INFORMATION | FILE_FULL_DIRECTORY_INFORMATION | FILE_DIRECTORY_INFORMATION
| FILE_NAMES_INFORMATION | OtherLevel (n : N).

Inductive VolumeLevel :=
| FILE_FS_VOLUME_INFORMATION | FILE_FS_SIZE_INFORMATION | FILE_FS_ATTRIBUTE_INFORMATION
| FILE_FS_FULL_SIZE_INFORMATION | FILE_FS_DEVICE_INFORMATION | OtherVolumeLevel (n : N).

Inductive FileAttributes := FILE_ATTRIBUTE_DIRECTORY | FILE_ATTRIBUTE_NORMAL.

(** What is set: the end of the file is an [i64]. *)
Inductive SetBuffer := SetBasic | SetEndOfFile (end_of_file : Z) | SetDisposition | SetRename | SetAllocation.

(** The times of all of them are zero. *)
Inductive FileInformation :=
| Basic (attrs : FileAttributes)
| Standard (size : Z) (directory : bool)
| AttributeTag (attrs : FileAttributes)
| BothDirectory (size : Z) (attrs : FileAttributes) (name : text)
| FullDirectory (size : Z) (attrs : FileAttributes) (name : text)
| Directory (size : Z) (attrs : FileAttributes) (name : text)
| Names (name : text).

Inductive VolumeInformation :=
| FileFsVolumeInformation (serial : N) (label : text)
| FileFsSizeInformation (total available sectors_per_unit bytes_per_sector : N)
| FileFsAttributeInformation (case_sensitive : bool) (max_name : N) (name : text)
| FileFsFullSizeInformation (total caller_available actual_available sectors_per_unit bytes_per_sector : N)
| FileFsDeviceInformation (device_type : N) (remote : bool).

Inductive DriveRequest :=
| ServerCreateDriveRequest (io : IoRequest) (disposition : CreateDisposition) (path : text)
| DeviceCloseRequest (io : IoRequest)
| DeviceReadRequest (io : IoRequest) (length offset : N)
| ServerDriveQueryDirectoryRequest (io : IoRequest) (level : InfoLevel) (initial_query : N) (path : text)
| ServerDriveQueryInformationRequest (io : IoRequest) (level : InfoLevel)
| ServerDriveNotifyChangeDirectoryRequest (io : IoRequest)
| ServerDriveQueryVolumeInformationRequest (io : IoRequest) (level : VolumeLevel)
| DeviceControlRequest (io : IoRequest)
| DeviceWriteRequest (io : IoRequest) (offset : N) (data : bytes)
| ServerDriveSetInformationRequest (io : IoRequest) (set : SetBuffer)
| ServerDriveLockControlRequest (io : IoRequest).

(** [Information] of a create reply. *)
Inductive CreateInformation := FILE_SUPERSEDED | FILE_OPENED.

(** A reply answers one request with a status. *)
Inductive DriveReply :=
| DeviceCreateResponse (io : IoRequest) (status : NtStatus) (file_id : N) (information : CreateInformation)
| DeviceCloseResponse (io : IoRequest) (status : NtStatus)
| DeviceReadResponse (io : IoRequest) (status : NtStatus) (data : bytes)
| DeviceWriteResponse (io : IoRequest) (status : NtStatus) (length : N)
| QueryDirectoryResponse (io : IoRequest) (status : NtStatus) (buffer : option FileInformation)
| QueryInformationResponse (io : IoRequest) (status : NtStatus) (buffer : option FileInformation)
| QueryVolumeInformationResponse (io : IoRequest) (status : NtStatus) (buffer : option VolumeInformation)
| SetInformationResponse (io : IoRequest) (status : NtStatus) (set : SetBuffer).

(** ** The backend *)

Inductive OpenEntry :=
| Root
| BundleRoot
| File (path : PathBuf)
| WriteFile (staging dest : PathBuf) (expected_len : option N).

Record Drive := {
  dr_bridge_path : PathBuf;
  dr_bridge_name : text;
  dr_bootstrap : list BootstrapStage;
  dr_share_root : option PathBuf;
  dr_open_files : gmap N OpenEntry;
  dr_listings : gmap N (list (PathBuf * text * bool));
  dr_next_file_id : N;
  dr_next_staging_id : N;
}.

(** [new_with_bridge] *)
Definition drive_new (bridge_path : PathBuf) (bridge_name : text) (share_root : option PathBuf) : Drive := {|
  dr_bridge_path := bridge_path; dr_bridge_name := bridge_name; dr_bootstrap := [];
  dr_share_root := share_root; dr_open_files := ∅; dr_listings := ∅;
  dr_next_file_id := 1; dr_next_staging_id := 1 |}.

Definition set_open_files (m : gmap N OpenEntry) (s : Drive) : Drive :=
  {| dr_bridge_path := dr_bridge_path s; dr_bridge_name := dr_bridge_name s; dr_bootstrap := dr_bootstrap s;
     dr_share_root := dr_share_root s; dr_open_files := m; dr_listings := dr_listings s;
     dr_next_file_id := dr_next_file_id s; dr_next_staging_id := dr_next_staging_id s |}.
Definition set_listings (m : gmap N (list (PathBuf * text * bool))) (s : Drive) : Drive :=
  {| dr_bridge_path := dr_bridge_path s; dr_bridge_name := dr_bridge_name s; dr_bootstrap := dr_bootstrap s;
     dr_share_root := dr_share_root s; dr_open_files := dr_open_files s; dr_listings := m;
     dr_next_file_id := dr_next_file_id s; dr_next_staging_id := dr_next_staging_id s |}.
Definition set_next_ids (file staging : N) (s : Drive) : Drive :=
  {| dr_bridge_path := dr_bridge_path s; dr_bridge_name := dr_bridge_name s; dr_bootstrap := dr_bootstrap s;
     dr_share_root := dr_share_root s; dr_open_files := dr_open_files s; dr_listings := dr_listings s;
     dr_next_file_id := file; dr_next_staging_id := staging |}.
(** [self.bridge.bootstrap.record(stage)] *)
Definition drive_record (stage : BootstrapStage) (s : Drive) : Drive :=
  {| dr_bridge_path := dr_bridge_path s; dr_bridge_name := dr_bridge_name s;
     dr_bootstrap := record_stage stage (dr_bootstrap s);
     dr_share_root := dr_share_root s; dr_open_files := dr_open_files s; dr_listings := dr_listings s;
     dr_next_file_id := dr_next_file_id s; dr_next_staging_id := dr_next_staging_id s |}.

(** [normalize] *)
Definition normalize (path : text) : text := drop_while (fun c => c =? backslash)%N path.

(** [looks_rooted]; the bytes that matter are ASCII. *)
Definition looks_rooted (normalized : text) : bool :=
  starts_with [slash] normalized
  || match normalized with
     | c :: d :: _ => (is_ascii_upper c || is_ascii_lower c) && (d =? 58)%N
     | _ => false
     end.

Definition resolve_under_root (s : Drive) (untrusted : text) : HostM (option PathBuf) :=
  match dr_share_root s with
  | None => hret None
  | Some root =>
      try! root_canonical := fs_canonicalize root in
      let normalized := forward untrusted in
      if looks_rooted normalized then hret None
      else
        let candidate := path_join root_canonical normalized in
        try! parent := hret (path_parent candidate) in
        try! parent_canonical := fs_canonicalize parent in
        if negb (path_starts_with parent_canonical root_canonical) then hret None
        else
          try! leaf := hret (file_name candidate) in
          hret (Some (parent_canonical ++ [Name leaf]))
  end.

(** A counter of [w] bits. *)
Definition wrapping_succ (w : N) (n : N) : N := ((n + 1) mod 2 ^ w)%N.

(** [allocate_file_id] *)
Definition allocate_file_id (s : Drive) : Drive * N :=
  (set_next_ids (wrapping_succ 32 (dr_next_file_id s)) (dr_next_staging_id s) s, dr_next_file_id s).

Definition is_write_disposition (d : CreateDisposition) : bool :=
  match d with
  | FILE_CREATE | FILE_OPEN_IF | FILE_OVERWRITE_IF | FILE_SUPERSEDE => true
  | _ => false
  end.

Section Backend.
(** The nanoseconds since the epoch, none before it; and the process. *)
Variable now_nanos : option N.
Variable process_id : N.
(** The length [metadata] tells for a directory. *)
Variable dir_size : place -> N.
(** Whether [ClientDriveSetInformationResponse::new] has a length to say. *)
Variable set_encodes : SetBuffer -> bool.

Definition STAGING_DIR : text := txt ".rdpilot-staging".

Definition staging_name (id : N) : text :=
  dec (default 0%N now_nanos) ++ txt "-" ++ dec process_id ++ txt "-" ++ dec id ++ txt ".part".

Definition allocate_staging_path (s : Drive) : HostM (Drive * option PathBuf) :=
  match dr_share_root s with
  | None => hret (s, None)
  | Some root =>
      do! o := fs_canonicalize root in
      match o with
      | None => hret (s, None)
      | Some root_canonical =>
          let id := dr_next_staging_id s in
          let s := set_next_ids (dr_next_file_id s) (wrapping_succ 64 id) s in
          let staging := root_canonical ++ [Name STAGING_DIR; Name (staging_name id)] in
          do! made := fs_create staging in
          hret (s, match made with Some tt => Some staging | None => None end)
      end
  end.

(** The closure of [handle_create]: a file of the bundle directory. *)
Definition bundle_file (s : Drive) (normalized : text) : HostM (option OpenEntry) :=
  try! name := hret (strip_prefix (txt "bundle/") (forward normalized)) in
  if bool_decide (name = []) || bool_decide (slash ∈ name) || bool_decide (name = txt "..")
     || bool_decide (58%N ∈ name)
  then hret None
  else
    try! root := fs_canonicalize (dr_bridge_path s) in
    try! path := fs_canonicalize (path_join root name) in
    if negb (path_starts_with path root) then hret None
    else
      do! file := fs_is_file path in
      hret (if file then Some (File path) else None).

(** Which entry a create grants, if any; [trim_end_matches] is on backslashes. *)
Definition create_entry (s : Drive) (normalized : text) (disposition : CreateDisposition)
  : HostM (Drive * option OpenEntry) :=
  if bool_decide (normalized = []) then hret (s, Some Root)
  else
    do! bundle := (if eq_ignore_ascii_case
                        (reverse (drop_while (fun c => c =? backslash)%N (reverse normalized))) (txt "bundle")
                   then fs_is_dir (dr_bridge_path s) else hret false) in
    if bundle then hret (s, Some BundleRoot)
    else if starts_with (txt "bundle/") (forward normalized) then
      do! e := bundle_file s normalized in hret (s, e)
    else
      do! bridge := (if eq_ignore_ascii_case normalized (dr_bridge_name s)
                     then fs_is_file (dr_bridge_path s) else hret false) in
      if bridge then hret (s, Some (File (dr_bridge_path s)))
      else
        do! resolved := resolve_under_root s normalized in
        if is_write_disposition disposition then
          match resolved with
          | Some dest =>
              do! (s, staging) := allocate_staging_path s in
              hret (s, (fun staging => WriteFile staging dest None) <$> staging)
          | None => hret (s, None)
          end
        else hret (s, File <$> resolved).

Definition handle_create (s : Drive) (io : IoRequest) (disposition : CreateDisposition) (path : text)
  : HostM (Drive * DriveReply) :=
  let normalized := normalize path in
  do! (s, entry) := create_entry s normalized disposition in
  match entry with
  | None => hret (s, DeviceCreateResponse io NO_SUCH_FILE 0 FILE_SUPERSEDED)
  | Some entry =>
      let '(s, file_id) := allocate_file_id s in
      let s := set_open_files (<[file_id := entry]> (dr_open_files s)) s in
      let s := if starts_with (txt "bundle") normalized || eq_ignore_ascii_case normalized (dr_bridge_name s)
               then drive_record RdpdrFileAccess s else s in
      hret (s, DeviceCreateResponse io SUCCESS file_id FILE_OPENED)
  end.

Definition finalize_write (staging dest : PathBuf) (expected_len : option N) : HostM unit :=
  do! len := fs_len dir_size staging in
  match len with
  | None => hret tt
  | Some len =>
      if match expected_len with Some e => negb (len =? e)%N | None => false end then hret tt
      else do! _ := fs_rename staging dest in hret tt
  end.

(** The length that [handle_close] traces has an operation of its own. *)
Definition handle_close (s : Drive) (io : IoRequest) : HostM (Drive * DriveReply) :=
  let id := io_file_id io in
  let entry := dr_open_files s !! id in
  let s := set_open_files (delete id (dr_open_files s)) (set_listings (delete id (dr_listings s)) s) in
  do! _ := match entry with
    | Some (WriteFile staging dest expected_len) =>
        do! _ := fs_len dir_size staging in finalize_write staging dest expected_len
    | _ => hret tt
    end in
  hret (s, DeviceCloseResponse io SUCCESS).

Definition handle_read (s : Drive) (io : IoRequest) (length offset : N) : HostM (Drive * DriveReply) :=
  match dr_open_files s !! io_file_id io with
  | Some (File path) =>
      do! o := fs_read_at path offset length in
      match o with
      | Some data =>
          let s := if bool_decide (path = dr_bridge_path s) || path_starts_with path (dr_bridge_path s)
                   then drive_record RdpdrFileRead s else s in
          hret (s, DeviceReadResponse io SUCCESS data)
      | None => hret (s, DeviceReadResponse io UNSUCCESSFUL [])
      end
  | _ => hret (s, DeviceReadResponse io ACCESS_DENIED [])
  end.

Definition u32_max : N := 4294967295%N.

Definition handle_write (s : Drive) (io : IoRequest) (offset : N) (data : bytes) : HostM (Drive * DriveReply) :=
  match dr_open_files s !! io_file_id io with
  | Some (WriteFile staging _ _) =>
      do! o := fs_write_at staging offset data in
      hret (s, match o with
        | Some tt => DeviceWriteResponse io SUCCESS (N.min (blen data) u32_max)
        | None => DeviceWriteResponse io UNSUCCESSFUL 0
        end)
  | _ => hret (s, DeviceWriteResponse io ACCESS_DENIED 0)
  end.

Definition handle_set_information (s : Drive) (io : IoRequest) (set : SetBuffer) : HostM (Drive * DriveReply) :=
  let id := io_file_id io in
  let '(s, status) := match dr_open_files s !! id with
    | Some (WriteFile staging dest expected_len) =>
        let expected_len := match set with
          | SetEndOfFile e => if (0 <=? e)%Z then Some (Z.to_N e) else expected_len
          | _ => expected_len
          end in
        (set_open_files (<[id := WriteFile staging dest expected_len]> (dr_open_files s)) s, SUCCESS)
    | _ => (s, ACCESS_DENIED)
    end in
  hret (s, if set_encodes set then SetInformationResponse io status set else DeviceCloseResponse io UNSUCCESSFUL).

(** [i64::try_from(m.len()).unwrap_or(i64::MAX)], and zero without metadata. *)
Definition file_size (len : option N) : Z :=
  match len with Some n => Z.min (Z.of_N n) i64_max | None => 0%Z end.

(** [display_name] *)
Definition display_name (path : PathBuf) (fallback : text) : text := default fallback (file_name path).

(** [directory_entry] *)
Definition directory_entry (level : InfoLevel) (size : Z) (name : text) (directory : bool) : FileInformation :=
  let attrs := if directory then FILE_ATTRIBUTE_DIRECTORY else FILE_ATTRIBUTE_NORMAL in
  match level with
  | FILE_BOTH_DIRECTORY_INFORMATION => BothDirectory size attrs name
  | FILE_FULL_DIRECTORY_INFORMATION => FullDirectory size attrs name
  | FILE_DIRECTORY_INFORMATION => Directory size attrs name
  | _ => Names name
  end.

(** The entries of [read_dir] that can be read and are files. *)
Fixpoint plain_files (dir : PathBuf) (names : list text) : HostM (list (PathBuf * text * bool)) :=
  match names with
  | [] => hret []
  | n :: names =>
      do! read := host_see (fun _ => Some tt) in
      do! file := (if bool_decide (is_Some read) then fs_is_file (dir ++ [Name n]) else hret false) in
      do! rest := plain_files dir names in
      hret (if file then (dir ++ [Name n], n, false) :: rest else rest)
  end.

Definition by_name (a b : PathBuf * text * bool) : Prop := lexico a.1.2 b.1.2 \/ a.1.2 = b.1.2.
#[global] Instance by_name_dec a b : Decision (by_name a b) := _.

(** The entries a first query lists. *)
Definition first_entries (s : Drive) (id : N) : HostM (list (PathBuf * text * bool)) :=
  match dr_open_files s !! id with
  | Some BundleRoot =>
      do! o := fs_read_dir (dr_bridge_path s) in
      match o with
      | Some names => do! files := plain_files (dr_bridge_path s) names in hret (merge_sort by_name files)
      | None => hret []
      end
  | Some Root =>
      do! bundle := fs_is_dir (dr_bridge_path s) in
      hret (if bundle then [(dr_bridge_path s, txt "bundle", true)]
            else [(dr_bridge_path s, dr_bridge_name s, false)])
  | Some (File path) => hret [(path, display_name path (dr_bridge_name s), false)]
  | _ => hret []
  end.

Definition listed (pattern : text) (e : PathBuf * text * bool) : bool :=
  bool_decide (pattern = []) || bool_decide (pattern = txt "*") || bool_decide (pattern = txt "*.*")
  || eq_ignore_ascii_case e.1.2 pattern.

Definition handle_query_directory (s : Drive) (io : IoRequest) (level : InfoLevel) (initial_query : N) (path : text)
  : HostM (Drive * DriveReply) :=
  let id := io_file_id io in
  do! s := (if (initial_query =? 0)%N then hret s
            else
              do! entries := first_entries s id in
              let pattern := default (txt "*") (last (split_char slash (forward path))) in
              hret (set_listings (<[id := List.filter (listed pattern) entries]> (dr_listings s)) s)) in
  match dr_listings s !! id with
  | Some ((p, name, dir) :: rest) =>
      let s := set_listings (<[id := rest]> (dr_listings s)) s in
      do! len := fs_len dir_size p in
      hret (s, QueryDirectoryResponse io SUCCESS (Some (directory_entry level (file_size len) name dir)))
  | _ => hret (s, QueryDirectoryResponse io NO_MORE_FILES None)
  end.

Definition handle_query_information (s : Drive) (io : IoRequest) (level : InfoLevel) : HostM (Drive * DriveReply) :=
  match dr_open_files s !! io_file_id io with
  | None => hret (s, QueryInformationResponse io ACCESS_DENIED None)
  | Some entry =>
      let is_dir := match entry with Root | BundleRoot => true | _ => false end in
      do! size := match entry with
        | Root | BundleRoot => hret 0%Z
        | File path => do! len := fs_len dir_size path in hret (file_size len)
        | WriteFile staging _ _ => do! len := fs_len dir_size staging in hret (file_size len)
        end in
      let attrs := if is_dir then FILE_ATTRIBUTE_DIRECTORY else FILE_ATTRIBUTE_NORMAL in
      hret (s, QueryInformationResponse io SUCCESS
        match level with
        | FILE_BASIC_INFORMATION => Some (Basic attrs)
        | FILE_STANDARD_INFORMATION => Some (Standard size is_dir)
        | FILE_ATTRIBUTE_TAG_INFORMATION => Some (AttributeTag attrs)
        | _ => None
        end)
  end.

Definition handle_query_volume_information (s : Drive) (io : IoRequest) (level : VolumeLevel)
  : HostM (Drive * DriveReply) :=
  match dr_open_files s !! io_file_id io with
  | None => hret (s, QueryVolumeInformationResponse io ACCESS_DENIED None)
  | Some _ =>
      hret (s, QueryVolumeInformationResponse io SUCCESS
        match level with
        | FILE_FS_VOLUME_INFORMATION => Some (FileFsVolumeInformation 0x12345678 (txt "RDPILOT"))
        | FILE_FS_SIZE_INFORMATION => Some (FileFsSizeInformation 1 0 1 512)
        | FILE_FS_ATTRIBUTE_INFORMATION => Some (FileFsAttributeInformation true 255 (txt "RDPILOTFS"))
        | FILE_FS_FULL_SIZE_INFORMATION => Some (FileFsFullSizeInformation 1 0 0 1 512)
        | FILE_FS_DEVICE_INFORMATION => Some (FileFsDeviceInformation 7 true)
        | OtherVolumeLevel _ => None
        end)
  end.

(** [reject_unsupported] *)
Definition reject_unsupported (s : Drive) (io : IoRequest) : HostM (Drive * DriveReply) :=
  hret (s, DeviceCloseResponse io NOT_SUPPORTED).

Definition handle_drive_io_request (s : Drive) (req : DriveRequest) : HostM (Drive * DriveReply) :=
  match req with
  | ServerCreateDriveRequest io disposition path => handle_create s io disposition path
  | DeviceCloseRequest io => handle_close s io
  | DeviceReadRequest io length offset => handle_read s io length offset
  | ServerDriveQueryDirectoryRequest io level initial path => handle_query_directory s io level initial path
  | ServerDriveQueryInformationRequest io level => handle_query_information s io level
  | ServerDriveNotifyChangeDirectoryRequest io => reject_unsupported s io
  | ServerDriveQueryVolumeInformationRequest io level => handle_query_volume_information s io level
  | DeviceControlRequest io => reject_unsupported s io
  | DeviceWriteRequest io offset data => handle_write s io offset data
  | ServerDriveSetInformationRequest io set => handle_set_information s io set
  | ServerDriveLockControlRequest io => reject_unsupported s io
  end.
End Backend.

(** A run: the disk before each request, and the reply.  The clock moves. *)
Section Run.
Variable process_id : N.
Variable dir_size : place -> N.
Variable set_encodes : SetBuffer -> bool.

Fixpoint drive_run (s : Drive) (reqs : list (option N * DriveRequest)) (h : Host)
  : Host * (Drive * list (Disk * DriveReply)) :=
  match reqs with
  | [] => (h, (s, []))
  | (now, req) :: reqs =>
      let '(h1, (s1, reply)) := handle_drive_io_request now process_id dir_size set_encodes s req h in
      let '(h2, (s2, log)) := drive_run s1 reqs h1 in
      (h2, (s2, (h_disk h, reply) :: log))
  end.
End Run.

(** ** What the remote side can reach *)

Section Confined.
Variable process_id : N.
Variable dir_size : place -> N.
Variable set_encodes : SetBuffer -> bool.

(** The bridge path, the share root if there is one, the place of the root,
    and the disk at the start: the root is a directory with no link below. *)
Variables (bridge : PathBuf) (share : option PathBuf) (r : place) (d0 : Disk).
Hypothesis Hd0 : d0 !! [] = None.
Hypothesis Hroot : forall root, share = Some root -> lookup_path d0 root = Some r /\ dir_at d0 r.
Hypothesis Hlinks : forall root p, share = Some root -> r `prefix_of` p -> is_link (d0 !! p) = false.

(** Where files may change: below the root. *)
Definition zone (p : place) : Prop := is_Some share /\ r `prefix_of` p /\ p <> r.
(** Where bytes may come from. *)
Definition served (p : place) : Prop :=
  zone p \/ exists b, lookup_path d0 bridge = Some b /\ b `prefix_of` p.

Lemma zone_plain p : zone p -> plain d0 p.
Proof.
  intros ([root Hs] & Hp & _) q Hq. destruct (Hroot root Hs) as [Hl Hd].
  destruct (prefix_weak_total q r p Hq Hp) as [Hqr|Hrq]; [|by eapply Hlinks].
  eapply lookup_plain; done.
Qed.

Lemma zone_snoc root p n : share = Some root -> r `prefix_of` p -> zone (p ++ [n]).
Proof.
  intros Hs Hp. split_and!; [by eexists|by apply prefix_app_r|].
  intros <-. apply prefix_length in Hp. rewrite length_app in Hp. cbn in Hp. lia.
Qed.

Lemma zone_prefix p q : zone p -> p `prefix_of` q -> zone q.
Proof.
  intros (Hs & Hp & Hne) Hq. split_and!; [done|by trans p|]. intros ->. by apply Hne, (anti_symm prefix).
Qed.

Definition entry_ok (e : OpenEntry) : Prop :=
  match e with
  | Root | BundleRoot => True
  | File p => p = bridge \/ exists q, p = path_of q /\ plain d0 q /\ served q
  | WriteFile staging dest _ => exists a b, staging = path_of a /\ dest = path_of b /\ zone a /\ zone b
  end.

Record drive_ok (s : Drive) : Prop := {
  ok_bridge : dr_bridge_path s = bridge;
  ok_share : dr_share_root s = share;
  ok_entries : map_Forall (fun _ => entry_ok) (dr_open_files s);
}.

Section Disk.
Variable d : Disk.
Hypothesis Hd : only_files zone d0 d.

Lemma disk_root : d !! [] = None.
Proof. rewrite <- Hd0. apply Hd. intros (_ & ->%prefix_nil_inv & Hne). done. Qed.

Lemma disk_plain p : plain d0 p -> plain d p.
Proof. apply plain_shape, Hd. Qed.
Lemma disk_plain_back p : plain d p -> plain d0 p.
Proof. apply plain_shape. symmetry. apply Hd. Qed.

(** What a path led to at the start, unless it is below the root. *)
Lemma lookup_back p q : lookup_path d p = Some q -> zone q \/ lookup_path d0 p = Some q.
Proof.
  intros Hl. destruct (decide (d0 !! q = d !! q)) as [Heq|Hne].
  - right. eapply walk_shape; [symmetry; apply Hd|done|by right].
  - destruct (decide (is_Some share /\ r `prefix_of` q /\ q <> r)) as [Hz|Hz]; [by left|].
    destruct Hne. symmetry. by apply Hd.
Qed.

Lemma root_place root q : share = Some root -> lookup_path d root = Some q -> q = r.
Proof.
  intros Hs Hl. destruct (Hroot root Hs) as [H0 Hr].
  assert (lookup_path d root = Some r) as Hx; [|congruence].
  eapply walk_shape; [apply Hd|done|by left].
Qed.

Lemma served_plain p q : lookup_path d p = Some q -> plain d0 q.
Proof. intros Hl. apply disk_plain_back. eapply lookup_plain; [apply disk_root|done]. Qed.
End Disk.

(** Every way to a path below the root. *)
Lemma resolve_under_root_ok s d t (Q : option PathBuf -> Disk -> Prop) :
  drive_ok s -> only_files zone d0 d -> Q None d ->
  (forall b, zone b -> Q (Some (path_of b)) d) -> hwp (resolve_under_root s t) Q d.
Proof.
  intros Hs Hd HN HQ. unfold resolve_under_root. destruct (dr_share_root s) as [root|] eqn:Esh; [|by apply hwp_ret].
  rewrite (ok_share s Hs) in Esh.
  apply hwp_then, hwp_canonicalize; [done|]. intros q Hq. cbv beta zeta iota.
  apply (root_place d Hd root) in Hq as ->; [|done].
  destruct (looks_rooted _); [by apply hwp_ret|].
  apply hwp_then, hwp_ret. destruct (path_parent _) as [parent|]; [|done].
  apply hwp_then, hwp_canonicalize; [done|]. intros p Hp.
  destruct (path_starts_with (path_of p) (path_of r)) eqn:Ep; cbn [negb]; [|by apply hwp_ret].
  apply hwp_then, hwp_ret. destruct (file_name _) as [leaf|]; [|done]. apply hwp_ret.
  replace (path_of p ++ [Name leaf]) with (path_of (p ++ [leaf])) by (unfold path_of; by rewrite map_app).
  apply HQ, (zone_snoc root); [done|]. by apply path_of_prefix.
Qed.

Lemma set_next_ids_ok a b s : drive_ok s -> drive_ok (set_next_ids a b s).
Proof. by intros []. Qed.
Lemma set_listings_ok m s : drive_ok s -> drive_ok (set_listings m s).
Proof. by intros []. Qed.
Lemma drive_record_ok stage s : drive_ok s -> drive_ok (drive_record stage s).
Proof. by intros []. Qed.
Lemma insert_entry_ok id e s : drive_ok s -> entry_ok e -> drive_ok (set_open_files (<[id := e]> (dr_open_files s)) s).
Proof. intros [] He. split; [done..|]. by apply map_Forall_insert_2. Qed.
Lemma delete_entry_ok id s : drive_ok s -> drive_ok (set_open_files (delete id (dr_open_files s)) s).
Proof. intros []. split; [done..|]. by apply map_Forall_delete. Qed.

Lemma only_files_at d d' p : only_files zone d0 d -> zone p -> only_files (eq p) d d' -> only_files zone d0 d'.
Proof.
  intros Hd Hp Hx. eapply only_files_trans; [done|]. eapply only_files_weaken, Hx. by intros ? <-.
Qed.

Lemma allocate_staging_path_ok s d now (Q : Drive * option PathBuf -> Disk -> Prop) :
  drive_ok s -> only_files zone d0 d ->
  (forall s' o d', drive_ok s' -> only_files zone d0 d' ->
     (forall p, o = Some p -> exists a, p = path_of a /\ zone a) -> Q (s', o) d') ->
  hwp (allocate_staging_path now process_id s) Q d.
Proof.
  intros Hs Hd HQ. unfold allocate_staging_path.
  destruct (dr_share_root s) as [root|] eqn:Esh; [|by apply hwp_ret, HQ].
  rewrite (ok_share s Hs) in Esh. apply hwp_bind, hwp_canonicalize; [by apply hwp_ret, HQ|].
  intros q Hq. apply (root_place d Hd root) in Hq as ->; [|done]. apply hwp_bind.
  set (name := staging_name _ _ _).
  replace (path_of r ++ [Name STAGING_DIR; Name name]) with (path_of ((r ++ [STAGING_DIR]) ++ [name]))
    by (unfold path_of; by rewrite !map_app, <- app_assoc).
  assert (zone ((r ++ [STAGING_DIR]) ++ [name])) as Hz.
  { apply (zone_snoc root); [done|]. by apply prefix_app_r. }
  apply hwp_create; [by apply disk_plain, zone_plain|]. intros o d' Hd'. apply hwp_ret, HQ.
  - by apply set_next_ids_ok.
  - by eapply only_files_at.
  - destruct o as [[]|]; [|done]. intros p [= <-]. by eexists.
Qed.

Lemma bundle_file_ok s d t (Q : option OpenEntry -> Disk -> Prop) :
  drive_ok s -> only_files zone d0 d -> Q None d -> (forall e, entry_ok e -> Q (Some e) d) ->
  hwp (bundle_file s t) Q d.
Proof.
  intros Hs Hd HN HQ. unfold bundle_file. apply hwp_then, hwp_ret. destruct (strip_prefix _ _) as [name|]; [|done].
  destruct (_ || _); [by apply hwp_ret|]. rewrite (ok_bridge s Hs).
  apply hwp_then, hwp_canonicalize; [done|]. intros b Hb.
  apply hwp_then, hwp_canonicalize; [done|]. intros p Hp.
  destruct (path_starts_with (path_of p) (path_of b)) eqn:Ep; cbn [negb]; [|by apply hwp_ret].
  apply path_of_prefix in Ep. apply hwp_bind, hwp_is_file. intros file. apply hwp_ret.
  destruct file; [|done]. apply HQ. right. exists p. split_and!; [done|by eapply served_plain|].
  destruct (lookup_back d Hd _ _ Hb) as [Hz|H0]; [left; by eapply zone_prefix|right; by exists b].
Qed.

Lemma create_entry_ok s d now t disposition (Q : Drive * option OpenEntry -> Disk -> Prop) :
  drive_ok s -> only_files zone d0 d ->
  (forall s' o d', drive_ok s' -> only_files zone d0 d' -> (forall e, o = Some e -> entry_ok e) -> Q (s', o) d') ->
  hwp (create_entry now process_id s t disposition) Q d.
Proof.
  intros Hs Hd HQ. unfold create_entry.
  destruct (bool_decide _). { apply hwp_ret, HQ; [done..|]. by intros e [= <-]. }
  apply hwp_bind. apply (hwp_mono _ (fun _ d' => d' = d)).
  2:{ destruct (eq_ignore_ascii_case _ _); [by apply hwp_is_dir|by apply hwp_ret]. }
  intros bundle d1 ->. destruct bundle. { apply hwp_ret, HQ; [done..|]. by intros e [= <-]. }
  destruct (starts_with _ _).
  { apply hwp_bind, bundle_file_ok; [done..| |].
    - apply hwp_ret, HQ; [done..|]. by intros e.
    - intros e He. apply hwp_ret, HQ; [done..|]. by intros ? [= <-]. }
  apply hwp_bind. apply (hwp_mono _ (fun _ d' => d' = d)).
  2:{ destruct (eq_ignore_ascii_case _ _); [by apply hwp_is_file|by apply hwp_ret]. }
  intros b d1 ->. destruct b.
  { apply hwp_ret, HQ; [done..|]. intros e [= <-]. left. apply Hs. }
  apply hwp_bind, resolve_under_root_ok; [done..| |].
  { destruct (is_write_disposition _); by apply hwp_ret, HQ. }
  intros p Hp. destruct (is_write_disposition _).
  - apply hwp_bind, allocate_staging_path_ok; [done..|]. intros s' o d' Hs' Hd' Ho. apply hwp_ret, HQ; [done..|].
    intros e. destruct o as [a|]; [|done]. intros [= <-]. destruct (Ho a eq_refl) as (x & -> & Hx). by exists x, p.
  - apply hwp_ret, HQ; [done..|]. intros e [= <-]. right. exists p. split_and!; [done|by apply zone_plain|by left].
Qed.

(** What a reply may tell, when the disk was [d]: parts of served files. *)
Definition reply_ok (d : Disk) (reply : DriveReply) : Prop :=
  forall io data, reply = DeviceReadResponse io SUCCESS data ->
  exists p c offset len, served p /\ file_at d p = Some c /\ data = btake len (bdrop offset c).

Definition step_ok (d : Disk) (x : Drive * DriveReply) (d' : Disk) : Prop :=
  drive_ok (fst x) /\ only_files zone d0 d' /\ reply_ok d (snd x).

Lemma hwp_reply s reply d d' :
  drive_ok s -> only_files zone d0 d' -> (forall io data, reply <> DeviceReadResponse io SUCCESS data) ->
  hwp (hret (s, reply)) (step_ok d) d'.
Proof. intros Hs Hd Hr. apply hwp_ret. split_and!; [done..|]. intros io data E. by destruct (Hr io data). Qed.

Lemma handle_create_ok s d now io disposition path :
  drive_ok s -> only_files zone d0 d ->
  hwp (handle_create now process_id s io disposition path) (step_ok d) d.
Proof.
  intros Hs Hd. unfold handle_create. apply hwp_bind, create_entry_ok; [done..|]. intros s' o d' Hs' Hd' Ho.
  destruct o as [e|]; [|by apply hwp_reply]. cbn [allocate_file_id]. cbv zeta.
  assert (drive_ok (set_open_files (<[dr_next_file_id s' := e]>
    (dr_open_files (set_next_ids (wrapping_succ 32 (dr_next_file_id s')) (dr_next_staging_id s') s')))
    (set_next_ids (wrapping_succ 32 (dr_next_file_id s')) (dr_next_staging_id s') s'))) as Hx.
  { apply insert_entry_ok; [by apply set_next_ids_ok|by apply Ho]. }
  destruct (_ || _); apply hwp_reply; try done. by apply drive_record_ok.
Qed.

Lemma finalize_write_ok d a b expected (Q : unit -> Disk -> Prop) :
  only_files zone d0 d -> zone a -> zone b -> (forall d', only_files zone d0 d' -> Q tt d') ->
  hwp (finalize_write dir_size (path_of a) (path_of b) expected) Q d.
Proof.
  intros Hd Ha Hb HQ. unfold finalize_write. apply hwp_bind, hwp_len. intros [len|]; [|by apply hwp_ret, HQ].
  destruct (match expected with Some _ => _ | None => _ end); [by apply hwp_ret, HQ|].
  apply hwp_bind, hwp_rename; [by apply disk_plain, zone_plain..|]. intros o d' Hd'. apply hwp_ret, HQ.
  eapply only_files_trans; [done|]. eapply only_files_weaken, Hd'. by intros ? [->| ->].
Qed.

Lemma handle_close_ok s d io :
  drive_ok s -> only_files zone d0 d -> hwp (handle_close dir_size s io) (step_ok d) d.
Proof.
  intros Hs Hd. unfold handle_close.
  assert (drive_ok (set_open_files (delete (io_file_id io) (dr_open_files s))
    (set_listings (delete (io_file_id io) (dr_listings s)) s))) as Hs'.
  { by apply (delete_entry_ok _ (set_listings _ s)), set_listings_ok. }
  apply hwp_bind. apply (hwp_mono _ (fun _ d' => only_files zone d0 d')); [intros []; intros; by apply hwp_reply|].
  destruct (dr_open_files s !! io_file_id io) as [[| |p|st de x]|] eqn:E; try by apply hwp_ret.
  destruct (ok_entries s Hs _ _ E) as (a & b & -> & -> & Ha & Hb).
  apply hwp_bind, hwp_len. intros o. by apply finalize_write_ok.
Qed.

Lemma handle_read_ok s d io length offset :
  drive_ok s -> only_files zone d0 d -> hwp (handle_read s io length offset) (step_ok d) d.
Proof.
  intros Hs Hd. unfold handle_read.
  destruct (dr_open_files s !! io_file_id io) as [[| |p|st de x]|] eqn:E; try by apply hwp_reply.
  apply hwp_bind, hwp_read_at; [by apply hwp_reply|]. intros q c Hq Hc. apply hwp_ret. split_and!; [|done|].
  - destruct (_ || _); [by apply drive_record_ok|done].
  - intros io' data [= _ <-]. exists q, c, offset, length. split_and!; [|done..].
    destruct (ok_entries s Hs _ _ E) as [->|(x & -> & Hx & Hsv)].
    + destruct (lookup_back d Hd _ _ Hq) as [Hz|H0]; [by left|right; by exists q].
    + apply lookup_path_of in Hq as ->; [done|]. by apply disk_plain.
Qed.

Lemma handle_write_ok s d io offset data :
  drive_ok s -> only_files zone d0 d -> hwp (handle_write s io offset data) (step_ok d) d.
Proof.
  intros Hs Hd. unfold handle_write.
  destruct (dr_open_files s !! io_file_id io) as [[| |p|st de x]|] eqn:E; try by apply hwp_reply.
  destruct (ok_entries s Hs _ _ E) as (a & b & -> & -> & Ha & Hb).
  apply hwp_bind, hwp_write_at; [by apply disk_plain, zone_plain|]. intros o d' Hd'.
  apply hwp_reply; [done|exact (only_files_at d d' a Hd Ha Hd')|]. by destruct o as [[]|].
Qed.

Lemma handle_set_information_ok s d io set :
  drive_ok s -> only_files zone d0 d -> hwp (handle_set_information set_encodes s io set) (step_ok d) d.
Proof.
  intros Hs Hd. unfold handle_set_information.
  destruct (dr_open_files s !! io_file_id io) as [[| |p|st de x]|] eqn:E;
    (apply hwp_reply; [|done|by destruct (set_encodes set)]); try done.
  apply insert_entry_ok; [done|]. exact (ok_entries s Hs _ _ E).
Qed.

Lemma plain_files_ok dir names d (Q : list (PathBuf * text * bool) -> Disk -> Prop) :
  (forall l, Q l d) -> hwp (plain_files dir names) Q d.
Proof.
  revert Q. induction names as [|n names IH]; intros Q HQ; cbn [plain_files]; [by apply hwp_ret|].
  apply hwp_bind, hwp_see; apply hwp_bind; [apply hwp_ret|apply hwp_is_file; intros file];
    apply hwp_bind, IH; intros rest; by apply hwp_ret.
Qed.

Lemma first_entries_ok s id d (Q : list (PathBuf * text * bool) -> Disk -> Prop) :
  (forall l, Q l d) -> hwp (first_entries s id) Q d.
Proof.
  intros HQ. unfold first_entries. destruct (dr_open_files s !! id) as [[| |p|st de x]|]; try by apply hwp_ret.
  - apply hwp_bind, hwp_is_dir. intros b. by apply hwp_ret.
  - apply hwp_bind, hwp_read_dir. intros [names|]; [|by apply hwp_ret].
    apply hwp_bind, plain_files_ok. intros l. by apply hwp_ret.
Qed.

Lemma handle_query_directory_ok s d io level initial path :
  drive_ok s -> only_files zone d0 d -> hwp (handle_query_directory dir_size s io level initial path) (step_ok d) d.
Proof.
  intros Hs Hd. unfold handle_query_directory. apply hwp_bind.
  apply (hwp_mono _ (fun s' d' => drive_ok s' /\ d' = d)).
  2:{ destruct (_ =? _)%N; [by apply hwp_ret|]. apply hwp_bind, first_entries_ok. intros l. apply hwp_ret.
      split; [by apply set_listings_ok|done]. }
  intros s' d' [Hs' ->]. destruct (dr_listings s' !! io_file_id io) as [[|[[p name] dir] rest]|]; try by apply hwp_reply.
  apply hwp_bind, hwp_len. intros o. apply hwp_reply; [by apply set_listings_ok|done|done].
Qed.

Lemma handle_query_information_ok s d io level :
  drive_ok s -> only_files zone d0 d -> hwp (handle_query_information dir_size s io level) (step_ok d) d.
Proof.
  intros Hs Hd. unfold handle_query_information. destruct (dr_open_files s !! io_file_id io) as [e|]; [|by apply hwp_reply].
  apply hwp_bind. apply (hwp_mono _ (fun _ d' => d' = d)); [intros x d' ->; by apply hwp_reply|].
  destruct e; try by apply hwp_ret. all: apply hwp_bind, hwp_len; intros o; by apply hwp_ret.
Qed.

Lemma handle_drive_io_request_ok s d now req :
  drive_ok s -> only_files zone d0 d ->
  hwp (handle_drive_io_request now process_id dir_size set_encodes s req) (step_ok d) d.
Proof.
  intros Hs Hd. destruct req; cbn [handle_drive_io_request].
  - by apply handle_create_ok.
  - by apply handle_close_ok.
  - by apply handle_read_ok.
  - by apply handle_query_directory_ok.
  - by apply handle_query_information_ok.
  - by apply hwp_reply.
  - unfold handle_query_volume_information. destruct (dr_open_files s !! _); by apply hwp_reply.
  - by apply hwp_reply.
  - by apply handle_write_ok.
  - by apply handle_set_information_ok.
  - by apply hwp_reply.
Qed.

Lemma drive_run_ok s reqs h :
  drive_ok s -> only_files zone d0 (h_disk h) ->
  match drive_run process_id dir_size set_encodes s reqs h with
  | (h', (s', log)) => drive_ok s' /\ only_files zone d0 (h_disk h') /\ Forall (fun x => reply_ok x.1 x.2) log
  end.
Proof.
  revert s h. induction reqs as [|[now req] reqs IH]; intros s h Hs Hd; cbn [drive_run]; [done|].
  pose proof (handle_drive_io_request_ok s (h_disk h) now req Hs Hd h eq_refl) as Hstep.
  destruct (handle_drive_io_request _ _ _ _ _ _ _) as [h1 [s1 reply]]. destruct Hstep as (Hs1 & Hd1 & Hr). cbn in *.
  specialize (IH s1 h1 Hs1 Hd1). destruct (drive_run _ _ _ _ _ _) as [h2 [s2 log]].
  destruct IH as (Hs2 & Hd2 & Hl). split_and!; [done..|]. by constructor.
Qed.
End Confined.

(** ** An upload *)

Section Upload.
Variable process_id : N.
Variable dir_size : place -> N.
Variable set_encodes : SetBuffer -> bool.
Variable now : option N.

(** The requests of a copy to the drive: create, writes one after the other,
    perhaps the length, close. *)
Fixpoint write_requests (io : IoRequest) (offset : N) (chunks : list bytes) : list DriveRequest :=
  match chunks with
  | [] => []
  | c :: chunks => DeviceWriteRequest io offset c :: write_requests io (offset + blen c)%N chunks
  end.

Definition upload_requests (io0 io : IoRequest) (disposition : CreateDisposition) (path : text)
  (chunks : list bytes) (length : option N) : list DriveRequest :=
  ServerCreateDriveRequest io0 disposition path ::
  write_requests io 0 chunks ++
  (match length with Some n => [ServerDriveSetInformationRequest io (SetEndOfFile (Z.of_N n))] | None => [] end) ++
  [DeviceCloseRequest io].

Definition status_of (reply : DriveReply) : NtStatus :=
  match reply with
  | DeviceCreateResponse _ s _ _ | DeviceCloseResponse _ s | DeviceReadResponse _ s _ | DeviceWriteResponse _ s _
  | QueryDirectoryResponse _ s _ | QueryInformationResponse _ s _ | QueryVolumeInformationResponse _ s _
  | SetInformationResponse _ s _ => s
  end.

Definition run (s : Drive) (reqs : list DriveRequest) (h : Host) :=
  drive_run process_id dir_size set_encodes s (map (pair now) reqs) h.

Lemma run_cons s req reqs h h1 s1 reply h2 s2 log :
  handle_drive_io_request now process_id dir_size set_encodes s req h = (h1, (s1, reply)) ->
  run s1 reqs h1 = (h2, (s2, log)) ->
  run s (req :: reqs) h = (h2, (s2, (h_disk h, reply) :: log)).
Proof. intros H1 H2. unfold run in *. cbn. by rewrite H1, H2. Qed.

(** The disk [d] with the staging file, and the drive that has it open. *)
Section Staged.
Variables (p p' : place) (n n' : text) (d : Disk).
Hypothesis Hp : dirs d p.
Hypothesis Hp' : dirs d p'.
Hypothesis Hn : shape d (p ++ [n]) = None.
Hypothesis Hn' : dir_at d (p' ++ [n']) = false.
Hypothesis Hne : p ++ [n] <> p' ++ [n'].

Definition staged (c : bytes) : Disk := <[p ++ [n] := DFile c]> d.

Lemma staged_dirs c q : dirs d q -> dirs (staged c) q.
Proof. apply dirs_shape. by apply shape_insert_file. Qed.

Lemma staged_file c : file_at (staged c) (p ++ [n]) = Some c.
Proof. unfold file_at, staged. by rewrite lookup_insert_eq. Qed.

Definition has_open (s : Drive) (id : N) (expected : option N) : Prop :=
  dr_open_files s !! id = Some (WriteFile (path_of (p ++ [n])) (path_of (p' ++ [n'])) expected).

Definition quiet (log : list (Disk * DriveReply)) : Prop :=
  Forall (fun x => status_of x.2 = SUCCESS /\ forall q, q <> p ++ [n] -> x.1 !! q = d !! q) log.

Lemma staged_quiet c q : q <> p ++ [n] -> staged c !! q = d !! q.
Proof. intros Hq. unfold staged. by rewrite lookup_insert_ne. Qed.

Lemma writes_run s io chunks c rest h2 s2 log :
  has_open s (io_file_id io) None -> (blen (c ++ concat chunks) < 2 ^ 63)%N ->
  run s rest (calm (staged (c ++ concat chunks))) = (h2, (s2, log)) -> quiet log ->
  exists log', run s (write_requests io (blen c) chunks ++ rest) (calm (staged c)) = (h2, (s2, log')) /\ quiet log'.
Proof.
  intros Ho. revert c. induction chunks as [|x chunks IH]; intros c Hlen; cbn [concat write_requests app].
  { rewrite app_nil_r. by exists log. }
  cbn [concat] in Hlen. rewrite (app_assoc c x) in Hlen |- *. intros Hrun Hlog.
  destruct (IH (c ++ x) Hlen Hrun Hlog) as (log' & Hr & Hl). eexists. split.
  - eapply run_cons; [|replace (blen c + blen x)%N with (blen (c ++ x)); [exact Hr|]].
    + cbn [handle_drive_io_request]. unfold handle_write. rewrite Ho. unfold hbind.
      erewrite append_calm; [|by apply staged_dirs|apply staged_file|].
      * unfold staged. rewrite insert_insert_eq. reflexivity.
      * unfold blen in *. rewrite !length_app in Hlen. lia.
    + unfold blen. rewrite length_app. lia.
  - constructor; [|done]. split; [done|]. cbn. intros q Hq. by apply staged_quiet.
Qed.

(** The last requests: the length, if it is told, and the close. *)
Lemma close_run s io c length :
  has_open s (io_file_id io) None -> (forall e, set_encodes (SetEndOfFile e) = true) ->
  exists s' log,
    run s ((match length with Some n => [ServerDriveSetInformationRequest io (SetEndOfFile (Z.of_N n))] | None => [] end)
           ++ [DeviceCloseRequest io]) (calm (staged c))
    = (calm (if match length with Some e => bool_decide (e <> blen c) | None => false end then staged c
             else <[p' ++ [n'] := DFile c]> (delete (p ++ [n]) d)), (s', log)) /\ quiet log.
Proof.
  intros Ho Hset.
  assert (forall s expected, has_open s (io_file_id io) expected -> exists s' log,
    run s [DeviceCloseRequest io] (calm (staged c))
    = (calm (if match expected with Some e => bool_decide (e <> blen c) | None => false end then staged c
             else <[p' ++ [n'] := DFile c]> (delete (p ++ [n]) d)), (s', log)) /\ quiet log) as Hclose.
  { clear s Ho. intros s expected Ho. do 2 eexists. split.
    - eapply run_cons; [|done]. cbn [handle_drive_io_request]. unfold handle_close, finalize_write. rewrite Ho.
      pose proof (len_calm dir_size (staged c) p n c (staged_dirs c p Hp) (staged_file c)) as Hl.
      unfold hbind at 1 2. rewrite Hl. unfold hbind at 1. rewrite Hl.
      replace (match expected with Some e => negb (blen c =? e)%N | None => false end)
        with (match expected with Some e => bool_decide (e <> blen c) | None => false end)
        by (destruct expected as [e|]; [|done]; destruct (N.eqb_spec (blen c) e); case_bool_decide; cbn; congruence).
      destruct (match expected with Some e => bool_decide (e <> blen c) | None => false end); [reflexivity|].
      unfold hbind. erewrite rename_calm; [|by apply staged_dirs..|apply staged_file|].
      + unfold staged. rewrite delete_insert_eq. reflexivity.
      + rewrite dir_at_snoc in Hn' |- *. by rewrite staged_quiet.
    - constructor; [|constructor]. split; [done|]. intros q Hq. by apply staged_quiet. }
  destruct length as [e|]; cbn [app]; [|exact (Hclose s None Ho)].
  set (s1 := set_open_files (<[io_file_id io := WriteFile (path_of (p ++ [n])) (path_of (p' ++ [n'])) (Some e)]>
    (dr_open_files s)) s).
  destruct (Hclose s1 (Some e)) as (s' & log & Hr & Hl); [by apply lookup_insert_eq|].
  do 2 eexists. split; [eapply run_cons; [|exact Hr]|].
  - cbn [handle_drive_io_request]. unfold handle_set_information. rewrite Ho, Hset.
    rewrite (proj2 (Z.leb_le 0 _)), N2Z.id by lia. reflexivity.
  - constructor; [|done]. split; [done|]. intros q Hq. by apply staged_quiet.
Qed.
End Staged.

(** A name that is neither the root, the bundle nor the bridge. *)
Definition share_name (s : Drive) (normalized : text) : Prop :=
  normalized <> [] /\
  eq_ignore_ascii_case (reverse (drop_while (fun c => c =? backslash)%N (reverse normalized))) (txt "bundle") = false /\
  starts_with (txt "bundle/") (forward normalized) = false /\
  eq_ignore_ascii_case normalized (dr_bridge_name s) = false.

Lemma hbind_eq {A B : Type} (m : HostM A) (f : A -> HostM B) h h' a :
  m h = (h', a) -> hbind m f h = f a h'.
Proof. unfold hbind. by intros ->. Qed.
Lemma hthen_eq {A B : Type} (m : HostM (option A)) (f : A -> HostM (option B)) h h' a :
  m h = (h', Some a) -> hthen m f h = f a h'.
Proof. unfold hthen, hbind. by intros ->. Qed.

Lemma path_starts_with_app (p q : PathBuf) : path_starts_with (p ++ q) p = true.
Proof. apply bool_decide_eq_true. by exists q. Qed.

Lemma resolve_calm s d t root r names leaf :
  dr_share_root s = Some root -> lookup_path d root = Some r ->
  looks_rooted (forward t) = false -> components (forward t) = path_of (names ++ [leaf]) ->
  dirs d (r ++ names) ->
  resolve_under_root s t (calm d) = (calm d, Some (path_of ((r ++ names) ++ [leaf]))).
Proof.
  intros Hs Hr Hl Hc Hd. unfold resolve_under_root. rewrite Hs.
  erewrite hthen_eq by by apply canonicalize_calm. cbv beta zeta. rewrite Hl.
  unfold path_join. rewrite Hc.
  replace (path_of r ++ path_of (names ++ [leaf])) with (path_of ((r ++ names) ++ [leaf]))
    by (unfold path_of; by rewrite <- app_assoc, !map_app).
  rewrite path_parent_of, file_name_of. erewrite hthen_eq by reflexivity.
  erewrite hthen_eq by by apply canonicalize_calm, lookup_dirs.
  replace (path_starts_with (path_of (r ++ names)) (path_of r)) with true; cbn [negb].
  - erewrite hthen_eq by reflexivity. unfold hret. by rewrite path_of_snoc.
  - unfold path_of. by rewrite map_app, path_starts_with_app.
Qed.

Lemma allocate_calm s d root r :
  dr_share_root s = Some root -> lookup_path d root = Some r -> dirs d (r ++ [STAGING_DIR]) ->
  let n := staging_name now process_id (dr_next_staging_id s) in
  shape d ((r ++ [STAGING_DIR]) ++ [n]) = None ->
  allocate_staging_path now process_id s (calm d)
  = (calm (staged (r ++ [STAGING_DIR]) n d []),
     (set_next_ids (dr_next_file_id s) (wrapping_succ 64 (dr_next_staging_id s)) s,
      Some (path_of ((r ++ [STAGING_DIR]) ++ [n])))).
Proof.
  intros Hs Hr Hst n Hn. unfold allocate_staging_path. rewrite Hs.
  erewrite hbind_eq by by apply canonicalize_calm. cbv beta iota zeta. fold n.
  replace (path_of r ++ [Name STAGING_DIR; Name n]) with (path_of ((r ++ [STAGING_DIR]) ++ [n]))
    by (unfold path_of; by rewrite !map_app, <- app_assoc).
  erewrite hbind_eq by by apply create_calm. reflexivity.
Qed.

Lemma create_run s d io disposition path root r names leaf :
  dr_share_root s = Some root -> lookup_path d root = Some r ->
  share_name s (normalize path) -> is_write_disposition disposition = true ->
  looks_rooted (forward (normalize path)) = false ->
  components (forward (normalize path)) = path_of (names ++ [leaf]) ->
  dirs d (r ++ names) -> dirs d (r ++ [STAGING_DIR]) ->
  let n := staging_name now process_id (dr_next_staging_id s) in
  shape d ((r ++ [STAGING_DIR]) ++ [n]) = None ->
  exists s', handle_create now process_id s io disposition path (calm d)
    = (calm (staged (r ++ [STAGING_DIR]) n d []), (s', DeviceCreateResponse io SUCCESS (dr_next_file_id s) FILE_OPENED)) /\
    dr_open_files s' !! dr_next_file_id s
    = Some (WriteFile (path_of ((r ++ [STAGING_DIR]) ++ [n])) (path_of ((r ++ names) ++ [leaf])) None).
Proof.
  intros Hs Hr (Hn1 & Hn2 & Hn3 & Hn4) Hw Hl Hc Hd Hst n Hn. unfold handle_create.
  set (s1 := set_next_ids (dr_next_file_id s) (wrapping_succ 64 (dr_next_staging_id s)) s).
  erewrite (hbind_eq _ _ _ (calm (staged (r ++ [STAGING_DIR]) n d []))
    (s1, Some (WriteFile (path_of ((r ++ [STAGING_DIR]) ++ [n])) (path_of ((r ++ names) ++ [leaf])) None))).
  - cbv beta iota zeta delta [allocate_file_id].
    destruct (_ || _); eexists; (split; [reflexivity|apply lookup_insert_eq]).
  - unfold create_entry. rewrite bool_decide_false, Hn2 by done. erewrite hbind_eq by reflexivity. cbv beta iota.
    rewrite Hn3, Hn4. erewrite hbind_eq by reflexivity. cbv beta iota.
    erewrite hbind_eq by exact (resolve_calm s d (normalize path) root r names leaf Hs Hr Hl Hc Hd). rewrite Hw. cbv beta iota.
    erewrite hbind_eq by exact (allocate_calm s d root r Hs Hr Hst Hn). reflexivity.
Qed.

(** An upload is all or nothing.  A create that asks to write, writes one
    after the other, and a close: while they run only the staging file
    changes, whatever they are cut into; at the close the destination becomes
    exactly the bytes written, in one rename that leaves no staging file.  If
    a length was told that is not the number of bytes written, the destination
    stays as it was. *)
Theorem upload_publishes_whole s d io0 io disposition path chunks length root r names leaf :
  dr_share_root s = Some root -> lookup_path d root = Some r ->
  share_name s (normalize path) -> is_write_disposition disposition = true ->
  looks_rooted (forward (normalize path)) = false ->
  components (forward (normalize path)) = path_of (names ++ [leaf]) ->
  dirs d (r ++ names) -> dirs d (r ++ [STAGING_DIR]) ->
  let staging := (r ++ [STAGING_DIR]) ++ [staging_name now process_id (dr_next_staging_id s)] in
  let dest := (r ++ names) ++ [leaf] in
  shape d staging = None -> dir_at d dest = false -> staging <> dest ->
  io_file_id io = dr_next_file_id s -> (blen (concat chunks) < 2 ^ 63)%N ->
  (forall e, set_encodes (SetEndOfFile e) = true) ->
  exists s' log,
    run s (upload_requests io0 io disposition path chunks length) (calm d)
    = (calm (if match length with Some e => bool_decide (e <> blen (concat chunks)) | None => false end
             then <[staging := DFile (concat chunks)]> d
             else <[dest := DFile (concat chunks)]> (delete staging d)), (s', log)) /\
    Forall (fun x => status_of x.2 = SUCCESS /\ forall q, q <> staging -> x.1 !! q = d !! q) log.
Proof.
  intros Hs Hr Hname Hw Hl Hc Hd Hst staging dest Hn Hn' Hne Hid Hlen Hset.
  destruct (create_run s d io0 disposition path root r names leaf Hs Hr Hname Hw Hl Hc Hd Hst Hn) as (s1 & Hcreate & Ho).
  rewrite <- Hid in Ho.
  destruct (close_run _ _ _ _ d Hst Hd Hn Hn' Hne s1 io (concat chunks) length Ho Hset) as (s2 & log & Hclose & Hlog).
  destruct (writes_run _ _ _ _ d Hst Hn s1 io chunks [] _ _ _ _ Ho Hlen Hclose Hlog) as (log' & Hrun & Hlog').
  exists s2. eexists. split; [eapply run_cons; [exact Hcreate|exact Hrun]|].
  constructor; [|exact Hlog']. by split.
Qed.
End Upload.

(** ** Properties *)

(** C30: the remote side is confined to the share root.  For any requests and
    any failures, on a host whose share root is a directory with no link below:
    no place outside it changes, and no directory or link at all; without a
    share root nothing changes; and every byte a read answers is of a file
    below the share root, of the bridge, or of the bundle directory. *)
Theorem drive_is_confined process_id dir_size set_encodes bridge name share r reqs h :
  h_disk h !! [] = None ->
  (forall root, share = Some root -> lookup_path (h_disk h) root = Some r /\ dir_at (h_disk h) r) ->
  (forall root p, share = Some root -> r `prefix_of` p -> is_link (h_disk h !! p) = false) ->
  let '(h', (_, log)) := drive_run process_id dir_size set_encodes (drive_new bridge name share) reqs h in
  (forall p, ~ (is_Some share /\ r `prefix_of` p /\ p <> r) -> h_disk h' !! p = h_disk h !! p) /\
  (forall p, shape (h_disk h') p = shape (h_disk h) p) /\
  Forall (fun x => forall io data, x.2 = DeviceReadResponse io SUCCESS data ->
    exists p c offset len, file_at x.1 p = Some c /\ data = btake len (bdrop offset c) /\
      ((is_Some share /\ r `prefix_of` p) \/ exists b, lookup_path (h_disk h) bridge = Some b /\ b `prefix_of` p)) log.
Proof.
  intros H0 Hroot Hlinks.
  pose proof (drive_run_ok process_id dir_size set_encodes bridge share r (h_disk h) H0 Hroot Hlinks
    (drive_new bridge name share) reqs h) as Hrun.
  destruct (drive_run _ _ _ _ _ _) as [h' [s' log]]. destruct Hrun as (_ & [Hshape Hsame] & Hlog); [|done|].
  { split; [done..|]. apply map_Forall_empty. }
  split_and!; [done|intros p; symmetry; apply Hshape|].
  eapply Forall_impl; [exact Hlog|]. intros x Hx io data Hr.
  destruct (Hx io data Hr) as (p & c & offset & len & Hsv & Hc & ->). exists p, c, offset, len.
  split_and!; [done..|]. destruct Hsv as [(Hsh & Hp & _)|Hb]; [by left|by right].
Qed.

Module DriveDemo.
Definition no_links (d : Disk) : bool := forallb (fun x => negb (is_link (Some x.2))) (map_to_list d).

Lemma no_links_spec d p : no_links d = true -> is_link (d !! p) = false.
Proof.
  intros Hd. destruct (d !! p) as [n|] eqn:E; [|done]. apply elem_of_map_to_list, list_elem_of_In in E.
  unfold no_links in Hd. rewrite forallb_forall in Hd. by apply negb_true_iff, (Hd (p, n)).
Qed.

Definition share : place := [txt "share"].
Definition demo_disk : Disk :=
  <[share := DDir]> (<[share ++ [STAGING_DIR] := DDir]> (<[share ++ [txt "old.txt"] := DFile [1%N]]>
  (<[[txt "bundle"] := DDir]> (<[[txt "bundle"; txt "bridge.exe"] := DFile [7%N; 8%N]]>
  (<[[txt "secret"] := DFile [42%N]]> ∅))))).

Definition io (file : N) : IoRequest := {| io_device := 1; io_file_id := file; io_completion := 0 |}.
Definition drive : Drive := drive_new [Name (txt "bundle")] (txt "rdpilot-bridge.exe") (Some [Name (txt "share")]).
Definition dirs_of (_ : place) : N := 4096%N.
Definition encodes (_ : SetBuffer) : bool := true.

(** Names that climb, that are rooted, and one below the root. *)
Definition requests : list (option N * DriveRequest) :=
  map (pair (Some 5%N))
    [ServerCreateDriveRequest (io 0) FILE_OPEN (txt "\..\secret");
     ServerCreateDriveRequest (io 0) FILE_OPEN (txt "\/secret");
     ServerCreateDriveRequest (io 0) FILE_OPEN (txt "\bundle\bridge.exe");
     DeviceReadRequest (io 1) 1 1;
     ServerCreateDriveRequest (io 0) FILE_CREATE (txt "\new.txt");
     DeviceWriteRequest (io 2) 0 [9%N];
     DeviceCloseRequest (io 2)].

Example drive_replies :
  map snd (snd (snd (drive_run 77 dirs_of encodes drive requests (calm demo_disk)))) =
  [DeviceCreateResponse (io 0) NO_SUCH_FILE 0 FILE_SUPERSEDED;
   DeviceCreateResponse (io 0) NO_SUCH_FILE 0 FILE_SUPERSEDED;
   DeviceCreateResponse (io 0) SUCCESS 1 FILE_OPENED;
   DeviceReadResponse (io 1) SUCCESS [8%N];
   DeviceCreateResponse (io 0) SUCCESS 2 FILE_OPENED;
   DeviceWriteResponse (io 2) SUCCESS 1;
   DeviceCloseResponse (io 2) SUCCESS].
Proof. vm_compute. reflexivity. Qed.

Lemma drive_is_confined_witness :
  h_disk (fst (drive_run 77 dirs_of encodes drive requests (calm demo_disk))) !! [txt "secret"]
  = Some (DFile [42%N]).
Proof.
  pose proof (drive_is_confined 77 dirs_of encodes [Name (txt "bundle")] (txt "rdpilot-bridge.exe")
    (Some [Name (txt "share")]) share requests (calm demo_disk)) as Hc.
  fold drive in Hc. destruct (drive_run 77 dirs_of encodes drive requests (calm demo_disk)) as [h' [s' log]].
  destruct Hc as (Hsame & _ & _).
  - vm_compute. reflexivity.
  - intros root [= <-]. split; [vm_compute; reflexivity|apply Is_true_true; vm_compute; reflexivity].
  - intros root p _ _. apply no_links_spec. vm_compute. reflexivity.
  - cbn [fst]. rewrite Hsame; [vm_compute; reflexivity|].
    intros (_ & [k Hk] & _). discriminate Hk.
Defined.

Lemma dirs_spec d p : forallb (fun k => dir_at d (take k p)) (seq 0 (S (length p))) = true -> dirs d p.
Proof.
  intros Hd q [k ->]. rewrite forallb_forall in Hd. specialize (Hd (length q)).
  rewrite take_app_length in Hd. apply Is_true_true, Hd, in_seq. rewrite length_app. lia.
Qed.

Lemma upload_publishes_whole_witness :
  exists s' log,
    run 77 dirs_of encodes (Some 5%N) drive
      (upload_requests (io 0) (io 1) FILE_CREATE (txt "\old.txt") [[1; 2]; [3]]%N (Some 3%N)) (calm demo_disk)
    = (calm (<[share ++ [txt "old.txt"] := DFile [1; 2; 3]%N]>
        (delete ((share ++ [STAGING_DIR]) ++ [staging_name (Some 5%N) 77 1]) demo_disk)), (s', log)).
Proof.
  destruct (upload_publishes_whole 77 dirs_of encodes (Some 5%N) drive demo_disk (io 0) (io 1) FILE_CREATE
    (txt "\old.txt") [[1; 2]; [3]]%N (Some 3%N) [Name (txt "share")] share [] (txt "old.txt")) as (s' & log & Hrun & _);
    try (vm_compute; reflexivity).
  - split_and!; vm_compute; congruence.
  - apply dirs_spec. vm_compute. reflexivity.
  - apply dirs_spec. vm_compute. reflexivity.
  - vm_compute. congruence.
  - exists s', log. exact Hrun.
Defined.

(** Only the parent of a name is checked: a link that is the last component
    leads out of the share root. *)
Example leaf_link_is_followed :
  map snd (snd (snd (drive_run 77 dirs_of encodes drive
    (map (pair None) [ServerCreateDriveRequest (io 0) FILE_OPEN (txt "\door"); DeviceReadRequest (io 1) 10 0])
    (calm (<[share ++ [txt "door"] := DLink true [Name (txt "secret")]]> demo_disk))))) =
  [DeviceCreateResponse (io 0) SUCCESS 1 FILE_OPENED; DeviceReadResponse (io 1) SUCCESS [42%N]].
Proof. vm_compute. reflexivity. Qed.

(** A bundle directory that is reached through a link: its files are read, and
    the read leaves no [RdpdrFileRead], as the paths compared differ. *)
Example linked_bundle_read_is_not_recorded :
  let '(_, (s, log)) := drive_run 77 dirs_of encodes
    (drive_new [Name (txt "current")] (txt "rdpilot-bridge.exe") None)
    (map (pair None) [ServerCreateDriveRequest (io 0) FILE_OPEN (txt "\bundle\bridge.exe"); DeviceReadRequest (io 1) 10 0])
    (calm (<[[txt "current"] := DLink true [Name (txt "bundle")]]> demo_disk)) in
  map snd log = [DeviceCreateResponse (io 0) SUCCESS 1 FILE_OPENED; DeviceReadResponse (io 1) SUCCESS [7; 8]%N] /\
  dr_bootstrap s = [RdpdrFileAccess].
Proof. vm_compute. split; reflexivity. Qed.
End DriveDemo.
