(* ===== verification/Releases.v ===== *)
(** * Which release to use ([bundle/cua.rs], [bundle/bridge_release.rs])

    What a connect asks of the bundle source ([bundle/mod.rs]), tags of driver and bridge releases, the choice of a channel, and checksum
    files.  Semantic versions are those of the semver crate ([Semver]). *)
From S2P Require Import Prelude Bytes Resolve.
Open Scope rd_scope.

(** ** The semver crate

    [Version::parse], [Display], the order, and the two parts the code looks
    at.  A version is shown as it was read, and the order is total. *)
Class Semver (V : Type) := {
  ver_parse : text -> option V;
  ver_show : V -> text;
  ver_cmp : V -> V -> comparison;
  ver_pre : V -> text;
  ver_build : V -> text }.

Class SemverLaws (V : Type) `{Semver V} := {
  ver_parse_show v : ver_parse (ver_show v) = Some v;
  ver_show_parse t v : ver_parse t = Some v -> ver_show v = t;
  ver_cmp_eq a b : ver_cmp a b = Eq <-> a = b;
  ver_cmp_flip a b : ver_cmp b a = CompOpp (ver_cmp a b);
  ver_cmp_trans a b c : ver_cmp a b <> Gt -> ver_cmp b c <> Gt -> ver_cmp a c <> Gt }.

(** [Iterator::max_by]: of equal elements the last one. *)
Definition max_by {A} (cmp : A -> A -> comparison) (l : list A) : option A :=
  match l with
  | [] => None
  | x :: l => Some (foldl (fun best y => match cmp best y with Gt => best | _ => y end) x l)
  end.

(** [bundle/mod.rs]: [Arch] *)
Inductive Arch := X86_64.
Definition arch_str (a : Arch) : text := match a with X86_64 => txt "x86_64" end.

#[global] Instance Arch_eq_dec : EqDecision Arch.
Proof. solve_decision. Defined.

(** What a connect asks for, and what it is given: a directory as the parts of
    its path. *)
Record BundleRequest := { br_cua_version : text; br_auto_download : bool; br_arch : Arch }.
Record PreparedBundle := { pb_dir : list text; pb_bundle_id : text; pb_warnings : list text }.

#[global] Instance BundleRequest_eq_dec : EqDecision BundleRequest.
Proof. solve_decision. Defined.

(** [bridge_protocol]'s [BRIDGE_EXE_NAME] and the names of the assets. *)
Definition CUA_REPO : text := txt "trycua/cua".
Definition STABLE_PREFIX : text := txt "cua-driver-rs-v".
Definition NIGHTLY_PREFIX : text := txt "nightly-cua-driver-rs-v".
Definition CHECKSUMS_ASSET : text := txt "checksums.txt".
Definition RELEASE_REPO : text := txt "chispa-sideral/rdpilot".
Definition SHA256SUMS_ASSET : text := txt "SHA256SUMS".

(** [ApiRelease] and [ApiAsset] (a name). *)
Record ApiRelease := { ar_tag_name : text; ar_draft : bool; ar_prerelease : bool; ar_assets : list text }.

(** [ApiRelease::has_asset] *)
Definition has_asset (r : ApiRelease) (name : text) : bool := existsb (fun a => bool_decide (a = name)) (ar_assets r).

(** ** [parse_checksum] *)

Definition is_hexdigit (c : char) : bool := is_ascii_digit c || in_range 65 70 c || in_range 97 102 c.

(** What a line publishes for [asset]. *)
Definition checksum_line (asset line : text) : option text :=
  let line := trim line in
  if (byte_len line <=? 64)%N then None
  else match split_bytes 64 line with
       | None => None
       | Some (hash, rest) =>
           if negb (forallb is_hexdigit hash)
              || negb (match rest with c :: _ => (c =? 32)%N || (c =? 9)%N | [] => false end) then None
           else
             let name := trim_start rest in
             let name := default name (strip_prefix (txt "*") name) in
             if decide (name = asset) then Some (to_ascii_lowercase hash) else None
       end.

Definition parse_checksum (t asset : text) : result text text :=
  match omap (checksum_line asset) (lines t) with
  | [one] => Ok one
  | [] => Err (txt "the checksum file does not list " ++ asset)
  | _ => Err (txt "the checksum file lists " ++ asset ++ txt " more than once")
  end.

Section Releases.
Context {V : Type} `{Semver V}.
(** [Debug] of a string. *)
Context (debug_str : text -> text).

Record CuaRelease := { cr_tag : text; cr_version : V }.

(** [or_else] *)
Definition or_else {A} (a b : option A) : option A := match a with Some _ => a | None => b end.

Definition from_tag (tag : text) : option CuaRelease :=
  match or_else (strip_prefix NIGHTLY_PREFIX tag) (strip_prefix STABLE_PREFIX tag) with
  | Some version => match ver_parse version with
                    | Some v => Some {| cr_tag := tag; cr_version := v |}
                    | None => None
                    end
  | None => None
  end.

Definition from_version (version : text) : option CuaRelease :=
  match ver_parse version with
  | Some v =>
      let prefix := if starts_with (txt "nightly") (ver_pre v) then NIGHTLY_PREFIX else STABLE_PREFIX in
      Some {| cr_tag := prefix ++ ver_show v; cr_version := v |}
  | None => None
  end.

Definition is_stable (r : CuaRelease) : bool := bool_decide (ver_pre (cr_version r) = []).

Definition asset_suffix (arch : Arch) : text := txt "-windows-" ++ arch_str arch ++ txt "-binary.zip".
Definition asset (r : CuaRelease) (arch : Arch) : text :=
  txt "cua-driver-rs-" ++ ver_show (cr_version r) ++ asset_suffix arch.

Inductive Channel := LatestDev | Latest.
Definition channel_str (c : Channel) : text :=
  match c with LatestDev => txt "latest-dev" | Latest => txt "latest" end.
Definition accepts (c : Channel) (r : CuaRelease) : bool :=
  match c with LatestDev => true | Latest => is_stable r end.

Inductive Wanted := WantChannel (c : Channel) | WantTag (r : CuaRelease).

Definition parse_wanted (value : text) : result text Wanted :=
  if decide (value = txt "latest-dev") then Ok (WantChannel LatestDev)
  else if decide (value = txt "latest") then Ok (WantChannel Latest)
  else match from_tag value with
       | Some r => Ok (WantTag r)
       | None => Err (txt "CuaVersion " ++ debug_str value
                       ++ txt " is not latest-dev, latest or a tag such as cua-driver-rs-v<version> or nightly-cua-driver-rs-v<version>")
       end.

(** The release that an entry of the list offers to [channel]. *)
Definition offered (channel : Channel) (arch : Arch) (r : ApiRelease) : option CuaRelease :=
  if ar_draft r then None
  else match from_tag (ar_tag_name r) with
       | Some release =>
           if accepts channel release && has_asset r (asset release arch) && has_asset r CHECKSUMS_ASSET
           then Some release else None
       | None => None
       end.

Definition select (releases : list ApiRelease) (channel : Channel) (arch : Arch) : option CuaRelease :=
  max_by (fun a b => ver_cmp (cr_version a) (cr_version b)) (omap (offered channel arch) releases).

(** ** Bridge releases *)

Definition release_tag (version : text) : text := txt "v" ++ version.

Definition tag_version (tag : text) : option V :=
  match strip_prefix (txt "v") tag with
  | Some t => match ver_parse t with
              | Some v => if bool_decide (ver_pre v = []) && bool_decide (ver_build v = []) then Some v else None
              | None => None
              end
  | None => None
  end.

(** The version that an entry of the list offers. *)
Definition bridge_offered (bridge_exe : text) (r : ApiRelease) : option V :=
  if negb (ar_draft r) && negb (ar_prerelease r) && has_asset r bridge_exe && has_asset r SHA256SUMS_ASSET
  then tag_version (ar_tag_name r) else None.

(** [newest]; [Iterator::max] is [max_by] of the order. *)
Definition newest (bridge_exe : text) (releases : list ApiRelease) : option V :=
  max_by ver_cmp (omap (bridge_offered bridge_exe) releases).
End Releases.
Arguments CuaRelease : clear implicits.
Arguments Wanted : clear implicits.

(** ** Facts *)

Section MaxBy.
Context {A : Type} (cmp : A -> A -> comparison).
Context (cmp_flip : forall a b, cmp b a = CompOpp (cmp a b)).
Context (cmp_trans : forall a b c, cmp a b <> Gt -> cmp b c <> Gt -> cmp a c <> Gt).

Lemma max_fold l x :
  let best := foldl (fun best y => match cmp best y with Gt => best | _ => y end) x l in
  (best = x \/ best ∈ l) /\ cmp x best <> Gt /\ forall y, y ∈ l -> cmp y best <> Gt.
Proof.
  assert (Hrefl : forall a, cmp a a <> Gt) by (intros a Ha; pose proof (cmp_flip a a) as Hf; by rewrite Ha in Hf).
  revert x. induction l as [|y l IH]; intros x; cbn.
  { split_and!; [by left|apply Hrefl|by intros y ?%not_elem_of_nil]. }
  destruct (IH (match cmp x y with Gt => x | _ => y end)) as (Hin & Hx & Hall).
  assert (Hxy : cmp x (match cmp x y with Gt => x | _ => y end) <> Gt /\ cmp y (match cmp x y with Gt => x | _ => y end) <> Gt).
  { destruct (cmp x y) eqn:E; (split; [|]); try apply Hrefl; try by rewrite E. by rewrite (cmp_flip x y), E. }
  split_and!.
  - destruct Hin as [Hin|Hin]; [|right; by right]. rewrite Hin. destruct (cmp x y); [right; left|right; left|by left].
  - eapply cmp_trans; [apply Hxy|done].
  - intros z [->|Hz]%elem_of_cons; [eapply cmp_trans; [apply Hxy|done]|by apply Hall].
Qed.

Lemma max_by_spec l :
  match max_by cmp l with
  | Some best => best ∈ l /\ forall y, y ∈ l -> cmp y best <> Gt
  | None => l = []
  end.
Proof.
  destruct l as [|x l]; [done|]. cbn. destruct (max_fold l x) as (Hin & Hx & Hall). split.
  - apply elem_of_cons. naive_solver.
  - intros y [->|Hy]%elem_of_cons; auto.
Qed.
End MaxBy.

Section ReleaseFacts.
Context {V : Type} `{SemverLaws V}.

Lemma by_version_flip (a b : CuaRelease V) :
  ver_cmp (cr_version b) (cr_version a) = CompOpp (ver_cmp (cr_version a) (cr_version b)).
Proof. apply ver_cmp_flip. Qed.
Lemma by_version_trans (a b c : CuaRelease V) :
  ver_cmp (cr_version a) (cr_version b) <> Gt -> ver_cmp (cr_version b) (cr_version c) <> Gt ->
  ver_cmp (cr_version a) (cr_version c) <> Gt.
Proof. apply ver_cmp_trans. Qed.

Lemma offered_spec channel arch r release :
  offered channel arch r = Some release ->
  ar_draft r = false /\ from_tag (ar_tag_name r) = Some release /\ accepts channel release = true
  /\ asset release arch ∈ ar_assets r /\ CHECKSUMS_ASSET ∈ ar_assets r.
Proof.
  unfold offered. destruct (ar_draft r); [done|]. destruct (from_tag _) as [rel|]; [|done].
  destruct (accepts channel rel) eqn:Ea; [|done]. cbn [andb].
  destruct (has_asset r (asset rel arch)) eqn:E1; [|done]. destruct (has_asset r CHECKSUMS_ASSET) eqn:E2; [|done].
  intros [= <-]. unfold has_asset in *. apply existsb_exists in E1 as (x & Hx & ->%bool_decide_eq_true).
  apply existsb_exists in E2 as (y & Hy & ->%bool_decide_eq_true). split_and!; try done; by apply list_elem_of_In.
Qed.

Lemma from_tag_tag tag (r : CuaRelease V) : from_tag tag = Some r -> cr_tag r = tag.
Proof.
  unfold from_tag. destruct (or_else _ _) as [t|]; [|done]. by destruct (ver_parse t); intros [= <-].
Qed.

(** A channel resolves to the highest version that a release which is no
    draft publishes under a driver tag, with the archive of the architecture
    and the checksum file; [latest] never to a pre-release; to nothing only
    when no release qualifies; and the order of the list does not matter. *)
Theorem channel_selects_the_newest (releases : list ApiRelease) (channel : Channel) (arch : Arch) :
  match select releases channel arch with
  | Some best =>
      (exists r, r ∈ releases /\ ar_draft r = false /\ from_tag (ar_tag_name r) = Some best
         /\ asset best arch ∈ ar_assets r /\ CHECKSUMS_ASSET ∈ ar_assets r)
      /\ (channel = Latest -> ver_pre (cr_version best) = [])
      /\ forall r other, r ∈ releases -> offered channel arch r = Some other ->
           ver_cmp (cr_version other) (cr_version best) <> Gt
  | None => forall r, r ∈ releases -> offered channel arch r = None
  end
  /\ forall releases', releases' ≡ₚ releases ->
       option_map (fun r => cr_version r) (select releases' channel arch)
       = option_map (fun r => cr_version r) (select releases channel arch).
Proof.
  pose proof (fun rs => max_by_spec _ by_version_flip by_version_trans (omap (offered channel arch) rs)) as Hmax.
  split.
  - specialize (Hmax releases). unfold select. destruct (max_by _ _) as [best|].
    + destruct Hmax as [Hin Hall]. apply list_elem_of_omap in Hin as (r & Hr & Ho).
      pose proof (offered_spec _ _ _ _ Ho) as (Hd & Ht & Ha & H1 & H2). split_and!.
      * by exists r.
      * intros ->. unfold accepts, is_stable in Ha. by apply bool_decide_eq_true in Ha.
      * intros r' other Hr' Ho'. apply Hall. apply list_elem_of_omap. by exists r'.
    + intros r Hr. destruct (offered channel arch r) as [x|] eqn:Eo; [|done].
      assert (Hx : x ∈ omap (offered channel arch) releases) by (apply list_elem_of_omap; by exists r).
      rewrite Hmax in Hx. by apply not_elem_of_nil in Hx.
  - intros releases' Hp. pose proof (Hmax releases) as H1. pose proof (Hmax releases') as H2. unfold select.
    assert (Hm : forall x, x ∈ omap (offered channel arch) releases' <-> x ∈ omap (offered channel arch) releases).
    { intros x. rewrite !list_elem_of_omap. setoid_rewrite Hp. done. }
    destruct (max_by _ (omap _ releases')) as [b'|], (max_by _ (omap _ releases)) as [b|]; cbn; [| | |done].
    + destruct H1 as [Hb Hall], H2 as [Hb' Hall']. f_equal. apply ver_cmp_eq.
      assert (Hle : ver_cmp (cr_version b') (cr_version b) <> Gt) by (apply Hall, Hm, Hb').
      assert (Hge : ver_cmp (cr_version b) (cr_version b') <> Gt) by (apply Hall', Hm, Hb).
      rewrite (ver_cmp_flip (cr_version b') (cr_version b)) in Hge.
      by destruct (ver_cmp (cr_version b') (cr_version b)).
    + destruct H2 as [Hb' _]. apply Hm in Hb'. rewrite H1 in Hb'. by apply not_elem_of_nil in Hb'.
    + destruct H1 as [Hb _]. apply Hm in Hb. rewrite H2 in Hb. by apply not_elem_of_nil in Hb.
Qed.
End ReleaseFacts.

(** Versions written as marks, an odd number of them a nightly. *)
Module UnaryVersions.

#[global] Instance unary : Semver nat := {|
  ver_parse t := if forallb (fun c => (c =? 120)%N) t then Some (length t) else None;
  ver_show n := replicate n 120%N;
  ver_cmp := Nat.compare;
  ver_pre n := if Nat.odd n then txt "nightly" else [];
  ver_build _ := [] |}.

#[global] Instance unary_laws : SemverLaws nat.
Proof.
  constructor; cbn.
  - intros n. assert (forallb (fun c => (c =? 120)%N) (replicate n 120%N) = true) as -> by (by induction n).
    by rewrite length_replicate.
  - intros t v. destruct (forallb _ t) eqn:E; [|done]. intros [= <-].
    induction t as [|c t IH]; [done|]. cbn in *. apply andb_true_iff in E as [->%N.eqb_eq E]. by rewrite IH.
  - apply Nat.compare_eq_iff.
  - intros a b. apply Nat.compare_antisym.
  - intros a b c. rewrite !Nat.compare_le_iff. lia.
Qed.

Definition release (tag version : text) : ApiRelease := {|
  ar_tag_name := tag ++ version; ar_draft := false; ar_prerelease := true;
  ar_assets := [CHECKSUMS_ASSET; txt "cua-driver-rs-" ++ version ++ asset_suffix X86_64] |}.

Definition listed : list ApiRelease :=
  [release STABLE_PREFIX (txt "xx"); release NIGHTLY_PREFIX (txt "xxxxx"); release STABLE_PREFIX (txt "xxxx");
   release (txt "lume-v") (txt "xxxxxxxx")].

End UnaryVersions.

Lemma channel_selects_the_newest_witness :
  option_map (fun r => cr_version r) (select (V := nat) UnaryVersions.listed Latest X86_64) = Some 4%nat
  /\ forall releases', releases' ≡ₚ UnaryVersions.listed ->
       option_map (fun r => cr_version r) (select (V := nat) releases' Latest X86_64) = Some 4%nat.
Proof.
  split; [by vm_compute|]. intros releases' Hp.
  destruct (channel_selects_the_newest (V := nat) UnaryVersions.listed Latest X86_64) as [_ Hperm].
  rewrite (Hperm _ Hp). by vm_compute.
Defined.
