(* ===== verification/GuestInstall.v ===== *)
(** * Installing a bundle in the guest ([crates/rdpilot-bridge/src/install.rs])

    The whole of [install], over the files of [Fs]: copy the served bridge and
    archive into a staging directory, check every hash against the manifest,
    extract the archive entry by entry, write the manifest and publish the
    directory with one rename.  SHA-256 and the zip reader are third-party
    code; the JSON of the manifest is serde's.

    The installer runs on Windows, where names that differ only in case name
    the same file: a path here is the names as the file system compares them,
    and [join] puts a name in that form. *)
From S2P Require Import Prelude Bytes Json BridgeProtocol Fs.
Open Scope io_scope.

(** One entry of a zip archive: its name when it is UTF-8, its kind, and its
    bytes when they can be read. *)
Record ZipEntry := {
  ze_name : option text; ze_dir : bool; ze_symlink : bool; ze_content : result text bytes }.

Section Install.
(** A name as the file system compares it. *)
Variable fold : text -> text.
(** Lower-case hex SHA-256. *)
Variable sha256 : bytes -> text.
(** [ZipArchive::new]; each entry may fail to be read. *)
Variable zip_archive : bytes -> result text (list (result text ZipEntry)).
(** [serde_json::to_vec_pretty] and [from_slice]. *)
Context {HS : Serde BundleManifest}.
(** [Path::display] and the texts of a refused manifest. *)
Variable show_path : path -> text.
Variable show_manifest_error : ManifestError -> text.
Variable show_error : IoError -> text.

(** [Path::join] *)
Definition join (dir : path) (name : text) : path := dir ++ [fold name].

Definition error {A} (reason : text) : M A := throw (Other reason).

Definition sha256_file (p : path) : M text := c <- fs_read p ; ret (sha256 c).

Definition check_hash (p : path) (expected : text) : M unit :=
  h <- sha256_file p ;
  if decide (h = expected) then ret tt
  else error (txt "integrity failure: " ++ show_path p).

Definition read_manifest (p : path) : M BundleManifest :=
  c <- fs_read p ;
  m <- lift Other (from_slice c) ;
  lift (fun e => Other (show_manifest_error e)) (validate m) ;;
  ret m.

Fixpoint check_hashes (dir : path) (files : list (text * text)) : M unit :=
  match files with
  | [] => ret tt
  | (name, hash) :: files => check_hash (join dir name) hash ;; check_hashes dir files
  end.

(** [installed]: any failure is [false]. *)
Definition installed (dir : path) (manifest : BundleManifest) : M bool :=
  r <- attempt (
    m <- read_manifest (join dir MANIFEST_NAME) ;
    if decide (m = manifest) then
      check_hash (join dir BRIDGE_EXE_NAME) (bm_bridge_sha256 manifest) ;;
      check_hashes dir (bm_files manifest) ;;
      ret true
    else ret false) ;
  ret (match r with Ok b => b | Err _ => false end).

(** One round of the loop of [extract]. *)
Definition extract_entry (stage : path) (files : list (text * text)) (entry : result text ZipEntry) : M unit :=
  entry <- lift (fun e => Other (txt "invalid Cua archive entry: " ++ e)) entry ;
  name <- from_option (Other (txt "archive entry name is not UTF-8")) (ze_name entry) ;
  lift (fun e => Other (show_manifest_error e)) (check_archive_entry_name name) ;;
  expected <- from_option (Other (txt "archive entry " ++ name ++ txt " is not in the manifest"))
                (files_get name files) ;
  (if ze_dir entry || ze_symlink entry
   then error (txt "archive entry " ++ name ++ txt " is not a plain file") else ret tt) ;;
  (match ze_content entry with
   | Ok c => fs_write_new (join stage name) c
   | Err e => fs_write_new (join stage name) [] ;; error e
   end) ;;
  check_hash (join stage name) expected.

Fixpoint extract_entries (stage : path) (files : list (text * text)) (entries : list (result text ZipEntry))
    (seen : nat) : M nat :=
  match entries with
  | [] => ret seen
  | e :: entries => extract_entry stage files e ;; extract_entries stage files entries (S seen)
  end.

Definition extract (archive stage : path) (files : list (text * text)) : M unit :=
  c <- fs_read archive ;
  entries <- lift (fun e => Other (txt "invalid Cua archive: " ++ e)) (zip_archive c) ;
  seen <- extract_entries stage files entries 0 ;
  if decide (seen = length files) then ret tt
  else error (txt "the Cua archive lacks files listed in the manifest").

(** [verify_image] *)
Definition verify_image (source image : path) : M unit :=
  manifest <- read_manifest (join source MANIFEST_NAME) ;
  r <- attempt (check_hash image (bm_bridge_sha256 manifest)) ;
  match r with
  | Ok _ => ret tt
  | Err e => error (show_path image ++ txt " is not the rdpilot-bridge of bundle "
                      ++ bm_bundle_id manifest ++ txt ": " ++ show_error e)
  end.

(** The closure [staged] of [install]. *)
Definition stage_files (source stage : path) (manifest : BundleManifest) : M unit :=
  let archive := join stage (bm_archive_name manifest) in
  fs_copy (join source (bm_archive_name manifest)) archive ;;
  check_hash archive (bm_archive_sha256 manifest) ;;
  let bridge := join stage BRIDGE_EXE_NAME in
  fs_copy (join source BRIDGE_EXE_NAME) bridge ;;
  check_hash bridge (bm_bridge_sha256 manifest) ;;
  extract archive stage (bm_files manifest) ;;
  (match files_get (bm_archive_name manifest) (bm_files manifest) with
   | Some _ => ret tt
   | None => fs_remove_file archive
   end) ;;
  json <- lift Other (to_vec manifest) ;
  fs_write (join stage MANIFEST_NAME) json.

(** The name of the staging directory, for the process id. *)
Definition stage_name (tag : text) (pid : N) : text :=
  txt ".staging-" ++ tag ++ txt "-" ++ dec pid.

(** Put the staged directory in place. *)
Definition publish (stage dest : path) (manifest : BundleManifest) : M path :=
  renamed <- attempt (fs_rename stage dest) ;
  match renamed with
  | Ok _ => ret dest
  | Err _ =>
      winner <- installed dest manifest ;
      if winner then attempt (fs_remove_dir_all stage) ;; ret dest
      else
        replaced <- attempt (fs_remove_dir_all dest ;; fs_rename stage dest) ;
        match replaced with
        | Ok _ => ret dest
        | Err e =>
            attempt (fs_remove_dir_all stage) ;;
            again <- installed dest manifest ;
            if again then ret dest
            else error (txt "cannot replace incomplete installation " ++ show_path dest
                        ++ txt ": " ++ show_error e)
        end
  end.

(** [install] *)
Definition install (source base : path) (tag : text) (pid : N) : M path :=
  manifest <- read_manifest (join source MANIFEST_NAME) ;
  fs_create_dir_all base ;;
  let dest := join base (bm_bundle_id manifest) in
  done <- installed dest manifest ;
  if done then ret dest
  else
    let stage := join base (stage_name tag pid) in
    left_over <- fs_exists stage ;
    (if left_over then fs_remove_dir_all stage else ret tt) ;;
    fs_create_dir stage ;;
    staged <- attempt (stage_files source stage manifest) ;
    match staged with
    | Err e => attempt (fs_remove_dir_all stage) ;; throw e
    | Ok _ => publish stage dest manifest
    end.

(** ** What an installation is *)

(** [dir] holds the bundle of [m], file by file. *)
Record holds_bundle (fs : Files) (dir : path) (m : BundleManifest) : Prop := {
  hb_manifest : exists c, fs (join dir MANIFEST_NAME) = Some (NFile c) /\ from_slice c = Ok m;
  hb_valid : validate m = Ok tt;
  hb_bridge : exists c, fs (join dir BRIDGE_EXE_NAME) = Some (NFile c) /\ sha256 c = bm_bridge_sha256 m;
  hb_files name hash : (name, hash) ∈ bm_files m ->
    exists c, fs (join dir name) = Some (NFile c) /\ sha256 c = hash }.

(** A manifest that was parsed: the keys of a [BTreeMap] are distinct. *)
Class ManifestLaws := {
  from_slice_keys c m : from_slice c = Ok m -> NoDup (bm_files m).*1;
  to_vec_pretty_back m c : to_vec m = Ok c -> from_slice c = Ok m }.

Definition is_ascii_text (t : text) : bool := forallb (fun c => c <? 128)%N t.

(** An ASCII name is taken for the names that differ from it in case, if for
    any other at all: so it is on NTFS, and where case matters. *)
Class FoldLaws := {
  fold_ascii a b : is_ascii_text a = true -> fold a = fold b -> eq_ignore_ascii_case a b = true }.

(** ** Lemmas *)

Lemma check_hash_ok p h s s' u :
  check_hash p h s = (s', Ok u) ->
  io_fs s' = io_fs s /\ exists c, io_fs s p = Some (NFile c) /\ sha256 c = h.
Proof.
  unfold check_hash, sha256_file.
  intros (s1 & x & (s2 & c & [Hc Hs]%fs_read_ok & Hx)%bind_ok & Hd)%bind_ok.
  unfold ret in Hx. simplify_eq. destruct (decide _) as [He|]; [|done]. unfold ret in Hd. simplify_eq.
  split; [done|]. by exists c.
Qed.

Lemma read_manifest_ok p s s' m :
  read_manifest p s = (s', Ok m) ->
  io_fs s' = io_fs s /\ validate m = Ok tt /\
  exists c, io_fs s p = Some (NFile c) /\ from_slice c = Ok m.
Proof.
  unfold read_manifest.
  intros (s1 & c & [Hc Hs]%fs_read_ok & (s2 & m' & [Hm ->]%lift_ok & (s3 & [] & [Hv ->]%lift_ok & Hr)%bind_ok)%bind_ok)%bind_ok.
  unfold ret in Hr. simplify_eq. split_and!; [done..|]. by exists c.
Qed.

Lemma check_hashes_ok dir files s s' u :
  check_hashes dir files s = (s', Ok u) ->
  io_fs s' = io_fs s /\ forall name hash, (name, hash) ∈ files ->
    exists c, io_fs s (join dir name) = Some (NFile c) /\ sha256 c = hash.
Proof.
  revert s. induction files as [|[n h] files IH]; intros s; cbn [check_hashes].
  { unfold ret. intros. simplify_eq. split; [done|]. intros ? ? H. by apply elem_of_nil in H. }
  intros (s1 & u1 & [Hs Hc]%check_hash_ok & [Hs' Hf]%IH)%bind_ok.
  split; [congruence|]. intros name hash [[= -> ->]|Hin]%elem_of_cons; [done|].
  rewrite <- Hs. by apply Hf.
Qed.

(** The checks read only. *)
Lemma touches_check_hash D p h : touches D (check_hash p h).
Proof. unfold check_hash, sha256_file, error. touch. Qed.
Lemma touches_check_hashes D dir files : touches D (check_hashes dir files).
Proof. induction files as [|[n h] files IH]; cbn [check_hashes]; touch. apply touches_check_hash. Qed.
Lemma touches_read_manifest D p : touches D (read_manifest p).
Proof. unfold read_manifest. touch. Qed.
#[local] Hint Resolve touches_check_hash touches_check_hashes touches_read_manifest : touches_db.
Lemma touches_installed D dir m : touches D (installed dir m).
Proof. unfold installed. touch. Qed.
#[local] Hint Resolve touches_installed : touches_db.

Lemma installed_true dir m s s' :
  installed dir m s = (s', Ok true) -> holds_bundle (io_fs s) dir m /\ io_fs s' = io_fs s.
Proof.
  unfold installed. intros (s1 & r & Hr%attempt_ok & Hret)%bind_ok. unfold ret in Hret. simplify_eq.
  destruct r as [b|]; [|done]. simplify_eq/=.
  apply bind_ok in Hr as (s2 & m' & (Hs2 & Hv & Hm)%read_manifest_ok & Hr).
  destruct (decide (m' = m)) as [->|]; [|unfold ret in Hr; by simplify_eq].
  apply bind_ok in Hr as (s3 & u3 & [Hs3 Hb]%check_hash_ok & Hr).
  apply bind_ok in Hr as (s4 & u4 & [Hs4 Hf]%check_hashes_ok & Hr). unfold ret in Hr. simplify_eq.
  rewrite Hs3, Hs2 in Hf. rewrite Hs2 in Hb. split; [|congruence]. by constructor.
Qed.

(** What a successful extraction leaves: one checked file per entry. *)
Lemma extract_entry_ok stage files e s s' u :
  extract_entry stage files e s = (s', Ok u) ->
  exists name hash c, files_get name files = Some hash /\ sha256 c = hash /\
    io_fs s (join stage name) = None /\ io_fs s' = upd (join stage name) (Some (NFile c)) (io_fs s).
Proof.
  unfold extract_entry, error.
  intros (s1 & en & [He ->]%lift_ok & H)%bind_ok.
  apply bind_ok in H as (s2 & name & [Hn ->]%from_option_ok & H).
  apply bind_ok in H as (s3 & [] & [Hk ->]%lift_ok & H).
  apply bind_ok in H as (s4 & hash & [Hh ->]%from_option_ok & H).
  apply bind_ok in H as (s5 & [] & Hd & H).
  assert (s5 = s) as -> by (destruct (_ || _); unfold throw, ret in Hd; by simplify_eq). clear Hd.
  apply bind_ok in H as (s6 & [] & Hw & [Hs (c' & Hc' & Hsha)]%check_hash_ok).
  destruct (ze_content en) as [c|err].
  - apply fs_write_new_ok in Hw as [Hnone Hw]. exists name, hash, c.
    rewrite Hs, Hw in *. rewrite upd_same in Hc'. by simplify_eq.
  - by apply bind_ok in Hw as (s7 & [] & _ & Hw).
Qed.

Lemma extract_entries_ok stage files entries seen s s' n :
  extract_entries stage files entries seen s = (s', Ok n) ->
  exists l : list (text * text),
    n = (seen + length l)%nat /\ NoDup l.*1 /\
    (forall name hash, (name, hash) ∈ l -> files_get name files = Some hash /\
      exists c, io_fs s' (join stage name) = Some (NFile c) /\ sha256 c = hash) /\
    (forall q, (forall name, name ∈ l.*1 -> q <> join stage name) -> io_fs s' q = io_fs s q) /\
    (forall name, name ∈ l.*1 -> io_fs s (join stage name) = None).
Proof.
  revert seen s. induction entries as [|e entries IH]; intros seen s; cbn [extract_entries].
  { unfold ret. intros. simplify_eq. exists []. split_and!; [cbn; lia|constructor|set_solver..|done|set_solver]. }
  intros (s1 & [] & (name & hash & c & Hg & Hh & Hn & Hs)%extract_entry_ok & H)%bind_ok.
  destruct (IH _ _ H) as (l & -> & Hnd & Hin & Hout & Hfree).
  assert (name ∉ l.*1) as Hni.
  { intros Hi. specialize (Hfree _ Hi). rewrite Hs, upd_same in Hfree. done. }
  exists ((name, hash) :: l). split_and!.
  - cbn. lia.
  - by constructor.
  - intros name' hash' [[= -> ->]|Hi]%elem_of_cons; [|by apply Hin].
    split; [done|]. exists c. rewrite Hout, Hs, upd_same; [done|].
    intros name' Hi Heq. specialize (Hfree _ Hi). rewrite Hs in Hfree. by rewrite <- Heq, upd_same in Hfree.
  - intros q Hq. rewrite Hout, Hs.
    + apply upd_other, Hq. cbn. set_solver.
    + intros name' Hi. apply Hq. cbn. set_solver.
  - intros name' [->|Hi]%elem_of_cons; [done|].
    specialize (Hfree _ Hi). rewrite Hs in Hfree. destruct (decide (join stage name' = join stage name)) as [He|].
    { by rewrite He, upd_same in Hfree. }
    by rewrite upd_other in Hfree.
Qed.

(** Names a valid manifest keeps apart. *)
Lemma check_files_ok files name hash :
  check_files files = Ok tt -> (name, hash) ∈ files -> check_file name hash = Ok tt.
Proof.
  induction files as [|[n h] files IH]; [by intros _ ?%elem_of_nil|]. cbn [check_files].
  intros ([] & Hc & Hf)%rbind_ok [[= -> ->]|Hi]%elem_of_cons; [done|by apply IH].
Qed.

Lemma join_apart {HF : FoldLaws} (dir : path) (a b : text) :
  is_ascii_text b = true -> eq_ignore_ascii_case a b = false -> join dir a <> join dir b.
Proof.
  unfold join. intros Hb He [= Hf]%app_inv_head. symmetry in Hf. apply fold_ascii in Hf; [|done].
  unfold eq_ignore_ascii_case in *. apply bool_decide_eq_true in Hf. by rewrite Hf, bool_decide_eq_true_2 in He.
Qed.

Lemma validate_names m name hash :
  validate m = Ok tt -> (name, hash) ∈ bm_files m ->
  eq_ignore_ascii_case name BRIDGE_EXE_NAME = false /\ eq_ignore_ascii_case name MANIFEST_NAME = false.
Proof.
  unfold validate. intros ([] & _ & ([] & _ & ([] & _ & ([] & _ & Hf)%rbind_ok)%rbind_ok)%rbind_ok)%rbind_ok Hi.
  destruct (files_get _ _); [|done]. pose proof (check_files_ok _ _ _ Hf Hi) as Hc.
  unfold check_file in Hc. apply rbind_ok in Hc as ([] & _ & ([] & _ & Hc)%rbind_ok).
  destruct (_ || _) eqn:E; [done|]. by apply orb_false_iff in E.
Qed.

Lemma check_bundle_id_dot id : check_bundle_id id = Ok tt -> starts_with (txt ".") id = false.
Proof.
  unfold check_bundle_id. destruct (_ && _) eqn:E; [|done]. intros _. bools. done.
Qed.

Lemma check_bundle_id_ascii id : check_bundle_id id = Ok tt -> is_ascii_text id = true.
Proof.
  unfold check_bundle_id. destruct (_ && _) eqn:E; [|done]. intros _. apply andb_true_iff in E as [_ E].
  unfold is_ascii_text. rewrite forallb_forall in E |- *. intros c Hc%E.
  unfold is_ascii_alphanumeric, is_ascii_lower, is_ascii_upper, is_ascii_digit, in_range in Hc.
  apply N.ltb_lt. rewrite !orb_true_iff, !andb_true_iff, !N.leb_le, !N.eqb_eq in Hc. lia.
Qed.

(** Only a dot is a dot whatever the case. *)
Lemma lower_dot c : ascii_lower c = 46%N -> c = 46%N.
Proof.
  unfold ascii_lower, is_ascii_upper, in_range. destruct (65 <=? c)%N eqn:E; [|done]. apply N.leb_le in E.
  cbn [andb]. case_match; lia.
Qed.

Lemma stage_not_dest {HF : FoldLaws} base tag pid id :
  check_bundle_id id = Ok tt -> join base (stage_name tag pid) <> join base id.
Proof.
  intros Hid. apply join_apart; [by apply check_bundle_id_ascii|]. apply check_bundle_id_dot in Hid.
  unfold eq_ignore_ascii_case. apply bool_decide_eq_false. intros He.
  apply (f_equal head) in He. destruct id as [|c id]; [done|]. injection He as He.
  symmetry in He. apply lower_dot in He as ->. done.
Qed.

Lemma files_get_in files name hash :
  NoDup files.*1 -> (name, hash) ∈ files -> files_get name files = Some hash.
Proof.
  induction files as [|[n h] files IH]; [by intros _ ?%elem_of_nil|]. cbn.
  intros [Hn Hd]%NoDup_cons [[= -> ->]|Hi]%elem_of_cons; [by destruct (decide (n = n))|].
  destruct (decide (name = n)) as [->|]; [|by apply IH].
  exfalso. apply Hn, list_elem_of_fmap. by exists (n, hash).
Qed.

Lemma files_get_some files name hash : files_get name files = Some hash -> name ∈ files.*1.
Proof.
  induction files as [|[n h] files IH]; [done|]. cbn. destruct (decide (name = n)) as [->|]; [left|].
  intros Hg%IH. by right.
Qed.

(** Entries as many as the files, all different and all among them, are all of
    the files. *)
Lemma all_extracted (l files : list (text * text)) :
  length l = length files -> NoDup l.*1 ->
  (forall name hash, (name, hash) ∈ l -> files_get name files = Some hash) ->
  forall name, name ∈ files.*1 -> name ∈ l.*1.
Proof.
  intros Hlen Hnd Hin.
  assert (l.*1 ⊆+ files.*1) as Hs.
  { apply NoDup_submseteq; [done|]. intros name ([n h] & -> & Hi)%list_elem_of_fmap.
    by eapply files_get_some, Hin. }
  assert (l.*1 ≡ₚ files.*1) as Hp.
  { apply submseteq_length_Permutation; [done|]. rewrite !length_fmap. lia. }
  intros name Hi. by rewrite Hp.
Qed.

Lemma stage_files_ok {HL : ManifestLaws} {HF : FoldLaws} source stage m s s' u :
  validate m = Ok tt -> NoDup (bm_files m).*1 -> eq_ignore_ascii_case (bm_archive_name m) BRIDGE_EXE_NAME = false ->
  stage_files source stage m s = (s', Ok u) -> holds_bundle (io_fs s') stage m.
Proof.
  intros Hv Hkeys Harch H. unfold stage_files in H.
  apply bind_ok in H as (s1 & [] & (c0 & _ & Hc0)%fs_copy_ok & H). apply bind_ok in H as (s2 & [] & [Hs2 _]%check_hash_ok & H).
  apply bind_ok in H as (s3 & [] & (c1 & _ & Hc1)%fs_copy_ok & H).
  apply bind_ok in H as (s4 & [] & [Hs4 (bc & Hbc & Hbsha)]%check_hash_ok & H).
  apply bind_ok in H as (s5 & [] & Hx & H). unfold extract in Hx.
  apply bind_ok in Hx as (t1 & ac & [_ Ht1]%fs_read_ok & Hx).
  apply bind_ok in Hx as (t2 & entries & [_ ->]%lift_ok & Hx).
  apply bind_ok in Hx as (t3 & n & (l & Hn & Hnd & Hin & Hout & Hfree)%extract_entries_ok & Hx).
  destruct (decide (n = length (bm_files m))) as [->|]; [|done]. unfold ret in Hx. simplify_eq.
  assert (Hall : forall name, name ∈ (bm_files m).*1 -> name ∈ l.*1).
  { apply all_extracted; [lia|done|]. intros ? ? Hi. by apply Hin. }
  pose proof (join_apart stage _ BRIDGE_EXE_NAME eq_refl Harch) as Hab.
  assert (Harchl : forall name, name ∈ l.*1 -> join stage name <> join stage (bm_archive_name m)).
  { intros name Hi He. specialize (Hfree _ Hi). rewrite He, Ht1, Hs4, Hc1, upd_other, Hs2, Hc0, upd_same in Hfree by done. done. }
  apply bind_ok in H as (s6 & [] & Hrm & H). apply bind_ok in H as (s7 & json & [Hj ->]%lift_ok & Hw%fs_write_ok).
  assert (Hs6 : forall q, q <> join stage (bm_archive_name m) -> io_fs s6 q = io_fs s5 q).
  { intros q Hq. destruct (files_get _ _); [unfold ret in Hrm; by simplify_eq|].
    apply fs_remove_file_ok in Hrm. rewrite Hrm. by apply upd_other. }
  constructor; [|done|..].
  - exists json. rewrite Hw, upd_same. split; [done|]. by apply to_vec_pretty_back.
  - exists bc. split; [|done]. rewrite Hw, upd_other by (by apply join_apart).
    rewrite Hs6 by congruence. rewrite Hout, Ht1, Hs4; [done|].
    intros name Hi He. specialize (Hfree _ Hi). by rewrite <- He, Ht1, Hs4, Hbc in Hfree.
  - intros name hash Hi. destruct (validate_names _ _ _ Hv Hi) as [_ Hm].
    assert (name ∈ l.*1) as Hl by (apply Hall, list_elem_of_fmap; by exists (name, hash)).
    pose proof (Harchl _ Hl) as Hna. apply list_elem_of_fmap in Hl as ([n' h] & Hnn & Hl). cbn in Hnn. subst n'.
    destruct (Hin _ _ Hl) as [Hg (c & Hc & Hsha)].
    rewrite (files_get_in _ _ _ Hkeys Hi) in Hg. simplify_eq. exists c. split; [|done].
    rewrite Hw, upd_other by (by apply join_apart). by rewrite Hs6.
Qed.

(** The bundle is where its directory is. *)
Lemma holds_bundle_ext (fs fs' : Files) dir dir' m :
  (forall name, fs' (join dir' name) = fs (join dir name)) -> holds_bundle fs dir m -> holds_bundle fs' dir' m.
Proof. intros He [Hm Hv Hb Hf]. constructor; try done; intros; rewrite ?He; eauto. Qed.

Lemma holds_bundle_moved fs stage dest m :
  holds_bundle fs stage m -> holds_bundle (move_tree stage dest fs) dest m.
Proof.
  apply holds_bundle_ext. intros name. unfold move_tree, under, join.
  rewrite bool_decide_eq_true_2 by (by eexists). by rewrite drop_app_length.
Qed.

(** Removing the staging directory, whether or not it works. *)
Lemma removed_elsewhere stage dest m s s' r :
  (forall name, ~ stage `prefix_of` join dest name) ->
  attempt (fs_remove_dir_all stage) s = (s', r) ->
  holds_bundle (io_fs s) dest m -> holds_bundle (io_fs s') dest m.
Proof.
  intros Hp Ha. apply holds_bundle_ext. intros name.
  assert (touches (fun q => stage `prefix_of` q) (attempt (fs_remove_dir_all stage))) as Ht by touch.
  specialize (Ht s (join dest name) (Hp name)). by rewrite Ha in Ht.
Qed.

Lemma publish_dest stage dest m s s' d : publish stage dest m s = (s', Ok d) -> d = dest.
Proof.
  unfold publish. intros (s1 & [u|e] & _ & H)%bind_ok; [unfold ret in H; by simplify_eq|].
  apply bind_ok in H as (s2 & [] & _ & H).
  { apply bind_ok in H as (s3 & r & _ & H). unfold ret in H. by simplify_eq. }
  apply bind_ok in H as (s3 & [u|e3] & _ & H); [unfold ret in H; by simplify_eq|].
  apply bind_ok in H as (s4 & r & _ & H). apply bind_ok in H as (s5 & [] & _ & H); [|done].
  unfold ret in H. by simplify_eq.
Qed.

Lemma publish_ok stage dest m s s' d :
  (forall name, ~ stage `prefix_of` join dest name) ->
  (forall name, ~ dest `prefix_of` join stage name) ->
  holds_bundle (io_fs s) stage m -> publish stage dest m s = (s', Ok d) ->
  d = dest /\ holds_bundle (io_fs s') dest m.
Proof.
  intros Hsd Hds Hst H. unfold publish in H.
  apply bind_ok in H as (s1 & r & Hr%attempt_ok & H). destruct r as [u|e].
  { unfold ret in H. simplify_eq. split; [done|]. rewrite (fs_rename_ok _ _ _ _ _ Hr).
    by apply holds_bundle_moved. }
  apply bind_ok in H as (s2 & w & Hw & H). destruct w.
  { apply bind_ok in H as (s3 & r3 & Hrm & H). unfold ret in H. simplify_eq.
    destruct (installed_true _ _ _ _ Hw) as [Hb Hs]. split; [done|].
    eapply removed_elsewhere; [done|exact Hrm|by rewrite Hs]. }
  apply bind_ok in H as (s3 & r3 & Hr3%attempt_ok & H).
  assert (holds_bundle (io_fs s2) stage m) as Hst2.
  { eapply holds_bundle_ext; [|exact Hst]. intros name.
    assert (touches (fun _ => False) (installed dest m)) as Hti by apply touches_installed.
    specialize (Hti s1 (join stage name) ltac:(intros [])). rewrite Hw in Hti. cbn in Hti. rewrite Hti.
    by rewrite (fs_rename_err _ _ _ _ _ Hr). }
  destruct r3 as [u|e3].
  { unfold ret in H. simplify_eq. split; [done|].
    apply bind_ok in Hr3 as (s4 & [] & Hrd%fs_remove_dir_all_ok & Hrn%fs_rename_ok).
    rewrite Hrn. apply holds_bundle_moved. eapply holds_bundle_ext; [|exact Hst2].
    intros name. rewrite Hrd. unfold remove_tree, under. by rewrite bool_decide_eq_false_2. }
  apply bind_ok in H as (s4 & r4 & Hrm & H). apply bind_ok in H as (s5 & again & Ha & H).
  destruct again; [|done]. unfold ret in H. simplify_eq.
  destruct (installed_true _ _ _ _ Ha) as [Hb Hs]. split; [done|]. by rewrite Hs.
Qed.

Lemma install_verified {HL : ManifestLaws} {HF : FoldLaws} source base tag pid s s' dest :
  install source base tag pid s = (s', Ok dest) ->
  exists m c, io_fs s (join source MANIFEST_NAME) = Some (NFile c) /\ from_slice c = Ok m /\
    dest = join base (bm_bundle_id m) /\
    (eq_ignore_ascii_case (bm_archive_name m) BRIDGE_EXE_NAME = false -> holds_bundle (io_fs s') dest m).
Proof.
  intros H. unfold install in H.
  apply bind_ok in H as (s1 & m & (_ & Hv & c & Hc & Hm)%read_manifest_ok & H).
  exists m, c. split; [done|]. split; [done|].
  apply bind_ok in H as (s2 & [] & _ & H). apply bind_ok in H as (s3 & done_ & Hi & H).
  destruct done_.
  { unfold ret in H. simplify_eq. split; [done|]. intros _.
    destruct (installed_true _ _ _ _ Hi) as [Hb Hs]. by rewrite Hs. }
  apply bind_ok in H as (s4 & left_over & _ & H). apply bind_ok in H as (s5 & [] & _ & H).
  apply bind_ok in H as (s6 & [] & _ & H). apply bind_ok in H as (s7 & r & Hr%attempt_ok & H).
  destruct r as [[]|e]; [|by apply bind_ok in H as (s8 & ? & _ & H)].
  assert (check_bundle_id (bm_bundle_id m) = Ok tt) as Hid.
  { unfold validate in Hv. by apply rbind_ok in Hv as ([] & ? & _). }
  pose proof (stage_not_dest base tag pid _ Hid) as Hne.
  assert (Hpre : forall (x y : path) name, x <> y -> length x = length y -> ~ x `prefix_of` join y name).
  { intros x y name Hxy Hl [k Hk]. apply Hxy. apply (f_equal (take (length x))) in Hk.
    rewrite take_app_length in Hk. unfold join in Hk. rewrite Hl, take_app_length in Hk. done. }
  split; [by eapply publish_dest|]. intros Ha.
  assert (holds_bundle (io_fs s7) (join base (stage_name tag pid)) m) as Hst.
  { eapply stage_files_ok; [exact Hv|by eapply from_slice_keys|exact Ha|exact Hr]. }
  eapply publish_ok in H as [-> Hb]; [done| | |exact Hst]; intros name; apply Hpre; try done;
    unfold join; by rewrite !length_app.
Qed.

(** Everything is done under [base]; its own path may have to be made. *)
Lemma touches_install source base tag pid :
  touches (fun q => base `prefix_of` q \/ q `prefix_of` base) (install source base tag pid).
Proof.
  set (D := fun q => _).
  assert (forall x, D (base ++ x)) as Hb by (intros x; left; by exists x).
  assert (forall x y, D ((base ++ x) ++ y)) as Hb2 by (intros x y; rewrite <- app_assoc; apply Hb).
  assert (forall x q, base ++ x `prefix_of` q -> D q) as Hb3.
  { intros x q Hq. left. etransitivity; [|exact Hq]. by exists x. }
  assert (forall q, q `prefix_of` base -> D q) as Hb4 by (intros q; by right).
  assert (forall x files entries n, touches D (extract_entries (base ++ x) files entries n)) as He.
  { intros x files entries n. revert n.
    induction entries as [|e entries IH]; intros n; cbn [extract_entries]; [touch|].
    unfold extract_entry, join, error. touch. }
  clearbody D. unfold install, stage_files, extract, publish, join, error. touch.
Qed.

End Install.

(** ** Properties *)

(** C27: an installation that succeeds is the bundle: unless the archive is
    named like the bridge (then removing the archive removes the bridge), the
    directory named by the manifest that was served holds that manifest, the
    bridge and every listed file with the hashes it lists, whichever branch (an
    installation already there, the rename, a concurrent winner, a replaced
    leftover) it took and whatever fails on the way, also where names that
    differ in case name one file; and success or not, nothing outside [base] is
    touched. *)
Theorem install_is_verified (fold : text -> text) (sha256 : bytes -> text) zip_archive
    `{HS : Serde BundleManifest, HL : !ManifestLaws, HF : !FoldLaws fold}
    show_path show_manifest_error show_error source base tag pid s s' dest :
  install fold sha256 zip_archive show_path show_manifest_error show_error source base tag pid s = (s', Ok dest) ->
  (exists m c, io_fs s (join fold source MANIFEST_NAME) = Some (NFile c) /\ from_slice c = Ok m /\
     dest = join fold base (bm_bundle_id m) /\
     (eq_ignore_ascii_case (bm_archive_name m) BRIDGE_EXE_NAME = false -> holds_bundle fold sha256 (io_fs s') dest m)) /\
  (forall q s2, under base q = false -> under q base = false ->
     io_fs (fst (install fold sha256 zip_archive show_path show_manifest_error show_error source base tag pid s2)) q
     = io_fs s2 q).
Proof.
  intros H. split; [by eapply install_verified|].
  unfold under. intros q s2 H1%bool_decide_eq_false H2%bool_decide_eq_false.
  apply touches_install. tauto.
Qed.

Module InstallDemo.

Definition hash (c : bytes) : text := replicate 64 (48 + N.of_nat (length c) mod 10)%N.

Definition manifest (archive : text) : BundleManifest := {|
  bm_bundle_id := txt "b1"; bm_cua_version := txt "0.1.2"; bm_archive_name := archive;
  bm_archive_sha256 := hash [1; 2; 3]%N; bm_bridge_sha256 := hash [77; 90; 0]%N;
  bm_files := [(CUA_DRIVER_EXE_NAME, hash [5]%N)] |}.

(** A manifest written as the name of its archive. *)
#[global] Instance serde : Serde BundleManifest := {|
  to_vec m := if decide (m = manifest (bm_archive_name m)) then Ok (bm_archive_name m) else Err [];
  from_slice c := Ok (manifest c) |}.

#[global] Instance laws : ManifestLaws.
Proof.
  constructor.
  - intros c m. cbn. intros [= <-]. by vm_compute; repeat constructor; set_solver.
  - intros m c. cbn. destruct (decide (m = manifest (bm_archive_name m))) as [He|]; [|done].
    intros [= <-]. by rewrite <- He.
Qed.

(** Windows: the names in lower case. *)
#[global] Instance fold_laws : FoldLaws to_ascii_lowercase.
Proof. constructor. intros a b _ H. by apply bool_decide_eq_true_2. Qed.

Definition zip (c : bytes) : result text (list (result text ZipEntry)) :=
  Ok [Ok {| ze_name := Some CUA_DRIVER_EXE_NAME; ze_dir := false; ze_symlink := false; ze_content := Ok [5]%N |}].

Definition source : path := [txt "share"; txt "bundle"].
Definition base : path := [txt "local"; txt "rdpilot"].

Definition at_ (dir : path) (name : text) : path := join to_ascii_lowercase dir name.

Definition files (archive : text) : Files := fun q =>
  if decide (q = [txt "share"]) then Some NDir else
  if decide (q = source) then Some NDir else
  if decide (q = at_ source MANIFEST_NAME) then Some (NFile archive) else
  if decide (q = at_ source BRIDGE_EXE_NAME) then Some (NFile [77; 90; 0]%N) else
  if decide (q = at_ source archive) then Some (NFile [1; 2; 3]%N) else
  if decide (q = [txt "local"]) then Some NDir else None.

Definition run (archive : text) : Io * result IoError path :=
  install to_ascii_lowercase hash zip (fun _ => []) (fun _ => []) (fun _ => []) source base (txt "7") 42
    {| io_fs := files archive; io_faults := [] |}.

Lemma run_ok : snd (run (txt "Cua.zip")) = Ok (at_ base (txt "b1")).
Proof. by vm_compute. Qed.

(** The one name a valid manifest must not give its archive: the installation
    succeeds and the bridge is gone. *)
Example archive_named_like_the_bridge :
  validate (manifest (txt "RDPilot-Bridge.exe")) = Ok tt /\
  let '(s, r) := run (txt "RDPilot-Bridge.exe") in
  r = Ok (at_ base (txt "b1")) /\ io_fs s (at_ (at_ base (txt "b1")) BRIDGE_EXE_NAME) = None.
Proof. by vm_compute. Qed.

End InstallDemo.

Lemma install_is_verified_witness :
  holds_bundle to_ascii_lowercase InstallDemo.hash (io_fs (fst (InstallDemo.run (txt "Cua.zip"))))
    (InstallDemo.at_ InstallDemo.base (txt "b1")) (InstallDemo.manifest (txt "Cua.zip")).
Proof.
  destruct (install_is_verified to_ascii_lowercase InstallDemo.hash InstallDemo.zip (fun _ => []) (fun _ => []) (fun _ => [])
    InstallDemo.source InstallDemo.base (txt "7") 42 {| io_fs := InstallDemo.files (txt "Cua.zip"); io_faults := [] |}
    (fst (InstallDemo.run (txt "Cua.zip"))) (InstallDemo.at_ InstallDemo.base (txt "b1"))) as [(m & c & Hc & Hm & Hd & Hb) _].
  - rewrite <- InstallDemo.run_ok. apply surjective_pairing.
  - assert (c = txt "Cua.zip") as ->.
    { assert (InstallDemo.files (txt "Cua.zip") (join to_ascii_lowercase InstallDemo.source MANIFEST_NAME)
        = Some (NFile (txt "Cua.zip"))) as Hf by reflexivity.
      cbn [io_fs] in Hc. congruence. }
    assert (Ok m = @Ok text _ (InstallDemo.manifest (txt "Cua.zip"))) as [= ->] by (rewrite <- Hm; reflexivity).
    apply Hb. reflexivity.
Defined.
