(* ===== verification/GuestTransfer.v ===== *)
(** * File transfer in the guest ([crates/rdpilot-bridge/src/transfer.rs])

    [resolve] turns the name a request carries into a path below a fixed root,
    or refuses it; [copy] copies one file to a destination that must not
    exist; [execute] is a whole request.  Which paths are links or other
    reparse points is an argument, and so are the reads of the source and the
    cancellation between them. *)
From S2P Require Import Prelude Bytes BridgeProtocol Fs.
Open Scope io_scope.

(** ** Names *)

Section Name.
Local Open Scope N_scope.

(** [str::to_ascii_uppercase] *)
Definition ascii_upper (c : char) : char := if is_ascii_lower c then c - 32 else c.
Definition to_ascii_uppercase (t : text) : text := map ascii_upper t.

(** Colon, star, question mark, double quote, less, greater and bar. *)
Definition SPECIAL : text := [58; 42; 63; 34; 60; 62; 124].

(** The part before the first dot. *)
Definition stem (part : text) : text := to_ascii_uppercase (default [] (head (split_char 46 part))).

Definition is_device (stem : text) : bool :=
  bool_decide (stem ∈ [txt "CON"; txt "PRN"; txt "AUX"; txt "NUL"; txt "CONIN$"; txt "CONOUT$"])
  || ((byte_len stem =? 4)
      && (starts_with (txt "COM") stem || starts_with (txt "LPT") stem)
      && match stem !! 3%nat with Some c => in_range 49 57 c | None => false end).

(** The refusals of the loop that look only at the part. *)
Definition bad_part (part : text) : bool :=
  bool_decide (part = []) || bool_decide (part = txt ".") || bool_decide (part = txt "..")
  || ends_with_char 32 part || ends_with_char 46 part
  || existsb (fun c => (c <? 32) || bool_decide (c ∈ SPECIAL)) part
  || is_device (stem part).

Fixpoint resolve_parts (link : path -> bool) (p : path) (parts : list text) : option path :=
  match parts with
  | [] => Some p
  | part :: parts =>
      if bad_part part then None
      else
        let p := p ++ [part] in
        if link p then None else resolve_parts link p parts
  end.

(** [resolve]; its only error is the refusal. *)
Definition resolve (link : path -> bool) (root : path) (candidate : text) : option path :=
  let candidate := forward candidate in
  if bool_decide (candidate = []) || starts_with [slash] candidate then None
  else resolve_parts link root (split_char slash candidate).

End Name.

(** ** Copying *)

(** The rounds of the loop: what the cancel flag and the read said. *)
Inductive Round := RoundCancelled | RoundData (c : bytes) | RoundFailed | RoundEnd.

Section Copy.
Variable sha256 : bytes -> text.

Definition cancelled_error : IoError := Other (txt "transfer cancelled").

Fixpoint copy_loop (destination : path) (rounds : list Round) (copied : bytes) : M bytes :=
  match rounds with
  | [] => throw IoFault
  | RoundCancelled :: _ => throw cancelled_error
  | RoundFailed :: _ => throw IoFault
  | RoundEnd :: _ => ret copied
  | RoundData c :: rounds =>
      fs_append destination c ;; copy_loop destination rounds (copied ++ c)
  end.

Definition copy (source destination : path) (rounds : list Round) : M FileTransferData :=
  fs_read source ;;
  fs_write_new destination [] ;;
  r <- attempt (copy_loop destination rounds []) ;
  match r with
  | Ok c => ret {| fd_bytes_transferred := blen c; fd_sha256 := sha256 c |}
  | Err e => attempt (fs_remove_file destination) ;; throw e
  end.

(** What the closure of [execute] fails with. *)
Inductive TransferError := PathTraversal | TransferIo (e : IoError).

Variable show_error : TransferError -> text.

Definition failed (e : TransferError) : FileTransferResponse := {|
  fr_success := false; fr_data := None; fr_error := Some (show_error e);
  fr_error_kind := Some (match e with
    | PathTraversal | TransferIo PermissionDenied => txt "path_traversal"
    | TransferIo _ => txt "io"
    end) |}.

Definition execute (link : path -> bool) (root share : path) (request : FileTransferRequest) (rounds : list Round)
  : Io -> Io * FileTransferResponse := fun s =>
  match attempt (fs_create_dir_all root) s with
  | (s, Ok (Ok _)) =>
      match resolve link root (fq_remote_path request), resolve link share (fq_share_name request) with
      | Some remote, Some shared =>
          let '(source, destination) := match fq_op request with
            | Upload => (shared, remote)
            | Download => (remote, shared)
            end in
          match copy source destination rounds s with
          | (s, Ok data) => (s, {| fr_success := true; fr_data := Some data; fr_error := None; fr_error_kind := None |})
          | (s, Err e) => (s, failed (TransferIo e))
          end
      | _, _ => (s, failed PathTraversal)
      end
  | (s, Ok (Err e)) | (s, Err e) => (s, failed (TransferIo e))
  end.

End Copy.

(** ** Lemmas *)

(** The characters of a path that separate, or that a part must not hold. *)
Definition part_ok (part : text) : Prop :=
  part <> [] /\ part <> txt "." /\ part <> txt ".." /\
  Forall (fun c => c <> slash /\ c <> backslash /\ (32 <= c)%N /\ c ∉ SPECIAL) part /\
  last part <> Some 32%N /\ last part <> Some 46%N /\ is_device (stem part) = false.

Lemma ends_with_char_last c t : ends_with_char c t = false -> last t <> Some c.
Proof. unfold ends_with_char. destruct (last t) as [d|]; [|done]. intros E%N.eqb_neq. congruence. Qed.

Lemma bad_part_ok part :
  bad_part part = false -> slash ∉ part -> backslash ∉ part -> part_ok part.
Proof.
  unfold bad_part. intros Hb Hs Hbs. bools. split_and!; try done; [|by apply ends_with_char_last..].
  apply Forall_forall. intros c Hc.
  assert (existsb (fun c => (c <? 32)%N || bool_decide (c ∈ SPECIAL)) part = false) as He by done.
  assert ((c <? 32)%N || bool_decide (c ∈ SPECIAL) = false) as Hx.
  { apply not_true_iff_false. intros Ht. apply not_true_iff_false in He. apply He.
    apply existsb_exists. exists c. split; [by apply list_elem_of_In|done]. }
  apply orb_false_iff in Hx as [Hge%N.ltb_ge Hsp%bool_decide_eq_false].
  split_and!; try done; congruence.
Qed.

Lemma resolve_parts_some link p parts q :
  resolve_parts link p parts = Some q ->
  q = p ++ parts /\ Forall (fun part => bad_part part = false) parts /\
  forall k, (0 < k <= length parts)%nat -> link (p ++ take k parts) = false.
Proof.
  revert p. induction parts as [|part parts IH]; intros p; cbn [resolve_parts].
  { intros [= <-]. rewrite app_nil_r. split_and!; [done..|]. cbn. lia. }
  destruct (bad_part part) eqn:Eb; [done|]. destruct (link (p ++ [part])) eqn:El; [done|].
  intros (-> & Hf & Hk)%IH. rewrite <- app_assoc. split_and!; [done|by constructor|].
  intros [|[|k]] Hr; [lia|done|]. cbn [length] in Hr. specialize (Hk (S k) ltac:(lia)).
  by rewrite <- app_assoc in Hk.
Qed.

Lemma copy_loop_ok dst rounds copied s s' c old :
  copy_loop dst rounds copied s = (s', Ok c) -> io_fs s dst = Some (NFile old) ->
  exists more, c = copied ++ more /\ io_fs s' dst = Some (NFile (old ++ more)).
Proof.
  revert s copied old. induction rounds as [|[|d| |] rounds IH]; intros s copied old; cbn [copy_loop]; try done.
  - intros (s1 & [] & Ha & H)%bind_ok Hs. pose proof (fs_append_ok _ _ _ _ _ Ha _ Hs) as Hs1.
    destruct (IH _ _ (old ++ d) H) as (more & -> & Hm); [by rewrite Hs1, upd_same|].
    exists (d ++ more). by rewrite <- !app_assoc in *.
  - unfold ret. intros H Hs. simplify_eq. exists []. by rewrite !app_nil_r.
Qed.

Lemma touches_copy_loop (D : path -> Prop) dst rounds copied : D dst -> touches D (copy_loop dst rounds copied).
Proof.
  intros Hd. revert copied. induction rounds as [|[] rounds IH]; intros copied; cbn [copy_loop]; touch.
Qed.

Lemma touches_transfer (D : path -> Prop) sha256 src dst rounds : D dst -> touches D (copy sha256 src dst rounds).
Proof. intros Hd. unfold copy. touch. by apply touches_copy_loop. Qed.

Lemma copy_ok sha256 src dst rounds s s' data :
  copy sha256 src dst rounds s = (s', Ok data) ->
  io_fs s dst = None /\ exists c, io_fs s' dst = Some (NFile c) /\
    fd_bytes_transferred data = blen c /\ fd_sha256 data = sha256 c.
Proof.
  unfold copy. intros (s1 & x & [_ Hs1]%fs_read_ok & H)%bind_ok.
  apply bind_ok in H as (s2 & [] & [Hn Hs2]%fs_write_new_ok & H).
  apply bind_ok in H as (s3 & r & Hr%attempt_ok & H).
  destruct r as [c|e]; [|by apply bind_ok in H as (s4 & ? & _ & H)].
  unfold ret in H. simplify_eq. split; [by rewrite <- Hs1|].
  destruct (copy_loop_ok _ _ _ _ _ _ [] Hr) as (more & -> & Hm); [by rewrite Hs2, upd_same|].
  by exists more.
Qed.

(** A destination that exists is never written. *)
Lemma copy_no_clobber sha256 src dst rounds s :
  is_Some (io_fs s dst) -> is_ok (snd (copy sha256 src dst rounds s)) = false /\
  io_fs (fst (copy sha256 src dst rounds s)) dst = io_fs s dst.
Proof.
  intros [n Hn].
  assert (exists s' e, copy sha256 src dst rounds s = (s', Err e) /\ io_fs s' dst = io_fs s dst)
    as (s' & e & -> & Hs'); [|done].
  unfold copy, bind at 1. destruct (fs_read src s) as [s1 [c|e]] eqn:Er.
  2:{ exists s1, e. split; [done|].
      pose proof (touches_read (fun _ => False) src s dst (fun f => f)) as Ht. by rewrite Er in Ht. }
  apply fs_read_ok in Er as [_ Hs1]. rewrite <- Hs1 in Hn. unfold bind at 1.
  assert (exists s2 e, fs_write_new dst [] s1 = (s2, Err e) /\ io_fs s2 dst = io_fs s1 dst) as (s2 & e & -> & Hs2).
  { unfold fs_write_new, io_op, check_parent.
    destruct (io_faults s1) as [|f fs]; [|destruct (ft_fails f)]; rewrite Hn; cbn;
      try destruct (is_dir _ _); by do 2 eexists. }
  exists s2, e. by rewrite Hs2, Hs1.
Qed.

(** ** Properties *)

(** The name a request carries leads to a path below the fixed root and
    nowhere else: the resolved path is the root followed by the parts of the
    name, each a plain file name (no separator, drive, stream, parent,
    control character, trailing dot or space, or device), none of the
    directories on the way a link. *)
Theorem resolved_names_stay_below link root candidate p :
  resolve link root candidate = Some p ->
  exists parts, p = root ++ parts /\ parts <> [] /\ Forall part_ok parts /\
    forall k, (0 < k <= length parts)%nat -> link (root ++ take k parts) = false.
Proof.
  unfold resolve. destruct (_ || _); [done|]. intros (-> & Hf & Hk)%resolve_parts_some.
  eexists. split; [done|]. split_and!; [|..|done].
  - destruct (forward candidate) as [|c t]; cbn; [done|]. destruct (c =? slash)%N; [done|].
    by destruct (split_char slash t).
  - apply Forall_forall. intros part Hi. rewrite Forall_forall in Hf.
    apply bad_part_ok; [by apply Hf|by eapply split_char_parts|].
    intros Hb. apply (forward_no_backslash candidate). by eapply split_char_elem.
Qed.

(** A transfer never overwrites: an existing destination is left as it is
    and the transfer fails; a transfer that succeeds made the destination, with
    exactly the bytes it counted and hashed; and it writes nowhere else. *)
Theorem transfers_do_not_clobber sha256 src dst rounds s :
  (is_Some (io_fs s dst) -> is_ok (snd (copy sha256 src dst rounds s)) = false /\
     io_fs (fst (copy sha256 src dst rounds s)) dst = io_fs s dst) /\
  (forall data, snd (copy sha256 src dst rounds s) = Ok data ->
     io_fs s dst = None /\ exists c, io_fs (fst (copy sha256 src dst rounds s)) dst = Some (NFile c) /\
       fd_bytes_transferred data = blen c /\ fd_sha256 data = sha256 c) /\
  (forall q, q <> dst -> io_fs (fst (copy sha256 src dst rounds s)) q = io_fs s q).
Proof.
  split; [apply copy_no_clobber|]. split.
  - intros data Hd. eapply copy_ok. rewrite <- Hd. apply surjective_pairing.
  - intros q Hq. by apply (touches_transfer (eq dst)).
Qed.

Lemma resolved_names_stay_below_witness :
  exists parts, [txt "root"; txt "a"; txt "b.txt"] = [txt "root"] ++ parts /\ parts <> [] /\
    Forall part_ok parts /\
    forall k, (0 < k <= length parts)%nat -> (fun _ : path => false) ([txt "root"] ++ take k parts) = false.
Proof.
  apply (resolved_names_stay_below (fun _ => false) [txt "root"] (txt "a\b.txt")). reflexivity.
Defined.
