(* ===== verification/Webm.v ===== *)
(** * The WebM writer ([recording/webm.rs], [sequence_header_obu] of
    [recording/encoder.rs])

    [SegmentWriter] writes one file: EBML header, one Segment with SeekHead,
    Info, Tracks, Clusters and Cues; sizes and positions that are known only
    at the end are patched in place.  [sw_file] is the file's content and
    [sw_ok] says which of the coming operations on it succeed.

    [parse_elements] and [read_frames] are a reader written from the format:
    the theorems say that it gets back what was written. *)
From S2P Require Import Prelude Bytes.
Open Scope N_scope.

(** ** Element ids *)
Definition EBML : N := 0x1A45DFA3.
Definition SEGMENT : N := 0x18538067.
Definition SEEK_HEAD : N := 0x114D9B74.
Definition SEEK : N := 0x4DBB.
Definition SEEK_ID : N := 0x53AB.
Definition SEEK_POSITION : N := 0x53AC.
Definition INFO : N := 0x1549A966.
Definition TRACKS : N := 0x1654AE6B.
Definition CLUSTER : N := 0x1F43B675.
Definition CUES : N := 0x1C53BB6B.

Definition MAX_RELATIVE : N := 32767.

(** ** Elements *)

Definition id_bytes (id : N) : bytes := drop_while (N.eqb 0) (be_bytes 4 id).

(** [fixed_size]: the first byte is the marker of an eight byte size. *)
Definition fixed_size (n : N) : bytes := 1 :: drop 1 (be_bytes 8 n).

(** [size_bytes]: the loop over the lengths. *)
Fixpoint size_loop (lens : list N) (n : N) : bytes :=
  match lens with
  | [] => fixed_size n
  | len :: lens =>
      let max := N.shiftl 1 (7 * len) - 1 in
      if n <? max
      then bdrop (8 - len) (be_bytes 8 (N.lor n (N.shiftl 1 (7 * len))))
      else size_loop lens n
  end.
Definition size_bytes (n : N) : bytes := size_loop [1; 2; 3; 4; 5; 6; 7; 8] n.

Definition element (id : N) (payload : bytes) : bytes :=
  id_bytes id ++ size_bytes (blen payload) ++ payload.

(** Leading zeros are dropped, but never the last byte. *)
Definition uint (id value : N) : bytes :=
  let b := be_bytes 8 value in
  element id (bdrop (N.min (blen (take_while (N.eqb 0) b)) 7) b).

Definition text_element (id : N) (value : text) : bytes := element id (utf8 value).

Definition ebml_header : bytes :=
  element EBML (uint 0x4286 1 ++ uint 0x42F7 1 ++ uint 0x42F2 4 ++ uint 0x42F3 8
    ++ text_element 0x4282 (txt "webm") ++ uint 0x4287 4 ++ uint 0x4285 2).

Definition tracks (width height : N) (codec_private : bytes) : bytes :=
  let colour := uint 0x55B1 1 ++ uint 0x55B9 1 ++ uint 0x55BA 1 ++ uint 0x55BB 1 in
  let video := uint 0xB0 width ++ uint 0xBA height ++ element 0x55B0 colour in
  let entry := uint 0xD7 1 ++ uint 0x73C5 1 ++ uint 0x83 1 ++ uint 0x9C 0
    ++ text_element 0x86 (txt "V_AV1") ++ element 0x63A2 codec_private ++ element 0xE0 video in
  element TRACKS (element 0xAE entry).

(** [i16::try_from(relative).unwrap_or(i16::MAX)] *)
Definition relative16 (relative : N) : N := if relative <=? 32767 then relative else 32767.

Definition block_payload (relative : N) (key : bool) (data : bytes) : bytes :=
  0x81 :: be_bytes 2 (relative16 relative) ++ [if key then 0x80 else 0] ++ data.

(** ** Frames and blocks *)

Record HeldFrame := {
  hf_timestamp : N; hf_key : bool; hf_data : bytes; hf_previous : option N }.

(** [reference] is the distance back, which the code keeps negated. *)
Record Block := {
  bk_key : bool; bk_data : bytes; bk_duration : option N; bk_reference : option N }.

(** [i64::to_be_bytes] of the negated number. *)
Definition negative_bytes (n : N) : bytes := be_bytes 8 ((2 ^ 64 - n) mod 2 ^ 64).

Definition block_encode (b : Block) (relative : N) : bytes :=
  match bk_duration b with
  | None => element 0xA3 (block_payload relative (bk_key b) (bk_data b))
  | Some duration =>
      element 0xA0 (element 0xA1 (block_payload relative false (bk_data b))
        ++ uint 0x9B duration
        ++ match bk_reference b with Some r => element 0xFB (negative_bytes r) | None => [] end)
  end.

Record ClusterBody := { cl_timestamp : N; cl_body : bytes }.

(** ** The encoder's sequence header *)

(** The loop that reads the size field; [None] also past the end. *)
Fixpoint leb_loop (fuel : nat) (data : bytes) (cursor size shift : N) : option (N * N) :=
  match fuel with
  | O => None
  | S fuel =>
      match data !! N.to_nat cursor with
      | None => None
      | Some byte =>
          let size := N.lor size (N.shiftl (N.land byte 0x7f) shift) in
          if N.land byte 0x80 =? 0 then Some (cursor + 1, size)
          else if 56 <? shift + 7 then None
          else leb_loop fuel data (cursor + 1) size (shift + 7)
      end
  end.

(** One round reads one OBU; each takes at least a byte. *)
Fixpoint obu_loop (fuel : nat) (data : bytes) (pos : N) : option bytes :=
  match fuel with
  | O => None
  | S fuel =>
      match data !! N.to_nat pos with
      | None => None
      | Some header =>
          let obu_type := N.land (N.shiftr header 3) 0x0f in
          let extension := N.land (N.shiftr header 2) 1 in
          if negb (N.land (N.shiftr header 1) 1 =? 1) then None
          else match leb_loop 9 data (pos + 1 + extension) 0 0 with
          | None => None
          | Some (cursor, size) =>
              let end_ := cursor + size in
              if (2 ^ 64 <=? end_) || (blen data <? end_) then None
              else if obu_type =? 1 then Some (btake (end_ - pos) (bdrop pos data))
              else obu_loop fuel data end_
          end
      end
  end.

Definition sequence_header_obu (data : bytes) : option bytes := obu_loop (S (length data)) data 0.

(** ** The writer *)

Record SegmentWriter := {
  sw_file : bytes;
  sw_ok : list bool;
  sw_width : N;
  sw_height : N;
  sw_codec_config : bytes;
  sw_data_start : N;
  sw_size_at : N;
  sw_duration_at : N;
  sw_cues_position_at : N;
  sw_written : N;
  sw_cluster : option ClusterBody;
  sw_held : option HeldFrame;
  sw_cues : list (N * N);
  sw_frames : N;
  sw_last_timestamp : N }.

(** [SegmentWriter::create], once the file is open. *)
Definition writer_create (ok : list bool) (width height : N) (codec_config : bytes) : SegmentWriter :=
  {| sw_file := []; sw_ok := ok; sw_width := width; sw_height := height; sw_codec_config := codec_config;
     sw_data_start := 0; sw_size_at := 0; sw_duration_at := 0; sw_cues_position_at := 0;
     sw_written := 0; sw_cluster := None; sw_held := None; sw_cues := []; sw_frames := 0;
     sw_last_timestamp := 0 |}.

Definition with_file (f : bytes) (ok : list bool) (written : N) (w : SegmentWriter) : SegmentWriter :=
  {| sw_file := f; sw_ok := ok; sw_width := sw_width w; sw_height := sw_height w;
     sw_codec_config := sw_codec_config w; sw_data_start := sw_data_start w; sw_size_at := sw_size_at w;
     sw_duration_at := sw_duration_at w; sw_cues_position_at := sw_cues_position_at w;
     sw_written := written; sw_cluster := sw_cluster w; sw_held := sw_held w; sw_cues := sw_cues w;
     sw_frames := sw_frames w; sw_last_timestamp := sw_last_timestamp w |}.

Definition with_places (data_start size_at duration_at cues_at : N) (w : SegmentWriter) : SegmentWriter :=
  {| sw_file := sw_file w; sw_ok := sw_ok w; sw_width := sw_width w; sw_height := sw_height w;
     sw_codec_config := sw_codec_config w; sw_data_start := data_start; sw_size_at := size_at;
     sw_duration_at := duration_at; sw_cues_position_at := cues_at;
     sw_written := sw_written w; sw_cluster := sw_cluster w; sw_held := sw_held w; sw_cues := sw_cues w;
     sw_frames := sw_frames w; sw_last_timestamp := sw_last_timestamp w |}.

Definition with_cluster (c : option ClusterBody) (cues : list (N * N)) (w : SegmentWriter) : SegmentWriter :=
  {| sw_file := sw_file w; sw_ok := sw_ok w; sw_width := sw_width w; sw_height := sw_height w;
     sw_codec_config := sw_codec_config w; sw_data_start := sw_data_start w; sw_size_at := sw_size_at w;
     sw_duration_at := sw_duration_at w; sw_cues_position_at := sw_cues_position_at w;
     sw_written := sw_written w; sw_cluster := c; sw_held := sw_held w; sw_cues := cues;
     sw_frames := sw_frames w; sw_last_timestamp := sw_last_timestamp w |}.

Definition with_held (h : option HeldFrame) (frames last : N) (w : SegmentWriter) : SegmentWriter :=
  {| sw_file := sw_file w; sw_ok := sw_ok w; sw_width := sw_width w; sw_height := sw_height w;
     sw_codec_config := sw_codec_config w; sw_data_start := sw_data_start w; sw_size_at := sw_size_at w;
     sw_duration_at := sw_duration_at w; sw_cues_position_at := sw_cues_position_at w;
     sw_written := sw_written w; sw_cluster := sw_cluster w; sw_held := h; sw_cues := sw_cues w;
     sw_frames := frames; sw_last_timestamp := last |}.

(** Whether the next operation on the file succeeds. *)
Definition next_ok (ok : list bool) : bool * list bool :=
  match ok with [] => (true, []) | b :: ok => (b, ok) end.

Definition put (bs : bytes) (w : SegmentWriter) : option SegmentWriter :=
  let '(b, ok) := next_ok (sw_ok w) in
  if b then Some (with_file (sw_file w ++ bs) ok (sw_written w + blen bs) w) else None.

(** [slice::copy_from_slice] into [at..at + len]. *)
Definition patch (at_ : N) (new old : bytes) : bytes :=
  btake at_ old ++ new ++ bdrop (at_ + blen new) old.

(** One Seek entry with a zero position. *)
Definition seek_entry (id : N) : bytes :=
  element SEEK (element SEEK_ID (id_bytes id) ++ id_bytes SEEK_POSITION ++ size_bytes 8 ++ be_bytes 8 0).

Definition write_header (first_packet : bytes) (w : SegmentWriter) : option SegmentWriter :=
  let codec_private := sw_codec_config w ++ default [] (sequence_header_obu first_packet) in
  match put ebml_header w with None => None | Some w =>
  let size_at := sw_written w + blen (id_bytes SEGMENT) in
  match put (id_bytes SEGMENT ++ fixed_size 0) w with None => None | Some w =>
  let data_start := sw_written w in
  let entries := [seek_entry INFO; seek_entry TRACKS; seek_entry CUES] in
  let body := concat entries in
  let seek_head := element SEEK_HEAD body in
  let body_start := blen seek_head - blen body in
  let at0 := body_start + blen (seek_entry INFO) - 8 in
  let at1 := body_start + blen (seek_entry INFO) + blen (seek_entry TRACKS) - 8 in
  let at2 := body_start + blen (seek_entry INFO) + blen (seek_entry TRACKS) + blen (seek_entry CUES) - 8 in
  let head_at := sw_written w in
  let info_pos := sw_written w + blen seek_head - data_start in
  let before := uint 0x2AD7B1 1000000 ++ text_element 0x4D80 (txt "rdpilot") ++ text_element 0x5741 (txt "rdpilot") in
  let duration_rel := blen before in
  let info_body := before ++ id_bytes 0x4489 ++ size_bytes 8 ++ be_bytes 8 0 in
  let info := element INFO info_body in
  let tracks_pos := info_pos + blen info in
  let tracks := tracks (sw_width w) (sw_height w) codec_private in
  let seek_head := patch at1 (be_bytes 8 tracks_pos) (patch at0 (be_bytes 8 info_pos) seek_head) in
  let cues_at := head_at + at2 in
  match put seek_head w with None => None | Some w =>
  let duration_at := sw_written w + (blen info - blen info_body + duration_rel) + 3 in
  let w := with_places data_start size_at duration_at cues_at w in
  match put info w with None => None | Some w => put tracks w end end end end.

Definition flush_cluster (w : SegmentWriter) : option SegmentWriter :=
  match sw_cluster w with
  | None => Some w
  | Some c =>
      let position := sw_written w - sw_data_start w in
      let cues := match sw_cues w with [] => [(cl_timestamp c, position)] | cs => cs end in
      put (element CLUSTER (uint 0xE7 (cl_timestamp c) ++ cl_body c)) (with_cluster None cues w)
  end.

Definition emit_block (timestamp : N) (b : Block) (w : SegmentWriter) : option SegmentWriter :=
  let fits := match sw_cluster w with Some c => timestamp - cl_timestamp c <=? MAX_RELATIVE | None => false end in
  match (if fits then Some w
         else match flush_cluster w with
              | None => None
              | Some w => Some (with_cluster (Some {| cl_timestamp := timestamp; cl_body := [] |}) (sw_cues w) w)
              end) with
  | None => None
  | Some w =>
      Some (match sw_cluster w with
      | None => w
      | Some c => with_cluster (Some {| cl_timestamp := cl_timestamp c;
                    cl_body := cl_body c ++ block_encode b (timestamp - cl_timestamp c) |}) (sw_cues w) w
      end)
  end.

Definition write_frame (timestamp : N) (data : bytes) (key : bool) (w : SegmentWriter) : option SegmentWriter :=
  match (if sw_data_start w =? 0 then write_header data w else Some w) with
  | None => None
  | Some w =>
      let timestamp := N.max timestamp (sw_last_timestamp w) in
      match (match sw_held w with
             | None => Some w
             | Some h => emit_block (hf_timestamp h)
                 {| bk_key := hf_key h; bk_data := hf_data h; bk_duration := None; bk_reference := None |} w
             end) with
      | None => None
      | Some w =>
          Some (with_held (Some {| hf_timestamp := timestamp; hf_key := key; hf_data := data;
                   hf_previous := if 0 <? sw_frames w then Some (sw_last_timestamp w) else None |})
                 (sw_frames w + 1) timestamp w)
      end
  end.

(** [bytes] *)
Definition writer_bytes (w : SegmentWriter) : N :=
  sw_written w + match sw_cluster w with Some c => blen (cl_body c) | None => 0 end
  + match sw_held w with Some h => blen (hf_data h) | None => 0 end.

(** [u64 as f64], then [to_be_bytes]: the nearest double, ties to even. *)
Definition f64_bits (n : N) : N :=
  if n =? 0 then 0
  else
    let e := N.log2 n in
    if e <=? 52 then N.shiftl (1023 + e) 52 + (N.shiftl n (52 - e) - 2 ^ 52)
    else
      let sh := e - 52 in
      let q := N.shiftr n sh in
      let r := n - N.shiftl q sh in
      let half := N.shiftl 1 (sh - 1) in
      let up := (half <? r) || ((r =? half) && N.odd q) in
      N.shiftl (1023 + e) 52 + (q - 2 ^ 52) + (if up then 1 else 0).

Definition cue_point (p : N * N) : bytes :=
  element 0xBB (uint 0xB3 (fst p) ++ element 0xB7 (uint 0xF7 1 ++ uint 0xF1 (snd p))).

(** What a finished segment leaves: a file of that content and size under its
    name, nothing (no frame was written), or the part file of an error. *)
Inductive Finished := FinishedFile (content : bytes) (size : N) | FinishedNothing | FinishedError.

Definition finish_held (end_ : N) (w : SegmentWriter) : option SegmentWriter :=
  match sw_held w with
  | None => Some w
  | Some h =>
      let duration := N.max (end_ - hf_timestamp h) 1 in
      let reference := if hf_key h then None
        else Some (N.max (let d := hf_timestamp h - default (hf_timestamp h) (hf_previous h) in
                          if d <=? 2 ^ 63 - 1 then d else 0) 1) in
      emit_block (hf_timestamp h)
        {| bk_key := hf_key h; bk_data := hf_data h; bk_duration := Some duration; bk_reference := reference |}
        (with_held None (sw_frames w) (sw_last_timestamp w) w)
  end.

Definition finish (end_ : N) (w : SegmentWriter) : Finished :=
  match finish_held end_ w with None => FinishedError | Some w =>
  match flush_cluster w with None => FinishedError | Some w =>
  if sw_data_start w =? 0 then
    if fst (next_ok (sw_ok w)) then FinishedNothing else FinishedError
  else
    let cues_pos := sw_written w - sw_data_start w in
    match put (element CUES (concat (map cue_point (sw_cues w)))) w with None => FinishedError | Some w =>
    let total := sw_written w in
    let duration := N.max end_ (sw_last_timestamp w + 1) in
    if forallb (fun b => b) (take 8 (sw_ok w)) then
      let file := patch (sw_size_at w) (fixed_size (total - sw_data_start w)) (sw_file w) in
      let file := patch (sw_duration_at w) (be_bytes 8 (f64_bits duration)) file in
      let file := patch (sw_cues_position_at w) (be_bytes 8 cues_pos) file in
      FinishedFile file total
    else FinishedError
    end
  end end.

(** ** A reader

    Written from the EBML and Matroska formats, not from the writer. *)

(** How many bytes a size has, from its first byte. *)
Definition size_length (b : N) : option N :=
  if 128 <=? b then Some 1 else if 64 <=? b then Some 2 else if 32 <=? b then Some 3
  else if 16 <=? b then Some 4 else if 8 <=? b then Some 5 else if 4 <=? b then Some 6
  else if 2 <=? b then Some 7 else if 1 <=? b then Some 8 else None.

(** A number of [len] bytes, and what follows it. *)
Definition parse_be (len : N) (bs : bytes) : option (N * bytes) :=
  if blen bs <? len then None else Some (from_be (btake len bs), bdrop len bs).

Definition parse_size (bs : bytes) : option (N * bytes) :=
  match bs with
  | [] => None
  | b :: _ =>
      match size_length b with
      | None => None
      | Some len =>
          match parse_be len bs with
          | None => None
          | Some (n, rest) => Some (n - 2 ^ (7 * len), rest)
          end
      end
  end.

(** An id keeps its marker and has at most four bytes. *)
Definition parse_id (bs : bytes) : option (N * bytes) :=
  match bs with
  | [] => None
  | b :: _ =>
      match size_length b with
      | Some len => if len <=? 4 then parse_be len bs else None
      | None => None
      end
  end.

Definition parse_element (bs : bytes) : option (N * bytes * bytes) :=
  match parse_id bs with
  | None => None
  | Some (id, bs) =>
      match parse_size bs with
      | None => None
      | Some (n, bs) => if blen bs <? n then None else Some (id, btake n bs, bdrop n bs)
      end
  end.

Fixpoint parse_loop (fuel : nat) (bs : bytes) : option (list (N * bytes)) :=
  match bs, fuel with
  | [], _ => Some []
  | _, O => None
  | _, S fuel =>
      match parse_element bs with
      | None => None
      | Some (id, payload, rest) => cons (id, payload) <$> parse_loop fuel rest
      end
  end.
Definition parse_elements (bs : bytes) : option (list (N * bytes)) := parse_loop (length bs) bs.

(** One frame as a player sees it. *)
Record ReadFrame := { rf_time : N; rf_key : bool; rf_data : bytes; rf_duration : option N }.

(** Track 1, a two byte relative time, the flags, the frame. *)
Definition read_block (bs : bytes) : option (N * bool * bytes) :=
  match bs with
  | 0x81 :: a :: b :: flags :: data => Some (256 * a + b, 128 <=? flags, data)
  | _ => None
  end.

(** A SimpleBlock, or a BlockGroup: without a ReferenceBlock it is a key
    frame. *)
Definition read_child (time : N) (e : N * bytes) : option ReadFrame :=
  if fst e =? 0xA3 then
    match read_block (snd e) with
    | Some (rel, key, data) => Some {| rf_time := time + rel; rf_key := key; rf_data := data; rf_duration := None |}
    | None => None
    end
  else if fst e =? 0xA0 then
    match parse_elements (snd e) with
    | Some ((0xA1, block) :: (0x9B, duration) :: rest) =>
        match read_block block with
        | Some (rel, _, data) =>
            Some {| rf_time := time + rel; rf_key := negb (existsb (fun r => fst r =? 0xFB) rest);
                    rf_data := data; rf_duration := Some (from_be duration) |}
        | None => None
        end
    | _ => None
    end
  else None.

Definition read_cluster (bs : bytes) : option (list ReadFrame) :=
  match parse_elements bs with
  | Some ((0xE7, time) :: blocks) => mapM (read_child (from_be time)) blocks
  | _ => None
  end.

(** The children of the file's one Segment. *)
Definition read_segment (file : bytes) : option (list (N * bytes)) :=
  match parse_elements file with
  | Some [(h, _); (s, body)] => if (h =? EBML) && (s =? SEGMENT) then parse_elements body else None
  | _ => None
  end.

Definition read_frames (file : bytes) : option (list ReadFrame) :=
  match read_segment file with
  | None => None
  | Some children =>
      (fun l => concat l) <$> mapM (fun e => read_cluster (snd e)) (filter (fun e => fst e = CLUSTER) children)
  end.

(** One SeekHead entry: an id and the place of that element. *)
Definition read_seek (e : N * bytes) : option (N * N) :=
  match parse_elements (snd e) with
  | Some [(0x53AB, id); (0x53AC, position)] => Some (from_be id, from_be position)
  | _ => None
  end.

(** One cue: the place of a cluster. *)
Definition read_cue (e : N * bytes) : option (N * N) :=
  match parse_elements (snd e) with
  | Some [(0xB3, _); (0xB7, places)] =>
      match parse_elements places with
      | Some [(0xF7, _); (0xF1, position)] => Some (CLUSTER, from_be position)
      | _ => None
      end
  | _ => None
  end.

(** Where a player that seeks goes. *)
Definition read_index (children : list (N * bytes)) : option (list (N * N)) :=
  let entries id read :=
    match filter (fun e => fst e = id) children with
    | [(_, body)] => match parse_elements body with Some l => mapM read l | None => None end
    | _ => None
    end in
  match entries SEEK_HEAD read_seek, entries CUES read_cue with
  | Some seeks, Some cues => Some (seeks ++ cues)
  | _, _ => None
  end.

(** ** Lemmas on numbers *)

Lemma from_le_app a b : from_le (a ++ b) = from_le a + 256 ^ blen a * from_le b.
Proof.
  induction a as [|x a IH]; [cbn [app from_le]; change (256 ^ blen []) with 1; lia|].
  cbn [app from_le]. rewrite IH, blen_cons, (N.add_comm 1), N.add_1_r, N.pow_succ_r'. lia.
Qed.

Lemma from_be_cons x l : from_be (x :: l) = x * 256 ^ blen l + from_be l.
Proof.
  unfold from_be. rewrite reverse_cons, from_le_app. cbn [from_le].
  unfold blen. rewrite length_reverse. lia.
Qed.

Lemma le_bytes_snoc w n : le_bytes (S w) n = le_bytes w n ++ [n / 256 ^ N.of_nat w mod 256].
Proof.
  revert n. induction w as [|w IH]; intros n.
  { cbn. by rewrite N.div_1_r. }
  change (le_bytes (S (S w)) n) with (n mod 256 :: le_bytes (S w) (n / 256)).
  rewrite IH. cbn [le_bytes app]. rewrite N.Div0.div_div, <- N.pow_succ_r', <- Nat2N.inj_succ. done.
Qed.

Lemma be_bytes_S w n : be_bytes (S w) n = (n / 256 ^ N.of_nat w mod 256) :: be_bytes w n.
Proof. unfold be_bytes. by rewrite le_bytes_snoc, reverse_app. Qed.

(** The low bytes are those of the rest. *)
Lemma le_bytes_add w n k : le_bytes w (n + 256 ^ N.of_nat w * k) = le_bytes w n.
Proof.
  revert n k. induction w as [|w IH]; intros n k; [done|]. cbn [le_bytes].
  rewrite Nat2N.inj_succ, N.pow_succ_r'.
  replace (n + 256 * 256 ^ N.of_nat w * k) with (n + (256 ^ N.of_nat w * k) * 256) by lia.
  rewrite N.Div0.mod_add, N.div_add by lia. by rewrite IH.
Qed.

Lemma be_bytes_add w n k : be_bytes w (n + 256 ^ N.of_nat w * k) = be_bytes w n.
Proof. unfold be_bytes. by rewrite le_bytes_add. Qed.

(** Of a number that fits [w] bytes, wider bytes only add zeros. *)
Lemma be_bytes_drop w k n : drop k (be_bytes (k + w) n) = be_bytes w n.
Proof. induction k as [|k IH]; [done|]. cbn [Nat.add]. by rewrite be_bytes_S. Qed.

Lemma from_be_leading_zeros l : from_be (drop_while (N.eqb 0) l) = from_be l.
Proof.
  induction l as [|x l IH]; [done|]. cbn [drop_while]. destruct (N.eqb_spec 0 x) as [<-|]; [|done].
  rewrite IH, from_be_cons. lia.
Qed.

Lemma drop_take_while {A} (p : A -> bool) l n :
  (n <= length (take_while p l))%nat -> drop n l = drop n (take_while p l) ++ drop_while p l.
Proof.
  revert n. induction l as [|x l IH]; intros n Hn; cbn in *; [by rewrite drop_nil|].
  destruct (p x); cbn in *; [|assert (n = 0)%nat as -> by lia; done].
  destruct n as [|n]; cbn; [by rewrite take_drop_while|]. apply IH. lia.
Qed.

Lemma from_be_drop_zeros n l :
  (n <= length (take_while (N.eqb 0) l))%nat -> from_be (drop n l) = from_be l.
Proof.
  revert n. induction l as [|x l IH]; intros n Hn; [by rewrite drop_nil|].
  destruct n as [|n]; [done|]. cbn [take_while] in Hn.
  destruct (N.eqb_spec 0 x) as [<-|]; cbn [length] in Hn; [|lia].
  cbn [drop]. rewrite IH by lia. rewrite from_be_cons. lia.
Qed.

(** ** Elements are read back *)

Lemma lor_shift n k : n < 2 ^ k -> N.lor n (N.shiftl 1 k) = n + 2 ^ k.
Proof.
  intros Hn. rewrite N.shiftl_1_l.
  assert (Hl : N.land n (2 ^ k) = 0).
  { apply N.bits_inj. intros i. rewrite N.land_spec, N.pow2_bits_eqb, N.bits_0.
    destruct (N.eqb_spec k i) as [<-|]; [|apply andb_false_r].
    apply andb_false_iff. left. apply N.testbit_false. by rewrite N.div_small. }
  rewrite N.add_nocarry_lxor by done. symmetry. by apply N.lxor_lor.
Qed.

(** A number below nine, case by case. *)
Lemma upto8 (P : N -> Prop) :
  P 1 -> P 2 -> P 3 -> P 4 -> P 5 -> P 6 -> P 7 -> P 8 -> forall n, 1 <= n <= 8 -> P n.
Proof.
  intros. assert (n = 1 \/ n = 2 \/ n = 3 \/ n = 4 \/ n = 5 \/ n = 6 \/ n = 7 \/ n = 8) by lia.
  by destruct_or!; subst.
Qed.

Lemma size_length_spec b len : 1 <= len <= 8 -> 2 ^ (8 - len) <= b < 2 ^ (9 - len) -> size_length b = Some len.
Proof.
  intros Hl. revert len Hl b. apply (upto8 (fun len => forall b, _ -> size_length b = Some len)); intros b Hb.
  all: match type of Hb with ?x <= _ < ?y =>
         let u := eval vm_compute in x in let v := eval vm_compute in y in change (u <= b < v) in Hb end.
  all: unfold size_length; repeat case_match; bools; (done || lia).
Qed.

(** The minimal size of [n]: [len] bytes hold the marker and the number. *)
Lemma size_bytes_spec n :
  n < 2 ^ 56 - 1 ->
  exists len, 1 <= len <= 8 /\ n < 2 ^ (7 * len) /\ size_bytes n = be_bytes (N.to_nat len) (n + 2 ^ (7 * len)).
Proof.
  intros Hn. unfold size_bytes, size_loop.
  assert (Hs : forall len, 1 <= len <= 8 -> n < N.shiftl 1 (7 * len) - 1 ->
    n < 2 ^ (7 * len) /\ bdrop (8 - len) (be_bytes 8 (N.lor n (N.shiftl 1 (7 * len))))
      = be_bytes (N.to_nat len) (n + 2 ^ (7 * len))).
  { intros len Hl Hb. rewrite N.shiftl_1_l in Hb.
    assert (n < 2 ^ (7 * len)) as Hp by lia. split; [done|]. rewrite lor_shift by done.
    unfold bdrop. replace 8%nat with (N.to_nat (8 - len) + N.to_nat len)%nat at 1 by lia.
    apply be_bytes_drop. }
  repeat match goal with |- context [n <? N.shiftl 1 (7 * ?len) - 1] =>
    destruct (N.ltb_spec n (N.shiftl 1 (7 * len) - 1));
    [exists len; split; [lia|]; apply Hs; [lia|done]|] end.
  exfalso. change (N.shiftl 1 (7 * 8) - 1) with (2 ^ 56 - 1) in *. lia.
Qed.

Lemma first_byte len n : 1 <= len <= 8 -> n < 2 ^ (7 * len) ->
  exists b l, be_bytes (N.to_nat len) (n + 2 ^ (7 * len)) = b :: l /\ size_length b = Some len.
Proof.
  intros Hl Hn. assert (exists k, N.to_nat len = S k) as [k Hk] by (exists (pred (N.to_nat len)); lia).
  rewrite Hk, be_bytes_S. eexists _, _. split; [done|]. apply size_length_spec; [done|].
  assert (N.of_nat k = len - 1) as -> by lia. clear k Hk.
  assert (Hd : 2 ^ (7 * len) = 2 ^ (8 - len) * 256 ^ (len - 1)).
  { change 256 with (2 ^ 8). rewrite <- N.pow_mul_r, <- N.pow_add_r. f_equal. lia. }
  assert (Hq : 2 ^ (8 - len) <= (n + 2 ^ (7 * len)) / 256 ^ (len - 1) < 2 ^ (9 - len)).
  { assert (256 ^ (len - 1) <> 0) by (apply N.pow_nonzero; lia).
    replace (9 - len) with (N.succ (8 - len)) by lia. rewrite N.pow_succ_r'. split.
    - apply N.div_le_lower_bound; [done|]. lia.
    - apply N.div_lt_upper_bound; [done|]. lia. }
  assert (2 ^ (9 - len) <= 2 ^ 8) by (apply N.pow_le_mono_r; lia).
  rewrite N.mod_small; [done|]. change (2 ^ 8) with 256 in *. lia.
Qed.

Lemma parse_size_marked len n rest : 1 <= len <= 8 -> n < 2 ^ (7 * len) ->
  parse_size (be_bytes (N.to_nat len) (n + 2 ^ (7 * len)) ++ rest) = Some (n, rest).
Proof.
  intros Hl Hn. destruct (first_byte len n) as (b & l & He & Hb); [done..|].
  unfold parse_size. rewrite He at 1. cbn [app]. rewrite Hb. unfold parse_be.
  rewrite blen_app, blen_be_bytes, N2Nat.id.
  destruct (N.ltb_spec (len + blen rest) len); [lia|].
  rewrite btake_app, bdrop_app by (rewrite blen_be_bytes; lia).
  rewrite from_be_bytes; [by rewrite N.add_sub|]. rewrite N2Nat.id.
  change 256 with (2 ^ 8). rewrite <- N.pow_mul_r. replace (8 * len) with (7 * len + len) by lia.
  rewrite N.pow_add_r. assert (2 ^ 1 <= 2 ^ len) by (apply N.pow_le_mono_r; lia).
  change (2 ^ 1) with 2 in *. nia.
Qed.

Lemma size_bytes_read n rest : n < 2 ^ 56 - 1 -> parse_size (size_bytes n ++ rest) = Some (n, rest).
Proof.
  intros Hn. destruct (size_bytes_spec n Hn) as (len & Hl & Hp & ->). by apply parse_size_marked.
Qed.

Lemma fixed_size_read n rest : n < 2 ^ 56 - 1 -> parse_size (fixed_size n ++ rest) = Some (n, rest).
Proof.
  intros Hn. assert (fixed_size n = be_bytes (N.to_nat 8) (n + 2 ^ (7 * 8))) as ->.
  { unfold fixed_size. change (N.to_nat 8) with 8%nat. rewrite !(be_bytes_S 7). cbn [drop].
    replace (2 ^ (7 * 8)) with (256 ^ N.of_nat 7 * 1) by done. rewrite be_bytes_add.
    f_equal. rewrite N.mul_comm, N.div_add by done. rewrite N.div_small by (cbn in *; lia). done. }
  apply parse_size_marked; [lia|]. change (7 * 8) with 56. lia.
Qed.

(** Ids that the reader knows as such: the marker in the first byte counts
    the bytes. *)
Definition id_ok (id : N) : bool :=
  match id_bytes id with
  | [] => false
  | b :: _ => bool_decide (size_length b = Some (blen (id_bytes id)))
              && (blen (id_bytes id) <=? 4) && (from_be (id_bytes id) =? id)
  end.

Lemma id_read id rest : id_ok id = true -> parse_id (id_bytes id ++ rest) = Some (id, rest).
Proof.
  unfold id_ok, parse_id. destruct (id_bytes id) as [|b l] eqn:He; [done|]. intros Hb.
  apply andb_true_iff in Hb as [[Hs%bool_decide_eq_true H4]%andb_true_iff Hf%N.eqb_eq].
  cbn [app]. rewrite Hs, H4. unfold parse_be. rewrite app_comm_cons.
  rewrite blen_app. destruct (N.ltb_spec (blen (b :: l) + blen rest) (blen (b :: l))); [lia|].
  by rewrite btake_app, bdrop_app, Hf.
Qed.

Lemma element_read_with size id p rest :
  (forall r, parse_size (size ++ r) = Some (blen p, r)) -> id_ok id = true ->
  parse_element (id_bytes id ++ size ++ p ++ rest) = Some (id, p, rest).
Proof.
  intros Hs Hi. unfold parse_element. rewrite id_read, Hs by done. rewrite blen_app.
  destruct (N.ltb_spec (blen p + blen rest) (blen p)); [lia|]. by rewrite btake_app, bdrop_app.
Qed.

Lemma element_read id p rest :
  id_ok id = true -> blen p < 2 ^ 56 - 1 -> parse_element (element id p ++ rest) = Some (id, p, rest).
Proof.
  intros Hi Hp. unfold element. rewrite <- !app_assoc. apply element_read_with; [|done].
  intros r. by apply size_bytes_read.
Qed.

Definition elements (l : list (N * bytes)) : bytes := concat (map (fun e => element (fst e) (snd e)) l).

Lemma elements_app l k : elements (l ++ k) = elements l ++ elements k.
Proof. unfold elements. by rewrite map_app, concat_app. Qed.

Lemma blen_element id p : blen p <= blen (element id p).
Proof. unfold element. blens. Qed.

Lemma blen_element_in e l : e ∈ l -> blen (snd e) <= blen (elements l).
Proof.
  induction 1 as [e l|e x l _ IH]; unfold elements; cbn [map concat]; rewrite blen_app.
  - pose proof (blen_element (fst e) (snd e)). lia.
  - unfold elements in IH. lia.
Qed.

Lemma size_bytes_nonempty n : size_bytes n <> [].
Proof.
  unfold size_bytes, size_loop. repeat case_match; try done.
  all: intros He%(f_equal (@length N)); unfold bdrop in He; rewrite length_drop, length_be_bytes in He; cbn in He; lia.
Qed.

(** Any amount of fuel up to the length of the input is enough. *)
Lemma parse_loop_read l fuel :
  Forall (fun e => id_ok (fst e) = true /\ blen (snd e) < 2 ^ 56 - 1) l ->
  (length (elements l) <= fuel)%nat -> parse_loop fuel (elements l) = Some l.
Proof.
  intros Hl. revert fuel. induction Hl as [|[id p] l [Hi Hp] Hl IH]; intros fuel Hf; [by destruct fuel|].
  unfold elements in *. cbn [map concat fst snd] in *.
  assert (Hn : (1 <= length (element id p))%nat).
  { unfold element. rewrite !length_app. pose proof (size_bytes_nonempty (blen p)) as Hs.
    destruct (size_bytes (blen p)); [done|]. cbn. lia. }
  rewrite length_app in Hf. destruct fuel as [|fuel]; [lia|].
  destruct (element id p ++ concat (map (fun e => element (fst e) (snd e)) l)) as [|b bs] eqn:He.
  { apply app_nil in He as [He _]. rewrite He in Hn. cbn in Hn. lia. }
  cbn [parse_loop]. rewrite <- He, element_read by done. rewrite IH by lia. done.
Qed.

Lemma elements_read l :
  Forall (fun e => id_ok (fst e) = true) l -> blen (elements l) < 2 ^ 56 - 1 -> parse_elements (elements l) = Some l.
Proof.
  intros Hl Hb. apply parse_loop_read; [|done]. rewrite Forall_forall in *. intros e He.
  pose proof (blen_element_in e l He). split; [by apply Hl|lia].
Qed.

(** [uint] is the element of some bytes with the value. *)
Definition uint_bytes (value : N) : bytes :=
  let b := be_bytes 8 value in bdrop (N.min (blen (take_while (N.eqb 0) b)) 7) b.

Lemma uint_element id v : uint id v = element id (uint_bytes v).
Proof. done. Qed.

Lemma uint_read v : v < 2 ^ 64 -> from_be (uint_bytes v) = v.
Proof.
  intros Hv. unfold uint_bytes, bdrop. rewrite from_be_drop_zeros; [by apply from_be_bytes|].
  unfold blen. lia.
Qed.

Lemma blen_uint_bytes v : blen (uint_bytes v) <= 8.
Proof. unfold uint_bytes. rewrite blen_bdrop, blen_be_bytes. lia. Qed.

(** ** What a player gets from the blocks *)

Definition block_element (b : Block) (relative : N) : N * bytes :=
  match bk_duration b with
  | None => (0xA3, block_payload relative (bk_key b) (bk_data b))
  | Some duration =>
      (0xA0, elements ([(0xA1, block_payload relative false (bk_data b)); (0x9B, uint_bytes duration)]
        ++ match bk_reference b with Some r => [(0xFB, negative_bytes r)] | None => [] end))
  end.

Lemma block_encode_element b relative : block_encode b relative = elements [block_element b relative].
Proof.
  unfold block_encode, block_element, elements. destruct (bk_duration b); cbn [map concat fst snd]; [|by rewrite app_nil_r].
  destruct (bk_reference b); cbn [map concat fst snd app]; by rewrite ?app_nil_r.
Qed.

(** Block [b] at time [t]. *)
Definition seen (t : N) (b : Block) : ReadFrame :=
  {| rf_time := t;
     rf_key := match bk_duration b with None => bk_key b | Some _ => negb (bool_decide (is_Some (bk_reference b))) end;
     rf_data := bk_data b; rf_duration := bk_duration b |}.

Definition block_ok (b : Block) : Prop := forall d, bk_duration b = Some d -> d < 2 ^ 64.

Lemma block_payload_read relative key data :
  relative <= MAX_RELATIVE -> read_block (block_payload relative key data) = Some (relative, key, data).
Proof.
  intros Hr. unfold MAX_RELATIVE in Hr. unfold block_payload, relative16.
  destruct (N.leb_spec relative 32767); [|lia].
  pose proof (from_be_bytes 2 relative) as Hb. rewrite !be_bytes_S in *. change (be_bytes 0 relative) with (@nil N) in *.
  unfold read_block. cbn [app]. rewrite !from_be_cons in Hb. change (from_be []) with 0 in Hb.
  assert (Hl : relative < 256 ^ N.of_nat 2) by (change (256 ^ N.of_nat 2) with 65536; lia). specialize (Hb Hl).
  rewrite blen_cons, !blen_empty in Hb. change (256 ^ (1 + 0)) with 256 in Hb. change (256 ^ 0) with 1 in Hb.
  match goal with |- Some (?x, _, _) = _ => replace x with relative by lia end. by destruct key.
Qed.

Lemma block_read t ts b :
  t <= ts <= t + MAX_RELATIVE -> block_ok b -> blen (snd (block_element b (ts - t))) < 2 ^ 56 - 1 ->
  read_child t (block_element b (ts - t)) = Some (seen ts b).
Proof.
  intros Ht Hb Hs. unfold read_child, block_element, seen in *. unfold block_ok in Hb.
  destruct (bk_duration b) as [d|]; cbn [fst snd] in *.
  - change (0xA0 =? 0xA3) with false. change (0xA0 =? 0xA0) with true. cbv match.
    rewrite elements_read; [|destruct (bk_reference b); repeat constructor|done].
    cbn [app]. cbv match. rewrite block_payload_read by lia.
    rewrite uint_read by auto. f_equal. f_equal; [lia|]. by destruct (bk_reference b).
  - change (0xA3 =? 0xA3) with true. cbv match. rewrite block_payload_read by lia. f_equal. f_equal. lia.
Qed.

(** ** Clusters *)

(** A cluster: its time and its blocks with their own. *)
Definition Group : Type := N * list (N * Block).

Definition group_blocks (g : Group) : list (N * bytes) :=
  map (fun tb => block_element (snd tb) (fst tb - fst g)) (snd g).
Definition cluster_element (g : Group) : N * bytes :=
  (CLUSTER, elements ((0xE7, uint_bytes (fst g)) :: group_blocks g)).
Definition cluster_of (g : Group) : ClusterBody :=
  {| cl_timestamp := fst g; cl_body := elements (group_blocks g) |}.

Definition group_ok (g : Group) : Prop :=
  fst g < 2 ^ 64 /\ Forall (fun tb => fst g <= fst tb <= fst g + MAX_RELATIVE /\ block_ok (snd tb)) (snd g).
Definition group_seen (g : Group) : list ReadFrame := map (fun tb => seen (fst tb) (snd tb)) (snd g).

Lemma block_ids b relative : id_ok (fst (block_element b relative)) = true.
Proof. unfold block_element. by destruct (bk_duration b). Qed.

Lemma cluster_read g :
  group_ok g -> blen (snd (cluster_element g)) < 2 ^ 56 - 1 ->
  read_cluster (snd (cluster_element g)) = Some (group_seen g).
Proof.
  destruct g as [t bs]. intros [Ht Hbs] Hs. unfold read_cluster, cluster_element, group_seen in *.
  cbn [fst snd] in *. rewrite elements_read; [|constructor; [done|]|done].
  2: { unfold group_blocks. apply Forall_fmap, Forall_true. intros tb. apply block_ids. }
  cbv match. rewrite uint_read by done.
  assert (Hb : Forall (fun e => blen (snd e) < 2 ^ 56 - 1) (group_blocks (t, bs))).
  { apply Forall_forall. intros e He. pose proof (blen_element_in e _ He).
    unfold elements in *. cbn [map concat] in Hs. rewrite blen_app in Hs. lia. }
  clear Hs Ht. unfold group_blocks in *. cbn [fst snd] in *. apply mapM_Some.
  induction Hbs as [|[ts b] bs [Hts Hbk] _ IH]; [constructor|]. cbn [map] in *.
  apply Forall_cons in Hb as [Hb Hl]. constructor; [|by apply IH]. by apply block_read.
Qed.

(** ** The file as a list of elements *)

Definition seek_to (id position : N) : N * bytes :=
  (SEEK, elements [(SEEK_ID, id_bytes id); (SEEK_POSITION, be_bytes 8 position)]).

Definition INFO_START : bytes :=
  uint 0x2AD7B1 1000000 ++ text_element 0x4D80 (txt "rdpilot") ++ text_element 0x5741 (txt "rdpilot").

(** The places that [write_header] leaves, as numbers. *)
Definition INFO_POS : N :=
  blen (element SEEK_HEAD (elements [seek_to INFO 0; seek_to TRACKS 0; seek_to CUES 0])).
Definition TRACKS_POS : N := INFO_POS + blen (element INFO (INFO_START ++ element 0x4489 (be_bytes 8 0))).

(** The Segment's first elements; [cues] and [duration] are eight bytes. *)
Definition head_elements (cues duration : bytes) (track : bytes) : list (N * bytes) :=
  [(SEEK_HEAD, elements [seek_to INFO INFO_POS; seek_to TRACKS TRACKS_POS;
      (SEEK, elements [(SEEK_ID, id_bytes CUES); (SEEK_POSITION, cues)])]);
   (INFO, INFO_START ++ element 0x4489 duration); (TRACKS, track)].

Definition zeros : bytes := be_bytes 8 0.
Definition file_of (size cues duration body : bytes) : bytes :=
  ebml_header ++ id_bytes SEGMENT ++ size ++ elements (head_elements cues duration body).

(** Where the three patched fields are. *)
Definition SIZE_AT : N := blen (ebml_header ++ id_bytes SEGMENT).
Definition DATA_START : N := SIZE_AT + 8.
Definition CUES_AT : N := DATA_START + INFO_POS - 8.
Definition DURATION_AT : N := DATA_START + TRACKS_POS - 8.

Definition track_body (width height : N) (codec_private : bytes) : bytes :=
  element 0xAE
    (uint 0xD7 1 ++ uint 0x73C5 1 ++ uint 0x83 1 ++ uint 0x9C 0 ++ text_element 0x86 (txt "V_AV1")
     ++ element 0x63A2 codec_private
     ++ element 0xE0 (uint 0xB0 width ++ uint 0xBA height
          ++ element 0x55B0 (uint 0x55B1 1 ++ uint 0x55B9 1 ++ uint 0x55BA 1 ++ uint 0x55BB 1))).

Lemma put_ok bs w : sw_ok w = [] -> put bs w = Some (with_file (sw_file w ++ bs) [] (sw_written w + blen bs) w).
Proof. unfold put. by intros ->. Qed.

Definition file_start (size cues duration : bytes) : bytes :=
  ebml_header ++ id_bytes SEGMENT ++ size ++ elements (take 2 (head_elements cues duration [])).

Lemma file_of_start size cues duration track :
  file_of size cues duration track = file_start size cues duration ++ element TRACKS track.
Proof.
  unfold file_of, file_start, head_elements, elements. cbn [take map concat fst snd].
  rewrite !app_nil_r, <- !app_assoc. done.
Qed.

Lemma write_header_spec packet width height config :
  let track := track_body width height (config ++ default [] (sequence_header_obu packet)) in
  write_header packet (writer_create [] width height config) = Some
    {| sw_file := file_of (fixed_size 0) zeros zeros track; sw_ok := []; sw_width := width; sw_height := height;
       sw_codec_config := config; sw_data_start := DATA_START; sw_size_at := SIZE_AT; sw_duration_at := DURATION_AT;
       sw_cues_position_at := CUES_AT; sw_written := blen (file_of (fixed_size 0) zeros zeros track);
       sw_cluster := None; sw_held := None; sw_cues := []; sw_frames := 0; sw_last_timestamp := 0 |}.
Proof.
  intros track. rewrite file_of_start, blen_app.
  change (element TRACKS track) with (tracks width height (config ++ default [] (sequence_header_obu packet))).
  clear track. unfold write_header. cbn [sw_codec_config writer_create].
  generalize (config ++ default [] (sequence_header_obu packet)). intros private.
  cbv -[tracks]. reflexivity.
Qed.

(** ** Patches *)

Lemma patch_app at_ new a old b :
  at_ = blen a -> blen new = blen old -> patch at_ new (a ++ old ++ b) = a ++ new ++ b.
Proof.
  intros -> Hn. unfold patch. rewrite btake_app by done. rewrite Hn. f_equal. f_equal.
  rewrite app_assoc. apply bdrop_app. by rewrite blen_app.
Qed.

Definition before_cues : bytes := btake (CUES_AT - DATA_START) (bdrop DATA_START (file_start zeros zeros zeros)).
Definition before_duration : bytes :=
  btake (DURATION_AT - CUES_AT - 8) (bdrop (CUES_AT + 8) (file_start zeros zeros zeros)).

Lemma eight_bytes (l : bytes) :
  length l = 8%nat -> exists a b c d e f g h, l = [a; b; c; d; e; f; g; h].
Proof. intros Hl. do 8 (destruct l as [|? l]; [done|]). destruct l; [|done]. by repeat eexists. Qed.

Lemma file_start_split size cues duration :
  length size = 8%nat -> length cues = 8%nat -> length duration = 8%nat ->
  file_start size cues duration
  = (ebml_header ++ id_bytes SEGMENT) ++ size ++ before_cues ++ cues ++ before_duration ++ duration.
Proof.
  intros (?&?&?&?&?&?&?&?&->)%eight_bytes (?&?&?&?&?&?&?&?&->)%eight_bytes (?&?&?&?&?&?&?&?&->)%eight_bytes.
  cbv. reflexivity.
Qed.

Lemma places :
  SIZE_AT = blen (ebml_header ++ id_bytes SEGMENT) /\ CUES_AT = SIZE_AT + 8 + blen before_cues /\
  DURATION_AT = CUES_AT + 8 + blen before_duration.
Proof. vm_compute. auto. Qed.

(** The same on any three fields of a text. *)
Lemma patch_three (a b c s t u s' t' u' rest : bytes) pa pb pc :
  length s = 8%nat -> length t = 8%nat -> length u = 8%nat ->
  length s' = 8%nat -> length t' = 8%nat -> length u' = 8%nat ->
  pa = blen a /\ pb = pa + 8 + blen b /\ pc = pb + 8 + blen c ->
  patch pb t' (patch pc u' (patch pa s' ((a ++ s ++ b ++ t ++ c ++ u) ++ rest)))
  = (a ++ s' ++ b ++ t' ++ c ++ u') ++ rest.
Proof.
  intros Hs Ht Hu Hs' Ht' Hu' (Ha & Hb & Hc). unfold blen in *. rewrite <- !app_assoc.
  rewrite patch_app by (unfold blen; congruence).
  replace (a ++ s' ++ b ++ t ++ c ++ u ++ rest) with ((a ++ s' ++ b ++ t ++ c) ++ u ++ rest)
    by (rewrite <- !app_assoc; reflexivity).
  rewrite patch_app; [|unfold blen; rewrite !length_app; lia|unfold blen; congruence]. rewrite <- !app_assoc.
  replace (a ++ s' ++ b ++ t ++ c ++ u' ++ rest) with ((a ++ s' ++ b) ++ t ++ c ++ u' ++ rest)
    by (rewrite <- !app_assoc; reflexivity).
  rewrite patch_app; [|unfold blen; rewrite !length_app; lia|unfold blen; congruence].
  rewrite <- !app_assoc. reflexivity.
Qed.

Lemma patches size cues duration size' cues' duration' rest :
  length size = 8%nat -> length cues = 8%nat -> length duration = 8%nat ->
  length size' = 8%nat -> length cues' = 8%nat -> length duration' = 8%nat ->
  patch CUES_AT cues' (patch DURATION_AT duration' (patch SIZE_AT size' (file_start size cues duration ++ rest)))
  = file_start size' cues' duration' ++ rest.
Proof. intros. rewrite !file_start_split by assumption. apply patch_three; (assumption || apply places). Qed.

Lemma length_fixed_size n : length (fixed_size n) = 8%nat.
Proof. unfold fixed_size. cbn [length]. by rewrite length_drop, length_be_bytes. Qed.

(** ** Reading a whole file *)

Lemma parse_loop_step fuel bs id p rest :
  parse_element bs = Some (id, p, rest) -> parse_loop (S fuel) bs = cons (id, p) <$> parse_loop fuel rest.
Proof. intros He. destruct bs as [|b bs]; [done|]. cbn [parse_loop]. by rewrite He. Qed.

Lemma read_segment_spec children :
  Forall (fun e => id_ok (fst e) = true) children -> blen (elements children) < 2 ^ 56 - 1 ->
  read_segment (ebml_header ++ id_bytes SEGMENT ++ fixed_size (blen (elements children)) ++ elements children)
  = Some children.
Proof.
  intros Hc Hb. unfold read_segment, parse_elements.
  set (rest := id_bytes SEGMENT ++ _). assert (exists f, length (ebml_header ++ rest) = S (S f)) as [f ->].
  { exists (length (ebml_header ++ rest) - 2)%nat.
    assert (2 <= length ebml_header)%nat by (apply Nat.leb_le; vm_compute; reflexivity).
    rewrite length_app. lia. }
  unfold ebml_header. erewrite parse_loop_step; [|apply element_read; done].
  unfold rest. clear rest. rewrite <- (app_nil_r (elements children)) at 2.
  erewrite parse_loop_step;
    [|apply element_read_with with (p := elements children) (rest := []); [|done]; intros r; by apply fixed_size_read].
  replace (parse_loop f []) with (Some (@nil (N * bytes))) by (by destruct f).
  cbn [fmap option_fmap option_map]. change ((EBML =? EBML) && (SEGMENT =? SEGMENT)) with true. cbv match.
  by apply elements_read.
Qed.

Lemma filter_none {A} (P : A -> Prop) `{forall x, Decision (P x)} l :
  Forall (fun x => ~ P x) l -> filter P l = [].
Proof. induction 1 as [|x l Hx _ IH]; [done|]. by rewrite filter_cons_False. Qed.

Lemma clusters_read before gs after :
  Forall (fun e => fst e <> CLUSTER) before -> Forall (fun e => fst e <> CLUSTER) after ->
  Forall group_ok gs -> blen (elements (map cluster_element gs)) < 2 ^ 56 - 1 ->
  mapM (fun e => read_cluster (snd e)) (filter (fun e => fst e = CLUSTER) (before ++ map cluster_element gs ++ after))
  = Some (map group_seen gs).
Proof.
  intros Hb Ha Hg Hs. rewrite !filter_app.
  rewrite (filter_none _ before), (filter_none _ after) by done.
  cbn [app]. rewrite app_nil_r.
  assert (filter (fun e : N * bytes => fst e = CLUSTER) (map cluster_element gs) = map cluster_element gs) as ->.
  { clear. induction gs as [|g gs IH]; [done|]. cbn [map]. by rewrite filter_cons_True, IH. }
  apply mapM_Some, Forall2_fmap_l, Forall2_fmap_r. apply Forall_Forall2_diag.
  apply Forall_forall. intros g Hin. cbn. apply cluster_read; [by eapply Forall_forall in Hg|].
  assert (Hi : cluster_element g ∈ map cluster_element gs) by by apply list_elem_of_fmap_2.
  pose proof (blen_element_in _ _ Hi). lia.
Qed.

(** ** The writer *)

#[local] Opaque SIZE_AT DATA_START CUES_AT DURATION_AT file_start zeros fixed_size.

Definition emitted (gs : list Group) (cur : option Group) : list ReadFrame :=
  concat (map group_seen (gs ++ option_list cur)).

Definition first_cluster_at (track : bytes) : N :=
  blen (file_start (fixed_size 0) zeros zeros ++ element TRACKS track) - DATA_START.

(** The writer after clusters [gs] went to the file and [cur] is open; no
    block is later than [last]. *)
Record Writing (w : SegmentWriter) (track : bytes) (gs : list Group) (cur : option Group) (last : N) : Prop := {
  wr_file : sw_file w = (file_start (fixed_size 0) zeros zeros ++ element TRACKS track)
                        ++ elements (map cluster_element gs);
  wr_written : sw_written w = blen (sw_file w);
  wr_ok : sw_ok w = [];
  wr_data_start : sw_data_start w = DATA_START;
  wr_size_at : sw_size_at w = SIZE_AT;
  wr_duration_at : sw_duration_at w = DURATION_AT;
  wr_cues_at : sw_cues_position_at w = CUES_AT;
  wr_cluster : sw_cluster w = cluster_of <$> cur;
  wr_cues : sw_cues w = match gs with [] => [] | g :: _ => [(fst g, first_cluster_at track)] end;
  wr_groups : Forall group_ok (gs ++ option_list cur);
  wr_last : forall g, cur = Some g -> fst g <= last }.

Lemma flush_writing w track gs cur last :
  Writing w track gs cur last ->
  exists w', flush_cluster w = Some w' /\ Writing w' track (gs ++ option_list cur) None last /\
    sw_held w' = sw_held w /\ sw_frames w' = sw_frames w /\ sw_last_timestamp w' = sw_last_timestamp w.
Proof.
  intros [Hf Hw Hk Hp1 Hp2 Hp3 Hp4 Hc Hq Hg Hl]. unfold flush_cluster. rewrite Hc. destruct cur as [g|]; cbn [fmap option_fmap option_map].
  2: { exists w. cbn [option_list] in *. rewrite app_nil_r in *. split; [reflexivity|]. split; [|auto].
       constructor; cbn [option_list]; rewrite ?app_nil_r; assumption || discriminate. }
  rewrite put_ok by done. eexists. split; [reflexivity|].
  split; [|auto]. cbn [option_list] in *.
  assert (Hbytes : element CLUSTER (uint 0xE7 (cl_timestamp (cluster_of g)) ++ cl_body (cluster_of g))
                   = elements (map cluster_element [g])).
  { unfold elements at 1. cbn [map concat]. by rewrite app_nil_r. }
  rewrite Hbytes. split; cbn [sw_file sw_written sw_ok sw_data_start sw_size_at sw_duration_at sw_cues_position_at
    sw_cluster sw_cues with_file with_cluster]; try assumption; try reflexivity.
  - rewrite Hf, <- app_assoc, <- elements_app, <- map_app. done.
  - by rewrite Hw, blen_app.
  - rewrite Hq. destruct gs as [|g' gs]; [|done]. unfold first_cluster_at.
    rewrite Hw, Hf, Hp1. cbn [map app]. unfold elements at 1. cbn [map concat]. by rewrite app_nil_r.
  - by rewrite app_nil_r.
  - discriminate.
Qed.

Lemma emit_writing w track gs cur last ts b :
  Writing w track gs cur last -> last <= ts -> ts < 2 ^ 64 -> block_ok b ->
  exists w' gs' cur', emit_block ts b w = Some w' /\ Writing w' track gs' cur' ts /\
    emitted gs' cur' = emitted gs cur ++ [seen ts b] /\
    sw_held w' = sw_held w /\ sw_frames w' = sw_frames w /\ sw_last_timestamp w' = sw_last_timestamp w.
Proof.
  intros HW Hts Ht Hb. unfold emit_block. pose proof (wr_cluster _ _ _ _ _ HW) as Hc. rewrite Hc.
  destruct (match cluster_of <$> cur with Some c => ts - cl_timestamp c <=? MAX_RELATIVE | None => false end) eqn:Hfit.
  - destruct cur as [[t bs]|]; [|done]. rewrite Hc. cbn [fmap option_fmap option_map cluster_of fst snd cl_timestamp cl_body] in *.
    apply N.leb_le in Hfit.
    exists (with_cluster (Some (cluster_of (t, bs ++ [(ts, b)]))) (sw_cues w) w), gs, (Some (t, bs ++ [(ts, b)])).
    split; [|split; [|split; [|auto]]].
    + unfold cluster_of, group_blocks. cbn [fst snd]. rewrite map_app, elements_app, block_encode_element. done.
    + destruct HW as [Hf Hw Hk Hp1 Hp2 Hp3 Hp4 _ Hq Hg Hl]. constructor; try assumption; try reflexivity.
      * apply Forall_app in Hg as [Hg [[Hg1 Hg2] _]%Forall_cons]. apply Forall_app. split; [done|].
        cbn [option_list] in *. constructor; [|done]. split; [done|]. cbn [fst snd] in *. apply Forall_app. split; [done|].
        constructor; [|done]. cbn [fst snd]. specialize (Hl _ eq_refl). cbn in Hl. split; [lia|done].
      * intros g [= <-]. specialize (Hl _ eq_refl). cbn in *. lia.
    + unfold emitted. rewrite !map_app, !concat_app, <- app_assoc. f_equal. cbn.
      unfold group_seen. cbn [snd]. rewrite map_app, !app_nil_r. reflexivity.
  - destruct (flush_writing w track gs cur last HW) as (w1 & -> & HW1 & Hh & Hfr & Hla).
    cbn [sw_cluster with_cluster cl_timestamp cl_body app].
    exists (with_cluster (Some (cluster_of (ts, [(ts, b)]))) (sw_cues w1) (with_cluster (Some (cluster_of (ts, []))) (sw_cues w1) w1)),
      (gs ++ option_list cur), (Some (ts, [(ts, b)])).
    split; [|split; [|split; [|auto]]].
    + unfold cluster_of, group_blocks. cbn [fst snd map]. by rewrite block_encode_element.
    + destruct HW1 as [Hf Hw Hk Hp1 Hp2 Hp3 Hp4 _ Hq Hg Hl]. rewrite app_nil_r in Hg. constructor; try assumption; try reflexivity.
      * apply Forall_app. split; [done|]. cbn [option_list]. constructor; [|done]. split; [done|]. cbn [fst snd].
        constructor; [|done]. cbn [fst snd]. split; [lia|done].
      * intros g [= <-]. cbn. lia.
    + unfold emitted. rewrite (map_app _ (gs ++ _)), concat_app. reflexivity.
Qed.

(** ** A finished segment *)

Definition children_of (cues duration track : bytes) (gs : list Group) (points : bytes) : list (N * bytes) :=
  head_elements cues duration track ++ map cluster_element gs ++ [(CUES, points)].

Lemma file_elements size cues duration track gs points :
  file_start size cues duration ++ element TRACKS track ++ elements (map cluster_element gs) ++ element CUES points
  = ebml_header ++ id_bytes SEGMENT ++ size ++ elements (children_of cues duration track gs points).
Proof.
  unfold children_of. rewrite !elements_app. Transparent file_start. unfold file_start. Opaque file_start.
  rewrite <- !app_assoc. do 3 f_equal. unfold elements, head_elements. cbn [take map concat fst snd].
  rewrite !app_nil_r, <- !app_assoc. done.
Qed.

Lemma blen_file_start size cues duration :
  length size = 8%nat -> length cues = 8%nat -> length duration = 8%nat ->
  blen (file_start size cues duration) = blen (file_start (fixed_size 0) zeros zeros).
Proof.
  intros Hs Hc Hd. rewrite !file_start_split by (done || apply length_fixed_size || apply length_be_bytes).
  unfold blen. rewrite !length_app, Hs, Hc, Hd, length_fixed_size. change (length zeros) with 8%nat. done.
Qed.

Lemma children_ids cues duration track gs points :
  Forall (fun e => id_ok (fst e) = true) (children_of cues duration track gs points).
Proof.
  unfold children_of. apply Forall_app. split; [repeat constructor|]. apply Forall_app. split; [|repeat constructor].
  apply Forall_fmap, Forall_true. done.
Qed.

(** The bytes between the size and the end are the children. *)
Lemma children_length size cues duration track gs points :
  length size = 8%nat ->
  blen (ebml_header ++ id_bytes SEGMENT ++ size ++ elements (children_of cues duration track gs points))
  = DATA_START + blen (elements (children_of cues duration track gs points)).
Proof.
  intros Hs. destruct places as (Hp & _). Transparent DATA_START. unfold DATA_START. Opaque DATA_START.
  rewrite Hp, !blen_app. unfold blen at 3. rewrite Hs. lia.
Qed.

Definition finished_file (cues duration track : bytes) (gs : list Group) (points : bytes) : bytes :=
  ebml_header ++ id_bytes SEGMENT ++ fixed_size (blen (elements (children_of cues duration track gs points)))
  ++ elements (children_of cues duration track gs points).

Lemma finished_file_read cues duration track gs points :
  Forall group_ok gs -> blen (finished_file cues duration track gs points) < 2 ^ 56 - 1 ->
  read_segment (finished_file cues duration track gs points) = Some (children_of cues duration track gs points) /\
  read_frames (finished_file cues duration track gs points) = Some (concat (map group_seen gs)).
Proof.
  intros Hg Hs. unfold finished_file in Hs. rewrite children_length in Hs by apply length_fixed_size.
  assert (Hr : read_segment (finished_file cues duration track gs points) = Some (children_of cues duration track gs points)).
  { apply read_segment_spec; [apply children_ids|lia]. }
  split; [done|]. unfold read_frames. rewrite Hr. unfold children_of in *. rewrite clusters_read; [reflexivity|..|assumption|].
  - repeat constructor; cbn [fst]; by vm_compute.
  - repeat constructor; cbn [fst]; by vm_compute.
  - rewrite !elements_app, !blen_app in Hs. lia.
Qed.

Lemma only_one_child id cues duration track gs points before e after :
  head_elements cues duration track = before ++ e :: after -> fst e = id -> id <> CLUSTER -> id <> CUES ->
  Forall (fun e => fst e <> id) before -> Forall (fun e => fst e <> id) after ->
  filter (fun e => fst e = id) (children_of cues duration track gs points) = [e].
Proof.
  intros Hh He Hc Hq Hb Ha. unfold children_of. rewrite Hh, !filter_app, filter_cons_True by done.
  rewrite (filter_none _ before), (filter_none _ after) by done.
  rewrite (filter_none _ (map _ _)), (filter_none _ [_]); [done|repeat constructor; by apply not_eq_sym|].
  apply Forall_fmap, Forall_true. intros g. by apply not_eq_sym.
Qed.

Lemma only_cues cues duration track gs points :
  filter (fun e => fst e = CUES) (children_of cues duration track gs points) = [(CUES, points)].
Proof.
  unfold children_of. rewrite !filter_app, (filter_none _ (head_elements _ _ _)), (filter_none _ (map _ _)).
  - done.
  - by apply Forall_fmap, Forall_true.
  - by repeat constructor.
Qed.

Lemma be8_read n : n < 2 ^ 64 -> from_be (be_bytes 8 n) = n.
Proof. intros Hn. apply from_be_bytes. by change (256 ^ N.of_nat 8) with (2 ^ 64). Qed.

Lemma blen_size_bytes n : blen (size_bytes n) <= 8.
Proof.
  assert (Hd : forall k m, blen (bdrop k (be_bytes 8 m)) <= 8) by (intros; rewrite blen_bdrop, blen_be_bytes; apply N.le_sub_l).
  unfold size_bytes, size_loop. repeat match goal with |- context [n <? ?x] => destruct (n <? x); [apply Hd|] end.
  unfold blen. by rewrite length_fixed_size.
Qed.

Lemma blen_elements_small l :
  blen (elements l) <= foldr (fun e n => blen (id_bytes (fst e)) + 8 + blen (snd e) + n) 0 l.
Proof.
  assert (He : forall e, blen (element (fst e) (snd e)) <= blen (id_bytes (fst e)) + 8 + blen (snd e)).
  { intros e. unfold element. rewrite !blen_app. pose proof (blen_size_bytes (blen (snd e))). lia. }
  induction l as [|e l IH]; [done|]. unfold elements in *. cbn [map concat foldr].
  rewrite blen_app. specialize (He e). lia.
Qed.

Lemma seek_read id position :
  from_be (id_bytes id) = id -> blen (id_bytes id) <= 4 -> position < 2 ^ 64 ->
  read_seek (SEEK, elements [(SEEK_ID, id_bytes id); (SEEK_POSITION, be_bytes 8 position)]) = Some (id, position).
Proof.
  intros Hi Hl Hp. unfold read_seek. cbn [snd]. rewrite elements_read; [|by repeat constructor|].
  - unfold SEEK_ID, SEEK_POSITION. cbv match. by rewrite Hi, be8_read.
  - pose proof (blen_elements_small [(SEEK_ID, id_bytes id); (SEEK_POSITION, be_bytes 8 position)]) as Hb.
    cbn [foldr fst snd] in Hb. rewrite blen_be_bytes in Hb. change (blen (id_bytes SEEK_ID)) with 2 in Hb.
    change (blen (id_bytes SEEK_POSITION)) with 2 in Hb. lia.
Qed.

Definition cue_places (position : N) : bytes := elements [(0xF7, uint_bytes 1); (0xF1, uint_bytes position)].
Definition cue_body (t position : N) : bytes := elements [(0xB3, uint_bytes t); (0xB7, cue_places position)].

Lemma cue_point_elements t position : concat (map cue_point [(t, position)]) = elements [(0xBB, cue_body t position)].
Proof.
  unfold elements, cue_body, cue_places, elements. cbn [map concat fst snd]. rewrite !app_nil_r. reflexivity.
Qed.

Lemma blen_cue_places position : blen (cue_places position) <= 40.
Proof.
  pose proof (blen_elements_small [(0xF7, uint_bytes 1); (0xF1, uint_bytes position)]) as Hb. unfold cue_places.
  cbn [foldr fst snd] in Hb. pose proof (blen_uint_bytes position). pose proof (blen_uint_bytes 1).
  change (blen (id_bytes 0xF7)) with 1 in Hb. change (blen (id_bytes 0xF1)) with 1 in Hb. lia.
Qed.

Lemma blen_cue_body t position : blen (cue_body t position) <= 80.
Proof.
  pose proof (blen_elements_small [(0xB3, uint_bytes t); (0xB7, cue_places position)]) as Hb. unfold cue_body.
  cbn [foldr fst snd] in Hb. pose proof (blen_uint_bytes t). pose proof (blen_cue_places position).
  change (blen (id_bytes 0xB3)) with 1 in Hb. change (blen (id_bytes 0xB7)) with 1 in Hb. lia.
Qed.

Lemma cue_read t position : position < 2 ^ 64 -> read_cue (0xBB, cue_body t position) = Some (CLUSTER, position).
Proof.
  intros Hp. unfold read_cue, cue_body. cbn [snd]. pose proof (blen_cue_body t position). pose proof (blen_cue_places position).
  rewrite elements_read; [|by repeat constructor|unfold cue_body in *; lia]. cbv match.
  unfold cue_places in *. rewrite elements_read; [|by repeat constructor|lia]. cbv match. by rewrite uint_read.
Qed.

Lemma index_read cp duration track gs t q :
  cp < 2 ^ 64 -> q < 2 ^ 64 ->
  read_index (children_of (be_bytes 8 cp) duration track gs (concat (map cue_point [(t, q)])))
  = Some [(INFO, INFO_POS); (TRACKS, TRACKS_POS); (CUES, cp); (CLUSTER, q)].
Proof.
  intros Hc Hq. unfold read_index.
  rewrite (only_one_child SEEK_HEAD _ _ _ _ _ [] _ _ eq_refl); [|done..|by constructor|by repeat constructor].
  rewrite only_cues, cue_point_elements.
  rewrite (elements_read [(0xBB, _)]); [|by repeat constructor|].
  2: { pose proof (blen_elements_small [(0xBB, cue_body t q)]) as Hb. cbn [foldr fst snd] in Hb.
       pose proof (blen_cue_body t q). change (blen (id_bytes 0xBB)) with 1 in Hb. lia. }
  rewrite elements_read; [|by repeat constructor|].
  2: { unfold seek_to. pose proof (eight_bytes _ (length_be_bytes 8 cp)) as (?&?&?&?&?&?&?&?&->). by vm_compute. }
  cbn [mapM]. unfold seek_to. rewrite !seek_read by (done || by vm_compute).
  rewrite cue_read by done. reflexivity.
Qed.

(** At [position] of the Segment's data stands an element [id]. *)
Definition element_at (children : list (N * bytes)) (e : N * N) : Prop :=
  exists payload rest, parse_element (bdrop (snd e) (elements children)) = Some (fst e, payload, rest).

Lemma element_at_split before e after :
  Forall (fun e => id_ok (fst e) = true) (before ++ e :: after) -> blen (elements (before ++ e :: after)) < 2 ^ 56 - 1 ->
  element_at (before ++ e :: after) (fst e, blen (elements before)).
Proof.
  intros Hi Hs. exists (snd e), (elements after). cbn [fst snd]. rewrite elements_app in *.
  rewrite bdrop_app by done. unfold elements at 1. cbn [map concat]. fold (elements after).
  unfold elements at 2 in Hs. cbn [map concat] in Hs. rewrite !blen_app in Hs.
  apply element_read; [|pose proof (blen_element (fst e) (snd e)); lia].
  apply Forall_app in Hi as [_ [Hi _]%Forall_cons]. done.
Qed.

(** A file that a player reads, and can seek in. *)
Definition playable (file : bytes) (frames : list ReadFrame) : Prop :=
  read_frames file = Some frames /\
  exists children cues_at first,
    read_segment file = Some children /\
    read_index children = Some [(INFO, INFO_POS); (TRACKS, TRACKS_POS); (CUES, cues_at); (CLUSTER, first)] /\
    Forall (element_at children) [(INFO, INFO_POS); (TRACKS, TRACKS_POS); (CUES, cues_at); (CLUSTER, first)].

Lemma blen_head cues duration track :
  length cues = 8%nat -> length duration = 8%nat ->
  blen (elements (head_elements cues duration track)) = first_cluster_at track.
Proof.
  intros Hc Hd. unfold first_cluster_at. rewrite blen_app.
  rewrite <- (blen_file_start (fixed_size 0) cues duration) by (done || apply length_fixed_size).
  Transparent file_start DATA_START. unfold file_start, DATA_START. Opaque file_start DATA_START.
  destruct places as (-> & _). rewrite !blen_app.
  assert (blen (fixed_size 0) = 8) as -> by (unfold blen; by rewrite length_fixed_size).
  unfold elements, head_elements. cbn [take map concat fst snd]. rewrite !app_nil_r, !blen_app. lia.
Qed.

Lemma playable_file duration track t bs gs :
  let gs := (t, bs) :: gs in
  let cp := first_cluster_at track + blen (elements (map cluster_element gs)) in
  let file := finished_file (be_bytes 8 cp) (be_bytes 8 duration) track gs
                (concat (map cue_point [(t, first_cluster_at track)])) in
  Forall group_ok gs -> blen file < 2 ^ 56 - 1 -> playable file (concat (map group_seen gs)).
Proof.
  intros gs' cp file Hg Hs. destruct (finished_file_read _ _ _ _ _ Hg Hs) as [Hr Hf]. split; [done|].
  set (children := children_of _ _ _ _ _) in Hr.
  unfold file, finished_file in Hs. rewrite children_length in Hs by apply length_fixed_size. fold children in Hs.
  assert (Hh : blen (elements (head_elements (be_bytes 8 cp) (be_bytes 8 duration) track)) = first_cluster_at track)
    by (apply blen_head; apply length_be_bytes).
  assert (Hsize : cp <= blen (elements children)).
  { unfold children, children_of. rewrite !elements_app, !blen_app, Hh. unfold cp. lia. }
  exists children, cp, (first_cluster_at track). split; [done|]. split.
  - apply index_read; unfold cp in *; lia.
  - pose proof (children_ids (be_bytes 8 cp) (be_bytes 8 duration) track gs'
      (concat (map cue_point [(t, first_cluster_at track)]))) as Hi. fold children in Hi.
    assert (Hat : forall before e after position, children = before ++ e :: after -> blen (elements before) = position ->
              element_at children (fst e, position)).
    { intros before e after position He <-. rewrite He in *. apply element_at_split; [done|lia]. }
    pose proof (eight_bytes _ (length_be_bytes 8 cp)) as (?&?&?&?&?&?&?&?&Hcp).
    pose proof (eight_bytes _ (length_be_bytes 8 duration)) as (?&?&?&?&?&?&?&?&Hdu).
    repeat apply Forall_cons_2; [..|constructor].
    + eapply (Hat [_] (INFO, _)); [reflexivity|]. rewrite Hcp. by vm_compute.
    + eapply (Hat [_; _] (TRACKS, _)); [reflexivity|]. rewrite Hcp, Hdu. by vm_compute.
    + eapply (Hat (head_elements _ _ track ++ map cluster_element gs') (CUES, _) []).
      * unfold children, children_of. by rewrite <- app_assoc.
      * rewrite elements_app, blen_app, Hh. done.
    + eapply (Hat (head_elements _ _ track) (cluster_element (t, bs))); [|exact Hh].
      unfold children, children_of. reflexivity.
Qed.

(** ** From the first frame to the finished file *)

(** What the recorder gives: a time, the data, the key flag. *)
Definition Input : Type := N * bytes * bool.

Fixpoint write_frames (frames : list Input) (w : SegmentWriter) : option SegmentWriter :=
  match frames with
  | [] => Some w
  | (t, data, key) :: frames =>
      match write_frame t data key w with Some w => write_frames frames w | None => None end
  end.

(** What a player is to show: times never go back, and the last frame stays
    until [end_], at least for a millisecond. *)
Fixpoint played (end_ last : N) (frames : list Input) : list ReadFrame :=
  match frames with
  | [] => []
  | (t, data, key) :: frames =>
      let t := N.max t last in
      {| rf_time := t; rf_key := key; rf_data := data;
         rf_duration := match frames with [] => Some (N.max (end_ - t) 1) | _ => None end |}
      :: played end_ t frames
  end.

(** [frames] frames were written, the last is held. *)
Record Ready (w : SegmentWriter) (track : bytes) (shown : list ReadFrame) (h : HeldFrame) : Prop := {
  rd_writing : exists gs cur last, Writing w track gs cur last /\ last <= hf_timestamp h /\ emitted gs cur = shown;
  rd_held : sw_held w = Some h;
  rd_last : sw_last_timestamp w = hf_timestamp h;
  rd_bound : hf_timestamp h < 2 ^ 64 }.

Lemma writing_with_held w track gs cur last h frames t :
  Writing w track gs cur last -> Writing (with_held h frames t w) track gs cur last.
Proof. intros []. by constructor. Qed.

Lemma write_first t data key width height config :
  t < 2 ^ 64 ->
  exists w h, write_frame t data key (writer_create [] width height config) = Some w /\
    Ready w (track_body width height (config ++ default [] (sequence_header_obu data))) [] h /\
    hf_timestamp h = t /\ hf_key h = key /\ hf_data h = data.
Proof.
  intros Ht. unfold write_frame. cbn [sw_data_start writer_create]. change (0 =? 0) with true. cbv match.
  pose proof (write_header_spec data width height config) as Hh. cbn zeta in Hh. rewrite Hh. clear Hh.
  cbn [sw_held sw_last_timestamp sw_frames]. rewrite N.max_0_r. eexists _, _. split; [reflexivity|].
  split;
    [constructor; [|reflexivity|reflexivity|done]|split_and!; reflexivity].
  exists [], None, 0. split; [|split; [apply N.le_0_l|reflexivity]]. apply writing_with_held.
  constructor; cbn [sw_file sw_written sw_ok sw_data_start sw_size_at sw_duration_at sw_cues_position_at sw_cluster
    sw_cues map app option_list fmap option_fmap option_map]; try reflexivity.
  - constructor.
  - discriminate.
Qed.

Lemma write_next w track shown h t data key :
  Ready w track shown h -> t < 2 ^ 64 ->
  exists w' h', write_frame t data key w = Some w' /\
    Ready w' track (shown ++ [{| rf_time := hf_timestamp h; rf_key := hf_key h; rf_data := hf_data h; rf_duration := None |}]) h' /\
    hf_timestamp h' = N.max t (hf_timestamp h) /\ hf_key h' = key /\ hf_data h' = data.
Proof.
  intros [(gs & cur & last & HW & Hl & He) Hh Ht Hb] Hn. unfold write_frame. rewrite (wr_data_start _ _ _ _ _ HW).
  replace (DATA_START =? 0) with false by (by vm_compute). rewrite Hh, Ht.
  edestruct (emit_writing w track gs cur last (hf_timestamp h)) as (w' & gs' & cur' & -> & HW' & He' & Hh' & Hf' & Ht');
    [exact HW|exact Hl|exact Hb| |].
  { intros d Hd. cbn in Hd. discriminate. }
  eexists _, _. split; [reflexivity|]. split;
    [constructor; [|reflexivity|reflexivity|cbn; lia]|split_and!; reflexivity].
  exists gs', cur', (hf_timestamp h). split; [by apply writing_with_held|]. split; [cbn; lia|].
  rewrite He', He. reflexivity.
Qed.

Lemma start_length : DATA_START <= blen (file_start (fixed_size 0) zeros zeros).
Proof. by vm_compute. Qed.

(** What [sw_written] says before the Cues, and after. *)
Lemma cues_place track gs :
  blen (file_start (fixed_size 0) zeros zeros ++ element TRACKS track ++ elements (map cluster_element gs)) - DATA_START
  = first_cluster_at track + blen (elements (map cluster_element gs)).
Proof. unfold first_cluster_at. rewrite !blen_app. pose proof start_length. lia. Qed.

Lemma finished_lengths track gs points cp duration :
  let written := blen (file_start (fixed_size 0) zeros zeros ++ element TRACKS track ++ elements (map cluster_element gs))
      + blen (element CUES points) in
  written - DATA_START = blen (elements (children_of (be_bytes 8 cp) (be_bytes 8 duration) track gs points)) /\
  written = blen (finished_file (be_bytes 8 cp) (be_bytes 8 duration) track gs points).
Proof.
  cbv zeta. unfold finished_file. rewrite children_length by apply length_fixed_size.
  unfold children_of. rewrite !elements_app, !blen_app, blen_head by apply length_be_bytes.
  unfold first_cluster_at. rewrite blen_app. pose proof start_length.
  assert (blen (elements [(CUES, points)]) = blen (element CUES points)) as -> by
    (unfold elements; cbn [map concat fst snd]; by rewrite app_nil_r).
  lia.
Qed.

(** The finished file is the elements, with the sizes known now. *)
Lemma finish_ready w track shown h end_ :
  Ready w track shown h -> end_ < 2 ^ 64 ->
  exists file, finish end_ w = FinishedFile file (blen file) /\
    (blen file < 2 ^ 56 - 1 ->
     playable file (shown ++ [{| rf_time := hf_timestamp h; rf_key := hf_key h; rf_data := hf_data h;
                                 rf_duration := Some (N.max (end_ - hf_timestamp h) 1) |}])).
Proof.
  intros [(gs & cur & last & HW & Hl & He) Hh Ht Hb] Hn. unfold finish, finish_held. rewrite Hh.
  edestruct (emit_writing (with_held None (sw_frames w) (sw_last_timestamp w) w) track gs cur last (hf_timestamp h))
    as (w1 & gs1 & cur1 & -> & HW1 & He1 & _ & _ & Ht1); [by apply writing_with_held|exact Hl|exact Hb| |].
  { intros d [= <-]. lia. }
  destruct (flush_writing _ _ _ _ _ HW1) as (w2 & -> & HW2 & _ & _ & Ht2).
  rewrite (wr_data_start _ _ _ _ _ HW2). replace (DATA_START =? 0) with false by (by vm_compute).
  assert (Hne : exists t bs gs', gs1 ++ option_list cur1 = (t, bs) :: gs').
  { destruct (gs1 ++ option_list cur1) as [|[t bs] gs'] eqn:Hg; [|by eexists _, _, _].
    unfold emitted in He1. rewrite Hg in He1. cbn in He1. by destruct (concat (map group_seen (gs ++ option_list cur))). }
  destruct Hne as (t & bs & gs' & Hg).
  destruct HW2 as [Hf Hw Hk Hp1 Hp2 Hp3 Hp4 _ Hq Hgs _]. rewrite put_ok by done.
  cbn [sw_file sw_written sw_ok sw_data_start sw_size_at sw_duration_at sw_cues_position_at with_file take forallb sw_last_timestamp].
  rewrite Hp1, Hp2, Hp3, Hp4. rewrite Hq, Hw, Hf, app_nil_r in *. rewrite Hg in *. cbn [fst] in *.
  set (points := concat _). rewrite <- !app_assoc. cbn [take forallb].
  rewrite patches by (apply length_fixed_size || apply length_be_bytes).
  set (gs2 := (t, bs) :: gs') in *.
  rewrite cues_place, file_elements.
  match goal with |- context [be_bytes 8 (f64_bits ?d)] => set (duration := f64_bits d) end.
  set (cp := first_cluster_at track + _).
  destruct (finished_lengths track gs2 points cp duration) as [-> ->]. eexists. split; [reflexivity|]. intros Hs.
  match goal with |- playable _ (_ ++ [?f]) => replace (shown ++ [f]) with (concat (map group_seen gs2)) end.
  - by apply playable_file.
  - transitivity (emitted gs1 cur1); [by unfold emitted; rewrite Hg|]. rewrite He1. unfold emitted in He.
    unfold emitted. rewrite He. f_equal. f_equal. unfold seen. cbn. by destruct (hf_key h).
Qed.

Lemma write_rest frames w track shown h end_ :
  Ready w track shown h -> Forall (fun f => fst (fst f) < 2 ^ 64) frames -> end_ < 2 ^ 64 ->
  exists w' file, write_frames frames w = Some w' /\ finish end_ w' = FinishedFile file (blen file) /\
    (blen file < 2 ^ 56 - 1 ->
     playable file (shown ++ {| rf_time := hf_timestamp h; rf_key := hf_key h; rf_data := hf_data h;
                                rf_duration := match frames with [] => Some (N.max (end_ - hf_timestamp h) 1) | _ => None end |}
                    :: played end_ (hf_timestamp h) frames)).
Proof.
  revert w shown h. induction frames as [|[[t data] key] frames IH]; intros w shown h HR Hf He.
  - destruct (finish_ready w track shown h end_ HR He) as (file & Hfin & Hp). by exists w, file.
  - apply Forall_cons in Hf as [Ht Hf]. cbn [fst] in Ht.
    destruct (write_next w track shown h t data key HR Ht) as (w1 & h1 & Hw & HR1 & Ht1 & Hk1 & Hd1).
    cbn [write_frames]. rewrite Hw. destruct (IH _ _ _ HR1 Hf He) as (w2 & file & Hw2 & Hfin & Hp).
    exists w2, file. split; [done|]. split; [done|]. intros Hs. specialize (Hp Hs).
    rewrite Ht1, Hk1, Hd1, <- app_assoc in Hp. exact Hp.
Qed.

Lemma segment_spec width height config frames end_ :
  frames <> [] -> Forall (fun f => fst (fst f) < 2 ^ 64) frames -> end_ < 2 ^ 64 ->
  exists w file,
    write_frames frames (writer_create [] width height config) = Some w /\
    finish end_ w = FinishedFile file (blen file) /\
    (blen file < 2 ^ 56 - 1 -> playable file (played end_ 0 frames)).
Proof.
  intros Hne Hf He. destruct frames as [|[[t data] key] frames]; [done|].
  apply Forall_cons in Hf as [Ht Hf]. cbn [fst] in Ht.
  destruct (write_first t data key width height config Ht) as (w & h & Hw & HR & <- & <- & <-).
  destruct (write_rest frames w _ [] h end_ HR Hf He) as (w' & file & Hw' & Hfin & Hp).
  exists w', file. cbn [write_frames]. rewrite Hw. split; [done|]. split; [done|].
  cbn [played]. by rewrite N.max_0_r.
Qed.

(** ** Failing operations

    What succeeds on a file whose operations may fail is what happens on one
    whose operations do not: [forget] drops the coming answers. *)
Definition forget (w : SegmentWriter) : SegmentWriter := with_file (sw_file w) [] (sw_written w) w.

Lemma put_forget bs w w' : put bs w = Some w' -> put bs (forget w) = Some (forget w').
Proof. unfold put. destruct (next_ok (sw_ok w)) as [[] ok]; [|done]. by intros [= <-]. Qed.

Lemma write_header_forget p w w' : write_header p w = Some w' -> write_header p (forget w) = Some (forget w').
Proof.
  unfold write_header.
  repeat match goal with |- match put ?b ?x with _ => _ end = _ -> match put ?c ?y with _ => _ end = _ =>
    change (put c y) with (put b (forget x));
    let H := fresh in destruct (put b x) eqn:H; [apply put_forget in H; rewrite H; clear H|discriminate] end.
  intros H. apply (put_forget _ _ _ H).
Qed.

Lemma flush_forget w w' : flush_cluster w = Some w' -> flush_cluster (forget w) = Some (forget w').
Proof.
  unfold flush_cluster. cbn [sw_cluster forget with_file]. destruct (sw_cluster w); [|by intros [= <-]].
  intros H. apply (put_forget _ _ _ H).
Qed.

Lemma emit_forget t b w w' : emit_block t b w = Some w' -> emit_block t b (forget w) = Some (forget w').
Proof.
  unfold emit_block. cbn [sw_cluster forget with_file].
  destruct (match sw_cluster w with Some c => t - cl_timestamp c <=? MAX_RELATIVE | None => false end).
  - intros [= <-]. cbn [sw_cluster forget with_file]. by destruct (sw_cluster w).
  - fold (forget w). destruct (flush_cluster w) as [w1|] eqn:H; [|done]. apply flush_forget in H. rewrite H.
    intros [= <-]. done.
Qed.

Lemma write_frame_forget t d k w w' : write_frame t d k w = Some w' -> write_frame t d k (forget w) = Some (forget w').
Proof.
  unfold write_frame. change (sw_data_start (forget w)) with (sw_data_start w).
  assert (Hh : forall w1, (if sw_data_start w =? 0 then write_header d w else Some w) = Some w1 ->
            (if sw_data_start w =? 0 then write_header d (forget w) else Some (forget w)) = Some (forget w1)).
  { intros w1. destruct (_ =? 0); [apply write_header_forget|by intros [= <-]]. }
  destruct (if sw_data_start w =? 0 then write_header d w else Some w) as [w1|]; [|done].
  rewrite (Hh w1 eq_refl). change (sw_held (forget w1)) with (sw_held w1). destruct (sw_held w1) as [h|].
  - destruct (emit_block _ _ w1) as [w2|] eqn:He; [|done]. apply emit_forget in He. rewrite He.
    by intros [= <-].
  - by intros [= <-].
Qed.

Lemma write_frames_forget fs w w' : write_frames fs w = Some w' -> write_frames fs (forget w) = Some (forget w').
Proof.
  revert w. induction fs as [|[[t d] k] fs IH]; intros w; cbn [write_frames]; [by intros [= <-]|].
  destruct (write_frame t d k w) as [w1|] eqn:H; [|done]. apply write_frame_forget in H. rewrite H. apply IH.
Qed.

Lemma finish_forget e w f : finish e w = f -> f <> FinishedError -> finish e (forget w) = f.
Proof.
  intros <-. unfold finish.
  assert (Hh : forall w1, finish_held e w = Some w1 -> finish_held e (forget w) = Some (forget w1)).
  { unfold finish_held. change (sw_held (forget w)) with (sw_held w). intros w1.
    destruct (sw_held w); [|by intros [= <-]]. intros H. apply (emit_forget _ _ _ _ H). }
  destruct (finish_held e w) as [w1|]; [|done]. rewrite (Hh w1 eq_refl).
  destruct (flush_cluster w1) as [w2|] eqn:Hf; [|done]. apply flush_forget in Hf. rewrite Hf.
  change (sw_data_start (forget w2)) with (sw_data_start w2). destruct (sw_data_start w2 =? 0); [by destruct (fst (next_ok (sw_ok w2)))|].
  change (sw_cues (forget w2)) with (sw_cues w2).
  destruct (put _ w2) as [w3|] eqn:Hp; [|done]. apply put_forget in Hp. rewrite Hp.
  by destruct (forallb _ _).
Qed.

(** A segment that was finished, whatever else could have failed. *)
Lemma finished_segment ok width height config frames end_ w file size :
  frames <> [] -> Forall (fun f => fst (fst f) < 2 ^ 64) frames -> end_ < 2 ^ 64 ->
  write_frames frames (writer_create ok width height config) = Some w -> finish end_ w = FinishedFile file size ->
  size = blen file /\ (blen file < 2 ^ 56 - 1 -> playable file (played end_ 0 frames)).
Proof.
  intros Hne Hf He Hw Hfin. apply write_frames_forget in Hw. apply finish_forget in Hfin; [|done].
  destruct (segment_spec width height config frames end_ Hne Hf He) as (w' & file' & Hw' & Hfin' & Hp).
  change (forget (writer_create ok width height config)) with (writer_create [] width height config) in Hw.
  rewrite Hw in Hw'. injection Hw' as <-. rewrite Hfin in Hfin'. by injection Hfin' as -> ->.
Qed.

(** C34: frames written to a segment and finished give a file whose reader,
    written from the format, finds exactly those frames: times never going
    back, key flags and data as given, and the last frame shown to the end of
    the segment; its SeekHead and Cues point at the elements they name; and
    the size reported is the file's.  The writer fails only when the file
    does.  It holds below [2^56 - 1] bytes, the largest size an EBML size can
    say. *)
Theorem segment_reads_back ok width height config frames end_ :
  frames <> [] -> Forall (fun f => fst (fst f) < 2 ^ 64) frames -> end_ < 2 ^ 64 ->
  (exists w file, write_frames frames (writer_create [] width height config) = Some w /\
                  finish end_ w = FinishedFile file (blen file)) /\
  (forall w file size,
     write_frames frames (writer_create ok width height config) = Some w -> finish end_ w = FinishedFile file size ->
     size = blen file /\ (blen file < 2 ^ 56 - 1 -> playable file (played end_ 0 frames))).
Proof.
  intros Hne Hf He. split.
  - destruct (segment_spec width height config frames end_ Hne Hf He) as (w & file & H1 & H2 & _). by exists w, file.
  - intros w file size. by apply finished_segment.
Qed.

(** A key frame, a frame whose time goes back, and one in another cluster. *)
Definition demo_frames : list Input := [(5, [18; 0; 10; 1; 7], true); (3, [9], false); (40000, [8; 8], false)].

Lemma segment_reads_back_witness :
  exists w file size,
    write_frames demo_frames (writer_create [true; true] 640 480 [1; 2; 3; 4]) = Some w /\
    finish 40100 w = FinishedFile file size /\
    read_frames file = Some
      [{| rf_time := 5; rf_key := true; rf_data := [18; 0; 10; 1; 7]; rf_duration := None |};
       {| rf_time := 5; rf_key := false; rf_data := [9]; rf_duration := None |};
       {| rf_time := 40000; rf_key := false; rf_data := [8; 8]; rf_duration := Some 100 |}].
Proof.
  destruct (write_frames demo_frames (writer_create [true; true] 640 480 [1; 2; 3; 4])) as [w|] eqn:Hw; [|by vm_compute in Hw].
  destruct (finish 40100 w) as [file size| |] eqn:Hf;
    [|by vm_compute in Hw; injection Hw as <-; vm_compute in Hf..].
  destruct (segment_reads_back [true; true] 640 480 [1; 2; 3; 4] demo_frames 40100) as [_ Hp];
    [discriminate|repeat constructor|reflexivity|].
  destruct (Hp _ _ _ Hw Hf) as [Hsize Hplay]. exists w, file, size. split; [done|]. split; [done|].
  refine (proj1 (Hplay _)). rewrite <- Hsize. clear Hp Hplay Hsize.
  vm_compute in Hw. injection Hw as <-. vm_compute in Hf. by injection Hf as <- <-.
Defined.
