(* ===== verification/I420.v ===== *)
(** * RGBA to I420 ([recording/i420.rs])

    Integer BT.709 coefficients, chroma averaged over 2x2 blocks.  A [u8] is
    an [N], sums are [i32]s as [Z]: they stay far from their bounds. *)
From S2P Require Import Prelude Bytes.
Open Scope Z_scope.

Record I420 := {
  i4_width : nat; i4_height : nat; i4_y : list Z; i4_u : list Z; i4_v : list Z }.

(** [usize::div_ceil] by two. *)
Definition div_ceil2 (n : nat) : nat := (Nat.div2 n + (if Nat.odd n then 1 else 0))%nat.

Definition chroma_width (f : I420) : nat := div_ceil2 (i4_width f).

Definition clamp (v : Z) : Z := Z.max 0 (Z.min v 255).

Definition luma (r g b : Z) : Z := clamp (Z.shiftr (47 * r + 157 * g + 16 * b + 128) 8 + 16).
Definition chroma_u (r g b : Z) : Z := clamp (Z.shiftr (-26 * r - 87 * g + 112 * b + 128) 8 + 128).
Definition chroma_v (r g b : Z) : Z := clamp (Z.shiftr (112 * r - 102 * g - 10 * b + 128) 8 + 128).

(** The closure [row]. *)
Definition row (rgba : list Z) (width j : nat) : list Z :=
  let row_bytes := (width * 4)%nat in
  let start := Nat.min (j * row_bytes) (length rgba) in
  let end_ := Nat.min (start + row_bytes) (length rgba) in
  take (end_ - start) (drop start rgba).

(** [chunks_exact(4)], zipped with the row's output. *)
Fixpoint luma_row (line out : list Z) : list Z :=
  match line, out with
  | r :: g :: b :: _ :: line, _ :: out => luma r g b :: luma_row line out
  | _, _ => out
  end.

Definition y_plane (rgba : list Z) (width height : nat) : list Z :=
  concat (map (fun j => luma_row (row rgba width j) (replicate width 16)) (seq 0 height)).

(** The sums over a block: red, green, blue, pixels. *)
Definition Sums : Type := Z * Z * Z * Z.

(** One pixel of [line], for a block whose second row [exists_]. *)
Definition add_pixel (width : nat) (exists_ : bool) (line : list Z) (x : nat) (s : Sums) : Sums :=
  let '(r, g, b, n) := s in
  if (x <? width)%nat then
    match line !! (x * 4)%nat, line !! (x * 4 + 1)%nat, line !! (x * 4 + 2)%nat with
    | Some r', Some g', Some b' => (r + r', g + g', b + b', n + 1)
    | _, _, _ => if negb (bool_decide (line = [])) || exists_ then (r, g, b, n + 1) else s
    end
  else s.

Definition add_line (width : nat) (exists_ : bool) (i : nat) (s : Sums) (line : list Z) : Sums :=
  fold_left (fun s x => add_pixel width exists_ line x s) [2 * i; 2 * i + 1]%nat s.

(** The mean colour of block [i] of the [j]th pair of rows. *)
Definition block_mean (rgba : list Z) (width height j i : nat) : Z * Z * Z :=
  let exists_ := (2 * j + 1 <? height)%nat in
  let top := row rgba width (2 * j) in
  let bottom := if exists_ then row rgba width (2 * j + 1) else [] in
  let '(r, g, b, n) := fold_left (add_line width exists_ i) [top; bottom] (0, 0, 0, 0) in
  let n := Z.max n 1 in
  (Z.quot r n, Z.quot g n, Z.quot b n).

Definition chroma_plane (f : Z -> Z -> Z -> Z) (rgba : list Z) (width height : nat) : list Z :=
  concat (map (fun j => map (fun i => let '(r, g, b) := block_mean rgba width height j i in f r g b)
                 (seq 0 (div_ceil2 width))) (seq 0 (div_ceil2 height))).

Definition from_rgba (rgba : list Z) (width height : nat) : I420 :=
  {| i4_width := width; i4_height := height; i4_y := y_plane rgba width height;
     i4_u := chroma_plane chroma_u rgba width height; i4_v := chroma_plane chroma_v rgba width height |}.

(** ** Ranges *)

Definition byte_value (z : Z) : Prop := 0 <= z <= 255.

Lemma shiftr8 z : Z.shiftr z 8 = z / 256.
Proof. by rewrite Z.shiftr_div_pow2. Qed.

Ltac ranges := unfold luma, chroma_u, chroma_v, clamp, byte_value in *; rewrite ?shiftr8; Z.to_euclidean_division_equations; lia.

Lemma luma_range r g b : byte_value r -> byte_value g -> byte_value b -> 16 <= luma r g b <= 235.
Proof. intros. ranges. Qed.
Lemma chroma_u_range r g b : byte_value r -> byte_value g -> byte_value b -> 15 <= chroma_u r g b <= 240.
Proof. intros. ranges. Qed.
Lemma chroma_v_range r g b : byte_value r -> byte_value g -> byte_value b -> 16 <= chroma_v r g b <= 240.
Proof. intros. ranges. Qed.

Lemma row_bytes rgba width j : Forall byte_value rgba -> Forall byte_value (row rgba width j).
Proof. intros Hb. unfold row. by apply Forall_take, Forall_drop. Qed.

Lemma luma_row_range line out :
  Forall byte_value line -> Forall (fun y => 16 <= y <= 235) out ->
  Forall (fun y => 16 <= y <= 235) (luma_row line out) /\ length (luma_row line out) = length out.
Proof.
  intros Hl Ho. revert line Hl. induction Ho as [|y out Hy Ho IH]; intros line Hl.
  - destruct line as [|r [|g [|b [|a line]]]]; done.
  - destruct line as [|r [|g [|b [|a line]]]]; try by (split; [constructor|]).
    apply Forall_cons in Hl as [Hr [Hg [Hb [_ Hl]%Forall_cons]%Forall_cons]%Forall_cons].
    destruct (IH line Hl) as [H1 H2]. cbn [luma_row length]. split; [|by rewrite H2].
    constructor; [by apply luma_range|done].
Qed.

(** Sums of [n] byte values each. *)
Definition sums_ok (s : Sums) : Prop :=
  let '(r, g, b, n) := s in 0 <= r <= 255 * n /\ 0 <= g <= 255 * n /\ 0 <= b <= 255 * n.

Lemma add_pixel_ok width e line x s : Forall byte_value line -> sums_ok s -> sums_ok (add_pixel width e line x s).
Proof.
  intros Hl. destruct s as [[[r g] b] n]. unfold add_pixel, sums_ok. intros Hs.
  destruct (x <? width)%nat; [|done].
  assert (Hb : forall i z, line !! i = Some z -> byte_value z) by (intros i z; by apply Forall_lookup_1).
  destruct (line !! (x * 4)%nat) as [r'|] eqn:H1; [destruct (line !! (x * 4 + 1)%nat) as [g'|] eqn:H2;
    [destruct (line !! (x * 4 + 2)%nat) as [b'|] eqn:H3|]|].
  1: apply Hb in H1, H2, H3; unfold byte_value in *; lia.
  all: destruct (negb _ || e); lia.
Qed.

Lemma block_mean_range rgba width height j i :
  Forall byte_value rgba ->
  let '(r, g, b) := block_mean rgba width height j i in byte_value r /\ byte_value g /\ byte_value b.
Proof.
  intros Hb. unfold block_mean. set (e := (2 * j + 1 <? height)%nat).
  assert (Hl : Forall byte_value (if e then row rgba width (2 * j + 1) else [])).
  { destruct e; [by apply row_bytes|constructor]. }
  assert (Ht : Forall byte_value (row rgba width (2 * j))) by by apply row_bytes.
  cbn [fold_left]. unfold add_line. cbn [fold_left].
  match goal with |- context [add_pixel ?a ?b ?c ?d ?s] =>
    assert (Hs : sums_ok (add_pixel a b c d s)) by (repeat apply add_pixel_ok; done);
    destruct (add_pixel a b c d s) as [[[r g] b'] n] end.
  unfold sums_ok, byte_value in *.
  assert (H : forall z, 0 <= z <= 255 * n -> 0 <= Z.quot z (Z.max n 1) <= 255).
  { intros z Hz. rewrite Z.quot_div_nonneg by lia. split; [apply Z.div_pos; lia|].
    apply Z.lt_succ_r. apply Z.div_lt_upper_bound; lia. }
  split_and!; apply H; lia.
Qed.

Lemma length_concat_const {A} (l : list (list A)) n :
  Forall (fun k => length k = n) l -> length (concat l) = (length l * n)%nat.
Proof. induction 1 as [|k l Hk _ IH]; [done|]. cbn [concat length]. rewrite length_app, IH, Hk. lia. Qed.

Lemma chroma_plane_range f lo hi rgba width height :
  (forall r g b, byte_value r -> byte_value g -> byte_value b -> lo <= f r g b <= hi) ->
  Forall byte_value rgba ->
  Forall (fun c => lo <= c <= hi) (chroma_plane f rgba width height) /\
  length (chroma_plane f rgba width height) = (div_ceil2 height * div_ceil2 width)%nat.
Proof.
  intros Hf Hb. unfold chroma_plane. split.
  - apply Forall_concat, Forall_fmap, Forall_true. intros j. apply Forall_fmap, Forall_true. intros i. cbn.
    pose proof (block_mean_range rgba width height j i Hb) as Hm.
    destruct (block_mean rgba width height j i) as [[r g] b]. apply Hf; apply Hm.
  - rewrite (length_concat_const _ (div_ceil2 width)); [by rewrite length_map, length_seq|].
    apply Forall_fmap, Forall_true. intros j. cbn. by rewrite length_map, length_seq.
Qed.

(** Whatever the picture's bytes are and however many are missing, the
    planes have the sizes of 4:2:0, luma keeps the limited range [16..235] and
    V [16..240]; U keeps [15..240], one below the limited range. *)
Theorem planes_bounds rgba width height :
  Forall byte_value rgba ->
  let f := from_rgba rgba width height in
  length (i4_y f) = (width * height)%nat /\
  length (i4_u f) = (div_ceil2 height * chroma_width f)%nat /\ length (i4_v f) = (div_ceil2 height * chroma_width f)%nat /\
  Forall (fun y => 16 <= y <= 235) (i4_y f) /\
  Forall (fun u => 15 <= u <= 240) (i4_u f) /\ Forall (fun v => 16 <= v <= 240) (i4_v f).
Proof.
  intros Hb f. destruct (chroma_plane_range chroma_u 15 240 rgba width height chroma_u_range Hb) as [Hu Hul].
  destruct (chroma_plane_range chroma_v 16 240 rgba width height chroma_v_range Hb) as [Hv Hvl].
  assert (Hy : forall j, Forall (fun y => 16 <= y <= 235) (luma_row (row rgba width j) (replicate width 16)) /\
            length (luma_row (row rgba width j) (replicate width 16)) = width).
  { intros j. destruct (luma_row_range (row rgba width j) (replicate width 16)) as [H1 H2].
    - by apply row_bytes.
    - by apply Forall_replicate.
    - by rewrite length_replicate in H2. }
  split_and!; try done; cbn [from_rgba i4_y f]; unfold y_plane.
  - rewrite (length_concat_const _ width); [rewrite length_map, length_seq; lia|].
    apply Forall_fmap, Forall_true. intros j. apply Hy.
  - apply Forall_concat, Forall_fmap, Forall_true. intros j. apply Hy.
Qed.

(** Yellow falls below the range. *)
Lemma planes_bounds_witness :
  i4_u (from_rgba [255; 255; 0; 255] 1 1) = [15] /\ Forall (fun y => 16 <= y <= 235) (i4_y (from_rgba [255; 255; 0; 255] 1 1)).
Proof.
  split; [reflexivity|]. refine (proj1 (proj2 (proj2 (proj2 (planes_bounds [255; 255; 0; 255] 1 1 _))))).
  repeat constructor; discriminate.
Defined.
