(* ===== verification/RecordLog.v ===== *)
(** * Between the session and the recorder ([recording/log.rs],
      [recording/capture.rs], [read_events] of [recording/store.rs])

    [QueueState] is the bounded event queue: [queue_event], [queue_detach] and
    [queue_dropped] are the sink's side, [drain] the recorder's.  [Mailbox] is
    the one-slot frame handover.  [EventLogWriter] writes [events.jsonl];
    [read_events] reads it back.  Every operation is one critical section, so
    any interleaving of the two threads is a list of them.  Waking the recorder
    thread is left out. *)
From S2P Require Import Prelude Bytes Json Events.
Open Scope Z_scope.

(** ** The event queue *)

Definition QUEUE_CAPACITY : nat := 1024.

Record QueueState := {
  q_events : list SessionEvent; q_lost : Z; q_last : option SessionEvent; q_closed : bool }.
Definition queue_new : QueueState := {| q_events := []; q_lost := 0; q_last := None; q_closed := false |}.

(** [QueueSink::on_event] *)
Definition queue_event (s : QueueState) (event : SessionEvent) : QueueState * bool :=
  if q_closed s then (s, false)
  else if (QUEUE_CAPACITY <=? length (q_events s))%nat then
    ({| q_events := q_events s; q_lost := q_lost s + 1; q_last := q_last s; q_closed := q_closed s |}, false)
  else ({| q_events := q_events s ++ [event]; q_lost := q_lost s; q_last := q_last s; q_closed := q_closed s |}, true).

(** [QueueSink::on_detach] *)
Definition queue_detach (s : QueueState) (last : SessionEvent) : QueueState :=
  {| q_events := q_events s; q_lost := q_lost s; q_last := Some last; q_closed := true |}.

(** [Drop for QueueSink] *)
Definition queue_dropped (s : QueueState) : QueueState :=
  {| q_events := q_events s; q_lost := q_lost s; q_last := q_last s; q_closed := true |}.

Record Drained := {
  dr_events : list SessionEvent; dr_lost : Z; dr_last : option SessionEvent; dr_closed : bool }.

(** [EventQueue::drain] *)
Definition drain (s : QueueState) : QueueState * Drained :=
  ({| q_events := []; q_lost := 0; q_last := None; q_closed := q_closed s |},
   {| dr_events := q_events s; dr_lost := q_lost s; dr_last := q_last s; dr_closed := q_closed s |}).

(** The queue is a sink of the session's event log. *)
#[export] Instance QueueSink : EventSink QueueState :=
  {| on_event := fun s _ event => queue_event s event; on_detach := fun s _ last => queue_detach s last |}.

(** What the two threads do, in the order the mutex gives. *)
Inductive QueueOp := QEvent (e : SessionEvent) | QDetach (e : SessionEvent) | QDrop | QDrain.

(** The queue, what was drained so far, and what was offered: every event
    with the answer its sender got, and whether the queue was open. *)
Record QueueRun := {
  qr_queue : QueueState; qr_drained : list Drained; qr_offered : list (SessionEvent * bool * bool) }.
Definition queue_run_new : QueueRun := {| qr_queue := queue_new; qr_drained := []; qr_offered := [] |}.

Definition queue_step (r : QueueRun) (op : QueueOp) : QueueRun :=
  match op with
  | QEvent e =>
      let '(q, ok) := queue_event (qr_queue r) e in
      {| qr_queue := q; qr_drained := qr_drained r; qr_offered := qr_offered r ++ [(e, ok, negb (q_closed (qr_queue r)))] |}
  | QDetach e => {| qr_queue := queue_detach (qr_queue r) e; qr_drained := qr_drained r; qr_offered := qr_offered r |}
  | QDrop => {| qr_queue := queue_dropped (qr_queue r); qr_drained := qr_drained r; qr_offered := qr_offered r |}
  | QDrain =>
      let '(q, d) := drain (qr_queue r) in
      {| qr_queue := q; qr_drained := qr_drained r ++ [d]; qr_offered := qr_offered r |}
  end.
Definition queue_run (ops : list QueueOp) : QueueRun := fold_left queue_step ops queue_run_new.

(** ** The frame mailbox *)

Record CapturedFrame := {
  cf_offset_ms : N; cf_frame_seq : N; cf_width : N; cf_height : N; cf_rgba : list Z }.
Record Take := { tk_frame : CapturedFrame; tk_dropped : N; tk_first_dropped_ms : option N }.
Record Mailbox := {
  mb_frame : option CapturedFrame; mb_dropped : N; mb_first_dropped_ms : option N; mb_captured : N }.
Definition mailbox_new : Mailbox :=
  {| mb_frame := None; mb_dropped := 0; mb_first_dropped_ms := None; mb_captured := 0 |}.

(** [Mailbox::put] *)
Definition mailbox_put (m : Mailbox) (frame : CapturedFrame) : Mailbox :=
  let captured := (mb_captured m + 1)%N in
  match mb_frame m with
  | Some old =>
      {| mb_frame := Some frame; mb_dropped := (mb_dropped m + 1)%N;
         mb_first_dropped_ms := Some (default (cf_offset_ms old) (mb_first_dropped_ms m)); mb_captured := captured |}
  | None =>
      {| mb_frame := Some frame; mb_dropped := mb_dropped m; mb_first_dropped_ms := mb_first_dropped_ms m;
         mb_captured := captured |}
  end.

(** [Mailbox::take] *)
Definition mailbox_take (m : Mailbox) : Mailbox * option Take :=
  match mb_frame m with
  | None => (m, None)
  | Some frame =>
      ({| mb_frame := None; mb_dropped := 0; mb_first_dropped_ms := None; mb_captured := mb_captured m |},
       Some {| tk_frame := frame; tk_dropped := mb_dropped m; tk_first_dropped_ms := mb_first_dropped_ms m |})
  end.

Inductive MailOp := MPut (f : CapturedFrame) | MTake.

(** The mailbox, the frames put so far and the takes. *)
Record MailRun := { mr_box : Mailbox; mr_put : list CapturedFrame; mr_taken : list Take }.
Definition mail_step (r : MailRun) (op : MailOp) : MailRun :=
  match op with
  | MPut f => {| mr_box := mailbox_put (mr_box r) f; mr_put := mr_put r ++ [f]; mr_taken := mr_taken r |}
  | MTake =>
      let '(m, t) := mailbox_take (mr_box r) in
      {| mr_box := m; mr_put := mr_put r; mr_taken := mr_taken r ++ option_list t |}
  end.
Definition mail_run (ops : list MailOp) : MailRun :=
  fold_left mail_step ops {| mr_box := mailbox_new; mr_put := []; mr_taken := [] |}.

(** ** The timeline *)

Record Timeline := { tl_clock : SessionClock; tl_start_offset : Z }.
Definition timeline_offset (t : Timeline) (at_ : Z) : Z := Z.max 0 (offset_ms (tl_clock t) at_ - tl_start_offset t).

(** What one pass of [capture::run] makes of a captured picture, against the
    last one it kept: nothing new when size and pixels are the same. *)
Definition capture_picture (reference : option (N * N * list Z)) (seq width height : N) (rgba : list Z) (offset : N)
  : option (N * N * list Z) * option CapturedFrame :=
  if match reference with
     | Some (w, h, p) => bool_decide (w = width) && bool_decide (h = height) && bool_decide (p = rgba)
     | None => false
     end
  then (reference, None)
  else (Some (width, height, rgba),
        Some {| cf_offset_ms := offset; cf_frame_seq := seq; cf_width := width; cf_height := height; cf_rgba := rgba |}).

(** ** The event file *)

Section EventLogWriter.
Context {HSE : Serde SessionEvent}.

(** [el_io] is what the coming writes do: [None] for one that succeeds, or
    the bytes that a failing one still leaves in the file. *)
Record EventLogWriter := {
  el_file : bytes; el_io : list (option bytes);
  el_next_seq : Z; el_start_offset : Z; el_last_offset : Z; el_bytes : N }.

(** [EventLogWriter::create], once the file is open. *)
Definition log_create (io : list (option bytes)) (start_offset : Z) : EventLogWriter :=
  {| el_file := []; el_io := io; el_next_seq := 1; el_start_offset := start_offset; el_last_offset := 0; el_bytes := 0 |}.

(** [EventLogWriter::timeline] *)
Definition log_timeline (w : EventLogWriter) (session_offset : Z) : Z := Z.max 0 (session_offset - el_start_offset w).

(** The event as it is written. *)
Definition log_stamp (w : EventLogWriter) (event : SessionEvent) : SessionEvent :=
  {| se_seq := el_next_seq w; se_at := se_at event;
     se_offset_ms := Z.max (log_timeline w (se_offset_ms event)) (el_last_offset w);
     se_frame_seq := se_frame_seq event; se_source := se_source event; se_kind := se_kind event |}.

Definition NEWLINE : N := 10.

(** [EventLogWriter::write]; [false] for its error. *)
Definition log_write (w : EventLogWriter) (event : SessionEvent) : EventLogWriter * bool :=
  let event := log_stamp w event in
  match to_vec event with
  | Err _ => (w, false)
  | Ok line =>
      let line := line ++ [NEWLINE] in
      match el_io w with
      | Some junk :: io =>
          ({| el_file := el_file w ++ junk; el_io := io; el_next_seq := el_next_seq w;
              el_start_offset := el_start_offset w; el_last_offset := el_last_offset w; el_bytes := el_bytes w |}, false)
      | io =>
          ({| el_file := el_file w ++ line; el_io := tl io; el_next_seq := el_next_seq w + 1;
              el_start_offset := el_start_offset w; el_last_offset := se_offset_ms event;
              el_bytes := (el_bytes w + blen line)%N |}, true)
      end
  end.

(** The recorder's [write]: after an error nothing more is written. *)
Fixpoint log_all (w : EventLogWriter) (events : list SessionEvent) : EventLogWriter * bool :=
  match events with
  | [] => (w, true)
  | e :: events => let '(w, ok) := log_write w e in if ok then log_all w events else (w, false)
  end.
End EventLogWriter.

(** [read_events]: complete lines, parsed; unparsable ones are skipped. *)
Section ReadEvents.
Context {V : Type} (parse : bytes -> option V).

(** [read_until]: the line with its newline if it has one, and the rest. *)
Fixpoint read_until (bs : bytes) : bytes * bytes :=
  match bs with
  | [] => ([], [])
  | b :: bs => if (b =? NEWLINE)%N then ([b], bs) else let '(l, r) := read_until bs in (b :: l, r)
  end.

Fixpoint read_lines (fuel : nat) (bs : bytes) : list V :=
  match fuel with
  | O => []
  | S fuel =>
      let '(line, rest) := read_until bs in
      if negb (bool_decide (last line = Some NEWLINE)) then []
      else option_list (parse line) ++ read_lines fuel rest
  end.
Definition read_events (file : bytes) : list V := read_lines (S (length file)) file.
End ReadEvents.

(** ** The queue loses nothing that it accepted *)

Definition accepted (r : QueueRun) : list SessionEvent :=
  map (fun o => fst (fst o)) (List.filter (fun o => snd (fst o)) (qr_offered r)).
Definition refused (r : QueueRun) : list SessionEvent :=
  map (fun o => fst (fst o)) (List.filter (fun o => negb (snd (fst o)) && snd o) (qr_offered r)).
Definition drained_events (ds : list Drained) : list SessionEvent := concat (map dr_events ds).
Definition lost_total (ds : list Drained) : Z := foldr (fun d n => dr_lost d + n) 0 ds.

(** No event comes out after a pass that saw the queue closed. *)
Fixpoint ends_closed (ds : list Drained) : Prop :=
  match ds with
  | [] => True
  | d :: ds => (dr_closed d = true -> drained_events ds = [] /\ lost_total ds = 0 /\ Forall (fun d => dr_closed d = true) ds)
               /\ ends_closed ds
  end.

Lemma lost_total_app a b : lost_total (a ++ b) = lost_total a + lost_total b.
Proof. unfold lost_total. induction a as [|d a IH]; [done|]. cbn [app foldr]. rewrite IH. lia. Qed.

Lemma drained_events_app a b : drained_events (a ++ b) = drained_events a ++ drained_events b.
Proof. unfold drained_events. by rewrite map_app, concat_app. Qed.

Lemma ends_closed_snoc ds d :
  ends_closed ds -> (Exists (fun d => dr_closed d = true) ds -> dr_events d = [] /\ dr_lost d = 0 /\ dr_closed d = true) ->
  ends_closed (ds ++ [d]).
Proof.
  induction ds as [|x ds IH]; intros He Hd; [split; [intros _|]; done|]. destruct He as [Hx He].
  cbn [app ends_closed]. split; [|apply IH; [done|]; intros Hex; apply Hd; by apply Exists_cons_tl].
  intros Hc. destruct (Hx Hc) as (H1 & H2 & H3). destruct Hd as (D1 & D2 & D3); [by apply Exists_cons_hd|].
  rewrite drained_events_app, lost_total_app, H1, H2. unfold drained_events, lost_total. cbn. rewrite D1, D2.
  split_and!; [done|done|]. apply Forall_app. by repeat constructor.
Qed.

Record queue_ok (r : QueueRun) : Prop := {
  qk_events : drained_events (qr_drained r) ++ q_events (qr_queue r) = accepted r;
  qk_lost : lost_total (qr_drained r) + q_lost (qr_queue r) = Z.of_nat (length (refused r));
  qk_bound : (length (q_events (qr_queue r)) <= QUEUE_CAPACITY)%nat;
  qk_ends : ends_closed (qr_drained r);
  qk_gone : Exists (fun d => dr_closed d = true) (qr_drained r) ->
            q_closed (qr_queue r) = true /\ q_events (qr_queue r) = [] /\ q_lost (qr_queue r) = 0 }.

Lemma queue_step_ok r op : queue_ok r -> queue_ok (queue_step r op).
Proof.
  intros [He Hl Hb Hc Hg]. destruct op as [e|e| |]; cbn [queue_step].
  - unfold queue_event. destruct (q_closed (qr_queue r)) eqn:Hq; [|destruct (_ <=? _)%nat eqn:Hfull].
    all: split; unfold accepted, refused in *; cbn [qr_queue qr_drained qr_offered q_events q_lost q_closed];
      rewrite ?List.filter_app, ?map_app; cbn [List.filter fst snd negb andb map]; rewrite ?app_nil_r; try done.
    + by rewrite Hq.
    + rewrite length_app. cbn. lia.
    + intros Hx. by destruct (Hg Hx).
    + by rewrite app_assoc, He.
    + apply Nat.leb_gt in Hfull. rewrite length_app. cbn. unfold QUEUE_CAPACITY in *. lia.
    + intros Hx. by destruct (Hg Hx).
  - split; try done. cbn. intros Hx. by destruct (Hg Hx) as (_ & ? & ?).
  - split; try done. cbn. intros Hx. by destruct (Hg Hx) as (_ & ? & ?).
  - unfold drain. split; cbn [qr_queue qr_drained qr_offered q_events q_lost q_closed].
    + rewrite drained_events_app, app_nil_r. unfold drained_events at 2. cbn. by rewrite app_nil_r.
    + rewrite lost_total_app. unfold lost_total at 2. cbn. unfold refused in *. cbn in *. lia.
    + cbn. lia.
    + apply ends_closed_snoc; [done|]. cbn. intros Hx. by destruct (Hg Hx) as (? & ? & ?).
    + intros [Hx|Hx]%Exists_app; [by destruct (Hg Hx)|]. apply Exists_cons in Hx as [Hx|Hx%Exists_nil]; [|done]. done.
Qed.

Lemma queue_run_ok ops : queue_ok (queue_run ops).
Proof.
  unfold queue_run. assert (queue_ok queue_run_new) as H by (split; cbn; try done; [lia|by intros ?%Exists_nil]).
  revert H. generalize queue_run_new. induction ops as [|op ops IH]; intros r Hr; [done|]. apply IH. by apply queue_step_ok.
Qed.

(** However the session's threads and the recorder take turns, what was
    drained and what still waits are the accepted events in order, each once;
    at most 1024 wait; the losses reported and pending are the refusals while
    the queue was open, exactly; and after the pass that sees the queue closed
    nothing more comes out, so the recorder may end there. *)
Theorem queue_accounts ops :
  let r := queue_run ops in
  drained_events (qr_drained r) ++ q_events (qr_queue r) = accepted r /\
  lost_total (qr_drained r) + q_lost (qr_queue r) = Z.of_nat (length (refused r)) /\
  (length (q_events (qr_queue r)) <= 1024)%nat /\ ends_closed (qr_drained r).
Proof. destruct (queue_run_ok ops) as [He Hl Hb Hc _]. done. Qed.

(** ** The mailbox: the newest frame wins, the others are counted *)

(** [group]: the frames of one take, the dropped ones first. *)
Definition take_group (t : Take) (group : list CapturedFrame) : Prop :=
  exists dropped, group = dropped ++ [tk_frame t] /\ N.of_nat (length dropped) = tk_dropped t /\
    tk_first_dropped_ms t = cf_offset_ms <$> head dropped.

Record mail_ok (r : MailRun) (groups : list (list CapturedFrame)) (waiting : list CapturedFrame) : Prop := {
  mk_groups : Forall2 take_group (mr_taken r) groups;
  mk_put : mr_put r = concat groups ++ waiting ++ option_list (mb_frame (mr_box r));
  mk_dropped : N.of_nat (length waiting) = mb_dropped (mr_box r);
  mk_first : mb_first_dropped_ms (mr_box r) = cf_offset_ms <$> head waiting;
  mk_empty : mb_frame (mr_box r) = None -> waiting = [];
  mk_captured : mb_captured (mr_box r) = N.of_nat (length (mr_put r)) }.

Lemma mail_step_ok r op groups waiting : mail_ok r groups waiting -> exists groups waiting, mail_ok (mail_step r op) groups waiting.
Proof.
  intros [Hg Hp Hd Hf He Hc]. destruct op as [f|]; cbn [mail_step].
  - unfold mailbox_put. destruct (mb_frame (mr_box r)) as [old|] eqn:Hm.
    + exists groups, (waiting ++ [old]). split; cbn; rewrite ?Hp; cbn; try done.
      * by rewrite <- !app_assoc.
      * rewrite length_app. cbn. lia.
      * rewrite Hf. by destruct waiting.
      * rewrite Hc, Hp. rewrite !length_app. cbn. lia.
    + rewrite (He eq_refl) in *. exists groups, []. split; cbn; rewrite ?Hp; cbn; try done.
      * by rewrite app_nil_r.
      * rewrite Hc, Hp. rewrite !length_app. cbn. lia.
  - unfold mailbox_take. destruct (mb_frame (mr_box r)) as [f|] eqn:Hm; cbn.
    + exists (groups ++ [waiting ++ [f]]), []. split; cbn; try done.
      * apply Forall2_app; [done|]. constructor; [|constructor]. by exists waiting.
      * rewrite Hp, concat_app. cbn. by rewrite !app_nil_r.
    + exists groups, waiting. split; cbn; rewrite ?app_nil_r, ?Hm; done.
Qed.

Lemma mail_run_ok ops : exists groups waiting, mail_ok (mail_run ops) groups waiting.
Proof.
  unfold mail_run. set (r0 := Build_MailRun _ _ _).
  assert (exists groups waiting, mail_ok r0 groups waiting) as H by (exists [], []; split; done).
  revert H. generalize r0. induction ops as [|op ops IH]; intros r (g & w & Hr); [by exists g, w|].
  apply IH. by eapply mail_step_ok.
Qed.

(** However captures and takes alternate, the frames put are those of
    the takes in order, each take with the frames it replaced before its own
    (their number and the time of the first as reported), then those that
    still wait; nothing is counted twice. *)
Theorem mailbox_newest_wins ops :
  let r := mail_run ops in
  exists groups waiting,
    Forall2 take_group (mr_taken r) groups /\
    mr_put r = concat groups ++ waiting ++ option_list (mb_frame (mr_box r)) /\
    N.of_nat (length waiting) = mb_dropped (mr_box r) /\ mb_captured (mr_box r) = N.of_nat (length (mr_put r)).
Proof. cbv zeta. destruct (mail_run_ok ops) as (g & w & []). by exists g, w. Qed.

(** ** The event file is read back *)

Section EventFile.
Context {HSE : Serde SessionEvent} {V : Type} (parse : bytes -> option V) (value : SessionEvent -> V).

(** serde_json: compact JSON holds no newline, and the parser gives the value
    that was written, also with the newline after it. *)
Class LineLaws : Prop := {
  line_no_newline e line : to_vec e = Ok line -> NEWLINE ∉ line;
  line_parses e line : to_vec e = Ok line -> parse (line ++ [NEWLINE]) = Some (value e) }.

Definition same_event (a b : SessionEvent) : Prop :=
  se_at a = se_at b /\ se_frame_seq a = se_frame_seq b /\ se_source a = se_source b /\ se_kind a = se_kind b.

(** Numbered from [seq], at times that never fall below [last]. *)
Fixpoint numbered (seq last : Z) (events : list SessionEvent) : Prop :=
  match events with
  | [] => True
  | e :: events => se_seq e = seq /\ last <= se_offset_ms e /\ numbered (seq + 1) (se_offset_ms e) events
  end.

Lemma read_until_line l r : NEWLINE ∉ l -> read_until (l ++ NEWLINE :: r) = (l ++ [NEWLINE], r).
Proof.
  induction l as [|b l IH]; intros Hl; [done|]. apply not_elem_of_cons in Hl as [Hb Hl].
  cbn [app read_until]. destruct (N.eqb_spec b NEWLINE) as [->|]; [done|]. by rewrite IH.
Qed.

Lemma read_until_none l : NEWLINE ∉ l -> read_until l = (l, []).
Proof.
  induction l as [|b l IH]; intros Hl; [done|]. apply not_elem_of_cons in Hl as [Hb Hl].
  cbn [read_until]. destruct (N.eqb_spec b NEWLINE) as [->|]; [done|]. by rewrite IH.
Qed.

Lemma no_newline_last l : NEWLINE ∉ l -> last l <> Some NEWLINE.
Proof. intros Hl Hx. apply Hl. by apply last_Some_elem_of. Qed.

Lemma read_lines_spec lines junk fuel :
  Forall (fun l => NEWLINE ∉ l) lines -> NEWLINE ∉ junk -> (length lines < fuel)%nat ->
  read_lines parse fuel (concat (map (fun l => l ++ [NEWLINE]) lines) ++ junk)
  = concat (map (fun l => option_list (parse (l ++ [NEWLINE]))) lines).
Proof.
  intros Hl Hj. revert fuel. induction Hl as [|l lines Hn Hl IH]; intros fuel Hf; (destruct fuel as [|fuel]; [cbn in Hf; lia|]).
  - cbn [map concat app read_lines]. rewrite read_until_none by done.
    rewrite bool_decide_false by (by apply no_newline_last). done.
  - cbn [map concat]. rewrite <- !app_assoc. cbn [app read_lines]. rewrite read_until_line by done.
    rewrite bool_decide_true by (by rewrite last_snoc). cbn [negb]. f_equal. apply IH. cbn in Hf. lia.
Qed.

Lemma concat_lines_length (lines : list bytes) : (length lines <= length (concat (map (fun l => l ++ [NEWLINE]) lines)))%nat.
Proof. induction lines as [|l lines IH]; [done|]. cbn [map concat length]. rewrite !length_app. cbn. lia. Qed.

Context {HL : LineLaws}.

Lemma log_all_spec events w w' ok :
  log_all w events = (w', ok) -> Forall (fun j => NEWLINE ∉ default [] j) (el_io w) ->
  exists written lines junk,
    el_file w' = el_file w ++ concat (map (fun l => l ++ [NEWLINE]) lines) ++ junk /\ NEWLINE ∉ junk /\
    Forall2 (fun l e => to_vec e = Ok l) lines written /\
    numbered (el_next_seq w) (el_last_offset w) written /\
    Forall2 same_event written (take (length written) events) /\ (ok = true -> length written = length events).
Proof.
  revert w. induction events as [|e events IH]; intros w Hr Hio; cbn [log_all] in Hr.
  { injection Hr as <- <-. exists [], [], []. cbn. rewrite !app_nil_r. split_and!; try done. apply not_elem_of_nil. }
  unfold log_write in Hr. destruct (to_vec (log_stamp w e)) as [line|err] eqn:Hv.
  2: { injection Hr as <- <-. exists [], [], []. cbn. rewrite !app_nil_r. split_and!; try done. apply not_elem_of_nil. }
  destruct (el_io w) as [|[junk|] io] eqn:Hi.
  2: { injection Hr as <- <-. apply Forall_cons in Hio as [Hj _]. by exists [], [], junk. }
  all: destruct (IH _ Hr) as (written & lines & junk & Hf & Hj & Hp & Hn & Hs & Hok);
    [cbn [el_io tl]; by (constructor || apply Forall_cons in Hio as [_ Hio])|].
  all: exists (log_stamp w e :: written), (line :: lines), junk; cbn [el_file el_next_seq el_last_offset] in *; split_and!; try done.
  all: try (rewrite Hf; cbn [map concat]; by rewrite <- !app_assoc).
  all: try (by constructor).
  all: try (cbn [numbered log_stamp se_seq se_offset_ms]; split_and!; [done|lia|exact Hn]).
  all: try (intros Hx; cbn [length]; by rewrite (Hok Hx)).
  all: cbn [length take]; by constructor.
Qed.

(** Whatever events come and whenever a write starts to fail, the file
    holds, and its reader finds, exactly the events written before, in order,
    numbered from one, at times on the recording's line that never go back,
    with their time of day, frame, source and kind; a line that a failed write
    cut short is skipped. *)
Theorem event_log_reads_back io start events w ok :
  log_all (log_create io start) events = (w, ok) -> Forall (fun j => NEWLINE ∉ default [] j) io ->
  exists written,
    read_events parse (el_file w) = map value written /\ numbered 1 0 written /\
    Forall2 same_event written (take (length written) events) /\ (ok = true -> length written = length events).
Proof.
  intros Hr Hio. destruct (log_all_spec _ _ _ _ Hr Hio) as (written & lines & junk & Hf & Hj & Hp & Hn & Hs & Hok).
  exists written. split_and!; try done. cbn [log_create el_file app] in Hf. unfold read_events. rewrite Hf.
  rewrite read_lines_spec; [|..|done|].
  - clear -Hp HL. induction Hp as [|l e lines written Hl Hp IH]; [done|]. cbn [map concat].
    rewrite (line_parses _ _ Hl), IH. done.
  - clear -Hp HL. induction Hp as [|l e lines written Hl Hp IH]; constructor; [by eapply line_no_newline|done].
  - rewrite length_app. pose proof (concat_lines_length lines). lia.
Qed.
End EventFile.

(** A code of events for the example: the sequence number in unary. *)
Module LogDemo.
#[local] Instance unary : Serde SessionEvent :=
  {| to_vec := fun e => Ok (replicate (Z.to_nat (se_seq e)) 1%N); from_slice := fun _ => Err [] |}.
Definition parse (bs : bytes) : option nat := Some (length bs - 1)%nat.
Definition value (e : SessionEvent) : nat := Z.to_nat (se_seq e).

Lemma laws : LineLaws parse value.
Proof.
  split; intros e line Hv; cbn in Hv; injection Hv as <-.
  - rewrite elem_of_replicate. intros [? _]. done.
  - unfold parse, value. rewrite length_app, length_replicate. cbn. f_equal. lia.
Qed.

Definition event (offset : Z) : SessionEvent :=
  {| se_seq := 0; se_at := []; se_offset_ms := offset; se_frame_seq := 0; se_source := SrcCli; se_kind := EvSessionEnded |}.

(** The third write fails half way. *)
Definition io : list (option bytes) := [None; None; Some [1%N; 1%N]].

Lemma event_log_reads_back_witness :
  exists w written, log_all (log_create io 10) [event 10; event 25; event 20; event 40] = (w, false) /\
    read_events parse (el_file w) = map value written /\ numbered 1 0 written /\ map value written = [1; 2]%nat.
Proof.
  destruct (log_all (log_create io 10) [event 10; event 25; event 20; event 40]) as [w ok] eqn:Hr.
  assert (ok = false) as -> by (vm_compute in Hr; by injection Hr).
  destruct (@event_log_reads_back unary nat parse value laws _ _ _ _ _ Hr) as (written & H1 & H2 & _ & _).
  - repeat constructor; cbn; rewrite ?elem_of_cons, ?elem_of_nil; intros Hx; by destruct_or?.
  - exists w, written. split; [done|]. split; [done|]. split; [done|]. rewrite <- H1.
    vm_compute in Hr. injection Hr as <-. reflexivity.
Defined.
End LogDemo.
