(* ===== verification/Recorder.v ===== *)
(** * The recorder ([recording/recorder.rs])

    [Recorder] is the state of one recording: its event log, the open segment
    and what was closed.  Methods take the time on the recording timeline, as
    the code's do.  The encoder is code behind the trait [VideoEncoder]; the
    files of closed segments are kept in [rc_files].  Times spent encoding and
    waiting (figures in milliseconds) are left out, and writing the manifest
    file, whose failure the recorder ignores. *)
From S2P Require Import Prelude Bytes Json Calendar Events I420 Webm RecordLog.
Open Scope N_scope.

Definition SEGMENT_MS : N := 60000.
Definition MAX_PENDING : nat := 8.

(** ** The encoder *)

Record Packet := { pk_frameno : N; pk_data : bytes; pk_key : bool }.

(** The trait [VideoEncoder]: [None] is its error. *)
Class VideoEncoder (E : Type) := {
  enc_send : E -> I420 -> bool -> option E;
  enc_receive : E -> option (E * list Packet);
  enc_flush : E -> option (list Packet);
  enc_config : E -> bytes }.

(** [store::segment_file]: six digits at least. *)
Definition segment_file (n : N) : text :=
  pad0 6 (dec n) ++ txt ".webm".

Section Recorder.
Context {HSE : Serde SessionEvent} {E : Type} {HVE : VideoEncoder E}.

Record Pending := { pd_frameno : N; pd_offset : N }.

Record Segment := {
  sg_number : N; sg_encoder : E; sg_writer : SegmentWriter; sg_first : N; sg_last : N;
  sg_width : N; sg_height : N; sg_pending : list Pending; sg_next_frameno : N; sg_largest : N }.

Record Gap := { gp_from : N; gp_to : N; gp_count : N }.

Record Figures := {
  fg_encoded : N; fg_dropped : N; fg_gap_periods : N; fg_held_max : N; fg_events_lost : Z }.

Record SegmentEntry := {
  en_file : text; en_start : N; en_end : N; en_frames : N; en_bytes : N; en_width : N; en_height : N }.

Record Recorder := {
  rc_timeline : Timeline; rc_budget : N; rc_segment_ms : N;
  rc_log : EventLogWriter;
  rc_segments : list SegmentEntry;     (** [manifest.segments] *)
  rc_files : list (N * bytes);         (** the segment files by number *)
  rc_segment : option Segment; rc_next_segment : N; rc_closed_bytes : N; rc_video_stopped : bool;
  rc_last_size : option (N * N); rc_last_frame_seq : N; rc_gap : option Gap; rc_figures : Figures;
  rc_failed : bool }.

(** ** Updates of one field *)

Definition with_log (l : EventLogWriter) (failed : bool) (r : Recorder) : Recorder :=
  {| rc_timeline := rc_timeline r; rc_budget := rc_budget r; rc_segment_ms := rc_segment_ms r; rc_log := l;
     rc_segments := rc_segments r; rc_files := rc_files r; rc_segment := rc_segment r;
     rc_next_segment := rc_next_segment r; rc_closed_bytes := rc_closed_bytes r; rc_video_stopped := rc_video_stopped r;
     rc_last_size := rc_last_size r; rc_last_frame_seq := rc_last_frame_seq r; rc_gap := rc_gap r;
     rc_figures := rc_figures r; rc_failed := failed |}.
Definition with_gap (g : option Gap) (r : Recorder) : Recorder :=
  {| rc_timeline := rc_timeline r; rc_budget := rc_budget r; rc_segment_ms := rc_segment_ms r; rc_log := rc_log r;
     rc_segments := rc_segments r; rc_files := rc_files r; rc_segment := rc_segment r;
     rc_next_segment := rc_next_segment r; rc_closed_bytes := rc_closed_bytes r; rc_video_stopped := rc_video_stopped r;
     rc_last_size := rc_last_size r; rc_last_frame_seq := rc_last_frame_seq r; rc_gap := g;
     rc_figures := rc_figures r; rc_failed := rc_failed r |}.
Definition with_figures (f : Figures) (r : Recorder) : Recorder :=
  {| rc_timeline := rc_timeline r; rc_budget := rc_budget r; rc_segment_ms := rc_segment_ms r; rc_log := rc_log r;
     rc_segments := rc_segments r; rc_files := rc_files r; rc_segment := rc_segment r;
     rc_next_segment := rc_next_segment r; rc_closed_bytes := rc_closed_bytes r; rc_video_stopped := rc_video_stopped r;
     rc_last_size := rc_last_size r; rc_last_frame_seq := rc_last_frame_seq r; rc_gap := rc_gap r;
     rc_figures := f; rc_failed := rc_failed r |}.
Definition with_segment (s : option Segment) (next : N) (r : Recorder) : Recorder :=
  {| rc_timeline := rc_timeline r; rc_budget := rc_budget r; rc_segment_ms := rc_segment_ms r; rc_log := rc_log r;
     rc_segments := rc_segments r; rc_files := rc_files r; rc_segment := s;
     rc_next_segment := next; rc_closed_bytes := rc_closed_bytes r; rc_video_stopped := rc_video_stopped r;
     rc_last_size := rc_last_size r; rc_last_frame_seq := rc_last_frame_seq r; rc_gap := rc_gap r;
     rc_figures := rc_figures r; rc_failed := rc_failed r |}.
Definition with_closed (es : list SegmentEntry) (fs : list (N * bytes)) (bytes : N) (r : Recorder) : Recorder :=
  {| rc_timeline := rc_timeline r; rc_budget := rc_budget r; rc_segment_ms := rc_segment_ms r; rc_log := rc_log r;
     rc_segments := es; rc_files := fs; rc_segment := rc_segment r;
     rc_next_segment := rc_next_segment r; rc_closed_bytes := bytes; rc_video_stopped := rc_video_stopped r;
     rc_last_size := rc_last_size r; rc_last_frame_seq := rc_last_frame_seq r; rc_gap := rc_gap r;
     rc_figures := rc_figures r; rc_failed := rc_failed r |}.
Definition with_video_stopped (r : Recorder) : Recorder :=
  {| rc_timeline := rc_timeline r; rc_budget := rc_budget r; rc_segment_ms := rc_segment_ms r; rc_log := rc_log r;
     rc_segments := rc_segments r; rc_files := rc_files r; rc_segment := rc_segment r;
     rc_next_segment := rc_next_segment r; rc_closed_bytes := rc_closed_bytes r; rc_video_stopped := true;
     rc_last_size := rc_last_size r; rc_last_frame_seq := rc_last_frame_seq r; rc_gap := rc_gap r;
     rc_figures := rc_figures r; rc_failed := rc_failed r |}.
Definition with_last (size : option (N * N)) (seq : N) (r : Recorder) : Recorder :=
  {| rc_timeline := rc_timeline r; rc_budget := rc_budget r; rc_segment_ms := rc_segment_ms r; rc_log := rc_log r;
     rc_segments := rc_segments r; rc_files := rc_files r; rc_segment := rc_segment r;
     rc_next_segment := rc_next_segment r; rc_closed_bytes := rc_closed_bytes r; rc_video_stopped := rc_video_stopped r;
     rc_last_size := size; rc_last_frame_seq := seq; rc_gap := rc_gap r;
     rc_figures := rc_figures r; rc_failed := rc_failed r |}.

Definition figures_new : Figures := {| fg_encoded := 0; fg_dropped := 0; fg_gap_periods := 0; fg_held_max := 0; fg_events_lost := 0%Z |}.
Definition add_encoded (n : N) (f : Figures) : Figures :=
  {| fg_encoded := fg_encoded f + n; fg_dropped := fg_dropped f; fg_gap_periods := fg_gap_periods f;
     fg_held_max := fg_held_max f; fg_events_lost := fg_events_lost f |}.
Definition add_dropped (n periods : N) (f : Figures) : Figures :=
  {| fg_encoded := fg_encoded f; fg_dropped := fg_dropped f + n; fg_gap_periods := fg_gap_periods f + periods;
     fg_held_max := fg_held_max f; fg_events_lost := fg_events_lost f |}.
Definition add_held (n : N) (f : Figures) : Figures :=
  {| fg_encoded := fg_encoded f; fg_dropped := fg_dropped f; fg_gap_periods := fg_gap_periods f;
     fg_held_max := N.max (fg_held_max f) n; fg_events_lost := fg_events_lost f |}.
Definition add_lost (n : Z) (f : Figures) : Figures :=
  {| fg_encoded := fg_encoded f; fg_dropped := fg_dropped f; fg_gap_periods := fg_gap_periods f;
     fg_held_max := fg_held_max f; fg_events_lost := (fg_events_lost f + n)%Z |}.

(** [Recorder::new], once the event file is open. *)
Definition recorder_new (timeline : Timeline) (budget segment_ms : N) (io : list (option bytes)) : Recorder :=
  {| rc_timeline := timeline; rc_budget := budget; rc_segment_ms := segment_ms;
     rc_log := log_create io (tl_start_offset timeline); rc_segments := []; rc_files := []; rc_segment := None;
     rc_next_segment := 1; rc_closed_bytes := 0; rc_video_stopped := false; rc_last_size := None;
     rc_last_frame_seq := 0; rc_gap := None; rc_figures := figures_new; rc_failed := false |}.

(** ** Events *)

(** [event]: at [now] of the timeline; a millisecond is [10^6] ns. *)
Definition own_event (r : Recorder) (now : N) (kind : EventKind) : SessionEvent :=
  let session_offset := (tl_start_offset (rc_timeline r) + Z.of_N now)%Z in
  {| se_seq := 0;
     se_at := iso8601_millis_from_system_time (ck_start_wall (tl_clock (rc_timeline r)) + session_offset * 1000000)%Z;
     se_offset_ms := session_offset; se_frame_seq := Z.of_N (rc_last_frame_seq r); se_source := SrcDaemon; se_kind := kind |}.

Definition write (event : SessionEvent) (r : Recorder) : Recorder :=
  if rc_failed r then r
  else let '(log, ok) := log_write (rc_log r) event in with_log log (negb ok) r.

Definition write_own (now : N) (kind : EventKind) (r : Recorder) : Recorder := write (own_event r now kind) r.

Definition handle_events (events : list SessionEvent) (lost : Z) (now : N) (r : Recorder) : Recorder :=
  let r := fold_left (fun r e => write e r) events r in
  if (0 <? lost)%Z then write_own now (EventsLost lost) (with_figures (add_lost lost (rc_figures r)) r) else r.

Definition close_gap (now : N) (r : Recorder) : Recorder :=
  match rc_gap r with
  | None => r
  | Some g => write_own now (FramesDropped (Z.of_N (gp_from g)) (Z.of_N (gp_to g)) (Z.of_N (gp_count g))) (with_gap None r)
  end.

Definition stop_video (now : N) (reason : VideoStopReason) (r : Recorder) : Recorder :=
  if rc_video_stopped r then r else write_own now (VideoStopped reason) (with_video_stopped r).

Definition bytes_with_pending (r : Recorder) : N :=
  let open := match rc_segment r with
              | None => 0
              | Some s => writer_bytes (sg_writer s) + N.of_nat (length (sg_pending s)) * sg_largest s
              end in
  rc_closed_bytes r + open + el_bytes (rc_log r).

(** ** Segments *)

(** [mux]: each packet belongs to the oldest frame waiting.  An error loses
    the segment, so its state then does not matter. *)
Fixpoint mux (packets : list Packet) (s : Segment) : result VideoStopReason (Segment * N) :=
  match packets with
  | [] => Ok (s, 0)
  | p :: packets =>
      match sg_pending s with
      | [] => Err VidEncoderError
      | front :: pending =>
          if negb (pd_frameno front =? pk_frameno p) then Err VidEncoderError
          else
            match write_frame (pd_offset front - sg_first s) (pk_data p) (pk_key p) (sg_writer s) with
            | None => Err VidWriteError
            | Some w =>
                match mux packets
                  {| sg_number := sg_number s; sg_encoder := sg_encoder s; sg_writer := w; sg_first := sg_first s;
                     sg_last := sg_last s; sg_width := sg_width s; sg_height := sg_height s; sg_pending := pending;
                     sg_next_frameno := sg_next_frameno s; sg_largest := N.max (sg_largest s) (blen (pk_data p)) |} with
                | Err e => Err e
                | Ok (s, n) => Ok (s, n + 1)
                end
            end
      end
  end.

Definition fail_video (now : N) (reason : VideoStopReason) (r : Recorder) : Recorder :=
  stop_video now reason (close_gap now (with_segment None (rc_next_segment r) r)).

(** [open_segment]: what the factory and the file system answered. *)
Definition open_segment (encoder : option E) (file : option (list bool)) (offset width height now : N) (r : Recorder)
  : Recorder * bool :=
  let number := rc_next_segment r in
  match encoder with
  | None => (stop_video now VidEncoderError r, false)
  | Some enc =>
      match file with
      | None => (stop_video now VidWriteError r, false)
      | Some ok =>
          let s := {| sg_number := number; sg_encoder := enc;
                      sg_writer := writer_create ok width height (enc_config enc);
                      sg_first := offset; sg_last := offset; sg_width := width; sg_height := height;
                      sg_pending := []; sg_next_frameno := 0; sg_largest := 0 |} in
          (write_own now (SegmentStarted (Z.of_N number) (Z.of_N offset) (Z.of_N width) (Z.of_N height))
             (with_segment (Some s) (number + 1) r), true)
      end
  end.

(** [send]: the error path keeps what the figures already counted. *)
Definition send (picture : I420) (offset : N) (r : Recorder) : Recorder * option VideoStopReason :=
  match rc_segment r with
  | None => (r, None)
  | Some s =>
      match enc_send (sg_encoder s) picture (sg_next_frameno s =? 0) with
      | None => (r, Some VidEncoderError)
      | Some enc =>
          match enc_receive enc with
          | None => (r, Some VidEncoderError)
          | Some (enc, packets) =>
              let s := {| sg_number := sg_number s; sg_encoder := enc; sg_writer := sg_writer s; sg_first := sg_first s;
                          sg_last := offset; sg_width := sg_width s; sg_height := sg_height s;
                          sg_pending := sg_pending s ++ [{| pd_frameno := sg_next_frameno s; pd_offset := offset |}];
                          sg_next_frameno := sg_next_frameno s + 1; sg_largest := sg_largest s |} in
              match mux packets s with
              | Err e => (r, Some e)
              | Ok (s, n) =>
                  let r := with_figures (add_encoded n (rc_figures r)) (with_segment (Some s) (rc_next_segment r) r) in
                  (r, if (MAX_PENDING <? length (sg_pending s))%nat then Some VidEncoderError else None)
              end
          end
      end
  end.

Definition close_segment (end_ : N) (reason : SegmentCloseReason) (r : Recorder) : Recorder :=
  match rc_segment r with
  | None => r
  | Some s =>
      let r := with_figures (add_held (N.of_nat (length (sg_pending s))) (rc_figures r)) (with_segment None (rc_next_segment r) r) in
      let flushed := match enc_flush (sg_encoder s) with None => Err VidEncoderError | Some packets => mux packets s end in
      match flushed with
      | Err _ => fail_video end_ VidEncoderError r
      | Ok (s, n) =>
          if negb (bool_decide (sg_pending s = [])) then fail_video end_ VidEncoderError r
          else
            let r := with_figures (add_encoded n (rc_figures r)) r in
            let end_ := N.max end_ (sg_last s + 1) in
            let frames := sw_frames (sg_writer s) in
            let closed bytes (r : Recorder) :=
              write_own end_ (SegmentClosed (Z.of_N (sg_number s)) (Z.of_N frames) (Z.of_N bytes) (Z.of_N (end_ - sg_first s)) reason) r in
            match finish (end_ - sg_first s) (sg_writer s) with
            | FinishedError => stop_video end_ VidWriteError r
            | FinishedNothing => closed 0 r
            | FinishedFile content bytes =>
                closed bytes
                  (with_closed
                     (rc_segments r ++ [{| en_file := segment_file (sg_number s); en_start := sg_first s; en_end := end_;
                        en_frames := frames; en_bytes := bytes; en_width := sg_width s; en_height := sg_height s |}])
                     (rc_files r ++ [(sg_number s, content)]) (rc_closed_bytes r + bytes) r)
            end
      end
  end.

(** ** Frames *)

Definition note_drops (t : Take) (now : N) (r : Recorder) : Recorder :=
  let offset := cf_offset_ms (tk_frame t) in
  if 0 <? tk_dropped t then
    match rc_gap r with
    | Some g =>
        with_gap (Some {| gp_from := gp_from g; gp_to := offset; gp_count := gp_count g + tk_dropped t |})
          (with_figures (add_dropped (tk_dropped t) 0 (rc_figures r)) r)
    | None =>
        with_gap (Some {| gp_from := default offset (tk_first_dropped_ms t); gp_to := offset; gp_count := tk_dropped t |})
          (with_figures (add_dropped (tk_dropped t) 1 (rc_figures r)) r)
    end
  else close_gap now r.

(** The desktop's size: a change closes the segment and is logged. *)
Definition note_size (f : CapturedFrame) (now : N) (r : Recorder) : Recorder :=
  let size := (cf_width f, cf_height f) in
  let r := with_last (rc_last_size r) (cf_frame_seq f) r in
  let r := if match rc_last_size r with Some s => negb (bool_decide (s = size)) | None => false end
           then write_own now (DesktopResized (Z.of_N (cf_width f)) (Z.of_N (cf_height f)))
                  (close_segment (cf_offset_ms f) SegResize r)
           else r in
  with_last (Some size) (rc_last_frame_seq r) r.

(** [handle_frame], from the check that video still runs. *)
Definition record_frame (encoder : option E) (file : option (list bool)) (f : CapturedFrame) (now : N) (r : Recorder)
  : Recorder :=
  if rc_video_stopped r || rc_failed r then r
  else
    let '(r, opened) := match rc_segment r with
                        | Some _ => (r, true)
                        | None => open_segment encoder file (cf_offset_ms f) (cf_width f) (cf_height f) now r
                        end in
    if negb opened then r
    else if rc_budget r <=? bytes_with_pending r then
      stop_video now VidSizeCap (close_segment (N.max now (cf_offset_ms f)) SegSizeCap r)
    else
      let picture := from_rgba (cf_rgba f) (N.to_nat (cf_width f)) (N.to_nat (cf_height f)) in
      match send picture (cf_offset_ms f) r with
      | (r, Some reason) => fail_video now reason r
      | (r, None) => r
      end.

Definition handle_frame (encoder : option E) (file : option (list bool)) (t : Take) (now : N) (r : Recorder) : Recorder :=
  record_frame encoder file (tk_frame t) now (note_size (tk_frame t) now (note_drops t now r)).

Definition deadline (r : Recorder) : option N :=
  match rc_segment r with Some s => Some (sg_first s + rc_segment_ms r) | None => None end.

Definition tick (now : N) (r : Recorder) : Recorder :=
  match deadline r with
  | Some d => if d <=? now then close_segment d SegDuration r else r
  | None => r
  end.

(** What [finish] puts into the manifest, the last event apart. *)
Record Ended := { ed_reason : StopReason; ed_duration : N; ed_captured : N; ed_figures : Figures; ed_segments : list SegmentEntry }.

Definition recorder_finish (last : option SessionEvent) (now captured : N) (r : Recorder) : Recorder * Ended :=
  let r := close_segment now SegStop (close_gap now r) in
  let last := default (own_event r now (RecordingStopped StopSessionClosed)) last in
  let reason := match se_kind last with RecordingStopped reason => reason | _ => StopSessionClosed end in
  let reason := if rc_failed r then StopWriteError else reason in
  (write last r,
   {| ed_reason := reason; ed_duration := now; ed_captured := captured; ed_figures := rc_figures r; ed_segments := rc_segments r |}).

(** One round of [run]: what the queue and the mailbox gave, the clock's
    readings, and what opening a segment answers.  [Some] when it ends. *)
Definition pass (d : Drained) (taken : option Take) (captured : N) (encoder : option E) (file : option (list bool))
    (now1 now2 now3 : N) (r : Recorder) : Recorder * option Ended :=
  let r := handle_events (dr_events d) (dr_lost d) now1 r in
  if dr_closed d || rc_failed r then
    let '(r, e) := recorder_finish (dr_last d) now2 captured r in (r, Some e)
  else
    let r := match taken with Some t => handle_frame encoder file t now1 r | None => r end in
    (tick now3 r, None).
End Recorder.
Arguments Segment : clear implicits.
Arguments Recorder : clear implicits.

(** ** Segments show the frames they were given *)

Section Shown.
Context {HSE : Serde SessionEvent} {E : Type} {HVE : VideoEncoder E}.
Implicit Types (r : Recorder E) (s : Segment E).

(** What the recorder is told, in order. *)
Inductive RecOp :=
| OEvents (events : list SessionEvent) (lost : Z) (now : N)
| OFrame (encoder : option E) (file : option (list bool)) (t : Take) (now : N)
| OTick (now : N)
| OFinish (last : option SessionEvent) (now captured : N).

Definition rec_step (r : Recorder E) (op : RecOp) : Recorder E :=
  match op with
  | OEvents es lost now => handle_events es lost now r
  | OFrame enc file t now => handle_frame enc file t now r
  | OTick now => tick now r
  | OFinish last now captured => fst (recorder_finish last now captured r)
  end.
Definition frame_of (op : RecOp) : list CapturedFrame := match op with OFrame _ _ t _ => [tk_frame t] | _ => [] end.
Definition frames_of (ops : list RecOp) : list CapturedFrame := ops ≫= frame_of.
Definition now_of (op : RecOp) : N :=
  match op with OEvents _ _ now | OFrame _ _ _ now | OTick now | OFinish _ now _ => now end.

(** Times that a [u64] holds. *)
Definition op_ok (op : RecOp) : Prop :=
  now_of op < 2 ^ 64 /\ Forall (fun f => cf_offset_ms f < 2 ^ 64 - 1) (frame_of op).

(** The frames of a segment with the packets of their numbers. *)
Definition input_of (first : N) (f : CapturedFrame) (p : Packet) : Input := (cf_offset_ms f - first, pk_data p, pk_key p).
Definition inputs (first : N) (fs : list CapturedFrame) (ps : list Packet) : list Input := zip_with (input_of first) fs ps.
Definition in_order (ps : list Packet) : Prop := forall i p, ps !! i = Some p -> pk_frameno p = N.of_nat i.

(** What an encoder is told of a segment's frames and answers: each picture is
    sent, the first one as a key frame, and what is ready is received. *)
Definition picture_of (f : CapturedFrame) : I420 :=
  from_rgba (cf_rgba f) (N.to_nat (cf_width f)) (N.to_nat (cf_height f)).

Inductive fed (e0 : E) : list CapturedFrame -> E -> list Packet -> Prop :=
| fed_none : fed e0 [] e0 []
| fed_frame fs f e e1 e2 out more :
    fed e0 fs e out -> enc_send e (picture_of f) (bool_decide (fs = [])) = Some e1 ->
    enc_receive e1 = Some (e2, more) -> fed e0 (fs ++ [f]) e2 (out ++ more).

(** A closed segment: its number, its entry in the manifest, its file, the
    frames it is of, the encoder it was opened with and all its packets. *)
Record Closed := {
  cs_number : N; cs_entry : SegmentEntry; cs_file : bytes; cs_frames : list CapturedFrame;
  cs_encoder : E; cs_packets : list Packet }.

(** Which encoder was made for which first frame. *)
Variable made : E -> CapturedFrame -> Prop.

Record shows (c : Closed) : Prop := {
  sh_file : en_file (cs_entry c) = segment_file (cs_number c);
  sh_frames : en_frames (cs_entry c) = blen (cs_frames c);
  sh_bytes : en_bytes (cs_entry c) = blen (cs_file c);
  sh_start : cf_offset_ms <$> head (cs_frames c) = Some (en_start (cs_entry c));
  sh_within : Forall (fun f => en_start (cs_entry c) <= cf_offset_ms f < en_end (cs_entry c)) (cs_frames c);
  sh_size : Forall (fun f => cf_width f = en_width (cs_entry c) /\ cf_height f = en_height (cs_entry c)) (cs_frames c);
  sh_made : exists f, head (cs_frames c) = Some f /\ made (cs_encoder c) f;
  sh_encoded : exists e out rest, fed (cs_encoder c) (cs_frames c) e out /\ enc_flush e = Some rest /\
    cs_packets c = out ++ rest;
  sh_packets : length (cs_packets c) = length (cs_frames c) /\ in_order (cs_packets c);
  sh_playable : blen (cs_file c) < 2 ^ 56 - 1 ->
     playable (cs_file c) (played (en_end (cs_entry c) - en_start (cs_entry c)) 0
       (inputs (en_start (cs_entry c)) (cs_frames c) (cs_packets c))) }.

(** Frame [n] onwards, as they wait for their packets. *)
Fixpoint waiting (n : N) (fs : list CapturedFrame) : list Pending :=
  match fs with [] => [] | f :: fs => {| pd_frameno := n; pd_offset := cf_offset_ms f |} :: waiting (n + 1) fs end.

(** An open segment that was given [current] and has written [packets]. *)
Definition written (s : Segment E) (current : list CapturedFrame) (packets : list Packet) : Prop :=
  exists done waits ok config,
    current = done ++ waits /\ length packets = length done /\ in_order packets /\
    write_frames (inputs (sg_first s) done packets) (writer_create ok (sg_width s) (sg_height s) config) = Some (sg_writer s) /\
    sg_pending s = waiting (blen done) waits /\ sg_next_frameno s = blen current /\
    Forall (fun f => sg_first s <= cf_offset_ms f <= sg_last s /\ cf_offset_ms f < 2 ^ 64 - 1) current /\
    Forall (fun f => cf_width f = sg_width s /\ cf_height f = sg_height s) current /\
    (current <> [] -> cf_offset_ms <$> head current = Some (sg_first s)) /\ sg_last s < 2 ^ 64 - 1.

(** ... namely those its encoder answered. *)
Definition holds (s : Segment E) (current : list CapturedFrame) : Prop :=
  exists e0 packets, fed e0 current (sg_encoder s) packets /\ (forall f, head current = Some f -> made e0 f) /\
    written s current packets.

Definition frames_closed (cs : list Closed) : list CapturedFrame := concat (map cs_frames cs).

Record recorded (r : Recorder E) (cs : list Closed) (current handled : list CapturedFrame) : Prop := {
  rd_entries : rc_segments r = map cs_entry cs;
  rd_files : rc_files r = map (fun c => (cs_number c, cs_file c)) cs;
  rd_shows : Forall shows cs;
  rd_current : match rc_segment r with Some s => holds s current | None => current = [] end;
  rd_sublist : frames_closed cs ++ current `sublist_of` handled;
  rd_all : rc_video_stopped r = false -> rc_failed r = false -> frames_closed cs ++ current = handled }.

(** ** What does not touch the video *)

Record same_video (r r' : Recorder E) : Prop := {
  sv_entries : rc_segments r' = rc_segments r;
  sv_files : rc_files r' = rc_files r;
  sv_segment : rc_segment r' = rc_segment r;
  sv_size : rc_last_size r' = rc_last_size r;
  sv_stopped : rc_video_stopped r' = false -> rc_video_stopped r = false;
  sv_failed : rc_failed r' = false -> rc_failed r = false }.

Lemma same_video_refl r : same_video r r.
Proof. by split. Qed.
Lemma same_video_trans r1 r2 r3 : same_video r1 r2 -> same_video r2 r3 -> same_video r1 r3.
Proof. intros [] []. split; try congruence; auto. Qed.

Lemma same_recorded r r' cs current handled : same_video r r' -> recorded r cs current handled -> recorded r' cs current handled.
Proof. intros [H1 H2 H3 _ H4 H5] []. split; rewrite ?H1, ?H2, ?H3; auto. Qed.

Lemma same_write e r : same_video r (write e r).
Proof.
  unfold write. destruct (rc_failed r) eqn:Hf; [apply same_video_refl|].
  destruct (log_write (rc_log r) e) as [l ok]. by split.
Qed.
Lemma same_write_own now k r : same_video r (write_own now k r).
Proof. apply same_write. Qed.

Lemma same_close_gap now r : same_video r (close_gap now r).
Proof.
  unfold close_gap. destruct (rc_gap r); [|apply same_video_refl].
  eapply same_video_trans; [|apply same_write_own]. by split.
Qed.

Lemma same_stop_video now reason r : same_video r (stop_video now reason r).
Proof.
  unfold stop_video. destruct (rc_video_stopped r) eqn:Hs; [apply same_video_refl|].
  eapply same_video_trans; [|apply same_write_own]. by split.
Qed.

Lemma write_stopped e r : rc_video_stopped (write e r) = rc_video_stopped r.
Proof. unfold write. destruct (rc_failed r); [done|]. by destruct (log_write (rc_log r) e). Qed.

Lemma stop_video_stops now reason r : rc_video_stopped (stop_video now reason r) = true.
Proof. unfold stop_video. destruct (rc_video_stopped r) eqn:Hs; [done|]. unfold write_own. by rewrite write_stopped. Qed.

Lemma same_handle_events es lost now r : same_video r (handle_events es lost now r).
Proof.
  unfold handle_events. set (r1 := fold_left _ es r). assert (same_video r r1) as H1.
  { unfold r1. clear r1. revert r. induction es as [|e es IH]; intros r; [apply same_video_refl|].
    cbn [fold_left]. eapply same_video_trans; [apply same_write|apply IH]. }
  destruct (0 <? lost)%Z; [|done]. eapply same_video_trans; [exact H1|].
  eapply same_video_trans; [|apply same_write_own]. by split.
Qed.

Lemma same_note_drops t now r : same_video r (note_drops t now r).
Proof.
  unfold note_drops. destruct (0 <? tk_dropped t); [|apply same_close_gap]. by destruct (rc_gap r).
Qed.

(** ** Writing packets *)

Lemma put_frames bs w w' : put bs w = Some w' -> sw_frames w' = sw_frames w.
Proof. unfold put. destruct (next_ok _) as [[] ok]; [|done]. by intros [= <-]. Qed.

Lemma emit_frames t b w w' : emit_block t b w = Some w' -> sw_frames w' = sw_frames w.
Proof.
  unfold emit_block. destruct (match sw_cluster w with Some c => _ | None => false end).
  - intros [= <-]. by destruct (sw_cluster w).
  - unfold flush_cluster. destruct (sw_cluster w) as [c|]; [|by intros [= <-]].
    destruct (put _ _) as [w1|] eqn:H; [|done]. apply put_frames in H. by intros [= <-].
Qed.

Lemma write_header_frames p w w' : write_header p w = Some w' -> sw_frames w' = sw_frames w.
Proof.
  unfold write_header.
  repeat match goal with |- match put ?b ?x with _ => _ end = _ -> _ =>
    let H := fresh in destruct (put b x) eqn:H; [apply put_frames in H|discriminate] end.
  intros Hlast%put_frames. cbn [sw_frames with_places] in *. congruence.
Qed.

Lemma write_frame_frames t d k w w' : write_frame t d k w = Some w' -> sw_frames w' = sw_frames w + 1.
Proof.
  unfold write_frame. destruct (if sw_data_start w =? 0 then write_header d w else Some w) as [w1|] eqn:Hh; [|done].
  assert (sw_frames w1 = sw_frames w) as <-.
  { destruct (sw_data_start w =? 0); [by apply write_header_frames in Hh|by injection Hh as <-]. }
  destruct (sw_held w1) as [h|]; [destruct (emit_block _ _ w1) as [w2|] eqn:He; [|done]|]; intros [= <-]; [|done].
  apply emit_frames in He. cbn. by rewrite He.
Qed.

Lemma write_frames_count fs w w' : write_frames fs w = Some w' -> sw_frames w' = sw_frames w + blen fs.
Proof.
  revert w. induction fs as [|[[t d] k] fs IH]; intros w; cbn [write_frames]; [intros [= <-]; unfold blen; cbn; lia|].
  destruct (write_frame t d k w) as [w1|] eqn:H; [|done]. intros Hw. apply write_frame_frames in H. apply IH in Hw.
  rewrite Hw, H, blen_cons. lia.
Qed.

Lemma write_frames_snoc fs t d k w w1 w2 :
  write_frames fs w = Some w1 -> write_frame t d k w1 = Some w2 -> write_frames (fs ++ [(t, d, k)]) w = Some w2.
Proof.
  revert w. induction fs as [|[[t' d'] k'] fs IH]; intros w; cbn [write_frames app]; [by intros [= <-] ->|].
  destruct (write_frame t' d' k' w) as [w'|]; [|done]. apply IH.
Qed.

Lemma in_order_snoc ps p : in_order ps -> pk_frameno p = blen ps -> in_order (ps ++ [p]).
Proof.
  intros Ho Hp i q Hq. apply lookup_app_Some in Hq as [Hq|[Hl Hq]]; [by apply Ho|].
  apply list_lookup_singleton_Some in Hq as [Hi <-]. rewrite Hp. unfold blen. f_equal. lia.
Qed.

(** [mux] moves frames from the waiting ones to the written ones. *)
Lemma mux_written packets s s' n current ps :
  written s current ps -> mux packets s = Ok (s', n) ->
  written s' current (ps ++ packets) /\ sg_number s' = sg_number s /\ sg_first s' = sg_first s /\ sg_last s' = sg_last s /\
  sg_width s' = sg_width s /\ sg_height s' = sg_height s /\ sg_encoder s' = sg_encoder s.
Proof.
  revert s n ps. induction packets as [|p packets IH]; intros s n ps Hh Hm; cbn [mux] in Hm.
  { injection Hm as <- <-. by rewrite app_nil_r. }
  destruct (sg_pending s) as [|front pending] eqn:Hp; [done|].
  destruct (negb (pd_frameno front =? pk_frameno p)) eqn:Hno; [done|]. apply negb_false_iff, N.eqb_eq in Hno.
  destruct (write_frame _ _ _ _) as [w|] eqn:Hw; [|done].
  destruct (mux packets _) as [[s1 n1]|] eqn:Hm1; [|done]. injection Hm as <- <-.
  apply (IH _ _ (ps ++ [p])) in Hm1 as (H1 & H2 & H3 & H4 & H5 & H6 & H7).
  { rewrite <- app_assoc in H1. by split_and!. }
  destruct Hh as (dn & waits & ok & config & -> & Hl & Ho & Hwf & Hpd & Hx & Hr & Hs & Hhd & Hb).
  rewrite Hp in Hpd. destruct waits as [|f waits]; [done|]. cbn [waiting] in Hpd. injection Hpd as -> ->.
  cbn [pd_frameno pd_offset] in *.
  exists (dn ++ [f]), waits, ok, config. cbn [sg_first sg_writer sg_pending sg_next_frameno sg_last sg_width sg_height].
  split_and!; try done.
  - by rewrite <- app_assoc.
  - rewrite !length_app. cbn. lia.
  - apply in_order_snoc; [done|]. unfold blen in *. congruence.
  - unfold inputs. rewrite zip_with_app by done. cbn [zip_with]. unfold input_of at 2.
    eapply write_frames_snoc; [exact Hwf|exact Hw].
  - unfold blen. rewrite length_app. cbn. f_equal. lia.
Qed.

(** ** Closing *)

Lemma lost_recorded r r' cs current handled :
  recorded r cs current handled -> rc_segments r' = rc_segments r -> rc_files r' = rc_files r -> rc_segment r' = None ->
  rc_video_stopped r' = true -> recorded r' cs [] handled.
Proof.
  intros [He Hf Hs _ Hsub _] E1 E2 E3 E4. split; rewrite ?E1, ?E2, ?E3, ?E4; try done.
  rewrite app_nil_r. etrans; [|exact Hsub]. apply sublist_inserts_r. done.
Qed.

Lemma fail_recorded now reason r cs current handled :
  recorded r cs current handled -> recorded (fail_video now reason r) cs [] handled /\ rc_segment (fail_video now reason r) = None.
Proof.
  intros H. unfold fail_video. set (r0 := with_segment None (rc_next_segment r) r).
  pose proof (same_video_trans _ _ _ (same_close_gap now r0) (same_stop_video now reason _)) as [E1 E2 E3 _ _ _].
  split; [|done]. eapply lost_recorded; [exact H|exact E1|exact E2|exact E3|apply stop_video_stops].
Qed.

Lemma first_offset_head {A} (f : A -> N) l x : l <> [] -> f <$> head l = Some x -> exists y k, l = y :: k /\ f y = x.
Proof. destruct l as [|y k]; [done|]. intros _ [= <-]. by exists y, k. Qed.

(** The file of a segment without waiting frames, once the encoder is
    flushed. *)
Lemma finish_holds s e0 e out rest current end_ :
  fed e0 current e out -> enc_flush e = Some rest -> (forall f, head current = Some f -> made e0 f) ->
  written s current (out ++ rest) -> sg_pending s = [] -> sg_last s < end_ -> end_ < 2 ^ 64 ->
  match finish (end_ - sg_first s) (sg_writer s) with
  | FinishedError => True
  | FinishedNothing => current = []
  | FinishedFile content bytes =>
      current <> [] /\
      shows {| cs_number := sg_number s;
               cs_entry := {| en_file := segment_file (sg_number s); en_start := sg_first s; en_end := end_;
                              en_frames := sw_frames (sg_writer s); en_bytes := bytes; en_width := sg_width s; en_height := sg_height s |};
               cs_file := content; cs_frames := current; cs_encoder := e0; cs_packets := out ++ rest |}
  end.
Proof.
  intros Hfed Hflush Hmade (dn & waits & ok & config & -> & Hl & Ho & Hw & Hp & _ & Hr & Hs & Hhd & Hb) Hnil Hend He.
  remember (out ++ rest) as ps eqn:Hps.
  rewrite Hnil in Hp. destruct waits; [|done]. rewrite app_nil_r in *. clear Hp Hnil.
  assert (Hin : length (inputs (sg_first s) dn ps) = length dn).
  { unfold inputs. rewrite length_zip_with. lia. }
  assert (Ht : Forall (fun f => fst (fst f) < 2 ^ 64) (inputs (sg_first s) dn ps)).
  { unfold inputs. apply Forall_zip_with_fst with (P := fun f => cf_offset_ms f < 2 ^ 64 - 1).
    - eapply Forall_impl; [exact Hr|]. by intros f [_ Hf].
    - apply Forall_true. intros p f Hf. cbn. lia. }
  destruct (decide (dn = [])) as [->|Hne].
  { destruct ps; [|done]. cbn in Hw. injection Hw as <-. cbn. by destruct (fst (next_ok ok)). }
  assert (Hine : inputs (sg_first s) dn ps <> []) by (intros Hx; rewrite Hx in Hin; by destruct dn).
  assert (He' : end_ - sg_first s < 2 ^ 64) by lia.
  destruct (finish (end_ - sg_first s) (sg_writer s)) as [content bytes| |] eqn:Hf; [| |done].
  - split; [done|]. destruct (finished_segment _ _ _ _ _ _ _ _ _ Hine Ht He' Hw Hf) as [-> Hplay].
    split; cbn [cs_number cs_entry cs_file cs_frames cs_encoder cs_packets en_file en_start en_end en_frames en_bytes en_width en_height]; try done.
    + apply write_frames_count in Hw. rewrite Hw. unfold blen. rewrite Hin. cbn. lia.
    + by apply Hhd.
    + eapply Forall_impl; [exact Hr|]. intros f. cbn. lia.
    + destruct dn as [|f dn]; [done|]. exists f. split; [done|]. by apply Hmade.
    + by exists e, out, rest.
  - exfalso. apply write_frames_forget in Hw. apply finish_forget in Hf; [|done].
    destruct (segment_spec (sg_width s) (sg_height s) config _ _ Hine Ht He') as (w' & file & Hw' & Hfin & _).
    change (forget (writer_create ok (sg_width s) (sg_height s) config)) with (writer_create [] (sg_width s) (sg_height s) config) in Hw.
    congruence.
Qed.

Lemma close_recorded end_ reason r cs current handled :
  recorded r cs current handled -> end_ < 2 ^ 64 ->
  exists cs', recorded (close_segment end_ reason r) cs' [] handled /\ rc_segment (close_segment end_ reason r) = None.
Proof.
  intros H He. unfold close_segment. destruct (rc_segment r) as [s|] eqn:Hs.
  2: { exists cs. destruct H as [? ? ? Hc]. rewrite Hs in Hc. subst current. split; [|done]. split; try done. by rewrite Hs. }
  set (r0 := with_figures _ _).
  assert (H0 : forall r', same_video r0 r' -> rc_video_stopped r' = true -> exists cs', recorded r' cs' [] handled /\ rc_segment r' = None).
  { intros r' [E1 E2 E3 _ _ _] Hv. exists cs. split; [|by rewrite E3]. eapply lost_recorded; [exact H|..]; done. }
  assert (Hfail : forall now reason', exists cs', recorded (fail_video now reason' r0) cs' [] handled /\ rc_segment (fail_video now reason' r0) = None).
  { intros now reason'. apply H0; [|apply stop_video_stops]. unfold fail_video.
    eapply same_video_trans; [|apply same_stop_video]. eapply same_video_trans; [|apply same_close_gap]. by split. }
  destruct (enc_flush (sg_encoder s)) as [packets|] eqn:Hflush; [|apply Hfail].
  destruct (mux packets s) as [[s1 n]|] eqn:Hm; [|apply Hfail].
  pose proof (rd_current _ _ _ _ H) as Hh. rewrite Hs in Hh.
  destruct Hh as (e0 & out & Hfed & Hmade & Hh).
  destruct (mux_written _ _ _ _ _ _ Hh Hm) as (Hh1 & E1 & E2 & E3 & E4 & E5 & E6).
  destruct (bool_decide_reflect (sg_pending s1 = [])) as [Hnil|Hne]; cbn [negb]; [|apply Hfail].
  assert (Hlast : sg_last s1 < 2 ^ 64 - 1) by (destruct Hh1 as (?&?&?&?&Hx); apply Hx).
  pose proof (finish_holds s1 e0 _ out packets current (N.max end_ (sg_last s1 + 1)) Hfed Hflush Hmade Hh1 Hnil) as Hfin.
  specialize (Hfin ltac:(lia) ltac:(lia)).
  destruct (finish _ (sg_writer s1)) as [content bytes| |].
  - destruct Hfin as [Hne Hshow]. set (c := Build_Closed _ _ _ _ _ _) in Hshow. exists (cs ++ [c]). split.
    + eapply same_recorded; [apply same_write_own|]. destruct H as [D1 D2 D3 D4 D5 D6].
      split; cbn [with_closed with_figures with_segment rc_segments rc_files rc_segment rc_video_stopped rc_failed].
      * rewrite map_app. cbn. by rewrite D1.
      * rewrite map_app. cbn. by rewrite D2.
      * apply Forall_app. split; [done|by constructor].
      * done.
      * unfold frames_closed in *. rewrite map_app, concat_app. cbn. by rewrite !app_nil_r.
      * intros Hv Hf. unfold frames_closed in *. rewrite map_app, concat_app. cbn. rewrite !app_nil_r. by apply D6.
    + pose proof (same_write_own (N.max end_ (sg_last s1 + 1))) as Hx. by rewrite (sv_segment _ _ (Hx _ _)).
  - subst current. exists cs. split.
    + eapply same_recorded; [apply same_write_own|]. destruct H as [D1 D2 D3 D4 D5 D6]. by split.
    + by rewrite (sv_segment _ _ (same_write_own _ _ _)).
  - apply H0; [|apply stop_video_stops]. eapply same_video_trans; [|apply same_stop_video]. by split.
Qed.

(** ** Frames *)

(** A frame that comes when no video is written any more. *)
Lemma dropped_recorded r cs current handled f :
  recorded r cs current handled -> rc_video_stopped r = true \/ rc_failed r = true ->
  recorded r cs current (handled ++ [f]).
Proof.
  intros [H1 H2 H3 H4 H5 H6] Hd. split; try done.
  - etrans; [exact H5|]. by apply sublist_inserts_r.
  - intros Hv Hf. destruct Hd; congruence.
Qed.

(** The open segment, when there is one: of the last size, not empty, and not
    beyond [bound]. *)
Definition steady r (current : list CapturedFrame) (bound : N) : Prop :=
  match rc_segment r with
  | Some s => rc_last_size r = Some (sg_width s, sg_height s) /\ current <> [] /\ sg_first s <= sg_last s <= bound
  | None => True
  end.

Lemma steady_same r r' current bound bound' :
  same_video r r' -> bound <= bound' -> steady r current bound -> steady r' current bound'.
Proof.
  intros [_ _ H3 H4 _ _] Hb. unfold steady. rewrite H3, H4. destruct (rc_segment r); [|done]. intros (?&?&?). split_and!; try done; lia.
Qed.

Lemma steady_closed r current bound : rc_segment r = None -> steady r current bound.
Proof. unfold steady. by intros ->. Qed.

Lemma note_size_recorded f now r cs current handled bound :
  recorded r cs current handled -> steady r current bound -> cf_offset_ms f < 2 ^ 64 - 1 ->
  exists cs' current', recorded (note_size f now r) cs' current' handled /\ steady (note_size f now r) current' bound /\
    rc_last_size (note_size f now r) = Some (cf_width f, cf_height f).
Proof.
  intros H Hst Hb. unfold note_size. set (r0 := with_last (rc_last_size r) (cf_frame_seq f) r).
  assert (H0 : recorded r0 cs current handled) by (destruct H; by split).
  change (rc_last_size r0) with (rc_last_size r).
  destruct (match rc_last_size r with Some s => _ | None => false end) eqn:Hd.
  - destruct (close_recorded (cf_offset_ms f) SegResize r0 cs current handled H0 ltac:(lia)) as (cs' & H1 & Hn).
    set (r1 := close_segment _ _ r0) in *.
    pose proof (same_write_own now (DesktopResized (Z.of_N (cf_width f)) (Z.of_N (cf_height f))) r1) as Hw.
    exists cs', []. split; [|split; [|done]].
    + apply (same_recorded _ _ _ _ _ Hw) in H1. destruct H1. by split.
    + apply steady_closed. cbn. by rewrite (sv_segment _ _ Hw).
  - exists cs, current. split; [destruct H0; by split|]. split; [|done].
    unfold steady in *. cbn. destruct (rc_segment r) as [s|]; [|done]. destruct Hst as (Hl & Hne & Hr).
    rewrite Hl in Hd. apply negb_false_iff, bool_decide_eq_true in Hd. rewrite <- Hd. done.
Qed.

Lemma open_recorded enc file f now r cs handled r' ok :
  recorded r cs [] handled -> cf_offset_ms f < 2 ^ 64 - 1 ->
  open_segment enc file (cf_offset_ms f) (cf_width f) (cf_height f) now r = (r', ok) ->
  rc_segment r = None ->
  (ok = false -> recorded r' cs [] handled /\ rc_segment r' = None /\ rc_video_stopped r' = true) /\
  (ok = true -> recorded r' cs [] handled /\ rc_last_size r' = rc_last_size r /\
     exists s, rc_segment r' = Some s /\ enc = Some (sg_encoder s) /\ sg_first s = cf_offset_ms f /\ sg_last s = cf_offset_ms f /\
       sg_width s = cf_width f /\ sg_height s = cf_height f).
Proof.
  intros H Hb Ho Hn. unfold open_segment in Ho.
  assert (Hstop : forall reason, recorded (stop_video now reason r) cs [] handled /\ rc_segment (stop_video now reason r) = None).
  { intros reason. pose proof (same_stop_video now reason r) as Hs. split; [by eapply same_recorded|].
    by rewrite (sv_segment _ _ Hs). }
  destruct enc as [e|]; [destruct file as [o|]|].
  2,3: injection Ho as <- <-; split; [intros _|done]; split_and!; [apply Hstop..|apply stop_video_stops].
  injection Ho as <- <-. split; [done|]. intros _.
  match goal with |- context [write_own ?n ?k ?x] => pose proof (same_write_own n k x) as Hw; set (r1 := x) in * end.
  split; [|split].
  - eapply same_recorded; [exact Hw|]. destruct H as [H1 H2 H3 H4 H5 H6]. split; try done.
    cbn. exists e, []. cbn. split_and!; [constructor|done|]. exists [], [], o, (enc_config e). cbn. split_and!; try done; lia.
  - by rewrite (sv_size _ _ Hw).
  - rewrite (sv_segment _ _ Hw). eexists. split; [reflexivity|]. done.
Qed.

Lemma waiting_snoc n fs f :
  waiting n (fs ++ [f]) = waiting n fs ++ [{| pd_frameno := n + blen fs; pd_offset := cf_offset_ms f |}].
Proof.
  revert n. induction fs as [|g fs IH]; intros n; cbn [app waiting].
  - unfold blen. cbn. by rewrite N.add_0_r.
  - rewrite IH, blen_cons. cbn. by replace (n + 1 + blen fs) with (n + (1 + blen fs)) by lia.
Qed.

(** A frame that is sent becomes the last of the segment. *)
Lemma send_recorded f r s cs current handled :
  recorded r cs current handled -> rc_segment r = Some s -> (current = [] -> made (sg_encoder s) f) -> sg_last s <= cf_offset_ms f -> sg_first s <= cf_offset_ms f ->
  cf_offset_ms f < 2 ^ 64 - 1 -> cf_width f = sg_width s -> cf_height f = sg_height s ->
  (current = [] -> cf_offset_ms f = sg_first s) ->
  match send (picture_of f) (cf_offset_ms f) r with
  | (r', None) => recorded r' cs (current ++ [f]) (handled ++ [f]) /\ rc_last_size r' = rc_last_size r /\
      exists s', rc_segment r' = Some s' /\ sg_width s' = sg_width s /\ sg_height s' = sg_height s /\
        sg_first s' = sg_first s /\ sg_last s' = cf_offset_ms f
  | (r', Some _) => rc_segments r' = rc_segments r /\ rc_files r' = rc_files r
  end.
Proof.
  intros H Hs Hmade Hl Hfirst Hb Hw Hh Hc. unfold send. rewrite Hs.
  destruct (enc_send _ _ _) as [e|] eqn:Hsend; [|done]. destruct (enc_receive e) as [[e' packets]|] eqn:Hrecv; [|done].
  set (s1 := Build_Segment _ _ _ _ _ _ _ _ _ _).
  pose proof (rd_current _ _ _ _ H) as Hcur. rewrite Hs in Hcur. destruct Hcur as (e0 & out & Hfed & Hm0 & Hcur).
  assert (Hfed1 : fed e0 (current ++ [f]) e' (out ++ packets)).
  { eapply fed_frame; [exact Hfed| |exact Hrecv]. rewrite <- Hsend. f_equal.
    destruct Hcur as (dn & waits & ok & config & _ & _ & _ & _ & _ & Hn & _). rewrite Hn. destruct current; [done|].
    rewrite blen_cons. symmetry. rewrite bool_decide_eq_false_2 by done. apply N.eqb_neq. lia. }
  assert (Hm1 : forall g, head (current ++ [f]) = Some g -> made e0 g).
  { intros g. destruct current as [|g0 k]; [|by apply Hm0]. intros [= <-].
    inversion Hfed as [Hx|]; [by apply Hmade|]. by destruct fs. }
  assert (H1 : written s1 (current ++ [f]) out).
  { destruct Hcur as (dn & waits & ok & config & -> & Hlen & Ho & Hwf & Hp & Hn & Hr & Hz & Hd & Hx).
    exists dn, (waits ++ [f]), ok, config. cbn [s1 sg_first sg_writer sg_pending sg_next_frameno sg_last sg_width sg_height].
    split_and!; try done.
    - by rewrite app_assoc.
    - rewrite waiting_snoc, Hp, Hn. unfold blen. rewrite length_app. do 3 f_equal. lia.
    - rewrite Hn. unfold blen. rewrite (length_app (dn ++ waits)). cbn. lia.
    - apply Forall_app. split; [|constructor; [lia|constructor]]. eapply Forall_impl; [exact Hr|]. intros g. cbn. lia.
    - apply Forall_app. split; [done|by repeat constructor].
    - intros _. destruct (dn ++ waits) as [|g k] eqn:Hg; [cbn; by rewrite (Hc eq_refl)|]. cbn. by apply Hd. }
  destruct (mux packets s1) as [[s2 n]|] eqn:Hm; [|done].
  destruct (mux_written _ _ _ _ _ _ H1 Hm) as (H2 & E1 & E2 & E3 & E4 & E5 & E6).
  destruct (_ <? _)%nat; [done|]. split; [|split; [done|]].
  - destruct H as [D1 D2 D3 D4 D5 D6]. split; try done.
    + exists e0, (out ++ packets). cbn. by rewrite E6.
    + rewrite app_assoc. by apply sublist_app.
    + intros Hv Hf. rewrite app_assoc. by rewrite (D6 Hv Hf).
  - exists s2. done.
Qed.

Lemma fail_after_send now reason r r' cs current handled f :
  recorded r cs current handled -> rc_segments r' = rc_segments r -> rc_files r' = rc_files r ->
  recorded (fail_video now reason r') cs [] (handled ++ [f]) /\ rc_segment (fail_video now reason r') = None.
Proof.
  intros H E1 E2. unfold fail_video. set (r0 := with_segment None (rc_next_segment r') r').
  pose proof (same_video_trans _ _ _ (same_close_gap now r0) (same_stop_video now reason _)) as [F1 F2 F3 _ _ _].
  split; [|by rewrite F3]. apply dropped_recorded; [|left; apply stop_video_stops].
  eapply lost_recorded; [exact H|by rewrite F1|by rewrite F2|by rewrite F3|apply stop_video_stops].
Qed.

Lemma write_video r r' s cs current handled f now :
  recorded r cs current handled -> rc_segment r = Some s -> (current = [] -> made (sg_encoder s) f) ->
  rc_last_size r = Some (cf_width f, cf_height f) -> (sg_width s, sg_height s) = (cf_width f, cf_height f) ->
  sg_first s <= sg_last s <= cf_offset_ms f -> (current = [] -> cf_offset_ms f = sg_first s) ->
  cf_offset_ms f < 2 ^ 64 - 1 -> now < 2 ^ 64 ->
  r' = (if rc_budget r <=? bytes_with_pending r then
          stop_video now VidSizeCap (close_segment (N.max now (cf_offset_ms f)) SegSizeCap r)
        else match send (picture_of f) (cf_offset_ms f) r with
             | (r, Some reason) => fail_video now reason r
             | (r, None) => r
             end) ->
  exists cs' current', recorded r' cs' current' (handled ++ [f]) /\ steady r' current' (cf_offset_ms f).
Proof.
  intros H Hs Hmade Hsz [= Hw Hh] Hr Hc Hb Hn ->. destruct (_ <=? _).
  - destruct (close_recorded (N.max now (cf_offset_ms f)) SegSizeCap r cs current handled H ltac:(lia)) as (cs' & H1 & H2).
    pose proof (same_stop_video now VidSizeCap (close_segment (N.max now (cf_offset_ms f)) SegSizeCap r)) as Hst.
    exists cs', []. split.
    + apply dropped_recorded; [|left; apply stop_video_stops]. by eapply same_recorded.
    + apply steady_closed. by rewrite (sv_segment _ _ Hst).
  - pose proof (send_recorded f r s cs current handled H Hs Hmade) as Hsend.
    destruct (send _ _ r) as [r1 [reason|]].
    + destruct Hsend as [E1 E2]; try done; try lia. destruct (fail_after_send now reason r r1 cs current handled f H E1 E2) as [H1 H2].
      exists cs, []. split; [done|by apply steady_closed].
    + destruct Hsend as (H1 & E1 & s' & E2 & E3 & E4 & E5 & E6); try done; try lia. exists cs, (current ++ [f]). split; [done|].
      unfold steady. rewrite E2, E1, E3, E4, E5, E6, Hsz, Hw, Hh. split_and!; try done; try lia. by destruct current.
Qed.

Lemma frame_recorded enc file t now r cs current handled bound :
  (forall e, enc = Some e -> made e (tk_frame t)) -> recorded r cs current handled -> steady r current bound -> bound <= cf_offset_ms (tk_frame t) ->
  cf_offset_ms (tk_frame t) < 2 ^ 64 - 1 -> now < 2 ^ 64 ->
  exists cs' current', recorded (handle_frame enc file t now r) cs' current' (handled ++ [tk_frame t]) /\
    steady (handle_frame enc file t now r) current' (cf_offset_ms (tk_frame t)).
Proof.
  intros Hmade H Hst Hbd Hb Hn. unfold handle_frame. set (f := tk_frame t) in *.
  pose proof (same_note_drops t now r) as Hd. set (r1 := note_drops t now r) in *.
  apply (same_recorded _ _ _ _ _ Hd) in H. apply (steady_same _ _ _ _ bound Hd) in Hst; [|lia].
  destruct (note_size_recorded f now r1 cs current handled bound H Hst Hb) as (cs1 & cur1 & H1 & Hst1 & Hsz).
  set (r2 := note_size f now r1) in *. clearbody r2. clear r1 H Hst Hd. unfold record_frame.
  destruct (rc_video_stopped r2 || rc_failed r2) eqn:Hdead.
  { exists cs1, cur1. split; [|by eapply steady_same; [apply same_video_refl|..]].
    apply dropped_recorded; [done|]. by apply orb_true_iff in Hdead. }
  destruct (rc_segment r2) as [s|] eqn:Hs.
  - cbn [negb]. unfold steady in Hst1. rewrite Hs in Hst1. destruct Hst1 as (Hl & Hne & Hr).
    eapply (write_video r2 _ s cs1 cur1 handled f now); try done; [by rewrite Hsz in Hl; injection Hl as -> ->|lia].
  - pose proof (rd_current _ _ _ _ H1) as Hcur. rewrite Hs in Hcur. subst cur1.
    destruct (open_segment _ _ _ _ _ _ r2) as [r3 ok] eqn:Ho.
    destruct (open_recorded enc file f now r2 cs1 handled r3 ok H1 Hb Ho Hs) as [Hno Hyes].
    destruct ok; cbn [negb].
    + destruct (Hyes eq_refl) as (H3 & Hl3 & s & Hs3 & E0 & E1 & E2 & E3 & E4).
      eapply (write_video r3 _ s cs1 [] handled f now); try done; [by intros _; apply Hmade|by rewrite Hl3|by rewrite E3, E4|lia].
    + destruct (Hno eq_refl) as (H3 & Hs3 & Hv). exists cs1, []. split; [|by apply steady_closed].
      apply dropped_recorded; [done|by left].
Qed.

(** Captures come in the order of their times. *)
Fixpoint in_time (bound : N) (fs : list CapturedFrame) : Prop :=
  match fs with [] => True | f :: fs => bound <= cf_offset_ms f < 2 ^ 64 - 1 /\ in_time (cf_offset_ms f) fs end.

Lemma tick_recorded now r cs current handled bound :
  recorded r cs current handled -> steady r current bound -> now < 2 ^ 64 ->
  exists cs' current', recorded (tick now r) cs' current' handled /\ steady (tick now r) current' bound.
Proof.
  intros H Hs Hn. unfold tick. destruct (deadline r) as [d|]; [|by exists cs, current].
  destruct (N.leb_spec d now); [|by exists cs, current].
  destruct (close_recorded d SegDuration r cs current handled H ltac:(lia)) as (cs' & H1 & H2).
  exists cs', []. split; [done|by apply steady_closed].
Qed.

Lemma finish_recorded last now captured r cs current handled :
  recorded r cs current handled -> now < 2 ^ 64 ->
  exists cs', recorded (fst (recorder_finish last now captured r)) cs' [] handled /\
    rc_segment (fst (recorder_finish last now captured r)) = None /\
    ed_segments (snd (recorder_finish last now captured r)) = rc_segments (fst (recorder_finish last now captured r)).
Proof.
  intros H Hn. unfold recorder_finish. cbn [fst snd ed_segments].
  apply (same_recorded _ _ _ _ _ (same_close_gap now r)) in H.
  destruct (close_recorded now SegStop (close_gap now r) cs current handled H Hn) as (cs' & H1 & H2).
  match goal with |- context [write ?e ?x] => pose proof (same_write e x) as Hw end.
  exists cs'. split; [by eapply same_recorded|]. by rewrite (sv_segment _ _ Hw), (sv_entries _ _ Hw).
Qed.

Lemma steps_recorded ops r cs current handled bound :
  recorded r cs current handled -> steady r current bound -> in_time bound (frames_of ops) -> Forall (fun op => now_of op < 2 ^ 64) ops ->
  (forall e file t now, OFrame (Some e) file t now ∈ ops -> made e (tk_frame t)) ->
  exists cs' current', recorded (fold_left rec_step ops r) cs' current' (handled ++ frames_of ops).
Proof.
  revert r cs current handled bound. induction ops as [|op ops IH]; intros r cs current handled bound H Hs Ht Ho Hmade.
  { exists cs, current. unfold frames_of. cbn. by rewrite app_nil_r. }
  assert (Hmade' : forall e file t now, OFrame (Some e) file t now ∈ ops -> made e (tk_frame t)).
  { intros e file t now Hi. apply (Hmade e file t now). by right. }
  apply Forall_cons in Ho as [Hn Ho]. cbn [fold_left]. unfold frames_of in *. rewrite bind_cons in *.
  destruct op as [es lost now|enc file t now|now|last now captured]; cbn [rec_step frame_of now_of app] in *.
  - eapply IH; [eapply same_recorded; [apply same_handle_events|exact H]| |exact Ht|exact Ho|exact Hmade'].
    eapply steady_same; [apply same_handle_events| |exact Hs]. lia.
  - destruct Ht as [Hb Ht]. destruct (frame_recorded enc file t now r cs current handled bound) as (cs' & cur' & H1 & H2); [|done|done|lia..|].
    { intros e ->. apply (Hmade e file t now). by left. }
    destruct (IH _ _ _ _ _ H1 H2 Ht Ho Hmade') as (cs2 & cur2 & H3). exists cs2, cur2. by rewrite <- app_assoc in H3.
  - destruct (tick_recorded now r cs current handled bound H Hs Hn) as (cs' & cur' & H1 & H2). by eapply IH.
  - destruct (finish_recorded last now captured r cs current handled H Hn) as (cs' & H1 & H2 & _).
    eapply IH; [exact H1|by apply steady_closed|exact Ht|exact Ho|exact Hmade'].
Qed.

Lemma recorder_new_recorded timeline budget segment_ms io : recorded (recorder_new timeline budget segment_ms io) [] [] [].
Proof. split; done. Qed.
End Shown.

(** The encoders the factory answered, with the frame each was asked for. *)
Definition asked {E} (ops : list (RecOp (E := E))) (e : E) (f : CapturedFrame) : Prop :=
  exists file t now, OFrame (Some e) file t now ∈ ops /\ f = tk_frame t.

(** C32: whatever the encoder answers, and wherever creating files, writing
    and encoding fail: the segments in the manifest are those on disk, each
    with the number of frames, bytes, size and times of a stretch of the
    captured frames.  The encoder made for the first frame of the stretch was
    sent exactly these pictures, the first as a key frame, and flushed; it
    answered one packet per frame, numbered in their order; and the file, if
    below 2^56 - 1 bytes, plays exactly these packets, each at the capture time
    of the frame of its number, the last one to the segment's end.  The
    stretches come in order and do not share a frame, and until video is
    stopped or the event file fails no frame is left out; when the recorder is
    done no segment stays open. *)
Theorem segments_show_captured_frames {HSE : Serde SessionEvent} {E : Type} {HVE : VideoEncoder E}
    timeline budget segment_ms io (ops : list (RecOp (E := E))) last now captured :
  in_time 0 (frames_of ops) -> Forall (fun op => now_of op < 2 ^ 64) ops -> now < 2 ^ 64 ->
  let r := fold_left rec_step ops (recorder_new timeline budget segment_ms io) in
  let '(r', e) := recorder_finish last now captured r in
  exists closed,
    ed_segments e = map cs_entry closed /\ rc_files r' = map (fun c => (cs_number c, cs_file c)) closed /\
    Forall (shows (asked ops)) closed /\ frames_closed closed `sublist_of` frames_of ops /\
    (rc_video_stopped r' = false -> rc_failed r' = false -> frames_closed closed = frames_of ops) /\
    rc_segment r' = None.
Proof.
  intros Ht Ho Hn r.
  destruct (steps_recorded (asked ops) ops (recorder_new timeline budget segment_ms io) [] [] [] 0) as (cs & cur & H);
    [apply recorder_new_recorded|done..| |].
  { intros e file t n Hi. by exists file, t, n. }
  cbn [app] in H. fold r in H. destruct (finish_recorded _ last now captured r cs cur _ H Hn) as (cs' & H1 & H2 & H3).
  destruct (recorder_finish last now captured r) as [r' e]. cbn [fst snd] in *.
  destruct H1 as [D1 D2 D3 _ D5 D6]. rewrite app_nil_r in *. exists cs'. split_and!; try done. by rewrite H3.
Qed.

(** An encoder that answers each picture at once, and a recording of two
    sizes. *)
Module RecorderDemo.
#[local] Existing Instance LogDemo.unary.
#[local] Instance counting : VideoEncoder N :=
  {| enc_send := fun e _ _ => Some (e + 1);
     enc_receive := fun e => Some (e, [{| pk_frameno := e - 1; pk_data := [7; e]; pk_key := e =? 1 |}]);
     enc_flush := fun _ => Some [];
     enc_config := fun _ => [129; 0; 12; 0] |}.

Definition timeline : Timeline := {| tl_clock := {| ck_start := 0; ck_start_wall := 0 |}; tl_start_offset := 5 |}.
Definition frame (t size : N) : CapturedFrame :=
  {| cf_offset_ms := t; cf_frame_seq := t; cf_width := size; cf_height := size; cf_rgba := [] |}.
Definition op (t size : N) : RecOp :=
  OFrame (Some 0) (Some []) {| tk_frame := frame t size; tk_dropped := 0; tk_first_dropped_ms := None |} t.
Definition ops : list RecOp := [op 100 1; op 350 1; OTick 400; op 500 2].

Definition start (budget : N) : Recorder N := recorder_new timeline budget SEGMENT_MS [].

Lemma segments_show_captured_frames_witness :
  exists closed,
    ed_segments (snd (recorder_finish None 900 3 (fold_left rec_step ops (start 100000)))) = map cs_entry closed /\
    Forall (shows (asked ops)) closed /\ frames_closed closed = [frame 100 1; frame 350 1; frame 500 2] /\
    map (fun c => (en_start (cs_entry c), en_end (cs_entry c))) closed = [(100, 500); (500, 900)].
Proof.
  pose proof (segments_show_captured_frames timeline 100000 SEGMENT_MS [] ops None 900 3) as H.
  destruct H as (closed & H1 & H2 & H3 & H4 & H5 & H6);
    [repeat split; vm_compute; congruence|repeat constructor|reflexivity|].
  exists closed. split; [exact H1|]. split; [exact H3|]. split.
  - rewrite H5; by vm_compute.
  - transitivity (map (fun e => (en_start e, en_end e)) (map cs_entry closed)); [by rewrite map_map|].
    rewrite <- H1. by vm_compute.
Defined.

(** A budget that is used up before the first frame: a segment is announced,
    and closed without a file. *)
Example empty_segment_is_closed :
  let r := rec_step (start 0) (op 100 1) in
  rc_segments r = [] /\ rc_files r = [] /\ rc_next_segment r = 2 /\ rc_video_stopped r = true /\ rc_failed r = false.
Proof. by vm_compute. Qed.
End RecorderDemo.
