(* ===== verification/Store.v ===== *)
(** * The recordings root ([recording/store.rs])

    A root maps names to recording directories; [RecDir] is what one of them
    holds.  Only the manifest's fields that the store reads are spelled out;
    the others are [mf_rest].  An operation on the file system that may fail
    has its answer as an argument.  Ids are texts, checked as bytes. *)
From S2P Require Import Prelude Bytes Json Calendar RecordLog Recorder.
From stdpp Require Import lexico sorting.
Open Scope Z_scope.

Definition MAX_AGE_MS : Z := 7 * 24 * 60 * 60 * 1000.
Definition ID_LEN : nat := 25.
Definition MAX_SEGMENT : N := 999999.

(** ** Ids and names *)

Definition digit_byte (b : N) : bool := (48 <=? b)%N && (b <=? 57)%N.
Definition hex_byte (b : N) : bool := digit_byte b || ((97 <=? b)%N && (b <=? 102)%N).

Definition valid_id (id : text) : bool :=
  let b := utf8 id in
  (length b =? ID_LEN)%nat
  && forallb digit_byte (take 8 b)
  && bool_decide (b !! 8%nat = Some 84%N)
  && forallb digit_byte (take 6 (drop 9 b))
  && bool_decide (b !! 15%nat = Some 90%N)
  && bool_decide (b !! 16%nat = Some 45%N)
  && forallb hex_byte (drop 17 b).

(** [format!("{b:02x}")] *)
Definition hex_digit (n : N) : char := if (n <? 10)%N then (48 + n)%N else (87 + n)%N.
Definition hex_of_byte (b : N) : text := [hex_digit (b / 16); hex_digit (b mod 16)].

(** [mint_id]; [random] is what the random source gave, or what stands in for
    it when it fails. *)
Definition mint_id (now : Z) (random : list N) : text :=
  let stamp := List.filter (fun c => negb ((c =? 45)%N || (c =? 58)%N)) (iso8601_from_system_time now) in
  stamp ++ txt "-" ++ concat (map hex_of_byte random).

(** [unix_ms] *)
Definition unix_ms (t : Z) : Z := if t <? 0 then 0 else Z.min u64_max (t / 1000000).

Section Store.
Context {Rest : Type}.

Record Manifest := {
  mf_id : text; mf_started_at : text; mf_started_unix_ms : Z; mf_ended_at : option text;
  mf_end_reason : option text; mf_duration_ms : option Z; mf_rest : Rest }.

(** [Manifest::finished] *)
Definition finished (m : Manifest) : bool := bool_decide (is_Some (mf_ended_at m)).

(** One directory: its manifest when it can be read, the bytes of the
    manifest file, the event file, the keep mark, the files below
    [segments/] with their sizes, and the bytes of any other file. *)
Record RecDir := {
  rd_manifest : option Manifest; rd_manifest_bytes : N; rd_events : bytes; rd_keep : bool;
  rd_segments : list (text * N); rd_other : N }.

Abbreviation Root := (gmap text RecDir).

(** [dir_bytes]: the keep mark is empty. *)
Definition dir_bytes (d : RecDir) : N :=
  (rd_manifest_bytes d + blen (rd_events d) + foldr (fun s n => snd s + n) 0 (rd_segments d) + rd_other d)%N.

(** [Store::dir] *)
Definition store_dir (root : Root) (id : text) : option RecDir := if valid_id id then root !! id else None.

(** [Store::segment_path]: the file, by the name that it is joined from. *)
Definition segment_path (root : Root) (id : text) (n : N) : option (text * text) :=
  if negb ((1 <=? n)%N && (n <=? MAX_SEGMENT)%N) then None
  else match store_dir root id with
  | None => None
  | Some d => if existsb (fun s => bool_decide (fst s = segment_file n)) (rd_segments d) then Some (id, segment_file n) else None
  end.

(** [Store::create_recording]: fails for a bad id and for one that exists. *)
Definition create_recording (root : Root) (id : text) : Root * bool :=
  if valid_id id && bool_decide (root !! id = None)
  then (<[id := {| rd_manifest := None; rd_manifest_bytes := 0; rd_events := []; rd_keep := false; rd_segments := []; rd_other := 0 |}]> root, true)
  else (root, false).

Definition set_manifest (m : Manifest) (size : N) (d : RecDir) : RecDir :=
  {| rd_manifest := Some m; rd_manifest_bytes := size; rd_events := rd_events d; rd_keep := rd_keep d;
     rd_segments := rd_segments d; rd_other := rd_other d |}.
Definition set_keep_mark (k : bool) (d : RecDir) : RecDir :=
  {| rd_manifest := rd_manifest d; rd_manifest_bytes := rd_manifest_bytes d; rd_events := rd_events d; rd_keep := k;
     rd_segments := rd_segments d; rd_other := rd_other d |}.

Inductive KeepError := KeepNotFound | KeepIo.

(** [Store::set_keep]; [has_manifest] is whether the manifest file is there
    (also when it cannot be read), [io] whether the file operation succeeds. *)
Definition set_keep (root : Root) (id : text) (has_manifest : bool) (keep io : bool) : Root * result KeepError bool :=
  match (if valid_id id && has_manifest then root !! id else None) with
  | None => (root, Err KeepNotFound)
  | Some d =>
      if eqb keep (rd_keep d) then (root, Ok false)
      else if io then (<[id := set_keep_mark keep d]> root, Ok true) else (root, Err KeepIo)
  end.

(** ** [scan] *)

Record Scanned := { sc_manifest : Manifest; sc_bytes : N; sc_kept : bool }.

Definition scan_entry (e : text * RecDir) : option Scanned :=
  if valid_id (fst e) then
    match rd_manifest (snd e) with
    | Some m => Some {| sc_manifest := m; sc_bytes := dir_bytes (snd e); sc_kept := rd_keep (snd e) |}
    | None => None
    end
  else None.

(** The order of the result: start, then id. *)
Definition scan_key (s : Scanned) : Z * text := (mf_started_unix_ms (sc_manifest s), mf_id (sc_manifest s)).
Definition older (a b : Scanned) : Prop := lexico (scan_key a) (scan_key b) \/ scan_key a = scan_key b.
#[export] Instance older_dec : RelDecision older.
Proof. intros a b. apply _. Defined.

Definition scan (root : Root) : list Scanned := merge_sort older (omap scan_entry (map_to_list root)).

(** ** [finalize_leftovers] *)

Definition ends_with_part (name : text) : bool := (5 <? length name)%nat && bool_decide (drop (length name - 5) name = txt ".part").

(** What the last complete event says, over what serde_json reads. *)
Definition ended_manifest (as_u64 : Value -> option Z) (events : list Value) (m : Manifest) : Manifest :=
  let at_ := and_then (and_then (last events) (get (txt "at"))) as_str in
  let offset := and_then (and_then (last events) (get (txt "offset_ms"))) as_u64 in
  {| mf_id := mf_id m; mf_started_at := mf_started_at m; mf_started_unix_ms := mf_started_unix_ms m;
     mf_ended_at := Some (default (mf_started_at m) at_); mf_end_reason := Some (txt "daemon_lost");
     mf_duration_ms := Some (default 0 offset); mf_rest := mf_rest m |}.

(** [part_kept] says which part files could not be removed, [write_ok] which
    manifests could be written, and with which size. *)
Definition finalize_one (parse : bytes -> option Value) (as_u64 : Value -> option Z)
    (part_kept : text -> text -> bool) (write_ok : text -> option N) (active : gset text)
    (acc : Root * list text) (s : Scanned) : Root * list text :=
  let '(root, done) := acc in
  let m := sc_manifest s in
  if finished m || bool_decide (mf_id m ∈ active) then acc
  else match store_dir root (mf_id m) with
  | None => acc
  | Some d =>
      let d := {| rd_manifest := rd_manifest d; rd_manifest_bytes := rd_manifest_bytes d; rd_events := rd_events d;
                  rd_keep := rd_keep d; rd_other := rd_other d;
                  rd_segments := List.filter (fun f => negb (ends_with_part (fst f)) || part_kept (mf_id m) (fst f)) (rd_segments d) |} in
      match write_ok (mf_id m) with
      | Some size => (<[mf_id m := set_manifest (ended_manifest as_u64 (read_events parse (rd_events d)) m) size d]> root, done ++ [mf_id m])
      | None => (<[mf_id m := d]> root, done)
      end
  end.
Definition finalize_leftovers (parse : bytes -> option Value) (as_u64 : Value -> option Z)
    (part_kept : text -> text -> bool) (write_ok : text -> option N) (active : gset text) (root : Root) : Root * list text :=
  fold_left (finalize_one parse as_u64 part_kept write_ok active) (scan root) (root, []).

(** ** [prune] *)

Record PruneReport := { pr_deleted : list text; pr_kept_bytes : N; pr_unkept_bytes : N; pr_kept_over_budget : bool }.

(** [delete]: [answers] has the coming failures, each with what is left of
    the directory. *)
Definition delete_dir (root : Root) (answers : list (option RecDir)) (id : text) : Root * list (option RecDir) * bool :=
  match store_dir root id with
  | None => (root, answers, false)
  | Some _ =>
      match answers with
      | Some remains :: answers => (<[id := remains]> root, answers, false)
      | _ => (delete id root, tl answers, true)
      end
  end.

Record Pruning := {
  pn_root : Root; pn_answers : list (option RecDir); pn_deleted : list text; pn_kept : N; pn_unkept : N;
  pn_candidates : list (text * N) }.

Definition is_active (active : gset text) (s : Scanned) : bool :=
  bool_decide (mf_id (sc_manifest s) ∈ active) || negb (finished (sc_manifest s)).
Definition is_old (now : Z) (s : Scanned) : bool := MAX_AGE_MS <? Z.max 0 (now - mf_started_unix_ms (sc_manifest s)).

(** One recording of the first loop. *)
Definition prune_one (now : Z) (active : gset text) (p : Pruning) (s : Scanned) : Pruning :=
  let id := mf_id (sc_manifest s) in
  if sc_kept s then
    {| pn_root := pn_root p; pn_answers := pn_answers p; pn_deleted := pn_deleted p; pn_kept := (pn_kept p + sc_bytes s)%N;
       pn_unkept := pn_unkept p; pn_candidates := pn_candidates p |}
  else
    let '(root, answers, gone) :=
      if negb (is_active active s) && is_old now s then delete_dir (pn_root p) (pn_answers p) id
      else (pn_root p, pn_answers p, false) in
    if gone then
      {| pn_root := root; pn_answers := answers; pn_deleted := pn_deleted p ++ [id]; pn_kept := pn_kept p;
         pn_unkept := pn_unkept p; pn_candidates := pn_candidates p |}
    else
      {| pn_root := root; pn_answers := answers; pn_deleted := pn_deleted p; pn_kept := pn_kept p;
         pn_unkept := (pn_unkept p + sc_bytes s)%N;
         pn_candidates := pn_candidates p ++ (if is_active active s then [] else [(id, sc_bytes s)]) |}.

(** The second loop, over the candidates. *)
Fixpoint prune_budget (budget : N) (candidates : list (text * N)) (p : Pruning) : Pruning :=
  match candidates with
  | [] => p
  | (id, size) :: candidates =>
      if (pn_unkept p <=? budget)%N then p
      else
        let '(root, answers, gone) := delete_dir (pn_root p) (pn_answers p) id in
        prune_budget budget candidates
          (if gone then
             {| pn_root := root; pn_answers := answers; pn_deleted := pn_deleted p ++ [id]; pn_kept := pn_kept p;
                pn_unkept := (pn_unkept p - size)%N; pn_candidates := pn_candidates p |}
           else
             {| pn_root := root; pn_answers := answers; pn_deleted := pn_deleted p; pn_kept := pn_kept p;
                pn_unkept := pn_unkept p; pn_candidates := pn_candidates p |})
  end.

Definition prune (now : Z) (budget : N) (active : gset text) (answers : list (option RecDir)) (root : Root) : Root * PruneReport :=
  let p := fold_left (prune_one now active) (scan root)
             {| pn_root := root; pn_answers := answers; pn_deleted := []; pn_kept := 0; pn_unkept := 0; pn_candidates := [] |} in
  let p := prune_budget budget (pn_candidates p) p in
  (pn_root p, {| pr_deleted := pn_deleted p; pr_kept_bytes := pn_kept p; pr_unkept_bytes := pn_unkept p;
                 pr_kept_over_budget := (budget <? pn_kept p)%N |}).

(** ** What a scan finds *)

Definition sc_id (s : Scanned) : text := mf_id (sc_manifest s).

(** A manifest names the directory that it is in: the recorder writes it so. *)
Definition well_named (root : Root) : Prop :=
  forall id d m, root !! id = Some d -> rd_manifest d = Some m -> mf_id m = id.

Lemma scan_permutation root : scan root ≡ₚ omap scan_entry (map_to_list root).
Proof. apply merge_sort_Permutation. Qed.

Lemma elem_of_scan root s :
  well_named root ->
  s ∈ scan root <-> exists d, root !! sc_id s = Some d /\ valid_id (sc_id s) = true /\
                     scan_entry (sc_id s, d) = Some s.
Proof.
  intros Hw. rewrite scan_permutation, list_elem_of_omap. split.
  - intros ([id d] & Hin & Hs). apply elem_of_map_to_list in Hin. pose proof Hs as Hs'.
    unfold scan_entry in Hs'. cbn [fst snd] in Hs'. destruct (valid_id id) eqn:Hv; [|done].
    destruct (rd_manifest d) as [m|] eqn:Hm; [|done]. injection Hs' as <-. unfold sc_id. cbn [sc_manifest] in *.
    rewrite (Hw _ _ _ Hin Hm) in *. by exists d.
  - intros (d & Hd & _ & Hs). exists (sc_id s, d). split; [by apply elem_of_map_to_list|done].
Qed.

Lemma scan_NoDup root : well_named root -> NoDup (map sc_id (scan root)).
Proof.
  intros Hw. assert (map sc_id (scan root) ≡ₚ map sc_id (omap scan_entry (map_to_list root))) as ->
    by (apply Permutation_map, scan_permutation).
  pose proof (NoDup_fst_map_to_list root) as Hn.
  assert (Hin : forall e, e ∈ map_to_list root -> root !! fst e = Some (snd e)).
  { intros [id d]. apply elem_of_map_to_list. }
  assert (Hfst : forall e s, e ∈ map_to_list root -> scan_entry e = Some s -> sc_id s = fst e).
  { intros [id d] s He Hs. unfold scan_entry in Hs. cbn [fst snd] in *. destruct (valid_id id); [|done].
    destruct (rd_manifest d) as [m|] eqn:Hm; [|done]. injection Hs as <-. by apply (Hw _ _ _ (Hin _ He) Hm). }
  clear Hin Hw. induction (map_to_list root) as [|e l IH]; [constructor|]. cbn [fmap list_fmap map omap list_omap] in *.
  apply NoDup_cons in Hn as [Hx Hn].
  assert (IHl : NoDup (map sc_id (omap scan_entry l))).
  { apply IH; [done|]. intros e' s He'. apply Hfst. by right. }
  destruct (scan_entry e) as [s|] eqn:Hs; [|done]. cbn [map]. constructor; [|done].
  rewrite (Hfst e s) by (done || by left). intros Hin. apply Hx.
  apply list_elem_of_fmap in Hin as (s' & Hs' & Hin). apply list_elem_of_omap in Hin as (e' & He' & Hs'').
  rewrite Hs', (Hfst e' s') by (done || by right). by apply list_elem_of_fmap_2.
Qed.

#[local] Instance older_trans : Transitive older.
Proof.
  intros a b c [H1|H1] [H2|H2]; unfold older; rewrite ?H1, <- ?H2; auto. left. by etrans.
Qed.
#[local] Instance older_total : Total older.
Proof.
  intros a b. unfold older. destruct (trichotomy lexico (scan_key a) (scan_key b)) as [H|[H|H]]; auto.
Qed.

Lemma scan_sorted root : StronglySorted older (scan root).
Proof. apply (StronglySorted_merge_sort older). Qed.

(** ** The two loops, when nothing fails *)

Definition total (l : list Scanned) : N := foldr (fun s n => (sc_bytes s + n)%N) 0%N l.

Lemma total_app l k : total (l ++ k) = (total l + total k)%N.
Proof. unfold total. induction l as [|s l IH]; cbn [app foldr]; [done|]. rewrite IH. lia. Qed.

Lemma total_perm l k : l ≡ₚ k -> total l = total k.
Proof. unfold total. induction 1; cbn [foldr]; lia. Qed.

Definition removed (root : Root) (ids : list text) : Root := foldr delete root ids.

Lemma lookup_removed root ids id : removed root ids !! id = if decide (id ∈ ids) then None else root !! id.
Proof.
  unfold removed. induction ids as [|i ids IH]; cbn [foldr].
  - rewrite decide_False by apply not_elem_of_nil. done.
  - destruct (decide (i = id)) as [->|Hne].
    + rewrite lookup_delete_eq. rewrite decide_True by by left. done.
    + rewrite lookup_delete_ne by done. rewrite IH. apply decide_ext. rewrite elem_of_cons. naive_solver.
Qed.

Lemma removed_snoc root ids id : removed root (ids ++ [id]) = removed (delete id root) ids.
Proof. unfold removed. by rewrite foldr_app. Qed.

Lemma delete_removed root ids id : delete id (removed root ids) = removed root (ids ++ [id]).
Proof.
  apply map_eq. intros i. rewrite lookup_removed. destruct (decide (i = id)) as [->|Hne].
  - rewrite lookup_delete_eq. rewrite decide_True by (rewrite elem_of_app; right; by apply list_elem_of_singleton). done.
  - rewrite lookup_delete_ne by done. rewrite lookup_removed. apply decide_ext.
    rewrite elem_of_app, list_elem_of_singleton. naive_solver.
Qed.

(** The parts of a scan. *)
Definition aged (now : Z) (active : gset text) (s : Scanned) : bool := negb (sc_kept s) && (negb (is_active active s) && is_old now s).
Definition stays (now : Z) (active : gset text) (s : Scanned) : bool := negb (sc_kept s) && negb (negb (is_active active s) && is_old now s).
Definition candidate (now : Z) (active : gset text) (s : Scanned) : bool := stays now active s && negb (is_active active s).
Definition sized (s : Scanned) : text * N := (sc_id s, sc_bytes s).

Lemma delete_present root ids id :
  valid_id id = true -> is_Some (root !! id) -> id ∉ ids ->
  delete_dir (removed root ids) [] id = (removed root (ids ++ [id]), [], true).
Proof.
  intros Hv [d Hd] Hn. unfold delete_dir, store_dir. rewrite Hv, lookup_removed, decide_False, Hd by done.
  by rewrite delete_removed.
Qed.

Lemma age_pass now active root ss p :
  Forall (fun s => valid_id (sc_id s) = true /\ is_Some (root !! sc_id s)) ss ->
  NoDup (pn_deleted p ++ map sc_id ss) -> pn_root p = removed root (pn_deleted p) -> pn_answers p = [] ->
  fold_left (prune_one now active) ss p =
    {| pn_root := removed root (pn_deleted p ++ map sc_id (List.filter (aged now active) ss)); pn_answers := [];
       pn_deleted := pn_deleted p ++ map sc_id (List.filter (aged now active) ss);
       pn_kept := (pn_kept p + total (List.filter sc_kept ss))%N;
       pn_unkept := (pn_unkept p + total (List.filter (stays now active) ss))%N;
       pn_candidates := pn_candidates p ++ map sized (List.filter (candidate now active) ss) |}.
Proof.
  revert p. induction ss as [|s ss IH]; intros p Hs Hn Hr Ha.
  { destruct p. cbn in *. subst. by rewrite !app_nil_r, !N.add_0_r. }
  apply Forall_cons in Hs as [[Hv Hd] Hs]. cbn [map] in Hn.
  assert (Hx : sc_id s ∉ pn_deleted p).
  { apply NoDup_app in Hn as (_ & Hdis & _). intros Hin. apply (Hdis _ Hin). by left. }
  assert (Hn' : NoDup (pn_deleted p ++ map sc_id ss)).
  { eapply sublist_NoDup; [exact Hn|]. apply sublist_app; [done|]. by apply sublist_cons. }
  cbn [fold_left List.filter]. unfold prune_one at 2. fold (sc_id s).
  change (candidate now active s) with (stays now active s && negb (is_active active s)).
  change (stays now active s) with (negb (sc_kept s) && negb (negb (is_active active s) && is_old now s)).
  change (aged now active s) with (negb (sc_kept s) && (negb (is_active active s) && is_old now s)).
  destruct (sc_kept s) eqn:Hk; cbn [negb andb].
  { rewrite IH by done. cbn [pn_deleted pn_kept pn_unkept pn_candidates total foldr]. f_equal. unfold total. lia. }
  destruct (is_active active s) eqn:Hact; cbn [negb andb].
  { rewrite IH by done. cbn [pn_deleted pn_kept pn_unkept pn_candidates]. rewrite app_nil_r.
    f_equal. unfold total. cbn [foldr]. lia. }
  destruct (is_old now s) eqn:Hold; cbn [negb andb].
  - rewrite Ha, Hr, (delete_present root) by done.
    rewrite IH; cbn [pn_root pn_answers pn_deleted pn_kept pn_unkept pn_candidates map]; try done.
    + by rewrite <- !app_assoc.
    + rewrite <- app_assoc. cbn [app]. exact Hn.
  - rewrite IH by done. cbn [pn_deleted pn_kept pn_unkept pn_candidates map]. rewrite <- app_assoc.
    f_equal. unfold total. cbn [foldr]. lia.
Qed.

Lemma budget_pass budget root cands p :
  Forall (fun s => valid_id (sc_id s) = true /\ is_Some (root !! sc_id s)) cands ->
  NoDup (pn_deleted p ++ map sc_id cands) -> pn_root p = removed root (pn_deleted p) -> pn_answers p = [] ->
  exists k, let gone := take k cands in
    prune_budget budget (map sized cands) p =
      {| pn_root := removed root (pn_deleted p ++ map sc_id gone); pn_answers := []; pn_deleted := pn_deleted p ++ map sc_id gone;
         pn_kept := pn_kept p; pn_unkept := (pn_unkept p - total gone)%N; pn_candidates := pn_candidates p |} /\
    (gone = cands \/ (pn_unkept p - total gone <= budget)%N) /\
    (k <= length cands)%nat /\
    forall j, (j < k)%nat -> (budget < pn_unkept p - total (take j cands))%N.
Proof.
  revert p. induction cands as [|s cands IH]; intros p Hs Hn Hr Ha.
  { exists 0%nat. cbn. destruct p. cbn in *. subst. rewrite !app_nil_r, N.sub_0_r. split_and!; auto; lia. }
  apply Forall_cons in Hs as [[Hv Hd] Hs]. cbn [map] in Hn. cbn [map prune_budget sized].
  destruct (N.leb_spec (pn_unkept p) budget) as [Hle|Hgt].
  { exists 0%nat. cbn. destruct p. cbn in *. subst. rewrite !app_nil_r, N.sub_0_r. split_and!; auto; lia. }
  assert (Hx : sc_id s ∉ pn_deleted p).
  { apply NoDup_app in Hn as (_ & Hdis & _). intros Hin. apply (Hdis _ Hin). by left. }
  rewrite Ha, Hr, (delete_present root) by done.
  destruct (IH {| pn_root := removed root (pn_deleted p ++ [sc_id s]); pn_answers := []; pn_deleted := pn_deleted p ++ [sc_id s];
                  pn_kept := pn_kept p; pn_unkept := (pn_unkept p - sc_bytes s)%N; pn_candidates := pn_candidates p |})
    as (k & Hk & Hend & Hle & Hover); [exact Hs| |reflexivity|reflexivity|].
  { cbn [pn_deleted]. rewrite <- app_assoc. exact Hn. }
  exists (S k). cbn [take]. cbn zeta in Hk. rewrite Hk. cbn [pn_deleted pn_kept pn_unkept pn_candidates map].
  assert (Hsub : forall j, (pn_unkept p - sc_bytes s - total (take j cands) = pn_unkept p - total (s :: take j cands))%N)
    by (intros j; unfold total; cbn [foldr]; lia).
  rewrite <- !app_assoc. cbn [app] in *. rewrite Hsub. split; [done|].
  cbn [pn_unkept] in Hend, Hover. rewrite Hsub in Hend. split_and!; [destruct Hend as [->|Hend]; auto|cbn; lia|].
  intros [|j] Hj; [cbn; lia|]. cbn [take]. rewrite <- Hsub. apply Hover. lia.
Qed.

Lemma elem_filter {A} (p : A -> bool) l x : x ∈ List.filter p l <-> x ∈ l /\ p x = true.
Proof. rewrite !list_elem_of_In. apply List.filter_In. Qed.

(** What stays after [ids] are gone. *)
Lemma scan_removed root ids :
  well_named root -> scan (removed root ids) ≡ₚ List.filter (fun s => negb (bool_decide (sc_id s ∈ ids))) (scan root).
Proof.
  intros Hw. assert (Hw' : well_named (removed root ids)).
  { intros id d m Hd. rewrite lookup_removed in Hd. destruct (decide _); [done|]. by apply Hw. }
  apply NoDup_Permutation.
  - by apply (NoDup_fmap_1 sc_id), scan_NoDup.
  - apply NoDup_ListNoDup, List.NoDup_filter, NoDup_ListNoDup. by apply (NoDup_fmap_1 sc_id), scan_NoDup.
  - intros s. rewrite elem_filter, !elem_of_scan by done.
    rewrite lookup_removed. rewrite negb_true_iff, bool_decide_eq_false. split.
    + intros (d & Hd & Hv & Hs). destruct (decide _) as [|Hn]; [done|]. split; [|done]. by exists d.
    + intros [(d & Hd & Hv & Hs) Hn]. exists d. by rewrite decide_False.
Qed.

Lemma total_filter_split p l : (total (List.filter p l) + total (List.filter (fun s => negb (p s)) l) = total l)%N.
Proof.
  unfold total. induction l as [|s l IH]; [done|]. cbn [List.filter]. destruct (p s); cbn [negb foldr]; lia.
Qed.

Lemma sorted_take_drop k (l : list Scanned) a b :
  StronglySorted older l -> a ∈ take k l -> b ∈ drop k l -> older a b.
Proof.
  intros Hs Ha Hb. rewrite <- (take_drop k l) in Hs. by eapply StronglySorted_app_1_elem_of in Hs.
Qed.

Lemma filter_sorted p l : StronglySorted older l -> StronglySorted older (List.filter p l).
Proof.
  induction 1 as [|s l Hl IH Hs]; [constructor|]. cbn [List.filter]. destruct (p s); [|done]. constructor; [done|].
  apply Forall_forall. intros x Hx. apply elem_filter in Hx.
  eapply Forall_forall in Hs; [exact Hs|apply Hx].
Qed.

(** The recordings that pruning may delete. *)
Definition prunable (active : gset text) (s : Scanned) : bool := negb (sc_kept s) && negb (is_active active s).

Lemma scan_inj root a b : well_named root -> a ∈ scan root -> b ∈ scan root -> sc_id a = sc_id b -> a = b.
Proof.
  intros Hw (d & Hd & _ & Ha)%elem_of_scan (e & He & _ & Hb)%elem_of_scan Hab; [|done..].
  rewrite Hab in *. rewrite Hd in He. injection He as ->. congruence.
Qed.

Section Pruned.
Variables (root : Root) (now : Z) (active : gset text) (k : nat).
Hypothesis (Hw : well_named root).

Let ss := scan root.
Let cands := List.filter (candidate now active) ss.
Let gone := List.filter (aged now active) ss ++ take k cands.

Lemma in_split (l : list Scanned) n s : s ∈ l <-> s ∈ take n l \/ s ∈ drop n l.
Proof. by rewrite <- (take_drop n l) at 1; rewrite elem_of_app. Qed.

Lemma candidate_in s : s ∈ cands <-> s ∈ ss /\ prunable active s = true /\ is_old now s = false.
Proof.
  unfold cands. rewrite elem_filter. unfold candidate, stays, prunable.
  destruct (sc_kept s), (is_active active s), (is_old now s); cbn; naive_solver.
Qed.

Lemma gone_in s : s ∈ gone <-> s ∈ ss /\ prunable active s = true /\ (is_old now s = true \/ s ∈ take k cands).
Proof.
  unfold gone. rewrite elem_of_app, elem_filter. split.
  - intros [[Hs Hx]|Hs].
    + unfold aged, prunable in *. destruct (sc_kept s), (is_active active s), (is_old now s); naive_solver.
    + assert (s ∈ cands) as Hc by (apply (in_split _ k); auto). apply candidate_in in Hc. naive_solver.
  - intros (Hs & Hp & [Ho|Ht]); [left|by right]. split; [done|]. unfold aged, prunable in *.
    destruct (sc_kept s), (is_active active s), (is_old now s); naive_solver.
Qed.

Lemma gone_id s : s ∈ ss -> sc_id s ∈ map sc_id gone <-> s ∈ gone.
Proof.
  intros Hs. split; [|apply list_elem_of_fmap_2]. intros (s' & Hi & Hs')%list_elem_of_fmap.
  assert (s = s') as ->; [|done]. apply (scan_inj root); try done. by apply gone_in in Hs' as [? _].
Qed.

Lemma remaining_in s : s ∈ scan (removed root (map sc_id gone)) <-> s ∈ ss /\ s ∉ gone.
Proof.
  rewrite scan_removed, elem_filter, negb_true_iff, bool_decide_eq_false by done. fold ss.
  split; intros [Hs Hn]; (split; [done|]); intros Hx; apply Hn; by apply gone_id.
Qed.

Lemma ss_NoDup : NoDup ss.
Proof. apply (NoDup_fmap_1 sc_id). by apply scan_NoDup. Qed.

Lemma filter_NoDup (p : Scanned -> bool) l : NoDup l -> NoDup (List.filter p l).
Proof. intros Hl. by apply NoDup_ListNoDup, List.NoDup_filter, NoDup_ListNoDup. Qed.

Lemma taken_dec s : s ∈ ss -> s ∈ take k cands \/ s ∉ take k cands.
Proof.
  intros Hs. destruct (decide (sc_id s ∈ map sc_id (take k cands))) as [Hi|Hn].
  - left. apply list_elem_of_fmap in Hi as (s' & Hi & Ht). assert (s = s') as ->; [|done].
    apply (scan_inj root); try done. assert (s' ∈ cands) as Hc by (apply (in_split _ k); auto). by apply candidate_in in Hc as [? _].
  - right. intros Ht. apply Hn. by apply list_elem_of_fmap_2.
Qed.

(** Kept recordings aside, what was counted stays or is gone. *)
Lemma unkept_split :
  List.filter (stays now active) ss ≡ₚ
  take k cands ++ List.filter (fun s => negb (sc_kept s)) (scan (removed root (map sc_id gone))).
Proof.
  apply NoDup_Permutation.
  - apply filter_NoDup, ss_NoDup.
  - apply NoDup_app. split_and!.
    + eapply sublist_NoDup; [|apply sublist_take]. apply filter_NoDup, ss_NoDup.
    + intros s Ht [Hr _]%elem_filter. apply remaining_in in Hr as [Hs Hn]. apply Hn, gone_in.
      assert (s ∈ cands) as Hc by (apply (in_split _ k); auto). apply candidate_in in Hc. naive_solver.
    + apply filter_NoDup, (NoDup_fmap_1 sc_id), scan_NoDup.
      intros id d m Hd. rewrite lookup_removed in Hd. destruct (decide _); [done|]. by apply Hw.
  - intros s. rewrite elem_of_app, !elem_filter, remaining_in, gone_in. split.
    + intros [Hs Hx]. destruct (taken_dec s Hs) as [|Hn]; [by left|right].
      unfold stays, prunable in *. destruct (sc_kept s), (is_active active s), (is_old now s); naive_solver.
    + intros [Ht|[[Hs Hn] Hkept]].
      * assert (s ∈ cands) as Hc by (apply (in_split _ k); auto). apply candidate_in in Hc.
        unfold stays, prunable in *. destruct (sc_kept s), (is_active active s), (is_old now s); naive_solver.
      * split; [done|]. unfold stays, prunable in *. destruct (sc_kept s), (is_active active s), (is_old now s); naive_solver.
Qed.
End Pruned.

(** Pruning over the scan. *)
Lemma prune_scan root now budget active :
  well_named root ->
  let aged := List.filter (aged now active) (scan root) in
  let cands := List.filter (candidate now active) (scan root) in
  let '(root', report) := prune now budget active [] root in
  exists k, let gone := (aged ++ take k cands) in
    (k <= length cands)%nat /\
    pr_deleted report = map sc_id gone /\ root' = removed root (map sc_id gone) /\
    (take k cands = cands \/ (pr_unkept_bytes report <= budget)%N) /\
    (forall j, (j < k)%nat -> (budget < total (List.filter (stays now active) (scan root)) - total (take j cands))%N) /\
    pr_kept_bytes report = total (List.filter sc_kept (scan root)) /\
    pr_unkept_bytes report = (total (List.filter (stays now active) (scan root)) - total (take k cands))%N /\
    pr_kept_over_budget report = (budget <? pr_kept_bytes report)%N.
Proof.
  intros Hw. unfold prune.
  assert (Hpres : Forall (fun s => valid_id (sc_id s) = true /\ is_Some (root !! sc_id s)) (scan root)).
  { apply Forall_forall. intros s (d & Hd & Hv & _)%elem_of_scan; [|done]. split; [done|by exists d]. }
  assert (Hnd : NoDup (map sc_id (scan root))) by by apply scan_NoDup.
  rewrite (age_pass now active root) by done. cbn [pn_candidates pn_deleted pn_kept pn_unkept app].
  set (cands := List.filter (candidate now active) (scan root)).
  set (agedl := List.filter (aged now active) (scan root)). cbn zeta.
  destruct (budget_pass budget root cands
    {| pn_root := removed root (map sc_id agedl); pn_answers := []; pn_deleted := map sc_id agedl;
       pn_kept := (0 + total (List.filter sc_kept (scan root)))%N; pn_unkept := (0 + total (List.filter (stays now active) (scan root)))%N;
       pn_candidates := map sized cands |}) as (k & Hk & Hend & Hle & Hover); [..|reflexivity|reflexivity|].
  { apply Forall_forall. intros s [Hs _]%elem_filter. by eapply Forall_forall in Hpres. }
  { cbn [pn_deleted]. rewrite <- map_app. apply NoDup_fmap_2_strong with (f := sc_id).
    - intros a b Ha Hb. apply (scan_inj root); try done.
      + apply elem_of_app in Ha as [[]%elem_filter|[]%elem_filter]; done.
      + apply elem_of_app in Hb as [[]%elem_filter|[]%elem_filter]; done.
    - apply NoDup_app. split_and!; try (apply filter_NoDup; by apply ss_NoDup).
      intros s [_ Ha]%elem_filter [_ Hc]%elem_filter. unfold candidate, stays, aged in *.
      destruct (sc_kept s), (is_active active s), (is_old now s); naive_solver. }
  cbn zeta in Hk. rewrite Hk. cbn [pn_root pn_deleted pn_kept pn_unkept pr_deleted pr_kept_bytes pr_unkept_bytes pr_kept_over_budget].
  cbn [pn_deleted pn_unkept] in *. rewrite !N.add_0_l in *. rewrite <- !map_app. exists k. by split_and!.
Qed.

(** *** In terms of the directories *)

(** A recording: a directory with an id and a manifest that can be read. *)
Definition recorded (root : Root) (id : text) (d : RecDir) (m : Manifest) : Prop :=
  root !! id = Some d /\ rd_manifest d = Some m /\ valid_id id = true.

(** It may be deleted: not kept, not being recorded, and ended. *)
Definition may_go (active : gset text) (id : text) (d : RecDir) (m : Manifest) : Prop :=
  rd_keep d = false /\ (id ∉ active) /\ is_Some (mf_ended_at m).

(** Started more than seven days before, in milliseconds. *)
Definition too_old (now : Z) (m : Manifest) : Prop := 7 * 24 * 60 * 60 * 1000 < now - mf_started_unix_ms m.

(** The bytes of the recordings with the keep mark [kept]. *)
Definition entry_bytes (kept : bool) (e : text * RecDir) : N :=
  if valid_id (fst e) && bool_decide (is_Some (rd_manifest (snd e))) && eqb (rd_keep (snd e)) kept then dir_bytes (snd e) else 0%N.
Definition recorded_bytes (kept : bool) (root : Root) : N :=
  foldr (fun e n => (entry_bytes kept e + n)%N) 0%N (map_to_list root).

Lemma scan_bytes kept root :
  total (List.filter (fun s => eqb (sc_kept s) kept) (scan root)) = recorded_bytes kept root.
Proof.
  assert (forall l l' : list Scanned, l ≡ₚ l' -> List.filter (fun s => eqb (sc_kept s) kept) l ≡ₚ List.filter (fun s => eqb (sc_kept s) kept) l') as Hf.
  { induction 1; cbn; repeat case_match; auto; try by constructor. by etrans. }
  rewrite (total_perm _ _ (Hf _ _ (scan_permutation root))). clear Hf. unfold recorded_bytes, total.
  induction (map_to_list root) as [|[id d] l IH]; [done|]. cbn [omap list_omap foldr]. unfold entry_bytes at 1. cbn [fst snd].
  unfold scan_entry at 1. cbn [fst snd].
  destruct (valid_id id); cbn [andb]; [|exact IH]. destruct (rd_manifest d) as [m|]; cbn [andb]; [|exact IH].
  rewrite bool_decide_eq_true_2 by done. cbn [List.filter sc_kept andb].
  destruct (eqb (rd_keep d) kept); cbn [foldr sc_bytes]; [by rewrite IH|exact IH].
Qed.

Lemma recorded_scan root id d m :
  well_named root -> recorded root id d m ->
  exists s, s ∈ scan root /\ sc_id s = id /\ sc_manifest s = m /\ sc_kept s = rd_keep d.
Proof.
  intros Hw (Hd & Hm & Hv). pose proof (Hw _ _ _ Hd Hm) as <-.
  exists {| sc_manifest := m; sc_bytes := dir_bytes d; sc_kept := rd_keep d |}. split; [|done].
  apply elem_of_scan; [done|]. exists d. split_and!; [done|done|]. unfold scan_entry, sc_id in *. cbn [fst snd sc_manifest]. by rewrite Hv, Hm.
Qed.

Lemma scan_recorded root s :
  well_named root -> s ∈ scan root ->
  exists d, recorded root (sc_id s) d (sc_manifest s) /\ sc_kept s = rd_keep d.
Proof.
  intros Hw (d & Hd & Hv & Hs)%elem_of_scan; [|done]. unfold scan_entry in Hs. cbn [fst snd] in Hs. rewrite Hv in Hs.
  destruct (rd_manifest d) as [m|] eqn:Hm; [|done]. exists d. unfold recorded. rewrite Hm.
  split; [|by injection Hs as <-]. split_and!; [done| |done]. by injection Hs as <-.
Qed.

Lemma prunable_may_go active s d :
  sc_kept s = rd_keep d -> prunable active s = true <-> may_go active (sc_id s) d (sc_manifest s).
Proof.
  intros Hk. unfold prunable, is_active, may_go, finished. rewrite Hk. fold (sc_id s).
  rewrite !andb_true_iff, !negb_true_iff, orb_false_iff, negb_false_iff, bool_decide_eq_false, bool_decide_eq_true. tauto.
Qed.

Lemma is_old_too_old now s : is_old now s = true <-> too_old now (sc_manifest s).
Proof. unfold is_old, too_old, MAX_AGE_MS. rewrite Z.ltb_lt. lia. Qed.

Lemma removed_well_named root l : well_named root -> well_named (removed root l).
Proof. intros Hw i d m Hd. rewrite lookup_removed in Hd. destruct (decide _); [done|]. by apply Hw. Qed.

(** The recordings that go for their age, as directories. *)
Lemma aged_recorded root now active id :
  well_named root ->
  id ∈ map sc_id (List.filter (aged now active) (scan root)) <->
  exists d m, recorded root id d m /\ may_go active id d m /\ too_old now m.
Proof.
  intros Hw. split.
  - intros (s & -> & [Hs Ha]%elem_filter)%list_elem_of_fmap. destruct (scan_recorded root s Hw Hs) as (d & Hd & Hk).
    exists d, (sc_manifest s). rewrite <- (prunable_may_go active s d Hk), <- is_old_too_old. split; [done|].
    unfold aged, prunable in *. destruct (sc_kept s), (is_active active s), (is_old now s); done.
  - intros (d & m & Hr & Hm & Ho). destruct (recorded_scan root id d m Hw Hr) as (s & Hs & <- & <- & Hk).
    apply (prunable_may_go active s d Hk) in Hm. apply is_old_too_old in Ho. apply list_elem_of_fmap_2, elem_filter.
    split; [done|]. unfold aged, prunable in *. destruct (sc_kept s), (is_active active s), (is_old now s); done.
Qed.

Lemma candidate_recorded root now active s :
  well_named root -> s ∈ List.filter (candidate now active) (scan root) ->
  exists d m, recorded root (sc_id s) d m /\ may_go active (sc_id s) d m /\ ~ too_old now m.
Proof.
  intros Hw (Hs & Hm & Ho)%candidate_in. destruct (scan_recorded root s Hw Hs) as (d & Hd & Hk). exists d, (sc_manifest s).
  rewrite <- (prunable_may_go active s d Hk), <- is_old_too_old, Ho. by split_and!.
Qed.

(** What [k] candidates are gone is at least as old as what may still go. *)
Lemma oldest_go_first root now active k s id' d' m' :
  well_named root ->
  let cands := List.filter (candidate now active) (scan root) in
  let root' := removed root (map sc_id (List.filter (aged now active) (scan root) ++ take k cands)) in
  s ∈ take k cands -> recorded root' id' d' m' -> may_go active id' d' m' ->
  mf_started_unix_ms (sc_manifest s) <= mf_started_unix_ms m'.
Proof.
  cbn zeta. intros Hw Ht Hr' Hm'. set (cands := List.filter (candidate now active) (scan root)) in *.
  pose proof (gone_in root now active k) as Hgone. fold cands in Hgone.
  pose proof (candidate_in root now active) as Hcand. fold cands in Hcand.
  destruct (recorded_scan _ id' d' m' (removed_well_named _ _ Hw) Hr') as (s' & Hs' & <- & <- & Hk').
  apply (prunable_may_go active s' d' Hk') in Hm'. apply (remaining_in root now active k Hw) in Hs' as [Hs' Hn].
  assert (s' ∈ cands) as Hc.
  { apply Hcand. split_and!; try done. destruct (is_old now s') eqn:Ho'; [|done]. destruct Hn. apply Hgone. auto. }
  assert (older s s') as Hold.
  { apply (sorted_take_drop k cands); [apply filter_sorted, scan_sorted|done|].
    apply (in_split cands k) in Hc as [Hc|Hc]; [|done]. destruct Hn. apply Hgone. auto. }
  destruct Hold as [[Hlt|[Heq _]]|Heq]; [by apply Z.lt_le_incl|cbn in Heq|unfold scan_key in Heq]; simplify_eq; lia.
Qed.

(** C35: pruning, where manifests name their directories and every deletion
    succeeds.  Exactly the recordings that are over seven days old, not kept,
    not active and finished go for their age; then young ones that are not
    kept, not active and finished, the oldest before any that stays, each only
    while the recordings that are not kept are over the budget, until they are
    within it or none is left that may go; every other directory stays as it
    is, and the report counts the bytes that are there. *)
Theorem prune_retention root now budget active :
  well_named root ->
  let '(root', report) := prune now budget active [] root in
  exists old young,
    pr_deleted report = old ++ young /\
    (forall id, root' !! id = if decide (id ∈ pr_deleted report) then None else root !! id) /\
    (forall id, id ∈ old <-> exists d m, recorded root id d m /\ may_go active id d m /\ too_old now m) /\
    (forall id, id ∈ young -> exists d m, recorded root id d m /\ may_go active id d m /\ ~ too_old now m) /\
    (forall id d m id' d' m', id ∈ young -> recorded root id d m -> recorded root' id' d' m' -> may_go active id' d' m' ->
       mf_started_unix_ms m <= mf_started_unix_ms m') /\
    (forall l id l', young = l ++ id :: l' -> (budget < recorded_bytes false (removed root (old ++ l)))%N) /\
    ((pr_unkept_bytes report <= budget)%N \/ forall id d m, recorded root' id d m -> ~ may_go active id d m) /\
    pr_unkept_bytes report = recorded_bytes false root' /\
    pr_kept_bytes report = recorded_bytes true root /\
    pr_kept_over_budget report = (budget <? recorded_bytes true root)%N.
Proof.
  intros Hw. pose proof (prune_scan root now budget active Hw) as Hp. cbn zeta in Hp.
  destruct (prune now budget active [] root) as [root' report].
  destruct Hp as (k & Hkl & Hdel & Hroot & Hend & Hover & Hkept & Hunkept & Hob).
  set (cands := List.filter (candidate now active) (scan root)) in *.
  set (agedl := List.filter (aged now active) (scan root)) in *.
  assert (Hbytes : forall j, total (List.filter (stays now active) (scan root))
    = (total (take j cands) + recorded_bytes false (removed root (map sc_id (agedl ++ take j cands))))%N).
  { intros j. rewrite <- scan_bytes. rewrite (total_perm _ _ (unkept_split root now active j Hw)), total_app. do 2 f_equal. }
  assert (Hkb : pr_kept_bytes report = recorded_bytes true root).
  { rewrite Hkept, <- scan_bytes. f_equal. apply List.filter_ext. intros s. by destruct (sc_kept s). }
  exists (map sc_id agedl), (map sc_id (take k cands)). split_and!.
  - by rewrite Hdel, map_app.
  - intros id. rewrite Hdel, Hroot. apply lookup_removed.
  - intros id. by apply aged_recorded.
  - intros id (s & -> & Ht)%list_elem_of_fmap. apply candidate_recorded; [done|]. apply (in_split cands k). by left.
  - intros id d m id' d' m' (s & -> & Ht)%list_elem_of_fmap (Hd & Hdm & _) Hr' Hm'.
    destruct (candidate_recorded root now active s Hw) as (e & n & (He & Hem & _) & _); [apply (in_split cands k); by left|].
    rewrite Hroot in Hr'. pose proof (oldest_go_first root now active k s id' d' m' Hw Ht Hr' Hm') as Hle.
    destruct (scan_recorded root s Hw) as (f & (Hf & Hfm & _) & _); [|congruence].
    apply (candidate_in root now active), (in_split cands k). by left.
  - intros l id l' Hl.
    assert (length l < k)%nat as Hj.
    { apply (f_equal length) in Hl. rewrite length_map, length_app in Hl. cbn in Hl. rewrite length_take in Hl. lia. }
    assert (l = map sc_id (take (length l) cands)) as Hll.
    { apply (f_equal (take (length l))) in Hl. rewrite firstn_map, take_take, Nat.min_l in Hl by lia.
      rewrite take_app_length in Hl. by symmetry. }
    specialize (Hover (length l) Hj). rewrite (Hbytes (length l)), map_app, <- Hll in Hover. lia.
  - destruct Hend as [Hall|?]; [right|by left]. intros id d m Hr Hm. rewrite Hroot in Hr.
    destruct (recorded_scan _ id d m (removed_well_named _ _ Hw) Hr) as (s & Hs & <- & <- & Hk).
    apply (prunable_may_go active s d Hk) in Hm. apply (remaining_in root now active k Hw) in Hs as [Hs Hn].
    apply Hn, (gone_in root now active k). split_and!; [done..|]. destruct (is_old now s) eqn:Ho; [by left|right].
    fold cands. rewrite Hall. by apply (candidate_in root now active).
  - rewrite Hunkept, (Hbytes k), Hroot. lia.
  - exact Hkb.
  - by rewrite Hob, Hkb.
Qed.

(** ** Whatever fails, what is protected stays *)

(** Kept, active, unfinished or unreadable. *)
Definition protected (active : gset text) (id : text) (d : RecDir) : Prop :=
  rd_keep d = true \/ id ∈ active \/ match rd_manifest d with Some m => finished m = false | None => True end.

Lemma delete_dir_other root answers id root' answers' ok i :
  delete_dir root answers id = (root', answers', ok) -> i <> id -> root' !! i = root !! i.
Proof.
  unfold delete_dir. intros Hd Hi. destruct (store_dir root id); [|by injection Hd as <- _ _].
  destruct answers as [|[rest|] answers]; injection Hd as <- _ _;
    by rewrite ?lookup_insert_ne, ?lookup_delete_ne.
Qed.

Definition spared (id : text) (d : RecDir) (p : Pruning) : Prop :=
  pn_root p !! id = Some d /\ forall c, c ∈ pn_candidates p -> fst c <> id.

Lemma prune_one_spares now active p s id d :
  (prunable active s = true -> sc_id s <> id) -> spared id d p -> spared id d (prune_one now active p s).
Proof.
  intros Hs [Hr Hc]. unfold prune_one, spared. fold (sc_id s). unfold prunable in Hs.
  destruct (sc_kept s); [done|]. destruct (is_active active s); cbn [negb andb] in *.
  { cbn [pn_root pn_candidates]. by rewrite app_nil_r. }
  specialize (Hs eq_refl).
  assert (Hc' : forall c, c ∈ pn_candidates p ++ [(sc_id s, sc_bytes s)] -> fst c <> id).
  { intros c [Hx|Hx%list_elem_of_singleton]%elem_of_app; [by apply Hc|by subst c]. }
  destruct (is_old now s); [|done].
  destruct (delete_dir _ _ _) as [[root' answers'] ok] eqn:Hdel.
  destruct ok; cbn [pn_root pn_candidates]; by rewrite (delete_dir_other _ _ _ _ _ _ id Hdel).
Qed.

Lemma prune_loop_spares now active ss p id d :
  (forall s, s ∈ ss -> prunable active s = true -> sc_id s <> id) -> spared id d p ->
  spared id d (fold_left (prune_one now active) ss p).
Proof.
  revert p. induction ss as [|s ss IH]; intros p Hs Hp; [done|]. cbn [fold_left]. apply IH.
  - intros x Hx. apply Hs. by right.
  - apply prune_one_spares; [|done]. apply Hs. by left.
Qed.

Lemma prune_budget_spares budget l p id d :
  (forall c, c ∈ l -> fst c <> id) -> pn_root p !! id = Some d -> pn_root (prune_budget budget l p) !! id = Some d.
Proof.
  revert p. induction l as [|[i size] l IH]; intros p Hl Hr; cbn [prune_budget]; [done|].
  destruct (_ <=? _)%N; [done|]. destruct (delete_dir _ _ _) as [[root' answers'] ok] eqn:Hdel.
  assert (Hi : id <> i) by (intros ->; by apply (Hl (i, size)); [left|]).
  apply IH; [intros c Hx; apply Hl; by right|]. destruct ok; cbn [pn_root]; by rewrite (delete_dir_other _ _ _ _ _ _ id Hdel).
Qed.

(** Even when deletions fail half way, pruning leaves every directory
    that is kept, active, unfinished or without a readable manifest exactly as
    it was. *)
Theorem prune_spares_protected root now budget active answers id d :
  well_named root -> root !! id = Some d -> protected active id d ->
  fst (prune now budget active answers root) !! id = Some d.
Proof.
  intros Hw Hd Hp. unfold prune. cbn [fst].
  assert (Hsafe : forall s, s ∈ scan root -> prunable active s = true -> sc_id s <> id).
  { intros s Hs Hpr <-. apply elem_of_scan in Hs as (d' & Hd' & Hv & He); [|done]. rewrite Hd in Hd'. injection Hd' as <-.
    unfold scan_entry in He. cbn [fst snd] in He. rewrite Hv in He. unfold protected, prunable, is_active in *.
    destruct (rd_manifest d) as [m|]; [|done]. injection He as <-. unfold sc_id in *. cbn [sc_manifest sc_kept] in *.
    apply andb_true_iff in Hpr as [Hk%negb_true_iff [Ha%bool_decide_eq_false Hf%negb_false_iff]%negb_true_iff%orb_false_iff].
    destruct Hp as [Hx|[Hx|Hx]]; congruence || done. }
  destruct (prune_loop_spares now active (scan root)
    {| pn_root := root; pn_answers := answers; pn_deleted := []; pn_kept := 0; pn_unkept := 0; pn_candidates := [] |} id d)
    as [H1 H2]; [done|split; [done|by intros c ?%elem_of_nil]|]. by apply prune_budget_spares.
Qed.

(** ** Leftovers *)

Section Leftovers.
Variables (parse : bytes -> option Value) (as_u64 : Value -> option Z).
Variables (part_kept : text -> text -> bool) (write_ok : text -> option N) (active : gset text).

(** What becomes of a directory: the unfinished part files go, and the
    manifest is ended by what the event file says last. *)
Definition cleaned (id : text) (d : RecDir) : RecDir :=
  {| rd_manifest := rd_manifest d; rd_manifest_bytes := rd_manifest_bytes d; rd_events := rd_events d;
     rd_keep := rd_keep d; rd_other := rd_other d;
     rd_segments := List.filter (fun f => negb (ends_with_part (fst f)) || part_kept id (fst f)) (rd_segments d) |}.
Definition ended (id : text) (m : Manifest) (d : RecDir) : RecDir :=
  match write_ok id with
  | Some size => set_manifest (ended_manifest as_u64 (read_events parse (rd_events d)) m) size (cleaned id d)
  | None => cleaned id d
  end.

Lemma finalize_other s acc id :
  id <> sc_id s -> fst (finalize_one parse as_u64 part_kept write_ok active acc s) !! id = fst acc !! id.
Proof.
  intros Hi. destruct acc as [root dn]. unfold finalize_one. fold (sc_id s).
  destruct (finished _ || _); [done|]. destruct (store_dir root (sc_id s)); [|done].
  by destruct (write_ok (sc_id s)); cbn [fst]; rewrite lookup_insert_ne.
Qed.

Lemma finalize_others ss acc id :
  id ∉ map sc_id ss -> fst (fold_left (finalize_one parse as_u64 part_kept write_ok active) ss acc) !! id = fst acc !! id.
Proof.
  revert acc. induction ss as [|s ss IH]; intros acc Hi; [done|]. cbn [map] in Hi. apply not_elem_of_cons in Hi as [H1 H2].
  cbn [fold_left]. rewrite IH by done. by apply finalize_other.
Qed.

Lemma finalize_own ss acc s d :
  NoDup (map sc_id ss) -> s ∈ ss -> valid_id (sc_id s) = true -> fst acc !! sc_id s = Some d ->
  fst (fold_left (finalize_one parse as_u64 part_kept write_ok active) ss acc) !! sc_id s =
    Some (if finished (sc_manifest s) || bool_decide (sc_id s ∈ active) then d else ended (sc_id s) (sc_manifest s) d).
Proof.
  revert acc. induction ss as [|x ss IH]; intros acc Hn Hs Hv Hd; [by apply elem_of_nil in Hs|].
  cbn [map] in Hn. apply NoDup_cons in Hn as [Hx Hn]. cbn [fold_left]. apply elem_of_cons in Hs as [<-|Hs].
  - rewrite finalize_others by done. destruct acc as [root dn]. unfold finalize_one. fold (sc_id s). cbn [fst] in *.
    destruct (finished _ || _); [done|]. unfold store_dir. rewrite Hv, Hd. unfold ended, cleaned.
    cbn [rd_events]. by destruct (write_ok (sc_id s)); cbn [fst]; rewrite lookup_insert_eq.
  - apply IH; try done. rewrite finalize_other; [done|]. intros He. apply Hx. rewrite <- He. by apply list_elem_of_fmap_2.
Qed.

(** At the start of the daemon, exactly the readable unfinished
    recordings that nobody writes are ended: their part files go, their end,
    length and reason come from the last complete event, and every other
    directory stays as it is.  So after it a recording is finished unless it
    is active or its manifest could not be written. *)
Theorem leftovers_are_finished root id d :
  well_named root -> root !! id = Some d ->
  fst (finalize_leftovers parse as_u64 part_kept write_ok active root) !! id = Some
    (match rd_manifest d with
     | Some m => if valid_id id && negb (finished m) && negb (bool_decide (id ∈ active)) then ended id m d else d
     | None => d
     end).
Proof.
  intros Hw Hd. unfold finalize_leftovers.
  destruct (valid_id id && bool_decide (is_Some (rd_manifest d))) eqn:Hin.
  - apply andb_true_iff in Hin as [Hv [m Hm]%bool_decide_eq_true]. rewrite Hm, Hv.
    assert (Hid : id = mf_id m) by (symmetry; by apply (Hw _ _ _ Hd Hm)). 
    set (s := {| sc_manifest := m; sc_bytes := dir_bytes d; sc_kept := rd_keep d |}).
    assert (Hs : s ∈ scan root).
    { apply elem_of_scan; [done|]. unfold sc_id. cbn [s sc_manifest]. rewrite <- Hid. exists d. split_and!; try done.
      unfold scan_entry. cbn [fst snd]. by rewrite Hv, Hm. }
    pose proof (finalize_own (scan root) (root, []) s d (scan_NoDup _ Hw) Hs) as Hf.
    unfold sc_id in Hf. cbn [s sc_manifest fst] in Hf. rewrite <- Hid in Hf. rewrite Hf by done.
    destruct (finished m), (bool_decide (id ∈ active)); done.
  - rewrite finalize_others.
    + cbn [fst]. rewrite Hd. destruct (rd_manifest d) as [m|]; [|done].
      rewrite (bool_decide_true (is_Some (Some m))), andb_true_r in Hin by done. by rewrite Hin.
    + intros (s & Hs & Hi)%list_elem_of_fmap. apply elem_of_scan in Hi as (d' & Hd' & Hv & He); [|done].
      rewrite <- Hs in *. rewrite Hd in Hd'. injection Hd' as <-. unfold scan_entry in He. cbn [fst snd] in He.
      rewrite Hv in *. destruct (rd_manifest d); [|done]. by rewrite bool_decide_true in Hin.
Qed.
End Leftovers.
End Store.

(** ** Ids *)

Lemma utf8_ascii t : Forall (fun c => (c < 128)%N) t -> utf8 t = t.
Proof.
  unfold utf8. induction 1 as [|c t Hc _ IH]; [done|]. rewrite bind_cons, IH. unfold utf8_char.
  apply N.ltb_lt in Hc. by rewrite Hc.
Qed.

Lemma digit_byte_digit c : digit_byte c = is_ascii_digit c.
Proof. done. Qed.

Lemma stamp_digits p w t :
  (forall c, digit_byte c = true -> p c = true) -> digits w t -> List.filter p t = t.
Proof.
  intros Hp [_ Hd]. induction Hd as [|c t Hc _ IH]; [done|]. cbn [List.filter]. rewrite Hp by done. by rewrite IH.
Qed.

Lemma hex_of_byte_hex b : (b < 256)%N -> forallb hex_byte (hex_of_byte b) = true.
Proof.
  intros Hb. unfold hex_of_byte. cbn [forallb]. rewrite andb_true_r.
  assert (Hd : forall n, (n < 16)%N -> hex_byte (hex_digit n) = true).
  { intros n Hn. unfold hex_byte, digit_byte, hex_digit. destruct (N.ltb_spec n 10).
    - apply orb_true_iff. left. apply andb_true_iff. split; apply N.leb_le; lia.
    - apply orb_true_iff. right. apply andb_true_iff. split; apply N.leb_le; lia. }
  rewrite !Hd; [done|apply N.mod_lt; lia|apply N.Div0.div_lt_upper_bound; lia].
Qed.

Lemma digits_2 t : digits 2 t -> exists a b, t = [a; b] /\ digit_byte a = true /\ digit_byte b = true.
Proof.
  intros [Hl Hd]. destruct t as [|a [|b [|]]]; try done. apply Forall_cons in Hd as [Ha [Hb _]%Forall_cons]. by exists a, b.
Qed.

Lemma digit_plain c : digit_byte c = true -> negb ((c =? 45)%N || (c =? 58)%N) = true /\ (c < 128)%N.
Proof.
  unfold digit_byte. intros [H1%N.leb_le H2%N.leb_le]%andb_true_iff. split; [|lia].
  rewrite negb_true_iff, orb_false_iff. split; apply N.eqb_neq; lia.
Qed.

Lemma digits_forallb w t : digits w t -> length t = w /\ forallb digit_byte t = true.
Proof.
  intros [Hl Hd]. split; [done|]. clear Hl. induction Hd as [|c t Hc _ IH]; [done|]. cbn [forallb]. by rewrite IH, andb_true_r.
Qed.

Lemma take_pieces {A} n (l k : list A) : length l = n -> take n (l ++ k) = l /\ drop n (l ++ k) = k.
Proof. intros <-. by rewrite take_app_length, drop_app_length. Qed.

Lemma digit_small c : digit_byte c = true -> (c < 128)%N.
Proof. apply digit_plain. Qed.
Lemma hex_small c : hex_byte c = true -> (c < 128)%N.
Proof. unfold hex_byte, digit_byte. rewrite orb_true_iff, !andb_true_iff, !N.leb_le. lia. Qed.

Lemma forallb_small (p : N -> bool) t : (forall c, p c = true -> (c < 128)%N) -> forallb p t = true -> Forall (fun c => (c < 128)%N) t.
Proof.
  intros Hp. induction t as [|c t IH]; [constructor|]. cbn [forallb]. intros [Hc Ht]%andb_true_iff. constructor; auto.
Qed.

Lemma valid_layout y m d h mi s x :
  digits 4 y -> digits 2 m -> digits 2 d -> digits 2 h -> digits 2 mi -> digits 2 s -> length x = 8%nat /\ forallb hex_byte x = true ->
  valid_id (y ++ m ++ d ++ [84%N] ++ h ++ mi ++ s ++ [90%N] ++ [45%N] ++ x) = true.
Proof.
  intros [Ly Hy]%digits_forallb [Lm Hm]%digits_forallb [Ld Hd]%digits_forallb [Lh Hh]%digits_forallb
    [Li Hi]%digits_forallb [Ls Hs]%digits_forallb [Lx Hx].
  unfold valid_id. rewrite utf8_ascii.
  2: { repeat (apply Forall_app; split); (by eapply forallb_small; [apply digit_small|])
         || (by eapply forallb_small; [apply hex_small|]) || by repeat constructor. }
  set (date := y ++ m ++ d). set (time := h ++ mi ++ s).
  assert (Hdate : length date = 8%nat /\ forallb digit_byte date = true).
  { unfold date. rewrite !length_app, !forallb_app. by rewrite Ly, Lm, Ld, Hy, Hm, Hd. }
  assert (Htime : length time = 6%nat /\ forallb digit_byte time = true).
  { unfold time. rewrite !length_app, !forallb_app. by rewrite Lh, Li, Ls, Hh, Hi, Hs. }
  replace (y ++ m ++ d ++ [84%N] ++ h ++ mi ++ s ++ [90%N] ++ [45%N] ++ x)
    with (date ++ 84%N :: time ++ 90%N :: 45%N :: x) by (unfold date, time; by rewrite <- !app_assoc).
  destruct Hdate as [Ldate Hdate], Htime as [Ltime Htime]. clearbody date time. clear - Lx Hx Ldate Hdate Ltime Htime.
  repeat (destruct date as [|? date]; [done|]). destruct date; [|done].
  repeat (destruct time as [|? time]; [done|]). destruct time; [|done].
  unfold ID_LEN. simpl in Ldate, Ltime, Hdate, Htime |- *. rewrite ?drop_0, Hdate, Htime, Hx, Lx. done.
Qed.

(** A minted id has the shape that the store asks for, whatever the
    random bytes are, up to the year 9999: no path is ever joined from
    anything but digits, [T], [Z], one dash and hex digits. *)
Theorem minted_ids_are_valid now random :
  0 <= now < 253402300800 * 1000000000 -> length random = 4%nat -> Forall is_byte random ->
  valid_id (mint_id now random) = true.
Proof.
  intros Hn Hl Hb. unfold mint_id, iso8601_from_system_time.
  assert (Hs : 0 <= now / ns_per_s < 253402300800).
  { unfold ns_per_s. split; [apply Z.div_pos; lia|apply Z.div_lt_upper_bound; lia]. }
  destruct (Z.ltb_spec now 0); [lia|].
  destruct (Z.leb_spec (now / ns_per_s) i64_max) as [_|Hbig]; [|unfold i64_max in Hbig; lia].
  destruct (iso8601_layout (now / ns_per_s) Hs) as (y & m & d & h & mi & s & Hy & Hm & Hd & Hh & Hmi & Hse & ->).
  assert (Hp : forall c, digit_byte c = true -> negb ((c =? 45)%N || (c =? 58)%N) = true) by (intros c Hc; by apply digit_plain).
  change (txt "-") with [45%N]. change (txt ":") with [58%N]. change (txt "T") with [84%N]. change (txt "Z") with [90%N].
  rewrite !List.filter_app, (stamp_digits _ 4 y Hp Hy), (stamp_digits _ 2 m Hp Hm), (stamp_digits _ 2 d Hp Hd),
    (stamp_digits _ 2 h Hp Hh), (stamp_digits _ 2 mi Hp Hmi), (stamp_digits _ 2 s Hp Hse).
  change (List.filter _ [45%N]) with (@nil N). change (List.filter _ [58%N]) with (@nil N).
  change (List.filter _ [84%N]) with [84%N]. change (List.filter _ [90%N]) with [90%N].
  cbn [app].
  replace ((y ++ m ++ d ++ 84%N :: h ++ mi ++ s ++ [90%N]) ++ 45%N :: concat (map hex_of_byte random))
    with (y ++ m ++ d ++ [84%N] ++ h ++ mi ++ s ++ [90%N] ++ [45%N] ++ concat (map hex_of_byte random))
    by (rewrite <- !app_assoc; cbn [app]; rewrite <- !app_assoc; reflexivity).
  apply valid_layout; try assumption.
  destruct random as [|r1 [|r2 [|r3 [|r4 [|]]]]]; try discriminate Hl.
  apply Forall_cons in Hb as [R1 [R2 [R3 [R4 _]%Forall_cons]%Forall_cons]%Forall_cons].
  cbn [map concat]. rewrite app_nil_r. split; [done|].
  rewrite !forallb_app, !hex_of_byte_hex by done. done.
Qed.

(** A root with a kept, an active, an old and two young recordings. *)
Module StoreDemo.
Definition id (n : N) : text := txt "20260101T000000Z-0000000" ++ [48 + n]%N.
Definition manifest (n : N) (start : Z) (done : bool) : Manifest :=
  {| mf_id := id n; mf_started_at := txt "start"; mf_started_unix_ms := start;
     mf_ended_at := if done then Some (txt "end") else None; mf_end_reason := None; mf_duration_ms := None; mf_rest := tt |}.
Definition dir (n : N) (start : Z) (done keep : bool) : @RecDir unit :=
  {| rd_manifest := Some (manifest n start done); rd_manifest_bytes := 10; rd_events := []; rd_keep := keep;
     rd_segments := [(txt "000001.webm", 90%N); (txt "000002.webm.part", 5%N)]; rd_other := 0 |}.
Definition day : Z := 86400000.
Definition root : gmap text (@RecDir unit) :=
  list_to_map [(id 1, dir 1 0 true true); (id 2, dir 2 0 true false); (id 3, dir 3 (9 * day) true false);
               (id 4, dir 4 (8 * day) true false); (id 5, dir 5 (9 * day) false false)].

Lemma named : well_named root.
Proof.
  intros i d m Hd Hm. apply elem_of_list_to_map_2 in Hd.
  repeat (apply elem_of_cons in Hd as [[= -> ->]|Hd]; [cbn in Hm; by injection Hm as <-|]). by apply elem_of_nil in Hd.
Qed.

Lemma prune_retention_witness :
  well_named root /\ pr_deleted (snd (prune (10 * day) 250 ∅ [] root)) = [id 2; id 4] /\
  (pr_unkept_bytes (snd (prune (10 * day) 250 ∅ [] root)) <= 250)%N.
Proof.
  assert (Hd : pr_deleted (snd (prune (10 * day) 250 ∅ [] root)) = [id 2; id 4]) by (vm_compute; reflexivity).
  assert (Hu : pr_unkept_bytes (snd (prune (10 * day) 250 ∅ [] root)) = 210%N) by (vm_compute; reflexivity).
  assert (Hr : recorded_bytes false (fst (prune (10 * day) 250 ∅ [] root)) = 210%N) by (vm_compute; reflexivity).
  split; [exact named|]. split; [exact Hd|].
  pose proof (prune_retention root (10 * day) 250 ∅ named) as H. revert H Hr.
  destruct (prune (10 * day) 250 ∅ [] root) as [root' report]. cbn [fst snd].
  intros (old & young & _ & _ & _ & _ & _ & _ & _ & H & _) Hr. rewrite H, Hr. discriminate.
Defined.

(** The deletion of the old recording fails and leaves half of it. *)
Lemma prune_spares_protected_witness :
  protected ∅ (id 1) (dir 1 0 true true) /\
  fst (prune (10 * day) 0 ∅ [Some (dir 2 0 false false)] root) !! id 1 = Some (dir 1 0 true true).
Proof.
  assert (protected ∅ (id 1) (dir 1 0 true true)) as Hp by by left.
  split; [exact Hp|]. apply (prune_spares_protected root (10 * day) 0 ∅ _ (id 1) (dir 1 0 true true) named); [by vm_compute|exact Hp].
Defined.

Lemma leftovers_are_finished_witness :
  exists d, fst (finalize_leftovers (fun _ => None) (fun _ => None) (fun _ _ => false) (fun _ => Some 7%N) ∅ root) !! id 5 = Some d /\
    (finished <$> rd_manifest d) = Some true /\ rd_segments d = [(txt "000001.webm", 90%N)].
Proof.
  eexists. split; [apply (leftovers_are_finished _ _ _ _ _ root (id 5) (dir 5 (9 * day) false false) named); by vm_compute|].
  by vm_compute.
Defined.

Lemma minted_ids_are_valid_witness :
  mint_id 1700000000000000000 [10; 255; 0; 7]%N = txt "20231114T221320Z-0aff0007" /\
  valid_id (mint_id 1700000000000000000 [10; 255; 0; 7]%N) = true.
Proof.
  split; [by vm_compute|]. apply minted_ids_are_valid; [lia|done|]. by repeat constructor.
Defined.
End StoreDemo.
