(* ===== verification/BundleCache.v ===== *)
(** * The download cache and the layout of archives ([bundle/cache.rs], [bundle/layout.rs])

    The cache is its root directory; its operations run over the files of
    [Fs].  A temporary name and the time are arguments, where the code asks
    for random bytes and the clock; the digest is the sha2 crate's. *)
From S2P Require Import Prelude Bytes Utf8 Resolve Store Releases BridgeProtocol Fs GuestInstall.
Open Scope io_scope.

Definition RESOLVED_FILE : text := txt "resolved.json".
Definition BUNDLES_DIR : text := txt "bundles".
Definition TMP_PREFIX : text := txt ".tmp-".
Definition DOWNLOADS_DIR : text := txt ".downloads".
Definition CUA_COMPONENT : text := txt "cua-driver".
Definition BRIDGE_COMPONENT : text := txt "rdpilot-bridge".
Definition SHA256_SUFFIX : text := txt ".sha256".

(** [http::hex] *)
Definition hex (bs : bytes) : text := bs ≫= hex_of_byte.

(** [tmp_name], for the process id and the random bytes. *)
Definition tmp_name (pid : N) (random : bytes) : text := TMP_PREFIX ++ dec pid ++ txt "-" ++ hex random.

(** [Resolved]: seconds since the epoch are [u64]. *)
Record ResolvedEntry := { re_value : text; re_at : Z }.
Definition Resolved : Type := gmap text ResolvedEntry.

(** [fs::read_to_string] *)
Definition fs_read_to_string (p : path) : M text :=
  c <- fs_read p ;
  from_option (Other (txt "stream did not contain valid UTF-8")) (from_utf8 c).

Section Cache.
Context (digest : bytes -> bytes).
Context {HR : Serde Resolved}.
Context (listing : Files -> path -> list text).
Context (root : path).

(** The hash and length of what a reader yields. *)
Definition sha256_reader {E} (r : result E bytes) : result E (text * N) :=
  match r with Ok c => Ok (hex (digest c), blen c) | Err e => Err e end.

Definition sha256_file (p : path) : M text :=
  c <- fs_read p ;
  ret (hex (digest c)).

Definition entry_dir (component version : text) (arch : Arch) : path := root ++ [component; version; arch_str arch].
Definition bundle_dir (id : text) : path := root ++ [BUNDLES_DIR; id].

(** The arm of [lookup] for an entry that does not hold what it says. *)
Definition damaged (dir : path) : M (option (path * text)) :=
  there <- fs_exists dir ;
  if there then attempt (fs_remove_dir_all dir) ;; ret None else ret None.

Definition lookup (component version : text) (arch : Arch) (file : text) : M (option (path * text)) :=
  let dir := entry_dir component version arch in
  let path := dir ++ [file] in
  r <- attempt (fs_read_to_string (dir ++ [file ++ SHA256_SUFFIX])) ;
  match r with
  | Err _ => ret None
  | Ok expected =>
      h <- attempt (sha256_file path) ;
      match h with
      | Ok actual => if decide (actual = trim expected) then ret (Some (path, actual)) else damaged dir
      | Err _ => damaged dir
      end
  end.

(** The closure [staged] of [publish]. *)
Definition stage_entry (tmp : path) (file : text) (download : path) (sha256 : text) : M unit :=
  fs_rename download (tmp ++ [file]) ;;
  fs_write (tmp ++ [file ++ SHA256_SUFFIX]) (utf8 (sha256 ++ [10%N])).

(** The end of [publish]: put [tmp] in place. *)
Definition place_entry (tmp : path) (component version : text) (arch : Arch) (file : text) : M path :=
  let target := entry_dir component version arch in
  renamed <- attempt (fs_rename tmp target) ;
  match renamed with
  | Ok _ => ret (target ++ [file])
  | Err _ =>
      winner <- lookup component version arch file ;
      match winner with
      | Some (path, _) => attempt (fs_remove_dir_all tmp) ;; ret path
      | None =>
          again <- attempt (fs_rename tmp target) ;
          match again with
          | Ok _ => ret (target ++ [file])
          | Err e =>
              attempt (fs_remove_dir_all tmp) ;;
              late <- lookup component version arch file ;
              match late with
              | Some (path, _) => ret path
              | None => throw e
              end
          end
      end
  end.

(** [publish] with the temporary name [name]. *)
Definition publish (name component version : text) (arch : Arch) (file : text) (download : path) (sha256 : text)
    : M path :=
  let target := entry_dir component version arch in
  let par := parent target in
  fs_create_dir_all par ;;
  let tmp := par ++ [name] in
  fs_create_dir tmp ;;
  staged <- attempt (stage_entry tmp file download sha256) ;
  match staged with
  | Err e => attempt (fs_remove_dir_all tmp) ;; throw e
  | Ok _ => place_entry tmp component version arch file
  end.

(** The filter of [versions] that looks at the disk. *)
Fixpoint keep_dirs (component : text) (arch : Arch) (names : list text) : M (list text) :=
  match names with
  | [] => ret []
  | name :: names =>
      there <- fs_is_dir (entry_dir component name arch) ;
      rest <- keep_dirs component arch names ;
      ret (if there : bool then name :: rest else rest)
  end.

Definition versions (component : text) (arch : Arch) : M (list text) :=
  r <- attempt (fs_read_dir listing (root ++ [component])) ;
  match r with
  | Err _ => ret []
  | Ok names => keep_dirs component arch (List.filter (fun name => negb (starts_with (txt ".") name)) names)
  end.

Definition download_path (name : text) : M path :=
  let dir := root ++ [DOWNLOADS_DIR] in
  fs_create_dir_all dir ;;
  ret (dir ++ [name]).

(** [read_resolved]: empty when it cannot be read. *)
Definition read_resolved : M Resolved :=
  r <- attempt (fs_read (root ++ [RESOLVED_FILE])) ;
  ret (match r with
       | Ok c => match from_slice c with Ok m => m | Err _ => ∅ end
       | Err _ => ∅
       end).

(** [Duration::as_secs] *)
Definition as_secs (d : Z) : Z := (d / 10 ^ 9)%Z.

Definition resolved (now : Z) (key : text) (ttl : Z) : M (option text) :=
  m <- read_resolved ;
  ret (match (m : gmap text ResolvedEntry) !! key with
       | Some entry => if (saturating_sub now (re_at entry) <? as_secs ttl)%Z then Some (re_value entry) else None
       | None => None
       end).

Definition remember (name : text) (now : Z) (key value : text) : M unit :=
  m <- read_resolved ;
  match to_vec (<[key := {| re_value := value; re_at := now |}]> (m : gmap text ResolvedEntry) : Resolved) with
  | Err _ => ret tt
  | Ok json =>
      made <- attempt (fs_create_dir_all root) ;
      match made with
      | Err _ => ret tt
      | Ok _ =>
          let tmp := root ++ [name] in
          r <- attempt (fs_write tmp json ;; fs_rename tmp (root ++ [RESOLVED_FILE])) ;
          match r with
          | Ok _ => ret tt
          | Err _ => attempt (fs_remove_file tmp) ;; ret tt
          end
      end
  end.

(** The version directories that [sweep] looks into. *)
Fixpoint version_dirs (components : list text) : M (list path) :=
  match components with
  | [] => ret []
  | c :: components =>
      r <- attempt (fs_read_dir listing (root ++ [c])) ;
      rest <- version_dirs components ;
      ret (match r with Ok names => map (fun n => root ++ [c; n]) names ++ rest | Err _ => rest end)
  end.

Fixpoint sweep_entries (dir : path) (names : list text) : M unit :=
  match names with
  | [] => ret tt
  | name :: names =>
      (if starts_with TMP_PREFIX name then
         r <- attempt (fs_remove_dir_all (dir ++ [name])) ;
         match r with
         | Ok _ => ret tt
         | Err _ => attempt (fs_remove_file (dir ++ [name])) ;; ret tt
         end
       else ret tt) ;;
      sweep_entries dir names
  end.

Fixpoint sweep_dirs (dirs : list path) : M unit :=
  match dirs with
  | [] => ret tt
  | dir :: dirs =>
      r <- attempt (fs_read_dir listing dir) ;
      (match r with Ok names => sweep_entries dir names | Err _ => ret tt end) ;;
      sweep_dirs dirs
  end.

Definition sweep : M unit :=
  attempt (fs_remove_dir_all (root ++ [DOWNLOADS_DIR])) ;;
  dirs <- version_dirs [CUA_COMPONENT; BRIDGE_COMPONENT] ;
  sweep_dirs ([root; root ++ [BUNDLES_DIR]] ++ dirs).

(** ** [layout.rs]: [inspect] *)

Definition MAX_ENTRIES : N := 4096.
Definition MAX_TOTAL_BYTES : N := 2 * 1024 * 1024 * 1024.

(** [ZipArchive::new] with its entries, [Debug] of a string, and the texts of
    names that are refused and of files that cannot be read. *)
Context (zip_archive : bytes -> result text (list (result text ZipEntry))).
Context (debug_str : text -> text).
Context (show_manifest_error : ManifestError -> text).
Context (show_io : IoError -> text).

(** [Read::take] of an entry: its first [limit] bytes. *)
Definition take_content (limit : N) (r : result text bytes) : result text bytes :=
  match r with
  | Ok c => Ok (if (blen c <=? limit)%N then c else btake limit c)
  | Err e => Err e
  end.

(** [BTreeMap::insert] *)
Fixpoint files_insert (name hash : text) (files : list (text * text)) : list (text * text) :=
  match files with
  | [] => [(name, hash)]
  | (n, h) :: rest =>
      if decide (n = name) then (name, hash) :: rest
      else if text_leb n name then (n, h) :: files_insert name hash rest
      else (name, hash) :: files
  end.

(** One round of the loop of [inspect]. *)
Definition inspect_entry (entry : result text ZipEntry) (files : list (text * text)) (total : N)
    : result text (list (text * text) * N) :=
  rbind (map_err (fun e => txt "unreadable entry: " ++ e) entry) (fun entry =>
  rbind (ok_or (txt "an entry name is not UTF-8") (ze_name entry)) (fun name =>
  if ze_dir entry || ze_symlink entry then Err (txt "entry " ++ debug_str name ++ txt " is not a plain file")
  else
  rbind (map_err show_manifest_error (check_archive_entry_name name)) (fun _ =>
  let budget := (MAX_TOTAL_BYTES - total)%N in
  rbind (map_err (fun e => txt "cannot read entry " ++ debug_str name ++ txt ": " ++ e)
           (sha256_reader (take_content (budget + 1) (ze_content entry)))) (fun '(hash, copied) =>
  if (budget <? copied)%N then Err (txt "archive expands beyond the size limit")
  else if existsb (fun k => bool_decide (to_ascii_lowercase k = to_ascii_lowercase name)) (map fst files)
  then Err (txt "entry " ++ debug_str name ++ txt " appears more than once")
  else Ok (files_insert name hash files, (total + copied)%N))))).

Fixpoint inspect_entries (entries : list (result text ZipEntry)) (files : list (text * text)) (total : N)
    : result text (list (text * text)) :=
  match entries with
  | [] => Ok files
  | e :: entries => rbind (inspect_entry e files total) (fun '(files, total) => inspect_entries entries files total)
  end.

Definition inspect_archive (c : bytes) : result text (list (text * text)) :=
  rbind (map_err (fun e => txt "not a zip archive: " ++ e) (zip_archive c)) (fun entries =>
  if (MAX_ENTRIES <? N.of_nat (length entries))%N then Err (txt "more than " ++ dec MAX_ENTRIES ++ txt " entries")
  else
  rbind (inspect_entries entries [] 0) (fun files =>
  match files_get CUA_DRIVER_EXE_NAME files with
  | Some _ => Ok files
  | None => Err (txt "no " ++ CUA_DRIVER_EXE_NAME ++ txt " at the archive root")
  end)).

Definition inspect (archive : path) : M (result text (list (text * text))) :=
  r <- attempt (fs_read archive) ;
  ret (match r with
       | Err e => Err (txt "cannot open archive: " ++ show_io e)
       | Ok c => inspect_archive c
       end).
End Cache.

(** ** What [inspect] finds *)

Section Inspect.
Context (digest : bytes -> bytes).
Context (debug_str : text -> text) (show_manifest_error : ManifestError -> text).

(** A plain file of an archive, with a name a guest can have. *)
Definition plain_entry (e : result text ZipEntry) (file : text * bytes) : Prop := exists z,
  e = Ok z /\ ze_name z = Some file.1 /\ ze_dir z = false /\ ze_symlink z = false /\ ze_content z = Ok file.2
  /\ check_archive_entry_name file.1 = Ok tt.

Definition hashed_file (file : text * bytes) : text * text := (file.1, hex (digest file.2)).
Definition total_bytes (l : list (text * bytes)) : N := foldr (fun f n => blen f.2 + n)%N 0%N l.
Definition lower_names (files : list (text * text)) : list text := map (fun f => to_ascii_lowercase f.1) files.

Lemma files_insert_new name hash files :
  to_ascii_lowercase name ∉ lower_names files -> files_insert name hash files ≡ₚ (name, hash) :: files.
Proof.
  induction files as [|[n h] files IH]; [done|]. cbn. intros [H1 H2]%not_elem_of_cons.
  destruct (decide (n = name)) as [->|]; [done|]. destruct (text_leb n name); [|done].
  rewrite IH by done. constructor.
Qed.

Lemma inspect_entry_ok e files total files' total' :
  (total <= MAX_TOTAL_BYTES)%N ->
  inspect_entry digest debug_str show_manifest_error e files total = Ok (files', total') ->
  exists f, plain_entry e f /\ files' ≡ₚ hashed_file f :: files /\ to_ascii_lowercase f.1 ∉ lower_names files
    /\ total' = (total + blen f.2)%N /\ (total' <= MAX_TOTAL_BYTES)%N.
Proof.
  intros Ht. unfold inspect_entry. intros (z & Hz & H)%rbind_ok. destruct e as [z'|]; [|done]. injection Hz as ->.
  apply rbind_ok in H as (name & Hn & H). destruct (ze_name z) as [name'|] eqn:En; [|done]. injection Hn as ->.
  destruct (ze_dir z) eqn:Ed; [done|]. destruct (ze_symlink z) eqn:El; [done|]. cbn [orb] in H.
  apply rbind_ok in H as ([] & Hk & H). apply rbind_ok in H as ([hash copied] & Hc & H).
  destruct (ze_content z) as [c|] eqn:Ec; [|done].
  destruct (_ <? copied)%N eqn:Eb; [done|]. bools. cbn in Hc.
  assert (hash = hex (digest c) /\ copied = blen c) as [-> ->].
  { destruct (blen c <=? MAX_TOTAL_BYTES - total + 1)%N eqn:E; injection Hc as <- <-; [done|].
    bools. rewrite blen_btake in *. lia. }
  destruct (existsb _ _) eqn:Ex; [done|]. injection H as <- <-.
  assert (Hnew : to_ascii_lowercase name ∉ lower_names files).
  { intros Hin. unfold lower_names in Hin. apply list_elem_of_fmap in Hin as ([k h] & Hk' & Hin). cbn in Hk'.
    apply not_true_iff_false in Ex. apply Ex, existsb_exists. exists k. split; [|by apply bool_decide_eq_true].
    apply in_map_iff. exists (k, h). split; [done|]. by apply list_elem_of_In. }
  exists (name, c). cbn. split_and!; [|by apply files_insert_new|done|done|lia].
  exists z. cbn. split_and!; try done. by destruct (check_archive_entry_name name) as [[]|].
Qed.

Lemma inspect_entries_ok entries files total files' :
  (total <= MAX_TOTAL_BYTES)%N ->
  inspect_entries digest debug_str show_manifest_error entries files total = Ok files' ->
  exists l, Forall2 plain_entry entries l /\ files' ≡ₚ map hashed_file l ++ files
    /\ (total + total_bytes l <= MAX_TOTAL_BYTES)%N /\ (NoDup (lower_names files) -> NoDup (lower_names files')).
Proof.
  revert files total. induction entries as [|e entries IH]; intros files total Ht; cbn [inspect_entries].
  { intros [= <-]. exists []. cbn. split_and!; [constructor|done|lia|done]. }
  intros ([files1 total1] & H1 & H2)%rbind_ok.
  destruct (inspect_entry_ok _ _ _ _ _ Ht H1) as (f & Hf & Hp & Hnew & Htot & Hle).
  destruct (IH _ _ Hle H2) as (l & Hl & Hp' & Hle' & Hnd). exists (f :: l). split_and!.
  - by constructor.
  - rewrite Hp', Hp. cbn. by rewrite Permutation_middle.
  - unfold total_bytes in *. cbn. lia.
  - intros Hn. apply Hnd. unfold lower_names. rewrite Hp. cbn. by constructor.
Qed.
End Inspect.

Lemma files_get_is_some name (files : list (text * text)) : name ∈ files.*1 -> is_Some (files_get name files).
Proof.
  induction files as [|[n h] files IH]; [by intros ?%elem_of_nil|]. cbn. destruct (decide (name = n)); [done|].
  intros [->|]%elem_of_cons; [done|by apply IH].
Qed.

Lemma hex_is_sha256 (bs : bytes) : length bs = 32%nat -> Forall (fun b => (b < 256)%N) bs -> check_sha256 (hex bs) = Ok tt.
Proof.
  intros Hl Hb.
  assert (Hd : forall n, (n < 16)%N -> is_ascii_digit (hex_digit n) || in_range 97 102 (hex_digit n) = true /\ len_utf8 (hex_digit n) = 1%N).
  { intros n Hn. unfold hex_digit. destruct (N.ltb_spec n 10); unfold is_ascii_digit, in_range, len_utf8.
    - rewrite (proj2 (N.leb_le 48 _)), (proj2 (N.leb_le _ 57)) by lia. split; [done|]. by rewrite (proj2 (N.ltb_lt _ 128)) by lia.
    - rewrite (proj2 (N.leb_le 97 _)), (proj2 (N.leb_le _ 102)) by lia. rewrite orb_true_r. split; [done|].
      by rewrite (proj2 (N.ltb_lt _ 128)) by lia. }
  unfold check_sha256, hex.
  assert (byte_len (bs ≫= hex_of_byte) = (2 * N.of_nat (length bs))%N
    /\ forallb (fun b => is_ascii_digit b || in_range 97 102 b) (bs ≫= hex_of_byte) = true) as [H1 H2].
  { clear Hl. induction Hb as [|b bs Hb _ [IH1 IH2]]; [done|].
    assert (b / 16 < 16)%N by (apply N.Div0.div_lt_upper_bound; lia).
    assert (b mod 16 < 16)%N by (apply N.mod_lt; lia).
    destruct (Hd (b / 16)%N) as [Ha Hla]; [done|]. destruct (Hd (b mod 16)%N) as [Hc Hlc]; [done|].
    cbn [mbind list_bind] in *. unfold hex_of_byte at 1. unfold hex_of_byte at 2. cbn [app byte_len foldr forallb].
    fold (byte_len (list_bind _ _ hex_of_byte bs)). unfold byte_len in *. cbn [app foldr forallb].
    rewrite Ha, Hc, Hla, Hlc, IH1. split; [cbn [length]; lia|]. exact IH2. }
  rewrite H1, H2, Hl. done.
Qed.

(** A manifest can be served when its own fields are right and no file takes
    the name of the bridge or of the manifest. *)
Definition fields_right (m : BundleManifest) : Prop :=
  check_bundle_id (bm_bundle_id m) = Ok tt /\ check_archive_entry_name (bm_archive_name m) = Ok tt
  /\ check_sha256 (bm_archive_sha256 m) = Ok tt /\ check_sha256 (bm_bridge_sha256 m) = Ok tt.

Definition names_free (files : list (text * text)) : Prop := forall name, name ∈ files.*1 ->
  eq_ignore_ascii_case name BRIDGE_EXE_NAME = false /\ eq_ignore_ascii_case name MANIFEST_NAME = false.

Lemma check_files_free files :
  (forall name hash, (name, hash) ∈ files -> check_archive_entry_name name = Ok tt /\ check_sha256 hash = Ok tt) ->
  check_files files = Ok tt <-> names_free files.
Proof.
  induction files as [|[n h] files IH]; intros Hf; cbn [check_files].
  { split; [intros _ name Hn; by apply elem_of_nil in Hn|done]. }
  destruct (Hf n h) as [Hn Hh]; [by left|]. unfold check_file. rewrite Hn, Hh. cbn [rbind].
  destruct IH as [IH1 IH2]; [intros; apply Hf; by right|].
  destruct (_ || _) eqn:E; cbn [rbind].
  - split; [done|]. intros Hfree. destruct (Hfree n) as [H1 H2]; [by left|]. by rewrite H1, H2 in E.
  - bools. split.
    + intros Hc name [->|Hin]%elem_of_cons; [done|]. by apply IH1.
    + intros Hfree. apply IH2. intros name Hin. apply Hfree. by right.
Qed.

(** C24: what the daemon accepts as a Cua archive becomes a well-formed list
    of files: one for every entry, with its name and the hash of its bytes, at
    most 4096 of them and 2 GiB in all, the driver among them and no two names
    equal up to case; and a manifest with it passes the guest's validation
    exactly when its other fields do and no entry takes the name of the bridge
    or of the manifest. *)
Theorem inspected_archive_is_wellformed digest zip_archive debug_str show_manifest_error c files :
  inspect_archive digest zip_archive debug_str show_manifest_error c = Ok files ->
  (exists entries l, zip_archive c = Ok entries /\ Forall2 plain_entry entries l
     /\ files ≡ₚ map (hashed_file digest) l /\ (total_bytes l <= MAX_TOTAL_BYTES)%N
     /\ (N.of_nat (length files) <= MAX_ENTRIES)%N)
  /\ NoDup (lower_names files) /\ is_Some (files_get CUA_DRIVER_EXE_NAME files)
  /\ ((forall d, length (digest d) = 32%nat /\ Forall (fun b => (b < 256)%N) (digest d)) ->
      forall m, bm_files m = files -> validate m = Ok tt <-> fields_right m /\ names_free files).
Proof.
  unfold inspect_archive. intros (entries & Hz & Hr)%rbind_ok. destruct (zip_archive c) as [es|] eqn:Ez; [|done].
  injection Hz as ->. destruct (_ <? _)%N eqn:En; [done|]. bools. apply rbind_ok in Hr as (fs & Hi & Hg).
  destruct (files_get _ fs) as [h|] eqn:Eg; [|done]. injection Hg as ->.
  destruct (inspect_entries_ok digest debug_str show_manifest_error entries [] 0 files) as (l & Hl & Hp & Ht & Hn); [by vm_compute|done|].
  rewrite app_nil_r in Hp.
  split; [|split; [apply Hn; constructor|split; [by exists h|]]].
  - exists entries, l. split_and!; [done..|]. rewrite Hp, length_map. by rewrite <- (Forall2_length _ _ _ Hl).
  - intros Hd m <-. unfold validate, fields_right. rewrite Eg.
    assert (Hf : check_files (bm_files m) = Ok tt <-> names_free (bm_files m)).
    { apply check_files_free. intros name hash Hin. rewrite Hp in Hin. apply list_elem_of_fmap in Hin as ([n d] & [= -> ->] & Hin).
      cbn. split; [|apply hex_is_sha256; apply Hd]. apply list_elem_of_lookup in Hin as [i Hat].
      destruct (Forall2_lookup_r _ _ _ _ _ Hl Hat) as (e & _ & z & _ & _ & _ & _ & _ & Hk). done. }
    rewrite <- Hf.
    destruct (check_bundle_id _) as [[]|]; cbn [rbind]; [|naive_solver].
    destruct (check_archive_entry_name _) as [[]|]; cbn [rbind]; [|naive_solver].
    destruct (check_sha256 (bm_archive_sha256 m)) as [[]|]; cbn [rbind]; [|naive_solver].
    destruct (check_sha256 (bm_bridge_sha256 m)) as [[]|]; cbn [rbind]; naive_solver.
Qed.

Module LayoutDemo.
Definition digest (c : bytes) : bytes := replicate 32 (N.of_nat (length c) mod 256)%N.
Definition entry (name : text) (c : bytes) : result text ZipEntry :=
  Ok {| ze_name := Some name; ze_dir := false; ze_symlink := false; ze_content := Ok c |}.
Definition archive (_ : bytes) : result text (list (result text ZipEntry)) :=
  Ok [entry (txt "x.dll") [1]%N; entry CUA_DRIVER_EXE_NAME [2; 3]%N].
Definition found : result text (list (text * text)) := inspect_archive digest archive id (fun _ => []) [].
Definition files : list (text * text) :=
  [(CUA_DRIVER_EXE_NAME, hex (digest [2; 3]%N)); (txt "x.dll", hex (digest [1]%N))].
(** Names that differ in their case only are refused. *)
Definition twice (_ : bytes) : result text (list (result text ZipEntry)) :=
  Ok [entry CUA_DRIVER_EXE_NAME [2; 3]%N; entry (txt "CUA-DRIVER.EXE") []].
Example found_files : found = Ok files.
Proof. by vm_compute. Qed.
Example case_refused : is_ok (inspect_archive digest twice id (fun _ => []) []) = false.
Proof. by vm_compute. Qed.
End LayoutDemo.

Lemma inspected_archive_is_wellformed_witness :
  LayoutDemo.found = Ok LayoutDemo.files /\ NoDup (lower_names LayoutDemo.files).
Proof.
  split; [by vm_compute|].
  apply (inspected_archive_is_wellformed LayoutDemo.digest LayoutDemo.archive id (fun _ => []) [] LayoutDemo.files).
  by vm_compute.
Defined.
