(* ===== verification/Bundles.v ===== *)
(** * Getting a bundle ([bundle/mod.rs], [bundle/http.rs])

    [Acquirer::prepare] with all it calls, over the disk of [Fs] and a network
    that answers a request with anything: a failure, a status, a stream of
    chunks that may break off.  The random bytes of temporary names and the
    clock are read one after the other from [entropy] and [clock]. *)
From stdpp Require Import sorting.
From S2P Require Import Prelude Bytes Utf8 Resolve Store Releases BridgeProtocol Fs GuestInstall BundleCache.

(** ** Programs over the disk and the network *)

(** [wd_asked]: the URLs requested, the last one first.  [wd_warnings]: the
    notes of the connect. *)
Record World := { wd_io : Io; wd_asked : list text; wd_ticks : nat; wd_warnings : list text }.

Definition Acq (E A : Type) : Type := World -> World * result E A.

Definition aret {E A} (a : A) : Acq E A := fun w => (w, Ok a).
Definition araise {E A} (e : E) : Acq E A := fun w => (w, Err e).
Definition abind {E A B} (m : Acq E A) (f : A -> Acq E B) : Acq E B := fun w =>
  match m w with (w, Ok a) => f a w | (w, Err e) => (w, Err e) end.
(** [match m.await]: its result, errors included. *)
Definition asee {E F A} (m : Acq E A) : Acq F (result E A) := fun w => let '(w, r) := m w in (w, Ok r).
Definition amap_err {E F A} (f : E -> F) (m : Acq E A) : Acq F A := fun w => let '(w, r) := m w in (w, map_err f r).
Definition alift {E A} (r : result E A) : Acq E A := fun w => (w, r).
Definition disk {A} (m : M A) : Acq IoError A := fun w =>
  let '(io, r) := m (wd_io w) in
  ({| wd_io := io; wd_asked := wd_asked w; wd_ticks := wd_ticks w; wd_warnings := wd_warnings w |}, r).
(** An operation of the disk that has no error to answer. *)
Definition quiet {E A} (none : A) (m : M A) : Acq E A := fun w =>
  let '(w, r) := disk m w in (w, Ok (match r with Ok a => a | Err _ => none end)).
Definition warn {E} (t : text) : Acq E unit := fun w =>
  ({| wd_io := wd_io w; wd_asked := wd_asked w; wd_ticks := wd_ticks w; wd_warnings := wd_warnings w ++ [t] |}, Ok tt).
Definition tick {E} : Acq E nat := fun w =>
  ({| wd_io := wd_io w; wd_asked := wd_asked w; wd_ticks := S (wd_ticks w); wd_warnings := wd_warnings w |},
   Ok (wd_ticks w)).
Definition warnings {E} : Acq E (list text) := fun w => (w, Ok (wd_warnings w)).

Declare Scope acq_scope.
Delimit Scope acq_scope with acq.
Notation "x <- m ; k" := (abind m (fun x => k))
  (at level 20, m at level 100, k at level 200, right associativity) : acq_scope.
Notation "m ;; k" := (abind m (fun _ => k)) (at level 100, k at level 200, right associativity) : acq_scope.

(** ** [http.rs] *)

Definition MAX_TEXT_BYTES : N := 8 * 1024 * 1024.
Definition MAX_DOWNLOAD_BYTES : N := 1024 * 1024 * 1024.

Inductive FetchError := FetchNotFound | Unavailable (detail : text).

Record Endpoints := { ep_api : text; ep_web : text }.
Definition github : Endpoints := {| ep_api := txt "https://api.github.com"; ep_web := txt "https://github.com" |}.
Definition asset_url (e : Endpoints) (repo tag asset : text) : text :=
  ep_web e ++ txt "/" ++ repo ++ txt "/releases/download/" ++ tag ++ txt "/" ++ asset.
Definition releases_url (e : Endpoints) (repo : text) : text :=
  ep_api e ++ txt "/repos/" ++ repo ++ txt "/releases?per_page=100".

(** A [reqwest::Error]: what it is, the host of its URL if it has one, and the
    texts of its sources. *)
Record ReqwestError := {
  rq_timeout : bool; rq_connect : bool; rq_url : option (option text); rq_sources : list text }.

(** What the network answers: [send] fails, or a response with its status,
    its [Link] header when it is text, and the chunks of its body. *)
Inductive Answer :=
| SendFailed (e : ReqwestError)
| Response (status : N) (link : option text) (chunks : list (result ReqwestError bytes)).

Definition describe (e : ReqwestError) : text :=
  (if rq_timeout e then txt "timed out"
   else if rq_connect e then txt "connection failed"
   else txt "request failed")
  ++ match rq_url e with
     | Some host => txt " (" ++ default (txt "?") host ++ txt ")"
     | None => []
     end
  ++ (rq_sources e ≫= fun t => txt ": " ++ t).

Definition host_of (url : text) : text :=
  match split_once (txt "://") url with
  | Some (_, rest) =>
      let rest := match split_once (txt "://") rest with Some (a, _) => a | None => rest end in
      match split_char slash rest with h :: _ => h | [] => url end
  | None => url
  end.

Definition trim_start_char (c : char) (t : text) : text := drop_while (N.eqb c) t.
Definition trim_end_char (c : char) (t : text) : text := reverse (drop_while (N.eqb c) (reverse t)).

(** Double quotes around [next] in [rel=next]. *)
Definition REL_NEXT : text := txt "rel=" ++ [34%N] ++ txt "next" ++ [34%N].

Definition next_part (part : text) : option text :=
  match split_once_char 59%N part with
  | Some (url, params) =>
      if existsb (fun p => bool_decide (trim p = REL_NEXT)) (split_char 59%N params)
      then Some (trim_end_char 62%N (trim_start_char 60%N (trim url))) else None
  | None => None
  end.

Fixpoint find_map {A B} (f : A -> option B) (l : list A) : option B :=
  match l with
  | [] => None
  | x :: l => match f x with Some b => Some b | None => find_map f l end
  end.

Definition next_link (link : option text) : option text :=
  match link with Some link => find_map next_part (split_char 44%N link) | None => None end.

(** The loop of [text]. *)
Fixpoint read_body (url : text) (chunks : list (result ReqwestError bytes)) (body : bytes) : result FetchError bytes :=
  match chunks with
  | [] => Ok body
  | Err e :: _ => Err (Unavailable (describe e))
  | Ok chunk :: chunks =>
      if (MAX_TEXT_BYTES <? blen body + blen chunk)%N
      then Err (Unavailable (txt "response from " ++ host_of url ++ txt " is too large"))
      else read_body url chunks (body ++ chunk)
  end.

(** ** [mod.rs]: what fails, and how it is said *)

Inductive Component := CuaDriver | BridgeComponent | BundlePath.
Definition component_text (c : Component) : text :=
  match c with
  | CuaDriver => txt "Cua driver"
  | BridgeComponent => txt "rdpilot-bridge"
  | BundlePath => txt "bundle_path"
  end.

Inductive Cause :=
| Offline (detail : text)
| ChecksumMismatch (expected actual : text)
| NoMatchingRelease (detail : text)
| UnsupportedArchiveLayout (detail : text)
| MissingPath (detail : text)
| AutoDownloadDisabled
| CauseIo (detail : text).

Definition cause_text (c : Cause) : text :=
  match c with
  | Offline d => txt "offline or GitHub unreachable (" ++ d ++ txt ")"
  | ChecksumMismatch e a =>
      txt "checksum failure (published " ++ e ++ txt ", downloaded " ++ a ++ txt "); nothing was cached"
  | NoMatchingRelease d => txt "no matching release (" ++ d ++ txt ")"
  | UnsupportedArchiveLayout d => txt "unsupported archive layout (" ++ d ++ txt ")"
  | MissingPath d => txt "missing path (" ++ d ++ txt ")"
  | AutoDownloadDisabled => txt "not in the cache, and CuaAutoDownload is no"
  | CauseIo d => txt "local error (" ++ d ++ txt ")"
  end.

Record BundleError := { be_component : Component; be_version : text; be_arch : Arch; be_cause : Cause }.

Definition bundle_error_text (e : BundleError) : text :=
  txt "Cua is enabled but " ++ component_text (be_component e) ++ txt " " ++ be_version e ++ txt " ("
  ++ arch_str (be_arch e) ++ txt ") is not available: " ++ cause_text (be_cause e)
  ++ txt ". Fixes: connect native-only with -o CuaEnabled=no; pin a release with -o CuaVersion=<tag>; set bundle_path in config.toml to a directory with rdpilot-bridge.exe and the Cua archive; or restore network access".

Record Obtained := { ob_path : path; ob_sha256 : text; ob_version : text }.

Definition offline (e : FetchError) : Cause :=
  match e with
  | FetchNotFound => Offline (txt "HTTP 404 for the release list")
  | Unavailable d => Offline d
  end.

Inductive BridgeFetch := BridgeNotFound | BridgeFailed (cause : Cause).

(** [RESOLVED_TTL], in nanoseconds. *)
Definition RESOLVED_TTL : Z := 3600 * 10 ^ 9.
Definition MAX_RELEASE_PAGES : nat := 3.

(** [str::strip_suffix] *)
Definition strip_suffix (s t : text) : option text :=
  match strip_prefix (reverse s) (reverse t) with Some r => Some (reverse r) | None => None end.

(** [replace('+', "_")] *)
Definition plus_to_underscore (t : text) : text := map (fun c => if (c =? 43)%N then 95%N else c) t.

(** ** What is outside the code

    The digest of sha2; the names in a directory; zip archives; [Debug] of a
    string and the texts of errors, paths and status codes; the JSON of a
    release list; the network, for the number of earlier requests; the process
    id; random bytes and the clock, one reading after the other. *)
Class Outside := {
  digest : bytes -> bytes;
  listing : Files -> path -> list text;
  zip_archive : bytes -> result text (list (result text ZipEntry));
  debug_str : text -> text;
  show_manifest_error : ManifestError -> text;
  show_io : IoError -> text;
  show_path : path -> text;
  show_status : N -> text;
  parse_releases : text -> result text (list ApiRelease);
  web : nat -> text -> Answer;
  pid : N;
  entropy : nat -> bytes;
  clock : nat -> Z }.

(** [Acquirer]; the cache is its root. *)
Record Acquirer := { aq_endpoints : Endpoints; aq_root : path; aq_version : text; aq_ttl : Z }.

Section Acquirer.
Open Scope acq_scope.
Context {V : Type} `{Semver V} {HR : Serde Resolved} {HM : Serde BundleManifest} {O : Outside}.
Context (self : Acquirer).
#[local] Abbreviation endpoints := (aq_endpoints self).
#[local] Abbreviation root := (aq_root self).
#[local] Abbreviation daemon_version := (aq_version self).
#[local] Abbreviation ttl := (aq_ttl self).

(** ** [Http] *)

(** [send] *)
Definition ask {E} (url : text) : Acq E Answer := fun w =>
  ({| wd_io := wd_io w; wd_asked := url :: wd_asked w; wd_ticks := wd_ticks w; wd_warnings := wd_warnings w |},
   Ok (web (length (wd_asked w)) url)).

Definition get (url : text) : Acq FetchError (option text * list (result ReqwestError bytes)) :=
  answer <- ask url ;
  match answer with
  | SendFailed e => araise (Unavailable (describe e))
  | Response status link chunks =>
      if ((200 <=? status) && (status <=? 299))%N then aret (link, chunks)
      else if (status =? 404)%N then araise FetchNotFound
      else araise (Unavailable (txt "HTTP " ++ show_status status ++ txt " from " ++ host_of url))
  end.

(** [Http::text] *)
Definition http_text (url : text) : Acq FetchError (text * option text) :=
  response <- get url ;
  let '(link, chunks) := response in
  let next := next_link link in
  body <- alift (read_body url chunks []) ;
  match from_utf8 body with
  | Some t => aret (t, next)
  | None => araise (Unavailable (txt "response from " ++ host_of url ++ txt " is not UTF-8"))
  end.

Definition write_cause (e : IoError) : FetchError := Unavailable (txt "cannot write download: " ++ show_io e).

(** The loop of [download]; [body] is what the hasher has seen. *)
Fixpoint save_chunks (url : text) (dest : path) (chunks : list (result ReqwestError bytes)) (body : bytes)
    : Acq FetchError bytes :=
  match chunks with
  | [] => aret body
  | Err e :: _ => araise (Unavailable (describe e))
  | Ok chunk :: chunks =>
      if (MAX_DOWNLOAD_BYTES <? blen body + blen chunk)%N
      then araise (Unavailable (txt "download from " ++ host_of url ++ txt " is too large"))
      else
        amap_err write_cause (disk (fs_append dest chunk)) ;;
        save_chunks url dest chunks (body ++ chunk)
  end.

Definition download (url : text) (dest : path) : Acq FetchError text :=
  response <- get url ;
  amap_err write_cause (disk (fs_write_new dest [])) ;;
  body <- save_chunks url dest (snd response) [] ;
  amap_err write_cause (disk fs_sync) ;;
  amap_err write_cause (disk fs_sync) ;;
  aret (hex (digest body)).

(** ** Helpers of [mod.rs] *)

Definition io_cause (e : IoError) : Cause := CauseIo (show_io e).

(** [hash] *)
Definition hash (p : path) : Acq text text :=
  amap_err (fun e => show_path p ++ txt ": " ++ show_io e) (disk (sha256_file digest p)).

Definition fresh_name {E} : Acq E text :=
  n <- tick ;
  aret (tmp_name pid (entropy n)).

Definition cache_lookup {E} (component version : text) (arch : Arch) (file : text) : Acq E (option (path * text)) :=
  quiet None (lookup digest root component version arch file).

Definition cache_publish (component version : text) (arch : Arch) (file : text) (dl : path) (sha256 : text)
    : Acq IoError path :=
  name <- fresh_name ;
  disk (publish digest root name component version arch file dl sha256).

Definition cache_resolved {E} (key : text) : Acq E (option text) :=
  n <- tick ;
  quiet None (resolved root (clock n) key ttl).

Definition cache_remember {E} (key value : text) : Acq E unit :=
  n <- tick ;
  name <- fresh_name ;
  quiet tt (remember root name (clock n) key value).

(** Download to a temporary file, compare, check; remove it on failure. *)
Definition download_verified (url expected : text) (check : path -> M (result Cause unit)) : Acq Cause path :=
  name <- fresh_name ;
  tmp <- amap_err io_cause (disk (download_path root name)) ;
  got <- asee (download url tmp) ;
  result <- (match got with
    | Ok actual =>
        if decide (actual = expected) then quiet (Err (CauseIo [])) (check tmp)
        else aret (Err (ChecksumMismatch expected actual))
    | Err FetchNotFound => aret (Err (NoMatchingRelease []))
    | Err (Unavailable detail) => aret (Err (Offline detail))
    end) ;
  match result with
  | Ok _ => aret tmp
  | Err cause => quiet tt (fs_remove_file tmp) ;; araise cause
  end.

Fixpoint list_pages (pages : nat) (url : option text) (releases : list ApiRelease) : Acq FetchError (list ApiRelease) :=
  match pages, url with
  | S pages, Some page =>
      response <- http_text page ;
      batch <- alift (map_err (fun e => Unavailable (txt "unexpected release list from GitHub: " ++ e))
                        (parse_releases (fst response))) ;
      list_pages pages (snd response) (releases ++ batch)
  | _, _ => aret releases
  end.

(** [list] *)
Definition list_releases (repo : text) : Acq FetchError (list ApiRelease) :=
  list_pages MAX_RELEASE_PAGES (Some (releases_url endpoints repo)) [].

(** ** The Cua driver *)

Definition error_at (component : Component) (version : text) (arch : Arch) (cause : Cause) : BundleError :=
  {| be_component := component; be_version := version; be_arch := arch; be_cause := cause |}.

(** [Local]: what [bundle_path] holds. *)
Record Local := { lo_bridge : option path; lo_cua : option (CuaRelease V * path) }.

(** The first of [releases] that the cache holds undamaged. *)
Fixpoint first_cached {E} (arch : Arch) (releases : list (CuaRelease V)) : Acq E (option (CuaRelease V)) :=
  match releases with
  | [] => aret None
  | r :: releases =>
      found <- cache_lookup CUA_COMPONENT (ver_show (cr_version r)) arch (asset r arch) ;
      match found with
      | Some _ => aret (Some r)
      | None => first_cached arch releases
      end
  end.

(** [b.version.cmp(&a.version)] is not greater *)
Definition not_older (a b : CuaRelease V) : Prop := ver_cmp (cr_version b) (cr_version a) <> Gt.
#[local] Instance not_older_dec : RelDecision not_older.
Proof. intros a b. unfold not_older. apply _. Defined.

Definition newest_cached_cua {E} (channel : Channel) (arch : Arch) : Acq E (option (CuaRelease V)) :=
  names <- quiet [] (versions listing root CUA_COMPONENT arch) ;
  let releases := List.filter (accepts channel) (list_omap _ _ from_version names) in
  first_cached arch (merge_sort not_older releases).

Definition channel_key (channel : Channel) (arch : Arch) : text :=
  txt "cua/" ++ channel_str channel ++ txt "/" ++ arch_str arch.

Definition resolve_channel (channel : Channel) (request : BundleRequest) : Acq BundleError (CuaRelease V) :=
  let arch := br_arch request in
  let error := error_at CuaDriver (channel_str channel) arch in
  if negb (br_auto_download request) then
    newest <- newest_cached_cua channel arch ;
    alift (ok_or (error AutoDownloadDisabled) newest)
  else
    let key := channel_key channel arch in
    known <- cache_resolved key ;
    match and_then known from_tag with
    | Some release => aret release
    | None =>
        listed <- asee (list_releases CUA_REPO) ;
        match listed with
        | Ok releases =>
            match select releases channel arch with
            | Some release =>
                cache_remember key (cr_tag release) ;;
                aret release
            | None => araise (error (NoMatchingRelease (txt "no cua-driver-rs release in channel "
                        ++ channel_str channel ++ txt " publishes a Windows " ++ arch_str arch ++ txt " archive")))
            end
        | Err fetch =>
            let cause := offline fetch in
            newest <- newest_cached_cua channel arch ;
            match newest with
            | Some release =>
                warn (txt "cannot reach GitHub (" ++ cause_text cause ++ txt "); using cached Cua "
                      ++ ver_show (cr_version release) ++ txt " for CuaVersion " ++ channel_str channel) ;;
                aret release
            | None => araise (error cause)
            end
        end
    end.

(** The archive of [bundle_path], which fixes the version. *)
Definition local_cua (request : BundleRequest) (wanted : Wanted V) (release : CuaRelease V) (p : path)
    : Acq BundleError Obtained :=
  let version := ver_show (cr_version release) in
  (match wanted with
   | WantTag tag =>
       if bool_decide (ver_cmp (cr_version tag) (cr_version release) <> Eq) then
         warn (txt "bundle_path holds Cua " ++ version ++ txt "; CuaVersion " ++ br_cua_version request ++ txt " is ignored")
       else aret tt
   | WantChannel _ => aret tt
   end) ;;
  sha256 <- amap_err (fun e => error_at CuaDriver version (br_arch request) (CauseIo e)) (hash p) ;
  aret {| ob_path := p; ob_sha256 := sha256; ob_version := version |}.

(** The check that [cua] gives to [download_verified]. *)
Definition check_layout (p : path) : M (result Cause unit) := fun s =>
  let '(s, r) := inspect digest zip_archive debug_str show_manifest_error show_io p s in
  (s, match r with
      | Ok (Ok _) => Ok (Ok tt)
      | Ok (Err e) => Ok (Err (UnsupportedArchiveLayout e))
      | Err e => Err e
      end).

(** From the text of the checksum file to the cache. *)
Definition download_cua (release : CuaRelease V) (arch : Arch) (asset sums : text) : Acq BundleError Obtained :=
  let version := ver_show (cr_version release) in
  let error := error_at CuaDriver version arch in
  expected <- alift (map_err (fun e => error (NoMatchingRelease e)) (parse_checksum sums asset)) ;
  checked <- amap_err (fun cause => match cause with
      | NoMatchingRelease _ => error (NoMatchingRelease (txt "upstream release " ++ cr_tag release ++ txt " has no " ++ asset))
      | cause => error cause
      end)
    (download_verified (asset_url endpoints CUA_REPO (cr_tag release) asset) expected check_layout) ;
  path <- amap_err (fun e => error (io_cause e)) (cache_publish CUA_COMPONENT version arch asset checked expected) ;
  aret {| ob_path := path; ob_sha256 := expected; ob_version := version |}.

(** The part of [cua] that asks upstream. *)
Definition fetch_cua (release : CuaRelease V) (arch : Arch) (asset : text) : Acq BundleError Obtained :=
  let error := error_at CuaDriver (ver_show (cr_version release)) arch in
  sums <- asee (http_text (asset_url endpoints CUA_REPO (cr_tag release) CHECKSUMS_ASSET)) ;
  match sums with
  | Err FetchNotFound =>
      araise (error (NoMatchingRelease (txt "upstream release " ++ cr_tag release
                ++ txt " does not exist or has no " ++ CHECKSUMS_ASSET)))
  | Err (Unavailable detail) => araise (error (Offline detail))
  | Ok (sums, _) => download_cua release arch asset sums
  end.

Definition cua (request : BundleRequest) (local : Local) : Acq BundleError Obtained :=
  let arch := br_arch request in
  wanted <- alift (map_err (fun e => error_at CuaDriver (br_cua_version request) arch (NoMatchingRelease e))
                     (parse_wanted debug_str (br_cua_version request))) ;
  match lo_cua local with
  | Some (release, p) => local_cua request wanted release p
  | None =>
      release <- (match wanted with
        | WantTag release => aret release
        | WantChannel channel => resolve_channel channel request
        end) ;
      let version := ver_show (cr_version release) in
      let asset := asset release arch in
      found <- cache_lookup CUA_COMPONENT version arch asset ;
      match found with
      | Some (p, sha256) => aret {| ob_path := p; ob_sha256 := sha256; ob_version := version |}
      | None =>
          if negb (br_auto_download request) then araise (error_at CuaDriver version arch AutoDownloadDisabled)
          else fetch_cua release arch asset
      end
  end.

(** ** rdpilot-bridge *)

Definition cached_bridge {E} (version : text) (arch : Arch) : Acq E (option Obtained) :=
  found <- cache_lookup BRIDGE_COMPONENT version arch BRIDGE_EXE_NAME ;
  aret (match found with
        | Some (p, sha256) => Some {| ob_path := p; ob_sha256 := sha256; ob_version := version |}
        | None => None
        end).

Definition BRIDGE_KEY : text := txt "bridge/newest".

Definition newest_bridge_version (arch : Arch) : Acq BundleError text :=
  let error := error_at BridgeComponent daemon_version arch in
  known <- cache_resolved BRIDGE_KEY ;
  match known with
  | Some version => aret version
  | None =>
      releases <- amap_err (fun e => error (offline e)) (list_releases RELEASE_REPO) ;
      match newest BRIDGE_EXE_NAME releases with
      | None => araise (error (NoMatchingRelease (txt "this development build has no release "
          ++ release_tag daemon_version
          ++ txt ", and no published rdpilot release has rdpilot-bridge.exe; put a bridge built from this source in bundle_path")))
      | Some v =>
          let version := ver_show v in
          cache_remember BRIDGE_KEY version ;;
          aret version
      end
  end.

(** From the text of the checksum file to the cache. *)
Definition download_bridge (version : text) (arch : Arch) (sums : text) : Acq BridgeFetch Obtained :=
  let tag := release_tag version in
  expected <- alift (map_err (fun e => BridgeFailed (NoMatchingRelease e)) (parse_checksum sums BRIDGE_EXE_NAME)) ;
  checked <- amap_err (fun cause => match cause with
      | NoMatchingRelease _ => BridgeFailed (NoMatchingRelease (txt "release " ++ tag ++ txt " has no " ++ BRIDGE_EXE_NAME))
      | cause => BridgeFailed cause
      end)
    (download_verified (asset_url endpoints RELEASE_REPO tag BRIDGE_EXE_NAME) expected (fun _ => ret (Ok tt))) ;
  path <- amap_err (fun e => BridgeFailed (io_cause e))
    (cache_publish BRIDGE_COMPONENT version arch BRIDGE_EXE_NAME checked expected) ;
  aret {| ob_path := path; ob_sha256 := expected; ob_version := version |}.

Definition fetch_bridge (version : text) (arch : Arch) : Acq BridgeFetch Obtained :=
  let tag := release_tag version in
  sums <- asee (http_text (asset_url endpoints RELEASE_REPO tag SHA256SUMS_ASSET)) ;
  match sums with
  | Err FetchNotFound => araise BridgeNotFound
  | Err (Unavailable detail) => araise (BridgeFailed (Offline detail))
  | Ok (sums, _) => download_bridge version arch sums
  end.

(** The arm of [bridge] for a build that has no release. *)
Definition other_bridge (arch : Arch) : Acq BundleError Obtained :=
  version <- newest_bridge_version arch ;
  warn (txt "rdpilot-bridge " ++ version ++ txt " differs from rdpilot-daemon " ++ daemon_version
        ++ txt ": this build has no release and bundle_path has no rdpilot-bridge.exe") ;;
  found <- cached_bridge version arch ;
  match found with
  | Some obtained => aret obtained
  | None =>
      amap_err (fun e => error_at BridgeComponent version arch (match e with
          | BridgeNotFound => NoMatchingRelease (txt "release " ++ release_tag version ++ txt " has no SHA256SUMS")
          | BridgeFailed cause => cause
          end)) (fetch_bridge version arch)
  end.

Definition FROM_BUNDLE_PATH : text := txt "from bundle_path".

Definition bridge (request : BundleRequest) (local : Local) : Acq BundleError Obtained :=
  let arch := br_arch request in
  match lo_bridge local with
  | Some p =>
      sha256 <- amap_err (fun e => error_at BridgeComponent FROM_BUNDLE_PATH arch (CauseIo e)) (hash p) ;
      aret {| ob_path := p; ob_sha256 := sha256; ob_version := FROM_BUNDLE_PATH |}
  | None =>
      let own := daemon_version in
      found <- cached_bridge own arch ;
      match found with
      | Some obtained => aret obtained
      | None =>
          if negb (br_auto_download request) then araise (error_at BridgeComponent own arch AutoDownloadDisabled)
          else
            fetched <- asee (fetch_bridge own arch) ;
            match fetched with
            | Ok obtained => aret obtained
            | Err (BridgeFailed cause) => araise (error_at BridgeComponent own arch cause)
            | Err BridgeNotFound => other_bridge arch
            end
      end
  end.

(** ** The bundle directory *)

(** [sha256_file(..).ok().as_deref() == Some(..)] *)
Definition has_hash (p : path) (expected : text) : M bool :=
  bind (attempt (sha256_file digest p)) (fun h =>
  ret (match h with Ok actual => bool_decide (actual = expected) | Err _ => false end)).

(** The part of [verify_bundle] from the bytes of the manifest on. *)
Definition check_bundle (dir : path) (id : text) (c : bytes) : M bool :=
  match from_slice c with
  | Err _ => ret false
  | Ok m =>
      if bool_decide (bm_bundle_id m = id) && is_ok (validate m) then
        bind (has_hash (dir ++ [BRIDGE_EXE_NAME]) (bm_bridge_sha256 m)) (fun one =>
        if one : bool then has_hash (dir ++ [bm_archive_name m]) (bm_archive_sha256 m) else ret false)
      else ret false
  end.

(** [verify_bundle]: what is not the bundle is removed. *)
Definition verify_bundle (dir : path) (id : text) : M bool :=
  bind (attempt (fs_read (dir ++ [MANIFEST_NAME]))) (fun r =>
  match r with
  | Err _ => ret false
  | Ok c =>
      bind (check_bundle dir id c) (fun ok =>
      if ok : bool then ret true
      else bind (attempt (fs_remove_dir_all dir)) (fun _ => ret false))
  end).

(** [link_or_copy] *)
Definition link_or_copy (from to : path) : M unit :=
  bind (attempt (fs_hard_link from to)) (fun linked =>
  match linked with Ok _ => ret tt | Err _ => fs_copy from to end).

(** The closure [staged] of [assemble]. *)
Definition stage_bundle (tmp bridge_path cua_path : path) (manifest : BundleManifest) : M unit :=
  bind (fs_create_dir tmp) (fun _ =>
  bind (link_or_copy bridge_path (tmp ++ [BRIDGE_EXE_NAME])) (fun _ =>
  bind (link_or_copy cua_path (tmp ++ [bm_archive_name manifest])) (fun _ =>
  bind (lift Other (to_vec manifest)) (fun json =>
  fs_write (tmp ++ [MANIFEST_NAME]) json)))).

(** The end of [assemble]: put [tmp] in place of [target]. *)
Definition install_bundle (tmp target : path) (id : text) : M unit :=
  bind (attempt (fs_rename tmp target)) (fun renamed =>
  match renamed with
  | Ok _ => ret tt
  | Err _ =>
      bind (verify_bundle target id) (fun winner =>
      if winner : bool then bind (attempt (fs_remove_dir_all tmp)) (fun _ => ret tt)
      else
        bind (attempt (fs_remove_dir_all target)) (fun _ =>
        bind (attempt (fs_rename tmp target)) (fun renamed =>
        match renamed with
        | Ok _ => ret tt
        | Err e =>
            bind (attempt (fs_remove_dir_all tmp)) (fun _ =>
            bind (verify_bundle target id) (fun late =>
            if late : bool then ret tt else throw e))
        end)))
  end).

Definition bundle_id_of (cua bridge : Obtained) : text :=
  let sum := hex (digest (utf8 (ob_sha256 bridge ++ ob_sha256 cua))) in
  txt "cua-driver-rs-v" ++ plus_to_underscore (ob_version cua) ++ txt "-" ++ take 16 sum.

(** The blocking closure of [assemble]. *)
Definition build_bundle (target : path) (id archive_name : text) (cua bridge : Obtained) : Acq Cause unit :=
  there <- quiet false (verify_bundle target id) ;
  if there : bool then aret tt
  else
    inspected <- quiet (Err []) (inspect digest zip_archive debug_str show_manifest_error show_io (ob_path cua)) ;
    files <- alift (map_err UnsupportedArchiveLayout inspected) ;
    let manifest := {| bm_bundle_id := id; bm_cua_version := ob_version cua; bm_archive_name := archive_name;
                       bm_archive_sha256 := ob_sha256 cua; bm_bridge_sha256 := ob_sha256 bridge; bm_files := files |} in
    alift (map_err (fun e => UnsupportedArchiveLayout (show_manifest_error e)) (validate manifest)) ;;
    let par := root ++ [BUNDLES_DIR] in
    amap_err io_cause (disk (fs_create_dir_all par)) ;;
    name <- fresh_name ;
    let tmp := par ++ [name] in
    staged <- asee (disk (stage_bundle tmp (ob_path bridge) (ob_path cua) manifest)) ;
    match staged with
    | Err e => quiet (Ok tt) (attempt (fs_remove_dir_all tmp)) ;; araise (io_cause e)
    | Ok _ => amap_err io_cause (disk (install_bundle tmp target id))
    end.

Definition assemble (cua bridge : Obtained) (arch : Arch) : Acq BundleError (path * text) :=
  let error := error_at CuaDriver (ob_version cua) arch in
  let bundle_id := bundle_id_of cua bridge in
  alift (map_err (fun e => error (CauseIo (show_manifest_error e))) (check_bundle_id bundle_id)) ;;
  let dir := bundle_dir root bundle_id in
  archive_name <- alift (ok_or (error (MissingPath (txt "archive file name"))) (last (ob_path cua))) ;
  amap_err error (build_bundle dir bundle_id archive_name cua bridge) ;;
  aret (dir, bundle_id).

(** ** [bundle_path] *)

(** The version in the name of an archive. *)
Definition local_release (arch : Arch) (name : text) : option (CuaRelease V) :=
  match strip_prefix (txt "cua-driver-rs-") name with
  | Some rest => match strip_suffix (asset_suffix arch) rest with
                 | Some version => from_version version
                 | None => None
                 end
  | None => None
  end.

Fixpoint scan_names (dir : path) (arch : Arch) (names : list text) (local : Local) : Acq BundleError Local :=
  match names with
  | [] => aret local
  | name :: names =>
      let p := dir ++ [name] in
      file <- quiet false (fs_is_file p) ;
      if negb file then scan_names dir arch names local
      else if decide (name = BRIDGE_EXE_NAME) then
        scan_names dir arch names {| lo_bridge := Some p; lo_cua := lo_cua local |}
      else match local_release arch name with
        | None => scan_names dir arch names local
        | Some release =>
            match lo_cua local with
            | Some _ => araise (error_at BundlePath (show_path dir) arch
                          (NoMatchingRelease (txt "bundle_path holds more than one Cua archive")))
            | None => scan_names dir arch names {| lo_bridge := lo_bridge local; lo_cua := Some (release, p) |}
            end
        end
  end.

Definition scan_local (dir : path) (arch : Arch) : Acq BundleError Local :=
  names <- amap_err (fun e => error_at BundlePath (show_path dir) arch
             (MissingPath (txt "bundle_path is not a readable directory: " ++ show_io e)))
             (disk (fs_read_dir listing dir)) ;
  scan_names dir arch names {| lo_bridge := None; lo_cua := None |}.

(** [Acquirer::prepare]; the world's warnings are the connect's, empty at the
    start. *)
Definition prepare (request : BundleRequest) (bundle_path : option path) : Acq BundleError PreparedBundle :=
  local <- (match bundle_path with
    | Some dir => scan_local dir (br_arch request)
    | None => aret {| lo_bridge := None; lo_cua := None |}
    end) ;
  cua <- cua request local ;
  bridge <- bridge request local ;
  assembled <- assemble cua bridge (br_arch request) ;
  notes <- warnings ;
  aret {| pb_dir := fst assembled; pb_bundle_id := snd assembled; pb_warnings := notes |}.

(** [DaemonBundleSource::prepare]: [acquirer] says whether there is one, and
    [config] is the answer of [rdpilot_config::resolve]. *)
Definition source_prepare (acquirer : result text unit) (config : result text (option path)) (request : BundleRequest)
    : Acq BundleError PreparedBundle :=
  let local_error cause := error_at CuaDriver (br_cua_version request) (br_arch request) cause in
  alift (map_err (fun e => local_error (CauseIo e)) acquirer) ;;
  bundle_path <- alift (map_err (fun e => local_error (CauseIo (txt "config.toml: " ++ e))) config) ;
  prepare request bundle_path.

End Acquirer.
Arguments Local : clear implicits.
