(* ===== verification/BundleFacts.v ===== *)
(** * What getting a bundle guarantees

    How much [prepare] of [Bundles] asks of the network and where it writes
    ([tame]), what the cache answers, and what is in a bundle directory. *)
From stdpp Require Import sorting.
From S2P Require Import Prelude Bytes Utf8 Resolve Store Releases BridgeProtocol Fs GuestInstall BundleCache Bundles.

(** ** Programs on the disk that make nothing fail by themselves *)

(** When nothing is to fail before, nothing is to fail after; and what is
    outside [D] stays. *)
Definition mtame {A} (D : path -> Prop) (m : M A) : Prop :=
  touches D m /\ forall s, io_faults s = [] -> io_faults (fst (m s)) = [].

Create HintDb tame_db.

Lemma mtame_touches {A} D (m : M A) : mtame D m -> touches D m.
Proof. by intros []. Qed.

Lemma mtame_bind {A B} D (m : M A) (f : A -> M B) :
  mtame D m -> (forall a, mtame D (f a)) -> mtame D (bind m f).
Proof.
  intros [Ht Hc] Hf. split; [apply touches_bind; [done|apply Hf]|].
  intros s Hs. specialize (Hc s Hs). unfold bind. destruct (m s) as [s1 [a|e]]; [|done]. by apply Hf.
Qed.

Lemma mtame_attempt {A} D (m : M A) : mtame D m -> mtame D (attempt m).
Proof.
  intros [Ht Hc]. split; [by apply touches_attempt|].
  intros s Hs. specialize (Hc s Hs). unfold attempt. by destruct (m s).
Qed.

Lemma mtame_ret {A} D (a : A) : mtame D (ret a).
Proof. split; [apply touches_ret|done]. Qed.
Lemma mtame_throw {A} D e : mtame D (@throw A e).
Proof. split; [apply touches_throw|done]. Qed.
Lemma mtame_lift {E A} D (f : E -> IoError) (r : result E A) : mtame D (lift f r).
Proof. by destruct r. Qed.
Lemma mtame_from_option {A} D e (o : option A) : mtame D (from_option e o).
Proof. by destruct o. Qed.

Lemma io_op_calm {A} (ok : Files -> result IoError (Files * A)) bad s :
  io_faults s = [] -> io_faults (fst (io_op ok bad s)) = [].
Proof. intros Hs. unfold io_op. rewrite Hs. by destruct (ok _) as [[]|]. Qed.

(** Without faults an operation is what it does. *)
Lemma io_op_calmly {A} (ok : Files -> result IoError (Files * A)) bad s :
  io_faults s = [] -> snd (io_op ok bad s) = match ok (io_fs s) with Ok (_, a) => Ok a | Err e => Err e end.
Proof. intros Hs. unfold io_op. rewrite Hs. by destruct (ok _) as [[]|]. Qed.

Lemma mtame_io_op {A} D (ok : Files -> result IoError (Files * A)) bad :
  touches D (io_op ok bad) -> mtame D (io_op ok bad).
Proof. intros. split; [done|]. apply io_op_calm. Qed.

Lemma mtame_read D p : mtame D (fs_read p).
Proof. apply mtame_io_op, touches_read. Qed.
Lemma mtame_sync D : mtame D fs_sync.
Proof. apply mtame_io_op, touches_sync. Qed.
Lemma mtame_read_dir D listing p : mtame D (fs_read_dir listing p).
Proof. apply mtame_io_op, touches_read_dir. Qed.
Lemma mtame_exists D p : mtame D (fs_exists p).
Proof.
  split; [apply touches_exists|]. intros s Hs. unfold fs_exists.
  pose proof (io_op_calm (fun m => Ok (m, bool_decide (is_Some (m p)))) unchanged s Hs) as Hc.
  by destruct (io_op _ _ s).
Qed.
Lemma mtame_is_dir D p : mtame D (fs_is_dir p).
Proof.
  split; [apply touches_is_dir|]. intros s Hs. unfold fs_is_dir.
  pose proof (io_op_calm (fun m => Ok (m, is_dir m p)) unchanged s Hs) as Hc. by destruct (io_op _ _ s).
Qed.
Lemma mtame_is_file D p : mtame D (fs_is_file p).
Proof.
  split; [apply touches_is_file|]. intros s Hs. unfold fs_is_file.
  pose proof (io_op_calm (fun m => Ok (m, match m p with Some (NFile _) => true | _ => false end)) unchanged s Hs) as Hc.
  by destruct (io_op _ _ s).
Qed.
Lemma mtame_write (D : path -> Prop) p c : D p -> mtame D (fs_write p c).
Proof. intros. by apply mtame_io_op, touches_write. Qed.
Lemma mtame_write_new (D : path -> Prop) p c : D p -> mtame D (fs_write_new p c).
Proof. intros. by apply mtame_io_op, touches_write_new. Qed.
Lemma mtame_append (D : path -> Prop) p c : D p -> mtame D (fs_append p c).
Proof. intros. by apply mtame_io_op, touches_append. Qed.
Lemma mtame_hard_link (D : path -> Prop) a p : D p -> mtame D (fs_hard_link a p).
Proof. intros. by apply mtame_io_op, touches_hard_link. Qed.
Lemma mtame_create_dir (D : path -> Prop) p : D p -> mtame D (fs_create_dir p).
Proof. intros. by apply mtame_io_op, touches_create_dir. Qed.
Lemma mtame_create_dir_all (D : path -> Prop) p : (forall q, q `prefix_of` p -> D q) -> mtame D (fs_create_dir_all p).
Proof. intros. by apply mtame_io_op, touches_create_dir_all. Qed.
Lemma mtame_remove_file (D : path -> Prop) p : D p -> mtame D (fs_remove_file p).
Proof. intros. by apply mtame_io_op, touches_remove_file. Qed.
Lemma mtame_remove_dir_all (D : path -> Prop) p : (forall q, p `prefix_of` q -> D q) -> mtame D (fs_remove_dir_all p).
Proof. intros. by apply mtame_io_op, touches_remove_dir_all. Qed.
Lemma mtame_rename (D : path -> Prop) a b :
  (forall q, a `prefix_of` q -> D q) -> (forall q, b `prefix_of` q -> D q) -> mtame D (fs_rename a b).
Proof. intros. by apply mtame_io_op, touches_rename. Qed.
Lemma mtame_copy (D : path -> Prop) a p : D p -> mtame D (fs_copy a p).
Proof. intros. apply mtame_bind; [apply mtame_read|]. intros c. by apply mtame_write. Qed.

#[export] Hint Resolve mtame_ret mtame_throw mtame_lift mtame_from_option mtame_read mtame_sync mtame_read_dir
  mtame_exists mtame_is_dir mtame_is_file mtame_write mtame_write_new mtame_append mtame_hard_link mtame_create_dir
  mtame_create_dir_all mtame_remove_file mtame_remove_dir_all mtame_rename mtame_copy : tame_db.

(** Walk through a program on the disk. *)
Ltac mtame :=
  repeat match goal with
  | |- mtame _ (bind _ _) => apply mtame_bind; [|intros ?]
  | |- mtame _ (attempt _) => apply mtame_attempt
  | |- mtame _ (if _ then _ else _) => case_match
  | |- mtame _ (match _ with _ => _ end) => case_match
  end; eauto with tame_db.

(** ** Programs on the disk and the network

    [tame D n m]: [m] asks the network at most [n] times more and takes no note
    back, and on the disk it is as above. *)
Definition tame {E A} (D : path -> Prop) (n : nat) (m : Acq E A) : Prop := forall w,
  let w' := fst (m w) in
  ((exists l, (length l <= n)%nat /\ wd_asked w' = l ++ wd_asked w)
   /\ exists notes, wd_warnings w' = wd_warnings w ++ notes)
  /\ (io_faults (wd_io w) = [] -> io_faults (wd_io w') = [])
  /\ forall q, ~ D q -> io_fs (wd_io w') q = io_fs (wd_io w) q.

Section Tame.
Implicit Types D : path -> Prop.

Lemma tame_more {E A} D n n' (m : Acq E A) : tame D n m -> (n <= n')%nat -> tame D n' m.
Proof.
  intros Hm Hn w. destruct (Hm w) as (((l & Hl & Ha) & Hw) & H1 & H2). split_and!; [|done..]. exists l. split; [lia|done].
Qed.

(** The continuation may use what the first part answers. *)
Lemma tame_bind_if {E A B} D n1 n2 (P : A -> Prop) (m : Acq E A) (f : A -> Acq E B) :
  tame D n1 m -> (forall w a, snd (m w) = Ok a -> P a) -> (forall a, P a -> tame D n2 (f a)) ->
  tame D (n1 + n2) (abind m f).
Proof.
  intros Hm HP Hf w. destruct (Hm w) as (((l & Hl & Ha) & (t & Ht)) & H1 & H2). specialize (HP w). unfold abind.
  destruct (m w) as [w1 [a|e]]; cbn in *.
  - destruct (Hf a (HP a eq_refl) w1) as (((l' & Hl' & Ha') & (t' & Ht')) & H1' & H2').
    split_and!; [| |by auto|by intros q Hq; rewrite H2', H2].
    + exists (l' ++ l). rewrite length_app, Ha', Ha. split; [lia|by rewrite app_assoc].
    + exists (t ++ t'). by rewrite Ht', Ht, app_assoc.
  - split_and!; [| |done..]; [exists l; split; [lia|done]|by exists t].
Qed.

Lemma tame_bind {E A B} D n1 n2 (m : Acq E A) (f : A -> Acq E B) :
  tame D n1 m -> (forall a, tame D n2 (f a)) -> tame D (n1 + n2) (abind m f).
Proof. intros Hm Hf. by apply (tame_bind_if D n1 n2 (fun _ => True)). Qed.

Lemma tame_same {E A F B} D n (m : Acq E A) (m' : Acq F B) :
  (forall w, fst (m' w) = fst (m w)) -> tame D n m -> tame D n m'.
Proof. intros He Hm w. rewrite He. apply Hm. Qed.

Lemma tame_see {E F A} D n (m : Acq E A) : tame D n m -> tame (E := F) D n (asee m).
Proof. apply tame_same. intros w. unfold asee. by destruct (m w). Qed.
Lemma tame_map_err {E F A} D n (f : E -> F) (m : Acq E A) : tame D n m -> tame D n (amap_err f m).
Proof. apply tame_same. intros w. unfold amap_err. by destruct (m w). Qed.
Lemma tame_notes {E A} D (m : Acq E A) :
  (forall w, wd_asked (fst (m w)) = wd_asked w /\ wd_io (fst (m w)) = wd_io w
     /\ exists notes, wd_warnings (fst (m w)) = wd_warnings w ++ notes) -> tame D 0 m.
Proof.
  intros Hm w. destruct (Hm w) as (Ha & Hi & Hn). cbv zeta. rewrite Ha, Hi. split_and!; [|done..]. exists []. by split.
Qed.
Lemma tame_still {E A} D (m : Acq E A) :
  (forall w, wd_asked (fst (m w)) = wd_asked w /\ wd_io (fst (m w)) = wd_io w
     /\ wd_warnings (fst (m w)) = wd_warnings w) -> tame D 0 m.
Proof.
  intros Hm. apply tame_notes. intros w. destruct (Hm w) as (Ha & Hi & Hn). split_and!; [done..|]. exists [].
  by rewrite app_nil_r.
Qed.
Lemma tame_ret {E A} D (a : A) : tame (E := E) D 0 (aret a).
Proof. by apply tame_still. Qed.
Lemma tame_raise {E A} D (e : E) : tame (A := A) D 0 (araise e).
Proof. by apply tame_still. Qed.
Lemma tame_lift {E A} D (r : result E A) : tame D 0 (alift r).
Proof. by apply tame_still. Qed.
Lemma tame_warn {E} D t : tame (E := E) D 0 (warn t).
Proof. apply tame_notes. intros w. split_and!; [done..|]. by exists [t]. Qed.
Lemma tame_tick {E} D : tame (E := E) D 0 tick.
Proof. by apply tame_still. Qed.
Lemma tame_warnings {E} D : tame (E := E) D 0 warnings.
Proof. by apply tame_still. Qed.

Lemma tame_disk {A} D (m : M A) : mtame D m -> tame D 0 (disk m).
Proof.
  intros [Ht Hc] w. specialize (Ht (wd_io w)). specialize (Hc (wd_io w)). unfold disk.
  destruct (m (wd_io w)) as [io r]; cbn in *. split_and!; [by exists []; split|by exists []; rewrite app_nil_r|done..].
Qed.
Lemma tame_quiet {E A} D none (m : M A) : mtame D m -> tame (E := E) D 0 (quiet none m).
Proof. intros Hm. eapply tame_same; [|by apply tame_disk]. intros w. unfold quiet. by destruct (disk m w). Qed.

(** The continuation of a program that asks nothing. *)
Lemma tame_bind0 {E A B} D n (m : Acq E A) (f : A -> Acq E B) :
  tame D 0 m -> (forall a, tame D n (f a)) -> tame D n (abind m f).
Proof. apply tame_bind. Qed.
Lemma tame_bind_last {E A B} D n (m : Acq E A) (f : A -> Acq E B) :
  tame D n m -> (forall a, tame D 0 (f a)) -> tame D n (abind m f).
Proof. intros Hm Hf. pose proof (tame_bind D n 0 m f Hm Hf) as Ht. by rewrite Nat.add_0_r in Ht. Qed.
Lemma tame_any {E A} D n (m : Acq E A) : tame D 0 m -> tame D n m.
Proof. intros. eapply tame_more; [done|lia]. Qed.
End Tame.

#[export] Hint Resolve tame_ret tame_raise tame_lift tame_warn tame_tick tame_warnings tame_disk tame_quiet : tame_db.

(** Walk through a program that asks nothing. *)
Ltac tame0 :=
  repeat match goal with
  | |- tame _ _ (abind _ _) => apply tame_bind0; [|intros ?]
  | |- tame _ _ (amap_err _ _) => apply tame_map_err
  | |- tame _ _ (asee _) => apply tame_see
  | |- tame _ _ (disk _) => apply tame_disk
  | |- tame _ _ (quiet _ _) => apply tame_quiet
  | |- tame _ _ (if _ then _ else _) => case_match
  | |- tame _ _ (match _ with _ => _ end) => case_match
  | |- mtame _ _ => mtame
  end; eauto with tame_db.

Lemma parent_entry root component version arch : parent (entry_dir root component version arch) = root ++ [component; version].
Proof.
  unfold parent, entry_dir. change [component; version; arch_str arch] with ([component; version] ++ [arch_str arch]).
  rewrite app_assoc, take_app_le by (rewrite !length_app; cbn; lia). apply take_ge. rewrite !length_app. cbn. lia.
Qed.

Lemma mtame_lookup_in digest root (D : path -> Prop) component version arch file :
  (forall q, entry_dir root component version arch `prefix_of` q -> D q) -> mtame D (lookup digest root component version arch file).
Proof. intros HD. unfold lookup, fs_read_to_string, sha256_file, damaged. mtame. Qed.

Lemma mtame_stage_entry (D : path -> Prop) tmp file dl sha :
  (forall q, tmp `prefix_of` q -> D q) -> (forall q, dl `prefix_of` q -> D q) -> mtame D (stage_entry tmp file dl sha).
Proof.
  intros Ht Hd. unfold stage_entry. mtame; [apply mtame_rename; [done|]|apply mtame_write].
  - intros q Hq. by eapply Ht, prefix_app_l.
  - apply Ht. by eexists.
Qed.

Section Facts.
Open Scope acq_scope.
Context {V : Type} `{Semver V} {HR : Serde Resolved} {HM : Serde BundleManifest} {O : Outside}.
Context (self : Acquirer).
#[local] Abbreviation root := (aq_root self).
#[local] Abbreviation lookup := (lookup digest root).
#[local] Abbreviation publish := (publish digest root).

(** *** Where the parts of the cache write

    [region ok]: the entries of the cache root with a name that [ok] allows,
    and the directories on the way to the root. *)
Definition region (ok : text -> Prop) (q : path) : Prop :=
  q `prefix_of` root \/ exists x rest, q = root ++ x :: rest /\ ok x.

Lemma region_at (ok : text -> Prop) x l : ok x -> region ok (root ++ x :: l).
Proof. intros. right. by exists x, l. Qed.

Lemma region_above (ok : text -> Prop) x l q : ok x -> root ++ x :: l `prefix_of` q -> region ok q.
Proof. intros Hx [k ->]. right. exists x, (l ++ k). by rewrite <- app_assoc. Qed.

Lemma region_way (ok : text -> Prop) x l q : ok x -> q `prefix_of` root ++ x :: l -> region ok q.
Proof.
  intros Hx Hq. assert (Hr : root `prefix_of` root ++ x :: l) by (by eexists).
  destruct (prefix_weak_total _ _ _ Hq Hr) as [|[k ->]]; [by left|].
  apply prefix_app_inv in Hq. destruct k as [|y k]; [left; by rewrite app_nil_r|].
  pose proof (prefix_cons_inv_1 _ _ _ _ Hq) as ->. by apply region_at.
Qed.

(** Membership in a region, after the path is in the form [root ++ x :: l]. *)
#[local] Ltac reg :=
  try intros ?; unfold entry_dir, bundle_dir; rewrite <- ?app_assoc; cbn [app];
  first [ by apply region_at | intros; eapply region_above; [|eassumption]; eassumption
        | intros; eapply region_way; [|eassumption]; eassumption | intros; left; assumption ].

Section Region.
Context (ok : text -> Prop).

Lemma mtame_lookup component version arch file :
  ok component -> mtame (region ok) (lookup component version arch file).
Proof.
  intros Hc. apply mtame_lookup_in. reg.
Qed.

Lemma mtame_publish name component version arch file dl sha :
  ok component -> (forall q, dl `prefix_of` q -> region ok q) ->
  mtame (region ok) (publish name component version arch file dl sha).
Proof.
  intros Hc Hd. unfold BundleCache.publish, place_entry. rewrite parent_entry. mtame; try (by apply mtame_lookup);
    try (apply mtame_stage_entry; [reg|done]).
  all: first [ apply mtame_create_dir_all | apply mtame_create_dir | apply mtame_write | apply mtame_remove_dir_all
             | apply mtame_rename ]; try done; reg.
Qed.

Lemma mtame_versions component arch : mtame (region ok) (versions listing root component arch).
Proof.
  unfold versions. mtame. induction (List.filter _ _) as [|n l IH]; cbn [keep_dirs]; mtame.
Qed.

Lemma mtame_read_resolved : mtame (region ok) (read_resolved root).
Proof. unfold read_resolved. mtame. Qed.

Lemma mtame_remember name now key value :
  ok name -> ok RESOLVED_FILE -> mtame (region ok) (remember root name now key value).
Proof.
  intros Hn Hr. unfold remember. apply mtame_bind; [apply mtame_read_resolved|intros m]. mtame.
  all: first [ apply mtame_create_dir_all | apply mtame_write | apply mtame_remove_file | apply mtame_rename ]; reg.
Qed.

Lemma tame_lookup {E} component version arch file :
  ok component -> tame (E := E) (region ok) 0 (cache_lookup self component version arch file).
Proof. intros. by apply tame_quiet, mtame_lookup. Qed.

Lemma tame_publish component version arch file dl sha :
  ok component -> (forall q, dl `prefix_of` q -> region ok q) ->
  tame (region ok) 0 (cache_publish self component version arch file dl sha).
Proof. intros. unfold cache_publish, fresh_name. tame0. by apply mtame_publish. Qed.

Lemma tame_resolved {E} key : tame (E := E) (region ok) 0 (cache_resolved self key).
Proof. unfold cache_resolved. tame0. unfold resolved. mtame. apply mtame_read_resolved. Qed.

(** A temporary name, and what is done with it. *)
Lemma tame_bind_name {E B} n (f : text -> Acq E B) :
  (forall name, (exists k, name = tmp_name pid (entropy k)) -> tame (region ok) n (f name)) ->
  tame (region ok) n (abind (fresh_name) f).
Proof.
  intros Hf. eapply (tame_bind_if _ 0 n); [|intros w a|exact Hf]; [unfold fresh_name; tame0|].
  unfold fresh_name, abind, tick, aret. cbn. intros [= <-]. by eexists.
Qed.

Lemma tame_remember {E} key value :
  (forall k, ok (tmp_name pid (entropy k))) -> ok RESOLVED_FILE ->
  tame (E := E) (region ok) 0 (cache_remember self key value).
Proof.
  intros Hn Hr. unfold cache_remember. apply tame_bind0; [tame0|intros n].
  apply (tame_bind_name 0). intros name Hname. apply tame_quiet, mtame_remember; [|done]. by destruct Hname as [k ->].
Qed.

Lemma mtame_download_path name : ok DOWNLOADS_DIR -> mtame (region ok) (download_path root name).
Proof. intros. unfold download_path. mtame. apply mtame_create_dir_all; reg. Qed.

Lemma tame_get D url : tame D 1 (get url).
Proof.
  unfold get. apply tame_bind_last; [|intros [e|status link chunks]; tame0].
  intros w. cbn. split_and!; [by exists [url]|by exists []; rewrite app_nil_r|done..].
Qed.

Lemma tame_http_text D url : tame D 1 (http_text url).
Proof. unfold http_text. apply tame_bind_last; [apply tame_get|intros [link chunks]; tame0]. Qed.

Lemma tame_save_chunks (D : path -> Prop) url dest chunks body : D dest -> tame D 0 (save_chunks url dest chunks body).
Proof.
  intros Hd. revert body. induction chunks as [|[c|e] chunks IH]; intros body; cbn [save_chunks]; tame0.
Qed.

Lemma tame_download (D : path -> Prop) url dest : D dest -> tame D 1 (download url dest).
Proof.
  intros Hd. unfold download. apply tame_bind_last; [apply tame_get|intros [link chunks]].
  tame0. by apply tame_save_chunks.
Qed.


Lemma tame_download_verified url expected check :
  ok DOWNLOADS_DIR -> (forall p, mtame (region ok) (check p)) ->
  tame (region ok) 1 (download_verified self url expected check).
Proof.
  intros Hk Hc. unfold download_verified. apply tame_bind_name. intros name _.
  apply (tame_bind_if _ 0 1 (fun p => p = root ++ [DOWNLOADS_DIR; name])).
  { apply tame_map_err, tame_disk. by apply mtame_download_path. }
  { intros w a. unfold amap_err, disk, download_path. destruct (bind _ _ _) as [s r] eqn:E. cbn.
    destruct r as [p|]; cbn; [|done]. intros [= <-]. apply bind_ok in E as (s1 & [] & _ & E).
    unfold ret in E. simplify_eq. by rewrite <- app_assoc. }
  intros p ->. apply tame_bind_last; [apply tame_see, tame_download; reg|intros got].
  tame0. apply mtame_remove_file; reg.
Qed.

Lemma tame_list_pages D pages url releases : tame D pages (list_pages pages url releases).
Proof.
  revert url releases. induction pages as [|n IH]; intros url releases; cbn [list_pages]; [tame0|].
  destruct url as [url|]; [|by apply tame_any; tame0].
  apply (tame_bind D 1 n); [apply tame_http_text|]. intros response. apply tame_bind0; [tame0|intros batch]. apply IH.
Qed.

(** What the connect may touch besides the component at hand. *)
Context (Hdl : ok DOWNLOADS_DIR) (Hres : ok RESOLVED_FILE) (Htmp : forall k, ok (tmp_name pid (entropy k))).

Lemma mtame_inspect D p : mtame D (inspect digest zip_archive debug_str show_manifest_error show_io p).
Proof. unfold inspect. mtame. Qed.

Lemma mtame_check_layout D p : mtame D (check_layout p).
Proof.
  pose proof (mtame_inspect D p) as [Ht Hc]. unfold check_layout. split; intros s; [specialize (Ht s)|specialize (Hc s)];
    by destruct (inspect _ _ _ _ _ _ s).
Qed.

Lemma tame_hash D p : tame D 0 (hash p).
Proof. unfold hash, sha256_file. tame0. Qed.

Lemma tame_first_cached {E} arch (releases : list (CuaRelease V)) :
  ok CUA_COMPONENT -> tame (E := E) (region ok) 0 (first_cached self arch releases).
Proof.
  intros Hc. induction releases as [|r l IH]; cbn [first_cached]; tame0. by apply tame_lookup.
Qed.

Lemma tame_newest_cached_cua {E} channel arch :
  ok CUA_COMPONENT -> tame (E := E) (region ok) 0 (newest_cached_cua self channel arch).
Proof.
  intros Hc. unfold newest_cached_cua. apply tame_bind0; [apply tame_quiet, mtame_versions|intros names].
  by apply tame_first_cached.
Qed.

Lemma tame_resolve_channel channel request :
  ok CUA_COMPONENT ->
  tame (region ok) (if br_auto_download request then 3 else 0)
    (resolve_channel self channel request).
Proof.
  intros Hc. unfold resolve_channel. destruct (br_auto_download request); cbn [negb].
  - apply tame_bind0; [apply tame_resolved|intros known]. destruct (and_then known from_tag); [apply tame_any; tame0|].
    apply (tame_bind _ 3 0); [apply tame_see, tame_list_pages|]. intros [releases|fetch].
    + destruct (select _ _ _); tame0. by apply tame_remember.
    + tame0. by apply tame_newest_cached_cua.
  - tame0. by apply tame_newest_cached_cua.
Qed.

Lemma region_download name q : root ++ [DOWNLOADS_DIR; name] `prefix_of` q -> region ok q.
Proof. by apply region_above. Qed.

(** What [download_verified] answers. *)
Lemma download_verified_at url expected check w p :
  snd (download_verified self url expected check w) = Ok p -> exists name, p = root ++ [DOWNLOADS_DIR; name].
Proof.
  unfold download_verified, fresh_name, download_path. unfold abind at 1 2, tick, aret at 1.
  unfold abind at 1, amap_err, disk at 1. destruct (bind _ _ _) as [s r] eqn:E. destruct r as [q|]; [|done]. cbn [map_err].
  apply bind_ok in E as (s1 & [] & _ & E). unfold ret in E. simplify_eq. rewrite <- app_assoc. cbn [app].
  unfold abind at 1. destruct (asee _ _) as [w1 [got|]]; [|done]. unfold abind at 1.
  match goal with |- context [match ?m w1 with _ => _ end] => destruct (m w1) as [w2 [result|]]; [|done] end.
  destruct result as [|cause]; unfold aret, araise, abind; cbn.
  - intros [= <-]. by eexists.
  - by destruct (quiet _ _ _) as [w3 [|]].
Qed.

Lemma tame_download_cua release arch asset sums :
  ok CUA_COMPONENT -> tame (region ok) 1 (download_cua self release arch asset sums).
Proof.
  intros Hc. unfold download_cua. apply tame_bind0; [tame0|intros expected].
  apply (tame_bind_if _ 1 0 (fun p => exists name, p = root ++ [DOWNLOADS_DIR; name])).
  { apply tame_map_err, tame_download_verified; [done|]. intros p. apply mtame_check_layout. }
  { intros w a. unfold amap_err. destruct (download_verified _ _ _ _ w) as [w1 r] eqn:E. destruct r as [p|]; [|done].
    cbn. intros [= <-]. by eapply download_verified_at; rewrite E. }
  intros checked [name ->]. tame0. apply tame_publish; [done|]. by apply region_download.
Qed.

Lemma tame_fetch_cua release arch asset :
  ok CUA_COMPONENT -> tame (region ok) 2 (fetch_cua self release arch asset).
Proof.
  intros Hc. unfold fetch_cua. apply (tame_bind _ 1 1); [apply tame_see, tame_http_text|].
  intros [[sums next]|[|detail]]; [by apply tame_download_cua|by apply tame_any; tame0..].
Qed.

Lemma tame_cua request local :
  ok CUA_COMPONENT ->
  tame (region ok) (if br_auto_download request then 5 else 0) (cua self request local).
Proof.
  intros Hc. unfold cua. apply tame_bind0; [tame0|intros wanted].
  destruct (lo_cua local) as [[release p]|].
  { apply tame_any. unfold local_cua. tame0. apply tame_hash. }
  apply (tame_more _ ((if br_auto_download request then 3 else 0) + (if br_auto_download request then 2 else 0)));
    [|by destruct (br_auto_download request)].
  apply tame_bind.
  { destruct wanted; [by apply tame_resolve_channel|apply tame_any; tame0]. }
  intros release. apply tame_bind0; [by apply tame_lookup|intros [[p sha]|]]; [by apply tame_any; tame0|].
  destruct (br_auto_download request); cbn [negb]; [by apply tame_fetch_cua|tame0].
Qed.

(** *** The bridge *)

Lemma tame_cached_bridge {E} version arch :
  ok BRIDGE_COMPONENT -> tame (E := E) (region ok) 0 (cached_bridge self version arch).
Proof. intros. unfold cached_bridge. tame0. by apply tame_lookup. Qed.

Lemma tame_download_bridge version arch sums :
  ok BRIDGE_COMPONENT -> tame (region ok) 1 (download_bridge self version arch sums).
Proof.
  intros Hc. unfold download_bridge. apply tame_bind0; [tame0|intros expected].
  apply (tame_bind_if _ 1 0 (fun p => exists name, p = root ++ [DOWNLOADS_DIR; name])).
  { apply tame_map_err, tame_download_verified; [done|]. intros p. mtame. }
  { intros w a. unfold amap_err. destruct (download_verified _ _ _ _ w) as [w1 r] eqn:E. destruct r as [p|]; [|done].
    cbn. intros [= <-]. by eapply download_verified_at; rewrite E. }
  intros checked [name ->]. tame0. apply tame_publish; [done|]. by apply region_download.
Qed.

Lemma tame_fetch_bridge version arch :
  ok BRIDGE_COMPONENT -> tame (region ok) 2 (fetch_bridge self version arch).
Proof.
  intros Hc. unfold fetch_bridge. apply (tame_bind _ 1 1); [apply tame_see, tame_http_text|].
  intros [[sums next]|[|detail]]; [by apply tame_download_bridge|by apply tame_any; tame0..].
Qed.

Lemma tame_newest_bridge_version arch :
  tame (region ok) 3 (newest_bridge_version self arch).
Proof.
  unfold newest_bridge_version. apply tame_bind0; [apply tame_resolved|intros [v|]]; [apply tame_any; tame0|].
  apply (tame_bind _ 3 0); [apply tame_map_err, tame_list_pages|intros releases].
  destruct (newest _ _); tame0. by apply tame_remember.
Qed.

Lemma tame_other_bridge arch :
  ok BRIDGE_COMPONENT ->
  tame (region ok) 5 (other_bridge self arch).
Proof.
  intros Hc. unfold other_bridge. apply (tame_bind _ 3 2); [apply tame_newest_bridge_version|intros version].
  apply tame_bind0; [tame0|intros []]. apply tame_bind0; [by apply tame_cached_bridge|intros [o|]]; [apply tame_any; tame0|].
  by apply tame_map_err, tame_fetch_bridge.
Qed.

Lemma tame_bridge request (local : Local V) :
  ok BRIDGE_COMPONENT -> tame (region ok) (if br_auto_download request then 7 else 0) (bridge self request local).
Proof.
  intros Hc. unfold bridge. destruct (lo_bridge local) as [p|].
  { apply tame_any. tame0. apply tame_hash. }
  apply tame_bind0; [by apply tame_cached_bridge|intros [o|]]; [apply tame_any; tame0|].
  destruct (br_auto_download request); cbn [negb]; [|tame0].
  apply (tame_bind _ 2 5); [by apply tame_see, tame_fetch_bridge|].
  intros [o|[|cause]]; [apply tame_any; tame0|by apply tame_other_bridge|apply tame_any; tame0].
Qed.

(** *** The bundle directory *)

Lemma mtame_verify_bundle (D : path -> Prop) dir id :
  (forall q, dir `prefix_of` q -> D q) -> mtame D (verify_bundle dir id).
Proof.
  intros HD. unfold verify_bundle, check_bundle, has_hash, sha256_file. mtame.
Qed.

Lemma mtame_link_or_copy (D : path -> Prop) from to : D to -> mtame D (link_or_copy from to).
Proof. intros. unfold link_or_copy. mtame. Qed.

Lemma mtame_stage_bundle (D : path -> Prop) tmp bridge_path cua_path manifest :
  (forall q, tmp `prefix_of` q -> D q) -> mtame D (stage_bundle tmp bridge_path cua_path manifest).
Proof.
  intros HD. unfold stage_bundle. mtame; first [apply mtame_link_or_copy|apply mtame_create_dir|apply mtame_write];
    apply HD; first [done|by eexists].
Qed.

Lemma mtame_install_bundle (D : path -> Prop) tmp target id :
  (forall q, tmp `prefix_of` q -> D q) -> (forall q, target `prefix_of` q -> D q) ->
  mtame D (install_bundle tmp target id).
Proof. intros Ht Hd. unfold install_bundle. mtame; by apply mtame_verify_bundle. Qed.

Lemma tame_assemble c b arch :
  ok BUNDLES_DIR -> tame (region ok) 0 (assemble self c b arch).
Proof.
  intros Hb. unfold assemble, build_bundle. tame0.
  - apply mtame_verify_bundle. reg.
  - apply mtame_inspect.
  - apply mtame_create_dir_all. reg.
  - unfold fresh_name. tame0.
  - apply mtame_stage_bundle. reg.
  - apply mtame_install_bundle; reg.
  - apply mtame_remove_dir_all. reg.
Qed.

(** *** [bundle_path] *)

Lemma tame_scan_names dir arch names local : tame (region ok) 0 (scan_names (V := V) dir arch names local).
Proof.
  revert local. induction names as [|n names IH]; intros local; cbn [scan_names]; tame0.
Qed.

Lemma tame_scan_local dir arch : tame (region ok) 0 (scan_local (V := V) dir arch).
Proof. unfold scan_local. tame0. apply tame_scan_names. Qed.
End Region.
End Facts.
