(* ===== verification/BundleServed.v ===== *)
(** * A prepared bundle is whole

    What a cache entry, an obtained file and a bundle directory hold when the
    operations of [BundleCache] and [Bundles] answer, and from that what
    [prepare] promises. *)
From stdpp Require Import sorting.
From S2P Require Import Prelude Bytes Utf8 Resolve Store Releases BridgeProtocol Fs GuestInstall BundleCache Bundles BundleFacts.

(** ** Answers of programs *)

Lemma abind_ok {E A B} (m : Acq E A) (f : A -> Acq E B) w w' b :
  abind m f w = (w', Ok b) <-> exists w1 a, m w = (w1, Ok a) /\ f a w1 = (w', Ok b).
Proof. unfold abind. destruct (m w) as [w1 [a|e]]; naive_solver. Qed.

Lemma abind_err {E A B} (m : Acq E A) (f : A -> Acq E B) w w' e :
  abind m f w = (w', Err e) -> m w = (w', Err e) \/ exists w1 a, m w = (w1, Ok a) /\ f a w1 = (w', Err e).
Proof. unfold abind. destruct (m w) as [w1 [a|x]]; naive_solver. Qed.

Lemma amap_err_err {E F A} (f : E -> F) (m : Acq E A) w w' e :
  amap_err f m w = (w', Err e) -> exists x, m w = (w', Err x) /\ e = f x.
Proof. unfold amap_err. destruct (m w) as [w1 [a|x]]; naive_solver. Qed.

Lemma asee_ok {E F A} (m : Acq E A) w w' r : asee (F := F) m w = (w', Ok r) -> m w = (w', r).
Proof. unfold asee. destruct (m w). naive_solver. Qed.

Lemma amap_err_ok {E F A} (f : E -> F) (m : Acq E A) w w' a : amap_err f m w = (w', Ok a) <-> m w = (w', Ok a).
Proof. unfold amap_err. destruct (m w) as [w1 [x|e]]; naive_solver. Qed.

Lemma alift_ok {E A} (r : result E A) w w' a : alift r w = (w', Ok a) <-> r = Ok a /\ w' = w.
Proof. unfold alift. naive_solver. Qed.

Lemma map_err_ok {E F A} (f : E -> F) (r : result E A) a : map_err f r = Ok a <-> r = Ok a.
Proof. destruct r; naive_solver. Qed.

Lemma aret_ok {E A} (a b : A) w w' : aret (E := E) a w = (w', Ok b) <-> a = b /\ w' = w.
Proof. unfold aret. naive_solver. Qed.

Lemma disk_ok {A} (m : M A) w w' a : disk m w = (w', Ok a) -> m (wd_io w) = (wd_io w', Ok a).
Proof. unfold disk. destruct (m (wd_io w)) as [io r]. intros [= <- ->]. done. Qed.

Lemma quiet_ok {E A} none (m : M A) w w' a :
  quiet (E := E) none m w = (w', Ok a) -> m (wd_io w) = (wd_io w', Ok a) \/ a = none.
Proof. unfold quiet, disk. destruct (m (wd_io w)) as [io [x|e]]; intros [= <- <-]; auto. Qed.

(** Take a run that answered apart. *)
Ltac acq H :=
  match type of H with
  | abind _ _ _ = (_, Ok _) => let w := fresh "w" in let a := fresh "a" in let H1 := fresh "Hm" in
      apply abind_ok in H as (w & a & H1 & H)
  end.

Section Served.
Context (digest : bytes -> bytes) (root : path).

Definition hash_of (c : bytes) : text := hex (digest c).

(** A file that has a hash. *)
Definition hashed (fs : Files) (p : path) (h : text) : Prop := exists c, fs p = Some (NFile c) /\ hash_of c = h.

Lemma sha256_file_ok p s s' h :
  sha256_file digest p s = (s', Ok h) -> io_fs s' = io_fs s /\ hashed (io_fs s) p h.
Proof.
  unfold sha256_file. intros (s1 & c & [Hc Hs]%fs_read_ok & Hr)%bind_ok. unfold ret in Hr. simplify_eq.
  split; [done|]. by exists c.
Qed.

(** ** Cache entries *)

(** The entry [dir] says what its file hashes to, and it does. *)
Definition valid_entry (fs : Files) (dir : path) (file : text) : Prop := exists s t,
  fs (dir ++ [file ++ SHA256_SUFFIX]) = Some (NFile s) /\ from_utf8 s = Some t /\ hashed fs (dir ++ [file]) (trim t).

Lemma valid_entry_ext fs fs' dir file :
  (forall q, dir `prefix_of` q -> fs' q = fs q) -> valid_entry fs' dir file -> valid_entry fs dir file.
Proof.
  intros He (s & t & H1 & H2 & c & H3 & H4). rewrite He in H1, H3 by (by eexists). exists s, t. split_and!; [done..|].
  by exists c.
Qed.

Lemma read_to_string_ok p s s' t :
  fs_read_to_string p s = (s', Ok t) ->
  io_fs s' = io_fs s /\ exists c, io_fs s p = Some (NFile c) /\ from_utf8 c = Some t.
Proof.
  unfold fs_read_to_string. intros (s1 & c & [Hc Hs]%fs_read_ok & [Ht ->]%from_option_ok)%bind_ok.
  split; [done|]. by exists c.
Qed.

Lemma read_same p s : io_fs (fst (fs_read p s)) = io_fs s.
Proof.
  unfold fs_read, io_op. destruct (io_faults s) as [|f fs]; [|destruct (ft_fails f)]; cbn; try done;
    by destruct (io_fs s p) as [[]|].
Qed.

Lemma read_to_string_same p s : io_fs (fst (fs_read_to_string p s)) = io_fs s.
Proof.
  unfold fs_read_to_string, bind. pose proof (read_same p s) as Hr. destruct (fs_read p s) as [s1 [c|e]]; [|done].
  by destruct (from_utf8 c).
Qed.

Lemma sha256_file_same p s : io_fs (fst (sha256_file digest p s)) = io_fs s.
Proof.
  unfold sha256_file, bind. pose proof (read_same p s) as Hr. by destruct (fs_read p s) as [s1 [c|e]].
Qed.

Lemma exists_same p s : io_fs (fst (fs_exists p s)) = io_fs s.
Proof.
  unfold fs_exists, io_op. by destruct (io_faults s) as [|f fs]; [|destruct (ft_fails f)].
Qed.

Lemma damaged_none dir s s' x : damaged dir s = (s', Ok x) -> x = None.
Proof.
  unfold damaged. intros (s1 & b & _ & H)%bind_ok. destruct b; [|unfold ret in H; by simplify_eq].
  apply bind_ok in H as (s2 & r & _ & H). unfold ret in H. by simplify_eq.
Qed.

(** What the cache answers with is a file that has the hash. *)
Lemma lookup_some component version arch file s s' p h :
  lookup digest root component version arch file s = (s', Ok (Some (p, h))) ->
  p = entry_dir root component version arch ++ [file] /\ io_fs s' = io_fs s /\ hashed (io_fs s) p h
  /\ valid_entry (io_fs s) (entry_dir root component version arch) file.
Proof.
  unfold lookup. intros (s1 & r & Hr%attempt_ok & H)%bind_ok. destruct r as [t|]; [|unfold ret in H; by simplify_eq].
  apply read_to_string_ok in Hr as (Hs1 & c & Hc & Ht).
  apply bind_ok in H as (s2 & r & Hr%attempt_ok & H). destruct r as [actual|]; [|by apply damaged_none in H].
  apply sha256_file_ok in Hr as (Hs2 & Hh). destruct (decide _) as [Ha|]; [|by apply damaged_none in H].
  unfold ret in H. simplify_eq. rewrite Hs1 in Hh. split_and!; [done|congruence|done|].
  exists c, t. by split_and!.
Qed.

Lemma fs_read_calm p s :
  io_faults s = [] ->
  fs_read p s = (s, match io_fs s p with
                    | Some (NFile c) => Ok c | Some NDir => Err IsADirectory | None => Err NotFound
                    end).
Proof. destruct s as [m faults]. cbn. intros ->. unfold fs_read, io_op. cbn. by destruct (m p) as [[]|]. Qed.

Lemma damaged_calm dir s s' x :
  io_faults s = [] -> damaged dir s = (s', Ok x) -> io_fs s' = io_fs s \/ io_fs s' = remove_tree dir (io_fs s).
Proof.
  destruct s as [m faults]. cbn. intros ->. unfold damaged, bind, fs_exists, attempt, fs_remove_dir_all, io_op, ret. cbn.
  destruct (m dir) as [[]|] eqn:E; cbn; rewrite ?E; intros [= <- _]; auto.
Qed.

Lemma valid_removed fs dir file : ~ valid_entry (remove_tree dir fs) dir file.
Proof.
  intros (c & t & H1 & _). unfold remove_tree, under in H1. by rewrite bool_decide_eq_true_2 in H1 by (by eexists).
Qed.

(** When nothing fails and it answers with nothing, there is nothing valid. *)
Lemma lookup_none component version arch file s s' :
  io_faults s = [] -> lookup digest root component version arch file s = (s', Ok None) ->
  ~ valid_entry (io_fs s') (entry_dir root component version arch) file.
Proof.
  set (dir := entry_dir root component version arch). intros Hq. unfold lookup. fold dir. intros H.
  assert (Hbad : forall x, (x = s' \/ damaged dir s = (s', Ok None)) -> ~ valid_entry (io_fs s) dir file ->
    x = s -> ~ valid_entry (io_fs s') dir file).
  { intros x [<-|Hd] Hn ->; [done|]. by destruct (damaged_calm _ _ _ _ Hq Hd) as [-> | ->]; [|apply valid_removed]. }
  unfold fs_read_to_string, sha256_file, attempt, bind in H. rewrite !fs_read_calm in H by done.
  destruct (io_fs s (dir ++ [file ++ SHA256_SUFFIX])) as [[c|]|] eqn:Es.
  2,3: injection H as <-; intros (c & t & H1 & _); congruence.
  unfold from_option in H. destruct (from_utf8 c) as [t|] eqn:Et; cbn in H.
  2: injection H as <-; intros (c' & t & H1 & H2 & _); congruence.
  rewrite fs_read_calm in H by done. apply (Hbad s); [|intros (c' & t' & H1 & H2 & d & H3 & H4)|done].
  - destruct (io_fs s (dir ++ [file])) as [[d|]|]; [|by right..]. cbn in H. destruct (decide _); [done|by right].
  - assert (c' = c) as -> by congruence. assert (t' = t) as -> by congruence. rewrite H3 in H. cbn in H.
    by destruct (decide (hex (digest d) = trim t)).
Qed.

(** *** Publishing *)

(** A step when nothing fails. *)
Lemma calm_step {A} D (m : M A) s s' r :
  m s = (s', r) -> io_faults s = [] -> mtame D m ->
  io_faults s' = [] /\ forall q, ~ D q -> io_fs s' q = io_fs s q.
Proof.
  intros He Hq [Ht Hc]. specialize (Hc s Hq). specialize (Ht s). rewrite He in Hc, Ht. by split.
Qed.

Lemma snoc_apart (p q r : path) x y : x <> y -> ~ p ++ [x] `prefix_of` p ++ y :: r.
Proof. intros Hxy Hp. apply prefix_app_inv in Hp. by apply prefix_cons_inv_1 in Hp. Qed.

Lemma longer_not_prefix (p q : path) : (length q < length p)%nat -> ~ p `prefix_of` q.
Proof. intros Hl Hp%prefix_length. lia. Qed.

Lemma app_not_snoc (t s : text) : s <> [] -> t ++ s <> t.
Proof. intros Hs He. apply (f_equal length) in He. rewrite length_app in He. destruct s; [done|]. cbn in He. lia. Qed.

Lemma arch_not_tmp n arch : tmp_name n [] <> arch_str arch /\ forall r, TMP_PREFIX ++ r <> arch_str arch.
Proof. destruct arch. split; [|intros r]; by vm_compute. Qed.

Lemma stage_entry_ok tmp file dl sha c s s' u :
  stage_entry tmp file dl sha s = (s', Ok u) -> io_fs s dl = Some (NFile c) ->
  io_fs s' (tmp ++ [file]) = Some (NFile c).
Proof.
  unfold stage_entry. intros (s1 & [] & Hr%fs_rename_ok & Hw%fs_write_ok)%bind_ok Hc.
  rewrite Hw, upd_other, Hr.
  - unfold move_tree, under. rewrite bool_decide_eq_true_2 by done. rewrite drop_all, app_nil_r. done.
  - intros [= He]%app_inv_head. symmetry in He. by apply app_not_snoc in He.
Qed.

Lemma moved_below (fs : Files) a b n : move_tree a b fs (b ++ [n]) = fs (a ++ [n]).
Proof.
  unfold move_tree, under. rewrite bool_decide_eq_true_2 by (by eexists). by rewrite drop_app_length.
Qed.

(** A step that leaves what is below [dir]. *)
Lemma valid_entry_kept {A} D (m : M A) s s' r dir file :
  touches D m -> (forall q, dir `prefix_of` q -> ~ D q) -> m s = (s', r) ->
  ~ valid_entry (io_fs s) dir file -> ~ valid_entry (io_fs s') dir file.
Proof.
  intros Ht HD He Hn Hv. apply Hn. eapply valid_entry_ext; [|exact Hv].
  intros q Hq. specialize (Ht s q (HD q Hq)). by rewrite He in Ht.
Qed.

(** What a temporary directory of the parent does not touch. *)
Lemma tmp_apart component version arch r q :
  entry_dir root component version arch `prefix_of` q -> ~ (root ++ [component; version]) ++ [TMP_PREFIX ++ r] `prefix_of` q.
Proof.
  intros [k ->] Hp. unfold entry_dir in Hp. rewrite <- !app_assoc in Hp. cbn [app] in Hp.
  apply prefix_app_inv in Hp. do 2 apply prefix_cons_inv_2 in Hp. apply prefix_cons_inv_1 in Hp.
  by apply (proj2 (arch_not_tmp 0 arch)) in Hp.
Qed.

(** The end of [publish]: once the temporary directory is complete. *)
Lemma place_entry_ok tmp component version arch file c s s' p :
  let dir := entry_dir root component version arch in
  io_faults s = [] -> ~ valid_entry (io_fs s) dir file -> io_fs s (tmp ++ [file]) = Some (NFile c) ->
  (forall q, dir `prefix_of` q -> ~ tmp `prefix_of` q) -> 
  place_entry digest root tmp component version arch file s = (s', Ok p) ->
  p = dir ++ [file] /\ io_fs s' p = Some (NFile c).
Proof.
  intros dir Hq Hn Hc Hdir H. unfold place_entry in H. fold dir in H.
  apply bind_ok in H as (s1 & [u|e] & H1%attempt_ok & H).
  { unfold ret in H. simplify_eq. by rewrite (fs_rename_ok _ _ _ _ _ H1), moved_below. }
  destruct (calm_step (fun _ => True) _ _ _ _ H1 Hq ltac:(by apply mtame_rename)) as [Hq1 _].
  pose proof (fs_rename_err _ _ _ _ _ H1) as Hs1. rewrite <- Hs1 in Hn, Hc. clear Hs1.
  apply bind_ok in H as (s2 & [[q h]|] & H2 & H).
  { by apply lookup_some in H2 as (_ & _ & _ & Hv). }
  pose proof (lookup_none _ _ _ _ _ _ Hq1 H2) as Hn2.
  destruct (calm_step (fun q => dir `prefix_of` q) _ _ _ _ H2 Hq1 ltac:(by apply mtame_lookup_in)) as [Hq2 Hs2].
  assert (Hc2 : io_fs s2 (tmp ++ [file]) = Some (NFile c)).
  { rewrite Hs2; [done|]. intros Hd. eapply Hdir; [exact Hd|by eexists]. }
  apply bind_ok in H as (s3 & [u|e2] & H3%attempt_ok & H).
  { unfold ret in H. simplify_eq. by rewrite (fs_rename_ok _ _ _ _ _ H3), moved_below. }
  rewrite <- (fs_rename_err _ _ _ _ _ H3) in Hn2.
  apply bind_ok in H as (s4 & r4 & H4 & H). apply bind_ok in H as (s5 & [[q h]|] & H5 & H); [|done].
  apply lookup_some in H5 as (_ & _ & _ & Hv).
  by eapply (valid_entry_kept (fun q => tmp `prefix_of` q)) in H4; [| | |exact Hn2]; [|touch|].
Qed.

(** When there is no valid entry, an answer is the download itself. *)
Lemma cache_publish_ok r component version arch file dl sha c s s' p :
  io_faults s = [] -> ~ valid_entry (io_fs s) (entry_dir root component version arch) file ->
  io_fs s dl = Some (NFile c) -> ~ dl `prefix_of` root ++ [component; version] ->
  ~ (root ++ [component; version]) `prefix_of` dl ->
  publish digest root (TMP_PREFIX ++ r) component version arch file dl sha s = (s', Ok p) ->
  p = entry_dir root component version arch ++ [file] /\ io_fs s' p = Some (NFile c).
Proof.
  set (dir := entry_dir root component version arch). set (par := root ++ [component; version]).
  intros Hq Hn Hdl Hp1 Hp2 H. unfold publish in H. fold dir in H.
  rewrite (parent_entry root component version arch : parent dir = par) in H. set (tmp := par ++ [TMP_PREFIX ++ r]) in *.
  assert (Hdir : forall q, dir `prefix_of` q -> ~ tmp `prefix_of` q) by (intros q; apply tmp_apart).
  apply bind_ok in H as (s1 & [] & H1 & H). apply bind_ok in H as (s2 & [] & H2 & H).
  apply bind_ok in H as (s3 & st & H3%attempt_ok & H). destruct st as [u|e].
  2:{ by apply bind_ok in H as (s4 & x & _ & H). }
  (* Making the directories. *)
  assert (Hapart : forall q, par `prefix_of` q -> ~ dl `prefix_of` q).
  { intros q Hq1 Hq2. by destruct (prefix_weak_total _ _ _ Hq1 Hq2). }
  assert (Hbelow : forall q, dir `prefix_of` q -> par `prefix_of` q).
  { intros q Hq1. apply (prefix_app_l par q [arch_str arch]). unfold par. by rewrite <- app_assoc. }
  destruct (calm_step (fun q => q `prefix_of` par) _ _ _ _ H1 Hq ltac:(mtame)) as [Hq1 Hs1].
  destruct (calm_step (eq tmp) _ _ _ _ H2 Hq1 ltac:(by apply mtame_create_dir)) as [Hq2 Hs2].
  assert (Hdl2 : io_fs s2 dl = Some (NFile c)).
  { rewrite Hs2, Hs1; [done..|]. intros <-. apply Hp2. unfold tmp. by eexists. }
  destruct (calm_step (fun q => tmp `prefix_of` q \/ dl `prefix_of` q) _ _ _ _ H3 Hq2 ltac:(apply mtame_stage_entry; tauto)) as [Hq3 Hs3].
  assert (Hn3 : ~ valid_entry (io_fs s3) dir file).
  { intros Hv. apply Hn. eapply valid_entry_ext; [|exact Hv]. intros q Hd. rewrite Hs3, Hs2, Hs1; [done|..].
    - intros Hp%prefix_length. apply prefix_length in Hd. unfold dir, par, entry_dir in *. rewrite !length_app in *. cbn in *. lia.
    - intros <-. by eapply Hdir.
    - intros [Ht|Ht]; [by eapply Hdir|by eapply Hapart; [apply Hbelow|]]. }
  pose proof (stage_entry_ok _ _ _ _ _ _ _ _ H3 Hdl2) as Hc.
  eapply place_entry_ok; [exact Hq3|exact Hn3|exact Hc| |exact H]. intros q Hd. by apply Hdir.
Qed.
End Served.

Section Obtained.
Context {V : Type} {HV : Semver V} {HR : Serde Resolved} {HM : Serde BundleManifest} {O : Outside}.
Context (self : Acquirer).
#[local] Abbreviation root := (aq_root self).
#[local] Abbreviation files w := (io_fs (wd_io w)).
#[local] Abbreviation calm w := (io_faults (wd_io w) = []).

(** ** Downloads *)

(** A part of a connect when nothing fails. *)
Lemma tame_step {E A} D n (m : Acq E A) w w' r :
  m w = (w', r) -> tame D n m -> calm w -> calm w' /\ forall q, ~ D q -> files w' q = files w q.
Proof. intros He Hm Hc. destruct (Hm w) as (_ & H1 & H2). rewrite He in H1, H2. cbn in H1, H2. auto. Qed.

Lemma save_chunks_ok url dest chunks body w w' all :
  save_chunks url dest chunks body w = (w', Ok all) -> files w dest = Some (NFile body) ->
  files w' dest = Some (NFile all).
Proof.
  revert body w. induction chunks as [|[c|e] chunks IH]; intros body w; cbn [save_chunks].
  - by intros [-> ->]%aret_ok.
  - destruct (_ <? _)%N; [done|]. intros (w1 & [] & Ha%amap_err_ok%disk_ok & Hs)%abind_ok Hd.
    eapply IH; [exact Hs|]. rewrite (fs_append_ok _ _ _ _ _ Ha _ Hd). apply upd_same.
  - done.
Qed.

Lemma sync_ok s s' u : fs_sync s = (s', Ok u) -> io_fs s' = io_fs s.
Proof. intros H%io_op_ok. by simplify_eq. Qed.

(** A download that ends is in its file, hashed. *)
Lemma download_ok url dest w w' h :
  download url dest w = (w', Ok h) -> hashed digest (files w') dest h.
Proof.
  unfold download. intros (w1 & [link chunks] & _ & H)%abind_ok.
  apply abind_ok in H as (w2 & [] & Hw%amap_err_ok%disk_ok & H).
  apply fs_write_new_ok in Hw as [_ Hw].
  apply abind_ok in H as (w3 & body & Hs & H).
  apply save_chunks_ok in Hs; [|rewrite Hw; apply upd_same].
  apply abind_ok in H as (w4 & [] & H4%amap_err_ok%disk_ok%sync_ok & H).
  apply abind_ok in H as (w5 & [] & H5%amap_err_ok%disk_ok%sync_ok & [<- ->]%aret_ok).
  exists body. by rewrite H5, H4.
Qed.

(** What passes the checks is the file that was published. *)
Lemma download_verified_ok url expected check w w' p :
  (forall q, mtame (fun _ => False) (check q)) ->
  download_verified self url expected check w = (w', Ok p) ->
  (exists name, p = root ++ [DOWNLOADS_DIR; name]) /\ hashed digest (files w') p expected.
Proof.
  intros Hcheck H. split; [by eapply download_verified_at; rewrite H|].
  unfold download_verified in H. apply abind_ok in H as (w1 & name & _ & H).
  apply abind_ok in H as (w2 & tmp & _ & H). apply abind_ok in H as (w3 & got & Hd%asee_ok & H).
  apply abind_ok in H as (w4 & result & Hr & H). destruct result as [u|cause].
  2:{ by apply abind_ok in H as (w5 & x & _ & H). }
  apply aret_ok in H as [<- ->]. destruct got as [actual|[|detail]]; [|by apply aret_ok in Hr as [Hx Hy]..].
  destruct (decide (actual = expected)) as [->|]; [|by apply aret_ok in Hr as [Hx Hy]].
  apply download_ok in Hd. destruct (tame_quiet (E := Cause) (fun _ => False) (Err (CauseIo [])) _ (Hcheck tmp) w3) as (_ & _ & Hf).
  rewrite Hr in Hf. cbn in Hf. destruct Hd as (c & Hc & Hh). exists c. rewrite Hf; tauto.
Qed.

Lemma mtame_none {A} (D : path -> Prop) (m : M A) : mtame (fun _ => False) m -> mtame D m.
Proof. intros [Ht Hc]. split; [|done]. intros s q _. apply Ht; tauto. Qed.

(** *** Fetching, when nothing fails and the cache has nothing valid *)

Lemma fetched_ok url expected check component version arch file w w1 w2 dl p :
  (forall q, mtame (fun _ => False) (check q)) -> component <> DOWNLOADS_DIR -> calm w ->
  ~ valid_entry digest (files w) (entry_dir root component version arch) file ->
  download_verified self url expected check w = (w1, Ok dl) ->
  cache_publish self component version arch file dl expected w1 = (w2, Ok p) ->
  p = entry_dir root component version arch ++ [file] /\ hashed digest (files w2) p expected.
Proof.
  intros Hcheck Hcomp Hq Hn H1 H2.
  destruct (tame_step (region self (eq DOWNLOADS_DIR)) 1 _ _ _ _ H1) as [Hq1 Hs1]; [|done|].
  { apply tame_download_verified; [done|]. intros q. by apply mtame_none. }
  apply download_verified_ok in H1 as [[name ->] (c & Hc & Hh)]; [|done].
  assert (Hn1 : ~ valid_entry digest (files w1) (entry_dir root component version arch) file).
  { intros Hv. apply Hn. eapply valid_entry_ext; [|exact Hv]. intros q Hd. apply Hs1. intros [Hp|(x & rest & -> & <-)].
    - apply prefix_length in Hp, Hd. unfold entry_dir in Hd. rewrite !length_app in *. cbn in *. lia.
    - apply prefix_app_inv in Hd. by apply prefix_cons_inv_1 in Hd. }
  unfold cache_publish in H2. apply abind_ok in H2 as (w3 & nm & Hnm & H2%disk_ok).
  unfold fresh_name in Hnm. apply abind_ok in Hnm as (w4 & n & Htick & [<- ->]%aret_ok).
  unfold tick in Htick. injection Htick as <- <-. cbn in H2.
  eapply cache_publish_ok in H2 as [-> H2]; [|done|exact Hn1|exact Hc|..].
  - split; [done|]. by exists c.
  - intros Hp%prefix_app_inv. by apply prefix_cons_inv_1 in Hp.
  - intros Hp%prefix_app_inv. by apply prefix_cons_inv_1 in Hp.
Qed.

(** ** The two components *)

Definition outside_root (q : path) : Prop := ~ root `prefix_of` q /\ ~ q `prefix_of` root.

(** Under the component's directory of the cache, or outside the cache. *)
Definition placed (component : text) (q : path) : Prop :=
  (exists rest, q = root ++ component :: rest) \/ outside_root q.

Definition good (fs : Files) (component : text) (o : Obtained) : Prop :=
  placed component (ob_path o) /\ hashed digest fs (ob_path o) (ob_sha256 o).

Definition archive_named (o : Obtained) : Prop := exists d n, ob_path o = d ++ [txt "cua-driver-rs-" ++ n].

(** Nothing was asked of the network, or nothing fails on the disk. *)
Definition settled (w w' : World) : Prop := wd_asked w' = wd_asked w \/ calm w.

Lemma tame_mono {E A} D n (m : Acq E A) w w' r :
  m w = (w', r) -> tame D n m -> (length (wd_asked w) <= length (wd_asked w'))%nat.
Proof.
  intros He Hm. destruct (Hm w) as (((l & _ & Ha) & _) & _). rewrite He in Ha. cbn in Ha. rewrite Ha, length_app. lia.
Qed.

Lemma http_text_asks url w w' r : http_text url w = (w', r) -> wd_asked w' = url :: wd_asked w.
Proof.
  unfold http_text, get, abind, ask. destruct (web _ _) as [e|status link chunks]; cbn; [by intros [= <- <-]|].
  destruct (_ && _); cbn; [|by destruct (status =? 404)%N; intros [= <- <-]].
  unfold alift, aret, araise. destruct (read_body _ _ _) as [body|]; [|by intros [= <- <-]].
  by destruct (from_utf8 body); intros [= <- <-].
Qed.

Lemma hash_ok p w w' h : hash p w = (w', Ok h) -> files w' = files w /\ hashed digest (files w) p h.
Proof. unfold hash. by intros H%amap_err_ok%disk_ok%sha256_file_ok. Qed.

Lemma lookup_total component version arch file s :
  exists s' x, lookup digest root component version arch file s = (s', Ok x).
Proof.
  assert (Hd : forall s, exists s' x, damaged (entry_dir root component version arch) s = (s', Ok x)).
  { intros t. unfold damaged, bind, fs_exists. destruct (io_op _ _ t) as [t1 [[]|]]; cbn; try by eexists _, _.
    unfold attempt. destruct (fs_remove_dir_all _ t1). by eexists _, _. }
  unfold lookup, bind. unfold attempt at 1. destruct (fs_read_to_string _ s) as [s1 [t|]]; [|by eexists _, _].
  unfold attempt. destruct (sha256_file _ _ s1) as [s2 [h|]]; [|apply Hd]. destruct (decide _); [by eexists _, _|apply Hd].
Qed.

Lemma cache_lookup_ok {E} component version arch file w w' x :
  cache_lookup (E := E) self component version arch file w = (w', Ok x) ->
  match x with
  | Some (p, h) => p = entry_dir root component version arch ++ [file] /\ files w' = files w /\ hashed digest (files w) p h
  | None => calm w -> ~ valid_entry digest (files w') (entry_dir root component version arch) file
  end.
Proof.
  unfold cache_lookup, quiet, disk. destruct (lookup_total component version arch file (wd_io w)) as (s' & y & Hl).
  rewrite Hl. intros [= <- <-]. cbn. destruct y as [[p h]|].
  - apply lookup_some in Hl as (-> & -> & Hh & _). done.
  - intros Hq. by eapply lookup_none.
Qed.

Lemma entry_placed component version arch file : placed component (entry_dir root component version arch ++ [file]).
Proof. left. exists [version; arch_str arch; file]. unfold entry_dir. by rewrite <- app_assoc. Qed.

(** From the checksum file to the cache, for both components: [url] is the
    checksum file. *)
Lemma valid_after_text dir file url w w' r :
  http_text url w = (w', r) -> calm w -> ~ valid_entry digest (files w) dir file ->
  calm w' /\ ~ valid_entry digest (files w') dir file.
Proof.
  intros He Hq Hn. destruct (tame_step (fun _ => False) 1 _ _ _ _ He) as [Hq1 Hs]; [apply tame_http_text|done|].
  split; [done|]. intros Hv. apply Hn. eapply valid_entry_ext; [|exact Hv]. intros q _. apply Hs. tauto.
Qed.

Lemma fetch_cua_ok (release : CuaRelease V) arch file w w' o :
  fetch_cua self release arch file w = (w', Ok o) -> calm w ->
  ~ valid_entry digest (files w) (entry_dir root CUA_COMPONENT (ver_show (cr_version release)) arch) file ->
  ob_path o = entry_dir root CUA_COMPONENT (ver_show (cr_version release)) arch ++ [file]
  /\ hashed digest (files w') (ob_path o) (ob_sha256 o).
Proof.
  unfold fetch_cua. intros (w1 & sums & Hs%asee_ok & H)%abind_ok Hq Hn.
  destruct (valid_after_text _ _ _ _ _ _ Hs Hq Hn) as [Hq1 Hn1]. destruct sums as [[sums next]|[|detail]]; [|done..].
  unfold download_cua in H.
  apply abind_ok in H as (w2 & expected & [_ ->]%alift_ok & H).
  apply abind_ok in H as (w3 & checked & Hd%amap_err_ok & H).
  apply abind_ok in H as (w4 & p & Hp%amap_err_ok & [<- ->]%aret_ok). cbn.
  eapply fetched_ok; [|done|exact Hq1|exact Hn1|exact Hd|exact Hp]. intros q. apply mtame_check_layout.
Qed.

Lemma asks_first {E B} D n url (f : _ -> Acq E B) w w' r :
  abind (asee (http_text url)) f w = (w', r) -> (forall a, tame D n (f a)) ->
  (length (wd_asked w) < length (wd_asked w'))%nat.
Proof.
  intros He Hf. unfold abind, asee in He. destruct (http_text url w) as [w1 x] eqn:Et.
  pose proof (http_text_asks _ _ _ _ Et) as Ha. pose proof (tame_mono _ _ _ _ _ _ He (Hf x)) as Hm.
  rewrite Ha in Hm. cbn in Hm. lia.
Qed.

Definition anywhere (_ : text) : Prop := True.

Lemma fetch_cua_asks (release : CuaRelease V) arch file w w' r :
  fetch_cua self release arch file w = (w', r) -> (length (wd_asked w) < length (wd_asked w'))%nat.
Proof.
  intros H. eapply (asks_first (region self anywhere) 1); [exact H|].
  intros [[sums next]|[|detail]]; [by apply tame_download_cua|by apply tame_any; tame0..].
Qed.

Lemma fetch_bridge_asks version arch w w' r :
  fetch_bridge self version arch w = (w', r) -> (length (wd_asked w) < length (wd_asked w'))%nat.
Proof.
  intros H. eapply (asks_first (region self anywhere) 1); [exact H|].
  intros [[sums next]|[|detail]]; [by apply tame_download_bridge|by apply tame_any; tame0..].
Qed.

Lemma fetch_bridge_ok version arch w w' o :
  fetch_bridge self version arch w = (w', Ok o) -> calm w ->
  ~ valid_entry digest (files w) (entry_dir root BRIDGE_COMPONENT version arch) BRIDGE_EXE_NAME ->
  ob_path o = entry_dir root BRIDGE_COMPONENT version arch ++ [BRIDGE_EXE_NAME]
  /\ hashed digest (files w') (ob_path o) (ob_sha256 o).
Proof.
  unfold fetch_bridge. intros (w1 & sums & Hs%asee_ok & H)%abind_ok Hq Hn.
  destruct (valid_after_text _ _ _ _ _ _ Hs Hq Hn) as [Hq1 Hn1]. destruct sums as [[sums next]|[|detail]]; [|done..].
  unfold download_bridge in H.
  apply abind_ok in H as (w2 & expected & [_ ->]%alift_ok & H).
  apply abind_ok in H as (w3 & checked & Hd%amap_err_ok & H).
  apply abind_ok in H as (w4 & p & Hp%amap_err_ok & [<- ->]%aret_ok). cbn.
  eapply fetched_ok; [|done|exact Hq1|exact Hn1|exact Hd|exact Hp]. intros q. apply mtame_ret.
Qed.

(** Entries other than [x] leave what is placed under [x]. *)
Lemma placed_kept ok x q : placed x q -> ~ ok x -> ~ region self ok q.
Proof.
  intros [[rest ->]|[H1 H2]] Hx [Hp|(y & r & He & Hy)].
  - apply prefix_length in Hp. rewrite length_app in Hp. cbn in Hp. lia.
  - apply app_inv_head in He. by simplify_eq.
  - done.
  - apply H1. rewrite He. by eexists.
Qed.

Lemma tmp_name_ne x k : starts_with TMP_PREFIX x = false -> tmp_name pid (entropy k) <> x.
Proof.
  intros Hx He. rewrite <- He in Hx. unfold starts_with, tmp_name in Hx.
  apply bool_decide_eq_false in Hx. apply Hx. eexists. by apply strip_prefix_Some.
Qed.

Lemma cua_ok request (local : Local V) w w' o :
  (forall r p, lo_cua local = Some (r, p) -> outside_root p /\ exists d n, p = d ++ [txt "cua-driver-rs-" ++ n]) ->
  cua self request local w = (w', Ok o) -> settled w w' ->
  good (files w') CUA_COMPONENT o /\ archive_named o.
Proof.
  intros Hlocal H Hset. unfold cua in H. apply abind_ok in H as (w0 & wanted & [_ ->]%alift_ok & H).
  destruct (lo_cua local) as [[r p]|] eqn:El.
  { destruct (Hlocal _ _ eq_refl) as [Hp Hn]. unfold local_cua in H. apply abind_ok in H as (w1 & [] & _ & H).
    apply abind_ok in H as (w2 & h & [Hw2 Hh]%amap_err_ok%hash_ok & [<- ->]%aret_ok).
    split; [|done]. split; [by right|]. by rewrite Hw2. }
  apply abind_ok in H as (w1 & release & Hr & H).
  apply abind_ok in H as (w2 & found & Hl & H).
  assert (Hnamed : forall d, exists d' n, d ++ [asset release (br_arch request)] = d' ++ [txt "cua-driver-rs-" ++ n]).
  { intros d. unfold asset. by eexists d, _. }
  destruct found as [[p h]|].
  { apply aret_ok in H as [<- ->]. apply cache_lookup_ok in Hl as (-> & Hw2 & Hh).
    split; [|apply Hnamed]. split; [apply entry_placed|]. cbn. by rewrite Hw2. }
  destruct (negb _); [done|].
  assert (Ht : tame (region self anywhere) 3 (match wanted with
      | WantTag release => aret release
      | WantChannel channel => resolve_channel self channel request
      end)).
  { destruct wanted; [|by apply tame_any; tame0]. eapply tame_more; [by apply tame_resolve_channel|].
    destruct (br_auto_download request); lia. }
  assert (Hq : calm w).
  { destruct Hset as [Ha|Hq]; [|done]. exfalso.
    pose proof (tame_mono _ _ _ _ _ _ Hr Ht) as H1.
    pose proof (tame_mono (region self anywhere) _ _ _ _ _ Hl ltac:(by apply tame_lookup)) as H2.
    pose proof (fetch_cua_asks _ _ _ _ _ _ H) as H3. rewrite Ha in H3. lia. }
  destruct (tame_step _ _ _ _ _ _ Hr Ht Hq) as [Hq1 _].
  destruct (tame_step (region self anywhere) _ _ _ _ _ Hl ltac:(by apply tame_lookup) Hq1) as [Hq2 _].
  apply cache_lookup_ok in Hl. specialize (Hl Hq1). cbn in Hl.
  destruct (fetch_cua_ok _ _ _ _ _ _ H Hq2 Hl) as [Hp Hh]. split; [split|].
  - rewrite Hp. apply entry_placed.
  - done.
  - unfold archive_named. rewrite Hp. apply Hnamed.
Qed.

Lemma cached_bridge_ok {E} version arch w w' x :
  cached_bridge (E := E) self version arch w = (w', Ok x) ->
  match x with
  | Some o => good (files w') BRIDGE_COMPONENT o
  | None => calm w -> ~ valid_entry digest (files w') (entry_dir root BRIDGE_COMPONENT version arch) BRIDGE_EXE_NAME
  end.
Proof.
  unfold cached_bridge. intros (w1 & found & Hl%cache_lookup_ok & [<- ->]%aret_ok)%abind_ok.
  destruct found as [[p h]|]; [|done]. destruct Hl as (-> & Hw1 & Hh). split; [apply entry_placed|]. cbn. by rewrite Hw1.
Qed.

Lemma fetched_bridge_good version arch w w' o :
  fetch_bridge self version arch w = (w', Ok o) -> calm w ->
  ~ valid_entry digest (files w) (entry_dir root BRIDGE_COMPONENT version arch) BRIDGE_EXE_NAME ->
  good (files w') BRIDGE_COMPONENT o.
Proof.
  intros H Hq Hn. destruct (fetch_bridge_ok _ _ _ _ _ H Hq Hn) as [Hp Hh]. split; [|done]. rewrite Hp. apply entry_placed.
Qed.

Lemma other_bridge_ok arch w w' o :
  other_bridge self arch w = (w', Ok o) -> calm w -> good (files w') BRIDGE_COMPONENT o.
Proof.
  unfold other_bridge. intros (w1 & version & Hv & H)%abind_ok Hq.
  destruct (tame_step (region self anywhere) _ _ _ _ _ Hv ltac:(by apply tame_newest_bridge_version) Hq) as [Hq1 _].
  apply abind_ok in H as (w2 & [] & Hw & H).
  destruct (tame_step (region self anywhere) _ _ _ _ _ Hw ltac:(tame0) Hq1) as [Hq2 _].
  apply abind_ok in H as (w3 & found & Hf & H).
  destruct (tame_step (region self anywhere) _ _ _ _ _ Hf ltac:(by apply tame_cached_bridge) Hq2) as [Hq3 _].
  apply cached_bridge_ok in Hf. destruct found as [o'|]; [by apply aret_ok in H as [<- ->]|].
  apply amap_err_ok in H. eapply fetched_bridge_good; [exact H|done|by apply Hf].
Qed.

Lemma bridge_ok request (local : Local V) w w' o :
  (forall p, lo_bridge local = Some p -> outside_root p) ->
  bridge self request local w = (w', Ok o) -> settled w w' -> good (files w') BRIDGE_COMPONENT o.
Proof.
  intros Hlocal H Hset. unfold bridge in H. destruct (lo_bridge local) as [p|].
  { apply abind_ok in H as (w1 & h & [Hw Hh]%amap_err_ok%hash_ok & [<- ->]%aret_ok).
    split; [by right; apply Hlocal|]. cbn. by rewrite Hw. }
  apply abind_ok in H as (w1 & found & Hf & H).
  pose proof (tame_cached_bridge self anywhere (E := BundleError) (aq_version self) (br_arch request) I) as Ht.
  pose proof (cached_bridge_ok _ _ _ _ _ Hf) as Hok. destruct found as [o'|]; [by apply aret_ok in H as [<- ->]|].
  destruct (negb _); [done|]. apply abind_ok in H as (w2 & fetched & Hb%asee_ok & H).
  assert (Hq : calm w).
  { destruct Hset as [Ha|Hq]; [|done]. exfalso. pose proof (tame_mono _ _ _ _ _ _ Hf Ht) as H1.
    pose proof (fetch_bridge_asks _ _ _ _ _ Hb) as H2.
    assert (length (wd_asked w2) <= length (wd_asked w'))%nat; [|rewrite Ha in *; lia].
    destruct fetched as [o'|[|cause]]; [by apply aret_ok in H as [_ ->]| |done].
    eapply tame_mono; [exact H|]. by apply (tame_other_bridge self anywhere). }
  destruct (tame_step _ _ _ _ _ _ Hf Ht Hq) as [Hq1 _]. specialize (Hok Hq).
  destruct (tame_step (region self anywhere) _ _ _ _ _ Hb ltac:(by apply tame_fetch_bridge) Hq1) as [Hq2 _].
  destruct fetched as [o'|[|cause]]; [| |done].
  - apply aret_ok in H as [<- ->]. by eapply fetched_bridge_good.
  - by eapply other_bridge_ok.
Qed.

(** ** [bundle_path] *)

Definition apart (dir : path) : Prop := ~ dir `prefix_of` root /\ ~ root `prefix_of` dir.

Lemma apart_below dir n : apart dir -> outside_root (dir ++ [n]).
Proof.
  intros [H1 H2]. split.
  - intros [k Hk]. destruct k as [|x k _] using rev_ind.
    + apply H1. rewrite app_nil_r in Hk. rewrite <- Hk. by eexists.
    + rewrite app_assoc in Hk. apply app_inj_tail in Hk as [-> _]. apply H2. by eexists.
  - intros Hp. apply H1. by eapply prefix_app_l.
Qed.

(** What [scan_local] finds in [dir]. *)
Definition local_in (dir : path) (local : Local V) : Prop :=
  (forall p, lo_bridge local = Some p -> p = dir ++ [BRIDGE_EXE_NAME])
  /\ forall r p, lo_cua local = Some (r, p) -> exists n, p = dir ++ [txt "cua-driver-rs-" ++ n].

Lemma scan_names_ok dir arch names local w w' local' :
  scan_names dir arch names local w = (w', Ok local') -> local_in dir local -> local_in dir local'.
Proof.
  revert local w. induction names as [|n names IH]; intros local w; cbn [scan_names]; [by intros [-> ->]%aret_ok|].
  intros (w1 & file & _ & H)%abind_ok Hl. destruct (negb file); [by eapply IH|].
  destruct (decide (n = BRIDGE_EXE_NAME)) as [->|].
  { eapply IH; [exact H|]. destruct Hl as [_ Hl]. split; [|done]. by intros p [= <-]. }
  destruct (local_release arch n) as [r|] eqn:Er; [|by eapply IH]. destruct (lo_cua local) eqn:El; [done|].
  eapply IH; [exact H|]. destruct Hl as [Hl _]. split; [done|]. intros r' p [= <- <-].
  unfold local_release in Er. destruct (strip_prefix _ n) as [rest|] eqn:Ep; [|done].
  apply strip_prefix_Some in Ep as ->. by exists rest.
Qed.

Lemma scan_local_ok dir arch w w' local :
  scan_local (V := V) dir arch w = (w', Ok local) -> local_in dir local.
Proof.
  unfold scan_local. intros (w1 & names & _ & H)%abind_ok. by eapply scan_names_ok.
Qed.

(** ** The bundle directory *)

(** [dir] is the bundle [id] of the manifest [m]: what the guest is given. *)
Record serves (fs : Files) (dir : path) (id : text) (m : BundleManifest) : Prop := {
  sv_manifest : exists c, fs (dir ++ [MANIFEST_NAME]) = Some (NFile c) /\ from_slice c = Ok m;
  sv_id : bm_bundle_id m = id;
  sv_valid : validate m = Ok tt;
  sv_bridge : hashed digest fs (dir ++ [BRIDGE_EXE_NAME]) (bm_bridge_sha256 m);
  sv_archive : hashed digest fs (dir ++ [bm_archive_name m]) (bm_archive_sha256 m) }.

Lemma serves_ext fs fs' dir dir' id m :
  (forall n, fs' (dir' ++ [n]) = fs (dir ++ [n])) -> serves fs dir id m -> serves fs' dir' id m.
Proof.
  intros He [(c & H1 & H2) H3 H4 (d & H5 & H6) (e & H7 & H8)].
  constructor; [exists c|done|done|exists d|exists e]; by rewrite He.
Qed.

Lemma has_hash_true p h s s' :
  has_hash p h s = (s', Ok true) -> io_fs s' = io_fs s /\ hashed digest (io_fs s) p h.
Proof.
  unfold has_hash. intros (s1 & r & Hr%attempt_ok & H)%bind_ok. unfold ret in H.
  destruct r as [a|]; [|by simplify_eq]. apply sha256_file_ok in Hr as [Hs Hh].
  destruct (bool_decide (a = h)) eqn:E; simplify_eq. by apply bool_decide_eq_true in E as <-.
Qed.

Lemma verify_bundle_true dir id s s' :
  verify_bundle dir id s = (s', Ok true) -> io_fs s' = io_fs s /\ exists m, serves (io_fs s) dir id m.
Proof.
  unfold verify_bundle. intros (s1 & r & Hr%attempt_ok & H)%bind_ok. destruct r as [c|]; [|unfold ret in H; by simplify_eq].
  apply fs_read_ok in Hr as [Hc Hs1]. apply bind_ok in H as (s2 & ok & Hk & H). destruct ok.
  2:{ apply bind_ok in H as (s3 & r & _ & H). unfold ret in H. by simplify_eq. }
  unfold ret in H. simplify_eq. unfold check_bundle in Hk.
  destruct (from_slice c) as [m|] eqn:Em; [|unfold ret in Hk; by simplify_eq].
  destruct (_ && _) eqn:Ev; [|unfold ret in Hk; by simplify_eq]. bools.
  apply bind_ok in Hk as (s3 & one & H1 & H2). destruct one; [|unfold ret in H2; by simplify_eq].
  apply has_hash_true in H1 as [Hs3 Hb]. apply has_hash_true in H2 as [Hs4 Ha].
  rewrite Hs3 in *. rewrite Hs1 in *. split; [done|]. exists m. constructor; [by exists c|done| |done|done].
  by destruct (validate m) as [[]|].
Qed.

Lemma link_or_copy_ok from to s s' u :
  link_or_copy from to s = (s', Ok u) ->
  exists c, io_fs s from = Some (NFile c) /\ io_fs s' = upd to (Some (NFile c)) (io_fs s).
Proof.
  unfold link_or_copy. intros (s1 & r & Hr%attempt_ok & H)%bind_ok. destruct r as [v|e].
  - unfold ret in H. simplify_eq. by apply fs_hard_link_ok in Hr.
  - apply fs_copy_ok in H as (c & Hc & Hw).
    assert (Hs : io_fs s1 = io_fs s); [|rewrite <- Hs; by exists c].
    revert Hr. unfold fs_hard_link, io_op. destruct (io_faults s) as [|f fs]; [|destruct (ft_fails f)]; cbn;
      try (by intros; simplify_eq);
      (destruct (match io_fs s from with Some _ => _ | None => _ end) as [[]|]; intros; by simplify_eq/=).
Qed.

Lemma snoc_ne (d : path) (x y : text) : x <> y -> d ++ [x] <> d ++ [y].
Proof. intros Hxy [= ->]%app_inv_head. done. Qed.

(** What is staged is what the manifest says, when the two files are. *)
Lemma stage_bundle_ok {HL : ManifestLaws} tmp bp cp m id s s' u :
  bm_bundle_id m = id -> validate m = Ok tt ->
  hashed digest (io_fs s) bp (bm_bridge_sha256 m) -> hashed digest (io_fs s) cp (bm_archive_sha256 m) ->
  ~ tmp `prefix_of` bp -> ~ tmp `prefix_of` cp ->
  bm_archive_name m <> BRIDGE_EXE_NAME -> bm_archive_name m <> MANIFEST_NAME ->
  stage_bundle tmp bp cp m s = (s', Ok u) -> serves (io_fs s') tmp id m.
Proof.
  intros Hid Hv (cb & Hcb & Hhb) (cc & Hcc & Hhc) Hnb Hnc Hab Ham. unfold stage_bundle.
  intros (s1 & [] & [_ H1]%fs_create_dir_ok & H)%bind_ok.
  apply bind_ok in H as (s2 & [] & (c2 & Hc2 & H2)%link_or_copy_ok & H).
  apply bind_ok in H as (s3 & [] & (c3 & Hc3 & H3)%link_or_copy_ok & H).
  apply bind_ok in H as (s4 & json & [Hj ->]%lift_ok & H4%fs_write_ok).
  assert (Hoff : forall q n, ~ tmp `prefix_of` q -> q <> tmp ++ [n]) by (intros q n Hq ->; apply Hq; by eexists).
  assert (c2 = cb) as ->.
  { rewrite H1, upd_other in Hc2 by (intros ->; by apply Hnb). congruence. }
  assert (c3 = cc) as ->.
  { rewrite H2, upd_other, H1, upd_other in Hc3; [congruence|by intros ->; apply Hnc|by apply Hoff]. }
  assert (Hbm : BRIDGE_EXE_NAME <> MANIFEST_NAME) by done.
  constructor; [| done | done | |].
  - exists json. rewrite H4, upd_same. split; [done|]. by apply to_vec_pretty_back.
  - exists cb. rewrite H4, upd_other, H3, upd_other, H2, upd_same; [done|by apply snoc_ne..].
  - exists cc. rewrite H4, upd_other, H3, upd_same; [done|by apply snoc_ne].
Qed.

Lemma serves_moved fs tmp target id m : serves fs tmp id m -> serves (move_tree tmp target fs) target id m.
Proof. apply serves_ext. intros n. apply moved_below. Qed.

Lemma serves_kept {A} D (m : M A) s s' r dir id man :
  m s = (s', r) -> touches D m -> (forall n, ~ D (dir ++ [n])) -> serves (io_fs s) dir id man -> serves (io_fs s') dir id man.
Proof.
  intros He Ht HD. apply serves_ext. intros n. specialize (Ht s (dir ++ [n]) (HD n)). by rewrite He in Ht.
Qed.

Lemma install_bundle_ok tmp target id m s s' u :
  (forall n, ~ tmp `prefix_of` target ++ [n]) -> (forall n, ~ target `prefix_of` tmp ++ [n]) ->
  serves (io_fs s) tmp id m -> install_bundle tmp target id s = (s', Ok u) ->
  exists m', serves (io_fs s') target id m'.
Proof.
  intros Htt Hst Hm. unfold install_bundle. intros (s1 & r & Hr%attempt_ok & H)%bind_ok. destruct r as [v|e].
  { unfold ret in H. simplify_eq. exists m. rewrite (fs_rename_ok _ _ _ _ _ Hr). by apply serves_moved. }
  rewrite <- (fs_rename_err _ _ _ _ _ Hr) in Hm.
  apply bind_ok in H as (s2 & winner & Hw & H). destruct winner.
  { apply bind_ok in H as (s3 & r3 & H3 & H). unfold ret in H. simplify_eq.
    apply verify_bundle_true in Hw as [Hs2 [m' Hm']]. exists m'. rewrite <- Hs2 in Hm'.
    eapply (serves_kept (fun q => tmp `prefix_of` q)); [exact H3|touch|done|done]. }
  eapply (serves_kept (fun q => target `prefix_of` q)) in Hm;
    [|exact Hw|by apply mtame_touches, mtame_verify_bundle|done].
  apply bind_ok in H as (s3 & r3 & H3 & H).
  eapply (serves_kept (fun q => target `prefix_of` q)) in Hm; [|exact H3|touch|done].
  apply bind_ok in H as (s4 & r4 & H4%attempt_ok & H). destruct r4 as [v|e4].
  { unfold ret in H. simplify_eq. exists m. rewrite (fs_rename_ok _ _ _ _ _ H4). by apply serves_moved. }
  apply bind_ok in H as (s5 & r5 & _ & H). apply bind_ok in H as (s6 & late & H6 & H). destruct late; [|done].
  unfold ret in H. simplify_eq. apply verify_bundle_true in H6 as [-> Hm']. done.
Qed.

Lemma tame_files {E A} D n (m : Acq E A) w w' r q : m w = (w', r) -> tame D n m -> ~ D q -> files w' q = files w q.
Proof. intros He Hm. destruct (Hm w) as (_ & _ & H2). rewrite He in H2. apply H2. Qed.

Lemma hashed_kept {E A} D n (m : Acq E A) w w' r q h :
  m w = (w', r) -> tame D n m -> ~ D q -> hashed digest (files w) q h -> hashed digest (files w') q h.
Proof. intros He Hm Hq (c & Hc & Hh). exists c. by rewrite (tame_files _ _ _ _ _ _ _ He Hm Hq). Qed.

(** A bundle that is assembled is whole. *)
Lemma build_bundle_ok {HL : ManifestLaws} id archive_name c b w w' u :
  check_bundle_id id = Ok tt -> good (files w) CUA_COMPONENT c -> good (files w) BRIDGE_COMPONENT b ->
  archive_name <> BRIDGE_EXE_NAME -> archive_name <> MANIFEST_NAME ->
  build_bundle self (bundle_dir root id) id archive_name c b w = (w', Ok u) ->
  exists m, serves (files w') (bundle_dir root id) id m.
Proof.
  set (target := bundle_dir root id). intros Hid [Hcp Hch] [Hbp Hbh] Hab Ham H. unfold build_bundle in H.
  set (D := region self (eq BUNDLES_DIR)).
  assert (Hoff : forall q x, placed x q -> x <> BUNDLES_DIR -> ~ D q).
  { intros q x Hx Hne. eapply placed_kept; [exact Hx|congruence]. }
  assert (HDt : forall q, target `prefix_of` q -> D q) by (intros q; by apply region_above).
  assert (HDb : forall n q, (root ++ [BUNDLES_DIR]) ++ [n] `prefix_of` q -> D q).
  { intros n q. rewrite <- app_assoc. by apply region_above. }
  assert (Hkeep : forall {E A} n (m : Acq E A) w1 w2 r, m w1 = (w2, r) -> tame D n m ->
    hashed digest (files w1) (ob_path c) (ob_sha256 c) /\ hashed digest (files w1) (ob_path b) (ob_sha256 b) ->
    hashed digest (files w2) (ob_path c) (ob_sha256 c) /\ hashed digest (files w2) (ob_path b) (ob_sha256 b)).
  { intros E A n m w1 w2 r He Ht [H1 H2]. split; (eapply hashed_kept; [exact He|exact Ht| |done]); by eapply Hoff. }
  pose proof (conj Hch Hbh) as Hboth. clear Hch Hbh.
  apply abind_ok in H as (w1 & there & H1 & H). destruct there.
  { apply aret_ok in H as [_ ->]. apply quiet_ok in H1 as [H1|]; [|done].
    apply verify_bundle_true in H1 as [-> Hm]. done. }
  eapply Hkeep in Hboth; [|exact H1|by apply tame_quiet, mtame_verify_bundle]. clear H1.
  apply abind_ok in H as (w2 & inspected & H1 & H).
  eapply Hkeep in Hboth; [|exact H1|by apply tame_quiet, mtame_inspect]. clear H1.
  apply abind_ok in H as (w3 & entries & [_ ->]%alift_ok & H).
  apply abind_ok in H as (w4 & [] & [Hv%map_err_ok ->]%alift_ok & H).
  apply abind_ok in H as (w5 & [] & H1 & H).
  eapply Hkeep in Hboth; [|exact H1|]. 2:{ apply tame_map_err, tame_disk, mtame_create_dir_all. intros q. by apply region_way. }
  clear H1. apply abind_ok in H as (w6 & name & H1 & H).
  assert (Hname : exists k, name = tmp_name pid (entropy k)).
  { unfold fresh_name in H1. apply abind_ok in H1 as (w7 & k & _ & [<- _]%aret_ok). by exists k. }
  eapply Hkeep in Hboth; [|exact H1|unfold fresh_name; tame0]. clear H1.
  apply abind_ok in H as (w7 & staged & H1%asee_ok & H). destruct staged as [v|e].
  2:{ by apply abind_ok in H as (w8 & x & _ & H). }
  apply disk_ok in H1. apply amap_err_ok, disk_ok in H. destruct Hname as [k ->].
  assert (Hne : id <> tmp_name pid (entropy k)).
  { intros ->. apply check_bundle_id_dot in Hid. unfold tmp_name, starts_with in Hid. by vm_compute in Hid. }
  eapply stage_bundle_ok with (id := id) in H1; [|done|by destruct (validate _) as [[]|]|apply Hboth|apply Hboth| | |done..].
  - eapply install_bundle_ok; [| |exact H1|exact H]; intros n; unfold target, bundle_dir;
      rewrite <- ?app_assoc; cbn [app]; intros Hp%prefix_app_inv%prefix_cons_inv_2%prefix_cons_inv_1; congruence.
  - intros Hp%HDb. by eapply Hoff; [exact Hbp| |].
  - intros Hp%HDb. by eapply Hoff; [exact Hcp| |].
Qed.

Lemma assemble_ok {HL : ManifestLaws} c b arch w w' dir id :
  good (files w) CUA_COMPONENT c -> good (files w) BRIDGE_COMPONENT b -> archive_named c ->
  assemble self c b arch w = (w', Ok (dir, id)) ->
  dir = bundle_dir root id /\ exists m, serves (files w') dir id m.
Proof.
  intros Hc Hb (d & n & Hn) H. unfold assemble in H.
  apply abind_ok in H as (w1 & [] & [Hid%map_err_ok ->]%alift_ok & H).
  apply abind_ok in H as (w2 & name & [Hname ->]%alift_ok & H).
  apply abind_ok in H as (w3 & [] & Hbuild%amap_err_ok & [[= <- <-] ->]%aret_ok).
  split; [done|]. rewrite Hn, last_snoc in Hname. injection Hname as <-.
  eapply build_bundle_ok; [done|exact Hc|exact Hb| | |exact Hbuild]; by vm_compute.
Qed.

(** What was asked stays asked. *)
Definition grows (w w' : World) : Prop := exists l, wd_asked w' = l ++ wd_asked w.

Lemma tame_grows {E A} D n (m : Acq E A) w w' r : m w = (w', r) -> tame D n m -> grows w w'.
Proof. intros He Hm. destruct (Hm w) as (((l & _ & Ha) & _) & _). rewrite He in Ha. by exists l. Qed.

#[local] Instance grows_trans : Transitive grows.
Proof. intros w1 w2 w3 [l H1] [l' H2]. exists (l' ++ l). by rewrite H2, H1, app_assoc. Qed.

(** When nothing was asked over a stretch, nothing was in a part of it. *)
Lemma asked_within w w1 w2 w3 :
  grows w w1 -> grows w1 w2 -> grows w2 w3 -> wd_asked w3 = wd_asked w -> wd_asked w2 = wd_asked w1.
Proof.
  intros [l1 H1] [l2 H2] [l3 H3] He. rewrite H3, H2, H1 in He. apply (f_equal length) in He.
  rewrite !length_app in He. destruct l2; [done|cbn in He; lia].
Qed.

Lemma prepare_ok {HL : ManifestLaws} request bundle_path w w' p :
  match bundle_path with Some dir => apart dir | None => True end ->
  prepare self request bundle_path w = (w', Ok p) -> settled w w' ->
  pb_dir p = bundle_dir root (pb_bundle_id p) /\ exists m, serves (files w') (pb_dir p) (pb_bundle_id p) m.
Proof.
  intros Hpath H Hset. unfold prepare in H.
  apply abind_ok in H as (w1 & local & H1 & H). apply abind_ok in H as (w2 & c & H2 & H).
  apply abind_ok in H as (w3 & b & H3 & H). apply abind_ok in H as (w4 & [dir id] & H4 & H).
  apply abind_ok in H as (w5 & notes & H5 & [<- ->]%aret_ok). unfold warnings in H5. injection H5 as -> _. cbn [pb_dir pb_bundle_id fst snd].
  assert (Hlocal : (forall q, lo_bridge local = Some q -> outside_root q)
    /\ forall r q, lo_cua local = Some (r, q) -> outside_root q /\ exists d n, q = d ++ [txt "cua-driver-rs-" ++ n]).
  { destruct bundle_path as [dir'|]; [|by apply aret_ok in H1 as [<- _]; split; cbn; intros; simplify_eq]. apply scan_local_ok in H1 as [Hb Hc].
    split; [intros q ->%Hb; by apply apart_below|]. intros r q [n ->]%Hc. split; [by apply apart_below|by exists dir', n]. }
  assert (Ht1 : tame (region self anywhere) 0 (match bundle_path with
      | Some dir => scan_local (V := V) dir (br_arch request)
      | None => aret {| lo_bridge := None; lo_cua := None |}
      end)) by (destruct bundle_path; [by apply tame_scan_local|tame0]).
  pose proof (tame_cua self anywhere I I (fun _ => I) request local I) as Ht2.
  pose proof (tame_bridge self anywhere I I (fun _ => I) request local I) as Ht3.
  assert (Ht4 : tame (region self anywhere) 0 (assemble self c b (br_arch request))) by (by apply tame_assemble).
  pose proof (tame_grows _ _ _ _ _ _ H1 Ht1) as Hg1. pose proof (tame_grows _ _ _ _ _ _ H2 Ht2) as Hg2.
  pose proof (tame_grows _ _ _ _ _ _ H3 Ht3) as Hg3. pose proof (tame_grows _ _ _ _ _ _ H4 Ht4) as Hg4.
  assert (Hs : settled w1 w2 /\ settled w2 w3).
  { destruct Hset as [Ha|Hq].
    - split; left.
      + eapply (asked_within w w1 w2 w5); [done..| |done]. by trans w3.
      + eapply (asked_within w w2 w3 w5); [by trans w1|done..].
    - destruct (tame_step _ _ _ _ _ _ H1 Ht1 Hq) as [Hq1 _]. destruct (tame_step _ _ _ _ _ _ H2 Ht2 Hq1) as [Hq2 _].
      split; by right. }
  destruct Hs as [Hs1 Hs2].
  destruct (cua_ok _ _ _ _ _ (proj2 Hlocal) H2 Hs1) as [[Hcp Hch] Hnamed].
  assert (Hc : good (files w3) CUA_COMPONENT c).
  { split; [done|]. eapply (hashed_kept (region self (fun x => x <> CUA_COMPONENT))); [exact H3| | |exact Hch].
    - apply tame_bridge; first [done|intros k; by apply tmp_name_ne].
    - eapply placed_kept; [exact Hcp|tauto]. }
  eapply assemble_ok; [exact Hc| |exact Hnamed|exact H4]. eapply bridge_ok; [apply Hlocal|exact H3|done].
Qed.

(** ** The bridge of another release *)

Lemma http_text_missing url w w' :
  http_text url w = (w', Err FetchNotFound) -> exists link chunks, web (length (wd_asked w)) url = Response 404 link chunks.
Proof.
  assert (Hbody : forall chunks body, read_body url chunks body <> Err FetchNotFound).
  { induction chunks as [|[c|e] chunks IH]; intros body; cbn [read_body]; [done| |done]. by case_match. }
  unfold http_text, get, abind, ask. destruct (web _ _) as [e|status link chunks]; cbn; [done|].
  destruct (_ && _); cbn.
  - specialize (Hbody chunks []). unfold alift, aret, araise. destruct (read_body _ _ _) as [body|e]; [|congruence].
    by destruct (from_utf8 body).
  - destruct (status =? 404)%N eqn:E; [|done]. apply N.eqb_eq in E as ->. by exists link, chunks.
Qed.

Lemma download_bridge_err version arch sums w w' e :
  download_bridge self version arch sums w = (w', Err e) -> e <> BridgeNotFound.
Proof.
  unfold download_bridge. intros [H|(w1 & expected & _ & H)]%abind_err.
  { unfold alift in H. by destruct (parse_checksum _ _); simplify_eq/=. }
  apply abind_err in H as [(c & _ & ->)%amap_err_err|(w2 & checked & _ & H)]; [by destruct c|].
  by apply abind_err in H as [(c & _ & ->)%amap_err_err|(w3 & p & _ & H)].
Qed.

Lemma fetch_bridge_missing version arch w w' :
  fetch_bridge self version arch w = (w', Err BridgeNotFound) ->
  let url := asset_url (aq_endpoints self) RELEASE_REPO (release_tag version) SHA256SUMS_ASSET in
  url ∈ wd_asked w' /\ exists n link chunks, web n url = Response 404 link chunks.
Proof.
  unfold fetch_bridge, abind, asee. destruct (http_text _ w) as [w1 [[sums next]|[|detail]]] eqn:E; cbn.
  - intros H. by apply download_bridge_err in H.
  - intros [= <-]. rewrite (http_text_asks _ _ _ _ E). split; [left|]. eexists. by eapply http_text_missing.
  - done.
Qed.

Lemma cached_bridge_version {E} version arch w w' o :
  cached_bridge (E := E) self version arch w = (w', Ok (Some o)) -> ob_version o = version.
Proof.
  unfold cached_bridge. intros (w1 & [[p h]|] & _ & [He ->]%aret_ok)%abind_ok; [|done]. by injection He as <-.
Qed.

Lemma fetch_bridge_version version arch w w' o :
  fetch_bridge self version arch w = (w', Ok o) -> ob_version o = version.
Proof.
  unfold fetch_bridge. intros (w1 & [[sums next]|[|detail]] & _ & H)%abind_ok; [|done..]. unfold download_bridge in H.
  apply abind_ok in H as (w2 & expected & _ & H). apply abind_ok in H as (w3 & checked & _ & H).
  by apply abind_ok in H as (w4 & p & _ & [<- ->]%aret_ok).
Qed.

(** What is told when another version is used. *)
Lemma other_bridge_tells arch w w' o :
  other_bridge self arch w = (w', Ok o) -> exists note, note ∈ wd_warnings w'
    /\ starts_with (txt "rdpilot-bridge " ++ ob_version o ++ txt " differs from rdpilot-daemon " ++ aq_version self) note = true.
Proof.
  unfold other_bridge. intros (w1 & version & _ & H)%abind_ok. apply abind_ok in H as (w2 & [] & Hw & H).
  unfold warn in Hw. injection Hw as <-.
  assert (Hv : ob_version o = version).
  { apply abind_ok in H as (w3 & found & Hf & H). destruct found as [o'|].
    - apply aret_ok in H as [-> _]. by eapply cached_bridge_version.
    - apply amap_err_ok in H. by eapply fetch_bridge_version. }
  match type of H with ?m ?w0 = _ =>
    assert (Ht : tame (region self anywhere) 2 m) end.
  { apply tame_bind0; [by apply tame_cached_bridge|intros [o'|]]; [apply tame_any; tame0|]. by apply tame_map_err, tame_fetch_bridge. }
  match type of H with ?m ?w0 = _ => destruct (Ht w0) as ((_ & notes & Hn) & _) end. rewrite H in Hn. cbn in Hn. rewrite Hn.
  eexists. split; [apply elem_of_app; left; apply elem_of_app; right; by left|].
  rewrite Hv. unfold starts_with. apply bool_decide_eq_true. eexists. apply strip_prefix_Some.
  rewrite <- !app_assoc. done.
Qed.
End Obtained.

(** ** Properties *)

(** The entries of the cache root that a connect may change. *)
Definition cache_entry {O : Outside} (x : text) : Prop :=
  x ∈ [CUA_COMPONENT; BRIDGE_COMPONENT; BUNDLES_DIR; DOWNLOADS_DIR; RESOLVED_FILE] \/ exists k, x = tmp_name pid (entropy k).

(** C22: a connect is served only a whole bundle: whatever the network answers
    and the cache holds, when [prepare] succeeds, the directory it names is the
    bundle of that id: a valid manifest with the id, a bridge and an archive
    that hash to what the manifest says.  Failures of the disk do not change
    this for a connect that downloads nothing; one that downloads is taken on a
    disk without failures (the code trusts an entry of the cache that appears
    where its own download was to go, whatever that entry hashes to).
    [bundle_path] and the cache are apart. *)
Theorem prepared_bundle_is_whole {V} {HV : Semver V} {HR : Serde Resolved} {HM : Serde BundleManifest} {O : Outside}
    {HL : ManifestLaws} (self : Acquirer) request bundle_path w w' p :
  match bundle_path with Some dir => apart self dir | None => True end ->
  prepare self request bundle_path w = (w', Ok p) ->
  wd_asked w' = wd_asked w \/ io_faults (wd_io w) = [] ->
  pb_dir p = bundle_dir (aq_root self) (pb_bundle_id p)
  /\ exists m, serves (io_fs (wd_io w')) (pb_dir p) (pb_bundle_id p) m.
Proof. intros. by eapply prepare_ok. Qed.

(** C23: what a connect costs and where it writes: it asks the network at most
    twelve times, and never when [CuaAutoDownload] is no; whatever fails, only
    entries of the cache change, never [bundle_path] or anything else. *)
Theorem prepare_is_bounded {V} {HV : Semver V} {HR : Serde Resolved} {HM : Serde BundleManifest} {O : Outside}
    (self : Acquirer) request bundle_path w :
  let w' := fst (prepare self request bundle_path w) in
  (exists asked, (length asked <= if br_auto_download request then 12 else 0)%nat /\ wd_asked w' = asked ++ wd_asked w)
  /\ forall q, ~ region self cache_entry q -> io_fs (wd_io w') q = io_fs (wd_io w) q.
Proof.
  assert (Hin : forall x, x ∈ [CUA_COMPONENT; BRIDGE_COMPONENT; BUNDLES_DIR; DOWNLOADS_DIR; RESOLVED_FILE] -> cache_entry x)
    by (intros; by left).
  assert (Htmp : forall k, cache_entry (tmp_name pid (entropy k))) by (intros k; right; by exists k).
  assert (Ht : tame (region self cache_entry) (if br_auto_download request then 12 else 0)
    (prepare self request bundle_path)).
  { unfold prepare. apply tame_bind0; [destruct bundle_path; [apply tame_scan_local|tame0]|intros local].
    eapply tame_more; [|instantiate (1 := ((if br_auto_download request then 5 else 0) + (if br_auto_download request then 7 else 0))%nat);
      by destruct (br_auto_download request)].
    apply tame_bind; [apply tame_cua; first [done|apply Hin; set_solver]|intros c].
    apply tame_bind_last; [apply tame_bridge; first [done|apply Hin; set_solver]|intros b].
    apply tame_bind0; [apply tame_assemble, Hin; set_solver|intros [dir id]]. tame0. }
  destruct (Ht w) as ((Ha & _) & _ & Hf). split; [exact Ha|exact Hf].
Qed.

(** The request for the checksums of the daemon's own bridge release. *)
Definition own_sums_url (self : Acquirer) : text :=
  asset_url (aq_endpoints self) RELEASE_REPO (release_tag (aq_version self)) SHA256SUMS_ASSET.

(** A network failure never picks another bridge: when [bundle_path] has
    no bridge, one of another version is used only if downloads are allowed
    and the release list's host answered that the daemon's own release does
    not exist, and then the user is told. *)
Theorem other_bridge_needs_a_404 {V} {HV : Semver V} {HR : Serde Resolved} {O : Outside}
    (self : Acquirer) request (local : Local V) w w' o :
  bridge self request local w = (w', Ok o) -> lo_bridge local = None -> ob_version o <> aq_version self ->
  br_auto_download request = true
  /\ (own_sums_url self ∈ wd_asked w' /\ exists n link chunks, web n (own_sums_url self) = Response 404 link chunks)
  /\ exists note, note ∈ wd_warnings w'
       /\ starts_with (txt "rdpilot-bridge " ++ ob_version o ++ txt " differs from rdpilot-daemon " ++ aq_version self) note = true.
Proof.
  intros H Hl Hv. unfold bridge in H. rewrite Hl in H. apply abind_ok in H as (w1 & found & Hf & H).
  destruct found as [o'|]; [by apply aret_ok in H as [-> _]; apply cached_bridge_version in Hf|].
  destruct (br_auto_download request); [|done]. cbn [negb] in H. split; [done|].
  apply abind_ok in H as (w2 & fetched & Hb%asee_ok & H). destruct fetched as [o'|[|cause]]; [| |done].
  { by apply aret_ok in H as [-> _]; apply fetch_bridge_version in Hb. }
  apply fetch_bridge_missing in Hb as [Hin Hweb]. split; [split; [|done]|by eapply other_bridge_tells].
  destruct (tame_other_bridge self anywhere I I (fun _ => I) (br_arch request) I w2) as (((l & _ & Ha) & _) & _).
  rewrite H in Ha. cbn in Ha. rewrite Ha. apply elem_of_app. by right.
Qed.

Module BundleDemo.

Definition digest (c : bytes) : bytes := replicate 32 (N.of_nat (length c) mod 256)%N.
Definition sum (c : bytes) : text := hex (digest c).

Definition row (c : bytes) (asset : text) : bytes := utf8 (sum c ++ txt "  " ++ asset ++ [10%N]).

Definition archive_asset : text := txt "cua-driver-rs-xx-windows-x86_64-binary.zip".

(** Upstream has the driver [xx]; rdpilot has one release, [vxx]. *)
Definition web (_ : nat) (url : text) : Answer :=
  if decide (url = asset_url github CUA_REPO (txt "cua-driver-rs-vxx") CHECKSUMS_ASSET)
  then Response 200 None [Ok (row [1; 2; 3]%N archive_asset)]
  else if decide (url = asset_url github CUA_REPO (txt "cua-driver-rs-vxx") archive_asset)
  then Response 200 None [Ok [1; 2]%N; Ok [3]%N]
  else if decide (url = asset_url github RELEASE_REPO (txt "vxx") SHA256SUMS_ASSET)
  then Response 200 None [Ok (row [77; 90]%N BRIDGE_EXE_NAME)]
  else if decide (url = asset_url github RELEASE_REPO (txt "vxx") BRIDGE_EXE_NAME)
  then Response 200 None [Ok [77; 90]%N]
  else if decide (url = releases_url github RELEASE_REPO) then Response 200 None [Ok [91; 93]%N]
  else Response 404 None [].

Definition rdpilot_release : ApiRelease := {|
  ar_tag_name := txt "vxx"; ar_draft := false; ar_prerelease := false; ar_assets := [BRIDGE_EXE_NAME; SHA256SUMS_ASSET] |}.

#[global] Instance outside : Outside := {|
  Bundles.digest := digest;
  listing _ _ := [];
  zip_archive _ := Ok [Ok {| ze_name := Some CUA_DRIVER_EXE_NAME; ze_dir := false; ze_symlink := false; ze_content := Ok [5]%N |}];
  debug_str t := t; show_manifest_error _ := []; show_io _ := []; show_path _ := []; show_status _ := [];
  parse_releases _ := Ok [rdpilot_release];
  Bundles.web := web;
  pid := 7; entropy n := [N.of_nat n]; clock _ := 0%Z |}.

Definition request : BundleRequest := {|
  br_cua_version := txt "cua-driver-rs-vxx"; br_auto_download := true; br_arch := X86_64 |}.

Definition self (version : text) : Acquirer := {|
  aq_endpoints := github; aq_root := [txt "cache"]; aq_version := version; aq_ttl := RESOLVED_TTL |}.

Definition obtained (p : path) (c : bytes) (version : text) : Obtained := {| ob_path := p; ob_sha256 := sum c; ob_version := version |}.

Definition manifest : BundleManifest := {|
  bm_bundle_id := bundle_id_of (obtained [] [1; 2; 3]%N (txt "xx")) (obtained [] [77; 90]%N []);
  bm_cua_version := txt "xx"; bm_archive_name := archive_asset; bm_archive_sha256 := sum [1; 2; 3]%N;
  bm_bridge_sha256 := sum [77; 90]%N; bm_files := [(CUA_DRIVER_EXE_NAME, sum [5]%N)] |}.

#[global] Instance manifest_serde : Serde BundleManifest := {|
  to_vec m := if decide (m = manifest) then Ok [123; 125]%N else Err [];
  from_slice c := if decide (c = [123; 125]%N) then Ok manifest else Err [] |}.

#[global] Instance manifest_laws : ManifestLaws.
Proof.
  constructor.
  - intros c m. cbn. destruct (decide _); [|done]. intros [= <-]. by vm_compute; repeat constructor; set_solver.
  - intros m c. cbn. destruct (decide (m = manifest)) as [->|]; [|done]. by intros [= <-].
Qed.

#[global] Instance resolved_serde : Serde Resolved := {| to_vec _ := Err []; from_slice _ := Err [] |}.

Definition start : World := {|
  wd_io := {| io_fs := fun _ => None; io_faults := [] |}; wd_asked := []; wd_ticks := 0; wd_warnings := [] |}.

(** The first connect of a daemon that has its release. *)
Definition run : World * result BundleError PreparedBundle := prepare (V := nat) (self (txt "xx")) request None start.

Definition prepared : PreparedBundle := {|
  pb_dir := [txt "cache"; BUNDLES_DIR; bm_bundle_id manifest]; pb_bundle_id := bm_bundle_id manifest; pb_warnings := [] |}.

Lemma run_prepared : snd run = Ok prepared.
Proof. by vm_compute. Qed.

(** A development build. *)
Definition dev_run : World * result BundleError Obtained :=
  bridge (V := nat) (self (txt "xxxx")) request {| lo_bridge := None; lo_cua := None |} start.

End BundleDemo.

Lemma prepared_bundle_is_whole_witness :
  exists m, serves (io_fs (wd_io (fst BundleDemo.run))) (pb_dir BundleDemo.prepared) (pb_bundle_id BundleDemo.prepared) m.
Proof.
  apply (prepared_bundle_is_whole (V := nat) (HM := BundleDemo.manifest_serde) (BundleDemo.self (txt "xx")) BundleDemo.request None BundleDemo.start
    (fst BundleDemo.run) BundleDemo.prepared); [done| |by right].
  rewrite <- BundleDemo.run_prepared. unfold BundleDemo.run. apply surjective_pairing.
Defined.

Lemma prepare_is_bounded_witness : io_fs (wd_io (fst BundleDemo.run)) [txt "home"] = None.
Proof.
  destruct (prepare_is_bounded (V := nat) (BundleDemo.self (txt "xx")) BundleDemo.request None BundleDemo.start) as [_ Hf].
  apply (Hf [txt "home"]). intros [[k Hk]|(x & rest & He & _)]; [|by vm_compute in He].
  by destruct k as [|? [|? ?]]; vm_compute in Hk.
Defined.

Lemma other_bridge_needs_a_404_witness :
  exists note, note ∈ wd_warnings (fst BundleDemo.dev_run)
    /\ starts_with (txt "rdpilot-bridge xx differs from rdpilot-daemon xxxx") note = true.
Proof.
  assert (exists o, BundleDemo.dev_run = (fst BundleDemo.dev_run, Ok o) /\ ob_version o = txt "xx") as (o & Hr & Hv).
  { destruct (snd BundleDemo.dev_run) as [o|] eqn:E; [|by vm_compute in E].
    exists o. split; [rewrite <- E; apply surjective_pairing|].
    assert (match snd BundleDemo.dev_run with Ok o => ob_version o | Err _ => [] end = txt "xx") as Hv by (by vm_compute).
    by rewrite E in Hv. }
  destruct (other_bridge_needs_a_404 (V := nat) (BundleDemo.self (txt "xxxx")) BundleDemo.request
    {| lo_bridge := None; lo_cua := None |} BundleDemo.start (fst BundleDemo.dev_run) o Hr eq_refl) as (_ & _ & Hn).
  - rewrite Hv. discriminate.
  - by rewrite Hv in Hn.
Defined.
