(* ===== verification/TransferQueue.v ===== *)
(** * The transfer queue of a session ([crates/rdpilot-daemon/src/transfer.rs])

    A queue with its worker task, its callers and the blocking threads as a
    transition system: [queue_step] has one rule per poll of one of them.  A [select!]
    that is biased looks at its branches in order; a poll that saw no stop is
    [Selected true], so a cancel may come between the look and the work. *)
From S2P Require Import Prelude.
Open Scope nat_scope.

Definition TRANSFER_QUEUE_BOUND : nat := 8.
#[global] Arguments TRANSFER_QUEUE_BOUND : simpl never.

Section Queue.
(** What an operation answers; its errors are among them. *)
Context {T : Type}.

Inductive Answer := Answered (result : T) | SessionClosed | SessionNotFound.

(** [TransferHandle::run] of one caller. *)
Inductive Caller :=
| Sending                    (** in [tx.send(job)] *)
| Waiting                    (** for [reply_rx] *)
| Returned (a : Answer)
| Left.                      (** its future was dropped *)

(** The reply channel of a job: [reply_tx] goes with the job. *)
Inductive Reply := Pending | Sent (result : T) | Dropped.

(** Where the [Job] is. *)
Inductive Place :=
| WithCaller
| Queued
| Taken                            (** by the worker, before its look at [abandoned] *)
| Selected (open started : bool)   (** its [run] is a branch of a [select!] *)
| Finished.                        (** [run] ended or was dropped *)

Record Job := { jb_blocking : bool; jb_caller : Caller; jb_reply : Reply; jb_place : Place }.

(** [work]: the loop. *)
Inductive Worker :=
| WReady                     (** at the first [select!] *)
| WOpen                      (** it saw no stop; [rx.recv] is next *)
| WGot (id : N)
| WRun (id : N)              (** at the second [select!] *)
| WEnding                    (** out of the loop *)
| WEnded.                    (** [rx] closed and drained *)

#[global] Instance Place_eq_dec : EqDecision Place.
Proof. solve_decision. Defined.
#[global] Instance Worker_eq_dec : EqDecision Worker.
Proof. solve_decision. Defined.

(** [tq_sent], [tq_popped] and [tq_starts] are histories: the jobs sent, taken
    by the worker, and those whose operation was begun. *)
Record World := {
  tq_jobs : gmap N Job; tq_queue : list N; tq_worker : Worker;
  tq_cancelled : bool; tq_dropped : bool; tq_closed : bool;
  tq_sent : list N; tq_popped : list N; tq_starts : list N }.

(** [TransferQueue::start] *)
Definition world_init : World := {|
  tq_jobs := ∅; tq_queue := []; tq_worker := WReady; tq_cancelled := false; tq_dropped := false;
  tq_closed := false; tq_sent := []; tq_popped := []; tq_starts := [] |}.

(** ** Updates *)

Definition with_jobs (m : gmap N Job) (w : World) : World :=
  {| tq_jobs := m; tq_queue := tq_queue w; tq_worker := tq_worker w; tq_cancelled := tq_cancelled w;
     tq_dropped := tq_dropped w; tq_closed := tq_closed w;
     tq_sent := tq_sent w; tq_popped := tq_popped w; tq_starts := tq_starts w |}.
Definition with_worker (k : Worker) (w : World) : World :=
  {| tq_jobs := tq_jobs w; tq_queue := tq_queue w; tq_worker := k; tq_cancelled := tq_cancelled w;
     tq_dropped := tq_dropped w; tq_closed := tq_closed w;
     tq_sent := tq_sent w; tq_popped := tq_popped w; tq_starts := tq_starts w |}.
Definition with_stop (cancelled dropped : bool) (w : World) : World :=
  {| tq_jobs := tq_jobs w; tq_queue := tq_queue w; tq_worker := tq_worker w; tq_cancelled := cancelled;
     tq_dropped := dropped; tq_closed := tq_closed w;
     tq_sent := tq_sent w; tq_popped := tq_popped w; tq_starts := tq_starts w |}.
Definition push_queue (id : N) (w : World) : World :=
  {| tq_jobs := tq_jobs w; tq_queue := tq_queue w ++ [id]; tq_worker := tq_worker w;
     tq_cancelled := tq_cancelled w; tq_dropped := tq_dropped w; tq_closed := tq_closed w;
     tq_sent := tq_sent w ++ [id]; tq_popped := tq_popped w; tq_starts := tq_starts w |}.
Definition pop_queue (id : N) (q : list N) (w : World) : World :=
  {| tq_jobs := tq_jobs w; tq_queue := q; tq_worker := tq_worker w;
     tq_cancelled := tq_cancelled w; tq_dropped := tq_dropped w; tq_closed := tq_closed w;
     tq_sent := tq_sent w; tq_popped := tq_popped w ++ [id]; tq_starts := tq_starts w |}.
Definition note_start (id : N) (started : bool) (w : World) : World :=
  {| tq_jobs := tq_jobs w; tq_queue := tq_queue w; tq_worker := tq_worker w;
     tq_cancelled := tq_cancelled w; tq_dropped := tq_dropped w; tq_closed := tq_closed w;
     tq_sent := tq_sent w; tq_popped := tq_popped w;
     tq_starts := if started then tq_starts w else tq_starts w ++ [id] |}.

Definition set_caller (c : Caller) (j : Job) : Job :=
  {| jb_blocking := jb_blocking j; jb_caller := c; jb_reply := jb_reply j; jb_place := jb_place j |}.
Definition set_place (p : Place) (j : Job) : Job :=
  {| jb_blocking := jb_blocking j; jb_caller := jb_caller j; jb_reply := jb_reply j; jb_place := p |}.
(** The job is gone, and with it [reply_tx]. *)
Definition drop_job (j : Job) : Job :=
  {| jb_blocking := jb_blocking j; jb_caller := jb_caller j; jb_reply := Dropped; jb_place := Finished |}.
Definition finish_job (r : T) (j : Job) : Job :=
  {| jb_blocking := jb_blocking j; jb_caller := jb_caller j; jb_reply := Sent r; jb_place := Finished |}.

Definition put (id : N) (j : Job) (w : World) : World := with_jobs (<[id := j]> (tq_jobs w)) w.

(** The caller leaves [run]; a job it still holds goes with it. *)
Definition release (c : Caller) (j : Job) : Job :=
  match jb_place j with WithCaller => set_caller c (drop_job j) | _ => set_caller c j end.

Definition stopped (w : World) : bool := tq_cancelled w || tq_dropped w.
(** [_present] lives as long as the caller is in [run]. *)
Definition abandoned (j : Job) : bool := match jb_caller j with Sending | Waiting => false | _ => true end.

(** The jobs that are dropped by some event. *)
Definition drop_where (p : N -> Job -> bool) (m : gmap N Job) : gmap N Job :=
  map_imap (fun id j => Some (if p id j then drop_job j else j)) m.

Definition queued (j : Job) : bool := match jb_place j with Queued => true | _ => false end.

Definition end_worker (p : N -> Job -> bool) (w : World) : World :=
  {| tq_jobs := drop_where p (tq_jobs w);
     tq_queue := []; tq_worker := WEnded; tq_cancelled := tq_cancelled w; tq_dropped := tq_dropped w;
     tq_closed := true; tq_sent := tq_sent w; tq_popped := tq_popped w; tq_starts := tq_starts w |}.

(** [rx.close()], and the jobs in the channel are dropped. *)
Definition close_queue (w : World) : World := end_worker (fun _ j => queued j) w.

(** A job held by the worker task itself. *)
Definition worker_holds (w : World) (id : N) (j : Job) : bool :=
  match tq_worker w with
  | WGot i => (i =? id)%N
  | WRun i => (i =? id)%N && negb (jb_blocking j)
  | _ => false
  end.

(** The worker task is dropped, as the runtime shuts down. *)
Definition kill_worker (w : World) : World := end_worker (fun id j => queued j || worker_holds w id j) w.

Inductive queue_step (w : World) : World -> Prop :=
| step_call id blocking :
    tq_jobs w !! id = None ->
    queue_step w (put id {| jb_blocking := blocking; jb_caller := Sending; jb_reply := Pending; jb_place := WithCaller |} w)
| step_cancel : queue_step w (with_stop true (tq_dropped w) w)
| step_drop : queue_step w (with_stop (tq_cancelled w) true w)
(* a caller *)
| step_caller_cancelled id j :
    tq_jobs w !! id = Some j -> abandoned j = false -> tq_cancelled w = true ->
    queue_step w (put id (release (Returned SessionClosed) j) w)
| step_send id j :
    tq_jobs w !! id = Some j -> jb_caller j = Sending -> tq_closed w = false ->
    length (tq_queue w) < TRANSFER_QUEUE_BOUND ->
    queue_step w (put id (set_place Queued (set_caller Waiting j)) (push_queue id w))
| step_send_refused id j :
    tq_jobs w !! id = Some j -> jb_caller j = Sending -> tq_closed w = true ->
    queue_step w (put id (release (Returned SessionClosed) j) w)
| step_reply id j r :
    tq_jobs w !! id = Some j -> jb_caller j = Waiting -> jb_reply j = Sent r ->
    queue_step w (put id (set_caller (Returned (Answered r)) j) w)
| step_reply_dropped id j :
    tq_jobs w !! id = Some j -> jb_caller j = Waiting -> jb_reply j = Dropped ->
    queue_step w (put id (set_caller (Returned (if tq_cancelled w then SessionClosed else SessionNotFound)) j) w)
| step_leave id j :
    tq_jobs w !! id = Some j -> abandoned j = false -> queue_step w (put id (release Left j) w)
(* the worker *)
| step_open : tq_worker w = WReady -> stopped w = false -> queue_step w (with_worker WOpen w)
| step_stop : tq_worker w = WReady -> stopped w = true -> queue_step w (with_worker WEnding w)
| step_empty : tq_worker w = WOpen -> tq_queue w = [] -> queue_step w (with_worker WReady w)
| step_no_sender : tq_worker w = WOpen -> tq_queue w = [] -> tq_dropped w = true -> queue_step w (with_worker WEnding w)
| step_take id j q :
    tq_worker w = WOpen -> tq_queue w = id :: q -> tq_jobs w !! id = Some j ->
    queue_step w (with_worker (WGot id) (put id (set_place Taken j) (pop_queue id q w)))
| step_skip id j :
    tq_worker w = WGot id -> tq_jobs w !! id = Some j -> abandoned j = true ->
    queue_step w (with_worker WReady (put id (drop_job j) w))
| step_start id j :
    tq_worker w = WGot id -> tq_jobs w !! id = Some j -> abandoned j = false ->
    queue_step w (with_worker (WRun id) (put id (set_place (Selected false false) j) w))
| step_joined id j :
    tq_worker w = WRun id -> tq_jobs w !! id = Some j -> jb_blocking j = true -> jb_place j = Finished ->
    queue_step w (with_worker WReady w)
| step_break id j :
    tq_worker w = WRun id -> tq_jobs w !! id = Some j -> jb_blocking j = true -> stopped w = true ->
    queue_step w (with_worker WEnding w)
| step_close : tq_worker w = WEnding -> queue_step w (close_queue w)
| step_kill : tq_worker w <> WEnded -> queue_step w (kill_worker w)
(* the [select!] around the operation, on the worker task or on the thread *)
| step_poll id j st :
    tq_jobs w !! id = Some j -> jb_place j = Selected false st -> stopped w = false -> abandoned j = false ->
    tq_worker w = WRun id ->
    queue_step w (put id (set_place (Selected true st) j) w)
| step_run id j st :
    tq_jobs w !! id = Some j -> jb_place j = Selected true st ->
    queue_step w (note_start id st (put id (set_place (Selected false true) j) w))
| step_done id j st r :
    tq_jobs w !! id = Some j -> jb_place j = Selected true st ->
    queue_step w (note_start id st (put id (finish_job r j)
      (if jb_blocking j then w else with_worker WReady w)))
| step_gone id j st :
    tq_jobs w !! id = Some j -> jb_place j = Selected false st ->
    stopped w || abandoned j || (jb_blocking j && negb (bool_decide (tq_worker w = WRun id))) = true ->
    queue_step w (put id (drop_job j)
      (if jb_blocking j then w else with_worker (if stopped w then WEnding else WReady) w))
| step_no_runtime id j :
    tq_jobs w !! id = Some j -> jb_place j = Selected false false -> jb_blocking j = true ->
    queue_step w (put id (drop_job j) w).

Inductive steps : World -> World -> Prop :=
| steps_refl w : steps w w
| steps_next w1 w2 w3 : steps w1 w2 -> queue_step w2 w3 -> steps w1 w3.

(** ** The invariant *)

Definition held (j : Job) : bool := match jb_place j with Taken | Selected _ _ => true | _ => false end.

(** [id] was the last job taken and was not begun. *)
Definition unbegun (w : World) (id : N) : Prop :=
  exists before, tq_popped w = before ++ [id] /\ tq_starts w `sublist_of` before.

Definition place_ok (w : World) (id : N) (j : Job) : Prop :=
  match jb_place j with
  | Taken => tq_worker w = WGot id /\ unbegun w id
  | Selected _ st =>
      (tq_worker w = WRun id \/ (jb_blocking j = true /\ (tq_worker w = WEnding \/ tq_worker w = WEnded))) /\
      (st = false -> unbegun w id)
  | _ => True
  end.

Record job_ok (w : World) (id : N) (j : Job) : Prop := {
  jo_sending : jb_caller j = Sending <-> jb_place j = WithCaller;
  jo_reply : jb_reply j = Pending <-> jb_place j <> Finished;
  jo_queued : jb_place j = Queued <-> id ∈ tq_queue w;
  jo_place : place_ok w id j;
}.

Definition worker_ok (w : World) : Prop :=
  match tq_worker w with
  | WGot id => exists j, tq_jobs w !! id = Some j /\ jb_place j = Taken
  | WRun id => exists j, tq_jobs w !! id = Some j /\
      (held j = true \/ (jb_blocking j = true /\ jb_place j = Finished))
  | WEnded => tq_queue w = []
  | _ => True
  end.

Record inv (w : World) : Prop := {
  i_jobs : map_Forall (job_ok w) (tq_jobs w);
  i_one : forall i ji k jk, tq_jobs w !! i = Some ji -> tq_jobs w !! k = Some jk -> held ji -> held jk -> i = k;
  i_worker : worker_ok w;
  i_closed : tq_closed w = true <-> tq_worker w = WEnded;
  i_bound : length (tq_queue w) <= TRANSFER_QUEUE_BOUND;
  i_order : tq_popped w ++ tq_queue w `prefix_of` tq_sent w;
  i_open : tq_closed w = false -> tq_sent w = tq_popped w ++ tq_queue w;
  i_starts : tq_starts w `sublist_of` tq_popped w;
  i_sent : NoDup (tq_sent w);
  i_known : forall id, id ∈ tq_sent w -> exists j, tq_jobs w !! id = Some j /\ jb_place j <> WithCaller;
}.

Lemma inv_world_init : inv world_init.
Proof. split; try done; cbn; [lia|apply NoDup_nil_2|by intros id ?%elem_of_nil]. Qed.

(** A change of one job that is not in the worker's hands, before and after. *)
Lemma inv_put w id j j' :
  inv w -> tq_jobs w !! id = Some j -> job_ok w id j' -> jb_blocking j' = jb_blocking j ->
  (held j' -> held j) -> (jb_place j <> WithCaller -> jb_place j' <> WithCaller) ->
  (tq_worker w = WGot id -> jb_place j' = Taken) ->
  (tq_worker w = WRun id -> held j' = true \/ jb_blocking j = true /\ jb_place j' = Finished) ->
  inv (put id j' w).
Proof.
  intros Hw Hj Hok Hb Hh Hwc Hgot Hrun. destruct Hw. split; try done; cbn.
  - apply map_Forall_insert_2; [by destruct Hok|]. eapply map_Forall_impl; [done|]. by intros i x [].
  - intros a ja b jb Ha Hb' Hha Hhb. apply lookup_insert_Some in Ha as [[<- <-]|[? Ha]], Hb' as [[<- <-]|[? Hb']];
      eauto.
  - unfold worker_ok in *. cbn. destruct (tq_worker w) as [| |i|i| |]; try done.
    + destruct (decide (i = id)) as [->|Hne]; [exists j'; rewrite lookup_insert_eq; auto|].
      by rewrite lookup_insert_ne.
    + destruct (decide (i = id)) as [->|Hne]; [|by rewrite lookup_insert_ne].
      exists j'. rewrite lookup_insert_eq, Hb. auto.
  - intros i Hi. destruct (i_known0 i Hi) as (x & Hx & Hpx). destruct (decide (i = id)) as [->|Hne].
    + exists j'. rewrite lookup_insert_eq. split; [done|]. apply Hwc. congruence.
    + exists x. by rewrite lookup_insert_ne.
Qed.

(** Whose job is in the worker's hands. *)
Lemma hands w i j : inv w -> tq_jobs w !! i = Some j -> held j ->
  match tq_worker w with
  | WReady | WOpen => False
  | WGot id | WRun id => i = id
  | WEnding | WEnded => jb_blocking j = true
  end.
Proof.
  intros Hw Hj Hh. pose proof (jo_place w i j (i_jobs w Hw i j Hj)) as Hp. unfold place_ok, held in *.
  destruct (jb_place j); try done.
  - destruct Hp as [-> _]. done.
  - destruct Hp as [[->|[? [->| ->]]] _]; done.
Qed.

Lemma got_place w id j : inv w -> tq_worker w = WGot id -> tq_jobs w !! id = Some j -> jb_place j = Taken.
Proof.
  intros Hw Hk Hj. pose proof (i_worker w Hw) as Ho. unfold worker_ok in Ho. rewrite Hk in Ho.
  destruct Ho as (x & Hx & Hp). congruence.
Qed.

Lemma run_place w id j : inv w -> tq_worker w = WRun id -> tq_jobs w !! id = Some j ->
  held j = true \/ jb_blocking j = true /\ jb_place j = Finished.
Proof.
  intros Hw Hk Hj. pose proof (i_worker w Hw) as Ho. unfold worker_ok in Ho. rewrite Hk in Ho.
  destruct Ho as (x & Hx & Hp). rewrite Hj in Hx. by injection Hx as <-.
Qed.

(** One job and the worker change; no other job is in its hands. *)
Definition hand (id : N) (j : Job) (k : Worker) (starts : list N) (w : World) : World :=
  {| tq_jobs := <[id := j]> (tq_jobs w); tq_queue := tq_queue w; tq_worker := k; tq_cancelled := tq_cancelled w;
     tq_dropped := tq_dropped w; tq_closed := tq_closed w;
     tq_sent := tq_sent w; tq_popped := tq_popped w; tq_starts := starts |}.

Lemma inv_hand w id j j' k starts :
  inv w -> tq_jobs w !! id = Some j ->
  (forall i ji, i <> id -> tq_jobs w !! i = Some ji -> held ji = false) ->
  (jb_place j <> WithCaller -> jb_place j' <> WithCaller) -> (k = WEnded <-> tq_worker w = WEnded) ->
  starts `sublist_of` tq_popped w ->
  job_ok (hand id j' k starts w) id j' -> worker_ok (hand id j' k starts w) ->
  inv (hand id j' k starts w).
Proof.
  intros Hw Hj Hfree Hwc Hk Hs Hok Hwk. destruct Hw. split; try done; cbn.
  - intros i x [[<- <-]|[Hne Hx]]%lookup_insert_Some; [done|]. pose proof (Hfree i x ltac:(done) Hx) as Hf.
    destruct (i_jobs0 i x Hx). split; [done..|]. unfold place_ok, held in *. by destruct (jb_place x).
  - intros a ja b jb Ha Hb Hha Hhb.
    apply lookup_insert_Some in Ha as [[<- <-]|[Hna Ha]], Hb as [[<- <-]|[Hnb Hb]]; [done| | |by eapply i_one0].
    + by rewrite (Hfree b jb) in Hhb.
    + by rewrite (Hfree a ja) in Hha.
  - by rewrite Hk.
  - intros i Hi. destruct (i_known0 i Hi) as (x & Hx & Hpx). destruct (decide (i = id)) as [->|Hne].
    + exists j'. rewrite lookup_insert_eq. split; [done|]. apply Hwc. congruence.
    + exists x. by rewrite lookup_insert_ne.
Qed.

Lemma inv_idle w k :
  inv w -> tq_worker w = WReady \/ tq_worker w = WOpen -> k = WReady \/ k = WOpen \/ k = WEnding ->
  inv (with_worker k w).
Proof.
  intros Hw Hwk Hk. pose proof (hands w) as Hh. destruct Hw. split; try done; cbn.
  - intros i x Hx. destruct (i_jobs0 i x Hx). split; [done..|]. unfold place_ok.
    specialize (Hh i x ltac:(done) Hx). unfold held in Hh.
    destruct (jb_place x); try done; destruct Hwk as [Hwk|Hwk]; rewrite Hwk in Hh; destruct Hh; done.
  - unfold worker_ok. cbn. by destruct Hk as [->|[->| ->]].
  - rewrite i_closed0. destruct Hwk as [->| ->], Hk as [->|[->| ->]]; done.
Qed.

Lemma others_free w id i ji : inv w -> tq_worker w = WGot id \/ tq_worker w = WRun id ->
  i <> id -> tq_jobs w !! i = Some ji -> held ji = false.
Proof.
  intros Hw Hk Hne Hj. destruct (held ji) eqn:Hh; [|done]. pose proof (hands w i ji Hw Hj) as Hx.
  rewrite Hh in Hx. destruct Hk as [Hk|Hk]; rewrite Hk in Hx; by destruct Hne; apply Hx.
Qed.

Lemma only_held w id j i ji : inv w -> tq_jobs w !! id = Some j -> held j ->
  i <> id -> tq_jobs w !! i = Some ji -> held ji = false.
Proof.
  intros Hw Hj Hh Hne Hi. destruct (held ji) eqn:E; [|done]. destruct Hne. eapply (i_one w Hw); try done. by rewrite E.
Qed.

(** The caller's side: the job stays where it is, or goes with its caller. *)
Lemma inv_caller w id j c :
  inv w -> tq_jobs w !! id = Some j -> c <> Sending ->
  inv (put id (release c j) w).
Proof.
  intros Hw Hj Hc. pose proof (i_jobs w Hw id j Hj) as [Hse Hre Hqu Hpl].
  pose proof (fun Hk => got_place w id j Hw Hk Hj) as Hgot.
  pose proof (fun Hk => run_place w id j Hw Hk Hj) as Hrun.
  unfold release. destruct (decide (jb_place j = WithCaller)) as [E|E].
  - rewrite E. eapply inv_put; try done; cbn.
    + split; cbn; try done. rewrite <- Hqu, E. done.
    + intros Hk. apply Hgot in Hk. congruence.
    + intros Hk. apply Hrun in Hk. unfold held in Hk. rewrite E in Hk. naive_solver.
  - replace (match jb_place j with WithCaller => _ | _ => _ end) with (set_caller c j) by (by destruct (jb_place j)).
    by eapply inv_put.
Qed.

Lemma unbegun_sublist w id : unbegun w id -> tq_starts w ++ [id] `sublist_of` tq_popped w.
Proof. intros (before & -> & Hs). by apply sublist_app. Qed.

(** The job in a [select!]: it is polled, ends or is dropped. *)
Lemma inv_selected w id j j' open st k starts :
  inv w -> tq_jobs w !! id = Some j -> jb_place j = Selected open st ->
  jb_blocking j' = jb_blocking j -> jb_caller j' = jb_caller j ->
  (jb_reply j' = Pending <-> jb_place j' <> Finished) ->
  (exists o s, jb_place j' = Selected o s /\ (s = false -> st = false /\ starts = tq_starts w)) \/ jb_place j' = Finished ->
  (k = tq_worker w /\ (jb_place j' = Finished -> tq_worker w = WRun id -> jb_blocking j = true)) \/
  (jb_place j' = Finished /\ jb_blocking j = false /\ (k = WReady \/ k = WEnding)) ->
  starts = tq_starts w \/ (st = false /\ starts = tq_starts w ++ [id]) ->
  inv (hand id j' k starts w).
Proof.
  intros Hw Hj Hp Hb Hc Hr Hplace Hk Hst.
  assert (held j) as Hheld by (unfold held; by rewrite Hp).
  pose proof (i_jobs w Hw id j Hj) as [Hse Hre Hqu Hpl]. unfold place_ok in Hpl. rewrite Hp in Hse, Hre, Hqu, Hpl.
  destruct Hpl as [Hwk Hun].
  eapply inv_hand; try done.
  - intros i ji. by eapply only_held.
  - intros _. destruct Hplace as [(o & s & -> & _)| ->]; done.
  - destruct Hk as [[-> _]|(_ & Hnb & Hk)]; [done|].
    destruct Hwk as [->|[? _]]; [by destruct Hk as [->| ->]|congruence].
  - destruct Hst as [->|[-> ->]]; [apply Hw|]. by apply unbegun_sublist, Hun.
  - split; cbn.
    + rewrite Hc, Hse. destruct Hplace as [(o & s & -> & _)| ->]; done.
    + done.
    + rewrite <- Hqu. destruct Hplace as [(o & s & -> & _)| ->]; done.
    + unfold place_ok. destruct Hplace as [(o & s & Ho & Hs)|Ho]; rewrite Ho; [|done]. cbn. split.
      * destruct Hk as [[-> _]|[? _]]; [by rewrite Hb|congruence].
      * intros Hs'. destruct (Hs Hs') as [-> ->]. by apply Hun.
  - unfold worker_ok. cbn. destruct Hk as [[-> Hfin]|(_ & _ & [->| ->])]; [|done..].
    pose proof (i_worker w Hw) as Ho. unfold worker_ok in Ho. destruct Hwk as [Hwk|[_ [Hwk|Hwk]]]; rewrite Hwk in *.
    + exists j'. rewrite lookup_insert_eq. split; [done|]. unfold held.
      destruct Hplace as [(o & s & -> & _)|Hf]; [by left|]. right. rewrite Hb. auto.
    + done.
    + done.
Qed.

Lemma lookup_drop_where p m i : drop_where p m !! i = (fun j => if p i j then drop_job j else j) <$> m !! i.
Proof. unfold drop_where. rewrite map_lookup_imap. by destruct (m !! i). Qed.

Lemma end_worker_ok p w :
  inv w ->
  (forall i j, tq_jobs w !! i = Some j -> p i j = true -> jb_place j <> WithCaller) ->
  (forall i j, tq_jobs w !! i = Some j -> jb_place j = Queued -> p i j = true) ->
  (forall i j, tq_jobs w !! i = Some j -> held j -> p i j = true \/ (jb_blocking j = true /\ jb_place j <> Taken)) ->
  inv (end_worker p w).
Proof.
  intros Hw Hwc Hq Hh.
  assert (forall i x, drop_where p (tq_jobs w) !! i = Some x -> exists j, tq_jobs w !! i = Some j /\
    ((p i j = true /\ x = drop_job j) \/ (p i j = false /\ x = j))) as Hl.
  { intros i x. rewrite lookup_drop_where. intros (j & -> & Hj)%fmap_Some. exists j. split; [done|].
    destruct (p i j); auto. }
  destruct Hw. split; try done; cbn.
  - intros i x (j & Hj & Hx)%Hl. destruct (i_jobs0 i j Hj) as [Hse Hre Hqu Hpl]. destruct Hx as [[Hp ->]|[Hp ->]].
    + split; cbn; try done; [|by rewrite elem_of_nil].
      rewrite Hse. split; [|done]. intros E. by destruct (Hwc i j Hj Hp).
    + split; try done; cbn.
      * split; [|by intros ?%elem_of_nil]. intros E. rewrite (Hq i j Hj E) in Hp. done.
      * pose proof (Hh i j Hj) as Hx. unfold place_ok, held in *. destruct (jb_place j); try done.
        -- destruct (Hx I) as [Hx'|[_ Hx']]; congruence.
        -- destruct (Hx I) as [Hx'|[Hx' _]]; [congruence|]. split; [right; auto|]. apply Hpl.
  - intros a ja b jb (j & Hj & Hx)%Hl (k & Hk & Hy)%Hl Ha Hb.
    destruct Hx as [[_ ->]|[_ ->]]; [done|]. destruct Hy as [[_ ->]|[_ ->]]; [done|]. by eapply i_one0.
  - lia.
  - rewrite app_nil_r. trans (tq_popped w ++ tq_queue w); [by eexists|done].
  - intros i Hi. destruct (i_known0 i Hi) as (j & Hj & Hp). rewrite lookup_drop_where, Hj. cbn.
    eexists. split; [done|]. by destruct (p i j).
Qed.

Lemma put_hand id j k w : with_worker k (put id j w) = hand id j k (tq_starts w) w.
Proof. done. Qed.

Lemma inv_stop w a b : inv w -> inv (with_stop a b w).
Proof. intros []. split; try done. eapply map_Forall_impl; [done|]. by intros i x []. Qed.

Lemma inv_call w id b :
  inv w -> tq_jobs w !! id = None ->
  inv (put id {| jb_blocking := b; jb_caller := Sending; jb_reply := Pending; jb_place := WithCaller |} w).
Proof.
  intros Hw Hn. destruct Hw. split; try done; cbn.
  - intros i x [[<- <-]|[Hne Hx]]%lookup_insert_Some.
    + split; try done. cbn. split; [done|]. intros Hi.
      destruct (i_known0 id) as (j & Hj & _); [|congruence].
      eapply elem_of_prefix; [|done]. apply elem_of_app. by right.
    + by destruct (i_jobs0 i x Hx).
  - intros i ji k jk Hi Hk Hhi Hhk.
    apply lookup_insert_Some in Hi as [[<- <-]|[? Hi]], Hk as [[<- <-]|[? Hk]]; try done. by eapply i_one0.
  - unfold worker_ok in *. cbn. destruct (tq_worker w) as [| |i|i| |]; try done;
      destruct i_worker0 as (j & Hj & Hx); exists j; rewrite lookup_insert_ne by congruence; done.
  - intros i Hi. destruct (i_known0 i Hi) as (j & Hj & Hx). exists j. by rewrite lookup_insert_ne by congruence.
Qed.

Lemma inv_send w id j :
  inv w -> tq_jobs w !! id = Some j -> jb_caller j = Sending -> tq_closed w = false ->
  length (tq_queue w) < TRANSFER_QUEUE_BOUND ->
  inv (put id (set_place Queued (set_caller Waiting j)) (push_queue id w)).
Proof.
  intros Hw Hj Hc Hcl Hlen. pose proof (i_jobs w Hw id j Hj) as [Hse Hre _ _]. apply Hse in Hc as Hp.
  assert (id ∉ tq_sent w) as Hnew by (intros Hi; destruct (i_known w Hw id Hi) as (x & Hx & Hpx); congruence).
  destruct Hw. split; try done; cbn.
  - intros i x [[<- <-]|[Hne Hx]]%lookup_insert_Some.
    + split; cbn; try done.
      * rewrite Hre, Hp. done.
      * split; [|done]. intros _. apply elem_of_app. right. by apply list_elem_of_singleton.
    + destruct (i_jobs0 i x Hx). split; try done. cbn. rewrite jo_queued0, elem_of_app, list_elem_of_singleton. naive_solver.
  - intros i ji k jk Hi Hk Hhi Hhk.
    apply lookup_insert_Some in Hi as [[<- <-]|[? Hi]], Hk as [[<- <-]|[? Hk]]; try done. by eapply i_one0.
  - unfold worker_ok in *. cbn. destruct (tq_worker w) as [| |i|i| |]; try done.
    + destruct i_worker0 as (x & Hx & Hpx). exists x. rewrite lookup_insert_ne; [done|]. congruence.
    + destruct i_worker0 as (x & Hx & Hpx). exists x. rewrite lookup_insert_ne; [done|].
      intros ->. rewrite Hj in Hx. injection Hx as <-. unfold held in Hpx. rewrite Hp in Hpx. naive_solver.
    + assert (tq_closed w = true) by by apply i_closed0. congruence.
  - rewrite length_app. cbn. lia.
  - rewrite i_open0, app_assoc by done. done.
  - intros _. by rewrite i_open0, app_assoc.
  - apply NoDup_app. split_and!; [done| |apply NoDup_singleton]. intros x Hx ->%list_elem_of_singleton. done.
  - intros i [Hi| ->%list_elem_of_singleton]%elem_of_app.
    + destruct (i_known0 i Hi) as (x & Hx & Hpx). exists x. rewrite lookup_insert_ne; [done|]. congruence.
    + eexists. by rewrite lookup_insert_eq.
Qed.

Lemma inv_took w id j q :
  inv w -> tq_worker w = WOpen -> tq_queue w = id :: q -> tq_jobs w !! id = Some j ->
  inv (with_worker (WGot id) (put id (set_place Taken j) (pop_queue id q w))).
Proof.
  intros Hw Hk Hq Hj. pose proof (i_jobs w Hw id j Hj) as [Hse Hre Hqu _].
  assert (jb_place j = Queued) as Hp by (apply Hqu; rewrite Hq; by left).
  assert (NoDup (tq_popped w ++ tq_queue w)) as Hnd.
  { destruct (i_order w Hw) as [k E]. pose proof (i_sent w Hw) as Hs. rewrite E in Hs. by apply NoDup_app in Hs as [Hs _]. }
  rewrite Hq in Hnd. apply NoDup_app in Hnd as (_ & _ & [Hnq _]%NoDup_cons).
  pose proof (hands w) as Hh. rewrite Hk in Hh.
  destruct Hw. split; try done; cbn.
  - intros i x [[<- <-]|[Hne Hx]]%lookup_insert_Some.
    + split; cbn; try done.
      * rewrite Hse, Hp. done.
      * rewrite Hre, Hp. done.
      * split; [done|]. by exists (tq_popped w).
    + destruct (i_jobs0 i x Hx). split; try done.
      * cbn. rewrite jo_queued0, Hq, elem_of_cons. naive_solver.
      * specialize (Hh i x ltac:(done) Hx). unfold place_ok, held in *.
        destruct (jb_place x); try done; by destruct Hh.
  - intros i ji k jk Hi Hk' Hhi Hhk.
    apply lookup_insert_Some in Hi as [[<- <-]|[? Hi]], Hk' as [[<- <-]|[? Hk']]; try done.
    + by destruct (Hh k jk).
    + by destruct (Hh i ji).
    + by eapply i_one0.
  - unfold worker_ok. cbn. eexists. by rewrite lookup_insert_eq.
  - rewrite i_closed0, Hk. done.
  - rewrite Hq in i_bound0. cbn in i_bound0. lia.
  - rewrite Hq in i_order0. by rewrite <- app_assoc.
  - intros Hcl. rewrite i_open0, Hq, <- app_assoc by done. done.
  - trans (tq_popped w); [done|by apply sublist_inserts_r].
  - intros i Hi. destruct (i_known0 i Hi) as (x & Hx & Hpx). destruct (decide (i = id)) as [->|Hne].
    + eexists. by rewrite lookup_insert_eq.
    + exists x. by rewrite lookup_insert_ne.
Qed.

Lemma release_sent c j : jb_place j <> WithCaller -> set_caller c j = release c j.
Proof. unfold release. by destruct (jb_place j). Qed.

Lemma inv_abandoned w id j k :
  inv w -> tq_jobs w !! id = Some j -> jb_place j <> WithCaller -> tq_worker w = WGot id ->
  k = WReady -> inv (hand id (drop_job j) k (tq_starts w) w).
Proof.
  intros Hw Hj Hp Hk ->. pose proof (i_jobs w Hw id j Hj) as [Hse Hre Hqu Hpl].
  eapply inv_hand; try done.
  - intros i ji. apply others_free; auto.
  - by rewrite Hk.
  - apply Hw.
  - split; cbn; try done.
    + rewrite Hse. done.
    + rewrite <- Hqu, (got_place w id j) by done. done.
Qed.

Lemma inv_started w id j :
  inv w -> tq_jobs w !! id = Some j -> tq_worker w = WGot id ->
  inv (hand id (set_place (Selected false false) j) (WRun id) (tq_starts w) w).
Proof.
  intros Hw Hj Hk. pose proof (i_jobs w Hw id j Hj) as [Hse Hre Hqu Hpl].
  pose proof (got_place w id j Hw Hk Hj) as Hp.
  unfold place_ok in Hpl. rewrite Hp in Hse, Hre, Hqu, Hpl. eapply inv_hand; try done.
  - intros i ji. apply others_free; auto.
  - by rewrite Hk.
  - apply Hw.
  - split; cbn; [by rewrite Hse|by rewrite Hre|by rewrite <- Hqu|]. split; [by left|]. intros _. apply Hpl.
  - unfold worker_ok. cbn. eexists. rewrite lookup_insert_eq. split; [done|]. by left.
Qed.

(** The worker leaves a thread, which may still be in its operation. *)
Lemma inv_leave_thread w id j k :
  inv w -> tq_jobs w !! id = Some j -> tq_worker w = WRun id -> jb_blocking j = true ->
  k = WEnding \/ (k = WReady /\ jb_place j = Finished) -> inv (with_worker k w).
Proof.
  intros Hw Hj Hk Hb Hcase. pose proof (i_jobs w Hw id j Hj) as [Hse Hre Hqu Hpl].
  replace (with_worker k w) with (hand id j k (tq_starts w) w) by (unfold hand; by rewrite insert_id).
  eapply inv_hand; try done.
  - intros i ji. apply others_free; auto.
  - rewrite Hk. by destruct Hcase as [->|[-> _]].
  - apply Hw.
  - split; try done. unfold place_ok in *. destruct (jb_place j) eqn:E; try done.
    + destruct Hpl as [Hx _]. congruence.
    + destruct Hcase as [->|[_ ?]]; [|done]. split; [auto|]. apply Hpl.
  - by destruct Hcase as [->|[-> _]].
Qed.

Lemma inv_close w : inv w -> tq_worker w = WEnding -> inv (close_queue w).
Proof.
  intros Hw Hk. apply end_worker_ok; [done| | |].
  - intros i j Hj. unfold queued. by destruct (jb_place j).
  - intros i j Hj E. unfold queued. by rewrite E.
  - intros i j Hj Hh. right. pose proof (hands w i j Hw Hj Hh) as Hx. rewrite Hk in Hx. split; [done|].
    intros E. pose proof (jo_place w i j (i_jobs w Hw i j Hj)) as Hp. unfold place_ok in Hp. rewrite E in Hp.
    destruct Hp as [Hp _]. congruence.
Qed.

Lemma inv_kill w : inv w -> tq_worker w <> WEnded -> inv (kill_worker w).
Proof.
  intros Hw Hk. assert (forall i j, tq_jobs w !! i = Some j -> worker_holds w i j = true -> held j = true) as Hx.
  { intros i j Hj. unfold worker_holds. pose proof (i_worker w Hw) as Ho. unfold worker_ok in Ho.
    destruct (tq_worker w) as [| |id|id| |]; try done.
    - intros ->%N.eqb_eq. destruct Ho as (x & Hx & Hp). rewrite Hj in Hx. injection Hx as <-. unfold held. by rewrite Hp.
    - intros [->%N.eqb_eq Hb%negb_true_iff]%andb_true_iff. destruct Ho as (x & Hx & Hp). rewrite Hj in Hx.
      injection Hx as <-. destruct Hp as [?|[? _]]; congruence. }
  apply end_worker_ok; [done| | |].
  - intros i j Hj [Hq|Hh]%orb_true_iff.
    + unfold queued in Hq. by destruct (jb_place j).
    + apply Hx in Hh; [|done]. unfold held in Hh. by destruct (jb_place j).
  - intros i j Hj E. unfold queued. by rewrite E.
  - intros i j Hj Hh. pose proof (hands w i j Hw Hj Hh) as Hy. unfold worker_holds.
    pose proof (jo_place w i j (i_jobs w Hw i j Hj)) as Hp. unfold place_ok in Hp. unfold held in Hh.
    destruct (tq_worker w) as [| |id|id| |]; try done.
    + left. rewrite Hy, N.eqb_refl. apply orb_true_r.
    + rewrite Hy, N.eqb_refl. destruct (jb_blocking j); [|left; apply orb_true_r].
      right. split; [done|]. intros E. rewrite E in Hp. by destruct Hp.
    + right. split; [done|]. intros E. rewrite E in Hp. by destruct Hp.
Qed.

Lemma selected_pending w id j o st :
  inv w -> tq_jobs w !! id = Some j -> jb_place j = Selected o st -> jb_reply j = Pending.
Proof. intros Hw Hj Hp. apply (jo_reply w id j (i_jobs w Hw id j Hj)). by rewrite Hp. Qed.

Lemma inv_move w w' : inv w -> queue_step w w' -> inv w'.
Proof.
  intros Hw Hstep. destruct Hstep as [id b Hj| | |id j Hj Ha Hc|id j Hj Hc Hcl Hlen|id j Hj Hc Hcl|id j r Hj Hc Hr|id j Hj Hc Hr
    |id j Hj Ha|Hk Hst|Hk Hst|Hk Hq|Hk Hq Hd|id j q Hk Hq Hj|id j Hk Hj Ha|id j Hk Hj Ha|id j Hk Hj Hb Hp|id j Hk Hj Hb Hst
    |Hk|Hk|id j st Hj Hp Hst Ha Hk|id j st Hj Hp|id j st r Hj Hp|id j st Hj Hp Hg|id j Hj Hp Hb].
  - by apply inv_call.
  - by apply inv_stop.
  - by apply inv_stop.
  - by apply inv_caller.
  - by apply inv_send.
  - by apply inv_caller.
  - rewrite release_sent; [by apply inv_caller|]. intros Hp%(jo_sending w id j (i_jobs w Hw id j Hj)). congruence.
  - rewrite release_sent; [by apply inv_caller|]. intros Hp%(jo_sending w id j (i_jobs w Hw id j Hj)). congruence.
  - by apply inv_caller.
  - apply inv_idle; auto.
  - apply inv_idle; auto.
  - apply inv_idle; auto.
  - apply inv_idle; auto.
  - by apply inv_took.
  - rewrite put_hand. apply inv_abandoned; try done. intros Hp%(jo_sending w id j (i_jobs w Hw id j Hj)).
    unfold abandoned in Ha. by rewrite Hp in Ha.
  - rewrite put_hand. by apply inv_started.
  - eapply inv_leave_thread; eauto.
  - eapply inv_leave_thread; eauto.
  - by apply inv_close.
  - by apply inv_kill.
  - pose proof (selected_pending w id j _ _ Hw Hj Hp) as Hr.
    refine (inv_selected w id j (set_place (Selected true st) j) false st (tq_worker w) (tq_starts w) Hw Hj Hp eq_refl eq_refl _ _ _ _); cbn.
    + by rewrite Hr.
    + left. by exists true, st.
    + by left.
    + by left.
  - pose proof (selected_pending w id j _ _ Hw Hj Hp) as Hr.
    refine (inv_selected w id j (set_place (Selected false true) j) true st (tq_worker w) _ Hw Hj Hp eq_refl eq_refl _ _ _ _); cbn.
    + by rewrite Hr.
    + left. by exists false, true.
    + by left.
    + destruct st; auto.
  - replace (note_start _ _ _) with (hand id (finish_job r j) (if jb_blocking j then tq_worker w else WReady)
      (if st then tq_starts w else tq_starts w ++ [id]) w) by (by destruct (jb_blocking j)).
    refine (inv_selected w id j (finish_job r j) true st _ _ Hw Hj Hp eq_refl eq_refl _ _ _ _); cbn.
    + done.
    + by right.
    + destruct (jb_blocking j); auto.
    + destruct st; auto.
  - replace (put id (drop_job j) _) with (hand id (drop_job j)
      (if jb_blocking j then tq_worker w else if stopped w then WEnding else WReady) (tq_starts w) w)
      by (by destruct (jb_blocking j)).
    refine (inv_selected w id j (drop_job j) false st _ _ Hw Hj Hp eq_refl eq_refl _ _ _ _); cbn.
    + done.
    + by right.
    + destruct (jb_blocking j); [auto|]. right. destruct (stopped w); auto.
    + by left.
  - refine (inv_selected w id j (drop_job j) false false (tq_worker w) (tq_starts w) Hw Hj Hp eq_refl eq_refl _ _ _ _); cbn.
    + done.
    + by right.
    + by left.
    + by left.
Qed.

Lemma inv_steps w w' : inv w -> steps w w' -> inv w'.
Proof. induction 2; [done|]. eapply inv_move; [|done]. auto. Qed.

Lemma steps_trans w1 w2 w3 : steps w1 w2 -> steps w2 w3 -> steps w1 w3.
Proof. intros H1 H2. induction H2; [done|]. by eapply steps_next; [apply IHsteps|]. Qed.
Lemma steps_one w w' : queue_step w w' -> steps w w'.
Proof. intros Hs. eapply steps_next; [apply steps_refl|done]. Qed.

Lemma jobs_if (b : bool) k w : tq_jobs (if b then w else with_worker k w) = tq_jobs w.
Proof. by destruct b. Qed.
Lemma starts_if (b : bool) k w : tq_starts (if b then w else with_worker k w) = tq_starts w.
Proof. by destruct b. Qed.

(** ** What an answer says *)

(** An answer is the result of the caller's own operation. *)
Definition answers_ok (w : World) : Prop :=
  map_Forall (fun _ j => forall r, jb_caller j = Returned (Answered r) -> jb_reply j = Sent r) (tq_jobs w).

Lemma answers_step w w' : inv w -> answers_ok w -> queue_step w w' -> answers_ok w'.
Proof.
  intros Hw Ha Hstep. unfold answers_ok in *.
  assert (forall p, (forall i j, tq_jobs w !! i = Some j -> p i j = true -> jb_reply j = Pending) ->
    map_Forall (fun _ j => forall r, jb_caller j = Returned (Answered r) -> jb_reply j = Sent r) (drop_where p (tq_jobs w)))
    as Hdrop.
  { intros p Hp i x. rewrite lookup_drop_where. intros (j & Hj & ->)%fmap_Some. specialize (Ha i j Hj).
    destruct (p i j) eqn:E; [|done]. cbn. intros r Hr. specialize (Hp i j Hj E). rewrite (Ha r Hr) in Hp. done. }
  assert (forall id j j', tq_jobs w !! id = Some j -> jb_caller j' = jb_caller j ->
    (jb_reply j = Pending \/ jb_reply j' = jb_reply j) ->
    map_Forall (fun _ j => forall r, jb_caller j = Returned (Answered r) -> jb_reply j = Sent r) (<[id := j']> (tq_jobs w)))
    as Hput.
  { intros id j j' Hj Hc Hr. apply map_Forall_insert_2; [|done]. intros r. rewrite Hc. intros Hx.
    pose proof (Ha id j Hj r Hx) as Hs. destruct Hr as [Hr|Hr]; congruence. }
  assert (forall id j c, tq_jobs w !! id = Some j -> (forall r, c <> Returned (Answered r)) ->
    map_Forall (fun _ j => forall r, jb_caller j = Returned (Answered r) -> jb_reply j = Sent r)
      (<[id := release c j]> (tq_jobs w))) as Hrel.
  { intros id j c Hj Hc. apply map_Forall_insert_2; [|done]. intros r. unfold release.
    destruct (jb_place j); cbn; intros Hx; by destruct (Hc r). }
  assert (forall i j, tq_jobs w !! i = Some j -> jb_place j <> Finished -> jb_reply j = Pending) as Hpend.
  { intros i j Hj Hp. by apply (jo_reply w i j (i_jobs w Hw i j Hj)). }
  destruct Hstep as [id b Hj| | |id j Hj Hab Hc|id j Hj Hc Hcl Hlen|id j Hj Hc Hcl|id j r Hj Hc Hr|id j Hj Hc Hr
    |id j Hj Hab|Hk Hst|Hk Hst|Hk Hq|Hk Hq Hd|id j q Hk Hq Hj|id j Hk Hj Hab|id j Hk Hj Hab|id j Hk Hj Hb Hp|id j Hk Hj Hb Hst
    |Hk|Hk|id j st Hj Hp Hst Hab Hk|id j st Hj Hp|id j st r Hj Hp|id j st Hj Hp Hg|id j Hj Hp Hb]; try exact Ha; cbn.
  - apply map_Forall_insert_2; [|done]. done.
  - by apply Hrel.
  - apply map_Forall_insert_2; [|done]. done.
  - by apply Hrel.
  - apply map_Forall_insert_2; [|done]. cbn. by intros r' [= ->].
  - apply map_Forall_insert_2; [|done]. cbn. by destruct (tq_cancelled w).
  - by apply Hrel.
  - apply (Hput id j); auto.
  - apply (Hput id j); [done..|]. left. eapply Hpend; [done|]. by rewrite (got_place w id j).
  - apply (Hput id j); auto.
  - apply Hdrop. intros i j Hj Hp. eapply Hpend; [done|]. unfold queued in Hp. by destruct (jb_place j).
  - apply Hdrop. intros i j Hj Hp. eapply Hpend; [done|]. intros Hf. unfold queued, worker_holds in Hp. rewrite Hf in Hp.
    destruct (tq_worker w) as [| |x|x| |] eqn:E; try done.
    + apply N.eqb_eq in Hp as ->. by rewrite (got_place w i j) in Hf.
    + cbn in Hp. apply andb_true_iff in Hp as [->%N.eqb_eq Hb%negb_true_iff].
      destruct (run_place w i j Hw E Hj) as [Hh|[? _]]; [|congruence]. unfold held in Hh. by rewrite Hf in Hh.
  - apply (Hput id j); auto.
  - apply (Hput id j); auto.
  - rewrite jobs_if. apply (Hput id j); [done..|]. left. eapply selected_pending; done.
  - rewrite jobs_if. apply (Hput id j); [done..|]. left. eapply selected_pending; done.
  - apply (Hput id j); [done..|]. left. eapply selected_pending; done.
Qed.

(** ** What a cancel stops *)

(** Seen open by its [select!], not yet begun. *)
Definition opened (j : Job) : bool := match jb_place j with Selected true false => true | _ => false end.

Lemma opened_put id j j' (m : gmap N Job) i x :
  m !! id = Some j -> (opened j' -> opened j) -> <[id := j']> m !! i = Some x -> opened x ->
  exists y, m !! i = Some y /\ opened y.
Proof.
  intros Hj Hx Hl Ho. destruct (decide (i = id)) as [->|Hne].
  - rewrite lookup_insert_eq in Hl. injection Hl as <-. eauto.
  - rewrite lookup_insert_ne in Hl by done. eauto.
Qed.

Lemma stopped_step w w' : inv w -> stopped w = true -> queue_step w w' ->
  stopped w' = true /\
  ((tq_starts w' = tq_starts w /\
    forall i x, tq_jobs w' !! i = Some x -> opened x -> exists y, tq_jobs w !! i = Some y /\ opened y) \/
   (exists id j, tq_jobs w !! id = Some j /\ opened j /\ tq_starts w' = tq_starts w ++ [id] /\
    forall i x, tq_jobs w' !! i = Some x -> opened x = false)).
Proof.
  intros Hw Hs Hstep.
  assert (forall i x, tq_jobs w !! i = Some x -> opened x -> exists y, tq_jobs w !! i = Some y /\ opened y) as Hsame by eauto.
  assert (forall p i x, drop_where p (tq_jobs w) !! i = Some x -> opened x -> exists y, tq_jobs w !! i = Some y /\ opened y)
    as Hdrop.
  { intros p i x. rewrite lookup_drop_where. intros (j & Hj & ->)%fmap_Some. destruct (p i j); [done|]. eauto. }
  assert (forall c j, opened (release c j) -> opened j) as Hrel.
  { intros c j. unfold release, opened. destruct (jb_place j) eqn:E; cbn; rewrite ?E; done. }
  assert (forall id j j', tq_jobs w !! id = Some j -> jb_place j = Selected true false -> opened j' = false ->
    exists k y, tq_jobs w !! k = Some y /\ opened y /\ tq_starts w ++ [id] = tq_starts w ++ [k] /\
    forall i x, <[id := j']> (tq_jobs w) !! i = Some x -> opened x = false) as Hbegin.
  { intros id j j' Hj Hp Ho. exists id, j. unfold opened at 1. rewrite Hp. split_and!; [done..|].
    intros i x [[<- <-]|[Hne Hx]]%lookup_insert_Some; [done|].
    assert (held j) as Hh by (unfold held; by rewrite Hp).
    pose proof (only_held w id j i x Hw Hj Hh ltac:(done) Hx) as Hf. unfold held, opened in *. by destruct (jb_place x) as [| | |[] []|]. }
  destruct Hstep as [id b Hj| | |id j Hj Hab Hc|id j Hj Hc Hcl Hlen|id j Hj Hc Hcl|id j r Hj Hc Hr|id j Hj Hc Hr
    |id j Hj Hab|Hk Hst|Hk Hst|Hk Hq|Hk Hq Hd|id j q Hk Hq Hj|id j Hk Hj Hab|id j Hk Hj Hab|id j Hk Hj Hb Hp|id j Hk Hj Hb Hst
    |Hk|Hk|id j st Hj Hp Hst Hab Hk|id j st Hj Hp|id j st r Hj Hp|id j st Hj Hp Hg|id j Hj Hp Hb];
    try congruence; (split; [first [done|unfold stopped in *; cbn in *; try destruct (jb_blocking _); by rewrite ?orb_true_r]|]);
    cbn [with_stop with_worker put with_jobs push_queue pop_queue note_start tq_jobs tq_starts close_queue kill_worker end_worker];
    rewrite ?jobs_if, ?starts_if; try (by left);
    try (left; split; [done|]; intros i x; apply (opened_put id j); [assumption|first [done|apply Hrel]]).
  - left. split; [done|]. intros i x [[<- <-]|[Hne Hx]]%lookup_insert_Some; [done|]. eauto.
  - left. split; [done|]. intros i x. apply Hdrop.
  - left. split; [done|]. intros i x. apply Hdrop.
  - destruct st; [left; split; [done|]; intros i x; by apply (opened_put id j)|right; by eapply Hbegin].
  - destruct st; [left; split; [done|]; intros i x; by apply (opened_put id j)|right; by eapply Hbegin].
Qed.

Lemma stopped_steps w w' : inv w -> stopped w = true -> steps w w' ->
  tq_starts w' = tq_starts w \/
  exists id j, tq_jobs w !! id = Some j /\ opened j /\ tq_starts w' = tq_starts w ++ [id].
Proof.
  intros Hw Hs Hst.
  assert (stopped w' = true /\
    ((tq_starts w' = tq_starts w /\
      forall i x, tq_jobs w' !! i = Some x -> opened x -> exists y, tq_jobs w !! i = Some y /\ opened y) \/
     (exists id j, tq_jobs w !! id = Some j /\ opened j /\ tq_starts w' = tq_starts w ++ [id] /\
      forall i x, tq_jobs w' !! i = Some x -> opened x = false))) as (_ & [[H _]|(id & j & ? & ? & ? & _)]);
    [|by left|right; eauto].
  induction Hst as [w|w1 w2 w3 H12 IH H23]; [split; [done|]; left; eauto|].
  destruct (IH Hw Hs) as [Hs2 Hcase]. destruct (stopped_step w2 w3) as [Hs3 Hnext]; [by eapply inv_steps|done..|].
  split; [done|]. destruct Hcase as [[He Ho]|(id & j & Hj & Hoj & He & Ho)].
  - destruct Hnext as [[He' Ho']|(id & j & Hj & Hoj & He' & Ho')].
    + left. split; [congruence|]. intros i x Hx Hox. destruct (Ho' i x Hx Hox) as (y & Hy & Hoy). eauto.
    + right. destruct (Ho id j Hj Hoj) as (y & Hy & Hoy). exists id, y. rewrite He', He. eauto.
  - right. exists id, j. split_and!; [done..| |].
    + destruct Hnext as [[He' _]|(id' & j' & Hj' & Hoj' & _)]; [congruence|]. by rewrite (Ho id' j' Hj') in Hoj'.
    + intros i x Hx. destruct (opened x) eqn:E; [|done]. destruct Hnext as [[_ Ho']|(id' & j' & _ & _ & _ & Ho')].
      * destruct (Ho' i x Hx) as (y & Hy & Hoy); [by rewrite E|]. by rewrite (Ho i y Hy) in Hoy.
      * by rewrite (Ho' i x Hx) in E.
Qed.

(** ** A job that was sent can be served *)

Definition live (w : World) : Prop := stopped w = false /\ tq_worker w <> WEnding /\ tq_worker w <> WEnded.
Definition idle (w : World) : Prop := stopped w = false /\ (tq_worker w = WReady \/ tq_worker w = WOpen).

(** Nothing but jobs that the worker had, or takes from the queue, changes. *)
Definition kept (w w' : World) : Prop :=
  forall i j, tq_jobs w !! i = Some j -> i ∈ tq_queue w' \/ jb_place j = WithCaller -> tq_jobs w' !! i = Some j.

Lemma kept_put w id j j' w' :
  tq_jobs w !! id = Some j -> jb_place j <> WithCaller -> id ∉ tq_queue w' ->
  tq_jobs w' = <[id := j']> (tq_jobs w) -> kept w w'.
Proof. intros Hj Hp Hn E i x Hx Hi. rewrite E, lookup_insert_ne; [done|]. intros ->. destruct Hi; congruence. Qed.

Lemma held_not_queued w id j : inv w -> tq_jobs w !! id = Some j -> held j -> id ∉ tq_queue w.
Proof.
  intros Hw Hj Hh Hi. pose proof (proj2 (jo_queued w id j (i_jobs w Hw id j Hj)) Hi) as Hp.
  unfold held in Hh. by rewrite Hp in Hh.
Qed.

(** The operation in its [select!] ends with [r], or is dropped when nobody waits. *)
Lemma run_ends w id j r :
  inv w -> stopped w = false -> tq_worker w = WRun id -> tq_jobs w !! id = Some j -> held j ->
  exists w', steps w w' /\ idle w' /\ tq_queue w' = tq_queue w /\ kept w w' /\
    (abandoned j = false -> tq_jobs w' !! id = Some (finish_job r j)).
Proof.
  intros Hw Hs Hk Hj Hh. pose proof (held_not_queued w id j Hw Hj Hh) as Hq.
  assert (jb_place j <> WithCaller) as Hnc by (unfold held in Hh; by destruct (jb_place j)).
  (* once the job is over, a thread is joined *)
  assert (forall w1 j1, steps w w1 -> stopped w1 = false -> tq_queue w1 = tq_queue w ->
    tq_jobs w1 = <[id := j1]> (tq_jobs w) -> jb_place j1 = Finished -> jb_blocking j1 = jb_blocking j ->
    tq_worker w1 = (if jb_blocking j then WRun id else WReady) -> (abandoned j = false -> j1 = finish_job r j) ->
    exists w', steps w w' /\ idle w' /\ tq_queue w' = tq_queue w /\ kept w w' /\
      (abandoned j = false -> tq_jobs w' !! id = Some (finish_job r j))) as Hend.
  { intros w1 j1 H1 Hs1 Hq1 Hm Hp Hb Hwk Ha. destruct (jb_blocking j) eqn:E.
    - exists (with_worker WReady w1). split_and!; [| |done| |].
      + eapply steps_next; [done|]. eapply (step_joined w1 id j1); [done| |congruence|done]. by rewrite Hm, lookup_insert_eq.
      + split; [done|by left].
      + eapply kept_put; [done|done| |done]. cbn. by rewrite Hq1.
      + intros Hx. cbn. by rewrite Hm, lookup_insert_eq, Ha.
    - exists w1. split_and!; [done|by split; [|left]|done| |].
      + eapply kept_put; [done|done| |done]. by rewrite Hq1.
      + intros Hx. by rewrite Hm, lookup_insert_eq, Ha. }
  assert (forall st w0 j0, steps w w0 -> stopped w0 = false -> tq_queue w0 = tq_queue w ->
    tq_jobs w0 = <[id := j0]> (tq_jobs w) -> jb_place j0 = Selected true st -> jb_blocking j0 = jb_blocking j ->
    tq_worker w0 = WRun id -> finish_job r j0 = finish_job r j ->
    exists w', steps w w' /\ idle w' /\ tq_queue w' = tq_queue w /\ kept w w' /\
      (abandoned j = false -> tq_jobs w' !! id = Some (finish_job r j))) as Hdone.
  { intros st w0 j0 H0 Hs0 Hq0 Hm Hp Hb Hwk Hf.
    eapply (Hend (note_start id st (put id (finish_job r j0) (if jb_blocking j0 then w0 else with_worker WReady w0)))
      (finish_job r j0)).
    - eapply steps_next; [done|]. eapply step_done; [|done]. by rewrite Hm, lookup_insert_eq.
    - by destruct (jb_blocking j0).
    - by destruct (jb_blocking j0).
    - cbn. by rewrite jobs_if, Hm, insert_insert_eq.
    - done.
    - done.
    - cbn. rewrite Hb. by destruct (jb_blocking j).
    - done. }
  destruct (run_place w id j Hw Hk Hj) as [_|[_ Hf]]; [|by unfold held in Hh; rewrite Hf in Hh].
  pose proof (jo_place w id j (i_jobs w Hw id j Hj)) as Hp. unfold place_ok, held in *.
  destruct (jb_place j) as [| | |open st|] eqn:E; try done; [destruct Hp as [Hp _]; congruence|]. destruct open.
  - eapply (Hdone st w j); [apply steps_refl|done..| |done|done|done|done]. by rewrite insert_id.
  - destruct (abandoned j) eqn:Ea.
    + eapply (Hend (put id (drop_job j) (if jb_blocking j then w else with_worker WReady w)) (drop_job j)).
      * apply steps_one. pose proof (step_gone w id j st Hj E) as Hg. rewrite Hs in Hg. apply Hg. by rewrite Ea.
      * by destruct (jb_blocking j).
      * by destruct (jb_blocking j).
      * cbn. by rewrite jobs_if.
      * done.
      * done.
      * cbn. by destruct (jb_blocking j).
      * done.
    + eapply (Hdone st (put id (set_place (Selected true st) j) w) (set_place (Selected true st) j)); try done.
      apply steps_one. by eapply step_poll.
Qed.

(** What [run_ends] and the lemmas after it reach. *)
Definition served (id : N) (j : Job) (r : T) (q : list N) (w w' : World) : Prop :=
  steps w w' /\ idle w' /\ tq_queue w' = q /\ kept w w' /\
  (abandoned j = false -> tq_jobs w' !! id = Some (finish_job r j)).

Lemma got_ends w id j r :
  inv w -> stopped w = false -> tq_worker w = WGot id -> tq_jobs w !! id = Some j ->
  exists w', served id j r (tq_queue w) w w'.
Proof.
  intros Hw Hs Hk Hj. pose proof (got_place w id j Hw Hk Hj) as Hp.
  assert (held j) as Hh by (unfold held; by rewrite Hp).
  pose proof (held_not_queued w id j Hw Hj Hh) as Hq. destruct (abandoned j) eqn:Ea.
  - exists (with_worker WReady (put id (drop_job j) w)). split_and!; [|by split; [|left]|done| |congruence].
    + apply steps_one. by eapply step_skip.
    + eapply (kept_put w id j (drop_job j)); [done|congruence|done|done].
  - set (j1 := set_place (Selected false false) j). set (w1 := with_worker (WRun id) (put id j1 w)).
    assert (queue_step w w1) as H1 by by eapply step_start.
    destruct (run_ends w1 id j1 r) as (w' & Hst & Hi & Hq' & Hke & Hf); try done.
    + by eapply inv_move.
    + cbn. by rewrite lookup_insert_eq.
    + exists w'. split_and!; [by eapply steps_trans; [apply steps_one|]|done|done| |].
      * intros i x Hx Hxi. apply Hke; [|done]. cbn. rewrite lookup_insert_ne; [done|].
        intros ->. rewrite Hq' in Hxi. destruct Hxi; [done|congruence].
      * intros _. by apply Hf.
Qed.

Lemma worker_returns w (r : T) : inv w -> live w -> exists w', steps w w' /\ idle w' /\ tq_queue w' = tq_queue w /\ kept w w'.
Proof.
  intros Hw (Hs & Hk1 & Hk2). destruct (tq_worker w) as [| |id|id| |] eqn:Hk; try done.
  - exists w. split_and!; [apply steps_refl|by split; [|left]|done|]. by intros i j.
  - exists w. split_and!; [apply steps_refl|by split; [|right]|done|]. by intros i j.
  - pose proof (i_worker w Hw) as Ho. unfold worker_ok in Ho. rewrite Hk in Ho. destruct Ho as (j & Hj & _).
    destruct (got_ends w id j r Hw Hs Hk Hj) as (w' & ? & ? & ? & ? & _). by exists w'.
  - pose proof (i_worker w Hw) as Ho. unfold worker_ok in Ho. rewrite Hk in Ho. destruct Ho as (j & Hj & [Hh|[Hb Hp]]).
    + destruct (run_ends w id j r) as (w' & ? & ? & ? & ? & _); try done; [by rewrite Hh|]. by exists w'.
    + exists (with_worker WReady w). split_and!; [|by split; [|left]|done|by intros i x].
      apply steps_one. by eapply step_joined.
Qed.

Lemma head_ends w id j q r :
  inv w -> idle w -> tq_queue w = id :: q -> tq_jobs w !! id = Some j -> exists w', served id j r q w w'.
Proof.
  intros Hw [Hs Hk] Hq Hj.
  assert (exists w0, steps w w0 /\ tq_worker w0 = WOpen /\ tq_queue w0 = tq_queue w /\ tq_jobs w0 = tq_jobs w /\ stopped w0 = false)
    as (w0 & H0 & Hk0 & Hq0 & Hj0 & Hs0).
  { destruct Hk as [Hk|Hk]; [|exists w; split_and!; [apply steps_refl|done..]].
    exists (with_worker WOpen w). split_and!; [|done..]. by apply steps_one, step_open. }
  rewrite Hq in Hq0. rewrite <- Hj0 in Hj. pose proof (step_take w0 id j q Hk0 Hq0 Hj) as H1.
  set (w1 := with_worker (WGot id) (put id (set_place Taken j) (pop_queue id q w0))) in *.
  assert (inv w0) as Hw0 by by eapply inv_steps.
  assert (NoDup (tq_queue w0)) as Hnd.
  { destruct (i_order w0 Hw0) as [k E]. pose proof (i_sent w0 Hw0) as Hn. rewrite E in Hn.
    apply NoDup_app in Hn as (Hn & _ & _). by apply NoDup_app in Hn as (_ & _ & Hn). }
  rewrite Hq0 in Hnd. apply NoDup_cons in Hnd as [Hnq _].
  destruct (got_ends w1 id (set_place Taken j) r) as (w' & Hst & Hi & Hq' & Hke & Hf); [by eapply inv_move|done|done| |].
  { cbn. by rewrite lookup_insert_eq. }
  exists w'. split_and!; [|done|done| |].
  - eapply steps_trans; [exact H0|]. eapply steps_trans; [by apply steps_one|done].
  - intros i x Hx Hxi. apply Hke; [|done]. cbn. rewrite Hj0, lookup_insert_ne; [done|]. intros ->.
    rewrite Hq' in Hxi. destruct Hxi as [?|Hp]; [done|]. rewrite Hj0 in Hj.
    assert (jb_place j = Queued) as Hqd by (apply (jo_queued w i j (i_jobs w Hw i j Hj)); rewrite Hq; by left). congruence.
  - intros Ha. by apply Hf.
Qed.

Lemma queue_served w before id after j r :
  inv w -> idle w -> tq_queue w = before ++ id :: after -> tq_jobs w !! id = Some j -> abandoned j = false ->
  exists w', steps w w' /\ tq_jobs w' !! id = Some (finish_job r j).
Proof.
  revert w. induction before as [|x before IH]; intros w Hw Hi Hq Hj Ha.
  - destruct (head_ends w id j after r Hw Hi Hq Hj) as (w' & Hst & _ & _ & _ & Hf). exists w'. split; [done|]. by apply Hf.
  - cbn in Hq.
    assert (exists y, tq_jobs w !! x = Some y) as [y Hy].
    { destruct (i_known w Hw x) as (y & Hy & _); [|by exists y]. eapply elem_of_prefix; [|apply (i_order w Hw)].
      rewrite Hq. apply elem_of_app. right. by left. }
    destruct (head_ends w x y _ r Hw Hi Hq Hy) as (w1 & Hst & Hi1 & Hq1 & Hke & _).
    destruct (IH w1) as (w' & Hst' & Hf); try done.
    + by eapply inv_steps.
    + apply Hke; [done|]. left. rewrite Hq1. apply elem_of_app. right. by left.
    + exists w'. split; [by eapply steps_trans|done].
Qed.

(** The caller that waits in the queue gets the result of its operation. *)
Lemma queued_served w id j r :
  inv w -> live w -> tq_jobs w !! id = Some j -> jb_caller j = Waiting -> jb_place j = Queued ->
  exists w' j', steps w w' /\ tq_jobs w' !! id = Some j' /\ jb_caller j' = Returned (Answered r).
Proof.
  intros Hw Hl Hj Hc Hp. pose proof (proj1 (jo_queued w id j (i_jobs w Hw id j Hj)) Hp) as Hq.
  destruct (worker_returns w r Hw Hl) as (w1 & H1 & Hi1 & Hq1 & Hke).
  apply list_elem_of_split in Hq as (before & after & Hq).
  destruct (queue_served w1 before id after j r) as (w2 & H2 & Hf).
  - by eapply inv_steps.
  - done.
  - congruence.
  - apply Hke; [done|]. left. rewrite Hq1, Hq. apply elem_of_app. right. by left.
  - unfold abandoned. by rewrite Hc.
  - eexists _, _. split_and!.
    + eapply steps_next; [by eapply steps_trans|]. eapply (step_reply w2 id _ r); [exact Hf|done|done].
    + cbn. by rewrite lookup_insert_eq.
    + done.
Qed.

(** A caller whose job is over has its answer ready. *)
Lemma caller_returns w id j :
  inv w -> tq_jobs w !! id = Some j -> jb_caller j = Waiting -> jb_place j = Finished ->
  exists w' j' a, queue_step w w' /\ tq_jobs w' !! id = Some j' /\ jb_caller j' = Returned a /\
    (forall r, jb_reply j = Sent r -> a = Answered r).
Proof.
  intros Hw Hj Hc Hp. pose proof (jo_reply w id j (i_jobs w Hw id j Hj)) as Hr.
  destruct (jb_reply j) as [|r'|] eqn:E; [by destruct (proj1 Hr eq_refl)| |].
  - eexists _, _, (Answered r'). split_and!; [by apply (step_reply w id j r')|by cbn; rewrite lookup_insert_eq|done|by intros r [= ->]].
  - eexists _, _, _. split_and!; [by apply (step_reply_dropped w id j)|by cbn; rewrite lookup_insert_eq|done|done].
Qed.

Lemma waiting_served w id j r :
  inv w -> live w -> tq_jobs w !! id = Some j -> jb_caller j = Waiting -> jb_place j <> Finished ->
  exists w' j', steps w w' /\ tq_jobs w' !! id = Some j' /\ jb_caller j' = Returned (Answered r).
Proof.
  intros Hw Hl Hj Hc Hp.
  assert (abandoned j = false) as Ha by (unfold abandoned; by rewrite Hc).
  assert (forall w1, steps w w1 -> tq_jobs w1 !! id = Some (finish_job r j) ->
    exists w' j', steps w w' /\ tq_jobs w' !! id = Some j' /\ jb_caller j' = Returned (Answered r)) as Hlast.
  { intros w1 H1 Hf. eexists _, _. split_and!.
    - eapply steps_next; [done|]. by eapply (step_reply w1 id _ r).
    - cbn. by rewrite lookup_insert_eq.
    - done. }
  destruct (held j) eqn:Hh.
  - assert (held j) as Hh' by by rewrite Hh. pose proof (hands w id j Hw Hj Hh') as Hk.
    destruct Hl as (Hs & Hk1 & Hk2). destruct (tq_worker w) as [| |i|i| |] eqn:E; try done; subst i.
    + destruct (got_ends w id j r Hw Hs E Hj) as (w' & ? & _ & _ & _ & Hf). by eapply Hlast, Hf.
    + destruct (run_ends w id j r Hw Hs E Hj Hh') as (w' & ? & _ & _ & _ & Hf). by eapply Hlast, Hf.
  - eapply queued_served; try done. unfold held in Hh. destruct (jb_place j) eqn:E; try done.
    pose proof (proj2 (jo_sending w id j (i_jobs w Hw id j Hj)) E). congruence.
Qed.

Lemma answers_steps w w' : inv w -> answers_ok w -> steps w w' -> answers_ok w'.
Proof.
  intros Hw Ha Hst. induction Hst as [|w1 w2 w3 H12 IH H23]; [done|].
  eapply answers_step; [by eapply inv_steps|by apply IH|done].
Qed.

Lemma sending_served w id j r :
  inv w -> live w -> tq_jobs w !! id = Some j -> jb_caller j = Sending ->
  exists w' j', steps w w' /\ tq_jobs w' !! id = Some j' /\ jb_caller j' = Returned (Answered r).
Proof.
  intros Hw Hl Hj Hc. pose proof (proj1 (jo_sending w id j (i_jobs w Hw id j Hj)) Hc) as Hp.
  (* a world with room in the queue *)
  assert (exists w1, steps w w1 /\ live w1 /\ length (tq_queue w1) < TRANSFER_QUEUE_BOUND /\ tq_jobs w1 !! id = Some j)
    as (w1 & H1 & Hl1 & Hlen & Hj1).
  { destruct (decide (length (tq_queue w) < TRANSFER_QUEUE_BOUND)) as [Hlt|Hge]; [exists w; by split; [apply steps_refl|]|].
    destruct (worker_returns w r Hw Hl) as (w1 & H1 & Hi1 & Hq1 & Hke).
    destruct (tq_queue w) as [|x q] eqn:Hq; [cbn in Hge; unfold TRANSFER_QUEUE_BOUND in Hge; lia|].
    destruct (i_known w Hw x) as (y & Hy & _).
    { eapply elem_of_prefix; [|apply (i_order w Hw)]. rewrite Hq. apply elem_of_app. right. by left. }
    destruct (head_ends w1 x y q r) as (w2 & H2 & [Hs2 Hk2] & Hq2 & Hke2 & _); [by eapply inv_steps|done|done| |].
    { apply Hke; [done|]. left. rewrite Hq1. by left. }
    exists w2. split_and!; [by eapply steps_trans| | |].
    - split; [done|]. by destruct Hk2 as [->| ->].
    - rewrite Hq2. pose proof (i_bound w Hw) as Hb. rewrite Hq in Hb. cbn in Hb. lia.
    - apply Hke2; [|by right]. apply Hke; [done|by right]. }
  assert (inv w1) as Hw1 by by eapply inv_steps.
  assert (tq_closed w1 = false) as Hcl.
  { destruct (tq_closed w1) eqn:E; [|done]. apply (i_closed w1 Hw1) in E. destruct Hl1 as (_ & _ & ?). done. }
  pose proof (step_send w1 id j Hj1 Hc Hcl Hlen) as Hsend.
  destruct (queued_served _ id (set_place Queued (set_caller Waiting j)) r (inv_move _ _ Hw1 Hsend)) as (w2 & j2 & H2 & Hj2 & Hc2).
  - done.
  - cbn. by rewrite lookup_insert_eq.
  - done.
  - done.
  - exists w2, j2. split_and!; [|done..]. eapply steps_trans; [|done]. by eapply steps_next.
Qed.

(** ** Properties *)

(** C28: the transfers of a session run one at a time, in the order they were
    sent.  At most eight wait; an operation is begun at most once, in the order
    of the queue; two are never under way together, even when one is on a
    thread that a cancelled worker left behind; and once the queue is
    cancelled or dropped at most one more operation begins, one whose
    [select!] had already looked. *)
Theorem transfers_run_one_at_a_time w :
  steps world_init w ->
  length (tq_queue w) <= TRANSFER_QUEUE_BOUND /\
  tq_starts w `sublist_of` tq_sent w /\ NoDup (tq_starts w) /\
  (forall i ji k jk o o', tq_jobs w !! i = Some ji -> tq_jobs w !! k = Some jk ->
     jb_place ji = Selected o true -> jb_place jk = Selected o' true -> i = k) /\
  (stopped w = true -> forall w', steps w w' ->
     tq_starts w' = tq_starts w \/
     exists id j, tq_jobs w !! id = Some j /\ jb_place j = Selected true false /\ tq_starts w' = tq_starts w ++ [id]).
Proof.
  intros Hst. pose proof (inv_steps _ _ inv_world_init Hst) as Hw.
  assert (tq_starts w `sublist_of` tq_sent w) as Hsub.
  { destruct (i_order w Hw) as [k ->]. trans (tq_popped w); [apply Hw|]. rewrite <- app_assoc. by apply sublist_inserts_r. }
  split_and!; [apply Hw|done| | |].
  - eapply sublist_NoDup; [apply (i_sent w Hw)|done].
  - intros i ji k jk o o' Hi Hk Hpi Hpk. eapply (i_one w Hw); [done|done| |]; unfold held; [by rewrite Hpi|by rewrite Hpk].
  - intros Hs w' Hw'. destruct (stopped_steps w w' Hw Hs Hw') as [?|(id & j & Hj & Ho & He)]; [by left|right].
    exists id, j. split_and!; [done| |done]. unfold opened in Ho. by destruct (jb_place j) as [| | |[] []|].
Qed.

(** C29: no caller of the queue waits for ever, and no answer is another's.
    While the queue is neither cancelled nor dropped and its worker runs, a
    caller whose operation is not over can still get the result of that
    operation, whatever it is and however many are before it; a caller whose
    operation is over, or was dropped, has its answer ready; and the result a
    caller was answered is the one its own operation sent. *)
Theorem transfer_callers_are_answered w id j r :
  steps world_init w -> tq_jobs w !! id = Some j ->
  (live w -> jb_caller j = Sending \/ jb_caller j = Waiting -> jb_place j <> Finished ->
     exists w' j', steps w w' /\ tq_jobs w' !! id = Some j' /\ jb_caller j' = Returned (Answered r)) /\
  (jb_caller j = Waiting -> jb_place j = Finished ->
     exists w' j' a, queue_step w w' /\ tq_jobs w' !! id = Some j' /\ jb_caller j' = Returned a) /\
  (jb_caller j = Returned (Answered r) -> jb_reply j = Sent r).
Proof.
  intros Hst Hj. pose proof (inv_steps _ _ inv_world_init Hst) as Hw. split_and!.
  - intros Hl [Hc|Hc] Hp; [by eapply sending_served|]. by eapply waiting_served.
  - intros Hc Hp. destruct (caller_returns w id j Hw Hj Hc Hp) as (w' & j' & a & ? & ? & ? & _). eauto 10.
  - intros Hc. by apply (answers_steps _ _ inv_world_init (map_Forall_empty _) Hst id j Hj r).
Qed.
End Queue.

Module QueueDemo.
Open Scope N_scope.
#[local] Abbreviation W := (@World N) (only parsing).

Definition job1 : @Job N := {| jb_blocking := true; jb_caller := Sending; jb_reply := Pending; jb_place := WithCaller |}.
Definition sent1 : @Job N := set_place Queued (set_caller Waiting job1).
Definition demo1 : W := put 1 job1 world_init.
Definition demo2 : W := put 1 sent1 (push_queue 1 demo1).
Definition demo3 : W := with_worker WOpen demo2.
Definition demo4 : W := with_worker (WGot 1) (put 1 (set_place Taken sent1) (pop_queue 1 [] demo3)).
Definition demo5 : W := with_worker (WRun 1) (put 1 (set_place (Selected false false) sent1) demo4).
Definition demo6 : W := put 1 (set_place (Selected true false) sent1) demo5.
(** The cancel comes between the look of the thread and its operation. *)
Definition demo7 : W := with_stop true false demo6.

Lemma reached_2 : steps world_init demo2.
Proof.
  eapply steps_next; [apply steps_one, (step_call world_init 1 true); reflexivity|].
  apply (step_send demo1 1 job1); [reflexivity..|vm_compute; lia].
Qed.

Lemma reached_7 : steps world_init demo7.
Proof.
  eapply steps_next; [|apply (step_cancel demo6)].
  eapply steps_next; [|apply (step_poll demo5 1 (set_place (Selected false false) sent1) false); reflexivity].
  eapply steps_next; [|apply (step_start demo4 1 (set_place Taken sent1)); reflexivity].
  eapply steps_next; [|apply (step_take demo3 1 sent1 []); reflexivity].
  eapply steps_next; [exact reached_2|apply step_open; reflexivity].
Qed.

Lemma transfers_run_one_at_a_time_witness :
  stopped demo7 = true /\ forall w', steps demo7 w' ->
    tq_starts w' = [] \/
    exists id j, tq_jobs demo7 !! id = Some j /\ jb_place j = Selected true false /\ tq_starts w' = [id].
Proof.
  destruct (transfers_run_one_at_a_time demo7 reached_7) as (_ & _ & _ & _ & Hstop).
  split; [reflexivity|]. exact (Hstop eq_refl).
Defined.

Lemma transfer_callers_are_answered_witness :
  exists w' j', steps demo2 w' /\ tq_jobs w' !! 1 = Some j' /\ jb_caller j' = Returned (Answered 7).
Proof.
  destruct (transfer_callers_are_answered demo2 1 sent1 7 reached_2) as (Hl & _ & _); [reflexivity|].
  apply Hl; [split_and!; discriminate || reflexivity|right; reflexivity|discriminate].
Defined.
End QueueDemo.
