(* ===== verification/ViewerAuth.v ===== *)
(** * Who may talk to the viewer ([viewer/bind.rs], [viewer/auth.rs])

    The addresses a viewer binds, and the checks every request passes.  A
    request is what the HTTP library parsed: a method, a path, a query and
    header fields with lower-case names in their order ([Parts]).  What the
    operating system answers to a bind is an argument; a listener's address is
    the address it was bound to, on the port the system gave. *)
From stdpp Require Import sorting.
From S2P Require Import Prelude Bytes.
Open Scope rd_scope.

(** ** Addresses *)

(** [std::net::Ipv4Addr]: four octets. *)
Record Ipv4Addr := { ip_a : N; ip_b : N; ip_c : N; ip_d : N }.
#[global] Instance Ipv4Addr_eq_dec : EqDecision Ipv4Addr.
Proof. solve_decision. Defined.

(** [IpAddr]; a version 6 address is kept as its text. *)
Inductive IpAddr := V4 (ip : Ipv4Addr) | V6 (shown : text).
#[global] Instance IpAddr_eq_dec : EqDecision IpAddr.
Proof. solve_decision. Defined.

Definition LOOPBACK : Ipv4Addr := {| ip_a := 127; ip_b := 0; ip_c := 0; ip_d := 1 |}.
Definition PORT_PAIR_ATTEMPTS : nat := 5.

(** [Ipv4Addr::is_loopback] *)
Definition is_loopback (ip : Ipv4Addr) : bool := (ip_a ip =? 127)%N.

(** [Display] of an address and of a socket address. *)
Definition show_ip (ip : Ipv4Addr) : text :=
  dec (ip_a ip) ++ txt "." ++ dec (ip_b ip) ++ txt "." ++ dec (ip_c ip) ++ txt "." ++ dec (ip_d ip).
Record SocketAddr := { sa_ip : Ipv4Addr; sa_port : N }.
Definition show_addr (a : SocketAddr) : text := show_ip (sa_ip a) ++ txt ":" ++ dec (sa_port a).

Record Interface := { if_name : text; if_addr : IpAddr }.

Inductive TailnetSelection :=
| Disabled
| Selected (addr : Ipv4Addr)
| SelNotFound
| Ambiguous (candidates : list Ipv4Addr)
| OverrideRejected (addr : Ipv4Addr) (reason : text).

(** [TailnetSelection::address] *)
Definition selection_address (s : TailnetSelection) : option Ipv4Addr :=
  match s with Selected a => Some a | _ => None end.

Definition join_comma (l : list text) : text :=
  match l with [] => [] | x :: r => x ++ (r ≫= fun y => txt ", " ++ y) end.

(** [TailnetSelection::notice] *)
Definition selection_notice (s : TailnetSelection) : option text :=
  match s with
  | Disabled | Selected _ => None
  | SelNotFound => Some (txt "tailnet address not found; serving on loopback only")
  | Ambiguous cs => Some (txt "several tailnet candidates (" ++ join_comma (show_ip <$> cs)
      ++ txt "); set viewer.tailnet_address or --tailnet-address; serving on loopback only")
  | OverrideRejected a reason => Some (txt "tailnet address " ++ show_ip a ++ txt " refused (" ++ reason
      ++ txt "); serving on loopback only")
  end.

Definition is_tailnet_range (ip : Ipv4Addr) : bool :=
  (ip_a ip =? 100)%N && (N.land (ip_b ip) 192 =? 64)%N.

Definition is_tailscale_interface (name : text) : bool :=
  let lower := to_ascii_lowercase name in
  starts_with (txt "tailscale") lower || starts_with (txt "utun") lower.

Inductive WireViewerBind := BindLoopback | BindTailnet.

(** The order of addresses: their octets, one after the other. *)
Definition ip_value (ip : Ipv4Addr) : N := (((ip_a ip * 256 + ip_b ip) * 256 + ip_c ip) * 256 + ip_d ip)%N.
Definition ip_le (a b : Ipv4Addr) : Prop := (ip_value a <= ip_value b)%N.
#[export] Instance ip_le_dec : RelDecision ip_le.
Proof. intros a b. unfold ip_le. apply _. Defined.

(** [Vec::dedup] *)
Fixpoint dedup (l : list Ipv4Addr) : list Ipv4Addr :=
  match l with
  | x :: (y :: _) as r => if decide (x = y) then dedup r else x :: dedup r
  | _ => l
  end.

Definition tailnet_candidate (i : Interface) : option Ipv4Addr :=
  if is_tailscale_interface (if_name i) then
    match if_addr i with
    | V4 v4 => if is_tailnet_range v4 then Some v4 else None
    | V6 _ => None
    end
  else None.

Definition select_tailnet_address (interfaces : list Interface) (bind : WireViewerBind)
    (override_addr : option Ipv4Addr) : TailnetSelection :=
  match bind with
  | BindLoopback => Disabled
  | BindTailnet =>
      match override_addr with
      | Some addr =>
          if negb (is_tailnet_range addr) then OverrideRejected addr (txt "not in 100.64.0.0/10")
          else if negb (existsb (fun i => bool_decide (if_addr i = V4 addr)) interfaces)
          then OverrideRejected addr (txt "not present on a local interface")
          else Selected addr
      | None =>
          match dedup (merge_sort ip_le (omap tailnet_candidate interfaces)) with
          | [] => SelNotFound
          | [one] => Selected one
          | cs => Ambiguous cs
          end
      end
  end.

(** ** [bind_listeners] *)

(** [io::ErrorKind] of a failed bind, with the text it shows. *)
Inductive BindError := AddrInUse | BindOther (shown : text).
Definition show_bind_error (e : BindError) : text :=
  match e with AddrInUse => txt "address in use" | BindOther s => s end.

(** What the system answers in one attempt: the bind of the tailnet address
    (with the port given), then the bind of the loopback address on that port,
    and whether the addresses of the listeners can be read.  Attempts are
    numbered by how many are left. *)
Record Attempt := {
  at_tail : result BindError N; at_tail_addr : option BindError;
  at_loopback : result BindError unit; at_addrs : option BindError }.

Record Bound := { bd_addrs : list SocketAddr; bd_notices : list text }.

(** The loop over the attempts: the pair that was bound, or the notices so
    far, or an error of [?]. *)
Fixpoint bind_pair (n : nat) (tailnet : Ipv4Addr) (attempts : nat -> Attempt) :
    result BindError (Bound + list text) :=
  match n with
  | S n =>
      let a := attempts n in
      match at_tail a with
      | Err e => Ok (inr [txt "tailnet address " ++ show_ip tailnet ++ txt " could not be bound ("
                          ++ show_bind_error e ++ txt "); serving on loopback only"])
      | Ok port =>
          match at_tail_addr a, at_loopback a with
          | Some e, _ => Err e
          | None, Ok _ =>
              match at_addrs a with
              | Some e => Err e
              | None => Ok (inl {| bd_addrs := [{| sa_ip := LOOPBACK; sa_port := port |};
                                                {| sa_ip := tailnet; sa_port := port |}];
                                   bd_notices := [] |})
              end
          | None, Err AddrInUse => bind_pair n tailnet attempts
          | None, Err e => Err e
          end
      end
  | O => Ok (inr [])
  end.

(** [last] is the answer to the bind of the loopback address alone. *)
Definition bind_listeners (tailnet : option Ipv4Addr) (attempts : nat -> Attempt) (last : result BindError N) :
    result BindError Bound :=
  let? tried :=
    match tailnet with
    | None => Ok (inr [])
    | Some t =>
        if is_tailnet_range t then
          let? r := bind_pair PORT_PAIR_ATTEMPTS t attempts in
          match r with
          | inr [] => Ok (inr [txt "no port free on both 127.0.0.1 and " ++ show_ip t
                               ++ txt "; serving on loopback only"])
          | r => Ok r
          end
        else Ok (inr [show_ip t ++ txt " is not a tailnet address; serving on loopback only"])
    end in
  match tried with
  | inl b => Ok b
  | inr notices =>
      let? port := last in
      Ok {| bd_addrs := [{| sa_ip := LOOPBACK; sa_port := port |}]; bd_notices := notices |}
  end.

(** ** Requests *)

Inductive Method := GET | HEAD | POST | OtherMethod (name : text).
#[global] Instance Method_eq_dec : EqDecision Method.
Proof. solve_decision. Defined.

Record Parts := {
  rq_method : Method; rq_path : text; rq_query : option text; rq_headers : list (text * bytes) }.

(** [HeaderMap::get]: the first field of that name. *)
Definition header_get (p : Parts) (name : text) : option bytes :=
  snd <$> find (fun h => bool_decide (fst h = name)) (rq_headers p).

(** [HeaderValue::to_str]: visible ASCII and tabs only. *)
Definition visible (b : N) : bool := in_range 32 126 b || (b =? 9)%N.
Definition to_str (v : bytes) : option text := if forallb visible v then Some v else None.

Definition header_str (p : Parts) (name : text) : option text := and_then (header_get p name) to_str.

(** [query_param]: the first value of [key]. *)
Fixpoint find_pair (key : text) (pairs : list text) : option text :=
  match pairs with
  | [] => None
  | kv :: r =>
      match split_once_char 61%N kv with
      | Some (k, v) => if decide (k = key) then Some v else find_pair key r
      | None => find_pair key r
      end
  end.
Definition query_param (query : option text) (key : text) : option text :=
  and_then query (fun q => find_pair key (split_char 38%N q)).

(** ** [AuthPolicy] *)

Record AuthPolicy := { au_token : text; au_authorities : list text }.

(** [AuthPolicy::new] *)
Definition auth_new (token : text) (bound : list SocketAddr) : AuthPolicy :=
  {| au_token := token;
     au_authorities := bound ≫= fun a =>
       show_addr a :: (if is_loopback (sa_ip a) then [txt "localhost:" ++ dec (sa_port a)] else []) |}.

Definition authority_allowed (au : AuthPolicy) (value : text) : bool :=
  bool_decide (to_ascii_lowercase value ∈ au_authorities au).

(** Whether an [Origin] is this viewer's own. *)
Definition own_origin (au : AuthPolicy) (origin : text) : bool :=
  match strip_prefix (txt "http://") origin with
  | Some authority => authority_allowed au authority
  | None => false
  end.

(** [Token::matches]: the comparison is of all bytes. *)
Definition token_matches (token candidate : text) : bool := bool_decide (token = candidate).

Definition document_navigation (p : Parts) : bool :=
  bool_decide (rq_path p = txt "/") && bool_decide (rq_method p = GET)
  && bool_decide (header_str p (txt "sec-fetch-mode") = Some (txt "navigate"))
  && bool_decide (header_str p (txt "sec-fetch-dest") = Some (txt "document")).

Definition presented_token (p : Parts) : option text :=
  if decide (rq_path p = txt "/") then query_param (rq_query p) (txt "token")
  else and_then (header_str p (txt "authorization")) (strip_prefix (txt "Bearer ")).

Definition FORBIDDEN : N := 403.

(** [AuthPolicy::check] *)
Definition auth_check (au : AuthPolicy) (p : Parts) : result N unit :=
  match header_str p (txt "host") with
  | None => Err FORBIDDEN
  | Some host =>
      if negb (authority_allowed au host) then Err FORBIDDEN
      else if match header_str p (txt "origin") with
              | Some origin => negb (own_origin au origin)
              | None => false
              end then Err FORBIDDEN
      else if match header_str p (txt "sec-fetch-site") with
              | Some site =>
                  negb (bool_decide (site = txt "same-origin") || bool_decide (site = txt "none"))
                  && negb (document_navigation p)
              | None => false
              end then Err FORBIDDEN
      else match presented_token p with
           | Some t => if token_matches (au_token au) t then Ok tt else Err FORBIDDEN
           | None => Err FORBIDDEN
           end
  end.

(** [AuthPolicy::check_control] *)
Definition check_control (au : AuthPolicy) (p : Parts) : result N unit :=
  match header_str p (txt "origin") with
  | None => Err FORBIDDEN
  | Some origin =>
      if negb (own_origin au origin) then Err FORBIDDEN
      else match header_str p (txt "sec-fetch-site") with
           | None => Ok tt
           | Some site => if decide (site = txt "same-origin") then Ok tt else Err FORBIDDEN
           end
  end.

(** ** What the checks let through *)

(** The names under which a viewer bound to [bound] answers. *)
Definition own_name (bound : list SocketAddr) (name : text) : Prop :=
  exists a, a ∈ bound /\
    (name = show_addr a \/ sa_ip a = LOOPBACK /\ name = txt "localhost:" ++ dec (sa_port a)).

(** A request that holds the token, was sent to one of the viewer's names, and
    that no other site caused, except as a navigation to the page. *)
Record genuine (token : text) (bound : list SocketAddr) (p : Parts) : Prop := {
  gn_host : exists host, header_str p (txt "host") = Some host /\ own_name bound (to_ascii_lowercase host);
  gn_origin : forall origin, header_str p (txt "origin") = Some origin ->
    exists authority, origin = txt "http://" ++ authority /\ own_name bound (to_ascii_lowercase authority);
  gn_site : forall site, header_str p (txt "sec-fetch-site") = Some site ->
    site = txt "same-origin" \/ site = txt "none" \/
    rq_path p = txt "/" /\ rq_method p = GET /\
    header_str p (txt "sec-fetch-mode") = Some (txt "navigate") /\
    header_str p (txt "sec-fetch-dest") = Some (txt "document");
  gn_token :
    if decide (rq_path p = txt "/")
    then exists query, rq_query p = Some query /\ query_param (Some query) (txt "token") = Some token
    else header_str p (txt "authorization") = Some (txt "Bearer " ++ token) }.

(** A request that a page of the viewer itself sent. *)
Record from_own_page (bound : list SocketAddr) (p : Parts) : Prop := {
  op_origin : exists authority,
    header_str p (txt "origin") = Some (txt "http://" ++ authority) /\ own_name bound (to_ascii_lowercase authority);
  op_site : forall site, header_str p (txt "sec-fetch-site") = Some site -> site = txt "same-origin" }.

(** What [bind_listeners] may bind. *)
Definition bindable (tailnet : option Ipv4Addr) (bound : list SocketAddr) : Prop :=
  exists port, bound = [{| sa_ip := LOOPBACK; sa_port := port |}] \/
    exists t, tailnet = Some t /\ is_tailnet_range t = true /\
      bound = [{| sa_ip := LOOPBACK; sa_port := port |}; {| sa_ip := t; sa_port := port |}].

(** ** Lemmas *)

Lemma bind_pair_inl n t attempts b :
  bind_pair n t attempts = Ok (inl b) ->
  exists port, bd_addrs b = [{| sa_ip := LOOPBACK; sa_port := port |}; {| sa_ip := t; sa_port := port |}].
Proof.
  induction n as [|n IH]; cbn [bind_pair]; [done|].
  destruct (at_tail _) as [port|e]; [|done]. destruct (at_tail_addr _); [done|].
  destruct (at_loopback _) as [[]|[]]; [|by apply IH|done].
  destruct (at_addrs _); [done|]. intros [= <-]. by exists port.
Qed.

Lemma bind_listeners_bindable tailnet attempts last b :
  bind_listeners tailnet attempts last = Ok b -> bindable tailnet (bd_addrs b).
Proof.
  unfold bind_listeners. intros (tried & Ht & Hb)%rbind_ok.
  destruct tried as [b'|notices].
  - apply Ok_inj in Hb as <-. destruct tailnet as [t|]; [|done].
    destruct (is_tailnet_range t) eqn:Hr; [|done].
    apply rbind_ok in Ht as ([b''|[]] & Hp & Heq); [|done..].
    apply Ok_inj in Heq as [= ->]. apply bind_pair_inl in Hp as [port Hp].
    exists port. right. by exists t.
  - apply rbind_ok in Hb as (port & _ & <-%Ok_inj). exists port. by left.
Qed.

Lemma bindable_loopback tailnet bound a :
  bindable tailnet bound -> a ∈ bound -> is_loopback (sa_ip a) = true -> sa_ip a = LOOPBACK.
Proof.
  intros (port & [->|(t & -> & Hr & ->)]) Ha Hl.
  - by apply list_elem_of_singleton in Ha as ->.
  - apply elem_of_cons in Ha as [->|Ha]; [done|]. apply list_elem_of_singleton in Ha as ->. cbn in *.
    unfold is_tailnet_range, is_loopback in *. apply andb_true_iff in Hr as [Hr _].
    apply N.eqb_eq in Hr, Hl. congruence.
Qed.

Lemma authority_own tailnet token bound name :
  bindable tailnet bound -> authority_allowed (auth_new token bound) name = true ->
  own_name bound (to_ascii_lowercase name).
Proof.
  intros Hb. unfold authority_allowed, auth_new. cbn [au_authorities]. intros Hn.
  apply bool_decide_eq_true, list_elem_of_bind in Hn as (a & Hx & Ha). exists a. split; [done|].
  apply elem_of_cons in Hx as [->|Hx]; [by left|]. right.
  destruct (is_loopback (sa_ip a)) eqn:Hl; [|by apply elem_of_nil in Hx].
  apply list_elem_of_singleton in Hx. split; [by eapply bindable_loopback|done].
Qed.

Lemma own_origin_name tailnet token bound origin :
  bindable tailnet bound -> own_origin (auth_new token bound) origin = true ->
  exists authority, origin = txt "http://" ++ authority /\ own_name bound (to_ascii_lowercase authority).
Proof.
  intros Hb. unfold own_origin. destruct (strip_prefix _ _) as [authority|] eqn:E; [|done].
  intros Ha. exists authority. split; [by apply strip_prefix_Some in E|by eapply authority_own].
Qed.

Lemma document_navigation_spec p :
  document_navigation p = true ->
  rq_path p = txt "/" /\ rq_method p = GET /\
  header_str p (txt "sec-fetch-mode") = Some (txt "navigate") /\
  header_str p (txt "sec-fetch-dest") = Some (txt "document").
Proof. unfold document_navigation. intros [[[H1 H2]%andb_prop H3]%andb_prop H4]%andb_prop. by repeat split; eapply bool_decide_eq_true. Qed.

Lemma auth_check_status au p s : auth_check au p = Err s -> s = FORBIDDEN.
Proof. unfold auth_check. repeat case_match; congruence. Qed.

Lemma auth_check_genuine tailnet token bound p :
  bindable tailnet bound -> auth_check (auth_new token bound) p = Ok tt -> genuine token bound p.
Proof.
  intros Hb. unfold auth_check.
  destruct (header_str p (txt "host")) as [host|] eqn:Hh; [|done].
  destruct (authority_allowed _ host) eqn:Ha; [|done]. cbn [negb].
  destruct (match header_str p (txt "origin") with Some _ => _ | None => _ end) eqn:Ho; [done|].
  destruct (match header_str p (txt "sec-fetch-site") with Some _ => _ | None => _ end) eqn:Hs; [done|].
  destruct (presented_token p) as [t|] eqn:Ht; [|done].
  destruct (token_matches _ t) eqn:Hm; [|done]. intros _. apply bool_decide_eq_true in Hm. cbn in Hm. subst t.
  constructor.
  - exists host. split; [done|]. by eapply authority_own.
  - intros origin Heq. rewrite Heq in Ho. apply negb_false_iff in Ho. by eapply own_origin_name.
  - intros site Heq. rewrite Heq in Hs. apply andb_false_iff in Hs as [Hs|Hs]; apply negb_false_iff in Hs.
    + apply orb_prop in Hs as [Hs|Hs]; apply bool_decide_eq_true in Hs; auto.
    + right. right. by apply document_navigation_spec.
  - unfold presented_token in Ht. destruct (decide (rq_path p = txt "/")).
    + destruct (rq_query p) as [q|]; [|done]. by exists q.
    + destruct (header_str p (txt "authorization")) as [v|]; [|done]. by apply strip_prefix_Some in Ht as ->.
Qed.

Lemma check_control_own tailnet token bound p :
  bindable tailnet bound -> check_control (auth_new token bound) p = Ok tt -> from_own_page bound p.
Proof.
  intros Hb. unfold check_control.
  destruct (header_str p (txt "origin")) as [origin|] eqn:Ho; [|done].
  destruct (own_origin _ origin) eqn:Hown; [|done]. cbn [negb]. intros Hs.
  eapply own_origin_name in Hown as (authority & -> & Hn); [|done].
  constructor; [by exists authority|]. intros site Heq. rewrite Heq in Hs. by destruct (decide _).
Qed.

(** [100.64.0.0/10] by its octets. *)
Lemma tailnet_octets ip : is_tailnet_range ip = true -> (ip_a ip = 100 /\ 64 <= ip_b ip mod 256 < 128)%N.
Proof.
  unfold is_tailnet_range. intros [Ha%N.eqb_eq Hb%N.eqb_eq]%andb_prop. split; [done|].
  assert (N.land (ip_b ip mod 256) 192 = 64)%N as Hm.
  { change 256%N with (2 ^ 8)%N. rewrite <- N.land_ones, <- N.land_assoc. by rewrite (N.land_comm (N.ones 8)). }
  assert (ip_b ip mod 256 < 256)%N as Hl by by apply N.mod_lt. clear Ha Hb.
  generalize dependent (ip_b ip mod 256)%N. intros b Hm Hl.
  assert (forallb (fun k => negb (N.land k 192 =? 64) || (64 <=? k) && (k <? 128))%N (N.of_nat <$> seq 0 256) = true) as Hall by by vm_compute.
  rewrite forallb_forall in Hall. specialize (Hall b). rewrite Hm in Hall.
  assert (In b (N.of_nat <$> seq 0 256)) as Hin by (apply list_elem_of_In, list_elem_of_fmap; exists (N.to_nat b); rewrite N2Nat.id; split; [done|apply elem_of_seq; lia]).
  specialize (Hall Hin). cbn in Hall. apply andb_true_iff in Hall. rewrite N.leb_le, N.ltb_lt in Hall. lia.
Qed.

Lemma dedup_elem l x : x ∈ dedup l -> x ∈ l.
Proof.
  induction l as [|y [|z l] IH]; cbn [dedup]; [done..|].
  destruct (decide (y = z)) as [->|]; [by intros ?%IH; right|].
  intros [->|?%IH]%elem_of_cons; [by left|by right].
Qed.

Lemma candidate_present i v4 : tailnet_candidate i = Some v4 -> if_addr i = V4 v4 /\ is_tailnet_range v4 = true.
Proof. unfold tailnet_candidate. repeat case_match; naive_solver. Qed.

(** Whatever interfaces the machine has, whatever was asked for and
    however binding goes, a viewer listens on [127.0.0.1] and on nothing else,
    except, when the tailnet was asked for, on one address of [100.64.0.0/10]
    that a local interface has (one of Tailscale's, unless the operator named
    it), on the same port. *)
Theorem viewer_binds_own_addresses interfaces mode chosen attempts last b :
  bind_listeners (selection_address (select_tailnet_address interfaces mode chosen)) attempts last = Ok b ->
  exists port others,
    bd_addrs b = {| sa_ip := LOOPBACK; sa_port := port |} :: others /\
    (others = [] \/
     exists t i, others = [{| sa_ip := t; sa_port := port |}] /\ mode = BindTailnet /\
       ip_a t = 100%N /\ (64 <= ip_b t mod 256 < 128)%N /\
       i ∈ interfaces /\ if_addr i = V4 t /\
       (chosen = Some t \/ chosen = None /\ is_tailscale_interface (if_name i) = true)).
Proof.
  intros (port & [->|(t & Ht & Hr & ->)])%bind_listeners_bindable; exists port.
  { exists []. split; [done|by left]. }
  eexists. split; [done|]. right. exists t.
  assert (ip_a t = 100 /\ 64 <= ip_b t mod 256 < 128)%N as (Ha & Hb & Hb') by by apply tailnet_octets.
  unfold select_tailnet_address in Ht. destruct mode; [done|]. destruct chosen as [addr|].
  - destruct (is_tailnet_range addr); [|done]. destruct (existsb _ interfaces) eqn:Hi; [|done].
    injection Ht as ->. apply existsb_exists in Hi as (i & Hin & Heq%bool_decide_eq_true).
    exists i. split_and!; try done; [by apply list_elem_of_In|by left].
  - destruct (dedup _) as [|one [|]] eqn:Hd; try done. injection Ht as ->.
    assert (t ∈ omap tailnet_candidate interfaces) as (i & Hi & Hc)%list_elem_of_omap.
    { rewrite <- (merge_sort_Permutation ip_le). apply dedup_elem. rewrite Hd. by left. }
    exists i. apply candidate_present in Hc as Hp. destruct Hp as [Hp _].
    split_and!; try done. right. split; [done|]. unfold tailnet_candidate in Hc. by destruct (is_tailscale_interface _).
Qed.

Module BindDemo.
Definition tail : Ipv4Addr := {| ip_a := 100; ip_b := 100; ip_c := 1; ip_d := 2 |}.
Definition interfaces : list Interface :=
  [{| if_name := txt "eth0"; if_addr := V4 {| ip_a := 192; ip_b := 168; ip_c := 0; ip_d := 4 |} |};
   {| if_name := txt "Tailscale0"; if_addr := V4 tail |}; {| if_name := txt "tailscale0"; if_addr := V6 (txt "fd7a::1") |}].
(** The first port is taken on the loopback address, the second is free. *)
Definition attempts (left : nat) : Attempt :=
  {| at_tail := Ok (if (left =? 4)%nat then 4000 else 4001)%N; at_tail_addr := None;
     at_loopback := if (left =? 4)%nat then Err AddrInUse else Ok tt; at_addrs := None |}.
Definition bound : Bound :=
  {| bd_addrs := [{| sa_ip := LOOPBACK; sa_port := 4001 |}; {| sa_ip := tail; sa_port := 4001 |}]; bd_notices := [] |}.

Lemma viewer_binds_own_addresses_witness :
  bind_listeners (selection_address (select_tailnet_address interfaces BindTailnet None)) attempts (Ok 1%N) = Ok bound /\
  exists port others, bd_addrs bound = {| sa_ip := LOOPBACK; sa_port := port |} :: others.
Proof.
  split; [by vm_compute|].
  destruct (viewer_binds_own_addresses interfaces BindTailnet None attempts (Ok 1%N) bound) as (port & others & H & _);
    [by vm_compute|]. by exists port, others.
Defined.
End BindDemo.
