(* ===== verification/ViewerRoutes.v ===== *)
(** * The closed route table of the viewer ([viewer/http.rs], first part)

    Which path is which route, which methods a route takes, and the ids that
    paths carry. *)
From S2P Require Import Prelude Bytes Utf8 Registry Store ViewerAuth.

(** ** Definitions *)

Inductive Route :=
| Document
| Sessions
| Frame (id : text)
| EventsOf (id : text)
| Record_ (id : text)
| Annotate (id : text)
| Recordings
| Recording (rid : text)
| RecordingEvents (rid : text)
| Segment_ (rid : text) (n : N)
| Keep (rid : text)
| ControlOf (id : text)
| InputOf (id : text)
| BadId.

#[global] Instance Route_eq_dec : EqDecision Route.
Proof. solve_decision. Defined.

(** [Route::allows] *)
Definition allows (r : Route) (m : Method) : bool :=
  match r with
  | BadId => true
  | Document | Sessions | Frame _ | EventsOf _ => bool_decide (m = GET)
  | Record_ _ | Annotate _ | Keep _ | ControlOf _ | InputOf _ => bool_decide (m = POST)
  | Recordings | Recording _ | RecordingEvents _ | Segment_ _ _ => bool_decide (m = GET) || bool_decide (m = HEAD)
  end.

Definition percent : char := 37%N.

(** The loop of [percent_decode]: the bytes of the decoded text.  Each round
    takes a character at least. *)
Fixpoint percent_bytes (fuel : nat) (t : text) : option bytes :=
  match t, fuel with
  | [], _ => Some []
  | _, O => None
  | c :: r, S fuel =>
      if (c =? percent)%N then
        match split_bytes 2 r with
        | Some (hex, r) =>
            match u8_from_hex hex with
            | Some b => cons b <$> percent_bytes fuel r
            | None => None
            end
        | None => None
        end
      else app (utf8_char c) <$> percent_bytes fuel r
  end.

Definition percent_decode (input : text) : option text :=
  and_then (percent_bytes (length input) input) from_utf8.

(** [http.rs]'s [session_id] and [recording_id] *)
Definition route_session_id (raw : text) : option text :=
  match percent_decode raw with
  | Some id =>
      if bool_decide (slash ∈ id) then None
      else match session_id id with Ok id => Some id | Err _ => None end
  | None => None
  end.
Definition recording_id (raw : text) : option text := if valid_id raw then Some raw else None.

(** [str::rsplit_once] at a character. *)
Definition rsplit_once_char (c : char) (t : text) : option (text * text) :=
  match split_once_char c (reverse t) with
  | Some (a, b) => Some (reverse b, reverse a)
  | None => None
  end.

(** The routes below a session, by the last part of the path. *)
Definition session_routes : list (text * (text -> Route)) :=
  [(txt "frame", Frame); (txt "events", EventsOf); (txt "recording", Record_);
   (txt "annotations", Annotate); (txt "control", ControlOf); (txt "input", InputOf)].
Definition session_route (tail : text) : option (text -> Route) :=
  snd <$> find (fun r => bool_decide (fst r = tail)) session_routes.

Definition SESSIONS : text := txt "/api/sessions/".
Definition RECORDINGS : text := txt "/api/recordings/".

Definition u32_max : N := 4294967295%N.

(** The number of a segment as the path writes it. *)
Definition segment_number (n : text) : option N :=
  match parse_unsigned u32_max n with
  | Some k => if ((1 <=? k) && (k <=? MAX_SEGMENT))%N && forallb digit_byte (utf8 n) then Some k else None
  | None => None
  end.

Definition or_bad_id {A} (make : A -> Route) (id : option A) : Route :=
  match id with Some id => make id | None => BadId end.

Definition parse_route (path : text) : option Route :=
  if decide (path = txt "/") then Some Document
  else if decide (path = txt "/api/sessions") then Some Sessions
  else if decide (path = txt "/api/recordings") then Some Recordings
  else match strip_prefix SESSIONS path with
  | Some rest =>
      match rsplit_once_char slash rest with
      | Some (raw, tail) =>
          match session_route tail with
          | Some make => Some (or_bad_id make (route_session_id raw))
          | None => None
          end
      | None => None
      end
  | None =>
      match strip_prefix RECORDINGS path with
      | Some rest =>
          match split_char slash rest with
          | [raw] => Some (or_bad_id Recording (recording_id raw))
          | [raw; a] =>
              if decide (a = txt "events") then Some (or_bad_id RecordingEvents (recording_id raw))
              else if decide (a = txt "keep") then Some (or_bad_id Keep (recording_id raw))
              else None
          | [raw; a; n] =>
              if decide (a = txt "segments") then
                match recording_id raw, segment_number n with
                | Some id, Some number => Some (Segment_ id number)
                | _, _ => Some BadId
                end
              else None
          | _ => None
          end
      | None => None
      end
  end.

(** ** The encoding of ids in paths

    [encodeURIComponent], which the page uses on session ids. *)

(** Characters that stay as they are: letters, digits and [- _ . ! ~ * ' ( )]. *)
Definition unreserved (b : N) : bool :=
  is_ascii_alphanumeric b || bool_decide (b ∈ txt "-_.!~*'()").
Definition upper_hex (n : N) : char := if (n <? 10)%N then (48 + n)%N else (55 + n)%N.
Definition encode_byte (b : N) : text :=
  if unreserved b then [b] else [percent; upper_hex (b / 16); upper_hex (b mod 16)].
Definition encode_component (id : text) : text := utf8 id ≫= encode_byte.

(** ** Lemmas *)

Lemma upper_hex_value n : (n < 16)%N -> hex_value (upper_hex n) = Some n.
Proof.
  intros Hn. unfold upper_hex, hex_value. destruct (n <? 10)%N eqn:E; bools.
  - rewrite (proj2 (in_range_spec _ _ _)) by lia. f_equal. lia.
  - rewrite (proj2 (in_range_false _ _ _)) by lia. rewrite (proj2 (in_range_false _ _ _)) by lia.
    rewrite (proj2 (in_range_spec _ _ _)) by lia. f_equal. lia.
Qed.

Lemma upper_hex_ascii n : (n < 16)%N -> (upper_hex n < 128 /\ upper_hex n <> 43 /\ upper_hex n <> slash)%N.
Proof. unfold upper_hex, slash. destruct (n <? 10)%N eqn:E; bools; lia. Qed.

Lemma u8_from_two a b :
  (a < 16)%N -> (b < 16)%N -> u8_from_hex [upper_hex a; upper_hex b] = Some (16 * a + b)%N.
Proof.
  intros Ha Hb. unfold u8_from_hex. destruct (upper_hex_ascii a Ha) as (_ & Hp & _).
  apply N.eqb_neq in Hp. rewrite Hp. cbn [andb hex_digits]. rewrite !upper_hex_value by done.
  replace (16 * (16 * 0 + a) + b)%N with (16 * a + b)%N by lia.
  by rewrite (proj2 (N.leb_le _ _)) by lia.
Qed.

Lemma split_two a b r : (a < 128)%N -> (b < 128)%N -> split_bytes 2 (a :: b :: r) = Some ([a; b], r).
Proof.
  intros Ha Hb. cbn. unfold len_utf8.
  rewrite (proj2 (N.ltb_lt a 128)) by done. cbn. rewrite (proj2 (N.ltb_lt b 128)) by done. cbn. by destruct r.
Qed.

Lemma unreserved_ascii b : unreserved b = true -> (b < 128)%N /\ b <> percent /\ b <> slash.
Proof.
  unfold unreserved, is_ascii_alphanumeric, is_ascii_upper, is_ascii_lower, is_ascii_digit.
  rewrite !orb_true_iff, !in_range_spec, bool_decide_eq_true. unfold percent, slash.
  intros [?|Hb]; [lia|]. cbn in Hb.
  repeat (apply elem_of_cons in Hb as [->|Hb]; [lia|]). by apply elem_of_nil in Hb.
Qed.

Lemma percent_bytes_S fuel c r :
  percent_bytes (S fuel) (c :: r) =
  if (c =? percent)%N then
    match split_bytes 2 r with
    | Some (hex, r) => match u8_from_hex hex with Some b => cons b <$> percent_bytes fuel r | None => None end
    | None => None
    end
  else app (utf8_char c) <$> percent_bytes fuel r.
Proof. done. Qed.

Lemma percent_bytes_mono f f' t u :
  (f <= f')%nat -> percent_bytes f t = Some u -> percent_bytes f' t = Some u.
Proof.
  revert f' t u. induction f as [|f IH]; intros [|f'] [|c t] u Hf; cbn [percent_bytes]; try done; try lia.
  destruct (c =? percent)%N.
  - destruct (split_bytes 2 t) as [[hex r]|]; [|done]. destruct (u8_from_hex hex); [|done].
    intros (v & Hv & ->)%fmap_Some. rewrite (IH f' r v); [done|lia|done].
  - intros (v & Hv & ->)%fmap_Some. rewrite (IH f' t v); [done|lia|done].
Qed.

Lemma encode_byte_decode b fuel r bs :
  is_byte b -> percent_bytes fuel r = Some bs ->
  percent_bytes (length (encode_byte b) + fuel) (encode_byte b ++ r) = Some (b :: bs).
Proof.
  unfold is_byte, encode_byte. intros Hb Hr. destruct (unreserved b) eqn:E.
  - apply unreserved_ascii in E as (Ha & Hp & _). cbn [app length Nat.add percent_bytes].
    apply N.eqb_neq in Hp. rewrite Hp, Hr. unfold utf8_char. by rewrite (proj2 (N.ltb_lt b 128)) by done.
  - assert (b / 16 < 16)%N as H1 by (apply N.Div0.div_lt_upper_bound; lia).
    assert (b mod 16 < 16)%N as H2 by by apply N.mod_lt.
    cbn [app length Nat.add]. rewrite percent_bytes_S, N.eqb_refl, split_two by (by apply upper_hex_ascii).
    rewrite u8_from_two by done. rewrite <- N.Div0.div_mod.
    by rewrite (percent_bytes_mono fuel _ r bs) by (lia || done).
Qed.

Lemma utf8_char_bytes c : is_scalar c = true -> Forall is_byte (utf8_char c).
Proof.
  intros Hc%is_scalar_spec. unfold utf8_char, is_byte.
  assert (forall x, x mod 64 < 64)%N as Hm by (intros; by apply N.mod_lt).
  assert (c / 64 * 64 <= c)%N by (rewrite N.mul_comm; apply N.Div0.mul_div_le).
  assert (c / 4096 * 4096 <= c)%N by (rewrite N.mul_comm; apply N.Div0.mul_div_le).
  assert (c / 262144 * 262144 <= c)%N by (rewrite N.mul_comm; apply N.Div0.mul_div_le).
  pose proof (Hm c). pose proof (Hm (c / 64)%N). pose proof (Hm (c / 4096)%N).
  repeat case_match; bools; repeat constructor; lia.
Qed.

Lemma utf8_bytes t : Forall (fun c => is_scalar c = true) t -> Forall is_byte (utf8 t).
Proof.
  intros Ht. unfold utf8. apply Forall_bind. eapply Forall_impl; [exact Ht|]. apply utf8_char_bytes.
Qed.

Lemma percent_decode_encode id :
  Forall (fun c => is_scalar c = true) id -> percent_decode (encode_component id) = Some id.
Proof.
  intros Hid. unfold percent_decode, encode_component.
  assert (percent_bytes (length (utf8 id ≫= encode_byte)) (utf8 id ≫= encode_byte) = Some (utf8 id)) as ->.
  { pose proof (utf8_bytes id Hid) as Hb. induction Hb as [|b bs Hb Hbs IH]; [done|].
    cbn [mbind list_bind]. rewrite length_app. by apply encode_byte_decode. }
  cbn [and_then]. by apply from_utf8_utf8.
Qed.

Lemma encode_component_no_slash id : slash ∉ encode_component id.
Proof.
  unfold encode_component. intros (b & Hs & Hb)%list_elem_of_bind. unfold encode_byte in Hs.
  destruct (unreserved b) eqn:E.
  - apply list_elem_of_singleton in Hs as <-. by apply unreserved_ascii in E as (_ & _ & ?).
  - assert (forall n, slash = upper_hex n -> False) as Hx.
    { intros n. unfold upper_hex, slash. destruct (n <? 10)%N eqn:En; bools; [|lia]. intros ?. lia. }
    repeat (apply elem_of_cons in Hs as [Hs|Hs]; [try discriminate Hs; by apply Hx in Hs|]).
    by apply elem_of_nil in Hs.
Qed.

Lemma rsplit_once_char_Some c t a b :
  rsplit_once_char c t = Some (a, b) <-> t = a ++ c :: b /\ c ∉ b.
Proof.
  unfold rsplit_once_char. destruct (split_once_char c (reverse t)) as [[x y]|] eqn:E.
  - apply split_once_char_Some in E as [Ht Hx].
    assert (t = reverse y ++ c :: reverse x) as Ht'.
    { by rewrite <- (reverse_involutive t), Ht, reverse_app, reverse_cons, <- app_assoc. }
    split.
    + intros [= <- <-]. split; [done|]. by rewrite elem_of_reverse.
    + intros [-> Hb]. assert (split_once_char c (reverse (a ++ c :: b)) = Some (reverse b, reverse a)) as He.
      { apply split_once_char_Some. rewrite reverse_app, reverse_cons, <- app_assoc, elem_of_reverse. done. }
      assert (Some (x, y) = Some (reverse b, reverse a)) as [= -> ->].
      { rewrite <- He. symmetry. by apply split_once_char_Some. }
      by rewrite !reverse_involutive.
  - split; [done|]. intros [-> _]. apply split_once_char_None in E. rewrite elem_of_reverse in E. set_solver.
Qed.

Lemma route_session_id_some raw id :
  route_session_id raw = Some id -> percent_decode raw = Some id /\ slash ∉ id /\ id <> [].
Proof.
  unfold route_session_id. destruct (percent_decode raw) as [i|]; [|done].
  destruct (bool_decide (slash ∈ i)) eqn:E; [done|]. bools. destruct i; [done|]. by intros [= <-].
Qed.

(** What a parsed route says of its path. *)
Definition session_path (id path : text) : Prop :=
  exists raw tail, path = SESSIONS ++ raw ++ slash :: tail /\ percent_decode raw = Some id /\ id <> [] /\ slash ∉ id.
Definition recording_path (rid path : text) : Prop :=
  valid_id rid = true /\ exists rest, path = RECORDINGS ++ rid ++ rest.

(** The id a route names. *)
Definition route_session (r : Route) : option text :=
  match r with
  | Frame id | EventsOf id | Record_ id | Annotate id | ControlOf id | InputOf id => Some id
  | _ => None
  end.
Definition route_recording (r : Route) : option text :=
  match r with
  | Recording rid | RecordingEvents rid | Segment_ rid _ | Keep rid => Some rid
  | _ => None
  end.

Lemma session_route_names tail make id :
  session_route tail = Some make -> route_session (make id) = Some id /\ route_recording (make id) = None.
Proof.
  unfold session_route. intros (x & Hx & ->)%fmap_Some. apply find_some in Hx as [Hin _].
  repeat (destruct Hin as [<-|Hin]; [done|]). done.
Qed.

Lemma parse_route_session path r id :
  parse_route path = Some r -> route_session r = Some id -> session_path id path.
Proof.
  unfold parse_route. do 3 (destruct (decide _); [by intros [= <-]|]).
  destruct (strip_prefix SESSIONS path) as [rest|] eqn:E.
  - destruct (rsplit_once_char slash rest) as [[raw tail]|] eqn:Er; [|done].
    destruct (session_route tail) as [make|] eqn:Em; [|done]. intros [= <-].
    destruct (route_session_id raw) as [i|] eqn:Ei; [|done]. cbn [or_bad_id].
    destruct (session_route_names _ _ i Em) as [-> _]. intros [= ->].
    apply strip_prefix_Some in E as ->. apply rsplit_once_char_Some in Er as [-> _].
    apply route_session_id_some in Ei as (? & ? & ?). by exists raw, tail.
  - destruct (strip_prefix RECORDINGS path); [|done]. unfold or_bad_id, recording_id.
    repeat (case_match; try done); intros [= <-]; done.
Qed.

Lemma recording_id_some raw rid : recording_id raw = Some rid -> raw = rid /\ valid_id rid = true.
Proof. unfold recording_id. destruct (valid_id raw) eqn:E; naive_solver. Qed.

Lemma split_char_first c t p ps : split_char c t = p :: ps -> exists r, t = p ++ r.
Proof.
  revert p ps. induction t as [|x t IH]; intros p ps; cbn [split_char]; [intros [= <- <-]; by exists []|].
  destruct (x =? c)%N; [intros [= <- <-]; by exists (x :: t)|].
  destruct (split_char c t) as [|q qs]; [intros [= <- <-]; by exists t|]. intros [= <- <-].
  destruct (IH q qs eq_refl) as [r ->]. by exists r.
Qed.

Lemma parse_route_recording path r rid :
  parse_route path = Some r -> route_recording r = Some rid -> recording_path rid path.
Proof.
  unfold parse_route. do 3 (destruct (decide _); [by intros [= <-]|]).
  destruct (strip_prefix SESSIONS path) as [rest|].
  - destruct (rsplit_once_char slash rest) as [[raw tail]|]; [|done].
    destruct (session_route tail) as [make|] eqn:Em; [|done]. intros [= <-].
    destruct (route_session_id raw) as [i|]; [|done]. cbn [or_bad_id].
    by destruct (session_route_names _ _ i Em) as [_ ->].
  - destruct (strip_prefix RECORDINGS path) as [rest|] eqn:E; [|done]. apply strip_prefix_Some in E as ->.
    destruct (split_char slash rest) as [|raw ps] eqn:Es; [done|].
    apply split_char_first in Es as [r' ->]. intros Hr Hid.
    assert (recording_id raw = Some rid) as [-> Hv]%recording_id_some.
    { unfold or_bad_id in Hr. repeat (case_match; simplify_eq/=; try done). }
    split; [done|]. by exists r'.
Qed.

(** The path a page builds for a session leads to that session: for every
    session id that is a text without a slash, whatever else is in it, the
    percent-encoded path below it is read as the route of exactly that id; and
    whatever path is read as a session's, the id it decodes to is the id of the
    route. *)
Theorem session_paths_roundtrip id tail make :
  Forall (fun c => is_scalar c = true) id -> id <> [] -> slash ∉ id ->
  In (tail, make) session_routes ->
  parse_route (SESSIONS ++ encode_component id ++ slash :: tail) = Some (make id) /\
  (forall path r id', parse_route path = Some r -> route_session r = Some id' -> session_path id' path).
Proof.
  intros Hid Hne Hs Hin. split; [|by intros; eapply parse_route_session].
  assert (slash ∉ tail /\ session_route tail = Some make) as [Ht Hm].
  { repeat (destruct Hin as [[= <- <-]|Hin]; [by split; [by vm_compute; set_solver|]|]). done. }
  assert (forall t, In t [txt "/"; txt "/api/sessions"; txt "/api/recordings"] ->
    SESSIONS ++ encode_component id ++ slash :: tail <> t) as Hno.
  { intros t Ht' Heq. assert (exists r, t = SESSIONS ++ r) as [r Hr] by (rewrite <- Heq; by eexists).
    repeat (destruct Ht' as [<-|Ht']; [discriminate Hr|]). done. }
  unfold parse_route. do 3 (rewrite decide_False; [|apply Hno; simpl; tauto]).
  rewrite (proj2 (strip_prefix_Some _ _ _) eq_refl).
  rewrite (proj2 (rsplit_once_char_Some slash _ _ tail) (conj eq_refl Ht)), Hm. f_equal.
  unfold route_session_id. rewrite percent_decode_encode by done.
  rewrite bool_decide_eq_false_2 by done. by destruct id.
Qed.

(** A session whose name has a letter of two bytes, a space and a percent sign. *)
Lemma session_paths_roundtrip_witness :
  parse_route (SESSIONS ++ encode_component (233 :: txt " 50%")%N ++ slash :: txt "frame") = Some (Frame (233 :: txt " 50%")%N).
Proof.
  destruct (session_paths_roundtrip (233 :: txt " 50%")%N (txt "frame") Frame) as [H _]; [..|exact H].
  - by repeat constructor.
  - done.
  - refine (bool_decide_unpack _ _). by vm_compute.
  - by left.
Defined.

(** A sign after the percent sign is taken for part of the number. *)
Example plus_sign_is_decoded : percent_decode (txt "a%+1b") = Some (txt "a" ++ [1%N] ++ txt "b").
Proof. by vm_compute. Qed.
