(* ===== verification/Viewer.v ===== *)
(** * The viewer's request handler ([viewer/http.rs], [replay.rs], [control.rs])

    [handle] is one request, call after call, as a program over the operations
    that the viewer is given: [ViewerRegistry], [ViewerControl], the body of
    the request, the frame cache, the request rates and the random source
    ([ViewerOp]).  What the operations do is modelled elsewhere ([Control.v],
    [Registry.v], [Store.v], [ViewerFrames.v]) and is arbitrary here. *)
From S2P Require Import Prelude Bytes Utf8 Json Vocab Events Control Registry Store ViewerAuth ViewerRoutes Prog.
Open Scope prog_scope.

(** ** Responses *)

Record Response := { rs_status : N; rs_headers : list (text * text); rs_body : bytes }.

(** [HeaderMap::insert]: the field replaces those of its name. *)
Definition header_insert (name value : text) (r : Response) : Response :=
  {| rs_status := rs_status r; rs_body := rs_body r;
     rs_headers := List.filter (fun h => negb (bool_decide (fst h = name))) (rs_headers r) ++ [(name, value)] |}.
Definition has_header (name : text) (r : Response) : bool :=
  existsb (fun h => bool_decide (fst h = name)) (rs_headers r).
(** [HeaderValue::from_str] *)
Definition header_value (t : text) : option text := if forallb visible (utf8 t) then Some t else None.
(** [if let Ok(v) = HeaderValue::from_str(..) { headers.insert(..) }] *)
Definition insert_valid (name value : text) (r : Response) : Response :=
  match header_value value with Some v => header_insert name v r | None => r end.

Definition with_security_headers (r : Response) : Response :=
  let r := header_insert (txt "cache-control") (txt "no-store") r in
  let r := header_insert (txt "referrer-policy") (txt "no-referrer") r in
  let r := header_insert (txt "x-content-type-options") (txt "nosniff") r in
  let r := header_insert (txt "x-frame-options") (txt "DENY") r in
  if has_header (txt "content-security-policy") r then r
  else header_insert (txt "content-security-policy") (txt "default-src 'none'; frame-ancestors 'none'") r.

Definition response (status : N) (content_type : text) (body : bytes) : Response :=
  with_security_headers
    (header_insert (txt "content-type") content_type {| rs_status := status; rs_headers := []; rs_body := body |}).
Definition empty (status : N) : Response :=
  with_security_headers {| rs_status := status; rs_headers := []; rs_body := [] |}.

(** ** The operations *)

(** What reading a body of at most so many bytes, for at most so long, ends
    with. *)
Inductive BodyRead := BodyTimeout | BodyTooLong | BodyFailed | BodyBytes (bs : bytes).

Record Encoded := { ef_seq : N; ef_width : N; ef_height : N; ef_png : bytes; ef_at : Z; ef_encode_ms : N }.
Inductive FrameReply := FrameNew (e : Encoded) | FrameNoChange | FrameEnded | FrameClosed | FrameFailed.

(** [registry.rs]: [Refusal] and [ControlRefusal] *)
Inductive RecRefusal := RecNoSession (m : text) | RecRejected (m : text) | RecUnavailable (m : text).
Inductive LeaseRefusal := LrNoSession | LrNotHeld (n : NotHeld) | LrTake (e : TakeError) | LrUnavailable.

(** An answer of a blocking task is [None] when the task did not finish. *)
Inductive ViewerOp : Type -> Type :=
| ReadBody (limit : N) (timeout : Z) : ViewerOp BodyRead
| RandomBytes : ViewerOp (option (list N))
| ListSessions : ViewerOp (list (text * Value))
| RetainFrames (live : list text) : ViewerOp unit
| NextFrame (id : text) (after : N) : ViewerOp FrameReply
| EventsAfter (id : text) (after : N) : ViewerOp (Lookup Value)
| RecordStart (id : text) : ViewerOp (result RecRefusal (text * bool))
| RecordStop (id : text) : ViewerOp (result RecRefusal (option text))
| AddAnnotation (id t : text) : ViewerOp (result RecRefusal text)
| KeepRecording (rid : text) (keep : bool) : ViewerOp (option (result text bool))
| ListRecordings : ViewerOp (option (result text (list (text * Value))))
| HasStore : ViewerOp bool
| ReadDetail (rid : text) : ViewerOp (option (option (Value * bool * bool)))
| ReadRecordingEvents (rid : text) : ViewerOp (option (option (list Value)))
| ReadSegment (rid : text) (n : N) : ViewerOp (option (option bytes))
| RateAllows (id : text) (input : bool) (cost : N) : ViewerOp bool
| TakeLease (id : text) (peer : IpAddr) : ViewerOp (result LeaseRefusal (Grant * option (Z * Z)))
| Heartbeat (id lease : text) : ViewerOp (result LeaseRefusal unit)
| BlurLease (id lease : text) : ViewerOp (result LeaseRefusal unit)
| ReleaseLease (id lease : text) : ViewerOp (result LeaseRefusal unit)
| SendInput (id lease : text) (generation : Z) (geometry : Z * Z) (events : list RawInput) :
    ViewerOp (result LeaseRefusal InputReport).

(** ** JSON *)

Definition JObj (ms : list (string * Value)) : Value := JObject ((fun m => (txt (fst m), snd m)) <$> ms).
Definition JNat (n : N) : Value := JNumber (dec n).
Definition JInt (z : Z) : Value := JNumber (if (z <? 0)%Z then txt "-" ++ dec (Z.to_N (- z)) else dec (Z.to_N z)).
Definition JOpt {A} (f : A -> Value) (o : option A) : Value := match o with Some a => f a | None => JNull end.

(** The derived serializations of [ControllerRef], [Loss], [WireController]
    and [Drops]: an absent optional field is left out. *)
Definition some_member (name : string) (o : option text) : list (string * Value) :=
  match o with Some t => [(name, JString t)] | None => [] end.
Definition controller_ref_value (c : ControllerRef) : Value :=
  match c with
  | Agent => JObj [("kind", JString (txt "agent"))]
  | Human address => JObj [("kind", JString (txt "human")); ("address", JString address)]
  end%string.
Definition loss_value (l : Loss) : Value :=
  JObj ((match loss_by l with Some c => [("by"%string, controller_ref_value c)] | None => [] end)
        ++ some_member "reason" (loss_reason l)).
Definition wire_controller_value (c : WireController) : Value :=
  JObj (("kind"%string, JString (match wc_kind c with WkAgent => txt "agent" | WkHuman => txt "human" end))
        :: some_member "address" (wc_address c) ++ some_member "since" (wc_since c)).
Definition drops_value (d : Drops) : Value :=
  JObj [("stale", JInt (d_stale d)); ("geometry", JInt (d_geometry d)); ("generation", JInt (d_generation d))]%string.

Definition lost_value (lost : NotHeld) : Value :=
  match lost with Lost loss => loss_value loss | NhUnknown => JNull end.

Record ControlBody := { cb_action : text; cb_lease : option text }.
Record InputBody := { ib_lease : text; ib_generation : Z; ib_width : Z; ib_height : Z; ib_events : list RawInput }.

Definition MAX_BODY : N := 8 * 1024.
Definition MAX_EVENTS : nat := 64.
Definition u64_maxN : N := 18446744073709551615.

(** ** Segments: [parse_range] and its reply *)

(** [None]: no usable range; [Some None]: not satisfiable; [Some (Some (s, e))]:
    the bytes from [s] to [e], both included. *)
Definition parse_range (value : text) (len : N) : option (option (N * N)) :=
  match strip_prefix (txt "bytes=") (trim value) with
  | None => None
  | Some spec =>
      if bool_decide (44%N ∈ spec) then None
      else match split_once_char 45%N spec with
      | None => None
      | Some (start, end_) =>
          let start := trim start in
          let end_ := trim end_ in
          if bool_decide (start = []) then
            match parse_unsigned u64_maxN end_ with
            | None => None
            | Some suffix =>
                if ((suffix =? 0) || (len =? 0))%N then Some None
                else Some (Some (len - suffix, len - 1)%N)
            end
          else
            match parse_unsigned u64_maxN start with
            | None => None
            | Some s =>
                match (if bool_decide (end_ = []) then Some (len - 1)%N
                       else match parse_unsigned u64_maxN end_ with
                            | Some e => Some (N.min e (len - 1))
                            | None => None
                            end) with
                | None => None
                | Some e => if ((len <=? s) || (e <? s))%N then Some None else Some (Some (s, e))
                end
            end
      end
  end.

(** [Bytes::slice(s..=e)]: [None] is its panic. *)
Definition slice_inclusive (s e : N) (bs : bytes) : option bytes :=
  if ((s <=? e + 1) && (e <? blen bs))%N then Some (btake (e + 1 - s) (bdrop s bs)) else None.

(** The reply to a segment read: [None] is a panic. *)
Definition segment_reply (bs : bytes) (range : option text) : option Response :=
  let len := blen bs in
  let accept r := header_insert (txt "accept-ranges") (txt "bytes") r in
  match and_then range (fun r => parse_range r len) with
  | None => Some (accept (response 200 (txt "video/webm") bs))
  | Some None => Some (insert_valid (txt "content-range") (txt "bytes */" ++ dec len) (empty 416))
  | Some (Some (s, e)) =>
      match slice_inclusive s e bs with
      | Some part =>
          Some (accept (insert_valid (txt "content-range")
                  (txt "bytes " ++ dec s ++ txt "-" ++ dec e ++ txt "/" ++ dec len)
                  (response 206 (txt "video/webm") part)))
      | None => None
      end
  end.

(** ** The handlers *)

(** [str::contains] of a text. *)
Definition contains (p t : text) : bool := bool_decide (is_Some (split_once p t)).

(** [str::replace]: each round passes one occurrence. *)
Fixpoint replace_fuel (fuel : nat) (p by_ t : text) : text :=
  match fuel with
  | O => t
  | S fuel => match split_once p t with
              | Some (a, b) => a ++ by_ ++ replace_fuel fuel p by_ b
              | None => t
              end
  end.
Definition replace (p by_ t : text) : text := replace_fuel (S (length t)) p by_ t.

Section Viewer.
(** serde_json on values, and the derived readers of the two request bodies. *)
Context {HS : Serde Value}.
Context (read_control : Value -> option ControlBody) (read_input : Value -> option InputBody).
(** The page ([page.html]). *)
Context (PAGE : text).

Abbreviation handler := (prog ViewerOp Response).

(** [Token::generate]: 32 random bytes in hexadecimal. *)
Definition generate : prog ViewerOp (option text) :=
  let! random := act RandomBytes in
  Ret (option_map (fun bytes => concat (map hex_of_byte (take 32 bytes))) random).

(** [ServerState], the parts that a request reads. *)
Record ServerState := {
  sv_auth : AuthPolicy; sv_control : bool; sv_read_only : bool; sv_idle_timeout : Z; sv_header_read_timeout : Z }.

Definition sv_new (auth : AuthPolicy) (timeout : Z) : ServerState :=
  {| sv_auth := auth; sv_control := false; sv_read_only := false; sv_idle_timeout := DEFAULT_IDLE_TIMEOUT;
     sv_header_read_timeout := timeout |}.
Definition with_control (idle_timeout : Z) (s : ServerState) : ServerState :=
  {| sv_auth := sv_auth s; sv_control := true; sv_read_only := sv_read_only s; sv_idle_timeout := idle_timeout;
     sv_header_read_timeout := sv_header_read_timeout s |}.
Definition read_only (s : ServerState) : ServerState :=
  {| sv_auth := sv_auth s; sv_control := false; sv_read_only := true; sv_idle_timeout := sv_idle_timeout s;
     sv_header_read_timeout := sv_header_read_timeout s |}.

(** [replay::json] *)
Definition json (status : N) (value : Value) : Response :=
  match to_vec value with
  | Ok body => response status (txt "application/json") body
  | Err _ => empty 500
  end.

Definition read_json (timeout : Z) (p : Parts) : prog ViewerOp (result N Value) :=
  let content_type := default [] (header_str p (txt "content-type")) in
  let media := trim (hd [] (split_char 59%N content_type)) in
  if negb (eq_ignore_ascii_case media (txt "application/json")) then Ret (Err 415%N)
  else if match and_then (header_str p (txt "content-length")) (parse_unsigned u64_maxN) with
          | Some n => (MAX_BODY <? n)%N
          | None => false
          end then Ret (Err 413%N)
  else let! collected := act (ReadBody MAX_BODY timeout) in
  Ret match collected with
      | BodyTimeout => Err 408%N
      | BodyTooLong => Err 413%N
      | BodyFailed => Err 400%N
      | BodyBytes bs => match from_slice bs with Ok v => Ok v | Err _ => Err 400%N end
      end.

(** [replay::refusal] and [replay::changed] *)
Definition rec_refusal (r : RecRefusal) : Response :=
  let '(status, message) := match r with
    | RecNoSession m => (404%N, m)
    | RecRejected m => (if contains (txt "bytes") m || contains (txt "empty") m then 400%N else 409%N, m)
    | RecUnavailable m => (503%N, m)
    end in
  json status (JObj [("error"%string, JString message)]).
Definition changed (id : option text) (c : bool) (message : text) : Response :=
  json 200 (JObj [("id", JOpt JString id); ("changed", JBool c); ("message", JString message)]%string).

Definition post_recording (id : text) (body : Value) : handler :=
  match and_then (get (txt "action") body) as_str with
  | Some action =>
      if decide (action = txt "start") then
        let! r := act (RecordStart id) in
        Ret match r with
            | Ok (rid, true) => changed (Some rid) true (txt "recording started (" ++ rid ++ txt ")")
            | Ok (rid, false) => changed (Some rid) false (txt "already recording (" ++ rid ++ txt "); nothing changed")
            | Err e => rec_refusal e
            end
      else if decide (action = txt "stop") then
        let! r := act (RecordStop id) in
        Ret match r with
            | Ok (Some rid) => changed (Some rid) true (txt "recording stopped (" ++ rid ++ txt ")")
            | Ok None => changed None false (txt "session is not recording; nothing changed")
            | Err e => rec_refusal e
            end
      else Ret (empty 400)
  | None => Ret (empty 400)
  end.

Definition post_annotation (id : text) (body : Value) : handler :=
  match and_then (get (txt "text") body) as_str with
  | None => Ret (empty 400)
  | Some t =>
      let! r := act (AddAnnotation id t) in
      Ret match r with
          | Ok rid => changed (Some rid) true (txt "annotation added to " ++ rid)
          | Err e => rec_refusal e
          end
  end.

Definition post_keep (rid : text) (body : Value) : handler :=
  match and_then (get (txt "keep") body) as_bool with
  | None => Ret (empty 400)
  | Some keep =>
      let! r := act (KeepRecording rid keep) in
      Ret match r with
          | Some (Ok was_changed) =>
              changed (Some rid) was_changed (if keep then rid ++ txt " kept" else rid ++ txt " no longer kept")
          | Some (Err message) =>
              json (if starts_with (txt "unknown") message then 404 else 503) (JObj [("error"%string, JString message)])
          | None => empty 500
          end
  end.

(** [replay::list], [detail], [events] and [segment] *)
Definition list_recordings : handler :=
  let! r := act ListRecordings in
  Ret match r with
      | Some (Ok listing) => json 200 (JObject listing)
      | Some (Err message) => json 503 (JObj [("error"%string, JString message)])
      | None => empty 500
      end.

Definition with_store (k : handler) : handler :=
  let! has := act HasStore in
  if has : bool then k else Ret (empty 503).

Definition detail (rid : text) : handler :=
  with_store (
  let! r := act (ReadDetail rid) in
  Ret match r with
      | Some (Some (manifest, kept, active)) =>
          json 200 (JObj [("manifest", manifest); ("kept", JBool kept); ("active", JBool active)]%string)
      | Some None => empty 404
      | None => empty 500
      end).

Definition recording_events (rid : text) : handler :=
  with_store (
  let! r := act (ReadRecordingEvents rid) in
  Ret match r with
      | Some (Some evs) => json 200 (JArray evs)
      | Some None => empty 404
      | None => empty 500
      end).

(** A panic ends the connection without a response; it never happens
    ([segment_reply_total]). *)
Definition segment (rid : text) (n : N) (range : option text) : handler :=
  with_store (
  let! r := act (ReadSegment rid n) in
  Ret match r with
      | Some (Some bs) => default (empty 500) (segment_reply bs range)
      | Some None => empty 404
      | None => empty 500
      end).

(** [control.rs] *)
Definition BUSY_MESSAGE : text :=
  txt "an agent operation is still running (a tool call, native input, or a long file transfer or screenshot); it was not interrupted; try again".

Definition not_held (lost : NotHeld) : Response :=
  json 409 (JObj [("held", JBool false); ("lost", lost_value lost)]%string).
Definition lease_refusal (r : LeaseRefusal) : Response :=
  match r with
  | LrNoSession => empty 404
  | LrNotHeld lost => not_held lost
  | LrTake Busy => json 409 (JObj [("held", JBool false); ("error", JString BUSY_MESSAGE)]%string)
  | LrTake (TakeLost loss) => not_held (Lost loss)
  | LrUnavailable => empty 503
  end.
Definition done_ (r : result LeaseRefusal unit) (held : bool) : Response :=
  match r with Ok _ => json 200 (JObj [("held"%string, JBool held)]) | Err e => lease_refusal e end.

Definition post_control (id : text) (peer : IpAddr) (body : Value) : handler :=
  match read_control body with
  | None => Ret (empty 400)
  | Some body =>
      let! allowed := act (RateAllows id false 1) in
      if negb allowed then Ret (empty 429) else
      let lease := default [] (cb_lease body) in
      if decide (cb_action body = txt "take") then
        let! r := act (TakeLease id peer) in
        Ret match r with
            | Ok (grant, geometry) =>
                let '(width, height) := default (0, 0)%Z geometry in
                json 200 (JObj [("held", JBool true); ("lease", JString (g_lease grant));
                  ("generation", JInt (g_generation grant)); ("width", JInt width); ("height", JInt height);
                  ("controller", wire_controller_value (g_controller grant))]%string)
            | Err e => lease_refusal e
            end
      else if decide (cb_action body = txt "heartbeat") then
        let! r := act (Heartbeat id lease) in Ret (done_ r true)
      else if decide (cb_action body = txt "blur") then
        let! r := act (BlurLease id lease) in Ret (done_ r true)
      else if decide (cb_action body = txt "release") then
        let! r := act (ReleaseLease id lease) in Ret (done_ r false)
      else Ret (empty 400)
  end.

Definition post_input (id : text) (body : Value) : handler :=
  match read_input body with
  | None => Ret (empty 400)
  | Some body =>
      if (MAX_EVENTS <? length (ib_events body))%nat then Ret (empty 413) else
      let! allowed := act (RateAllows id true (N.of_nat (Nat.max (length (ib_events body)) 1))) in
      if negb allowed then Ret (empty 429) else
      let! r := act (SendInput id (ib_lease body) (ib_generation body) (ib_width body, ib_height body) (ib_events body)) in
      Ret match r with
          | Ok report =>
              let value := [("applied", JInt (ir_applied report)); ("dropped", drops_value (ir_dropped report));
                            ("held", JBool (bool_decide (ir_lost report = None)))]%string in
              match ir_lost report with
              | None => json 200 (JObj value)
              | Some lost => json 409 (JObj (value ++ [("lost"%string, lost_value lost)]))
              end
          | Err e => lease_refusal e
          end
  end.

Definition state_body (state : string) : bytes :=
  utf8 (txt "{" ++ [dquote] ++ txt "state" ++ [dquote] ++ txt ":" ++ [dquote] ++ txt state ++ [dquote] ++ txt "}").
Definition gone (state : string) : Response := response 410 (txt "application/json") (state_body state).

(** [http.rs]: [events], [document], [sessions] and [frame] *)
Definition events_page (id : text) (after : N) : handler :=
  let! r := act (EventsAfter id after) in
  Ret match r with
      | LkFound _ page => json 200 page
      | LkUnavailable _ => empty 204
      | LkClosed _ => gone "closed"
      end.

Definition document : handler :=
  let! token := generate in
  Ret match token with
      | None => empty 500
      | Some token =>
          let nonce := take 32 token in
          let r := response 200 (txt "text/html; charset=utf-8") (utf8 (replace (txt "__NONCE__") nonce PAGE)) in
          insert_valid (txt "content-security-policy")
            (txt "default-src 'none'; script-src 'nonce-" ++ nonce ++ txt "'; style-src 'nonce-" ++ nonce
             ++ txt "'; img-src blob:; media-src blob:; connect-src 'self'; frame-ancestors 'none'; base-uri 'none'; form-action 'none'") r
      end.

Definition sessions (st : ServerState) : handler :=
  let! list := act ListSessions in
  do! act (RetainFrames (list_omap _ _ (fun s => match session_id (fst s) with Ok id => Some id | Err _ => None end) list)) in
  Ret (json 200 (JObj [("sessions", JArray (map snd list)); ("control", JBool (sv_control st));
    ("writes", JBool (negb (sv_read_only st))); ("idle_timeout_secs", JInt (sv_idle_timeout st / seconds 1))]%string)).

Definition frame (id : text) (after : N) : handler :=
  let! reply := act (NextFrame id after) in
  Ret match reply with
      | FrameNew e =>
          let r := response 200 (txt "image/png") (ef_png e) in
          let r := insert_valid (txt "x-frame-seq") (dec (ef_seq e)) r in
          let r := insert_valid (txt "x-frame-width") (dec (ef_width e)) r in
          let r := insert_valid (txt "x-frame-height") (dec (ef_height e)) r in
          insert_valid (txt "x-frame-encode-ms") (dec (ef_encode_ms e)) r
      | FrameNoChange => empty 204
      | FrameEnded => gone "ended"
      | FrameClosed => gone "closed"
      | FrameFailed => empty 500
      end.

(** Read the body, then go on with it. *)
Definition with_json (st : ServerState) (p : Parts) (k : Value -> handler) : handler :=
  let! r := read_json (sv_header_read_timeout st) p in
  match r with Ok v => k v | Err status => Ret (empty status) end.

(** The match of [handle] on the route. *)
Definition serve_route (st : ServerState) (peer : IpAddr) (p : Parts) (r : Route) : handler :=
  match r with
  | Document => document
  | Sessions => sessions st
  | BadId => Ret (empty 404)
  | Frame id =>
      frame id (default 0%N (and_then (query_param (rq_query p) (txt "after")) (parse_unsigned u64_maxN)))
  | EventsOf id =>
      match query_param (rq_query p) (txt "after") with
      | None => events_page id 0
      | Some value => match parse_unsigned u64_maxN value with
                      | Some after => events_page id after
                      | None => Ret (empty 400)
                      end
      end
  | Record_ id => with_json st p (post_recording id)
  | Annotate id => with_json st p (post_annotation id)
  | ControlOf id => with_json st p (post_control id peer)
  | InputOf id => with_json st p (post_input id)
  | Keep rid => with_json st p (post_keep rid)
  | Recordings => list_recordings
  | Recording rid => detail rid
  | RecordingEvents rid => recording_events rid
  | Segment_ rid n => segment rid n (and_then (header_get p (txt "range")) to_str)
  end.

Definition is_control_route (r : Route) : bool :=
  match r with ControlOf _ | InputOf _ => true | _ => false end.

Definition handle (st : ServerState) (peer : IpAddr) (p : Parts) : handler :=
  match auth_check (sv_auth st) p with
  | Err status => Ret (empty status)
  | Ok _ =>
      match parse_route (rq_path p) with
      | None =>
          if bool_decide (rq_method p = GET) || bool_decide (rq_method p = HEAD)
          then Ret (empty 404) else Ret (empty 405)
      | Some r =>
          if negb (allows r (rq_method p)) then Ret (empty 405)
          else if bool_decide (rq_method p = POST) && sv_read_only st then Ret (empty 404)
          else if is_control_route r then
            if negb (sv_control st) then Ret (empty 404)
            else match check_control (sv_auth st) p with
                 | Err status => Ret (empty status)
                 | Ok _ => serve_route st peer p r
                 end
          else serve_route st peer p r
      end
  end.

(** ** Operations and whom they concern *)

(** The session, or the recording, that an operation is about. *)
Definition op_session {B} (o : ViewerOp B) : option text :=
  match o with
  | NextFrame id _ | EventsAfter id _ | RecordStart id | RecordStop id | AddAnnotation id _
  | RateAllows id _ _ | TakeLease id _ | Heartbeat id _ | BlurLease id _ | ReleaseLease id _
  | SendInput id _ _ _ _ => Some id
  | _ => None
  end.
Definition op_recording {B} (o : ViewerOp B) : option text :=
  match o with
  | KeepRecording rid _ | ReadDetail rid | ReadRecordingEvents rid | ReadSegment rid _ => Some rid
  | _ => None
  end.

(** Operations of the lease or its input, and all that change something. *)
Definition op_drives {B} (o : ViewerOp B) : bool :=
  match o with
  | TakeLease _ _ | Heartbeat _ _ | BlurLease _ _ | ReleaseLease _ _ | SendInput _ _ _ _ _ => true
  | _ => false
  end.
Definition op_writes {B} (o : ViewerOp B) : bool :=
  op_drives o ||
  match o with
  | RecordStart _ | RecordStop _ | AddAnnotation _ _ | KeepRecording _ _ => true
  | _ => false
  end.
Definition op_small {B} (o : ViewerOp B) : Prop :=
  match o with
  | ReadBody limit _ => limit = MAX_BODY
  | SendInput _ _ _ _ events => (length events <= MAX_EVENTS)%nat
  | _ => True
  end.

(** What an operation of the route [r] may be. *)
Record of_route (r : Route) {B} (o : ViewerOp B) : Prop := {
  or_session : forall id, op_session o = Some id -> route_session r = Some id;
  or_recording : forall rid, op_recording o = Some rid -> route_recording r = Some rid;
  or_drives : op_drives o = true -> is_control_route r = true;
  or_writes : op_writes o = true -> allows r POST = true;
  or_small : op_small o }.

Lemma read_json_ops st p r : all_ops (fun _ => of_route r) (read_json st p).
Proof.
  unfold read_json. destruct (negb _); [done|]. destruct (match _ with Some _ => _ | None => _ end); [done|].
  cbn. split; [by constructor|done].
Qed.

(** One operation, or none. *)
Ltac ops :=
  repeat first
    [ exact I
    | progress cbn [pbind act all_ops]
    | apply all_ops_bind; [apply read_json_ops|]
    | split; [by constructor; cbn; try discriminate; try naive_solver|]
    | intros ?
    | case_match ].

Lemma serve_route_ops st peer p r : all_ops (fun _ => of_route r) (serve_route st peer p r).
Proof.
  destruct r; cbn [serve_route];
    unfold document, generate, sessions, frame, events_page, with_json, list_recordings, detail, recording_events, segment, with_store,
      post_recording, post_annotation, post_keep, post_control; ops.
  unfold post_input. case_match; [|exact I]. destruct (_ <? _)%nat eqn:E; [exact I|]. apply Nat.ltb_ge in E. ops.
Qed.

Lemma bad_id_ops {B} (o : ViewerOp B) : of_route BadId o -> op_writes o = false /\ op_drives o = false.
Proof.
  intros [Hs Hr Hd Hw _]. destruct o; cbn in *; split; try done;
    by (specialize (Hs _ eq_refl) || specialize (Hr _ eq_refl)).
Qed.

Lemma write_route r m : allows r m = true -> allows r POST = true -> r <> BadId -> m = POST.
Proof. destruct r; cbn; rewrite ?bool_decide_eq_true; try done. Qed.

(** A request reaches a route only through every check. *)
Lemma handle_reaches st peer p :
  (exists status, handle st peer p = Ret (empty status)) \/
  exists r, handle st peer p = serve_route st peer p r /\ auth_check (sv_auth st) p = Ok tt /\
    parse_route (rq_path p) = Some r /\ allows r (rq_method p) = true /\
    (rq_method p = POST -> sv_read_only st = false) /\
    (is_control_route r = true -> sv_control st = true /\ check_control (sv_auth st) p = Ok tt).
Proof.
  unfold handle. destruct (auth_check _ p) as [[]|status]; [|left; by eexists].
  destruct (parse_route _) as [r|] eqn:Hr; [|left; case_match; by eexists].
  destruct (allows r _) eqn:Ha; cbn [negb]; [|left; by eexists].
  destruct (bool_decide (rq_method p = POST) && sv_read_only st) eqn:Hp; [left; by eexists|].
  assert (rq_method p = POST -> sv_read_only st = false) as Hro.
  { intros Hm. rewrite bool_decide_eq_true_2 in Hp by done. exact Hp. }
  destruct (is_control_route r) eqn:Hc; [|right; exists r; split_and!; (done || congruence)].
  destruct (sv_control st) eqn:Hs; cbn [negb]; [|left; by eexists].
  destruct (check_control _ p) as [[]|status] eqn:Hk; [|left; by eexists].
  right. exists r. split_and!; (done || congruence).
Qed.

(** What a request may have the viewer do. *)
Record permitted (st : ServerState) (token : text) (bound : list SocketAddr) (p : Parts) {B} (o : ViewerOp B) : Prop := {
  pm_genuine : genuine token bound p;
  pm_session : forall id, op_session o = Some id -> session_path id (rq_path p);
  pm_recording : forall rid, op_recording o = Some rid -> recording_path rid (rq_path p);
  pm_writes : op_writes o = true -> rq_method p = POST /\ sv_read_only st = false;
  pm_drives : op_drives o = true -> sv_control st = true /\ from_own_page bound p;
  pm_small : op_small o }.

(** C31: Whatever a request says and whatever is answered, the viewer does
    something for it only when the request holds the token, was sent to one of
    the viewer's own names and was not caused by another site; then it acts on
    no session and no recording but the one in the path, changes something only
    for a POST and never in read-only mode, and touches a lease or sends input
    only for a page of its own origin, at most 64 events at once.  Every other
    request is answered without doing anything. *)
Theorem viewer_acts_for_genuine_requests st peer p token tailnet bound :
  bindable tailnet bound -> sv_auth st = auth_new token bound ->
  all_ops (fun _ => permitted st token bound p) (handle st peer p) /\
  (~ genuine token bound p -> handle st peer p = Ret (empty FORBIDDEN)).
Proof.
  intros Hb Hau. split.
  - destruct (handle_reaches st peer p) as [[status ->]|(r & -> & Hc & Hr & Ha & Hro & Hctl)]; [exact I|].
    rewrite Hau in *. eapply all_ops_mono; [|apply serve_route_ops]. intros B o Ho.
    constructor.
    + by eapply auth_check_genuine.
    + intros id Hid. eapply parse_route_session; [exact Hr|]. by eapply or_session.
    + intros rid Hid. eapply parse_route_recording; [exact Hr|]. by eapply or_recording.
    + intros Hw. assert (rq_method p = POST) as Hm; [|split; [done|by apply Hro]].
      eapply write_route; [exact Ha|by eapply or_writes|]. intros ->.
      destruct (bad_id_ops o Ho). congruence.
    + intros Hd. destruct Hctl as [Hs Hk]; [by eapply or_drives|]. split; [done|]. by eapply check_control_own.
    + by eapply or_small.
  - intros Hg. unfold handle. destruct (auth_check (sv_auth st) p) as [[]|status] eqn:Hc.
    + rewrite Hau in Hc. by eapply auth_check_genuine in Hc.
    + by apply auth_check_status in Hc as ->.
Qed.

(** ** Headers *)

Definition get_header (name : text) (r : Response) : option text :=
  snd <$> find (fun h => bool_decide (fst h = name)) (rs_headers r).

Lemma find_filter_other (name other : text) (l : list (text * text)) :
  name <> other ->
  find (fun h => bool_decide (fst h = other)) (List.filter (fun h => negb (bool_decide (fst h = name))) l)
  = find (fun h => bool_decide (fst h = other)) l.
Proof.
  intros Hne. induction l as [|[n v] l IH]; [done|]. cbn.
  destruct (bool_decide (n = name)) eqn:E; bools; cbn.
  - subst n. by rewrite bool_decide_eq_false_2.
  - destruct (bool_decide (n = other)); [done|]. exact IH.
Qed.

Lemma find_filter_same (name : text) (l : list (text * text)) :
  find (fun h => bool_decide (fst h = name)) (List.filter (fun h => negb (bool_decide (fst h = name))) l) = None.
Proof.
  induction l as [|[n v] l IH]; [done|]. cbn. destruct (bool_decide (n = name)) eqn:E; cbn; [done|]. by rewrite E.
Qed.

Lemma find_app {A} (f : A -> bool) l k : find f (l ++ k) = match find f l with Some x => Some x | None => find f k end.
Proof. induction l as [|x l IH]; [done|]. cbn. by destruct (f x). Qed.

Lemma get_header_insert name other value r :
  get_header other (header_insert name value r) = if decide (name = other) then Some value else get_header other r.
Proof.
  unfold get_header, header_insert. cbn [rs_headers]. rewrite find_app. destruct (decide (name = other)) as [<-|Hne].
  - rewrite find_filter_same. cbn. by rewrite bool_decide_eq_true_2.
  - rewrite find_filter_other by done. destruct (find _ (rs_headers r)); [done|].
    cbn. by rewrite bool_decide_eq_false_2.
Qed.

Lemma has_header_get name r : has_header name r = bool_decide (is_Some (get_header name r)).
Proof.
  unfold has_header, get_header. induction (rs_headers r) as [|[n v] l IH]; [done|]. cbn.
  destruct (bool_decide (n = name)); [|exact IH]. symmetry. apply bool_decide_eq_true_2. by eexists.
Qed.

(** The policy of a page that loads nothing from elsewhere and that no other
    page can show in a frame. *)
Definition strict_policy (csp : text) : Prop :=
  starts_with (txt "default-src 'none';") csp = true /\ contains (txt "frame-ancestors 'none'") csp = true.

Record guarded (r : Response) : Prop := {
  gd_cache : get_header (txt "cache-control") r = Some (txt "no-store");
  gd_referrer : get_header (txt "referrer-policy") r = Some (txt "no-referrer");
  gd_sniff : get_header (txt "x-content-type-options") r = Some (txt "nosniff");
  gd_frame : get_header (txt "x-frame-options") r = Some (txt "DENY");
  gd_csp : exists csp, get_header (txt "content-security-policy") r = Some csp /\ strict_policy csp }.

(** The headers that are set apart. *)
Definition GUARDED : list text :=
  [txt "cache-control"; txt "referrer-policy"; txt "x-content-type-options"; txt "x-frame-options";
   txt "content-security-policy"].
Definition plain_header (name : text) : bool := bool_decide (Forall (fun n => name <> n) GUARDED).

Lemma guarded_insert name value r : plain_header name = true -> guarded r -> guarded (header_insert name value r).
Proof.
  intros Hp%bool_decide_eq_true Hr. unfold GUARDED in Hp. rewrite !Forall_cons in Hp.
  destruct Hp as (? & ? & ? & ? & ? & _), Hr. constructor; by rewrite get_header_insert, decide_False by done.
Qed.

Lemma guarded_valid name value r : plain_header name = true -> guarded r -> guarded (insert_valid name value r).
Proof. unfold insert_valid. case_match; [apply guarded_insert|done]. Qed.

Lemma guarded_security r :
  get_header (txt "content-security-policy") r = None -> guarded (with_security_headers r).
Proof.
  intros Hn. unfold with_security_headers. rewrite has_header_get, !get_header_insert.
  repeat (rewrite decide_False by done). rewrite Hn, bool_decide_eq_false_2 by (by intros [??]).
  constructor; [rewrite !get_header_insert; done..|].
  rewrite get_header_insert. eexists. split; [done|]. split; by vm_compute.
Qed.

Lemma guarded_empty status : guarded (empty status).
Proof. by apply guarded_security. Qed.
Lemma guarded_response status ct body : guarded (response status ct body).
Proof. apply guarded_security. by rewrite get_header_insert. Qed.
Lemma guarded_json status v : guarded (json status v).
Proof. unfold json. case_match; [apply guarded_response|apply guarded_empty]. Qed.
Lemma guarded_segment bs range r : segment_reply bs range = Some r -> guarded r.
Proof.
  unfold segment_reply. destruct (and_then range _) as [[[s e]|]|]; [destruct (slice_inclusive s e bs)|..];
    [|done|..]; intros <-%(inj Some).
  - apply guarded_insert; [by vm_compute|]. apply guarded_valid; [by vm_compute|]. apply guarded_response.
  - apply guarded_valid; [by vm_compute|]. apply guarded_empty.
  - apply guarded_insert; [by vm_compute|]. apply guarded_response.
Qed.

Lemma contains_app p a b : contains p (a ++ p ++ b) = true.
Proof.
  apply bool_decide_eq_true_2. induction a as [|x a IH]; cbn [app].
  - assert (strip_prefix p (p ++ b) = Some b) as E by by apply strip_prefix_Some.
    destruct (p ++ b) as [|y t]; cbn [split_once]; rewrite E; by eexists.
  - cbn [split_once]. destruct (strip_prefix p _); [by eexists|]. destruct IH as [[u v] ->]. by eexists.
Qed.

Lemma starts_with_app p t : starts_with p (p ++ t) = true.
Proof. apply bool_decide_eq_true_2. exists t. by apply strip_prefix_Some. Qed.

(** The policy of the page, whatever the nonce is. *)
Lemma page_policy nonce : strict_policy
  (txt "default-src 'none'; script-src 'nonce-" ++ nonce ++ txt "'; style-src 'nonce-" ++ nonce
   ++ txt "'; img-src blob:; media-src blob:; connect-src 'self'; frame-ancestors 'none'; base-uri 'none'; form-action 'none'").
Proof.
  split.
  - change (txt "default-src 'none'; script-src 'nonce-") with (txt "default-src 'none';" ++ txt " script-src 'nonce-").
    rewrite <- app_assoc. apply starts_with_app.
  - change (txt "'; img-src blob:; media-src blob:; connect-src 'self'; frame-ancestors 'none'; base-uri 'none'; form-action 'none'")
      with (txt "'; img-src blob:; media-src blob:; connect-src 'self'; " ++ txt "frame-ancestors 'none'" ++ txt "; base-uri 'none'; form-action 'none'").
    rewrite !app_assoc. rewrite <- (app_assoc _ (txt "frame-ancestors 'none'") _). apply contains_app.
Qed.

Lemma guarded_policy csp r : strict_policy csp -> guarded r -> guarded (insert_valid (txt "content-security-policy") csp r).
Proof.
  intros Hc []. unfold insert_valid, header_value. destruct (forallb _ _); [|by constructor].
  constructor; rewrite get_header_insert; [rewrite decide_False by done; done..|].
  rewrite decide_True by done. by exists csp.
Qed.

Ltac guarded_leaf := first
  [ apply guarded_empty | apply guarded_response | apply guarded_json
  | apply guarded_policy; [apply page_policy|apply guarded_response]
  | repeat (apply guarded_valid; [by vm_compute|]); apply guarded_response ].

Lemma guarded_lease_refusal e : guarded (lease_refusal e).
Proof. destruct e as [|?|[|?]|]; unfold lease_refusal, not_held; guarded_leaf. Qed.

Ltac rets :=
  repeat first
    [ guarded_leaf | apply guarded_lease_refusal
    | progress cbn [pbind act all_rets]
    | progress unfold gone, changed, rec_refusal, done_
    | intros ?
    | case_match ].

Lemma guarded_segment_route rid n range : all_rets guarded (segment rid n range).
Proof.
  unfold segment, with_store. cbn [act pbind all_rets]. intros []; [|apply guarded_empty].
  cbn [pbind act all_rets]. intros [[bs|]|]; try guarded_leaf.
  destruct (segment_reply bs range) as [r|] eqn:E; [by eapply guarded_segment|]. apply guarded_empty.
Qed.

Lemma guarded_serve st peer p r : all_rets guarded (serve_route st peer p r).
Proof.
  destruct r; cbn [serve_route]; try apply guarded_segment_route;
    unfold document, generate, sessions, frame, events_page, list_recordings, detail, recording_events, with_store;
    try (apply all_rets_any; intros [?|?]); rets;
    unfold post_recording, post_annotation, post_keep, post_control, post_input; rets.
Qed.

(** Every response of the handler, whatever the request was and whatever
    went wrong, says not to store it, to send no referrer, not to guess its
    type and not to frame it, and has a content policy that loads nothing by
    default and forbids frames, also the one with the nonce of the page. *)
Theorem every_response_is_guarded st peer p : all_rets guarded (handle st peer p).
Proof.
  destruct (handle_reaches st peer p) as [[status ->]|(r & -> & _)]; [apply guarded_empty|apply guarded_serve].
Qed.

End Viewer.

(** ** Segments *)

Lemma slice_in_bounds s e bs : (s <= e)%N -> (e < blen bs)%N -> slice_inclusive s e bs = Some (btake (e + 1 - s) (bdrop s bs)).
Proof.
  intros Hs He. unfold slice_inclusive. rewrite (proj2 (N.leb_le s (e + 1))), (proj2 (N.ltb_lt e _)) by lia. done.
Qed.

(** A satisfiable range lies within the file. *)
Lemma parse_range_bounds value len s e :
  parse_range value len = Some (Some (s, e)) -> (s <= e < len)%N.
Proof.
  unfold parse_range. destruct (strip_prefix _ _) as [spec|]; [|done]. destruct (bool_decide _); [done|].
  destruct (split_once_char _ spec) as [[a b]|]; [|done]. cbn zeta.
  destruct (bool_decide (trim a = [])).
  - destruct (parse_unsigned _ (trim b)) as [n|]; [|done]. destruct (_ || _) eqn:E; [done|]. bools.
    intros [= <- <-]. lia.
  - destruct (parse_unsigned _ (trim a)) as [n|]; [|done].
    destruct (if bool_decide (trim b = []) then _ else _) as [e'|] eqn:Ee; [|done].
    destruct (_ || _) eqn:E; [done|]. bools. intros [= -> ->].
    assert (e <= len - 1)%N; [|lia].
    destruct (bool_decide (trim b = [])); [by injection Ee as ->; lia|].
    destruct (parse_unsigned _ (trim b)); [|done]. injection Ee as <-. lia.
Qed.

Lemma segment_reply_total bs range : is_Some (segment_reply bs range).
Proof.
  unfold segment_reply. destruct (and_then range _) as [[[s e]|]|] eqn:E; [|by eexists..].
  destruct range as [value|]; [|done]. apply parse_range_bounds in E.
  rewrite slice_in_bounds by lia. by eexists.
Qed.

(** The header [bytes=]first[-]last as a browser writes it. *)
Definition range_text (first last : text) : text := txt "bytes=" ++ first ++ txt "-" ++ last.

Lemma digits_not c t : Forall (fun c => is_ascii_digit c = true) t -> is_ascii_digit c = false -> c ∉ t.
Proof. intros Ht Hc Hin. rewrite Forall_forall in Ht. specialize (Ht c Hin). congruence. Qed.

(** The parts of a header whose parts are numbers or nothing. *)
Lemma range_parts first last :
  Forall (fun c => is_ascii_digit c = true) first -> Forall (fun c => is_ascii_digit c = true) last ->
  Forall (fun c => is_whitespace c = false) first -> Forall (fun c => is_whitespace c = false) last ->
  strip_prefix (txt "bytes=") (trim (range_text first last)) = Some (first ++ 45%N :: last) /\
  44%N ∉ first ++ 45%N :: last /\
  split_once_char 45%N (first ++ 45%N :: last) = Some (first, last) /\
  trim first = first /\ trim last = last.
Proof.
  intros Hf Hl Hwf Hwl. rewrite (trim_plain (range_text _ _)).
  - split_and!; [by apply strip_prefix_Some| | |by apply trim_plain..].
    + apply not_elem_of_app. split; [by apply digits_not|]. apply not_elem_of_cons. split; [done|by apply digits_not].
    + apply split_once_char_Some. split; [done|by apply digits_not].
  - unfold range_text. rewrite !Forall_app. split_and!; try done; by repeat constructor.
Qed.

Lemma parse_range_closed first last len :
  (first <= last <= u64_maxN)%N -> (first < len)%N ->
  parse_range (range_text (dec first) (dec last)) len = Some (Some (first, N.min last (len - 1))).
Proof.
  intros Hb Hlen. unfold parse_range.
  destruct (range_parts (dec first) (dec last)) as (-> & Hc & -> & -> & ->);
    [apply dec_digits|apply dec_digits|apply dec_plain|apply dec_plain|].
  rewrite !bool_decide_eq_false_2 by (done || apply dec_not_nil). cbn zeta.
  rewrite !parse_unsigned_dec by lia.
  rewrite (proj2 (N.leb_gt len first)), (proj2 (N.ltb_ge _ first)) by lia. done.
Qed.

Lemma parse_range_open first len :
  (first <= u64_maxN)%N -> (first < len)%N ->
  parse_range (range_text (dec first) []) len = Some (Some (first, len - 1)%N).
Proof.
  intros Hb Hlen. unfold parse_range.
  destruct (range_parts (dec first) []) as (-> & Hc & -> & -> & ->);
    [apply dec_digits|done|apply dec_plain|done|].
  rewrite !bool_decide_eq_false_2 by (done || apply dec_not_nil). cbn zeta.
  rewrite parse_unsigned_dec by lia. rewrite bool_decide_eq_true_2 by done.
  rewrite (proj2 (N.leb_gt len first)), (proj2 (N.ltb_ge _ first)) by lia. done.
Qed.

Lemma parse_range_suffix n len :
  (0 < n <= u64_maxN)%N -> (0 < len)%N ->
  parse_range (range_text [] (dec n)) len = Some (Some (len - n, len - 1)%N).
Proof.
  intros Hb Hlen. unfold parse_range.
  destruct (range_parts [] (dec n)) as (-> & Hc & -> & -> & ->);
    [done|apply dec_digits|done|apply dec_plain|].
  rewrite bool_decide_eq_false_2 by done. cbn zeta. rewrite bool_decide_eq_true_2 by done.
  rewrite parse_unsigned_dec by lia.
  rewrite (proj2 (N.eqb_neq n 0)), (proj2 (N.eqb_neq len 0)) by lia. done.
Qed.

(** A partial reply carries the bytes [s..=e] and says so. *)
Definition serves (bs : bytes) (s e : N) (r : Response) : Prop :=
  rs_status r = 206%N /\ rs_body r = btake (e + 1 - s) (bdrop s bs) /\
  get_header (txt "content-range") r = Some (txt "bytes " ++ dec s ++ txt "-" ++ dec e ++ txt "/" ++ dec (blen bs)).

Lemma digits_visible t : Forall (fun c => is_ascii_digit c = true) t -> utf8 t = t /\ forallb visible t = true.
Proof.
  intros Ht. induction Ht as [|c t Hc Ht [IHu IHv]]; [done|].
  apply in_range_spec in Hc. unfold utf8 in *. cbn [mbind list_bind forallb]. rewrite IHu, IHv. unfold utf8_char, visible.
  rewrite (proj2 (N.ltb_lt c 128)) by lia. rewrite (proj2 (in_range_spec 32 126 c)) by lia. done.
Qed.

Lemma visible_app a b : header_value a = Some a -> header_value b = Some b -> header_value (a ++ b) = Some (a ++ b).
Proof.
  unfold header_value. rewrite utf8_app, forallb_app.
  destruct (forallb visible (utf8 a)); [|done]. by destruct (forallb visible (utf8 b)).
Qed.

Lemma dec_visible n : header_value (dec n) = Some (dec n).
Proof. unfold header_value. destruct (digits_visible _ (dec_digits n)) as [-> ->]. done. Qed.

Lemma content_range_visible s e len :
  header_value (txt "bytes " ++ dec s ++ txt "-" ++ dec e ++ txt "/" ++ dec len)
  = Some (txt "bytes " ++ dec s ++ txt "-" ++ dec e ++ txt "/" ++ dec len).
Proof. repeat apply visible_app; try apply dec_visible; by vm_compute. Qed.

Lemma reply_in_range bs range s e :
  (s <= e < blen bs)%N -> parse_range range (blen bs) = Some (Some (s, e)) ->
  exists r, segment_reply bs (Some range) = Some r /\ serves bs s e r.
Proof.
  intros Hb Hp. unfold segment_reply. cbn [and_then]. rewrite Hp, slice_in_bounds by lia.
  eexists. split; [done|]. unfold serves, insert_valid. rewrite content_range_visible.
  split_and!; [done|done|]. rewrite !get_header_insert. rewrite decide_False by done. by rewrite decide_True.
Qed.

(** Whatever range a client asks for, a segment read answers, without
    running past the file, with the whole file, with 416 and no bytes, or with
    exactly the bytes that the [Content-Range] it carries names; and the three
    forms of a satisfiable range, [a-b], [a-] and [-n], are answered with
    exactly those bytes, cut at the end of the file. *)
Theorem segment_ranges_are_exact bs :
  (forall range, exists r, segment_reply bs range = Some r /\
     (rs_status r = 200%N /\ rs_body r = bs \/ rs_status r = 416%N /\ rs_body r = [] \/
      exists s e, (s <= e < blen bs)%N /\ serves bs s e r)) /\
  (forall first, (first <= u64_maxN)%N -> (first < blen bs)%N ->
     (forall last, (first <= last <= u64_maxN)%N -> exists r,
        segment_reply bs (Some (range_text (dec first) (dec last))) = Some r /\ serves bs first (N.min last (blen bs - 1)) r) /\
     (exists r, segment_reply bs (Some (range_text (dec first) [])) = Some r /\ serves bs first (blen bs - 1) r)) /\
  (forall n, (0 < n <= u64_maxN)%N -> (0 < blen bs)%N -> exists r,
     segment_reply bs (Some (range_text [] (dec n))) = Some r /\ serves bs (blen bs - n) (blen bs - 1) r).
Proof.
  split_and!.
  - intros range. destruct (and_then range (fun r => parse_range r (blen bs))) as [[[s e]|]|] eqn:E.
    + destruct range as [range|]; [|done]. cbn [and_then] in E. pose proof (parse_range_bounds _ _ _ _ E).
      destruct (reply_in_range bs range s e) as (r & Hr & Hs); [done..|]. exists r. eauto 7.
    + unfold segment_reply. rewrite E. eexists. split; [done|]. right. left.
      unfold insert_valid. by destruct (header_value _).
    + unfold segment_reply. rewrite E. eexists. split; [done|]. by left.
  - intros first Hf Hlen. split.
    + intros last Hl. apply reply_in_range; [lia|]. by apply parse_range_closed.
    + apply reply_in_range; [lia|]. by apply parse_range_open.
  - intros n Hn Hlen. apply reply_in_range; [lia|]. by apply parse_range_suffix.
Qed.

(** ** A viewer at work *)
Module ViewerDemo.
Definition bound : list SocketAddr := [{| sa_ip := LOOPBACK; sa_port := 4001 |}].
Definition token : text := txt "c0ffee".
#[local] Instance demo_serde : Serde Value := {
  to_vec := fun v => match v with JString s => Ok (utf8 s) | _ => Ok [] end; from_slice := fun _ => Ok (JObject []) }.
Definition st : ServerState := with_control (seconds 300) (sv_new (auth_new token bound) (seconds 10)).
Definition take_request : Parts :=
  {| rq_method := POST; rq_path := txt "/api/sessions/web/control"; rq_query := None;
     rq_headers := [(txt "host", txt "LocalHost:4001"); (txt "origin", txt "http://localhost:4001");
       (txt "authorization", txt "Bearer c0ffee"); (txt "content-type", txt "application/json")] |}.
Definition read_take (v : Value) : option ControlBody := Some {| cb_action := txt "take"; cb_lease := None |}.
Definition serve (st : ServerState) (p : Parts) : prog ViewerOp Response :=
  handle read_take (fun _ => None) [] st (V4 LOOPBACK) p.

(** What the surroundings answer: the body arrives, the rate allows it, and
    the take is refused as busy; they remember the leases asked for. *)
Definition surroundings (B : Type) (o : ViewerOp B) (leases : list text) : list text * B :=
  match o in ViewerOp B return list text * B with
  | ReadBody _ _ => (leases, BodyBytes [])
  | RateAllows _ _ _ => (leases, true)
  | TakeLease id _ => (leases ++ [id], Err (LrTake Busy))
  | RandomBytes => (leases, None)
  | ListSessions => (leases, [])
  | RetainFrames _ => (leases, tt)
  | NextFrame _ _ => (leases, FrameNoChange)
  | EventsAfter _ _ => (leases, LkClosed _)
  | RecordStart _ => (leases, Err (RecNoSession []))
  | RecordStop _ => (leases, Ok None)
  | AddAnnotation _ _ => (leases, Ok [])
  | KeepRecording _ _ => (leases, None)
  | ListRecordings => (leases, None)
  | HasStore => (leases, false)
  | ReadDetail _ => (leases, None)
  | ReadRecordingEvents _ => (leases, None)
  | ReadSegment _ _ => (leases, None)
  | Heartbeat _ _ => (leases, Ok tt)
  | BlurLease _ _ => (leases, Ok tt)
  | ReleaseLease _ _ => (leases, Ok tt)
  | SendInput _ _ _ _ _ => (leases, Err LrUnavailable)
  end.

(** A take that passes every check, and the same request from another site,
    without a token, and to a read-only viewer. *)
Definition without (name : text) (p : Parts) : Parts :=
  {| rq_method := rq_method p; rq_path := rq_path p; rq_query := rq_query p;
     rq_headers := List.filter (fun h => negb (bool_decide (fst h = name))) (rq_headers p) |}.
Definition answer (st : ServerState) (p : Parts) : list text * N :=
  let '(leases, r) := run surroundings (serve st p) [] in (leases, rs_status r).

Example take_reaches_its_session : answer st take_request = ([txt "web"], 409%N).
Proof. by vm_compute. Qed.
Example no_token_no_take : answer st (without (txt "authorization") take_request) = ([], 403%N).
Proof. by vm_compute. Qed.
Example no_origin_no_take : answer st (without (txt "origin") take_request) = ([], 403%N).
Proof. by vm_compute. Qed.
Example read_only_has_no_take : answer (read_only st) take_request = ([], 404%N).
Proof. by vm_compute. Qed.

Lemma viewer_acts_for_genuine_requests_witness :
  bindable None bound /\ sv_auth st = auth_new token bound /\
  all_ops (fun _ => permitted st token bound take_request) (serve st take_request) /\
  answer st take_request = ([txt "web"], 409%N).
Proof.
  assert (bindable None bound) as Hb by (exists 4001%N; by left).
  split_and!; [done|done| |by vm_compute].
  exact (proj1 (viewer_acts_for_genuine_requests read_take (fun _ => None) [] st (V4 LOOPBACK) take_request
                  token None bound Hb eq_refl)).
Defined.
End ViewerDemo.
