(* ===== verification/ViewerFrames.v ===== *)
(** * The viewer's frame cache ([viewer/frames.rs])

    One slot per session keeps the last encoded picture; its mutex is held
    from the look at it to the end of the encode, so what happens to a slot is
    a sequence of [encoded_after], each with what it saw ([Visit]).  Times are
    nanoseconds of one clock; a sleep lasts at least what was asked for. *)
From S2P Require Import Prelude Registry Control Viewer.
Open Scope Z_scope.

Definition milliseconds (n : Z) : Z := n * 1000000.
Definition FRAME_INTERVAL : Z := milliseconds 250.
Definition RECHECK : Z := milliseconds 500.

(** What [Source::status] says. *)
Record SourceStatus := { ss_seq : N; ss_ended : bool }.

(** What one visit of a slot sees: the time at which it has the lock, the
    sequence number of the source then, the time at which the capture begins,
    the capture (its number, size and picture) when it succeeds, how long it
    took, and the time at which the lock is given back. *)
Record Visit := {
  vs_after : N; vs_locked : Z; vs_current : N; vs_begin : Z;
  vs_capture : option (N * N * N * list N); vs_encode_ms : N; vs_end : Z }.

Section Frames.
Context (interval : Z).

(** Whether the kept picture answers without a capture. *)
Definition served_from_cache (v : Visit) (e : Encoded) : bool :=
  let fresh := (vs_current v <=? ef_seq e)%N || (vs_locked v - ef_at e <? interval) in
  (vs_after v <? ef_seq e)%N && fresh.

(** How long a visit sleeps before its capture. *)
Definition cap_wait (v : Visit) (cached : option Encoded) : Z :=
  match cached with Some e => saturating_sub interval (vs_locked v - ef_at e) | None => 0 end.

(** [FrameCache::encoded_after]: the slot afterwards and the answer. *)
Definition encoded_after (v : Visit) (cached : option Encoded) : option Encoded * FrameReply :=
  let capture :=
    match vs_capture v with
    | Some (seq, w, h, png) =>
        let e := {| ef_seq := seq; ef_width := w; ef_height := h; ef_png := png;
                    ef_at := vs_begin v; ef_encode_ms := vs_encode_ms v |} in
        (Some e, if (vs_after v <? seq)%N then FrameNew e else FrameNoChange)
    | None => (cached, FrameFailed)
    end in
  match cached with
  | Some e => if served_from_cache v e then (cached, FrameNew e) else capture
  | None => capture
  end.

(** The captures of a slot, with the times at which they began and whether
    they succeeded. *)
Definition captures (v : Visit) (cached : option Encoded) : list (Z * bool) :=
  match cached with
  | Some e => if served_from_cache v e then [] else [(vs_begin v, bool_decide (is_Some (vs_capture v)))]
  | None => [(vs_begin v, bool_decide (is_Some (vs_capture v)))]
  end.

Fixpoint visits (vs : list Visit) (cached : option Encoded) : option Encoded * list FrameReply * list (Z * bool) :=
  match vs with
  | [] => (cached, [], [])
  | v :: vs =>
      let '(c, reply) := encoded_after v cached in
      let '(c', replies, caps) := visits vs c in
      (c', reply :: replies, captures v cached ++ caps)
  end.

(** One round of the loop of [FrameCache::next]: the lookup of the source,
    its status, the time, and the visit made when there is something new. *)
Record Round := { rn_lookup : Lookup SourceStatus; rn_now : Z; rn_visit : Visit }.

(** What a round ends with: an answer, or how long to wait. *)
Inductive RoundEnd := Reply (r : FrameReply) | Encode (v : Visit) | WaitFor (t : Z).
Definition next_round (after : N) (deadline : Z) (r : Round) : RoundEnd :=
  let remaining := saturating_sub deadline (rn_now r) in
  let wait := if remaining =? 0 then Reply FrameNoChange else WaitFor (Z.min remaining RECHECK) in
  match rn_lookup r with
  | LkClosed _ => Reply FrameClosed
  | LkUnavailable _ => wait
  | LkFound _ s =>
      if (after <? ss_seq s)%N then Encode (rn_visit r)
      else if ss_ended s then Reply FrameEnded
      else wait
  end.

(** [FrameCache::next], of the rounds it makes; [None] when it still waits
    after them. *)
Fixpoint next (after : N) (deadline : Z) (rs : list Round) (cached : option Encoded) :
    option Encoded * option FrameReply :=
  match rs with
  | [] => (cached, None)
  | r :: rs =>
      match next_round after deadline r with
      | Reply FrameClosed => (None, Some FrameClosed)
      | Reply a => (cached, Some a)
      | Encode v => let '(c, a) := encoded_after v cached in (c, Some a)
      | WaitFor _ => next after deadline rs cached
      end
  end.

(** Visits of one slot, one after the other: a capture begins after the lock
    was taken and the sleep asked for has passed, and ends before the lock is
    given back. *)
Fixpoint in_turn (t : Z) (vs : list Visit) (cached : option Encoded) : Prop :=
  match vs with
  | [] => True
  | v :: vs =>
      t <= vs_locked v <= vs_end v /\
      (captures v cached = [] \/ vs_locked v + cap_wait v cached <= vs_begin v <= vs_end v) /\
      in_turn (vs_end v) vs (fst (encoded_after v cached))
  end.

(** The times of the captures that succeeded are [interval] apart. *)
Fixpoint apart (last : option Z) (caps : list (Z * bool)) : Prop :=
  match caps with
  | [] => True
  | (t, ok) :: caps =>
      match last with Some l => l + interval <= t | None => True end /\
      apart (if ok then Some t else last) caps
  end.

Lemma visits_apart vs t cached :
  in_turn t vs cached -> apart (ef_at <$> cached) (snd (visits vs cached)).
Proof.
  revert t cached. induction vs as [|v vs IH]; intros t cached; [done|]. cbn [in_turn visits].
  intros (Ht & Hb & Hvs). pose proof (IH _ _ Hvs) as Hap. clear IH.
  destruct (encoded_after v cached) as [c reply] eqn:Ec. cbn [fst] in Hap.
  destruct (visits vs c) as [[c' replies] caps]. cbn [snd] in Hap |- *.
  unfold encoded_after, captures, cap_wait, saturating_sub in *.
  destruct cached as [e|]; [destruct (served_from_cache v e); [by injection Ec as <- <-|]|];
    (destruct (vs_capture v) as [[[[seq w] h] png]|]; injection Ec as <- <-;
     [rewrite bool_decide_eq_true_2 by by eexists|rewrite bool_decide_eq_false_2 by by intros [? [=]]];
     (split; [cbn; (exact I || (destruct Hb; [done|lia]))|exact Hap])).
Qed.

Lemma encoded_after_newer v cached e : snd (encoded_after v cached) = FrameNew e -> (vs_after v < ef_seq e)%N.
Proof.
  unfold encoded_after, served_from_cache. repeat case_match; cbn; intros [= <-]; bools; naive_solver.
Qed.

(** However many tabs look at a session and whatever they ask for, the
    captures of its slot begin at least the interval after the last one that
    succeeded, a tab is only ever given a picture newer than the one it has,
    and a picture given from the slot is the source's newest or younger than
    the interval. *)
Theorem captures_are_rate_limited t vs cached :
  in_turn t vs cached ->
  apart (ef_at <$> cached) (snd (visits vs cached)) /\
  (forall v c e, snd (encoded_after v c) = FrameNew e -> (vs_after v < ef_seq e)%N) /\
  (forall v e e', snd (encoded_after v (Some e)) = FrameNew e' -> captures v (Some e) = [] ->
     e' = e /\ ((vs_current v <= ef_seq e)%N \/ vs_locked v - ef_at e < interval)).
Proof.
  intros Ht. split_and!; [by eapply visits_apart|apply encoded_after_newer|].
  intros v e e'. unfold encoded_after, captures. destruct (served_from_cache v e) eqn:E; [|done].
  intros [= <-] _. split; [done|]. apply andb_prop in E as [_ [E|E]%orb_prop];
    [left; by apply N.leb_le|right; by apply Z.ltb_lt].
Qed.
End Frames.

Module FramesDemo.
Definition visit (after : N) (t : Z) (current : N) (capture : option N) : Visit :=
  {| vs_after := after; vs_locked := milliseconds t; vs_current := current;
     vs_begin := milliseconds (if (100 <=? t) && (t <? 250) then 250 else t);
     vs_capture := (fun n => (n, 4%N, 3%N, [])) <$> capture; vs_encode_ms := 5;
     vs_end := milliseconds (if (100 <=? t) && (t <? 250) then 255 else t + 5) |}.
(** Two tabs ask at once, a third asks for more after 100 ms and waits. *)
Definition day : list Visit := [visit 0 0 1 (Some 1); visit 0 10 1 (Some 2); visit 1 100 3 (Some 3)]%N.

Lemma captures_are_rate_limited_witness :
  in_turn FRAME_INTERVAL 0 day None /\ snd (visits FRAME_INTERVAL day None) = [(0, true); (milliseconds 250, true)] /\
  apart FRAME_INTERVAL None (snd (visits FRAME_INTERVAL day None)).
Proof.
  assert (in_turn FRAME_INTERVAL 0 day None) as Ht by (vm_compute; repeat split; first [discriminate | by left | right; repeat split; discriminate]).
  split_and!; [exact Ht|by vm_compute|exact (proj1 (captures_are_rate_limited FRAME_INTERVAL 0 day None Ht))].
Defined.

(** Captures that fail are not counted: with an empty slot nothing holds the
    next one back. *)
Example failed_captures_are_not_limited :
  snd (visits FRAME_INTERVAL [visit 0 0 1 None; visit 0 6 1 None; visit 0 12 1 None]%N None)
  = [(0, false); (milliseconds 6, false); (milliseconds 12, false)].
Proof. by vm_compute. Qed.
End FramesDemo.
