(* ===== verification/Wire.v ===== *)
(** * The wire between clients and daemon ([rdpilot-ipc], [rdpilot-vocab/src/error.rs], [error_map.rs])

    The requests and responses, the error codes and what errors map to, the
    length-prefixed frames, and how a client reaches or starts the daemon.
    JSON is serde's: [Serde] with the laws named where they are used. *)
From S2P Require Import Prelude Errors Bytes Vocab Events Control Registry ViewerAuth Prog.

(** ** Errors *)

Inductive WireErrorCode :=
| WcSessionNotFound | WcDaemonUnreachable | WcTransferFailed | WcPathTraversal | WcChecksumMismatch
| WcInternal | WcDuplicateSession | WcRecording | WcBundleUnavailable | WcHumanControl.

#[global] Instance WireErrorCode_eq_dec : EqDecision WireErrorCode.
Proof. solve_decision. Defined.

(** The kebab-case spelling. *)
Definition code_text (c : WireErrorCode) : text :=
  match c with
  | WcSessionNotFound => txt "session-not-found"
  | WcDaemonUnreachable => txt "daemon-unreachable"
  | WcTransferFailed => txt "transfer-failed"
  | WcPathTraversal => txt "path-traversal"
  | WcChecksumMismatch => txt "checksum-mismatch"
  | WcInternal => txt "internal"
  | WcDuplicateSession => txt "duplicate-session"
  | WcRecording => txt "recording"
  | WcBundleUnavailable => txt "bundle-unavailable"
  | WcHumanControl => txt "human-control"
  end.

Record WireError := { we_code : WireErrorCode; we_message : text; we_controller : option WireController }.

(** [wire_code_for_sdk_error] *)
Definition wire_code_for_sdk_error (e : Error) : WireErrorCode :=
  match e with
  | ErPathTraversal _ => WcPathTraversal
  | ErChecksumMismatch _ _ => WcChecksumMismatch
  | _ => WcInternal
  end.

(** [Display] of [DaemonError] *)
Definition daemon_error_text (e : DaemonError) : text :=
  match e with
  | DuplicateSession id => txt "session " ++ [dquote] ++ id ++ [dquote] ++ txt " already exists"
  | SessionNotFound id => txt "no such session " ++ [dquote] ++ id ++ [dquote]
  | StillConnecting id => txt "session " ++ [dquote] ++ id ++ [dquote] ++ txt " is still connecting"
  | DeSessionEnded id cause => txt "session " ++ [dquote] ++ id ++ [dquote] ++ txt " ended: " ++ cause
  | Sdk e => error_text e
  | ConnectError m => txt "connect failed: " ++ m
  | IoError m => txt "io error: " ++ m
  | ConfigError m => txt "config resolution failed: " ++ m
  | RecordingError m => m
  | BundleError m => m
  | HumanControl session address since => cli_refusal session address since
  | DeSessionClosed => txt "session closed"
  end.

(** [impl From<DaemonError> for WireError] *)
Definition wire_error (err : DaemonError) : WireError :=
  {| we_code := match err with
       | DuplicateSession _ => WcDuplicateSession
       | SessionNotFound _ | StillConnecting _ | DeSessionEnded _ _ => WcSessionNotFound
       | Sdk e => wire_code_for_sdk_error e
       | ConnectError _ | IoError _ | ConfigError _ => WcInternal
       | RecordingError _ => WcRecording
       | BundleError _ => WcBundleUnavailable
       | HumanControl _ _ _ => WcHumanControl
       | DeSessionClosed => WcTransferFailed
       end;
     we_message := daemon_error_text err;
     we_controller := match err with
       | HumanControl _ address since =>
           Some {| wc_kind := WkHuman; wc_address := Some address; wc_since := Some since |}
       | _ => None
       end |}.

(** ** Requests and responses *)

Record ConnectFields := {
  cf_name : option text; cf_host : text; cf_port : option Z; cf_username : text; cf_password : text;
  cf_domain : option text; cf_accept_invalid_certs : bool; cf_cua_enabled : bool; cf_cua_version : text;
  cf_cua_auto_download : bool; cf_connect_ack : bool; cf_record : option RecordingTrigger }.

Inductive Request :=
| RqConnect (fields : ConnectFields)
| RqConnectAck (session : text)
| RqList
| RqDisconnect (session : text)
| RqPing (session : text)
| RqScreenshot (session : text)
| RqMouse (session : text) (action : MouseAction)
| RqKey (session : text) (action : KeyAction)
| RqDesktopSize (session : text)
| RqPut (session local_path remote_name : text)
| RqGet (session remote_name local_path : text)
| RqCuaAttach (session : text)
| RqViewerStart (bind : WireViewerBind) (tailnet_address : option text) (read_only : bool) (idle_timeout_secs : option Z)
| RqTakeover (session : text)
| RqRecordStart (session : text)
| RqRecordStop (session : text)
| RqAnnotate (session text_ : text)
| RqRecordingList
| RqRecordingKeep (id : text) (keep : bool).

(** [SessionScoped::session] *)
Definition request_session (r : Request) : option text :=
  match r with
  | RqConnect _ | RqList | RqViewerStart _ _ _ _ | RqRecordingList | RqRecordingKeep _ _ => None
  | RqConnectAck s | RqDisconnect s | RqPing s | RqScreenshot s | RqMouse s _ | RqKey s _ | RqDesktopSize s
  | RqPut s _ _ | RqGet s _ _ | RqCuaAttach s | RqRecordStart s | RqRecordStop s | RqAnnotate s _ | RqTakeover s => Some s
  end.

Inductive WireRecordingState := RsOff | RsOn (id : text) | RsFailed (reason : text).
Record TransferOutcome := { to_bytes_transferred : Z; to_checksum : text }.
Record WireRecording := {
  wr_id : text; wr_session : text; wr_session_name : option text; wr_host : text; wr_started_at : text;
  wr_duration_ms : Z; wr_bytes : Z; wr_active : bool; wr_kept : bool }.
Record Listing := {
  ls_recordings : list WireRecording; ls_kept_bytes : Z; ls_unkept_bytes : Z; ls_budget_bytes : Z; ls_kept_over_budget : bool }.

Inductive WireResponse :=
| WAck
| WConnected (session : text) (connect_ack_required bridge_live : bool) (recording : WireRecordingState) (warnings : list text)
| WScreenshot (png_base64 : text)
| WTransfer (outcome : TransferOutcome)
| WSessionList (sessions : list SessionStatus) (compatibility_version : option Z)
| WDesktopSize (width height : Z)
| WCuaAttached (session_incarnation bridge_generation runtime_generation attachment_id : Z)
| WViewerStarted (addresses : list text) (token : text) (notices : list text)
| WRecordingChanged (id : option text) (changed : bool) (message : text)
| WRecordings (listing : Listing)
| WTakenOver (previous : WireController) (changed : bool)
| WError_ (error : WireError).

Definition is_error (r : WireResponse) : bool := match r with WError_ _ => true | _ => false end.

Definition IPC_COMPATIBILITY_VERSION : Z := 7.

Definition daemon_incompatible_message (observed : option Z) : text :=
  txt "daemon compatibility version mismatch: client expects " ++ nat_text IPC_COMPATIBILITY_VERSION
  ++ txt ", daemon reports " ++ (match observed with None => txt "legacy" | Some v => nat_text v end)
  ++ txt "; restart or reinstall rdpilot-daemon".

(** ** Frames *)

Definition MAX_FRAME_LEN : N := 16 * 1024 * 1024.
Definition u32_max : N := 4294967295.

Inductive TransportError := TeIo (m : text) | TeEncode (m : text) | TeDecode (m : text).

(** A stream that is written: what it has taken, how many bytes it takes
    before it fails, whether it flushes. *)
Record Sink := { sk_out : bytes; sk_room : option N; sk_flushes : bool }.

Definition sink_with (out : bytes) (room : option N) (s : Sink) : Sink :=
  {| sk_out := out; sk_room := room; sk_flushes := sk_flushes s |}.

(** [write_all]: [Err] after as much as went out. *)
Definition write_all (b : bytes) (s : Sink) : Sink * result TransportError unit :=
  match sk_room s with
  | None => (sink_with (sk_out s ++ b) None s, Ok tt)
  | Some r =>
      if (blen b <=? r)%N then (sink_with (sk_out s ++ b) (Some (r - blen b)%N) s, Ok tt)
      else (sink_with (sk_out s ++ btake r b) (Some 0%N) s, Err (TeIo (txt "broken pipe")))
  end.
Definition flush (s : Sink) : Sink * result TransportError unit :=
  (s, if sk_flushes s then Ok tt else Err (TeIo (txt "broken pipe"))).

(** [read_exact] of a stream with the bytes [s] until its end. *)
Definition read_exact (n : N) (s : bytes) : result TransportError bytes * bytes :=
  if (n <=? blen s)%N then (Ok (btake n s), bdrop n s) else (Err (TeIo (txt "early eof")), []).

Section Frames.
Context {T : Type} `{Serde T}.

(** [write_frame] *)
Definition write_frame (value : T) (w : Sink) : Sink * result TransportError unit :=
  match to_vec value with
  | Err e => (w, Err (TeEncode (txt "frame encode failed: " ++ e)))
  | Ok body =>
      if (u32_max <? blen body)%N
      then (w, Err (TeEncode (txt "frame body exceeds u32::MAX bytes, cannot encode length prefix")))
      else if (MAX_FRAME_LEN <? blen body)%N
      then (w, Err (TeEncode (txt "frame exceeds " ++ dec MAX_FRAME_LEN ++ txt "-byte cap")))
      else match write_all (be_bytes 4 (blen body)) w with
           | (w, Err e) => (w, Err e)
           | (w, Ok _) => match write_all body w with
                          | (w, Err e) => (w, Err e)
                          | (w, Ok _) => flush w
                          end
           end
  end.

(** [read_frame], with the bytes left unread. *)
Definition read_frame (r : bytes) : result TransportError T * bytes :=
  match read_exact 4 r with
  | (Err e, r) => (Err e, r)
  | (Ok len_buf, r) =>
      let len := from_be len_buf in
      if (MAX_FRAME_LEN <? len)%N
      then (Err (TeIo (txt "declared frame length " ++ dec len ++ txt " exceeds the " ++ dec MAX_FRAME_LEN
                        ++ txt "-byte cap")), r)
      else match read_exact len r with
           | (Err e, r) => (Err e, r)
           | (Ok body, r) =>
               (match from_slice body with Ok v => Ok v | Err e => Err (TeDecode (txt "frame decode failed: " ++ e)) end, r)
           end
  end.

(** A peer that sends [vs] one after the other, until one fails: how many
    were answered [Ok]. *)
Fixpoint write_frames (vs : list T) (w : Sink) : Sink * nat :=
  match vs with
  | [] => (w, O)
  | v :: vs => match write_frame v w with
               | (w, Ok _) => let '(w, n) := write_frames vs w in (w, S n)
               | (w, Err _) => (w, O)
               end
  end.

(** The loop of a peer that reads until an error; each round reads a header,
    so a round per byte is enough. *)
Fixpoint read_frames (fuel : nat) (r : bytes) : list T * option TransportError :=
  match fuel with
  | O => ([], None)
  | S fuel => match read_frame r with
              | (Err e, _) => ([], Some e)
              | (Ok v, r) => let '(vs, e) := read_frames fuel r in (v :: vs, e)
              end
  end.
End Frames.

(** ** Reaching the daemon *)

Inductive SpawnOp : Type -> Type :=
| TryConnect : SpawnOp (option nat)
| SpawnDaemon : SpawnOp (result text unit)
| Sleep (ms : Z) : SpawnOp unit.

Definition BACKOFF_MS : list Z := [50; 100; 200; 400; 800]%Z.

Inductive SpawnEnd := Stream (s : nat) | SpawnFailed (e : text) | TimedOut.

Open Scope prog_scope.

Fixpoint retry (backoff : list Z) : prog SpawnOp SpawnEnd :=
  match backoff with
  | [] => Ret TimedOut
  | ms :: rest =>
      do! act (Sleep ms) in
      let! stream := act TryConnect in
      match stream with Some s => Ret (Stream s) | None => retry rest end
  end.

(** [connect_or_spawn]; a stream is a number. *)
Definition connect_or_spawn : prog SpawnOp SpawnEnd :=
  let! stream := act TryConnect in
  match stream with
  | Some s => Ret (Stream s)
  | None =>
      let! spawned := act SpawnDaemon in
      match spawned with Err e => Ret (SpawnFailed e) | Ok _ => retry BACKOFF_MS end
  end.

(** ** Facts *)

(** An error is the one for a human in control exactly when it names a
    controller. *)
Lemma wire_error_controller err : is_Some (we_controller (wire_error err)) <-> we_code (wire_error err) = WcHumanControl.
Proof.
  destruct err as [| | | |e| | | | | | |]; cbn; (split; [by intros [? ?]|intros; try done; eauto]).
  by destruct e.
Qed.

#[local] Ltac tries_done := repeat split; intros; first [done | lia].

(** At most one daemon is started, after a connect that failed, and every
    pause comes before a further attempt. *)
Lemma connect_or_spawn_ends (accepts : nat -> bool) (spawns : result text unit) :
  let h := fun B (e : SpawnOp B) (s : nat * Z * nat) =>
    match e in SpawnOp B return (nat * Z * nat) * B with
    | TryConnect => let '(n, ms, d) := s in ((S n, ms, d), if accepts n then Some n else None)
    | SpawnDaemon => let '(n, ms, d) := s in ((n, ms, S d), spawns)
    | Sleep t => let '(n, ms, d) := s in ((n, ms + t, d)%Z, tt)
    end in
  let '((tries, waited, started), r) := run h connect_or_spawn (O, 0%Z, O) in
  (tries <= 6)%nat /\ (0 <= waited <= 1550)%Z /\ (started <= 1)%nat /\ (started = 1%nat -> accepts 0 = false)%nat
  /\ match r with
     | Stream n => accepts n = true /\ tries = S n
     | TimedOut => tries = 6%nat /\ forall n, (n < 6)%nat -> accepts n = false
     | SpawnFailed e => spawns = Err e
     end.
Proof.
  cbn. destruct (accepts 0%nat) eqn:E0; cbn; [tries_done|]. destruct spawns as [[]|e]; cbn; [|tries_done].
  destruct (accepts 1%nat) eqn:E1; cbn; [tries_done|].
  destruct (accepts 2%nat) eqn:E2; cbn; [tries_done|].
  destruct (accepts 3%nat) eqn:E3; cbn; [tries_done|].
  destruct (accepts 4%nat) eqn:E4; cbn; [tries_done|].
  destruct (accepts 5%nat) eqn:E5; cbn; [tries_done|].
  repeat split; intros; try first [done|lia]. do 6 (destruct n as [|n]; [done|]). lia.
Qed.

(** [s] is the start of [b]; a whole one has nothing left. *)
Definition cut (b s : bytes) : Prop := exists n, s = btake n b.

Lemma cut_nil b : cut b [].
Proof. by exists 0%N. Qed.
Lemma cut_all b : cut b b.
Proof. exists (blen b). unfold btake, blen. by rewrite Nat2N.id, firstn_all. Qed.
Lemma cut_app a b s : cut b s -> cut (a ++ b) (a ++ s).
Proof.
  intros [n ->]. exists (blen a + n)%N. unfold btake, blen.
  rewrite N2Nat.inj_add, Nat2N.id, take_app_add. done.
Qed.
Lemma cut_left a b s : cut a s -> cut (a ++ b) s.
Proof.
  intros [n ->]. exists (N.min n (blen a)). unfold btake, blen. rewrite N2Nat.inj_min, Nat2N.id.
  rewrite take_app_le by lia. destruct (decide (N.to_nat n <= length a)%nat) as [Hn|Hn].
  - by rewrite Nat.min_l.
  - rewrite Nat.min_r, !firstn_all2 by lia. done.
Qed.

(** What a write does to the stream, in both ends. *)
Lemma write_all_out b w w' r :
  write_all b w = (w', r) -> sk_flushes w' = sk_flushes w
  /\ exists s, sk_out w' = sk_out w ++ s /\ cut b s /\ match r with Ok _ => s = b | Err _ => s <> b end.
Proof.
  unfold write_all. destruct (sk_room w) as [room|].
  - destruct (N.leb_spec (blen b) room); intros [= <- <-]; cbn; (split; [done|]).
    + exists b. split_and!; [done|apply cut_all|done].
    + exists (btake room b). split_and!; [done|by exists room|]. intros Heq. apply (f_equal length) in Heq.
      unfold btake, blen in *. rewrite length_take in Heq. lia.
  - intros [= <- <-]. cbn. split; [done|]. exists b. split_and!; [done|apply cut_all|done].
Qed.

Section FrameFacts.
Context {T : Type} `{Serde T}.

Definition frame_of (body : bytes) : bytes := be_bytes 4 (blen body) ++ body.

(** What a written message leaves on the stream. *)
Lemma write_frame_out v body w w' r :
  to_vec v = Ok body -> write_frame v w = (w', r) ->
  sk_flushes w' = sk_flushes w /\
  exists s, sk_out w' = sk_out w ++ s /\ cut (frame_of body) s
    /\ match r with
       | Ok _ => s = frame_of body /\ (blen body <= MAX_FRAME_LEN)%N
       | Err _ => s <> frame_of body \/ ((blen body <= MAX_FRAME_LEN)%N /\ sk_flushes w = false)
       end.
Proof.
  intros Hv. unfold write_frame. rewrite Hv.
  assert (Hne : [] <> frame_of body) by (intros Hn; by apply (f_equal length) in Hn).
  assert (Hnone : sk_flushes w = sk_flushes w /\ exists s, sk_out w = sk_out w ++ s /\ cut (frame_of body) s /\ s <> frame_of body).
  { split; [done|]. exists []. rewrite app_nil_r. split_and!; [done|apply cut_nil|done]. }
  destruct (N.ltb_spec u32_max (blen body)); [intros [= <- <-]; naive_solver|].
  destruct (N.ltb_spec MAX_FRAME_LEN (blen body)); [intros [= <- <-]; naive_solver|].
  destruct (write_all _ w) as [w1 r1] eqn:E1. apply write_all_out in E1 as (Hf1 & s1 & Ho1 & Hc1 & Hr1).
  destruct r1 as [[]|e].
  2: { intros [= <- <-]. split; [done|]. exists s1. split_and!; [done|by apply cut_left|left].
    intros ->. apply Hr1. destruct Hc1 as [n Hn]. apply (f_equal length) in Hn.
    unfold frame_of, btake in Hn. rewrite length_take, length_app, length_be_bytes in Hn.
    destruct body as [|b body]; [by unfold frame_of; rewrite app_nil_r|]. cbn [length] in Hn. lia. }
  subst s1. destruct (write_all body w1) as [w2 r2] eqn:E2. apply write_all_out in E2 as (Hf2 & s2 & Ho2 & Hc2 & Hr2).
  assert (Hout : sk_out w2 = sk_out w ++ be_bytes 4 (blen body) ++ s2) by (rewrite Ho2, Ho1; by rewrite <- app_assoc).
  assert (Hcut : cut (frame_of body) (be_bytes 4 (blen body) ++ s2)) by by apply cut_app.
  destruct r2 as [[]|e].
  - subst s2. unfold flush. intros [= <- <-]. split; [congruence|]. eexists. split_and!; [exact Hout|exact Hcut|].
    rewrite Hf2, Hf1. destruct (sk_flushes w); [done|]. right. split; [done|done].
  - intros [= <- <-]. split; [congruence|]. eexists. split_and!; [exact Hout|exact Hcut|left].
    intros Heq. by apply app_inv_head in Heq.
Qed.

Lemma read_exact_app n a s : blen a = n -> read_exact n (a ++ s) = (Ok a, s).
Proof.
  intros <-. unfold read_exact. rewrite blen_app.
  destruct (N.leb_spec (blen a) (blen a + blen s)); [|lia].
  unfold btake, bdrop, blen. rewrite Nat2N.id, take_app_length, drop_app_length. done.
Qed.

Lemma read_frame_whole v body s :
  from_slice body = Ok v -> (blen body <= MAX_FRAME_LEN)%N -> read_frame (frame_of body ++ s) = (Ok v, s).
Proof.
  intros Hb Hl. unfold read_frame, frame_of. rewrite <- app_assoc.
  rewrite (read_exact_app 4) by (by rewrite blen_be_bytes). cbv zeta.
  rewrite from_be_bytes by (unfold MAX_FRAME_LEN in Hl; change (256 ^ N.of_nat 4)%N with 4294967296%N; lia).
  destruct (N.ltb_spec MAX_FRAME_LEN (blen body)); [lia|]. rewrite (read_exact_app (blen body)) by done. by rewrite Hb.
Qed.

(** A part of a frame is an error. *)
Lemma read_frame_cut body s : (blen body <= MAX_FRAME_LEN)%N -> cut (frame_of body) s -> s <> frame_of body ->
  exists e, fst (read_frame s) = Err e.
Proof.
  intros Hl [n ->] Hne. unfold read_frame.
  assert (Hn : (n < 4 + blen body)%N).
  { destruct (N.ltb_spec n (4 + blen body)); [done|]. destruct Hne. unfold frame_of, btake.
    apply firstn_all2. rewrite length_app, length_be_bytes. unfold blen in *. lia. }
  destruct (N.ltb_spec n 4) as [H4|H4].
  { unfold read_exact at 1. destruct (N.leb_spec 4 (blen (btake n (frame_of body)))) as [Hle|]; [|by eexists].
    rewrite blen_btake in Hle. lia. }
  assert (Heq : btake n (frame_of body) = be_bytes 4 (blen body) ++ btake (n - 4) body).
  { unfold frame_of, btake. rewrite take_app_ge by (rewrite length_be_bytes; lia). rewrite length_be_bytes.
    f_equal. f_equal. lia. }
  rewrite Heq, (read_exact_app 4) by (by rewrite blen_be_bytes).
  cbv zeta. rewrite from_be_bytes by (unfold MAX_FRAME_LEN in Hl; change (256 ^ N.of_nat 4)%N with 4294967296%N; lia).
  destruct (N.ltb_spec MAX_FRAME_LEN (blen body)); [lia|]. unfold read_exact. rewrite blen_btake.
  destruct (N.leb_spec (blen body) (N.min (n - 4) (blen body))); [lia|]. by eexists.
Qed.

Lemma read_frame_nil : exists e, fst (read_frame []) = Err e.
Proof. by eexists. Qed.

(** A read takes a header and, only when it declares no more than the cap,
    that many bytes. *)
Lemma read_frame_bounded r x r' :
  read_frame r = (x, r') ->
  (blen r <= blen r' + 4 + MAX_FRAME_LEN)%N \/ r' = [].
Proof.
  unfold read_frame, read_exact. destruct (N.leb_spec 4 (blen r)) as [H4|]; [|intros [= <- <-]; by right].
  cbv zeta. destruct (N.ltb_spec MAX_FRAME_LEN (from_be (btake 4 r))) as [|Hm].
  { intros [= <- <-]. left. rewrite blen_bdrop. lia. }
  destruct (N.leb_spec (from_be (btake 4 r)) (blen (bdrop 4 r))) as [Hl|]; [|intros [= <- <-]; by right].
  intros [= <- <-]. left. rewrite !blen_bdrop in *. lia.
Qed.

Lemma read_frames_prefix vs bodies s fuel :
  Forall2 (fun v body => from_slice body = Ok v /\ (blen body <= MAX_FRAME_LEN)%N) vs bodies ->
  (exists e, fst (read_frame s) = Err e) -> (length vs < fuel)%nat ->
  exists e, read_frames fuel (concat (frame_of <$> bodies) ++ s) = (vs, Some e).
Proof.
  intros Hall [e He]. revert fuel. induction Hall as [|v body vs bodies [Hb Hl] Hall IH]; intros [|fuel] Hf; cbn in Hf; try lia.
  - exists e. cbn. destruct (read_frame s) as [r s']. cbn in He. by subst r.
  - destruct (IH fuel ltac:(lia)) as [e' He']. exists e'. rewrite fmap_cons. cbn [concat read_frames]. rewrite <- app_assoc.
    rewrite (read_frame_whole v) by done. by rewrite He'.
Qed.

Lemma write_frames_out vs bodies w w' n :
  Forall2 (fun v body => to_vec v = Ok body) vs bodies -> write_frames vs w = (w', n) ->
  exists j s, (n <= j <= S n)%nat /\ (sk_flushes w = true -> j = n) /\ (n = length vs -> j = n) /\ (j <= length vs)%nat
    /\ sk_out w' = sk_out w ++ concat (frame_of <$> take j bodies) ++ s
    /\ Forall (fun body => blen body <= MAX_FRAME_LEN)%N (take j bodies)
    /\ (s = [] \/ exists body, cut (frame_of body) s /\ s <> frame_of body /\ (blen body <= MAX_FRAME_LEN)%N).
Proof.
  intros Hall. revert w n. induction Hall as [|v body vs bodies Hv Hall IH]; intros w n; cbn.
  { intros [= <- <-]. exists O, []. cbn. rewrite app_nil_r. split_and!; try done; try lia. by left. }
  destruct (write_frame v w) as [w1 r] eqn:E1. pose proof E1 as E1'.
  apply (write_frame_out v body) in E1' as (Hf & s & Ho & Hc & Hr); [|done]. destruct r as [[]|e].
  - destruct Hr as [-> Hl]. destruct (write_frames vs w1) as [w2 m] eqn:E2. intros [= <- <-].
    destruct (IH _ _ E2) as (j & s & Hj & Hfl & Hn & Hle & Ho2 & Hmax & Hs).
    exists (S j), s. cbn. split_and!; try lia; try done.
    + intros Hw. f_equal. apply Hfl. congruence.
    + rewrite Ho2, Ho. rewrite <- !app_assoc. done.
    + by constructor.
  - intros [= <- <-]. destruct (decide (s = frame_of body)) as [->|Hne].
    + destruct Hr as [Hr|[Hl Hw]]; [done|]. exists 1%nat, []. cbn. rewrite take_0, !app_nil_r.
      split_and!; try lia; try done; [|by constructor|by left]. rewrite Hw. done.
    + exists O, s. cbn. split_and!; try lia; try done.
      destruct (decide (s = [])) as [->|Hs0]; [by left|]. right. exists body. split_and!; try done.
      destruct (N.leb_spec (blen body) MAX_FRAME_LEN) as [|Hbig]; [done|]. exfalso. apply Hs0.
      unfold write_frame in E1. rewrite Hv in E1.
      destruct (N.ltb_spec u32_max (blen body)); [|destruct (N.ltb_spec MAX_FRAME_LEN (blen body)); [|lia]];
        injection E1 as <- _; rewrite <- (app_nil_r (sk_out w)) in Ho at 1; by apply app_inv_head in Ho.
Qed.

(** What one side of the IPC stream sends the other reads: whatever the
    writes do, the reader gets exactly the messages sent, in order, from the
    first on, all those whose write was answered [Ok], at most one more (one
    that went out whole and was not flushed), and then an error; a message
    above 16 MiB is never among them. A read takes at most a header and 16 MiB
    of any stream. *)
Theorem frames_arrive_in_order (vs : list T) (bodies : list bytes) (room : option N) (flushes : bool) w n fuel :
  Forall2 serde_keeps vs bodies ->
  write_frames vs {| sk_out := []; sk_room := room; sk_flushes := flushes |} = (w, n) ->
  (length vs < fuel)%nat ->
  (exists j e, (n <= j <= S n)%nat /\ (j <= length vs)%nat /\ (flushes = true \/ n = length vs -> j = n)
     /\ Forall (fun body => blen body <= MAX_FRAME_LEN)%N (take j bodies)
     /\ read_frames fuel (sk_out w) = (take j vs, Some e))
  /\ forall (s : bytes) (x : result TransportError T) r, read_frame s = (x, r) -> (blen s <= blen r + 4 + MAX_FRAME_LEN)%N \/ r = [].
Proof.
  intros Hall Hw Hf. split; [|intros s x r; apply read_frame_bounded].
  apply (write_frames_out vs bodies) in Hw as (j & s & Hj & Hfl & Hn & Hle & Ho & Hmax & Hs).
  2: { eapply Forall2_impl; [exact Hall|]. by intros v body [? ?]. }
  cbn in Ho, Hfl. destruct (read_frames_prefix (take j vs) (take j bodies) s fuel) as [e He].
  - apply Forall2_same_length_lookup_2; [rewrite !length_take, (Forall2_length _ _ _ Hall); done|].
    intros i v body Hv Hb. split.
    + apply lookup_take_Some in Hv as [Hv _]. apply lookup_take_Some in Hb as [Hb _].
      by destruct (Forall2_lookup_lr _ _ _ _ _ _ Hall Hv Hb).
    + by eapply Forall_lookup_1 in Hmax; [|exact Hb].
  - destruct Hs as [->|(body & Hc & Hne & Hl)]; [apply read_frame_nil|by apply (read_frame_cut body)].
  - rewrite length_take. lia.
  - exists j, e. rewrite Ho. split_and!; try done; try lia. naive_solver.
Qed.
End FrameFacts.

Module WireDemo.
(** Messages that are their own text. *)
#[local] Instance plain : Serde (list N) := {| to_vec b := Ok b; from_slice b := Ok b |}.

Definition messages : list (list N) := [[1; 2; 3]; [4; 5]]%N.
Definition sent (room : N) : Sink * nat :=
  write_frames messages {| sk_out := []; sk_room := Some room; sk_flushes := false |}.

Lemma frames_arrive_in_order_witness :
  snd (sent 12) = O /\ read_frames 3 (sk_out (fst (sent 12))) = ([[1; 2; 3]%N], Some (TeIo (txt "early eof")))
  /\ ((exists j e, (0 <= j <= 1)%nat /\ (j <= 2)%nat /\ (false = true \/ 0%nat = 2%nat -> j = 0%nat)
       /\ Forall (fun body => blen body <= MAX_FRAME_LEN)%N (take j messages)
       /\ read_frames 3 (sk_out (fst (sent 12))) = (take j messages, Some e))
      /\ forall (s : bytes) (x : result TransportError (list N)) r, read_frame s = (x, r) -> (blen s <= blen r + 4 + MAX_FRAME_LEN)%N \/ r = []).
Proof.
  split; [by vm_compute|]. split; [by vm_compute|].
  apply (frames_arrive_in_order messages messages (Some 12%N) false (fst (sent 12)) 0 3).
  - repeat constructor.
  - vm_compute. reflexivity.
  - cbn. lia.
Defined.
End WireDemo.
