(* ===== verification/Dispatch.v ===== *)
(** * Requests to registry operations ([dispatch.rs], [rdpilot/src/config.rs])

    [dispatch_for_ipc] is one request, call after call, as a program over the
    operations that it asks of the registry, the recording service, the bundle
    source and the diagnostics ([DispatchOp]).  What they do is modelled
    elsewhere ([Registry.v], [RegistrySystem.v], [RecordService.v],
    [TransferQueue.v], [Bundles.v]) and is arbitrary here; a wait that the
    peer of the request can cut short has the two ends of its [select!]. *)
From S2P Require Import Prelude Errors Bytes Releases Vocab LoopInput Events Control Registry ViewerAuth Prog Wire.
Open Scope prog_scope.

(** ** [ConnectionConfig] *)

Record ConnectionConfig := {
  cc_host : text; cc_port : Z; cc_username : text; cc_password : text; cc_domain : option text;
  cc_width : Z; cc_height : Z; cc_accept_invalid_certs : bool; cc_bundle_path : option (list text);
  cc_bundle_id : option text; cc_share_root : option text }.

Definition DEFAULT_PORT : Z := 3389.
Definition DEFAULT_WIDTH : Z := 1920.
Definition DEFAULT_HEIGHT : Z := 1080.

Definition config_new (host username password : text) : ConnectionConfig :=
  {| cc_host := host; cc_port := DEFAULT_PORT; cc_username := username; cc_password := password; cc_domain := None;
     cc_width := DEFAULT_WIDTH; cc_height := DEFAULT_HEIGHT; cc_accept_invalid_certs := false; cc_bundle_path := None;
     cc_bundle_id := None; cc_share_root := None |}.

Definition config_port (port : Z) (c : ConnectionConfig) : ConnectionConfig :=
  {| cc_host := cc_host c; cc_port := port; cc_username := cc_username c; cc_password := cc_password c;
     cc_domain := cc_domain c; cc_width := cc_width c; cc_height := cc_height c;
     cc_accept_invalid_certs := cc_accept_invalid_certs c; cc_bundle_path := cc_bundle_path c;
     cc_bundle_id := cc_bundle_id c; cc_share_root := cc_share_root c |}.
Definition config_domain (domain : text) (c : ConnectionConfig) : ConnectionConfig :=
  {| cc_host := cc_host c; cc_port := cc_port c; cc_username := cc_username c; cc_password := cc_password c;
     cc_domain := Some domain; cc_width := cc_width c; cc_height := cc_height c;
     cc_accept_invalid_certs := cc_accept_invalid_certs c; cc_bundle_path := cc_bundle_path c;
     cc_bundle_id := cc_bundle_id c; cc_share_root := cc_share_root c |}.
Definition config_accept_invalid_certs (accept : bool) (c : ConnectionConfig) : ConnectionConfig :=
  {| cc_host := cc_host c; cc_port := cc_port c; cc_username := cc_username c; cc_password := cc_password c;
     cc_domain := cc_domain c; cc_width := cc_width c; cc_height := cc_height c;
     cc_accept_invalid_certs := accept; cc_bundle_path := cc_bundle_path c;
     cc_bundle_id := cc_bundle_id c; cc_share_root := cc_share_root c |}.
(** [bundle_path] and [bundle_id] *)
Definition config_bundle (path : list text) (id : text) (c : ConnectionConfig) : ConnectionConfig :=
  {| cc_host := cc_host c; cc_port := cc_port c; cc_username := cc_username c; cc_password := cc_password c;
     cc_domain := cc_domain c; cc_width := cc_width c; cc_height := cc_height c;
     cc_accept_invalid_certs := cc_accept_invalid_certs c; cc_bundle_path := Some path;
     cc_bundle_id := Some id; cc_share_root := cc_share_root c |}.
Definition config_share_root (path : text) (c : ConnectionConfig) : ConnectionConfig :=
  {| cc_host := cc_host c; cc_port := cc_port c; cc_username := cc_username c; cc_password := cc_password c;
     cc_domain := cc_domain c; cc_width := cc_width c; cc_height := cc_height c;
     cc_accept_invalid_certs := cc_accept_invalid_certs c; cc_bundle_path := cc_bundle_path c;
     cc_bundle_id := cc_bundle_id c; cc_share_root := Some path |}.

(** ** The operations *)


(** [Stage] of [diagnostics.rs]; a bootstrap stage is its name. *)
Inductive Stage :=
| RegistryOpened | BridgeBootstrapStarted | BridgeBootstrapFinished | IpcResponseWritten | IpcPeerClosed
| RegistryClosed | StBootstrap (stage : text).

(** The end of a wait that is watched: its own, or the peer left. *)
Inductive Watched (A : Type) := Finished (a : A) | PeerGone.
Arguments Finished {A} a.
Arguments PeerGone {A}.

(** A [Screenshot] is its bytes before encoding. *)
Inductive DispatchOp : Type -> Type :=
| ResolveShareRoot : DispatchOp (result DaemonError text)
| PrepareBundle (request : BundleRequest) : DispatchOp (result text PreparedBundle)
| PrintWarning (warning : text) : DispatchOp unit
| OpenTracked (watched : bool) (name : option text) (host : text) (cfg : ConnectionConfig) (bootstrap : bool) :
    DispatchOp (Watched (result DaemonError ConnectLease))
| Diagnose (session : text) (stage : Stage) : DispatchOp unit
| InputEpochOf (session : text) : DispatchOp (option Z)
| DeployAndLaunch (watched : bool) (session : text) (epoch : Z) : DispatchOp (Watched (result DaemonError unit))
| DropMark (lease : ConnectLease) : DispatchOp unit
| BootstrapStages (session : text) : DispatchOp (result DaemonError (list text))
| CloseIfGeneration (lease : ConnectLease) : DispatchOp (result DaemonError bool)
| EventsOf (session : text) : DispatchOp (option nat)
| CallStart (log : nat) (name : text) : DispatchOp nat
| CallFinish (log call : nat) (ok : bool) : DispatchOp unit
| ListStatuses : DispatchOp (list SessionStatus)
| CloseSession (session : text) : DispatchOp (result DaemonError unit)
| PingSession (session : text) : DispatchOp (result DaemonError unit)
| TakeScreenshot (session : text) : DispatchOp (result DaemonError bytes)
| UploadFile (session local_path remote_name : text) : DispatchOp (result DaemonError TransferOutcome)
| DownloadFile (session remote_name local_path : text) : DispatchOp (result DaemonError TransferOutcome)
| SendMouse (session : text) (action : MouseAction) : DispatchOp (result DaemonError unit)
| SendKey (session : text) (action : KeyAction) : DispatchOp (result DaemonError unit)
| DesktopSizeOf (session : text) : DispatchOp (result DaemonError (Z * Z))
| RecordingTarget (start : bool) (session : text) : DispatchOp (result DaemonError nat)
| StartRecording (log : nat) (trigger : RecordingTrigger) (source : EventSource) : DispatchOp (result text (text * bool))
| StopRecording (log : nat) (source : EventSource) (reason : StopReason) : DispatchOp (option text)
| AnnotateRecording (log : nat) (source : EventSource) (t : text) : DispatchOp (result text text)
| ListAll : DispatchOp (option (result text Listing))
| SetKeep (id : text) (keep : bool) : DispatchOp (option (result text bool))
| TakeoverSession (session : text) (source : EventSource) : DispatchOp (result DaemonError (WireController * bool)).

Record DispatchOutcome := { do_response : WireResponse; do_connect_lease : option ConnectLease; do_peer_closed : bool }.

Definition reply (r : WireResponse) : DispatchOutcome :=
  {| do_response := r; do_connect_lease := None; do_peer_closed := false |}.
Definition peer_closed : DispatchOutcome :=
  {| do_response := WAck; do_connect_lease := None; do_peer_closed := true |}.

(** [WireResponse::Error(e.into())] *)
Definition refuse (e : DaemonError) : WireResponse := WError_ (wire_error e).

Section Dispatch.
(** [Screenshot::to_png] and the base64 crate. *)
Context (to_png : bytes -> result Error bytes) (base64 : bytes -> text).

Abbreviation routine := (prog DispatchOp).

(** ** Connect *)

(** [if let Some(diagnostics) = diagnostics { diagnostics.record(..) }] *)
Definition diagnose (diagnostics : bool) (session : text) (stage : Stage) : routine unit :=
  if diagnostics then act (Diagnose session stage) else Ret tt.

(** [close_if_generation], with the diagnostics of a close. *)
Definition close_by_lease (diagnostics : bool) (lease : ConnectLease) : routine unit :=
  let! closed := act (CloseIfGeneration lease) in
  match closed with
  | Ok true => diagnose diagnostics (cl_id lease) RegistryClosed
  | _ => Ret tt
  end.

Fixpoint print_warnings (ws : list text) : routine unit :=
  match ws with
  | [] => Ret tt
  | w :: ws => do! act (PrintWarning w) in print_warnings ws
  end.

Fixpoint record_bootstrap_stages (session : text) (stages : list text) : routine unit :=
  match stages with
  | [] => Ret tt
  | s :: stages => do! act (Diagnose session (StBootstrap s)) in record_bootstrap_stages session stages
  end.

(** [Registry::start_connect_recording] *)
Definition start_connect_recording (session : text) (record : option RecordingTrigger)
  : routine (option (result text text)) :=
  match record with
  | None => Ret None
  | Some trigger =>
      let! target := act (RecordingTarget true session) in
      match target with
      | Ok log => let! started := act (StartRecording log trigger SrcCli) in
                  Ret (Some (match started with Ok (id, _) => Ok id | Err e => Err e end))
      | Err e => Ret (Some (Err (daemon_error_text e)))
      end
  end.

Definition recording_state (r : option (result text text)) : WireRecordingState :=
  match r with None => RsOff | Some (Ok id) => RsOn id | Some (Err reason) => RsFailed reason end.

(** The configuration of a connect, before its bundle. *)
Definition connect_config (f : ConnectFields) (share_root : text) : ConnectionConfig :=
  let cfg := config_accept_invalid_certs (cf_accept_invalid_certs f)
               (config_new (cf_host f) (cf_username f) (cf_password f)) in
  let cfg := match cf_port f with Some port => config_port port cfg | None => cfg end in
  let cfg := match cf_domain f with Some domain => config_domain domain cfg | None => cfg end in
  config_share_root share_root cfg.

(** What a configured bundle adds between the open and the answer: [None]
    when the connect goes on, or its end. *)
Definition bootstrap_bridge (diagnostics watch : bool) (lease : ConnectLease) : routine (option DispatchOutcome) :=
  let session := cl_id lease in
  do! diagnose diagnostics session BridgeBootstrapStarted in
  let! control := act (InputEpochOf session) in
  let epoch := default INITIAL control in
  let! bootstrap := act (DeployAndLaunch watch session epoch) in
  match bootstrap with
  | PeerGone =>
      do! diagnose diagnostics session IpcPeerClosed in
      do! close_by_lease diagnostics lease in
      do! act (DropMark lease) in
      Ret (Some peer_closed)
  | Finished bootstrap =>
      do! (match bootstrap with Ok _ => act (DropMark lease) | Err _ => Ret tt end) in
      let! stages := act (BootstrapStages session) in
      do! (if diagnostics
           then record_bootstrap_stages session (match stages with Ok s => s | Err _ => [] end) else Ret tt) in
      match bootstrap with
      | Err e =>
          do! close_by_lease diagnostics lease in
          do! act (DropMark lease) in
          Ret (Some (reply (refuse e)))
      | Ok _ =>
          do! diagnose diagnostics session BridgeBootstrapFinished in
          Ret None
      end
  end.

(** The connect once its bundle, if any, is there. *)
Definition connect_with (f : ConnectFields) (diagnostics watch : bool) (cfg : ConnectionConfig)
    (bridge_configured : bool) (warnings : list text) : routine DispatchOutcome :=
  let! opened := act (OpenTracked watch (cf_name f) (cf_host f) cfg bridge_configured) in
  match opened with
  | PeerGone => Ret peer_closed
  | Finished (Err e) => Ret (reply (refuse e))
  | Finished (Ok lease) =>
      let! recording := start_connect_recording (cl_id lease) (cf_record f) in
      do! diagnose diagnostics (cl_id lease) RegistryOpened in
      let! ended := (if bridge_configured then bootstrap_bridge diagnostics watch lease else Ret None) in
      match ended with
      | Some outcome => Ret outcome
      | None =>
          Ret {| do_response := WConnected (cl_id lease) (cf_connect_ack f) bridge_configured
                                  (recording_state recording) warnings;
                 do_connect_lease := Some lease; do_peer_closed := false |}
      end
  end.

Definition dispatch_connect (f : ConnectFields) (diagnostics watch : bool) : routine DispatchOutcome :=
  let! share_root := act ResolveShareRoot in
  match share_root with
  | Err e => Ret (reply (refuse e))
  | Ok share_root =>
      let cfg := connect_config f share_root in
      if cf_cua_enabled f then
        let! bundle := act (PrepareBundle {| br_cua_version := cf_cua_version f;
                                             br_auto_download := cf_cua_auto_download f; br_arch := X86_64 |}) in
        match bundle with
        | Err e => Ret (reply (refuse (BundleError e)))
        | Ok bundle =>
            do! print_warnings (pb_warnings bundle) in
            connect_with f diagnostics watch (config_bundle (pb_dir bundle) (pb_bundle_id bundle) cfg) true
              (pb_warnings bundle)
        end
      else connect_with f diagnostics watch cfg false []
  end.

(** ** The other verbs *)

(** [native_verb] *)
Definition native_verb (r : Request) : option (text * text) :=
  match r with
  | RqScreenshot s => Some (s, txt "screenshot")
  | RqMouse s _ => Some (s, txt "mouse")
  | RqKey s _ => Some (s, txt "key")
  | RqDesktopSize s => Some (s, txt "desktop_size")
  | RqPut s _ _ => Some (s, txt "put")
  | RqGet s _ _ => Some (s, txt "get")
  | _ => None
  end.

Definition ack_or_refuse {A} (r : result DaemonError A) : WireResponse :=
  match r with Ok _ => WAck | Err e => refuse e end.

Definition record_start (session : text) (trigger : RecordingTrigger) (source : EventSource) : routine WireResponse :=
  let! target := act (RecordingTarget true session) in
  match target with
  | Err e => Ret (refuse e)
  | Ok log =>
      let! started := act (StartRecording log trigger source) in
      Ret match started with
          | Ok (id, true) => WRecordingChanged (Some id) true (txt "recording started (" ++ id ++ txt ")")
          | Ok (id, false) => WRecordingChanged (Some id) false (txt "already recording (" ++ id ++ txt "); nothing changed")
          | Err reason => refuse (RecordingError reason)
          end
  end.

Definition record_stop (session : text) (source : EventSource) : routine WireResponse :=
  let! target := act (RecordingTarget false session) in
  match target with
  | Err e => Ret (refuse e)
  | Ok log =>
      let! stopped := act (StopRecording log source Requested) in
      Ret match stopped with
          | Some id => WRecordingChanged (Some id) true (txt "recording stopped (" ++ id ++ txt ")")
          | None => WRecordingChanged None false (txt "session is not recording; nothing changed")
          end
  end.

Definition annotate (session t : text) (source : EventSource) : routine WireResponse :=
  let! target := act (RecordingTarget false session) in
  match target with
  | Err e => Ret (refuse e)
  | Ok log =>
      let! noted := act (AnnotateRecording log source t) in
      Ret match noted with
          | Ok id => WRecordingChanged (Some id) true (txt "annotation added to " ++ id)
          | Err reason => refuse (RecordingError reason)
          end
  end.

(** [None]: the blocking task did not finish. *)
Definition recording_list : routine WireResponse :=
  let! listed := act ListAll in
  Ret match listed with
      | Some (Ok listing) => WRecordings listing
      | Some (Err reason) => refuse (RecordingError reason)
      | None => refuse (RecordingError (txt "recording list failed"))
      end.

Definition recording_keep (id : text) (keep : bool) : routine WireResponse :=
  let! kept := act (SetKeep id keep) in
  Ret match kept with
      | Some (Ok changed) =>
          WRecordingChanged (Some id) changed
            match keep, changed with
            | true, true => id ++ txt " marked keep"
            | false, true => id ++ txt " no longer kept"
            | true, false => id ++ txt " is already kept; nothing changed"
            | false, false => id ++ txt " is not kept; nothing changed"
            end
      | Some (Err reason) => refuse (RecordingError reason)
      | None => refuse (RecordingError (txt "keep failed"))
      end.

(** [screenshot_to_base64] *)
Definition screenshot_to_base64 (shot : bytes) : result DaemonError text :=
  match to_png shot with Ok png => Ok (base64 png) | Err e => Err (Sdk e) end.

Definition transferred (r : result DaemonError TransferOutcome) : WireResponse :=
  match r with Ok o => WTransfer o | Err e => refuse e end.

(** The arms of the verbs other than [Connect], which does not come here. *)
Definition dispatch_verb (r : Request) : routine WireResponse :=
  match r with
  | RqConnect _ => Ret WAck
  | RqConnectAck _ => Ret (refuse (ConnectError (txt "ConnectAck is only valid immediately after Connect")))
  | RqList => let! sessions := act ListStatuses in Ret (WSessionList sessions (Some IPC_COMPATIBILITY_VERSION))
  | RqDisconnect s => let! r := act (CloseSession s) in Ret (ack_or_refuse r)
  | RqPing s => let! r := act (PingSession s) in Ret (ack_or_refuse r)
  | RqScreenshot s =>
      let! shot := act (TakeScreenshot s) in
      Ret match rbind shot screenshot_to_base64 with
          | Ok png_base64 => WScreenshot png_base64
          | Err e => refuse e
          end
  | RqPut s local_path remote_name => let! r := act (UploadFile s local_path remote_name) in Ret (transferred r)
  | RqGet s remote_name local_path => let! r := act (DownloadFile s remote_name local_path) in Ret (transferred r)
  | RqMouse s action => let! r := act (SendMouse s action) in Ret (ack_or_refuse r)
  | RqKey s action => let! r := act (SendKey s action) in Ret (ack_or_refuse r)
  | RqDesktopSize s =>
      let! size := act (DesktopSizeOf s) in
      Ret match size with
          | Ok (w, h) => WDesktopSize (w mod 65536) (h mod 65536)
          | Err e => refuse e
          end
  | RqCuaAttach _ => Ret (refuse (ConnectError (txt "CuaAttach requires a stream upgrade")))
  | RqViewerStart _ _ _ _ => Ret (refuse (ConnectError (txt "ViewerStart requires a held IPC connection")))
  | RqRecordStart s => record_start s TrCli SrcCli
  | RqRecordStop s => record_stop s SrcCli
  | RqAnnotate s t => annotate s t SrcCli
  | RqRecordingList => recording_list
  | RqRecordingKeep id keep => recording_keep id keep
  | RqTakeover s =>
      let! r := act (TakeoverSession s SrcCli) in
      Ret match r with Ok (previous, changed) => WTakenOver previous changed | Err e => refuse e end
  end.

(** The start of the call span of a native verb on a session with a log. *)
Definition start_call (r : Request) : routine (option (nat * nat)) :=
  match native_verb r with
  | None => Ret None
  | Some (session, name) =>
      let! log := act (EventsOf session) in
      match log with
      | None => Ret None
      | Some log => let! call := act (CallStart log name) in Ret (Some (log, call))
      end
  end.

Definition dispatch_for_ipc (r : Request) (diagnostics watch : bool) : routine DispatchOutcome :=
  let! cli_call := start_call r in
  match r with
  | RqConnect fields => dispatch_connect fields diagnostics watch
  | _ =>
      let! response := dispatch_verb r in
      do! (match cli_call with
           | Some (log, call) => act (CallFinish log call (negb (is_error response)))
           | None => Ret tt
           end) in
      Ret (reply response)
  end.
End Dispatch.

(** ** What a connect promises *)

(** How far a connect is.  [PhOpened]: its session is registered, with or
    without a bridge to start; [PhBooted]: the bridge answered, the mark that
    keeps humans away is still set; [PhFailed]: the bridge did not start or the
    peer left; [PhClosed]: the session was closed, the mark is still set. *)
Inductive ConnectPhase :=
| PhFresh | PhBundled (b : PreparedBundle) | PhOpened (lease : ConnectLease) (bridge : bool)
| PhBooted (lease : ConnectLease) | PhReady (lease : ConnectLease) | PhFailed (lease : ConnectLease)
| PhClosed (lease : ConnectLease) | PhOver.

#[global] Instance ConnectLease_eq_dec : EqDecision ConnectLease.
Proof. solve_decision. Defined.

(** The order in which a connect may do things: no session without its
    verified bundle, the bridge only of its own session, no way out of a failed
    bootstrap but through the close, and the mark cleared after it. *)
Definition connect_step (f : ConnectFields) (B : Type) (e : DispatchOp B) : B -> ConnectPhase -> option ConnectPhase :=
  match e in DispatchOp B return B -> ConnectPhase -> option ConnectPhase with
  | ResolveShareRoot => fun a ph =>
      match ph, a with PhFresh, Ok _ => Some PhFresh | PhFresh, Err _ => Some PhOver | _, _ => None end
  | PrepareBundle rq => fun a ph =>
      if cf_cua_enabled f
         && bool_decide (rq = {| br_cua_version := cf_cua_version f; br_auto_download := cf_cua_auto_download f; br_arch := X86_64 |})
      then match ph, a with PhFresh, Ok b => Some (PhBundled b) | PhFresh, Err _ => Some PhOver | _, _ => None end
      else None
  | PrintWarning _ => fun _ ph => match ph with PhBundled _ => Some ph | _ => None end
  | OpenTracked _ _ _ cfg bridge => fun a ph =>
      let served := match ph with
        | PhFresh => negb (cf_cua_enabled f) && negb bridge && bool_decide (cc_bundle_path cfg = None)
        | PhBundled b => bridge && bool_decide (cc_bundle_path cfg = Some (pb_dir b))
                         && bool_decide (cc_bundle_id cfg = Some (pb_bundle_id b))
        | _ => false
        end in
      if served then Some match a with Finished (Ok lease) => PhOpened lease bridge | _ => PhOver end else None
  | RecordingTarget start s => fun _ ph =>
      match ph with PhOpened lease _ => if start && bool_decide (s = cl_id lease) then Some ph else None | _ => None end
  | StartRecording _ trigger _ => fun _ ph =>
      match ph with PhOpened _ _ => if decide (cf_record f = None) then None else Some ph | _ => None end
  | InputEpochOf s => fun _ ph =>
      match ph with PhOpened lease true => if decide (s = cl_id lease) then Some ph else None | _ => None end
  | DeployAndLaunch _ s _ => fun a ph =>
      match ph with
      | PhOpened lease true =>
          if decide (s = cl_id lease)
          then Some match a with Finished (Ok _) => PhBooted lease | _ => PhFailed lease end else None
      | _ => None
      end
  | DropMark l => fun _ ph =>
      match ph with
      | PhBooted lease => if decide (l = lease) then Some (PhReady lease) else None
      | PhClosed lease => if decide (l = lease) then Some PhOver else None
      | _ => None
      end
  | BootstrapStages s => fun _ ph =>
      match ph with
      | PhReady lease | PhFailed lease => if decide (s = cl_id lease) then Some ph else None
      | _ => None
      end
  | CloseIfGeneration l => fun _ ph =>
      match ph with PhFailed lease => if decide (l = lease) then Some (PhClosed lease) else None | _ => None end
  | Diagnose _ _ => fun _ ph => match ph with PhFresh | PhBundled _ => None | _ => Some ph end
  | _ => fun _ _ => None
  end.

(** What is left when it ends, and what is answered. *)
Definition connect_end (f : ConnectFields) (ph : ConnectPhase) (o : DispatchOutcome) : Prop :=
  match ph with
  | PhOver => o = peer_closed \/ exists e, o = reply (refuse e)
  | PhOpened lease false | PhReady lease =>
      do_peer_closed o = false /\ do_connect_lease o = Some lease
      /\ exists recording warnings,
           do_response o = WConnected (cl_id lease) (cf_connect_ack f) (cf_cua_enabled f) recording warnings
  | _ => False
  end.

#[local] Ltac keeps := rewrite ?bool_decide_true by done; cbn.

Section ConnectFacts.
Context (f : ConnectFields) (diagnostics watch : bool).

Lemma follows_diagnose {A} Q (k : prog DispatchOp A) s stage ph :
  match ph with PhFresh | PhBundled _ => False | _ => True end ->
  follows (connect_step f) Q k ph -> follows (connect_step f) Q (pbind (diagnose diagnostics s stage) (fun _ => k)) ph.
Proof. intros Hp Hk. unfold diagnose. destruct diagnostics; [|done]. cbn. intros []. by destruct ph. Qed.

Lemma follows_stages {A} Q (k : prog DispatchOp A) s stages ph :
  match ph with PhFresh | PhBundled _ => False | _ => True end ->
  follows (connect_step f) Q k ph -> follows (connect_step f) Q (pbind (record_bootstrap_stages s stages) (fun _ => k)) ph.
Proof.
  intros Hp Hk. induction stages as [|st stages IH]; [done|]. cbn. intros _. by destruct ph.
Qed.

Lemma follows_warnings {A} Q (k : prog DispatchOp A) ws b :
  follows (connect_step f) Q k (PhBundled b) -> follows (connect_step f) Q (pbind (print_warnings ws) (fun _ => k)) (PhBundled b).
Proof. intros Hk. induction ws as [|w ws IH]; [done|]. cbn. by intros _. Qed.

(** A session whose bridge did not start is closed. *)
Lemma follows_close {A} Q (k : prog DispatchOp A) lease :
  follows (connect_step f) Q k (PhClosed lease) ->
  follows (connect_step f) Q (pbind (close_by_lease diagnostics lease) (fun _ => k)) (PhFailed lease).
Proof.
  intros Hk. unfold close_by_lease. cbn. intros a. rewrite decide_True by done.
  destruct a as [[]|]; [by apply follows_diagnose|done|done].
Qed.

Lemma follows_recording {A} Q (k : option (result text text) -> prog DispatchOp A) lease b :
  (forall r, follows (connect_step f) Q (k r) (PhOpened lease b)) ->
  follows (connect_step f) Q (pbind (start_connect_recording (cl_id lease) (cf_record f)) k) (PhOpened lease b).
Proof.
  intros Hk. unfold start_connect_recording. destruct (cf_record f) eqn:Er; [|by apply Hk]. cbn. intros a. keeps.
  destruct a as [log|e]; cbn; [|by apply Hk]. intros a. rewrite decide_False by (by rewrite Er). cbn. by destruct a as [[]|].
Qed.

Lemma follows_bootstrap {A} Q (k : option DispatchOutcome -> prog DispatchOp A) lease :
  follows (connect_step f) Q (k None) (PhReady lease) ->
  (forall o, o = peer_closed \/ (exists e, o = reply (refuse e)) -> follows (connect_step f) Q (k (Some o)) PhOver) ->
  follows (connect_step f) Q (pbind (bootstrap_bridge diagnostics watch lease) k) (PhOpened lease true).
Proof.
  intros Hok Hend. apply follows_bind. unfold bootstrap_bridge. apply follows_diagnose; [done|]. cbn. intros epoch.
  rewrite decide_True by done. cbn. intros a. rewrite decide_True by done. destruct a as [[[]|e]|].
  - cbn. intros _. rewrite decide_True by done. cbn. intros stages. rewrite decide_True by done.
    destruct diagnostics eqn:Ed; rewrite <- ?Ed; [apply follows_stages; [done|]|]; (apply follows_diagnose; [done|]); apply Hok.
  - cbn. intros stages. rewrite decide_True by done.
    destruct diagnostics eqn:Ed; rewrite <- ?Ed; [apply follows_stages; [done|]|];
      apply follows_close; cbn; intros _; rewrite decide_True by done; apply Hend; eauto.
  - apply follows_diagnose; [done|]. apply follows_close. cbn. intros _. rewrite decide_True by done. apply Hend. by left.
Qed.

Lemma follows_connect_with cfg bridge warnings ph :
  cf_cua_enabled f = bridge ->
  match ph with
  | PhFresh => bridge = false /\ cc_bundle_path cfg = None
  | PhBundled b => bridge = true /\ cc_bundle_path cfg = Some (pb_dir b) /\ cc_bundle_id cfg = Some (pb_bundle_id b)
  | _ => False
  end ->
  follows (connect_step f) (connect_end f) (connect_with f diagnostics watch cfg bridge warnings) ph.
Proof.
  intros Hb Hph. unfold connect_with. cbn. intros a. rewrite Hb.
  destruct ph as [|b| | | | | |]; try done; destruct Hph as [-> Hph].
  - keeps. destruct a as [[lease|e]|]; [|by right; exists e|by left].
    apply follows_recording. intros r. apply follows_diagnose; [done|]. cbn. split_and!; [done|done|]. rewrite Hb. eauto.
  - destruct Hph as [Hd Hi]. keeps. destruct a as [[lease|e]|]; [|by right; exists e|by left].
    apply follows_recording. intros r. apply follows_diagnose; [done|]. apply follows_bootstrap; cbn.
    + split_and!; [done|done|]. rewrite Hb. eauto.
    + done.
Qed.
End ConnectFacts.

Lemma dispatch_connect_follows (f : ConnectFields) (diagnostics watch : bool) :
  follows (connect_step f) (connect_end f) (dispatch_connect f diagnostics watch) PhFresh.
Proof.
  unfold dispatch_connect. apply follows_act. intros [root|e]; cbn [connect_step]; [|by right; exists e].
  assert (Hc : cc_bundle_path (connect_config f root) = None).
  { unfold connect_config. by destruct (cf_port f), (cf_domain f). }
  destruct (cf_cua_enabled f) eqn:Ecua; [|by apply follows_connect_with].
  apply follows_act. intros a. cbn [connect_step]. rewrite Ecua, bool_decide_true by done. cbn [andb].
  destruct a as [b|e]; [|right; by exists (BundleError e)].
  apply follows_warnings, follows_connect_with; done.
Qed.

(** C18: A connect with Cua enabled opens a session only with the bundle that
    was prepared for it, one without Cua never asks for a bundle; a bridge that
    does not answer and a peer that leaves meanwhile end in the close of exactly
    the session opened, before the mark that keeps humans away is cleared; and
    [Connected], with the lease of the session, is answered only for a session
    that is open, with a live bridge exactly when Cua was asked for.  So for
    every answer of the registry, the bundle source and the session. *)
Theorem connect_fails_closed to_png base64 (f : ConnectFields) (diagnostics watch : bool) :
  follows (connect_step f) (connect_end f) (dispatch_for_ipc to_png base64 (RqConnect f) diagnostics watch) PhFresh.
Proof. apply dispatch_connect_follows. Qed.

(** ** What the other verbs promise *)

#[global] Instance RecordingTrigger_eq_dec : EqDecision RecordingTrigger.
Proof. solve_decision. Defined.
#[global] Instance EventSource_eq_dec : EqDecision EventSource.
Proof. solve_decision. Defined.
#[global] Instance MouseAction_eq_dec : EqDecision MouseAction.
Proof. solve_decision. Defined.
#[global] Instance KeyAction_eq_dec : EqDecision KeyAction.
Proof. solve_decision. Defined.

(** A verb under way: the span of its call, the log of the recording it is
    about, and whether its operation failed. *)
Inductive Span := SpNone | SpLog (log : nat) | SpOpen (log call : nat) | SpDone (ok : bool).
Record VerbState := { vs_span : Span; vs_target : option nat; vs_failed : option bool }.

Definition verb_start : VerbState := {| vs_span := SpNone; vs_target := None; vs_failed := None |}.

(** The operation is the one that the request asks for, on its session (or
    recording) and with its arguments. *)
Definition serves (r : Request) (B : Type) (e : DispatchOp B) : bool :=
  match e, r with
  | ListStatuses, RqList | ListAll, RqRecordingList => true
  | CloseSession s, RqDisconnect s' | PingSession s, RqPing s' | TakeScreenshot s, RqScreenshot s'
  | DesktopSizeOf s, RqDesktopSize s' => bool_decide (s = s')
  | UploadFile s l n, RqPut s' l' n' | DownloadFile s n l, RqGet s' n' l' => bool_decide ((s, l, n) = (s', l', n'))
  | SendMouse s a, RqMouse s' a' => bool_decide ((s, a) = (s', a'))
  | SendKey s a, RqKey s' a' => bool_decide ((s, a) = (s', a'))
  | RecordingTarget true s, RqRecordStart s' => bool_decide (s = s')
  | RecordingTarget false s, (RqRecordStop s' | RqAnnotate s' _) => bool_decide (s = s')
  | StartRecording _ t src, RqRecordStart _ => bool_decide ((t, src) = (TrCli, SrcCli))
  | StopRecording _ src _, RqRecordStop _ => bool_decide (src = SrcCli)
  | AnnotateRecording _ src t, RqAnnotate _ t' => bool_decide ((src, t) = (SrcCli, t'))
  | SetKeep id k, RqRecordingKeep id' k' => bool_decide ((id, k) = (id', k'))
  | TakeoverSession s src, RqTakeover s' => bool_decide ((s, src) = (s', SrcCli))
  | _, _ => false
  end.

(** Whether an answer is a failure of its operation. *)
Definition failed (B : Type) (e : DispatchOp B) : B -> bool :=
  match e in DispatchOp B return B -> bool with
  | CloseSession _ | PingSession _ | SendMouse _ _ | SendKey _ _ => fun a => negb (is_ok a)
  | TakeScreenshot _ => fun a => negb (is_ok a)
  | UploadFile _ _ _ | DownloadFile _ _ _ => fun a => negb (is_ok a)
  | DesktopSizeOf _ => fun a => negb (is_ok a)
  | RecordingTarget _ _ => fun a => negb (is_ok a)
  | StartRecording _ _ _ => fun a => negb (is_ok a)
  | AnnotateRecording _ _ _ => fun a => negb (is_ok a)
  | ListAll => fun a => match a with Some (Ok _) => false | _ => true end
  | SetKeep _ _ => fun a => match a with Some (Ok _) => false | _ => true end
  | TakeoverSession _ _ => fun a => negb (is_ok a)
  | _ => fun _ => false
  end.

(** One operation of the verb [r]: the span of a native verb is opened on the
    log of its session before its operation and closed after it; a recording
    operation works on the log that was looked up. *)
Definition verb_step (r : Request) (B : Type) (e : DispatchOp B) : B -> VerbState -> option VerbState :=
  match e in DispatchOp B return B -> VerbState -> option VerbState with
  | EventsOf s => fun a v =>
      match native_verb r, vs_span v, vs_failed v with
      | Some (s', _), SpNone, None =>
          if decide (s = s')
          then Some {| vs_span := match a with Some log => SpLog log | None => SpNone end; vs_target := None; vs_failed := None |}
          else None
      | _, _, _ => None
      end
  | CallStart log name => fun call v =>
      match native_verb r, vs_span v with
      | Some (_, name'), SpLog log' =>
          if decide (log = log' /\ name = name')
          then Some {| vs_span := SpOpen log call; vs_target := None; vs_failed := None |} else None
      | _, _ => None
      end
  | CallFinish log call ok => fun _ v =>
      match vs_span v with
      | SpOpen log' call' =>
          if decide (log = log' /\ call = call')
          then Some {| vs_span := SpDone ok; vs_target := vs_target v; vs_failed := vs_failed v |} else None
      | _ => None
      end
  | RecordingTarget start s => fun a v =>
      match vs_failed v with
      | None => if serves r _ (RecordingTarget start s)
                then Some {| vs_span := vs_span v; vs_target := match a with Ok log => Some log | Err _ => None end;
                             vs_failed := match a with Ok _ => None | Err _ => Some true end |}
                else None
      | Some _ => None
      end
  | (StartRecording log _ _ | AnnotateRecording log _ _) as e => fun a v =>
      match vs_failed v, vs_target v with
      | None, Some log' =>
          if serves r _ e && bool_decide (log = log')
          then Some {| vs_span := vs_span v; vs_target := None; vs_failed := Some (failed _ e a) |} else None
      | _, _ => None
      end
  | (StopRecording log _ _) as e => fun a v =>
      match vs_failed v, vs_target v with
      | None, Some log' =>
          if serves r _ e && bool_decide (log = log')
          then Some {| vs_span := vs_span v; vs_target := None; vs_failed := Some false |} else None
      | _, _ => None
      end
  | e => fun a v =>
      match vs_failed v with
      | None => if serves r _ e
                then Some {| vs_span := vs_span v; vs_target := None; vs_failed := Some (failed _ e a) |} else None
      | Some _ => None
      end
  end.

(** How a verb ends: its span is closed with the outcome that is answered,
    and an answer is an error exactly when its operation failed, when its
    picture cannot be encoded, or when the verb has no place here. *)
Definition verb_end (r : Request) (v : VerbState) (o : DispatchOutcome) : Prop :=
  do_connect_lease o = None /\ do_peer_closed o = false
  /\ match vs_span v with
     | SpNone => True
     | SpDone ok => ok = negb (is_error (do_response o))
     | _ => False
     end
  /\ match vs_failed v with
     | Some true => is_error (do_response o) = true
     | Some false => is_error (do_response o) = true -> exists s, r = RqScreenshot s
     | None => is_error (do_response o) = true
               /\ match r with RqConnectAck _ | RqCuaAttach _ | RqViewerStart _ _ _ _ => True | _ => False end
     end.

Section VerbFacts.
Context (to_png : bytes -> result Error bytes) (base64 : bytes -> text).

#[local] Ltac op Hf :=
  apply follows_act; let a := fresh "a" in intros a; cbn [verb_step vs_failed vs_target vs_span];
  rewrite ?Hf; cbn [serves]; rewrite ?bool_decide_true by done; cbn [andb failed].
#[local] Ltac ends Hk :=
  cbn [pbind]; apply Hk; [done|cbn [vs_failed vs_span]; try done].

(** The operation of the verb, under an open span or none. *)
Lemma follows_verb r {A} (k : WireResponse -> prog DispatchOp A) Q v :
  match r with RqConnect _ => False | _ => True end ->
  vs_target v = None -> vs_failed v = None -> 
  (forall w resp, vs_span w = vs_span v ->
     match vs_failed w with
     | Some true => is_error resp = true
     | Some false => is_error resp = true -> exists s, r = RqScreenshot s
     | None => is_error resp = true
               /\ match r with RqConnectAck _ | RqCuaAttach _ | RqViewerStart _ _ _ _ => True | _ => False end
     end -> follows (verb_step r) Q (k resp) w) ->
  follows (verb_step r) Q (pbind (dispatch_verb to_png base64 r) k) v.
Proof.
  intros Hr Ht Hf Hk. destruct r as [f|s| |s|s|s|s m|s m|s|s l n|s n l|s|b t o i|s|s|s|s t| |id keep]; unfold dispatch_verb;
    try (apply follows_bind; op Hf); try done.
  all: try (apply Hk; [done|rewrite Hf; done]).
  all: try (apply Hk; [done|cbn [vs_failed]; first [by destruct a | by destruct a as [[]|]]]).
  all: try (apply Hk; [done|cbn [vs_failed]; done]).
  - apply Hk; [done|]. cbn [vs_failed]. destruct a as [shot|]; [|done]. cbn [rbind].
    by destruct (screenshot_to_base64 _ _ shot); [|exists s].
  - destruct a as [log|e]; [|by apply Hk]. op Hf. apply Hk; [done|]. cbn [vs_failed]. by destruct a as [[? []]|].
  - destruct a as [log|e]; [|by apply Hk]. op Hf. apply Hk; [done|]. cbn [vs_failed]. by destruct a.
  - destruct a as [log|e]; [|by apply Hk]. op Hf. apply Hk; [done|]. cbn [vs_failed]. by destruct a.
Qed.

Lemma follows_verb_end r v span :
  match r with RqConnect _ => False | _ => True end ->
  vs_target v = None -> vs_failed v = None ->
  match span with Some (log, call) => vs_span v = SpOpen log call | None => vs_span v = SpNone end ->
  follows (verb_step r) (verb_end r)
    (let! response := dispatch_verb to_png base64 r in
     do! (match span with
          | Some (log, call) => act (CallFinish log call (negb (is_error response)))
          | None => Ret tt
          end) in Ret (reply response)) v.
Proof.
  intros Hr Ht Hf Hs. apply follows_verb; [done..|]. intros w resp Hw Hfail. destruct span as [[log call]|].
  - apply follows_act. intros []. cbn [verb_step]. rewrite Hw, Hs, decide_True by done. by split_and!.
  - cbn. split_and!; try done. by rewrite Hw, Hs.
Qed.

Lemma verbs_follow (r : Request) (diagnostics watch : bool) :
  match r with RqConnect _ => False | _ => True end ->
  follows (verb_step r) (verb_end r) (dispatch_for_ipc to_png base64 r diagnostics watch) verb_start.
Proof.
  intros Hr. unfold dispatch_for_ipc. apply follows_bind. unfold start_call.
  destruct (native_verb r) as [[s name]|] eqn:Hn; [|by destruct r; try done; apply (follows_verb_end _ _ None)].
  apply follows_act. intros a. cbn [verb_step vs_span vs_failed verb_start]. rewrite Hn, decide_True by done.
  destruct a as [log|]; [|by destruct r; try done; apply (follows_verb_end _ _ None)].
  apply follows_act. intros call. cbn [verb_step vs_span]. rewrite Hn, decide_True by done.
  by destruct r; try done; apply (follows_verb_end _ _ (Some (log, call))).
Qed.

(** A request other than [Connect] asks for the operation of its verb
    only, once, on the session, recording and arguments it names, and answers
    with an error exactly when that failed (or the picture cannot be encoded);
    a verb that does not belong here does nothing.  On a session with a log a
    native verb, and no other, opens one call span before its operation and
    closes it after it with the outcome that is answered. *)
Theorem verbs_do_what_they_name (r : Request) (diagnostics watch : bool) :
  match r with RqConnect _ => False | _ => True end ->
  follows (verb_step r) (verb_end r) (dispatch_for_ipc to_png base64 r diagnostics watch) verb_start.
Proof. apply verbs_follow. Qed.
End VerbFacts.

Lemma verbs_do_what_they_name_witness :
  native_verb (RqKey (txt "a") (Type_ (txt "x"))) = Some (txt "a", txt "key")
  /\ follows (verb_step (RqKey (txt "a") (Type_ (txt "x")))) (verb_end (RqKey (txt "a") (Type_ (txt "x"))))
       (dispatch_for_ipc (fun _ => Ok []) (fun _ => []) (RqKey (txt "a") (Type_ (txt "x"))) false false) verb_start.
Proof. split; [reflexivity|]. apply verbs_do_what_they_name. exact I. Defined.
