(* ===== verification/IpcServer.v ===== *)
(** * One IPC connection ([ipc/mod.rs], [viewer/mod.rs])

    [serve_connection] reads requests and answers them until the peer closes,
    with its three special requests: a [Connect], whose session is kept only
    when its answer arrives, a [CuaAttach], which turns the stream into the
    relay of a Cua attachment ([forward_cua]), and a [ViewerStart], which holds
    the viewer as long as the stream lives.  It is a program over the
    operations of [Dispatch.v] and those of the stream, the attachment, the
    gate of [CuaGate.v] and the viewer.

    A loop takes its number of rounds as an argument; [None] says that it was
    still running after them. *)
From S2P Require Import Prelude Bytes Json Vocab LoopInput Calendar Events Control CuaGate Registry ViewerAuth Prog Viewer Wire Dispatch.
Open Scope prog_scope.

(** [str::parse::<Ipv4Addr>]: four decimal octets without leading zeros. *)
Definition parse_octet (t : text) : option N :=
  if forallb (in_range 48 57) t && (length t <=? 3)%nat && (negb (starts_with (txt "0") t) || bool_decide (t = txt "0"))
  then parse_unsigned 255 t else None.
Definition parse_ipv4 (t : text) : option Ipv4Addr :=
  match split_char 46%N t with
  | [a; b; c; d] =>
      match parse_octet a, parse_octet b, parse_octet c, parse_octet d with
      | Some a, Some b, Some c, Some d => Some {| ip_a := a; ip_b := b; ip_c := c; ip_d := d |}
      | _, _, _, _ => None
      end
  | _ => None
  end.

(** [ViewerParams], [ViewerOptions] and [Started] *)
Record ViewerParams := {
  vp_bind : WireViewerBind; vp_tailnet_override : option Ipv4Addr; vp_read_only : bool; vp_idle_timeout : Z }.
Record ViewerStart := { vs_addresses : list text; vs_token : text; vs_notices : list text }.

(** What an attach gives ([registry::CuaAttach] and [identity]); the log, the
    control and the attachment are the session's. *)
Record Attachment := {
  at_incarnation : Z; at_log : nat; at_bridge_generation : Z; at_runtime_generation : Z; at_id : Z }.
Inductive Attached := AtOk (a : Attachment) | AtErr (e : DaemonError) | AtTimeout.

(** What the [select!] of [forward_cua] takes: a frame of the caller or one
    of the attachment. *)
Inductive Taken := CallerMessage (m : Value) | CallerClosed | GuestMessage (m : Value) | GuestClosed.

Inductive IpcOp : Type -> Type :=
| Dispatched {B} (e : DispatchOp B) : IpcOp B
| ReadRequest : IpcOp (option Request)
| WriteResponse (r : WireResponse) : IpcOp bool
| WriteWithin (r : WireResponse) : IpcOp bool
| ReadAck : IpcOp (option Request)
| AttachCua (session : text) : IpcOp Attached
| RecordEvent (log : nat) (kind : EventKind) : IpcOp unit
| TakeFrame : IpcOp Taken
| TouchGeneration (session : text) (incarnation : Z) : IpcOp bool
| GateInbound (m : Value) : IpcOp (Inbound * option Transition)
| Discharge (t : Transition) : IpcOp unit
| WaitReleased : IpcOp unit
| ObserveRequest (m : Value) : IpcOp unit
| ObserveResponse (m : Value) : IpcOp unit
| SendToGuest (m : Value) : IpcOp bool
| GateOutbound (m : Value) : IpcOp Value
| SendToCaller (m : Value) : IpcOp bool
| SendClosed (reason : text) : IpcOp unit
| DropGate : IpcOp unit
| CloseTracker : IpcOp unit
| CloseAttachment : IpcOp unit
| AcquireViewer : IpcOp bool
| ReleaseViewer : IpcOp unit
| LocalInterfaces : IpcOp (list Interface)
| BindListeners (tailnet : option Ipv4Addr) : IpcOp (result BindError Bound)
| GenerateToken : IpcOp (result text text)
| Serve (addrs : list SocketAddr) (state : ServerState) : IpcOp unit
| AwaitPeer : IpcOp unit
| StopViewer : IpcOp unit
| EndAllLeases : IpcOp unit.

(** The operations of a request, asked from here. *)
Fixpoint lift {A} (p : prog DispatchOp A) : prog IpcOp A :=
  match p with Ret a => Ret a | Act e k => Act (Dispatched e) (fun b => lift (k b)) end.

Abbreviation task := (prog IpcOp).

(** ** The viewer *)

Definition HEADER_READ_TIMEOUT : Z := seconds 10.

(** [viewer::start]; the guard of the gate is dropped on every failure, and
    with the handle. *)
Definition viewer_start (p : ViewerParams) : task (result text ViewerStart) :=
  let! acquired := act AcquireViewer in
  if negb acquired then Ret (Err (txt "a viewer is already running for this daemon")) else
  let! interfaces := act LocalInterfaces in
  let selection := select_tailnet_address interfaces (vp_bind p) (vp_tailnet_override p) in
  let! bound := act (BindListeners (selection_address selection)) in
  match bound with
  | Err e =>
      do! act ReleaseViewer in
      Ret (Err (txt "could not bind the viewer on 127.0.0.1: " ++ show_bind_error e))
  | Ok bound =>
      let! token := act GenerateToken in
      match token with
      | Err e => do! act ReleaseViewer in Ret (Err (txt "could not generate a token: " ++ e))
      | Ok token =>
          let state := sv_new (auth_new token (bd_addrs bound)) HEADER_READ_TIMEOUT in
          do! act (Serve (bd_addrs bound)
                     (if vp_read_only p then read_only state else with_control (vp_idle_timeout p) state)) in
          Ret (Ok {| vs_addresses := map (fun a => txt "http://" ++ show_addr a ++ txt "/") (bd_addrs bound);
                     vs_token := token;
                     vs_notices := (match selection_notice selection with Some n => [n] | None => [] end)
                                     ++ bd_notices bound |})
      end
  end.

(** [idle_timeout_secs.filter(|secs| *secs > 0).map_or(..)] *)
Definition idle_timeout_of (secs : option Z) : Z :=
  match secs with
  | Some secs => if 0 <? secs then seconds secs else DEFAULT_IDLE_TIMEOUT
  | None => DEFAULT_IDLE_TIMEOUT
  end.

(** [hold_viewer]; [available] is whether the daemon has a viewer. *)
Definition hold_viewer (available : bool) (bind : WireViewerBind) (tailnet_address : option text)
    (read_only_ : bool) (idle_timeout : Z) : task unit :=
  let refuse m := refuse (ConnectError m) in
  let parsed := option_map parse_ipv4 tailnet_address in
  let! started :=
    match available, parsed with
    | false, _ => Ret (Err (refuse (txt "the viewer is not available in this daemon")))
    | true, Some None => Ret (Err (refuse (txt "tailnet address must be an IPv4 address")))
    | true, parsed =>
        let! r := viewer_start {| vp_bind := bind; vp_tailnet_override := and_then parsed (fun a => a);
                                  vp_read_only := read_only_; vp_idle_timeout := idle_timeout |} in
        Ret (map_err refuse r)
    end in
  match started with
  | Err response => do! act (WriteWithin response) in Ret tt
  | Ok started =>
      let! written := act (WriteWithin (WViewerStarted (vs_addresses started) (vs_token started) (vs_notices started))) in
      if negb written then act StopViewer else
      do! act AwaitPeer in
      do! act StopViewer in
      act EndAllLeases
  end.

(** ** The Cua relay *)

(** One frame of the caller: [Some] is the reason that ends the relay. *)
Definition relay_inbound (session : text) (incarnation : Z) (message : Value) : task (option text) :=
  let! alive := act (TouchGeneration session incarnation) in
  if negb alive then Ret (Some (txt "target incarnation closed")) else
  let! gated := act (GateInbound message) in
  let '(inbound, transition) := gated in
  do! (match transition with Some t => act (Discharge t) | None => Ret tt end) in
  match inbound with
  | Forward message =>
      do! act WaitReleased in
      do! act (ObserveRequest message) in
      let! sent := act (SendToGuest message) in
      Ret (if sent : bool then None else Some (txt "Cua input unavailable"))
  | Answer request reply =>
      do! act (ObserveRequest request) in
      do! act (ObserveResponse reply) in
      let! sent := act (SendToCaller reply) in
      Ret (if sent : bool then None else Some (txt "caller output unavailable"))
  | DropIt => Ret None
  end.

(** One message of the attachment. *)
Definition relay_outbound (session : text) (incarnation : Z) (message : Value) : task (option text) :=
  let! alive := act (TouchGeneration session incarnation) in
  if negb alive then Ret (Some (txt "target incarnation closed")) else
  let! message := act (GateOutbound message) in
  do! act (ObserveResponse message) in
  let! sent := act (SendToCaller message) in
  Ret (if sent : bool then None else Some (txt "caller output unavailable")).

Fixpoint relay (rounds : nat) (session : text) (incarnation : Z) : task (option text) :=
  match rounds with
  | O => Ret None
  | S rounds =>
      let! taken := act TakeFrame in
      let! reason :=
        match taken with
        | CallerMessage m => relay_inbound session incarnation m
        | CallerClosed => Ret (Some (txt "caller closed or malformed frame"))
        | GuestMessage m => relay_outbound session incarnation m
        | GuestClosed => Ret (Some (txt "Cua attachment closed"))
        end in
      match reason with Some r => Ret (Some r) | None => relay rounds session incarnation end
  end.

Definition forward_cua (rounds : nat) (session : text) (incarnation : Z) : task (option text) :=
  let! reason := relay rounds session incarnation in
  match reason with
  | Some reason => do! act (SendClosed reason) in Ret (Some reason)
  | None => Ret None
  end.

(** The branch of [CuaAttach]. *)
Definition serve_cua (rounds : nat) (session : text) : task (option unit) :=
  let! attached := act (AttachCua session) in
  match attached with
  | AtOk a =>
      let! written := act (WriteWithin (WCuaAttached (at_incarnation a) (at_bridge_generation a)
                                          (at_runtime_generation a) (at_id a))) in
      let close := do! act CloseAttachment in Ret (Some tt) in
      if negb written then close else
      do! act (RecordEvent (at_log a) (CuaAttached (at_id a))) in
      let! reason := forward_cua rounds session (at_incarnation a) in
      match reason with
      | None => Ret None
      | Some reason =>
          do! act DropGate in
          do! act CloseTracker in
          do! act (RecordEvent (at_log a) (CuaDetached (at_id a) reason)) in
          close
      end
  | failed =>
      let message := match failed with AtErr e => daemon_error_text e | _ => txt "Cua attachment timed out" end in
      do! act (WriteWithin (refuse (ConnectError message))) in Ret (Some tt)
  end.

(** ** The connection *)

Section Connection.
Context (to_png : bytes -> result Errors.Error bytes) (base64 : bytes -> text).
Context (diagnostics available : bool).

Definition diagnose_ (session : text) (stage : Stage) : task unit := lift (diagnose diagnostics session stage).

(** After the answer was written: whether the connection goes on. *)
Definition await_ack (lease : ConnectLease) : task bool :=
  let! ack := act ReadAck in
  match ack with
  | Some (RqConnectAck session) =>
      if decide (session = cl_id lease) then act (WriteResponse WAck)
      else do! diagnose_ (cl_id lease) IpcPeerClosed in
           do! act (Dispatched (CloseIfGeneration lease)) in Ret false
  | _ => do! diagnose_ (cl_id lease) IpcPeerClosed in
         do! act (Dispatched (CloseIfGeneration lease)) in Ret false
  end.

Definition is_connect (r : Request) : bool := match r with RqConnect _ => true | _ => false end.
Definition wants_ack (r : WireResponse) : bool := match r with WConnected _ true _ _ _ => true | _ => false end.

(** A request that is not an upgrade: whether the connection goes on. *)
Definition answer_request (r : Request) : task bool :=
  let! outcome := lift (dispatch_for_ipc to_png base64 r diagnostics (is_connect r)) in
  if do_peer_closed outcome then Ret false else
  let! written := act (WriteResponse (do_response outcome)) in
  if negb written then
    match do_connect_lease outcome with
    | Some lease =>
        do! diagnose_ (cl_id lease) IpcPeerClosed in
        do! lift (close_by_lease diagnostics lease) in
        Ret false
    | None => Ret false
    end
  else
    match do_connect_lease outcome with
    | Some lease =>
        do! diagnose_ (cl_id lease) IpcResponseWritten in
        if wants_ack (do_response outcome) then await_ack lease else Ret true
    | None => Ret true
    end.

Fixpoint serve_connection (rounds : nat) : task (option unit) :=
  match rounds with
  | O => Ret None
  | S rounds =>
      let! req := act ReadRequest in
      match req with
      | None => Ret (Some tt)
      | Some (RqViewerStart bind tailnet_address ro secs) =>
          do! hold_viewer available bind tailnet_address ro (idle_timeout_of secs) in Ret (Some tt)
      | Some (RqCuaAttach session) => serve_cua rounds session
      | Some r =>
          let! go_on := answer_request r in
          if go_on : bool then serve_connection rounds else Ret (Some tt)
      end
  end.
End Connection.

(** ** What a connection promises *)

(** The session that the connection owes an end: none, one opened whose
    answer was not given, or one whose answer awaits its acknowledgement. *)
Inductive ConnState := CnIdle | CnOpen (lease : ConnectLease) | CnUnacked (lease : ConnectLease).

Definition is_connected (r : WireResponse) : bool := match r with WConnected _ _ _ _ _ => true | _ => false end.

Definition dispatched_step (B : Type) (e : DispatchOp B) : B -> ConnState -> option ConnState :=
  match e in DispatchOp B return B -> ConnState -> option ConnState with
  | OpenTracked _ _ _ _ _ => fun a st =>
      match st with CnIdle => Some match a with Finished (Ok lease) => CnOpen lease | _ => CnIdle end | _ => None end
  | CloseIfGeneration l => fun _ st =>
      match st with
      | CnOpen lease | CnUnacked lease => if decide (l = lease) then Some CnIdle else None
      | CnIdle => None
      end
  | _ => fun _ st => Some st
  end.

(** A request is read, and the connection ends, only when nothing is owed.
    [Connected] is written for the session opened and for nothing else; a
    session is settled by its answer, by the acknowledgement of its answer
    where one was asked for, or by its close. *)
Definition conn_step (B : Type) (e : IpcOp B) : B -> ConnState -> option ConnState :=
  match e in IpcOp B return B -> ConnState -> option ConnState with
  | Dispatched e => dispatched_step _ e
  | WriteResponse r => fun ok st =>
      match st, r with
      | CnOpen lease, WConnected s ack _ _ _ =>
          if decide (s = cl_id lease)
          then Some (if ok : bool then if ack then CnUnacked lease else CnIdle else CnOpen lease) else None
      | CnIdle, r => if is_connected r then None else Some CnIdle
      | _, _ => None
      end
  | WriteWithin r => fun _ st => match st with CnIdle => if is_connected r then None else Some CnIdle | _ => None end
  | ReadAck => fun a st =>
      match st with
      | CnUnacked lease =>
          Some match a with
               | Some (RqConnectAck s) => if decide (s = cl_id lease) then CnIdle else CnUnacked lease
               | _ => CnUnacked lease
               end
      | _ => None
      end
  | _ => fun _ st => match st with CnIdle => Some CnIdle | _ => None end
  end.

Definition idle {A} (st : ConnState) (_ : A) : Prop := st = CnIdle.

(** What an outcome of the dispatch owes. *)
Definition owed (st : ConnState) (o : DispatchOutcome) : Prop :=
  match do_connect_lease o with
  | None => st = CnIdle /\ is_connected (do_response o) = false
  | Some lease => st = CnOpen lease /\ do_peer_closed o = false
                  /\ exists ack live rec ws, do_response o = WConnected (cl_id lease) ack live rec ws
  end.

Definition phase_owes (ph : ConnectPhase) : ConnState :=
  match ph with
  | PhOpened lease _ | PhBooted lease | PhReady lease | PhFailed lease => CnOpen lease
  | _ => CnIdle
  end.

Lemma follows_lift {A G} (d : forall B, IpcOp B -> B -> G -> option G) (d' : forall B, DispatchOp B -> B -> G -> option G)
    Q (p : prog DispatchOp A) g :
  (forall B (e : DispatchOp B) b g, d B (Dispatched e) b g = d' B e b g) -> follows d' Q p g -> follows d Q (lift p) g.
Proof.
  intros Hd. revert g. induction p as [a|C e k IH]; cbn; [auto|]. intros g Hk b. specialize (Hk b). rewrite Hd.
  destruct (d' C e b g); [by apply IH|done].
Qed.

Lemma verb_not_connected to_png base64 r :
  match r with RqConnect _ => False | _ => True end ->
  all_rets (fun resp => is_connected resp = false) (dispatch_verb to_png base64 r).
Proof.
  assert (Hack : forall A (x : result DaemonError A), is_connected (ack_or_refuse x) = false) by (by intros A []).
  assert (Htr : forall x, is_connected (transferred x) = false) by (by intros []).
  destruct r as [f|s| |s|s|s|s m|s m|s|s l n|s n l|s|b t o i|s|s|s|s t| |id keep]; intros Hr; unfold dispatch_verb; try done;
    try (apply all_rets_any; intros a; first [apply Hack | apply Htr | done]).
  - apply all_rets_any. intros a. by destruct (rbind a _).
  - apply all_rets_any. by intros [[]|].
  - apply all_rets_any. by intros [[]|].
  - apply all_rets_any. intros [log|]; [|done]. apply all_rets_any. by intros [[? []]|].
  - apply all_rets_any. intros [log|]; [|done]. apply all_rets_any. by intros [].
  - apply all_rets_any. intros [log|]; [|done]. apply all_rets_any. by intros [].
  - apply all_rets_any. by intros [[]|].
  - apply all_rets_any. by intros [[]|].
Qed.

Section Facts.
Context (to_png : bytes -> result Errors.Error bytes) (base64 : bytes -> text) (diagnostics available : bool).

Lemma follows_dispatch r watch :
  follows conn_step owed (lift (dispatch_for_ipc to_png base64 r diagnostics watch)) CnIdle.
Proof.
  apply (follows_lift _ dispatched_step); [done|].
  destruct (is_connect r) eqn:Hr.
  - destruct r as [f| | | | | | | | | | | | | | | | | | ]; try done.
    apply (follows_sim phase_owes (connect_step f) _ (connect_end f) _ _ PhFresh).
    + intros B e b ph ph'. destruct e; cbn; try done; try (intros Hs; repeat case_match; simplify_eq/=; done).
    + intros ph o. unfold connect_end, owed. destruct ph as [|b|l []|l|l|l|l|]; try done.
      * intros (Hp & -> & rec & ws & Hres). split_and!; [done|done|by repeat eexists].
      * intros (Hp & -> & rec & ws & Hres). split_and!; [done|done|by repeat eexists].
      * intros [->|[e ->]]; done.
    + apply dispatch_connect_follows.
  - assert (Hr' : match r with RqConnect _ => False | _ => True end) by by destruct r.
    apply (follows_sim (fun _ => CnIdle) (verb_step r) _
             (fun v o => verb_end r v o /\ is_connected (do_response o) = false) _ _ verb_start).
    + intros B e b v v'. destruct e; cbn; try done.
      * by destruct (vs_failed v).
      * by destruct (vs_failed v).
    + intros v o [(Hl & Hp & _) Hn]. unfold owed. by rewrite Hl.
    + apply follows_rets; [by apply verbs_follow|]. unfold dispatch_for_ipc. apply all_rets_any. intros call.
      destruct r; try done; (eapply all_rets_bind; [by apply verb_not_connected|]);
        intros resp Hresp; apply all_rets_any; by intros [].
Qed.

Lemma follows_any {A B} (e : IpcOp B) (k : B -> task A) Q st :
  (forall b, conn_step B e b st = Some st) -> (forall b, follows conn_step Q (k b) st) -> follows conn_step Q (Act e k) st.
Proof. intros He Hk b. by rewrite He. Qed.

Lemma follows_diagnose_ {A} Q (k : unit -> task A) s stage st :
  (forall u, follows conn_step Q (k u) st) -> follows conn_step Q (pbind (diagnose_ diagnostics s stage) k) st.
Proof. intros Hk. unfold diagnose_, diagnose. destruct diagnostics; [|apply Hk]. cbn. intros u. apply Hk. Qed.

(** The close of what is owed. *)
Lemma follows_settle {A} Q (k : unit -> task A) lease st :
  st = CnOpen lease \/ st = CnUnacked lease -> (forall u, follows conn_step Q (k u) CnIdle) ->
  follows conn_step Q (pbind (lift (close_by_lease diagnostics lease)) k) st.
Proof.
  intros Hst Hk. unfold close_by_lease. cbn [lift pbind act]. intros closed.
  assert (Hs : conn_step _ (Dispatched (CloseIfGeneration lease)) closed st = Some CnIdle).
  { destruct Hst as [-> | ->]; cbn; by rewrite decide_True. }
  rewrite Hs. destruct closed as [[]|]; [|apply Hk|apply Hk]. by apply follows_diagnose_.
Qed.

Lemma follows_await_ack lease : follows conn_step idle (await_ack diagnostics lease) (CnUnacked lease).
Proof.
  assert (Hlost : follows conn_step idle
    (do! diagnose_ diagnostics (cl_id lease) IpcPeerClosed in
     do! act (Dispatched (CloseIfGeneration lease)) in Ret false) (CnUnacked lease)).
  { apply follows_diagnose_. intros _ closed. cbn. by rewrite decide_True. }
  unfold await_ack. apply follows_act. intros [[]|]; cbn [conn_step]; try done.
  case_decide; [|done]. by intros b.
Qed.

Lemma follows_answer r : follows conn_step idle (answer_request to_png base64 diagnostics r) CnIdle.
Proof.
  unfold answer_request. apply follows_bind. eapply follows_mono; [|apply follows_dispatch].
  intros st o Ho. cbn beta. unfold owed in Ho. destruct (do_connect_lease o) as [lease|].
  - destruct Ho as (-> & -> & ack & live & rec & ws & ->). apply follows_act. intros ok. cbn [conn_step].
    rewrite decide_True by done. destruct ok; cbn [negb].
    + cbn [wants_ack]. destruct ack; apply follows_diagnose_; intros _; [apply follows_await_ack|done].
    + apply follows_diagnose_. intros _. apply follows_settle; [by left|]. done.
  - destruct Ho as [-> Hc]. destruct (do_peer_closed o); [done|]. apply follows_act. intros ok. cbn [conn_step].
    rewrite Hc. by destruct ok.
Qed.

(** What only works when nothing is owed keeps it so. *)
Definition aside (B : Type) (e : IpcOp B) : Prop := forall b, conn_step B e b CnIdle = Some CnIdle.

Lemma follows_aside {A} (p : task A) : all_ops aside p -> follows conn_step idle p CnIdle.
Proof. induction p as [a|B e k IH]; cbn; [done|]. intros [He Hk] b. rewrite (He b). by apply IH. Qed.

Lemma relay_aside rounds session incarnation : all_ops aside (relay rounds session incarnation).
Proof.
  assert (Hin : forall m, all_ops aside (relay_inbound session incarnation m)).
  { intros m. unfold relay_inbound. apply all_ops_bind; [by apply all_ops_act|]. intros [].  2: done.
    apply all_ops_bind; [by apply all_ops_act|]. intros [inbound t]. apply all_ops_bind; [by destruct t|].
    intros _. by destruct inbound. }
  assert (Hout : forall m, all_ops aside (relay_outbound session incarnation m)).
  { intros m. unfold relay_outbound. apply all_ops_bind; [by apply all_ops_act|]. by intros []. }
  induction rounds as [|rounds IH]; [done|]. cbn [relay]. apply all_ops_bind; [by apply all_ops_act|]. intros taken.
  apply all_ops_bind; [by destruct taken|]. by intros [].
Qed.

Lemma serve_cua_aside rounds session : all_ops aside (serve_cua rounds session).
Proof.
  unfold serve_cua. apply all_ops_bind; [by apply all_ops_act|]. intros [a|e|]; [|by repeat split|by repeat split].
  apply all_ops_bind; [by apply all_ops_act|]. intros []; [|by repeat split].
  apply all_ops_bind; [by apply all_ops_act|]. intros _. unfold forward_cua. apply all_ops_bind.
  - apply all_ops_bind; [apply relay_aside|]. intros [|]; by repeat split.
  - intros [|]; by repeat split.
Qed.

Lemma hold_viewer_aside bind tailnet ro timeout : all_ops aside (hold_viewer available bind tailnet ro timeout).
Proof.
  unfold hold_viewer.
  apply (all_ops_bind_rets _ (fun r => match r with Err resp => is_connected resp = false | Ok _ => True end)).
  - destruct available; [|done].
    assert (Hs : forall p, all_ops aside (viewer_start p)).
    { intros p. unfold viewer_start. apply all_ops_bind; [by apply all_ops_act|]. intros []; [|done]. cbn [negb].
      apply all_ops_bind; [by apply all_ops_act|]. intros ifs. apply all_ops_bind; [by apply all_ops_act|].
      intros [b|e]; [|by repeat split]. apply all_ops_bind; [by apply all_ops_act|]. intros [t|e]; by repeat split. }
    destruct (option_map parse_ipv4 tailnet) as [[]|]; try done; (apply all_ops_bind; [apply Hs|done]).
  - destruct available; [|done].
    destruct (option_map parse_ipv4 tailnet) as [[]|]; try done; apply all_rets_any; by intros [].
  - intros [started|resp] Hr.
    + apply all_ops_bind; [by apply all_ops_act|]. intros []; by repeat split.
    + split; [|done]. intros b. cbn. by rewrite Hr.
Qed.
End Facts.

(** C16: A connection keeps no session that its client does not know of.
    Whatever the peer sends, whatever fails and after any number of requests:
    a session that a [Connect] opened is either answered with its own
    [Connected] (and, where the client asks for it, acknowledged by a
    [ConnectAck] of that session within the time for it), or it is closed, by
    its generation, before the next request is read and before the connection
    ends; no other session is closed this way, and [Connected] names no other
    session. *)
Theorem unanswered_connects_are_closed to_png base64 diagnostics available rounds :
  follows conn_step idle (serve_connection to_png base64 diagnostics available rounds) CnIdle.
Proof.
  induction rounds as [|rounds IH]; [done|]. cbn [serve_connection]. apply follows_act. intros [r|]; cbn [conn_step]; [|done].
  assert (Hr : follows conn_step idle
    (let! go_on := answer_request to_png base64 diagnostics r in
     if go_on : bool then serve_connection to_png base64 diagnostics available rounds else Ret (Some tt)) CnIdle).
  { apply follows_bind. eapply follows_mono; [|apply follows_answer]. intros st go_on ->. by destruct go_on. }
  destruct r; try exact Hr.
  - apply follows_aside, serve_cua_aside.
  - apply follows_aside, all_ops_bind; [apply hold_viewer_aside|done].
Qed.

(** ** What the relay promises *)

(** The frame being handled: taken, and whether its incarnation was found
    alive; judged by the gate, with the transition still to discharge, whether
    the releases were waited for, and what the tracker saw of it; or made of a
    message of the guest.  [FrLost]: the relay cannot go on. *)
Inductive Handling :=
| FrNone | FrTaken (t : Taken) (alive : bool)
| FrJudged (i : Inbound) (due : option Transition) (waited : bool) (seen : list Value)
| FrOut (m : Value) (seen : bool) | FrLost.

Record RelayState := {
  rl_held : option Attachment; rl_announced : bool; rl_gate : bool; rl_tracker : bool; rl_frame : Handling }.

Definition relay_start : RelayState :=
  {| rl_held := None; rl_announced := false; rl_gate := false; rl_tracker := false; rl_frame := FrNone |}.
Definition set_frame (h : Handling) (r : RelayState) : RelayState :=
  {| rl_held := rl_held r; rl_announced := rl_announced r; rl_gate := rl_gate r; rl_tracker := rl_tracker r; rl_frame := h |}.

#[global] Instance Held_Transition_eq_dec : EqDecision Transition.
Proof. solve_decision. Defined.

(** The next frame is taken only when the last one is settled; a message
    reaches the guest only when it is what the gate made of the message taken,
    its session is still the one attached to, the releases of the takeover it
    asks for were discharged, those of others waited for and the tracker saw
    it; the caller gets only what the gate answers or makes of a message of the
    guest, after the tracker saw it. *)
Definition frame_step (session : text) (a : Attachment) (B : Type) (e : IpcOp B) : B -> Handling -> option Handling :=
  match e in IpcOp B return B -> Handling -> option Handling with
  | TakeFrame => fun t h =>
      match h with
      | FrNone | FrJudged DropIt None _ _ =>
          Some match t with CallerClosed | GuestClosed => FrLost | t => FrTaken t false end
      | _ => None
      end
  | TouchGeneration s i => fun alive h =>
      match h with
      | FrTaken t false =>
          if decide (s = session /\ i = at_incarnation a) then Some (if alive : bool then FrTaken t true else FrLost) else None
      | _ => None
      end
  | GateInbound m => fun judged h =>
      match h with
      | FrTaken (CallerMessage m') true =>
          if decide (m = m') then Some (FrJudged (fst judged) (snd judged) false []) else None
      | _ => None
      end
  | Discharge t => fun _ h =>
      match h with
      | FrJudged i (Some t') w s => if decide (t = t') then Some (FrJudged i None w s) else None
      | _ => None
      end
  | WaitReleased => fun _ h =>
      match h with FrJudged (Forward m) None _ s => Some (FrJudged (Forward m) None true s) | _ => None end
  | ObserveRequest m => fun _ h =>
      match h with
      | FrJudged ((Forward m' | Answer m' _) as i) None w [] => if decide (m = m') then Some (FrJudged i None w [m]) else None
      | _ => None
      end
  | ObserveResponse m => fun _ h =>
      match h with
      | FrJudged (Answer q m') None w [q'] => if decide (q' = q /\ m = m') then Some (FrJudged (Answer q m') None w [q; m]) else None
      | FrOut m' false => if decide (m = m') then Some (FrOut m true) else None
      | _ => None
      end
  | SendToGuest m => fun ok h =>
      match h with
      | FrJudged (Forward m') None true [s] => if decide (m = m' /\ s = m') then Some (if ok : bool then FrNone else FrLost) else None
      | _ => None
      end
  | GateOutbound m => fun m' h =>
      match h with FrTaken (GuestMessage g) true => if decide (m = g) then Some (FrOut m' false) else None | _ => None end
  | SendToCaller m => fun ok h =>
      match h with
      | FrJudged (Answer q m') None _ [q'; s] =>
          if decide (m = m' /\ s = m' /\ q' = q) then Some (if ok : bool then FrNone else FrLost) else None
      | FrOut m' true => if decide (m = m') then Some (if ok : bool then FrNone else FrLost) else None
      | _ => None
      end
  | SendClosed _ => fun _ h => match h with FrLost => Some FrLost | _ => None end
  | _ => fun _ _ => None
  end.

(** Around it: the attachment is acknowledged before it is announced, frames
    flow only while it is announced, and its end is told after the gate and the
    tracker gave up what they held; then it is closed. *)
Definition relay_step (session : text) (B : Type) (e : IpcOp B) : B -> RelayState -> option RelayState :=
  match e in IpcOp B return B -> RelayState -> option RelayState with
  | AttachCua s => fun a r =>
      match rl_held r with
      | None => if decide (s = session)
                then Some match a with
                          | AtOk a => {| rl_held := Some a; rl_announced := false; rl_gate := false; rl_tracker := false; rl_frame := FrNone |}
                          | _ => r
                          end
                else None
      | Some _ => None
      end
  | WriteWithin resp => fun _ r =>
      match rl_held r, resp with
      | Some a, WCuaAttached i b n id =>
          if decide ((i, b, n, id) = (at_incarnation a, at_bridge_generation a, at_runtime_generation a, at_id a)) then Some r else None
      | None, WError_ _ => Some r
      | _, _ => None
      end
  | RecordEvent log kind => fun _ r =>
      match rl_held r, kind, rl_announced r, rl_gate r, rl_tracker r with
      | Some a, CuaAttached id, false, false, false =>
          if decide (log = at_log a /\ id = at_id a)
          then Some {| rl_held := Some a; rl_announced := true; rl_gate := true; rl_tracker := true; rl_frame := FrNone |} else None
      | Some a, CuaDetached id _, true, false, false =>
          if decide (log = at_log a /\ id = at_id a)
          then Some {| rl_held := Some a; rl_announced := false; rl_gate := false; rl_tracker := false; rl_frame := rl_frame r |} else None
      | _, _, _, _, _ => None
      end
  | DropGate => fun _ r =>
      match rl_frame r, rl_gate r with
      | FrLost, true => Some {| rl_held := rl_held r; rl_announced := rl_announced r; rl_gate := false; rl_tracker := rl_tracker r; rl_frame := FrLost |}
      | _, _ => None
      end
  | CloseTracker => fun _ r =>
      match rl_frame r, rl_tracker r with
      | FrLost, true => Some {| rl_held := rl_held r; rl_announced := rl_announced r; rl_gate := rl_gate r; rl_tracker := false; rl_frame := FrLost |}
      | _, _ => None
      end
  | CloseAttachment => fun _ r =>
      match rl_held r, rl_announced r with Some _, false => Some relay_start | _, _ => None end
  | e => fun b r =>
      match rl_held r, rl_announced r with
      | Some a, true => match frame_step session a _ e b (rl_frame r) with Some h => Some (set_frame h r) | None => None end
      | _, _ => None
      end
  end.

(** A relay that ends leaves no attachment, and none that is announced. *)
Definition relay_end (r : RelayState) (o : option unit) : Prop :=
  match o with Some _ => rl_held r = None /\ rl_announced r = false | None => True end.

Section RelayFacts.
Context (session : text) (a : Attachment).

Definition announced (h : Handling) : RelayState :=
  {| rl_held := Some a; rl_announced := true; rl_gate := true; rl_tracker := true; rl_frame := h |}.

(** What a handled frame leaves. *)
Definition handled (r : RelayState) (reason : option text) : Prop :=
  match reason with
  | Some _ => r = announced FrLost
  | None => exists h, r = announced h /\ (h = FrNone \/ exists w s, h = FrJudged DropIt None w s)
  end.

Definition on_frame (B : Type) (e : IpcOp B) : bool :=
  match e with
  | TakeFrame | TouchGeneration _ _ | GateInbound _ | Discharge _ | WaitReleased | ObserveRequest _ | ObserveResponse _
  | SendToGuest _ | GateOutbound _ | SendToCaller _ | SendClosed _ => true
  | _ => false
  end.

Lemma follows_frame {A B} (e : IpcOp B) (k : B -> task A) Q h :
  on_frame B e = true ->
  (forall b, match frame_step session a B e b h with Some h => follows (relay_step session) Q (k b) (announced h) | None => False end) ->
  follows (relay_step session) Q (pbind (act e) k) (announced h).
Proof.
  intros He Hk. apply follows_act. intros b. specialize (Hk b).
  assert (Hs : relay_step session B e b (announced h)
    = match frame_step session a B e b h with Some h => Some (announced h) | None => None end) by by destruct e.
  rewrite Hs. by destruct (frame_step session a B e b h).
Qed.

#[local] Ltac settled :=
  match goal with |- context [if ?b then FrNone else _] => destruct b end; cbn; [|done];
  eexists; split; [reflexivity|by left].
#[local] Ltac frame := apply follows_frame; [done|]; intros ?; cbn [frame_step]; rewrite ?decide_True by done.

Lemma follows_inbound m :
  follows (relay_step session) handled (relay_inbound session (at_incarnation a) m) (announced (FrTaken (CallerMessage m) false)).
Proof.
  unfold relay_inbound. frame. destruct b; [|done]. cbn [negb].
  frame. destruct b as [inbound t]. cbn [fst snd].
  assert (Hd : forall k, follows (relay_step session) handled k (announced (FrJudged inbound None false [])) ->
    follows (relay_step session) handled (do! (match t with Some t => act (Discharge t) | None => Ret tt end) in k)
      (announced (FrJudged inbound t false []))).
  { intros k Hk. destruct t as [t|]; [|exact Hk]. by frame. }
  apply Hd. destruct inbound as [m'|q r|].
  - frame. frame. frame. settled.
  - frame. frame. frame. settled.
  - cbn. eexists. split; [reflexivity|]. right. by repeat eexists.
Qed.

Lemma follows_outbound m :
  follows (relay_step session) handled (relay_outbound session (at_incarnation a) m) (announced (FrTaken (GuestMessage m) false)).
Proof.
  unfold relay_outbound. frame. destruct b; [|done]. cbn [negb]. frame. frame. frame. settled.
Qed.

Lemma follows_relay rounds r :
  handled r None ->
  follows (relay_step session) (fun r reason => match reason with Some _ => r = announced FrLost | None => True end)
    (relay rounds session (at_incarnation a)) r.
Proof.
  revert r. induction rounds as [|rounds IH]; intros r Hr; [done|]. cbn [relay]. apply follows_act. intros t.
  destruct Hr as (h & -> & Hh).
  assert (Ht : relay_step session _ TakeFrame t (announced h)
    = Some (announced match t with CallerClosed | GuestClosed => FrLost | t => FrTaken t false end)).
  { destruct Hh as [->|(w & s & ->)]; reflexivity. }
  rewrite Ht. apply follows_bind. apply (follows_mono _ handled).
  - intros r' [reason|] Hr'; [exact Hr'|by apply IH].
  - destruct t as [m| |m|]; [apply follows_inbound|done|apply follows_outbound|done].
Qed.
End RelayFacts.

(** C17: The relay of a Cua attachment, for whatever the caller, the guest, the
    gate and the session do and for any number of frames: frames are taken one
    after the other, each settled before the next; nothing reaches the guest
    but what the gate made of a frame of the caller, whose session was then
    still the incarnation attached to, after the releases of its own takeover
    were discharged and those of others waited for; nothing reaches the caller
    but the gate's answers and the guest's messages as the gate leaves them; the
    tracker sees each message before it is passed on; and an attachment is
    announced only once acknowledged, its end is told exactly when it was
    announced, after the gate and the tracker gave up what they held, and it is
    closed at the end. *)
Theorem cua_relay_is_orderly (rounds : nat) (session : text) :
  follows (relay_step session) relay_end (serve_cua rounds session) relay_start.
Proof.
  unfold serve_cua. apply follows_act. intros at_. cbn [relay_step rl_held relay_start]. rewrite decide_True by done.
  destruct at_ as [a|e|]; [|by intros b|by intros b].
  apply follows_act. intros written. cbn [relay_step rl_held]. rewrite decide_True by done.
  destruct written; cbn [negb]; [|by intros []].
  apply follows_act. intros []. cbn [relay_step rl_held rl_announced rl_gate rl_tracker]. rewrite decide_True by done.
  apply follows_bind. unfold forward_cua. apply follows_bind.
  eapply follows_mono; [|apply (follows_relay session a rounds (announced a FrNone)); eexists; split; [reflexivity|by left]].
  intros r [reason|] Hr; cbn beta; [|done]. subst r.
  apply follows_bind, follows_frame; [done|]. intros []. cbn [frame_step follows pbind act].
  intros []. intros []. intros []. cbn [relay_step rl_held rl_announced rl_gate rl_tracker set_frame announced].
  rewrite decide_True by done. by intros [].
Qed.
