(* ===== verification/RecordService.v ===== *)
(** * The recording service ([recording/mod.rs])

    [RecordingService] keeps the active recordings by session log, those being
    started and those being closed, behind one mutex.  Its operations are
    programs of critical sections ([ServiceOp]): one per time the mutex is
    taken, per call into a session's log and per piece of blocking work.
    Tasks run them side by side ([Tasks.v]).  A recorder thread is what the
    service sees of it: whether it runs, and the last event it was handed.
    Pruning and manifests are [Store.v], the thread itself [Recorder.v]; the
    capture task only sends pictures to the recorder and is left out. *)
From S2P Require Import Prelude Bytes Events Recorder Store Prog Tasks.
Open Scope prog_scope.
Open Scope Z_scope.

Definition MAX_ANNOTATION_BYTES : N := 4096.

(** ** State *)

Record Active := { ac_id : text; ac_log : text; ac_started : Z }.
#[global] Instance Active_eq_dec : EqDecision Active.
Proof. solve_decision. Defined.
Record Closing := { cg_id : text; cg_started : Z; cg_stopped : Z }.

(** A session's log, while it is there: the recorder attached to it. *)
Record LogState := { lg_open : bool; lg_sink : option text }.

(** A recording: whether its thread runs, the log it was attached to with
    [recording_started], the last event that it was handed, and the events of
    its own (annotations, [session_closed]). *)
Inductive Note := Annotation_ (t : text) | Closed_ (reason : CloseReason).
Record RecState := { rc_runs : bool; rc_log : option text; rc_last : option StopReason; rc_notes : list Note }.

Record Service := {
  sv_active : gmap text Active; sv_starting : gset text; sv_closing : list Closing;
  sv_logs : gmap text LogState; sv_recs : gmap text RecState }.

Definition set_active (m : gmap text Active) (s : Service) : Service :=
  {| sv_active := m; sv_starting := sv_starting s; sv_closing := sv_closing s; sv_logs := sv_logs s; sv_recs := sv_recs s |}.
Definition set_starting (m : gset text) (s : Service) : Service :=
  {| sv_active := sv_active s; sv_starting := m; sv_closing := sv_closing s; sv_logs := sv_logs s; sv_recs := sv_recs s |}.
Definition set_closing (l : list Closing) (s : Service) : Service :=
  {| sv_active := sv_active s; sv_starting := sv_starting s; sv_closing := l; sv_logs := sv_logs s; sv_recs := sv_recs s |}.
Definition set_logs (m : gmap text LogState) (s : Service) : Service :=
  {| sv_active := sv_active s; sv_starting := sv_starting s; sv_closing := sv_closing s; sv_logs := m; sv_recs := sv_recs s |}.
Definition set_recs (m : gmap text RecState) (s : Service) : Service :=
  {| sv_active := sv_active s; sv_starting := sv_starting s; sv_closing := sv_closing s; sv_logs := sv_logs s; sv_recs := m |}.

Definition runs (s : Service) (id : text) : bool :=
  match sv_recs s !! id with Some r => rc_runs r | None => false end.
(** [Active::alive] *)
Definition alive (s : Service) (a : Active) : bool := runs s (ac_id a).
Definition sink (s : Service) (log : text) : option text := and_then (sv_logs s !! log) lg_sink.
Definition log_open (s : Service) (log : text) : bool :=
  match sv_logs s !! log with Some l => lg_open l | None => false end.

Definition set_sink (log : text) (r : option text) (s : Service) : Service :=
  set_logs (<[log := {| lg_open := log_open s log; lg_sink := r |}]> (sv_logs s)) s.
Definition update_rec (id : text) (f : RecState -> RecState) (s : Service) : Service :=
  set_recs (alter f id (sv_recs s)) s.

(** ** The critical sections *)

Inductive Claim := Recording_ (id : text) | AlreadyStarting | Claimed.

Inductive ServiceOp : Type -> Type :=
| TakeDead : ServiceOp (list Active)
| DetachSink (log : text) (reason : StopReason) : ServiceOp unit
| PushClosing (a : Active) : ServiceOp unit
| ClaimStart (log : text) : ServiceOp Claim
| ReadSettings : ServiceOp (result text unit)
| WritingIds : ServiceOp (gset text)
| CreateRecording (writing : gset text) : ServiceOp (result text text)
| SpawnRecorder (id : text) : ServiceOp (result text unit)
| AttachSink (log id : text) : ServiceOp bool
| FinishStart (log : text) (r : result text Active) : ServiceOp unit
| RemoveActive (log : text) : ServiceOp (option Active)
| RecordingOf (log : text) : ServiceOp (option text)
| HasActive (log : text) : ServiceOp bool
| GiveNote (log : text) (n : Note) : ServiceOp bool
| DrainActive : ServiceOp (list Active)
| DrainClosing : ServiceOp (list text)
| Now : ServiceOp Z.

(** What the surroundings decide: the time, whether the configuration, the
    files and the thread allow it, the id that is minted, and whether the
    recorder's queue takes an event. *)
Record Outer := {
  ou_now : Z; ou_settings : result text unit; ou_create : result text text; ou_spawn : result text unit;
  ou_accepts : bool }.

Definition give_last (reason : StopReason) (r : RecState) : RecState :=
  {| rc_runs := rc_runs r; rc_log := rc_log r; rc_last := Some reason; rc_notes := rc_notes r |}.
Definition give_note (n : Note) (r : RecState) : RecState :=
  {| rc_runs := rc_runs r; rc_log := rc_log r; rc_last := rc_last r; rc_notes := rc_notes r ++ [n] |}.
Definition given_log (log : text) (r : RecState) : RecState :=
  {| rc_runs := rc_runs r; rc_log := Some log; rc_last := rc_last r; rc_notes := rc_notes r |}.
Definition set_runs (b : bool) (r : RecState) : RecState :=
  {| rc_runs := b; rc_log := rc_log r; rc_last := rc_last r; rc_notes := rc_notes r |}.

Definition dead_entries (s : Service) : list Active :=
  List.filter (fun a => negb (alive s a)) (map_to_list (sv_active s)).*2.

Definition writing_ids (s : Service) : gset text :=
  list_to_set (map ac_id (map_to_list (sv_active s)).*2
    ++ map cg_id (List.filter (fun c => runs s (cg_id c)) (sv_closing s))).

(** [SessionEvents::attach_sink], [detach_sink] and [record_detached], as the
    service and its recorders see them. *)
Definition attach (log id : text) (s : Service) : Service * bool :=
  if log_open s log && bool_decide (sink s log = None)
  then (update_rec id (given_log log) (set_sink log (Some id) s), true) else (s, false).
Definition detach (log : text) (reason : StopReason) (s : Service) : Service :=
  match sink s log with
  | Some id => update_rec id (give_last reason) (set_sink log None s)
  | None => s
  end.
Definition note (accepts : bool) (log : text) (n : Note) (s : Service) : Service * bool :=
  match sink s log with
  | Some id => if accepts then (update_rec id (give_note n) s, true) else (s, false)
  | None => (s, false)
  end.

Definition exec (o : Outer) (B : Type) (e : ServiceOp B) (s : Service) : Service * B :=
  match e in ServiceOp B return Service * B with
  | TakeDead =>
      let s := set_closing (List.filter (fun c => runs s (cg_id c)) (sv_closing s)) s in
      (set_active (filter (fun p => alive s (snd p) = true) (sv_active s)) s, dead_entries s)
  | DetachSink log reason => (detach log reason s, tt)
  | PushClosing a =>
      (set_closing (sv_closing s ++ [{| cg_id := ac_id a; cg_started := ac_started a; cg_stopped := ou_now o |}]) s, tt)
  | ClaimStart log =>
      match sv_active s !! log with
      | Some a => (s, Recording_ (ac_id a))
      | None => if decide (log ∈ sv_starting s) then (s, AlreadyStarting)
                else (set_starting ({[log]} ∪ sv_starting s) s, Claimed)
      end
  | ReadSettings => (s, ou_settings o)
  | WritingIds => (s, writing_ids s)
  | CreateRecording _ =>
      match ou_create o with
      | Ok id =>
          if decide (sv_recs s !! id = None)
          then (set_recs (<[id := {| rc_runs := false; rc_log := None; rc_last := None; rc_notes := [] |}]> (sv_recs s)) s, Ok id)
          else (s, Err (txt "could not create the recording (AlreadyExists)"))
      | Err e => (s, Err e)
      end
  | SpawnRecorder id =>
      match ou_spawn o with Ok _ => (update_rec id (set_runs true) s, Ok tt) | Err e => (s, Err e) end
  | AttachSink log id => attach log id s
  | FinishStart log r =>
      let s := set_starting (sv_starting s ∖ {[log]}) s in
      match r with Ok a => (set_active (<[log := a]> (sv_active s)) s, tt) | Err _ => (s, tt) end
  | RemoveActive log => (set_active (delete log (sv_active s)) s, sv_active s !! log)
  | RecordingOf log =>
      (s, match sv_active s !! log with Some a => if alive s a then Some (ac_id a) else None | None => None end)
  | HasActive log => (s, bool_decide (is_Some (sv_active s !! log)))
  | GiveNote log n => note (ou_accepts o) log n s
  | DrainActive => (set_active ∅ s, (map_to_list (sv_active s)).*2)
  | DrainClosing => (set_closing [] s, map cg_id (sv_closing s))
  | Now => (s, ou_now o)
  end.

(** ** The operations *)

(** The loop of [reap] over the dead entries. *)
Fixpoint reap_each (dead : list Active) : prog ServiceOp unit :=
  match dead with
  | [] => Ret tt
  | a :: dead =>
      do! act (DetachSink (ac_log a) StopWriteError) in
      do! act (PushClosing a) in
      reap_each dead
  end.
Definition reap : prog ServiceOp unit :=
  let! dead := act TakeDead in reap_each dead.

Record Started := { st_id : text; st_changed : bool }.

Definition start_inner (log : text) : prog ServiceOp (result text Active) :=
  let! settings := act ReadSettings in
  match settings with
  | Err e => Ret (Err e)
  | Ok _ =>
      let! started := act Now in
      let! writing := act WritingIds in
      let! created := act (CreateRecording writing) in
      match created with
      | Err e => Ret (Err e)
      | Ok id =>
          let! spawned := act (SpawnRecorder id) in
          match spawned with
          | Err e => Ret (Err e)
          | Ok _ =>
              let! attached := act (AttachSink log id) in
              Ret (if attached : bool then Ok {| ac_id := id; ac_log := log; ac_started := started |}
                   else Err (txt "the session is already being recorded"))
          end
      end
  end.

Definition start (log : text) : prog ServiceOp (result text Started) :=
  do! reap in
  let! claim := act (ClaimStart log) in
  match claim with
  | Recording_ id => Ret (Ok {| st_id := id; st_changed := false |})
  | AlreadyStarting => Ret (Err (txt "a recording is already starting for this session"))
  | Claimed =>
      let! r := start_inner log in
      do! act (FinishStart log r) in
      Ret match r with Ok a => Ok {| st_id := ac_id a; st_changed := true |} | Err e => Err e end
  end.

Definition stop (log : text) (reason : StopReason) : prog ServiceOp (option text) :=
  do! reap in
  let! removed := act (RemoveActive log) in
  match removed with
  | None => Ret None
  | Some a =>
      do! act (DetachSink log reason) in
      do! act (PushClosing a) in
      Ret (Some (ac_id a))
  end.

Definition session_closed (log : text) (reason : CloseReason) : prog ServiceOp unit :=
  let! has := act (HasActive log) in
  if has : bool then
    do! act (GiveNote log (Closed_ reason)) in
    do! stop log StopSessionClosed in
    Ret tt
  else Ret tt.

Definition annotate (log t : text) : prog ServiceOp (result text text) :=
  if bool_decide (trim t = []) then Ret (Err (txt "annotation is empty"))
  else if (MAX_ANNOTATION_BYTES <? byte_len t)%N then
    Ret (Err (txt "annotation is over 4096 bytes (" ++ dec (byte_len t) ++ txt " bytes)"))
  else
    do! reap in
    let! id := act (RecordingOf log) in
    match id with
    | None => Ret (Err (txt "session is not recording; start a recording first"))
    | Some id =>
        let! written := act (GiveNote log (Annotation_ t)) in
        Ret (if written : bool then Ok id else Err (txt "recording busy, annotation not written"))
    end.

(** The loop of [shutdown] over the drained entries. *)
Fixpoint stop_each (actives : list Active) : prog ServiceOp unit :=
  match actives with
  | [] => Ret tt
  | a :: actives => do! act (DetachSink (ac_log a) StopDaemonStopped) in stop_each actives
  end.
(** [shutdown]: the ids whose threads it then waits for. *)
Definition shutdown : prog ServiceOp (list text) :=
  let! actives := act DrainActive in
  do! stop_each actives in
  let! closing := act DrainClosing in
  Ret (map ac_id actives ++ closing).

(** ** The service at work *)

Inductive Call :=
| CStart (log : text) | CStop (log : text) (reason : StopReason) | CClosed (log : text) (reason : CloseReason)
| CAnnotate (log t : text) | CShutdown.
Inductive Answer :=
| AStart (r : result text Started) | AStop (id : option text) | ADone | AAnnotate (r : result text text)
| AShutdown (waited : list text).

Definition body (c : Call) : prog ServiceOp Answer :=
  match c with
  | CStart log => let! r := start log in Ret (AStart r)
  | CStop log reason => let! id := stop log reason in Ret (AStop id)
  | CClosed log reason => do! session_closed log reason in Ret ADone
  | CAnnotate log t => let! r := annotate log t in Ret (AAnnotate r)
  | CShutdown => let! ids := shutdown in Ret (AShutdown ids)
  end.

(** What else happens: a recorder thread ends, at any time; a session's log
    goes away, with the sink attached to it; a new session has a new log. *)
Inductive outside : Service -> Service -> Prop :=
| OThread id s : outside s (update_rec id (set_runs false) s)
| OLogGone log s : is_Some (sv_logs s !! log) ->
    outside s (set_logs (<[log := {| lg_open := false; lg_sink := None |}]> (sv_logs s)) s)
| OLogNew log s : sv_logs s !! log = None ->
    outside s (set_logs (<[log := {| lg_open := true; lg_sink := None |}]> (sv_logs s)) s).

Definition service_new : Service :=
  {| sv_active := ∅; sv_starting := ∅; sv_closing := []; sv_logs := ∅; sv_recs := ∅ |}.

Definition reached (w : Service * list (@Task ServiceOp Call Answer)) : Prop :=
  pool_steps exec body outside (service_new, []) w.

(** ** Who answers for a recording

    A task holds a token for a start it claimed, and for each recording that is
    in its hands: created, attached to the log but not yet in the table, or
    taken out of the table but not yet detached.  The other tokens are things
    that stay true. *)
Inductive Tok :=
| TStart (log : text)
| TFresh (id : text)
| TAttached (id log : text)
| TRemoved (id log : text)
| TEnded (id : text) (reason : StopReason)
| TGone (log : text)
| TBegan (id log : text).

Definition tok_key (t : Tok) : option (text + text) :=
  match t with
  | TStart log => Some (inl log)
  | TFresh id | TAttached id _ | TRemoved id _ => Some (inr id)
  | _ => None
  end.
Definition keys (T : list Tok) : list (text + text) := omap tok_key T.

(** The recording [id] was attached to [log], has not been told its end, and
    is attached as long as the log is there. *)
Definition attached_to (s : Service) (log id : text) : Prop :=
  (exists r, sv_recs s !! id = Some r /\ rc_log r = Some log /\ rc_last r = None) /\
  is_Some (sv_logs s !! log) /\ (log_open s log = true -> sink s log = Some id).

Record service_inv (s : Service) (T : list Tok) : Prop := {
  si_keys : NoDup (keys T);
  si_start : forall l, l ∈ sv_starting s <-> TStart l ∈ T;
  si_idle : forall l, l ∈ sv_starting s -> sv_active s !! l = None;
  si_sink : forall l id, sink s l = Some id -> log_open s l = true /\
    ((exists a, sv_active s !! l = Some a /\ ac_id a = id) \/ TAttached id l ∈ T \/ TRemoved id l ∈ T);
  si_active : forall l a, sv_active s !! l = Some a ->
    ac_log a = l /\ attached_to s l (ac_id a) /\ inr (ac_id a) ∉ keys T;
  si_attached : forall id l, TAttached id l ∈ T -> attached_to s l id;
  si_removed : forall id l, TRemoved id l ∈ T -> attached_to s l id;
  si_fresh : forall id, TFresh id ∈ T -> exists r, sv_recs s !! id = Some r /\ rc_log r = None /\ rc_last r = None;
  si_ended : forall id x, TEnded id x ∈ T -> exists r, sv_recs s !! id = Some r /\ rc_last r = Some x;
  si_gone : forall l, TGone l ∈ T -> is_Some (sv_logs s !! l) /\ log_open s l = false;
  si_began : forall id l, TBegan id l ∈ T -> exists r, sv_recs s !! id = Some r /\ rc_log r = Some l }.

(** ** The state up to what the invariant looks at *)

Definition core (r : RecState) : option text * option StopReason := (rc_log r, rc_last r).
Definition same_core (s s' : Service) : Prop :=
  sv_active s' = sv_active s /\ sv_starting s' = sv_starting s /\ sv_logs s' = sv_logs s /\
  forall id, core <$> sv_recs s' !! id = core <$> sv_recs s !! id.

Lemma same_rec s s' id r :
  same_core s s' -> sv_recs s !! id = Some r -> exists r', sv_recs s' !! id = Some r' /\ core r' = core r.
Proof.
  intros (_ & _ & _ & Hr) Hi. specialize (Hr id). rewrite Hi in Hr. cbn in Hr.
  destruct (sv_recs s' !! id) as [r'|]; [|done]. exists r'. split; [done|]. by apply (inj Some) in Hr.
Qed.

Lemma same_sink s s' l : same_core s s' -> sink s' l = sink s l /\ log_open s' l = log_open s l.
Proof. intros (_ & _ & Hl & _). unfold sink, log_open. by rewrite Hl. Qed.

Lemma same_attached s s' l id : same_core s s' -> attached_to s l id -> attached_to s' l id.
Proof.
  intros Hc ((r & Hr & Hl & Hn) & Hk & Ho). destruct (same_rec _ _ _ _ Hc Hr) as (r' & Hr' & [= Hl' Hn']).
  destruct (same_sink s s' l Hc) as [Hs Hop]. unfold attached_to. rewrite Hs, Hop.
  split_and!; [|destruct Hc as (_ & _ & -> & _); done|done]. exists r'. split_and!; congruence.
Qed.

Lemma service_same s s' T : same_core s s' -> service_inv s T -> service_inv s' T.
Proof.
  intros Hc Hi. pose proof Hc as (Ha & Hst & Hl & Hr). destruct Hi. constructor; try done.
  - intros l. by rewrite Hst.
  - intros l. rewrite Hst, Ha. auto.
  - intros l id. destruct (same_sink s s' l Hc) as [-> ->]. rewrite Ha. auto.
  - intros l a. rewrite Ha. intros Hx. destruct (si_active0 l a Hx) as (? & ? & ?).
    split_and!; try done. by eapply same_attached.
  - intros id l Hx. eapply same_attached; eauto.
  - intros id l Hx. eapply same_attached; eauto.
  - intros id Hx. destruct (si_fresh0 id Hx) as (r & Hi & ? & ?).
    destruct (same_rec _ _ _ _ Hc Hi) as (r' & Hr' & [= E1 E2]). exists r'. split_and!; congruence.
  - intros id x Hx. destruct (si_ended0 id x Hx) as (r & Hi & ?).
    destruct (same_rec _ _ _ _ Hc Hi) as (r' & Hr' & [= E1 E2]). exists r'. split; congruence.
  - intros l Hx. destruct (same_sink s s' l Hc) as [_ ->]. rewrite Hl. auto.
  - intros id l Hx. destruct (si_began0 id l Hx) as (r & Hi & ?).
    destruct (same_rec _ _ _ _ Hc Hi) as (r' & Hr' & [= E1 E2]). exists r'. split; congruence.
Qed.

Lemma same_update id f s : (forall r, core (f r) = core r) -> same_core s (update_rec id f s).
Proof.
  intros Hf. split_and!; try done. intros id'. cbn. destruct (decide (id = id')) as [->|].
  - rewrite lookup_alter_eq. destruct (sv_recs s !! id'); cbn; [by rewrite Hf|done].
  - by rewrite lookup_alter_ne.
Qed.

Lemma same_closing l s : same_core s (set_closing l s).
Proof. done. Qed.

(** ** The sections keep the invariant *)

Lemma keys_app T T' : keys (T ++ T') = keys T ++ keys T'.
Proof. apply omap_app. Qed.

Lemma keys_perm T T' : T ≡ₚ T' -> keys T ≡ₚ keys T'.
Proof. intros HT. unfold keys. by rewrite HT. Qed.

Lemma in_keys id T : inr id ∈ keys T <-> TFresh id ∈ T \/ (exists l, TAttached id l ∈ T) \/ (exists l, TRemoved id l ∈ T).
Proof.
  unfold keys. rewrite list_elem_of_omap. split.
  - intros ([] & Hi & [= ->]); naive_solver.
  - intros [?|[[l ?]|[l ?]]]; eexists; (split; [eassumption|done]).
Qed.

Lemma key_once t T k : NoDup (keys (t :: T)) -> tok_key t = Some k -> k ∉ keys T.
Proof. unfold keys. cbn. intros Hn Hk. rewrite Hk in Hn. by apply NoDup_cons in Hn as [? _]. Qed.

Lemma key_other t T k t' : NoDup (keys (t :: T)) -> tok_key t = Some k -> t' ∈ T -> tok_key t' <> Some k.
Proof.
  intros Hn Hk Ht Hk'. apply (key_once t T k Hn Hk). unfold keys. apply list_elem_of_omap. by exists t'.
Qed.

Lemma inv_perm s T T' : T ≡ₚ T' -> service_inv s T -> service_inv s T'.
Proof.
  intros HT []. assert (forall t, t ∈ T' -> t ∈ T) as Hin by (intros t; by rewrite HT).
  constructor; try done; eauto.
  - by rewrite <- (keys_perm T T' HT).
  - intros l. by rewrite <- HT.
  - intros l id Hs. rewrite <- HT. auto.
  - intros l a Ha. rewrite <- (keys_perm T T' HT). auto.
Qed.

(** Forget a token that nothing depends on. *)
Definition droppable (t : Tok) : bool :=
  match t with TStart _ | TAttached _ _ | TRemoved _ _ => false | _ => true end.

Lemma inv_drop s t T : droppable t = true -> service_inv s (t :: T) -> service_inv s T.
Proof.
  intros Ht Hi. assert (forall t', t' ∈ T -> t' ∈ t :: T) as Hin by (intros; by right). destruct Hi.
  constructor; eauto.
  - revert si_keys0. unfold keys. cbn. destruct (tok_key t); [by intros [_ ?]%NoDup_cons|done].
  - intros l. rewrite si_start0, elem_of_cons. split; [intros [<-|]; done|by right].
  - intros l id Hs. destruct (si_sink0 l id Hs) as [? [?|[Hx|Hx]]]; (split; [done|]); [by left|right..].
    + left. apply elem_of_cons in Hx as [<-|]; done.
    + right. apply elem_of_cons in Hx as [<-|]; done.
  - intros l a Ha. destruct (si_active0 l a Ha) as (? & ? & Hk). split_and!; [done..|]. intros Hx. apply Hk.
    unfold keys in *. cbn. destruct (tok_key t); [by right|done].
Qed.

(** Add a token that only says something. *)
Lemma inv_began s T l a :
  service_inv s T -> sv_active s !! l = Some a -> service_inv s (TBegan (ac_id a) l :: T).
Proof.
  intros Hi Ha. destruct (si_active _ _ Hi _ _ Ha) as (_ & ((r & Hr & Hl & _) & _) & _).
  destruct Hi. constructor; eauto.
  - intros l'. rewrite si_start0, elem_of_cons. split; [by right|by intros [|]].
  - intros l' id Hs. destruct (si_sink0 l' id Hs) as [? [?|[Hx|Hx]]]; (split; [done|]).
    + by left.
    + right. left. by right.
    + right. right. by right.
  - intros id l' [|]%elem_of_cons; [done|auto].
  - intros id l' [|]%elem_of_cons; [done|auto].
  - intros id [|]%elem_of_cons; [done|auto].
  - intros id x [|]%elem_of_cons; [done|auto].
  - intros l' [|]%elem_of_cons; [done|auto].
  - intros id l' [[= -> ->]|]%elem_of_cons; [by exists r|auto].
Qed.

(** Take entries out of the table. *)
Definition removed_tok (a : Active) : Tok := TRemoved (ac_id a) (ac_log a).

Lemma attached_once s T l l' a a' :
  service_inv s T -> sv_active s !! l = Some a -> sv_active s !! l' = Some a' -> ac_id a = ac_id a' -> a = a'.
Proof.
  intros Hi Ha Ha' Heq. destruct (si_active _ _ Hi _ _ Ha) as (_ & ((r & Hr & Hl & _) & _) & _).
  destruct (si_active _ _ Hi _ _ Ha') as (_ & ((r' & Hr' & Hl' & _) & _) & _).
  rewrite Heq, Hr' in Hr. injection Hr as <-. assert (l = l') as <- by congruence. congruence.
Qed.

Lemma keys_removed dead : keys (map removed_tok dead) = map (fun a => inr (ac_id a)) dead.
Proof. induction dead as [|a dead IH]; [done|]. unfold keys in *. cbn. by rewrite IH. Qed.

Lemma service_take s T m dead :
  service_inv s T -> NoDup dead ->
  (forall a, a ∈ dead -> sv_active s !! ac_log a = Some a) ->
  (forall l a, m !! l = Some a <-> sv_active s !! l = Some a /\ a ∉ dead) ->
  service_inv (set_active m s) (map removed_tok dead ++ T).
Proof.
  intros Hi Hnd Hd Hm.
  pose proof Hi as Hi'. destruct Hi. constructor; cbn; eauto.
  - rewrite keys_app, keys_removed. apply NoDup_app. split_and!; [| |done].
    + apply NoDup_fmap_2_strong; [|done]. intros a a' Ha Ha' [= Heq].
      by eapply attached_once; [exact Hi'|by apply Hd|by apply Hd|].
    + intros k (a & -> & Ha)%list_elem_of_fmap. by apply Hd, si_active0 in Ha as (_ & _ & ?).
  - intros l. rewrite si_start0, elem_of_app. split; [by right|].
    intros [(a & Ha & _)%list_elem_of_fmap|]; done.
  - intros l Hl. destruct (m !! l) as [a|] eqn:E; [|done]. apply Hm in E as [E _]. by rewrite si_idle0 in E.
  - intros l id Hs. destruct (si_sink0 l id Hs) as [Ho Hx]. split; [done|].
    destruct Hx as [(a & Ha & <-)|[Hx|Hx]].
    + destruct (decide (a ∈ dead)) as [Hin|Hin].
      * right. right. apply elem_of_app. left. apply list_elem_of_fmap. exists a.
        destruct (si_active0 l a Ha) as (<- & _). done.
      * left. exists a. split; [|done]. by apply Hm.
    + right. left. apply elem_of_app. by right.
    + right. right. apply elem_of_app. by right.
  - intros l a [Ha Hnin]%Hm. destruct (si_active0 l a Ha) as (? & ? & Hk). split_and!; [done..|].
    rewrite keys_app, keys_removed. intros [(a' & [= Heq] & Ha')%list_elem_of_fmap|]%elem_of_app; [|done].
    apply Hnin. rewrite (attached_once s T l (ac_log a') a a' Hi'); auto.
  - intros id l [(a & Ha & _)%list_elem_of_fmap|]%elem_of_app; [done|]. by apply si_attached0.
  - intros id l [(a & [= -> ->] & Ha)%list_elem_of_fmap|]%elem_of_app; [|by apply si_removed0].
    by apply Hd, si_active0 in Ha as (_ & ? & _).
  - intros id [(a & Ha & _)%list_elem_of_fmap|]%elem_of_app; [done|]. by apply si_fresh0.
  - intros id x [(a & Ha & _)%list_elem_of_fmap|]%elem_of_app; [done|]. by apply si_ended0.
  - intros l [(a & Ha & _)%list_elem_of_fmap|]%elem_of_app; [done|]. by apply si_gone0.
  - intros id l [(a & Ha & _)%list_elem_of_fmap|]%elem_of_app; [done|]. by apply si_began0.
Qed.

Lemma set_sink_other log r s l : l <> log -> sink (set_sink log r s) l = sink s l /\ log_open (set_sink log r s) l = log_open s l.
Proof. intros Hne. unfold sink, log_open, set_sink. cbn. by rewrite lookup_insert_ne. Qed.

Lemma set_sink_same log r s : sink (set_sink log r s) log = r /\ log_open (set_sink log r s) log = log_open s log.
Proof. unfold sink, log_open, set_sink. cbn. by rewrite lookup_insert_eq. Qed.

Lemma set_sink_known log r s l : is_Some (sv_logs s !! l) -> is_Some (sv_logs (set_sink log r s) !! l).
Proof.
  intros Hk. cbn. destruct (decide (log = l)) as [->|]; [rewrite lookup_insert_eq; by eexists|by rewrite lookup_insert_ne].
Qed.

(** A recording that is not the one whose sink changed. *)
Lemma attached_other s log r id f l i :
  attached_to s l i -> l <> log -> i <> id -> attached_to (update_rec id f (set_sink log r s)) l i.
Proof.
  intros (Hr & Hk & Ho) Hl Hi. destruct (set_sink_other log r s l Hl) as [E1 E2].
  split_and!.
  - cbn. by rewrite lookup_alter_ne.
  - by apply set_sink_known.
  - change (log_open (set_sink log r s) l = true -> sink (set_sink log r s) l = Some i). by rewrite E1, E2.
Qed.

(** The sink is detached by the task that took the recording out. *)
Lemma inv_detach s T id l x :
  service_inv s (TRemoved id l :: T) ->
  exists t, service_inv (detach l x s) (t :: T) /\ (t = TEnded id x \/ t = TGone l).
Proof.
  intros Hi. pose proof Hi as Hi'. destruct Hi'.
  destruct (si_removed0 id l) as ((r & Hr & Hrl & Hrn) & Hk & Ho); [by left|].
  assert (forall l' i, attached_to s l' i -> i <> id -> sink s l = Some id -> l' <> l) as Hne.
  { intros l' i (_ & _ & Hs) Hd Hsink ->. destruct (si_sink0 l id Hsink) as [Hop _].
    rewrite (Hs Hop) in Hsink. congruence. }
  assert (forall t, t ∈ T -> tok_key t <> Some (inr id)) as Hother by (intros; by eapply key_other).
  unfold detach. destruct (sink s l) as [id'|] eqn:Hs.
  - destruct (si_sink0 l id' Hs) as [Hop _]. assert (id' = id) as -> by (specialize (Ho Hop); congruence). clear Ho.
    exists (TEnded id x). split; [|by left]. constructor; cbn.
    + unfold keys in si_keys0. cbn in si_keys0. by apply NoDup_cons in si_keys0 as [_ ?].
    + intros l'. rewrite si_start0, !elem_of_cons. split; (intros [|]; [done|by right]).
    + done.
    + intros l' i Hs'. change (sink (set_sink l None s) l' = Some i) in Hs'. destruct (decide (l' = l)) as [->|Hl].
      { destruct (set_sink_same l None s) as [E _]. by rewrite E in Hs'. }
      destruct (set_sink_other l None s l' Hl) as [E1 E2]. rewrite E1 in Hs'. destruct (si_sink0 l' i Hs') as [Hop' Hx].
      split; [by rewrite <- Hop', <- E2|]. destruct Hx as [Hx|[Hx|Hx]]; [by left|right; left|right; right];
        apply elem_of_cons in Hx as [[= -> ->]|]; (done || by right).
    + intros l' a Ha. destruct (si_active0 l' a Ha) as (? & Hat & Hk'). unfold keys in *. cbn in *.
      apply not_elem_of_cons in Hk' as [Hk1 Hk2]. assert (ac_id a <> id) as Hai by congruence.
      split_and!; [done| |done]. apply attached_other; [done|by eapply Hne|done].
    + intros i l' [|Ht]%elem_of_cons; [done|]. assert (i <> id) by (intros ->; by eapply (Hother _ Ht)).
      pose proof (si_attached0 i l' (list_elem_of_further _ _ _ Ht)) as Hat. apply attached_other; [done|by eapply Hne|done].
    + intros i l' [|Ht]%elem_of_cons; [done|]. assert (i <> id) by (intros ->; by eapply (Hother _ Ht)).
      pose proof (si_removed0 i l' (list_elem_of_further _ _ _ Ht)) as Hat. apply attached_other; [done|by eapply Hne|done].
    + intros i [|Ht]%elem_of_cons; [done|]. assert (i <> id) by (intros ->; by eapply (Hother _ Ht)).
      rewrite lookup_alter_ne by done. apply si_fresh0. by right.
    + intros i y [[= -> ->]|Ht]%elem_of_cons.
      { rewrite lookup_alter_eq, Hr. by eexists. }
      destruct (si_ended0 i y) as (r' & Hr' & Hy); [by right|].
      assert (i <> id) by (intros ->; congruence). rewrite lookup_alter_ne by done. by exists r'.
    + intros l' [|Ht]%elem_of_cons; [done|]. destruct (si_gone0 l') as [Hk' Hg]; [by right|].
      split; [by apply set_sink_known|]. assert (l' <> l) as Hl by congruence.
      destruct (set_sink_other l None s l' Hl) as [_ E]. by rewrite <- Hg, <- E.
    + intros i l' [|Ht]%elem_of_cons; [done|]. destruct (si_began0 i l') as (r' & Hr' & Hy); [by right|].
      destruct (decide (i = id)) as [->|]; [rewrite lookup_alter_eq, Hr'; by eexists|].
      rewrite lookup_alter_ne by done. by exists r'.
  - assert (log_open s l = false) as Hop by (destruct (log_open s l); [by specialize (Ho eq_refl)|done]).
    exists (TGone l). split; [|by right]. constructor; eauto.
    + unfold keys in si_keys0. cbn in si_keys0. by apply NoDup_cons in si_keys0 as [_ ?].
    + intros l'. rewrite si_start0, !elem_of_cons. split; (intros [|]; [done|by right]).
    + intros l' i Hs'. destruct (si_sink0 l' i Hs') as [Hop' Hx]. split; [done|].
      destruct Hx as [Hx|[Hx|Hx]]; [by left|right; left|right; right];
        apply elem_of_cons in Hx as [[= -> ->]|]; (done || congruence || by right).
    + intros l' a Ha. destruct (si_active0 l' a Ha) as (? & Hat & Hk'). unfold keys in *. cbn in *.
      apply not_elem_of_cons in Hk' as [_ ?]. done.
    + intros i l' [|Ht]%elem_of_cons; [done|]. apply si_attached0. by right.
    + intros i l' [|Ht]%elem_of_cons; [done|]. apply si_removed0. by right.
    + intros i [|Ht]%elem_of_cons; [done|]. apply si_fresh0. by right.
    + intros i y [|Ht]%elem_of_cons; [done|]. apply si_ended0. by right.
    + intros l' [[= ->]|Ht]%elem_of_cons; [done|]. apply si_gone0. by right.
    + intros i l' [|Ht]%elem_of_cons; [done|]. apply si_began0. by right.
Qed.

Lemma inv_claim s T l :
  service_inv s T -> sv_active s !! l = None -> l ∉ sv_starting s ->
  service_inv (set_starting ({[l]} ∪ sv_starting s) s) (TStart l :: T).
Proof.
  intros Hi Ha Hl. destruct Hi. constructor; cbn.
  - unfold keys in *. cbn. apply NoDup_cons. split; [|done]. intros (t & Ht & Hk)%list_elem_of_omap.
    destruct t; cbn in Hk; simplify_eq. by apply Hl, si_start0.
  - intros l'. rewrite elem_of_union, elem_of_singleton, si_start0, elem_of_cons. naive_solver.
  - intros l' [->%elem_of_singleton|]%elem_of_union; auto.
  - intros l' id Hs. destruct (si_sink0 l' id Hs) as [Ho [Hx|[Hx|Hx]]]; (split; [done|]).
    + by left.
    + right. left. by right.
    + right. right. by right.
  - intros l' a Hx. destruct (si_active0 l' a Hx) as (? & ? & Hk). split_and!; try done.
    intros [|]%elem_of_cons; done.
  - intros id l' [|]%elem_of_cons; [done|by apply si_attached0].
  - intros id l' [|]%elem_of_cons; [done|by apply si_removed0].
  - intros id [|]%elem_of_cons; [done|by apply si_fresh0].
  - intros id x [|]%elem_of_cons; [done|by apply si_ended0].
  - intros l' [|]%elem_of_cons; [done|by apply si_gone0].
  - intros id l' [|]%elem_of_cons; [done|by apply si_began0].
Qed.

Lemma known_id s T id : service_inv s T -> inr id ∈ keys T -> is_Some (sv_recs s !! id).
Proof.
  intros [] [?|[[l ?]|[l ?]]]%in_keys.
  - destruct (si_fresh0 id) as (r & -> & _); [done|by eexists].
  - destruct (si_attached0 id l) as ((r & -> & _) & _); [done|by eexists].
  - destruct (si_removed0 id l) as ((r & -> & _) & _); [done|by eexists].
Qed.

(** A change of one recording that no table and no other task knows. *)
Lemma attached_new s id r l i :
  sv_recs s !! id = None -> attached_to s l i -> attached_to (set_recs (<[id := r]> (sv_recs s)) s) l i.
Proof.
  intros Hn ((r' & Hr & ?) & ?). split; [|done]. cbn. exists r'. rewrite lookup_insert_ne; [done|]. congruence.
Qed.

Lemma inv_create s T id :
  service_inv s T -> sv_recs s !! id = None ->
  service_inv (set_recs (<[id := {| rc_runs := false; rc_log := None; rc_last := None; rc_notes := [] |}]> (sv_recs s)) s)
              (TFresh id :: T).
Proof.
  intros Hi Hn. pose proof (known_id s T id Hi) as Hknown. rewrite Hn in Hknown.
  assert (inr id ∉ keys T) as Hk by (intros Hx; by destruct (Hknown Hx)).
  assert (forall i r, sv_recs s !! i = Some r -> i <> id) as Hne by (intros i r Hr ->; congruence).
  destruct Hi. constructor; cbn.
  - unfold keys in *. cbn. by apply NoDup_cons.
  - intros l'. rewrite si_start0, elem_of_cons. split; [by right|by intros [|]].
  - done.
  - intros l' i Hs. destruct (si_sink0 l' i Hs) as [Ho [Hx|[Hx|Hx]]]; (split; [done|]).
    + by left.
    + right. left. by right.
    + right. right. by right.
  - intros l' a Hx. destruct (si_active0 l' a Hx) as (? & Hat & Hk'). split_and!; [done|by apply attached_new|].
    destruct Hat as ((r & Hr & _) & _). intros [[= Heq]|]%elem_of_cons; [by apply (Hne _ _ Hr)|done].
  - intros i l' [|]%elem_of_cons; [done|]. apply attached_new; [done|by apply si_attached0].
  - intros i l' [|]%elem_of_cons; [done|]. apply attached_new; [done|by apply si_removed0].
  - intros i [[= ->]|Ht]%elem_of_cons; [rewrite lookup_insert_eq; by eexists|].
    destruct (si_fresh0 i Ht) as (r & Hr & ?). exists r. rewrite lookup_insert_ne by (by apply not_eq_sym, (Hne _ _ Hr)). done.
  - intros i x [|Ht]%elem_of_cons; [done|]. destruct (si_ended0 i x Ht) as (r & Hr & ?). exists r.
    rewrite lookup_insert_ne by (by apply not_eq_sym, (Hne _ _ Hr)). done.
  - intros l' [|]%elem_of_cons; [done|by apply si_gone0].
  - intros i l' [|Ht]%elem_of_cons; [done|]. destruct (si_began0 i l' Ht) as (r & Hr & ?). exists r.
    rewrite lookup_insert_ne by (by apply not_eq_sym, (Hne _ _ Hr)). done.
Qed.

Lemma inv_attach s T id l :
  service_inv s (TFresh id :: T) -> snd (attach l id s) = true ->
  service_inv (fst (attach l id s)) (TAttached id l :: T).
Proof.
  intros Hi. unfold attach. destruct (log_open s l) eqn:Hop; [|done].
  destruct (decide (sink s l = None)) as [Hs|]; [|by rewrite bool_decide_eq_false_2].
  rewrite bool_decide_eq_true_2 by done. intros _. cbn [fst andb].
  pose proof Hi as []. destruct (si_fresh0 id) as (r & Hr & Hrl & Hrn); [by left|].
  assert (forall t, t ∈ T -> tok_key t <> Some (inr id)) as Hother by (intros; by eapply key_other).
  assert (forall l' i, attached_to s l' i -> l' <> l) as Hne.
  { intros l' i (_ & _ & Ho) ->. specialize (Ho Hop). congruence. }
  assert (is_Some (sv_logs s !! l)) as Hk by (unfold log_open in Hop; by destruct (sv_logs s !! l)).
  constructor; cbn.
  - unfold keys in *. cbn in *. done.
  - intros l'. rewrite si_start0, !elem_of_cons. split; (intros [|]; [done|by right]).
  - done.
  - intros l' i Hs'. change (sink (set_sink l (Some id) s) l' = Some i) in Hs'. destruct (decide (l' = l)) as [->|Hl].
    { destruct (set_sink_same l (Some id) s) as [E1 E2]. rewrite E1 in Hs'. injection Hs' as ->.
      split; [by rewrite <- Hop, <- E2|]. right. left. by left. }
    destruct (set_sink_other l (Some id) s l' Hl) as [E1 E2]. rewrite E1 in Hs'.
    destruct (si_sink0 l' i Hs') as [Hop' Hx]. split; [by rewrite <- Hop', <- E2|].
    destruct Hx as [Hx|[Hx|Hx]]; [by left|right; left|right; right]; apply elem_of_cons in Hx as [|]; (done || by right).
  - intros l' a Ha. destruct (si_active0 l' a Ha) as (? & Hat & Hk'). unfold keys in *. cbn in *.
    apply not_elem_of_cons in Hk' as [Hk1 Hk2]. assert (ac_id a <> id) as Hai by congruence.
    split_and!; [done|apply attached_other; [done|by eapply Hne|done]|]. by apply not_elem_of_cons.
  - intros i l' [[= -> ->]|Ht]%elem_of_cons.
    + split_and!; [|by apply set_sink_known|]; cbn; [rewrite lookup_alter_eq, Hr; by eexists|].
      intros _. apply (set_sink_same l (Some id) s).
    + assert (i <> id) by (intros ->; by eapply (Hother _ Ht)).
      pose proof (si_attached0 i l' (list_elem_of_further _ _ _ Ht)) as Hat. apply attached_other; [done|by eapply Hne|done].
  - intros i l' [|Ht]%elem_of_cons; [done|]. assert (i <> id) by (intros ->; by eapply (Hother _ Ht)).
    pose proof (si_removed0 i l' (list_elem_of_further _ _ _ Ht)) as Hat. apply attached_other; [done|by eapply Hne|done].
  - intros i [|Ht]%elem_of_cons; [done|]. assert (i <> id) by (intros ->; by eapply (Hother _ Ht)).
    rewrite lookup_alter_ne by done. apply si_fresh0. by right.
  - intros i y [|Ht]%elem_of_cons; [done|]. destruct (si_ended0 i y) as (r' & Hr' & Hy); [by right|].
    assert (i <> id) by (intros ->; congruence). rewrite lookup_alter_ne by done. by exists r'.
  - intros l' [|Ht]%elem_of_cons; [done|]. destruct (si_gone0 l') as [Hk' Hg]; [by right|].
    split; [by apply set_sink_known|]. assert (l' <> l) as Hl by congruence.
    destruct (set_sink_other l (Some id) s l' Hl) as [_ E]. by rewrite <- Hg, <- E.
  - intros i l' [|Ht]%elem_of_cons; [done|]. destruct (si_began0 i l') as (r' & Hr' & Hy); [by right|].
    assert (i <> id) by (intros ->; congruence). rewrite lookup_alter_ne by done. by exists r'.
Qed.

Lemma inv_abandon s T l :
  service_inv s (TStart l :: T) -> service_inv (set_starting (sv_starting s ∖ {[l]}) s) T.
Proof.
  intros Hi. assert (TStart l ∉ T) as Hl.
  { intros Ht. eapply (key_other (TStart l) T (inl l)); [by eapply si_keys|done|exact Ht|done]. }
  destruct Hi. constructor; cbn.
  - unfold keys in si_keys0. cbn in si_keys0. by apply NoDup_cons in si_keys0 as [_ ?].
  - intros l'. rewrite elem_of_difference, elem_of_singleton, si_start0, elem_of_cons. naive_solver.
  - intros l' [? _]%elem_of_difference. auto.
  - intros l' i Hs. destruct (si_sink0 l' i Hs) as [Ho Hx]. split; [done|].
    destruct Hx as [Hx|[Hx|Hx]]; [by left|right; left|right; right]; by apply elem_of_cons in Hx as [|].
  - intros l' a Ha. destruct (si_active0 l' a Ha) as (? & ? & Hk). split_and!; [done..|].
    unfold keys in *. cbn in Hk. by apply not_elem_of_cons in Hk as [_ ?].
  - intros i l' Ht. apply si_attached0. by right.
  - intros i l' Ht. apply si_removed0. by right.
  - intros i Ht. apply si_fresh0. by right.
  - intros i x Ht. apply si_ended0. by right.
  - intros l' Ht. apply si_gone0. by right.
  - intros i l' Ht. apply si_began0. by right.
Qed.

(** A started recording goes into the table. *)
Lemma inv_insert s T l a :
  service_inv s (TAttached (ac_id a) l :: T) -> ac_log a = l -> sv_active s !! l = None -> l ∉ sv_starting s ->
  service_inv (set_active (<[l := a]> (sv_active s)) s) T.
Proof.
  intros Hi Hal Hn Hst.
  assert (inr (ac_id a) ∉ keys T) as Hk by (eapply key_once; [by eapply si_keys|done]).
  destruct Hi. constructor; cbn.
  - unfold keys in si_keys0. cbn in si_keys0. by apply NoDup_cons in si_keys0 as [_ ?].
  - intros l'. rewrite si_start0, elem_of_cons. split; [by intros [|]|by right].
  - intros l' Hl'. rewrite lookup_insert_ne by (intros <-; done). auto.
  - intros l' i Hs. destruct (si_sink0 l' i Hs) as [Ho Hx]. split; [done|].
    destruct Hx as [(a' & Ha' & Hi')|[Hx|Hx]].
    + left. exists a'. split; [|done]. rewrite lookup_insert_ne; [done|]. intros ->. congruence.
    + apply elem_of_cons in Hx as [[= -> ->]|]; [|by right; left]. left. exists a. by rewrite lookup_insert_eq.
    + apply elem_of_cons in Hx as [|]; [done|]. by right; right.
  - intros l' a' Ha'. destruct (decide (l = l')) as [<-|Hl].
    + rewrite lookup_insert_eq in Ha'. injection Ha' as <-. split_and!; [done| |done]. apply si_attached0. by left.
    + rewrite lookup_insert_ne in Ha' by done. destruct (si_active0 l' a' Ha') as (? & ? & Hk'). split_and!; [done..|].
      unfold keys in *. cbn in Hk'. by apply not_elem_of_cons in Hk' as [_ ?].
  - intros i l' Ht. apply si_attached0. by right.
  - intros i l' Ht. apply si_removed0. by right.
  - intros i Ht. apply si_fresh0. by right.
  - intros i x Ht. apply si_ended0. by right.
  - intros l' Ht. apply si_gone0. by right.
  - intros i l' Ht. apply si_began0. by right.
Qed.

(** A log that goes away, or a new one, has no sink. *)
Lemma inv_log s T l b :
  service_inv s T -> (if b : bool then sv_logs s !! l = None else is_Some (sv_logs s !! l)) ->
  service_inv (set_logs (<[l := {| lg_open := b; lg_sink := None |}]> (sv_logs s)) s) T.
Proof.
  set (s' := set_logs _ s). intros Hi Hl.
  assert (sink s' l = None /\ log_open s' l = b) as [Hs0 Ho0].
  { unfold sink, log_open, s'. cbn. by rewrite lookup_insert_eq. }
  assert (forall l', l' <> l -> sink s' l' = sink s l' /\ log_open s' l' = log_open s l') as Hother.
  { intros l' Hne. unfold sink, log_open, s'. cbn. by rewrite lookup_insert_ne. }
  assert (forall l', is_Some (sv_logs s !! l') -> is_Some (sv_logs s' !! l')) as Hk.
  { intros l' Hk. cbn. destruct (decide (l = l')) as [->|]; [rewrite lookup_insert_eq; by eexists|by rewrite lookup_insert_ne]. }
  assert (forall l', is_Some (sv_logs s !! l') -> log_open s' l' = true -> l' <> l) as Hne.
  { intros l' [x Hx] Hop ->. rewrite Ho0 in Hop. rewrite Hop in Hl. congruence. }
  assert (forall l' i, attached_to s l' i -> attached_to s' l' i) as Hat.
  { intros l' i (Hr & Hk' & Hs). split_and!; [done|by apply Hk|]. intros Hop. pose proof (Hne l' Hk' Hop) as Hd.
    destruct (Hother l' Hd) as [-> E]. apply Hs. by rewrite <- E. }
  destruct Hi. constructor; eauto.
  - intros l' i Hs. assert (l' <> l) as Hd by (intros ->; congruence). destruct (Hother l' Hd) as [E1 E2].
    rewrite E1 in Hs. rewrite E2. auto.
  - intros l' a Ha. destruct (si_active0 l' a Ha) as (? & ? & ?). auto.
  - intros l' Ht. destruct (si_gone0 l' Ht) as [Hk' Hg]. split; [by apply Hk|].
    destruct (decide (l' = l)) as [->|Hd]; [|by destruct (Hother l' Hd) as [_ ->]].
    rewrite Ho0. assert (b = true \/ b = false) as [E|E] by (clear; destruct b; auto); [|done].
    rewrite E in Hl. destruct Hk' as [x Hx]. congruence.
Qed.

#[export] Instance service_owned : Owned outside service_inv.
Proof.
  constructor; [apply inv_perm|]. intros s s' T Ho Hi. destruct Ho as [id s|l s Hk|l s Hk].
  - eapply service_same; [|exact Hi]. by apply same_update.
  - by apply inv_log.
  - by apply inv_log.
Qed.

(** ** The programs keep what they owe *)

Abbreviation wps := (wp exec service_inv).

(** What is left of a program's tokens when it ends. *)
Definition persistent (t : Tok) : bool := match tok_key t with None => true | Some _ => false end.
Definition settled (own : list Tok) : Prop := Forall (fun t => persistent t = true) own.
(** A section that changes nothing the invariant looks at. *)
Lemma wp_same {A B} (e : ServiceOp B) (k : B -> prog ServiceOp A) own Q :
  (forall o s, same_core s (fst (exec o B e s))) -> (forall b, wps (k b) own Q) -> wps (Act e k) own Q.
Proof. intros Hs Hk o s rest Hi. exists own. split; [by eapply service_same|auto]. Qed.

Lemma wp_read {A B} (e : ServiceOp B) (k : B -> prog ServiceOp A) own Q :
  (forall o s, fst (exec o B e s) = s) -> (forall b, wps (k b) own Q) -> wps (Act e k) own Q.
Proof. intros Hs. apply wp_same. intros o s. by rewrite Hs. Qed.

Lemma wp_push {A} a (k : unit -> prog ServiceOp A) own Q : wps (k tt) own Q -> wps (Act (PushClosing a) k) own Q.
Proof. intros Hk. apply wp_same; [done|by intros []]. Qed.

Lemma wp_detach {A} id l x (k : unit -> prog ServiceOp A) own Q :
  (forall t, t = TEnded id x \/ t = TGone l -> wps (k tt) (t :: own) Q) ->
  wps (Act (DetachSink l x) k) (TRemoved id l :: own) Q.
Proof.
  intros Hk o s rest Hi. destruct (inv_detach s (own ++ rest) id l x Hi) as (t & Hi' & Ht).
  exists (t :: own). split; [exact Hi'|by apply Hk].
Qed.

Lemma wp_perm {A} (p : prog ServiceOp A) own own' Q :
  own ≡ₚ own' -> (forall a o o', o ≡ₚ o' -> Q a o -> Q a o') -> wps p own Q -> wps p own' Q.
Proof.
  intros Hp HQ. destruct p as [a|B e k]; cbn; [by apply HQ|]. intros Hk o s rest Hi.
  apply Hk. eapply inv_perm; [|exact Hi]. by rewrite Hp.
Qed.

Lemma wp_reap_each dead own :
  wps (reap_each dead) (map removed_tok dead ++ own) (fun _ own' => exists P, own' ≡ₚ P ++ own /\ settled P).
Proof.
  revert own. induction dead as [|a dead IH]; intros own; cbn [reap_each map app]; [exists []; by split; [|constructor]|].
  cbn [pbind act]. apply wp_detach. intros t Ht. apply wp_push.
  eapply wp_perm; [|intros ? ? ? HP (P & HQ & ?); exists P; by rewrite <- HP|].
  { symmetry. apply (Permutation_middle (map removed_tok dead) own t). }
  apply (wp_mono _ _ _ _ _ _ (IH (t :: own))). intros _ own' (P & HP & Hs). exists (P ++ [t]).
  split; [by rewrite HP, <- app_assoc|]. apply Forall_app. split; [done|]. constructor; [by destruct Ht as [-> | ->]|constructor].
Qed.

(** The entries of the table that [p] chooses. *)
Definition chosen (p : Active -> bool) (s : Service) : list Active :=
  List.filter p (map_to_list (sv_active s)).*2.

Lemma chosen_spec p s :
  (forall l a, sv_active s !! l = Some a -> ac_log a = l) ->
  NoDup (chosen p s) /\ (forall a, a ∈ chosen p s <-> sv_active s !! ac_log a = Some a /\ p a = true).
Proof.
  intros Hlog. unfold chosen. split.
  - apply NoDup_ListNoDup, List.NoDup_filter, NoDup_ListNoDup.
    apply NoDup_fmap_2_strong; [|apply NoDup_map_to_list].
    intros [l a] [l' a'] H1%elem_of_map_to_list H2%elem_of_map_to_list. cbn. intros ->.
    apply Hlog in H1, H2. congruence.
  - intros a. rewrite list_elem_of_In, filter_In, <- list_elem_of_In, list_elem_of_fmap. split.
    + intros [([l a'] & -> & Ha%elem_of_map_to_list) Hp]. cbn in *. by rewrite (Hlog _ _ Ha).
    + intros [Ha Hp]. split; [|done]. exists (ac_log a, a). split; [done|]. by apply elem_of_map_to_list.
Qed.

Lemma wp_take {A} (p : Service -> Active -> bool) (e : ServiceOp (list Active)) (k : list Active -> prog ServiceOp A) own Q :
  (forall o s, exists c, fst (exec o _ e s)
     = set_closing c (set_active (filter (fun x => p s (snd x) = false) (sv_active s)) s) /\
     snd (exec o _ e s) = chosen (p s) s) ->
  (forall dead, wps (k dead) (map removed_tok dead ++ own) Q) -> wps (Act e k) own Q.
Proof.
  intros He Hk o s rest Hi. destruct (He o s) as (c & Hf & Hs). rewrite Hf, Hs.
  assert (forall l a, sv_active s !! l = Some a -> ac_log a = l) as Hlog by (intros l' a Ha; by eapply si_active in Ha as (? & _)).
  destruct (chosen_spec (p s) s Hlog) as [Hnd Hin].
  exists (map removed_tok (chosen (p s) s) ++ own). split; [|apply Hk].
  eapply service_same; [apply same_closing|]. rewrite <- app_assoc. apply service_take; [done|done| |].
  - intros a Ha. by apply Hin.
  - intros l a. rewrite map_lookup_filter_Some, Hin. cbn. split.
    + intros [Ha Hp]. split; [done|]. intros [_ Hp']. congruence.
    + intros [Ha Hn]. split; [done|]. destruct (p s a) eqn:Hp; [|done]. destruct Hn. by rewrite (Hlog _ _ Ha).
Qed.

Lemma wp_reap own : wps reap own (fun _ own' => exists P, own' ≡ₚ P ++ own /\ settled P).
Proof.
  apply (wp_take (fun s a => negb (alive s a))); [|intros dead; apply wp_reap_each].
  intros o s. eexists. split; [|done]. cbn. unfold set_closing, set_active. cbn. f_equal.
  apply map_filter_ext. intros l a _. cbn. by rewrite negb_false_iff.
Qed.

Lemma filter_all {A} (l : list A) : List.filter (fun _ => true) l = l.
Proof. induction l as [|x l IH]; [done|]. cbn. by rewrite IH. Qed.

(** After the reap at its beginning, an operation goes on. *)
Lemma wp_after_reap {A} (p : prog ServiceOp A) Q :
  (forall P, settled P -> wps p P Q) -> (forall a o o', o ≡ₚ o' -> Q a o -> Q a o') -> wps (do! reap in p) [] Q.
Proof.
  intros Hp HQ. apply wp_bind. eapply wp_mono; [apply wp_reap|]. intros _ own' (P & HP & Hs).
  rewrite app_nil_r in HP. by apply (wp_perm _ P); [|done|apply Hp].
Qed.

(** What an operation has done when it answers. *)
Definition start_post (log : text) (r : result text Started) (own : list Tok) : Prop :=
  settled own /\ match r with Ok st => TBegan (st_id st) log ∈ own | Err _ => True end.
Definition stop_post (log : text) (x : StopReason) (r : option text) (own : list Tok) : Prop :=
  settled own /\ match r with Some id => TBegan id log ∈ own /\ (TEnded id x ∈ own \/ TGone log ∈ own) | None => True end.

Definition annotate_post (log : text) (r : result text text) (own : list Tok) : Prop :=
  settled own /\ match r with Ok id => TBegan id log ∈ own | Err _ => True end.

Lemma settled_perm o o' : o ≡ₚ o' -> settled o -> settled o'.
Proof. intros HP Ho. unfold settled. by rewrite <- HP. Qed.

Lemma start_post_perm log r o o' : o ≡ₚ o' -> start_post log r o -> start_post log r o'.
Proof.
  intros HP [Hs Hr]. split; [by eapply settled_perm|]. destruct r; [|done]. by rewrite <- HP.
Qed.
Lemma stop_post_perm log x r o o' : o ≡ₚ o' -> stop_post log x r o -> stop_post log x r o'.
Proof.
  intros HP [Hs Hr]. split; [by eapply settled_perm|]. destruct r; [|done]. by rewrite <- HP.
Qed.

Lemma annotate_post_perm log r o o' : o ≡ₚ o' -> annotate_post log r o -> annotate_post log r o'.
Proof.
  intros HP [Hs Hr]. split; [by eapply settled_perm|]. destruct r; [|done]. by rewrite <- HP.
Qed.

Lemma wp_start_inner log own :
  settled own ->
  wps (start_inner log) (TStart log :: own)
    (fun r o => match r with
                | Ok a => ac_log a = log /\ o = TStart log :: TAttached (ac_id a) log :: own
                | Err _ => o = TStart log :: own
                end).
Proof.
  intros Hown. unfold start_inner. cbn [pbind act]. apply wp_read; [done|]. intros [_|e]; [|done].
  cbn [pbind act]. apply wp_read; [done|]. intros started. cbn [pbind act]. apply wp_read; [done|]. intros writing.
  cbn [pbind act]. intros o s rest Hi. cbn [exec]. destruct (ou_create o) as [id|e]; [|by exists (TStart log :: own)].
  destruct (decide (sv_recs s !! id = None)) as [Hn|]; [|by exists (TStart log :: own)].
  exists (TFresh id :: TStart log :: own). split; [by apply inv_create|]. cbn [snd pbind act].
  clear o s rest Hi Hn. intros o s rest Hi. cbn [exec]. destruct (ou_spawn o) as [_|e].
  2: { exists (TStart log :: own). split; [|done]. by eapply inv_drop; [|exact Hi]. }
  exists (TFresh id :: TStart log :: own). split; [eapply service_same; [by apply same_update|exact Hi]|]. cbn [snd pbind act].
  clear o s rest Hi. intros o s rest Hi. cbn [exec]. destruct (snd (attach log id s)) eqn:Ha.
  - exists (TStart log :: TAttached id log :: own). split; [|done].
    eapply inv_perm; [|apply (inv_attach s (TStart log :: own ++ rest) id log Hi Ha)]. cbn. by constructor.
  - exists (TStart log :: own). split; [|done].
    assert (fst (attach log id s) = s) as -> by (revert Ha; unfold attach; by destruct (_ && _)).
    by eapply inv_drop; [|exact Hi].
Qed.

Lemma wp_start log : wps (start log) [] (start_post log).
Proof.
  apply wp_after_reap; [|by intros; eapply start_post_perm]. intros P HP. cbn [pbind act].
  intros o s rest Hi. cbn [exec]. destruct (sv_active s !! log) as [a|] eqn:Ha.
  { exists (TBegan (ac_id a) log :: P). split; [by apply inv_began|]. cbn.
    split; [by constructor|]. by left. }
  destruct (decide (log ∈ sv_starting s)) as [|Hl]; [by exists P|].
  exists (TStart log :: P). split; [by apply inv_claim|]. cbn [snd]. apply wp_bind.
  eapply wp_mono; [by apply wp_start_inner|]. clear o s rest Hi Ha Hl. intros r own Hr. cbn [pbind act].
  intros o s rest Hi. destruct r as [a|e]; cbn [exec].
  - destruct Hr as [Hlog ->]. exists (TBegan (ac_id a) log :: P).
    assert (log ∈ sv_starting s) as Hst by (eapply si_start; [exact Hi|by left]).
    assert (sv_active s !! log = None) as Hnone by by eapply si_idle.
    split; [|split; [by constructor|by left]]. apply inv_began; [|cbn; by rewrite lookup_insert_eq].
    apply inv_insert; [|done|done|cbn; set_solver]. by apply inv_abandon.
  - subst own. exists P. split; [by apply inv_abandon|done].
Qed.

Lemma wp_stop log x : wps (stop log x) [] (stop_post log x).
Proof.
  apply wp_after_reap; [|by intros; eapply stop_post_perm]. intros P HP. cbn [pbind act].
  intros o s rest Hi. cbn [exec fst snd]. destruct (sv_active s !! log) as [a|] eqn:Ha.
  - assert (ac_log a = log) as Hlog by by eapply si_active in Ha as (? & _).
    exists (TRemoved (ac_id a) log :: TBegan (ac_id a) log :: P). split.
    + change (service_inv (set_active (delete log (sv_active s)) s) (TRemoved (ac_id a) log :: (TBegan (ac_id a) log :: P) ++ rest)).
      rewrite <- Hlog at 2. apply (service_take s ((TBegan (ac_id a) log :: P) ++ rest) _ [a]).
      * by apply inv_began.
      * apply NoDup_singleton.
      * intros a' ->%list_elem_of_singleton. by rewrite Hlog.
      * intros l a'. rewrite lookup_delete_Some, list_elem_of_singleton. split.
        -- intros [Hne Ha']. split; [done|]. intros ->. apply Hne.
           destruct (si_active _ _ Hi _ _ Ha') as (Hl' & _). congruence.
        -- intros [Ha' Hne]. split; [|done]. intros <-. congruence.
    + cbn [pbind act]. apply wp_detach. intros t Ht. cbn [pbind act]. apply wp_push. cbn.
      split.
      { constructor; [by destruct Ht as [-> | ->]|]. by constructor. }
      split; [by right; left|]. destruct Ht as [-> | ->]; [left|right]; by left.
  - exists P. split; [|by split].
    eapply service_same; [|exact Hi]. split_and!; try done. cbn. by rewrite delete_id.
Qed.

Lemma wp_note {A} log n (k : bool -> prog ServiceOp A) own Q : (forall b, wps (k b) own Q) -> wps (Act (GiveNote log n) k) own Q.
Proof.
  apply wp_same. intros o s. cbn. unfold note. destruct (sink s log); [|done].
  destruct (ou_accepts o); [|done]. by apply same_update.
Qed.

Lemma wp_closed log reason : wps (session_closed log reason) [] (fun _ => settled).
Proof.
  unfold session_closed. cbn [pbind act]. apply wp_read; [done|]. intros []; [|constructor].
  cbn [pbind act]. apply wp_note. intros b. apply wp_bind. eapply wp_mono; [apply wp_stop|]. by intros r own [? _].
Qed.

Lemma wp_annotate log t : wps (annotate log t) [] (annotate_post log).
Proof.
  unfold annotate. case_bool_decide; [by repeat constructor|]. destruct (_ <? _)%N; [by repeat constructor|].
  apply wp_after_reap; [|by intros; eapply annotate_post_perm]. intros P HP. cbn [pbind act].
  intros o s rest Hi. cbn [exec fst snd]. destruct (sv_active s !! log) as [a|] eqn:Ha; [destruct (alive s a)|].
  2,3: by exists P.
  exists (TBegan (ac_id a) log :: P). split; [by apply inv_began|]. cbn [pbind act]. apply wp_note.
  intros []; (split; [by constructor|]); [by left|done].
Qed.

Lemma wp_stop_each actives own :
  wps (stop_each actives) (map removed_tok actives ++ own) (fun _ own' => exists P, own' ≡ₚ P ++ own /\ settled P).
Proof.
  revert own. induction actives as [|a l IH]; intros own; cbn [stop_each map app]; [exists []; by split; [|constructor]|].
  cbn [pbind act]. apply wp_detach. intros t Ht.
  eapply wp_perm; [|intros ? ? ? HP (P & HQ & ?); exists P; by rewrite <- HP|].
  { symmetry. apply (Permutation_middle (map removed_tok l) own t). }
  apply (wp_mono _ _ _ _ _ _ (IH (t :: own))). intros _ own' (P & HP & Hs). exists (P ++ [t]).
  split; [by rewrite HP, <- app_assoc|]. apply Forall_app. split; [done|]. constructor; [by destruct Ht as [-> | ->]|constructor].
Qed.

Lemma wp_shutdown : wps shutdown [] (fun _ => settled).
Proof.
  apply (wp_take (fun _ _ => true)).
  - intros o s. exists (sv_closing s). split; [|symmetry; apply filter_all].
    cbn. unfold set_closing, set_active. cbn. f_equal. symmetry. apply map_empty. intros l. apply map_lookup_filter_None. right. by intros a _.
  - intros dead. apply wp_bind. eapply wp_mono; [apply wp_stop_each|]. intros _ own (P & HP & Hs).
    apply wp_same; [done|]. intros b. rewrite app_nil_r in HP. by eapply settled_perm.
Qed.

(** ** What holds in every interleaving *)

Definition call_post (c : Call) (a : Answer) (own : list Tok) : Prop :=
  settled own /\
  match c, a with
  | CStart log, AStart r => start_post log r own
  | CStop log x, AStop r => stop_post log x r own
  | CAnnotate log _, AAnnotate r => annotate_post log r own
  | _, _ => True
  end.

Lemma wp_body c : wps (body c) [] (call_post c).
Proof.
  destruct c; cbn [body]; apply wp_bind.
  - eapply wp_mono; [apply wp_start|]. intros r own Hr. split; [by destruct Hr|done].
  - eapply wp_mono; [apply wp_stop|]. intros r own Hr. split; [by destruct Hr|done].
  - eapply wp_mono; [apply wp_closed|]. by intros r own Hr.
  - eapply wp_mono; [apply wp_annotate|]. intros r own Hr. split; [by destruct Hr|done].
  - eapply wp_mono; [apply wp_shutdown|]. by intros r own Hr.
Qed.

Lemma inv_new : service_inv service_new [].
Proof.
  constructor; cbn; try set_solver. constructor.
Qed.

Lemma reached_inv w : reached w -> pool_inv exec service_inv call_post w.
Proof.
  intros Hw. eapply (pool_inv_steps exec body outside service_inv call_post); [apply wp_body| |exact Hw].
  exists []. split; [apply inv_new|constructor].
Qed.

(** The end of a recording as it was told. *)
Definition end_told (s : Service) (id : text) : option StopReason := and_then (sv_recs s !! id) rc_last.

Lemma sink_attached s T l id : service_inv s T -> sink s l = Some id -> attached_to s l id.
Proof.
  intros Hi Hs. destruct (si_sink _ _ Hi _ _ Hs) as [_ [(a & Ha & <-)|[Ht|Ht]]].
  - by eapply si_active in Ha as (_ & ? & _).
  - by eapply si_attached.
  - by eapply si_removed.
Qed.

Lemma end_told_update s id f id' x :
  (forall r, rc_last r = Some x -> rc_last (f r) = Some x) -> end_told s id' = Some x ->
  end_told (update_rec id f s) id' = Some x.
Proof.
  intros Hf. unfold end_told. cbn. destruct (decide (id = id')) as [->|]; [|by rewrite lookup_alter_ne].
  rewrite lookup_alter_eq. destruct (sv_recs s !! id'); cbn; auto.
Qed.

(** No section changes an end that was told. *)
Lemma end_kept o B (e : ServiceOp B) s T id x :
  service_inv s T -> end_told s id = Some x -> end_told (fst (exec o B e s)) id = Some x.
Proof.
  intros Hi He. destruct e; cbn [exec]; try exact He.
  - unfold detach. destruct (sink s log) as [id'|] eqn:Hs; [|exact He]. cbn.
    destruct (sink_attached _ _ _ _ Hi Hs) as ((r & Hr & _ & Hn) & _).
    unfold end_told in *. cbn. rewrite lookup_alter_ne; [done|]. intros ->. rewrite Hr in He. cbn in He. congruence.
  - by repeat case_match.
  - destruct (ou_create o) as [id'|]; [|done]. destruct (decide _) as [Hn|]; [|done]. unfold end_told in *. cbn.
    rewrite lookup_insert_ne; [done|]. intros ->. by rewrite Hn in He.
  - destruct (ou_spawn o); [|done]. by apply end_told_update.
  - unfold attach. destruct (_ && _); [|done]. by apply end_told_update.
  - by destruct r.
  - unfold note. destruct (sink s log); [|done]. destruct (ou_accepts o); [|done]. by apply end_told_update.
Qed.

Lemma end_kept_steps w w' id x :
  reached w -> pool_steps exec body outside w w' -> end_told (fst w) id = Some x -> end_told (fst w') id = Some x.
Proof.
  intros Hw Hs. induction Hs as [|w1 w2 w3 H1 H2 IH]; [done|]. intros He. apply IH.
  - unfold reached. by eapply rtc_r.
  - destruct (reached_inv w1 Hw) as (owns & Hi & _). destruct H1 as [env B e k c s ts ts'|c s ts|s s' ts Ho]; cbn in *.
    + by eapply end_kept.
    + done.
    + destruct Ho; [by apply end_told_update|done..].
Qed.

(** C33: In every interleaving of starts, stops, annotations, closes and a
    shutdown, with recorders that die and sessions that go away at any moment:
    what is attached to a session's log is one recording that was started for
    that log, is attached to no other, and has not been told its end; an active
    recording is attached as long as its session's log is there; an end that
    was told is never told again or changed; a start that answers names a
    recording started for its log, and a stop that answers names one whose last
    event is that stop, if its session's log is still there; an annotation that answers names a recording started
    for its log (it may be written to a later one, see [annotation_moves_on]);
    and when no call is under way every attached recording
    is in the table, where the next stop finds it. *)
Theorem recordings_end_once w :
  reached w ->
  let s := fst w in
  (forall l id, sink s l = Some id ->
     (exists r, sv_recs s !! id = Some r /\ rc_log r = Some l /\ rc_last r = None) /\
     forall l', sink s l' = Some id -> l' = l) /\
  (forall l a, sv_active s !! l = Some a -> log_open s l = true -> sink s l = Some (ac_id a)) /\
  (forall w' id x, pool_steps exec body outside w w' -> end_told s id = Some x -> end_told (fst w') id = Some x) /\
  (forall l st, answered (CStart l) (AStart (Ok st)) w ->
     exists r, sv_recs s !! st_id st = Some r /\ rc_log r = Some l) /\
  (forall l x id, answered (CStop l x) (AStop (Some id)) w ->
     exists r, sv_recs s !! id = Some r /\ rc_log r = Some l /\ (log_open s l = true -> rc_last r = Some x)) /\
  (forall l t id, answered (CAnnotate l t) (AAnnotate (Ok id)) w ->
     exists r, sv_recs s !! id = Some r /\ rc_log r = Some l) /\
  (quiet w -> sv_starting s = ∅ /\
     forall l id, sink s l = Some id -> exists a, sv_active s !! l = Some a /\ ac_id a = id).
Proof.
  intros Hw. cbn zeta. pose proof (reached_inv w Hw) as Hp. pose proof Hp as (owns & Hi & Hts).
  split_and!.
  - intros l id Hs. destruct (sink_attached _ _ _ _ Hi Hs) as ((r & Hr & Hl & Hn) & _). split; [by exists r|].
    intros l' Hs'. destruct (sink_attached _ _ _ _ Hi Hs') as ((r' & Hr' & Hl' & _) & _). congruence.
  - intros l a Ha Ho. destruct (si_active _ _ Hi _ _ Ha) as (_ & (_ & _ & Hs) & _). by apply Hs.
  - intros w' id x Hs. by apply end_kept_steps.
  - intros l st Ha. destruct (pool_inv_answer exec outside service_inv call_post w _ _ Hp Ha) as (own & rest & (_ & _ & Ht) & Hi').
    eapply si_began; [exact Hi'|]. apply elem_of_app. by left.
  - intros l x id Ha. destruct (pool_inv_answer exec outside service_inv call_post w _ _ Hp Ha) as (own & rest & (_ & _ & Hb & Ht) & Hi').
    destruct (si_began _ _ Hi' id l) as (r & Hr & Hl); [apply elem_of_app; by left|]. exists r. split_and!; [done..|].
    intros Ho. destruct Ht as [Ht|Ht].
    + destruct (si_ended _ _ Hi' id x) as (r' & Hr' & Hx); [apply elem_of_app; by left|]. congruence.
    + destruct (si_gone _ _ Hi' l) as [_ Hg]; [apply elem_of_app; by left|]. congruence.
  - intros l t id Ha. destruct (pool_inv_answer exec outside service_inv call_post w _ _ Hp Ha) as (own & rest & (_ & _ & Ht) & Hi').
    eapply si_began; [exact Hi'|]. apply elem_of_app. by left.
  - intros Hq. assert (settled (concat owns)) as Hset.
    { clear Hi. unfold quiet in Hq. unfold settled. induction Hts as [|[c p] own ts owns Ht Hts IH]; [constructor|].
      cbn [concat]. apply Forall_app. split; [|apply IH; intros t Hin; apply Hq; by right].
      destruct (Hq {| tk_call := c; tk_prog := p |}) as [a Ha]; [by left|]. cbn in *. subst p. by destruct Ht. }
    assert (forall t, t ∈ concat owns -> persistent t = true) as Hper by by apply Forall_forall.
    split.
    + apply set_eq. intros l. rewrite (si_start _ _ Hi l). split; [|by intros ?%elem_of_empty].
      intros Ht%Hper. done.
    + intros l id Hs. destruct (si_sink _ _ Hi _ _ Hs) as [_ [?|[Ht|Ht]]]; [done|by apply Hper in Ht..].
Qed.

(** ** Two sessions of a day *)
Module ServiceDemo.
Definition world := (Service * list (@Task ServiceOp Call Answer))%type.
Definition calm (id : text) : Outer :=
  {| ou_now := 7; ou_settings := Ok tt; ou_create := Ok id; ou_spawn := Ok tt; ou_accepts := true |}.
Definition call (c : Call) (w : world) : world := (fst w, snd w ++ [{| tk_call := c; tk_prog := body c |}]).
(** [n] sections of the task at place [i]. *)
Fixpoint sections (n : nat) (id : text) (i : nat) (w : world) : world :=
  match n with O => w | S n => sections n id i (advance exec (calm id) i w) end.
Definition with_log (l : text) : world :=
  (set_logs (<[l := {| lg_open := true; lg_sink := None |}]> ∅) service_new, []).

Lemma reached_call w c : reached w -> reached (call c w).
Proof. intros Hw. eapply rtc_r; [exact Hw|]. destruct w as [s ts]. apply PCall. Qed.
Lemma reached_sections n id i w : reached w -> reached (sections n id i w).
Proof.
  revert w. induction n as [|n IH]; intros w Hw; [done|]. apply IH. unfold reached, pool_steps in *.
  etrans; [exact Hw|]. apply advance_steps.
Qed.
Lemma reached_log l : reached (with_log l).
Proof. apply rtc_once. apply (POutside exec body outside service_new _ []), OLogNew. by apply lookup_empty. Qed.

Definition log : text := txt "log-1".
(** A start, an annotation and a stop, one after the other. *)
Definition started : world := sections 9 (txt "A") 0 (call (CStart log) (with_log log)).
Definition day : world :=
  sections 4 [] 2 (call (CStop log Requested) (sections 3 [] 1 (call (CAnnotate log (txt "here")) started))).

Lemma day_reached : reached day.
Proof. repeat first [apply reached_sections | apply reached_call | apply reached_log]. Qed.

Lemma recordings_end_once_witness :
  reached day /\ answered (CStop log Requested) (AStop (Some (txt "A"))) day /\
  (sv_recs (fst day) !! txt "A" = Some {| rc_runs := true; rc_log := Some log; rc_last := Some Requested; rc_notes := [Annotation_ (txt "here")] |}) /\
  exists r, sv_recs (fst day) !! txt "A" = Some r /\ rc_log r = Some log /\ (log_open (fst day) log = true -> rc_last r = Some Requested).
Proof.
  assert (answered (CStop log Requested) (AStop (Some (txt "A"))) day) as Ha.
  { unfold answered. assert (snd day !! 2%nat = Some {| tk_call := CStop log Requested; tk_prog := Ret (AStop (Some (txt "A"))) |}) as Hl
      by by vm_compute. by eapply list_elem_of_lookup_2. }
  split_and!; [apply day_reached|exact Ha|by vm_compute|].
  destruct (recordings_end_once day day_reached) as (_ & _ & _ & _ & Hs & _). by apply (Hs log Requested (txt "A")).
Defined.

(** The session closes while its recording is attached but not yet in the
    table: the close finds nothing to stop, and the recording stays. *)
Definition missed : world :=
  sections 1 (txt "A") 0 (sections 1 [] 1 (call (CClosed log Disconnect) (sections 8 (txt "A") 0 (call (CStart log) (with_log log))))).

Example close_misses_a_start :
  reached missed /\ snd missed !! 1%nat = Some {| tk_call := CClosed log Disconnect; tk_prog := Ret ADone |} /\
  sink (fst missed) log = Some (txt "A") /\ end_told (fst missed) (txt "A") = None.
Proof.
  split; [repeat first [apply reached_sections | apply reached_call | apply reached_log]|].
  split; [|split]; vm_compute; reflexivity.
Qed.

(** A stop and a start between the two looks of an annotation: it answers with
    the first recording and is written to the second. *)
Definition moved : world :=
  let w := call (CAnnotate log (txt "here")) started in
  let w := sections 2 [] 1 w in
  let w := sections 4 [] 2 (call (CStop log Requested) w) in
  let w := sections 9 (txt "B") 3 (call (CStart log) w) in
  sections 1 [] 1 w.

Example annotation_moves_on :
  reached moved /\ snd moved !! 1%nat = Some {| tk_call := CAnnotate log (txt "here"); tk_prog := Ret (AAnnotate (Ok (txt "A"))) |} /\
  (rc_notes <$> sv_recs (fst moved) !! txt "A") = Some [] /\
  (rc_notes <$> sv_recs (fst moved) !! txt "B") = Some [Annotation_ (txt "here")].
Proof.
  split; [repeat first [apply reached_sections | apply reached_call | apply reached_log]|].
  split; [|split]; vm_compute; reflexivity.
Qed.
End ServiceDemo.
