(* ===== verification/Screen.v ===== *)
(** * The screen of a session ([rdpilot/src/framebuffer.rs], [screenshot.rs],
      [lifecycle.rs], [Session::screenshot])

    The session loop writes the newest picture, observers read it, and whoever
    ends the session marks both the lifecycle and the picture as ended.  The
    picture sits behind a mutex and the sequence number and the ended mark in
    a watch channel, so a write and an end take two critical sections each.
    [Screen] is the shared state; [body] has the sections of each call, and
    any number of calls run side by side ([Tasks.v]).

    A screenshot is cut to a rectangle by stride arithmetic on [usize] (64
    bits).  An overflow there (a panic of a debug build) or a slice that does
    not lie in the buffer is [None]: the theorem is that neither happens.  The
    sequence number is unbounded: a [u64] would take 2^64 pictures. *)
From S2P Require Import Prelude Bytes Errors Registry Prog Tasks.
Open Scope Z_scope.
Local Open Scope rd_scope.

(** ** [screenshot.rs] *)

Definition u32_max : Z := 2 ^ 32 - 1.
Definition usize_max : Z := u64_max.
(** No allocation is larger than [isize::MAX] bytes. *)
Definition isize_max : Z := i64_max.

(** [checked_add] and [checked_mul] of an unsigned type. *)
Definition checked_add (max a b : Z) : option Z := if a + b <=? max then Some (a + b) else None.
Definition checked_mul (max a b : Z) : option Z := if a * b <=? max then Some (a * b) else None.

Definition BYTES_PER_PIXEL : Z := 4.

Record Screenshot := { sc_width : Z; sc_height : Z; sc_rgba : bytes }.
Record Rect := { rt_x : Z; rt_y : Z; rt_w : Z; rt_h : Z }.

#[global] Instance Screenshot_eq_dec : EqDecision Screenshot.
Proof. solve_decision. Defined.

(** [Screenshot::from_rgba] *)
Definition screenshot_from_rgba (width height : Z) (rgba : bytes) : result Error Screenshot :=
  let dims := nat_text width ++ txt "x" ++ nat_text height in
  let? expected :=
    ok_or (ErDecode (txt "image dimensions " ++ dims ++ txt " overflow the buffer size"))
      (and_then (checked_mul usize_max width height) (fun px => checked_mul usize_max px BYTES_PER_PIXEL)) in
  if negb (Z.of_nat (length rgba) =? expected) then
    Err (ErDecode (txt "RGBA buffer length " ++ dec (N.of_nat (length rgba)) ++ txt " does not match " ++ dims
                   ++ txt " (expected " ++ nat_text expected ++ txt ")"))
  else Ok {| sc_width := width; sc_height := height; sc_rgba := rgba |}.

(** [&l[lo..hi]]: [None] is a panic. *)
Definition slice (lo hi : Z) (l : bytes) : option bytes :=
  if (lo <=? hi) && (hi <=? Z.of_nat (length l)) then Some (take (Z.to_nat (hi - lo)) (drop (Z.to_nat lo) l)) else None.

(** Rust's [a + b] and [a * b] on [usize], in the option monad. *)
Notation "'let*' x ':=' m 'in' k" := (and_then m (fun x => k))
  (at level 10, x pattern, m at level 100, k at level 200) : rd_scope.

(** The loop of [crop] over the rows [y .. y + n]. *)
Fixpoint crop_rows (s : Screenshot) (x row_bytes stride y : Z) (n : nat) (out : bytes) : option bytes :=
  match n with
  | O => Some out
  | S n =>
      (let* skipped := checked_mul usize_max y stride in
       let* left_edge := checked_mul usize_max x BYTES_PER_PIXEL in
       let* row_start := checked_add usize_max skipped left_edge in
       let* row_end := checked_add usize_max row_start row_bytes in
       let* row := slice row_start row_end (sc_rgba s) in
       crop_rows s x row_bytes stride (y + 1) n (out ++ row))
  end.

(** The guard of [crop]: the far edges, computed in [u32]. *)
Definition in_bounds (s : Screenshot) (r : Rect) : bool :=
  let right := checked_add u32_max (rt_x r) (rt_w r) in
  let bottom := checked_add u32_max (rt_y r) (rt_h r) in
  (rt_w r >? 0) && (rt_h r >? 0)
  && match right with Some e => e <=? sc_width s | None => false end
  && match bottom with Some e => e <=? sc_height s | None => false end.

(** [Screenshot::crop]; [None] is a panic. *)
Definition crop (s : Screenshot) (r : Rect) : option (result Error Screenshot) :=
  if negb (in_bounds s r) then
    Some (Err (ErCropOutOfBounds (rt_x r) (rt_y r) (rt_w r) (rt_h r) (sc_width s) (sc_height s)))
  else
    (let* row_bytes := checked_mul usize_max (rt_w r) BYTES_PER_PIXEL in
     let* stride := checked_mul usize_max (sc_width s) BYTES_PER_PIXEL in
     let* _ := checked_mul isize_max row_bytes (rt_h r) in
     let* out := crop_rows s (rt_x r) row_bytes stride (rt_y r) (Z.to_nat (rt_h r)) [] in
     Some (Ok {| sc_width := rt_w r; sc_height := rt_h r; sc_rgba := out |})).

(** [Screenshot::to_png], of what the image crate makes of it. *)
Definition to_png (encode : bytes -> Z -> Z -> result text bytes) (s : Screenshot) : result Error bytes :=
  map_err ErEncode (encode (sc_rgba s) (sc_width s) (sc_height s)).

(** ** [framebuffer.rs] *)

Record FrameSnapshot := { sp_width : Z; sp_height : Z; sp_rgba : bytes }.

#[global] Instance FrameSnapshot_eq_dec : EqDecision FrameSnapshot.
Proof. solve_decision. Defined.

Definition FrameSnapshot_default : FrameSnapshot := {| sp_width := 0; sp_height := 0; sp_rgba := [] |}.

(** [FrameSnapshot::is_empty] *)
Definition snapshot_is_empty (f : FrameSnapshot) : bool := match sp_rgba f with [] => true | _ :: _ => false end.

Record FrameStatus := { st_seq : N; st_ended : bool }.
Definition FrameStatus_default : FrameStatus := {| st_seq := 0; st_ended := false |}.

Record Slot := { sl_frame : FrameSnapshot; sl_seq : N }.

(** The first section of [SharedFrame::write]. *)
Definition write_slot (width height : Z) (rgba : bytes) (s : Slot) : Slot * N :=
  let seq := (sl_seq s + 1)%N in
  ({| sl_frame := {| sp_width := width; sp_height := height; sp_rgba := rgba |}; sl_seq := seq |}, seq).

(** The second: the status, and whether observers wake. *)
Definition publish_seq (seq : N) (s : FrameStatus) : FrameStatus * bool :=
  if (st_seq s <? seq)%N then ({| st_seq := seq; st_ended := st_ended s |}, true) else (s, false).

(** [SharedFrame::mark_ended] *)
Definition mark_ended (s : FrameStatus) : FrameStatus * bool :=
  if st_ended s then (s, false) else ({| st_seq := st_seq s; st_ended := true |}, true).

(** What [FrameWatch::changed] waits for. *)
Definition changed_ready (after_seq : N) (s : FrameStatus) : bool := (after_seq <? st_seq s)%N || st_ended s.

(** [FrameWatch::geometry] *)
Definition geometry (s : Slot) : option (Z * Z) :=
  if snapshot_is_empty (sl_frame s) then None else Some (sp_width (sl_frame s), sp_height (sl_frame s)).

(** [SharedFrame::size] *)
Definition frame_size (s : Slot) : Z * Z := (sp_width (sl_frame s), sp_height (sl_frame s)).

(** The locked part of [FrameWatch::capture]. *)
Definition capture_slot (s : Slot) : option (N * FrameSnapshot) :=
  if snapshot_is_empty (sl_frame s) then None else Some (sl_seq s, sl_frame s).

Definition snapshot_shot (f : FrameSnapshot) : result Error Screenshot :=
  screenshot_from_rgba (sp_width f) (sp_height f) (sp_rgba f).

(** The rest of [FrameWatch::capture]. *)
Definition captured (c : option (N * FrameSnapshot)) : option (N * Screenshot) :=
  match c with
  | None => None
  | Some (seq, f) => match snapshot_shot f with Ok shot => Some (seq, shot) | Err _ => None end
  end.

(** [Session::screenshot], of the snapshot it read. *)
Definition session_screenshot (f : FrameSnapshot) : result Error Screenshot :=
  if snapshot_is_empty f then
    Err (ErSession (txt "no framebuffer captured yet (awaiting the first graphics update)"))
  else snapshot_shot f.

(** ** [lifecycle.rs] *)

Record SessionState := { se_lifecycle : Lifecycle; se_desktop_size : Z * Z }.

(** [LifecycleOwner::new] *)
Definition owner_new (size : Z * Z) : SessionState := {| se_lifecycle := LifecycleLive; se_desktop_size := size |}.

(** The first section of [LifecycleOwner::end]; the second is [mark_ended]. *)
Definition owner_end (cause : EndCause) (s : SessionState) : SessionState * bool :=
  match se_lifecycle s with
  | LifecycleLive => ({| se_lifecycle := LifecycleEnded cause; se_desktop_size := se_desktop_size s |}, true)
  | LifecycleEnded _ => (s, false)
  end.

(** [LifecycleOwner::set_desktop_size] *)
Definition owner_set_desktop_size (size : Z * Z) (s : SessionState) : SessionState * bool :=
  if decide (se_desktop_size s = size) then (s, false)
  else ({| se_lifecycle := se_lifecycle s; se_desktop_size := size |}, true).

(** ** Calls side by side *)

(** The shared state, with what the theorems speak of: every picture written
    so far and every cause a call has tried to end the session with. *)
Record Screen := {
  sn_slot : Slot; sn_status : FrameStatus; sn_state : SessionState;
  sn_written : list FrameSnapshot; sn_causes : list EndCause }.

(** [SharedFrame::new] and [LifecycleOwner::new] *)
Definition screen_new (size : Z * Z) : Screen :=
  {| sn_slot := {| sl_frame := FrameSnapshot_default; sl_seq := 0 |}; sn_status := FrameStatus_default;
     sn_state := owner_new size; sn_written := []; sn_causes := [] |}.

(** The critical sections. *)
Inductive ScreenOp : Type -> Type :=
| WriteSlot (width height : Z) (rgba : bytes) : ScreenOp N
| PublishSeq (seq : N) : ScreenOp bool
| EndLifecycle (cause : EndCause) : ScreenOp bool
| MarkEnded : ScreenOp bool
| SetDesktopSize (size : Z * Z) : ScreenOp bool
| ReadSlot : ScreenOp Slot
| ReadStatus : ScreenOp FrameStatus
| ReadState : ScreenOp SessionState.

Definition exec (_ : unit) (B : Type) (e : ScreenOp B) (s : Screen) : Screen * B :=
  match e with
  | WriteSlot w h rgba =>
      let '(slot, seq) := write_slot w h rgba (sn_slot s) in
      ({| sn_slot := slot; sn_status := sn_status s; sn_state := sn_state s;
          sn_written := sn_written s ++ [sl_frame slot]; sn_causes := sn_causes s |}, seq)
  | PublishSeq seq =>
      let '(status, woke) := publish_seq seq (sn_status s) in
      ({| sn_slot := sn_slot s; sn_status := status; sn_state := sn_state s;
          sn_written := sn_written s; sn_causes := sn_causes s |}, woke)
  | EndLifecycle cause =>
      let '(state, woke) := owner_end cause (sn_state s) in
      ({| sn_slot := sn_slot s; sn_status := sn_status s; sn_state := state;
          sn_written := sn_written s; sn_causes := sn_causes s ++ [cause] |}, woke)
  | MarkEnded =>
      let '(status, woke) := mark_ended (sn_status s) in
      ({| sn_slot := sn_slot s; sn_status := status; sn_state := sn_state s;
          sn_written := sn_written s; sn_causes := sn_causes s |}, woke)
  | SetDesktopSize size =>
      let '(state, woke) := owner_set_desktop_size size (sn_state s) in
      ({| sn_slot := sn_slot s; sn_status := sn_status s; sn_state := state;
          sn_written := sn_written s; sn_causes := sn_causes s |}, woke)
  | ReadSlot => (s, sn_slot s)
  | ReadStatus => (s, sn_status s)
  | ReadState => (s, sn_state s)
  end.

Inductive Call :=
| CWrite (width height : Z) (rgba : bytes)
| CEnd (cause : EndCause)
| CSetDesktopSize (size : Z * Z)
| CRead
| CSize
| CDesktopSize
| CStatus
| CChanged (after_seq : N)   (** one poll *)
| CGeometry
| CCapture
| CScreenshot.

Inductive Answer :=
| ADone
| ASnapshot (f : FrameSnapshot)
| ASize (size : Z * Z)
| AStatus (s : FrameStatus)
| AChanged (s : option FrameStatus)   (** [None]: it still waits *)
| AGeometry (g : option (Z * Z))
| ACapture (c : option (N * Screenshot))
| AScreenshot (r : result Error Screenshot).

Local Open Scope prog_scope.

Definition body (c : Call) : prog ScreenOp Answer :=
  match c with
  | CWrite w h rgba => let! seq := act (WriteSlot w h rgba) in do! act (PublishSeq seq) in Ret ADone
  | CEnd cause => do! act (EndLifecycle cause) in do! act MarkEnded in Ret ADone
  | CSetDesktopSize size => do! act (SetDesktopSize size) in Ret ADone
  | CRead => let! slot := act ReadSlot in Ret (ASnapshot (sl_frame slot))
  | CSize => let! slot := act ReadSlot in Ret (ASize (frame_size slot))
  | CDesktopSize => let! state := act ReadState in Ret (ASize (se_desktop_size state))
  | CStatus => let! s := act ReadStatus in Ret (AStatus s)
  | CChanged after => let! s := act ReadStatus in Ret (AChanged (if changed_ready after s then Some s else None))
  | CGeometry => let! slot := act ReadSlot in Ret (AGeometry (geometry slot))
  | CCapture => let! slot := act ReadSlot in Ret (ACapture (captured (capture_slot slot)))
  | CScreenshot => let! slot := act ReadSlot in Ret (AScreenshot (session_screenshot (sl_frame slot)))
  end.

(** Nothing else changes the state. *)
Definition outside (s s' : Screen) : Prop := False.

Definition reached (size : Z * Z) (w : Screen * list (@Task ScreenOp Call Answer)) : Prop :=
  pool_steps exec body outside (screen_new size, []) w.

(** ** Pixels *)

(** The bytes are exactly those of the pixels, and fit in memory. *)
Record screenshot_ok (s : Screenshot) : Prop := {
  so_width : 0 <= sc_width s <= u32_max;
  so_height : 0 <= sc_height s <= u32_max;
  so_length : Z.of_nat (length (sc_rgba s)) = sc_width s * sc_height s * BYTES_PER_PIXEL;
  so_memory : Z.of_nat (length (sc_rgba s)) <= isize_max }.

(** Byte [c] of the pixel in column [i] of row [j]. *)
Definition pixel_byte (s : Screenshot) (i j c : Z) : option N :=
  sc_rgba s !! Z.to_nat ((j * sc_width s + i) * BYTES_PER_PIXEL + c).

(** The rectangle has an area and lies in the picture. *)
Definition inside (s : Screenshot) (r : Rect) : Prop :=
  0 < rt_w r /\ 0 < rt_h r /\ rt_x r + rt_w r <= sc_width s /\ rt_y r + rt_h r <= sc_height s.

Record rect_u32 (r : Rect) : Prop := {
  ru_x : 0 <= rt_x r; ru_y : 0 <= rt_y r; ru_w : 0 <= rt_w r; ru_h : 0 <= rt_h r }.

Lemma in_bounds_spec s r :
  screenshot_ok s -> in_bounds s r = true <-> inside s r.
Proof.
  intros [Hw Hh _ _]. unfold in_bounds, inside, checked_add. rewrite !andb_true_iff, !Z.gtb_lt.
  destruct (Z.leb_spec (rt_x r + rt_w r) u32_max), (Z.leb_spec (rt_y r + rt_h r) u32_max); rewrite ?Z.leb_le; intuition (congruence || lia).
Qed.

Lemma checked_add_some max a b : a + b <= max -> checked_add max a b = Some (a + b).
Proof. intros H. unfold checked_add. by rewrite (proj2 (Z.leb_le _ _) H). Qed.
Lemma checked_mul_some max a b : a * b <= max -> checked_mul max a b = Some (a * b).
Proof. intros H. unfold checked_mul. by rewrite (proj2 (Z.leb_le _ _) H). Qed.

(** The rows that the loop joins. *)
Definition row_of (s : Screenshot) (x w y : Z) : bytes :=
  take (Z.to_nat (w * BYTES_PER_PIXEL)) (drop (Z.to_nat ((y * sc_width s + x) * BYTES_PER_PIXEL)) (sc_rgba s)).

(** A row of the rectangle lies in the buffer. *)
Lemma row_fits s x w y :
  screenshot_ok s -> 0 <= x -> 0 <= w -> x + w <= sc_width s -> 0 <= y < sc_height s ->
  (y * sc_width s + x) * 4 + w * 4 <= Z.of_nat (length (sc_rgba s)).
Proof. intros [Hw Hh Hl Hm] Hx Hw0 Hr Hy. rewrite Hl. unfold BYTES_PER_PIXEL. nia. Qed.

Lemma row_slice s x w y :
  screenshot_ok s -> 0 <= x -> 0 <= w -> x + w <= sc_width s -> 0 <= y < sc_height s ->
  slice ((y * sc_width s + x) * 4) ((y * sc_width s + x) * 4 + w * 4) (sc_rgba s) = Some (row_of s x w y).
Proof.
  intros Hs Hx Hw0 Hr Hy. pose proof (row_fits s x w y Hs Hx Hw0 Hr Hy). unfold slice.
  rewrite (proj2 (Z.leb_le _ _)), (proj2 (Z.leb_le _ _)) by lia. cbn [andb]. unfold row_of, BYTES_PER_PIXEL. by rewrite Z.add_simpl_l.
Qed.

Lemma row_length s x w y :
  screenshot_ok s -> 0 <= x -> 0 <= w -> x + w <= sc_width s -> 0 <= y < sc_height s ->
  length (row_of s x w y) = Z.to_nat (w * BYTES_PER_PIXEL).
Proof.
  intros Hs Hx Hw0 Hr Hy. pose proof (row_fits s x w y Hs Hx Hw0 Hr Hy). destruct Hs as [Hw Hh Hl Hm].
  unfold row_of. rewrite length_take, length_drop. unfold BYTES_PER_PIXEL. nia.
Qed.

Lemma crop_rows_spec s x w n : forall y out,
  screenshot_ok s -> 0 <= x -> 0 <= w -> x + w <= sc_width s -> 0 <= y -> y + Z.of_nat n <= sc_height s ->
  crop_rows s x (w * BYTES_PER_PIXEL) (sc_width s * BYTES_PER_PIXEL) y n out
  = Some (out ++ concat (map (fun k => row_of s x w (y + Z.of_nat k)) (seq 0 n))).
Proof.
  induction n as [|n IH]; intros y out Hs Hx Hw0 Hr Hy Hn; [cbn; by rewrite app_nil_r|].
  pose proof (row_fits s x w y Hs Hx Hw0 Hr) as Hf. pose proof (row_slice s x w y Hs Hx Hw0 Hr) as Hsl.
  assert (sc_rgba s = sc_rgba s) as _ by done. destruct Hs as [Hw Hh Hl Hm] eqn:Hs'. clear Hs'.
  assert (Z.of_nat (length (sc_rgba s)) <= usize_max) by (unfold usize_max, u64_max, isize_max, i64_max in *; lia).
  cbn [crop_rows]. unfold BYTES_PER_PIXEL in *.
  rewrite !checked_mul_some by nia. cbn [and_then].
  rewrite (checked_add_some _ (y * (sc_width s * 4))) by nia. cbn [and_then].
  rewrite checked_add_some by nia. cbn [and_then].
  replace (y * (sc_width s * 4) + x * 4) with ((y * sc_width s + x) * 4) by lia. rewrite Hsl by lia. cbn [and_then].
  rewrite IH by (done || lia). f_equal. rewrite <- app_assoc. f_equal. cbn [seq map concat].
  f_equal; [by rewrite Z.add_0_r|]. rewrite <- seq_shift, map_map. f_equal. apply map_ext. intros k. f_equal. lia.
Qed.

(** Rows of one length, one after the other. *)
Lemma rows_lookup {A} (f : nat -> list A) m n : forall start j c,
  (forall k, (start <= k < start + n)%nat -> length (f k) = m) -> (j < n)%nat -> (c < m)%nat ->
  concat (map f (seq start n)) !! (j * m + c)%nat = f (start + j)%nat !! c.
Proof.
  induction n as [|n IH]; intros start j c Hf Hj Hc; [lia|]. cbn [seq map concat]. destruct j as [|j].
  - rewrite lookup_app_l by (rewrite Hf; lia). by rewrite Nat.add_0_r.
  - rewrite lookup_app_r by (rewrite Hf; lia). rewrite Hf by lia. replace (S j * m + c - m)%nat with (j * m + c)%nat by lia.
    rewrite IH by (done || (intros k Hk; apply Hf; lia) || lia). f_equal. f_equal. lia.
Qed.

Lemma rows_length {A} (f : nat -> list A) m n : forall start,
  (forall k, (start <= k < start + n)%nat -> length (f k) = m) -> length (concat (map f (seq start n))) = (n * m)%nat.
Proof.
  induction n as [|n IH]; intros start Hf; [done|]. cbn [seq map concat]. rewrite length_app, IH, Hf by (lia || (intros; apply Hf; lia)). lia.
Qed.

(** What an accepted buffer is. *)
Lemma from_rgba_spec w h rgba s :
  0 <= w <= u32_max -> 0 <= h <= u32_max -> Z.of_nat (length rgba) <= isize_max ->
  screenshot_from_rgba w h rgba = Ok s <->
  s = {| sc_width := w; sc_height := h; sc_rgba := rgba |} /\ Z.of_nat (length rgba) = w * h * BYTES_PER_PIXEL.
Proof.
  intros Hw Hh Hm. unfold screenshot_from_rgba, and_then, checked_mul, BYTES_PER_PIXEL.
  assert (isize_max < usize_max) by (unfold usize_max, u64_max, isize_max, i64_max; lia).
  destruct (Z.leb_spec (w * h) usize_max); cbn [ok_or rbind]; [|split; [done|intros [_ E]; lia]].
  destruct (Z.leb_spec (w * h * 4) usize_max); cbn [ok_or rbind]; [|split; [done|intros [_ E]; lia]].
  destruct (Z.eqb_spec (Z.of_nat (length rgba)) (w * h * 4)) as [E|E]; cbn [negb]; [|split; [done|by intros [_ ?]]].
  split; [|by intros [-> _]]. intros [= <-]. done.
Qed.

(** ** Properties *)

(** Cutting a picture to a rectangle never panics, whatever the rectangle.  It is refused exactly when the
    rectangle has no area or does not lie in the picture; otherwise the result is a whole picture of the
    rectangle's size, and each of its bytes is the one of the same channel of the same point of the screen. *)
Theorem crop_takes_the_rectangle (s : Screenshot) (r : Rect) :
  screenshot_ok s -> rect_u32 r ->
  exists res, crop s r = Some res /\
  match res with
  | Err e => ~ inside s r
             /\ e = ErCropOutOfBounds (rt_x r) (rt_y r) (rt_w r) (rt_h r) (sc_width s) (sc_height s)
  | Ok s' =>
      inside s r /\ sc_width s' = rt_w r /\ sc_height s' = rt_h r /\ screenshot_ok s' /\
      forall i j c, 0 <= i < rt_w r -> 0 <= j < rt_h r -> 0 <= c < BYTES_PER_PIXEL ->
        is_Some (pixel_byte s' i j c) /\ pixel_byte s' i j c = pixel_byte s (rt_x r + i) (rt_y r + j) c
  end.
Proof.
  intros Hs Hr. pose proof (in_bounds_spec s r Hs) as Hin. unfold crop. destruct (in_bounds s r); cbn [negb].
  2: { eexists. split; [done|]. split; [|done]. intros Hi. by apply Hin in Hi. }
  assert (inside s r) as Hi by by apply Hin. destruct Hi as (Hw0 & Hh0 & Hright & Hbottom). destruct Hr as [Hx Hy _ _].
  pose proof Hs as [Hw Hh Hl Hm]. set (n := Z.to_nat (rt_h r)).
  set (f := fun k : nat => row_of s (rt_x r) (rt_w r) (rt_y r + Z.of_nat k)).
  assert (Hf : forall k, (0 <= k < 0 + n)%nat -> length (f k) = Z.to_nat (rt_w r * BYTES_PER_PIXEL)).
  { intros k Hk. apply row_length; (done || lia). }
  assert (Hlen : Z.of_nat (length (concat (map f (seq 0 n)))) = rt_w r * rt_h r * BYTES_PER_PIXEL).
  { rewrite (rows_length f (Z.to_nat (rt_w r * BYTES_PER_PIXEL)) n 0 Hf). unfold n, BYTES_PER_PIXEL in *. nia. }
  assert (Hsmall : rt_w r * rt_h r * BYTES_PER_PIXEL <= Z.of_nat (length (sc_rgba s))).
  { rewrite Hl. unfold BYTES_PER_PIXEL. nia. }
  rewrite !checked_mul_some by (unfold BYTES_PER_PIXEL, usize_max, u64_max, u32_max in *; lia). cbn [and_then].
  rewrite checked_mul_some by (unfold BYTES_PER_PIXEL in *; lia). cbn [and_then].
  rewrite crop_rows_spec by (done || lia). cbn [and_then app]. eexists. split; [done|]. cbn.
  split_and!; [by split_and!|done|done| |].
  { split; cbn; fold f; [unfold u32_max in *; lia..|done|lia]. }
  intros i j c Hi Hj Hc. unfold pixel_byte. cbn [sc_rgba sc_width]. fold f.
  replace (Z.to_nat ((j * rt_w r + i) * BYTES_PER_PIXEL + c))
    with (Z.to_nat j * Z.to_nat (rt_w r * BYTES_PER_PIXEL) + Z.to_nat (i * BYTES_PER_PIXEL + c))%nat
    by (unfold BYTES_PER_PIXEL in *; nia).
  assert (Hc' : (Z.to_nat (i * BYTES_PER_PIXEL + c) < Z.to_nat (rt_w r * BYTES_PER_PIXEL))%nat) by (unfold BYTES_PER_PIXEL in *; nia).
  rewrite (rows_lookup f _ n 0 (Z.to_nat j) _ Hf) by (unfold n; lia || done). cbn [Nat.add]. split.
  { apply lookup_lt_is_Some. rewrite Hf by (unfold n; lia). done. }
  unfold f, row_of. rewrite Z2Nat.id by lia. rewrite lookup_take_lt by done. rewrite lookup_drop. f_equal.
  unfold BYTES_PER_PIXEL in *. nia.
Qed.

(** A picture of three by two points, each byte its own place. *)
Definition demo_shot : Screenshot := {| sc_width := 3; sc_height := 2; sc_rgba := map N.of_nat (seq 0 24) |}.
Definition demo_rect : Rect := {| rt_x := 1; rt_y := 1; rt_w := 2; rt_h := 1 |}.

Lemma crop_takes_the_rectangle_witness :
  screenshot_ok demo_shot /\ rect_u32 demo_rect /\
  crop demo_shot demo_rect
  = Some (Ok {| sc_width := 2; sc_height := 1; sc_rgba := [16; 17; 18; 19; 20; 21; 22; 23]%N |}) /\
  exists res, crop demo_shot demo_rect = Some res /\ (is_ok res = true <-> inside demo_shot demo_rect).
Proof.
  assert (screenshot_ok demo_shot) as Hs by (split; vm_compute; by split || done).
  assert (rect_u32 demo_rect) as Hr by (split; vm_compute; done).
  split_and!; [done|done|by vm_compute|].
  destruct (crop_takes_the_rectangle demo_shot demo_rect Hs Hr) as ([s'|e] & E & H).
  - exists (Ok s'). split; [exact E|]. destruct H as [H _]. split; [intros _; exact H|intros _; reflexivity].
  - exists (Err e). split; [exact E|]. destruct H as [H _]. split; [discriminate|intros Hi; destruct (H Hi)].
Defined.

(** ** What the calls owe and have seen *)

(** A picture written and not yet published; an end not yet marked; a slot and
    a status as they were read. *)
Inductive Tok := TPublish (seq : N) | TMark | TSlot (slot : Slot) | TStatus (st : FrameStatus).

Definition owed (t : Tok) : bool := match t with TPublish _ | TMark => true | TSlot _ | TStatus _ => false end.

(** The slot after the pictures [l]. *)
Definition slot_after (l : list FrameSnapshot) : Slot :=
  {| sl_frame := default FrameSnapshot_default (last l); sl_seq := N.of_nat (length l) |}.

(** The lifecycle after the ends [l]. *)
Definition lifecycle_after (l : list EndCause) : Lifecycle :=
  match l with [] => LifecycleLive | c :: _ => LifecycleEnded c end.

Record screen_inv (s : Screen) (T : list Tok) : Prop := {
  ci_slot : sn_slot s = slot_after (sn_written s);
  ci_seq : (st_seq (sn_status s) <= sl_seq (sn_slot s))%N;
  ci_publish : (st_seq (sn_status s) < sl_seq (sn_slot s))%N -> TPublish (sl_seq (sn_slot s)) ∈ T;
  ci_pending : forall q, TPublish q ∈ T -> (q <= sl_seq (sn_slot s))%N;
  ci_lifecycle : se_lifecycle (sn_state s) = lifecycle_after (sn_causes s);
  ci_ended : st_ended (sn_status s) = true -> sn_causes s <> [];
  ci_mark : sn_causes s <> [] -> st_ended (sn_status s) = false -> TMark ∈ T;
  ci_marked : TMark ∈ T -> sn_causes s <> [];
  ci_read : forall sl, TSlot sl ∈ T -> exists l, l `prefix_of` sn_written s /\ sl = slot_after l;
  ci_told : forall st, TStatus st ∈ T ->
    (st_seq st <= st_seq (sn_status s))%N /\ (st_ended st = true -> st_ended (sn_status s) = true) }.

#[export] Instance screen_owned : Owned outside screen_inv.
Proof.
  split; [|by intros ? ? ? []]. intros s T T' HP []. split; try done.
  - intros H. rewrite <- HP. auto.
  - intros q. rewrite <- HP. auto.
  - intros H. rewrite <- HP. auto.
  - rewrite <- HP. auto.
  - intros sl. rewrite <- HP. auto.
  - intros st. rewrite <- HP. auto.
Qed.

Lemma screen_inv_new size : screen_inv (screen_new size) [].
Proof. split; cbn; try done; try lia; set_solver. Qed.

(** The status only moves on. *)
Record screen_le (s s' : Screen) : Prop := {
  le_written : sn_written s `prefix_of` sn_written s';
  le_causes : sn_causes s `prefix_of` sn_causes s';
  le_seq : (st_seq (sn_status s) <= st_seq (sn_status s'))%N;
  le_ended : st_ended (sn_status s) = true -> st_ended (sn_status s') = true }.

#[export] Instance screen_le_preorder : PreOrder screen_le.
Proof.
  split; [by split|]. intros a b c [] []. split; [by etrans|by etrans|lia|auto].
Qed.

Lemma exec_le B (e : ScreenOp B) s : screen_le s (fst (exec tt B e s)).
Proof.
  destruct e; cbn; try done; try unfold publish_seq, mark_ended, owner_end, owner_set_desktop_size; case_all; bools; split; cbn;
    first [done | lia | by apply prefix_app_r].
Qed.

Lemma steps_le w w' : pool_steps exec body outside w w' -> screen_le (fst w) (fst w').
Proof.
  induction 1 as [|w1 w2 w3 H1 _ IH]; [done|]. etrans; [|exact IH].
  destruct H1 as [[] B e k c s ts ts'|c s ts|s s' ts []]; cbn; [apply exec_le|done].
Qed.

Abbreviation wps := (wp exec screen_inv).

(** A prefix of what was written stays one. *)
Lemma slot_read s T sl :
  screen_inv s T -> TSlot sl ∈ TSlot (sn_slot s) :: T -> exists l, l `prefix_of` sn_written s /\ sl = slot_after l.
Proof. intros Hi [[= ->]|H]%elem_of_cons; [|by apply Hi]. exists (sn_written s). split; [done|apply Hi]. Qed.

Lemma inv_write s T w h rgba :
  screen_inv s T -> screen_inv (fst (exec tt _ (WriteSlot w h rgba) s)) (TPublish (snd (exec tt _ (WriteSlot w h rgba) s)) :: T).
Proof.
  intros []. split; cbn [exec write_slot fst snd sn_slot sn_status sn_state sn_written sn_causes sl_seq sl_frame].
  - unfold slot_after. rewrite last_snoc, length_app, ci_slot0. cbn. f_equal. lia.
  - lia.
  - intros _. by left.
  - intros q [[= ->]|H%ci_pending0]%elem_of_cons; lia.
  - done.
  - done.
  - intros H1 H2. right. auto.
  - intros [?|H]%elem_of_cons; [done|auto].
  - intros sl [?|(l & Hl & ->)%ci_read0]%elem_of_cons; [done|]. exists l. split; [|done]. by apply prefix_app_r.
  - intros st [?|H]%elem_of_cons; [done|auto].
Qed.

Lemma inv_publish s T q :
  screen_inv s (TPublish q :: T) -> screen_inv (fst (exec tt _ (PublishSeq q) s)) T.
Proof.
  intros []. assert (q <= sl_seq (sn_slot s))%N as Hq by (apply ci_pending0; by left).
  assert (Hrest : forall t, t ∈ T -> t ∈ TPublish q :: T) by (intros; by right).
  cbn. unfold publish_seq. destruct (N.ltb_spec (st_seq (sn_status s)) q) as [Hlt|Hge];
    split; cbn [fst snd sn_slot sn_status sn_state sn_written sn_causes st_seq st_ended]; auto; try lia.
  - intros H. assert (TPublish (sl_seq (sn_slot s)) ∈ TPublish q :: T) as [[= Heq]|?]%elem_of_cons by (apply ci_publish0; lia); [lia|done].
  - intros H1 H2. specialize (ci_mark0 H1 H2). by apply elem_of_cons in ci_mark0 as [?|?].
  - intros st H%Hrest%ci_told0. destruct H. split; [lia|done].
  - intros H. pose proof (ci_publish0 H) as [[= Heq]|?]%elem_of_cons; [lia|done].
  - intros H1 H2. specialize (ci_mark0 H1 H2). by apply elem_of_cons in ci_mark0 as [?|?].
Qed.

Lemma inv_end s T cause :
  screen_inv s T -> screen_inv (fst (exec tt _ (EndLifecycle cause) s)) (TMark :: T).
Proof.
  intros []. cbn. unfold owner_end. rewrite ci_lifecycle0.
  destruct (sn_causes s) as [|c cs] eqn:Hc; cbn; split; cbn [fst snd sn_slot sn_status sn_state sn_written sn_causes se_lifecycle app]; auto; try done.
  all: try (intros; by left).
  all: try (intros ? [?|?]%elem_of_cons; [done|auto]).
  all: intros H; right; auto.
Qed.

Lemma inv_mark s T : screen_inv s (TMark :: T) -> screen_inv (fst (exec tt _ MarkEnded s)) T.
Proof.
  intros []. assert (sn_causes s <> []) as Hc by (apply ci_marked0; by left).
  assert (Hrest : forall t, t ∈ T -> t ∈ TMark :: T) by (intros; by right).
  cbn. unfold mark_ended. destruct (st_ended (sn_status s)) eqn:He;
    split; cbn [fst snd sn_slot sn_status sn_state sn_written sn_causes st_seq st_ended]; auto; try congruence.
  1,3: intros H%ci_publish0; by apply elem_of_cons in H as [?|?].
  all: intros st H%Hrest%ci_told0; destruct H; split; [lia|]; auto; congruence.
Qed.

Lemma inv_read s T : screen_inv s T -> screen_inv s (TSlot (sn_slot s) :: T).
Proof.
  intros Hi. pose proof (fun sl => slot_read s T sl Hi) as Hr. destruct Hi. split; auto.
  all: try (intros; right; by auto).
  all: try (intros ? [?|?]%elem_of_cons; [done|auto]).
  intros [?|?]%elem_of_cons; [done|auto].
Qed.

Lemma inv_status s T : screen_inv s T -> screen_inv s (TStatus (sn_status s) :: T).
Proof.
  intros []. split; auto.
  all: try (intros; right; by auto).
  all: try (intros ? [?|?]%elem_of_cons; [done|auto]).
  - intros [?|?]%elem_of_cons; [done|auto].
  - intros st [[= ->]|?]%elem_of_cons; [done|auto].
Qed.

(** A change of the desktop size. *)
Lemma inv_resize s T size : screen_inv s T -> screen_inv (fst (exec tt _ (SetDesktopSize size) s)) T.
Proof. intros []. cbn. unfold owner_set_desktop_size. case_decide; by split. Qed.

(** What each call answers, of what it read. *)
Definition call_post (c : Call) (a : Answer) (own : list Tok) : Prop :=
  match c with
  | CWrite _ _ _ | CEnd _ | CSetDesktopSize _ => a = ADone /\ own = []
  | CDesktopSize => (exists size, a = ASize size) /\ own = []
  | CRead => exists sl, own = [TSlot sl] /\ a = ASnapshot (sl_frame sl)
  | CSize => exists sl, own = [TSlot sl] /\ a = ASize (frame_size sl)
  | CGeometry => exists sl, own = [TSlot sl] /\ a = AGeometry (geometry sl)
  | CCapture => exists sl, own = [TSlot sl] /\ a = ACapture (captured (capture_slot sl))
  | CScreenshot => exists sl, own = [TSlot sl] /\ a = AScreenshot (session_screenshot (sl_frame sl))
  | CStatus => exists st, own = [TStatus st] /\ a = AStatus st
  | CChanged after => exists st, own = [TStatus st] /\ a = AChanged (if changed_ready after st then Some st else None)
  end.

Lemma wp_screen_body c : wps (body c) [] (call_post c).
Proof.
  destruct c; cbn [body pbind act wp].
  - intros [] s rest Hi. exists [TPublish (snd (exec tt _ (WriteSlot width height rgba) s))]. split; [by apply inv_write|].
    clear Hi. intros [] s' rest' Hi. exists []. split; [by apply inv_publish|done].
  - intros [] s rest Hi. exists [TMark]. split; [by apply inv_end|]. clear Hi. intros [] s' rest' Hi.
    exists []. split; [by apply inv_mark|done].
  - intros [] s rest Hi. exists []. split; [by apply inv_resize|done].
  - intros [] s rest Hi. exists [TSlot (sn_slot s)]. split; [by apply inv_read|]. by exists (sn_slot s).
  - intros [] s rest Hi. exists [TSlot (sn_slot s)]. split; [by apply inv_read|]. by exists (sn_slot s).
  - intros [] s rest Hi. exists []. split; [done|]. split; [by eexists|done].
  - intros [] s rest Hi. exists [TStatus (sn_status s)]. split; [by apply inv_status|]. by exists (sn_status s).
  - intros [] s rest Hi. exists [TStatus (sn_status s)]. split; [by apply inv_status|]. by exists (sn_status s).
  - intros [] s rest Hi. exists [TSlot (sn_slot s)]. split; [by apply inv_read|]. by exists (sn_slot s).
  - intros [] s rest Hi. exists [TSlot (sn_slot s)]. split; [by apply inv_read|]. by exists (sn_slot s).
  - intros [] s rest Hi. exists [TSlot (sn_slot s)]. split; [by apply inv_read|]. by exists (sn_slot s).
Qed.

(** A finished call owes nothing. *)
Lemma call_post_owed c a own t : call_post c a own -> t ∈ own -> owed t = false.
Proof.
  destruct c; cbn; [intros [_ ->]|intros [_ ->]|intros [_ ->]|intros (? & -> & _)|intros (? & -> & _)|intros [_ ->]
    |intros (? & -> & _)..]; try (intros Ht; by apply elem_of_nil in Ht); intros Ht; by apply list_elem_of_singleton in Ht as ->.
Qed.

Lemma screen_reached_inv size w : reached size w -> pool_inv exec screen_inv call_post w.
Proof.
  intros Hw. eapply (pool_inv_steps exec body outside screen_inv call_post); [apply wp_screen_body| |exact Hw].
  exists []. split; [apply screen_inv_new|constructor].
Qed.

(** [shot] is the picture of write number [seq], whole. *)
Definition of_write (s : Screen) (seq : N) (shot : Screenshot) : Prop :=
  (0 < seq)%N /\
  sn_written s !! (N.to_nat seq - 1)%nat
  = Some {| sp_width := sc_width shot; sp_height := sc_height shot; sp_rgba := sc_rgba shot |} /\
  sc_rgba shot <> [] /\ Z.of_nat (length (sc_rgba shot)) = sc_width shot * sc_height shot * BYTES_PER_PIXEL.

(** A status tells of pictures that are there, and of an end that has happened. *)
Definition told (s : Screen) (st : FrameStatus) : Prop :=
  (st_seq st <= sl_seq (sn_slot s))%N /\ (st_ended st = true -> exists c, se_lifecycle (sn_state s) = LifecycleEnded c).

Definition answer_ok (s : Screen) (c : Call) (a : Answer) : Prop :=
  match c, a with
  | CRead, ASnapshot f => f = FrameSnapshot_default \/ f ∈ sn_written s
  | CSize, ASize size => size = (0, 0) \/ exists f, f ∈ sn_written s /\ size = (sp_width f, sp_height f)
  | CGeometry, AGeometry (Some g) => exists f, f ∈ sn_written s /\ sp_rgba f <> [] /\ g = (sp_width f, sp_height f)
  | CCapture, ACapture (Some (seq, shot)) => of_write s seq shot
  | CScreenshot, AScreenshot (Ok shot) => exists seq, of_write s seq shot
  | CStatus, AStatus st => told s st
  | CChanged after, AChanged (Some st) => told s st /\ ((after < st_seq st)%N \/ st_ended st = true)
  | CGeometry, AGeometry None | CCapture, ACapture None | CScreenshot, AScreenshot (Err _)
  | CChanged _, AChanged None | CDesktopSize, ASize _
  | CWrite _ _ _, ADone | CEnd _, ADone | CSetDesktopSize _, ADone => True
  | _, _ => False
  end.

Lemma from_rgba_length w h rgba s :
  screenshot_from_rgba w h rgba = Ok s ->
  s = {| sc_width := w; sc_height := h; sc_rgba := rgba |} /\ Z.of_nat (length rgba) = w * h * BYTES_PER_PIXEL.
Proof.
  unfold screenshot_from_rgba, and_then, checked_mul, BYTES_PER_PIXEL.
  destruct (w * h <=? usize_max); cbn [ok_or rbind]; [|done]. destruct (w * h * 4 <=? usize_max); cbn [ok_or rbind]; [|done].
  destruct (Z.eqb_spec (Z.of_nat (length rgba)) (w * h * 4)); cbn [negb]; [|done]. by intros [= <-].
Qed.

(** The slot after a prefix of the writes is empty or one of them. *)
Lemma slot_after_frame l s :
  l `prefix_of` sn_written s -> sl_frame (slot_after l) = FrameSnapshot_default \/
  ((0 < sl_seq (slot_after l))%N /\ sn_written s !! (N.to_nat (sl_seq (slot_after l)) - 1)%nat = Some (sl_frame (slot_after l))).
Proof.
  intros Hp. destruct l as [|f l _] using rev_ind; [by left|]. right. unfold slot_after. rewrite last_snoc, length_app.
  cbn [sl_seq sl_frame default length]. split; [lia|]. eapply prefix_lookup_Some; [|exact Hp].
  rewrite lookup_app_r by lia. by replace (_ - _)%nat with 0%nat by lia.
Qed.

Lemma snapshot_nonempty f : snapshot_is_empty f = false -> sp_rgba f <> [].
Proof. unfold snapshot_is_empty. by destruct (sp_rgba f). Qed.

(** A picture made from a non-empty slot. *)
Lemma slot_of_write l s shot :
  l `prefix_of` sn_written s -> snapshot_is_empty (sl_frame (slot_after l)) = false ->
  snapshot_shot (sl_frame (slot_after l)) = Ok shot -> of_write s (sl_seq (slot_after l)) shot.
Proof.
  intros Hp He [-> Hl]%from_rgba_length. destruct (slot_after_frame l s Hp) as [H|[H1 H2]]; [by rewrite H in He|].
  split; [done|]. cbn [sc_width sc_height sc_rgba]. split; [|split; [by apply snapshot_nonempty|done]]. rewrite H2. by destruct (sl_frame _).
Qed.

Lemma answers_ok size w c a : reached size w -> answered c a w -> answer_ok (fst w) c a.
Proof.
  intros Hw Ha. destruct (pool_inv_answer exec outside screen_inv call_post w c a (screen_reached_inv size w Hw) Ha) as (own & rest & Hp & Hi).
  assert (Hread : forall sl, own = [TSlot sl] -> exists l, l `prefix_of` sn_written (fst w) /\ sl = slot_after l).
  { intros sl ->. apply (ci_read _ _ Hi). by left. }
  assert (Htold : forall st, own = [TStatus st] -> told (fst w) st).
  { intros st ->. destruct (ci_told _ _ Hi st) as [H1 H2]; [by left|]. split; [pose proof (ci_seq _ _ Hi); lia|].
    intros He%H2%(ci_ended _ _ Hi). rewrite (ci_lifecycle _ _ Hi). destruct (sn_causes (fst w)) as [|x ?]; [done|by exists x]. }
  destruct c; cbn in Hp.
  1,2,3: by destruct Hp as [-> _].
  - destruct Hp as (sl & Ho & ->). destruct (Hread _ Ho) as (l & Hl & ->). cbn [answer_ok].
    destruct (slot_after_frame l (fst w) Hl) as [->|[_ H]]; [by left|]. right. by eapply list_elem_of_lookup_2.
  - destruct Hp as (sl & Ho & ->). destruct (Hread _ Ho) as (l & Hl & ->). cbn [answer_ok]. unfold frame_size.
    destruct (slot_after_frame l (fst w) Hl) as [->|[_ H]]; [by left|]. right. eexists. split; [by eapply list_elem_of_lookup_2|done].
  - by destruct Hp as [[? ->] _].
  - destruct Hp as (st & Ho & ->). by apply Htold.
  - destruct Hp as (st & Ho & ->). cbn. destruct (changed_ready after_seq st) eqn:Hr; [|done]. split; [by apply Htold|].
    unfold changed_ready in Hr. apply orb_true_iff in Hr as [H%N.ltb_lt|H]; [by left|by right].
  - destruct Hp as (sl & Ho & ->). destruct (Hread _ Ho) as (l & Hl & ->). cbn [answer_ok]. unfold geometry.
    destruct (snapshot_is_empty _) eqn:He; [done|]. pose proof (snapshot_nonempty _ He) as Hne.
    destruct (slot_after_frame l (fst w) Hl) as [H|[_ H]]; [by rewrite H in He|]. eexists. split; [by eapply list_elem_of_lookup_2|done].
  - destruct Hp as (sl & Ho & ->). destruct (Hread _ Ho) as (l & Hl & ->). cbn [answer_ok]. unfold capture_slot.
    destruct (snapshot_is_empty _) eqn:He; [done|]. cbn [captured]. destruct (snapshot_shot _) eqn:Hs; [|done]. by apply slot_of_write.
  - destruct Hp as (sl & Ho & ->). destruct (Hread _ Ho) as (l & Hl & ->). cbn [answer_ok]. unfold session_screenshot.
    destruct (snapshot_is_empty _) eqn:He; [done|]. destruct (snapshot_shot _) eqn:Hs; [|done].
    eexists. by apply slot_of_write.
Qed.

(** C6: in every interleaving of writes, ends, size changes and observers, whatever their number: each captured
    picture is exactly that of the write whose number comes with it, whole; a status never tells of a picture
    that is not there yet nor of an end before the lifecycle has ended; the lifecycle has the first end's cause;
    once no call is under way the status tells of the last picture and of any end; and numbers, end and cause
    never go back. *)
Theorem observers_see_one_write (size : Z * Z) (w : Screen * list (@Task ScreenOp Call Answer)) :
  reached size w ->
  let s := fst w in
  (forall c a, answered c a w -> answer_ok s c a) /\
  sn_slot s = slot_after (sn_written s) /\ told s (sn_status s) /\
  se_lifecycle (sn_state s) = lifecycle_after (sn_causes s) /\
  (quiet w -> sn_status s = {| st_seq := N.of_nat (length (sn_written s)); st_ended := bool_decide (sn_causes s <> []) |}) /\
  (forall w', pool_steps exec body outside w w' ->
     screen_le s (fst w') /\
     (forall c, se_lifecycle (sn_state s) = LifecycleEnded c -> se_lifecycle (sn_state (fst w')) = LifecycleEnded c)).
Proof.
  intros Hw. cbn zeta. pose proof (screen_reached_inv size w Hw) as (owns & Hi & Hts). split; [by intros c a; apply (answers_ok size)|].
  split; [apply Hi|]. split.
  { split; [apply Hi|]. intros He%(ci_ended _ _ Hi). rewrite (ci_lifecycle _ _ Hi). destruct (sn_causes (fst w)) as [|c ?]; [done|by exists c]. }
  split; [apply Hi|]. split.
  - intros Hq. assert (Ho : forall t, t ∈ concat owns -> owed t = false).
    { intros t (own & Hown & Ht)%list_elem_of_In%in_concat. apply list_elem_of_In in Hown, Ht.
      apply list_elem_of_lookup in Hown as (i & Hown). destruct (Forall2_lookup_r _ _ _ _ _ Hts Hown) as (tk & Htk & Hwp).
      destruct (Hq tk) as [a Ea]; [by eapply list_elem_of_lookup_2|]. rewrite Ea in Hwp. by eapply call_post_owed. }
    destruct (sn_status (fst w)) as [q e] eqn:Hst. pose proof (ci_seq _ _ Hi) as Hle. pose proof (ci_publish _ _ Hi) as Hpub.
    pose proof (ci_ended _ _ Hi) as He. pose proof (ci_mark _ _ Hi) as Hm. rewrite Hst in *. cbn in *.
    assert (sl_seq (sn_slot (fst w)) = N.of_nat (length (sn_written (fst w)))) as Hseq by by rewrite (ci_slot _ _ Hi).
    f_equal.
    + destruct (decide (q < sl_seq (sn_slot (fst w)))%N) as [Hlt|]; [|lia]. by apply Hpub, Ho in Hlt.
    + destruct e; symmetry; [by apply bool_decide_eq_true, He|]. apply bool_decide_eq_false. intros Hc. by apply Hm, Ho in Hc.
  - intros w' Hs. pose proof (steps_le w w' Hs) as Hl. split; [done|]. intros c.
    destruct (screen_reached_inv size w' (transitivity Hw Hs)) as (owns' & Hi' & _).
    rewrite (ci_lifecycle _ _ Hi), (ci_lifecycle _ _ Hi'). destruct (le_causes _ _ Hl) as [k ->].
    by destruct (sn_causes (fst w)).
Qed.

(** A picture, an end that overtakes the publication of a second one, and observers in between. *)
Module ScreenDemo.
Definition world := (Screen * list (@Task ScreenOp Call Answer))%type.
Definition call (c : Call) (w : world) : world := (fst w, snd w ++ [{| tk_call := c; tk_prog := body c |}]).
Definition section (i : nat) (w : world) : world := advance exec tt i w.

Lemma screen_reached_call size w c : reached size w -> reached size (call c w).
Proof. intros Hw. eapply rtc_r; [exact Hw|]. destruct w as [s ts]. apply PCall. Qed.
Lemma reached_section size i w : reached size w -> reached size (section i w).
Proof. intros Hw. unfold reached, pool_steps in *. etrans; [exact Hw|]. apply advance_steps. Qed.

Definition one : world := section 0 (section 0 (call (CWrite 1 1 [1; 2; 3; 4]%N) (screen_new (1, 1), []))).
Definition raced : world :=
  section 3 (section 4 (call CCapture (section 3 (call (CEnd ClientClosed) (section 2 (call CCapture (section 1 (call (CWrite 1 1 [5; 6; 7; 8]%N) one)))))))).

Lemma observers_see_one_write_witness :
  reached (1, 1) raced /\
  snd raced !! 2%nat = Some {| tk_call := CCapture;
    tk_prog := Ret (ACapture (Some (2%N, {| sc_width := 1; sc_height := 1; sc_rgba := [5; 6; 7; 8]%N |}))) |} /\
  sn_status (fst raced) = {| st_seq := 1; st_ended := true |} /\
  of_write (fst raced) 2 {| sc_width := 1; sc_height := 1; sc_rgba := [5; 6; 7; 8]%N |}.
Proof.
  assert (reached (1, 1) raced) as Hr.
  { repeat first [apply reached_section | apply screen_reached_call]. apply rtc_refl. }
  split_and!; [exact Hr|by vm_compute|by vm_compute|].
  destruct (observers_see_one_write (1, 1) raced Hr) as (H & _).
  apply (H CCapture (ACapture (Some (2%N, {| sc_width := 1; sc_height := 1; sc_rgba := [5; 6; 7; 8]%N |})))).
  unfold answered. apply (list_elem_of_lookup_2 _ 2). by vm_compute.
Defined.
End ScreenDemo.
