(* ===== verification/SessionLoop.v ===== *)
(** * The session loop ([rdpilot/src/session_loop.rs], [keepalive.rs])

    [run] is the body of the session thread after the handshake: a loop that
    takes the first source that is ready, in a fixed order, and then writes,
    shows or acts on every output of it before it looks again.  What is not
    this code is an operation ([LoopOp]): the RDP stage with its image, the
    transport, the bridge (HostBridge.v), the shared frame and the lifecycle
    (Screen.v).  Input state and epochs are those of LoopInput.v.

    A reply is the number of its channel.  An [interval] tick and a [Notify]
    are ready or not when they are polled.  The passes of the loop and the
    steps of a reactivation are counted by fuel, and [None] says that the loop
    still runs: it has no end of its own, and what ends it is a theorem. *)
From S2P Require Import Prelude Bytes Json Vocab BTreeSet InputOps HumanInput Errors LoopInput Registry BridgeProtocol HostBridge Prog Screen.
Open Scope Z_scope.

(** ** [keepalive.rs] *)

(** Sixty seconds and ten seconds, in nanoseconds. *)
Definition KEEPALIVE_INTERVAL : Z := 60 * 10 ^ 9.
Definition BRIDGE_PING_INTERVAL : Z := 10 * 10 ^ 9.

(** The flags of a pointer event that this code uses. *)
Inductive PointerFlags := MOVE.
Record MousePdu := { mp_flags : PointerFlags; mp_wheel : Z; mp_x : Z; mp_y : Z }.

(** A fast-path event: the keepalive's, or one of the input database. *)
Inductive FastPathInputEvent (E : Type) := MouseEvent (m : MousePdu) | DatabaseEvent (e : E).
Arguments MouseEvent {E} m.
Arguments DatabaseEvent {E} e.

#[global] Instance PointerFlags_eq_dec : EqDecision PointerFlags.
Proof. solve_decision. Defined.
#[global] Instance MousePdu_eq_dec : EqDecision MousePdu.
Proof. solve_decision. Defined.
#[global] Instance FastPathInputEvent_eq_dec E `{EqDecision E} : EqDecision (FastPathInputEvent E).
Proof. solve_decision. Defined.

(** [null_input_event] *)
Definition null_input_event {E} : FastPathInputEvent E :=
  MouseEvent {| mp_flags := MOVE; mp_wheel := 0; mp_x := 0; mp_y := 0 |}.

(** ** What the loop works with *)

(** [ActiveStageOutput]; the pointer variants are one. *)
Inductive Output :=
| ResponseFrame (frame : bytes)
| GraphicsUpdate
| DeactivateAll
| Terminate (reason : text)
| PointerOutput.

(** [LoopCommand], with the number of its reply. *)
Inductive Command :=
| LInput (epoch : Z) (ops : list Operation) (reply : N)
| LSetEpoch (epoch : Z) (reply : N)
| LRequest (envelope : Envelope).

(** The sources of the [select!], as they are found ready. *)
Record Sources := {
  so_shutdown : bool;
  so_retire : bool;
  so_ping : bool;
  so_pdu : option (result text bytes);
  so_command : option (option Command);
  so_data : bool;
  so_keepalive : bool }.

Inductive Arm :=
| ArmShutdown | ArmRetire | ArmPing | ArmPdu (pdu : result text bytes) | ArmCommand (c : option Command) | ArmData | ArmKeepalive.

(** [biased;]: the first one that is ready. *)
Definition choose (s : Sources) : option Arm :=
  if so_shutdown s then Some ArmShutdown
  else if so_retire s then Some ArmRetire
  else if so_ping s then Some ArmPing
  else match so_pdu s with
  | Some pdu => Some (ArmPdu pdu)
  | None =>
  match so_command s with
  | Some c => Some (ArmCommand c)
  | None => if so_data s then Some ArmData else if so_keepalive s then Some ArmKeepalive else None
  end end.

(** How a write ends within its five seconds. *)
Inductive Written := WrittenAll | WriteDeadline | WriteFailed (error : text).

(** What interrupts a reactivation: the shutdown, or its ten seconds. *)
Inductive Cut := CutShutdown | CutDeadline.

Inductive LoopOp (E : Type) : Type -> Type :=
| SetDesktop (size : Z * Z) : LoopOp E unit
| FirstTick : LoopOp E unit
| Poll : LoopOp E Sources
| TakeRetire : LoopOp E (option Envelope)
| TakeData : LoopOp E (option Envelope)
| CheckLiveness : LoopOp E unit
| BridgeReady : LoopOp E bool
| GetDvc : LoopOp E (option (option N * bool))
| EncodeDvc (channel_id : N) (messages : list bytes) : LoopOp E (result text bytes)
| EncodeSvc (messages : bytes) : LoopOp E (result text bytes)
| ProcessPdu (payload : bytes) : LoopOp E (result text (list Output))
| ProcessInput (events : list (FastPathInputEvent E)) : LoopOp E (result text (list Output))
| ReplyInput (reply : N) (r : result Error unit) : LoopOp E unit
| ReplyEpoch (reply : N) : LoopOp E unit
| WriteAll (frame : bytes) : LoopOp E Written
| ReadImage : LoopOp E (Z * Z * bytes)
| WriteFrame (width height : Z) (rgba : bytes) : LoopOp E unit
| StepRead : LoopOp E (Cut + result text (option bytes))
| StepWrite (frame : bytes) : LoopOp E (Cut + result text unit)
| ActivationState : LoopOp E (option (Z * Z))
| Rebuild (size : Z * Z) : LoopOp E unit
| LifecycleEnd (cause : EndCause) : LoopOp E unit
| Invalidate (reason : text) : LoopOp E unit.
Arguments SetDesktop {E}. Arguments FirstTick {E}. Arguments Poll {E}. Arguments TakeRetire {E}. Arguments TakeData {E}.
Arguments CheckLiveness {E}. Arguments BridgeReady {E}. Arguments GetDvc {E}. Arguments EncodeDvc {E}. Arguments EncodeSvc {E}.
Arguments ProcessPdu {E}. Arguments ProcessInput {E}. Arguments ReplyInput {E}. Arguments ReplyEpoch {E}. Arguments WriteAll {E}.
Arguments ReadImage {E}. Arguments WriteFrame {E}. Arguments StepRead {E}. Arguments StepWrite {E}. Arguments ActivationState {E}.
Arguments Rebuild {E}. Arguments LifecycleEnd {E}. Arguments Invalidate {E}.

Definition err_session (prefix m : text) : Error := ErSession (prefix ++ m).

(** A refused batch, as the SDK's error. *)
Definition stale_error (e : InputError) : Error := match e with StaleInput sent current => ErStaleInput sent current end.

Section SessionLoop.
Context {D E : Type} `{InputDatabase D E} `{Serde Envelope} (show : FrameError -> text) (generation : N).
Local Open Scope prog_scope.

(** ** Outputs of one source *)

(** [build_request_frame] *)
Definition build_request_frame (e : Envelope) : prog (LoopOp E) (result Error bytes) :=
  let! dvc := act GetDvc in
  match dvc with
  | None => Ret (Err (ErDvc (txt "bridge channel not registered")))
  | Some (None, _) => Ret (Err (ErDvc (txt "bridge channel not open")))
  | Some (Some _, false) => Ret (Err (ErDvc (txt "bridge processor unavailable")))
  | Some (Some id, true) =>
      match encode_request e with
      | Err f => Ret (Err (ErDvc (show f)))
      | Ok messages =>
          let! svc := act (EncodeDvc id messages) in
          match svc with
          | Err m => Ret (Err (ErDvc m))
          | Ok svc => let! b := act (EncodeSvc svc) in Ret (map_err ErDvc b)
          end
      end
  end.

(** A frame that cannot be built is dropped. *)
Definition request_outputs (e : Envelope) : prog (LoopOp E) (list Output) :=
  let! r := build_request_frame e in
  Ret (match r with Ok b => [ResponseFrame b] | Err _ => [] end).

Definition taken_outputs (e : option Envelope) : prog (LoopOp E) (list Output) :=
  match e with Some e => request_outputs e | None => Ret [] end.

(** The loop of [process_fastpath_input], over the batches. *)
Fixpoint process_batches (batches : list (list E)) (outputs : list Output) : prog (LoopOp E) (result Error (list Output)) :=
  match batches with
  | [] => Ret (Ok outputs)
  | batch :: batches =>
      let! r := act (ProcessInput (map DatabaseEvent batch)) in
      match r with
      | Err e => Ret (Err (err_session (txt "input injection failed: ") e))
      | Ok outs => process_batches batches (outputs ++ outs)
      end
  end.

(** [process_fastpath_input] *)
Definition process_fastpath_input (events : list E) : prog (LoopOp E) (result Error (list Output)) :=
  process_batches (chunks FASTPATH_EVENTS events) [].

(** What an arm makes: outputs with the reply to confirm after them, the end
    of the loop ([break]), or an error ([?]). *)
Inductive Made := Outputs (outs : list Output) (confirm : option N) | Break | Failed (e : Error).

Definition made (confirm : option N) (r : result Error (list Output)) : Made :=
  match r with Ok outs => Outputs outs confirm | Err e => Failed e end.

(** The arm of [input_rx.recv()]. *)
Definition command_arm (li : LoopInput D) (c : option Command) : prog (LoopOp E) (LoopInput D * Made) :=
  match c with
  | Some (LInput epoch ops reply) =>
      let '(li, r) := apply li epoch ops in
      match r with
      | Ok events =>
          do! act (ReplyInput reply (Ok tt)) in
          let! r := process_fastpath_input events in
          Ret (li, made None r)
      | Err stale =>
          do! act (ReplyInput reply (Err (stale_error stale))) in
          Ret (li, Outputs [] None)
      end
  | Some (LSetEpoch epoch reply) =>
      let '(li, releases) := change_epoch li epoch in
      match releases with
      | Some releases =>
          let! r := process_fastpath_input releases in
          Ret (li, made (Some reply) r)
      | None =>
          do! act (ReplyEpoch reply) in
          Ret (li, Outputs [] None)
      end
  | Some (LRequest envelope) =>
      let! outs := request_outputs envelope in
      Ret (li, Outputs outs None)
  | None => Ret (li, Break)
  end.

(** The arms of the [select!]. *)
Definition arm (li : LoopInput D) (a : Arm) : prog (LoopOp E) (LoopInput D * Made) :=
  match a with
  | ArmShutdown => Ret (li, Break)
  | ArmRetire =>
      let! e := act TakeRetire in
      let! outs := taken_outputs e in Ret (li, Outputs outs None)
  | ArmPing =>
      do! act CheckLiveness in
      let! ready := act BridgeReady in
      if ready : bool then
        let! outs := request_outputs (new_envelope generation 0 Ping) in Ret (li, Outputs outs None)
      else Ret (li, Outputs [] None)
  | ArmPdu (Err e) => Ret (li, Failed (err_session (txt "read PDU failed: ") e))
  | ArmPdu (Ok payload) =>
      let! r := act (ProcessPdu payload) in
      Ret (li, made None (map_err (err_session (txt "process PDU failed: ")) r))
  | ArmCommand c => command_arm li c
  | ArmData =>
      let! e := act TakeData in
      let! outs := taken_outputs e in Ret (li, Outputs outs None)
  | ArmKeepalive =>
      let! r := act (ProcessInput [null_input_event]) in
      Ret (li, made None (map_err (err_session (txt "keepalive input failed: ")) r))
  end.

(** ** What becomes of the outputs *)

Inductive Reactivated := RFinal | RCut (c : Cut) | RError (e : Error) | RRuns.

(** [reactivate], one step of the sequence per round. *)
Fixpoint reactivate (fuel : nat) : prog (LoopOp E) Reactivated :=
  match fuel with
  | O => Ret RRuns
  | S fuel =>
      let! step := act StepRead in
      match step with
      | inl c => Ret (RCut c)
      | inr (Err e) => Ret (RError (err_session (txt "reactivation step failed: ") e))
      | inr (Ok written) =>
          let! sent := match written with
            | Some frame => act (StepWrite frame)
            | None => Ret (inr (Ok tt))
            end in
          match sent with
          | inl c => Ret (RCut c)
          | inr (Err e) => Ret (RError (err_session (txt "reactivation write failed: ") e))
          | inr (Ok _) =>
              let! state := act ActivationState in
              match state with
              | Some size => do! act (Rebuild size) in Ret RFinal
              | None => reactivate fuel
              end
          end
      end
  end.

(** The loop over the outputs: whether the session was terminated, or how
    [run_loop] returns ([None]: a reactivation still runs). *)
Inductive Dispatched := Went (terminate : bool) | Returned (r : option (result Error unit)).

Fixpoint dispatch (fuel : nat) (outs : list Output) (terminate : bool) : prog (LoopOp E) Dispatched :=
  match outs with
  | [] => Ret (Went terminate)
  | ResponseFrame frame :: outs =>
      let! w := act (WriteAll frame) in
      match w with
      | WriteDeadline => Ret (Returned (Some (Err (ErSession (txt "RDP write deadline exceeded")))))
      | WriteFailed e => Ret (Returned (Some (Err (err_session (txt "write response failed: ") e))))
      | WrittenAll => dispatch fuel outs terminate
      end
  | GraphicsUpdate :: outs =>
      let! image := act ReadImage in
      do! act (WriteFrame (fst (fst image)) (snd (fst image)) (snd image)) in
      dispatch fuel outs terminate
  | DeactivateAll :: outs =>
      let! r := reactivate fuel in
      match r with
      | RRuns => Ret (Returned None)
      | RCut CutShutdown => Ret (Returned (Some (Ok tt)))
      | RCut CutDeadline => Ret (Returned (Some (Err (ErSession (txt "RDP reactivation deadline exceeded")))))
      | RError e => Ret (Returned (Some (Err e)))
      | RFinal =>
          let! image := act ReadImage in
          do! act (SetDesktop (fst image)) in
          dispatch fuel outs terminate
      end
  | Terminate reason :: outs =>
      do! act (LifecycleEnd (ServerEnded reason)) in
      do! act (Invalidate (txt "RDP server ended session: " ++ reason)) in
      dispatch fuel outs true
  | PointerOutput :: outs => dispatch fuel outs terminate
  end.

(** One round of the loop: the input state to go on with, or how it ends. *)
Definition pass (fuel : nat) (li : LoopInput D) : prog (LoopOp E) (LoopInput D + option (result Error unit)) :=
  let! sources := act Poll in
  match choose sources with
  | None => Ret (inl li)
  | Some a =>
      let! x := arm li a in
      let '(li, m) := x in
      match m with
      | Break => Ret (inr (Some (Ok tt)))
      | Failed e => Ret (inr (Some (Err e)))
      | Outputs outs confirm =>
          let! r := dispatch fuel outs false in
          match r with
          | Returned r => Ret (inr r)
          | Went terminate =>
              do! match confirm with Some reply => act (ReplyEpoch reply) | None => Ret tt end in
              Ret (if terminate : bool then inr (Some (Ok tt)) else inl li)
          end
      end
  end.

Fixpoint passes (steps fuel : nat) (li : LoopInput D) : prog (LoopOp E) (option (result Error unit)) :=
  match fuel with
  | O => Ret None
  | S fuel =>
      let! r := pass steps li in
      match r with inl li => passes steps fuel li | inr r => Ret r end
  end.

(** [run_loop] *)
Definition run_loop (size : Z * Z) (steps fuel : nat) : prog (LoopOp E) (option (result Error unit)) :=
  do! act (SetDesktop size) in
  do! act FirstTick in
  passes steps fuel li_new.

(** The cause that [run] ends the lifecycle with. *)
Definition run_cause (r : result Error unit) : EndCause :=
  match r with Ok _ => ClientClosed | Err e => EndError (error_text e) end.

(** [run] *)
Definition run_session (size : Z * Z) (steps fuel : nat) : prog (LoopOp E) (option (result Error unit)) :=
  let! r := run_loop size steps fuel in
  match r with
  | Some result => do! act (LifecycleEnd (run_cause result)) in Ret (Some result)
  | None => Ret None
  end.
End SessionLoop.

(** ** What the loop owes

    [Duty] is what the loop still has to do, as a reader of its operations
    keeps the books: events of the command it took, the reply it owes, the
    outputs of the stage in their order, a frame of a reactivation, and how it
    is to end.  [duty_step] refuses every operation that is not due. *)
Record Duty (D E : Type) := {
  du_li : LoopInput D;
  du_events : list E;
  du_answer : option (N * result Error unit);
  du_epoch : option N;
  du_outputs : list Output;
  du_image : option (Z * Z * bytes);
  du_frame : option bytes;
  du_stopped : bool;
  du_failed : bool;
  du_causes : list EndCause }.
Arguments du_li {D E}. Arguments du_events {D E}. Arguments du_answer {D E}. Arguments du_epoch {D E}. Arguments du_outputs {D E}.
Arguments du_image {D E}. Arguments du_frame {D E}. Arguments du_stopped {D E}. Arguments du_failed {D E}. Arguments du_causes {D E}.

Section Duty.
Context {D E : Type} `{InputDatabase D E} `{EqDecision E}.
Abbreviation Duty := (Duty D E).

Definition set_command li events answer epoch (g : Duty) : Duty :=
  {| du_li := li; du_events := events; du_answer := answer; du_epoch := epoch; du_outputs := du_outputs g; du_image := du_image g;
     du_frame := du_frame g; du_stopped := du_stopped g; du_failed := du_failed g; du_causes := du_causes g |}.
Definition set_output outputs image frame (g : Duty) : Duty :=
  {| du_li := du_li g; du_events := du_events g; du_answer := du_answer g; du_epoch := du_epoch g; du_outputs := outputs; du_image := image;
     du_frame := frame; du_stopped := du_stopped g; du_failed := du_failed g; du_causes := du_causes g |}.
Definition set_end stopped failed causes (g : Duty) : Duty :=
  {| du_li := du_li g; du_events := du_events g; du_answer := du_answer g; du_epoch := du_epoch g; du_outputs := du_outputs g;
     du_image := du_image g; du_frame := du_frame g; du_stopped := stopped; du_failed := failed; du_causes := causes |}.

Definition stop (g : Duty) : Duty := set_end true (du_failed g) (du_causes g) g.
Definition fail (g : Duty) : Duty := set_end (du_stopped g) true (du_causes g) g.
Definition owe (outs : list Output) (g : Duty) : Duty := set_output outs (du_image g) (du_frame g) g.
Definition allow (P : Prop) `{Decision P} (g : Duty) : option Duty := if decide P then Some g else None.

Definition running (g : Duty) : Prop := du_stopped g = false /\ du_failed g = false.

(** Nothing is due: the loop may look at its sources again. *)
Definition free (g : Duty) : Prop :=
  running g /\ du_events g = [] /\ du_answer g = None /\ du_epoch g = None /\ du_outputs g = [] /\ du_frame g = None /\ du_causes g = [].

(** The outputs that something is done for. *)
Definition visible (outs : list Output) : list Output :=
  List.filter (fun o => match o with PointerOutput => false | _ => true end) outs.

(** What the source that is chosen asks for. *)
Definition chosen_duty (a : option Arm) (g : Duty) : Duty :=
  match a with
  | Some ArmShutdown | Some (ArmCommand None) => stop g
  | Some (ArmPdu (Err _)) => fail g
  | Some (ArmCommand (Some (LInput epoch ops reply))) =>
      let '(li, r) := apply (du_li g) epoch ops in
      match r with
      | Ok events => set_command li events (Some (reply, Ok tt)) None g
      | Err stale => set_command li [] (Some (reply, Err (stale_error stale))) None g
      end
  | Some (ArmCommand (Some (LSetEpoch epoch reply))) =>
      let '(li, releases) := change_epoch (du_li g) epoch in
      set_command li (default [] releases) None (Some reply) g
  | _ => g
  end.

Definition duty_step (size : Z * Z) (B : Type) (o : LoopOp E B) : B -> Duty -> option Duty :=
  match o with
  | SetDesktop s => fun _ g =>
      match du_outputs g with
      | DeactivateAll :: outs => allow (running g /\ du_frame g = None /\ option_map fst (du_image g) = Some s) (owe outs g)
      | _ => allow (free g /\ du_image g = None /\ s = size) g
      end
  | Poll => fun sources g => allow (free g) (chosen_duty (choose sources) g)
  | FirstTick | TakeRetire | TakeData | CheckLiveness | BridgeReady | GetDvc | EncodeDvc _ _ => fun _ g => allow (running g) g
  | EncodeSvc _ => fun r g =>
      allow (running g) (match r with Ok frame => owe (du_outputs g ++ [ResponseFrame frame]) g | Err _ => g end)
  | ProcessPdu _ => fun r g =>
      allow (running g /\ du_events g = [])
        (match r with Ok outs => owe (du_outputs g ++ visible outs) g | Err _ => fail g end)
  | ProcessInput batch => fun r g =>
      let n := length batch in
      let g' := set_command (du_li g) (drop n (du_events g)) (du_answer g) (du_epoch g) g in
      allow (running g /\ du_answer g = None /\
             (du_events g = [] /\ batch = [null_input_event] \/
              0 < Z.of_nat n <= Z.of_nat FASTPATH_EVENTS /\ batch = map DatabaseEvent (take n (du_events g))))
        (match r with Ok outs => owe (du_outputs g ++ visible outs) g' | Err _ => fail g' end)
  | ReplyInput reply r => fun _ g =>
      allow (running g /\ du_answer g = Some (reply, r)) (set_command (du_li g) (du_events g) None (du_epoch g) g)
  | ReplyEpoch reply => fun _ g =>
      allow (running g /\ du_epoch g = Some reply /\ du_events g = [] /\ du_outputs g = [] /\ du_frame g = None)
        (set_command (du_li g) (du_events g) (du_answer g) None g)
  | WriteAll frame => fun w g =>
      match du_outputs g with
      | ResponseFrame due :: outs =>
          allow (running g /\ du_events g = [] /\ du_answer g = None /\ due = frame)
            (match w with WrittenAll => owe outs g | _ => fail g end)
      | _ => None
      end
  | ReadImage => fun image g => allow (running g) (set_output (du_outputs g) (Some image) (du_frame g) g)
  | WriteFrame w h rgba => fun _ g =>
      match du_outputs g with
      | GraphicsUpdate :: outs => allow (running g /\ du_events g = [] /\ du_image g = Some (w, h, rgba)) (owe outs g)
      | _ => None
      end
  | StepRead => fun r g =>
      match du_outputs g with
      | DeactivateAll :: _ =>
          allow (running g /\ du_events g = [] /\ du_frame g = None)
            (match r with
             | inl CutShutdown => stop g
             | inl CutDeadline | inr (Err _) => fail g
             | inr (Ok frame) => set_output (du_outputs g) (du_image g) frame g
             end)
      | _ => None
      end
  | StepWrite frame => fun r g =>
      allow (running g /\ du_frame g = Some frame)
        (match r with
         | inl CutShutdown => stop g
         | inl CutDeadline | inr (Err _) => fail g
         | inr (Ok _) => set_output (du_outputs g) (du_image g) None g
         end)
  | ActivationState => fun _ g => allow (running g /\ du_frame g = None) g
  | Rebuild _ => fun _ g => match du_outputs g with DeactivateAll :: _ => allow (running g) g | _ => None end
  | LifecycleEnd cause => fun _ g =>
      let g' := set_end (du_stopped g) (du_failed g) (du_causes g ++ [cause]) g in
      match cause with
      | ServerEnded reason =>
          match du_outputs g with
          | Terminate due :: _ => allow (running g /\ du_events g = [] /\ due = reason) g'
          | _ => None
          end
      | ClientClosed => allow (du_failed g = false /\ (du_stopped g = true \/ du_outputs g = [] /\ du_epoch g = None /\ du_causes g <> [])) g'
      | EndError _ => allow (du_failed g = true) g'
      end
  | Invalidate reason => fun _ g =>
      match du_outputs g with
      | Terminate due :: outs =>
          allow (running g /\ reason = txt "RDP server ended session: " ++ due /\ last (du_causes g) = Some (ServerEnded due)) (owe outs g)
      | _ => None
      end
  end.

Lemma allow_true (P : Prop) `{Decision P} (g : Duty) : P -> allow P g = Some g.
Proof. intros HP. unfold allow. by rewrite decide_True. Qed.
End Duty.

Section LoopLemmas.
Context {D E : Type} `{InputDatabase D E} `{Serde Envelope} `{EqDecision E} (show : FrameError -> text) (generation : N) (size : Z * Z).
Abbreviation fol := (follows (duty_step size)).

(** The books between two operations: input state, outputs still due, reply to
    confirm, and the ends told so far. *)
Record at_work (li : LoopInput D) (outs : list Output) (confirm : option N) (causes : list EndCause) (g : Duty D E) : Prop := {
  aw_li : du_li g = li; aw_events : du_events g = []; aw_answer : du_answer g = None; aw_epoch : du_epoch g = confirm;
  aw_outputs : du_outputs g = outs; aw_frame : du_frame g = None;
  aw_stopped : du_stopped g = false; aw_failed : du_failed g = false; aw_causes : du_causes g = causes }.

(** The loop is to return. *)
Definition ended (stopped failed : bool) (causes : list EndCause) (g : Duty D E) : Prop :=
  du_stopped g = stopped /\ du_failed g = failed /\ du_causes g = causes.

Lemma at_work_free li g : at_work li [] None [] g -> free g.
Proof. by intros []. Qed.

Ltac due := apply follows_act; intros ?; cbn [duty_step].

Lemma request_outputs_due li causes e g :
  at_work li [] None causes g ->
  fol (fun g' outs => at_work li (visible outs) None causes g') (request_outputs show e) g.
Proof.
  intros Hg. assert (running g) as Hr by by destruct Hg. unfold request_outputs, build_request_frame.
  apply follows_bind. due. rewrite allow_true by done. destruct b as [[[id|] []]|]; cbn; try done.
  destruct (encode_request e) as [messages|]; cbn; [|done]. intros [svc|]; rewrite allow_true by done; cbn; [|done].
  intros [frame|]; rewrite allow_true by done; cbn; [|done]. destruct Hg. split; cbn; try done. by rewrite aw_outputs0.
Qed.

Lemma taken_outputs_due li causes e g :
  at_work li [] None causes g ->
  fol (fun g' outs => at_work li (visible outs) None causes g') (taken_outputs show e) g.
Proof. intros Hg. destruct e; [by apply request_outputs_due|done]. Qed.

Lemma duty_visible_app l l' : visible (l ++ l') = visible l ++ visible l'.
Proof. apply List.filter_app. Qed.

(** What handing over the events of a command leaves. *)
Definition processed li confirm causes (r : result Error (list Output)) (g : Duty D E) : Prop :=
  match r with Ok outs => at_work li (visible outs) confirm causes g | Err _ => ended false true causes g end.

Lemma process_batches_due li confirm causes batches : forall outs g,
  Forall (fun b => 0 < Z.of_nat (length b) <= Z.of_nat FASTPATH_EVENTS) batches ->
  at_work li (visible outs) confirm causes (set_command li [] None confirm g) ->
  du_events g = concat batches -> du_li g = li -> du_answer g = None -> du_epoch g = confirm ->
  fol (fun g' r => processed li confirm causes r g') (process_batches batches outs) g.
Proof.
  induction batches as [|batch batches IH]; intros outs g Hb Hg He Hli Ha Hc; cbn [process_batches].
  { destruct Hg. split; cbn in *; congruence. }
  apply Forall_cons in Hb as [Hlen Hb]. apply follows_act. intros r. cbn [duty_step].
  assert (running g) as Hr by (destruct Hg; by split). rewrite length_map, He. cbn [concat].
  rewrite take_app_length, drop_app_length, allow_true.
  2: { split_and!; [done|done|]. right. split; [lia|done]. }
  destruct Hg. destruct r as [outs'|e]; [|by split_and!].
  apply IH; try done. split; cbn in *; try done. by rewrite duty_visible_app, aw_outputs0.
Qed.

Lemma chunks_bounded {A} (l : list A) :
  Forall (fun b => 0 < Z.of_nat (length b) <= Z.of_nat FASTPATH_EVENTS) (chunks FASTPATH_EVENTS l).
Proof. eapply Forall_impl; [apply chunks_fuel_size; unfold FASTPATH_EVENTS; lia|]. cbn. intros x Hx. lia. Qed.

Lemma process_input_due li confirm causes events g :
  at_work li [] confirm causes (set_command li [] None confirm g) ->
  du_events g = events -> du_li g = li -> du_answer g = None -> du_epoch g = confirm ->
  fol (fun g' r => processed li confirm causes r g') (process_fastpath_input events) g.
Proof.
  intros Hg He Hli Ha Hc. apply process_batches_due; [apply chunks_bounded|exact Hg| |done..].
  unfold chunks. rewrite chunks_fuel_concat; [done|unfold FASTPATH_EVENTS; lia|done].
Qed.

(** What an arm leaves. *)
Definition arm_left (x : LoopInput D * Made) (g : Duty D E) : Prop :=
  match snd x with
  | Outputs outs confirm => at_work (fst x) (visible outs) confirm [] g
  | Break => ended true false [] g
  | Failed _ => ended false true [] g
  end.

Lemma processed_left li confirm r g : processed li confirm [] r g -> arm_left (li, made confirm r) g.
Proof. by destruct r. Qed.

Lemma command_arm_due li c g :
  at_work li [] None [] g ->
  fol (fun g' x => arm_left x g') (command_arm show li c) (chosen_duty (Some (ArmCommand c)) g).
Proof.
  intros Hg. destruct c as [[epoch ops reply|epoch reply|e]|]; cbn [command_arm chosen_duty].
  - rewrite (aw_li _ _ _ _ _ Hg). destruct (apply li epoch ops) as [li' [events|stale]] eqn:Ha; destruct Hg.
    + due. rewrite allow_true by done. apply follows_bind. eapply follows_mono; [|by apply (process_input_due li' None [])].
      intros g' r Hr. cbn. by apply processed_left.
    + due. rewrite allow_true by done. by split.
  - rewrite (aw_li _ _ _ _ _ Hg). destruct (change_epoch li epoch) as [li' [releases|]] eqn:Ha; destruct Hg.
    + apply follows_bind. eapply follows_mono; [|by apply (process_input_due li' (Some reply) [])].
      intros g' r Hr. cbn. by apply processed_left.
    + due. rewrite allow_true by done. by split.
  - apply follows_bind. eapply follows_mono; [|by apply request_outputs_due]. intros g' outs Ho. exact Ho.
  - destruct Hg. by split_and!.
Qed.

Lemma arm_due li a g :
  at_work li [] None [] g -> fol (fun g' x => arm_left x g') (arm show generation li a) (chosen_duty (Some a) g).
Proof.
  intros Hg. assert (running g) as Hr by by destruct Hg. destruct a as [| | |[payload|e]|c| |]; cbn [arm chosen_duty].
  - destruct Hg. by split_and!.
  - due. rewrite allow_true by done. apply follows_bind. eapply follows_mono; [|by apply taken_outputs_due]. by intros g' outs Ho.
  - due. rewrite allow_true by done. due. rewrite allow_true by done. destruct b0; [|done].
    apply follows_bind. eapply follows_mono; [|by apply request_outputs_due]. by intros g' outs Ho.
  - due. destruct Hg. rewrite allow_true by done. destruct b as [outs|e]; cbn; [|by split_and!]. split; cbn; try done. by rewrite aw_outputs0.
  - destruct Hg. by split_and!.
  - by apply command_arm_due.
  - due. rewrite allow_true by done. apply follows_bind. eapply follows_mono; [|by apply taken_outputs_due]. by intros g' outs Ho.
  - due. destruct Hg. rewrite allow_true by (split_and!; [done|done|by left]).
    destruct b as [outs|e]; cbn; [|by split_and!]. split; cbn; try done; [by rewrite aw_events0|by rewrite aw_outputs0].
Qed.

(** What a reactivation leaves. *)
Definition reactivated li outs confirm causes (r : Reactivated) (g : Duty D E) : Prop :=
  match r with
  | RFinal | RRuns => at_work li (DeactivateAll :: outs) confirm causes g
  | RCut CutShutdown => ended true false causes g
  | RCut CutDeadline | RError _ => ended false true causes g
  end.

Lemma reactivate_due li outs confirm causes fuel : forall g,
  at_work li (DeactivateAll :: outs) confirm causes g ->
  fol (fun g' r => reactivated li outs confirm causes r g') (reactivate fuel) g.
Proof.
  induction fuel as [|fuel IH]; intros g Hg; cbn [reactivate]; [done|]. destruct Hg.
  apply follows_act. intros step. cbn [duty_step]. rewrite aw_outputs0, allow_true by done.
  destruct step as [[]|[[frame|]|e]]; cbn [follows]; try (by split_and!).
  - apply follows_bind. cbn [act follows duty_step]. intros sent. rewrite allow_true by done.
    destruct sent as [[]|[[]|e]]; cbn [follows]; try (by split_and!).
    apply follows_act. intros state. cbn [duty_step]. rewrite allow_true by done. destruct state as [new|].
    + due. cbn. rewrite allow_true by done. by split; cbn.
    + apply IH. by split; cbn.
  - cbn [pbind]. apply follows_act. intros state. cbn [duty_step]. rewrite allow_true by done. destruct state as [new|].
    + due. cbn. rewrite allow_true by done. by split; cbn.
    + apply IH. by split; cbn.
Qed.

(** The ends the server told, before the loop's own. *)
Definition by_server (causes : list EndCause) : Prop := Forall (fun c => exists reason, c = ServerEnded reason) causes.

(** How the loop returns. *)
Definition finished (r : option (result Error unit)) (g : Duty D E) : Prop :=
  match r with
  | None => running g
  | Some r => by_server (du_causes g) /\ du_failed g = negb (is_ok r) /\
      (is_ok r = true -> du_stopped g = true \/ du_outputs g = [] /\ du_epoch g = None /\ du_causes g <> [])
  end.

Lemma ended_finished (stopped : bool) causes r g :
  by_server causes -> ended stopped (negb stopped) causes g -> is_ok r = stopped -> finished (Some r) g.
Proof.
  intros Hs (H1 & H2 & H3) Hr. split_and!; [by rewrite H3|by rewrite H2, Hr|]. rewrite Hr, H1. by left.
Qed.

Definition dispatched li confirm (d : Dispatched) (g : Duty D E) : Prop :=
  match d with
  | Went terminate => exists causes, at_work li [] confirm causes g /\ by_server causes /\ (terminate = true <-> causes <> [])
  | Returned r => finished r g
  end.

Lemma dispatch_due fuel li confirm outs : forall causes terminate g,
  by_server causes -> (terminate = true <-> causes <> []) ->
  at_work li (visible outs) confirm causes g ->
  fol (fun g' d => dispatched li confirm d g') (dispatch fuel outs terminate) g.
Proof.
  induction outs as [|o outs IH]; intros causes terminate g Hs Ht Hg; cbn [dispatch]; [by exists causes|].
  destruct o as [frame| | |reason|]; cbn [visible List.filter] in Hg; fold (visible outs) in Hg.
  - due. destruct Hg. rewrite aw_outputs0, allow_true by done. destruct b as [| |e].
    + apply (IH causes); [done|done|]. by split.
    + by apply (ended_finished false causes); [|split_and!|].
    + by apply (ended_finished false causes); [|split_and!|].
  - due. destruct Hg. rewrite allow_true by done. due. cbn. rewrite aw_outputs0, allow_true.
    2: { split_and!; [done|done|]. by destruct b as [[? ?] ?]. }
    apply (IH causes); [done|done|]. by split.
  - apply follows_bind. eapply follows_mono; [|by apply reactivate_due]. intros g' [|[]|e|] Hr; cbn [pbind follows act dispatched].
    + intros image. cbn [duty_step]. destruct Hr. rewrite allow_true by done. cbn. intros _. rewrite aw_outputs0, allow_true by done.
      apply (IH causes); [done|done|]. by split.
    + by apply (ended_finished true causes).
    + by apply (ended_finished false causes).
    + by apply (ended_finished false causes).
    + by destruct Hr.
  - due. destruct Hg. rewrite aw_outputs0, allow_true by done. due. cbn. rewrite aw_outputs0, allow_true.
    2: { split_and!; [done|done|]. by rewrite last_snoc. }
    apply (IH (causes ++ [ServerEnded reason])).
    + apply Forall_app. split; [done|]. constructor; [by exists reason|constructor].
    + split; [|done]. intros _. by destruct causes.
    + split; cbn; try done. by rewrite aw_causes0.
  - by apply (IH causes).
Qed.

Definition passed (r : LoopInput D + option (result Error unit)) (g : Duty D E) : Prop :=
  match r with inl li => at_work li [] None [] g | inr r => finished r g end.

Lemma pass_due fuel li g :
  at_work li [] None [] g -> fol (fun g' r => passed r g') (pass show generation fuel li) g.
Proof.
  intros Hg. unfold pass. due. rewrite allow_true by by eapply at_work_free.
  destruct (choose b) as [a|]; [|done]. apply follows_bind. eapply follows_mono; [|by apply arm_due].
  intros g1 [li1 [outs confirm| |e]] Hm; cbn [arm_left fst snd follows passed] in Hm |- *.
  - apply follows_bind. eapply follows_mono; [|apply (dispatch_due fuel li1 confirm outs [] false); [constructor|done|exact Hm]].
    intros g2 [terminate|r] Hd; cbn in Hd |- *; [|done]. destruct Hd as (causes & Hw & Hs & Ht).
    assert (Hend : forall g3, at_work li1 [] None causes g3 -> passed (if terminate then inr (Some (Ok tt)) else inl li1) g3).
    { intros g3 H3. destruct terminate.
      - destruct H3. split_and!; [by rewrite aw_causes0|done|]. intros _. right. rewrite aw_causes0. split_and!; [done|done|by apply Ht].
      - cbn. destruct causes as [|c causes]; [done|]. assert (false = true) by (by apply Ht). done. }
    destruct confirm as [reply|]; [|by apply Hend]. due. destruct Hw. rewrite allow_true by done. apply Hend. by split.
  - by apply (ended_finished true []); [constructor|exact Hm|].
  - by apply (ended_finished false []); [constructor|exact Hm|].
Qed.

Lemma passes_due steps fuel : forall li g,
  at_work li [] None [] g -> fol (fun g' r => finished r g') (passes show generation steps fuel li) g.
Proof.
  induction fuel as [|fuel IH]; intros li g Hg; cbn [passes]; [by destruct Hg|].
  apply follows_bind. eapply follows_mono; [|by apply pass_due]. intros g' [li'|r] Hr; [by apply IH|done].
Qed.

(** The books at the start of the loop. *)
Definition duty_new : Duty D E :=
  {| du_li := li_new; du_events := []; du_answer := None; du_epoch := None; du_outputs := []; du_image := None; du_frame := None;
     du_stopped := false; du_failed := false; du_causes := [] |}.

Lemma run_loop_due steps fuel :
  fol (fun g r => finished r g) (run_loop show generation size steps fuel) duty_new.
Proof. unfold run_loop. due. rewrite allow_true by done. due. rewrite allow_true by done. by apply passes_due. Qed.

(** How [run] ends: the ends that were told, by the first of which the
    lifecycle is ended. *)
Definition told_end (r : option (result Error unit)) (g : Duty D E) : Prop :=
  match r with
  | None => running g
  | Some r =>
      du_failed g = negb (is_ok r) /\
      exists causes, du_causes g = causes ++ [run_cause r] /\ by_server causes /\
        (is_ok r = true -> du_stopped g = false -> causes <> [])
  end.
End LoopLemmas.

(** ** Properties *)

(** C5: whatever the stage, the transport, the bridge and the callers do, the loop does only what is due: the events
    of a command all go to the stage in their order, in batches of 1 to 255, and none of another source comes
    between them; every output is written, shown or acted on in its order before a source is looked at again; a
    batch is answered by its epoch before it is written, and an epoch change only after its releases are written;
    a picture shown is the whole current image; after a failure, a shutdown or an end nothing more is sent.  It
    returns exactly once a shutdown, a closed queue, the server's end or a failure is there, and it always ends the
    lifecycle, with its own result as cause unless the server ended the session first. *)
Theorem loop_does_what_is_due {D E} `{InputDatabase D E} `{Serde Envelope} `{EqDecision E} (show : FrameError -> text)
    (generation : N) (size : Z * Z) (steps fuel : nat) :
  follows (duty_step size) (fun (g : Duty D E) r => told_end r g)
    (run_session show generation size steps fuel) duty_new.
Proof.
  unfold run_session. apply follows_bind. eapply follows_mono; [|apply run_loop_due]. intros g [r|] Hr; [|exact Hr].
  destruct Hr as (Hs & Hf & Hok). apply follows_act. intros []. destruct r as [[]|e]; cbn [duty_step run_cause is_ok negb] in *.
  - rewrite allow_true by (split; [done|by apply Hok]). cbn. split; [done|]. exists (du_causes g). split_and!; [done|done|].
    intros _ Hst. destruct (Hok eq_refl) as [?|(_ & _ & ?)]; [congruence|done].
  - rewrite allow_true by done. cbn. split; [done|]. exists (du_causes g). by split_and!.
Qed.

(** ** A short session: a batch, an epoch change, and the server's end *)
Module LoopDemo.
Import ProtocolDemo.

Inductive Seen :=
| SawReply (reply : N) (accepted : bool) | SawEvents (n : nat) | SawFrame (frame : bytes) | SawEpoch (reply : N)
| SawPicture (width height : Z) | SawEnd (c : EndCause).

Definition quiet_sources : Sources :=
  {| so_shutdown := false; so_retire := false; so_ping := false; so_pdu := None; so_command := None; so_data := false; so_keepalive := false |}.
Definition with_command (c : Command) : Sources :=
  {| so_shutdown := false; so_retire := false; so_ping := false; so_pdu := None; so_command := Some (Some c); so_data := false; so_keepalive := true |}.
Definition with_pdu (b : bytes) : Sources :=
  {| so_shutdown := false; so_retire := false; so_ping := false; so_pdu := Some (Ok b); so_command := None; so_data := true; so_keepalive := false |}.

Definition World : Type := list Sources * list Seen.
Definition saw (x : Seen) (w : World) : World := (fst w, snd w ++ [x]).

(** The surroundings: what is ready at each round, and a stage that answers
    input with one frame that holds the number of events. *)
Definition surroundings (B : Type) (o : LoopOp ListEvent B) (w : World) : World * B :=
  match o in LoopOp _ B return World * B with
  | Poll => ((tail (fst w), snd w), default quiet_sources (head (fst w)))
  | ProcessInput events => (saw (SawEvents (length events)) w, Ok [ResponseFrame [N.of_nat (length events)]])
  | ProcessPdu payload => (w, Ok [GraphicsUpdate; PointerOutput; Terminate payload])
  | WriteAll frame => (saw (SawFrame frame) w, WrittenAll)
  | ReplyInput reply r => (saw (SawReply reply (is_ok r)) w, tt)
  | ReplyEpoch reply => (saw (SawEpoch reply) w, tt)
  | ReadImage => (w, (2, 1, [0; 0; 0; 0; 1; 1; 1; 1]%N))
  | WriteFrame width height _ => (saw (SawPicture width height) w, tt)
  | LifecycleEnd c => (saw (SawEnd c) w, tt)
  | SetDesktop _ | FirstTick | CheckLiveness | Rebuild _ | Invalidate _ => (w, tt)
  | TakeRetire | TakeData | GetDvc | ActivationState => (w, None)
  | BridgeReady => (w, false)
  | EncodeDvc _ _ | EncodeSvc _ => (w, Err [])
  | StepRead => (w, inl CutShutdown)
  | StepWrite _ => (w, inl CutShutdown)
  end.

Definition key : Scancode := {| from_u8_extended := false; from_u8_code := 30 |}.

Definition rounds : list Sources :=
  [with_command (LInput 0 [KeyPressed key] 5); quiet_sources; with_command (LSetEpoch 1 7);
   with_command (LInput 0 [KeyReleased key] 8); with_pdu (txt "bye")].

Example a_session :
  let '(w, r) := run surroundings (run_session (D := list Pressed) (fun _ => []) 1 (2, 1) 3 9) (rounds, []) in
  r = Some (Ok tt) /\
  snd w = [SawReply 5 true; SawEvents 1; SawFrame [1%N]; SawEvents 1; SawFrame [1%N]; SawEpoch 7; SawReply 8 false;
           SawPicture 2 1; SawEnd (ServerEnded (txt "bye")); SawEnd ClientClosed].
Proof. vm_compute. by split. Qed.

(** A shutdown is taken before anything else, and ends the loop at once. *)
Example a_shutdown :
  let busy := {| so_shutdown := true; so_retire := true; so_ping := true; so_pdu := Some (Ok []);
                 so_command := Some (Some (LInput 0 [KeyPressed key] 1)); so_data := true; so_keepalive := true |} in
  run surroundings (run_session (D := list Pressed) (fun _ => []) 1 (2, 1) 3 1) ([busy], [])
  = (([], [SawEnd ClientClosed]), Some (Ok tt)).
Proof. by vm_compute. Qed.
End LoopDemo.
