(* ===== verification/Session.v ===== *)
(** * A session's callers ([rdpilot/src/session.rs])

    What [Session] and [InputHandle] do over the queue of the session loop
    (SessionLoop.v) and the bridge (HostBridge.v): mouse and key actions, the
    epoch change, the launch of the guest's bridge by keys typed into the Run
    dialog and the request of a file transfer.  Everything another
    part answers is an operation ([SessOp]).  The files of a transfer are in
    SessionFiles.v.

    Times are in nanoseconds. *)
From S2P Require Import Prelude Bytes Json Vocab InputOps Errors LoopInput BridgeProtocol HostBridge Prog.
Open Scope Z_scope.

Definition DOUBLE_CLICK_GAP : Z := 100 * 10 ^ 6.
Definition DRAG_STEP_GAP : Z := 15 * 10 ^ 6.
Definition RUN_DIALOG_SETTLE : Z := 2 * 10 ^ 9.
Definition SESSION_SETTLE : Z := 10 * 10 ^ 9.
Definition TYPE_CHUNK_LEN : nat := 1.
Definition TYPE_CHUNK_GAP : Z := 150 * 10 ^ 6.
Definition PING_TIMEOUT : Z := 500 * 10 ^ 6.
Definition PING_RETRY_GAP : Z := 100 * 10 ^ 6.
Definition TRANSFER_TIMEOUT : Z := 30 * 10 ^ 9.
Definition NATIVE_ONLY_PING : text := txt "native-only session (CuaEnabled no): there is no rdpilot-bridge to ping".

(** [chunk_str] *)
Definition chunk_str (s : text) (max_len : nat) : list text := chunks (Nat.max max_len 1) s.

(** ** The launch line *)

Definition SERVED_BUNDLE_DIR : text := txt "\\tsclient\RDPILOT\bundle".
Definition RUN_LINE_LIMIT : nat := 240.
Definition DIGITS : text := txt "0123456789abcdefghijklmnopqrstuvwxyz".

(** The loop of [launcher_name], from the last digit to the first. *)
Fixpoint base36 (n : nat) (rest : N) (digits : text) : text :=
  match n with
  | O => digits
  | S n => base36 n (rest / 36)%N (nth (N.to_nat (rest mod 36)) DIGITS 0%N :: digits)
  end.

(** [launcher_name] *)
Definition launcher_name (generation : N) : text := txt "l" ++ base36 13 generation [] ++ txt ".exe".

(** [bridge_launch_command] *)
Definition bridge_launch_command (generation : N) : text :=
  let launcher := launcher_name generation in
  txt "cmd /d /c cd /d " ++ [dquote] ++ txt "%LOCALAPPDATA%" ++ [dquote]
  ++ txt " && (md rdpilot 2>nul & cd rdpilot) && copy /y " ++ SERVED_BUNDLE_DIR ++ [backslash] ++ BRIDGE_EXE_NAME
  ++ txt " " ++ launcher ++ txt " && (.\" ++ launcher ++ txt " install --generation " ++ dec generation
  ++ txt " & del " ++ launcher ++ txt ")".

(** ** What the calls ask for *)

Inductive SessOp : Type -> Type :=
| SendBatch (epoch : Z) (ops : list Operation) : SessOp bool        (** the queue takes it *)
| AwaitBatch : SessOp (option (result Error unit))                  (** [None]: the reply is dropped *)
| SendEpoch (epoch : Z) : SessOp bool
| AwaitEpoch : SessOp bool
| BridgeFailure : SessOp (option text)
| BridgeIsReady : SessOp bool
| SwapStarted : SessOp bool                                         (** what [bootstrap_started] was *)
| RecordStage (s : BootstrapStage) : SessOp unit
| StageSnapshot : SessOp (list BootstrapStage)
| Sleep (duration : Z) : SessOp unit
| DesktopSize : SessOp (Z * Z)
| FrameSize : SessOp (Z * Z)
| Instant : SessOp Z
| BridgeRequest (message : Message) (timeout : Z) : SessOp (result Error Message).

Local Open Scope prog_scope.

(** A step that may fail, as [?] has it. *)
Definition try_bind {A B} (p : prog SessOp (result Error A)) (k : A -> prog SessOp (result Error B)) : prog SessOp (result Error B) :=
  let! r := p in match r with Ok a => k a | Err e => Ret (Err e) end.
Notation "'try!' x ':=' p 'in' q" := (try_bind p (fun x => q))
  (at level 10, x pattern, p at level 100, q at level 200) : prog_scope.

(** [input_closed] *)
Definition input_closed : prog SessOp Error :=
  let! failure := act BridgeFailure in
  Ret (ErSession (default (txt "input channel closed") failure)).

(** [send_input] *)
Definition send_input (epoch : Z) (ops : list Operation) : prog SessOp (result Error unit) :=
  let! sent := act (SendBatch epoch ops) in
  if negb sent then let! e := input_closed in Ret (Err e)
  else
    let! answer := act AwaitBatch in
    match answer with
    | None => let! e := input_closed in Ret (Err e)
    | Some r => Ret r
    end.

(** [set_epoch] *)
Definition set_epoch (epoch : Z) : prog SessOp (result Error unit) :=
  let! sent := act (SendEpoch epoch) in
  if negb sent then let! e := input_closed in Ret (Err e)
  else
    let! done := act AwaitEpoch in
    if negb done then let! e := input_closed in Ret (Err e) else Ret (Ok tt).

Definition bounds_error (e : BoundsError) : Error := match e with CoordinateOutOfBounds x y w h => ErCoordinateOutOfBounds x y w h end.

(** The gap of [send_mouse]. *)
Definition mouse_gap (a : MouseAction) : option Z :=
  match a with
  | DoubleClick _ _ _ => Some DOUBLE_CLICK_GAP
  | Drag _ _ _ _ _ => Some DRAG_STEP_GAP
  | Move _ _ | Click _ _ _ | Scroll _ _ _ => None
  end.

(** Its loop; the gap is kept after every batch but the last. *)
Fixpoint send_batches (epoch : Z) (gap : option Z) (batches : list (list Operation)) : prog SessOp (result Error unit) :=
  match batches with
  | [] => Ret (Ok tt)
  | batch :: batches =>
      try! _ := send_input epoch batch in
      do! match gap, batches with
          | Some gap, _ :: _ => act (Sleep gap)
          | _, _ => Ret tt
          end in
      send_batches epoch gap batches
  end.

(** [Session::send_mouse] *)
Definition send_mouse (action : MouseAction) (epoch : Z) : prog SessOp (result Error unit) :=
  let! size := act DesktopSize in
  match check_bounds size action with
  | Err e => Ret (Err (bounds_error e))
  | Ok _ => send_batches epoch (mouse_gap action) (mouse_operations action)
  end.

(** [Session::send_key] *)
Definition send_key (action : KeyAction) (epoch : Z) : prog SessOp (result Error unit) :=
  send_input epoch (key_operations action).

(** [Session::set_input_epoch] and [InputHandle::set_epoch] *)
Definition set_input_epoch (epoch : Z) : prog SessOp (result Error unit) := set_epoch epoch.

(** [InputHandle::send] *)
Definition handle_send (events : list RawInput) (epoch : Z) : prog SessOp (result Error unit) :=
  let! size := act FrameSize in
  match check_moves size events with
  | Err e => Ret (Err (bounds_error e))
  | Ok _ =>
      match raw_operations events with
      | [] => Ret (Ok tt)
      | ops => send_input epoch ops
      end
  end.

(** [Session::ping] *)
Definition ping (cua : bool) : prog SessOp (result Error Z) :=
  if negb cua then Ret (Err (ErSession NATIVE_ONLY_PING))
  else
    let! started := act Instant in
    try! m := act (BridgeRequest Ping PING_TIMEOUT) in
    match m with
    | Pong => let! now := act Instant in Ret (Ok (now - started))
    | _ => Ret (Err (ErDvc (txt "unexpected ping response")))
    end.

(** The loop over the pieces of the line. *)
Fixpoint type_chunks (pieces : list text) (epoch : Z) : prog SessOp (result Error unit) :=
  match pieces with
  | [] => Ret (Ok tt)
  | piece :: pieces =>
      try! _ := send_key (Type_ piece) epoch in
      do! act (Sleep TYPE_CHUNK_GAP) in
      type_chunks pieces epoch
  end.

(** [Session::inject_bootstrap] *)
Definition inject_bootstrap (generation : N) (epoch : Z) : prog SessOp (result Error unit) :=
  do! act (RecordStage LaunchInputAttempted) in
  try! _ := send_key (Combo [Win; KR]) epoch in
  do! act (Sleep RUN_DIALOG_SETTLE) in
  try! _ := send_key (Combo [Ctrl; KA]) epoch in
  try! _ := type_chunks (chunk_str (bridge_launch_command generation) TYPE_CHUNK_LEN) epoch in
  try! _ := send_key (Combo [Enter]) epoch in
  do! act (RecordStage LaunchInputSent) in
  Ret (Ok tt).

(** [join] of the stages with commas. *)
Fixpoint join_stages (l : list text) : text :=
  match l with
  | [] => []
  | [t] => t
  | t :: l => t ++ txt "," ++ join_stages l
  end.

(** [bootstrap_summary] *)
Definition bootstrap_summary (stages : list BootstrapStage) : text :=
  match stages with
  | [] => txt "none"
  | _ :: _ => join_stages (map stage_str stages)
  end.

(** The inner loop of [deploy_and_launch]: [None] when it is used up. *)
Fixpoint await_pong (n : nat) (cua : bool) : prog SessOp (option (result Error Z)) :=
  match n with
  | O => Ret None
  | S n =>
      let! failure := act BridgeFailure in
      match failure with
      | Some reason => Ret (Some (Err (ErBootstrap reason)))
      | None =>
          let! pong := ping cua in
          match pong with
          | Ok p => Ret (Some (Ok p))
          | Err _ => do! act (Sleep PING_RETRY_GAP) in await_pong n cua
          end
      end
  end.

(** Its outer loop. *)
Fixpoint launches (n : nat) (generation : N) (cua : bool) (epoch : Z) : prog SessOp (result Error Z) :=
  match n with
  | O =>
      let! stages := act StageSnapshot in
      Ret (Err (ErBootstrap (txt "rdpilot-bridge did not start (possible security prompt in the guest, or a bridge that does not speak bridge protocol "
        ++ dec PROTOCOL_VERSION ++ txt "); stages=" ++ bootstrap_summary stages)))
  | S n =>
      try! _ := inject_bootstrap generation epoch in
      let! pong := await_pong 60 cua in
      match pong with
      | Some r => Ret r
      | None => launches n generation cua epoch
      end
  end.

(** [Session::deploy_and_launch] *)
Definition deploy_and_launch (generation : N) (cua : bool) (epoch : Z) : prog SessOp (result Error Z) :=
  let! ready := act BridgeIsReady in
  if ready : bool then ping cua
  else
    let! started := act SwapStarted in
    if started : bool then Ret (Err (ErBootstrap (txt "launch already attempted for this generation; reconnect explicitly")))
    else
      do! act (Sleep SESSION_SETTLE) in
      launches 3 generation cua epoch.

(** What [transfer] makes of the answer. *)
Definition transfer_outcome (response : Message) : result Error FileTransferData :=
  match response with
  | FileTransferResult result =>
      if fr_success result then ok_or (ErDvc (txt "missing transfer result")) (fr_data result)
      else
        let reason := default (txt "transfer failed") (fr_error result) in
        if decide (fr_error_kind result = Some (txt "path_traversal")) then Err (ErPathTraversal reason)
        else Err (ErBridgeRejected reason)
  | _ => Err (ErDvc (txt "unexpected transfer response"))
  end.

Definition transfer_request (op : FileTransferOp) (remote share : text) : Message :=
  FileTransfer {| fq_op := op; fq_remote_path := remote; fq_share_name := share |}.

(** [Session::transfer] *)
Definition transfer (op : FileTransferOp) (remote share : text) : prog SessOp (result Error FileTransferData) :=
  try! response := act (BridgeRequest (transfer_request op remote share) TRANSFER_TIMEOUT) in
  Ret (transfer_outcome response).

(** ** The line *)

Lemma digits_nodup : NoDup DIGITS.
Proof. apply (bool_decide_unpack _). by vm_compute. Qed.

Lemma nth_inj {A} (l : list A) d i j :
  NoDup l -> (i < length l)%nat -> (j < length l)%nat -> nth i l d = nth j l d -> i = j.
Proof.
  intros Hd [x Hx]%lookup_lt_is_Some [y Hy]%lookup_lt_is_Some E.
  rewrite (nth_lookup_Some l i d x Hx), (nth_lookup_Some l j d y Hy) in E. subst y. by eapply NoDup_lookup.
Qed.

Lemma digit_inj i j : (i < 36)%N -> (j < 36)%N ->
  nth (N.to_nat i) DIGITS 0%N = nth (N.to_nat j) DIGITS 0%N -> i = j.
Proof.
  intros Hi Hj E. assert (Hl : length DIGITS = 36%nat) by done.
  apply N2Nat.inj, (nth_inj DIGITS 0%N); [apply digits_nodup|rewrite Hl; lia|rewrite Hl; lia|exact E].
Qed.

Lemma base36_length n : forall rest acc, length (base36 n rest acc) = (n + length acc)%nat.
Proof. induction n as [|n IH]; intros rest acc; cbn; [done|]. rewrite IH. cbn. lia. Qed.

Lemma base36_inj n : forall r r' acc acc', length acc = length acc' ->
  base36 n r acc = base36 n r' acc' -> (r mod 36 ^ N.of_nat n = r' mod 36 ^ N.of_nat n)%N /\ acc = acc'.
Proof.
  induction n as [|n IH]; intros r r' acc acc' Hl E; cbn [base36] in E; [by rewrite !N.mod_1_r|].
  apply IH in E as [E1 [= E2 E3]]; [|cbn; lia]. split; [|done].
  apply digit_inj in E2; [|apply N.mod_lt; lia..].
  rewrite Nat2N.inj_succ, N.pow_succ_r', !N.Div0.mod_mul_r. congruence.
Qed.

(** Letters and digits of a launcher name. *)
Lemma base36_digits n : forall rest acc, Forall (fun c => c ∈ DIGITS) acc -> Forall (fun c => c ∈ DIGITS) (base36 n rest acc).
Proof.
  induction n as [|n IH]; intros rest acc Ha; cbn [base36]; [done|]. apply IH. constructor; [|done].
  apply list_elem_of_In, nth_In. change (length DIGITS) with 36%nat. pose proof (N.mod_lt rest 36). lia.
Qed.

Lemma dec_length w n : (n < 10 ^ N.of_nat w)%N -> (0 < w)%nat -> (length (dec n) <= w)%nat.
Proof. intros H1 H2. pose proof (pad0_dec_length w n H1 H2) as Hp. unfold pad0 in Hp. rewrite length_app, length_replicate in Hp. lia. Qed.

Lemma dec_inj n n' : dec n = dec n' -> n = n'.
Proof. intros E. pose proof (parse_digits_dec n) as H. rewrite E, parse_digits_dec in H. congruence. Qed.

Lemma launcher_length g : length (launcher_name g) = 18%nat.
Proof. unfold launcher_name. rewrite !length_app, base36_length. done. Qed.

Lemma chunk_str_pieces t : concat (chunk_str t TYPE_CHUNK_LEN) = t /\ Forall (fun p => length p = 1%nat) (chunk_str t TYPE_CHUNK_LEN).
Proof.
  unfold chunk_str, chunks. change (Nat.max TYPE_CHUNK_LEN 1) with 1%nat. split; [apply chunks_fuel_concat; lia|].
  eapply Forall_impl; [apply chunks_fuel_size; lia|]. cbn. intros. lia.
Qed.

(** A character the Run dialog takes as it is typed. *)
Definition printable (c : char) : bool := in_range 32 126 c.

Lemma printable_dec n : forallb printable (dec n) = true.
Proof.
  apply forallb_forall. intros c Hc%list_elem_of_In. pose proof (dec_digits n) as H. rewrite Forall_forall in H. apply H in Hc.
  unfold is_ascii_digit, printable, in_range in *. apply andb_true_iff in Hc as [?%N.leb_le ?%N.leb_le].
  apply andb_true_iff. rewrite !N.leb_le. lia.
Qed.

Lemma printable_launcher g : forallb printable (launcher_name g) = true.
Proof.
  unfold launcher_name. rewrite !forallb_app. apply andb_true_iff. split; [done|]. apply andb_true_iff. split; [|done].
  apply forallb_forall. intros c Hc%list_elem_of_In. pose proof (base36_digits 13 g [] (Forall_nil_2 _)) as H.
  rewrite Forall_forall in H. apply H in Hc.
  assert (forallb printable DIGITS = true) as Hp by by vm_compute. rewrite forallb_forall in Hp. by apply Hp, list_elem_of_In.
Qed.

(** ** The launch *)

(** The batches of one launch: the Run dialog, its text selected, the line
    character by character, and Enter. *)
Definition script (generation : N) : list (list Operation) :=
  map key_operations ([Combo [Win; KR]; Combo [Ctrl; KA]]
    ++ map Type_ (chunk_str (bridge_launch_command generation) TYPE_CHUNK_LEN) ++ [Combo [Enter]]).

(** What a launch may still do: what it heard about the bridge being ready
    ([None]: it has not asked), whether it took the one launch of the
    generation ([None]: it has not tried), the batches left of the script under
    way, whether the answer of a batch is due, the scripts begun, whether input
    was refused, and whether the bridge answered its last ping. *)
Record Launching := {
  lg_ready : option bool; lg_mine : option bool; lg_left : list (list Operation); lg_due : bool;
  lg_attempts : nat; lg_refused : bool; lg_pong : bool }.

Definition launching_new : Launching :=
  {| lg_ready := None; lg_mine := None; lg_left := []; lg_due := false; lg_attempts := 0; lg_refused := false;
     lg_pong := false |}.

Definition permit (P : Prop) `{Decision P} (g : Launching) : option Launching := if decide P then Some g else None.

Definition refused (g : Launching) : Launching :=
  {| lg_ready := lg_ready g; lg_mine := lg_mine g; lg_left := lg_left g; lg_due := false; lg_attempts := lg_attempts g;
     lg_refused := true; lg_pong := false |}.

(** In a launch, with [rest] of the script to type. *)
Definition typing (rest : list (list Operation)) (due : bool) (attempts : nat) : Launching :=
  {| lg_ready := Some false; lg_mine := Some true; lg_left := rest; lg_due := due; lg_attempts := attempts;
     lg_refused := false; lg_pong := false |}.

(** Input may go: the bridge was asked and is not ready, this call launches,
    nothing was refused and no answer is due. *)
Definition may_type (g : Launching) : Prop :=
  lg_ready g = Some false /\ lg_mine g = Some true /\ lg_refused g = false /\ lg_due g = false.

(** A ping goes where the bridge was found ready, or between two scripts. *)
Definition may_ping (g : Launching) : Prop :=
  (lg_ready g = Some true /\ lg_attempts g = 0%nat) \/ (may_type g /\ lg_left g = [] /\ (0 < lg_attempts g)%nat).

Definition launch_step (generation : N) (epoch : Z) (B : Type) (o : SessOp B) : B -> Launching -> option Launching :=
  match o with
  | BridgeIsReady => fun b g => permit (lg_ready g = None)
      {| lg_ready := Some b; lg_mine := lg_mine g; lg_left := lg_left g; lg_due := lg_due g; lg_attempts := lg_attempts g;
         lg_refused := lg_refused g; lg_pong := lg_pong g |}
  | SwapStarted => fun b g => permit (lg_ready g = Some false /\ lg_mine g = None)
      {| lg_ready := lg_ready g; lg_mine := Some (negb b); lg_left := lg_left g; lg_due := lg_due g;
         lg_attempts := lg_attempts g; lg_refused := lg_refused g; lg_pong := lg_pong g |}
  | RecordStage LaunchInputAttempted => fun _ g => permit (may_type g /\ lg_left g = [] /\ (lg_attempts g < 3)%nat)
      (typing (script generation) false (S (lg_attempts g)))
  | RecordStage LaunchInputSent => fun _ g => permit (may_type g /\ lg_left g = [] /\ (0 < lg_attempts g)%nat) g
  | SendBatch e ops => fun b g =>
      match lg_left g with
      | due :: rest => permit (may_type g /\ e = epoch /\ ops = due)
          (if b then typing rest true (lg_attempts g) else refused g)
      | [] => None
      end
  | AwaitBatch => fun r g => permit (lg_due g = true)
      (match r with Some (Ok _) => typing (lg_left g) false (lg_attempts g) | _ => refused g end)
  | BridgeFailure | StageSnapshot | Sleep _ | Instant => fun _ g => Some g
  | BridgeRequest m _ => fun r g => permit (m = Ping /\ may_ping g)
      {| lg_ready := lg_ready g; lg_mine := lg_mine g; lg_left := lg_left g; lg_due := lg_due g; lg_attempts := lg_attempts g;
         lg_refused := lg_refused g; lg_pong := match r with Ok Pong => true | _ => false end |}
  | _ => fun _ _ => None
  end.

Section LaunchLemmas.
Context (generation : N) (epoch : Z).
Abbreviation fol := (follows (launch_step generation epoch)).

Lemma permit_true (P : Prop) `{Decision P} g : P -> permit P g = Some g.
Proof. intros HP. unfold permit. by rewrite decide_True. Qed.

(** How a step of the typing ends: the rest is due, or input was refused and
    the step fails. *)
Definition typed {A} (rest : list (list Operation)) (attempts : nat) (g : Launching) (r : result Error A) : Prop :=
  match r with
  | Ok _ => g = typing rest false attempts
  | Err _ => lg_refused g = true /\ lg_ready g = Some false /\ lg_mine g = Some true /\ lg_attempts g = attempts
  end.

(** [?] passes a refusal on. *)
Lemma try_typed {A B} (p : prog SessOp (result Error A)) (k : A -> prog SessOp (result Error B)) rest rest' n g :
  fol (typed rest n) p g -> (forall a, fol (typed rest' n) (k a) (typing rest false n)) ->
  fol (typed rest' n) (try_bind p k) g.
Proof.
  intros Hp Hk. apply follows_bind. eapply follows_mono; [|exact Hp]. intros g' [a|e] Hr; [|exact Hr]. cbn in Hr. subst g'. apply Hk.
Qed.

Lemma send_typed a rest n :
  fol (typed rest n) (send_key a epoch) (typing (key_operations a :: rest) false n).
Proof.
  unfold send_key, send_input. apply follows_act. intros b. cbn [launch_step typing lg_left]. rewrite permit_true by done.
  destruct b; cbn [negb].
  - apply follows_act. intros [[[]|e]|]; cbn [launch_step]; rewrite permit_true by done; cbn; [done|done|]. by intros failure.
  - cbn. by intros failure.
Qed.

Lemma type_chunks_typed pieces rest n :
  fol (typed rest n) (type_chunks pieces epoch) (typing (map key_operations (map Type_ pieces) ++ rest) false n).
Proof.
  induction pieces as [|p pieces IH]; cbn [type_chunks map app]; [done|].
  eapply try_typed; [apply send_typed|]. intros []. apply follows_act. intros []. cbn [launch_step]. apply IH.
Qed.

(** The state after a ping, by whether it was answered. *)
Definition pinged (b : bool) (g : Launching) : Launching :=
  {| lg_ready := lg_ready g; lg_mine := lg_mine g; lg_left := lg_left g; lg_due := lg_due g; lg_attempts := lg_attempts g;
     lg_refused := lg_refused g; lg_pong := b |}.

Lemma inject_typed n b : (n < 3)%nat ->
  fol (typed [] (S n)) (inject_bootstrap generation epoch) (pinged b (typing [] false n)).
Proof.
  intros Hn. apply follows_act. intros []. cbn [launch_step pinged typing lg_attempts lg_left]. rewrite permit_true by done.
  unfold script. rewrite !map_app. cbn [map app].
  eapply try_typed; [apply send_typed|]. intros []. apply follows_act. intros []. cbn [launch_step].
  eapply try_typed; [apply send_typed|]. intros [].
  eapply try_typed; [apply type_chunks_typed|]. intros [].
  eapply try_typed; [apply send_typed|]. intros []. apply follows_act. intros []. cbn [launch_step]. by rewrite permit_true by (split_and!; done || (cbn; lia)).
Qed.

(** A ping that succeeds was answered. *)
Lemma ping_answered cua g : may_ping g ->
  fol (fun g' (r : result Error Z) => g' = g /\ is_ok r = false \/ g' = pinged false g /\ is_ok r = false \/ g' = pinged true g)
    (ping cua) g.
Proof.
  intros Hg. unfold ping. destruct cua; cbn [negb]; [|by left]. apply follows_act. intros started. cbn [launch_step].
  apply follows_bind. apply follows_act. intros [m|e]; cbn [launch_step]; rewrite permit_true by done; [|by right; left].
  cbn. destruct m; cbn; auto.
Qed.

Lemma await_answered n cua rest : (0 < rest <= 3)%nat -> forall b,
  fol (fun g r => exists b, g = pinged b (typing [] false rest) /\ (forall p, r = Some (Ok p) -> b = true))
    (await_pong n cua) (pinged b (typing [] false rest)).
Proof.
  intros Hr. induction n as [|n IH]; intros b; cbn [await_pong]; [by exists b|].
  apply follows_act. intros [reason|]; cbn [launch_step]; [by exists b|].
  apply follows_bind. eapply follows_mono; [|apply ping_answered; right; unfold may_type; cbn; split_and!; (done || lia)].
  assert (Hgo : forall c, fol (fun g r => exists b, g = pinged b (typing [] false rest) /\ (forall p, r = Some (Ok p) -> b = true))
    (do! act (Sleep PING_RETRY_GAP) in await_pong n cua) (pinged c (typing [] false rest))).
  { intros c. apply follows_act. intros []. cbn [launch_step]. apply IH. }
  intros g' [p|e] [[-> Hx]|[[-> Hx]| ->]]; try done; [by exists true|apply Hgo..].
Qed.

(** How a call ends. *)
Definition launch_end {A} (g : Launching) (r : result Error A) : Prop :=
  (lg_attempts g <= 3)%nat /\
  (lg_ready g <> Some false \/ lg_mine g <> Some true -> lg_attempts g = 0%nat) /\
  (lg_refused g = true -> is_ok r = false) /\ (lg_refused g = false -> lg_left g = []) /\
  (is_ok r = true -> lg_pong g = true /\ (lg_ready g = Some true \/ (0 < lg_attempts g)%nat)).

Lemma launches_end n cua : forall done_ b, (n + done_ <= 3)%nat -> (b = true -> (0 < done_)%nat) ->
  fol launch_end (launches n generation cua epoch) (pinged b (typing [] false done_)).
Proof.
  induction n as [|n IH]; intros k b Hk Hb; cbn [launches].
  - apply follows_act. intros stages. cbn. split_and!; cbn; try (done || lia). intros [?|?]; done.
  - apply follows_bind. eapply follows_mono; [|apply inject_typed; lia]. intros g [[]|e] Hr; cbn in Hr.
    + subst g. apply follows_bind. eapply follows_mono; [|apply (await_answered 60 cua (S k) ltac:(lia) false)].
      intros g' [r|] (c & -> & Hc).
      * split_and!; cbn; try (done || lia); [by intros [?|?]|]. destruct r; [|done]. intros _. split; [by eapply Hc|right; lia].
      * apply IH; lia.
    + destruct Hr as (Hr & Hm & Hy & Ha). split_and!; [rewrite Ha; lia|intros [?|?]; congruence|done|by rewrite Hr|done].
Qed.
End LaunchLemmas.

(** ** Properties *)

(** For every generation the line that starts the guest's bridge has at most 240 characters, all printable ASCII,
    so that the Run dialog keeps all of it; typed piece by piece it is one character at a time and nothing else;
    and the name of the launcher has one length, is a letter with letters and digits, and belongs to one generation. *)
Theorem launch_line_fits (g : N) :
  (g < 2 ^ 64)%N ->
  let line := bridge_launch_command g in
  (length line <= RUN_LINE_LIMIT)%nat /\ forallb printable line = true /\
  concat (chunk_str line TYPE_CHUNK_LEN) = line /\ Forall (fun p => length p = 1%nat) (chunk_str line TYPE_CHUNK_LEN) /\
  length (launcher_name g) = 18%nat /\
  (exists digits, launcher_name g = txt "l" ++ digits ++ txt ".exe" /\ Forall (fun c => c ∈ DIGITS) digits) /\
  forall g', (g' < 2 ^ 64)%N -> launcher_name g' = launcher_name g -> g' = g.
Proof.
  intros Hg. cbn zeta. destruct (chunk_str_pieces (bridge_launch_command g)) as [Hc Hp].
  split; [|split; [|split; [exact Hc|split; [exact Hp|split; [apply launcher_length|split]]]]].
  - unfold bridge_launch_command. cbn zeta. rewrite !length_app, !launcher_length. pose proof (dec_length 20 g). cbn [length]. 
    change (length (txt "cmd /d /c cd /d ")) with 16%nat. unfold RUN_LINE_LIMIT.
    assert (length (dec g) <= 20)%nat by (apply H; [|lia]; eapply N.lt_trans; [exact Hg|by vm_compute]).
    vm_compute (length (txt _)). vm_compute (length SERVED_BUNDLE_DIR). vm_compute (length BRIDGE_EXE_NAME). lia.
  - unfold bridge_launch_command. cbn zeta. rewrite !forallb_app, !printable_launcher, printable_dec. by vm_compute.
  - exists (base36 13 g []). split; [done|]. by apply base36_digits.
  - intros g' Hg' E. unfold launcher_name in E. apply app_inv_head, app_inv_tail in E. apply base36_inj in E as [E _]; [|done].
    rewrite !N.mod_small in E; [done|eapply N.lt_trans; [eassumption|by vm_compute]..].
Qed.

Lemma launch_line_fits_witness :
  (77 < 2 ^ 64)%N /\ launcher_name 77 = txt "l0000000000025.exe" /\ length (bridge_launch_command 77) = 217%nat /\
  (length (bridge_launch_command 77) <= RUN_LINE_LIMIT)%nat.
Proof.
  assert (77 < 2 ^ 64)%N as H by by vm_compute. split_and!; [exact H|by vm_compute|by vm_compute|].
  apply (launch_line_fits 77 H).
Defined.

(** C26: a call that is to reach the bridge types only after it asked whether the bridge is ready and heard that it
    is not, and took the one launch of the generation; it types at most three times, each time exactly the Run dialog's
    keys, the launch line character by character and Enter, as input of its epoch, each batch after the
    former was taken; after the first batch that is refused or not answered it types nothing more and fails; it pings
    a bridge it found ready, or after a whole line, and nothing else; and it succeeds only with the answer of its
    last ping. *)
Theorem launch_types_the_line (generation : N) (cua : bool) (epoch : Z) :
  follows (launch_step generation epoch) launch_end (deploy_and_launch generation cua epoch) launching_new.
Proof.
  unfold deploy_and_launch. apply follows_act. intros ready. cbn [launch_step]. rewrite permit_true by done.
  destruct ready.
  - eapply follows_mono; [|apply ping_answered; by left]. intros g r [[-> Hr]|[[-> Hr]| ->]];
      split_and!; cbn; rewrite ?Hr; try (done || lia). intros _. split; [done|by left].
  - apply follows_act. intros started. cbn [launch_step]. rewrite permit_true by done. destruct started.
    + split_and!; cbn; (done || lia).
    + apply follows_act. intros []. cbn [launch_step]. by apply (launches_end generation epoch 3 cua 0 false); [lia|].
Qed.

(** ** Two launches *)
Module LaunchDemo.
(** The batches taken so far; the loop refuses once it has [limit] of them,
    and the bridge answers once the line was sent. *)
Definition surroundings (limit : nat) (B : Type) (o : SessOp B) (w : list (list Operation)) : list (list Operation) * B :=
  match o in SessOp B return list (list Operation) * B with
  | SendBatch _ ops => (w ++ [ops], true)
  | AwaitBatch => (w, Some (if decide (length w <= limit)%nat then Ok tt else Err (ErStaleInput 1 2)))
  | SendEpoch _ | AwaitEpoch => (w, true)
  | BridgeFailure => (w, None)
  | BridgeIsReady | SwapStarted => (w, false)
  | RecordStage _ | Sleep _ => (w, tt)
  | StageSnapshot => (w, [])
  | DesktopSize | FrameSize => (w, (100, 100))
  | Instant => (w, 5)
  | BridgeRequest _ _ => (w, if decide (length w < length (script 7))%nat then Err (ErDvc []) else Ok Pong)
  end.

Example a_launch : run (surroundings 1000) (deploy_and_launch 7 true 1) [] = (script 7, Ok 0).
Proof. by vm_compute. Qed.

(** A viewer takes control while the line is typed. *)
Example a_refused_launch : run (surroundings 9) (deploy_and_launch 7 true 1) [] = (take 10 (script 7), Err (ErStaleInput 1 2)).
Proof. by vm_compute. Qed.

(** A drag is seven batches; a point outside the desktop sends none. *)
Example a_drag : length (fst (run (surroundings 1000) (send_mouse (Drag 1 1 9 9 BtnLeft) 1) [])) = 7%nat.
Proof. by vm_compute. Qed.
Example a_drag_outside :
  run (surroundings 1000) (send_mouse (Drag 1 1 100 9 BtnLeft) 1) [] = ([], Err (ErCoordinateOutOfBounds 100 9 100 100)).
Proof. by vm_compute. Qed.
End LaunchDemo.
