(* ===== verification/SessionFiles.v ===== *)
(** * Transferring files ([upload_file], [download_file] of
      [rdpilot/src/session.rs])

    A file goes through the share directory, which the guest sees as a drive:
    an upload is staged there for the guest to read, a download is staged
    there by the guest.  The guest may do anything to the share at any time:
    before each operation on a file comes whatever it does next
    ([xf_guest]), which is confined to the share (Drive.v shows that).  SHA-256
    is third-party code.

    A transfer whose future is dropped ends at its request, as one that the
    bridge refuses does: the staged file is removed in both cases. *)
From S2P Require Import Prelude Bytes Json Errors BridgeProtocol Fs Prog Session.

Section Transfers.
(** Lower-case hex SHA-256, and the texts of an error and of a path. *)
Variable sha256 : bytes -> text.
Variable show_io : IoError -> text.
Variable show_path : path -> text.
(** What the guest does with a request, and its answer. *)
Variable guest : Message -> Files -> Files * result Error Message.

Record Xfer := { xf_io : Io; xf_guest : list (Files -> Files) }.

Definition T (A : Type) := Xfer -> Xfer * result Error A.

Definition tret {A} (a : A) : T A := fun s => (s, Ok a).
Definition tthrow {A} (e : Error) : T A := fun s => (s, Err e).
Definition tbind {A B} (m : T A) (f : A -> T B) : T B := fun s =>
  match m s with (s, Ok a) => f a s | (s, Err e) => (s, Err e) end.
Definition tattempt {A} (m : T A) : T (result Error A) := fun s => let '(s, r) := m s in (s, Ok r).
Local Notation "x <- m ; k" := (tbind m (fun x => k)) (at level 20, m at level 100, k at level 200, right associativity).
Local Notation "m ;; k" := (tbind m (fun _ => k)) (at level 100, k at level 200, right associativity).

(** What the guest does next, if anything. *)
Definition meddle (s : Xfer) : Xfer :=
  match xf_guest s with
  | [] => s
  | g :: gs => {| xf_io := {| io_fs := g (io_fs (xf_io s)); io_faults := io_faults (xf_io s) |}; xf_guest := gs |}
  end.

(** One operation on files. *)
Definition file {A} (f : IoError -> Error) (m : M A) : T A := fun s =>
  let s := meddle s in
  let '(io, r) := m (xf_io s) in ({| xf_io := io; xf_guest := xf_guest s |}, map_err f r).

Definition dvc_io (e : IoError) : Error := ErDvc (show_io e).

(** [fs::File::open]: a directory opens, and fails when it is read. *)
Definition fs_open (p : path) : M unit :=
  io_op (fun m => match m p with Some _ => Ok (m, tt) | None => Err NotFound end) unchanged.

(** [sha256_file] *)
Definition sha256_file (p : path) : T text :=
  file (fun e => ErDvc (txt "failed to open " ++ show_path p ++ txt " for checksum: " ++ show_io e)) (fs_open p) ;;
  c <- file (fun e => ErDvc (txt "failed to read " ++ show_path p ++ txt " while hashing: " ++ show_io e)) (fs_read p) ;
  tret (sha256 c).

(** [Session::transfer] *)
Definition request (op : FileTransferOp) (remote share : text) : T FileTransferData := fun s =>
  let s := meddle s in
  let '(fs, r) := guest (transfer_request op remote share) (io_fs (xf_io s)) in
  ({| xf_io := {| io_fs := fs; io_faults := io_faults (xf_io s) |}; xf_guest := xf_guest s |}, rbind r transfer_outcome).

(** [StagedFile]: its file is removed when it is dropped. *)
Definition with_staged {A} (staged : path) (m : T A) : T A := fun s =>
  let '(s, r) := m s in (fst (file dvc_io (fs_remove_file staged) s), r).

(** [io::copy] into a file that was just created. *)
Definition io_copy (source dest : path) : T unit :=
  c <- file dvc_io (fs_read source) ; file dvc_io (fs_append dest c).

Record TransferOutcome := { to_bytes : N; to_checksum : text }.

(** [unique_share_name], of the clock, the process and the counter. *)
Definition unique_share_name (nanos pid counter : N) : text :=
  txt "rdpilot-transfer-" ++ dec nanos ++ txt "-" ++ dec pid ++ txt "-" ++ dec counter ++ txt ".tmp".

Definition NO_SHARE : Error := ErConfig (txt "file transfer requires share_root").

(** [upload_file] *)
Definition upload_file (share_root : option path) (name : text) (local : path) (remote_name : text) : T TransferOutcome :=
  match share_root with
  | None => tthrow NO_SHARE
  | Some root =>
      let staged := root ++ [name] in
      with_staged staged (
        file dvc_io (fs_open local) ;;
        file dvc_io (fs_write_new staged []) ;;
        io_copy local staged ;;
        hash <- sha256_file staged ;
        result <- request Upload remote_name name ;
        if negb (eq_ignore_ascii_case hash (fd_sha256 result)) then tthrow (ErChecksumMismatch (fd_sha256 result) hash)
        else tret {| to_bytes := fd_bytes_transferred result; to_checksum := hash |})
  end.

(** [let _ = fs::remove_file(local)] *)
Definition discard (local : path) : T unit := tattempt (file dvc_io (fs_remove_file local)) ;; tret tt.

(** [download_file] *)
Definition download_file (share_root : option path) (name : text) (remote_name : text) (local : path) : T TransferOutcome :=
  match share_root with
  | None => tthrow NO_SHARE
  | Some root =>
      let staged := root ++ [name] in
      with_staged staged (
        result <- request Download remote_name name ;
        hash <- sha256_file staged ;
        if negb (eq_ignore_ascii_case hash (fd_sha256 result)) then tthrow (ErChecksumMismatch (fd_sha256 result) hash)
        else
          file dvc_io (fs_open staged) ;;
          file dvc_io (fs_write_new local []) ;;
          copied <- tattempt (io_copy staged local) ;
          match copied with
          | Err e => discard local ;; tthrow e
          | Ok _ =>
              written_hash <- sha256_file local ;
              if negb (eq_ignore_ascii_case written_hash hash) then
                discard local ;; tthrow (ErChecksumMismatch hash written_hash)
              else tret {| to_bytes := fd_bytes_transferred result; to_checksum := hash |}
          end)
  end.

(** ** Where a transfer writes *)

(** The guest reaches nothing outside the share. *)
Definition confined (root : path) (g : Files -> Files) : Prop := forall m q, ~ root `prefix_of` q -> g m q = m q.

Definition guest_confined (root : path) : Prop := forall msg, confined root (fun m => fst (guest msg m)).

(** The files of a state. *)
Definition files (s : Xfer) : Files := io_fs (xf_io s).

(** What is left of the guest's doings stays confined, and paths outside [D]
    are as they were. *)
Definition within {A} (root : path) (D : path -> Prop) (m : T A) : Prop :=
  forall s, Forall (confined root) (xf_guest s) ->
  Forall (confined root) (xf_guest (fst (m s))) /\ forall q, ~ root `prefix_of` q -> ~ D q -> files (fst (m s)) q = files s q.

Lemma within_ret {A} root D (a : A) : within root D (tret a).
Proof. by intros s Hs. Qed.
Lemma within_throw {A} root D e : within root D (@tthrow A e).
Proof. by intros s Hs. Qed.
Lemma within_bind {A B} root D (m : T A) (f : A -> T B) :
  within root D m -> (forall a, within root D (f a)) -> within root D (tbind m f).
Proof.
  intros Hm Hf s Hs. destruct (Hm s Hs) as [H1 H2]. unfold tbind. destruct (m s) as [s1 [a|e]]; cbn in *; [|done].
  destruct (Hf a s1 H1) as [H3 H4]. split; [done|]. intros q Hq Hd. by rewrite H4, H2.
Qed.
Lemma within_attempt {A} root D (m : T A) : within root D m -> within root D (tattempt m).
Proof. intros Hm s Hs. pose proof (Hm s Hs) as H. unfold tattempt. by destruct (m s). Qed.

Lemma meddle_within root s :
  Forall (confined root) (xf_guest s) ->
  Forall (confined root) (xf_guest (meddle s)) /\ forall q, ~ root `prefix_of` q -> files (meddle s) q = files s q.
Proof.
  intros Hs. unfold meddle. destruct (xf_guest s) as [|g gs] eqn:E; [by rewrite E|]. apply Forall_cons in Hs as [Hg Hgs].
  split; [done|]. intros q Hq. by apply Hg.
Qed.

Lemma within_file {A} root D f (m : M A) : touches (fun q => root `prefix_of` q \/ D q) m -> within root D (file f m).
Proof.
  intros Hm s Hs. destruct (meddle_within root s Hs) as [H1 H2]. unfold file. destruct (m (xf_io (meddle s))) as [io r] eqn:E. cbn.
  split; [done|]. intros q Hq Hd. rewrite <- H2 by done. specialize (Hm (xf_io (meddle s)) q). rewrite E in Hm. unfold files. cbn in *.
  apply Hm. intuition.
Qed.

Lemma touches_open D p : touches D (fs_open p).
Proof. apply touches_io_op; [|done]. intros m m' a q E. by destruct (m p); simplify_eq. Qed.

Lemma within_sha root D p : within root D (sha256_file p).
Proof.
  unfold sha256_file. apply within_bind; [apply within_file, touches_open|]. intros _.
  apply within_bind; [apply within_file, touches_read|]. intros c. apply within_ret.
Qed.

Lemma within_request root D op remote share : guest_confined root -> within root D (request op remote share).
Proof.
  intros Hg s Hs. destruct (meddle_within root s Hs) as [H1 H2]. unfold request.
  destruct (guest _ _) as [fs r] eqn:E. cbn. split; [done|]. intros q Hq Hd. unfold files. cbn.
  pose proof (Hg (transfer_request op remote share) (files (meddle s)) q Hq) as H3. cbn in H3. unfold files in H3. rewrite E in H3. cbn in H3.
  rewrite H3. by apply H2.
Qed.

(** ** One file outside the share *)
Section OneFile.
Variables (root : path) (local : path) (calm : Prop).
Hypothesis Hroot : guest_confined root.
Hypothesis Hout : ~ root `prefix_of` local.

(** What is at [local]; and no operation fails, if [calm]. *)
Record here (n : option Node) (s : Xfer) : Prop := {
  hr_guest : Forall (confined root) (xf_guest s);
  hr_local : files s local = n;
  hr_calm : calm -> io_faults (xf_io s) = [] }.

Definition triple {A} (P : Xfer -> Prop) (m : T A) (Q : result Error A -> Xfer -> Prop) : Prop :=
  forall s, P s -> Q (snd (m s)) (fst (m s)).

Lemma triple_bind {A B} P (m : T A) (f : A -> T B) Q (R : result Error B -> Xfer -> Prop) :
  triple P m Q -> (forall a, triple (Q (Ok a)) (f a) R) -> (forall e s, Q (Err e) s -> R (Err e) s) -> triple P (tbind m f) R.
Proof.
  intros Hm Hf He s Hs. specialize (Hm s Hs). unfold tbind. destruct (m s) as [s1 [a|e]]; cbn in *; [by apply Hf|by apply He].
Qed.

Lemma triple_attempt {A} P (m : T A) Q (R : result Error (result Error A) -> Xfer -> Prop) :
  triple P m Q -> (forall r s, Q r s -> R (Ok r) s) -> triple P (tattempt m) R.
Proof. intros Hm HR s Hs. specialize (Hm s Hs). unfold tattempt. destruct (m s). by apply HR. Qed.

Lemma triple_weaken {A} (P : Xfer -> Prop) (m : T A) (Q R : result Error A -> Xfer -> Prop) :
  triple P m Q -> (forall r s, Q r s -> R r s) -> triple P m R.
Proof. intros Hm HR s Hs. by apply HR, Hm. Qed.

Lemma triple_pre {A} (P' P : Xfer -> Prop) (m : T A) (Q : result Error A -> Xfer -> Prop) :
  (forall s, P s -> P' s) -> triple P' m Q -> triple P m Q.
Proof. intros HP Hm s Hs. by apply Hm, HP. Qed.

(** The guest's doings do not reach the file. *)
Lemma here_meddle n s : here n s -> here n (meddle s).
Proof.
  intros [Hg Hl Hc]. destruct (meddle_within root s Hg) as [H1 H2]. split; [done|by rewrite H2|].
  intros H. unfold meddle. destruct (xf_guest s); [by apply Hc|cbn; by apply Hc].
Qed.

(** One operation: with no fault in store it is what it is without one. *)
Lemma triple_file {A} n f (ok : Files -> result IoError (Files * A)) bad (Q : result Error A -> Xfer -> Prop) :
  (forall m m' a s, m local = n -> ok m = Ok (m', a) -> here (m' local) s -> files s = m' -> Q (Ok a) s) ->
  (forall m e s, m local = n -> ok m = Err e -> here n s -> Q (Err (f e)) s) ->
  (forall m ft s, m local = n -> ~ calm -> here (bad ft m local) s -> Q (Err (f (ft_error ft))) s) ->
  triple (here n) (file f (io_op ok bad)) Q.
Proof.
  intros Hok Herr Hbad s Hs%here_meddle. unfold file. destruct (meddle s) as [io gs]. destruct Hs as [Hg Hl Hc]. cbn in *.
  unfold files in Hl. cbn in Hl. unfold io_op. destruct (io_faults io) as [|ft fts] eqn:Ef; [|destruct (ft_fails ft) eqn:Eft].
  - destruct (ok (io_fs io)) as [[m' a]|e] eqn:E; cbn; [by eapply Hok|eapply Herr; [exact Hl|exact E|by split]].
  - cbn. apply (Hbad (io_fs io)); [done| |split; [done|done|]]; intros Hcalm; by apply Hc in Hcalm.
  - destruct (ok (io_fs io)) as [[m' a]|e] eqn:E; cbn.
    + eapply Hok; [exact Hl|exact E| |done]. split; [done|done|]. intros Hcalm. by apply Hc in Hcalm.
    + eapply Herr; [exact Hl|exact E|]. split; [done|done|]. intros Hcalm. by apply Hc in Hcalm.
Qed.

(** Operations that leave the file alone. *)
Lemma triple_same {A} n f (ok : Files -> result IoError (Files * A)) bad :
  (forall m m' a, ok m = Ok (m', a) -> m' local = m local) -> (forall ft m, bad ft m local = m local) ->
  triple (here n) (file f (io_op ok bad)) (fun _ => here n).
Proof.
  intros Hok Hbad. apply triple_file; intros.
  - match goal with H : ok _ = _ |- _ => apply Hok in H end. congruence.
  - done.
  - rewrite Hbad in *. congruence.
Qed.

Lemma triple_open n f p : triple (here n) (file f (fs_open p)) (fun _ => here n).
Proof. apply triple_same; [|done]. intros m m' a E. by destruct (m p); simplify_eq. Qed.

(** Reading the file itself. *)
Lemma triple_read n f p :
  triple (here n) (file f (fs_read p)) (fun r s => here n s /\
    (p = local -> match r with
      | Ok c => n = Some (NFile c)
      | Err _ => calm -> n = None \/ n = Some NDir
      end)).
Proof.
  apply triple_file.
  - intros m m' a s Hl E Hh _. destruct (m p) as [[c|]|] eqn:Em; try done. injection E as <- <-. split; [by rewrite <- Hl|]. intros ->. congruence.
  - intros m e s Hl E Hh. split; [done|]. intros -> _. rewrite Hl in E. destruct n as [[]|]; try done; auto.
  - intros m ft s Hl Hc Hh. split; [by rewrite <- Hl|]. by intros _ ?.
Qed.

Lemma triple_sha n p :
  triple (here n) (sha256_file p) (fun r s => here n s /\
    match r with
    | Ok h => (exists c, h = sha256 c) /\ (p = local -> exists c, n = Some (NFile c) /\ h = sha256 c)
    | Err _ => p = local -> calm -> forall c, n <> Some (NFile c)
    end).
Proof.
  unfold sha256_file. eapply triple_bind.
  { instantiate (1 := fun r s => here n s /\ (p = local -> calm -> is_ok r = false -> n = None)). apply triple_file.
    - intros m m' a s Hl E Hh _. destruct (m p) eqn:Em; [|done]. injection E as <- <-. by rewrite <- Hl.
    - intros m e s Hl E Hh. split; [done|]. intros -> _ _. rewrite Hl in E. by destruct n.
    - intros m ft s Hl Hc Hh. split; [by rewrite <- Hl|]. by intros _ ?. }
  2: { intros e s [Hh Hn]. split; [done|]. intros Hp Hc c Hx. rewrite (Hn Hp Hc eq_refl) in Hx. done. }
  intros a. eapply (triple_pre (here n)); [by intros s [Hh _]|]. eapply triple_bind; [apply triple_read| |].
  - intros c s [Hh Hn]. split; [done|]. split; [by exists c|]. intros Hp. exists c. split; [by apply Hn|done].
  - intros e s [Hh Hn]. split; [done|]. intros Hp Hc c E. destruct (Hn Hp Hc); congruence.
Qed.

(** The guest's answer. *)
Definition reported (op : FileTransferOp) (remote share : text) (data : FileTransferData) : Prop :=
  exists m message, snd (guest (transfer_request op remote share) m) = Ok message /\ transfer_outcome message = Ok data.

Lemma triple_request n op remote share :
  triple (here n) (request op remote share) (fun r s => here n s /\ forall d, r = Ok d -> reported op remote share d).
Proof.
  intros s Hs%here_meddle. unfold request. destruct (guest _ _) as [fs r] eqn:E. destruct Hs as [Hg Hl Hc]. cbn. split.
  - split; [done| |done]. unfold files in *. cbn. rewrite <- Hl.
    pose proof (Hroot (transfer_request op remote share) (files (meddle s)) local Hout) as H. cbn in H. unfold files in H. by rewrite E in H.
  - intros d Hd. apply rbind_ok in Hd as (message & Hm & Hd). exists (files (meddle s)), message. unfold files. by rewrite E.
Qed.

(** A new file at [local]. *)
Lemma triple_create n f :
  triple (here n) (file f (fs_write_new local [])) (fun r s =>
    match r with
    | Ok _ => n = None /\ here (Some (NFile [])) s
    | Err _ => (n <> None \/ calm -> here n s) /\ exists n', here n' s
    end).
Proof.
  apply triple_file.
  - intros m m' a s Hl E Hh _. unfold check_parent in E. destruct (is_dir m (parent local)); [|done].
    destruct (m local); [done|]. injection E as <- <-. rewrite upd_same in Hh. done.
  - intros m e s Hl E Hh. split; [by intros _|by exists n].
  - intros m ft s Hl Hc Hh. split; [|by eexists]. intros [Hn|]; [|done]. subst n. destruct (m local) eqn:E; [|done]. by rewrite E in Hh.
Qed.

(** Writing to it. *)
Lemma triple_append f c :
  triple (here (Some (NFile []))) (file f (fs_append local c)) (fun r s =>
    match r with
    | Ok _ => here (Some (NFile c)) s
    | Err _ => ~ calm /\ exists c', here (Some (NFile c')) s
    end).
Proof.
  apply triple_file.
  - intros m m' a s Hl E Hh _. rewrite Hl in E. injection E as <- <-. by rewrite upd_same in Hh.
  - intros m e s Hl E Hh. by rewrite Hl in E.
  - intros m ft s Hl Hc Hh. split; [done|]. rewrite Hl, upd_same in Hh. by eexists.
Qed.

(** Taking it away again. *)
Lemma triple_remove c :
  triple (here (Some (NFile c))) (file dvc_io (fs_remove_file local)) (fun _ s => (calm -> here None s) /\ exists n, here n s).
Proof.
  apply triple_file.
  - intros m m' a s Hl E Hh _. rewrite Hl in E. injection E as <- <-. rewrite upd_same in Hh. split; [done|by eexists].
  - intros m e s Hl E Hh. by rewrite Hl in E.
  - intros m ft s Hl Hc Hh. split; [done|by eexists].
Qed.

Lemma triple_discard c e {A} :
  triple (here (Some (NFile c))) (discard local ;; @tthrow A e) (fun r s => r = Err e /\ (calm -> here None s) /\ exists n, here n s).
Proof.
  unfold discard. eapply triple_bind; [eapply triple_bind; [eapply triple_attempt; [apply triple_remove|]| |]| |].
  - intros r s Hs. instantiate (1 := fun r s => exists x, r = Ok x /\ (calm -> here None s) /\ exists n, here n s). cbn. by exists r.
  - intros x s (y & _ & Hs). instantiate (1 := fun r s => r = Ok tt /\ (calm -> here None s) /\ exists n, here n s). done.
  - by intros e' s (x & ? & _).
  - intros [] s [_ Hs]. done.
  - by intros e' s [? _].
Qed.

Lemma triple_copy source :
  triple (here (Some (NFile []))) (io_copy source local) (fun r s =>
    match r with
    | Ok _ => exists c, here (Some (NFile c)) s
    | Err _ => exists c, here (Some (NFile c)) s
    end).
Proof.
  unfold io_copy. eapply triple_bind; [apply triple_read| |].
  - intros c. eapply (triple_pre (here _)); [by intros s [Hh _]|]. eapply triple_weaken; [apply triple_append|].
    intros [[]|e] s; [by eexists|by intros [_ ?]].
  - intros e s [Hh _]. by eexists.
Qed.

(** How a download leaves the file. *)
Definition downloaded (remote share : text) (n : option Node) (r : result Error TransferOutcome) (s : Xfer) : Prop :=
  match r with
  | Ok out => n = None /\ exists c h data,
      here (Some (NFile c)) s /\ to_checksum out = h /\ (exists c', h = sha256 c') /\ reported Download remote share data /\
      eq_ignore_ascii_case h (fd_sha256 data) = true /\ eq_ignore_ascii_case (sha256 c) h = true /\ to_bytes out = fd_bytes_transferred data
  | Err _ => (n <> None \/ calm -> here n s) /\ exists n', here n' s
  end.

Lemma here_err remote share n e s : here n s -> downloaded remote share n (Err e) s.
Proof. intros Hs. split; [done|by exists n]. Qed.

(** From the new file on. *)
Lemma triple_written remote share staged h data :
  (exists c', h = sha256 c') -> reported Download remote share data -> eq_ignore_ascii_case h (fd_sha256 data) = true ->
  triple (here (Some (NFile [])))
    (copied <- tattempt (io_copy staged local) ;
     match copied with
     | Err e => discard local ;; tthrow e
     | Ok _ =>
         written_hash <- sha256_file local ;
         if negb (eq_ignore_ascii_case written_hash h) then discard local ;; tthrow (ErChecksumMismatch h written_hash)
         else tret {| to_bytes := fd_bytes_transferred data; to_checksum := h |}
     end)
    (downloaded remote share None).
Proof.
  intros Hh Hr Hd. eapply triple_bind; [eapply triple_attempt; [apply triple_copy|]| |].
  - intros r s Hs. instantiate (1 := fun r s => exists x, r = Ok x /\ exists c, here (Some (NFile c)) s). cbn.
    exists r. split; [done|]. by destruct r.
  - intros copied s (x & _ & c & Hs).
    assert (Hdis : forall e, downloaded remote share None (snd ((discard local ;; @tthrow TransferOutcome e) s)) (fst ((discard local ;; @tthrow TransferOutcome e) s))).
    { intros e. destruct (triple_discard c e (A := TransferOutcome) s Hs) as (-> & Hc & Hn). split; [|done]. intros [?|?]; [done|by apply Hc]. }
    destruct copied as [[]|e]; [|apply Hdis].
    apply (triple_bind (here (Some (NFile c))) _ _ _ (downloaded remote share None) (triple_sha (Some (NFile c)) local)); [| |exact Hs].
    + clear s Hs Hdis. intros w s [Hs [_ Hw]]. destruct (Hw eq_refl) as (c' & [= <-] & ->). destruct (eq_ignore_ascii_case (sha256 c) h) eqn:E; cbn [negb].
      * cbn. split; [done|]. by exists c, h, data.
      * destruct (triple_discard c (ErChecksumMismatch h (sha256 c)) (A := TransferOutcome) s Hs) as (-> & Hc & Hn). split; [|done].
        intros [?|?]; [done|by apply Hc].
    + intros e s' [Hs' He]. split; [|by eexists]. intros [?|Hc]; [done|]. by destruct (He eq_refl Hc c).
  - intros e s (x & ? & _). done.
Qed.

(** A step whose answer tells something. *)
Lemma triple_fact {A} n (F : Prop) (m : T A) Q : (F -> triple (here n) m Q) -> triple (fun s => here n s /\ F) m Q.
Proof. intros Hm s [Hs HF]. by apply Hm. Qed.

(** What follows the guest's answer. *)
Lemma triple_fetched n name remote staged data :
  reported Download remote name data ->
  triple (here n) (hash <- sha256_file staged ;
    if negb (eq_ignore_ascii_case hash (fd_sha256 data)) then tthrow (ErChecksumMismatch (fd_sha256 data) hash)
    else
      file dvc_io (fs_open staged) ;;
      file dvc_io (fs_write_new local []) ;;
      copied <- tattempt (io_copy staged local) ;
      match copied with
      | Err e => discard local ;; tthrow e
      | Ok _ =>
          written_hash <- sha256_file local ;
          if negb (eq_ignore_ascii_case written_hash hash) then discard local ;; tthrow (ErChecksumMismatch hash written_hash)
          else tret {| to_bytes := fd_bytes_transferred data; to_checksum := hash |}
      end) (downloaded remote name n).
Proof.
  intros Hr. eapply triple_bind; [apply triple_sha| |].
  2: { intros e s [Hs _]. by apply here_err. }
  intros h. apply triple_fact. intros [Hh _].
  destruct (eq_ignore_ascii_case h (fd_sha256 data)) eqn:Ed; cbn [negb]; [|intros s Hs; by apply here_err].
  eapply triple_bind; [apply triple_open| |intros e s; apply here_err].
  intros u. eapply triple_bind; [apply triple_create| |by intros e s Hs].
  intros []. intros s [-> Hs]. revert s Hs. by apply triple_written.
Qed.

(** The removal of the staged file. *)
Lemma triple_staged n remote share staged (m : T TransferOutcome) :
  staged <> local -> triple (here n) m (downloaded remote share n) -> triple (here n) (with_staged staged m) (downloaded remote share n).
Proof.
  intros Hne Hm s Hs. specialize (Hm s Hs). unfold with_staged. destruct (m s) as [s1 r]. cbn in *.
  assert (Hkeep : forall n', here n' s1 -> here n' (fst (file dvc_io (fs_remove_file staged) s1))).
  { intros n' Hn'. refine (triple_same n' dvc_io _ _ _ _ s1 Hn'); [|done].
    intros f f' a E. destruct (f staged) as [[]|]; try done. injection E as <- <-. by rewrite upd_other. }
  destruct r as [out|e]; cbn in *.
  - destruct Hm as (? & c & h & data & Hh & ?). split; [done|]. exists c, h, data. split; [by apply Hkeep|done].
  - destruct Hm as [H1 [n' H2]]. split; [by intros ?%H1%Hkeep|]. exists n'. by apply Hkeep.
Qed.

Lemma triple_download n name remote :
  root ++ [name] <> local ->
  triple (here n) (download_file (Some root) name remote local) (downloaded remote name n).
Proof.
  intros Hne. apply triple_staged; [done|]. eapply triple_bind; [apply triple_request| |].
  2: { intros e s [Hs _]. by apply here_err. }
  intros data s [Hs Hr]. by apply (triple_fetched n name remote (root ++ [name]) data (Hr data eq_refl)).
Qed.
End OneFile.

(** ** A quiet transfer: no fault, and a guest that only answers *)

Definition quiet (s : Xfer) : Prop := xf_guest s = [] /\ io_faults (xf_io s) = [].
Definition keeps_quiet {A} (m : T A) : Prop := forall s, quiet s -> quiet (fst (m s)).

Lemma quiet_ret {A} (a : A) : keeps_quiet (tret a).
Proof. by intros s Hs. Qed.
Lemma quiet_throw {A} e : keeps_quiet (@tthrow A e).
Proof. by intros s Hs. Qed.
Lemma quiet_bind {A B} (m : T A) (f : A -> T B) : keeps_quiet m -> (forall a, keeps_quiet (f a)) -> keeps_quiet (tbind m f).
Proof. intros Hm Hf s Hs. specialize (Hm s Hs). unfold tbind. destruct (m s) as [s1 [a|e]]; [by apply Hf|done]. Qed.
Lemma quiet_attempt {A} (m : T A) : keeps_quiet m -> keeps_quiet (tattempt m).
Proof. intros Hm s Hs. specialize (Hm s Hs). unfold tattempt. by destruct (m s). Qed.

Lemma meddle_quiet s : xf_guest s = [] -> meddle s = s.
Proof. intros H. unfold meddle. by rewrite H. Qed.

Lemma quiet_file {A} f (ok : Files -> result IoError (Files * A)) bad : keeps_quiet (file f (io_op ok bad)).
Proof.
  intros s [Hg Hf]. unfold file. rewrite meddle_quiet by done. unfold io_op. rewrite Hf.
  destruct (ok (io_fs (xf_io s))) as [[]|]; by split.
Qed.

Lemma quiet_request op remote share : keeps_quiet (request op remote share).
Proof. intros s [Hg Hf]. unfold request. rewrite meddle_quiet by done. destruct (guest _ _). by split. Qed.

Lemma quiet_sha p : keeps_quiet (sha256_file p).
Proof.
  unfold sha256_file. apply quiet_bind; [apply quiet_file|]. intros _. apply quiet_bind; [apply quiet_file|]. intros c. apply quiet_ret.
Qed.

(** The staged file is gone then. *)
Lemma staged_removed {A} staged (m : T A) s c : keeps_quiet m -> quiet s -> files (fst (with_staged staged m s)) staged <> Some (NFile c).
Proof.
  intros Hm Hs. specialize (Hm s Hs). unfold with_staged. destruct (m s) as [s1 r]. cbn in *. destruct Hm as [Hg Hf].
  unfold file. rewrite meddle_quiet by done. unfold fs_remove_file, io_op. rewrite Hf. unfold files.
  destruct (io_fs (xf_io s1) staged) as [[c'|]|] eqn:E; cbn; [by rewrite upd_same|congruence..].
Qed.

(** An operation that succeeds without the guest's interference. *)
Lemma file_quiet_ok {A} f (m : M A) s s' a :
  xf_guest s = [] -> file f m s = (s', Ok a) -> xf_guest s' = [] /\ m (xf_io s) = (xf_io s', Ok a).
Proof.
  intros Hg E. unfold file in E. rewrite meddle_quiet in E by done. destruct (m (xf_io s)) as [io [x|e]]; cbn in E; [|done].
  injection E as <- <-. done.
Qed.

Lemma tbind_ok {A B} (m : T A) (f : A -> T B) s s' b :
  tbind m f s = (s', Ok b) -> exists s1 a, m s = (s1, Ok a) /\ f a s1 = (s', Ok b).
Proof. unfold tbind. destruct (m s) as [s1 [a|e]]; [by eauto|done]. Qed.

(** What is staged is the file. *)
Lemma staged_content local staged s s' h :
  xf_guest s = [] -> local <> staged ->
  (file dvc_io (fs_open local) ;; file dvc_io (fs_write_new staged []) ;; io_copy local staged ;; sha256_file staged) s = (s', Ok h) ->
  xf_guest s' = [] /\ exists c, files s local = Some (NFile c) /\ h = sha256 c.
Proof.
  intros Hg Hne E. apply tbind_ok in E as (s1 & [] & E1 & E). apply (file_quiet_ok _ _ _ _ _ Hg) in E1 as [G1 E1].
  apply io_op_ok in E1. assert (files s1 = files s) as F1 by (unfold files; destruct (io_fs (xf_io s) local); congruence).
  apply tbind_ok in E as (s2 & [] & E2 & E). apply (file_quiet_ok _ _ _ _ _ G1) in E2 as [G2 [_ E2]%fs_write_new_ok].
  apply tbind_ok in E as (s4 & [] & E3 & E). apply tbind_ok in E3 as (s3 & c & E3 & E4).
  apply (file_quiet_ok _ _ _ _ _ G2) in E3 as [G3 [E3 F3]%fs_read_ok]. apply (file_quiet_ok _ _ _ _ _ G3) in E4 as [G4 E4].
  assert (io_fs (xf_io s4) = upd staged (Some (NFile c)) (io_fs (xf_io s3))) as F4.
  { apply (fs_append_ok _ _ _ _ _ E4 []). by rewrite F3, E2, upd_same. }
  apply tbind_ok in E as (s5 & [] & E5 & E). apply (file_quiet_ok _ _ _ _ _ G4) in E5 as [G5 E5]. apply io_op_ok in E5.
  assert (io_fs (xf_io s5) = io_fs (xf_io s4)) as F5 by (destruct (io_fs (xf_io s4) staged); congruence).
  apply tbind_ok in E as (s6 & c' & E6 & E). apply (file_quiet_ok _ _ _ _ _ G5) in E6 as [G6 [E6 F6]%fs_read_ok].
  injection E as <- <-. split; [done|]. exists c. rewrite F5, F4, upd_same in E6. injection E6 as <-. split; [|done].
  rewrite <- F1. unfold files. by rewrite E2, upd_other in E3.
Qed.

Lemma tbind_assoc {A B C} (m : T A) (f : A -> T B) (g : B -> T C) s : tbind m (fun a => tbind (f a) g) s = tbind (tbind m f) g s.
Proof. unfold tbind. by destruct (m s) as [s1 [a|e]]. Qed.

Lemma tbind_ext {A B} (m : T A) (f g : A -> T B) s : (forall a s, f a s = g a s) -> tbind m f s = tbind m g s.
Proof. intros H. unfold tbind. destruct (m s) as [s1 [a|e]]; [apply H|done]. Qed.

(** The first part of an upload, as one. *)
Lemma upload_staging {A} local staged (k : text -> T A) s :
  (file dvc_io (fs_open local) ;; file dvc_io (fs_write_new staged []) ;; io_copy local staged ;; hash <- sha256_file staged ; k hash) s
  = (hash <- (file dvc_io (fs_open local) ;; file dvc_io (fs_write_new staged []) ;; io_copy local staged ;; sha256_file staged) ; k hash) s.
Proof.
  rewrite <- (tbind_assoc (file dvc_io (fs_open local))). apply tbind_ext. intros _ s1.
  rewrite <- (tbind_assoc (file dvc_io (fs_write_new staged []))). apply tbind_ext. intros _ s2.
  by rewrite <- (tbind_assoc (io_copy local staged)).
Qed.

Lemma within_copy root (D : path -> Prop) a b : root `prefix_of` b \/ D b -> within root D (io_copy a b).
Proof.
  intros Hb. unfold io_copy. apply within_bind; [apply within_file, touches_read|]. intros c. apply within_file, touches_append. exact Hb.
Qed.

Lemma within_staged {A} root D staged (m : T A) : root `prefix_of` staged -> within root D m -> within root D (with_staged staged m).
Proof.
  intros Hr Hm s Hs. destruct (Hm s Hs) as [H1 H2]. unfold with_staged. destruct (m s) as [s1 r]. cbn in *.
  assert (within root D (file dvc_io (fs_remove_file staged))) as Hd by (apply within_file, touches_remove_file; by left).
  destruct (Hd s1 H1) as [H3 H4]. split; [done|]. intros q Hq HD. by rewrite H4, H2.
Qed.

Lemma within_upload root name local remote :
  guest_confined root -> within root (fun _ => False) (upload_file (Some root) name local remote).
Proof.
  intros Hg. assert (root `prefix_of` root ++ [name]) as Hr by by apply prefix_app_r. apply within_staged; [done|].
  apply within_bind; [apply within_file, touches_open|]. intros _.
  apply within_bind; [apply within_file, touches_write_new; by left|]. intros _.
  apply within_bind; [apply within_copy; by left|]. intros _. apply within_bind; [apply within_sha|]. intros h.
  apply within_bind; [by apply within_request|]. intros d. destruct (negb _); [apply within_throw|apply within_ret].
Qed.

Lemma within_discard {A} root local e : within root (eq local) (discard local ;; @tthrow A e).
Proof.
  apply within_bind; [|intros; apply within_throw]. unfold discard. apply within_bind; [|intros; apply within_ret].
  apply within_attempt, within_file, touches_remove_file. by right.
Qed.

Lemma within_download root name remote local :
  guest_confined root -> within root (eq local) (download_file (Some root) name remote local).
Proof.
  intros Hg. assert (root `prefix_of` root ++ [name]) as Hr by by apply prefix_app_r. apply within_staged; [done|].
  apply within_bind; [by apply within_request|]. intros d. apply within_bind; [apply within_sha|]. intros h.
  destruct (negb _); [apply within_throw|]. apply within_bind; [apply within_file, touches_open|]. intros _.
  apply within_bind; [apply within_file, touches_write_new; by right|]. intros _.
  apply within_bind; [apply within_attempt, within_copy; by right|]. intros [u|e]; [|apply within_discard].
  apply within_bind; [apply within_sha|]. intros w. destruct (negb _); [apply within_discard|apply within_ret].
Qed.

Lemma quiet_copy a b : keeps_quiet (io_copy a b).
Proof. apply quiet_bind; [apply quiet_file|]. intros c. apply quiet_file. Qed.

Lemma quiet_discard {A} local e : keeps_quiet (discard local ;; @tthrow A e).
Proof.
  apply quiet_bind; [|intros; apply quiet_throw]. apply quiet_bind; [apply quiet_attempt, quiet_file|]. intros. apply quiet_ret.
Qed.

(** Neither leaves its staged file behind. *)
Lemma upload_staged root name local remote s c : quiet s -> files (fst (upload_file (Some root) name local remote s)) (root ++ [name]) <> Some (NFile c).
Proof.
  apply staged_removed. apply quiet_bind; [apply quiet_file|]. intros _. apply quiet_bind; [apply quiet_file|]. intros _.
  apply quiet_bind; [apply quiet_copy|]. intros _. apply quiet_bind; [apply quiet_sha|]. intros h.
  apply quiet_bind; [apply quiet_request|]. intros d. destruct (negb _); [apply quiet_throw|apply quiet_ret].
Qed.

Lemma download_staged root name remote local s c : quiet s -> files (fst (download_file (Some root) name remote local s)) (root ++ [name]) <> Some (NFile c).
Proof.
  apply staged_removed. apply quiet_bind; [apply quiet_request|]. intros d. apply quiet_bind; [apply quiet_sha|]. intros h.
  destruct (negb _); [apply quiet_throw|]. apply quiet_bind; [apply quiet_file|]. intros _. apply quiet_bind; [apply quiet_file|]. intros _.
  apply quiet_bind; [apply quiet_attempt, quiet_copy|]. intros [u|e]; [|apply quiet_discard].
  apply quiet_bind; [apply quiet_sha|]. intros w. destruct (negb _); [apply quiet_discard|apply quiet_ret].
Qed.

(** What an upload that succeeds has done. *)
Lemma upload_done root name local remote s s' out :
  upload_file (Some root) name local remote s = (s', Ok out) ->
  exists data, reported Upload remote name data /\ to_bytes out = fd_bytes_transferred data /\
    eq_ignore_ascii_case (to_checksum out) (fd_sha256 data) = true /\
    (xf_guest s = [] -> local <> root ++ [name] -> exists c, files s local = Some (NFile c) /\ to_checksum out = sha256 c).
Proof.
  unfold upload_file, with_staged. rewrite upload_staging. destruct (tbind _ _ s) as [s9 r] eqn:E. intros [= _ ->].
  apply tbind_ok in E as (s1 & h & E1 & E). apply tbind_ok in E as (s2 & data & E2 & E).
  destruct (eq_ignore_ascii_case h (fd_sha256 data)) eqn:Ed; cbn [negb] in E; [|done]. injection E as <- <-. exists data.
  split; [|split; [done|split; [exact Ed|]]].
  - unfold request in E2. destruct (guest _ _) as [fs r] eqn:Eg. injection E2 as _ Hr. apply rbind_ok in Hr as (msg & -> & Hd).
    exists (io_fs (xf_io (meddle s1))), msg. split; [by rewrite Eg|done].
  - intros Hg Hne. by destruct (staged_content _ _ _ _ _ Hg Hne E1) as (_ & c & Hc & ->); exists c.
Qed.
End Transfers.

(** ** Properties *)

(** C25: whatever the guest does to the share and whatever fails, a download changes nothing outside the share but its
    own destination, and that one only when nothing was there; when it succeeds the destination holds exactly one
    file, with the checksum that the guest reported; when it fails without an operation on files failing, the
    destination is as it was and nothing stays in the share. *)
Theorem download_is_verified (sha256 : bytes -> text) show_io show_path guest root name remote local (s : Xfer) :
  (forall c, to_ascii_lowercase (sha256 c) = sha256 c) ->
  guest_confined guest root -> ~ root `prefix_of` local -> Forall (confined root) (xf_guest s) ->
  let '(s', r) := download_file sha256 show_io show_path guest (Some root) name remote local s in
  (forall q, ~ root `prefix_of` q -> q <> local -> files s' q = files s q) /\
  (files s local <> None -> files s' local = files s local) /\
  (io_faults (xf_io s) = [] -> is_ok r = false -> files s' local = files s local) /\
  (quiet s -> forall c, files s' (root ++ [name]) <> Some (NFile c)) /\
  forall out, r = Ok out ->
    files s local = None /\
    exists c data, files s' local = Some (NFile c) /\ reported guest Download remote name data /\
      to_checksum out = sha256 c /\ to_ascii_lowercase (fd_sha256 data) = sha256 c /\ to_bytes out = fd_bytes_transferred data.
Proof.
  intros Hlow Hg Hout Hs. destruct (download_file _ _ _ _ _ _ _ _ s) as [s' r] eqn:E.
  pose proof (within_download sha256 show_io show_path guest root name remote local Hg s Hs) as [_ Hw]. rewrite E in Hw. cbn in Hw.
  assert (root ++ [name] <> local) as Hne by (intros <-; by apply Hout, prefix_app_r).
  pose proof (triple_download sha256 show_io show_path guest root local (io_faults (xf_io s) = []) Hg Hout (files s local) name remote Hne s) as Ht.
  rewrite E in Ht. cbn [fst snd] in Ht. specialize (Ht ltac:(by split)). split; [intros q Hq Hd; by apply Hw|].
  split; [|split; [|split]].
  - intros Hn. destruct r as [out|e]; [by destruct Ht as [? _]|]. apply Ht. by left.
  - intros Hf He. destruct r as [out|e]; [done|]. apply Ht. by right.
  - intros Hq c. pose proof (download_staged sha256 show_io show_path guest root name remote local s c Hq) as H. by rewrite E in H.
  - intros out ->. destruct Ht as (Hn & c & h & data & Hh & Hc & [c' Hc'] & Hr & H1 & H2 & H3). split; [done|]. exists c, data.
    split; [apply Hh|]. split; [exact Hr|]. unfold eq_ignore_ascii_case in *. apply bool_decide_eq_true in H1, H2.
    rewrite Hlow, Hc', Hlow in H2. rewrite Hc', Hlow in H1. rewrite Hc, Hc'. split_and!; congruence.
Qed.

(** Whatever the guest does to the share and whatever fails, an upload changes nothing outside the share; when it
    succeeds the guest reported the checksum of the staged file, and if the guest did nothing to the share but
    answer, that is the checksum of the local file; without a fault nothing stays in the share. *)
Theorem upload_is_verified (sha256 : bytes -> text) show_io show_path guest root name local remote (s : Xfer) :
  guest_confined guest root -> Forall (confined root) (xf_guest s) ->
  let '(s', r) := upload_file sha256 show_io show_path guest (Some root) name local remote s in
  (forall q, ~ root `prefix_of` q -> files s' q = files s q) /\
  (quiet s -> forall c, files s' (root ++ [name]) <> Some (NFile c)) /\
  forall out, r = Ok out ->
    exists data, reported guest Upload remote name data /\ to_bytes out = fd_bytes_transferred data /\
      eq_ignore_ascii_case (to_checksum out) (fd_sha256 data) = true /\
      (xf_guest s = [] -> local <> root ++ [name] -> exists c, files s local = Some (NFile c) /\ to_checksum out = sha256 c).
Proof.
  intros Hg Hs. destruct (upload_file _ _ _ _ _ _ _ _ s) as [s' r] eqn:E.
  pose proof (within_upload sha256 show_io show_path guest root name local remote Hg s Hs) as [_ Hw]. rewrite E in Hw. cbn in Hw.
  split; [intros q Hq; apply Hw; tauto|]. split.
  - intros Hq c. pose proof (upload_staged sha256 show_io show_path guest root name local remote s c Hq) as H. by rewrite E in H.
  - intros out ->. by eapply upload_done.
Qed.

(** ** A download and an upload, with a hash that writes each byte as a letter *)
Module FilesDemo.
Definition hash (c : bytes) : text := map (fun b => 97 + b mod 26)%N c.
Definition share : path := [txt "share"].
Definition name : text := unique_share_name 5 7 1.
Definition content : bytes := [1; 2; 3]%N.

Lemma hash_lower c : to_ascii_lowercase (hash c) = hash c.
Proof.
  unfold to_ascii_lowercase, hash. rewrite map_map. apply map_ext. intros b.
  unfold ascii_lower, is_ascii_upper, in_range. generalize (b mod 26)%N. intros x. rewrite (proj2 (N.leb_gt (97 + x) 90)) by lia. by rewrite andb_false_r.
Qed.

(** A guest that stages the file it is asked for, and reports what it finds. *)
Definition guest (m : Message) (fs : Files) : Files * result Error Message :=
  let answer c := Ok (FileTransferResult {| fr_success := true; fr_data := Some {| fd_bytes_transferred := 3; fd_sha256 := hash c |};
                                            fr_error := None; fr_error_kind := None |}) in
  match m with
  | FileTransfer q =>
      let staged := share ++ [fq_share_name q] in
      match fq_op q with
      | Download => (upd staged (Some (NFile content)) fs, answer content)
      | Upload => (fs, match fs staged with Some (NFile c) => answer c | _ => Err (ErDvc []) end)
      end
  | _ => (fs, Err (ErDvc []))
  end.

Lemma guest_stays : guest_confined guest share.
Proof.
  intros m fs q Hq. destruct m as [| | | | | | | | |r| |]; try done. unfold guest. destruct (fq_op r); [done|]. cbn [fst].
  apply upd_other. intros E. apply Hq. rewrite E. by apply prefix_app_r.
Qed.

Definition disk : Files := fun p =>
  if decide (p = share) then Some NDir else if decide (p = [txt "notes"]) then Some (NFile content) else None.
Definition begin : Xfer := {| xf_io := {| io_fs := disk; io_faults := [] |}; xf_guest := [] |}.

Definition fetched := download_file hash (fun _ => []) (fun _ => []) guest (Some share) name (txt "r") [txt "out"] begin.

Lemma not_shared p : p <> share -> length p = 1%nat -> ~ share `prefix_of` p.
Proof. intros Hp Hl [k ->]. destruct k; [by apply Hp|done]. Qed.

Lemma download_is_verified_witness :
  snd fetched = Ok {| to_bytes := 3; to_checksum := txt "bcd" |} /\ quiet begin /\
  files (fst fetched) [txt "out"] = Some (NFile content) /\ files (fst fetched) (share ++ [name]) <> Some (NFile content).
Proof.
  assert (~ share `prefix_of` [txt "out"]) as Hout by (by apply not_shared).
  assert (quiet begin) as Hq by by split.
  pose proof (download_is_verified hash (fun _ => []) (fun _ => []) guest share name (txt "r") [txt "out"] begin
    hash_lower guest_stays Hout (Forall_nil_2 _)) as H.
  assert (fetched = (fst fetched, snd fetched)) as E by apply surjective_pairing. unfold fetched in E. rewrite E in H.
  destruct H as (_ & _ & _ & Hst & _). split_and!; [by vm_compute|exact Hq|by vm_compute|]. exact (Hst Hq content).
Defined.

Definition sent := upload_file hash (fun _ => []) (fun _ => []) guest (Some share) name [txt "notes"] (txt "r") begin.

Lemma upload_is_verified_witness :
  snd sent = Ok {| to_bytes := 3; to_checksum := txt "bcd" |} /\
  exists c, files begin [txt "notes"] = Some (NFile c) /\ txt "bcd" = hash c.
Proof.
  assert (snd sent = Ok {| to_bytes := 3; to_checksum := txt "bcd" |}) as Ho by by vm_compute. split; [exact Ho|].
  pose proof (upload_is_verified hash (fun _ => []) (fun _ => []) guest share name [txt "notes"] (txt "r") begin
    guest_stays (Forall_nil_2 _)) as H.
  assert (sent = (fst sent, snd sent)) as E by apply surjective_pairing. unfold sent in E. rewrite E in H.
  destruct H as (_ & _ & H). destruct (H _ Ho) as (data & _ & _ & _ & Hc). apply Hc; [reflexivity|discriminate].
Defined.

(** The destination stays, unverified, when it cannot be read back. *)
Definition faulty : Xfer :=
  let fine := {| ft_fails := false; ft_error := IoFault; ft_junk := []; ft_keeps := fun _ => true |} in
  let bad := {| ft_fails := true; ft_error := IoFault; ft_junk := []; ft_keeps := fun _ => true |} in
  {| xf_io := {| io_fs := disk; io_faults := repeat fine 6 ++ [bad] |}; xf_guest := [] |}.

Example a_failed_check_keeps_the_file :
  let '(s, r) := download_file hash (fun _ => []) (fun _ => []) guest (Some share) name (txt "r") [txt "out"] faulty in
  is_ok r = false /\ files s [txt "out"] = Some (NFile content).
Proof. vm_compute. by split. Qed.
End FilesDemo.

(** ** Names in the share *)

(** The text up to a separator that it does not hold is told from what follows. *)
Lemma app_sep_inj {A} (x : A) a b c d : x ∉ a -> x ∉ c -> a ++ x :: b = c ++ x :: d -> a = c /\ b = d.
Proof.
  revert c. induction a as [|y a IH]; intros [|z c] Ha Hc E; cbn in E; simplify_eq; try done.
  - by exfalso; apply Hc; left.
  - by exfalso; apply Ha; left.
  - apply not_elem_of_cons in Ha as [_ Ha]. apply not_elem_of_cons in Hc as [_ Hc]. destruct (IH c Ha Hc) as [-> ->]; done.
Qed.

Lemma dec_without c n : is_ascii_digit c = false -> c ∉ dec n.
Proof. intros Hc Hn. pose proof (dec_digits n) as H. rewrite Forall_forall in H. apply H in Hn. congruence. Qed.

(** Two transfers of one process never share a name, and no name leaves the
    share directory. *)
Theorem share_names_differ nanos pid counter nanos' pid' counter' :
  (unique_share_name nanos pid counter = unique_share_name nanos' pid' counter' ->
   nanos = nanos' /\ pid = pid' /\ counter = counter') /\
  slash ∉ unique_share_name nanos pid counter /\ backslash ∉ unique_share_name nanos pid counter.
Proof.
  split.
  - unfold unique_share_name. intros E. apply app_inv_head in E. cbn [txt app] in E.
    apply app_sep_inj in E as [E1 E]; [|by apply dec_without..]. apply app_sep_inj in E as [E2 E]; [|by apply dec_without..].
    apply app_inv_tail in E. by apply dec_inj in E1, E2, E.
  - unfold unique_share_name. rewrite !not_elem_of_app.
    assert (forall c, is_ascii_digit c = false -> forall n, c ∉ dec n) as Hd by (intros; by apply dec_without).
    split_and!; try (by apply Hd); apply (bool_decide_unpack _); by vm_compute.
Qed.
