(* ===== verification/SessionThread.v ===== *)
(** * The session thread and the close of a session
      ([connect_with_resolver], [run_session_thread], [CloseState],
      [Session::close] and [Drop for Session] of [rdpilot/src/session.rs])

    [connect_session] is the caller's half of a connect and [thread_body] the
    half of the session thread; they meet in one reply, [ready].  What the
    network, the runtime and the session loop (SessionLoop.v) do is an
    operation of [ThreadOp].

    [CloseState] is shared by every call of [close]: the first one starts the
    join of the thread, and all of them wait for its result. *)
From S2P Require Import Prelude Errors Registry Prog Tasks.
Open Scope Z_scope.

Definition CLOSE_JOIN_DEADLINE : Z := 15 * 10 ^ 9.

(** ** Connecting *)

(** What the session thread asks for: its runtime, the handshake ([None]: the
    caller is gone), the one answer to the caller (whether it is still there),
    and the loop. *)
Inductive ThreadOp : Type -> Type :=
| BuildRuntime : ThreadOp (result text unit)
| Handshake : ThreadOp (option (result Error (Z * Z)))
| NewLifecycle (size : Z * Z) : ThreadOp unit
| SendReady (r : result Error unit) : ThreadOp bool
| RunLoop : ThreadOp (result Error unit)
| InvalidateBridge (reason : text) : ThreadOp unit.

Local Open Scope prog_scope.

(** [run_session_thread] *)
Definition thread_body : prog ThreadOp unit :=
  let! runtime := act BuildRuntime in
  match runtime with
  | Err e => do! act (SendReady (Err (ErSession (txt "could not start session runtime: " ++ e)))) in Ret tt
  | Ok _ =>
      let! connected := act Handshake in
      match connected with
      | None => Ret tt
      | Some (Err error) => do! act (SendReady (Err error)) in Ret tt
      | Some (Ok size) =>
          do! act (NewLifecycle size) in
          let! there := act (SendReady (Ok tt)) in
          if negb there then Ret tt
          else
            let! r := act RunLoop in
            match r with
            | Ok _ => Ret tt
            | Err error => act (InvalidateBridge (error_text error))
            end
      end
  end.

(** What the caller's half asks for: the address, the thread, and its answer
    ([None]: the thread ended without one). *)
Inductive ConnectOp : Type -> Type :=
| ResolveHost : ConnectOp (result Error unit)
| SpawnThread : ConnectOp (result text unit)
| AwaitReady : ConnectOp (option (result Error unit)).

(** [connect_with_resolver]: whether a session came of it. *)
Definition connect_session : prog ConnectOp (result Error unit) :=
  let! addr := act ResolveHost in
  match addr with
  | Err e => Ret (Err e)
  | Ok _ =>
      let! thread := act SpawnThread in
      match thread with
      | Err e => Ret (Err (ErSession (txt "could not spawn session thread: " ++ e)))
      | Ok _ =>
          let! ready := act AwaitReady in
          Ret (match ready with
          | None => Err (ErSession (txt "session thread ended before the handshake finished"))
          | Some r => r
          end)
      end
  end.

(** ** Closing *)

(** How the join of the thread ends. *)
Inductive Joined := JoinDeadline | JoinTaskFailed (e : text) | ThreadPanicked | ThreadEnded.

(** The result that the join publishes. *)
Definition join_result (j : Joined) : result text unit :=
  match j with
  | JoinDeadline => Err (txt "session shutdown deadline exceeded")
  | JoinTaskFailed e => Err (txt "join task failed: " ++ e)
  | ThreadPanicked => Err (txt "session thread panicked")
  | ThreadEnded => Ok tt
  end.

(** [CloseState]: whether the handle is still there, and the result's channel
    once it is made ([None] in it: the join is under way). *)
Record CloseState := { cl_thread : bool; cl_result : option (option (result text unit)) }.

(** [CloseState::new] *)
Definition close_new (thread : bool) : CloseState := {| cl_thread := thread; cl_result := None |}.

(** [CloseState::start]: the state, and whether it starts a join. *)
Definition close_start (c : CloseState) : CloseState * bool :=
  match cl_result c with
  | Some _ => (c, false)
  | None =>
      if cl_thread c then ({| cl_thread := false; cl_result := Some None |}, true)
      else ({| cl_thread := false; cl_result := Some (Some (Ok tt)) |}, false)
  end.

(** The end of the join task. *)
Definition close_joined (j : Joined) (c : CloseState) : CloseState :=
  match cl_result c with
  | Some None => {| cl_thread := cl_thread c; cl_result := Some (Some (join_result j)) |}
  | _ => c
  end.

(** What shared by the calls: the lifecycle, the reason the bridge was stopped
    with, the close state and the joins started so far. *)
Record Closing := { cg_lifecycle : Lifecycle; cg_stopped : list text; cg_close : CloseState; cg_joins : nat }.

(** The steps of [close_within]: it ends the lifecycle, stops the bridge and
    starts the join before it waits; then it looks at the result. *)
Inductive CloseOp : Type -> Type :=
| EndSession (cause : EndCause) : CloseOp unit
| StopBridge (reason : text) : CloseOp unit
| StartJoin : CloseOp unit
| LookResult : CloseOp (option (result text unit)).

Inductive CloseCall := CClose | CDrop.

(** One poll of the wait: [None] while the join is under way. *)
Definition close_body (c : CloseCall) : prog CloseOp (option (result Error unit)) :=
  match c with
  | CClose =>
      do! act (EndSession ClientClosed) in
      do! act (StopBridge (txt "session closed")) in
      do! act StartJoin in
      let! r := act LookResult in
      Ret (match r with
      | Some (Ok _) => Some (Ok tt)
      | Some (Err e) => Some (Err (ErSession e))
      | None => None
      end)
  | CDrop =>
      do! act (EndSession ClientClosed) in
      do! act (StopBridge (txt "session dropped")) in
      Ret (Some (Ok tt))
  end.

Definition close_exec (_ : unit) (B : Type) (o : CloseOp B) (s : Closing) : Closing * B :=
  match o with
  | EndSession cause =>
      ({| cg_lifecycle := lifecycle_end cause (cg_lifecycle s); cg_stopped := cg_stopped s; cg_close := cg_close s; cg_joins := cg_joins s |}, tt)
  | StopBridge reason =>
      ({| cg_lifecycle := cg_lifecycle s; cg_stopped := cg_stopped s ++ [reason]; cg_close := cg_close s; cg_joins := cg_joins s |}, tt)
  | StartJoin =>
      let '(c, started) := close_start (cg_close s) in
      ({| cg_lifecycle := cg_lifecycle s; cg_stopped := cg_stopped s; cg_close := c;
          cg_joins := (cg_joins s + if started then 1 else 0)%nat |}, tt)
  | LookResult => (s, default None (cl_result (cg_close s)))
  end.

(** The join task ends, and the session may end by itself. *)
Inductive close_outside (s : Closing) : Closing -> Prop :=
| OJoined j : close_outside s {| cg_lifecycle := cg_lifecycle s; cg_stopped := cg_stopped s;
                                 cg_close := close_joined j (cg_close s); cg_joins := cg_joins s |}
| OEnded cause : close_outside s {| cg_lifecycle := lifecycle_end cause (cg_lifecycle s); cg_stopped := cg_stopped s;
                                    cg_close := cg_close s; cg_joins := cg_joins s |}.

(** A connected session. *)
Definition closing_new : Closing :=
  {| cg_lifecycle := LifecycleLive; cg_stopped := []; cg_close := close_new true; cg_joins := 0 |}.

Definition close_reached (w : Closing * list (@Task CloseOp CloseCall (option (result Error unit)))) : Prop :=
  pool_steps close_exec close_body close_outside (closing_new, []) w.

(** ** What a close relies on *)

(** What a call knows: the session has ended, the bridge is stopped, the
    result of the join. *)
Inductive Tok := TEnded | TStopped | TStarted | TResult (r : result text unit).

Record close_inv (s : Closing) (T : list Tok) : Prop := {
  vi_ended : TEnded ∈ T -> exists c, cg_lifecycle s = LifecycleEnded c;
  vi_stopped : TStopped ∈ T -> cg_stopped s <> [];
  vi_started : TStarted ∈ T -> is_Some (cl_result (cg_close s));
  vi_result : forall r, TResult r ∈ T -> cl_result (cg_close s) = Some (Some r);
  vi_joins : match cl_result (cg_close s) with
             | None => cg_joins s = 0%nat /\ cl_thread (cg_close s) = true
             | Some _ => cg_joins s = 1%nat
             end }.

Lemma lifecycle_end_ended cause l : exists c, lifecycle_end cause l = LifecycleEnded c.
Proof. destruct l as [|c]; by eexists. Qed.

Lemma lifecycle_end_stays cause c : lifecycle_end cause (LifecycleEnded c) = LifecycleEnded c.
Proof. done. Qed.

Lemma close_joined_result j c x : cl_result c = Some (Some x) -> close_joined j c = c.
Proof. intros H. unfold close_joined. by rewrite H. Qed.

#[export] Instance close_owned : Owned close_outside close_inv.
Proof.
  split.
  - intros s T T' HP []. split; try done; intros *; rewrite <- HP; auto.
  - intros s s' T Ho []. destruct Ho as [j|cause]; split; cbn; try done.
    + intros H%vi_started0. unfold close_joined. destruct (cl_result (cg_close s)) as [[x|]|] eqn:E; [by rewrite E|done|by destruct H].
    + intros r H%vi_result0. by rewrite (close_joined_result _ _ _ H).
    + unfold close_joined. by destruct (cl_result (cg_close s)) as [[|]|] eqn:E; cbn; rewrite ?E.
    + intros H%vi_ended0. apply lifecycle_end_ended.
Qed.

(** A token that nothing can take back may be noted whenever it holds. *)
Lemma inv_note s T t :
  close_inv s T ->
  match t with
  | TEnded => exists c, cg_lifecycle s = LifecycleEnded c
  | TStopped => cg_stopped s <> []
  | TStarted => is_Some (cl_result (cg_close s))
  | TResult r => cl_result (cg_close s) = Some (Some r)
  end -> close_inv s (t :: T).
Proof.
  intros [] Ht. split; [intros [<-|?]%elem_of_cons|intros [<-|?]%elem_of_cons|intros [<-|?]%elem_of_cons|intros r [<-|?]%elem_of_cons|]; auto.
Qed.

(** The sections keep what is known. *)
Lemma exec_inv B (o : CloseOp B) s T : close_inv s T -> close_inv (fst (close_exec tt B o s)) T.
Proof.
  intros []. destruct o; cbn.
  - split; cbn; try done. intros _. apply lifecycle_end_ended.
  - split; cbn; try done. intros _. by destruct (cg_stopped s).
  - unfold close_start. destruct (cl_result (cg_close s)) as [x|] eqn:E; cbn.
    + rewrite Nat.add_0_r. by split; cbn; rewrite ?E.
    + destruct vi_joins0 as [Hj Ht]. rewrite Ht. cbn. split; cbn; try done; [|lia].
      intros r H. by apply vi_result0 in H.
  - by split.
Qed.

(** What each call knows when it ends. *)
Definition close_post (c : CloseCall) (a : option (result Error unit)) (own : list Tok) : Prop :=
  match c, a with
  | CClose, None => own = [TStarted; TStopped; TEnded]
  | CClose, Some r => exists x, own = [TResult x; TStarted; TStopped; TEnded] /\ r = map_err ErSession x
  | CDrop, _ => own = [TStopped; TEnded] /\ a = Some (Ok tt)
  end.

Lemma wp_close_note {A} (o : CloseOp unit) (k : unit -> prog CloseOp A) own t Q :
  (forall s T, close_inv s T -> close_inv (fst (close_exec tt _ o s)) (t :: T)) ->
  wp close_exec close_inv (k tt) (t :: own) Q -> wp close_exec close_inv (Act o k) own Q.
Proof.
  intros Hn Hk [] s rest Hi. exists (t :: own). split; [by apply Hn|]. by destruct (snd (close_exec tt unit o s)).
Qed.

Lemma wp_close c : wp close_exec close_inv (close_body c) [] (close_post c).
Proof.
  assert (He : forall cause s T, close_inv s T -> close_inv (fst (close_exec tt _ (EndSession cause) s)) (TEnded :: T)).
  { intros cause s T Hi. apply inv_note; [by apply exec_inv|]. apply lifecycle_end_ended. }
  assert (Hs : forall reason s T, close_inv s T -> close_inv (fst (close_exec tt _ (StopBridge reason) s)) (TStopped :: T)).
  { intros reason s T Hi. apply inv_note; [by apply exec_inv|]. cbn. by destruct (cg_stopped s). }
  destruct c; cbn [close_body pbind act].
  - eapply wp_close_note; [apply He|]. eapply wp_close_note; [apply Hs|]. apply (wp_close_note _ _ _ TStarted).
    { intros s T Hi. apply inv_note; [by apply exec_inv|]. cbn. unfold close_start.
      destruct (cl_result (cg_close s)) eqn:E; cbn; [by rewrite E; eauto|]. destruct (cl_thread (cg_close s)); eauto. }
    intros [] s rest Hi. cbn. destruct (vi_started _ _ Hi) as [x Hx]; [by left|]. rewrite Hx. cbn. destruct x as [[[]|e]|].
    + exists [TResult (Ok tt); TStarted; TStopped; TEnded]. split; [by apply (inv_note s _ (TResult (Ok tt)))|]. by exists (Ok tt).
    + exists [TResult (Err e); TStarted; TStopped; TEnded]. split; [by apply (inv_note s _ (TResult (Err e)))|]. by exists (Err e).
    + exists [TStarted; TStopped; TEnded]. by split.
  - eapply wp_close_note; [apply He|]. eapply wp_close_note; [apply Hs|]. by split.
Qed.

Lemma close_reached_inv w : close_reached w -> pool_inv close_exec close_inv close_post w.
Proof.
  intros Hw. eapply (pool_inv_steps close_exec close_body close_outside close_inv close_post); [apply wp_close| |exact Hw].
  exists []. split; [|constructor]. split; cbn; try done; by intros ?%elem_of_nil || (intros ? ?%elem_of_nil).
Qed.

(** ** Properties *)

(** However many callers close or drop a session at the same time, and
    whenever it ends by itself or its thread does: at most one join is
    started; a call that answers finds the session ended and the bridge
    stopped; and all answers of [close] are the result of that one join. *)
Theorem close_joins_once w :
  close_reached w ->
  (cg_joins (fst w) <= 1)%nat /\
  (forall c a, answered c a w -> (exists cause, cg_lifecycle (fst w) = LifecycleEnded cause) /\ cg_stopped (fst w) <> []) /\
  (forall r, answered CClose (Some r) w -> exists x, cl_result (cg_close (fst w)) = Some (Some x) /\ r = map_err ErSession x) /\
  (forall a, answered CClose a w -> cg_joins (fst w) = 1%nat).
Proof.
  intros Hw. pose proof (close_reached_inv w Hw) as Hp. split_and!.
  - destruct Hp as (owns & Hi & _). pose proof (vi_joins _ _ Hi). destruct (cl_result _); lia.
  - intros c a Ha. destruct (pool_inv_answer close_exec close_outside close_inv close_post w c a Hp Ha) as (own & rest & Hc & Hi).
    assert (TEnded ∈ own /\ TStopped ∈ own) as [H1 H2].
    { destruct c, a as [r|]; cbn in Hc; [destruct Hc as (x & -> & _)|subst own|destruct Hc as [-> _]|by destruct Hc]; set_solver. }
    split; [apply (vi_ended _ _ Hi)|apply (vi_stopped _ _ Hi)]; set_solver.
  - intros r Ha. destruct (pool_inv_answer close_exec close_outside close_inv close_post w _ _ Hp Ha) as (own & rest & (x & -> & ->) & Hi).
    exists x. split; [|done]. apply (vi_result _ _ Hi). by left.
  - intros a Ha. destruct (pool_inv_answer close_exec close_outside close_inv close_post w _ _ Hp Ha) as (own & rest & Hc & Hi).
    assert (TStarted ∈ own) as H by (destruct a as [r|]; cbn in Hc; [destruct Hc as (x & -> & _)|subst own]; set_solver).
    destruct (vi_started _ _ Hi) as [x Hx]; [set_solver|]. pose proof (vi_joins _ _ Hi) as Hj. by rewrite Hx in Hj.
Qed.

(** What the thread has done: the handshake that succeeded, its answer with
    whether the caller took it, and how the loop ended. *)
Record Thread := { th_size : option (Z * Z); th_owner : bool; th_answer : option (result Error unit * bool); th_loop : option (result Error unit); th_gone : bool }.

Definition thread_new : Thread := {| th_size := None; th_owner := false; th_answer := None; th_loop := None; th_gone := false |}.

Definition thread_step (B : Type) (o : ThreadOp B) : B -> Thread -> option Thread :=
  match o with
  | BuildRuntime => fun _ g => Some g
  | Handshake => fun r g => Some {| th_size := match r with Some (Ok size) => Some size | _ => None end; th_owner := th_owner g;
      th_answer := th_answer g; th_loop := th_loop g; th_gone := match r with None => true | _ => false end |}
  | NewLifecycle size => fun _ g =>
      if decide (th_size g = Some size /\ th_owner g = false) then
        Some {| th_size := th_size g; th_owner := true; th_answer := th_answer g; th_loop := th_loop g; th_gone := th_gone g |}
      else None
  | SendReady r => fun there g =>
      if decide (th_answer g = None /\ is_ok r = th_owner g) then
        Some {| th_size := th_size g; th_owner := th_owner g; th_answer := Some (r, there); th_loop := th_loop g; th_gone := th_gone g |}
      else None
  | RunLoop => fun r g =>
      if decide (th_answer g = Some (Ok tt, true) /\ th_loop g = None) then
        Some {| th_size := th_size g; th_owner := th_owner g; th_answer := th_answer g; th_loop := Some r; th_gone := th_gone g |}
      else None
  | InvalidateBridge reason => fun _ g =>
      if decide (option_map error_text (and_then (th_loop g) err_of) = Some reason) then Some g else None
  end.

(** The thread answers its caller once, unless the caller is gone before the
    handshake ends; it answers with a session only after a handshake that
    succeeded, with the lifecycle made at its size; it runs the loop exactly
    when such an answer was taken; and it stops the bridge with the loop's own
    error. *)
Theorem thread_answers_once :
  follows thread_step (fun g _ =>
      (th_gone g = true <-> th_answer g = None) /\
      (forall r, th_answer g = Some r -> fst r = Ok tt <-> is_Some (th_size g)) /\
      (is_Some (th_loop g) <-> th_answer g = Some (Ok tt, true)))
    thread_body thread_new.
Proof.
  unfold thread_body. apply follows_act. intros [[]|e]; cbn [thread_step].
  - apply follows_act. intros [[size|e]|]; cbn [thread_step].
    + apply follows_act. intros []. cbn. rewrite decide_True by done. intros there. rewrite decide_True by done.
      destruct there; cbn.
      * intros r. rewrite decide_True by done. destruct r as [[]|e]; cbn.
        { split_and!; [done|by intros ? [= <-]; split; [eauto|]|by split; [|eauto]]. }
        intros []. rewrite decide_True by done. split_and!; [done|by intros ? [= <-]; split; [eauto|]|by split; [|eauto]].
      * split_and!; [done|by intros ? [= <-]; split; [eauto|]|]. split; [by intros []|done].
    + cbn. intros there. rewrite decide_True by done. cbn. split_and!; [done| |split; [by intros []|done]].
      intros ? [= <-]. cbn. split; [done|by intros []].
    + cbn. split_and!; [done|done|]. split; [by intros []|done].
  - cbn. intros there. split_and!; [done| |split; [by intros []|done]]. intros ? [= <-]. cbn. split; [done|by intros []].
Qed.

(** Two callers close a session whose thread does not end in time. *)
Module CloseDemo.
Definition world := (Closing * list (@Task CloseOp CloseCall (option (result Error unit))))%type.
Definition call (c : CloseCall) (w : world) : world := (fst w, snd w ++ [{| tk_call := c; tk_prog := close_body c |}]).
Fixpoint sections (n i : nat) (w : world) : world :=
  match n with O => w | S n => sections n i (advance close_exec tt i w) end.
Definition joined (j : Joined) (w : world) : world :=
  ({| cg_lifecycle := cg_lifecycle (fst w); cg_stopped := cg_stopped (fst w); cg_close := close_joined j (cg_close (fst w));
      cg_joins := cg_joins (fst w) |}, snd w).

Lemma close_reached_call c w : close_reached w -> close_reached (call c w).
Proof. intros Hw. eapply rtc_r; [exact Hw|]. destruct w as [s ts]. apply PCall. Qed.
Lemma close_reached_sections n i w : close_reached w -> close_reached (sections n i w).
Proof.
  revert w. induction n as [|n IH]; intros w Hw; [done|]. apply IH. unfold close_reached, pool_steps in *.
  etrans; [exact Hw|]. apply advance_steps.
Qed.
Lemma reached_joined j w : close_reached w -> close_reached (joined j w).
Proof. intros Hw. eapply rtc_r; [exact Hw|]. destruct w as [s ts]. apply POutside, OJoined. Qed.

Definition late : world :=
  sections 1 1 (sections 1 0 (joined JoinDeadline (sections 3 1 (sections 3 0 (call CClose (call CClose (closing_new, []))))))).

Example close_joins_once_witness :
  close_reached late /\
  answered CClose (Some (Err (ErSession (txt "session shutdown deadline exceeded")))) late /\ cg_joins (fst late) = 1%nat.
Proof.
  assert (close_reached late) as Hr.
  { repeat first [apply close_reached_sections | apply close_reached_call | apply reached_joined]. apply rtc_refl. }
  assert (answered CClose (Some (Err (ErSession (txt "session shutdown deadline exceeded")))) late) as Ha.
  { unfold answered. apply (list_elem_of_lookup_2 _ 1). by vm_compute. }
  split_and!; [exact Hr|exact Ha|]. destruct (close_joins_once late Hr) as (_ & _ & _ & H). exact (H _ Ha).
Defined.
End CloseDemo.
