(* ===== verification/Connect.v ===== *)
(** * Connecting to the RDP server ([rdpilot/src/connect.rs],
      [rdpsnd_stub.rs])

    [connect] is the sequence that the session thread runs for its handshake
    (SessionThread.v): TCP, the channels of the connector, the upgrade to TLS,
    and CredSSP over the upgraded stream.  The connector, rustls, the sockets
    and the certificates are third-party or system code: what they are asked
    for is an operation ([NetOp]) that carries all that the code passes, and
    what they decide of a name or a certificate is a parameter.

    A path of the host is its text, joined as the standard library does on
    Unix. *)
From S2P Require Import Prelude Bytes Errors Resolve BridgeProtocol HostBridge Prog Dispatch.
Open Scope Z_scope.
Local Open Scope prog_scope.

(** ** The connector's configuration *)

Inductive KeyboardType := IbmEnhanced.
Inductive MajorPlatformType := WINDOWS.

(** The fields of the connector's [Config] that are not [None], a default or
    an empty text in every case. *)
Record ConnectorConfig := {
  kc_username : text; kc_password : text; kc_domain : option text;
  kc_enable_tls : bool; kc_enable_credssp : bool;
  kc_keyboard_type : KeyboardType; kc_keyboard_subtype : Z; kc_keyboard_layout : Z;
  kc_keyboard_functional_keys_count : Z;
  kc_desktop_size : Z * Z; kc_client_build : Z; kc_client_name : text; kc_client_dir : text;
  kc_platform : MajorPlatformType; kc_enable_server_pointer : bool; kc_autologon : bool;
  kc_enable_audio_playback : bool; kc_pointer_software_rendering : bool; kc_desktop_scale_factor : Z }.

Definition build_connector_config (cfg : ConnectionConfig) : ConnectorConfig :=
  {| kc_username := cc_username cfg; kc_password := cc_password cfg; kc_domain := cc_domain cfg;
     kc_enable_tls := false; kc_enable_credssp := true;
     kc_keyboard_type := IbmEnhanced; kc_keyboard_subtype := 0; kc_keyboard_layout := 0;
     kc_keyboard_functional_keys_count := 12;
     kc_desktop_size := (cc_width cfg, cc_height cfg);
     kc_client_build := 0; kc_client_name := txt "rdpilot"; kc_client_dir := txt "C:\Windows\System32\mstscax.dll";
     kc_platform := WINDOWS; kc_enable_server_pointer := false; kc_autologon := false;
     kc_enable_audio_playback := false; kc_pointer_software_rendering := true; kc_desktop_scale_factor := 0 |}.

(** [NewBackend] is what [RdpilotDriveBackend::new_with_bridge] is given
    (Drive.v), beside the bridge. *)
Record NewBackend := { nb_bridge_path : list text; nb_bridge_name : text; nb_share_root : option text }.

(** The static channels, in the order in which they are registered: the
    dynamic channels with the bridge's one, the drive announced under its
    client's name with its drives, and the sound stub. *)
Inductive Channel :=
| ChDrdynvc (bundle_id : text)
| ChRdpdr (backend : NewBackend) (client : text) (drives : list (Z * text))
| ChRdpsnd.

(** [rdpilot_rdpdr] *)
Definition rdpilot_rdpdr (backend : NewBackend) : Channel :=
  ChRdpdr backend (txt "rdpilot") [(0, txt "RDPILOT")].

(** [RdpsndStub]: its name of eight bytes, and its answer to a payload. *)
Definition rdpsnd_name : list N := txt "rdpsnd" ++ [0; 0]%N.
Definition rdpsnd_process (payload : bytes) : list bytes := [].

Record Connector (Addr : Type) := { co_config : ConnectorConfig; co_client_addr : Addr; co_channels : list Channel }.
Arguments co_config {Addr}. Arguments co_client_addr {Addr}. Arguments co_channels {Addr}.
Arguments Build_Connector {Addr}.

(** An error of a library with the chain of its sources. *)
Record Chained := { ch_error : text; ch_sources : list text }.

Definition format_error_chain (e : Chained) : text :=
  fold_left (fun rendered cause => rendered ++ txt "; caused by: " ++ cause) (ch_sources e) (ch_error e).

(** ** TLS *)

(** The certificate check of a TLS configuration.  [NoCertificateVerification]
    accepts every certificate and signature. *)
Inductive Verifier := NoCertificateVerification | PlatformRoots (roots : list bytes).
Record TlsConfig := { tc_verifier : Verifier; tc_resumption : bool }.

Section Connect.
Context {Addr Result : Type}.
(** [RootCertStore::add] takes a certificate. *)
Variable root_ok : bytes -> bool.
(** What is wrong with a name as [ServerName]. *)
Variable bad_server_name : text -> option text.
(** The subject's public key of a certificate in DER, [None] where its bits
    are no bytes. *)
Variable from_der : bytes -> result text (option bytes).

Inductive NetOp : Type -> Type :=
| LookupHost (host : text) (port : Z) : NetOp (result text (list Addr))
| TcpConnect (addr : Addr) : NetOp (result text unit)
| LocalAddr : NetOp (result text Addr)
| CreateDirAll (path : text) : NetOp (result text unit)
| ConnectBegin (c : Connector Addr) : NetOp (result Chained unit)
| LoadNativeCerts : NetOp (list bytes)
| TlsHandshake (config : TlsConfig) (name : text) : NetOp (result text unit)
| PeerCertificates : NetOp (option (list bytes))
| ConnectFinalize (c : Connector Addr) (server_name : text) (key : bytes) : NetOp (result Chained Result).

(** [?] on an operation. *)
Definition net_try {A B} (p : prog NetOp (result Error A)) (k : A -> prog NetOp (result Error B)) : prog NetOp (result Error B) :=
  let! r := p in match r with Ok a => k a | Err e => Ret (Err e) end.

(** An operation whose error becomes one of ours. *)
Definition net_map {X A} (f : X -> Error) (e : NetOp (result X A)) : prog NetOp (result Error A) :=
  let! r := act e in Ret (match r with Ok a => Ok a | Err x => Err (f x) end).

(** [resolve] *)
Definition resolve_addr (host : text) (port : Z) : prog NetOp (result Error Addr) :=
  net_try (net_map (fun e => ErConnect (txt "address lookup for " ++ host ++ txt ":" ++ nat_text port ++ txt " failed: " ++ e))
             (LookupHost host port))
    (fun addrs => Ret (match addrs with
       | addr :: _ => Ok addr
       | [] => Err (ErConnect (txt "no address found for " ++ host ++ txt ":" ++ nat_text port))
       end)).

Definition NO_ROOTS : Error := ErTls (txt
  "no platform root certificates available to validate the server certificate (set accept_invalid_certs only for a trusted lab target)").

(** [build_tls_client_config]; resumption is disabled at its end. *)
Definition build_tls_client_config (accept_invalid_certs : bool) : prog NetOp (result Error TlsConfig) :=
  if accept_invalid_certs then Ret (Ok {| tc_verifier := NoCertificateVerification; tc_resumption := false |})
  else
    let! native := act LoadNativeCerts in
    match native with
    | [] => Ret (Err NO_ROOTS)
    | _ => Ret (Ok {| tc_verifier := PlatformRoots (List.filter root_ok native); tc_resumption := false |})
    end.

Definition extract_server_public_key (cert_der : bytes) : result Error bytes :=
  match from_der cert_der with
  | Err e => Err (ErTls (txt "could not decode server certificate: " ++ e))
  | Ok None => Err (ErTls (txt "subject public key BIT STRING is not byte-aligned"))
  | Ok (Some key) => Ok key
  end.

(** [tls_upgrade]: the server's public key; the stream is the operations'. *)
Definition tls_upgrade (server_name : text) (accept_invalid_certs : bool) : prog NetOp (result Error bytes) :=
  net_try (build_tls_client_config accept_invalid_certs) (fun config =>
  match bad_server_name server_name with
  | Some e => Ret (Err (ErTls (txt "invalid server name '" ++ server_name ++ txt "': " ++ e)))
  | None =>
      net_try (net_map (fun e => ErTls (txt "TLS handshake failed: " ++ e)) (TlsHandshake config server_name)) (fun _ =>
      let! certs := act PeerCertificates in
      match certs with
      | Some (cert :: _) => Ret (extract_server_public_key cert)
      | _ => Ret (Err (ErTls (txt "peer certificate is missing")))
      end)
  end).

(** The channels of the connector; the staging directory of a share is made
    on the way. *)
Definition build_channels (cfg : ConnectionConfig) : prog NetOp (result Error (list Channel)) :=
  let channels := [ChDrdynvc (default [] (cc_bundle_id cfg))] in
  match cc_bundle_path cfg with
  | None => Ret (Ok channels)
  | Some bridge_path =>
      net_try
        (match cc_share_root cfg with
         | Some root =>
             net_map (fun e => ErConfig (txt "could not create share root '" ++ root ++ txt "': " ++ e))
               (CreateDirAll (path_join root (txt ".rdpilot-staging")))
         | None => Ret (Ok tt)
         end)
        (fun _ =>
        let backend := {| nb_bridge_path := bridge_path; nb_bridge_name := BRIDGE_EXE_NAME; nb_share_root := cc_share_root cfg |} in
        Ret (Ok (channels ++ [rdpilot_rdpdr backend] ++ [ChRdpsnd])))
  end.

(** [connect] *)
Definition connect (cfg : ConnectionConfig) (addr : Addr) : prog NetOp (result Error Result) :=
  let server_name := cc_host cfg in
  net_try (net_map (fun e => ErConnect (txt "TCP connect to " ++ server_name ++ txt " failed: " ++ e)) (TcpConnect addr)) (fun _ =>
  net_try (net_map (fun e => ErConnect (txt "could not read local socket address: " ++ e)) LocalAddr) (fun client_addr =>
  net_try (build_channels cfg) (fun channels =>
  let connector := {| co_config := build_connector_config cfg; co_client_addr := client_addr; co_channels := channels |} in
  net_try (net_map (fun e => ErConnect (txt "connect_begin failed: " ++ format_error_chain e)) (ConnectBegin connector)) (fun _ =>
  net_try (tls_upgrade server_name (cc_accept_invalid_certs cfg)) (fun server_public_key =>
  net_map (fun e => ErConnect (txt "connect_finalize failed: " ++ format_error_chain e))
    (ConnectFinalize connector server_name server_public_key)))))).

(** ** What a connect does *)

(** Where a connect is; [PhFailed] has the category of its error. *)
Inductive Phase :=
| PhStart
| PhTcp
| PhLocal (client : Addr)
| PhShared (client : Addr)
| PhBegun (c : Connector Addr)
| PhRoots (c : Connector Addr) (native : list bytes)
| PhTls (c : Connector Addr)
| PhCerts (c : Connector Addr) (certs : option (list bytes))
| PhDone (r : Result)
| PhFailed (category : text).

Definition phase_of {X A} (why : text) (next : A -> Phase) (r : result X A) : Phase :=
  match r with Ok a => next a | Err _ => PhFailed why end.

(** The directory to make before the connector starts. *)
Definition staging (cfg : ConnectionConfig) : option text :=
  match cc_bundle_path cfg with
  | Some _ => option_map (fun root => path_join root (txt ".rdpilot-staging")) (cc_share_root cfg)
  | None => None
  end.

(** The channels of a session: the bridge's one for its bundle, and with a
    bundle the drive that serves it together with the sound stub, without which
    a Windows server does not speak on the drive's channel. *)
Definition session_channels (cfg : ConnectionConfig) (l : list Channel) : Prop :=
  match cc_bundle_path cfg with
  | None => l = [ChDrdynvc (default [] (cc_bundle_id cfg))]
  | Some bridge =>
      l = [ChDrdynvc (default [] (cc_bundle_id cfg));
           ChRdpdr {| nb_bridge_path := bridge; nb_bridge_name := BRIDGE_EXE_NAME; nb_share_root := cc_share_root cfg |}
             (txt "rdpilot") [(0, txt "RDPILOT")];
           ChRdpsnd]
  end.

(** The connector of a session: credentials and size as configured, with
    CredSSP and its channels. *)
Definition session_connector (cfg : ConnectionConfig) (client : Addr) (c : Connector Addr) : Prop :=
  kc_username (co_config c) = cc_username cfg /\ kc_password (co_config c) = cc_password cfg
  /\ kc_domain (co_config c) = cc_domain cfg /\ kc_desktop_size (co_config c) = (cc_width cfg, cc_height cfg)
  /\ kc_enable_credssp (co_config c) = true /\ kc_autologon (co_config c) = false
  /\ co_client_addr c = client /\ session_channels cfg (co_channels c).

(** What may check the server's certificate: nothing only where the
    configuration says so, and the platform's roots otherwise. *)
Definition checks (cfg : ConnectionConfig) (native : option (list bytes)) (v : Verifier) : Prop :=
  match v with
  | NoCertificateVerification => cc_accept_invalid_certs cfg = true
  | PlatformRoots roots =>
      cc_accept_invalid_certs cfg = false /\ exists certs, native = Some certs /\ certs <> [] /\ roots = List.filter root_ok certs
  end.

(** The steps of a connect to [addr]: each operation with where it may be
    asked for, and where its answer leads. *)
Inductive connect_step (cfg : ConnectionConfig) (addr : Addr) : forall B, NetOp B -> B -> Phase -> Phase -> Prop :=
| StTcp r : connect_step cfg addr _ (TcpConnect addr) r PhStart (phase_of (txt "connect") (fun _ => PhTcp) r)
| StLocal r : connect_step cfg addr _ LocalAddr r PhTcp (phase_of (txt "connect") PhLocal r)
| StShare client dir r : staging cfg = Some dir ->
    connect_step cfg addr _ (CreateDirAll dir) r (PhLocal client) (phase_of (txt "config") (fun _ => PhShared client) r)
| StBegin client c r ph :
    (ph = PhLocal client /\ staging cfg = None \/ ph = PhShared client /\ is_Some (staging cfg)) ->
    session_connector cfg client c ->
    connect_step cfg addr _ (ConnectBegin c) r ph (phase_of (txt "connect") (fun _ => PhBegun c) r)
| StRoots c native : cc_accept_invalid_certs cfg = false ->
    connect_step cfg addr _ LoadNativeCerts native (PhBegun c) (PhRoots c native)
| StTls c native config r ph :
    (ph = PhBegun c /\ native = None \/ exists certs, ph = PhRoots c certs /\ native = Some certs) ->
    checks cfg native (tc_verifier config) -> tc_resumption config = false ->
    connect_step cfg addr _ (TlsHandshake config (cc_host cfg)) r ph (phase_of (txt "tls") (fun _ => PhTls c) r)
| StCerts c certs : connect_step cfg addr _ PeerCertificates certs (PhTls c) (PhCerts c certs)
| StFinalize c cert certs key r : from_der cert = Ok (Some key) ->
    connect_step cfg addr _ (ConnectFinalize c (cc_host cfg) key) r (PhCerts c (Some (cert :: certs)))
      (phase_of (txt "connect") PhDone r).

(** Where a connect may end, and with what. *)
Definition left_off (cfg : ConnectionConfig) (ph : Phase) (r : result Error Result) : Prop :=
  match ph with
  | PhDone v => r = Ok v
  | PhFailed why => exists e, r = Err e /\ category e = why
  | PhBegun _ => cc_accept_invalid_certs cfg = true /\ is_Some (bad_server_name (cc_host cfg)) /\ exists m, r = Err (ErTls m)
  | PhRoots _ [] => r = Err NO_ROOTS
  | PhRoots _ (_ :: _) => is_Some (bad_server_name (cc_host cfg)) /\ exists m, r = Err (ErTls m)
  | PhCerts _ certs =>
      (forall cert rest key, certs = Some (cert :: rest) -> from_der cert <> Ok (Some key)) /\ exists m, r = Err (ErTls m)
  | PhStart | PhTcp | PhLocal _ | PhShared _ | PhTls _ => False
  end.

Section Obeying.
Variables (cfg : ConnectionConfig) (addr : Addr).
Let step := connect_step cfg addr.

(** An operation of the sequence. *)
Lemma obeys_net {X A B} (f : X -> Error) (e : NetOp (result X A)) (k : A -> prog NetOp (result Error B)) why next Q ph :
  (forall r, step _ e r ph (phase_of why next r)) ->
  (forall a, obeys step Q (k a) (next a)) -> (forall x, Q (PhFailed why) (Err (f x))) ->
  obeys step Q (net_try (net_map f e) k) ph.
Proof.
  intros Hs Hk Hf r. exists (phase_of why next r). split; [apply Hs|]. destruct r as [a|x]; [apply Hk|apply Hf].
Qed.

(** The last one. *)
Lemma obeys_last {X A} (f : X -> Error) (e : NetOp (result X A)) why next (Q : Phase -> result Error A -> Prop) ph :
  (forall r, step _ e r ph (phase_of why next r)) -> (forall a, Q (next a) (Ok a)) -> (forall x, Q (PhFailed why) (Err (f x))) ->
  obeys step Q (net_map f e) ph.
Proof. intros Hs Hk Hf r. exists (phase_of why next r). split; [apply Hs|]. destruct r as [a|x]; [apply Hk|apply Hf]. Qed.

(** What makes the channels, from where the local address is known. *)
Lemma obeys_channels {B} client (k : list Channel -> prog NetOp (result Error B)) (Q : Phase -> result Error B -> Prop) :
  (forall l ph, session_channels cfg l ->
     (ph = PhLocal client /\ staging cfg = None \/ ph = PhShared client /\ is_Some (staging cfg)) -> obeys step Q (k l) ph) ->
  (forall m, Q (PhFailed (txt "config")) (Err (ErConfig m))) ->
  obeys step Q (net_try (build_channels cfg) k) (PhLocal client).
Proof.
  unfold build_channels. intros Hk HQ.
  assert (Hst : staging cfg = match cc_bundle_path cfg with
    | Some _ => option_map (fun root => path_join root (txt ".rdpilot-staging")) (cc_share_root cfg) | None => None end) by done.
  destruct (cc_bundle_path cfg) as [bridge|] eqn:Hb.
  - destruct (cc_share_root cfg) as [root|] eqn:Hr; cbn in Hst.
    + intros r. exists (phase_of (txt "config") (fun _ => PhShared client) r). split; [by constructor|].
      destruct r as [[]|e]; [|apply HQ]. cbn. apply Hk; [|right; rewrite Hst; eauto].
      unfold session_channels. by rewrite Hb, Hr.
    + cbn. apply Hk; [|by left]. unfold session_channels. by rewrite Hb, Hr.
  - cbn. apply Hk; [|by left]. unfold session_channels. by rewrite Hb.
Qed.

(** The upgrade to TLS, from where the connector is begun. *)
Lemma obeys_tls c :
  obeys step (fun ph r => match r with
      | Ok key => exists cert certs, ph = PhCerts c (Some (cert :: certs)) /\ from_der cert = Ok (Some key)
      | Err e => left_off cfg ph (Err e) end)
    (tls_upgrade (cc_host cfg) (cc_accept_invalid_certs cfg)) (PhBegun c).
Proof.
  assert (Hafter : forall native config ph,
    (ph = PhBegun c /\ native = None \/ exists certs, ph = PhRoots c certs /\ native = Some certs) ->
    checks cfg native (tc_verifier config) -> tc_resumption config = false ->
    obeys step (fun ph r => match r with
      | Ok key => exists cert certs, ph = PhCerts c (Some (cert :: certs)) /\ from_der cert = Ok (Some key)
      | Err e => left_off cfg ph (Err e) end)
    (net_try (net_map (fun e => ErTls (txt "TLS handshake failed: " ++ e)) (TlsHandshake config (cc_host cfg))) (fun _ =>
      let! certs := act PeerCertificates in
      match certs with
      | Some (cert :: _) => Ret (extract_server_public_key cert)
      | _ => Ret (Err (ErTls (txt "peer certificate is missing")))
      end)) ph).
  { intros native config ph Hph Hc Hr. eapply obeys_net; [by econstructor| |by eexists].
    intros a certs. exists (PhCerts c certs). split; [constructor|].
    destruct certs as [[|cert rest]|]; cbn [pbind obeys];
      [by split; [intros ? ? ? [=]|eexists]| |by split; [intros ? ? ? [=]|eexists]].
    unfold extract_server_public_key. destruct (from_der cert) as [[key|]|e] eqn:Hd;
      [exists cert, rest; split; [done|exact Hd]|split; [by intros ? ? ? [= <- <-]; rewrite Hd|by eexists]..]. }
  unfold tls_upgrade, build_tls_client_config. destruct (cc_accept_invalid_certs cfg) eqn:Ha.
  - cbn. destruct (bad_server_name (cc_host cfg)) eqn:Hn; [cbn; rewrite Hn; by eauto|].
    by eapply Hafter; [left|..].
  - intros native. exists (PhRoots c native). split; [by constructor|]. destruct native as [|n ns]; [done|].
    cbn. destruct (bad_server_name (cc_host cfg)) eqn:Hn; [cbn; rewrite Hn; by eauto|].
    eapply Hafter; [right; by eauto| |done]. cbn. split; [done|]. by eexists.
Qed.
End Obeying.

(** C37: Whatever the network, the server and the certificate code answer, a
    connect gives its credentials to CredSSP once at the end, over a TLS
    connection to the configured host name whose certificate was checked
    against the platform's roots -- by no check only where the configuration
    accepts invalid certificates -- and without resumption, together with the
    key of the first certificate of that very connection.  The connector has
    the configured identity and size and all its channels before it begins,
    the share's staging directory is there by then, nothing follows a failure,
    and an error has the category of the step that failed. *)
Theorem credentials_meet_a_checked_server (cfg : ConnectionConfig) (addr : Addr) :
  obeys (connect_step cfg addr) (left_off cfg) (connect cfg addr) PhStart.
Proof.
  unfold connect. eapply obeys_net; [by constructor| |by eexists]. intros ?.
  eapply obeys_net; [by constructor| |by eexists]. intros client.
  apply obeys_channels; [|by eexists]. intros l ph Hl Hph.
  eapply obeys_net; [by econstructor| |by eexists]. intros ?.
  apply obeys_bind. eapply obeys_mono; [|apply obeys_tls]. cbn beta.
  intros ph' [key|e]; [|done]. intros (cert & certs & -> & Hd).
  eapply obeys_last; [by econstructor|done|by eexists].
Qed.

End Connect.

(** ** An example: one server under three configurations *)
Module ConnectDemo.
Definition cfg : ConnectionConfig := config_share_root (txt "/share") (config_bundle [txt "b"] (txt "id") (config_new (txt "host") (txt "u") (txt "pw"))).

(** A server with a certificate of root [root]; the platform knows [native].
    The surroundings keep what was created and the verifiers in use. *)
Definition server (native : list bytes) (root : bytes) (B : Type) (e : @NetOp Z unit B) (w : list text * list Verifier)
    : (list text * list Verifier) * B :=
  match e in NetOp B return (list text * list Verifier) * B with
  | LookupHost _ _ => (w, Ok [1])
  | TcpConnect _ => (w, Ok tt)
  | LocalAddr => (w, Ok 7)
  | CreateDirAll d => ((fst w ++ [d], snd w), Ok tt)
  | ConnectBegin _ => (w, Ok tt)
  | LoadNativeCerts => (w, native)
  | TlsHandshake config _ =>
      ((fst w, snd w ++ [tc_verifier config]),
       match tc_verifier config with
       | NoCertificateVerification => Ok tt
       | PlatformRoots roots => if decide (root ∈ roots) then Ok tt else Err (txt "unknown issuer")
       end)
  | PeerCertificates => (w, Some [[1; 2]%N])
  | ConnectFinalize _ _ _ => (w, Ok tt)
  end.

Definition dial (native : list bytes) (cfg : ConnectionConfig) :=
  run (server native [9]%N) (connect (fun c => bool_decide (c <> [])) (fun _ => None) (fun c => Ok (Some c)) cfg 1) ([], []).

Example known_root_connects :
  dial [[]; [9]]%N cfg = (([txt "/share/.rdpilot-staging"], [PlatformRoots [[9]]%N]), Ok tt).
Proof. vm_compute. reflexivity. Qed.

Example unknown_root_is_refused :
  snd (dial [[8]]%N cfg) = Err (ErTls (txt "TLS handshake failed: unknown issuer")) /\ snd (dial [] cfg) = Err NO_ROOTS.
Proof. vm_compute. by split. Qed.

Example lab_target_connects :
  dial [] (config_accept_invalid_certs true cfg) = (([txt "/share/.rdpilot-staging"], [NoCertificateVerification]), Ok tt).
Proof. vm_compute. reflexivity. Qed.
End ConnectDemo.
