(* ===== verification/Settings.v ===== *)
(** * The configuration file's settings ([rdpilot-config/src]: [recording.rs],
      [viewer.rs], [paths.rs], [resolve.rs], [resolved.rs])

    Layering the file and the environment and decoding the result is the
    [config] crate: what it decoded is an argument, each field [None] where the
    layers do not name it, and the defaults are filled in here.  The platform's
    directories are [BaseDirs].  A path is its text.

    [max_fps] is the only floating-point setting; of a double the checks need
    its value as a rational, or that it is infinite or not a number. *)
From Stdlib Require Import QArith.
From S2P Require Import Prelude Events ViewerAuth Resolve.
Open Scope Z_scope.

(** ** [paths.rs] *)

Record BaseDirs := {
  bd_config_dir : text; bd_home_dir : text; bd_cache_dir : text; bd_data_dir : text; bd_data_local_dir : text }.

Section Paths.
Variable dirs : option BaseDirs.
(** [cfg!(windows)], and [std::env::temp_dir]. *)
Variable windows : bool.
Variable temp_dir : text.

Definition config_dir : option text := option_map (fun b => path_join (bd_config_dir b) (txt "rdpilot")) dirs.
Definition config_file_path : option text := option_map (fun d => path_join d (txt "config.toml")) config_dir.
Definition home_dir : option text := option_map bd_home_dir dirs.
Definition hosts_file_path : option text := option_map (fun d => path_join d (txt "hosts")) config_dir.

Definition cache_dir_in (os_cache_root : text) : text :=
  let dir := path_join os_cache_root (txt "rdpilot") in
  if windows then path_join dir (txt "cache") else dir.
Definition cache_dir : option text := option_map (fun b => cache_dir_in (bd_cache_dir b)) dirs.

(** ** [resolved.rs], [resolve.rs] *)

Inductive ConfigError := CeFile (m : text) | CePathResolution (m : text).
Definition config_error_text (e : ConfigError) : text :=
  match e with
  | CeFile m => txt "failed to read/parse the config file: " ++ m
  | CePathResolution m => txt "could not resolve the platform config directory: " ++ m
  end.

Record ResolvedConfig := { rc_share_root : option text; rc_bundle_path : option text }.

(** [deserialize_layered], [resolve], of what building and decoding gave. *)
Definition resolve_config (decoded : result text ResolvedConfig) : result ConfigError ResolvedConfig :=
  match decoded with Ok c => Ok c | Err e => Err (CeFile e) end.

Definition DEFAULT_SHARE_ROOT_SUBPATH : list text := [txt "rdpilot"; txt "transfer-staging"].

Definition default_share_root : text :=
  fold_left path_join DEFAULT_SHARE_ROOT_SUBPATH (match dirs with Some b => bd_data_dir b | None => temp_dir end).

Definition share_root_or_default (cfg : ResolvedConfig) : text :=
  match rc_share_root cfg with Some configured => configured | None => default_share_root end.

(** ** [recording.rs] *)

Inductive F64 := FNumber (q : Q) | FInfinite (negative : bool) | FNaN.

Definition DEFAULT_MAX_FPS : F64 := FNumber 4.
Definition MIN_MAX_FPS : Q := 1 # 2.
Definition MAX_MAX_FPS : Q := 8.
Definition DEFAULT_BUDGET_MIB : Z := 2048.

(** [RangeInclusive::contains]: a NaN is in no range. *)
Definition in_fps_range (f : F64) : bool :=
  match f with FNumber q => Qle_bool MIN_MAX_FPS q && Qle_bool q MAX_MAX_FPS | FInfinite _ | FNaN => false end.

Record HostRecording := { hr_host : text; hr_enabled : bool }.
Record RecordingConfig := {
  rg_enabled : bool; rg_max_fps : F64; rg_dir : option text; rg_budget_mib : Z; rg_hosts : list HostRecording }.

Definition RecordingConfig_default : RecordingConfig :=
  {| rg_enabled := false; rg_max_fps := DEFAULT_MAX_FPS; rg_dir := None; rg_budget_mib := DEFAULT_BUDGET_MIB; rg_hosts := [] |}.

(** The [recording] table as it was decoded, and its [serde] defaults. *)
Record RecordingTable := {
  rt_enabled : option bool; rt_max_fps : option F64; rt_dir : option text; rt_budget_mib : option Z;
  rt_hosts : option (list HostRecording) }.
Definition recording_of (t : RecordingTable) : RecordingConfig :=
  {| rg_enabled := default false (rt_enabled t); rg_max_fps := default DEFAULT_MAX_FPS (rt_max_fps t); rg_dir := rt_dir t;
     rg_budget_mib := default DEFAULT_BUDGET_MIB (rt_budget_mib t); rg_hosts := default [] (rt_hosts t) |}.

(** [bool::then_some] *)
Definition then_some {A} (b : bool) (a : A) : option A := if b then Some a else None.

Definition switch_for (c : RecordingConfig) (target : text) (flag : option bool) : option RecordingTrigger :=
  match flag with
  | Some on => then_some on TrConnectFlag
  | None =>
      match List.find (fun h => eq_ignore_ascii_case (hr_host h) target) (rg_hosts c) with
      | Some entry => then_some (hr_enabled entry) TrHost
      | None => then_some (rg_enabled c) TrConfig
      end
  end.

Definition dir_or_default (c : RecordingConfig) : text :=
  match rg_dir c with
  | Some dir => dir
  | None => path_join (path_join (match dirs with Some b => bd_data_local_dir b | None => temp_dir end) (txt "rdpilot"))
              (txt "recordings")
  end.

(** [saturating_mul] on [u64]. *)
Definition budget_bytes (c : RecordingConfig) : Z := Z.min u64_max (rg_budget_mib c * (1024 * 1024)).

(** [Display] of a double. *)
Variable show_f64 : F64 -> text.

Definition validate_recording (c : RecordingConfig) : result ConfigError RecordingConfig :=
  if negb (in_fps_range (rg_max_fps c)) then
    Err (CeFile (txt "recording.max_fps must be between 0.5 and 8, got " ++ show_f64 (rg_max_fps c)))
  else if rg_budget_mib c =? 0 then Err (CeFile (txt "recording.budget_mib must be at least 1"))
  else if existsb (fun h => match hr_host h with [] => true | _ :: _ => false end) (rg_hosts c) then
    Err (CeFile (txt "recording.hosts entries need a non-empty host"))
  else Ok c.

(** [deserialize_recording] in [resolve_recording], of what building and
    decoding the layers gave; no table is the default one. *)
Definition resolve_recording (decoded : result text (option RecordingTable)) : result ConfigError RecordingConfig :=
  match decoded with
  | Err e => Err (CeFile e)
  | Ok table => validate_recording (match table with Some t => recording_of t | None => RecordingConfig_default end)
  end.

(** ** [viewer.rs] *)

(** [ViewerBind::from_str]; the two binds are those of the wire. *)
Definition viewer_bind_of (s : text) : result text WireViewerBind :=
  if decide (s = txt "loopback") then Ok BindLoopback
  else if decide (s = txt "loopback+tailnet") then Ok BindTailnet
  else Err (txt "invalid viewer bind " ++ [dquote] ++ s ++ [dquote] ++ txt " (expected " ++ [dquote] ++ txt "loopback" ++ [dquote]
    ++ txt " or " ++ [dquote] ++ txt "loopback+tailnet" ++ [dquote] ++ txt ")").

Record ViewerConfig := { vc_bind : WireViewerBind; vc_tailnet_address : option text; vc_read_only : bool; vc_idle_timeout : Z }.
Definition default_idle_timeout : Z := 300.
Definition ViewerConfig_default : ViewerConfig :=
  {| vc_bind := BindTailnet; vc_tailnet_address := None; vc_read_only := false; vc_idle_timeout := default_idle_timeout |}.

Record ViewerTable := {
  vt_bind : option WireViewerBind; vt_tailnet_address : option text; vt_read_only : option bool; vt_idle_timeout : option Z }.
Definition viewer_of (t : ViewerTable) : ViewerConfig :=
  {| vc_bind := default BindTailnet (vt_bind t); vc_tailnet_address := vt_tailnet_address t;
     vc_read_only := default false (vt_read_only t); vc_idle_timeout := default default_idle_timeout (vt_idle_timeout t) |}.

(** [deserialize_viewer] in [resolve_viewer]. *)
Definition resolve_viewer (decoded : result text (option ViewerTable)) : result ConfigError ViewerConfig :=
  match decoded with
  | Err e => Err (CeFile e)
  | Ok table =>
      let viewer := match table with Some t => viewer_of t | None => ViewerConfig_default end in
      if vc_idle_timeout viewer =? 0 then
        Err (CeFile (txt "invalid viewer idle_timeout 0 (expected at least 1 second; the idle timeout cannot be turned off)"))
      else Ok viewer
  end.

(** ** Facts *)

(** Settings that pass: a rate between one frame in two seconds and eight a
    second, a budget of a MiB at least, and hosts with names. *)
Record recording_valid (c : RecordingConfig) : Prop := {
  rv_fps : exists q, rg_max_fps c = FNumber q /\ (MIN_MAX_FPS <= q <= MAX_MAX_FPS)%Q;
  rv_budget : rg_budget_mib c <> 0;
  rv_hosts : forall h, h ∈ rg_hosts c -> hr_host h <> [] }.

Lemma in_fps_range_spec f : in_fps_range f = true <-> exists q, f = FNumber q /\ (MIN_MAX_FPS <= q <= MAX_MAX_FPS)%Q.
Proof.
  destruct f as [q|n|]; cbn; [|by split; [|intros (? & [=] & _)]..].
  rewrite andb_true_iff, !Qle_bool_iff. split; [by eauto|by intros (? & [= ->] & ?)].
Qed.

Lemma validate_recording_spec c c' : validate_recording c = Ok c' <-> c' = c /\ recording_valid c.
Proof.
  unfold validate_recording. destruct (in_fps_range (rg_max_fps c)) eqn:Hf; cbn.
  2: { split; [done|]. intros [_ H]. apply rv_fps, in_fps_range_spec in H. congruence. }
  apply in_fps_range_spec in Hf. destruct (Z.eqb_spec (rg_budget_mib c) 0) as [Hb|Hb].
  { split; [done|]. intros [_ H]. by apply rv_budget in H. }
  destruct (existsb _ (rg_hosts c)) eqn:He.
  - split; [done|]. intros [_ H]. apply existsb_exists in He as (h & Hin & Hh).
    destruct (rv_hosts _ H h); [by apply list_elem_of_In|]. by destruct (hr_host h).
  - split; [|by intros [-> _]]. intros [= <-]. split; [done|]. split; [done..|]. intros h Hin Hh.
    assert (existsb (fun h => match hr_host h with [] => true | _ :: _ => false end) (rg_hosts c) = true); [|congruence].
    apply existsb_exists. exists h. split; [by apply list_elem_of_In|]. by rewrite Hh.
Qed.

(** Whatever the layers say, settings that resolve are valid; and every valid
    table resolves to itself with the defaults filled in. *)
Lemma recording_settings_valid decoded c :
  resolve_recording decoded = Ok c <->
  exists table, decoded = Ok table /\ c = match table with Some t => recording_of t | None => RecordingConfig_default end
                /\ recording_valid c.
Proof.
  unfold resolve_recording. destruct decoded as [table|e]; [|by split; [|intros (? & [=] & _)]].
  rewrite validate_recording_spec. split; [intros [-> H]; eauto|]. by intros (? & [= ->] & -> & H).
Qed.

(** A flag decides alone; without one the first entry for the host does, and
    only where there is none the global switch. *)
Lemma switch_for_spec c target flag :
  switch_for c target flag =
  match flag, List.filter (fun h => eq_ignore_ascii_case (hr_host h) target) (rg_hosts c) with
  | Some on, _ => if on then Some TrConnectFlag else None
  | None, entry :: _ => if hr_enabled entry then Some TrHost else None
  | None, [] => if rg_enabled c then Some TrConfig else None
  end.
Proof.
  unfold switch_for. destruct flag as [on|]; [done|]. induction (rg_hosts c) as [|h l IH]; cbn; [done|].
  by destruct (eq_ignore_ascii_case (hr_host h) target).
Qed.

(** A budget in bytes is that of its MiB up to what 64 bits hold, and never
    wraps to a small one. *)
Lemma budget_bytes_bounds c : 0 < rg_budget_mib c <= u64_max ->
  1024 * 1024 <= budget_bytes c <= u64_max
  /\ (budget_bytes c < u64_max -> budget_bytes c = rg_budget_mib c * 1024 * 1024).
Proof. unfold budget_bytes, u64_max. lia. Qed.

(** A viewer's idle timeout cannot be turned off. *)
Lemma viewer_always_times_out decoded v : resolve_viewer decoded = Ok v -> vc_idle_timeout v <> 0.
Proof.
  unfold resolve_viewer. destruct decoded as [table|e]; [|done].
  destruct (Z.eqb_spec (vc_idle_timeout (match table with Some t => viewer_of t | None => ViewerConfig_default end)) 0);
    [done|by intros [= <-]].
Qed.

End Paths.

Example settings_by_host :
  let c := {| rg_enabled := true; rg_max_fps := DEFAULT_MAX_FPS; rg_dir := None; rg_budget_mib := 1;
              rg_hosts := [{| hr_host := txt "Lab"; hr_enabled := false |}; {| hr_host := txt "lab"; hr_enabled := true |}] |} in
  switch_for c (txt "LAB") None = None /\ switch_for c (txt "lab") (Some true) = Some TrConnectFlag
  /\ switch_for c (txt "other") None = Some TrConfig.
Proof. vm_compute. done. Qed.
