(* ===== verification/Client.v ===== *)
(** * The command line client ([rdpilot-cli/src])

    One invocation is one program: it resolves what its command needs, opens
    one stream to the daemon, asks whether the daemon is compatible, sends its
    request, and turns the answer into output and an exit code.  What it asks
    of the system, of the daemon and of the person at the terminal is an
    operation ([CliOp]).  Parsing the arguments is the clap crate: an
    invocation starts from its parsed [Command].

    Errors of hosts files are shown by [show_hosts_error]; a JSON encoding that
    serde derives, the debug text of a response, base64 and the sizes that
    [recording list] shows (floating point) are parameters.  Paths are Unix
    paths. *)
From S2P Require Import Prelude Bytes Utf8 Calendar Vocab Json Events Control Registry ViewerAuth Prog Wire HostsParse Target Resolve Expand Settings.
Open Scope Z_scope.
Local Open Scope prog_scope.

(** ** [exit_codes.rs] *)

Inductive CliError :=
| CliWire (e : WireError)
| CliDaemonUnreachable (m : text)
| CliDaemonIncompatible (observed : option Z)
| CliNoClobber (m : text)
| CliMissingConfig (m : text)
| CliConfig (m : text)
| CliInternal (m : text)
| CliTransport (m : text).

(** [Debug] of a [WireErrorCode], and [Display] of a [WireError]. *)
Definition code_debug (c : WireErrorCode) : text :=
  match c with
  | WcSessionNotFound => txt "SessionNotFound"
  | WcDaemonUnreachable => txt "DaemonUnreachable"
  | WcTransferFailed => txt "TransferFailed"
  | WcPathTraversal => txt "PathTraversal"
  | WcChecksumMismatch => txt "ChecksumMismatch"
  | WcInternal => txt "Internal"
  | WcDuplicateSession => txt "DuplicateSession"
  | WcRecording => txt "Recording"
  | WcBundleUnavailable => txt "BundleUnavailable"
  | WcHumanControl => txt "HumanControl"
  end.
Definition wire_error_text (e : WireError) : text := code_debug (we_code e) ++ txt ": " ++ we_message e.

(** [Display] *)
Definition cli_error_text (e : CliError) : text :=
  match e with
  | CliWire err => wire_error_text err
  | CliDaemonUnreachable m => txt "daemon unreachable: " ++ m
  | CliDaemonIncompatible observed => daemon_incompatible_message observed
  | CliNoClobber m => txt "destination already exists (use --force to overwrite): " ++ m
  | CliMissingConfig m => txt "missing required configuration: " ++ m
  | CliConfig m => txt "configuration error: " ++ m
  | CliInternal m => txt "unexpected daemon response: " ++ m
  | CliTransport m => txt "transport error: " ++ m
  end.

Definition code_for (e : CliError) : Z :=
  match e with
  | CliWire wire =>
      match we_code wire with
      | WcSessionNotFound => 2
      | WcTransferFailed => 4
      | WcPathTraversal => 5
      | WcChecksumMismatch => 6
      | WcDuplicateSession => 7
      | WcBundleUnavailable => 9
      | WcHumanControl => 10
      | WcDaemonUnreachable | WcInternal | WcRecording => 1
      end
  | CliDaemonUnreachable _ => 3
  | CliDaemonIncompatible _ => 12
  | CliNoClobber _ => 8
  | CliMissingConfig _ | CliConfig _ | CliInternal _ | CliTransport _ => 1
  end.

Definition code_str_for (e : CliError) : text :=
  match e with
  | CliWire wire => code_text (we_code wire)
  | CliDaemonUnreachable _ => txt "daemon-unreachable"
  | CliDaemonIncompatible _ => txt "daemon-incompatible"
  | CliNoClobber _ => txt "no-clobber"
  | CliMissingConfig _ => txt "missing-config"
  | CliConfig _ => txt "config"
  | CliInternal _ => txt "internal"
  | CliTransport _ => txt "transport"
  end.

(** ** [cli.rs] *)

Record TargetArgs := { ta_target : text; ta_options : list text; ta_file : option text }.
Record ConnectArgs := { ca_target : TargetArgs; ca_name : option text; ca_record : bool; ca_no_record : bool }.
Definition record_flag (a : ConnectArgs) : option bool :=
  match ca_record a, ca_no_record a with
  | true, _ => Some true
  | _, true => Some false
  | _, _ => None
  end.
Record ViewArgs := { va_bind : option WireViewerBind; va_tailnet_address : option text; va_read_only : bool }.
Record ScreenshotArgs := { sa_session : text; sa_output : text }.
Record PutArgs := { pa_session : text; pa_local : text; pa_remote_name : text }.
Record GetArgs := { ga_session : text; ga_remote_name : text; ga_local : text; ga_force : bool }.

Inductive RecordCmd := RecStart (session : text) | RecStop (session : text).
Inductive RecordingCmd := RdList | RdKeep (id : text) | RdUnkeep (id : text).
Inductive SessionCmd :=
| SesConnect (a : ConnectArgs) | SesList | SesDisconnect (session : text) | SesTakeover (session : text).
Inductive ConfigCmd := CfgResolve (a : TargetArgs).
Inductive PerceiveCmd := PerScreenshot (a : ScreenshotArgs).
Inductive InputCmd :=
| InClick (session : text) (x y : Z) (button : Button) (double : bool)
| InScroll (session : text) (x y dy : Z)
| InDrag (session : text) (from_x from_y to_x to_y : Z) (button : Button)
| InType (session : text) (t : text)
| InKey (session : text) (combo : text).
Inductive FileCmd := FcPut (a : PutArgs) | FcGet (a : GetArgs).

(** The session verbs, the screenshot and the transfers have a flat and a
    grouped spelling. *)
Inductive CliCommand :=
| CmConnect (a : ConnectArgs)
| CmList
| CmPing (session : text)
| CmScreenshot (a : ScreenshotArgs)
| CmDisconnect (session : text)
| CmTakeover (session : text)
| CmSession (c : SessionCmd)
| CmPerceive (c : PerceiveCmd)
| CmInput (c : InputCmd)
| CmPut (a : PutArgs)
| CmGet (a : GetArgs)
| CmFile (c : FileCmd)
| CmConfig (c : ConfigCmd)
| CmView (a : ViewArgs)
| CmRecord (c : RecordCmd)
| CmAnnotate (session t : text)
| CmRecording (c : RecordingCmd).

(** ** What an invocation asks for *)

(** How a shell ended: it did not start, it has no standard output, the time
    was up, or what it wrote with whether that and its end could be read, and
    [None] for success or the status as it is shown. *)
Inductive ShellEnd :=
| ShNotStarted (e : text) | ShNoStdout | ShTimedOut
| ShRan (out : bytes) (read : result text unit) (status : result text (option text)).

Inductive DirMade := DirCreated | DirExists | DirFailed (e : text).
Inductive HeldEnd := HeldCtrlC | HeldRead.

Inductive CliOp : Type -> Type :=
| ResolveHost (a : TargetArgs) : CliOp (result HostsError ResolvedHost)
| ResolveRecording : CliOp (result ConfigError RecordingConfig)
| ResolveViewer : CliOp (result ConfigError ViewerConfig)
| RunShell (command : text) (timeout : Z) : CliOp ShellEnd
| CurrentDir : CliOp (result text text)
| PathExists (p : text) : CliOp bool
| NextDownload : CliOp (Z * Z)
| CreateDir (p : text) : CliOp DirMade
| SocketPath : CliOp (result text unit)
| CurrentExe : CliOp (result text unit)
| ConnectOrSpawn : CliOp (result text unit)
| ConnectExisting : CliOp (result text unit)
| WriteFrame (r : Request) : CliOp (result TransportError unit)
| ReadFrame : CliOp (result TransportError WireResponse)
| RenameFile (from to : text) : CliOp (result text unit)
| RemoveDirAll (p : text) : CliOp unit
| WriteFile (p : text) (b : bytes) : CliOp (result text unit)
| PrintOut (t : text) : CliOp unit
| PrintErr (t : text) : CliOp unit
| PrintJson (v : Value) : CliOp unit
| HoldStream : CliOp HeldEnd.

(** [?], and an operation whose error becomes one of the client's. *)
Definition cli_try {A B} (p : prog CliOp (result CliError A)) (k : A -> prog CliOp (result CliError B)) : prog CliOp (result CliError B) :=
  let! r := p in match r with Ok a => k a | Err e => Ret (Err e) end.
Notation "'ask!' x ':=' p 'in' q" := (cli_try p (fun x => q)) (at level 10, x pattern, p at level 100, q at level 200).
Definition cli_map {X A} (f : X -> CliError) (e : CliOp (result X A)) : prog CliOp (result CliError A) :=
  let! r := act e in Ret (match r with Ok a => Ok a | Err x => Err (f x) end).
Definition say (t : text) : prog CliOp unit := act (PrintOut t).

(** [Display] of [TransportError] *)
Definition transport_error_text (e : TransportError) : text :=
  match e with
  | TeIo m => txt "io error: " ++ m
  | TeEncode m => txt "frame encode failed: " ++ m
  | TeDecode m => txt "frame decode failed: " ++ m
  end.

(** ** [render] *)

(** [format!("{cell:<width$}")] pads by characters. *)
Definition pad_cell (width : N) (cell : text) : text := cell ++ replicate (N.to_nat width - length cell) 32%N.

(** One row; a cell past the widths keeps its own. *)
Fixpoint pad_cells (cells : list text) (widths : list N) : list text :=
  match cells, widths with
  | cell :: cells, w :: widths => pad_cell w cell :: pad_cells cells widths
  | cells, _ => cells
  end.
Fixpoint join_gutter (parts : list text) : text :=
  match parts with
  | [] => []
  | [p] => p
  | p :: rest => p ++ txt "  " ++ join_gutter rest
  end.
Definition push_row (cells : list text) (widths : list N) : text := trim_end (join_gutter (pad_cells cells widths)) ++ [10%N].

(** The widths so far with those of a row, in bytes. *)
Fixpoint widen (widths : list N) (row : list text) : list N :=
  match widths, row with
  | w :: widths, cell :: row => N.max w (byte_len cell) :: widen widths row
  | widths, _ => widths
  end.
Definition render_table (headers : list text) (rows : list (list text)) : text :=
  let widths := fold_left widen rows (map byte_len headers) in
  push_row headers widths ++ concat (map (fun row => push_row row widths) rows).

Section Client.
(** [str::to_lowercase]; the environment; what serde derives; base64. *)
Variable to_lowercase : text -> text.
Variable env : text -> option text.
Variable show_hosts_error : HostsError -> text.
Variable debug_response : WireResponse -> text.
Variable sessions_json : list SessionStatus -> Value.
Variable recordings_json : list WireRecording -> Value.
Variable controller_json : WireController -> Value.
Variable base64_decode : text -> result text bytes.
Variable size_text : Z -> text.

Definition unexpected {A} (to : text) (other : WireResponse) : result CliError A :=
  Err (CliInternal (txt "unexpected " ++ to ++ txt ": " ++ debug_response other)).

(** ** [connect.rs] *)

Definition unreachable (m : text) : CliError := CliDaemonUnreachable m.

Definition open_stream : prog CliOp (result CliError unit) :=
  ask! _ := cli_map unreachable SocketPath in
  ask! _ := cli_map unreachable CurrentExe in
  cli_map unreachable ConnectOrSpawn.

Definition open_existing_stream : prog CliOp (result CliError unit) :=
  ask! _ := cli_map unreachable SocketPath in
  cli_map (fun _ => unreachable (txt "no rdpilot daemon is running; connect a session first (rdpilot connect)")) ConnectExisting.

Definition transport (e : TransportError) : CliError := CliTransport (transport_error_text e).

Definition write_and_read (request : Request) : prog CliOp (result CliError WireResponse) :=
  ask! _ := cli_map transport (WriteFrame request) in
  cli_map transport ReadFrame.

Definition validate_preflight (response : WireResponse) : result CliError unit :=
  match response with
  | WSessionList _ (Some version) =>
      if version =? IPC_COMPATIBILITY_VERSION then Ok tt else Err (CliDaemonIncompatible (Some version))
  | WSessionList _ None => Err (CliDaemonIncompatible None)
  | WError_ error => Err (CliWire error)
  | other => unexpected (txt "response to compatibility List probe") other
  end.

Definition is_list (r : Request) : bool := match r with RqList => true | _ => false end.

Definition verified_round_trip (req : Request) : prog CliOp (result CliError WireResponse) :=
  ask! preflight := write_and_read RqList in
  match validate_preflight preflight with
  | Err e => Ret (Err e)
  | Ok _ => if is_list req then Ret (Ok preflight) else write_and_read req
  end.

Definition round_trip (req : Request) : prog CliOp (result CliError WireResponse) :=
  ask! _ := open_stream in
  verified_round_trip req.

Definition connect_round_trip (req : Request) : prog CliOp (result CliError WireResponse) :=
  ask! _ := open_stream in
  ask! response := verified_round_trip req in
  match response with
  | WConnected session connect_ack_required _ _ _ =>
      if connect_ack_required : bool then
        ask! ack := write_and_read (RqConnectAck session) in
        match ack with
        | WAck => Ret (Ok response)
        | WError_ error => Ret (Err (CliWire error))
        | other => Ret (unexpected (txt "response to ConnectAck") other)
        end
      else Ret (Ok response)
  | _ => Ret (Ok response)
  end.
(** ** [password_command.rs] *)

(** Thirty seconds, in nanoseconds. *)
Definition TIMEOUT : Z := 30 * 10 ^ 9.

(** [text.pop()] of a trailing newline, and then of a carriage return. *)
Definition strip_newline (t : text) : text :=
  match reverse t with
  | 10%N :: rest => match rest with 13%N :: rest => reverse rest | _ => reverse rest end
  | _ => t
  end.

(** [run] *)
Definition run_password_command (cmd label : text) (timeout : Z) : prog CliOp (result CliError text) :=
  let fail why := Err (CliConfig (txt "PasswordCommand for " ++ label ++ txt " failed: " ++ why)) in
  let! ended := act (RunShell cmd timeout) in
  Ret (match ended with
  | ShNotStarted e => fail (txt "could not start the shell: " ++ e)
  | ShNoStdout => fail (txt "no stdout")
  | ShTimedOut => fail (txt "timed out after " ++ dec (Z.to_N (timeout / 10 ^ 9)) ++ txt " s")
  | ShRan _ (Err e) _ => fail (txt "could not read its output: " ++ e)
  | ShRan _ (Ok _) (Err e) => fail (txt "could not wait for it: " ++ e)
  | ShRan _ (Ok _) (Ok (Some status)) => fail status
  | ShRan buf (Ok _) (Ok None) =>
      match from_utf8 buf with
      | None => fail (txt "output is not valid UTF-8")
      | Some t => match strip_newline t with [] => fail (txt "empty output") | t => Ok t end
      end
  end).

(** ** [verbs/config.rs] *)

Definition config_failed (m : text) : CliError := CliConfig m.

Definition resolve_target (args : TargetArgs) : prog CliOp (result CliError ResolvedHost) :=
  cli_map (fun e => config_failed (show_hosts_error e)) (ResolveHost args).

(** [render_text]: the keyword padded to the longest one, in bytes. *)
Definition render_rows (rs : list Row) : text :=
  let width := foldr (fun r => N.max (byte_len (row_keyword r))) 0%N rs in
  concat (map (fun r => pad_cell width (row_keyword r) ++ txt "  " ++ row_value r ++ txt "  (" ++ row_source r ++ txt ")" ++ [10%N]) rs).

Definition row_json (r : Row) : Value :=
  JObject [(txt "keyword", JString (row_keyword r)); (txt "value", JString (row_value r)); (txt "source", JString (row_source r))].

Definition config_resolve (args : TargetArgs) (json : bool) : prog CliOp (result CliError unit) :=
  ask! host := resolve_target args in
  let rs := rows host in
  if json then
    do! act (PrintJson (JObject [(txt "target", JString (show_target (rh_target host))); (txt "settings", JArray (map row_json rs))])) in
    Ret (Ok tt)
  else do! act (PrintOut (render_rows rs)) in Ret (Ok tt).

(** ** [verbs/session.rs] *)

Definition config_error (e : ConfigError) : CliError := CliConfig (config_error_text e).

Definition connect_status_message (session : text) (bridge_live : bool) : text :=
  if bridge_live then txt "connected " ++ session ++ txt "; bridge live"
  else txt "connected " ++ session ++ txt "; native only (CuaEnabled no): no Cua tools or put/get".

Definition recording_json (r : WireRecordingState) : Value :=
  match r with
  | RsOff => JObject [(txt "state", JString (txt "off"))]
  | RsOn id => JObject [(txt "state", JString (txt "on")); (txt "id", JString id)]
  | RsFailed reason => JObject [(txt "state", JString (txt "failed")); (txt "reason", JString reason)]
  end.

Fixpoint print_each (f : text -> CliOp unit) (l : list text) : prog CliOp unit :=
  match l with
  | [] => Ret tt
  | t :: l => do! act (f t) in print_each f l
  end.

(** The credential of a connect. *)
Definition connect_password (host : ResolvedHost) (label : text) : prog CliOp (result CliError text) :=
  match rh_password host with
  | Some password => Ret (Ok password)
  | None =>
      match rh_password_command host with
      | Some _ =>
          match expand_password_command env host with
          | Err e => Ret (Err (config_failed (show_hosts_error e)))
          | Ok command => run_password_command command label TIMEOUT
          end
      | None => Ret (Err (CliMissingConfig (txt "no Password or PasswordCommand for " ++ label)))
      end
  end.

Definition connect_request (args : ConnectArgs) (host : ResolvedHost) (record : option RecordingTrigger) (username password : text) : Request :=
  RqConnect {| cf_name := ca_name args; cf_host := rh_address host; cf_port := option_map Z.of_N (rh_port host);
    cf_username := username; cf_password := password; cf_domain := rh_domain host;
    cf_accept_invalid_certs := accept_invalid_certs host; cf_cua_enabled := cua_enabled host;
    cf_cua_version := cua_version host; cf_cua_auto_download := cua_auto_download host;
    cf_connect_ack := true; cf_record := record |}.

(** What [connect] prints of its answer. *)
Definition show_connected (response : WireResponse) (json : bool) : prog CliOp (result CliError unit) :=
  match response with
  | WConnected session _ bridge_live recording warnings =>
      do! print_each (fun w => PrintErr (txt "warning: " ++ w)) warnings in
      if json then
        do! act (PrintJson (JObject [(txt "session", JString session); (txt "bridge_live", JBool bridge_live);
                                     (txt "recording", recording_json recording)])) in
        Ret (Ok tt)
      else
        do! say (connect_status_message session bridge_live) in
        do! match recording with
            | RsOff => Ret tt
            | RsOn id => say (txt "recording: on (" ++ id ++ txt ")")
            | RsFailed reason => act (PrintErr (txt "recording could not start: " ++ reason))
            end in
        Ret (Ok tt)
  | WError_ err => Ret (Err (CliWire err))
  | other => Ret (unexpected (txt "response to Connect") other)
  end.

Definition connect (args : ConnectArgs) (json : bool) : prog CliOp (result CliError unit) :=
  ask! host := resolve_target (ca_target args) in
  let label := show_target (rh_target host) in
  ask! recording := cli_map config_error ResolveRecording in
  let record := switch_for recording (target_name (rh_target host)) (record_flag args) in
  match rh_user host with
  | None => Ret (Err (CliMissingConfig (txt "no User for " ++ label ++ txt " (set User in the hosts file, use -o User=..., or rdp://user@host)")))
  | Some username =>
      ask! password := connect_password host label in
      ask! response := connect_round_trip (connect_request args host record username password) in
      show_connected response json
  end.

Definition opt_text (t : option text) : text := default [] t.

(** [holder_since], [controller_str], [human_str]; [clock_time] is the
    daemon's (Calendar.v), letter for letter. *)
Definition holder_since (c : WireController) : text :=
  default (txt "?") (wc_address c) ++ txt " since " ++ from_option clock_time (txt "?") (wc_since c).
Definition controller_str (c : WireController) : text :=
  match wc_kind c with WkAgent => txt "agent" | WkHuman => txt "human " ++ holder_since c end.
Definition human_str (c : WireController) : text :=
  match wc_kind c with WkAgent => txt "the agent" | WkHuman => txt "human viewer " ++ holder_since c end.

Definition lifecycle_str (s : SessionLifecycle) : text :=
  match s with
  | StConnecting => txt "Connecting" | StLive => txt "Live" | StReconnecting => txt "Reconnecting"
  | StDisconnected => txt "Disconnected" | StOrphaned => txt "Orphaned"
  end.

Definition LIST_HEADERS : list text :=
  [txt "id"; txt "name"; txt "host"; txt "status"; txt "connected-since"; txt "last-activity"; txt "recording"; txt "control"].
Definition session_row (s : SessionStatus) : list text :=
  [ss_id s; opt_text (ss_name s); ss_host s; lifecycle_str (ss_status s); opt_text (ss_connected_since s);
   opt_text (ss_last_activity s); default (txt "-") (ss_recording s); from_option controller_str (txt "-") (ss_controller s)].

Definition list_sessions (json : bool) : prog CliOp (result CliError unit) :=
  ask! response := round_trip RqList in
  match response with
  | WSessionList sessions _ =>
      if json then do! act (PrintJson (sessions_json sessions)) in Ret (Ok tt)
      else do! act (PrintOut (render_table LIST_HEADERS (map session_row sessions))) in Ret (Ok tt)
  | WError_ err => Ret (Err (CliWire err))
  | other => Ret (unexpected (txt "response to List") other)
  end.

(** [args.session.parse()] *)
Definition parse_session (s : text) : prog CliOp (result CliError text) :=
  Ret (match session_id s with Ok s => Ok s | Err e => Err (CliInternal e) end).

(** An answer [Ack], printed as [done]. *)
Definition show_ack (name done_ : text) (response : WireResponse) (json : bool) : prog CliOp (result CliError unit) :=
  match response with
  | WAck =>
      if json then do! act (PrintJson (JObject [(txt "ok", JBool true)])) in Ret (Ok tt)
      else do! say done_ in Ret (Ok tt)
  | WError_ err => Ret (Err (CliWire err))
  | other => Ret (unexpected name other)
  end.

Definition takeover (session : text) (json : bool) : prog CliOp (result CliError unit) :=
  ask! id := parse_session session in
  ask! response := round_trip (RqTakeover id) in
  match response with
  | WTakenOver previous changed =>
      if json then
        do! act (PrintJson (JObject [(txt "changed", JBool changed); (txt "previous", controller_json previous)])) in Ret (Ok tt)
      else
        do! say (if changed : bool
                 then txt "control of " ++ session ++ txt " returned to the agent (was " ++ human_str previous ++ txt ")"
                 else txt "the agent already controls " ++ session ++ txt "; nothing changed") in
        Ret (Ok tt)
  | WError_ err => Ret (Err (CliWire err))
  | other => Ret (unexpected (txt "response to Takeover") other)
  end.

Definition disconnect (session : text) (json : bool) : prog CliOp (result CliError unit) :=
  ask! id := parse_session session in
  ask! response := round_trip (RqDisconnect id) in
  show_ack (txt "response to Disconnect") (txt "disconnected") response json.

Definition ping (session : text) (json : bool) : prog CliOp (result CliError unit) :=
  ask! id := parse_session session in
  ask! response := round_trip (RqPing id) in
  show_ack (txt "ping response") (txt "ok") response json.

(** ** [verbs/input.rs] *)

Definition expect_ack (response : WireResponse) (json : bool) : prog CliOp (result CliError unit) :=
  show_ack (txt "response") (txt "ok") response json.

Definition mouse (session : text) (action : MouseAction) (json : bool) : prog CliOp (result CliError unit) :=
  ask! id := parse_session session in
  ask! response := round_trip (RqMouse id action) in
  expect_ack response json.

Definition click (session : text) (x y : Z) (button : Button) (double : bool) : bool -> prog CliOp (result CliError unit) :=
  mouse session (if double then DoubleClick x y button else Click x y button).
Definition scroll (session : text) (x y dy : Z) := mouse session (Scroll x y dy).
Definition drag (session : text) (from_x from_y to_x to_y : Z) (button : Button) := mouse session (Drag from_x from_y to_x to_y button).

Definition type_text (session t : text) (json : bool) : prog CliOp (result CliError unit) :=
  ask! id := parse_session session in
  ask! response := round_trip (RqKey id (Type_ t)) in
  expect_ack response json.

(** [str::split] at a comma: one piece more than there are commas. *)
Fixpoint split_comma (t cur : text) : list text :=
  match t with
  | [] => [reverse cur]
  | c :: t => if (c =? 44)%N then reverse cur :: split_comma t [] else split_comma t (c :: cur)
  end.
Fixpoint parse_keys (names : list text) : result CliError (list Key) :=
  match names with
  | [] => Ok []
  | n :: names =>
      match parse_key_name to_lowercase n with
      | Err e => Err (CliInternal e)
      | Ok k => match parse_keys names with Err e => Err e | Ok ks => Ok (k :: ks) end
      end
  end.

Definition key (session combo : text) (json : bool) : prog CliOp (result CliError unit) :=
  ask! id := parse_session session in
  ask! keys := Ret (parse_keys (split_comma combo [])) in
  ask! response := round_trip (RqKey id (Combo keys)) in
  expect_ack response json.

(** ** [verbs/perceive.rs] *)

Definition decode_png (png_base64 : text) : result CliError bytes :=
  match base64_decode png_base64 with
  | Ok b => Ok b
  | Err e => Err (CliInternal (txt "invalid base64 screenshot data: " ++ e))
  end.

Definition screenshot (args : ScreenshotArgs) (json : bool) : prog CliOp (result CliError unit) :=
  ask! id := parse_session (sa_session args) in
  ask! response := round_trip (RqScreenshot id) in
  match response with
  | WScreenshot png_base64 =>
      ask! content := Ret (decode_png png_base64) in
      ask! _ := cli_map (fun e => CliInternal (txt "failed to write " ++ sa_output args ++ txt ": " ++ e)) (WriteFile (sa_output args) content) in
      if json then
        do! act (PrintJson (JObject [(txt "output", JString (sa_output args)); (txt "bytes", JNumber (dec (blen content)))])) in Ret (Ok tt)
      else do! say (txt "wrote " ++ sa_output args ++ txt " (" ++ dec (blen content) ++ txt " bytes)") in Ret (Ok tt)
  | WError_ err => Ret (Err (CliWire err))
  | other => Ret (unexpected (txt "response to Screenshot") other)
  end.

(** ** [verbs/file.rs] *)

Definition absolutize (path : text) : prog CliOp (result CliError text) :=
  if is_absolute path then Ret (Ok path)
  else
    ask! cwd := cli_map (fun e => CliInternal (txt "failed to resolve the current directory: " ++ e)) CurrentDir in
    Ret (Ok (path_join cwd path)).

Definition render_transfer (outcome : TransferOutcome) (json : bool) : prog CliOp (result CliError unit) :=
  if json then
    do! act (PrintJson (JObject [(txt "bytes_transferred", JNumber (dec (Z.to_N (to_bytes_transferred outcome))));
                                 (txt "checksum", JString (to_checksum outcome))])) in
    Ret (Ok tt)
  else
    do! say (txt "transferred " ++ dec (Z.to_N (to_bytes_transferred outcome)) ++ txt " bytes (checksum " ++ to_checksum outcome ++ txt ")") in
    Ret (Ok tt).

Definition put (args : PutArgs) (json : bool) : prog CliOp (result CliError unit) :=
  ask! id := parse_session (pa_session args) in
  ask! local_path := absolutize (pa_local args) in
  ask! response := round_trip (RqPut id local_path (pa_remote_name args)) in
  match response with
  | WTransfer outcome => render_transfer outcome json
  | WError_ err => Ret (Err (CliWire err))
  | other => Ret (unexpected (txt "response to Put") other)
  end.

(** [Path::parent] of a Unix path, on the text from its end: trailing
    separators and [.] components are no part of it. *)
Fixpoint trim_rev (r : text) : text :=
  match r with
  | c :: rest =>
      if (c =? slash)%N then match rest with [] => r | _ :: _ => trim_rev rest end
      else if (c =? 46)%N then match rest with s :: _ => if (s =? slash)%N then trim_rev rest else r | [] => r end
      else r
  | [] => []
  end.
Definition parent (p : text) : option text :=
  match trim_rev (reverse p) with
  | [] => None
  | r => if decide (r = [slash]) then None else Some (reverse (trim_rev (drop_while (fun c => negb (c =? slash)%N) r)))
  end.

(** [Replacement]: a directory beside the destination. *)
Definition download_dir (parent : text) (pid sequence : Z) : text :=
  path_join parent (txt ".rdpilot-download-" ++ dec (Z.to_N pid) ++ txt "-" ++ dec (Z.to_N sequence)).
Definition payload (dir : text) : text := path_join dir (txt "payload").

Fixpoint reserve (attempts : nat) (parent : text) : prog CliOp (result CliError text) :=
  match attempts with
  | O => Ret (Err (CliInternal (txt "could not reserve download staging directory")))
  | S n =>
      let! (pid, sequence) := act NextDownload in
      let dir := download_dir parent pid sequence in
      let! made := act (CreateDir dir) in
      match made with
      | DirCreated => Ret (Ok dir)
      | DirExists => reserve n parent
      | DirFailed e => Ret (Err (CliInternal (txt "could not stage download: " ++ e)))
      end
  end.

Definition replacement_new (destination : text) : prog CliOp (result CliError text) :=
  match parent destination with
  | None => Ret (Err (CliInternal (txt "destination has no parent")))
  | Some parent => reserve 100 parent
  end.

(** [get] from where its destination is settled; [replacement] is dropped by
    its caller. *)
Definition get_into (args : GetArgs) (id local_path : text) (replacement : option text) (json : bool) : prog CliOp (result CliError unit) :=
  let download_path := from_option payload local_path replacement in
  ask! response := round_trip (RqGet id (ga_remote_name args) download_path) in
  match response with
  | WTransfer outcome =>
      ask! _ := (match replacement with
        | Some dir => cli_map (fun e => CliInternal (txt "could not replace destination: " ++ e)) (RenameFile (payload dir) local_path)
        | None => Ret (Ok tt)
        end) in
      render_transfer outcome json
  | WError_ err => Ret (Err (CliWire err))
  | other => Ret (unexpected (txt "response to Get") other)
  end.

Definition get (args : GetArgs) (json : bool) : prog CliOp (result CliError unit) :=
  ask! id := parse_session (ga_session args) in
  ask! local_path := absolutize (ga_local args) in
  let! exists_ := act (PathExists local_path) in
  if exists_ && negb (ga_force args) then
    Ret (Err (CliNoClobber (txt "refusing to overwrite " ++ local_path ++ txt "; pass --force to override")))
  else if ga_force args then
    ask! dir := replacement_new local_path in
    let! r := get_into args id local_path (Some dir) json in
    do! act (RemoveDirAll dir) in
    Ret r
  else get_into args id local_path None json.

(** ** [verbs/record.rs] *)

Definition show_changed (response : WireResponse) (verb : text) (json : bool) : prog CliOp (result CliError unit) :=
  match response with
  | WRecordingChanged id changed message =>
      if json then
        do! act (PrintJson (JObject [(txt "id", from_option JString JNull id); (txt "changed", JBool changed); (txt "message", JString message)])) in
        Ret (Ok tt)
      else do! say message in Ret (Ok tt)
  | WError_ err => Ret (Err (CliWire err))
  | other => Ret (unexpected (txt "response to " ++ verb) other)
  end.

Definition record_start (session : text) (json : bool) : prog CliOp (result CliError unit) :=
  ask! id := parse_session session in
  ask! response := round_trip (RqRecordStart id) in
  show_changed response (txt "record start") json.
Definition record_stop (session : text) (json : bool) : prog CliOp (result CliError unit) :=
  ask! id := parse_session session in
  ask! response := round_trip (RqRecordStop id) in
  show_changed response (txt "record stop") json.
Definition annotate (session t : text) (json : bool) : prog CliOp (result CliError unit) :=
  ask! id := parse_session session in
  ask! response := round_trip (RqAnnotate id t) in
  show_changed response (txt "annotate") json.
Definition keep (id : text) (keep : bool) (json : bool) : prog CliOp (result CliError unit) :=
  ask! response := round_trip (RqRecordingKeep id keep) in
  show_changed response (if keep then txt "recording keep" else txt "recording unkeep") json.

(** [duration]: [1h02m03s]. *)
Definition duration (ms : Z) : text :=
  let s := ms / 1000 in
  let '(h, m, s) := (s / 3600, (s mod 3600) / 60, s mod 60) in
  let two n := pad0 2 (dec (Z.to_N n)) in
  let plain n := dec (Z.to_N n) in
  if 0 <? h then plain h ++ txt "h" ++ two m ++ txt "m" ++ two s ++ txt "s"
  else if 0 <? m then plain m ++ txt "m" ++ two s ++ txt "s"
  else plain s ++ txt "s".

Definition yes_no (b : bool) : text := if b then txt "yes" else txt "no".
Definition recording_row (r : WireRecording) : list text :=
  [wr_id r; default (wr_session r) (wr_session_name r); wr_host r; wr_started_at r; duration (wr_duration_ms r);
   size_text (wr_bytes r); yes_no (wr_active r); yes_no (wr_kept r)].
Definition RECORDING_HEADERS : list text :=
  [txt "id"; txt "session"; txt "host"; txt "started"; txt "duration"; txt "size"; txt "active"; txt "kept"].

Definition number (n : Z) : Value := JNumber (dec (Z.to_N n)).
Definition list_recordings (json : bool) : prog CliOp (result CliError unit) :=
  ask! response := round_trip RqRecordingList in
  match response with
  | WRecordings l =>
      if json then
        do! act (PrintJson (JObject [(txt "recordings", recordings_json (ls_recordings l)); (txt "kept_bytes", number (ls_kept_bytes l));
          (txt "unkept_bytes", number (ls_unkept_bytes l)); (txt "budget_bytes", number (ls_budget_bytes l));
          (txt "kept_over_budget", JBool (ls_kept_over_budget l))])) in
        Ret (Ok tt)
      else
        do! act (PrintOut (render_table RECORDING_HEADERS (map recording_row (ls_recordings l)))) in
        do! say (txt "kept: " ++ size_text (ls_kept_bytes l) ++ txt "; unkept: " ++ size_text (ls_unkept_bytes l) ++ txt " of "
                 ++ size_text (ls_budget_bytes l) ++ txt " budget") in
        do! (if ls_kept_over_budget l
             then say (txt "warning: kept recordings use more than the budget; nothing is deleted automatically") else Ret tt) in
        Ret (Ok tt)
  | WError_ err => Ret (Err (CliWire err))
  | other => Ret (unexpected (txt "response to recording list") other)
  end.

(** ** [verbs/view.rs] *)

Definition BOUNDARY : text := txt
  "Anyone with one of these URLs and network access to its address can view every session of this daemon and take control of its keyboard and mouse, displacing the agent or another viewer. Keep the URLs private, or use --read-only. Press Ctrl-C to stop the viewer.".
Definition BOUNDARY_READ_ONLY : text := txt
  "Anyone with one of these URLs and network access to its address can view the sessions (read-only: no takeover, no recording changes). Keep the URLs private. Press Ctrl-C to stop the viewer.".

Definition viewer_request (args : ViewArgs) (config : ViewerConfig) : Request :=
  RqViewerStart (default (vc_bind config) (va_bind args))
    (match va_tailnet_address args with Some a => Some a | None => vc_tailnet_address config end)
    (va_read_only args || vc_read_only config) (Some (vc_idle_timeout config)).

Definition show_viewer (urls notices : list text) (read_only json : bool) : prog CliOp unit :=
  if json then
    act (PrintJson (JObject [(txt "urls", JArray (map JString urls)); (txt "notices", JArray (map JString notices));
                             (txt "read_only", JBool read_only)]))
  else
    do! say (txt "rdpilot live viewer" ++ (if read_only then txt " (read-only)" else []) ++ txt " is running. Open one of:") in
    do! print_each (fun url => PrintOut (txt "  " ++ url)) urls in
    do! print_each (fun notice => PrintOut (txt "notice: " ++ notice)) notices in
    say (if read_only then BOUNDARY_READ_ONLY else BOUNDARY).

Definition view (args : ViewArgs) (json : bool) : prog CliOp (result CliError unit) :=
  ask! config := cli_map (fun e => CliMissingConfig (config_error_text e)) ResolveViewer in
  ask! _ := open_existing_stream in
  ask! response := verified_round_trip (viewer_request args config) in
  match response with
  | WViewerStarted addresses token notices =>
      do! show_viewer (map (fun a => a ++ txt "?token=" ++ token) addresses) notices (va_read_only args || vc_read_only config) json in
      let! held := act HoldStream in
      match held with
      | HeldCtrlC => do! act (PrintErr (txt "viewer stopped")) in Ret (Ok tt)
      | HeldRead => Ret (Err (CliDaemonUnreachable (txt "daemon exited; viewer stopped")))
      end
  | WError_ err => Ret (Err (CliWire err))
  | _ => Ret (Err (CliInternal (txt "unexpected response to ViewerStart")))
  end.

(** ** [main.rs] *)

Definition dispatch_cli (c : CliCommand) (json : bool) : prog CliOp (result CliError unit) :=
  match c with
  | CmConnect args | CmSession (SesConnect args) => connect args json
  | CmPing session => ping session json
  | CmList | CmSession SesList => list_sessions json
  | CmDisconnect session | CmSession (SesDisconnect session) => disconnect session json
  | CmTakeover session | CmSession (SesTakeover session) => takeover session json
  | CmScreenshot args | CmPerceive (PerScreenshot args) => screenshot args json
  | CmInput (InClick session x y button double) => click session x y button double json
  | CmInput (InScroll session x y dy) => scroll session x y dy json
  | CmInput (InDrag session from_x from_y to_x to_y button) => drag session from_x from_y to_x to_y button json
  | CmInput (InType session t) => type_text session t json
  | CmInput (InKey session combo) => key session combo json
  | CmPut args | CmFile (FcPut args) => put args json
  | CmGet args | CmFile (FcGet args) => get args json
  | CmConfig (CfgResolve args) => config_resolve args json
  | CmView args => view args json
  | CmRecord (RecStart session) => record_start session json
  | CmRecord (RecStop session) => record_stop session json
  | CmAnnotate session t => annotate session t json
  | CmRecording RdList => list_recordings json
  | CmRecording (RdKeep id) => keep id true json
  | CmRecording (RdUnkeep id) => keep id false json
  end.

(** [main]: the exit code. *)
Definition cli_main (c : CliCommand) (json : bool) : prog CliOp Z :=
  let! r := dispatch_cli c json in
  match r with
  | Ok _ => Ret 0
  | Err err =>
      do! (if json then
             act (PrintJson (JObject [(txt "error", JObject [(txt "code", JString (code_str_for err)); (txt "message", JString (cli_error_text err))])]))
           else act (PrintErr (txt "error: " ++ cli_error_text err))) in
      Ret (code_for err)
  end.

(** ** What an invocation does *)

(** The stream: not open, out of reach, open, probed, compatible with the probe
    answered, of another version, asked, answered, acknowledging and
    acknowledged (with the answer that asked for it), the viewer held to its
    end; or an error was answered, an answer that nobody asked for, or no
    whole frame. *)
Inductive Line :=
| LnNone | LnUnreached | LnOpen | LnProbe | LnChecked (probe : WireResponse) | LnIncompatible | LnAsked (r : Request)
| LnAnswered (r : Request) (a : WireResponse) | LnAck (a : WireResponse) | LnAcked (a : WireResponse)
| LnHeld (a : WireResponse) (h : HeldEnd) | LnRefused (w : WireError) | LnOdd | LnCut.

(** What is shown, and where. *)
Inductive Shown := ShOut (t : text) | ShErr (t : text) | ShJson (v : Value).

(** What it has learnt before it opens the stream. *)
Record Known := {
  kn_host : option ResolvedHost; kn_recording : option RecordingConfig; kn_viewer : option ViewerConfig;
  kn_cwd : option text; kn_exists : option bool; kn_password : option text }.
Record Errand := { er_known : Known; er_line : Line; er_staged : option text; er_shown : list Shown }.

Definition known_new : Known :=
  {| kn_host := None; kn_recording := None; kn_viewer := None; kn_cwd := None; kn_exists := None; kn_password := None |}.
Definition errand_new : Errand := {| er_known := known_new; er_line := LnNone; er_staged := None; er_shown := [] |}.
Definition on_line (l : Line) (e : Errand) : Errand :=
  {| er_known := er_known e; er_line := l; er_staged := er_staged e; er_shown := er_shown e |}.
Definition staged (d : option text) (e : Errand) : Errand :=
  {| er_known := er_known e; er_line := er_line e; er_staged := d; er_shown := er_shown e |}.
Definition knowing (k : Known) (e : Errand) : Errand :=
  {| er_known := k; er_line := er_line e; er_staged := er_staged e; er_shown := er_shown e |}.
Definition showing (l : list Shown) (e : Errand) : Errand :=
  {| er_known := er_known e; er_line := er_line e; er_staged := er_staged e; er_shown := er_shown e ++ l |}.

Definition know_host (h : option ResolvedHost) (k : Known) : Known :=
  {| kn_host := h; kn_recording := kn_recording k; kn_viewer := kn_viewer k; kn_cwd := kn_cwd k; kn_exists := kn_exists k; kn_password := kn_password k |}.
Definition know_recording (c : option RecordingConfig) (k : Known) : Known :=
  {| kn_host := kn_host k; kn_recording := c; kn_viewer := kn_viewer k; kn_cwd := kn_cwd k; kn_exists := kn_exists k; kn_password := kn_password k |}.
Definition know_viewer (c : option ViewerConfig) (k : Known) : Known :=
  {| kn_host := kn_host k; kn_recording := kn_recording k; kn_viewer := c; kn_cwd := kn_cwd k; kn_exists := kn_exists k; kn_password := kn_password k |}.
Definition know_cwd (d : option text) (k : Known) : Known :=
  {| kn_host := kn_host k; kn_recording := kn_recording k; kn_viewer := kn_viewer k; kn_cwd := d; kn_exists := kn_exists k; kn_password := kn_password k |}.
Definition know_exists (b : option bool) (k : Known) : Known :=
  {| kn_host := kn_host k; kn_recording := kn_recording k; kn_viewer := kn_viewer k; kn_cwd := kn_cwd k; kn_exists := b; kn_password := kn_password k |}.
Definition know_password (p : option text) (k : Known) : Known :=
  {| kn_host := kn_host k; kn_recording := kn_recording k; kn_viewer := kn_viewer k; kn_cwd := kn_cwd k; kn_exists := kn_exists k; kn_password := p |}.

Definition ok {A B} (r : result A B) : option B := match r with Ok b => Some b | Err _ => None end.

(** The secret of a password command: what it wrote without its line end, if
    it ended well in time and wrote something in UTF-8. *)
Definition secret_of (ended : ShellEnd) : option text :=
  match ended with
  | ShRan out (Ok _) (Ok None) =>
      match from_utf8 out with
      | Some t => match strip_newline t with [] => None | t => Some t end
      | None => None
      end
  | _ => None
  end.

Definition credential (k : Known) (h : ResolvedHost) (password : text) : Prop :=
  rh_password h = Some password \/ rh_password h = None /\ kn_password k = Some password.

Definition absolute (k : Known) (p q : text) : Prop :=
  if is_absolute p then q = p else exists cwd, kn_cwd k = Some cwd /\ q = path_join cwd p.

(** The target a command resolves. *)
Definition target_of (c : CliCommand) : option TargetArgs :=
  match c with
  | CmConnect a | CmSession (SesConnect a) => Some (ca_target a)
  | CmConfig (CfgResolve a) => Some a
  | _ => None
  end.

(** What a command asks of the daemon. *)
Definition asks (c : CliCommand) (e : Errand) (r : Request) : Prop :=
  let k := er_known e in
  match c with
  | CmConnect a | CmSession (SesConnect a) =>
      exists h rec f, kn_host k = Some h /\ kn_recording k = Some rec /\ r = RqConnect f
        /\ rh_user h = Some (cf_username f) /\ credential k h (cf_password f)
        /\ cf_name f = ca_name a /\ cf_host f = rh_address h /\ cf_port f = option_map Z.of_N (rh_port h)
        /\ cf_domain f = rh_domain h /\ cf_accept_invalid_certs f = accept_invalid_certs h
        /\ cf_cua_enabled f = cua_enabled h /\ cf_cua_version f = cua_version h
        /\ cf_cua_auto_download f = cua_auto_download h /\ cf_connect_ack f = true
        /\ cf_record f = switch_for rec (target_name (rh_target h)) (record_flag a)
  | CmList | CmSession SesList | CmConfig _ => False
  | CmPing s => r = RqPing s
  | CmDisconnect s | CmSession (SesDisconnect s) => r = RqDisconnect s
  | CmTakeover s | CmSession (SesTakeover s) => r = RqTakeover s
  | CmScreenshot a | CmPerceive (PerScreenshot a) => r = RqScreenshot (sa_session a)
  | CmInput (InClick s x y b double) => r = RqMouse s (if double then DoubleClick x y b else Click x y b)
  | CmInput (InScroll s x y dy) => r = RqMouse s (Scroll x y dy)
  | CmInput (InDrag s fx fy tx ty b) => r = RqMouse s (Drag fx fy tx ty b)
  | CmInput (InType s t) => r = RqKey s (Type_ t)
  | CmInput (InKey s combo) =>
      exists keys, r = RqKey s (Combo keys) /\ Forall2 (fun n key => parse_key_name to_lowercase n = Ok key) (split_comma combo []) keys
  | CmPut a | CmFile (FcPut a) => exists p, absolute k (pa_local a) p /\ r = RqPut (pa_session a) p (pa_remote_name a)
  | CmGet a | CmFile (FcGet a) =>
      exists p, absolute k (ga_local a) p /\
        match er_staged e with
        | Some dir => ga_force a = true /\ r = RqGet (ga_session a) (ga_remote_name a) (payload dir)
        | None => ga_force a = false /\ kn_exists k = Some false /\ r = RqGet (ga_session a) (ga_remote_name a) p
        end
  | CmView a =>
      exists cfg, kn_viewer k = Some cfg /\ r = RqViewerStart (default (vc_bind cfg) (va_bind a))
        (match va_tailnet_address a with Some x => Some x | None => vc_tailnet_address cfg end)
        (va_read_only a || vc_read_only cfg) (Some (vc_idle_timeout cfg))
  | CmRecord (RecStart s) => r = RqRecordStart s
  | CmRecord (RecStop s) => r = RqRecordStop s
  | CmAnnotate s t => r = RqAnnotate s t
  | CmRecording RdList => r = RqRecordingList
  | CmRecording (RdKeep id) => r = RqRecordingKeep id true
  | CmRecording (RdUnkeep id) => r = RqRecordingKeep id false
  end.

(** ** What is shown of an answer *)

Definition fields (l : list (text * Value)) : list Shown := [ShJson (JObject l)].

Definition told_connected (json : bool) (session : text) (live : bool) (rec : WireRecordingState) (warnings : list text) : list Shown :=
  map (fun w => ShErr (txt "warning: " ++ w)) warnings ++
  if json then
    fields [(txt "session", JString session); (txt "bridge_live", JBool live);
      (txt "recording", JObject match rec with
        | RsOff => [(txt "state", JString (txt "off"))]
        | RsOn id => [(txt "state", JString (txt "on")); (txt "id", JString id)]
        | RsFailed reason => [(txt "state", JString (txt "failed")); (txt "reason", JString reason)]
        end)]
  else
    ShOut (txt "connected " ++ session ++
      (if live then txt "; bridge live" else txt "; native only (CuaEnabled no): no Cua tools or put/get"))
    :: match rec with
       | RsOff => []
       | RsOn id => [ShOut (txt "recording: on (" ++ id ++ txt ")")]
       | RsFailed reason => [ShErr (txt "recording could not start: " ++ reason)]
       end.
Definition told_list (json : bool) (l : list SessionStatus) : list Shown :=
  if json then [ShJson (sessions_json l)] else [ShOut (render_table LIST_HEADERS (map session_row l))].
Definition told_done (json : bool) (word : text) : list Shown := if json then fields [(txt "ok", JBool true)] else [ShOut word].
Definition told_takeover (json : bool) (session : text) (previous : WireController) (changed : bool) : list Shown :=
  if json then fields [(txt "changed", JBool changed); (txt "previous", controller_json previous)]
  else [ShOut (if changed
    then txt "control of " ++ session ++ txt " returned to the agent (was " ++ human_str previous ++ txt ")"
    else txt "the agent already controls " ++ session ++ txt "; nothing changed")].
Definition told_screenshot (json : bool) (output : text) (size : N) : list Shown :=
  if json then fields [(txt "output", JString output); (txt "bytes", JNumber (dec size))]
  else [ShOut (txt "wrote " ++ output ++ txt " (" ++ dec size ++ txt " bytes)")].
Definition told_transfer (json : bool) (o : TransferOutcome) : list Shown :=
  let n := dec (Z.to_N (to_bytes_transferred o)) in
  if json then fields [(txt "bytes_transferred", JNumber n); (txt "checksum", JString (to_checksum o))]
  else [ShOut (txt "transferred " ++ n ++ txt " bytes (checksum " ++ to_checksum o ++ txt ")")].
Definition told_settings (json : bool) (h : ResolvedHost) : list Shown :=
  if json then
    fields [(txt "target", JString (show_target (rh_target h)));
      (txt "settings", JArray (map (fun r => JObject [(txt "keyword", JString (row_keyword r));
         (txt "value", JString (row_value r)); (txt "source", JString (row_source r))]) (rows h)))]
  else [ShOut (render_rows (rows h))].
Definition told_change (json : bool) (id : option text) (changed : bool) (message : text) : list Shown :=
  if json then
    fields [(txt "id", match id with Some id => JString id | None => JNull end); (txt "changed", JBool changed);
            (txt "message", JString message)]
  else [ShOut message].
Definition told_recordings (json : bool) (l : Listing) : list Shown :=
  let n z := JNumber (dec (Z.to_N z)) in
  if json then
    fields [(txt "recordings", recordings_json (ls_recordings l)); (txt "kept_bytes", n (ls_kept_bytes l));
            (txt "unkept_bytes", n (ls_unkept_bytes l)); (txt "budget_bytes", n (ls_budget_bytes l));
            (txt "kept_over_budget", JBool (ls_kept_over_budget l))]
  else
    [ShOut (render_table RECORDING_HEADERS (map recording_row (ls_recordings l)));
     ShOut (txt "kept: " ++ size_text (ls_kept_bytes l) ++ txt "; unkept: " ++ size_text (ls_unkept_bytes l) ++ txt " of "
       ++ size_text (ls_budget_bytes l) ++ txt " budget")]
    ++ (if ls_kept_over_budget l
        then [ShOut (txt "warning: kept recordings use more than the budget; nothing is deleted automatically")] else []).
Definition told_viewer (json read_only : bool) (addresses : list text) (token : text) (notices : list text) : list Shown :=
  let urls := map (fun a => a ++ txt "?token=" ++ token) addresses in
  if json then
    fields [(txt "urls", JArray (map JString urls)); (txt "notices", JArray (map JString notices)); (txt "read_only", JBool read_only)]
  else
    ShOut (txt "rdpilot live viewer" ++ (if read_only then txt " (read-only)" else []) ++ txt " is running. Open one of:")
    :: map (fun url => ShOut (txt "  " ++ url)) urls ++ map (fun n => ShOut (txt "notice: " ++ n)) notices
    ++ [ShOut (if read_only then BOUNDARY_READ_ONLY else BOUNDARY)].

(** The viewer's text, for the answer it got. *)
Definition viewer_told (json : bool) (c : CliCommand) (k : Known) (a : WireResponse) : option (list Shown) :=
  match c, kn_viewer k, a with
  | CmView v, Some cfg, WViewerStarted addresses token notices =>
      Some (told_viewer json (va_read_only v || vc_read_only cfg) addresses token notices)
  | _, _, _ => None
  end.

(** Everything a command shows that has what it was for; [None] where it has
    not. *)
Definition tells (c : CliCommand) (json : bool) (e : Errand) : option (list Shown) :=
  match c, er_line e with
  | CmConnect _, LnAnswered _ (WConnected s false live rec ws) => Some (told_connected json s live rec ws)
  | CmConnect _, LnAcked (WConnected s true live rec ws) => Some (told_connected json s live rec ws)
  | CmSession (SesConnect _), LnAnswered _ (WConnected s false live rec ws) => Some (told_connected json s live rec ws)
  | CmSession (SesConnect _), LnAcked (WConnected s true live rec ws) => Some (told_connected json s live rec ws)
  | CmList, LnChecked (WSessionList l _) => Some (told_list json l)
  | CmSession SesList, LnChecked (WSessionList l _) => Some (told_list json l)
  | CmPing _, LnAnswered _ WAck => Some (told_done json (txt "ok"))
  | CmInput _, LnAnswered _ WAck => Some (told_done json (txt "ok"))
  | CmDisconnect _, LnAnswered _ WAck => Some (told_done json (txt "disconnected"))
  | CmSession (SesDisconnect _), LnAnswered _ WAck => Some (told_done json (txt "disconnected"))
  | CmTakeover s, LnAnswered _ (WTakenOver previous changed) => Some (told_takeover json s previous changed)
  | CmSession (SesTakeover s), LnAnswered _ (WTakenOver previous changed) => Some (told_takeover json s previous changed)
  | CmScreenshot a, LnAnswered _ (WScreenshot x) | CmPerceive (PerScreenshot a), LnAnswered _ (WScreenshot x) =>
      match base64_decode x with Ok b => Some (told_screenshot json (sa_output a) (blen b)) | Err _ => None end
  | CmPut _, LnAnswered _ (WTransfer o) => Some (told_transfer json o)
  | CmGet _, LnAnswered _ (WTransfer o) => Some (told_transfer json o)
  | CmFile _, LnAnswered _ (WTransfer o) => Some (told_transfer json o)
  | CmConfig _, LnNone => option_map (told_settings json) (kn_host (er_known e))
  | CmView _, LnHeld a HeldCtrlC =>
      option_map (fun l => l ++ [ShErr (txt "viewer stopped")]) (viewer_told json c (er_known e) a)
  | CmRecord _, LnAnswered _ (WRecordingChanged id changed m) => Some (told_change json id changed m)
  | CmAnnotate _ _, LnAnswered _ (WRecordingChanged id changed m) => Some (told_change json id changed m)
  | CmRecording RdList, LnAnswered _ (WRecordings l) => Some (told_recordings json l)
  | CmRecording (RdKeep _), LnAnswered _ (WRecordingChanged id changed m) => Some (told_change json id changed m)
  | CmRecording (RdUnkeep _), LnAnswered _ (WRecordingChanged id changed m) => Some (told_change json id changed m)
  | _, _ => None
  end.

(** A result is shown only by a command that has it; the viewer's text while
    it runs. *)
Definition may_show (c : CliCommand) (json : bool) (e : Errand) : Prop :=
  is_Some (tells c json e) \/ exists r a, er_line e = LnAnswered r a /\ is_Some (viewer_told json c (er_known e) a).

Definition is_view (c : CliCommand) : bool := match c with CmView _ => true | _ => false end.
Definition is_put_or_get (c : CliCommand) : option text :=
  match c with
  | CmPut a | CmFile (FcPut a) => Some (pa_local a)
  | CmGet a | CmFile (FcGet a) => Some (ga_local a)
  | _ => None
  end.

(** ** How an invocation ends *)

(** The exit code and the name of each error of the daemon. *)
Definition exit_of (w : WireErrorCode) : Z * text :=
  match w with
  | WcInternal => (1, txt "internal")
  | WcRecording => (1, txt "recording")
  | WcDaemonUnreachable => (1, txt "daemon-unreachable")
  | WcSessionNotFound => (2, txt "session-not-found")
  | WcTransferFailed => (4, txt "transfer-failed")
  | WcPathTraversal => (5, txt "path-traversal")
  | WcChecksumMismatch => (6, txt "checksum-mismatch")
  | WcDuplicateSession => (7, txt "duplicate-session")
  | WcBundleUnavailable => (9, txt "bundle-unavailable")
  | WcHumanControl => (10, txt "human-control")
  end.

(** A download without [--force] where something is. *)
Definition keeps_file (c : CliCommand) (e : Errand) : bool :=
  match c with
  | CmGet a | CmFile (FcGet a) => negb (ga_force a) && bool_decide (kn_exists (er_known e) = Some true)
  | _ => false
  end.

(** The codes and names an error can have, by where the errand is. *)
Definition fails_with (c : CliCommand) (e : Errand) : list (Z * text) :=
  match er_line e with
  | LnUnreached | LnHeld _ HeldRead => [(3, txt "daemon-unreachable")]
  | LnHeld _ HeldCtrlC => []
  | LnIncompatible => [(12, txt "daemon-incompatible")]
  | LnRefused w => [exit_of (we_code w)]
  | LnCut => [(1, txt "transport")]
  | LnNone => if keeps_file c e then [(8, txt "no-clobber")]
              else [(1, txt "missing-config"); (1, txt "config"); (1, txt "internal")]
  | _ => [(1, txt "internal")]
  end.

(** An error of the daemon is told in the daemon's words. *)
Definition words_of (e : Errand) (m : text) : Prop :=
  match er_line e with LnRefused w => exists kind, m = kind ++ txt ": " ++ we_message w | _ => True end.

Definition report (json : bool) (name m : text) : Shown :=
  if json then ShJson (JObject [(txt "error", JObject [(txt "code", JString name); (txt "message", JString m)])])
  else ShErr (txt "error: " ++ m).

(** What was shown before an error: nothing, but for a viewer that ran. *)
Definition before (c : CliCommand) (json : bool) (e : Errand) : list Shown :=
  match er_line e with LnHeld a _ => default [] (viewer_told json c (er_known e) a) | _ => [] end.

(** The staging directory is gone.  Code 0 is for a command that has what it
    was for and has shown exactly that; any other code is that of the error,
    which is shown last, by its name and in its words. *)
Definition cli_end (c : CliCommand) (json : bool) (e : Errand) (code : Z) : Prop :=
  er_staged e = None /\
  (code = 0 /\ tells c json e = Some (er_shown e) \/
   exists name m, (code, name) ∈ fails_with c e /\ words_of e m /\ er_shown e = before c json e ++ [report json name m]).

(** The line after a frame was written or read. *)
Definition next_line {X A} (l : A -> Line) (r : result X A) : Line := match r with Ok a => l a | Err _ => LnCut end.
Definition probed (a : WireResponse) : Line :=
  match a with
  | WSessionList _ v => if decide (v = Some IPC_COMPATIBILITY_VERSION) then LnChecked a else LnIncompatible
  | WError_ w => LnRefused w
  | _ => LnOdd
  end.
Definition answered_line (r : Request) (a : WireResponse) : Line :=
  match a with WError_ w => LnRefused w | _ => LnAnswered r a end.
Definition acked_line (connected a : WireResponse) : Line :=
  match a with WAck => LnAcked connected | WError_ w => LnRefused w | _ => LnOdd end.

(** The steps of an invocation. *)
Inductive cli_step (c : CliCommand) (json : bool) : forall B, CliOp B -> B -> Errand -> Errand -> Prop :=
| CkHost a r e : target_of c = Some a -> er_line e = LnNone ->
    cli_step c json _ (ResolveHost a) r e (knowing (know_host (ok r) (er_known e)) e)
| CkRecording r e : er_line e = LnNone -> cli_step c json _ ResolveRecording r e (knowing (know_recording (ok r) (er_known e)) e)
| CkViewer r e : is_view c = true -> er_line e = LnNone ->
    cli_step c json _ ResolveViewer r e (knowing (know_viewer (ok r) (er_known e)) e)
| CkShell h command r e : er_line e = LnNone -> kn_host (er_known e) = Some h -> is_Some (rh_user h) ->
    rh_password h = None -> is_Some (rh_password_command h) -> expand_password_command env h = Ok command ->
    cli_step c json _ (RunShell command TIMEOUT) r e (knowing (know_password (secret_of r) (er_known e)) e)
| CkCwd r e : is_Some (is_put_or_get c) -> er_line e = LnNone ->
    cli_step c json _ CurrentDir r e (knowing (know_cwd (ok r) (er_known e)) e)
| CkExists p q b e : is_put_or_get c = Some p -> absolute (er_known e) p q -> er_line e = LnNone ->
    cli_step c json _ (PathExists q) b e (knowing (know_exists (Some b) (er_known e)) e)
| CkNext r e : er_line e = LnNone -> cli_step c json _ NextDownload r e e
| CkCreate p q dir pid n r e : is_put_or_get c = Some p -> absolute (er_known e) p q -> parent q = Some dir ->
    er_line e = LnNone -> er_staged e = None ->
    cli_step c json _ (CreateDir (download_dir dir pid n)) r e
      (match r with DirCreated => staged (Some (download_dir dir pid n)) e | _ => e end)
| CkSocket r e : er_line e = LnNone ->
    cli_step c json _ SocketPath r e (match r with Ok _ => e | Err _ => on_line LnUnreached e end)
| CkExe r e : er_line e = LnNone -> cli_step c json _ CurrentExe r e (match r with Ok _ => e | Err _ => on_line LnUnreached e end)
| CkSpawn r e : is_view c = false -> er_line e = LnNone ->
    cli_step c json _ ConnectOrSpawn r e (on_line (match r with Ok _ => LnOpen | Err _ => LnUnreached end) e)
| CkExisting r e : is_view c = true -> er_line e = LnNone ->
    cli_step c json _ ConnectExisting r e (on_line (match r with Ok _ => LnOpen | Err _ => LnUnreached end) e)
| CkProbe r e : er_line e = LnOpen -> cli_step c json _ (WriteFrame RqList) r e (on_line (next_line (fun _ => LnProbe) r) e)
| CkProbed r e : er_line e = LnProbe -> cli_step c json _ ReadFrame r e (on_line (next_line probed r) e)
| CkAsk probe req r e : er_line e = LnChecked probe -> asks c e req ->
    cli_step c json _ (WriteFrame req) r e (on_line (next_line (fun _ => LnAsked req) r) e)
| CkAnswer req r e : er_line e = LnAsked req -> cli_step c json _ ReadFrame r e (on_line (next_line (answered_line req) r) e)
| CkAck f session live rec ws r e : er_line e = LnAnswered (RqConnect f) (WConnected session true live rec ws) ->
    cli_step c json _ (WriteFrame (RqConnectAck session)) r e
      (on_line (next_line (fun _ => LnAck (WConnected session true live rec ws)) r) e)
| CkAcked a r e : er_line e = LnAck a ->
    cli_step c json _ ReadFrame r e (on_line (next_line (acked_line a) r) e)
| CkRename dir p q s n file o r e : er_staged e = Some dir -> er_line e = LnAnswered (RqGet s n file) (WTransfer o) ->
    is_put_or_get c = Some p -> absolute (er_known e) p q ->
    cli_step c json _ (RenameFile (payload dir) q) r e e
| CkRemove dir e : er_staged e = Some dir -> cli_step c json _ (RemoveDirAll dir) tt e (staged None e)
| CkWrite a s x b r e : er_line e = LnAnswered (RqScreenshot s) (WScreenshot x) -> base64_decode x = Ok b ->
    (c = CmScreenshot a \/ c = CmPerceive (PerScreenshot a)) ->
    cli_step c json _ (WriteFile (sa_output a) b) r e e
| CkOut t e : may_show c json e -> cli_step c json _ (PrintOut t) tt e (showing [ShOut t] e)
| CkErr t e : may_show c json e -> cli_step c json _ (PrintErr t) tt e (showing [ShErr t] e)
| CkJson v e : may_show c json e -> cli_step c json _ (PrintJson v) tt e (showing [ShJson v] e)
| CkReport name m e : json = false -> cli_step c json _ (PrintErr (txt "error: " ++ m)) tt e (showing [report json name m] e)
| CkReportJson name m e : json = true ->
    cli_step c json _ (PrintJson (JObject [(txt "error", JObject [(txt "code", JString name); (txt "message", JString m)])])) tt e
      (showing [report json name m] e)
| CkHold req a told h e : er_line e = LnAnswered req a -> viewer_told json c (er_known e) a = Some told -> er_shown e = told ->
    cli_step c json _ HoldStream h e (on_line (LnHeld a h) e).

(** ** Every invocation obeys *)

(** An error that fits where the errand is. *)
Definition blame (l : Line) (x : CliError) : Prop :=
  match l with
  | LnNone | LnHeld _ _ => False
  | LnUnreached => exists m, x = CliDaemonUnreachable m
  | LnIncompatible => exists v, x = CliDaemonIncompatible v
  | LnRefused w => x = CliWire w
  | LnCut => exists m, x = CliTransport m
  | _ => exists m, x = CliInternal m
  end.
Definition plain (x : CliError) : Prop :=
  match x with CliMissingConfig _ | CliConfig _ | CliInternal _ => True | _ => False end.
Definition blames (c : CliCommand) (e : Errand) (x : CliError) : Prop :=
  match er_line e with
  | LnNone => if keeps_file c e then exists m, x = CliNoClobber m else plain x
  | LnHeld _ HeldRead => exists m, x = CliDaemonUnreachable m
  | l => blame l x
  end.

Lemma blames_end c json e x :
  blames c e x -> er_staged e = None -> er_shown e = before c json e ->
  cli_end c json (showing [report json (code_str_for x) (cli_error_text x)] e) (code_for x).
Proof.
  intros Hb Hs Ho. split; [done|]. right. exists (code_str_for x), (cli_error_text x).
  split_and!; [| |cbn; by rewrite Ho].
  - unfold blames, fails_with, keeps_file, showing in *. cbn [er_line er_known] in *. destruct (er_line e) as [| | | | | | | | | |a []|w| |]; cbn in Hb; try done.
    2-11,13,14: by destruct Hb as [m ->]; left.
    + match goal with |- context [if ?b then _ else _] => destruct b end; [by destruct Hb as [m ->]; left|].
      destruct x; try done; [by left|by right; left|by right; right; left].
    + subst x. destruct w as [[] m ct]; by left.
  - unfold words_of, blames, showing in *. cbn [er_line]. destruct (er_line e) as [| | | | | | | | | |a []|w| |]; try done.
    cbn in Hb. subst x. by exists (code_debug (we_code w)).
Qed.

(** How a verb ends: with all it had to show shown, or an error that fits. *)
Definition went (c : CliCommand) (json : bool) (d : option text) (e : Errand) (r : result CliError unit) : Prop :=
  er_staged e = d /\
  match r with Ok _ => tells c json e = Some (er_shown e) | Err x => blames c e x /\ er_shown e = before c json e end.

(** Nothing was asked of the daemon yet. *)
Definition starting (c : CliCommand) (d : option text) (e : Errand) : Prop :=
  er_line e = LnNone /\ er_shown e = [] /\ er_staged e = d /\ keeps_file c e = false.
(** Nothing was shown yet. *)
Definition silent (d : option text) (e : Errand) : Prop := er_shown e = [] /\ er_staged e = d.

Lemma starting_silent c d e : starting c d e -> silent d e.
Proof. by intros (_ & ? & ? & _). Qed.
Lemma starting_line c d e : starting c d e -> er_line e = LnNone.
Proof. by intros [? _]. Qed.
Lemma starting_new c : starting c None errand_new.
Proof. split_and!; [done..|]. by destruct c as [ | | | | | | | | | |a| [|a]| | | | | ]; cbn; rewrite ?andb_false_r. Qed.
Lemma starting_knows c d k e : starting c d e -> kn_exists k = kn_exists (er_known e) -> starting c d (knowing k e).
Proof. intros (H1 & H2 & H3 & H4) Hk. split_and!; [done..|]. unfold keeps_file in *. cbn. by rewrite Hk. Qed.
Lemma silent_line d l e : silent d e -> silent d (on_line l e).
Proof. done. Qed.

Lemma went_plain c json d e x : starting c d e -> plain x -> went c json d e (Err x).
Proof. intros (Hl & Hs & Hd & Hk) Hx. split; [done|]. unfold blames, before. by rewrite Hl, Hk. Qed.

Lemma went_blame c json d l e x : silent d e -> blame l x -> went c json d (on_line l e) (Err x).
Proof. intros [Hs Hd] Hb. split; [done|]. unfold blames, before. cbn. by destruct l. Qed.

Lemma went_told c json d e l : silent d e -> tells c json e = Some l -> went c json d (showing l e) (Ok tt).
Proof. intros [Hs Hd] Ht. split; [done|]. change (tells c json e = Some (er_shown e ++ l)). by rewrite Hs. Qed.

Lemma showing_nil e : showing [] e = e.
Proof. unfold showing. rewrite app_nil_r. by destruct e. Qed.
Lemma showing_app l l' e : showing l' (showing l e) = showing (l ++ l') e.
Proof. unfold showing. cbn. by rewrite app_assoc. Qed.

Section Obeying.
Context {c : CliCommand} {json : bool}.
Notation step := (cli_step c json).

Lemma obeys_try {A B} (p : prog CliOp (result CliError A)) (k : A -> prog CliOp (result CliError B)) Q e :
  obeys step (fun e r => match r with Ok a => obeys step Q (k a) e | Err x => Q e (Err x) end) p e -> obeys step Q (cli_try p k) e.
Proof. intros Hp. apply obeys_bind. eapply obeys_mono; [|exact Hp]. by intros e' [a|x]. Qed.

(** One operation, with where it leads. *)
Lemma obeys_op {X A} (f : X -> CliError) (o : CliOp (result X A)) (Q : Errand -> result CliError A -> Prop) e next :
  (forall r, step _ o r e (next r)) -> (forall a, Q (next (Ok a)) (Ok a)) -> (forall x, Q (next (Err x)) (Err (f x))) ->
  obeys step Q (cli_map f o) e.
Proof. intros Hs Hk Hf r. exists (next r). split; [apply Hs|]. destruct r as [a|x]; [apply Hk|apply Hf]. Qed.

Lemma obeys_ret {A} (a : A) (Q : Errand -> A -> Prop) e : Q e a -> obeys step Q (Ret a) e.
Proof. done. Qed.

(** What is shown, one after the other. *)
Definition op_of (s : Shown) : CliOp unit := match s with ShOut t => PrintOut t | ShErr t => PrintErr t | ShJson v => PrintJson v end.

Lemma obeys_show {B} s l (k : prog CliOp B) Q e :
  may_show c json e -> obeys step Q k (showing (l ++ [s]) e) -> obeys step Q (pbind (act (op_of s)) (fun _ => k)) (showing l e).
Proof.
  intros Hm Hk. rewrite <- showing_app in Hk. destruct s; intros []; eexists; (split; [by constructor|exact Hk]).
Qed.

Lemma obeys_show_each {B} (f : text -> CliOp unit) (g : text -> Shown) ts l (k : prog CliOp B) Q e :
  (forall t, f t = op_of (g t)) -> may_show c json e ->
  obeys step Q k (showing (l ++ map g ts) e) -> obeys step Q (pbind (print_each f ts) (fun _ => k)) (showing l e).
Proof.
  intros Hf Hm. revert l. induction ts as [|t ts IH]; intros l Hk; [by rewrite app_nil_r in Hk|].
  cbn [print_each]. rewrite Hf. change (obeys step Q (pbind (act (op_of (g t))) (fun _ => pbind (print_each f ts) (fun _ => k))) (showing l e)).
  apply obeys_show; [done|]. apply IH. by rewrite <- app_assoc.
Qed.

(** Two frames: a request and its answer. *)
Lemma obeys_frames req (Q : Errand -> result CliError WireResponse -> Prop) e asked answered_ :
  (forall r, step _ (WriteFrame req) r e (on_line (next_line (fun _ => asked) r) e)) ->
  (forall r, step _ ReadFrame r (on_line asked e) (on_line (next_line answered_ r) (on_line asked e))) ->
  (forall a, Q (on_line (answered_ a) e) (Ok a)) -> (forall x, Q (on_line LnCut e) (Err (transport x))) ->
  obeys step Q (write_and_read req) e.
Proof.
  intros Hw Hr Ha Hb. apply obeys_try. eapply obeys_op; [exact Hw| |exact Hb]. intros ?.
  eapply obeys_op; [exact Hr| |exact Hb]. exact Ha.
Qed.

Lemma preflight_probed a :
  match validate_preflight a with
  | Ok _ => probed a = LnChecked a /\ exists l, a = WSessionList l (Some IPC_COMPATIBILITY_VERSION)
  | Err x => blame (probed a) x
  end.
Proof.
  destruct a; cbn; try done; try by eexists.
  destruct compatibility_version as [v|]; cbn; [|by eexists].
  destruct (Z.eqb_spec v IPC_COMPATIBILITY_VERSION) as [->|Hv].
  - rewrite decide_True by done. split; [done|by eexists].
  - rewrite decide_False by congruence. by eexists.
Qed.

(** A request behind the probe. *)
Lemma obeys_verified req (Q : Errand -> result CliError WireResponse -> Prop) e :
  er_line e = LnOpen -> is_list req = false -> asks c e req ->
  (forall a, Q (on_line (answered_line req a) e) (Ok a)) -> (forall l x, blame l x -> Q (on_line l e) (Err x)) ->
  obeys step Q (verified_round_trip req) e.
Proof.
  intros Ho Hl Hr Ha Hx. unfold verified_round_trip. apply obeys_try.
  eapply (obeys_frames _ _ _ LnProbe probed); [by constructor|by constructor| |by intros; apply Hx; eexists].
  intros a. pose proof (preflight_probed a) as Hp. destruct (validate_preflight a) as [[]|x]; [|by apply Hx, Hp].
  destruct Hp as [-> _]. rewrite Hl.
  eapply (obeys_frames _ _ _ (LnAsked req) (answered_line req)); [intros; by eapply CkAsk|by constructor|apply Ha|by intros; apply Hx; eexists].
Qed.

Lemma obeys_open (Q : Errand -> result CliError unit -> Prop) e :
  is_view c = false -> er_line e = LnNone ->
  Q (on_line LnOpen e) (Ok tt) -> (forall m, Q (on_line LnUnreached e) (Err (unreachable m))) -> obeys step Q open_stream e.
Proof.
  intros Hv Hn Ho Hu. unfold open_stream. apply obeys_try. eapply obeys_op; [by constructor| |apply Hu]. intros [].
  apply obeys_try. eapply obeys_op; [by constructor| |apply Hu]. intros [].
  eapply obeys_op; [by constructor| |apply Hu]. by intros [].
Qed.

Lemma obeys_round_trip req (Q : Errand -> result CliError WireResponse -> Prop) e :
  is_view c = false -> er_line e = LnNone -> is_list req = false -> asks c e req ->
  (forall a, Q (on_line (answered_line req a) e) (Ok a)) -> (forall l x, blame l x -> Q (on_line l e) (Err x)) ->
  obeys step Q (round_trip req) e.
Proof.
  intros Hv Hn Hl Hr Ha Hx. unfold round_trip. apply obeys_try. apply obeys_open; [done..| |intros; apply Hx; by eexists].
  by apply obeys_verified.
Qed.

(** A verb that is a round trip and a reply. *)
Lemma obeys_verb req (k : WireResponse -> prog CliOp (result CliError unit)) d e :
  is_view c = false -> starting c d e -> is_list req = false -> asks c e req ->
  (forall a, obeys step (went c json d) (k a) (on_line (answered_line req a) e)) ->
  obeys step (went c json d) (cli_try (round_trip req) k) e.
Proof.
  intros Hv Hst Hl Hr Hk. apply obeys_try. apply obeys_round_trip; [done|by eapply starting_line|done..|].
  intros l x Hb. apply went_blame; [by eapply starting_silent|done].
Qed.

Lemma obeys_session s (k : text -> prog CliOp (result CliError unit)) d e :
  starting c d e -> obeys step (went c json d) (k s) e -> obeys step (went c json d) (cli_try (parse_session s) k) e.
Proof.
  intros Hst Hk. unfold parse_session, session_id. destruct s as [|x s]; cbn; [|exact Hk]. by apply went_plain.
Qed.
End Obeying.

(** An end that a program goes on from. *)
Ltac ret := apply obeys_ret; cbv beta iota.
(** An error after the stream was open. *)
Ltac fails := apply obeys_ret, went_blame; [assumption|first [reflexivity | by eexists]].
(** Output after output, down to the end that has shown it all. *)
Ltac shows Hm :=
  match goal with |- obeys _ _ _ (showing _ _) => idtac | |- obeys _ _ _ ?e => rewrite <- (showing_nil e) end;
  repeat first
    [ apply (obeys_show (ShOut _)); [exact Hm|]
    | apply (obeys_show (ShErr _)); [exact Hm|]
    | apply (obeys_show (ShJson _)); [exact Hm|]
    | match goal with |- obeys _ _ (pbind (Ret _) _) _ => cbn [pbind] end
    | match goal with |- obeys _ _ (if ?b then _ else _) _ => first [is_var b; destruct b | destruct b eqn:?] end
    | match goal with |- obeys _ _ (pbind (if ?b then _ else _) _) _ => first [is_var b; destruct b | destruct b eqn:?] end ].
Ltac told := ret; apply went_told; [assumption|]; cbn;
  repeat match goal with H : _ = true |- _ => rewrite H | H : _ = false |- _ => rewrite H end; by rewrite <- ?app_assoc.

Section Replies.
Context {c : CliCommand} {json : bool}.

Lemma told_may_show e l : tells c json e = Some l -> may_show c json e.
Proof. intros H. left. by exists l. Qed.

(** One thing is shown, as JSON or as a line. *)
Lemma obeys_one v t d e l :
  silent d e -> tells c json e = Some l -> l = (if json then [ShJson v] else [ShOut t]) ->
  obeys (cli_step c json) (went c json d) (if json then pbind (act (PrintJson v)) (fun _ => Ret (Ok tt)) else pbind (act (PrintOut t)) (fun _ => Ret (Ok tt))) e.
Proof.
  intros Hs Ht ->. pose proof (told_may_show _ _ Ht) as Hm. rewrite <- (showing_nil e).
  destruct json; [apply (obeys_show (ShJson v)); [done|]|apply (obeys_show (ShOut t)); [done|]]; by apply went_told.
Qed.

Lemma obeys_show_ack name done_ req a d e :
  silent d e -> tells c json (on_line (LnAnswered req WAck) e) = Some (told_done json done_) ->
  obeys (cli_step c json) (went c json d) (show_ack name done_ a json) (on_line (answered_line req a) e).
Proof.
  intros Hs He. destruct a; try fails. by eapply obeys_one; [|exact He|].
Qed.

Lemma obeys_show_changed verb req a d e :
  silent d e ->
  (forall id ch m, tells c json (on_line (LnAnswered req (WRecordingChanged id ch m)) e) = Some (told_change json id ch m)) ->
  obeys (cli_step c json) (went c json d) (show_changed a verb json) (on_line (answered_line req a) e).
Proof.
  intros Hs He. destruct a; try fails. eapply obeys_one; [done|apply He|]. by destruct id.
Qed.

Lemma obeys_render o d e :
  silent d e -> tells c json e = Some (told_transfer json o) ->
  obeys (cli_step c json) (went c json d) (render_transfer o json) e.
Proof. intros Hd He. by eapply obeys_one; [|exact He|]. Qed.

(** A session verb that expects an [Ack]. *)
Lemma obeys_ack_verb s req name done_ d e :
  is_view c = false -> starting c d e -> is_list (req s) = false -> asks c e (req s) ->
  tells c json (on_line (LnAnswered (req s) WAck) e) = Some (told_done json done_) ->
  obeys (cli_step c json) (went c json d)
    (cli_try (parse_session s) (fun id => cli_try (round_trip (req id)) (fun a => show_ack name done_ a json))) e.
Proof.
  intros Hv Hst Hl Hr He. apply obeys_session; [done..|]. apply obeys_verb; [done..|]. intros a.
  apply obeys_show_ack; [by eapply starting_silent|done].
Qed.

Lemma obeys_changed_verb s req verb d e :
  is_view c = false -> starting c d e -> is_list (req s) = false -> asks c e (req s) ->
  (forall id ch m, tells c json (on_line (LnAnswered (req s) (WRecordingChanged id ch m)) e) = Some (told_change json id ch m)) ->
  obeys (cli_step c json) (went c json d)
    (cli_try (parse_session s) (fun id => cli_try (round_trip (req id)) (fun a => show_changed a verb json))) e.
Proof.
  intros Hv Hst Hl Hr He. apply obeys_session; [done..|]. apply obeys_verb; [done..|]. intros a.
  apply obeys_show_changed; [by eapply starting_silent|done].
Qed.

(** [?] on what is asked before the stream is open. *)
Lemma obeys_before {X A} (f : X -> CliError) (o : CliOp (result X A)) (k : A -> prog CliOp (result CliError unit)) know d e :
  starting c d e -> (forall x, plain (f x)) -> (forall r, kn_exists (know r) = kn_exists (er_known e)) ->
  (forall r, cli_step c json _ o r e (knowing (know r) e)) ->
  (forall a, obeys (cli_step c json) (went c json d) (k a) (knowing (know (Ok a)) e)) ->
  obeys (cli_step c json) (went c json d) (cli_try (cli_map f o) k) e.
Proof.
  intros Hst Hf Hx Hs Hk. apply obeys_try. eapply (obeys_op _ _ _ _ (fun r => knowing (know r) e)); [exact Hs|exact Hk|].
  intros x. apply went_plain; [by apply starting_knows|apply Hf].
Qed.
End Replies.

Lemma silent_new : silent None errand_new.
Proof. done. Qed.
Local Hint Resolve silent_new starting_new : core.

Lemma obeys_list c json : (c = CmList \/ c = CmSession SesList) ->
  obeys (cli_step c json) (went c json None) (list_sessions json) errand_new.
Proof.
  intros Hc. assert (Hv : is_view c = false) by (by destruct Hc as [-> | ->]). pose proof silent_new as Hs.
  unfold list_sessions, round_trip. apply obeys_try, obeys_try. apply obeys_open; [done..| |intros; apply went_blame; [done|by eexists]].
  unfold verified_round_trip. apply obeys_try.
  eapply (obeys_frames _ _ _ LnProbe probed); [by constructor|by constructor| |by intros; apply went_blame; [done|eexists]].
  intros a. pose proof (preflight_probed a) as Hp. destruct (validate_preflight a) as [[]|x]; [|by apply went_blame].
  destruct Hp as [-> [l ->]]. cbn [is_list]. ret.
  eapply obeys_one; [done| |reflexivity]. by destruct Hc as [-> | ->].
Qed.

Lemma obeys_takeover c s json : (c = CmTakeover s \/ c = CmSession (SesTakeover s)) ->
  obeys (cli_step c json) (went c json None) (takeover s json) errand_new.
Proof.
  intros Hc. pose proof silent_new as Hs. unfold takeover. apply obeys_session; [done|].
  apply obeys_verb; [by destruct Hc as [-> | ->]|done|done|by destruct Hc as [-> | ->]|].
  intros a. destruct a; try fails. eapply obeys_one; [done| |reflexivity]. by destruct Hc as [-> | ->].
Qed.

Lemma obeys_screenshot c a json : (c = CmScreenshot a \/ c = CmPerceive (PerScreenshot a)) ->
  obeys (cli_step c json) (went c json None) (screenshot a json) errand_new.
Proof.
  intros Hc. pose proof silent_new as Hs. unfold screenshot. apply obeys_session; [done|].
  apply obeys_verb; [by destruct Hc as [-> | ->]|done|done|by destruct Hc as [-> | ->]|].
  intros r. destruct r; try fails. unfold decode_png.
  destruct (base64_decode png_base64) as [b|e] eqn:Hb; [|fails].
  apply obeys_try. ret. apply obeys_try.
  eapply (obeys_op _ _ _ _ (fun _ : result text unit => on_line (LnAnswered (RqScreenshot (sa_session a)) (WScreenshot png_base64)) errand_new));
    [intros; by eapply CkWrite| |by intros; apply went_blame; [done|eexists]]. intros [].
  eapply obeys_one; [done| |reflexivity]. destruct Hc as [-> | ->]; cbn; by rewrite Hb.
Qed.

Lemma obeys_record_list json : obeys (cli_step (CmRecording RdList) json) (went (CmRecording RdList) json None) (list_recordings json) errand_new.
Proof.
  pose proof silent_new as Hs. unfold list_recordings. apply obeys_verb; [done..|].
  intros r. destruct r; try fails.
  match goal with |- obeys _ _ _ ?e => pose proof (told_may_show (c:=CmRecording RdList) (json:=json) e _ eq_refl) as Hm end.
  shows Hm; told.
Qed.

Lemma obeys_keep id (b : bool) json (c := CmRecording (if b then RdKeep id else RdUnkeep id)) :
  obeys (cli_step c json) (went c json None) (keep id b json) errand_new.
Proof.
  unfold keep. apply obeys_verb; [by destruct b|done|done|by destruct b|]. intros a. apply obeys_show_changed; [done|].
  intros. by destruct b.
Qed.

Lemma obeys_config a json :
  obeys (cli_step (CmConfig (CfgResolve a)) json) (went (CmConfig (CfgResolve a)) json None) (config_resolve a json) errand_new.
Proof.
  unfold config_resolve, resolve_target. eapply (obeys_before _ _ _ (fun r => know_host (ok r) known_new)); [done|done|done|by constructor|].
  intros h. by eapply obeys_one.
Qed.

Lemma parse_keys_spec l ks : parse_keys l = Ok ks -> Forall2 (fun n key => parse_key_name to_lowercase n = Ok key) l ks.
Proof.
  revert ks. induction l as [|n l IH]; cbn; intros ks; [by intros [= <-]|].
  destruct (parse_key_name to_lowercase n) as [k|e] eqn:Hk; [|done]. destruct (parse_keys l) as [r|e]; [|done].
  intros [= <-]. constructor; [done|by apply IH].
Qed.

Lemma parse_keys_err l x : parse_keys l = Err x -> exists m, x = CliInternal m.
Proof.
  induction l as [|n l IH]; cbn; [done|]. destruct (parse_key_name to_lowercase n) as [k|e]; [|intros [= <-]; by eexists].
  destruct (parse_keys l) as [r|e]; [done|]. intros [= <-]. by apply IH.
Qed.

Lemma obeys_key s combo json (c := CmInput (InKey s combo)) : obeys (cli_step c json) (went c json None) (key s combo json) errand_new.
Proof.
  unfold key. apply obeys_session; [done|]. destruct (parse_keys (split_comma combo [])) as [ks|e] eqn:Hk.
  2: { apply went_plain; [done|]. by apply parse_keys_err in Hk as [m ->]. }
  apply obeys_try. ret. apply parse_keys_spec in Hk. apply obeys_verb; [done..|by exists ks|]. intros a.
  by apply obeys_show_ack.
Qed.

(** Where the credential is settled. *)
Definition settled_with (c : CliCommand) (h : ResolvedHost) (d : option text) (e e' : Errand) (r : result CliError text) : Prop :=
  starting c d e' /\ kn_host (er_known e') = kn_host (er_known e) /\ kn_recording (er_known e') = kn_recording (er_known e)
  /\ match r with Ok pw => credential (er_known e') h pw | Err x => plain x end.

Lemma obeys_password c json h label d e :
  starting c d e -> kn_host (er_known e) = Some h -> is_Some (rh_user h) ->
  obeys (cli_step c json) (settled_with c h d e) (connect_password h label) e.
Proof.
  intros Hst Hh Hu. pose proof (starting_line _ _ _ Hst) as Hn.
  unfold connect_password. destruct (rh_password h) as [pw|] eqn:Hp; [by split_and!; [..|left]|].
  destruct (rh_password_command h) as [cmd|] eqn:Hc; [|by split_and!].
  destruct (expand_password_command env h) as [command|x] eqn:Hx; [|by split_and!].
  intros ended. eexists. split; [by eapply CkShell|].
  assert (Hst' : starting c d (knowing (know_password (secret_of ended) (er_known e)) e)) by by apply starting_knows.
  destruct ended as [x| | |out [[]|x] [[status|]|x']]; try by split_and!.
  unfold settled_with. cbv beta iota delta [pbind]. unfold obeys. split_and!; [done..|].
  cbn [secret_of] in *. destruct (from_utf8 out) as [t|] eqn:Ht; [|done].
  destruct (strip_newline t) as [|x l] eqn:Hl; [done|]. right. split; [done|]. cbn. by rewrite ?Ht, ?Hl.
Qed.

Lemma obeys_connect_trip c json req (Q : Errand -> result CliError WireResponse -> Prop) e f :
  is_view c = false -> er_line e = LnNone -> req = RqConnect f -> asks c e req ->
  (forall a, match a with WConnected _ true _ _ _ => False | _ => True end -> Q (on_line (answered_line req a) e) (Ok a)) ->
  (forall s live rec ws, Q (on_line (LnAcked (WConnected s true live rec ws)) e) (Ok (WConnected s true live rec ws))) ->
  (forall l x, blame l x -> Q (on_line l e) (Err x)) ->
  obeys (cli_step c json) Q (connect_round_trip req) e.
Proof.
  intros Hv Hn -> Hr Ha Hk Hx. unfold connect_round_trip. apply obeys_try.
  apply obeys_open; [done..| |intros; apply Hx; by eexists]. apply obeys_try. apply obeys_verified; [done..| |done].
  intros a. destruct a as [|session required live rec ws| | | | | | | | | |]; try by apply Ha.
  destruct required; [|by apply Ha]. apply obeys_try.
  eapply (obeys_frames _ _ _ (LnAck (WConnected session true live rec ws)) (acked_line (WConnected session true live rec ws))).
  - intros r. by eapply CkAck.
  - intros r. by eapply CkAcked.
  - intros a. destruct a; try (by apply Hx; eexists); apply Hk.
  - intros x. apply Hx. by eexists.
Qed.

Lemma obeys_show_connected c json d e s required live rec ws :
  silent d e -> tells c json e = Some (told_connected json s live rec ws) ->
  obeys (cli_step c json) (went c json d) (show_connected (WConnected s required live rec ws) json) e.
Proof.
  intros Hs Ht. pose proof (told_may_show _ _ Ht) as Hm. unfold show_connected. rewrite <- (showing_nil e).
  apply (obeys_show_each _ (fun w => ShErr (txt "warning: " ++ w))); [done..|]. cbn [app].
  destruct json; [|destruct rec]; shows Hm; apply obeys_ret, went_told; try done; rewrite Ht; f_equal;
    unfold told_connected, connect_status_message; rewrite <- ?app_assoc; cbn; [by destruct rec|by destruct live..].
Qed.

Lemma obeys_connect c a json : (c = CmConnect a \/ c = CmSession (SesConnect a)) ->
  obeys (cli_step c json) (went c json None) (connect a json) errand_new.
Proof.
  intros Hc. unfold connect, resolve_target.
  eapply (obeys_before _ _ _ (fun r => know_host (ok r) known_new)); [done|done|done|by intros r; constructor; destruct Hc as [-> | ->]|].
  intros h. eapply (obeys_before _ _ _ (fun r => know_recording (ok r) (know_host (Some h) known_new)));
    [by apply starting_knows|done|done|by intros r; constructor|].
  intros rec. set (e0 := knowing _ (knowing _ _)).
  assert (Hst : starting c None e0) by (by apply starting_knows; [apply starting_knows|]).
  destruct (rh_user h) as [user|] eqn:Hu; [|by apply obeys_ret, went_plain].
  apply obeys_try. eapply obeys_mono; [|by apply obeys_password].
  intros e r (Hs & Hh & Hrec & Hp). cbn in Hh, Hrec. destruct r as [pw|x]; [|by apply went_plain].
  pose proof (starting_silent _ _ _ Hs) as Hsil.
  apply obeys_try. eapply obeys_connect_trip; [by destruct Hc as [-> | ->]|by eapply starting_line|done| | | |].
  - destruct Hc as [-> | ->]; (exists h, rec; eexists; split_and!; [exact Hh|exact Hrec|reflexivity|exact Hu|exact Hp|reflexivity..]).
  - intros r Hr. destruct r as [|s required live rc ws| | | | | | | | | |]; try fails.
    destruct required; [done|]. apply obeys_show_connected; [done|]. by destruct Hc as [-> | ->].
  - intros s live rc ws. apply obeys_show_connected; [done|]. by destruct Hc as [-> | ->].
  - intros l x Hx. by apply went_blame.
Qed.

Lemma obeys_absolutize c json p d e : is_put_or_get c = Some p -> starting c d e ->
  obeys (cli_step c json) (fun e' r => starting c d e' /\ kn_exists (er_known e') = kn_exists (er_known e)
    /\ match r with Ok q => absolute (er_known e') p q | Err x => plain x end) (absolutize p) e.
Proof.
  intros Hc Hst. unfold absolutize, absolute. destruct (is_absolute p) eqn:Ha; [by rewrite ?Ha|].
  apply obeys_try. eapply (obeys_op _ _ _ _ (fun r => knowing (know_cwd (ok r) (er_known e)) e)).
  - intros r. constructor; [by rewrite Hc|by eapply starting_line].
  - intros cwd. ret. split_and!; [by apply starting_knows|done|by exists cwd].
  - intros x. split_and!; [by apply starting_knows|done..].
Qed.

Lemma obeys_put c a json : (c = CmPut a \/ c = CmFile (FcPut a)) -> obeys (cli_step c json) (went c json None) (put a json) errand_new.
Proof.
  intros Hc. unfold put. apply obeys_session; [done|]. apply obeys_try. eapply obeys_mono; [|apply (obeys_absolutize _ _ _ None); [|done]].
  2: by destruct Hc as [-> | ->].
  intros e [q|x] (Hst & _ & Hq); [|by apply went_plain]. pose proof (starting_silent _ _ _ Hst) as Hs.
  apply obeys_verb; [by destruct Hc as [-> | ->]|done|done|by destruct Hc as [-> | ->]; exists q|].
  intros r. destruct r; try fails. apply obeys_render; [done|by destruct Hc as [-> | ->]].
Qed.

Lemma obeys_reserve c json p q dir n e :
  is_put_or_get c = Some p -> absolute (er_known e) p q -> parent q = Some dir -> starting c None e ->
  obeys (cli_step c json) (fun e' r => er_known e' = er_known e /\
    match r with Ok d => starting c (Some d) e' | Err x => starting c None e' /\ plain x end) (reserve n dir) e.
Proof.
  intros Hc Hq Hd Hst. destruct Hst as (Hn & Hsh & Hs & Hk). induction n as [|n IH]; [done|].
  intros [pid sequence]. exists e. split; [by constructor|]. intros made. eexists. split; [by eapply CkCreate|].
  destruct made; [done|exact IH|done].
Qed.

Lemma obeys_get_into c a q rep json e :
  (c = CmGet a \/ c = CmFile (FcGet a)) -> starting c rep e ->
  absolute (er_known e) (ga_local a) q ->
  match rep with Some _ => ga_force a = true | None => ga_force a = false /\ kn_exists (er_known e) = Some false end ->
  obeys (cli_step c json) (went c json rep) (get_into a (ga_session a) q rep json) e.
Proof.
  intros Hc Hst Hq Hr. pose proof (starting_silent _ _ _ Hst) as Hsil. destruct Hsil as [_ Hs]. pose proof (starting_silent _ _ _ Hst) as Hsil.
  unfold get_into.
  apply obeys_verb; [by destruct Hc as [-> | ->]|done|done| |].
  { destruct Hc as [-> | ->]; exists q; (split; [done|]); rewrite Hs; destruct rep; naive_solver. }
  intros r. destruct r; try fails.
  assert (He : forall r, tells c json (on_line (LnAnswered r (WTransfer outcome)) e) = Some (told_transfer json outcome)).
  { intros r. by destruct Hc as [-> | ->]. }
  apply obeys_try. destruct rep as [dir|]; [|ret; apply obeys_render; [done|apply He]].
  cbn [answered_line]. set (e1 := on_line _ e).
  eapply (obeys_op _ _ _ _ (fun _ : result text unit => e1)).
  - intros r. eapply CkRename; [done|done| |done]. by destruct Hc as [-> | ->].
  - intros []. apply obeys_render; [done|apply He].
  - intros x. by apply went_blame; [|eexists].
Qed.

Lemma obeys_get c a json : (c = CmGet a \/ c = CmFile (FcGet a)) -> obeys (cli_step c json) (went c json None) (get a json) errand_new.
Proof.
  intros Hc. assert (Hl : is_put_or_get c = Some (ga_local a)) by (by destruct Hc as [-> | ->]).
  assert (Hkf : forall e, keeps_file c e = negb (ga_force a) && bool_decide (kn_exists (er_known e) = Some true))
    by (intros; by destruct Hc as [-> | ->]).
  unfold get. apply obeys_session; [done|]. apply obeys_try. eapply obeys_mono; [|by apply (obeys_absolutize _ _ _ None)].
  intros e [q|x] (Hst & _ & Hq); [|by apply went_plain]. pose proof Hst as (Hn & Hsh & Hs & _).
  intros there. eexists. split; [by eapply CkExists|]. cbn [pbind]. set (e1 := knowing _ e).
  assert (Hst1 : ga_force a = true \/ there = false -> starting c None e1).
  { intros Hor. split_and!; [done..|]. rewrite Hkf. cbn. destruct Hor as [Hor | ->]; [by rewrite Hor|]. by rewrite andb_false_r. }
  destruct (ga_force a) eqn:Hf; cbn [negb]; rewrite ?andb_false_r, ?andb_true_r.
  - specialize (Hst1 (or_introl eq_refl)).
    unfold replacement_new. apply obeys_try. destruct (parent q) as [dir|] eqn:Hd; [|by apply went_plain].
    eapply obeys_mono; [|by eapply (obeys_reserve c json _ q dir 100 e1)].
    intros e2 [d|x] (Hk2 & Hs2); [|destruct Hs2; by apply went_plain].
    apply obeys_bind. eapply obeys_mono; [|apply (obeys_get_into c a q (Some d)); [done..|by rewrite Hk2|done]].
    intros e3 r [Hs3 Hr]. intros []. eexists. split; [by eapply CkRemove|].
    split; [done|]. destruct r as [u|x]; destruct Hc as [-> | ->]; exact Hr.
  - destruct there.
    + split; [done|]. unfold blames, before. cbn [er_line e1 knowing]. rewrite Hn, Hkf, ?Hf. cbn. split; [by eexists|done].
    + apply (obeys_get_into c a q None); [done|by apply Hst1; right|done|by split].
Qed.

Lemma obeys_view a json : obeys (cli_step (CmView a) json) (went (CmView a) json None) (view a json) errand_new.
Proof.
  pose proof silent_new as Hnew. unfold view.
  eapply (obeys_before _ _ _ (fun r => know_viewer (ok r) known_new)); [done|done|done|by intros r; constructor|].
  intros cfg. set (e0 := knowing _ _). assert (Hs : silent None e0) by done. apply obeys_try. unfold open_existing_stream. apply obeys_try.
  eapply (obeys_op _ _ _ _ (fun r : result text unit => match r with Ok _ => e0 | Err _ => on_line LnUnreached e0 end));
    [by intros r; constructor| |by intros; apply went_blame; [|eexists]]. intros [].
  eapply (obeys_op _ _ _ _ (fun r : result text unit => on_line (match r with Ok _ => LnOpen | Err _ => LnUnreached end) e0));
    [by intros r; constructor| |by intros; apply went_blame; [|eexists]]. intros [].
  apply obeys_try. apply obeys_verified; [done|done|by exists cfg| |intros l x; by apply went_blame].
  intros r. destruct r; try fails. cbn [answered_line]. set (e1 := on_line _ _).
  set (told := told_viewer json (va_read_only a || vc_read_only cfg) addresses token notices).
  assert (Hv : viewer_told json (CmView a) (er_known e1) (WViewerStarted addresses token notices) = Some told) by done.
  assert (Hm : may_show (CmView a) json e1) by (right; do 2 eexists; split; [done|by eexists]).
  assert (Hh : forall k, (forall h, obeys (cli_step (CmView a) json) (went (CmView a) json None) (k h)
      (on_line (LnHeld (WViewerStarted addresses token notices) h) (showing told e1))) ->
    obeys (cli_step (CmView a) json) (went (CmView a) json None) (pbind (act HoldStream) k) (showing told e1)).
  { intros k Hk h. eexists. split; [by eapply CkHold|apply Hk]. }
  apply obeys_bind. eapply (obeys_mono _ (fun e (_ : unit) => e = showing told e1)).
  - intros e [] ->. apply Hh. intros [].
    + assert (Ht : tells (CmView a) json (on_line (LnHeld (WViewerStarted addresses token notices) HeldCtrlC) (showing told e1))
        = Some (told ++ [ShErr (txt "viewer stopped")])) by done.
      intros []. eexists. split; [by constructor; left; eexists|]. by split.
    + split; [done|]. split; [by eexists|done].
  - unfold show_viewer. rewrite <- (showing_nil e1). subst told. unfold told_viewer. destruct json.
    + intros []. eexists. split; [by constructor|]. by rewrite showing_app.
    + apply (obeys_show (ShOut _)); [done|]. apply (obeys_show_each _ (fun url => ShOut (txt "  " ++ url))); [done..|].
      apply (obeys_show_each _ (fun n => ShOut (txt "notice: " ++ n))); [done..|].
      intros []. eexists. split; [by constructor|]. cbn [obeys]. rewrite showing_app. do 2 f_equal. by rewrite <- !app_assoc.
Qed.

Lemma obeys_dispatch c json : obeys (cli_step c json) (went c json None) (dispatch_cli c json) errand_new.
Proof.
  destruct c as [a| |s|a|s|s|[a| |s|s]|[a]|[s x y b double|s x y dy|s fx fy tx ty b|s t|s combo]|a|a|[a|a]|[a]|a|[s|s]|s t|[|id|id]];
      cbn [dispatch_cli];
      [ apply obeys_connect; by left
      | apply obeys_list; by left
      | by apply (obeys_ack_verb s (fun id => RqPing id))
      | apply obeys_screenshot; by left
      | by apply (obeys_ack_verb s (fun id => RqDisconnect id))
      | apply obeys_takeover; by left
      | apply obeys_connect; by right
      | apply obeys_list; by right
      | by apply (obeys_ack_verb s (fun id => RqDisconnect id))
      | apply obeys_takeover; by right
      | apply obeys_screenshot; by right
      | by apply (obeys_ack_verb s (fun id => RqMouse id (if double then DoubleClick x y b else Click x y b)))
      | by apply (obeys_ack_verb s (fun id => RqMouse id (Scroll x y dy)))
      | by apply (obeys_ack_verb s (fun id => RqMouse id (Drag fx fy tx ty b)))
      | by apply (obeys_ack_verb s (fun id => RqKey id (Type_ t)))
      | apply obeys_key
      | apply obeys_put; by left
      | apply obeys_get; by left
      | apply obeys_put; by right
      | apply obeys_get; by right
      | apply obeys_config
      | apply obeys_view
      | by apply (obeys_changed_verb s (fun id => RqRecordStart id))
      | by apply (obeys_changed_verb s (fun id => RqRecordStop id))
      | by apply (obeys_changed_verb s (fun id => RqAnnotate id t))
      | apply obeys_record_list
      | apply (obeys_keep id true)
      | apply (obeys_keep id false) ].
Qed.


End Client.

(** ** An example: two daemons and two downloads *)
Module ClientDemo.
(** The frames that reached the daemon, the paths that are there, and what was
    printed. *)
Record World := { wo_frames : list Request; wo_paths : list text; wo_out : list text }.

Definition settled_host : result HostsError ResolvedHost := Err (UnknownKeyword (txt "x")).

Section Daemon.
Variable version : Z.

Definition answer_to (frames : list Request) : WireResponse :=
  match last frames with
  | Some RqList => WSessionList [] (Some version)
  | Some (RqGet _ _ _) => WTransfer {| to_bytes_transferred := 3; to_checksum := txt "aa" |}
  | _ => WAck
  end.

Definition surroundings (B : Type) (o : CliOp B) (w : World) : World * B :=
  let printed t := {| wo_frames := wo_frames w; wo_paths := wo_paths w; wo_out := wo_out w ++ [t] |} in
  let at_paths ps := {| wo_frames := wo_frames w; wo_paths := ps; wo_out := wo_out w |} in
  match o in CliOp B return World * B with
  | ResolveHost _ => (w, settled_host)
  | ResolveRecording => (w, Ok RecordingConfig_default)
  | ResolveViewer => (w, Ok ViewerConfig_default)
  | RunShell _ _ => (w, ShTimedOut)
  | CurrentDir => (w, Ok (txt "/home/u"))
  | PathExists p => (w, bool_decide (p ∈ wo_paths w))
  | NextDownload => (w, (7, 0))
  | CreateDir p => (at_paths (p :: wo_paths w), DirCreated)
  | SocketPath | CurrentExe | ConnectOrSpawn | ConnectExisting => (w, Ok tt)
  | WriteFrame r => ({| wo_frames := wo_frames w ++ [r]; wo_paths := wo_paths w; wo_out := wo_out w |}, Ok tt)
  | ReadFrame => (w, Ok (answer_to (wo_frames w)))
  | RenameFile _ q => (at_paths (q :: wo_paths w), Ok tt)
  | RemoveDirAll p => (at_paths (List.filter (fun q => negb (bool_decide (q = p))) (wo_paths w)), tt)
  | WriteFile p _ => (at_paths (p :: wo_paths w), Ok tt)
  | PrintOut t => (printed t, tt)
  | PrintErr t => (printed t, tt)
  | PrintJson _ => (printed (txt "json"), tt)
  | HoldStream => (w, HeldCtrlC)
  end.

Definition invoke (c : CliCommand) (paths : list text) : World * Z :=
  run surroundings (cli_main (fun t => t) (fun _ => None) (fun _ => []) (fun _ => []) (fun _ => JNull) (fun _ => JNull) (fun _ => JNull)
      (fun _ => Err []) (fun _ => []) c false)
    {| wo_frames := []; wo_paths := paths; wo_out := [] |}.
End Daemon.

Definition fetch (force : bool) : CliCommand :=
  CmGet {| ga_session := txt "s"; ga_remote_name := txt "r"; ga_local := txt "out"; ga_force := force |}.

(** A daemon of another version sees the probe only. *)
Example old_daemon_gets_the_probe :
  let '(w, code) := invoke 6 (CmPing (txt "s")) [] in wo_frames w = [RqList] /\ code = 12.
Proof. vm_compute. done. Qed.

Example get_refuses_to_overwrite :
  let '(w, code) := invoke 7 (fetch false) [txt "/home/u/out"] in wo_frames w = [] /\ code = 8.
Proof. vm_compute. done. Qed.

Example get_with_force_goes_beside :
  let '(w, code) := invoke 7 (fetch true) [txt "/home/u/out"] in
  wo_frames w = [RqList; RqGet (txt "s") (txt "r") (txt "/home/u/.rdpilot-download-7-0/payload")]
  /\ wo_paths w = [txt "/home/u/out"; txt "/home/u/out"] /\ wo_out w = [txt "transferred 3 bytes (checksum aa)"] /\ code = 0.
Proof. vm_compute. done. Qed.

Example parents : map parent [txt "/a/b"; txt "/a//b/"; txt "/a/."; txt "/"; txt "a"] = [Some (txt "/a"); Some (txt "/a"); Some (txt "/"); None; Some []].
Proof. vm_compute. reflexivity. Qed.

Example durations : map duration [4500; 125000; 3723000] = [txt "4s"; txt "2m05s"; txt "1h02m03s"].
Proof. vm_compute. reflexivity. Qed.
End ClientDemo.
