(* ===== verification/McpProxy.v ===== *)
(** * The MCP proxy ([rdpilot-mcp/src/proxy.rs])

    A caller speaks MCP in lines of JSON, the daemon in frames.  [attach] turns
    a stream to the daemon into one of a Cua attachment; [forward] then moves
    messages in both directions until one of them ends, which drops the other.

    The caller's bytes come in pieces, as the reader's buffer has them; an
    error of the reader ends them.  JSON is serde's ([Serde]).  Frames are those
    of Wire.v.  Lengths stay below the cap plus one piece, far from the end of
    [usize]. *)
From S2P Require Import Prelude Bytes Json Prog Wire.
Local Open Scope prog_scope.

Definition MAX_LINE : N := MAX_FRAME_LEN.
(** Five and thirty seconds, in nanoseconds. *)
Definition WRITE_TIMEOUT : Z := 5 * 10 ^ 9.
Definition ATTACH_TIMEOUT : Z := 30 * 10 ^ 9.
Definition newline : N := 10%N.

(** [CuaStreamFrame] *)
Inductive CuaStreamFrame := CuaMessage (message : Value) | CuaClosed (reason : text).

(** ** [attach] *)

(** Every operation may meet the deadline over all of them ([None]). *)
Inductive AttachOp : Type -> Type :=
| AtWrite (r : Request) : AttachOp (option (result text unit))
| AtRead : AttachOp (option (result text WireResponse)).

Definition ATTACH_TIMED_OUT : text := txt "Cua attachment timed out".
Definition attach_try {A B} (e : AttachOp (option (result text A))) (k : A -> prog AttachOp (result text B)) : prog AttachOp (result text B) :=
  let! r := act e in
  match r with
  | None => Ret (Err ATTACH_TIMED_OUT)
  | Some (Err m) => Ret (Err m)
  | Some (Ok a) => k a
  end.

Definition attach (session : text) : prog AttachOp (result text unit) :=
  attach_try (AtWrite RqList) (fun _ =>
  attach_try AtRead (fun hello =>
  let cua :=
    attach_try (AtWrite (RqCuaAttach session)) (fun _ =>
    attach_try AtRead (fun answer =>
    Ret (match answer with
    | WCuaAttached _ _ _ _ => Ok tt
    | WError_ e => Err (we_message e)
    | _ => Err (txt "daemon did not acknowledge Cua attachment")
    end))) in
  match hello with
  | WSessionList _ compatibility_version =>
      if decide (compatibility_version = Some IPC_COMPATIBILITY_VERSION) then cua
      else Ret (Err (daemon_incompatible_message compatibility_version))
  | _ => Ret (Err (txt "daemon compatibility handshake failed"))
  end)).

(** The frames of an attach, one after the other. *)
Inductive Hello := HeStart | HeProbed | HeCompatible | HeAsked | HeAttached | HeFailed.
Definition attach_step (session : text) (B : Type) (e : AttachOp B) : B -> Hello -> option Hello :=
  match e with
  | AtWrite RqList => fun r h => match h with HeStart => Some (match r with Some (Ok _) => HeProbed | _ => HeFailed end) | _ => None end
  | AtWrite (RqCuaAttach s) => fun r h =>
      match h with
      | HeCompatible => if decide (s = session) then Some (match r with Some (Ok _) => HeAsked | _ => HeFailed end) else None
      | _ => None
      end
  | AtWrite _ => fun _ _ => None
  | AtRead => fun r h =>
      match h with
      | HeProbed => Some (match r with
          | Some (Ok (WSessionList _ v)) => if decide (v = Some IPC_COMPATIBILITY_VERSION) then HeCompatible else HeFailed
          | _ => HeFailed end)
      | HeAsked => Some (match r with Some (Ok (WCuaAttached _ _ _ _)) => HeAttached | _ => HeFailed end)
      | _ => None
      end
  end.

(** The session is named only to a compatible daemon, and [attach] succeeds
    exactly when that daemon acknowledged it. *)
Lemma attach_is_checked session :
  follows (attach_step session) (fun h r => r = Ok tt <-> h = HeAttached) (attach session) HeStart.
Proof.
  unfold attach. intros [[[]|e]|]; cbn; [|done..]. intros [[hello|e]|]; cbn; [|done..].
  destruct hello; cbn; try done. destruct (decide (compatibility_version = _)) as [Hv|Hv]; cbn; [|done].
  intros [[[]|e]|]; cbn; (rewrite decide_True by done); [|done..].
  intros [[answer|e]|]; cbn; [|done..]. by destruct answer.
Qed.

Section Proxy.
Context `{Serde Value}.

(** ** [read_line] *)

(** The length of the piece up to its first newline, and that one. *)
Fixpoint line_len (chunk : bytes) : option N :=
  match chunk with
  | [] => None
  | b :: chunk => if (b =? newline)%N then Some 1%N else option_map N.succ (line_len chunk)
  end.

(** The reader's pieces; an empty one is the end, as none is. *)
Definition Input : Type := list (result text bytes).

Definition at_end (line : bytes) : result text (option Value) :=
  match line with [] => Ok None | _ :: _ => Err (txt "unterminated MCP input line") end.

(** [read_line], with the line read so far: what is left, and the message. *)
Fixpoint read_line (input : Input) (line : bytes) : Input * result text (option Value) :=
  match input with
  | [] => ([], at_end line)
  | Err e :: rest => (rest, Err e)
  | Ok [] :: rest => (Ok [] :: rest, at_end line)
  | Ok chunk :: rest =>
      let count := default (blen chunk) (line_len chunk) in
      if (MAX_LINE <? blen line + count)%N then (Ok chunk :: rest, Err (txt "MCP input exceeds frame limit"))
      else
        let line := line ++ btake count chunk in
        let left := match bdrop count chunk with [] => rest | more => Ok more :: rest end in
        match line_len chunk with
        | Some _ =>
            (left, match from_slice line with Ok v => Ok (Some v) | Err _ => Err (txt "malformed MCP JSON") end)
        | None => read_line rest line
        end
  end.

(** ** [forward] *)

Inductive WriteEnd := Wrote | WriteTimedOut | WriteError (e : text).

Inductive ProxyOp : Type -> Type :=
| ReadLine : ProxyOp (result text (option Value))
| SendCua (f : CuaStreamFrame) : ProxyOp WriteEnd
| ReadCua : ProxyOp (result text CuaStreamFrame)
| WriteLine (line : bytes) : ProxyOp WriteEnd.

(** The caller's direction; the rounds are an argument, and [None] says that
    it still runs. *)
Fixpoint to_cua (rounds : nat) : prog ProxyOp (option (result text unit)) :=
  match rounds with
  | O => Ret None
  | S n =>
      let! message := act ReadLine in
      match message with
      | Err e => Ret (Some (Err e))
      | Ok (Some message) =>
          let! w := act (SendCua (CuaMessage message)) in
          match w with
          | Wrote => to_cua n
          | WriteTimedOut => Ret (Some (Err (txt "Cua input write timed out")))
          | WriteError e => Ret (Some (Err e))
          end
      | Ok None => let! _ := act (SendCua (CuaClosed (txt "caller EOF"))) in Ret (Some (Ok tt))
      end
  end.

(** The guest's direction; it ends with an error only. *)
Fixpoint from_cua (rounds : nat) : prog ProxyOp (option (result text unit)) :=
  match rounds with
  | O => Ret None
  | S n =>
      let! frame := act ReadCua in
      match frame with
      | Err e => Ret (Some (Err e))
      | Ok (CuaMessage message) =>
          match to_vec message with
          | Err e => Ret (Some (Err e))
          | Ok line =>
              if (MAX_LINE <? blen line + 1)%N then Ret (Some (Err (txt "MCP output exceeds line limit")))
              else
                let! w := act (WriteLine (line ++ [newline])) in
                match w with
                | Wrote => from_cua n
                | WriteTimedOut => Ret (Some (Err (txt "MCP stdout write timed out")))
                | WriteError e => Ret (Some (Err e))
                end
          end
      | Ok (CuaClosed reason) => Ret (Some (Err (txt "Cua attachment closed: " ++ reason)))
      end
  end.

(** [select!]: the two directions take turns as their operations get done;
    the first to end drops the other. *)
Inductive forward_step : prog ProxyOp (option (result text unit)) * prog ProxyOp (option (result text unit)) ->
    prog ProxyOp (option (result text unit)) * prog ProxyOp (option (result text unit)) -> Prop :=
| FwdTo B (e : ProxyOp B) k b q : (forall r, q <> Ret (Some r)) -> forward_step (Act e k, q) (k b, q)
| FwdFrom B (e : ProxyOp B) k b p : (forall r, p <> Ret (Some r)) -> forward_step (p, Act e k) (p, k b).

(** ** Facts *)

Lemma line_len_some a b n : line_len a = Some n -> line_len (a ++ b) = Some n /\ (0 < n <= blen a)%N.
Proof.
  revert n. induction a as [|x a IH]; cbn; [done|]. intros n. autorewrite with bytes_rw.
  destruct (x =? newline)%N; [intros [= <-]; split; [done|lia]|].
  destruct (line_len a) as [m|]; [|done]. intros [= <-]. destruct (IH m) as [-> Hm]; [done|]. cbn. split; [done|lia].
Qed.

Lemma line_len_none a b : line_len a = None -> line_len (a ++ b) = option_map (N.add (blen a)) (line_len b).
Proof.
  induction a as [|x a IH]; cbn; [by destruct (line_len b)|]. destruct (x =? newline)%N; [done|].
  destruct (line_len a); [done|]. intros _. rewrite IH by done. destruct (line_len b); [|done]. cbn. f_equal.
  autorewrite with bytes_rw. lia.
Qed.

Lemma btake_self (l : bytes) : btake (blen l) l = l.
Proof. rewrite <- (app_nil_r l) at 2. by apply btake_app. Qed.
Lemma bdrop_self (l : bytes) : bdrop (blen l) l = [].
Proof. rewrite <- (app_nil_r l) at 2. by apply bdrop_app. Qed.

Lemma read_line_cons p rest line : p <> [] ->
  read_line (Ok p :: rest) line =
  (let count := default (blen p) (line_len p) in
   if (MAX_LINE <? blen line + count)%N then (Ok p :: rest, Err (txt "MCP input exceeds frame limit"))
   else
     let line := line ++ btake count p in
     let left := match bdrop count p with [] => rest | more => Ok more :: rest end in
     match line_len p with
     | Some _ => (left, match from_slice line with Ok v => Ok (Some v) | Err _ => Err (txt "malformed MCP JSON") end)
     | None => read_line rest line
     end).
Proof. by destruct p. Qed.

(** One line: it ends with its only newline. *)
Definition one_line (l : bytes) : Prop := line_len l = Some (blen l).

Definition pieces_ok (ps : list bytes) : Prop := Forall (fun p => p <> []) ps.

Lemma read_line_whole ps line l more :
  pieces_ok ps -> concat ps = l ++ more -> one_line l -> (blen line + blen l <= MAX_LINE)%N ->
  exists ps', pieces_ok ps' /\ concat ps' = more /\
    read_line (map Ok ps) line =
      (map Ok ps', match from_slice (line ++ l) with Ok v => Ok (Some v) | Err _ => Err (txt "malformed MCP JSON") end).
Proof.
  revert line l. induction ps as [|p ps IH]; intros line l Hps Hc Hl Hm.
  { cbn in Hc. symmetry in Hc. apply app_eq_nil in Hc as [-> _]. done. }
  apply Forall_cons in Hps as [Hp Hps]. cbn [concat map] in *.
  pose proof (proj1 (line_len_some l more _ Hl)) as Hall. rewrite <- Hc in Hall.
  rewrite read_line_cons by done. cbv zeta.
  destruct (line_len p) as [n|] eqn:Hn; cbn [from_option id].
  - destruct (line_len_some p (concat ps) n Hn) as [Hn' Hle]. rewrite Hall in Hn'. injection Hn' as <-.
    destruct (N.ltb_spec MAX_LINE (blen line + blen l)) as [?|_]; [lia|].
    apply app_eq_inv in Hc as [(k & Hk1 & Hk2)|(k & Hk1 & Hk2)].
    + rewrite Hk1, btake_app, bdrop_app by done. destruct k as [|y k].
      * exists ps. cbn in Hk2. by rewrite Hk2.
      * exists ((y :: k) :: ps). split; [by constructor|]. by rewrite Hk2.
    + assert (k = []) as ->. { apply blen_nil. rewrite Hk1 in Hle. autorewrite with bytes_rw in Hle. lia. }
      rewrite app_nil_r in Hk1. exists ps. rewrite <- Hk1.
      rewrite btake_self, bdrop_self. cbn in Hk2. by rewrite Hk2.
  - rewrite line_len_none in Hall by done. destruct (line_len (concat ps)) as [m|] eqn:Hm'; [|done].
    cbn in Hall. injection Hall as Hlen.
    destruct (N.ltb_spec MAX_LINE (blen line + blen p)) as [?|_]; [lia|].
    apply app_eq_inv in Hc as [(k & Hk1 & Hk2)|(k & Hk1 & Hk2)].
    { rewrite Hk1 in Hn. by rewrite (proj1 (line_len_some l k _ Hl)) in Hn. }
    rewrite btake_self.
    assert (Hk : one_line k).
    { unfold one_line in *. rewrite Hk1 in Hl. rewrite line_len_none in Hl by done. destruct (line_len k) as [j|]; [|done].
      cbn in Hl. autorewrite with bytes_rw in Hl. injection Hl as Hj. f_equal. lia. }
    destruct (IH (line ++ p) k) as (ps' & H1 & H2 & H3); [done|done|done| |].
    { rewrite Hk1 in Hm. autorewrite with bytes_rw in *. lia. }
    exists ps'. split; [done|]. split; [done|]. rewrite H3, Hk1. by rewrite app_assoc.
Qed.

(** What is no whole line is an error, and nothing at all the end. *)
Lemma read_line_tail ps line tail :
  pieces_ok ps -> concat ps = tail -> line_len tail = None ->
  match snd (read_line (map Ok ps) line) with
  | Ok None => line = [] /\ tail = []
  | Ok (Some _) => False
  | Err _ => line <> [] \/ tail <> []
  end.
Proof.
  revert line tail. induction ps as [|p ps IH]; intros line tail Hps <- Hn.
  { cbn. destruct line; cbn; [done|by left]. }
  apply Forall_cons in Hps as [Hp Hps]. cbn [concat map] in *.
  assert (Hp' : line_len p = None).
  { destruct (line_len p) as [n|] eqn:Hl; [|done]. by rewrite (proj1 (line_len_some p (concat ps) n Hl)) in Hn. }
  rewrite read_line_cons by done. cbv zeta. rewrite Hp'. cbn [from_option id]. destruct (N.ltb_spec MAX_LINE (blen line + blen p)).
  { right. intros Ha. by apply app_eq_nil in Ha as [? _]. }
  rewrite line_len_none in Hn by done. destruct (line_len (concat ps)) eqn:Hr; [done|].
  rewrite btake_self.
  specialize (IH (line ++ p) _ Hps eq_refl Hr). destruct (snd (read_line _ _)) as [[v|]|e]; [done| |].
  2: { right. intros Ha. by apply app_eq_nil in Ha as [? _]. }
  destruct IH as [Ha _]. by apply app_eq_nil in Ha as [_ ?].
Qed.

(** The caller's side of a proxy: its pieces, and the frames that reached the
    daemon; [writes] says how the next write ends. *)
Definition caller_side (writes : nat -> WriteEnd) (B : Type) (e : ProxyOp B) (w : Input * list CuaStreamFrame)
    : (Input * list CuaStreamFrame) * B :=
  match e in ProxyOp B return (Input * list CuaStreamFrame) * B with
  | ReadLine => let '(more, r) := read_line (fst w) [] in ((more, snd w), r)
  | SendCua f =>
      let r := writes (length (snd w)) in
      ((fst w, match r with Wrote => snd w ++ [f] | _ => snd w end), r)
  | ReadCua => (w, Err (txt "io error: end of file"))
  | WriteLine _ => (w, Wrote)
  end.

(** A line of the caller with the message it is. *)
Definition says (l : bytes) (m : Value) : Prop := one_line l /\ (blen l <= MAX_LINE)%N /\ from_slice l = Ok m.

Definition farewell (tail : bytes) : list CuaStreamFrame :=
  match tail with [] => [CuaClosed (txt "caller EOF")] | _ :: _ => [] end.

Lemma to_cua_sends ls ms ps tail rounds writes sent :
  pieces_ok ps -> concat ps = concat ls ++ tail -> Forall2 says ls ms -> line_len tail = None -> (length ms < rounds)%nat ->
  let '((_, sent'), r) := run (caller_side writes) (to_cua rounds) (map Ok ps, sent) in
  exists n, sent' = sent ++ take n (map CuaMessage ms ++ farewell tail) /\
    ((forall i, writes i = Wrote) -> sent' = sent ++ map CuaMessage ms ++ farewell tail /\ (r = Some (Ok tt) <-> tail = [])
                                   /\ is_Some r).
Proof.
  intros Hps Hc Hls. revert ps rounds sent Hps Hc. induction Hls as [|l m ls ms (Hl & Hlen & Hm) Hls IH];
    intros ps rounds sent Hps Hc Ht Hr; (destruct rounds as [|rounds]; [cbn in Hr; lia|]).
  - cbn in Hc. cbn [to_cua act pbind run caller_side fst snd].
    pose proof (read_line_tail ps [] tail Hps Hc Ht) as Hend. destruct (read_line (map Ok ps) []) as [more [[v|]|e]]; cbn in Hend.
    + done.
    + destruct Hend as [_ ->]. cbn. destruct (writes (length sent)) eqn:Hw; cbn; [exists 1%nat|exists 0%nat..]; (split; [by rewrite ?app_nil_r|]);
        intros Hall; [|by rewrite Hall in Hw..]. split_and!; [done|done|by eexists].
    + destruct Hend as [?|Hne]; [done|]. cbn. exists 0%nat. cbn. rewrite app_nil_r. split; [done|]. intros _.
      split_and!; [by destruct tail; rewrite ?app_nil_r|by split|by eexists].
  - cbn [concat] in Hc. rewrite <- app_assoc in Hc.
    destruct (read_line_whole ps [] l (concat ls ++ tail)) as (ps' & Hps' & Hc' & Hread); [done..|].
    cbn [to_cua act pbind run caller_side fst snd]. rewrite Hread. cbn [app]. rewrite Hm. cbn [pbind run caller_side fst snd].
    destruct (writes (length sent)) eqn:Hw; cbn [run].
    + specialize (IH ps' rounds (sent ++ [CuaMessage m]) Hps' Hc' Ht). cbn in Hr.
      match goal with |- context [run ?h ?p ?w] =>
        change (run (caller_side writes) (to_cua rounds) (map Ok ps', sent ++ [CuaMessage m])) with (run h p w) in IH;
        destruct (run h p w) as [[more sent'] r] end.
      destruct IH as (n & -> & Hall); [lia|]. exists (S n). split; [by rewrite <- app_assoc|]. intros Hw'.
      destruct (Hall Hw') as (Heq & Hr' & His). split; [|done]. by rewrite Heq, <- app_assoc.
    + exists 0%nat. cbn. rewrite app_nil_r. split; [done|]. intros Hall. by rewrite Hall in Hw.
    + exists 0%nat. cbn. rewrite app_nil_r. split; [done|]. intros Hall. by rewrite Hall in Hw.
Qed.

(** C38: However the caller's lines come in pieces, the daemon gets their
    messages in order, each once and unchanged, and a farewell only when the
    input ended with a whole line; where a write fails it has got a first part
    of this; and a rest that is no whole line is an error of which nothing is
    sent. *)
Theorem lines_cross_in_order (ls : list bytes) (ms : list Value) (ps : list bytes) (tail : bytes) (rounds : nat) (writes : nat -> WriteEnd) :
  pieces_ok ps -> concat ps = concat ls ++ tail -> Forall2 says ls ms -> line_len tail = None -> (length ms < rounds)%nat ->
  let '((_, sent), r) := run (caller_side writes) (to_cua rounds) (map Ok ps, []) in
  sent `prefix_of` map CuaMessage ms ++ farewell tail /\
  ((forall i, writes i = Wrote) ->
     sent = map CuaMessage ms ++ farewell tail /\ (r = Some (Ok tt) <-> tail = []) /\ is_Some r).
Proof.
  intros Hps Hc Hls Ht Hr. pose proof (to_cua_sends ls ms ps tail rounds writes [] Hps Hc Hls Ht Hr) as Hsends.
  destruct (run (caller_side writes) (to_cua rounds) (map Ok ps, [])) as [[more sent] r].
  destruct Hsends as (n & -> & Hall). split; [apply prefix_take|exact Hall].
Qed.

(** The guest's side: the frames still to come, and the lines written. *)
Definition guest_side (B : Type) (e : ProxyOp B) (w : list CuaStreamFrame * list bytes) : (list CuaStreamFrame * list bytes) * B :=
  match e in ProxyOp B return (list CuaStreamFrame * list bytes) * B with
  | ReadCua => match fst w with f :: fs => ((fs, snd w), Ok f) | [] => (w, Err (txt "io error: end of file")) end
  | WriteLine l => ((fst w, snd w ++ [l]), Wrote)
  | ReadLine => (w, Ok None)
  | SendCua _ => (w, Wrote)
  end.

(** What the guest says becomes lines, one for each message in its order, each
    ended by a newline and within the cap. *)
Lemma messages_become_lines ms bodies fs rounds out :
  Forall2 (fun m b => to_vec m = Ok b /\ (blen b + 1 <= MAX_LINE)%N) ms bodies -> (length ms < rounds)%nat ->
  (fs = [] \/ exists reason rest, fs = CuaClosed reason :: rest) ->
  let '((_, out'), r) := run guest_side (from_cua rounds) (map CuaMessage ms ++ fs, out) in
  out' = out ++ map (fun b => b ++ [newline]) bodies /\ exists e, r = Some (Err e).
Proof.
  intros Hms. revert rounds out. induction Hms as [|m b ms bodies [Hv Hb] Hms IH]; intros rounds out Hr Hfs;
    (destruct rounds as [|rounds]; [cbn in Hr; lia|]).
  - cbn. rewrite app_nil_r. destruct Hfs as [-> | (reason & rest & ->)]; cbn; by eauto.
  - cbn [from_cua act pbind run guest_side map app fst snd]. rewrite Hv.
    destruct (N.ltb_spec MAX_LINE (blen b + 1)) as [?|_]; [lia|]. cbn [run pbind guest_side fst snd]. cbn in Hr.
    specialize (IH rounds (out ++ [b ++ [newline]])). cbn [map].
    destruct (run guest_side (from_cua rounds) (map CuaMessage ms ++ fs, out ++ [b ++ [newline]])) as [[more out'] r].
    destruct IH as [-> He]; [lia|done|]. rewrite <- app_assoc. by split.
Qed.
(** The end of one direction is the end of both. *)
Lemma forward_ends w w' : forward_step w w' -> (forall r, fst w <> Ret (Some r)) /\ (forall r, snd w <> Ret (Some r)).
Proof. by destruct 1. Qed.
End Proxy.

(** ** An example: two messages in odd pieces, and half a line *)
Module ProxyDemo.
(** JSON texts that are any bytes with a newline after them. *)
Definition plain : Serde Value :=
  {| to_vec := fun v => match v with JString t => Ok t | _ => Err [] end;
     from_slice := fun b => Ok (JString (btake (blen b - 1) b)) |}.

Lemma lines_cross_in_order_witness :
  let '((_, sent), r) := run (caller_side (H := plain) (fun _ => Wrote)) (to_cua 3)
    (map Ok [[97]; [98; 10; 99]; [10]; [100]]%N, []) in
  sent `prefix_of` map CuaMessage [JString [97; 98]; JString [99]]%N ++ farewell [100]%N /\
  ((forall i : nat, (fun _ => Wrote) i = Wrote) ->
     sent = map CuaMessage [JString [97; 98]; JString [99]]%N ++ farewell [100]%N /\ (r = Some (Ok tt) <-> [100]%N = []) /\ is_Some r).
Proof.
  apply (lines_cross_in_order (H := plain) [[97; 98; 10]; [99; 10]]%N [JString [97; 98]; JString [99]]%N
           [[97]; [98; 10; 99]; [10]; [100]]%N [100]%N 3 (fun _ => Wrote)).
  - repeat constructor; discriminate.
  - reflexivity.
  - repeat constructor; vm_compute; (reflexivity || discriminate).
  - reflexivity.
  - cbn. lia.
Defined.

(** A rest that is no whole line is refused. *)
Example half_a_line_is_refused :
  snd (run (caller_side (H := plain) (fun _ => Wrote)) (to_cua 3) (map Ok [[97; 10]; [98]]%N, []))
  = Some (Err (txt "unterminated MCP input line")).
Proof. vm_compute. reflexivity. Qed.
End ProxyDemo.
