(* ===== verification/Listener.v ===== *)
(** * The daemon's socket ([rdpilot-daemon/src/ipc/unix.rs], and how [run] of
      [server.rs] begins and ends with it)

    Binding the socket is how daemons agree that one of them serves.  Daemons
    start at any time, side by side ([Tasks.v]); an operation on the socket
    file is a critical section of the file system.  A socket file is the number
    of the listener that was bound to it; a listener lives until its daemon
    closes it or is killed, and its file may stay.  A daemon that is killed
    before it has a listener is one that makes no further step.

    What is not the socket of a daemon (its sessions, its recordings) is in
    Server.v. *)
From S2P Require Import Prelude Prog Tasks.
Local Open Scope prog_scope.

Inductive BindError := AddrInUse | BindIo (e : text).

(** The file's listener, if there is a file; the listeners that are open, and
    those whose daemon accepts; the next one; and whether a connect of a
    starting daemon has ever failed. *)
Record Net := { nt_path : option nat; nt_live : list nat; nt_serving : list nat; nt_next : nat; nt_failed : bool }.
Definition net_new : Net := {| nt_path := None; nt_live := []; nt_serving := []; nt_next := 0; nt_failed := false |}.

(** How the accept loop of a daemon ends. *)
Inductive Fate := Stopped | Killed.

Inductive SockOp : Type -> Type :=
| SocketDir : SockOp (result text unit)
| PathExists : SockOp bool
| TryConnect : SockOp bool
| Unlink : SockOp (result text unit)
| BindPath : SockOp (result BindError nat)
| Serve (l : nat) : SockOp Fate
| CloseListener (l : nat) : SockOp unit.

(** [bind] *)
Definition bind : prog SockOp (result BindError nat) :=
  let! path := act SocketDir in
  match path with
  | Err e => Ret (Err (BindIo e))
  | Ok _ =>
      let! exists_ := act PathExists in
      if exists_ : bool then
        let! connected := act TryConnect in
        if connected : bool then Ret (Err AddrInUse)
        else
          let! removed := act Unlink in
          match removed with
          | Err e => Ret (Err (BindIo e))
          | Ok _ => act BindPath
          end
      else act BindPath
  end.

(** [authorize_uid], and [accept_and_authorize] of what the accept and the
    peer's credentials gave. *)
Definition authorize_uid (peer_uid our_uid : Z) : result text unit :=
  if (peer_uid =? our_uid)%Z then Ok tt
  else Err (txt "peer uid " ++ dec (Z.to_N peer_uid) ++ txt " does not match the daemon's effective uid " ++ dec (Z.to_N our_uid)).
Definition accept_and_authorize {S} (accepted : result text S) (peer_cred : result text Z) (effective_uid : Z) : result text S :=
  match accepted with
  | Err e => Err e
  | Ok stream =>
      match peer_cred with
      | Err e => Err e
      | Ok uid => match authorize_uid uid effective_uid with Err e => Err e | Ok _ => Ok stream end
      end
  end.

(** The daemon as far as its socket goes: how it ended. *)
Inductive DaemonEnd := LostRace | BindFailed (e : text) | Died | RanToEnd.

Definition daemon : prog SockOp DaemonEnd :=
  let! bound := bind in
  match bound with
  | Err AddrInUse => Ret LostRace
  | Err (BindIo e) => Ret (BindFailed e)
  | Ok listener =>
      let! fate := act (Serve listener) in
      match fate with
      | Killed => Ret Died
      | Stopped =>
          let! path := act SocketDir in
          do! (match path with Ok _ => let! _ := act Unlink in Ret tt | Err _ => Ret tt end) in
          do! act (CloseListener listener) in
          Ret RanToEnd
      end
  end.

(** What the surroundings decide: whether the directory resolves, and how a
    daemon's service ends. *)
Record Luck := { lk_dir : result text unit; lk_fate : Fate }.

Definition drop_listener (l : nat) (ls : list nat) : list nat := List.filter (fun x => negb (x =? l)%nat) ls.

Definition sock_exec (k : Luck) (B : Type) (o : SockOp B) (s : Net) : Net * B :=
  match o in SockOp B return Net * B with
  | SocketDir => (s, lk_dir k)
  | PathExists => (s, match nt_path s with Some _ => true | None => false end)
  | TryConnect =>
      let accepted := match nt_path s with Some i => bool_decide (i ∈ nt_live s) | None => false end in
      ({| nt_path := nt_path s; nt_live := nt_live s; nt_serving := nt_serving s; nt_next := nt_next s;
          nt_failed := nt_failed s || negb accepted |}, accepted)
  | Unlink =>
      match nt_path s with
      | None => (s, Err (txt "No such file or directory"))
      | Some _ => ({| nt_path := None; nt_live := nt_live s; nt_serving := nt_serving s; nt_next := nt_next s; nt_failed := nt_failed s |}, Ok tt)
      end
  | BindPath =>
      match nt_path s with
      | Some _ => (s, Err AddrInUse)
      | None =>
          let i := nt_next s in
          ({| nt_path := Some i; nt_live := i :: nt_live s; nt_serving := i :: nt_serving s; nt_next := S i; nt_failed := nt_failed s |}, Ok i)
      end
  | Serve l =>
      ({| nt_path := nt_path s; nt_live := match lk_fate k with Killed => drop_listener l (nt_live s) | Stopped => nt_live s end;
          nt_serving := drop_listener l (nt_serving s); nt_next := nt_next s; nt_failed := nt_failed s |}, lk_fate k)
  | CloseListener l =>
      ({| nt_path := nt_path s; nt_live := drop_listener l (nt_live s); nt_serving := nt_serving s; nt_next := nt_next s; nt_failed := nt_failed s |}, tt)
  end.

(** Only daemons touch the socket file. *)
Definition sock_outside (s s' : Net) : Prop := False.
Definition sock_body (_ : unit) : prog SockOp DaemonEnd := daemon.

Definition sock_reached (w : Net * list (@Task SockOp unit DaemonEnd)) : Prop :=
  pool_steps sock_exec sock_body sock_outside (net_new, []) w.

(** ** The invariant *)

(** A daemon's hold on a listener: accepting, stopped with the file to remove,
    and with the listener to close; and the knowledge that a connect failed. *)
Inductive Hold := HServing (i : nat) | HStopped (i : nat) | HClosing (i : nat) | HFailed.
Definition held (h : Hold) : option nat := match h with HServing i | HStopped i | HClosing i => Some i | HFailed => None end.
Definition serves (h : Hold) : option nat := match h with HServing i => Some i | _ => None end.

Record net_inv (s : Net) (T : list Hold) : Prop := {
  ni_next : forall i, nt_path s = Some i \/ i ∈ omap held T -> (i < nt_next s)%nat;
  ni_nodup : NoDup (omap held T);
  ni_serving : nt_serving s ≡ₚ omap serves T;
  ni_live : forall i, i ∈ nt_live s -> i ∈ omap held T;
  ni_path : nt_failed s = false -> forall i, HServing i ∈ T \/ HStopped i ∈ T -> nt_path s = Some i;
  ni_failed : HFailed ∈ T -> nt_failed s = true }.

Lemma net_inv_perm s T T' : T ≡ₚ T' -> net_inv s T -> net_inv s T'.
Proof.
  intros Hp [H1 H2 H3 H4 H5 H6].
  assert (Hh : omap held T ≡ₚ omap held T') by (by rewrite Hp).
  constructor.
  - intros i. rewrite <- Hh. apply H1.
  - by rewrite <- Hh.
  - rewrite H3. by rewrite Hp.
  - intros i. rewrite <- Hh. apply H4.
  - intros Hf i. rewrite <- Hp. by apply H5.
  - rewrite <- Hp. exact H6.
Qed.

#[export] Instance net_owned : Owned sock_outside net_inv.
Proof. split; [intros s T T'; apply net_inv_perm|done]. Qed.

Lemma elem_drop j l ls : j ∈ drop_listener l ls <-> j ∈ ls /\ j <> l.
Proof.
  unfold drop_listener. rewrite !list_elem_of_In, filter_In, negb_true_iff, Nat.eqb_neq. done.
Qed.

Lemma drop_absent i k : i ∉ k -> drop_listener i k = k.
Proof.
  unfold drop_listener. induction k as [|j k IH]; cbn; [done|]. intros [Hne Hi]%not_elem_of_cons.
  destruct (Nat.eqb_spec j i) as [->|_]; [done|]. cbn. f_equal. by apply IH.
Qed.

#[export] Instance drop_proper l : Proper ((≡ₚ) ==> (≡ₚ)) (drop_listener l).
Proof.
  intros ls ls' Hp. unfold drop_listener. induction Hp; cbn; [done| | |by etrans].
  - destruct (negb _); [by constructor|done].
  - destruct (negb (_ =? _)%nat), (negb (x =? l)%nat); by try constructor.
Qed.

Lemma drop_perm i ls k : ls ≡ₚ i :: k -> i ∉ k -> drop_listener i ls ≡ₚ k.
Proof. intros -> Hi. unfold drop_listener. cbn. rewrite Nat.eqb_refl. cbn. fold (drop_listener i k). by rewrite drop_absent. Qed.

Lemma serves_held (T : list Hold) i : i ∈ omap serves T -> i ∈ omap held T.
Proof. rewrite !list_elem_of_omap. intros (h & Hh & Hs). exists h. split; [done|]. by destruct h. Qed.

Lemma held_in h (T : list Hold) i : h ∈ T -> held h = Some i -> i ∈ omap held T.
Proof. intros Hh Hi. apply list_elem_of_omap. by exists h. Qed.

Section Steps.
Variables (s : Net) (T : list Hold).

Lemma inv_bound : nt_path s = None -> net_inv s T ->
  net_inv {| nt_path := Some (nt_next s); nt_live := nt_next s :: nt_live s; nt_serving := nt_next s :: nt_serving s;
             nt_next := S (nt_next s); nt_failed := nt_failed s |} (HServing (nt_next s) :: T).
Proof.
  intros Hn [H1 H2 H3 H4 H5 H6]. constructor; cbn.
  - intros i [[= <-]|Hi]; [lia|]. apply elem_of_cons in Hi as [->|Hi]; [lia|]. specialize (H1 i (or_intror Hi)). lia.
  - constructor; [|done]. intros Hi. specialize (H1 _ (or_intror Hi)). lia.
  - by rewrite H3.
  - intros i Hi. apply elem_of_cons in Hi as [->|Hi]; [left|right; by apply H4].
  - intros Hf i Hi. assert (Hno : ~ (HServing i ∈ T \/ HStopped i ∈ T)).
    { intros Hin. by rewrite (H5 Hf i Hin) in Hn. }
    destruct Hi as [Hi|Hi]; apply elem_of_cons in Hi as [[= ->]|Hi]; [done|exfalso; by auto|exfalso; by auto].
  - intros Hi. apply elem_of_cons in Hi as [[=]|Hi]. by apply H6.
Qed.

Lemma net_forget : net_inv s (HFailed :: T) -> net_inv s T.
Proof.
  intros [H1 H2 H3 H4 H5 H6]. constructor; cbn in *; [done..| |].
  - intros Hf i Hi. apply H5; [done|]. by destruct Hi; [left|right]; right.
  - intros Hi. apply H6. by right.
Qed.

Lemma inv_no_file (T' := HFailed :: T) : net_inv s T' ->
  net_inv {| nt_path := None; nt_live := nt_live s; nt_serving := nt_serving s; nt_next := nt_next s; nt_failed := nt_failed s |} T'.
Proof.
  intros [H1 H2 H3 H4 H5 H6]. constructor; cbn -[omap] in *; [|done..| |done].
  - intros i [[=]|Hi]. apply H1. by right.
  - rewrite H6 by left. done.
Qed.

Lemma inv_connected b : net_inv s T ->
  net_inv {| nt_path := nt_path s; nt_live := nt_live s; nt_serving := nt_serving s; nt_next := nt_next s; nt_failed := nt_failed s || negb b |}
    (if b then T else HFailed :: T).
Proof.
  intros [H1 H2 H3 H4 H5 H6]. destruct b; cbn [negb]; rewrite ?orb_false_r, ?orb_true_r; constructor; cbn; try done.
Qed.

Lemma inv_stopped i : net_inv s (HServing i :: T) ->
  net_inv {| nt_path := nt_path s; nt_live := nt_live s; nt_serving := drop_listener i (nt_serving s); nt_next := nt_next s; nt_failed := nt_failed s |}
    (HStopped i :: T).
Proof.
  intros [H1 H2 H3 H4 H5 H6]. constructor; cbn in *; [done..| |done| |].
  - apply drop_perm; [done|]. apply NoDup_cons in H2 as [Hi _]. intros Hs. by apply Hi, serves_held.
  - intros Hf j Hj. apply H5; [done|]. destruct Hj as [Hj|Hj]; apply elem_of_cons in Hj as [[=]|Hj]; subst; [by left; right|by left; left|by right; right].
  - intros Hi. apply elem_of_cons in Hi as [[=]|Hi]. apply H6. by right.
Qed.

Lemma inv_killed i : net_inv s (HServing i :: T) ->
  net_inv {| nt_path := nt_path s; nt_live := drop_listener i (nt_live s); nt_serving := drop_listener i (nt_serving s); nt_next := nt_next s; nt_failed := nt_failed s |} T.
Proof.
  intros [H1 H2 H3 H4 H5 H6]. cbn in *. apply NoDup_cons in H2 as [Hi Hd]. constructor; cbn; [|done| | | |].
  - intros j [Hj|Hj]; apply H1; [by left|right; by right].
  - apply drop_perm; [done|]. intros Hs. by apply Hi, serves_held.
  - intros j Hj. apply elem_drop in Hj as [Hj Hne]. apply H4 in Hj. by apply elem_of_cons in Hj as [->|Hj].
  - intros Hf j Hj. apply H5; [done|]. by destruct Hj; [left|right]; right.
  - intros Hin. apply H6. by right.
Qed.

Lemma inv_removed i : net_inv s (HStopped i :: T) ->
  net_inv {| nt_path := None; nt_live := nt_live s; nt_serving := nt_serving s; nt_next := nt_next s; nt_failed := nt_failed s |} (HClosing i :: T).
Proof.
  intros [H1 H2 H3 H4 H5 H6]. cbn in *. constructor; cbn; [|done..| |].
  - intros j [[=]|Hj]. apply H1. by right.
  - intros Hf j Hj. exfalso. apply NoDup_cons in H2 as [Hi _].
    assert (Hin : HServing j ∈ T \/ HStopped j ∈ T).
    { destruct Hj as [Hj|Hj]; apply elem_of_cons in Hj as [[=]|Hj]; by auto. }
    assert (Hp : nt_path s = Some i) by (apply H5; [done|right; left]).
    assert (Hq : nt_path s = Some j) by (apply H5; [done|]; by destruct Hin; [left|right]; right).
    rewrite Hp in Hq. injection Hq as ->. apply Hi. by destruct Hin as [Hin|Hin]; eapply held_in.
  - intros Hin. apply elem_of_cons in Hin as [[=]|Hin]. apply H6. by right.
Qed.

(** A daemon whose file is gone, or stays since its place is not found. *)
Lemma inv_left i : net_inv s (HStopped i :: T) -> net_inv s (HClosing i :: T).
Proof.
  intros [H1 H2 H3 H4 H5 H6]. cbn in *. constructor; cbn; [done..| |].
  - intros Hf j Hj. apply H5; [done|]. destruct Hj as [Hj|Hj]; apply elem_of_cons in Hj as [[=]|Hj]; [by left; right|by right; right].
  - intros Hin. apply elem_of_cons in Hin as [[=]|Hin]. apply H6. by right.
Qed.

Lemma net_closed i : net_inv s (HClosing i :: T) ->
  net_inv {| nt_path := nt_path s; nt_live := drop_listener i (nt_live s); nt_serving := nt_serving s; nt_next := nt_next s; nt_failed := nt_failed s |} T.
Proof.
  intros [H1 H2 H3 H4 H5 H6]. cbn in *. apply NoDup_cons in H2 as [Hi Hd]. constructor; cbn; [|done|done| | |].
  - intros j [Hj|Hj]; apply H1; [by left|right; by right].
  - intros j Hj. apply elem_drop in Hj as [Hj Hne]. apply H4 in Hj. by apply elem_of_cons in Hj as [->|Hj].
  - intros Hf j Hj. apply H5; [done|]. by destruct Hj; [left|right]; right.
  - intros Hin. apply H6. by right.
Qed.
End Steps.

Notation wps := (wp sock_exec net_inv).

Lemma wp_sock {A B} (o : SockOp B) (k : B -> prog SockOp A) own Q :
  (forall luck s rest, net_inv s (own ++ rest) -> exists own',
     net_inv (fst (sock_exec luck B o s)) (own' ++ rest) /\ wps (k (snd (sock_exec luck B o s))) own' Q) ->
  wps (pbind (act o) k) own Q.
Proof. done. Qed.

(** Binding leaves a hold on the listener exactly when it succeeds. *)
Definition bind_post (r : result BindError nat) (own : list Hold) : Prop :=
  match r with Ok i => own = [HServing i] | Err _ => own = [] end.

Lemma wp_bind_path own : own = [] \/ own = [HFailed] -> wps (act BindPath) own bind_post.
Proof.
  intros Ho luck s rest Hi. assert (Hr : net_inv s rest).
  { destruct Ho as [-> | ->]; [done|]. by apply net_forget in Hi. }
  cbn. destruct (nt_path s) eqn:Hp; [by exists []|]. exists [HServing (nt_next s)]. split; [by apply inv_bound|done].
Qed.

Lemma wp_bind_socket : wps bind [] bind_post.
Proof.
  unfold bind. apply wp_sock. intros luck s rest Hi. exists []. split; [exact Hi|]. destruct (snd _) as [[]|e]; [|done].
  apply wp_sock. intros luck' s' rest' Hi'. exists []. split; [exact Hi'|]. destruct (snd _); [|apply wp_bind_path; by left].
  apply wp_sock. intros luck2 s2 rest2 Hi2. cbn [sock_exec fst snd].
  set (b := match nt_path s2 with Some i => bool_decide (i ∈ nt_live s2) | None => false end).
  pose proof (inv_connected s2 _ b Hi2) as Hc. destruct b; [by exists []|]. exists [HFailed]. split; [exact Hc|].
  apply wp_sock. intros luck3 s3 rest3 Hi3. cbn [sock_exec]. destruct (nt_path s3) eqn:Hp; cbn [fst snd].
  - exists [HFailed]. split; [by apply inv_no_file|]. apply wp_bind_path. by right.
  - exists []. split; [by apply net_forget|done].
Qed.

Lemma wp_daemon : wps daemon [] (fun _ own => own = []).
Proof.
  unfold daemon. apply wp_bind. eapply wp_mono; [apply wp_bind_socket|]. intros r own Hr. destruct r as [i|[|e]]; cbn in Hr; subst own; [|done..].
  apply wp_sock. intros luck s rest Hi. cbn [sock_exec fst snd]. destruct (lk_fate luck).
  2: { exists []. split; [by apply inv_killed|done]. }
  exists [HStopped i]. split; [by apply inv_stopped|].
  apply wp_sock. intros luck2 s2 rest2 Hi2. exists [HStopped i]. split; [exact Hi2|].
  apply wp_bind. apply (wp_mono _ _ _ _ (fun _ own => own = [HClosing i] \/ own = [HStopped i])).
  { destruct (snd _) as [[]|e]; [|by right]. apply wp_sock. intros luck3 s3 rest3 Hi3. cbn [sock_exec].
    destruct (nt_path s3) eqn:Hp; cbn [fst snd].
    - exists [HClosing i]. split; [by apply inv_removed|by left].
    - exists [HStopped i]. split; [exact Hi3|by right]. }
  intros [] own Ho. apply wp_sock. intros luck4 s4 rest4 Hi4. exists []. split; [|done]. apply net_closed.
  destruct Ho as [-> | ->]; [exact Hi4|by apply inv_left].
Qed.

Lemma net_inv_new : net_inv net_new [].
Proof.
  constructor; cbn; [set_solver|constructor|done|set_solver|set_solver|set_solver].
Qed.

Lemma sock_reached_inv w : sock_reached w -> pool_inv sock_exec net_inv (fun (_ : unit) _ own => own = []) w.
Proof.
  intros Hw. eapply (pool_inv_steps sock_exec sock_body sock_outside net_inv); [intros []; apply wp_daemon| |exact Hw].
  exists []. split; [apply net_inv_new|constructor].
Qed.

(** A daemon that starts while no listener is open gets the socket, whatever
    file is there. *)
Lemma bind_alone luck s : lk_dir luck = Ok tt -> (forall i, i ∉ nt_live s) ->
  let '(s', r) := run (sock_exec luck) bind s in
  exists i, r = Ok i /\ nt_path s' = Some i /\ nt_live s' = i :: nt_live s /\ nt_serving s' = i :: nt_serving s.
Proof.
  intros Hd Hl. unfold bind. cbn [pbind act run sock_exec]. rewrite Hd. cbn [pbind act run sock_exec].
  destruct (nt_path s) as [i|] eqn:Hp; cbn [pbind act run sock_exec nt_path].
  - rewrite Hp, bool_decide_false by done. cbn. by exists (nt_next s).
  - rewrite ?Hp. cbn. by exists (nt_next s).
Qed.

Lemma concat_nil_all {A} (l : list (list A)) : Forall (fun x => x = []) l -> concat l = [].
Proof. induction 1 as [|x l -> _ IH]; [done|exact IH]. Qed.

Lemma serving_nodup s T : net_inv s T -> NoDup (nt_serving s).
Proof.
  intros Hi. rewrite (ni_serving _ _ Hi). pose proof (ni_nodup _ _ Hi) as Hn. clear Hi.
  induction T as [|h T IH]; [by constructor|]. destruct h as [i|i|i|]; cbn in *; try apply NoDup_cons in Hn as [Hh Hn]; try by apply IH.
  constructor; [|by apply IH]. intros Hin. by apply Hh, serves_held.
Qed.

Lemma serving_path s T i : net_inv s T -> nt_failed s = false -> i ∈ nt_serving s -> nt_path s = Some i.
Proof.
  intros Hi Hf His. rewrite (ni_serving _ _ Hi) in His. apply list_elem_of_omap in His as (h & Hh & Hs).
  apply (ni_path _ _ Hi Hf). left. destruct h; cbn in Hs; by simplify_eq.
Qed.

(** A list without duplicates whose elements are one and the same. *)
Lemma nodup_single {A} (l : list A) (p : option A) : NoDup l -> (forall i, i ∈ l -> p = Some i) -> (length l <= 1)%nat.
Proof.
  intros Hn Hp. destruct l as [|i [|j l]]; cbn; [lia|lia|]. exfalso. apply NoDup_cons in Hn as [Hne _]. apply Hne.
  assert (p = Some i) as -> by (apply Hp; set_solver). assert (Some i = Some j) as [= ->] by (apply Hp; set_solver). set_solver.
Qed.

(** Daemons that have all ended hold nothing. *)
Lemma quiet_holds ts owns :
  Forall2 (fun t own => wps (tk_prog t) own (fun _ own => own = [])) ts owns ->
  (forall t : @Task SockOp unit DaemonEnd, t ∈ ts -> exists a, tk_prog t = Ret a) -> concat owns = [].
Proof.
  induction 1 as [|t own ts owns Ht _ IH]; intros Hq; [done|]. destruct (Hq t) as [a Ha]; [by left|]. rewrite Ha in Ht. cbn in Ht.
  subst own. cbn. apply IH. intros t' Ht'. apply Hq. by right.
Qed.

(** C40: In every interleaving of daemons that start, serve, stop and are
    killed, as long as no starting daemon has failed to connect to the socket
    it found, at most one daemon serves and the socket file leads to it; and
    whatever happened before, once no daemon is under way a new one gets the
    socket, whether the file is gone or stale. *)
Theorem one_daemon_serves (w : Net * list (@Task SockOp unit DaemonEnd)) :
  sock_reached w ->
  (nt_failed (fst w) = false -> (length (nt_serving (fst w)) <= 1)%nat /\ forall i, i ∈ nt_serving (fst w) -> nt_path (fst w) = Some i)
  /\ (forall luck, quiet w -> lk_dir luck = Ok tt ->
        exists i, snd (run (sock_exec luck) bind (fst w)) = Ok i /\ nt_path (fst (run (sock_exec luck) bind (fst w))) = Some i
                  /\ nt_serving (fst (run (sock_exec luck) bind (fst w))) = [i]).
Proof.
  intros Hw. destruct (sock_reached_inv w Hw) as (owns & Hi & Hts). split.
  - intros Hf. split; [|by intros i; apply (serving_path _ _ _ Hi)].
    apply (nodup_single _ (nt_path (fst w))); [by eapply serving_nodup|]. by intros i; apply (serving_path _ _ _ Hi).
  - intros luck Hq Hd. rewrite (quiet_holds _ _ Hts Hq) in Hi.
    pose proof (bind_alone luck (fst w) Hd) as Hb. destruct (run (sock_exec luck) bind (fst w)) as [s' r].
    destruct Hb as (i & -> & Hp & _ & Hs); [intros i Hl; apply (ni_live _ _ Hi) in Hl; by apply elem_of_nil in Hl|].
    exists i. split_and!; [done|done|]. cbn. rewrite Hs. pose proof (ni_serving _ _ Hi) as He. cbn in He.
    apply Permutation_nil in He || (symmetry in He; apply Permutation_nil in He). by rewrite He.
Qed.

(** ** Examples: a daemon that finds another, and two ways to get two *)
Module ListenerDemo.
Definition world := (Net * list (@Task SockOp unit DaemonEnd))%type.
Definition lucky : Luck := {| lk_dir := Ok tt; lk_fate := Stopped |}.
Definition unlucky : Luck := {| lk_dir := Ok tt; lk_fate := Killed |}.
Definition start (w : world) : world := (fst w, snd w ++ [{| tk_call := tt; tk_prog := sock_body tt |}]).
Fixpoint steps (luck : Luck) (n i : nat) (w : world) : world :=
  match n with O => w | S n => steps luck n i (advance sock_exec luck i w) end.

Lemma sock_reached_start w : sock_reached w -> sock_reached (start w).
Proof. intros Hw. eapply rtc_r; [exact Hw|]. destruct w as [s ts]. apply PCall. Qed.
Lemma sock_reached_steps luck n i w : sock_reached w -> sock_reached (steps luck n i w).
Proof.
  revert w. induction n as [|n IH]; intros w Hw; [done|]. apply IH. unfold sock_reached, pool_steps in *.
  etrans; [exact Hw|]. apply advance_steps.
Qed.

Ltac reach := repeat first [apply sock_reached_steps | apply sock_reached_start]; apply rtc_refl.

(** One serves, and one that starts beside it leaves. *)
Definition served : world := steps lucky 4 1 (start (steps lucky 3 0 (start (net_new, [])))).

Lemma one_daemon_serves_witness :
  sock_reached served /\ nt_failed (fst served) = false /\ nt_serving (fst served) = [0%nat] /\ nt_path (fst served) = Some 0%nat
  /\ map tk_prog (snd served) !! 1%nat = Some (Ret LostRace).
Proof.
  assert (sock_reached served) as Hr by reach.
  split_and!; [exact Hr|by vm_compute|by vm_compute| |by vm_compute].
  destruct (one_daemon_serves served Hr) as [H _]. apply H; [by vm_compute|]. vm_compute. by left.
Defined.

(** A stale file: two daemons fail to connect to it, and the second removes
    the socket that the first has just bound. *)
Definition crashed : world := steps unlucky 4 0 (start (net_new, [])).
Definition both : world := steps lucky 2 2 (steps lucky 2 1 (steps lucky 3 2 (steps lucky 3 1 (start (start crashed))))).

Example stale_file_lets_two_serve :
  sock_reached both /\ nt_serving (fst both) = [2; 1]%nat /\ nt_path (fst both) = Some 2%nat.
Proof. split; [reach|by vm_compute]. Qed.

(** Nobody is killed: a daemon that sees the file of one that is stopping
    removes the socket of a third. *)
Definition stopping : world := steps lucky 2 0 (steps lucky 3 0 (start (net_new, []))).
Definition overtaken : world :=
  steps lucky 2 1 (steps lucky 3 2 (start (steps lucky 1 1 (steps lucky 2 0 (steps lucky 2 1 (start stopping)))))).

Example stopping_daemon_lets_two_serve :
  sock_reached overtaken /\ nt_serving (fst overtaken) = [2; 1]%nat /\ nt_path (fst overtaken) = Some 2%nat.
Proof. split; [reach|by vm_compute]. Qed.
End ListenerDemo.
