(* ===== verification/Server.v ===== *)
(** * The daemon's run ([rdpilot-daemon/src]: [run] of [server.rs], the
      watchers and the signal of [lifecycle.rs], the deadline of [seams.rs])

    Three tasks of the daemon run side by side, with every request between
    their operations: [run] itself, the idle reaper and the empty watcher.  A
    task is a program ([Prog.v]) from one label to the next: a round of a loop
    ends with the label of the next round, so no loop needs fuel.  An operation
    happens when it can: a tick or a sleep when its time has come, a join when
    the task has ended ([does]).  Requests change the registry and what its
    entries share in any way.

    The socket is that of Listener.v; the registry and its operations are those
    of Registry.v, recordings those of RecordService.v and Store.v, connections
    those of IpcServer.v.  The environment of the process is an argument. *)
From stdpp Require Import functions.
From S2P Require Import Prelude Events Control Records Registry Prog Listener.
Open Scope Z_scope.
Local Open Scope prog_scope.

(** ** The connect deadline *)

Definition DEFAULT_CONNECT_DEADLINE : Z := seconds 60.
Definition connect_deadline (value : option text) : Z :=
  match and_then value (parse_unsigned (Z.to_N u64_max)) with
  | Some ms => if (0 <? ms)%N then Z.of_N ms * 1000000 else DEFAULT_CONNECT_DEADLINE
  | None => DEFAULT_CONNECT_DEADLINE
  end.

(** [DeadlineConnector::connect] of what the timeout gave; [shown] is the
    deadline as [Debug] shows it. *)
Definition deadline_connect {A} (shown : text) (timed : option (result DaemonError A)) : result DaemonError A :=
  match timed with
  | Some connected => connected
  | None => Err (ConnectError (txt "connect timed out after " ++ shown))
  end.

(** ** The configuration of a run *)

Definition TEST_CONNECTOR_ENV : text := txt "RDPILOT_DAEMON_TEST_CONNECTOR".
Definition TEST_SLOW_MS_ENV : text := txt "RDPILOT_DAEMON_TEST_SLOW_MS".
Definition TEST_BOOTSTRAP_DELAY_MS_ENV : text := txt "RDPILOT_DAEMON_TEST_BOOTSTRAP_DELAY_MS".
Definition TEST_FRAMES_ENV : text := txt "RDPILOT_DAEMON_TEST_FRAMES".
Definition TEST_CUA_ENV : text := txt "RDPILOT_DAEMON_TEST_CUA".
Definition TEST_INPUT_LOG_ENV : text := txt "RDPILOT_DAEMON_TEST_INPUT_LOG".
Definition TEST_CONNECT_GATE_PATH_ENV : text := txt "RDPILOT_DAEMON_TEST_CONNECT_GATE_PATH".
Definition SINK_PATH_ENV : text := txt "RDPILOT_DAEMON_SINK_PATH".
Definition CONNECT_DEADLINE_ENV : text := txt "RDPILOT_DAEMON_CONNECT_DEADLINE_MS".
Definition EPOCH_CONFIRM_ENV : text := txt "RDPILOT_DAEMON_EPOCH_CONFIRM_MS".
Definition ENV_IDLE_TIMEOUT_MS : text := txt "RDPILOT_DAEMON_IDLE_TIMEOUT_MS".
Definition ENV_EMPTY_GRACE_MS : text := txt "RDPILOT_DAEMON_EMPTY_GRACE_MS".
Definition ENV_REAP_INTERVAL_MS : text := txt "RDPILOT_DAEMON_REAP_INTERVAL_MS".
Definition ENV_RETENTION_MS : text := txt "RDPILOT_DAEMON_RETENTION_MS".

Record RunConfig := { rn_sink_path_override : option text; rn_lifecycle : LifecycleConfig }.

(** What [run] hands to its registry: the connector with its deadline, the
    bundles, and how long an epoch change is waited for. *)
Record FakeTestConnector := {
  fk_slow_ms : Z; fk_bootstrap_delay_ms : Z; fk_frames : bool; fk_cua : bool;
  fk_input_log : option text; fk_connect_gate : option text }.
Inductive Connector := FakeConnector (c : FakeTestConnector) | RealConnector.
Record Assembly := { as_sink : text; as_connector : Connector; as_deadline : Z; as_epoch_confirm_wait : Z }.

Section Environment.
Variable env : text -> option text.

(** [RunConfig::from_env] *)
Definition run_config_from_env : RunConfig :=
  {| rn_sink_path_override := env SINK_PATH_ENV;
     rn_lifecycle := lifecycle_from_env (env ENV_IDLE_TIMEOUT_MS) (env ENV_EMPTY_GRACE_MS) (env ENV_REAP_INTERVAL_MS) (env ENV_RETENTION_MS) |}.

Definition is_set (name : text) : bool := match env name with Some _ => true | None => false end.
Definition env_count (name : text) : Z :=
  match and_then (env name) (parse_unsigned (Z.to_N u64_max)) with Some n => Z.of_N n | None => 0 end.

Definition connector_of_env : Connector :=
  if is_set TEST_CONNECTOR_ENV then
    FakeConnector {| fk_slow_ms := env_count TEST_SLOW_MS_ENV; fk_bootstrap_delay_ms := env_count TEST_BOOTSTRAP_DELAY_MS_ENV;
                     fk_frames := is_set TEST_FRAMES_ENV; fk_cua := is_set TEST_CUA_ENV;
                     fk_input_log := env TEST_INPUT_LOG_ENV; fk_connect_gate := env TEST_CONNECT_GATE_PATH_ENV |}
  else RealConnector.

Definition assembly (sink : text) : Assembly :=
  {| as_sink := sink; as_connector := connector_of_env; as_deadline := connect_deadline (env CONNECT_DEADLINE_ENV);
     as_epoch_confirm_wait := epoch_confirm_wait (env EPOCH_CONFIRM_ENV) |}.
End Environment.

(** A deadline and a wait are never zero, whatever the environment says. *)
Lemma connect_deadline_positive value : 0 < connect_deadline value.
Proof.
  unfold connect_deadline. destruct (and_then value _) as [ms|]; [|done].
  destruct (N.ltb_spec 0 ms); [lia|done].
Qed.

(** ** What the tasks do *)

Inductive Who := Main | Reaper | Watcher.
#[global] Instance Who_eq_dec : EqDecision Who.
Proof. solve_decision. Defined.

(** What ends the wait of a watcher and of the accept loop. *)
Inductive TickEnd := Ticked | TickShutdown.
Inductive Accepted := Connection (stream : result text unit) | AcceptShutdown.

Inductive SrvOp : Type -> Type :=
| BindSocket : SrvOp (result BindError unit)
| DefaultSinkPath : SrvOp (option text)
| Assemble (a : Assembly) : SrvOp unit
| StartRecordings : SrvOp unit
| ScanOrphans (path : text) : SrvOp (list ReconciliationRecord)
| SeedOrphan (id host connected_since : text) : SrvOp unit
| PurgeSeeded (ids : list text) : SrvOp unit
| Spawn (w : Who) : SrvOp unit
| Accept : SrvOp Accepted
| ServeConnection : SrvOp unit
| Join (w : Who) : SrvOp unit
| ExpireRetained (retention : Z) (cause : Removal) : SrvOp unit
| EndAllLeases (reason : EndReason) : SrvOp unit
| ShutdownRecordings : SrvOp unit
| SocketPathOf : SrvOp (result text unit)
| RemoveSocket : SrvOp (result text unit)
| Tick : SrvOp TickEnd
| LiveIdle : SrvOp (list (text * Z))
| CloseIdle (id : text) : SrvOp (result DaemonError unit)
| HoldsActive : SrvOp bool
| Now : SrvOp Z
| SleepUntil (deadline : Z) : SrvOp unit
| Fire : SrvOp unit
| LogLine (line : text) : SrvOp unit.

(** Where a task goes on, and how it ends. *)
Inductive Label := Setup | AcceptLoop | Teardown | ReapLoop | WatchLoop.
Definition Ending : Type := result DaemonError unit.
Definition Flow : Type := Label + Ending.
Definition Proc : Type := prog SrvOp Flow.

Definition goto (l : Label) : Proc := Ret (inl l).
Definition finish (r : Ending) : Proc := Ret (inr r).

Section Run.
Variables (env : text -> option text) (config : RunConfig).
(** [Debug] of a malformed id. *)
Variable debug_text : text -> text.

(** [seed_into] of [reconcile.rs], with the ids seeded so far. *)
Fixpoint seed_orphans (records : list ReconciliationRecord) (seeded : list text) : prog SrvOp unit :=
  match records with
  | [] => act (PurgeSeeded seeded)
  | record :: records =>
      match session_id (rr_id record) with
      | Ok id =>
          do! act (SeedOrphan id (rr_host record) (rr_connected_since record)) in
          seed_orphans records (seeded ++ [id])
      | Err err =>
          do! act (LogLine (txt "rdpilot-daemon: skipping malformed reconciliation record id " ++ debug_text (rr_id record) ++ txt ": " ++ err)) in
          seed_orphans records seeded
      end
  end.

(** [run] up to its accept loop. *)
Definition setup : Proc :=
  let! listener := act BindSocket in
  match listener with
  | Err AddrInUse =>
      do! act (LogLine (txt "rdpilot-daemon: another daemon is already listening -- exiting")) in
      finish (Ok tt)
  | Err (BindIo e) => finish (Err (IoError e))
  | Ok _ =>
      let! sink := (match rn_sink_path_override config with Some path => Ret (Some path) | None => act DefaultSinkPath end) in
      match sink with
      | None => finish (Err (IoError (txt "could not resolve the platform cache directory for reconciliation state")))
      | Some path =>
          do! act (Assemble (assembly env path)) in
          do! act StartRecordings in
          let! orphans := act (ScanOrphans path) in
          do! seed_orphans orphans [] in
          do! act (Spawn Reaper) in
          do! act (Spawn Watcher) in
          goto AcceptLoop
      end
  end.

(** One round of its accept loop. *)
Definition accept_round : Proc :=
  let! accepted := act Accept in
  match accepted with
  | Connection (Ok _) => do! act ServeConnection in goto AcceptLoop
  | Connection (Err err) => do! act (LogLine (txt "rdpilot-daemon: rejected/failed connection: " ++ err)) in goto AcceptLoop
  | AcceptShutdown => goto Teardown
  end.

(** What follows the loop. *)
Definition teardown : Proc :=
  do! act (Join Reaper) in
  do! act (Join Watcher) in
  do! act (ExpireRetained 0 DaemonExit) in
  do! act (EndAllLeases DaemonStopped) in
  do! act ShutdownRecordings in
  let! path := act SocketPathOf in
  do! (match path with Ok _ => let! _ := act RemoveSocket in Ret tt | Err _ => Ret tt end) in
  finish (Ok tt).

(** One round of [idle_reaper]. *)
Fixpoint close_stale (ids : list text) : Proc :=
  match ids with
  | [] => goto ReapLoop
  | id :: ids => let! _ := act (CloseIdle id) in close_stale ids
  end.

Definition reap_round : Proc :=
  let! tick := act Tick in
  match tick with
  | TickShutdown => finish (Ok tt)
  | Ticked =>
      do! act (ExpireRetained (lc_retention (rn_lifecycle config)) Retention) in
      let! idle := act LiveIdle in
      close_stale (map fst (List.filter (fun p => lc_idle_timeout (rn_lifecycle config) <=? snd p) idle))
  end.

(** One round of [empty_watcher]; [sleep] is until a time counted from its
    call. *)
Definition watch_round : Proc :=
  let! tick := act Tick in
  match tick with
  | TickShutdown => finish (Ok tt)
  | Ticked =>
      let! active := act HoldsActive in
      if active : bool then goto WatchLoop
      else
        let! now := act Now in
        do! act (SleepUntil (now + lc_empty_grace (rn_lifecycle config))) in
        let! active := act HoldsActive in
        if active : bool then goto WatchLoop
        else do! act Fire in finish (Ok tt)
  end.

Definition code (l : Label) : Proc :=
  match l with
  | Setup => setup
  | AcceptLoop => accept_round
  | Teardown => teardown
  | ReapLoop => reap_round
  | WatchLoop => watch_round
  end.
End Run.

(** ** The tasks together *)

(** What has been done, as far as its order matters.  A look of the watcher
    has its time and what it saw. *)
Inductive Mark :=
| MkBound | MkLost | MkFailed | MkAssembled | MkRecovered
| MkScanned (ids : list text) | MkSeeded (id : text) | MkPurged (ids : list text)
| MkSpawned (who : Who) | MkServed | MkStopping | MkJoined (who : Who)
| MkExpired | MkLeasesEnded | MkRecordingsEnded | MkOver
| MkLook (at_ : Z) (active : bool) | MkFired.

#[global] Instance Mark_eq_dec : EqDecision Mark.
Proof. solve_decision. Defined.

Definition seedable (records : list ReconciliationRecord) : list text :=
  omap (fun r => match session_id (rr_id r) with Ok id => Some id | Err _ => None end) records.

Definition mark_of (B : Type) (o : SrvOp B) : B -> Z -> option Mark :=
  match o in SrvOp B return B -> Z -> option Mark with
  | BindSocket => fun r _ => Some (match r with Ok _ => MkBound | Err AddrInUse => MkLost | Err (BindIo _) => MkFailed end)
  | DefaultSinkPath => fun r _ => match r with Some _ => None | None => Some MkFailed end
  | Assemble _ => fun _ _ => Some MkAssembled
  | StartRecordings => fun _ _ => Some MkRecovered
  | ScanOrphans _ => fun records _ => Some (MkScanned (seedable records))
  | SeedOrphan id _ _ => fun _ _ => Some (MkSeeded id)
  | PurgeSeeded ids => fun _ _ => Some (MkPurged ids)
  | Spawn who => fun _ _ => Some (MkSpawned who)
  | Accept => fun a _ => match a with AcceptShutdown => Some MkStopping | Connection _ => None end
  | ServeConnection => fun _ _ => Some MkServed
  | Join who => fun _ _ => Some (MkJoined who)
  | ExpireRetained _ cause => fun _ _ => match cause with DaemonExit => Some MkExpired | Retention => None end
  | EndAllLeases _ => fun _ _ => Some MkLeasesEnded
  | ShutdownRecordings => fun _ _ => Some MkRecordingsEnded
  | SocketPathOf => fun r _ => match r with Ok _ => None | Err _ => Some MkOver end
  | RemoveSocket => fun _ _ => Some MkOver
  | HoldsActive => fun active now => Some (MkLook now active)
  | Fire => fun _ _ => Some MkFired
  | Tick | LiveIdle | CloseIdle _ | Now | SleepUntil _ | LogLine _ => fun _ _ => None
  end.

Section Together.
Context {S : Type} `{EventSink S}.
Variables (env : text -> option text) (config : RunConfig) (debug_text : text -> text).
Notation code := (code env config debug_text).
Notation grace := (lc_empty_grace (rn_lifecycle config)).

(** The shared state: the time, the registry with what its entries share, the
    shutdown signal, what was done, and the tasks. *)
Record World := {
  w_now : Z; w_registry : Registry; w_shared : Z -> Shared S; w_fired : bool;
  w_trace : list Mark; w_procs : Who -> option Proc }.

Definition world_new (now : Z) (sh : Z -> Shared S) : World :=
  {| w_now := now; w_registry := registry_new; w_shared := sh; w_fired := false; w_trace := [];
     w_procs := fun who => match who with Main => Some (code Setup) | Reaper | Watcher => None end |}.

Definition entry_of (who : Who) : Label := match who with Main => Setup | Reaper => ReapLoop | Watcher => WatchLoop end.
Definition ended (p : option Proc) : Prop := exists r, p = Some (finish r).

(** When an operation can be done, and with what answer. *)
Definition can (B : Type) (o : SrvOp B) (w : World) : B -> Prop :=
  match o in SrvOp B return B -> Prop with
  | Accept => fun a => a = AcceptShutdown -> w_fired w = true
  | Join who => fun _ => ended (w_procs w who)
  | Tick => fun t => t = TickShutdown -> w_fired w = true
  | LiveIdle => fun idle => idle = live_idle_durations (w_shared w) (w_now w) (w_registry w)
  | HoldsActive => fun active => active = holds_active (w_shared w) (w_registry w)
  | Now => fun now => now = w_now w
  | SleepUntil deadline => fun _ => deadline <= w_now w
  | _ => fun _ => True
  end.

Definition registry_after (B : Type) (o : SrvOp B) (w : World) : Registry :=
  match o with
  | SeedOrphan id host since => seed_orphan (w_now w) id host since (w_registry w)
  | ExpireRetained retention _ => fst (expire_take (w_shared w) (w_now w) retention (w_registry w))
  | _ => w_registry w
  end.
Definition procs_after (B : Type) (o : SrvOp B) (ps : Who -> option Proc) : Who -> option Proc :=
  match o with
  | Spawn who => match ps who with None => <[who := Some (code (entry_of who))]> ps | Some _ => ps end
  | _ => ps
  end.

(** What it does.  The closes that follow a sweep and those of the reaper are
    RegistrySystem.v's; here they are changes from outside. *)
Definition effect (B : Type) (o : SrvOp B) (b : B) (w : World) : World :=
  {| w_now := w_now w; w_registry := registry_after B o w; w_shared := w_shared w;
     w_fired := match o with Fire => true | _ => w_fired w end;
     w_trace := w_trace w ++ option_list (mark_of B o b (w_now w));
     w_procs := procs_after B o (w_procs w) |}.

Definition with_proc (who : Who) (p : Proc) (w : World) : World :=
  {| w_now := w_now w; w_registry := w_registry w; w_shared := w_shared w; w_fired := w_fired w; w_trace := w_trace w;
     w_procs := <[who := Some p]> (w_procs w) |}.

Inductive srv_step : World -> World -> Prop :=
| SvOp who B (o : SrvOp B) k b w :
    w_procs w who = Some (Act o k) -> can B o w b -> srv_step w (with_proc who (k b) (effect B o b w))
| SvGoto who l w : w_procs w who = Some (goto l) -> srv_step w (with_proc who (code l) w)
| SvOutside now registry sh w : w_now w <= now ->
    srv_step w {| w_now := now; w_registry := registry; w_shared := sh; w_fired := w_fired w; w_trace := w_trace w; w_procs := w_procs w |}.

Definition srv_reached (w : World) : Prop := exists now sh, rtc srv_step (world_new now sh) w.

(** ** The order of a run *)

(** Where [run] is: it lost the socket, failed, or bound it, built what it
    serves with, ended the recordings of its predecessors, seeded their
    sessions ([left_] are still to be seeded), started the watchers, serves,
    stops, waits for the watchers, and cleans up. *)
Inductive MainStage :=
| MsStart | MsLost | MsFailed | MsBound | MsAssembled | MsRecovered
| MsSeeding (done_ left_ : list text) | MsSeeded | MsReaping | MsServing
| MsStopping | MsAlone (joined : list Who) | MsExpired | MsFreed | MsRecorded | MsOver.

Definition main_next (m : MainStage) (k : Mark) : option MainStage :=
  match m, k with
  | MsStart, MkLost => Some MsLost
  | MsStart, MkFailed | MsBound, MkFailed => Some MsFailed
  | MsStart, MkBound => Some MsBound
  | MsBound, MkAssembled => Some MsAssembled
  | MsAssembled, MkRecovered => Some MsRecovered
  | MsRecovered, MkScanned ids => Some (MsSeeding [] ids)
  | MsSeeding done_ (id :: ids), MkSeeded id' => if decide (id = id') then Some (MsSeeding (done_ ++ [id]) ids) else None
  | MsSeeding done_ [], MkPurged ids => if decide (ids = done_) then Some MsSeeded else None
  | MsSeeded, MkSpawned Reaper => Some MsReaping
  | MsReaping, MkSpawned Watcher => Some MsServing
  | MsServing, MkServed => Some MsServing
  | MsServing, MkStopping => Some MsStopping
  | MsStopping, MkJoined Reaper => Some (MsAlone [Reaper])
  | MsAlone [Reaper], MkJoined Watcher => Some (MsAlone [Reaper; Watcher])
  | MsAlone [Reaper; Watcher], MkExpired => Some MsExpired
  | MsExpired, MkLeasesEnded => Some MsFreed
  | MsFreed, MkRecordingsEnded => Some MsRecorded
  | MsRecorded, MkOver => Some MsOver
  | _, _ => None
  end.

(** What the watcher knows: since when it has seen no active session, that two
    looks at least the grace apart saw none, and that it fired. *)
Inductive WatchStage := WsIdle | WsQuiet (since : Z) | WsTwice (since again : Z) | WsFired.

Definition watch_next (s : WatchStage) (k : Mark) : option WatchStage :=
  match s, k with
  | (WsIdle | WsQuiet _), MkLook _ true => Some WsIdle
  | WsIdle, MkLook now false => Some (WsQuiet now)
  | WsQuiet since, MkLook now false => if since + grace <=? now then Some (WsTwice since now) else None
  | WsTwice _ _, MkFired => Some WsFired
  | _, _ => None
  end.

Definition is_watch (k : Mark) : bool := match k with MkLook _ _ | MkFired => true | _ => false end.
(** The watcher is there once [run] serves. *)
Definition spawned (who : Who) (m : MainStage) : bool :=
  match m, who with
  | (MsServing | MsStopping | MsAlone _ | MsExpired | MsFreed | MsRecorded | MsOver), _ => true
  | MsReaping, Reaper => true
  | _, Main => true
  | _, _ => false
  end.
Definition has_joined (who : Who) (m : MainStage) : bool :=
  match m with
  | MsAlone joined => bool_decide (who ∈ joined)
  | MsExpired | MsFreed | MsRecorded | MsOver => negb (bool_decide (who = Main))
  | _ => false
  end.

Definition stage_next (st : MainStage * WatchStage) (k : Mark) : option (MainStage * WatchStage) :=
  let '(m, s) := st in
  if is_watch k then
    if spawned Watcher m then option_map (fun s => (m, s)) (watch_next s k) else None
  else
    match k, s with
    | MkStopping, (WsIdle | WsQuiet _ | WsTwice _ _) => None
    | _, _ => option_map (fun m => (m, s)) (main_next m k)
    end.
Definition stage (trace : list Mark) : option (MainStage * WatchStage) :=
  foldl (fun st k => and_then st (fun st => stage_next st k)) (Some (MsStart, WsIdle)) trace.

(** A task from a stage of its own, whatever it is answered and whenever. *)
Definition true_at (B : Type) (o : SrvOp B) : B -> Z -> Prop :=
  match o in SrvOp B return B -> Z -> Prop with
  | Now => fun now t => now = t
  | SleepUntil deadline => fun _ t => deadline <= t
  | _ => fun _ _ => True
  end.
Definition advance_by {G} (next : G -> Mark -> option G) (g : G) (k : option Mark) : option G :=
  match k with None => Some g | Some k => next g k end.
Definition uses (who : Who) (B : Type) (o : SrvOp B) : bool :=
  match o, who with
  | (Tick | ExpireRetained _ Retention | LiveIdle | CloseIdle _), Reaper => true
  | (Tick | HoldsActive | Now | SleepUntil _ | Fire), Watcher => true
  | (Tick | LiveIdle | CloseIdle _ | HoldsActive | Now | SleepUntil _ | Fire | ExpireRetained _ Retention | Join Main), Main => false
  | _, Main => true
  | _, _ => false
  end.
Fixpoint heeds {G} (who : Who) (next : G -> Mark -> option G) (Q : G -> Flow -> Prop) (p : Proc) (g : G) (last : Z) : Prop :=
  match p with
  | Ret r => Q g r
  | Act o k =>
      uses who _ o = true /\
      forall b t, last <= t -> true_at _ o b t ->
      match advance_by next g (mark_of _ o b t) with Some g => heeds who next Q (k b) g t | None => False end
  end.

(** Where each task may be at the end of a program. *)
Definition main_at (m : MainStage) (r : Flow) : Prop :=
  match r with
  | inl AcceptLoop => m = MsServing
  | inl Teardown => m = MsStopping
  | inl _ => False
  | inr (Ok _) => m = MsLost \/ m = MsOver
  | inr (Err _) => m = MsFailed
  end.
Definition reap_at (_ : unit) (r : Flow) : Prop := r = inl ReapLoop \/ r = inr (Ok tt).
Definition watch_at (s : WatchStage) (r : Flow) : Prop :=
  (r = inl WatchLoop /\ s = WsIdle) \/ r = inr (Ok tt).
Definition no_mark (_ : unit) (_ : Mark) : option unit := None.

(** ** The tasks keep the order *)

Lemma heeds_later {G} who (next : G -> Mark -> option G) Q p g last t :
  heeds who next Q p g last -> last <= t -> heeds who next Q p g t.
Proof. destruct p as [r|B o k]; cbn; [done|]. intros [Hu Hp] Ht. split; [done|]. intros b t' Ht'. apply Hp. lia. Qed.

Lemma seed_orphans_heeds records (f : unit -> Proc) done_ last :
  (forall t, last <= t -> heeds Main main_next main_at (f tt) MsSeeded t) ->
  heeds Main main_next main_at (pbind (seed_orphans debug_text records done_) f) (MsSeeding done_ (seedable records)) last.
Proof.
  revert done_ last. induction records as [|r records IH]; intros done_ last Hf; cbn.
  { split; [done|]. intros [] t Ht _. rewrite decide_True by done. by apply Hf. }
  destruct (session_id (rr_id r)) as [id|err]; cbn; (split; [done|]); intros [] t Ht _.
  - rewrite decide_True by done. apply IH. intros t' Ht'. apply Hf. lia.
  - apply IH. intros t' Ht'. apply Hf. lia.
Qed.

(** One operation of a program. *)
Ltac heed_as b t := cbn; split; [done|let L := fresh "L" in let A := fresh "A" in intros b t L A; cbn in A].
Tactic Notation "heed" := let b := fresh "b" in let t := fresh "at" in heed_as b t.
Tactic Notation "heed" ident(b) := let t := fresh "at" in heed_as b t.
Tactic Notation "heed" ident(b) ident(t) := heed_as b t.

Lemma setup_heeds last : heeds Main main_next main_at (code Setup) MsStart last.
Proof.
  heed r. destruct r as [[]|[|e]]; cbn; [|heed; by left|done].
  assert (Hs : forall path last, heeds Main main_next main_at
    (do! act (Assemble (assembly env path)) in do! act StartRecordings in let! orphans := act (ScanOrphans path) in
     do! seed_orphans debug_text orphans [] in do! act (Spawn Reaper) in do! act (Spawn Watcher) in goto AcceptLoop) MsBound last).
  { intros path last'. do 3 heed. apply seed_orphans_heeds. intros t Ht. heed. by heed. }
  destruct (rn_sink_path_override config) as [path|]; cbn; [apply (Hs path)|]. heed r. destruct r as [path|]; [apply (Hs path)|done].
Qed.

Lemma accept_heeds last : heeds Main main_next main_at (code AcceptLoop) MsServing last.
Proof. heed r. destruct r as [[[]|err]|]; cbn; [by heed|by heed|done]. Qed.

Lemma teardown_ends last : heeds Main main_next (fun m r => m = MsOver /\ r = inr (Ok tt)) (code Teardown) MsStopping last.
Proof. do 5 heed. heed r. by destruct r as [[]|e]; cbn; [heed|]. Qed.

Lemma teardown_heeds last : heeds Main main_next main_at (code Teardown) MsStopping last.
Proof. do 5 heed. heed r. destruct r as [[]|e]; cbn; [heed|]; by right. Qed.

Lemma close_stale_heeds ids last : heeds Reaper no_mark reap_at (close_stale ids) tt last.
Proof. revert last. induction ids as [|id ids IH]; intros last; [by left|]. heed. apply IH. Qed.

Lemma reap_heeds last : heeds Reaper no_mark reap_at (code ReapLoop) tt last.
Proof. heed r. destruct r; cbn; [|by right]. do 2 heed. apply close_stale_heeds. Qed.

Lemma watch_heeds last : heeds Watcher watch_next watch_at (code WatchLoop) WsIdle last.
Proof.
  heed r. destruct r; cbn; [|by right]. heed r since. destruct r; cbn; [by left|].
  heed now. subst now. heed. heed r again. destruct r; cbn; [by left|].
  destruct (Z.leb_spec (since + grace) again); [|lia]. heed. by right.
Qed.

Lemma code_heeds_main l m last : main_at m (inl l) -> heeds Main main_next main_at (code l) m last.
Proof. destruct l; cbn; intros E; try done; subst m; [apply accept_heeds|apply teardown_heeds]. Qed.

(** ** The invariant *)

Definition task_ok (w : World) (m : MainStage) (s : WatchStage) (who : Who) : Prop :=
  match who, w_procs w who with
  | Main, Some p => heeds Main main_next main_at p m (w_now w)
  | Reaper, Some p => spawned Reaper m = true /\ heeds Reaper no_mark reap_at p tt (w_now w)
  | Watcher, Some p => spawned Watcher m = true /\ heeds Watcher watch_next watch_at p s (w_now w)
  | Main, None => False
  | Reaper, None => spawned Reaper m = false
  | Watcher, None => spawned Watcher m = false /\ s = WsIdle
  end.

Record srv_ok (w : World) (m : MainStage) (s : WatchStage) : Prop := {
  so_stage : stage (w_trace w) = Some (m, s);
  so_fired : w_fired w = true <-> s = WsFired;
  so_task : forall who, task_ok w m s who;
  so_joined : forall who, has_joined who m = true -> ended (w_procs w who) }.

Lemma stage_snoc trace k st : stage trace = Some st -> stage (trace ++ option_list k) = advance_by stage_next st k.
Proof.
  intros E. destruct k as [k|]; cbn; [|by rewrite app_nil_r]. unfold stage in *. by rewrite foldl_app, E.
Qed.

Lemma can_true B (o : SrvOp B) w b : can B o w b -> true_at B o b (w_now w).
Proof. by destruct o. Qed.

(** The marks of [run] move its own stage, and it stops once the signal was
    fired. *)
Lemma main_stage B (o : SrvOp B) w b m s m' :
  uses Main B o = true -> can B o w b -> (w_fired w = true <-> s = WsFired) ->
  advance_by main_next m (mark_of B o b (w_now w)) = Some m' ->
  advance_by stage_next (m, s) (mark_of B o b (w_now w)) = Some (m', s).
Proof.
  intros Hu Hc Hf Hm. destruct (mark_of B o b (w_now w)) as [k|] eqn:Ek; [|by injection Hm as ->].
  cbn in *. assert (Hk : is_watch k = false).
  { destruct o; cbn in Hu, Ek; try done; repeat (case_match; try done); by injection Ek as <-. }
  rewrite Hk. destruct (decide (k = MkStopping)) as [->|Hn].
  2: { destruct k, s; try done; by rewrite Hm. }
  assert (w_fired w = true) as Hw.
  { destruct o; cbn in Hu, Ek, Hc; try done; repeat (case_match; try done). by apply Hc. }
  apply Hf in Hw. subst s. by rewrite Hm.
Qed.

Lemma watch_stage B (o : SrvOp B) b t m s s' :
  uses Watcher B o = true -> spawned Watcher m = true ->
  advance_by watch_next s (mark_of B o b t) = Some s' ->
  advance_by stage_next (m, s) (mark_of B o b t) = Some (m, s').
Proof.
  intros Hu Hs Hw. destruct (mark_of B o b t) as [k|] eqn:Ek; [|by injection Hw as ->].
  cbn in *. assert (is_watch k = true) as ->.
  { destruct o; cbn in Hu, Ek; try done; repeat (case_match; try done); by injection Ek as <-. }
  by rewrite Hs, Hw.
Qed.

Definition is_fire (B : Type) (o : SrvOp B) : bool := match o with Fire => true | _ => false end.
Lemma watch_fires B (o : SrvOp B) b t s s' :
  uses Watcher B o = true -> advance_by watch_next s (mark_of B o b t) = Some s' ->
  (s' = WsFired <-> is_fire B o = true \/ s = WsFired).
Proof.
  intros Hu Hw. destruct o; cbn in *; try done; try (injection Hw as ->; naive_solver).
  - by repeat case_match.
  - by repeat case_match.
  - destruct s, b; cbn in Hw; try done; try (injection Hw as <-; naive_solver). case_match; [injection Hw as <-|]; naive_solver.
  - destruct s; cbn in Hw; try done. injection Hw as <-. naive_solver.
Qed.

(** The steps of [run], one by one. *)
Ltac main_cases m k Hm := destruct m, k; cbn in Hm; try discriminate Hm; repeat (case_match; try discriminate Hm); simplify_eq.

Lemma main_joins m k m' who : main_next m k = Some m' -> has_joined who m' = true -> has_joined who m = true \/ k = MkJoined who.
Proof.
  intros Hm. main_cases m k Hm; cbn; try done; destruct who; vm_compute; auto; discriminate.
Qed.

Lemma main_spawns m k m' who : main_next m k = Some m' -> spawned who m' = true -> who <> Main -> spawned who m = true \/ k = MkSpawned who.
Proof. intros Hm. main_cases m k Hm; destruct who; cbn; naive_solver. Qed.

Lemma main_keeps m k m' who : main_next m k = Some m' -> spawned who m = true -> spawned who m' = true.
Proof. intros Hm. main_cases m k Hm; destruct who; cbn; naive_solver. Qed.

Lemma main_spawned m who m' : main_next m (MkSpawned who) = Some m' -> spawned who m' = true.
Proof. intros Hm. destruct m, who; cbn in Hm; repeat (case_match; try discriminate Hm); by simplify_eq. Qed.

Lemma spawn_mark B (o : SrvOp B) b t who :
  mark_of B o b t = Some (MkSpawned who) -> forall ps, procs_after B o ps = procs_after unit (Spawn who) ps.
Proof. intros Hk. destruct o; cbn in Hk; repeat (case_match; try discriminate Hk); try discriminate Hk. by injection Hk as ->. Qed.

Lemma procs_after_spec B (o : SrvOp B) b t ps who :
  procs_after B o ps who =
  match ps who with
  | Some p => Some p
  | None => if decide (mark_of B o b t = Some (MkSpawned who)) then Some (code (entry_of who)) else None
  end.
Proof.
  assert (Ho : mark_of B o b t = Some (MkSpawned who) \/ procs_after B o ps who = ps who /\ (ps who = None -> mark_of B o b t <> Some (MkSpawned who))).
  { destruct o as [| | | | | | |x| | | |y c| | | | | | | | | | | |]; cbn; try (by right); try (right; split; [done|intros _; by repeat case_match]).
    destruct (decide (x = who)) as [->|Hn]; [by left|]. right. split; [|intros _; by intros [= ->]].
    destruct (ps x); [done|]. by rewrite fn_lookup_insert_ne. }
  destruct Ho as [Ho|[-> Ho]]; [|destruct (ps who); [done|]; by rewrite decide_False by auto].
  rewrite decide_True by done. rewrite (spawn_mark _ _ _ _ _ Ho). cbn.
  destruct (ps who) eqn:E; [done|]. by rewrite fn_lookup_insert.
Qed.

Lemma joined_can B (o : SrvOp B) b w who : mark_of B o b (w_now w) = Some (MkJoined who) -> can B o w b -> ended (w_procs w who).
Proof.
  intros Hk Hc. destruct o; cbn in Hk; try done; repeat (case_match; try done). injection Hk as ->. exact Hc.
Qed.

Lemma not_fire B (o : SrvOp B) who : uses who B o = true -> who <> Watcher -> is_fire B o = false.
Proof. by destruct o, who. Qed.
Lemma no_spawn B (o : SrvOp B) b t who who' : uses who B o = true -> who <> Main -> mark_of B o b t <> Some (MkSpawned who').
Proof. destruct o, who; cbn; try done; by destruct cause. Qed.

Lemma effect_fired B (o : SrvOp B) b w : w_fired (effect B o b w) = (is_fire B o || w_fired w).
Proof. by destruct o. Qed.

(** The program of a task after its operation, and those of the others. *)
Lemma procs_step who B (o : SrvOp B) b (k : B -> Proc) w who' :
  w_procs (with_proc who (k b) (effect B o b w)) who' =
  if decide (who = who') then Some (k b)
  else match w_procs w who' with
       | Some p => Some p
       | None => if decide (mark_of B o b (w_now w) = Some (MkSpawned who')) then Some (code (entry_of who')) else None
       end.
Proof.
  cbn. destruct (decide (who = who')) as [->|Hn]; [by rewrite fn_lookup_insert|].
  rewrite fn_lookup_insert_ne by done. apply procs_after_spec.
Qed.

Lemma ended_step who B (o : SrvOp B) b (k : B -> Proc) w who' :
  w_procs w who = Some (Act o k) -> ended (w_procs w who') ->
  ended (w_procs (with_proc who (k b) (effect B o b w)) who').
Proof.
  intros Hp [r Hr]. rewrite procs_step. destruct (decide (who = who')) as [->|Hn]; [by rewrite Hp in Hr|]. rewrite Hr. by exists r.
Qed.

Lemma main_op_ok B (o : SrvOp B) k b w m s :
  w_procs w Main = Some (Act o k) -> can B o w b -> srv_ok w m s ->
  exists m', srv_ok (with_proc Main (k b) (effect B o b w)) m' s.
Proof.
  intros Hp Hc [Hst Hf Ht Hj]. pose proof (Ht Main) as Hm. cbn in Hm. rewrite Hp in Hm. destruct Hm as [Hu Hm].
  specialize (Hm b (w_now w) (Z.le_refl _) (can_true _ _ _ _ Hc)).
  destruct (advance_by main_next m (mark_of B o b (w_now w))) as [m'|] eqn:Em; [|done]. exists m'.
  assert (Hsp : forall who, who <> Main -> spawned who m' = true -> spawned who m = true \/ mark_of B o b (w_now w) = Some (MkSpawned who)).
  { intros who Hn Hs. destruct (mark_of B o b (w_now w)) as [mk|]; cbn in Em; [|injection Em as ->; by left].
    destruct (main_spawns _ _ _ who Em Hs Hn) as [?| ->]; [by left|by right]. }
  assert (Hkeep : forall who, spawned who m = true -> spawned who m' = true).
  { intros who Hs. destruct (mark_of B o b (w_now w)) as [mk|]; cbn in Em; [by eapply main_keeps|by injection Em as <-]. }
  assert (Hnew : forall who, mark_of B o b (w_now w) = Some (MkSpawned who) -> spawned who m' = true).
  { intros who E. rewrite E in Em. by eapply main_spawned. }
  split.
  - cbn. rewrite (stage_snoc _ _ _ Hst). by apply main_stage.
  - cbn [w_fired with_proc]. by rewrite effect_fired, (not_fire _ _ Main Hu) by done.
  - intros who. specialize (Ht who). unfold task_ok in *. destruct who; rewrite procs_step.
    + by rewrite decide_True.
    + rewrite decide_False by done. destruct (w_procs w Reaper) as [p|]; [naive_solver|].
      case_decide as Ek; [split; [by apply Hnew|apply reap_heeds]|].
      apply not_true_iff_false. intros Hs. destruct (Hsp Reaper ltac:(done) Hs); [congruence|done].
    + rewrite decide_False by done. destruct (w_procs w Watcher) as [p|]; [naive_solver|]. destruct Ht as [Ht ->].
      case_decide as Ek; [split; [by apply Hnew|apply watch_heeds]|]. split; [|done].
      apply not_true_iff_false. intros Hs. destruct (Hsp Watcher ltac:(done) Hs); [congruence|done].
  - intros who Hw. apply (ended_step Main _ _ _ _ _ who Hp).
    destruct (mark_of B o b (w_now w)) as [mk|] eqn:Ek; cbn in Em; [|injection Em as ->; by apply Hj].
    destruct (main_joins _ _ _ who Em Hw) as [?| ->]; [by apply Hj|]. by eapply joined_can.
Qed.

Lemma reaper_op_ok B (o : SrvOp B) k b w m s :
  w_procs w Reaper = Some (Act o k) -> can B o w b -> srv_ok w m s ->
  srv_ok (with_proc Reaper (k b) (effect B o b w)) m s.
Proof.
  intros Hp Hc [Hst Hf Ht Hj]. pose proof (Ht Reaper) as Hr. unfold task_ok in Hr. rewrite Hp in Hr. destruct Hr as [Hs [Hu Hr]].
  specialize (Hr b (w_now w) (Z.le_refl _) (can_true _ _ _ _ Hc)).
  assert (Ek : mark_of B o b (w_now w) = None) by (by destruct (mark_of B o b (w_now w))).
  rewrite Ek in Hr. cbn in Hr. split.
  - cbn. by rewrite (stage_snoc _ _ _ Hst), Ek.
  - cbn [w_fired with_proc]. by rewrite effect_fired, (not_fire _ _ Reaper Hu) by done.
  - intros who. specialize (Ht who). unfold task_ok in *.
    destruct who; rewrite procs_step, ?Ek; [rewrite decide_False by done|by rewrite decide_True|rewrite decide_False by done].
    + by destruct (w_procs w Main).
    + destruct (w_procs w Watcher); [done|by rewrite decide_False].
  - intros who Hw. by apply (ended_step Reaper _ _ _ _ _ who Hp), Hj.
Qed.

Lemma watcher_op_ok B (o : SrvOp B) k b w m s :
  w_procs w Watcher = Some (Act o k) -> can B o w b -> srv_ok w m s ->
  exists s', srv_ok (with_proc Watcher (k b) (effect B o b w)) m s'.
Proof.
  intros Hp Hc [Hst Hf Ht Hj]. pose proof (Ht Watcher) as Hw. unfold task_ok in Hw. rewrite Hp in Hw. destruct Hw as [Hs [Hu Hw]].
  specialize (Hw b (w_now w) (Z.le_refl _) (can_true _ _ _ _ Hc)).
  destruct (advance_by watch_next s (mark_of B o b (w_now w))) as [s'|] eqn:Es; [|done]. exists s'.
  assert (Hk : forall who, mark_of B o b (w_now w) <> Some (MkSpawned who)) by (intros who; by apply (no_spawn B o b (w_now w) Watcher)).
  split.
  - cbn. rewrite (stage_snoc _ _ _ Hst). by apply watch_stage.
  - cbn [w_fired with_proc]. rewrite effect_fired, orb_true_iff, Hf. symmetry. by eapply watch_fires.
  - intros who. specialize (Ht who). unfold task_ok in *.
    destruct who; rewrite procs_step; [rewrite decide_False by done|rewrite decide_False by done|by rewrite decide_True].
    + by destruct (w_procs w Main).
    + destruct (w_procs w Reaper); [done|by rewrite decide_False].
  - intros who Hw'. by apply (ended_step Watcher _ _ _ _ _ who Hp), Hj.
Qed.

Lemma goto_ok who l w m s : w_procs w who = Some (goto l) -> srv_ok w m s -> srv_ok (with_proc who (code l) w) m s.
Proof.
  intros Hp [Hst Hf Ht Hj]. split; [done|done| |].
  - intros who'. pose proof (Ht who') as Ho. unfold task_ok in *. cbn [with_proc w_procs w_now].
    destruct (decide (who = who')) as [<-|Hn]; [|by destruct who'; rewrite fn_lookup_insert_ne].
    destruct who; rewrite fn_lookup_insert; rewrite Hp in Ho; cbn in Ho.
    + by apply code_heeds_main.
    + destruct Ho as [Hs [[= ->]|[=]]]. split; [done|]. apply reap_heeds.
    + destruct Ho as [Hs [[[= ->] ->]|[=]]]. split; [done|]. apply watch_heeds.
  - intros who' Hw. destruct (Hj who' Hw) as [r Hr]. exists r. cbn. destruct (decide (who = who')) as [<-|Hn]; [by rewrite Hp in Hr|].
    by rewrite fn_lookup_insert_ne.
Qed.

Lemma srv_ok_step w w' m s : srv_ok w m s -> srv_step w w' -> exists m' s', srv_ok w' m' s'.
Proof.
  intros Hok Hs. destruct Hs as [who B o k b w Hp Hc|who l w Hp|now registry sh w Hn].
  - destruct who.
    + destruct (main_op_ok _ _ _ _ _ _ _ Hp Hc Hok) as [m' Hm]. by exists m', s.
    + exists m, s. by apply reaper_op_ok.
    + destruct (watcher_op_ok _ _ _ _ _ _ _ Hp Hc Hok) as [s' Hs]. by exists m, s'.
  - exists m, s. by apply goto_ok.
  - exists m, s. destruct Hok as [Hst Hf Ht Hj]. split; [done|done| |done]. intros who. specialize (Ht who). unfold task_ok in *.
    cbn [w_procs w_now]. destruct who, (w_procs w _) as [p|]; try done; [|destruct Ht as [? Ht]; split; [done|]..]; by eapply heeds_later.
Qed.

Lemma srv_reached_ok w : srv_reached w -> exists m s, srv_ok w m s.
Proof.
  intros (now & sh & Hs). assert (H0 : exists m s, srv_ok (world_new now sh) m s).
  { exists MsStart, WsIdle. split; [done|done| |done]. intros who. unfold task_ok. destruct who; cbn [w_procs world_new]; [|done..].
    apply setup_heeds. }
  induction Hs as [w|w1 w2 w3 H1 _ IH]; [done|]. apply IH. destruct H0 as (m & s & H0). by eapply srv_ok_step.
Qed.

(** ** The end can be reached *)

(** An answer that an operation can get once the signal was fired. *)
Definition answer_now (B : Type) (o : SrvOp B) (w : World) : B :=
  match o in SrvOp B return B with
  | BindSocket | SocketPathOf | RemoveSocket | CloseIdle _ => Ok tt
  | DefaultSinkPath => None
  | ScanOrphans _ => []
  | Accept => AcceptShutdown
  | Tick => TickShutdown
  | LiveIdle => live_idle_durations (w_shared w) (w_now w) (w_registry w)
  | HoldsActive => holds_active (w_shared w) (w_registry w)
  | Now => w_now w
  | Assemble _ | StartRecordings | SeedOrphan _ _ _ | PurgeSeeded _ | Spawn _ | ServeConnection | Join _ | ExpireRetained _ _
  | EndAllLeases _ | ShutdownRecordings | SleepUntil _ | Fire | LogLine _ => tt
  end.

Definition wait_for (B : Type) (o : SrvOp B) (w : World) : World :=
  {| w_now := match o with SleepUntil deadline => Z.max (w_now w) deadline | _ => w_now w end;
     w_registry := w_registry w; w_shared := w_shared w; w_fired := w_fired w; w_trace := w_trace w; w_procs := w_procs w |}.

Lemma answer_can who B (o : SrvOp B) w :
  uses who B o = true -> w_fired w = true -> (who = Main -> forall x, x <> Main -> ended (w_procs w x)) ->
  can B o (wait_for B o w) (answer_now B o (wait_for B o w)).
Proof.
  intros Hu Hf He. destruct o as [| | | | | | |x| | |x| | | | | | | | | | | | |]; cbn; try done; [|lia]. destruct who, x; try done; by apply He.
Qed.

(** The tasks there are stay, and the signal stays fired. *)
Definition later (who : Who) (w w' : World) : Prop :=
  rtc srv_step w w' /\ w_fired w' = true /\ forall x, x <> who -> w_procs w' x = w_procs w x.

Lemma later_trans who w1 w2 w3 : later who w1 w2 -> later who w2 w3 -> later who w1 w3.
Proof. intros (H1 & _ & P1) (H2 & F2 & P2). split_and!; [by etrans|done|]. intros x Hx. by rewrite P2, P1. Qed.

Lemma op_later who B (o : SrvOp B) k w :
  w_procs w who = Some (Act o k) -> uses who B o = true -> w_fired w = true -> (forall x, is_Some (w_procs w x)) ->
  (who = Main -> forall x, x <> Main -> ended (w_procs w x)) ->
  let w1 := wait_for B o w in let b := answer_now B o w1 in
  later who w (with_proc who (k b) (effect B o b w1)).
Proof.
  intros Hp Hu Hf Hs He w1 b. split_and!.
  - eapply rtc_l; [apply (SvOutside (w_now w1) (w_registry w) (w_shared w) w); cbn; destruct o; lia|].
    apply rtc_once. apply (SvOp who B o k b w1 Hp). by eapply answer_can.
  - cbn [w_fired with_proc]. rewrite effect_fired. cbn. by rewrite Hf, orb_true_r.
  - intros x Hx. rewrite procs_step, decide_False by done. destruct (Hs x) as [p Hx']. cbn. by rewrite Hx'.
Qed.

Lemma goto_later who l w : w_procs w who = Some (goto l) -> w_fired w = true -> later who w (with_proc who (code l) w).
Proof.
  intros Hp Hf. split_and!; [by apply rtc_once, SvGoto|done|]. intros x Hx. cbn. by rewrite fn_lookup_insert_ne.
Qed.

(** A program comes to its end; the others are not moved. *)
Lemma runs_out {G} who (next : G -> Mark -> option G) Q p w g :
  w_procs w who = Some p -> heeds who next Q p g (w_now w) -> w_fired w = true -> (forall x, is_Some (w_procs w x)) ->
  (who = Main -> forall x, x <> Main -> ended (w_procs w x)) ->
  exists w' g' r, later who w w' /\ w_procs w' who = Some (Ret r) /\ Q g' r.
Proof.
  revert w g. induction p as [r|B o k IH]; intros w g Hp Hh Hf Hs He.
  { exists w, g, r. split_and!; try done. }
  destruct Hh as [Hu Hh]. pose proof (op_later who B o k w Hp Hu Hf Hs He) as Hl. cbn zeta in Hl.
  set (w1 := wait_for B o w) in *. set (b := answer_now B o w1) in *.
  specialize (Hh b (w_now w1)). destruct (advance_by next g _) as [g'|] eqn:Eg in Hh.
  2: { destruct Hh; [cbn; destruct o; lia|]. apply can_true. by eapply answer_can. }
  destruct (IH b (with_proc who (k b) (effect B o b w1)) g') as (w' & g2 & r & Hl' & Hr); try done.
  - rewrite procs_step. by rewrite decide_True.
  - apply Hh; [cbn; destruct o; lia|]. apply can_true. by eapply answer_can.
  - by apply Hl.
  - intros x. destruct (decide (x = who)) as [->|Hx]; [rewrite procs_step; by rewrite decide_True|]. destruct Hl as (_ & _ & ->); done.
  - intros -> x Hx. destruct Hl as (_ & _ & ->); [by apply He|done].
  - exists w', g2, r. split; [by eapply later_trans|done].
Qed.

Lemma reached_later who w w' : srv_reached w -> later who w w' -> srv_reached w'.
Proof. intros (now & sh & Hr) [Hl _]. exists now, sh. by etrans. Qed.

Lemma all_there w m s : srv_ok w m s -> w_fired w = true -> spawned Watcher m = true /\ forall x, is_Some (w_procs w x).
Proof.
  intros [_ Hf Ht _] Hw. apply Hf in Hw. subst s.
  assert (Hm : spawned Watcher m = true). { specialize (Ht Watcher). unfold task_ok in Ht. destruct (w_procs w Watcher); naive_solver. }
  split; [done|]. intros x. specialize (Ht x). unfold task_ok in Ht. destruct x, (w_procs w _) as [p|]; try done; exfalso.
  - by destruct m.
  - by destruct Ht.
Qed.

(** A watcher ends. *)
Lemma watcher_ends who w : who <> Main -> srv_reached w -> w_fired w = true -> exists w', later who w w' /\ ended (w_procs w' who).
Proof.
  intros Hn Hr Hf. destruct (srv_reached_ok w Hr) as (m & s & Hok). destruct (all_there w m s Hok Hf) as [_ Hs].
  assert (Hend : exists w1 r, later who w w1 /\ w_procs w1 who = Some (Ret r) /\ (r = inl (entry_of who) \/ r = inr (Ok tt))).
  { pose proof (so_task _ _ _ Hok who) as Ht. unfold task_ok in Ht. destruct (Hs who) as [p Hp].
    destruct who; [done|rewrite Hp in Ht; destruct Ht as [_ Ht]..].
    - destruct (runs_out Reaper _ _ p w tt Hp Ht Hf Hs ltac:(done)) as (w1 & g & r & Hl & Hr1 & Hq). by exists w1, r.
    - destruct (runs_out Watcher _ _ p w s Hp Ht Hf Hs ltac:(done)) as (w1 & g & r & Hl & Hr1 & Hq). exists w1, r.
      split_and!; [done..|]. destruct Hq as [[-> _]| ->]; [by left|by right]. }
  destruct Hend as (w1 & r & Hl & Hr1 & [-> | ->]); [|exists w1; split; [done|by eexists]].
  pose proof (goto_later who _ w1 Hr1 ltac:(apply Hl)) as Hg. pose proof (later_trans _ _ _ _ Hl Hg) as Hl2.
  set (w2 := with_proc who (code (entry_of who)) w1) in *.
  destruct (srv_reached_ok w2 (reached_later _ _ _ Hr Hl2)) as (m2 & s2 & Hok2).
  destruct (all_there w2 m2 s2 Hok2 ltac:(apply Hl2)) as [_ Hs2].
  assert (Hp2 : exists k, w_procs w2 who = Some (Act Tick k) /\ k TickShutdown = finish (Ok tt)).
  { unfold w2. cbn. rewrite fn_lookup_insert. destruct who; [done|by eexists..]. }
  destruct Hp2 as (k & Hp2 & Hk).
  pose proof (op_later who _ Tick k w2 Hp2 ltac:(by destruct who) ltac:(apply Hl2) Hs2 ltac:(done)) as Hl3. cbn zeta in Hl3.
  eexists. split; [by eapply later_trans|]. rewrite procs_step, decide_True by done. cbn. rewrite Hk. by eexists.
Qed.

Lemma later_ended who w w' x : later who w w' -> x <> who -> ended (w_procs w x) -> ended (w_procs w' x).
Proof. intros (_ & _ & Hl) Hx. by rewrite Hl. Qed.

(** [run] ends once the others have: from the end of its loop, and from
    anywhere. *)
Lemma tears_down w :
  w_procs w Main = Some (goto Teardown) -> w_fired w = true -> (forall x, x <> Main -> ended (w_procs w x)) ->
  exists w', rtc srv_step w w' /\ w_procs w' Main = Some (finish (Ok tt)).
Proof.
  intros Hp Hf He. pose proof (goto_later Main _ w Hp Hf) as Hg. set (w1 := with_proc Main (code Teardown) w) in *.
  assert (Hp1 : w_procs w1 Main = Some (code Teardown)) by apply fn_lookup_insert.
  assert (He1 : forall x, x <> Main -> ended (w_procs w1 x)) by (intros x Hx; by apply (later_ended Main w), He).
  assert (Hs1 : forall x, is_Some (w_procs w1 x)).
  { intros x. destruct (decide (x = Main)) as [->|Hx]; [by eexists|]. destruct (He1 x Hx) as [r ->]. by eexists. }
  destruct (runs_out Main _ _ _ w1 MsStopping Hp1 (teardown_ends _) ltac:(apply Hg) Hs1 (fun _ => He1)) as (w2 & m & r & Hl & Hr & _ & ->).
  exists w2. split; [|done]. by eapply later_trans.
Qed.

Lemma main_ends w :
  srv_reached w -> w_fired w = true -> (forall x, x <> Main -> ended (w_procs w x)) ->
  exists w', rtc srv_step w w' /\ w_procs w' Main = Some (finish (Ok tt)).
Proof.
  intros Hr Hf He. destruct (srv_reached_ok w Hr) as (m & s & Hok). destruct (all_there w m s Hok Hf) as [_ Hs].
  destruct (Hs Main) as [p Hp]. pose proof (so_task _ _ _ Hok Main) as Ht. unfold task_ok in Ht. rewrite Hp in Ht.
  destruct (runs_out Main _ _ p w m Hp Ht Hf Hs (fun _ => He)) as (w1 & m1 & r & Hl & Hr1 & _).
  pose proof (reached_later _ _ _ Hr Hl) as Hr'. destruct (srv_reached_ok w1 Hr') as (m' & s' & Hok').
  destruct (all_there w1 m' s' Hok' ltac:(apply Hl)) as [Hsp Hs1].
  assert (He1 : forall x, x <> Main -> ended (w_procs w1 x)) by (intros x Hx; by apply (later_ended Main w), He).
  assert (Htear : forall w2, later Main w1 w2 -> w_procs w2 Main = Some (goto Teardown) ->
            exists w3, rtc srv_step w2 w3 /\ w_procs w3 Main = Some (finish (Ok tt))).
  { intros w2 Hl2 Hp2. apply tears_down; [done|apply Hl2|]. intros x Hx. by apply (later_ended Main w1), He1. }
  pose proof (so_task _ _ _ Hok' Main) as Ht1. unfold task_ok in Ht1. rewrite Hr1 in Ht1. cbn in Ht1.
  destruct r as [[]|[[]|e]]; cbn in Ht1; try done.
  - pose proof (goto_later Main _ w1 Hr1 ltac:(apply Hl)) as Hg. set (w2 := with_proc Main (code AcceptLoop) w1) in *.
    assert (Hp2 : exists k, w_procs w2 Main = Some (Act Accept k) /\ k AcceptShutdown = goto Teardown)
      by (unfold w2; cbn; rewrite fn_lookup_insert; by eexists).
    destruct Hp2 as (k & Hp2 & Hk).
    assert (Hs2 : forall x, is_Some (w_procs w2 x)).
    { intros x. destruct (decide (x = Main)) as [->|Hx]; [by eexists|]. by destruct Hg as (_ & _ & ->). }
    pose proof (op_later Main _ Accept k w2 Hp2 eq_refl ltac:(apply Hg) Hs2) as Hl2. cbn zeta in Hl2.
    assert (He2 : forall x, x <> Main -> ended (w_procs w2 x)) by (intros x Hx; by apply (later_ended Main w1), He1).
    specialize (Hl2 (fun _ => He2)).
    destruct (Htear _ (later_trans _ _ _ _ Hg Hl2)) as (w3 & H3 & Hp3).
    { rewrite procs_step, decide_True by done. cbn. by rewrite Hk. }
    exists w3. split; [|done]. etrans; [apply Hl|]. etrans; [apply Hg|]. etrans; [apply Hl2|done].
  - destruct (Htear w1) as (w3 & H3 & Hp3); [|done|].
    + split_and!; [done|apply Hl|done].
    + exists w3. split; [|done]. etrans; [apply Hl|done].
  - exists w1. split; [apply Hl|done].
  - subst m'. done.
Qed.

Lemma fired_stays w w' : rtc srv_step w w' -> w_fired w = true -> w_fired w' = true.
Proof.
  induction 1 as [w|w1 w2 w3 Hs _ IH]; [done|]. intros Hf. apply IH. destruct Hs; cbn -[effect]; try done.
  rewrite effect_fired. by rewrite Hf, orb_true_r.
Qed.

(** C39: In every interleaving of the daemon's run, its two watchers and
    whatever requests do to the registry, things happen in one order: nothing is
    served before the recordings of earlier daemons were ended and every session
    they left behind was listed; the signal is fired only after two looks, at
    least the grace period apart, of which neither saw an active session; only
    then does the accept loop stop; both watchers are at their end before the
    ended sessions are closed, the leases ended, the recordings shut down and
    the socket removed, one after the other and once.  [run] answers [Ok] only
    where it lost the socket or did all this, and once the signal was fired the
    daemon can always come to that end. *)
Theorem daemon_runs_in_order (w : World) :
  srv_reached w ->
  (exists m s, stage (w_trace w) = Some (m, s) /\ (w_fired w = true <-> s = WsFired)
     /\ (forall who, has_joined who m = true -> ended (w_procs w who))
     /\ (forall r, w_procs w Main = Some (finish r) -> if r is Ok _ then m = MsLost \/ m = MsOver else m = MsFailed))
  /\ (w_fired w = true ->
        exists w' s, rtc srv_step w w' /\ w_procs w' Main = Some (finish (Ok tt)) /\ stage (w_trace w') = Some (MsOver, s)).
Proof.
  intros Hr. destruct (srv_reached_ok w Hr) as (m & s & Hok). split.
  - destruct Hok as [Hst Hf Ht Hj]. exists m, s. split_and!; [done|done|done|]. intros r Hp. specialize (Ht Main).
    unfold task_ok in Ht. rewrite Hp in Ht. by destruct r.
  - intros Hf. destruct (watcher_ends Reaper w ltac:(done) Hr Hf) as (w1 & Hl1 & He1).
    pose proof (reached_later _ _ _ Hr Hl1) as Hr1.
    destruct (watcher_ends Watcher w1 ltac:(done) Hr1 ltac:(apply Hl1)) as (w2 & Hl2 & He2).
    pose proof (reached_later _ _ _ Hr1 Hl2) as Hr2.
    destruct (main_ends w2 Hr2 ltac:(apply Hl2)) as (w3 & H3 & Hp3).
    { intros [] Hx; [done|by apply (later_ended Watcher w1)|done]. }
    assert (Hr3 : srv_reached w3) by (destruct Hr2 as (now & sh & Hr2); exists now, sh; by etrans).
    assert (Hf3 : w_fired w3 = true) by (apply (fired_stays w2); [done|apply Hl2]).
    destruct (srv_reached_ok w3 Hr3) as (m3 & s3 & Hok3). exists w3, s3. split_and!.
    + etrans; [apply Hl1|]. etrans; [apply Hl2|done].
    + done.
    + destruct (all_there w3 m3 s3 Hok3 Hf3) as [Hsp _]. pose proof (so_task _ _ _ Hok3 Main) as Ht. unfold task_ok in Ht.
      rewrite Hp3 in Ht. cbn in Ht. destruct Ht as [-> | ->]; [done|]. apply Hok3.
Qed.

(** ** A run step by step *)

(** One operation of a task, answered by [answer], or nothing where it has to
    wait for another task. *)
Definition ready (B : Type) (o : SrvOp B) (w : World) : bool :=
  match o with Join x => match w_procs w x with Some (Ret (inr _)) => true | _ => false end | _ => true end.
Definition perform (answer : forall B, SrvOp B -> World -> B) (w : World) (who : Who) : World :=
  match w_procs w who with
  | Some (@Act _ _ B o k) =>
      let w1 := wait_for B o w in
      let b := answer B o w1 in
      if ready B o w1 then with_proc who (k b) (effect B o b w1) else w
  | Some (Ret (inl l)) => with_proc who (code l) w
  | _ => w
  end.


End Together.

(** A daemon that finds two records of a predecessor, one of them malformed,
    serves a connection, and is left alone. *)
Module ServerDemo.
Definition config : RunConfig := {| rn_sink_path_override := None; rn_lifecycle := LifecycleConfig_default |}.
Definition env (name : text) : option text := None.
Definition quoted (t : text) : text := [dquote] ++ t ++ [dquote].
Notation World := (@World (list SessionEvent)).
Notation srv_step := (srv_step env config quoted).
Notation srv_reached := (srv_reached env config quoted).

Definition records : list ReconciliationRecord :=
  [{| rr_id := txt "old"; rr_host := txt "10.0.0.9"; rr_connected_since := txt "2026-01-01T00:00:00Z" |};
   {| rr_id := []; rr_host := txt "10.0.0.9"; rr_connected_since := txt "2026-01-01T00:00:00Z" |}].

Definition answer (B : Type) (o : SrvOp B) (w : World) : B :=
  if w_fired w then answer_now B o w
  else
    match o in SrvOp B return B -> B with
    | DefaultSinkPath => fun _ => Some (txt "/cache/rdpilot/sessions.json")
    | ScanOrphans _ => fun _ => records
    | Accept => fun _ => Connection (Ok tt)
    | Tick => fun _ => Ticked
    | _ => fun now => now
    end (answer_now B o w).

Lemma perform_reaches (w : World) who : rtc srv_step w (perform env config quoted answer w who).
Proof.
  unfold perform. destruct (w_procs w who) as [[[l|r]|B o k]|] eqn:Hp; [by apply rtc_once, SvGoto|done| |done].
  cbn zeta. destruct (ready B o (wait_for B o w)) eqn:Hr; [|done].
  eapply rtc_l; [apply (SvOutside env config quoted (w_now (wait_for B o w)) (w_registry w) (w_shared w) w); cbn; destruct o; lia|].
  apply rtc_once. apply (SvOp env config quoted who B o k _ (wait_for B o w) Hp).
  assert (Hj : forall x, match w_procs w x with Some (Ret (inr _)) => true | _ => false end = true -> ended (w_procs w x)).
  { intros x Hx. destruct (w_procs w x) as [[[l|r]|]|]; [done|by exists r|done|done]. }
  unfold answer. destruct (w_fired (wait_for B o w)) eqn:Hf; destruct o; try done; cbn in *; try (intros _; exact Hf); try lia; by apply Hj.
Qed.

Definition plays (w : World) (tasks : list Who) : World := foldl (perform env config quoted answer) w tasks.
Lemma plays_reaches tasks : forall w, rtc srv_step w (plays w tasks).
Proof. induction tasks as [|who tasks IH]; intros w; [done|]. etrans; [apply (perform_reaches w who)|apply IH]. Qed.

(** Nobody shares anything: there are no live sessions. *)
Definition shared (g : Z) : Shared (list SessionEvent) := RegistryDemo.shared LifecycleLive g.
Definition morning : World := world_new env config quoted 0 shared.
Definition serving : World := plays morning (replicate 15 Main).
Definition left_alone : World := plays serving (replicate 6 Watcher).
Definition over : World := plays left_alone (replicate 12 Reaper ++ replicate 14 Main).

(** The connection accepted last is still served. *)
Example run_of_a_day :
  w_trace over =
    [MkBound; MkAssembled; MkRecovered; MkScanned [txt "old"]; MkSeeded (txt "old"); MkPurged [txt "old"];
     MkSpawned Reaper; MkSpawned Watcher; MkServed;
     MkLook 0 false; MkLook (seconds 30) false; MkFired;
     MkServed; MkStopping; MkJoined Reaper; MkJoined Watcher; MkExpired; MkLeasesEnded; MkRecordingsEnded; MkOver].
Proof. vm_compute. reflexivity. Qed.

Lemma plays_reached tasks w : srv_reached w -> srv_reached (plays w tasks).
Proof. intros (now & sh & Hw). exists now, sh. etrans; [exact Hw|apply plays_reaches]. Qed.
Lemma serving_reached : srv_reached serving.
Proof. apply (plays_reached (replicate 15 Main)). by exists 0, shared. Qed.
Lemma left_alone_reached : srv_reached left_alone.
Proof. apply (plays_reached (replicate 6 Watcher)), serving_reached. Qed.

Lemma daemon_runs_in_order_witness :
  w_fired left_alone = true /\
  exists w' s, rtc srv_step left_alone w' /\ w_procs w' Main = Some (finish (Ok tt))
               /\ stage config (w_trace w') = Some (MsOver, s).
Proof.
  split; [vm_compute; reflexivity|].
  apply (daemon_runs_in_order env config quoted left_alone left_alone_reached). vm_compute. reflexivity.
Defined.
(** The watcher looks at both ends of the grace period only: a session that was
    active a second before the end of the daemon does not keep it. *)
Definition outside (now : Z) (r : Registry) (w : World) : World :=
  {| w_now := now; w_registry := r; w_shared := w_shared w; w_fired := w_fired w; w_trace := w_trace w; w_procs := w_procs w |}.
Definition looked : World := plays serving (replicate 3 Watcher).
Definition visited : World := outside (seconds 29) RegistryDemo.registry looked.
Definition closed_again : World := plays (outside (seconds 30) registry_new visited) (replicate 4 Watcher).

Example short_session_is_overlooked :
  srv_reached visited /\ holds_active (w_shared visited) (w_registry visited) = true /\ w_fired visited = false
  /\ rtc srv_step visited closed_again /\ w_fired closed_again = true /\ w_now closed_again - w_now visited = seconds 1.
Proof.
  split_and!; try (vm_compute; reflexivity).
  - destruct (plays_reached (replicate 3 Watcher) serving serving_reached) as (now & sh & Hw). exists now, sh.
    etrans; [exact Hw|]. apply rtc_once, SvOutside. vm_compute. discriminate.
  - eapply rtc_l; [apply (SvOutside env config quoted (seconds 30) registry_new shared); vm_compute; discriminate|].
    exact (plays_reaches (replicate 4 Watcher) _).
Qed.
End ServerDemo.
