(* ===== verification/Diagnostics.v ===== *)
(** * Connect diagnostics ([rdpilot-daemon/src/diagnostics.rs])

    An opt-in file of the last stages of connects, in a fixed vocabulary, for
    the operations [Diagnose] of Dispatch.v.  The file system is that of Fs.v;
    permissions are operations without an effect on it.  The process id, the
    counter of temporary names and the time since the start are arguments. *)
From S2P Require Import Prelude Bytes HostBridge Dispatch Fs.
Open Scope Z_scope.
Local Open Scope io_scope.

Definition DIAGNOSTICS_PATH_ENV : text := txt "RDPILOT_DAEMON_DIAGNOSTICS_PATH".
Definition MAX_EVENTS : nat := 100.

(** [Stage::as_str] *)
Definition stage_as_str (s : Stage) : text :=
  match s with
  | RegistryOpened => txt "registry_opened"
  | BridgeBootstrapStarted => txt "bridge_bootstrap_started"
  | BridgeBootstrapFinished => txt "bridge_bootstrap_finished"
  | IpcResponseWritten => txt "ipc_response_written"
  | IpcPeerClosed => txt "ipc_peer_closed"
  | RegistryClosed => txt "registry_closed"
  | StBootstrap stage => stage
  end.

Record Event := {
  dv_schema_version : Z; dv_daemon_pid : Z; dv_daemon_generation : Z; dv_attempt : Z; dv_elapsed_ms : Z; dv_stage : text }.

(** The path by its parent and its name. *)
Record Diagnostics := {
  dg_parent : path; dg_name : text; dg_generation : Z; dg_attempts : gmap text Z; dg_next_attempt : Z }.
Definition dg_path (d : Diagnostics) : path := dg_parent d ++ [dg_name d].

Definition fs_set_permissions : M unit := io_op (fun m => Ok (m, tt)) unchanged.

(** [at_owner_only_path]; a failure is no diagnostics. *)
Definition at_owner_only_path (parent : path) (name : text) (generation : Z) : M (option Diagnostics) :=
  made <- attempt (fs_create_dir_all parent ;; fs_set_permissions) ;
  ret (match made with
       | Ok _ => Some {| dg_parent := parent; dg_name := name; dg_generation := generation; dg_attempts := ∅; dg_next_attempt := 1 |}
       | Err _ => None
       end).

(** The number of a session's attempt: the one it has, or the next one (the
    counter wraps). *)
Definition attempt_of (session : text) (d : Diagnostics) : Diagnostics * Z :=
  match dg_attempts d !! session with
  | Some n => (d, n)
  | None =>
      let n := dg_next_attempt d in
      ({| dg_parent := dg_parent d; dg_name := dg_name d; dg_generation := dg_generation d;
          dg_attempts := <[session := n]> (dg_attempts d); dg_next_attempt := (n + 1) mod 2 ^ 64 |}, n)
  end.

Definition last_events (events : list Event) : list Event := drop (length events - MAX_EVENTS) events.

Section Record_.
Context `{Serde (list Event)}.

Definition load_events (p : path) : M (option (list Event)) :=
  bytes <- attempt (fs_read p) ;
  ret (match bytes with
       | Ok bytes => match from_slice bytes with Ok events => Some events | Err _ => None end
       | Err NotFound => Some []
       | Err _ => None
       end).

Definition tmp_name (pid suffix : Z) : text :=
  txt ".rdpilot-connect-diagnostics-" ++ dec (Z.to_N pid) ++ txt "-" ++ dec (Z.to_N suffix) ++ txt ".tmp".

Definition save_owner_only (parent : path) (name : text) (pid suffix : Z) (events : list Event) : M unit :=
  json <- lift Other (to_vec events) ;
  fs_write_new (parent ++ [tmp_name pid suffix]) json ;;
  fs_sync ;;
  fs_set_permissions ;;
  fs_rename (parent ++ [tmp_name pid suffix]) (parent ++ [name]).

(** [record], under the write lock. *)
Definition event_of (d : Diagnostics) (pid attempt elapsed_ms : Z) (stage : Stage) : Event :=
  {| dv_schema_version := 1; dv_daemon_pid := pid; dv_daemon_generation := dg_generation d; dv_attempt := attempt;
     dv_elapsed_ms := elapsed_ms; dv_stage := stage_as_str stage |}.
Definition record (d : Diagnostics) (session : text) (stage : Stage) (pid suffix elapsed_ms : Z) : M Diagnostics :=
  loaded <- load_events (dg_path d) ;
  let events := default [] loaded in
  let '(d, attempt_no) := attempt_of session d in
  let events := events ++ [event_of d pid attempt_no elapsed_ms stage] in
  saved <- attempt (save_owner_only (dg_parent d) (dg_name d) pid suffix (last_events events)) ;
  ret d.

(** [record_bootstrap_stages]: one record per stage; [at_] has the suffix and
    the time of each. *)
Fixpoint record_bootstrap_stages (d : Diagnostics) (session : text) (pid : Z) (stages : list (BootstrapStage * (Z * Z))) : M Diagnostics :=
  match stages with
  | [] => ret d
  | (stage, (suffix, elapsed)) :: stages =>
      d <- record d session (StBootstrap (stage_str stage)) pid suffix elapsed ;
      record_bootstrap_stages d session pid stages
  end.

(** ** What is kept, and what is told *)

Lemma last_events_bound events : (length (last_events events) <= MAX_EVENTS)%nat.
Proof. unfold last_events. rewrite length_drop. lia. Qed.

(** The newest event is always kept, and the order is. *)
Lemma last_events_newest events e : exists dropped, events ++ [e] = dropped ++ last_events (events ++ [e]) /\ last (last_events (events ++ [e])) = Some e.
Proof.
  exists (take (length (events ++ [e]) - MAX_EVENTS) (events ++ [e])). split; [symmetry; apply take_drop|].
  unfold last_events. rewrite drop_app_le; [by rewrite last_snoc|]. rewrite length_app. unfold MAX_EVENTS. cbn [length]. lia.
Qed.

(** Attempts are numbers of sessions: the same one again, another one for
    another session, below the next one until the counter wraps. *)
Definition attempts_ok (d : Diagnostics) : Prop :=
  (forall s n, dg_attempts d !! s = Some n -> 0 <= n < dg_next_attempt d)
  /\ (forall s t n, dg_attempts d !! s = Some n -> dg_attempts d !! t = Some n -> s = t).

Lemma attempt_of_spec session d d' n :
  attempts_ok d -> 0 <= dg_next_attempt d < 2 ^ 64 - 1 -> attempt_of session d = (d', n) ->
  attempts_ok d' /\ dg_attempts d' !! session = Some n /\ (forall s, s <> session -> dg_attempts d' !! s = dg_attempts d !! s)
  /\ (forall m, dg_attempts d !! session = Some m -> m = n).
Proof.
  intros [Hlt Hinj] Hb. unfold attempt_of. destruct (dg_attempts d !! session) as [k|] eqn:E; intros [= <- <-].
  { split_and!; [done|done|done|]. by intros m [= ->]. }
  unfold attempts_ok. cbn. rewrite Z.mod_small by lia. split_and!.
  - intros s n. rewrite lookup_insert_Some. intros [[<- <-]|[_ Hs]]; [lia|]. apply Hlt in Hs. lia.
  - intros s t n. rewrite !lookup_insert_Some. intros [[<- <-]|[Hs Es]] [[<- Et]|[Ht Et]]; try done.
    + apply Hlt in Et. lia.
    + apply Hlt in Es. lia.
    + by eapply Hinj.
  - by rewrite lookup_insert_eq.
  - intros s Hs. by rewrite lookup_insert_ne.
  - done.
Qed.

(** ** The file is replaced whole or left alone *)

Lemma touches_permissions D : touches D fs_set_permissions.
Proof. apply (touches_io_op D); [|done]. by intros m m' a q [= <- <-]. Qed.
Hint Resolve touches_permissions : touches_db.

(** Its own files: the file, and the temporary one of this call. *)
Definition own_files (d : Diagnostics) (pid suffix : Z) (q : path) : Prop :=
  dg_path d `prefix_of` q \/ dg_parent d ++ [tmp_name pid suffix] `prefix_of` q.

Lemma attempt_of_path session d d' n : attempt_of session d = (d', n) -> dg_parent d' = dg_parent d /\ dg_name d' = dg_name d.
Proof. unfold attempt_of. case_match; by intros [= <- <-]. Qed.

Lemma record_touches d session stage pid suffix elapsed : touches (own_files d pid suffix) (record d session stage pid suffix elapsed).
Proof.
  unfold record, load_events. touch; unfold save_owner_only.
  match goal with E : attempt_of _ _ = _ |- _ => destruct (attempt_of_path _ _ _ _ E) as [-> ->] end.
  touch; [apply touches_write_new; by right|apply touches_rename; intros q Hq; [by right|by left]].
Qed.

(** [m] leaves [q] as it was. *)
Definition leaves {A} (q : path) (m : M A) : Prop := forall s, io_fs (fst (m s)) q = io_fs s q.
Lemma touches_leaves {A} (D : path -> Prop) q (m : M A) : touches D m -> ~ D q -> leaves q m.
Proof. intros Hm Hq s. by apply Hm. Qed.

(** A save that succeeds puts the whole vector in place; one that fails
    anywhere leaves the file. *)
Lemma save_replaces parent name pid suffix events s s' r :
  name <> tmp_name pid suffix -> save_owner_only parent name pid suffix events s = (s', r) ->
  match r with
  | Ok _ => exists json, to_vec events = Ok json /\ io_fs s' (parent ++ [name]) = Some (NFile json)
  | Err _ => io_fs s' (parent ++ [name]) = io_fs s (parent ++ [name])
  end.
Proof.
  intros Hn. unfold save_owner_only. set (file := parent ++ [name]). set (tmp := parent ++ [tmp_name pid suffix]).
  destruct (to_vec events) as [json|e]; cbn [lift]; unfold bind at 1, ret, throw; cbv beta iota; [|by intros [= <- <-]].
  assert (Hne : file <> tmp) by (intros E%app_inj_2; [|done]; destruct E; congruence).
  unfold bind at 1. destruct (fs_write_new tmp json s) as [s1 [[]|e]] eqn:E1.
  2: { intros E; injection E as <- <-. pose proof (touches_write_new (fun q => q = tmp) tmp json eq_refl s file Hne) as Hw. by rewrite E1 in Hw. }
  pose proof (fs_write_new_ok _ _ _ _ _ E1) as [_ W1].
  assert (K1 : io_fs s1 file = io_fs s file /\ io_fs s1 tmp = Some (NFile json))
    by (rewrite W1; split; [by apply upd_other|apply upd_same]).
  unfold bind at 1. destruct (fs_sync s1) as [s2 r2] eqn:E2.
  assert (K2 : forall q, io_fs s2 q = io_fs s1 q) by (intros q; pose proof (touches_sync (fun _ => False) s1 q) as Hs; rewrite E2 in Hs; exact (Hs (fun F => F))).
  destruct r2 as [[]|e]; [|intros E; injection E as <- <-; rewrite K2; apply K1].
  unfold bind at 1. destruct (fs_set_permissions s2) as [s3 r3] eqn:E3.
  assert (K3 : forall q, io_fs s3 q = io_fs s2 q) by (intros q; pose proof (touches_permissions (fun _ => False) s2 q) as Hs; rewrite E3 in Hs; exact (Hs (fun F => F))).
  destruct r3 as [[]|e]; [|intros E; injection E as <- <-; rewrite K3, K2; apply K1].
  intros E4. destruct r as [[]|e].
  - exists json. split; [done|]. rewrite (fs_rename_ok _ _ _ _ _ E4). unfold move_tree, under.
    rewrite bool_decide_eq_true_2 by done. by rewrite drop_all, app_nil_r, K3, K2, (proj2 K1).
  - rewrite (fs_rename_err _ _ _ _ _ E4), K3, K2. apply K1.
Qed.

(** Whatever fails, a record ends with the file as it was, or with at most a
    hundred events of which the last one is the one recorded: its stage comes
    from the fixed vocabulary, and nothing of it from the session's name. *)
Lemma record_replaces d session stage pid suffix elapsed s s' r :
  dg_name d <> tmp_name pid suffix -> record d session stage pid suffix elapsed s = (s', r) ->
  (exists d', r = Ok d') /\
  (io_fs s' (dg_path d) = io_fs s (dg_path d)
   \/ exists events json attempt_no, (length events <= MAX_EVENTS)%nat
        /\ last events = Some (event_of d pid attempt_no elapsed stage)
        /\ to_vec events = Ok json /\ io_fs s' (dg_path d) = Some (NFile json)).
Proof.
  intros Hn. unfold record, bind at 1. destruct (load_events (dg_path d) s) as [s1 r1] eqn:E1.
  assert (K1 : forall q, io_fs s1 q = io_fs s q).
  { assert (Ht : touches (fun _ => False) (load_events (dg_path d))) by (unfold load_events; touch).
    intros q. specialize (Ht s q). rewrite E1 in Ht. exact (Ht (fun F => F)). }
  assert (exists loaded, r1 = Ok loaded) as [loaded ->].
  { revert E1. unfold load_events, bind, attempt. destruct (fs_read (dg_path d) s) as [s2 r2]. intros [= _ <-]. by eexists. }
  destruct (attempt_of session d) as [d' n] eqn:Ea. destruct (attempt_of_path _ _ _ _ Ea) as [Hp Hq].
  set (events := default [] loaded ++ [event_of d' pid n elapsed stage]).
  unfold bind, attempt. destruct (save_owner_only _ _ pid suffix (last_events events) s1) as [s2 r2] eqn:E2.
  rewrite Hp, Hq in E2. pose proof (save_replaces _ _ _ _ _ _ _ _ Hn E2) as Hsave. intros [= <- <-].
  split; [by eexists|]. destruct r2 as [[]|e].
  - right. destruct Hsave as (json & Hj & Hf). exists (last_events events), json, n.
    split; [apply last_events_bound|]. split; [|by split].
    destruct (last_events_newest (default [] loaded) (event_of d' pid n elapsed stage)) as (dropped & _ & Hl).
    subst events. rewrite Hl. unfold event_of. do 2 f_equal. unfold attempt_of in Ea. case_match; by injection Ea as <- <-.
  - left. unfold dg_path. rewrite Hsave. apply K1.
Qed.
End Record_.
